(* ===== verification/_CoqProject ===== *)
-Q . S2P
Prelude.v
GoLib.v
Usage.v
Pricing.v
BillingModel.v
Money.v
MoneyProofs.v
Store.v
BillingOps.v
BillingService.v
StoreFacts.v
BillingInv.v
BillingFacts.v
BillingSteps.v
BillingDemo.v
BillingTheorems.v
BillingHistory.v
BillingOpTheorems.v
SchedulerModel.v
Coordinator.v
CoordinatorImpl.v
CoordinatorTheorems.v
CoordinatorDemo.v
SchedulerRepo.v
Scheduler.v
SchedulerOrder.v
SchedulerProofs.v
SelectLeases.v
SelectFacts.v
SelectTheorems.v
PaymentModel.v
PaymentStore.v
PaymentRepo.v
PaymentEvents.v
Secret.v
PaymentFunding.v
PaymentService.v
PaymentWorker.v
BillingRows.v
PaymentMoves.v
PaymentInv.v
PaymentFacts.v
PaymentSteps.v
PaymentMoney.v
PaymentLife.v
PaymentRows.v
PaymentDemo.v
PaymentTheorems.v
PaymentProtocol.v
PaymentQueries.v
UsageModel.v
UsageRepo.v
UsageFacts.v
UsageSteps.v
UsageHistory.v
UsageTheorems.v
Json.v
UsageExtract.v
UsageExtractTheorems.v
ProxyErrors.v
ProxyText.v
ProxyStream.v
ProxyUsage.v
Proxy.v
ProxyFacts.v
ProxyTheorems.v
ProxyCalls.v
ProxyDemo.v
PricingRepo.v
PricingHistory.v
PricingTheorems.v
NetIP.v
ApiKey.v
ApiKeyRepo.v
ApiKeyTheorems.v
Limiters.v
RouteRepo.v
RouteTheorems.v
CredentialRepo.v
CredentialTheorems.v
