(* ===== verification/Prelude.v ===== *)
(** * Bablo: billing, payment, usage, keys, prices, routes, credentials, scheduling and the
    inference proxy

    Bablo is a gateway that resells inference.  A request of an API key reaches
    [internal/proxy]: [internal/apikey] authenticates and authorises it and counts it
    against its limits, it is recorded ([internal/usage]), routed to a target,
    [internal/scheduler] selects and leases a credential for it, [internal/billing]
    holds its highest price in the wallet of the user, the upstream is called, its
    token counts are extracted, and the usage event is priced and settled.  Wallets are
    filled through [internal/payment].  PostgreSQL keeps every business fact, Redis (or
    the process) keeps leases, cursors, affinities and request windows.  This development
    models those packages, [internal/pricing], [internal/route] and [internal/credential], with
    the parts of [internal/secret], [internal/audit], [internal/data], [internal/inference] and of the migrations
    they rest on, from the Go and SQL sources under src/.

    ** Files

    - [Prelude]: machine integers with their wrap-around, results, transactions
      ([tx], [run_tx]), statements over one record of tables ([db_read], [db_write] and
      the others with their inversion tactic [db_inv]) and the [st] state monad, sums
      over lists and tables, hint databases.  [GoLib], [Json], [NetIP]: the functions of
      Go's standard library the code calls; [Json] is the scanner, the decoder and the
      values of encoding/json, [NetIP] the addresses and prefixes of net/netip.
    - [Usage] (usage/model.go), [Pricing] (pricing/model.go, and [validateCreate]
      and [publishable] of service.go; module [PricingProofs]: their properties);
      [PricingRepo] (repository.go and the calls of service.go, over the rows of
      price_versions and model_prices with the rules of migrations 000001 and 000006),
      [PricingHistory] (what a transaction does to a bundle; module [PricingNumeric]:
      decimals through a numeric column), [PricingTheorems] (with [PricingDemo]).
    - Keys.  [ApiKey] (apikey/model.go, secret.go, the validation of service.go; module
      [ApiKeyFacts]), [ApiKeyRepo] (repository.go and the calls of service.go),
      [ApiKeyTheorems] (histories of calls; modules [ApiKeyPolicy] and [ApiKeyDemo]),
      [Limiters] (limiter.go: the windows in memory and in Redis, the interface
      [ExactLimiter] both satisfy; module [LimiterDemo]).
    - Routes.  [RouteRepo] (route/model.go, repository.go, service.go, over the rows of
      model_routes, route_versions and route_targets with the rules of migrations 000001,
      000002 and 000008), [RouteTheorems] (histories of calls; module [RouteDemo]).
    - Credentials.  [CredentialRepo] (credential/model.go, service.go, repository.go, over
      the rows of credentials, credential_secrets, credential_pools, pool_members and
      credential_health with the rules of migrations 000001, 000002, 000007 and 000009),
      [CredentialTheorems] (histories of calls; module [CredentialDemo]).
    - Billing.  [BillingModel] (billing/model.go, the input normalisation of
      service.go, liability.go, payment.go), [Money] (money.go), [MoneyProofs];
      [Store]: the tables of billing as one record [DB], the statements of
      repository.go, liability.go, payment.go and audit.go over it, the CHECK, UNIQUE
      and trigger rules of migrations 000001, 000011 and 000016 they meet, and
      [run_billing] for [Store.WithTx] (data/database.go); [BillingOps] (Reserve,
      Settle, Release, CreditInTx, the liabilities), [BillingService] (payment.go,
      recovery.go and the exported methods); [StoreFacts], [BillingInv],
      [BillingFacts], [BillingSteps]: the invariant [Inv], the step relation [step]
      over the exported operations and the changes other packages make, [reachable];
      [BillingDemo], a concrete history; [BillingTheorems], [BillingHistory],
      [BillingOpTheorems], the properties.
    - Scheduler.  [SchedulerModel] (scheduler/model.go and what it reads of route,
      model, provider and credential), [Coordinator] (coordinator.go: the memory and
      the Redis coordinator, the Lua scripts; module [CoordinatorSpec]: the abstract
      coordinator and the interface [CoordinatorRefines]), [CoordinatorImpl],
      [CoordinatorTheorems], [CoordinatorDemo]; [SchedulerRepo] (repository.go),
      [Scheduler] (service.go, [Select] and all it calls), [SchedulerOrder],
      [SchedulerProofs], [SelectLeases], [SelectFacts], [SelectTheorems]
      (with [SelectDemo]).
    - Payment.  [PaymentModel] (model.go, provider.go), [PaymentStore] (the tables of
      payment beside the billing tables, with the rules of migrations 000012, 000014,
      000015 and 000017), [PaymentRepo] (repository.go, operations.go), [PaymentEvents]
      (events.go), [Secret] (secret/keyring.go), [PaymentFunding] (funding.go,
      voucher.go), [PaymentService] (service.go), [PaymentWorker] (worker.go and the
      maintenance calls); [BillingRows], [PaymentMoves], [PaymentInv], [PaymentFacts],
      [PaymentSteps], [PaymentMoney], [PaymentLife], [PaymentRows]: what statements and
      transactions do, the invariant, the moves of money behind every wallet change;
      [PaymentDemo]; [PaymentTheorems] (with [PaymentHistory]), [PaymentProtocol] (with
      [PaymentFindings]), [PaymentQueries] (with [VoucherCodes]).
    - Usage.  [UsageModel] (model.go, the normalisation of service.go), [UsageRepo]
      (repository.go and the exported methods, over the billing tables and those of
      requests, attempts, reconciliations and outbox deliveries, with the rules of
      migration 000010), [UsageFacts] (with [UsageBooks]), [UsageSteps] (the invariant
      [UInv], the actions and [usage_step]), [UsageHistory], [UsageTheorems]
      (with [UsageDemo]); [UsageExtract] (extract.go, and [UsageExtractFacts]),
      [UsageExtractTheorems].
    - Proxy.  [ProxyErrors] (the errors and their public answers), [ProxyText] (reading
      a request, identifiers, headers, server-sent events), [ProxyStream] (the response
      and [writeStream]), [ProxyUsage] (usage.go), [Proxy] (handler.go, model.go,
      quota.go: [ServeHTTP] and all it calls); the modules [ProxyErrorFacts], [ProxyTextFacts]
      and [ProxyStreamFacts] follow the definitions they are about; [ProxyFacts] (with
      [ProxyMoves] and [ProxyRuns]): what a request does to the tables and the response;
      [ProxyTheorems], [ProxyCalls] (with [ProxyFindings]), the properties; [ProxyDemo], a deployment, its runs and the witnesses.

    ** What the theorems show

    - Books: after any history the balances are the sums of the ledger, stay
      non-negative [int64]s, and the reserved part is what reservations and refunds
      hold; the financial hold, reservations, settlements and liabilities agree;
      history is append-only and statuses only move forward.
    - Operations: what Reserve, Settle, Release, Credit, the liabilities, the
      refunds and the recovery worker do on each branch; retries are idempotent
      after any further history; refusals and their order.
    - Prices: normalisation keeps the value, the quote is the reference price,
      rounded up once, and missing prices fail closed; bundles are well formed.
      Published bundles of a scope never overlap, are complete and never change but
      for their end; a snapshot takes the narrowest scope that has one; amounts read
      back as they were entered.
    - Keys: only the last secret issued for a key opens it, a principal of an earlier
      secret or of a revoked key is refused from the commit on, calls change keys of
      their user only; the models listed for a key are those it is authorised for, a
      new key has exactly its models, an address list means its rules.  In each minute
      no more requests and tokens than the limits are let through, by either limiter, for
      runs whose total stays in the range of the counters.
    - Routes: at each instant from its creation on exactly one version of a route is in
      effect; a resolution is one published version whatever commits meanwhile, and its
      candidates are the targets that were entered, in their order, for ever.
    - Credentials: an active credential opens to the secrets entered last, through
      rotations, re-encryptions and changes of the key ring; secret versions are
      append-only with one version in use; a revoked credential stays closed; the
      health kept is the newest observation's, in whatever order they arrive.
    - Coordination: leases are exclusive and recovered after their deadline,
      cursors are round robins, and both coordinators refine one abstract machine.
    - Selection: eligibility is exact, priorities are respected, weights are
      shares, [Select] returns a leased eligible slot and records it, explains its
      refusals, and leaks no lease whatever other requests do meanwhile, while no
      command or reply is lost on the way to the store.
    - Payments: money enters and leaves wallets only as verified orders, refunds,
      recharges and vouchers say, exactly and once; an event must match its order and
      takes effect once; provider operations are single-flight; orders, vouchers and
      external refunds follow their life cycles; a voucher's code can be shown again
      and is redeemed once; every service call keeps these invariants whatever other
      requests do between its transactions.
    - Usage: a request has one immutable event, announced once; a retried Finalize
      returns it; outbox rows are claimed by one worker at a time and follow their life
      cycle; extracted counts are stated by the payload and, for a payload that names
      each counter once, do not depend on Go's map order.
    - Proxy: a success that is not streamed is recorded, and its cost is settled on the hold
      of the request, unless that was released; the upstream is called at most once, for a
      recorded request whose estimate is held at the price of its target, and the lease is
      released last; a stream delivers the payloads it read, in
      frames that read back, and ends; only listed headers cross; error answers are
      fixed.

    Theorems about behaviour the code does not want: a refund can be completed after
    its hold was released ([BillingOpTheorems]); the quota-aware comparison has cycles
    ([SchedulerProofs]); [Renew] on Redis with less than a millisecond ends the lease
    ([submillisecond_renewal_ends_the_lease]); an [Acquire] sent again finds its own lease, and
    a counter script sent again counts twice ([redis_coordinator_refines_witness],
    [counted_twice]); [PaymentFindings]; a payload with two
    names of a counter ([two_names_of_a_counter_race]); a cost without a hold
    ([ProxyFindings]); one request identifier for two streams
    ([one_identifier_serves_two_streams]); an update of a route that undoes another
    ([an_update_can_enable_a_disabled_route]); a malformed proxy address taken for a name
    ([malformed_proxies_are_accepted]).

    ** Effects, interleaving, bounds

    A billing, payment or usage operation is one transaction or a sequence of them: the
    code takes row locks (FOR UPDATE) and runs serially on a wallet or an order, so an
    interleaving is a sequence of steps.  A statement that violates a rule is an error
    and the transaction is rolled back; after a failed statement the following ones of
    the transaction fail too (SQLSTATE 25P02), and the errors of inner billing
    operations end the callback.  Identifiers come from an explicit stream, clock
    readings are arguments.  PostgreSQL stores times in microseconds ([pg_time]): so do the rows of
    usage, prices, keys, credentials, payment events, vouchers and provider operations; orders
    and the billing rows keep the instants the code computed.  [ClaimPendingSettlements] and [ClaimOutbox] skip rows that others
    locked: any such set is allowed.  In [Select] every external call is preceded by
    any history of other owners' calls ([OtherRequests]), and may be cancelled or lose
    its reply.  The Redis client sends a command again after an error of the connection: a call
    carries the instants of the executions whose replies were lost ([c_sent], [exec]), and the
    abstract coordinator takes a step for each ([cstep]).  In the payment service and in the proxy every transaction and call has
    a number: it is preceded by what others committed, may fail before or after its
    commit, and has its own clock and identifiers.  A call of the route service outside a
    transaction sees the tables of a later history at each of its statements ([Reads]);
    [ResolveSnapshot] and [listAuthorizedModels] read their statements in one state.
    A stream is the list of the results
    of [Next], with what the context and the writer say at each.

    Recursion is structural (lists of rows, members, candidates, events, pages) except
    for a few counters that are enough by theorem or by the code's own bound:
    [findUsage] has the five levels of the code's depth test, [list_pages] 1002 pages
    for the code's 1000 cursors, JSON nests to the 10000 levels of encoding/json,
    unquoting takes at most the length of the text.  Amounts are [Z] in [int64] with the
    wrap-around of the code's operations; [big.Int] is [Z].  [SliceStable] is an
    insertion sort; it is the sort of the library for any strict weak order, and for
    every comparison up to 20 elements, which the library sorts by insertion too.
    Nil receivers and nil contexts are not modelled.

    ** Parameters

    The text of a UUID and its parser ([UuidText], [UuidTextLaws], [UuidParse]), of a
    time ([TimeText]), SHA-256 ([Sha256Hex]), AES-256-GCM ([Aead], [AeadLaws]), the
    constraints of tables outside the model ([SqlGuards], [PaymentGuards],
    [UsageGuards], [DecisionGuard], [PriceGuards], [KeyGuards],
    [RouteGuards], [CredGuards]), the order of texts in the database ([TextOrder],
    in [list_routes] an argument), the
    creation time of outbox rows
    ([OutboxBirth]), the calendar ([WallClock]), Go's map order ([MapOrder],
    [MapOrderLaws]) and the Redis server ([RedisServer] and [HashServer], with the
    documented laws [RedisLaws] and [HashLaws]) are classes; the payment providers and, for the proxy, keys,
    catalogue, routes, scheduler, prices and engine are records of functions; the demo
    files give instances.

    ** Not modelled

    HTTP plumbing, logging, configuration, migrations tooling, cryptography, the web
    front end and the adapters of third-party SDKs ([payment/stripe.go],
    [inference/cpa]) are I/O or library code.  Of the proxy, the goroutine that renews
    leases (only its interval is modelled) and the limits on the time of calls.  The
    catalogue of providers and models is modelled as far as the scheduler, pricing, keys,
    routes and credentials read it: its own services write rows these take as given.
    Sessions and second factors ([internal/auth]) rest on password and TOTP libraries, and
    the quota worker ([internal/quota]) on the answers of providers; neither touches the
    books. *)

From stdpp Require Import base gmap strings list fin_maps sorting.
From Stdlib Require Import ZArith Lia.

#[global] Open Scope Z_scope.

(** ** Hint databases of the development

    [bablo] holds the lemmas that automate the common cases of the bounds and
    of the bookkeeping proofs; [bablo_rw] the rewriting rules. *)
Create HintDb bablo discriminated.
Create Rewrite HintDb bablo_rw.

Declare Scope go_scope.
Delimit Scope go_scope with go.

(** ** Machine integers

    Go's [int64] (and [int] on the 64-bit targets) as [Z] with two's complement
    wrap-around written out. *)
Definition two63 : Z := 9223372036854775808.
Definition max_int64 : Z := 9223372036854775807.
Definition min_int64 : Z := -9223372036854775808.

Definition wrap64 (z : Z) : Z := (z + two63) mod (2 * two63) - two63.

Definition i64_add (a b : Z) : Z := wrap64 (a + b).
Definition i64_sub (a b : Z) : Z := wrap64 (a - b).
Definition i64_mul (a b : Z) : Z := wrap64 (a * b).
Definition i64_neg (a : Z) : Z := wrap64 (- a).

Notation "a +! b" := (i64_add a b) (at level 50, left associativity) : go_scope.
Notation "a -! b" := (i64_sub a b) (at level 50, left associativity) : go_scope.

(** [in_i64 z] : [z] is a value of Go type [int64]. *)
Definition in_i64 (z : Z) : Prop := min_int64 <= z <= max_int64.
(** [nat_i64 z] : [z] is a non-negative [int64], the range of a balance. *)
Definition nat_i64 (z : Z) : Prop := 0 <= z <= max_int64.

Ltac i64_unfold :=
  unfold in_i64, nat_i64, min_int64, max_int64, two63 in *.

Lemma wrap64_id z : in_i64 z -> wrap64 z = z.
Proof. i64_unfold. unfold wrap64, two63. intros. rewrite Z.mod_small; lia. Qed.

Lemma wrap64_range z : in_i64 (wrap64 z).
Proof.
  i64_unfold. unfold wrap64, two63.
  pose proof (Z.mod_pos_bound (z + 9223372036854775808) (2 * 9223372036854775808)).
  lia.
Qed.

Lemma i64_add_id a b : in_i64 (a + b) -> i64_add a b = a + b.
Proof. apply wrap64_id. Qed.
Lemma i64_sub_id a b : in_i64 (a - b) -> i64_sub a b = a - b.
Proof. apply wrap64_id. Qed.
Lemma i64_mul_id a b : in_i64 (a * b) -> i64_mul a b = a * b.
Proof. apply wrap64_id. Qed.
Lemma i64_neg_id a : in_i64 (- a) -> i64_neg a = - a.
Proof. apply wrap64_id. Qed.

(** [i64] removes the wrap-around of the operations whose exact result is
    provably in range. *)
Ltac i64_side := i64_unfold; lia.
Ltac i64 :=
  repeat (first
    [ rewrite i64_add_id in * by i64_side
    | rewrite i64_sub_id in * by i64_side
    | rewrite i64_mul_id in * by i64_side
    | rewrite i64_neg_id in * by i64_side ]).

#[export] Hint Resolve wrap64_range : bablo.

(** ** Results and transactions

    A Go function [func (...) (T, error)] is a [result E T].  A repository
    operation that runs statements inside a PostgreSQL transaction is a
    [tx S E T]: it sees the rows, may change them, and on error nothing of the
    transaction is kept ([run_tx], Go's [Store.WithTx]). *)
Inductive result (E A : Type) : Type :=
| Ok (a : A)
| Err (e : E).
Arguments Ok {E A} a.
Arguments Err {E A} e.

#[export] Instance result_mret E : MRet (result E) := fun A a => Ok a.
#[export] Instance result_mbind E : MBind (result E) := fun A B f m =>
  match m with Ok a => f a | Err e => Err e end.
#[export] Instance result_fmap E : FMap (result E) := fun A B f m =>
  match m with Ok a => Ok (f a) | Err e => Err e end.

Definition is_ok {E A} (r : result E A) : bool :=
  match r with Ok _ => true | Err _ => false end.

Definition map_err {E F A} (f : E -> F) (r : result E A) : result F A :=
  match r with Ok a => Ok a | Err e => Err (f e) end.

Definition tx (S E A : Type) : Type := S -> result E (S * A).

#[export] Instance tx_mret S E : MRet (tx S E) := fun A a s => Ok (s, a).
#[export] Instance tx_mbind S E : MBind (tx S E) := fun A B f m s =>
  match m s with
  | Ok (s', a) => f a s'
  | Err e => Err e
  end.

Definition tx_fail {S E A} (e : E) : tx S E A := fun _ => Err e.
Definition tx_get {S E} : tx S E S := fun s => Ok (s, s).
Definition tx_gets {S E A} (f : S -> A) : tx S E A := fun s => Ok (s, f s).
Definition tx_lift {S E A} (r : result E A) : tx S E A := fun s =>
  match r with Ok a => Ok (s, a) | Err e => Err e end.
(** [tx_when b e] is Go's [if b { return e }]. *)
Definition tx_when {S E} (b : bool) (e : E) : tx S E unit := fun s =>
  if b then Err e else Ok (s, tt).

(** [Store.WithTx]: commit when the callback succeeds, roll back otherwise. *)
Definition run_tx {S E A} (m : tx S E A) (s : S) : S * result E A :=
  match m s with
  | Ok (s', a) => (s', Ok a)
  | Err e => (s, Err e)
  end.

(** A computation that changes a state and returns a value; errors are values. *)
Definition st (S A : Type) : Type := S -> S * A.
#[export] Instance st_mret S : MRet (st S) := fun A a s => (s, a).
#[export] Instance st_mbind S : MBind (st S) := fun A B f m s => let '(s', a) := m s in f a s'.

Lemma st_bind_eq {S A B} (m : st S A) (f : A -> st S B) s :
  (m ≫= f) s = f (m s).2 (m s).1.
Proof. unfold mbind, st_mbind. by destruct (m s). Qed.

Lemma st_bind_run {S A B} (m : st S A) (f : A -> st S B) s s' b :
  (m ≫= f) s = (s', b) -> exists s1 a, m s = (s1, a) /\ f a s1 = (s', b).
Proof. unfold mbind, st_mbind. destruct (m s) as [s1 a]. eauto. Qed.

(** A computation whose error leaves the state it had reached: what a Go callback
    that looks at an error and goes on with the same transaction needs.  [commit]
    is [Store.WithTx] for it. *)
Definition stx (S E A : Type) : Type := S -> S * result E A.

#[export] Instance stx_mret S E : MRet (stx S E) := fun A a s => (s, Ok a).
#[export] Instance stx_mbind S E : MBind (stx S E) := fun A B f m s =>
  match m s with
  | (s', Ok a) => f a s'
  | (s', Err e) => (s', Err e)
  end.

Definition stx_fail {S E A} (e : E) : stx S E A := fun s => (s, Err e).
Definition stx_gets {S E A} (f : S -> A) : stx S E A := fun s => (s, Ok (f s)).
Definition stx_lift {S E A} (r : result E A) : stx S E A := fun s => (s, r).
Definition stx_when {S E} (b : bool) (e : E) : stx S E unit := fun s =>
  (s, if b then Err e else Ok tt).

Definition commit {S E A} (m : stx S E A) (s : S) : S * result E A :=
  match m s with
  | (s', Ok a) => (s', Ok a)
  | (_, Err e) => (s, Err e)
  end.

Lemma stx_bind_ok {S E A B} (m : stx S E A) (f : A -> stx S E B) s s' b :
  (m ≫= f) s = (s', Ok b) -> exists s1 a, m s = (s1, Ok a) /\ f a s1 = (s', Ok b).
Proof. unfold mbind, stx_mbind. destruct (m s) as [s1 [a|e]]; [by eauto|by intros [=]]. Qed.

Lemma stx_bind_err {S E A B} (m : stx S E A) (f : A -> stx S E B) s s' e :
  (m ≫= f) s = (s', Err e) ->
  m s = (s', Err e) \/ exists s1 a, m s = (s1, Ok a) /\ f a s1 = (s', Err e).
Proof. unfold mbind, stx_mbind. destruct (m s) as [s1 [a|e1]]; [by eauto|]. intros [= -> ->]. by left. Qed.

Lemma stx_bind_eq {S E A B} (m : stx S E A) (f : A -> stx S E B) s s1 a :
  m s = (s1, Ok a) -> (m ≫= f) s = f a s1.
Proof. unfold mbind, stx_mbind. by intros ->. Qed.

Lemma stx_when_ok {S E} b (e : E) (s s' : S) u :
  stx_when b e s = (s', Ok u) -> b = false /\ s' = s.
Proof. unfold stx_when. destruct b; naive_solver. Qed.

Lemma stx_lift_ok {S E A} (r : result E A) (s s' : S) a :
  stx_lift r s = (s', Ok a) -> r = Ok a /\ s' = s.
Proof. unfold stx_lift. naive_solver. Qed.

Lemma commit_ok {S E A} (m : stx S E A) s s' a :
  commit m s = (s', Ok a) <-> m s = (s', Ok a).
Proof. unfold commit. destruct (m s) as [s1 [?|?]]; naive_solver. Qed.

Lemma commit_err {S E A} (m : stx S E A) s s' e :
  commit m s = (s', Err e) -> s' = s.
Proof. unfold commit. destruct (m s) as [s1 [?|?]]; naive_solver. Qed.

Lemma result_bind_ok {E A B} (m : result E A) (f : A -> result E B) b :
  m ≫= f = Ok b -> exists a, m = Ok a /\ f a = Ok b.
Proof. destruct m; [by eauto | done]. Qed.

Lemma result_bind_err {E A B} (m : result E A) (f : A -> result E B) e :
  m ≫= f = Err e -> m = Err e \/ exists a, m = Ok a /\ f a = Err e.
Proof. destruct m; naive_solver. Qed.

Lemma tx_bind_ok {S E A B} (m : tx S E A) (f : A -> tx S E B) s s' b :
  (m ≫= f) s = Ok (s', b) -> exists s1 a, m s = Ok (s1, a) /\ f a s1 = Ok (s', b).
Proof.
  unfold mbind, tx_mbind. destruct (m s) as [[s1 a]|]; [by eauto | done].
Qed.

Lemma tx_bind_eq {S E A B} (m : tx S E A) (f : A -> tx S E B) s s1 a :
  m s = Ok (s1, a) -> (m ≫= f) s = f a s1.
Proof. unfold mbind, tx_mbind. by intros ->. Qed.

Lemma tx_when_ok {S E} b (e : E) (s s' : S) u :
  tx_when b e s = Ok (s', u) -> b = false /\ s' = s.
Proof. unfold tx_when. destruct b; naive_solver. Qed.

Lemma tx_lift_ok {S E A} (r : result E A) (s s' : S) a :
  tx_lift r s = Ok (s', a) -> r = Ok a /\ s' = s.
Proof. unfold tx_lift. destruct r; naive_solver. Qed.

Lemma run_tx_ok {S E A} (m : tx S E A) s s' a :
  run_tx m s = (s', Ok a) <-> m s = Ok (s', a).
Proof. unfold run_tx. destruct (m s) as [[??]|]; naive_solver. Qed.

Lemma run_tx_err {S E A} (m : tx S E A) s s' e :
  run_tx m s = (s', Err e) -> s' = s /\ m s = Err e.
Proof. unfold run_tx. destruct (m s) as [[??]|]; naive_solver. Qed.

(** [stx_step] inverts one statement of a sequence that succeeded. *)
Ltac stx_step :=
  match goal with
  | H : (_ ≫= _) _ = (_, Ok _) |- _ => apply stx_bind_ok in H as (? & ? & ? & H)
  | H : mret _ _ = (_, Ok _) |- _ => injection H as ??; subst
  | H : stx_gets _ _ = (_, Ok _) |- _ => injection H as ??; subst
  | H : stx_fail _ _ = (_, Ok _) |- _ => discriminate H
  | H : stx_when _ _ _ = (_, Ok _) |- _ => apply stx_when_ok in H as [? ?]; subst
  | H : stx_lift _ _ = (_, Ok _) |- _ => apply stx_lift_ok in H as [? ?]; subst
  | H : (_, Err _) = (_, Ok _) |- _ => discriminate H
  | H : (_, Ok _) = (_, Ok _) |- _ => injection H as ??; subst
  end.

(** [tx_inv] inverts every hypothesis that says a sequence of statements
    succeeded, one statement at a time. *)
Ltac tx_step :=
  match goal with
  | H : (_ ≫= _) _ = Ok (_, _) |- _ =>
      apply tx_bind_ok in H as (? & ? & ? & H)
  | H : mret _ _ = Ok (_, _) |- _ => injection H as ??; subst
  | H : tx_gets _ _ = Ok (_, _) |- _ => injection H as ??; subst
  | H : tx_get _ = Ok (_, _) |- _ => injection H as ??; subst
  | H : tx_fail _ _ = Ok (_, _) |- _ => discriminate H
  | H : tx_when _ _ _ = Ok (_, _) |- _ => apply tx_when_ok in H as [? ?]; subst
  | H : tx_lift _ _ = Ok (_, _) |- _ => apply tx_lift_ok in H as [? ?]; subst
  | H : Ok _ = Ok _ |- _ => injection H as H
  | H : Err _ = Ok _ |- _ => discriminate H
  | H : (_, _) = (_, _) |- _ => injection H as ??; subst
  end.
Ltac tx_inv := repeat (tx_step; simpl in *).

(** ** Sums over lists and maps *)
Definition lsum {A} (f : A -> Z) (l : list A) : Z := foldr (fun x acc => f x + acc) 0 l.

Lemma lsum_nil {A} (f : A -> Z) : lsum f [] = 0.
Proof. done. Qed.
Lemma lsum_cons {A} (f : A -> Z) x l : lsum f (x :: l) = f x + lsum f l.
Proof. done. Qed.
Lemma lsum_app {A} (f : A -> Z) l1 l2 : lsum f (l1 ++ l2) = lsum f l1 + lsum f l2.
Proof. induction l1; simpl; rewrite ?IHl1; lia. Qed.
Lemma lsum_ext {A} (f g : A -> Z) l :
  (forall x, x ∈ l -> f x = g x) -> lsum f l = lsum g l.
Proof.
  induction l as [|x l IH]; intros H; [done|]. rewrite !lsum_cons, IH.
  - rewrite H; [done|apply list_elem_of_here].
  - intros y Hy. apply H. by apply list_elem_of_further.
Qed.
Lemma lsum_nonneg {A} (f : A -> Z) l : (forall x, x ∈ l -> 0 <= f x) -> 0 <= lsum f l.
Proof.
  induction l as [|x l IH]; intros H; [done|]. rewrite lsum_cons.
  pose proof (H x ltac:(apply list_elem_of_here)).
  assert (0 <= lsum f l) by (apply IH; intros; apply H; by apply list_elem_of_further). lia.
Qed.
Lemma lsum_zero {A} (f : A -> Z) l : (forall x, x ∈ l -> f x = 0) -> lsum f l = 0.
Proof.
  intros H. rewrite (lsum_ext f (fun _ => 0)) by done. clear H.
  induction l; [done|]. rewrite lsum_cons. lia.
Qed.
Lemma lsum_perm {A} (f : A -> Z) l1 l2 : l1 ≡ₚ l2 -> lsum f l1 = lsum f l2.
Proof. induction 1; rewrite ?lsum_cons; lia. Qed.

Lemma prefix_eq {A} (l1 l2 : list A) : l1 = l2 -> l1 `prefix_of` l2.
Proof. by intros ->. Qed.

#[export] Hint Rewrite @lsum_nil @lsum_cons @lsum_app : bablo_rw.

Section maps.
Context `{Countable K} {V : Type}.
Implicit Types (m : gmap K V) (f : V -> Z).

(** [msum f m]: the sum of [f] over the rows of a table. *)
Definition msum (f : V -> Z) (m : gmap K V) : Z := lsum (fun kv => f kv.2) (map_to_list m).

Lemma msum_empty f : msum f ∅ = 0.
Proof. unfold msum. by rewrite map_to_list_empty. Qed.

Lemma msum_insert_fresh f m k v : m !! k = None -> msum f (<[k:=v]> m) = f v + msum f m.
Proof.
  intros Hk. unfold msum.
  by rewrite (lsum_perm _ _ ((k, v) :: map_to_list m)) by by apply map_to_list_insert.
Qed.

Lemma msum_lookup f m k v : m !! k = Some v -> msum f m = f v + msum f (delete k m).
Proof.
  intros Hk. rewrite <- (msum_insert_fresh _ _ k) by apply lookup_delete_eq.
  by rewrite insert_delete_eq, insert_id.
Qed.

Lemma msum_update f m k v v' :
  m !! k = Some v -> msum f (<[k:=v']> m) = msum f m - f v + f v'.
Proof.
  intros Hk. rewrite (msum_lookup f m k v Hk).
  rewrite (msum_lookup f (<[k:=v']> m) k v') by apply lookup_insert_eq.
  rewrite delete_insert_eq. lia.
Qed.

Lemma msum_ext f g m : (forall k v, m !! k = Some v -> f v = g v) -> msum f m = msum g m.
Proof.
  intros Hfg. apply lsum_ext. intros [k v] Hin. simpl.
  apply (Hfg k). by apply elem_of_map_to_list.
Qed.

Lemma msum_nonneg f m : (forall k v, m !! k = Some v -> 0 <= f v) -> 0 <= msum f m.
Proof.
  intros Hf. apply lsum_nonneg. intros [k v] Hin. simpl.
  apply (Hf k). by apply elem_of_map_to_list.
Qed.

Lemma msum_zero f m : (forall k v, m !! k = Some v -> f v = 0) -> msum f m = 0.
Proof.
  intros Hf. apply lsum_zero. intros [k v] Hin. simpl.
  apply (Hf k). by apply elem_of_map_to_list.
Qed.

Lemma msum_ge f m k v :
  (forall k v, m !! k = Some v -> 0 <= f v) -> m !! k = Some v -> f v <= msum f m.
Proof.
  intros Hf Hk. rewrite (msum_lookup f m k v Hk).
  enough (0 <= msum f (delete k m)) by lia.
  apply msum_nonneg. intros k' v' [_ Hk']%lookup_delete_Some. by apply (Hf k').
Qed.

(** [map_find p m]: the row a [SELECT ... WHERE p] with at most one match returns. *)
Definition map_find (p : V -> bool) (m : gmap K V) : option V :=
  snd <$> head (filter (fun kv : K * V => p kv.2 = true) (map_to_list m)).

Lemma map_find_Some p m v : map_find p m = Some v -> exists k, m !! k = Some v /\ p v = true.
Proof.
  unfold map_find. intros Hf. apply fmap_Some in Hf as ([k v'] & Hhd & ->). simpl.
  assert ((k, v') ∈ filter (fun kv : K * V => p kv.2 = true) (map_to_list m)) as Hin.
  { destruct (filter _ _) as [|x l]; [done|]. injection Hhd as ->. apply list_elem_of_here. }
  apply list_elem_of_filter in Hin as [Hp Hin]. exists k. split; [|done].
  by apply elem_of_map_to_list.
Qed.

Lemma map_find_None p m k v : map_find p m = None -> m !! k = Some v -> p v = false.
Proof.
  unfold map_find. intros Hf Hk. apply fmap_None in Hf.
  destruct (p v) eqn:Hp; [|done]. exfalso.
  assert ((k, v) ∈ filter (fun kv : K * V => p kv.2 = true) (map_to_list m)) as Hin.
  { apply list_elem_of_filter. split; [done|]. by apply elem_of_map_to_list. }
  destruct (filter _ _); [by apply elem_of_nil in Hin | done].
Qed.

(** [map_any p m]: SQL's [EXISTS (SELECT 1 ... WHERE p)]. *)
Definition map_any (p : V -> bool) (m : gmap K V) : bool :=
  existsb (fun kv => p kv.2) (map_to_list m).

Lemma map_any_true p m : map_any p m = true <-> exists k v, m !! k = Some v /\ p v = true.
Proof.
  unfold map_any. rewrite existsb_exists. split.
  - intros ([k v] & Hin & Hp). exists k, v. split; [|done].
    by apply elem_of_map_to_list, list_elem_of_In.
  - intros (k & v & Hk & Hp). exists (k, v). split; [|done].
    by apply list_elem_of_In, elem_of_map_to_list.
Qed.

Lemma map_any_false p m : map_any p m = false <-> forall k v, m !! k = Some v -> p v = false.
Proof.
  rewrite <- not_true_iff_false, map_any_true. split.
  - intros Hn k v Hk. destruct (p v) eqn:?; [|done]. exfalso. eauto.
  - intros Hn (k & v & Hk & Hp). by rewrite (Hn k v Hk) in Hp.
Qed.
Lemma map_any_update p m k v v' :
  m !! k = Some v -> p v' = p v -> map_any p (<[k:=v']> m) = map_any p m.
Proof.
  intros Hk Hp. apply Bool.eq_iff_eq_true. rewrite !map_any_true. split.
  - intros (k0 & x & [[<- <-]|[_ Hx]]%lookup_insert_Some & Hpx); [|by eauto].
    exists k, v. by rewrite <- Hp.
  - intros (k0 & x & Hx & Hpx). destruct (decide (k = k0)) as [<-|Hne].
    + exists k, v'. rewrite lookup_insert_eq, Hp. naive_solver.
    + exists k0, x. by rewrite lookup_insert_ne.
Qed.

Lemma map_any_fresh p m k v : m !! k = None -> map_any p (<[k:=v]> m) = p v || map_any p m.
Proof.
  intros Hk. apply Bool.eq_iff_eq_true. rewrite orb_true_iff, !map_any_true. split.
  - intros (k0 & x & [[<- <-]|[_ Hx]]%lookup_insert_Some & Hpx); eauto.
  - intros [Hp|(k0 & x & Hx & Hpx)].
    + exists k, v. by rewrite lookup_insert_eq.
    + exists k0, x. rewrite lookup_insert_ne by congruence. done.
Qed.
End maps.

(** The greatest number of the rows that [sel] takes. *)
Lemma map_max_spec `{Countable K} {A} (sel : A -> bool) (no : A -> Z) (m : gmap K A) :
  let n := foldr (fun kv n => if sel kv.2 then Z.max (no kv.2) n else n) 0 (map_to_list m) in
  (forall k x, m !! k = Some x -> sel x = true -> no x <= n)
  /\ (n = 0 \/ exists k x, m !! k = Some x /\ sel x = true /\ no x = n).
Proof.
  cbv zeta. set (f := fun (kv : K * A) n => _).
  assert (forall l, (forall k x, (k, x) ∈ l -> m !! k = Some x) ->
    (forall k x, (k, x) ∈ l -> sel x = true -> no x <= foldr f 0 l)
    /\ (foldr f 0 l = 0 \/ exists k x, m !! k = Some x /\ sel x = true /\ no x = foldr f 0 l)) as Hl.
  { induction l as [|[b w] l IH]; intros Hin; [split; [intros ? ? Hx; by apply elem_of_nil in Hx|by left]|].
    destruct IH as [IH1 IH2]; [intros k x Hx; apply Hin; by constructor|].
    assert (foldr f 0 ((b, w) :: l) = if sel w then Z.max (no w) (foldr f 0 l) else foldr f 0 l) as -> by done.
    destruct (sel w) eqn:E.
    - split.
      + intros k x [[= -> ->]|Hx]%elem_of_cons Hs; [lia|]. specialize (IH1 _ _ Hx Hs). lia.
      + destruct (Z.max_spec (no w) (foldr f 0 l)) as [[_ ->]|[_ ->]]; [done|]. right. exists b, w. split; [apply Hin; constructor|done].
    - split; [|done]. intros k x [[= -> ->]|Hx]%elem_of_cons Hs; [congruence|by eapply IH1]. }
  destruct (Hl (map_to_list m)) as [M1 M2]; [intros k x; by rewrite elem_of_map_to_list|]. split; [|exact M2].
  intros k x Hx. apply (M1 k). by apply elem_of_map_to_list.
Qed.

(** ** Statements over a record of tables

    A transaction threads the stream of new identifiers and the tables [D]. *)
Section tables.
Context {I D E : Type}.
Definition db_read {A} (f : D -> A) : tx (list I * D) E A := fun s => Ok (s, f s.2).
Definition db_write (f : D -> D) : tx (list I * D) E unit := fun s => Ok ((s.1, f s.2), tt).
Definition db_check (ok : bool) (e : E) : tx (list I * D) E unit := if ok then mret tt else tx_fail e.
Definition db_some {A} (o : option A) (e : E) : tx (list I * D) E A :=
  match o with Some a => mret a | None => tx_fail e end.
(** [id.New]; [e] is the error of an exhausted entropy source. *)
Definition db_id (e : E) : tx (list I * D) E I := fun s =>
  match s.1 with i :: rest => Ok ((rest, s.2), i) | [] => Err e end.
(** [Store.WithTx]. *)
Definition db_run {A} (ids : list I) (m : tx (list I * D) E A) (d : D) : D * result E A :=
  match m (ids, d) with
  | Ok ((_, d'), a) => (d', Ok a)
  | Err e => (d, Err e)
  end.

Lemma db_read_ok {A} (f : D -> A) s s' a : db_read f s = Ok (s', a) -> s' = s /\ a = f s.2.
Proof. by intros [= <- <-]. Qed.
Lemma db_write_ok f ids d s' u : db_write f (ids, d) = Ok (s', u) -> s' = (ids, f d).
Proof. by intros [= <-]. Qed.
Lemma db_check_ok b e s s' u : db_check b e s = Ok (s', u) -> b = true /\ s' = s.
Proof. unfold db_check. destruct b; [by intros [= <-]|done]. Qed.
Lemma db_some_ok {A} (o : option A) e s s' a : db_some o e s = Ok (s', a) -> o = Some a /\ s' = s.
Proof. unfold db_some. destruct o; [by intros [= <- <-]|done]. Qed.
Lemma db_id_ok e ids d s' i : db_id e (ids, d) = Ok (s', i) -> exists rest, ids = i :: rest /\ s' = (rest, d).
Proof. unfold db_id. simpl. destruct ids as [|x ids]; [done|]. intros [= <- <-]. by eexists. Qed.
Lemma db_run_ok {A} ids (m : tx (list I * D) E A) d d' r : db_run ids m d = (d', r) ->
  (exists s a, m (ids, d) = Ok (s, a) /\ d' = s.2 /\ r = Ok a) \/ (exists e, r = Err e /\ d' = d).
Proof.
  unfold db_run. destruct (m (ids, d)) as [[[rest q] a]|e]; intros [= <- <-]; [left|right; by exists e].
  by exists (rest, q), a.
Qed.
End tables.

(** [db_inv] inverts every statement of a transaction that succeeded. *)
Ltac db_step :=
  match goal with
  | H : db_read _ _ = Ok (_, _) |- _ => apply db_read_ok in H as [? ?]; subst
  | H : db_write _ (_, _) = Ok (_, _) |- _ => apply db_write_ok in H; subst
  | H : db_check _ _ _ = Ok (_, _) |- _ => apply db_check_ok in H as [? ?]; subst
  | H : db_some _ _ _ = Ok (_, _) |- _ => apply db_some_ok in H as [? ?]; subst
  | H : db_id _ (_, _) = Ok (_, _) |- _ =>
      let rest := fresh "ids" in apply db_id_ok in H as (rest & ? & ?); subst
  | H : tx_fail _ _ = Ok (_, _) |- _ => discriminate H
  | _ => tx_step
  end.
Ltac db_inv := repeat (db_step; cbn [fst snd] in * ).
