(* ===== verification/GoLib.v ===== *)
(** * The parts of Go's standard library the modelled packages use

    Go strings are byte strings ([string], one [ascii] per byte), so [len(s)]
    is [String.length s].  [TrimSpace] strips every rune of [unicode.IsSpace],
    multi-byte encodings included.  [ToUpper] is exact on ASCII and on the two
    non-ASCII letters whose upper case is ASCII (U+0131 and U+017F); other
    non-ASCII letters are left as they are, and no modelled caller
    distinguishes one non-ASCII letter from another.  Identifiers of package
    [github.com/google/uuid] are 128-bit numbers whose text form is a
    parameter. *)

From S2P Require Import Prelude.
From stdpp Require Import base gmap strings list pretty.
From Stdlib Require Import ZArith Lia Ascii String.

#[global] Open Scope string_scope.
#[global] Open Scope Z_scope.

(** ** Bytes *)
Definition code (c : ascii) : Z := Z.of_N (N_of_ascii c).

Definition is_digit (c : ascii) : bool := (48 <=? code c) && (code c <=? 57).
Definition is_upper (c : ascii) : bool := (65 <=? code c) && (code c <=? 90).
Definition is_lower (c : ascii) : bool := (97 <=? code c) && (code c <=? 122).

Fixpoint forall_bytes (p : ascii -> bool) (s : string) : bool :=
  match s with
  | EmptyString => true
  | String c s' => p c && forall_bytes p s'
  end.

Definition exists_byte (p : ascii -> bool) (s : string) : bool :=
  negb (forall_bytes (fun c => negb (p c)) s).

Definition slen (s : string) : Z := Z.of_nat (String.length s).

Fixpoint srev_app (s acc : string) : string :=
  match s with
  | EmptyString => acc
  | String c s' => srev_app s' (String c acc)
  end.
Definition srev (s : string) : string := srev_app s "".

(** ** [strings.TrimSpace] *)
Definition space1 (a : ascii) : bool :=
  let x := code a in ((9 <=? x) && (x <=? 13)) || (x =? 32).
(** U+0085 and U+00A0. *)
Definition space2 (a b : ascii) : bool :=
  (code a =? 194) && ((code b =? 133) || (code b =? 160)).
(** U+1680, U+2000..U+200A, U+2028, U+2029, U+202F, U+205F, U+3000. *)
Definition space3 (a b c : ascii) : bool :=
  let x := code a in let y := code b in let z := code c in
  ((x =? 225) && (y =? 154) && (z =? 128))
  || ((x =? 226) && (y =? 128) &&
      (((128 <=? z) && (z <=? 138)) || (z =? 168) || (z =? 169) || (z =? 175)))
  || ((x =? 226) && (y =? 129) && (z =? 159))
  || ((x =? 227) && (y =? 128) && (z =? 128)).

(** [strip s1 s2 s3 s] drops leading encodings recognised by the predicates. *)
Fixpoint strip (s1 : ascii -> bool) (s2 : ascii -> ascii -> bool)
    (s3 : ascii -> ascii -> ascii -> bool) (s : string) : string :=
  match s with
  | EmptyString => EmptyString
  | String a t =>
      if s1 a then strip s1 s2 s3 t else
      match t with
      | EmptyString => s
      | String b u =>
          if s2 a b then strip s1 s2 s3 u else
          match u with
          | EmptyString => s
          | String c v => if s3 a b c then strip s1 s2 s3 v else s
          end
      end
  end.

Definition TrimLeftSpace (s : string) : string := strip space1 space2 space3 s.
Definition TrimRightSpace (s : string) : string :=
  srev (strip space1 (fun a b => space2 b a) (fun a b c => space3 c b a) (srev s)).
Definition TrimSpace (s : string) : string := TrimRightSpace (TrimLeftSpace s).

(** ** [strings.ToUpper] *)
Definition upper_byte (c : ascii) : ascii :=
  if is_lower c then ascii_of_N (N_of_ascii c - 32) else c.

Fixpoint ToUpper (s : string) : string :=
  match s with
  | EmptyString => EmptyString
  | String a t =>
      match t with
      | String b u =>
          if (code a =? 196) && (code b =? 177) then String "I" (ToUpper u)
          else if (code a =? 197) && (code b =? 191) then String "S" (ToUpper u)
          else String (upper_byte a) (ToUpper t)
      | EmptyString => String (upper_byte a) EmptyString
      end
  end.

(** ** Other functions of package [strings] *)
Definition ContainsByte (b : ascii) (s : string) : bool := exists_byte (Ascii.eqb b) s.

(** [strings.ContainsAny(value, "\r\n\x00")]. *)
Definition contains_control (s : string) : bool :=
  exists_byte (fun c => (code c =? 13) || (code c =? 10) || (code c =? 0)) s.

Definition HasPrefixByte (b : ascii) (s : string) : bool :=
  match s with String c _ => Ascii.eqb b c | EmptyString => false end.

(** [strings.TrimLeft(s, cutset)] for a one-byte cutset. *)
Fixpoint TrimLeftByte (b : ascii) (s : string) : string :=
  match s with
  | String c t => if Ascii.eqb b c then TrimLeftByte b t else s
  | EmptyString => EmptyString
  end.
Definition TrimRightByte (b : ascii) (s : string) : string := srev (TrimLeftByte b (srev s)).
(** [strings.TrimSuffix(s, b)] for a one-byte suffix. *)
Definition TrimSuffixByte (b : ascii) (s : string) : string :=
  match srev s with
  | String c t => if Ascii.eqb b c then srev t else s
  | EmptyString => EmptyString
  end.

(** [strings.Split(s, sep)] for a one-byte separator. *)
Fixpoint SplitByte (b : ascii) (s : string) : list string :=
  match s with
  | EmptyString => [EmptyString]
  | String c t =>
      if Ascii.eqb b c then EmptyString :: SplitByte b t
      else match SplitByte b t with
           | w :: ws => String c w :: ws
           | [] => [String c EmptyString]
           end
  end.

Fixpoint RepeatByte (b : ascii) (n : nat) : string :=
  match n with O => EmptyString | S n' => String b (RepeatByte b n') end.

(** [new(big.Int).SetString(s, 10)] on a string of decimal digits. *)
Fixpoint digits_value (acc : Z) (s : string) : option Z :=
  match s with
  | EmptyString => Some acc
  | String c t => if is_digit c then digits_value (10 * acc + (code c - 48)) t else None
  end.
Definition big_SetString (s : string) : option Z :=
  match s with EmptyString => None | _ => digits_value 0 s end.

(** ** Package [time]

    A [time.Time] in UTC is its number of nanoseconds since the zero time,
    midnight of 1 January of year 1; [UTC()] does not change the instant. *)
Definition time := Z.
Definition IsZero (t : time) : bool := t =? 0.
Definition After (t u : time) : bool := u <? t.
Definition Before (t u : time) : bool := t <? u.
Definition Second : Z := 1000000000.
Definition Minute : Z := 60 * Second.
Definition Hour : Z := 60 * Minute.
Definition Day : Z := 24 * Hour.
Definition Millisecond : Z := 1000000.
(** [Sub] saturates at the range of [Duration]. *)
Definition Sub (t u : time) : Z := Z.max min_int64 (Z.min max_int64 (t - u)).

(** A [timestamptz] column keeps microseconds: the driver truncates. *)
Definition pg_time (t : time) : time := t - t mod 1000.

(** [Format(time.RFC3339Nano)], which is also the JSON text of an instant. *)
Class TimeText := rfc3339 : time -> string.

(** ** [strconv.Itoa] *)
Definition Itoa (n : Z) : string := pretty n.

(** ** [sort.SliceStable]

    Insertion of each element after the ones it is not less than, Go's
    [insertionSort].  Go uses it on blocks of 20 elements and merges the blocks:
    the result is the same whenever [less] is a strict weak order, and for up to
    20 elements whatever [less] is. *)
Fixpoint insert_before {A} (less : A -> A -> bool) (x : A) (rev_sorted : list A) : list A :=
  match rev_sorted with
  | [] => [x]
  | y :: l => if less x y then y :: insert_before less x l else x :: rev_sorted
  end.
Definition SliceStable {A} (less : A -> A -> bool) (l : list A) : list A :=
  reverse (foldl (fun acc x => insert_before less x acc) [] l).

(** ** Package [uuid] *)
Definition uuid := N.
Definition uuid_nil : uuid := 0%N.
Definition uuid_eqb (a b : uuid) : bool := N.eqb a b.

(** [UUID.String], third-party code: a parameter. *)
Class UuidText := uuid_string : uuid -> string.
(** Documented: distinct identifiers have distinct texts, made of hexadecimal
    digits and dashes. *)
Class UuidTextLaws (T : UuidText) : Prop := {
  uuid_string_inj : Inj (=) (=) (@uuid_string T);
  uuid_string_plain : forall u,
    forall_bytes (fun c => is_digit c || is_lower c || Ascii.eqb c "-") (@uuid_string T u) = true
}.

(** Pointers to identifiers. *)
Definition opt_uuid_eqb (a b : option uuid) : bool :=
  match a, b with
  | Some x, Some y => uuid_eqb x y
  | None, None => true
  | _, _ => false
  end.

Lemma opt_uuid_eqb_eq a b : opt_uuid_eqb a b = true <-> a = b.
Proof.
  unfold opt_uuid_eqb, uuid_eqb.
  destruct a, b; rewrite ?N.eqb_eq; split; congruence.
Qed.

Lemma uuid_eqb_eq a b : uuid_eqb a b = true <-> a = b.
Proof. apply N.eqb_eq. Qed.
Lemma uuid_eqb_neq a b : uuid_eqb a b = false <-> a <> b.
Proof. apply N.eqb_neq. Qed.
Lemma uuid_eqb_refl a : uuid_eqb a a = true.
Proof. apply N.eqb_refl. Qed.

(** ** Errors of package [pgx]: no row, or the SQLSTATE of the server. *)
Inductive sqlerr := NoRows | SqlState (sqlstate : string).
#[export] Instance sqlerr_eq_dec : EqDecision sqlerr.
Proof. solve_decision. Defined.

(** ** Lemmas on byte strings *)
Lemma sapp_assoc (s t u : string) : s +:+ (t +:+ u) = (s +:+ t) +:+ u.
Proof. induction s as [|c s IH]; [done|]. unfold String.append in *. simpl. by f_equal. Qed.

Lemma sapp_nil_r (s : string) : s +:+ "" = s.
Proof. induction s as [|c s IH]; [done|]. unfold String.append in *. simpl. by f_equal. Qed.

Lemma slen_app s t : slen (s +:+ t) = slen s + slen t.
Proof.
  unfold slen, String.append. induction s as [|c s IH]; [done|]. simpl String.length. lia.
Qed.

Lemma slen_nonneg s : 0 <= slen s.
Proof. unfold slen. lia. Qed.

Lemma srev_app_app s acc : srev_app s acc = srev s +:+ acc.
Proof.
  unfold srev. revert acc. induction s as [|c s IH]; intros acc; simpl; [done|].
  rewrite IH, (IH (String c "")). by rewrite <- sapp_assoc.
Qed.

Lemma srev_cons c s : srev (String c s) = srev s +:+ String c "".
Proof. unfold srev. simpl. by rewrite srev_app_app. Qed.

Lemma srev_append s t : srev (s +:+ t) = srev t +:+ srev s.
Proof.
  induction s as [|c s IH].
  - by rewrite sapp_nil_r.
  - change (String c s +:+ t) with (String c (s +:+ t)).
    by rewrite !srev_cons, IH, sapp_assoc.
Qed.

Lemma srev_involutive s : srev (srev s) = s.
Proof. induction s as [|c s IH]; [done|]. by rewrite srev_cons, srev_append, IH. Qed.

Lemma slen_srev s : slen (srev s) = slen s.
Proof.
  induction s as [|c s IH]; [done|]. rewrite srev_cons, slen_app, IH.
  unfold slen. simpl. lia.
Qed.

(** [strip] removes a prefix, is idempotent, and commutes with truncation. *)
Lemma strip_suffix s1 s2 s3 n s :
  (String.length s <= n)%nat -> exists p, s = p +:+ strip s1 s2 s3 s.
Proof.
  revert s. induction n as [|n IH]; intros s Hn.
  { destruct s; [by exists ""|simpl in Hn; lia]. }
  destruct s as [|a [|b [|c v]]]; simpl in *.
  - by exists "".
  - destruct (s1 a); [by exists (String a "") | by exists ""].
  - destruct (s1 a).
    + destruct (IH (String b "")) as [p Hp]; [simpl; lia|].
      exists (String a p). simpl in *. by rewrite Hp at 1.
    + destruct (s2 a b); [by exists (String a (String b "")) | by exists ""].
  - destruct (s1 a).
    { destruct (IH (String b (String c v))) as [p Hp]; [simpl; lia|].
      exists (String a p). simpl in *. by rewrite Hp at 1. }
    destruct (s2 a b).
    { destruct (IH (String c v)) as [p Hp]; [simpl; lia|].
      exists (String a (String b p)). simpl in *. by rewrite Hp at 1. }
    destruct (s3 a b c); [|by exists ""].
    destruct (IH v) as [p Hp]; [lia|].
    exists (String a (String b (String c p))). simpl in *. by rewrite Hp at 1.
Qed.

(** [starts]: an encoding recognised by the predicates stands at the head. *)
Definition starts (s1 : ascii -> bool) (s2 : ascii -> ascii -> bool)
    (s3 : ascii -> ascii -> ascii -> bool) (s : string) : bool :=
  match s with
  | EmptyString => false
  | String a EmptyString => s1 a
  | String a (String b EmptyString) => s1 a || s2 a b
  | String a (String b (String c _)) => s1 a || s2 a b || s3 a b c
  end.

Lemma starts_false_strip s1 s2 s3 s : starts s1 s2 s3 s = false -> strip s1 s2 s3 s = s.
Proof.
  destruct s as [|a [|b [|c v]]]; simpl; try done; intros H;
    repeat (apply orb_false_iff in H as [H ?]); repeat case_match; congruence.
Qed.

Lemma strip_not_starts s1 s2 s3 n s :
  (String.length s <= n)%nat -> starts s1 s2 s3 (strip s1 s2 s3 s) = false.
Proof.
  revert s. induction n as [|n IH]; intros s Hn.
  { destruct s; [done|simpl in Hn; lia]. }
  destruct s as [|a t]; [done|]. simpl in Hn.
  cbn [strip]. destruct (s1 a) eqn:H1; [apply IH; lia|].
  destruct t as [|b u]; [done|]. simpl in Hn.
  destruct (s2 a b) eqn:H2; [apply IH; lia|].
  destruct u as [|c v]; [simpl; by rewrite H1, H2|]. simpl in Hn.
  destruct (s3 a b c) eqn:H3; [apply IH; lia|].
  simpl. by rewrite H1, H2, H3.
Qed.

Lemma strip_idem s1 s2 s3 s : strip s1 s2 s3 (strip s1 s2 s3 s) = strip s1 s2 s3 s.
Proof. apply starts_false_strip. by eapply strip_not_starts. Qed.

Lemma starts_prefix s1 s2 s3 p q :
  starts s1 s2 s3 (p +:+ q) = false -> starts s1 s2 s3 p = false.
Proof.
  destruct p as [|a [|b [|c v]]]; try done; unfold String.append; simpl.
  - destruct q as [|b [|c w]]; try done; rewrite ?orb_false_iff; tauto.
  - destruct q as [|c w]; try done; rewrite ?orb_false_iff; tauto.
Qed.

Lemma TrimRightSpace_prefix s : exists q, s = TrimRightSpace s +:+ q.
Proof.
  unfold TrimRightSpace.
  destruct (strip_suffix space1 (fun a b => space2 b a) (fun a b c => space3 c b a)
              _ (srev s) ltac:(reflexivity)) as [p Hp].
  exists (srev p). by rewrite <- srev_append, <- Hp, srev_involutive.
Qed.

(** Trimming twice is trimming once: what the services store is stable under
    the normalisation they apply on the way in. *)
Lemma TrimSpace_idem s : TrimSpace (TrimSpace s) = TrimSpace s.
Proof.
  unfold TrimSpace at 1. unfold TrimLeftSpace.
  assert (starts space1 space2 space3 (TrimSpace s) = false) as Hs.
  { destruct (TrimRightSpace_prefix (TrimLeftSpace s)) as [q Hq].
    unfold TrimSpace. eapply starts_prefix. rewrite <- Hq.
    unfold TrimLeftSpace. by eapply strip_not_starts. }
  rewrite (starts_false_strip _ _ _ _ Hs).
  unfold TrimSpace, TrimRightSpace. by rewrite srev_involutive, strip_idem.
Qed.

Lemma TrimSpace_slen s : slen (TrimSpace s) <= slen s.
Proof.
  unfold TrimSpace.
  destruct (TrimRightSpace_prefix (TrimLeftSpace s)) as [q Hq].
  destruct (strip_suffix space1 space2 space3 _ s ltac:(reflexivity)) as [p Hp].
  fold (TrimLeftSpace s) in Hp.
  apply (f_equal slen) in Hq. apply (f_equal slen) in Hp.
  rewrite slen_app in Hq, Hp. pose proof (slen_nonneg q). pose proof (slen_nonneg p). lia.
Qed.

Lemma forall_bytes_app p s t : forall_bytes p (s +:+ t) = forall_bytes p s && forall_bytes p t.
Proof. unfold String.append. induction s; simpl; [done|]. by rewrite IHs, andb_assoc. Qed.

Lemma forall_bytes_srev p s : forall_bytes p (srev s) = forall_bytes p s.
Proof.
  induction s as [|c s IH]; [done|]. rewrite srev_cons, forall_bytes_app, IH. simpl.
  by rewrite andb_true_r, andb_comm.
Qed.

Lemma forall_bytes_impl (p q : ascii -> bool) s :
  (forall c, p c = true -> q c = true) -> forall_bytes p s = true -> forall_bytes q s = true.
Proof.
  intros Hpq. induction s as [|c s IH]; [done|]. simpl.
  rewrite !andb_true_iff. naive_solver.
Qed.

(** A string of upper-case letters is fixed by [ToUpper] and [TrimSpace]. *)
Lemma is_upper_code c : is_upper c = true -> 65 <= code c <= 90.
Proof. unfold is_upper. rewrite andb_true_iff, !Z.leb_le. done. Qed.

Lemma upper_byte_upper c : is_upper c = true -> upper_byte c = c.
Proof.
  intros H%is_upper_code. unfold upper_byte, is_lower.
  replace (97 <=? code c) with false by (symmetry; apply Z.leb_gt; lia). done.
Qed.

Lemma ToUpper_upper s : forall_bytes is_upper s = true -> ToUpper s = s.
Proof.
  induction s as [|a t IH]; [done|]. intros [Ha Ht]%andb_true_iff.
  simpl. destruct t as [|b u]; [by rewrite upper_byte_upper|].
  rewrite IH by done. apply is_upper_code in Ha as Hc.
  replace (code a =? 196) with false by (symmetry; apply Z.eqb_neq; lia).
  replace (code a =? 197) with false by (symmetry; apply Z.eqb_neq; lia).
  simpl. by rewrite upper_byte_upper.
Qed.

(** Turns boolean hypotheses of guards into propositions. *)
Ltac bools :=
  repeat match goal with
  | H : negb _ = false |- _ => apply negb_false_iff in H
  | H : negb _ = true |- _ => apply negb_true_iff in H
  | H : _ || _ = false |- _ => apply orb_false_iff in H as [? ?]
  | H : _ && _ = true |- _ => apply andb_true_iff in H as [? ?]
  | H : String.eqb _ _ = true |- _ => apply String.eqb_eq in H
  | H : String.eqb _ _ = false |- _ => apply String.eqb_neq in H
  | H : uuid_eqb _ _ = true |- _ => apply uuid_eqb_eq in H
  | H : uuid_eqb _ _ = false |- _ => apply uuid_eqb_neq in H
  | H : (_ =? _) = true |- _ => apply Z.eqb_eq in H
  | H : (_ =? _) = false |- _ => apply Z.eqb_neq in H
  | H : (_ <? _) = true |- _ => apply Z.ltb_lt in H
  | H : (_ <? _) = false |- _ => apply Z.ltb_ge in H
  | H : (_ <=? _) = true |- _ => apply Z.leb_le in H
  | H : (_ <=? _) = false |- _ => apply Z.leb_gt in H
  | H : Bool.eqb _ _ = true |- _ => apply Bool.eqb_prop in H
  | H : bool_decide _ = true |- _ => apply bool_decide_eq_true in H
  | H : bool_decide _ = false |- _ => apply bool_decide_eq_false in H
  end.

(** * More of packages [strings] and [bytes]

    What the text handling of usage extraction and of the proxy calls.  [ToLower] is
    exact on ASCII and on the two non-ASCII letters whose lower case is ASCII (U+0130
    and U+212A); the other non-ASCII letters stay non-ASCII, and its callers compare the
    result with ASCII texts only. *)

From stdpp Require Import base strings list.
From Stdlib Require Import ZArith Lia Ascii String.
From S2P Require Import Prelude.

Definition lower_byte (c : ascii) : ascii :=
  if is_upper c then ascii_of_N (N_of_ascii c + 32) else c.

Fixpoint ToLower (s : string) : string :=
  match s with
  | EmptyString => EmptyString
  | String a t =>
      match t with
      | EmptyString => String (lower_byte a) EmptyString
      | String b u =>
          if (code a =? 196) && (code b =? 176) then String "i" (ToLower u) else
          match u with
          | String c v =>
              if (code a =? 226) && (code b =? 132) && (code c =? 170) then String "k" (ToLower v)
              else String (lower_byte a) (ToLower t)
          | EmptyString => String (lower_byte a) (ToLower t)
          end
      end
  end.

(** [strings.ReplaceAll] of one byte by another, and by nothing. *)
Fixpoint ReplaceByte (old new : ascii) (s : string) : string :=
  match s with
  | EmptyString => EmptyString
  | String c t => String (if Ascii.eqb c old then new else c) (ReplaceByte old new t)
  end.
Fixpoint DropByte (b : ascii) (s : string) : string :=
  match s with
  | EmptyString => EmptyString
  | String c t => if Ascii.eqb c b then DropByte b t else String c (DropByte b t)
  end.

(** [strings.CutPrefix]: the rest after a prefix. *)
Fixpoint CutPrefix (prefix s : string) : option string :=
  match prefix with
  | EmptyString => Some s
  | String p prefix =>
      match s with
      | String c s => if Ascii.eqb c p then CutPrefix prefix s else None
      | EmptyString => None
      end
  end.
Definition HasPrefix (s prefix : string) : bool :=
  match CutPrefix prefix s with Some _ => true | None => false end.
Definition TrimPrefix (s prefix : string) : string := default s (CutPrefix prefix s).
Definition HasSuffix (s suffix : string) : bool := HasPrefix (srev s) (srev suffix).

(** [strings.Contains]. *)
Fixpoint Contains (s needle : string) : bool :=
  HasPrefix s needle || match s with String _ t => Contains t needle | EmptyString => false end.

Definition mem (s : string) (l : list string) : bool := existsb (String.eqb s) l.

(** [strings.Join]. *)
Fixpoint Join (sep : string) (l : list string) : string :=
  match l with
  | [] => ""
  | [x] => x
  | x :: l => x +:+ sep +:+ Join sep l
  end.

Lemma CutPrefix_app p s : CutPrefix p (p +:+ s) = Some s.
Proof. induction p as [|c p IH]; [done|]. unfold String.append in *. simpl. by rewrite Ascii.eqb_refl. Qed.

Lemma CutPrefix_Some p s t : CutPrefix p s = Some t -> s = p +:+ t.
Proof.
  revert s. induction p as [|c p IH]; intros s; simpl; [by intros [= ->]|].
  destruct s as [|d s]; [done|]. case_match eqn:E; [|done].
  apply Ascii.eqb_eq in E as ->. intros H%IH. by rewrite H.
Qed.

Lemma HasPrefix_app p s : HasPrefix (p +:+ s) p = true.
Proof. unfold HasPrefix. by rewrite CutPrefix_app. Qed.

Lemma HasPrefix_true s p : HasPrefix s p = true <-> exists t, s = p +:+ t.
Proof.
  unfold HasPrefix. split.
  - destruct (CutPrefix p s) eqn:E; [|done]. intros _. eauto using CutPrefix_Some.
  - intros [t ->]. by rewrite CutPrefix_app.
Qed.

Lemma mem_true s l : mem s l = true <-> s ∈ l.
Proof.
  unfold mem. rewrite existsb_exists. setoid_rewrite String.eqb_eq. setoid_rewrite <- list_elem_of_In.
  naive_solver.
Qed.
