(* ===== verification/Usage.v ===== *)
(** * Package [internal/usage]: the usage facts the billing domain consumes

    The data of [internal/usage/model.go] and its validation helpers. *)

From stdpp Require Import base gmap strings list.
From Stdlib Require Import ZArith Lia Ascii String.
From S2P Require Import Prelude GoLib.

Module Usage.

(** ** Terminal statuses *)
Definition StatusSucceeded : string := "succeeded".
Definition StatusFailed : string := "failed".
Definition StatusCancelled : string := "cancelled".
Definition StatusReconcileNeeded : string := "reconcile_needed".

Definition validStatus (value : string) : bool :=
  String.eqb value StatusSucceeded || String.eqb value StatusFailed
  || String.eqb value StatusCancelled || String.eqb value StatusReconcileNeeded.

(** Provider-reported token breakdown. *)
Record TokenUsage := {
  InputTokens : Z;
  OutputTokens : Z;
  CacheReadTokens : Z;
  CacheWriteTokens : Z;
  ReasoningTokens : Z
}.

#[export] Instance TokenUsage_eq_dec : EqDecision TokenUsage.
Proof. solve_decision. Defined.

Definition zero_usage : TokenUsage :=
  {| InputTokens := 0; OutputTokens := 0; CacheReadTokens := 0;
     CacheWriteTokens := 0; ReasoningTokens := 0 |}.

(** Every counter is a non-negative [int64]. *)
Definition usage_ok (u : TokenUsage) : Prop :=
  nat_i64 (InputTokens u) /\ nat_i64 (OutputTokens u) /\ nat_i64 (CacheReadTokens u)
  /\ nat_i64 (CacheWriteTokens u) /\ nat_i64 (ReasoningTokens u).

(** The immutable usage fact. *)
Record Event := {
  ev_ID : uuid;
  ev_SettlementKey : string;
  ev_RequestRecordID : option uuid;
  ev_RequestID : string;
  ev_StartedAt : time;
  ev_FinishedAt : time;
  ev_RequestedModel : string;
  ev_UserID : option uuid;
  ev_APIKeyID : option uuid;
  ev_ResolvedModelID : option uuid;
  ev_ProviderID : option uuid;
  ev_ProviderModelID : option uuid;
  ev_RouteVersionID : option uuid;
  ev_CredentialID : option uuid;
  ev_PriceVersionID : option uuid;
  ev_WalletID : option uuid;
  ev_Usage : TokenUsage;
  ev_AmountMinor : option Z;
  ev_Currency : string;
  ev_Estimated : bool;
  ev_Provenance : string;
  ev_TerminalStatus : string;
  ev_UpstreamStatus : option Z;
  ev_ErrorClass : string;
  ev_Latency : Z;
  ev_LatencyMS : option Z;
  ev_TTFT : Z;
  ev_TTFTMS : option Z;
  ev_CreatedAt : time
}.

(** The same function is declared in [internal/billing/model.go]. *)
Definition normalizeText (value : string) (max : Z) : string :=
  let value := TrimSpace value in
  if String.eqb value "" || (max <? slen value) || contains_control value
  then "" else value.

Lemma normalizeText_spec value max r :
  normalizeText value max = r -> r <> "" ->
  r = TrimSpace value /\ TrimSpace r = r /\ slen r <= max /\ contains_control r = false.
Proof.
  unfold normalizeText. case_match eqn:E; [congruence|]. intros <- Hne.
  apply orb_false_iff in E as [[_ E2]%orb_false_iff E3]. apply Z.ltb_ge in E2.
  by rewrite TrimSpace_idem.
Qed.

Lemma normalizeText_idem value max :
  normalizeText (normalizeText value max) max = normalizeText value max.
Proof.
  unfold normalizeText at 2 3. case_match eqn:E.
  - unfold normalizeText. simpl. done.
  - unfold normalizeText. by rewrite TrimSpace_idem, E.
Qed.

End Usage.
