(* ===== verification/Pricing.v ===== *)
(** * Package [internal/pricing]: exact versioned price bundles

    [model.go] (amounts, scopes, dimensions, errors) and, of [service.go], the
    validation of a draft and the publication rule. *)

From stdpp Require Import base gmap strings list sorting pretty.
From Stdlib Require Import ZArith Lia Ascii String.
From S2P Require Import Prelude GoLib.

Module Pricing.

Definition ScopeGlobal : string := "global".
Definition ScopeModel : string := "model".
Definition ScopeProviderModel : string := "provider_model".

Definition DimensionInputToken : string := "input_token".
Definition DimensionOutputToken : string := "output_token".
Definition DimensionCacheReadToken : string := "cache_read_token".
Definition DimensionCacheWriteToken : string := "cache_write_token".
Definition DimensionReasoningToken : string := "reasoning_token".
Definition DimensionRequest : string := "request".

Definition StatusDraft : string := "draft".
Definition StatusActive : string := "active".
Definition StatusRetired : string := "retired".

(** [internal/model]'s billing classes. *)
Definition BillingToken : string := "token".
Definition BillingRequest : string := "request".
Definition BillingFree : string := "free".
Definition BillingDisabled : string := "disabled".

(** [EWrapped] is any error the package only wraps and passes on. *)
Inductive error :=
| ErrInvalidInput | ErrNotFound | ErrConflict | ErrPriceMissing | ErrBillingDisabled
| EWrapped (what : string).

Record Entry := {
  e_ID : uuid;
  e_PricingScope : string;
  e_ModelID : option uuid;
  e_ProviderModelID : option uuid;
  e_Dimension : string;
  e_UnitPrice : string
}.

Record Version := {
  v_ID : uuid;
  v_Scope : string;
  v_VersionNo : Z;
  v_Currency : string;
  v_EffectiveFrom : time;
  v_EffectiveTo : option time;
  v_Status : string;
  v_CreatedBy : uuid;
  v_CreatedAt : time;
  v_Prices : list Entry
}.

Record EntryInput := {
  ei_ModelID : option uuid;
  ei_ProviderModelID : option uuid;
  ei_Dimension : string;
  ei_UnitPrice : string
}.

Record CreateInput := {
  ci_Scope : string;
  ci_Currency : string;
  ci_EffectiveFrom : time;
  ci_EffectiveTo : option time;
  ci_Prices : list EntryInput
}.

Record Snapshot := {
  s_VersionID : uuid;
  s_Scope : string;
  s_Currency : string;
  s_EffectiveFrom : time;
  s_Prices : gmap string string;
  s_Free : bool
}.

(** ** Amounts *)

(** [amountPattern]: [^(0|[1-9][0-9]{0,17})(\.[0-9]{1,12})?$]. *)
Definition integer_part_ok (s : string) : bool :=
  match s with
  | EmptyString => false
  | String c t =>
      if code c =? 48 then String.eqb t ""
      else is_digit c && forall_bytes is_digit t && (slen t <=? 17)
  end.

Definition fraction_part_ok (s : string) : bool :=
  (1 <=? slen s) && (slen s <=? 12) && forall_bytes is_digit s.

Definition amount_matches (s : string) : bool :=
  match SplitByte "." s with
  | [i] => integer_part_ok i
  | [i; f] => integer_part_ok i && fraction_part_ok f
  | _ => false
  end.

Definition normalizeAmount (value : string) : result error string :=
  let value := TrimSpace value in
  if negb (amount_matches value) then Err ErrInvalidInput
  else if ContainsByte "." value
       then Ok (TrimSuffixByte "." (TrimRightByte "0" value))
       else Ok value.

Definition validScope (value : string) : bool :=
  String.eqb value ScopeGlobal || String.eqb value ScopeModel
  || String.eqb value ScopeProviderModel.

Definition validDimension (value : string) : bool :=
  String.eqb value DimensionInputToken || String.eqb value DimensionOutputToken
  || String.eqb value DimensionCacheReadToken || String.eqb value DimensionCacheWriteToken
  || String.eqb value DimensionReasoningToken || String.eqb value DimensionRequest.

(** [currencyPattern]: [^[A-Z]{3}$]. *)
Definition currency_matches (s : string) : bool :=
  (slen s =? 3) && forall_bytes is_upper s.

(** ** Validation of a draft ([validateCreate]) *)
Definition maximumPageSize : Z := 100.
Definition maximumPricesPerBundle : Z := 5000.

Definition nul_byte : string := String (ascii_of_N 0) "".

Definition opt_valid_uuid (o : option uuid) : bool :=
  match o with Some u => negb (uuid_eqb u uuid_nil) | None => false end.

Section service.
Context `{UuidText}.

Definition opt_text (o : option uuid) : string :=
  match o with Some u => uuid_string u | None => "" end.

(** The [switch input.Scope] of the entry loop. *)
Definition entry_target (scope : string) (e : EntryInput) : result error string :=
  if String.eqb scope ScopeGlobal then
    match ei_ModelID e, ei_ProviderModelID e with
    | None, None => Ok "global"
    | _, _ => Err ErrInvalidInput
    end
  else if String.eqb scope ScopeModel then
    if opt_valid_uuid (ei_ModelID e) && negb (bool_decide (is_Some (ei_ProviderModelID e)))
    then Ok (opt_text (ei_ModelID e)) else Err ErrInvalidInput
  else if String.eqb scope ScopeProviderModel then
    if opt_valid_uuid (ei_ProviderModelID e) && negb (bool_decide (is_Some (ei_ModelID e)))
    then Ok (opt_text (ei_ProviderModelID e)) else Err ErrInvalidInput
  else Ok "".

Definition normalize_entry (scope : string) (e : EntryInput) : result error (EntryInput * string) :=
  let dimension := TrimSpace (ei_Dimension e) in
  if negb (validDimension dimension) then Err ErrInvalidInput else
  amount ← normalizeAmount (ei_UnitPrice e);
  let e' := {| ei_ModelID := ei_ModelID e; ei_ProviderModelID := ei_ProviderModelID e;
               ei_Dimension := dimension; ei_UnitPrice := amount |} in
  target ← entry_target scope e';
  Ok (e', target +:+ nul_byte +:+ dimension).

Fixpoint normalize_entries (scope : string) (seen : gset string) (es : list EntryInput)
    : result error (list EntryInput) :=
  match es with
  | [] => Ok []
  | e :: es' =>
      p ← normalize_entry scope e;
      if bool_decide (p.2 ∈ seen) then Err ErrInvalidInput else
      rest ← normalize_entries scope ({[p.2]} ∪ seen) es';
      Ok (p.1 :: rest)
  end.

Definition priceSortKey (e : EntryInput) : string :=
  let target := "global" in
  let target := match ei_ModelID e with Some u => uuid_string u | None => target end in
  let target := match ei_ProviderModelID e with Some u => uuid_string u | None => target end in
  target +:+ nul_byte +:+ ei_Dimension e +:+ nul_byte +:+ pretty (String.length (ei_UnitPrice e)).

Definition price_le (a b : EntryInput) : Prop :=
  String.leb (priceSortKey a) (priceSortKey b) = true.
#[export] Instance price_le_dec : RelDecision price_le.
Proof. intros a b. unfold price_le. apply _. Defined.

(** [if input.EffectiveTo != nil { if !value.After(input.EffectiveFrom) ... }]. *)
Definition interval_empty (from : time) (to : option time) : bool :=
  match to with Some t => negb (After t from) | None => false end.

Definition validateCreate (input : CreateInput) : result error CreateInput :=
  let scope := TrimSpace (ci_Scope input) in
  let currency := ToUpper (TrimSpace (ci_Currency input)) in
  if negb (validScope scope) || negb (currency_matches currency)
     || IsZero (ci_EffectiveFrom input) then Err ErrInvalidInput else
  if interval_empty (ci_EffectiveFrom input) (ci_EffectiveTo input) then Err ErrInvalidInput else
  let n := Z.of_nat (List.length (ci_Prices input)) in
  if (n =? 0) || (maximumPricesPerBundle <? n) then Err ErrInvalidInput else
  prices ← normalize_entries scope ∅ (ci_Prices input);
  Ok {| ci_Scope := scope; ci_Currency := currency;
        ci_EffectiveFrom := ci_EffectiveFrom input;
        ci_EffectiveTo := ci_EffectiveTo input;
        ci_Prices := merge_sort price_le prices |}.

(** [publishable]: every target of the bundle has a request price or both the
    input and the output token price. *)
Definition publish_target (e : Entry) : string :=
  let target := "global" in
  let target := match e_ModelID e with Some u => uuid_string u | None => target end in
  match e_ProviderModelID e with Some u => uuid_string u | None => target end.

Definition dimensions_by_target (es : list Entry) : gmap string (gset string) :=
  foldl (fun m e =>
    let t := publish_target e in
    <[t := {[e_Dimension e]} ∪ default ∅ (m !! t)]> m) ∅ es.

Definition target_priced (dims : gset string) : bool :=
  bool_decide (DimensionRequest ∈ dims)
  || (bool_decide (DimensionInputToken ∈ dims) && bool_decide (DimensionOutputToken ∈ dims)).

Definition publishable (v : Version) : bool :=
  match v_Prices v with
  | [] => false
  | es => forallb (fun kv => target_priced kv.2) (map_to_list (dimensions_by_target es))
  end.

End service.

End Pricing.

(** * Properties of the price bundles

    What [validateCreate] accepts and returns, and when a draft may be
    published. *)

From stdpp Require Import base gmap strings list sorting pretty.
From Stdlib Require Import ZArith Lia Ascii String.
From S2P Require Import Prelude GoLib.

Module PricingProofs.
Import Pricing.

Section draft.
Context `{UuidText}.

(** An entry as [validateCreate] stores it. *)
Definition entry_wf (scope : string) (e : EntryInput) : Prop :=
  validDimension (ei_Dimension e) = true
  /\ TrimSpace (ei_Dimension e) = ei_Dimension e
  /\ (exists raw, normalizeAmount raw = Ok (ei_UnitPrice e))
  /\ exists t, entry_target scope e = Ok t.

(** The identity of an entry inside its bundle. *)
Definition entry_key (scope : string) (e : EntryInput) : option (string * string) :=
  match entry_target scope e with
  | Ok t => Some (t, ei_Dimension e)
  | Err _ => None
  end.

Lemma normalize_entry_wf scope e e' k :
  normalize_entry scope e = Ok (e', k) ->
  entry_wf scope e' /\ exists t, entry_target scope e' = Ok t /\ k = t +:+ nul_byte +:+ ei_Dimension e'.
Proof.
  unfold normalize_entry. case_match eqn:Hd; [done|]. intros Hb.
  apply result_bind_ok in Hb as (amount & Ha & Hb).
  apply result_bind_ok in Hb as (t & Ht & Hb). injection Hb as <- <-.
  apply negb_false_iff in Hd. split; [|by eauto].
  split_and!; simpl; [done|apply TrimSpace_idem|by eauto|by eauto].
Qed.

Lemma normalize_entries_spec scope seen es es' :
  normalize_entries scope seen es = Ok es' ->
  Forall (entry_wf scope) es'
  /\ List.length es' = List.length es
  /\ NoDup (entry_key scope <$> es')
  /\ Forall (fun e => forall t, entry_target scope e = Ok t ->
                (t +:+ nul_byte +:+ ei_Dimension e) ∉ seen) es'.
Proof.
  revert seen es'. induction es as [|e es IH]; intros seen es'; simpl.
  { intros [= <-]. split_and!; constructor. }
  intros Hb. apply result_bind_ok in Hb as ([e' k] & He & Hb). simpl in Hb.
  case_bool_decide as Hk; [done|].
  apply result_bind_ok in Hb as (rest & Hr & Hb). injection Hb as <-.
  apply IH in Hr as (Hwf & Hlen & Hnd & Hfresh).
  apply normalize_entry_wf in He as (Hwf' & t & Ht & ->).
  split_and!.
  - by constructor.
  - simpl. by f_equal.
  - rewrite fmap_cons. constructor; [|done]. intros Hin.
    apply list_elem_of_fmap in Hin as (e2 & Hkey & Hin).
    unfold entry_key in Hkey. rewrite Ht in Hkey.
    case_match eqn:Ht2; [|done]. injection Hkey as <- Hdim.
    rewrite Forall_forall in Hfresh. apply (Hfresh e2 Hin t Ht2).
    rewrite <- Hdim. set_solver.
  - constructor.
    + intros t' Ht'. rewrite Ht in Ht'. by injection Ht' as <-.
    + eapply Forall_impl; [exact Hfresh|]. simpl. set_solver.
Qed.

(** ** Publication *)

Lemma dimensions_by_target_fold es m t d :
  d ∈ default ∅ (foldl (fun (m : gmap string (gset string)) e =>
        let t := publish_target e in
        <[t := {[e_Dimension e]} ∪ default ∅ (m !! t)]> m) m es !! t)
  <-> d ∈ default ∅ (m !! t)
      \/ exists e, e ∈ es /\ publish_target e = t /\ e_Dimension e = d.
Proof.
  revert m. induction es as [|e es IH]; intros m; simpl.
  { split; [by left|]. intros [?|(e & He & _)]; [done|by apply elem_of_nil in He]. }
  rewrite IH. destruct (decide (publish_target e = t)) as [<-|Hne].
  - rewrite lookup_insert_eq. simpl. set_solver.
  - rewrite lookup_insert_ne by done. set_solver.
Qed.

Lemma dimensions_by_target_dom es m t :
  is_Some (foldl (fun (m : gmap string (gset string)) e =>
        let t := publish_target e in
        <[t := {[e_Dimension e]} ∪ default ∅ (m !! t)]> m) m es !! t)
  <-> is_Some (m !! t) \/ exists e, e ∈ es /\ publish_target e = t.
Proof.
  revert m. induction es as [|e es IH]; intros m; simpl.
  { split; [by left|]. intros [?|(e & He & _)]; [done|by apply elem_of_nil in He]. }
  rewrite IH. destruct (decide (publish_target e = t)) as [<-|Hne].
  - rewrite lookup_insert_eq. split; intros _; [right|left; by eexists].
    exists e. split; [apply list_elem_of_here|done].
  - rewrite lookup_insert_ne by done. set_solver.
Qed.

Lemma dimensions_by_target_spec es t d :
  d ∈ default ∅ (dimensions_by_target es !! t)
  <-> exists e, e ∈ es /\ publish_target e = t /\ e_Dimension e = d.
Proof.
  etransitivity; [apply dimensions_by_target_fold|]. rewrite lookup_empty. simpl. set_solver.
Qed.

Lemma dimensions_by_target_is_Some es t :
  is_Some (dimensions_by_target es !! t) <-> exists e, e ∈ es /\ publish_target e = t.
Proof.
  etransitivity; [apply dimensions_by_target_dom|]. rewrite lookup_empty, is_Some_alt. naive_solver.
Qed.

(** The entries of target [t] price it completely. *)
Definition completely_priced (es : list Entry) (t : string) : Prop :=
  let has d := exists e, e ∈ es /\ publish_target e = t /\ e_Dimension e = d in
  has DimensionRequest \/ (has DimensionInputToken /\ has DimensionOutputToken).

Lemma target_priced_spec es t dims :
  dimensions_by_target es !! t = Some dims ->
  target_priced dims = true <-> completely_priced es t.
Proof.
  intros Hm. unfold target_priced, completely_priced.
  assert (forall d, d ∈ dims <-> exists e, e ∈ es /\ publish_target e = t /\ e_Dimension e = d) as Hd.
  { intros d. rewrite <- dimensions_by_target_spec, Hm. done. }
  rewrite orb_true_iff, andb_true_iff, !bool_decide_eq_true, !Hd. done.
Qed.

Lemma all_targets_priced es :
  forallb (fun kv => target_priced kv.2) (map_to_list (dimensions_by_target es)) = true <->
  forall e, e ∈ es -> completely_priced es (publish_target e).
Proof.
  rewrite forallb_forall. split.
  - intros Hall e He.
    destruct (proj2 (dimensions_by_target_is_Some es (publish_target e))) as [dims Hd]; [by eauto|].
    apply (target_priced_spec _ _ _ Hd), (Hall (publish_target e, dims)).
    by apply list_elem_of_In, elem_of_map_to_list.
  - intros Hall [t dims] Hin. apply list_elem_of_In, elem_of_map_to_list in Hin.
    apply (target_priced_spec _ _ _ Hin).
    destruct (proj1 (dimensions_by_target_is_Some es t)) as (e & He & <-); [by eauto|].
    by apply Hall.
Qed.

(** a draft is publishable exactly when it has entries and every target it
    mentions carries a request price, or both the input and the output token
    price: publication is fail-closed on incomplete bundles. *)
Theorem publishable_iff_completely_priced v :
  publishable v = true <->
  v_Prices v <> []
  /\ forall e, e ∈ v_Prices v -> completely_priced (v_Prices v) (publish_target e).
Proof.
  rewrite <- all_targets_priced. unfold publishable. destruct (v_Prices v); naive_solver.
Qed.

(** ** Validation *)
#[local] Instance price_le_total : Total price_le.
Proof. intros a b. unfold price_le. apply String.leb_total. Qed.
#[local] Instance price_le_trans : Transitive price_le.
Proof.
  intros a b c. unfold price_le. rewrite <- !Is_true_true.
  apply (transitivity (R := String.le)).
Qed.

(** what [validateCreate] accepts is a well-formed bundle: known scope and
    an ISO currency, an interval that is not empty, between one and 5000 entries
    with known dimensions and canonical amounts, no two entries for the same
    target and dimension, and the entries sorted by [priceSortKey]; no entry of
    the request is lost. *)
Theorem validateCreate_sound input output :
  validateCreate input = Ok output ->
  validScope (ci_Scope output) = true
  /\ currency_matches (ci_Currency output) = true
  /\ (forall t, ci_EffectiveTo output = Some t -> ci_EffectiveFrom output < t)
  /\ 1 <= Z.of_nat (List.length (ci_Prices output)) <= 5000
  /\ List.length (ci_Prices output) = List.length (ci_Prices input)
  /\ Forall (entry_wf (ci_Scope output)) (ci_Prices output)
  /\ NoDup (entry_key (ci_Scope output) <$> ci_Prices output)
  /\ StronglySorted price_le (ci_Prices output).
Proof.
  unfold validateCreate. case_match eqn:E1; [done|].
  apply orb_false_iff in E1 as [[Es Ec]%orb_false_iff _].
  apply negb_false_iff in Es, Ec.
  case_match eqn:E2; [done|]. case_match eqn:E3; [done|].
  apply orb_false_iff in E3 as [E3 E4]. apply Z.eqb_neq in E3. apply Z.ltb_ge in E4.
  unfold maximumPricesPerBundle in E4.
  intros Hb. apply result_bind_ok in Hb as (prices & Hp & Hb). injection Hb as <-.
  apply normalize_entries_spec in Hp as (Hwf & Hlen & Hnd & _). simpl.
  pose proof (merge_sort_Permutation price_le prices) as Hperm.
  pose proof (Permutation_length Hperm) as Hl.
  split_and!; [done|done| | | | | | |].
  - intros t Ht. rewrite Ht in E2. unfold interval_empty, After in E2.
    by apply negb_false_iff, Z.ltb_lt in E2.
  - lia.
  - lia.
  - lia.
  - by rewrite Hperm.
  - by rewrite Hperm.
  - apply StronglySorted_merge_sort; apply _.
Qed.

End draft.
(** A global draft with one request price, and a text form for identifiers. *)
Definition draft_text : UuidText := fun _ => "".
Definition demo_draft : CreateInput :=
  {| ci_Scope := "global"; ci_Currency := "usd"; ci_EffectiveFrom := 10;
     ci_EffectiveTo := Some 20;
     ci_Prices := [ {| ei_ModelID := None; ei_ProviderModelID := None;
                       ei_Dimension := DimensionRequest; ei_UnitPrice := " 1.50 " |};
                    {| ei_ModelID := None; ei_ProviderModelID := None;
                       ei_Dimension := DimensionInputToken; ei_UnitPrice := "0.25" |} ] |}.
Definition demo_draft_normal : CreateInput :=
  {| ci_Scope := "global"; ci_Currency := "USD"; ci_EffectiveFrom := 10;
     ci_EffectiveTo := Some 20;
     ci_Prices := [ {| ei_ModelID := None; ei_ProviderModelID := None;
                       ei_Dimension := DimensionInputToken; ei_UnitPrice := "0.25" |};
                    {| ei_ModelID := None; ei_ProviderModelID := None;
                       ei_Dimension := DimensionRequest; ei_UnitPrice := "1.5" |} ] |}.

Lemma validateCreate_sound_witness :
  NoDup (@entry_key draft_text "global" <$> ci_Prices demo_draft_normal)
  /\ StronglySorted (@price_le draft_text) (ci_Prices demo_draft_normal).
Proof.
  destruct (@validateCreate_sound draft_text demo_draft demo_draft_normal) as (_ & _ & _ & _ & _ & _ & H).
  - vm_compute. reflexivity.
  - exact H.
Defined.

End PricingProofs.
