(* ===== verification/BillingModel.v ===== *)
(** * Package [internal/billing]: data and input validation

    The records, statuses and errors of [model.go], and the normalisation and
    key functions of [service.go], [payment.go] and [liability.go]. *)

From stdpp Require Import base gmap strings list.
From Stdlib Require Import ZArith Lia Ascii String.
From S2P Require Import Prelude GoLib Usage Pricing.

Module Billing.
Import Usage.

(** ** Statuses and entry types *)
Definition ReservationNone : string := "none".
Definition ReservationReserved : string := "reserved".
Definition ReservationSettlementPending : string := "settlement_pending".
Definition ReservationSettled : string := "settled".
Definition ReservationReleased : string := "released".

Definition SettlementPending : string := "pending".
Definition SettlementSettled : string := "settled".
Definition SettlementFailed : string := "failed".
Definition SettlementReconcileNeeded : string := "reconcile_needed".

Definition EntryReservation : string := "reservation".
Definition EntryUsageCharge : string := "usage_charge".
Definition EntryRelease : string := "release".
Definition EntryRecharge : string := "recharge".
Definition EntryRefund : string := "refund".
Definition EntryAdjustment : string := "adjustment".
Definition EntryAdminAdjustment : string := "admin_adjustment".
Definition EntryGrant : string := "grant".
Definition EntryBonus : string := "bonus".
Definition EntryExpiration : string := "expiration".
Definition EntryPaymentRefundHold : string := "payment_refund_hold".
Definition EntryPaymentReversal : string := "payment_reversal".
Definition EntryPaymentRefundRelease : string := "payment_refund_release".
Definition EntryPaymentLiability : string := "payment_liability".

Definition one_of (value : string) (l : list string) : bool := existsb (String.eqb value) l.

Definition validReservationStatus (value : string) : bool :=
  one_of value [ReservationReserved; ReservationSettlementPending; ReservationSettled;
                ReservationReleased].
Definition validSettlementStatus (value : string) : bool :=
  one_of value [SettlementPending; SettlementSettled; SettlementFailed;
                SettlementReconcileNeeded].
Definition validEntryType (value : string) : bool :=
  one_of value
    [EntryReservation; EntryUsageCharge; EntryRelease; EntryRecharge; EntryRefund;
     EntryAdjustment; EntryAdminAdjustment; EntryGrant; EntryBonus; EntryExpiration;
     EntryPaymentRefundHold; EntryPaymentReversal; EntryPaymentRefundRelease;
     EntryPaymentLiability].

(** ** Errors: the sentinel errors, and what the package passes on. *)
Inductive error :=
| ErrInvalidInput | ErrWalletNotFound | ErrWalletFrozen | ErrInsufficientFunds
| ErrBudgetExceeded | ErrReservationNotFound | ErrReservationConflict
| ErrSettlementPending | ErrSettlementConflict | ErrCurrencyMismatch
| ErrBalanceOverflow | ErrPriceMissing
| EDatabase (e : sqlerr)       (* an error of pgx, wrapped or as it is *)
| EGenerateID                  (* uuid.NewV7 failed *)
| EAudit.                      (* audit.Insert rejected the event *)

(** ** Rows *)
Record Wallet := {
  w_ID : uuid;
  w_UserID : uuid;
  w_Currency : string;
  w_Available : Z;
  w_Reserved : Z;
  w_Status : string;
  w_FinancialHold : bool;
  w_Version : Z;
  w_CreatedAt : time;
  w_UpdatedAt : time
}.

Record LiabilityInput := {
  li_UserID : uuid;
  li_Currency : string;
  li_LiabilityType : string;
  li_ReferenceType : string;
  li_ReferenceID : string;
  li_AmountMinor : Z
}.

Record Liability := {
  l_ID : uuid;
  l_WalletID : uuid;
  l_LiabilityType : string;
  l_ReferenceType : string;
  l_ReferenceID : string;
  l_Principal : Z;
  l_Recovered : Z;
  l_Currency : string;
  l_Status : string;
  l_RecoveryLedgerID : option uuid;
  l_CreatedAt : time;
  l_UpdatedAt : time
}.

Record LedgerEntry := {
  le_ID : uuid;
  le_WalletID : uuid;
  le_EntryType : string;
  le_AmountMinor : Z;
  le_AvailableDelta : Z;
  le_ReservedDelta : Z;
  le_AvailableAfter : Z;
  le_ReservedAfter : Z;
  le_Currency : string;
  le_ReferenceType : string;
  le_ReferenceID : string;
  le_IdempotencyKey : string;
  le_UsageEventID : option uuid;
  le_OperatorUserID : option uuid;
  le_Source : string;
  le_CreatedAt : time
}.

Record Reservation := {
  r_ID : uuid;
  r_WalletID : uuid;
  r_UserID : uuid;
  r_APIKeyID : option uuid;
  r_RequestID : string;
  r_RequestRecordID : option uuid;
  r_ModelID : option uuid;
  r_ProviderModelID : option uuid;
  r_RouteVersionID : option uuid;
  r_ProviderID : option uuid;
  r_CredentialID : option uuid;
  r_PriceVersionID : uuid;
  r_EstimatedUsage : TokenUsage;
  r_ReservationKey : string;
  r_AmountMinor : Z;
  r_Currency : string;
  r_Status : string;
  r_SettledAmountMinor : option Z;
  r_UsageEventID : option uuid;
  r_Reason : string;
  r_ExpiresAt : option time;
  r_CreatedAt : time;
  r_UpdatedAt : time
}.

Record Quote := {
  q_PriceVersionID : uuid;
  q_Currency : string;
  q_AmountMinor : Z;
  q_Estimated : bool
}.

Record ReserveInput := {
  ri_UserID : uuid;
  ri_APIKeyID : uuid;
  ri_RequestID : string;
  ri_RequestRecordID : option uuid;
  ri_ModelID : option uuid;
  ri_ProviderModelID : option uuid;
  ri_RouteVersionID : option uuid;
  ri_ProviderID : option uuid;
  ri_CredentialID : option uuid;
  ri_Price : Pricing.Snapshot;
  ri_EstimatedUsage : TokenUsage;
  ri_DailyBudgetMinor : option Z;
  ri_MonthlyBudgetMinor : option Z;
  ri_Reason : string;
  ri_ExpiresAt : option time
}.

Record SettleInput := { si_ReservationID : uuid; si_Event : Event }.
Record ReleaseInput := { rel_ReservationID : uuid; rel_Reason : string }.

Record CreditInput := {
  cr_UserID : uuid;
  cr_Currency : string;
  cr_EntryType : string;
  cr_AmountMinor : Z;
  cr_ReferenceType : string;
  cr_ReferenceID : string;
  cr_IdempotencyKey : string;
  cr_RequestID : string;
  cr_OperatorUserID : option uuid;
  cr_Source : string
}.

Record PaymentRefundInput := {
  pr_UserID : uuid;
  pr_Currency : string;
  pr_AmountMinor : Z;
  pr_PaymentOrderID : uuid;
  pr_OperatorUserID : uuid;
  pr_Source : string
}.

(** The row of [billing_settlements]: the Go struct, and the recovery columns
    [next_attempt_at], [attempts], [owner_token], [lease_expires_at] that only
    the SQL of [recovery.go] reads. *)
Record Settlement := {
  st_ID : uuid;
  st_ReservationID : uuid;
  st_UsageEventID : uuid;
  st_IdempotencyKey : string;
  st_ReservedAmount : Z;
  st_ActualAmount : option Z;
  st_Status : string;
  st_Estimated : bool;
  st_ErrorClass : string;
  st_NextAttemptAt : time;
  st_Attempts : Z;
  st_OwnerToken : option uuid;
  st_LeaseExpiresAt : option time;
  st_CreatedAt : time;
  st_UpdatedAt : time
}.

(** ** Helpers *)

(** [uuidPointer]. *)
Definition uuidPointer (value : uuid) : option uuid :=
  if uuid_eqb value uuid_nil then None else Some value.

(** [cloneUUID]. *)
Definition cloneUUID (value : option uuid) : option uuid :=
  match value with Some u => uuidPointer u | None => None end.

(** [cloneTime]. *)
Definition cloneTime (value : option time) : option time :=
  match value with Some t => if IsZero t then None else Some t | None => None end.

(** [cloneInt64]: a copy of the pointed-to value. *)
Definition cloneInt64 (value : option Z) : option Z := value.

(** [equalUUID]. *)
Definition equalUUID (left right : option uuid) : bool := opt_uuid_eqb left right.

(** [mapRepositoryError] on an error of [pgx]. *)
Definition mapRepositoryError (e : sqlerr) : error :=
  match e with
  | SqlState c =>
      if one_of c ["23503"; "23514"; "22P02"; "22003"] then ErrInvalidInput
      else if String.eqb c "23505" then ErrSettlementConflict
      else if String.eqb c "55000" then ErrSettlementConflict
      else EDatabase e
  | NoRows => EDatabase e
  end.

(** [safeAdd]: the sum, or [None] when it is not an [int64]. *)
Definition safeAdd (left right : Z) : option Z :=
  if (0 <? right) && (i64_sub max_int64 right <? left) then None
  else if (right <? 0) && (left <? i64_sub min_int64 right) then None
  else Some (i64_add left right).

(** [normalizeCurrency]. *)
Definition normalizeCurrency (value : string) : string :=
  let value := ToUpper (TrimSpace value) in
  if negb (slen value =? 3) then ""
  else if forall_bytes is_upper value then value else "".

Definition reservationKey (requestID : string) : string := "billing:v1:" +:+ requestID.

(** ** Validation of the service inputs *)
Definition defaultOutputReserveTokens : Z := 4096.
Definition maximumOutputReserveTokens : Z := 10000000.

(** The [DefaultOutputTokens] a service is built with ([NewService]), [None]
    when construction fails; the argument is the option, if one was passed. *)
Definition NewService_output_tokens (option_value : option Z) : option Z :=
  let v := match option_value with
           | Some n => if n =? 0 then defaultOutputReserveTokens else n
           | None => defaultOutputReserveTokens
           end in
  if (v <? 0) || (maximumOutputReserveTokens <? v) then None else Some v.

Definition usage_negative (u : TokenUsage) : bool :=
  (InputTokens u <? 0) || (OutputTokens u <? 0) || (CacheReadTokens u <? 0)
  || (CacheWriteTokens u <? 0) || (ReasoningTokens u <? 0).

Definition opt_negative (o : option Z) : bool :=
  match o with Some z => z <? 0 | None => false end.

Definition set_output (u : TokenUsage) (n : Z) : TokenUsage :=
  {| InputTokens := InputTokens u; OutputTokens := n;
     CacheReadTokens := CacheReadTokens u; CacheWriteTokens := CacheWriteTokens u;
     ReasoningTokens := ReasoningTokens u |}.

(** [ExpiresAt] is given and not after [now]. *)
Definition expired (e : option time) (now : time) : bool :=
  match e with Some t => negb (After t now) | None => false end.

(** [normalizeText] of [internal/billing/model.go], and its default. *)
Definition text_or (value : string) (max : Z) (fallback : string) : string :=
  let r := normalizeText value max in if String.eqb r "" then fallback else r.

Definition normalizeReserveInput (input : ReserveInput) (defaultOutput : Z) (now : time)
    : result error ReserveInput :=
  if uuid_eqb (ri_UserID input) uuid_nil || uuid_eqb (ri_APIKeyID input) uuid_nil
  then Err ErrInvalidInput else
  if negb (String.eqb (ri_RequestID input) (TrimSpace (ri_RequestID input)))
     || String.eqb (normalizeText (ri_RequestID input) 128) ""
  then Err ErrInvalidInput else
  if usage_negative (ri_EstimatedUsage input) then Err ErrInvalidInput else
  let estimated :=
    if (OutputTokens (ri_EstimatedUsage input) =? 0) && negb (Pricing.s_Free (ri_Price input))
    then set_output (ri_EstimatedUsage input) defaultOutput
    else ri_EstimatedUsage input in
  if maximumOutputReserveTokens <? OutputTokens estimated then Err ErrInvalidInput else
  if opt_negative (ri_DailyBudgetMinor input) then Err ErrInvalidInput else
  if opt_negative (ri_MonthlyBudgetMinor input) then Err ErrInvalidInput else
  if expired (ri_ExpiresAt input) now then Err ErrInvalidInput else
  Ok {| ri_UserID := ri_UserID input;
        ri_APIKeyID := ri_APIKeyID input;
        ri_RequestID := ri_RequestID input;
        ri_RequestRecordID := cloneUUID (ri_RequestRecordID input);
        ri_ModelID := cloneUUID (ri_ModelID input);
        ri_ProviderModelID := cloneUUID (ri_ProviderModelID input);
        ri_RouteVersionID := cloneUUID (ri_RouteVersionID input);
        ri_ProviderID := cloneUUID (ri_ProviderID input);
        ri_CredentialID := cloneUUID (ri_CredentialID input);
        ri_Price := ri_Price input;
        ri_EstimatedUsage := estimated;
        ri_DailyBudgetMinor := cloneInt64 (ri_DailyBudgetMinor input);
        ri_MonthlyBudgetMinor := cloneInt64 (ri_MonthlyBudgetMinor input);
        ri_Reason := text_or (ri_Reason input) 128 "inference_budget_hold";
        ri_ExpiresAt := ri_ExpiresAt input |}.

(** The [switch input.EntryType] of [normalizeCreditInput]. *)
Definition credit_amount_ok (entryType : string) (amount : Z) : bool :=
  if one_of entryType [EntryRecharge; EntryRefund; EntryGrant; EntryBonus] then 0 <? amount
  else if one_of entryType [EntryAdjustment; EntryAdminAdjustment; EntryExpiration]
       then negb (amount =? 0)
       else false.

Definition normalizeCreditInput (input : CreditInput) : result error CreditInput :=
  if uuid_eqb (cr_UserID input) uuid_nil || negb (validEntryType (cr_EntryType input))
  then Err ErrInvalidInput else
  if negb (credit_amount_ok (cr_EntryType input) (cr_AmountMinor input))
  then Err ErrInvalidInput else
  let currency := normalizeCurrency (cr_Currency input) in
  let referenceType := normalizeText (cr_ReferenceType input) 64 in
  let referenceID := normalizeText (cr_ReferenceID input) 160 in
  let idempotencyKey := normalizeText (cr_IdempotencyKey input) 160 in
  let requestID := if String.eqb (cr_RequestID input) "" then ""
                   else normalizeText (cr_RequestID input) 160 in
  if negb (String.eqb (cr_RequestID input) "") && String.eqb requestID ""
  then Err ErrInvalidInput else
  let source := normalizeText (cr_Source input) 64 in
  if String.eqb currency "" || String.eqb referenceType "" || String.eqb referenceID ""
     || String.eqb idempotencyKey "" || String.eqb source ""
  then Err ErrInvalidInput else
  let operator := cloneUUID (cr_OperatorUserID input) in
  if String.eqb (cr_EntryType input) EntryAdminAdjustment
     && negb (bool_decide (is_Some operator))
  then Err ErrInvalidInput else
  Ok {| cr_UserID := cr_UserID input;
        cr_Currency := currency;
        cr_EntryType := cr_EntryType input;
        cr_AmountMinor := cr_AmountMinor input;
        cr_ReferenceType := referenceType;
        cr_ReferenceID := referenceID;
        cr_IdempotencyKey := idempotencyKey;
        cr_RequestID := requestID;
        cr_OperatorUserID := operator;
        cr_Source := source |}.

Definition normalizePaymentRefundInput (input : PaymentRefundInput)
    : result error PaymentRefundInput :=
  if uuid_eqb (pr_UserID input) uuid_nil || uuid_eqb (pr_PaymentOrderID input) uuid_nil
     || uuid_eqb (pr_OperatorUserID input) uuid_nil || (pr_AmountMinor input <=? 0)
  then Err ErrInvalidInput else
  let currency := normalizeCurrency (pr_Currency input) in
  let source := normalizeText (pr_Source input) 64 in
  if String.eqb currency "" || String.eqb source "" then Err ErrInvalidInput else
  Ok {| pr_UserID := pr_UserID input;
        pr_Currency := currency;
        pr_AmountMinor := pr_AmountMinor input;
        pr_PaymentOrderID := pr_PaymentOrderID input;
        pr_OperatorUserID := pr_OperatorUserID input;
        pr_Source := source |}.

Definition normalizeLiabilityInput (input : LiabilityInput) : result error LiabilityInput :=
  let currency := normalizeCurrency (li_Currency input) in
  let liabilityType := normalizeText (li_LiabilityType input) 64 in
  let referenceType := normalizeText (li_ReferenceType input) 64 in
  let referenceID := normalizeText (li_ReferenceID input) 160 in
  if uuid_eqb (li_UserID input) uuid_nil || (li_AmountMinor input <=? 0)
     || String.eqb currency ""
     || (negb (String.eqb liabilityType "payment_refund")
         && negb (String.eqb liabilityType "payment_dispute"))
     || String.eqb referenceType "" || String.eqb referenceID ""
  then Err ErrInvalidInput else
  Ok {| li_UserID := li_UserID input;
        li_Currency := currency;
        li_LiabilityType := liabilityType;
        li_ReferenceType := referenceType;
        li_ReferenceID := referenceID;
        li_AmountMinor := li_AmountMinor input |}.

Definition sameLiabilityInput (value : Liability) (input : LiabilityInput) : bool :=
  String.eqb (l_LiabilityType value) (li_LiabilityType input)
  && String.eqb (l_ReferenceType value) (li_ReferenceType input)
  && String.eqb (l_ReferenceID value) (li_ReferenceID input)
  && (l_Principal value =? li_AmountMinor input)
  && String.eqb (l_Currency value) (li_Currency input).

Definition sameReservationInput (existing : Reservation) (input : ReserveInput) (quote : Quote)
    : bool :=
  uuid_eqb (r_UserID existing) (ri_UserID input)
  && equalUUID (r_APIKeyID existing) (uuidPointer (ri_APIKeyID input))
  && String.eqb (r_RequestID existing) (ri_RequestID input)
  && equalUUID (r_RequestRecordID existing) (ri_RequestRecordID input)
  && equalUUID (r_ModelID existing) (ri_ModelID input)
  && equalUUID (r_ProviderModelID existing) (ri_ProviderModelID input)
  && equalUUID (r_RouteVersionID existing) (ri_RouteVersionID input)
  && equalUUID (r_ProviderID existing) (ri_ProviderID input)
  && equalUUID (r_CredentialID existing) (ri_CredentialID input)
  && uuid_eqb (r_PriceVersionID existing) (q_PriceVersionID quote)
  && bool_decide (r_EstimatedUsage existing = ri_EstimatedUsage input)
  && String.eqb (r_ReservationKey existing) (reservationKey (ri_RequestID input))
  && (r_AmountMinor existing =? q_AmountMinor quote)
  && String.eqb (r_Currency existing) (q_Currency quote).

(** Keys built from identifiers. *)
Section keys.
Context `{UuidText}.

Definition settlementKey (eventID : uuid) : string := "billing-settle:v1:" +:+ uuid_string eventID.

Definition paymentRefundLedgerKey (action : string) (orderID : uuid) : string :=
  "payment:refund:" +:+ action +:+ ":v1:" +:+ uuid_string orderID.

Definition samePaymentRefundEntry (entry : LedgerEntry) (entryType : string)
    (input : PaymentRefundInput) (amount : Z) : bool :=
  String.eqb (le_EntryType entry) entryType
  && (le_AmountMinor entry =? amount)
  && String.eqb (le_Currency entry) (pr_Currency input)
  && String.eqb (le_ReferenceType entry) "payment_order"
  && String.eqb (le_ReferenceID entry) (uuid_string (pr_PaymentOrderID input))
  && String.eqb (le_Source entry) (pr_Source input)
  && equalUUID (le_OperatorUserID entry) (uuidPointer (pr_OperatorUserID input)).
End keys.

(** ** Lemmas *)

(** [safeAdd] is exact: it returns the mathematical sum, and refuses exactly
    the sums an [int64] cannot hold. *)
Lemma safeAdd_spec left right :
  in_i64 left -> in_i64 right ->
  safeAdd left right = if bool_decide (in_i64 (left + right)) then Some (left + right) else None.
Proof.
  intros Hl Hr. unfold safeAdd.
  assert (0 < right -> i64_sub max_int64 right = max_int64 - right) as E1
    by (intros; apply i64_sub_id; i64_unfold; lia).
  assert (right < 0 -> i64_sub min_int64 right = min_int64 - right) as E2
    by (intros; apply i64_sub_id; i64_unfold; lia).
  assert (in_i64 (left + right) -> i64_add left right = left + right) as E3
    by apply i64_add_id.
  destruct (Z.ltb_spec 0 right) as [Hp|Hp]; simpl.
  - rewrite E1 by done. rewrite (proj2 (Z.ltb_ge right 0)) by lia. simpl.
    destruct (Z.ltb_spec (max_int64 - right) left); case_bool_decide as Hd;
      [i64_unfold; lia | done | by rewrite E3 | exfalso; apply Hd; i64_unfold; lia].
  - destruct (Z.ltb_spec right 0) as [Hn|Hn]; simpl.
    + rewrite E2 by done.
      destruct (Z.ltb_spec left (min_int64 - right)); case_bool_decide as Hd;
        [i64_unfold; lia | done | by rewrite E3 | exfalso; apply Hd; i64_unfold; lia].
    + rewrite bool_decide_true by (i64_unfold; lia). rewrite E3; [done|]. i64_unfold; lia.
Qed.

Lemma safeAdd_Some left right s :
  in_i64 left -> in_i64 right -> safeAdd left right = Some s -> s = left + right /\ in_i64 s.
Proof.
  intros Hl Hr. rewrite safeAdd_spec by done. case_bool_decide; [|done]. by intros [= <-].
Qed.

Lemma normalizeCurrency_spec value c :
  normalizeCurrency value = c -> c <> "" -> slen c = 3 /\ forall_bytes is_upper c = true.
Proof.
  unfold normalizeCurrency. repeat case_match; intros <- Hne; try congruence.
  split; [|done]. by apply Z.eqb_eq, negb_false_iff.
Qed.

End Billing.
