(* ===== verification/Money.v ===== *)
(** * [internal/billing/money.go]: exact quotes

    Prices are decimal strings with at most 18 integer and 12 fraction digits;
    [big.Int] is [Z].  A quote adds the priced units in units of 10^-12 and
    rounds the total up to minor units once. *)

From stdpp Require Import base gmap strings list.
From Stdlib Require Import ZArith Lia Ascii String.
From S2P Require Import Prelude GoLib Usage Pricing BillingModel.

Module Money.
Import Usage Billing.

Definition priceScale : nat := 12.
Definition priceScaleBase : Z := 10 ^ 12.

Definition DefaultCurrencyMinorUnits (currency : string) : Z :=
  let c := ToUpper (TrimSpace currency) in
  if one_of c ["BHD"; "IQD"; "JOD"; "KWD"; "OMR"; "TND"] then 3
  else if one_of c ["CLP"; "ISK"; "JPY"; "KRW"; "PYG"; "UGX"; "VND"; "VUV"; "XAF"; "XOF"; "XPF"]
       then 0
       else 2.

Definition parseScaledPrice (value : string) : result error Z :=
  let value := TrimSpace value in
  if String.eqb value "" || HasPrefixByte "-" value || HasPrefixByte "+" value
  then Err ErrPriceMissing else
  match SplitByte "." value with
  | i :: rest =>
      if (1 <? Z.of_nat (List.length rest)) || String.eqb i "" then Err ErrPriceMissing else
      if 18 <? slen i then Err ErrPriceMissing else
      if negb (forall_bytes is_digit i) then Err ErrPriceMissing else
      let fraction := match rest with f :: _ => f | [] => "" end in
      if 12 <? slen fraction then Err ErrPriceMissing else
      if negb (forall_bytes is_digit fraction) then Err ErrPriceMissing else
      let fraction := fraction +:+ RepeatByte "0" (priceScale - String.length fraction) in
      let combined := TrimLeftByte "0" (i +:+ fraction) in
      let combined := if String.eqb combined "" then "0" else combined in
      match big_SetString combined with
      | Some v => Ok v
      | None => Err ErrPriceMissing
      end
  | [] => Err ErrPriceMissing
  end.

Definition addPricedUnits (total : Z) (price : string) (count : Z) : result error Z :=
  if count <? 0 then Err ErrInvalidInput else
  match parseScaledPrice price with
  | Err _ => Err ErrPriceMissing
  | Ok scaled =>
      if (count =? 0) || (scaled =? 0) then Ok total
      else Ok (total + scaled * count)
  end.

Definition scaledToMinor (total minorUnits : Z) : result error Z :=
  if (minorUnits <? 0) || (9 <? minorUnits) then Err ErrInvalidInput else
  let factor := 10 ^ minorUnits in
  let numerator := total * factor in
  let quotient := Z.quot numerator priceScaleBase in
  let remainder := Z.rem numerator priceScaleBase in
  let quotient := if 0 <? remainder then quotient + 1 else quotient in
  if (quotient <? 0) || (quotient <? min_int64) || (max_int64 <? quotient)
  then Err ErrBalanceOverflow else Ok quotient.

(** The three blocks of the token branch of [calculateQuote]; the first
    component is the running total, the second what is left of the input
    (output) tokens for the ordinary rate. *)
Definition quote_cache_read (prices : gmap string string) (inputPrice : string)
    (cacheRead inputTokens total : Z) : result error (Z * Z) :=
  if 0 <? cacheRead then
    match prices !! Pricing.DimensionCacheReadToken with
    | Some cachePrice =>
        let inputTokens := if cacheRead <=? inputTokens then i64_sub inputTokens cacheRead
                           else inputTokens in
        total ← addPricedUnits total cachePrice cacheRead;
        Ok (total, inputTokens)
    | None =>
        if inputTokens <? cacheRead then
          total ← addPricedUnits total inputPrice cacheRead;
          Ok (total, inputTokens)
        else Ok (total, inputTokens)
    end
  else Ok (total, inputTokens).

Definition quote_cache_write (prices : gmap string string) (inputPrice : string)
    (cacheWrite total : Z) : result error Z :=
  if 0 <? cacheWrite then
    addPricedUnits total (default inputPrice (prices !! Pricing.DimensionCacheWriteToken)) cacheWrite
  else Ok total.

Definition quote_reasoning (prices : gmap string string) (outputPrice : string)
    (reasoning outputTokens total : Z) : result error (Z * Z) :=
  if 0 <? reasoning then
    match prices !! Pricing.DimensionReasoningToken with
    | Some reasoningPrice =>
        let outputTokens := if reasoning <=? outputTokens then i64_sub outputTokens reasoning
                            else outputTokens in
        total ← addPricedUnits total reasoningPrice reasoning;
        Ok (total, outputTokens)
    | None =>
        if outputTokens <? reasoning then
          total ← addPricedUnits total outputPrice reasoning;
          Ok (total, outputTokens)
        else Ok (total, outputTokens)
    end
  else Ok (total, outputTokens).

Definition quote_total (prices : gmap string string) (observed : TokenUsage) : result error Z :=
  match prices !! Pricing.DimensionRequest with
  | Some requestPrice => addPricedUnits 0 requestPrice 1
  | None =>
      match prices !! Pricing.DimensionInputToken, prices !! Pricing.DimensionOutputToken with
      | Some inputPrice, Some outputPrice =>
          '(total, inputTokens) ←
            quote_cache_read prices inputPrice (CacheReadTokens observed) (InputTokens observed) 0;
          total ← quote_cache_write prices inputPrice (CacheWriteTokens observed) total;
          '(total, outputTokens) ←
            quote_reasoning prices outputPrice (ReasoningTokens observed) (OutputTokens observed) total;
          total ← addPricedUnits total inputPrice inputTokens;
          addPricedUnits total outputPrice outputTokens
      | _, _ => Err ErrPriceMissing
      end
  end.

Definition calculateQuote (snapshot : Pricing.Snapshot) (observed : TokenUsage)
    : result error Quote :=
  let currency := ToUpper (TrimSpace (Pricing.s_Currency snapshot)) in
  if Pricing.s_Free snapshot then
    Ok {| q_PriceVersionID := Pricing.s_VersionID snapshot; q_Currency := currency;
          q_AmountMinor := 0; q_Estimated := false |}
  else if uuid_eqb (Pricing.s_VersionID snapshot) uuid_nil
          || bool_decide (Pricing.s_Prices snapshot = ∅) || negb (slen currency =? 3)
  then Err ErrPriceMissing
  else if usage_negative observed then Err ErrInvalidInput
  else
    total ← quote_total (Pricing.s_Prices snapshot) observed;
    amount ← scaledToMinor total (DefaultCurrencyMinorUnits currency);
    Ok {| q_PriceVersionID := Pricing.s_VersionID snapshot; q_Currency := currency;
          q_AmountMinor := amount; q_Estimated := false |}.

(** [Service.Quote]. *)
Definition Quote_ (snapshot : Pricing.Snapshot) (observed : TokenUsage) : result error Quote :=
  calculateQuote snapshot observed.

End Money.
