(* ===== verification/MoneyProofs.v ===== *)
(** * Properties of prices and quotes

    Decimal text and its scaled value, the normalisation of stored amounts,
    the closed form of a token quote and its rounding. *)

From stdpp Require Import base gmap strings list.
From Stdlib Require Import ZArith Lia Ascii String.
From S2P Require Import Prelude GoLib Usage Pricing BillingModel Money.

Module MoneyProofs.
Import Usage Pricing Billing Money.

(** ** Text *)
Lemma SplitByte_absent b s :
  forall_bytes (fun c => negb (Ascii.eqb b c)) s = true -> SplitByte b s = [s].
Proof.
  induction s as [|c s IH]; [done|]. simpl. intros [Hc Hs]%andb_true_iff.
  apply negb_true_iff in Hc. rewrite Hc, IH by done. done.
Qed.

Lemma SplitByte_sep b i s :
  forall_bytes (fun c => negb (Ascii.eqb b c)) i = true ->
  SplitByte b (i +:+ String b s) = i :: SplitByte b s.
Proof.
  induction i as [|c i IH]; unfold String.append; simpl.
  - intros _. by rewrite Ascii.eqb_refl.
  - intros [Hc Hi]%andb_true_iff. apply negb_true_iff in Hc.
    rewrite Hc. unfold String.append in IH. by rewrite IH.
Qed.

Lemma SplitByte_inv b s i rest :
  SplitByte b s = i :: rest ->
  forall_bytes (fun c => negb (Ascii.eqb b c)) i = true
  /\ match rest with
     | [] => s = i
     | _ => exists t, s = i +:+ String b t /\ SplitByte b t = rest
     end.
Proof.
  revert i rest. induction s as [|c s IH]; intros i rest; simpl.
  { intros [= <- <-]. done. }
  destruct (Ascii.eqb b c) eqn:Hc.
  - intros [= <- <-]. apply Ascii.eqb_eq in Hc as <-. split; [done|].
    destruct (SplitByte b s) eqn:Hs; [|by exists s].
    exfalso. clear -Hs. destruct s; simpl in Hs; [done|]. repeat case_match; done.
  - destruct (SplitByte b s) as [|w ws] eqn:Hs.
    { exfalso. clear -Hs. destruct s; simpl in Hs; [done|]. repeat case_match; done. }
    intros [= <- <-]. destruct (IH w ws eq_refl) as [Hw Hr]. simpl. rewrite Hc. split; [done|].
    destruct ws as [|w2 ws]; [by subst|]. destruct Hr as (t & -> & Ht). by exists t.
Qed.

Lemma RepeatByte_app b n m : RepeatByte b n +:+ RepeatByte b m = RepeatByte b (n + m)%nat.
Proof. induction n as [|n IH]; [done|]. unfold String.append in *. simpl. by rewrite IH. Qed.

Lemma length_RepeatByte b n : String.length (RepeatByte b n) = n.
Proof. induction n; simpl; by f_equal. Qed.

Lemma srev_RepeatByte b n : srev (RepeatByte b n) = RepeatByte b n.
Proof.
  induction n as [|n IH]; [done|]. simpl. rewrite srev_cons, IH.
  change (String b "") with (RepeatByte b 1). rewrite RepeatByte_app.
  by rewrite Nat.add_comm.
Qed.

Lemma slength_app s t : String.length (s +:+ t) = (String.length s + String.length t)%nat.
Proof. unfold String.append. induction s; simpl; by f_equal. Qed.

Lemma TrimLeftByte_spec b s :
  exists n, s = RepeatByte b n +:+ TrimLeftByte b s.
Proof.
  induction s as [|c s [n IH]]; [by exists 0%nat|]. simpl.
  destruct (Ascii.eqb b c) eqn:Hc; [|by exists 0%nat].
  apply Ascii.eqb_eq in Hc as <-. exists (S n). unfold String.append in *. simpl. by f_equal.
Qed.

Lemma TrimLeftByte_stop b c s t :
  b <> c -> TrimLeftByte b (s +:+ String c t) = TrimLeftByte b s +:+ String c t.
Proof.
  intros Hbc. induction s as [|d s IH]; unfold String.append in *; simpl.
  - apply Ascii.eqb_neq in Hbc. by rewrite Hbc.
  - destruct (Ascii.eqb b d); done.
Qed.

Lemma TrimRightByte_spec b s : exists n, s = TrimRightByte b s +:+ RepeatByte b n.
Proof.
  unfold TrimRightByte. destruct (TrimLeftByte_spec b (srev s)) as [n Hn].
  exists n. apply (f_equal srev) in Hn. rewrite srev_involutive, srev_append, srev_RepeatByte in Hn.
  done.
Qed.

Lemma TrimRightByte_stop b c i f :
  b <> c -> TrimRightByte b (i +:+ String c f) = i +:+ String c (TrimRightByte b f).
Proof.
  intros Hbc. unfold TrimRightByte.
  rewrite srev_append, srev_cons, <- sapp_assoc.
  change (String c "" +:+ srev i) with (String c (srev i)).
  rewrite TrimLeftByte_stop by done.
  rewrite srev_append, srev_cons, srev_involutive, <- sapp_assoc. done.
Qed.

(** ** Digit strings contain no space, no separator *)
Definition plain (c : ascii) : bool := (33 <=? code c) && (code c <=? 127).

Lemma plain_no_space s2 s3 s :
  forall_bytes plain s = true ->
  (forall a b, plain a = true -> plain b = true -> s2 a b = false) ->
  (forall a b c, plain a = true -> plain b = true -> plain c = true -> s3 a b c = false) ->
  strip space1 s2 s3 s = s.
Proof.
  intros Hs H2 H3. apply starts_false_strip.
  assert (forall a, plain a = true -> space1 a = false) as H1.
  { intros a. unfold plain, space1. rewrite andb_true_iff, !Z.leb_le. intros [??].
    apply orb_false_iff. split; [apply andb_false_iff; right; apply Z.leb_gt; lia|].
    apply Z.eqb_neq. lia. }
  destruct s as [|a [|b [|c v]]]; simpl in *; rewrite ?andb_true_iff in Hs; try done;
    destruct_and?; rewrite ?H1, ?H2, ?H3 by done; reflexivity.
Qed.

Lemma plain_TrimSpace s : forall_bytes plain s = true -> TrimSpace s = s.
Proof.
  intros Hs. unfold TrimSpace, TrimLeftSpace, TrimRightSpace.
  assert (forall a b, plain a = true -> space2 a b = false /\ space2 b a = false) as H2.
  { intros a b. unfold plain, space2. rewrite andb_true_iff, !Z.leb_le. intros [??].
    destruct (Z.eqb_spec (code a) 194), (Z.eqb_spec (code a) 133), (Z.eqb_spec (code a) 160);
      try lia; by rewrite andb_false_r. }
  assert (forall a b c, plain a = true -> plain c = true -> space3 a b c = false) as H3.
  { intros a b c. unfold plain, space3. rewrite !andb_true_iff, !Z.leb_le. intros [??] [??].
    destruct (Z.eqb_spec (code a) 225), (Z.eqb_spec (code a) 226), (Z.eqb_spec (code a) 227);
      try lia; done. }
  rewrite (plain_no_space _ _ s Hs); [|by intros; apply H2|by intros; apply H3].
  rewrite plain_no_space.
  - apply srev_involutive.
  - by rewrite forall_bytes_srev.
  - intros. by apply H2.
  - intros. by apply H3.
Qed.

Lemma is_digit_plain c : is_digit c = true -> plain c = true.
Proof. unfold is_digit, plain. rewrite !andb_true_iff, !Z.leb_le. lia. Qed.

Lemma is_digit_not_dot c : is_digit c = true -> negb (Ascii.eqb "." c) = true.
Proof.
  intros Hc. apply negb_true_iff, Ascii.eqb_neq. intros <-. by vm_compute in Hc.
Qed.

Lemma digits_plain s : forall_bytes is_digit s = true -> forall_bytes plain s = true.
Proof. apply forall_bytes_impl, is_digit_plain. Qed.
Lemma digits_no_dot s :
  forall_bytes is_digit s = true -> forall_bytes (fun c => negb (Ascii.eqb "." c)) s = true.
Proof. apply forall_bytes_impl, is_digit_not_dot. Qed.

(** ** The value of a digit string *)
Lemma digits_value_range s acc :
  forall_bytes is_digit s = true -> 0 <= acc ->
  exists v, digits_value acc s = Some v
    /\ acc * 10 ^ slen s <= v < (acc + 1) * 10 ^ slen s.
Proof.
  revert acc. induction s as [|c s IH]; intros acc; cbn [forall_bytes digits_value].
  { intros _ Ha. exists acc. split; [done|]. change (slen "") with 0. lia. }
  intros [Hc Hs]%andb_true_iff Ha. rewrite Hc.
  unfold is_digit in Hc. apply andb_true_iff in Hc as [H1%Z.leb_le H2%Z.leb_le].
  destruct (IH (10 * acc + (code c - 48)) Hs ltac:(lia)) as (v & Hv & Hr).
  exists v. split; [done|].
  replace (slen (String c s)) with (1 + slen s) by (unfold slen; cbn [String.length]; lia).
  pose proof (slen_nonneg s). rewrite Z.pow_add_r by lia.
  assert (0 < 10 ^ slen s) by (apply Z.pow_pos_nonneg; lia). nia.
Qed.

Lemma digits_value_RepeatByte n s acc :
  digits_value acc (RepeatByte "0" n +:+ s) = digits_value (acc * 10 ^ Z.of_nat n) s.
Proof.
  revert acc. induction n as [|n IH]; intros acc.
  - simpl. f_equal. lia.
  - change (RepeatByte "0" (S n) +:+ s) with (String "0" (RepeatByte "0" n +:+ s)).
    cbn [digits_value]. change (is_digit "0") with true. cbn [negb].
    rewrite IH. f_equal. change (code "0") with 48.
    rewrite Nat2Z.inj_succ, Z.pow_succ_r by lia. lia.
Qed.

Lemma big_SetString_trim s :
  s <> "" ->
  big_SetString (let t := TrimLeftByte "0" s in if String.eqb t "" then "0" else t)
  = digits_value 0 s.
Proof.
  intros Hs. destruct (TrimLeftByte_spec "0" s) as [n Hn]. simpl.
  rewrite Hn at 3. rewrite digits_value_RepeatByte, Z.mul_0_l.
  destruct (String.eqb_spec (TrimLeftByte "0" s) "") as [->|Hne]; [done|].
  unfold big_SetString. destruct (TrimLeftByte "0" s); done.
Qed.

(** ** Parsing *)

(** The scaled value of the decimal number with integer digits [i] and fraction
    digits [f]. *)
Definition decimal_value (i f : string) : Z :=
  default 0 (digits_value 0 (i +:+ f +:+ RepeatByte "0" (priceScale - String.length f))).

Definition decimal_ok (i f : string) : Prop :=
  i <> "" /\ slen i <= 18 /\ slen f <= 12
  /\ forall_bytes is_digit i = true /\ forall_bytes is_digit f = true.

Lemma forall_bytes_RepeatByte p b n : p b = true -> forall_bytes p (RepeatByte b n) = true.
Proof. intros Hb. induction n; simpl; [done|]. by rewrite Hb. Qed.

Lemma decimal_value_spec i f :
  decimal_ok i f ->
  digits_value 0 (i +:+ f +:+ RepeatByte "0" (priceScale - String.length f))
    = Some (decimal_value i f)
  /\ 0 <= decimal_value i f < 10 ^ 30.
Proof.
  intros (Hi & Hli & Hlf & Hdi & Hdf). unfold decimal_value.
  set (s := i +:+ f +:+ _).
  destruct (digits_value_range s 0) as (v & Hv & Hr); [|lia|].
  { unfold s. rewrite !forall_bytes_app, Hdi, Hdf. by apply forall_bytes_RepeatByte. }
  rewrite Hv. split; [done|]. simpl.
  assert (slen s <= 30) as Hs.
  { unfold s. rewrite !slen_app. unfold slen in *. rewrite length_RepeatByte.
    unfold priceScale. lia. }
  pose proof (slen_nonneg s).
  assert (10 ^ slen s <= 10 ^ 30) by (apply Z.pow_le_mono_r; lia). lia.
Qed.

(** The text of a decimal number: [i], or [i.f]. *)
Definition decimal_text (i : string) (f : option string) : string :=
  match f with None => i | Some f => i +:+ String "." f end.

Lemma decimal_text_plain i f :
  decimal_ok i (default "" f) -> forall_bytes plain (decimal_text i f) = true.
Proof.
  intros (_ & _ & _ & Hdi & Hdf). unfold decimal_text. destruct f as [f|].
  - rewrite forall_bytes_app. simpl. by rewrite !digits_plain.
  - by apply digits_plain.
Qed.

Lemma SplitByte_decimal i f :
  decimal_ok i (default "" f) ->
  SplitByte "." (decimal_text i f) = i :: match f with Some f => [f] | None => [] end.
Proof.
  intros (_ & _ & _ & Hdi & Hdf). unfold decimal_text. destruct f as [f|].
  - rewrite SplitByte_sep by by apply digits_no_dot.
    by rewrite SplitByte_absent by by apply digits_no_dot.
  - by apply SplitByte_absent, digits_no_dot.
Qed.

Lemma parse_decimal value i f :
  TrimSpace value = decimal_text i f -> decimal_ok i (default "" f) ->
  parseScaledPrice value = Ok (decimal_value i (default "" f)).
Proof.
  intros Hv Hok. unfold parseScaledPrice. rewrite Hv.
  pose proof Hok as (Hi & Hli & Hlf & Hdi & Hdf).
  assert (String.eqb (decimal_text i f) "" || HasPrefixByte "-" (decimal_text i f)
          || HasPrefixByte "+" (decimal_text i f) = false) as ->.
  { destruct i as [|c i]; [done|]. simpl in Hdi. apply andb_true_iff in Hdi as [Hc _].
    assert (Ascii.eqb "-" c = false /\ Ascii.eqb "+" c = false) as [H1 H2].
    { split; apply Ascii.eqb_neq; intros <-; by vm_compute in Hc. }
    destruct f; unfold decimal_text, HasPrefixByte, String.append; rewrite H1, H2; done. }
  rewrite SplitByte_decimal by done.
  assert (String.eqb i "" = false) as Hie by by apply String.eqb_neq.
  assert ((18 <? slen i) = false) as Hil by by apply Z.ltb_ge.
  assert ((12 <? slen (default "" f)) = false) as Hfl by by apply Z.ltb_ge.
  destruct (decimal_value_spec i (default "" f) Hok) as [Hd _].
  assert (i +:+ default "" f +:+ RepeatByte "0" (priceScale - String.length (default "" f)) <> "")
    as Hne by by destruct i.
  destruct f as [f|]; simpl default in *; cbn [List.length]; rewrite Hie, Hil, Hdi, Hdf, Hfl;
    simpl negb; cbn iota; simpl orb;
    pose proof (big_SetString_trim _ Hne) as Hb; cbv zeta in Hb |- *; rewrite Hb, Hd; done.
Qed.

Lemma parse_inv value v :
  parseScaledPrice value = Ok v ->
  exists i f, TrimSpace value = decimal_text i f /\ decimal_ok i (default "" f)
    /\ v = decimal_value i (default "" f).
Proof.
  intros Hp.
  assert (exists i f, TrimSpace value = decimal_text i f /\ decimal_ok i (default "" f))
    as (i & f & Ht & Hok).
  { unfold parseScaledPrice in Hp.
    destruct (_ || _ || _); [done|].
    destruct (SplitByte "." (TrimSpace value)) as [|i rest] eqn:Hs; [done|].
    destruct (SplitByte_inv _ _ _ _ Hs) as [_ Hrest].
    destruct ((1 <? _) || _) eqn:E1; [done|]. apply orb_false_iff in E1 as [E1%Z.ltb_ge E2].
    destruct (18 <? slen i) eqn:E3; [done|]. apply Z.ltb_ge in E3.
    destruct (forall_bytes is_digit i) eqn:E4; [|done]. simpl in Hp.
    destruct (12 <? _) eqn:E5; [done|]. apply Z.ltb_ge in E5.
    destruct (forall_bytes is_digit (match rest with f :: _ => f | [] => "" end)) eqn:E6; [|done].
    apply String.eqb_neq in E2.
    destruct rest as [|f [|]]; cbn [List.length] in E1; [| |lia].
    - exists i, None. split; [by simpl|]. by split_and!.
    - destruct Hrest as (t & Ht & Hst). exists i, (Some f). split; [|by split_and!].
      destruct (SplitByte_inv _ _ _ _ Hst) as [_ ->]. done. }
  exists i, f. split_and!; [done..|].
  rewrite (parse_decimal _ _ _ Ht Hok) in Hp. by injection Hp.
Qed.

Lemma parseScaledPrice_range value v : parseScaledPrice value = Ok v -> 0 <= v < 10 ^ 30.
Proof. intros (i & f & _ & Hok & ->)%parse_inv. by apply decimal_value_spec. Qed.

(** Trailing zeros of the fraction do not change the value. *)
Lemma decimal_ok_trim i f n :
  decimal_ok i (f +:+ RepeatByte "0" n) ->
  decimal_ok i f /\ decimal_value i (f +:+ RepeatByte "0" n) = decimal_value i f.
Proof.
  intros (Hi & Hli & Hlf & Hdi & Hdf).
  rewrite forall_bytes_app in Hdf. apply andb_true_iff in Hdf as [Hdf _].
  rewrite slen_app in Hlf. unfold slen in Hlf at 2. rewrite length_RepeatByte in Hlf.
  split; [by split_and!; try done; unfold slen in *; lia|].
  unfold decimal_value. rewrite slength_app, length_RepeatByte.
  rewrite <- (sapp_assoc f), RepeatByte_app. do 5 f_equal.
  unfold slen, priceScale in *. lia.
Qed.

Lemma amount_matches_inv value :
  amount_matches value = true ->
  exists i f, value = decimal_text i f /\ decimal_ok i (default "" f) /\ f <> Some "".
Proof.
  unfold amount_matches.
  assert (forall i, integer_part_ok i = true ->
            i <> "" /\ slen i <= 18 /\ forall_bytes is_digit i = true) as Hint.
  { intros [|c t]; [done|]. unfold integer_part_ok.
    assert (slen (String c t) = 1 + slen t) as -> by (unfold slen; cbn [String.length]; lia).
    destruct (Z.eqb_spec (code c) 48) as [Hc|Hc].
    - intros ->%String.eqb_eq. split_and!; [done|by vm_compute|].
      simpl. unfold is_digit. by rewrite Hc.
    - rewrite !andb_true_iff, Z.leb_le. intros [[Hd Ht] Hl]. split_and!; [done|lia|].
      simpl. by rewrite Hd. }
  destruct (SplitByte "." value) as [|i [|f [|]]] eqn:Hs; try done;
    destruct (SplitByte_inv _ _ _ _ Hs) as [_ Hr].
  - intros (Hi & Hl & Hd)%Hint. exists i, None. split_and!; [done| |done]. by split_and!.
  - rewrite andb_true_iff. unfold fraction_part_ok. rewrite !andb_true_iff, !Z.leb_le.
    intros [(Hi & Hl & Hd)%Hint [[Hf1 Hf2] Hf3]].
    destruct Hr as (t & Ht & Hst). destruct (SplitByte_inv _ _ _ _ Hst) as [_ ->].
    exists i, (Some f). split_and!; [done| |]. { by split_and!. }
    intros [= ->]. by vm_compute in Hf1.
Qed.

Lemma ContainsByte_dot i f :
  decimal_ok i (default "" f) -> ContainsByte "." (decimal_text i f) = bool_decide (is_Some f).
Proof.
  intros (_ & _ & _ & Hdi & Hdf). unfold ContainsByte, exists_byte, decimal_text. destruct f as [f|].
  - rewrite forall_bytes_app. simpl. by rewrite andb_false_r.
  - by rewrite digits_no_dot.
Qed.

Lemma TrimSuffixByte_decimal i g :
  forall_bytes is_digit g = true ->
  TrimSuffixByte "." (i +:+ String "." g)
  = decimal_text i (if String.eqb g "" then None else Some g).
Proof.
  intros Hg. unfold TrimSuffixByte. rewrite srev_append, srev_cons, <- sapp_assoc.
  change (String "." "" +:+ srev i) with (String "." (srev i)).
  destruct (srev g) as [|c t] eqn:Hr; apply (f_equal srev) in Hr as Hg'; rewrite srev_involutive in Hg'.
  - rewrite Hg'. simpl. by rewrite srev_involutive.
  - assert (String.eqb g "" = false) as ->.
    { apply String.eqb_neq. intros ->. by vm_compute in Hr. }
    assert (Ascii.eqb "." c = false) as Hc.
    { rewrite <- forall_bytes_srev, Hr in Hg. simpl in Hg. apply andb_true_iff in Hg as [Hc _].
      apply Ascii.eqb_neq. intros <-. by vm_compute in Hc. }
    unfold String.append at 1. by rewrite Hc.
Qed.

(** normalising an amount never changes the price: the accepted text and
    the stored canonical text both parse, to the same scaled value below 10^30. *)
Theorem normalizeAmount_preserves_value value r :
  normalizeAmount value = Ok r ->
  exists v, parseScaledPrice value = Ok v /\ parseScaledPrice r = Ok v /\ 0 <= v < 10 ^ 30.
Proof.
  unfold normalizeAmount. destruct (amount_matches (TrimSpace value)) eqn:Hm; [|done]. simpl.
  apply amount_matches_inv in Hm as (i & f & Ht & Hok & _).
  rewrite Ht, ContainsByte_dot by done.
  pose proof (parse_decimal value i f Ht Hok) as Hp.
  assert (0 <= decimal_value i (default "" f) < 10 ^ 30) as Hr by by apply decimal_value_spec.
  destruct f as [f|]; simpl; intros [= <-].
  - exists (decimal_value i f). rewrite TrimRightByte_stop by done.
    destruct (TrimRightByte_spec "0" f) as [n Hn]. simpl in *.
    rewrite Hn in Hok. apply decimal_ok_trim in Hok as [Hok Hv]. rewrite <- Hn in Hv.
    rewrite TrimSuffixByte_decimal by by destruct Hok as (_&_&_&_&?).
    split; [done|]. split; [|done]. rewrite Hv.
    destruct (String.eqb_spec (TrimRightByte "0" f) "") as [He|He].
    + rewrite (parse_decimal _ i None); [by rewrite He| |by rewrite He in Hok].
      apply plain_TrimSpace, decimal_text_plain. by rewrite He in Hok.
    + rewrite (parse_decimal _ i (Some (TrimRightByte "0" f))); [done| |done].
      by apply plain_TrimSpace, decimal_text_plain.
  - exists (decimal_value i ""). split; [done|]. split; [|done].
    rewrite (parse_decimal _ i None); [done| |done].
    by apply plain_TrimSpace, (decimal_text_plain i None).
Qed.

(** ** Quotes *)

(** What a dimension costs per unit, 0 when it has no price. *)
Definition rate (prices : gmap string string) (d : string) : Z :=
  match prices !! d with
  | Some p => match parseScaledPrice p with Ok v => v | Err _ => 0 end
  | None => 0
  end.
Definition priced (prices : gmap string string) (d : string) : bool :=
  bool_decide (is_Some (prices !! d)).

(** Every stored price parses. *)
Definition prices_ok (prices : gmap string string) : Prop :=
  forall d p, prices !! d = Some p -> is_ok (parseScaledPrice p) = true.

(** The tokens of the prompt side: cached tokens are part of the input count,
    unless they exceed it, when they are a separate counter. *)
Definition prompt_tokens (u : TokenUsage) : Z :=
  if CacheReadTokens u <=? InputTokens u then InputTokens u
  else InputTokens u + CacheReadTokens u.
Definition completion_tokens (u : TokenUsage) : Z :=
  if ReasoningTokens u <=? OutputTokens u then OutputTokens u
  else OutputTokens u + ReasoningTokens u.

(** The reference price of a usage, in units of 10^-12: each prompt and each
    completion token once, at its dedicated rate when there is one. *)
Definition reference_total (prices : gmap string string) (u : TokenUsage) : Z :=
  let cached := if priced prices DimensionCacheReadToken then CacheReadTokens u else 0 in
  let reasoned := if priced prices DimensionReasoningToken then ReasoningTokens u else 0 in
  let write_rate := if priced prices DimensionCacheWriteToken
                    then rate prices DimensionCacheWriteToken
                    else rate prices DimensionInputToken in
  rate prices DimensionInputToken * (prompt_tokens u - cached)
  + rate prices DimensionCacheReadToken * cached
  + write_rate * CacheWriteTokens u
  + rate prices DimensionOutputToken * (completion_tokens u - reasoned)
  + rate prices DimensionReasoningToken * reasoned.

Lemma addPricedUnits_ok total prices d p count :
  prices_ok prices -> prices !! d = Some p -> 0 <= count ->
  addPricedUnits total p count = Ok (total + rate prices d * count).
Proof.
  intros Hok Hp Hc. unfold addPricedUnits, rate. rewrite Hp.
  specialize (Hok d p Hp). rewrite (proj2 (Z.ltb_ge count 0)) by lia.
  destruct (parseScaledPrice p) as [v|]; [|done].
  destruct (Z.eqb_spec count 0) as [->|], (Z.eqb_spec v 0) as [->|]; simpl; f_equal; lia.
Qed.

Lemma rate_nonneg prices d : 0 <= rate prices d.
Proof.
  unfold rate. destruct (prices !! d); [|done]. destruct (parseScaledPrice s) eqn:E; [|done].
  apply parseScaledPrice_range in E. lia.
Qed.

(** What a counter [c] that may be part of [n] costs at the dedicated rate of
    [d], if there is one, and how many of [n] are left for the base rate [b]. *)
Definition dedicated (prices : gmap string string) (d b : string) (c n : Z) : Z * Z :=
  if priced prices d
  then (rate prices d * c, if c <=? n then n - c else n)
  else (if c <=? n then 0 else rate prices b * c, n).

Ltac dedicated_cases prices d Hok n c :=
  unfold dedicated, priced;
  destruct (Z.ltb_spec 0 c);
  [ destruct (prices !! d) eqn:?;
    [ rewrite bool_decide_true by done; erewrite addPricedUnits_ok by (done || lia);
      simpl; destruct (Z.leb_spec c n); i64
    | rewrite bool_decide_false by (intros [? ?]; done);
      destruct (Z.ltb_spec n c), (Z.leb_spec c n); try lia;
      try (erewrite addPricedUnits_ok by (done || lia)) ]
  | assert (c = 0) as -> by lia; rewrite (proj2 (Z.leb_le 0 n)) by lia; case_bool_decide ];
  simpl; repeat f_equal; lia.

Lemma quote_cache_read_spec prices pin c n total :
  prices_ok prices -> nat_i64 n -> nat_i64 c ->
  prices !! DimensionInputToken = Some pin ->
  quote_cache_read prices pin c n total =
    let r := dedicated prices DimensionCacheReadToken DimensionInputToken c n in
    Ok (total + r.1, r.2).
Proof.
  intros Hok [??] [??] Hp. unfold quote_cache_read.
  dedicated_cases prices DimensionCacheReadToken Hok n c.
Qed.

Lemma quote_reasoning_spec prices pout c n total :
  prices_ok prices -> nat_i64 n -> nat_i64 c ->
  prices !! DimensionOutputToken = Some pout ->
  quote_reasoning prices pout c n total =
    let r := dedicated prices DimensionReasoningToken DimensionOutputToken c n in
    Ok (total + r.1, r.2).
Proof.
  intros Hok [??] [??] Hp. unfold quote_reasoning.
  dedicated_cases prices DimensionReasoningToken Hok n c.
Qed.

Lemma quote_cache_write_spec prices pin c total :
  prices_ok prices -> nat_i64 c -> prices !! DimensionInputToken = Some pin ->
  quote_cache_write prices pin c total =
    Ok (total + (if priced prices DimensionCacheWriteToken
                 then rate prices DimensionCacheWriteToken
                 else rate prices DimensionInputToken) * c).
Proof.
  intros Hok [??] Hp. unfold quote_cache_write, priced.
  destruct (Z.ltb_spec 0 c); [|assert (c = 0) as -> by lia; by rewrite Z.mul_0_r, Z.add_0_r].
  destruct (prices !! DimensionCacheWriteToken) eqn:Hw; simpl;
    by erewrite addPricedUnits_ok by (done || lia).
Qed.

(** The two prices of [dedicated] add up to the closed form. *)
Lemma dedicated_total prices d b c n :
  0 <= c -> 0 <= n ->
  let r := dedicated prices d b c n in
  let k := if priced prices d then c else 0 in
  0 <= r.2 /\ r.1 + rate prices b * r.2
    = rate prices b * ((if c <=? n then n else n + c) - k) + rate prices d * k.
Proof. unfold dedicated. intros. destruct (priced _ _), (Z.leb_spec c n); simpl; nia. Qed.


Lemma reference_total_nonneg prices u : usage_ok u -> 0 <= reference_total prices u.
Proof.
  intros ([??] & [??] & [??] & [??] & [??]). unfold reference_total, prompt_tokens, completion_tokens.
  pose proof (rate_nonneg prices) as Hr.
  pose proof (Hr DimensionInputToken). pose proof (Hr DimensionOutputToken).
  pose proof (Hr DimensionCacheReadToken). pose proof (Hr DimensionCacheWriteToken).
  pose proof (Hr DimensionReasoningToken).
  destruct (Z.leb_spec (CacheReadTokens u) (InputTokens u)),
    (Z.leb_spec (ReasoningTokens u) (OutputTokens u)),
    (priced prices DimensionCacheReadToken), (priced prices DimensionReasoningToken),
    (priced prices DimensionCacheWriteToken);
    repeat apply Z.add_nonneg_nonneg; apply Z.mul_nonneg_nonneg; lia.
Qed.

(** ** Rounding *)

(** The smallest number of minor units that covers [total]. *)
Definition ceil_minor (total m : Z) : Z := - ((- (total * 10 ^ m)) / priceScaleBase).

Lemma ceil_minor_spec total m :
  (ceil_minor total m - 1) * 10 ^ 12 < total * 10 ^ m <= ceil_minor total m * 10 ^ 12.
Proof.
  unfold ceil_minor, priceScaleBase.
  pose proof (Z.div_mod (- (total * 10 ^ m)) (10 ^ 12) ltac:(lia)).
  pose proof (Z.mod_pos_bound (- (total * 10 ^ m)) (10 ^ 12) ltac:(lia)). lia.
Qed.

Lemma scaledToMinor_spec total m :
  0 <= total -> 0 <= m <= 9 ->
  scaledToMinor total m =
    if bool_decide (ceil_minor total m <= max_int64) then Ok (ceil_minor total m)
    else Err ErrBalanceOverflow.
Proof.
  intros Ht Hm. unfold scaledToMinor.
  rewrite (proj2 (Z.ltb_ge m 0)), (proj2 (Z.ltb_ge 9 m)) by lia. simpl.
  set (n := total * 10 ^ m).
  assert (0 <= n) as Hn by (apply Z.mul_nonneg_nonneg; [done|apply Z.pow_nonneg; lia]).
  rewrite Z.quot_div_nonneg, Z.rem_mod_nonneg by (unfold priceScaleBase; lia).
  assert (ceil_minor total m = if 0 <? n mod priceScaleBase
            then n / priceScaleBase + 1 else n / priceScaleBase) as <-.
  { pose proof (ceil_minor_spec total m) as Hc. fold n in Hc. unfold priceScaleBase in *.
    pose proof (Z.div_mod n (10 ^ 12) ltac:(lia)).
    pose proof (Z.mod_pos_bound n (10 ^ 12) ltac:(lia)).
    destruct (Z.ltb_spec 0 (n mod 10 ^ 12)); lia. }
  assert (0 <= ceil_minor total m) by (pose proof (ceil_minor_spec total m); lia).
  rewrite (proj2 (Z.ltb_ge _ 0)) by done.
  rewrite (proj2 (Z.ltb_ge _ min_int64)) by (i64_unfold; lia). simpl.
  destruct (Z.ltb_spec max_int64 (ceil_minor total m)); case_bool_decide; (done || lia).
Qed.

Lemma DefaultCurrencyMinorUnits_range c : 0 <= DefaultCurrencyMinorUnits c <= 3.
Proof. unfold DefaultCurrencyMinorUnits. repeat case_match; lia. Qed.

Lemma addPricedUnits_mono total p c total' :
  addPricedUnits total p c = Ok total' -> total <= total'.
Proof.
  unfold addPricedUnits. destruct (Z.ltb_spec c 0); [done|].
  destruct (parseScaledPrice p) eqn:E; [|done]. apply parseScaledPrice_range in E.
  destruct (_ || _); intros [= <-]; nia.
Qed.

Lemma quote_total_nonneg prices u total : quote_total prices u = Ok total -> 0 <= total.
Proof.
  assert (forall pin c n t t' n', quote_cache_read prices pin c n t = Ok (t', n') -> t <= t') as H1.
  { intros pin c n t t' n'. unfold quote_cache_read. repeat case_match; try naive_solver.
    all: intros (? & ?%addPricedUnits_mono & [= <- _])%result_bind_ok; lia. }
  assert (forall pin c n t t' n', quote_reasoning prices pin c n t = Ok (t', n') -> t <= t') as H2.
  { intros pin c n t t' n'. unfold quote_reasoning. repeat case_match; try naive_solver.
    all: intros (? & ?%addPricedUnits_mono & [= <- _])%result_bind_ok; lia. }
  assert (forall pin c t t', quote_cache_write prices pin c t = Ok t' -> t <= t') as H3.
  { intros pin c t t'. unfold quote_cache_write. case_match; [apply addPricedUnits_mono|].
    intros [= <-]. lia. }
  unfold quote_total. repeat case_match; try done; [intros ?%addPricedUnits_mono; lia|].
  intros ([t1 n1] & ?%H1 & Hq)%result_bind_ok.
  apply result_bind_ok in Hq as (t2 & ?%H3 & Hq).
  apply result_bind_ok in Hq as ([t3 n3] & ?%H2 & Hq).
  apply result_bind_ok in Hq as (t4 & ?%addPricedUnits_mono & ?%addPricedUnits_mono). lia.
Qed.

(** C37: the charge of a priced request is the exact total rounded up to a minor
    unit once: never below the price, less than one minor unit above it, a
    non-negative [int64], and bound to the price version and currency of the
    snapshot. *)
Theorem calculateQuote_rounds_up_once s u q :
  calculateQuote s u = Ok q -> s_Free s = false ->
  exists total,
    quote_total (s_Prices s) u = Ok total
    /\ (q_AmountMinor q - 1) * 10 ^ 12
         < total * 10 ^ DefaultCurrencyMinorUnits (q_Currency q)
         <= q_AmountMinor q * 10 ^ 12
    /\ nat_i64 (q_AmountMinor q)
    /\ q_PriceVersionID q = s_VersionID s /\ s_VersionID s <> uuid_nil
    /\ slen (q_Currency q) = 3 /\ q_Currency q = ToUpper (TrimSpace (s_Currency s)).
Proof.
  intros Hq Hfree. unfold calculateQuote in Hq. rewrite Hfree in Hq.
  destruct (_ || _) eqn:E1 in Hq; [done|]. destruct (usage_negative u); [done|].
  apply orb_false_iff in E1 as [[E1%uuid_eqb_neq _]%orb_false_iff E2%negb_false_iff%Z.eqb_eq].
  apply result_bind_ok in Hq as (total & Ht & Hq).
  apply result_bind_ok in Hq as (amount & Ha & Hq). injection Hq as <-. simpl.
  pose proof (quote_total_nonneg _ _ _ Ht) as Hn.
  pose proof (DefaultCurrencyMinorUnits_range (ToUpper (TrimSpace (s_Currency s)))).
  rewrite scaledToMinor_spec in Ha by lia. case_bool_decide; [|done]. injection Ha as <-.
  exists total. pose proof (ceil_minor_spec total
    (DefaultCurrencyMinorUnits (ToUpper (TrimSpace (s_Currency s))))).
  assert (0 <= total * 10 ^ DefaultCurrencyMinorUnits (ToUpper (TrimSpace (s_Currency s)))).
  { apply Z.mul_nonneg_nonneg; [done|apply Z.pow_nonneg; lia]. }
  split_and!; try done; unfold nat_i64; lia.
Qed.

(** a snapshot that is not marked free and does not price the request is
    refused with [ErrPriceMissing]: without a version, without a three-letter
    currency, or with neither a request price nor both token prices, no usage
    gets a quote. *)
Theorem calculateQuote_fails_closed s u :
  s_Free s = false -> usage_ok u ->
  s_VersionID s = uuid_nil \/ slen (ToUpper (TrimSpace (s_Currency s))) <> 3
  \/ (s_Prices s !! DimensionRequest = None
      /\ (s_Prices s !! DimensionInputToken = None \/ s_Prices s !! DimensionOutputToken = None)) ->
  calculateQuote s u = Err ErrPriceMissing.
Proof.
  intros Hfree ([??] & [??] & [??] & [??] & [??]) Hcase. unfold calculateQuote. rewrite Hfree.
  destruct (_ || _) eqn:E1; [done|].
  apply orb_false_iff in E1 as [[E1%uuid_eqb_neq _]%orb_false_iff E2%negb_false_iff%Z.eqb_eq].
  assert (usage_negative u = false) as ->.
  { unfold usage_negative. rewrite !orb_false_iff, !Z.ltb_ge. lia. }
  destruct Hcase as [?|[?|[Hr Ht]]]; [done..|].
  unfold quote_total. rewrite Hr.
  destruct Ht as [Ht|Ht]; rewrite Ht; [done|]. by destruct (s_Prices s !! DimensionInputToken).
Qed.

(** ** Witnesses: a request price and a pair of token prices *)
Lemma normalizeAmount_preserves_value_witness :
  exists v, parseScaledPrice "1.5" = Ok v /\ 0 <= v < 10 ^ 30.
Proof.
  destruct (normalizeAmount_preserves_value " 1.50 " "1.5") as (v & _ & H).
  - vm_compute. reflexivity.
  - by exists v.
Defined.

Definition token_prices : gmap string string :=
  <[DimensionInputToken := "2.5"]> (<[DimensionOutputToken := "10"]>
    (<[DimensionCacheReadToken := "0.25"]> ∅)).
Definition some_usage : TokenUsage :=
  {| InputTokens := 1000; OutputTokens := 200; CacheReadTokens := 400;
     CacheWriteTokens := 0; ReasoningTokens := 50 |}.
Definition token_snapshot : Snapshot :=
  {| s_VersionID := 5%N; s_Scope := "global"; s_Currency := " usd"; s_EffectiveFrom := 1;
     s_Prices := token_prices; s_Free := false |}.

Lemma token_prices_ok : prices_ok token_prices.
Proof.
  unfold prices_ok, token_prices. intros d p H.
  repeat (apply lookup_insert_Some in H as [[<- <-]|[_ H]]; [by vm_compute|]).
  simplify_map_eq.
Qed.
Lemma some_usage_ok : usage_ok some_usage.
Proof. unfold usage_ok, some_usage, nat_i64, max_int64. simpl. lia. Qed.


Lemma calculateQuote_rounds_up_once_witness :
  exists q total, calculateQuote token_snapshot some_usage = Ok q
    /\ quote_total token_prices some_usage = Ok total
    /\ total * 10 ^ 2 <= q_AmountMinor q * 10 ^ 12.
Proof.
  destruct (calculateQuote token_snapshot some_usage) as [q|] eqn:E; [|by vm_compute in E].
  destruct (calculateQuote_rounds_up_once token_snapshot some_usage q) as (t & H1 & [_ H2] & _).
  - exact E.
  - reflexivity.
  - exists q, t. split; [done|]. split; [exact H1|].
    assert (DefaultCurrencyMinorUnits (q_Currency q) = 2) as Hd.
    { vm_compute in E. injection E as <-. reflexivity. }
    by rewrite Hd in H2.
Defined.

Lemma calculateQuote_fails_closed_witness :
  calculateQuote {| s_VersionID := 5%N; s_Scope := "global"; s_Currency := "USD";
    s_EffectiveFrom := 1; s_Prices := <[DimensionInputToken := "2.5"]> ∅; s_Free := false |}
    some_usage = Err ErrPriceMissing.
Proof.
  apply calculateQuote_fails_closed.
  - reflexivity.
  - exact some_usage_ok.
  - right. right. split; [reflexivity|]. right. reflexivity.
Defined.

End MoneyProofs.
