(* ===== verification/Store.v ===== *)
(** * The PostgreSQL rows and the statements of the billing repository

    [data.Store] and the SQL of [internal/billing/repository.go].  The tables
    are finite maps keyed by their primary key (the append-only ledger, outbox
    and audit log are lists in insertion order).  A statement either changes
    the rows and succeeds or fails with a SQLSTATE; the constraints the
    migrations put on the modelled columns are checked by the statements, the
    remaining ones (foreign keys into tables outside the model, text-format
    checks, ownership triggers) are the parameter [SqlGuards].  Identifiers
    come from a supply ([uuid.NewV7] is third-party code): nothing is assumed
    of them, and a repeated one fails on the primary key. *)

From stdpp Require Import base gmap strings list sorting.
From Stdlib Require Import ZArith Lia Ascii String.
From S2P Require Import Prelude GoLib Usage Pricing BillingModel.

Module Store.
Import Usage Billing.

(** ** Tables *)
#[warnings="-register-all"]
Inductive JVal :=
| JUuid (u : uuid) | JStr (s : string) | JInt (z : Z) | JBool (b : bool)
| JObj (fields : list (string * JVal)).

Record OutboxRow := {
  ob_ID : uuid;
  ob_AggregateType : string;
  ob_AggregateID : uuid;
  ob_EventType : string;
  ob_IdempotencyKey : string;
  ob_Payload : list (string * JVal)
}.

Record AuditRow := {
  au_ID : uuid;
  au_EventID : string;
  au_ActorUserID : option uuid;
  au_Action : string;
  au_TargetType : string;
  au_TargetID : string;
  au_RequestID : option string;
  au_Result : string
}.

Record DB := mkDB {
  price_versions : gmap uuid Pricing.Version;
  usage_events : gmap uuid Event;
  wallets : gmap uuid Wallet;
  reservations : gmap uuid Reservation;
  settlements : gmap uuid Settlement;
  liabilities : gmap uuid Liability;
  ledger : list LedgerEntry;
  outbox : list OutboxRow;
  audit_logs : list AuditRow
}.

Definition set_wallets (f : gmap uuid Wallet -> gmap uuid Wallet) (d : DB) : DB :=
  mkDB (price_versions d) (usage_events d) (f (wallets d)) (reservations d) (settlements d)
       (liabilities d) (ledger d) (outbox d) (audit_logs d).
Definition set_reservations (f : gmap uuid Reservation -> gmap uuid Reservation) (d : DB) : DB :=
  mkDB (price_versions d) (usage_events d) (wallets d) (f (reservations d)) (settlements d)
       (liabilities d) (ledger d) (outbox d) (audit_logs d).
Definition set_settlements (f : gmap uuid Settlement -> gmap uuid Settlement) (d : DB) : DB :=
  mkDB (price_versions d) (usage_events d) (wallets d) (reservations d) (f (settlements d))
       (liabilities d) (ledger d) (outbox d) (audit_logs d).
Definition set_liabilities (f : gmap uuid Liability -> gmap uuid Liability) (d : DB) : DB :=
  mkDB (price_versions d) (usage_events d) (wallets d) (reservations d) (settlements d)
       (f (liabilities d)) (ledger d) (outbox d) (audit_logs d).
Definition set_ledger (f : list LedgerEntry -> list LedgerEntry) (d : DB) : DB :=
  mkDB (price_versions d) (usage_events d) (wallets d) (reservations d) (settlements d)
       (liabilities d) (f (ledger d)) (outbox d) (audit_logs d).
Definition set_outbox (f : list OutboxRow -> list OutboxRow) (d : DB) : DB :=
  mkDB (price_versions d) (usage_events d) (wallets d) (reservations d) (settlements d)
       (liabilities d) (ledger d) (f (outbox d)) (audit_logs d).
Definition set_audit_logs (f : list AuditRow -> list AuditRow) (d : DB) : DB :=
  mkDB (price_versions d) (usage_events d) (wallets d) (reservations d) (settlements d)
       (liabilities d) (ledger d) (outbox d) (f (audit_logs d)).

(** ** Parameters *)

(** Constraints over tables and columns outside the model: [Some code] is the
    SQLSTATE the server raises for the row. *)
Class SqlGuards := {
  guard_wallet : Wallet -> option string;
  guard_reservation : Reservation -> option string;
  guard_ledger : LedgerEntry -> option string;
  guard_settlement : Settlement -> option string;
  guard_liability : Liability -> option string;
  guard_outbox : OutboxRow -> option string;
  guard_audit : AuditRow -> option string
}.

(** [time.Now()] where a creation time was left zero. *)
Class WallClock := wall_now : time.

(** ** Transactions over the rows and the identifier supply *)
Definition St : Type := list uuid * DB.
Abbreviation stmt := (tx St sqlerr).
Abbreviation btx := (tx St error).

Definition run_billing {A} (ids : list uuid) (m : btx A) (d : DB) : DB * result error A :=
  match m (ids, d) with
  | Ok ((_, d'), a) => (d', Ok a)
  | Err e => (d, Err e)
  end.

Definition read {E A} (f : DB -> A) : tx St E A := fun s => Ok (s, f s.2).
Definition write {E} (f : DB -> DB) : tx St E unit := fun s => Ok ((s.1, f s.2), tt).

(** [id.New]. *)
Definition new_id : btx uuid := fun s =>
  match s.1 with
  | i :: rest => Ok ((rest, s.2), i)
  | [] => Err EGenerateID
  end.

(** [return mapRepositoryError(err)] and [return err]. *)
Definition mapped {A} (m : stmt A) : btx A := fun s => map_err mapRepositoryError (m s).
Definition raw {A} (m : stmt A) : btx A := fun s => map_err EDatabase (m s).

(** A single-row [SELECT]. *)
Definition row {A} (o : option A) : stmt A := tx_lift (match o with Some a => Ok a | None => Err NoRows end).
(** [errors.Is(err, pgx.ErrNoRows)] as the absent case. *)
Definition optional {A} (m : stmt A) : btx (option A) := fun s =>
  match m s with
  | Ok (s', a) => Ok (s', Some a)
  | Err NoRows => Ok (s, None)
  | Err e => Err (mapRepositoryError e)
  end.

Definition guard (g : option string) : stmt unit :=
  match g with Some c => tx_fail (SqlState c) | None => mret tt end.
Definition unless_unique (dup : bool) : stmt unit := tx_when dup (SqlState "23505").
Definition check (ok : bool) : stmt unit := tx_when (negb ok) (SqlState "23514").

Section statements.
Context `{UuidText, SqlGuards, WallClock}.

(** ** wallets *)
Definition wallet_owned (userID : uuid) (currency : string) (w : Wallet) : bool :=
  uuid_eqb (w_UserID w) userID && String.eqb (w_Currency w) currency.

Definition select_wallet_by_owner (userID : uuid) (currency : string) : stmt Wallet :=
  o ← read (fun d => map_find (wallet_owned userID currency) (wallets d)); row o.

Definition loadWalletByID (walletID : uuid) : stmt Wallet :=
  o ← read (fun d => wallets d !! walletID); row o.

(** [CHECK (available_balance_minor >= 0)], [CHECK (reserved_balance_minor >= 0)]. *)
Definition wallet_check (w : Wallet) : bool := (0 <=? w_Available w) && (0 <=? w_Reserved w).

(** [INSERT INTO wallets ... ON CONFLICT (user_id, currency) DO NOTHING]. *)
Definition insert_wallet (w : Wallet) : stmt unit :=
  exists_owner ← read (fun d => map_any (wallet_owned (w_UserID w) (w_Currency w)) (wallets d));
  if exists_owner : bool then mret tt else
  dup ← read (fun d => bool_decide (is_Some (wallets d !! w_ID w)));
  unless_unique dup;;
  guard (guard_wallet w);;
  write (set_wallets (<[w_ID w := w]>)).

(** The row after [SET ..., version = version + 1, updated_at = now]; [w'] holds
    the new value of the other columns. *)
Definition bump_wallet (now : time) (w w' : Wallet) : Wallet :=
  {| w_ID := w_ID w; w_UserID := w_UserID w; w_Currency := w_Currency w;
     w_Available := w_Available w'; w_Reserved := w_Reserved w';
     w_Status := w_Status w; w_FinancialHold := w_FinancialHold w';
     w_Version := w_Version w + 1; w_CreatedAt := w_CreatedAt w;
     w_UpdatedAt := now |}.

(** [UPDATE wallets SET ... WHERE id = walletID]. *)
Definition update_wallet (walletID : uuid) (now : time) (f : DB -> Wallet -> Wallet) : stmt unit :=
  o ← read (fun d => (fun w => bump_wallet now w (f d w)) <$> wallets d !! walletID);
  match o with
  | None => mret tt
  | Some w' =>
      check (wallet_check w');;
      tx_when (max_int64 <? w_Version w') (SqlState "22003");;
      write (set_wallets (<[walletID := w']>))
  end.

Definition with_balances (available reserved : Z) (hold : bool) (w : Wallet) : Wallet :=
  {| w_ID := w_ID w; w_UserID := w_UserID w; w_Currency := w_Currency w;
     w_Available := available; w_Reserved := reserved; w_Status := w_Status w;
     w_FinancialHold := hold; w_Version := w_Version w; w_CreatedAt := w_CreatedAt w;
     w_UpdatedAt := w_UpdatedAt w |}.

(** [SET available_balance_minor = $2, reserved_balance_minor = $3]. *)
Definition set_balances (available reserved : Z) : DB -> Wallet -> Wallet :=
  fun _ w => with_balances available reserved (w_FinancialHold w) w.

Definition getOrCreateWallet (userID : uuid) (currency : string) (now : time) : btx Wallet :=
  walletID ← new_id;
  mapped (insert_wallet
    {| w_ID := walletID; w_UserID := userID; w_Currency := currency;
       w_Available := 0; w_Reserved := 0; w_Status := "active"; w_FinancialHold := false;
       w_Version := 0; w_CreatedAt := now; w_UpdatedAt := now |});;
  mapped (select_wallet_by_owner userID currency).

(** ** wallet_reservations *)
Definition loadReservationByID (reservationID : uuid) : stmt Reservation :=
  o ← read (fun d => reservations d !! reservationID); row o.

Definition loadReservationByRequestID (requestID : string) : stmt Reservation :=
  o ← read (fun d => map_find (fun r => String.eqb (r_RequestID r) requestID) (reservations d));
  row o.

(** [wallet_reservations_state_check] and the amount checks. *)
Definition reservation_check (r : Reservation) : bool :=
  (0 <? r_AmountMinor r)
  && validReservationStatus (r_Status r)
  && negb (opt_negative (r_SettledAmountMinor r))
  && (let closed := bool_decide (is_Some (r_SettledAmountMinor r))
                    && bool_decide (is_Some (r_UsageEventID r)) in
      let open := bool_decide (r_SettledAmountMinor r = None)
                  && bool_decide (r_UsageEventID r = None) in
      if one_of (r_Status r) [ReservationReserved; ReservationReleased] then open else closed).

Definition insert_reservation (r : Reservation) : stmt unit :=
  dup ← read (fun d =>
    bool_decide (is_Some (reservations d !! r_ID r))
    || map_any (fun r' => String.eqb (r_RequestID r') (r_RequestID r)
                          || (uuid_eqb (r_WalletID r') (r_WalletID r)
                              && String.eqb (r_ReservationKey r') (r_ReservationKey r)))
               (reservations d));
  unless_unique dup;;
  check (reservation_check r);;
  owner ← read (fun d => wallets d !! r_WalletID r);
  check (match owner with Some w => uuid_eqb (w_UserID w) (r_UserID r) | None => false end);;
  guard (guard_reservation r);;
  write (set_reservations (<[r_ID r := r]>)).

(** [UPDATE wallet_reservations SET status, settled_amount_minor, usage_event_id,
    reason, updated_at WHERE id]. *)
Definition update_reservation (reservationID : uuid) (f : Reservation -> Reservation) : stmt unit :=
  o ← read (fun d => reservations d !! reservationID);
  match o with
  | None => mret tt
  | Some r =>
      let r' := f r in
      dup ← read (fun d => match r_UsageEventID r' with
        | Some ev => map_any (fun r2 => negb (uuid_eqb (r_ID r2) (r_ID r))
                                        && opt_uuid_eqb (r_UsageEventID r2) (Some ev))
                             (reservations d)
        | None => false end);
      unless_unique dup;;
      check (reservation_check r');;
      guard (guard_reservation r');;
      write (set_reservations (<[reservationID := r']>))
  end.

Definition set_reservation_status (status : string) (settled : option Z) (event : option uuid)
    (reason : string) (now : time) (r : Reservation) : Reservation :=
  {| r_ID := r_ID r; r_WalletID := r_WalletID r; r_UserID := r_UserID r;
     r_APIKeyID := r_APIKeyID r; r_RequestID := r_RequestID r;
     r_RequestRecordID := r_RequestRecordID r; r_ModelID := r_ModelID r;
     r_ProviderModelID := r_ProviderModelID r; r_RouteVersionID := r_RouteVersionID r;
     r_ProviderID := r_ProviderID r; r_CredentialID := r_CredentialID r;
     r_PriceVersionID := r_PriceVersionID r; r_EstimatedUsage := r_EstimatedUsage r;
     r_ReservationKey := r_ReservationKey r; r_AmountMinor := r_AmountMinor r;
     r_Currency := r_Currency r; r_Status := status; r_SettledAmountMinor := settled;
     r_UsageEventID := event; r_Reason := reason; r_ExpiresAt := r_ExpiresAt r;
     r_CreatedAt := r_CreatedAt r; r_UpdatedAt := now |}.

(** ** wallet_ledger *)
Definition wallet_key (walletID : uuid) (key : string) (e : LedgerEntry) : bool :=
  uuid_eqb (le_WalletID e) walletID && String.eqb (le_IdempotencyKey e) key.

Definition loadLedgerByIdempotency (walletID : uuid) (key : string) : stmt LedgerEntry :=
  o ← read (fun d => List.find (wallet_key walletID key) (ledger d)); row o.

(** [wallet_ledger_amount_semantics_check]. *)
Definition ledger_semantics (e : LedgerEntry) : bool :=
  let t := le_EntryType e in
  let amount := le_AmountMinor e in
  let da := le_AvailableDelta e in
  let dr := le_ReservedDelta e in
  if one_of t [EntryReservation; EntryPaymentRefundHold]
  then (0 <? amount) && (da =? - amount) && (dr =? amount)
  else if one_of t [EntryRelease; EntryPaymentRefundRelease]
  then (amount <? 0) && (da =? - amount) && (dr =? amount)
  else if String.eqb t EntryUsageCharge
  then (amount <? 0) && (da <=? 0) && (dr <=? 0) && (da + dr =? amount)
  else if one_of t [EntryRecharge; EntryRefund; EntryGrant; EntryBonus]
  then (0 <? amount) && (da =? amount) && (dr =? 0)
  else if one_of t [EntryAdjustment; EntryAdminAdjustment; EntryExpiration; EntryPaymentLiability]
  then (da =? amount) && (dr =? 0)
  else if String.eqb t EntryPaymentReversal
  then (amount <? 0) && (da =? 0) && (dr =? amount)
  else false.

(** The other checks on the numbers of a ledger row. *)
Definition ledger_check (e : LedgerEntry) : bool :=
  negb (le_AmountMinor e =? 0)
  && (negb (le_AvailableDelta e =? 0) || negb (le_ReservedDelta e =? 0))
  && (0 <=? le_AvailableAfter e) && (0 <=? le_ReservedAfter e)
  && (negb (String.eqb (le_EntryType e) EntryAdminAdjustment)
      || bool_decide (is_Some (le_OperatorUserID e)))
  && (negb (String.eqb (le_EntryType e) EntryUsageCharge)
      || bool_decide (is_Some (le_UsageEventID e)))
  && ledger_semantics e.

Definition insert_ledger_row (e : LedgerEntry) : stmt LedgerEntry :=
  dup ← read (fun d => existsb (fun e' =>
      uuid_eqb (le_ID e') (le_ID e)
      || wallet_key (le_WalletID e) (le_IdempotencyKey e) e'
      || (bool_decide (is_Some (le_UsageEventID e))
          && opt_uuid_eqb (le_UsageEventID e') (le_UsageEventID e))) (ledger d));
  unless_unique dup;;
  known ← read (fun d => bool_decide (is_Some (wallets d !! le_WalletID e)));
  tx_when (negb known) (SqlState "23503");;
  check (ledger_check e);;
  guard (guard_ledger e);;
  write (set_ledger (fun l => (l ++ [e])%list));;
  mret e.

Record ledgerInsert := {
  in_WalletID : uuid;
  in_EntryType : string;
  in_AmountMinor : Z;
  in_AvailableDelta : Z;
  in_ReservedDelta : Z;
  in_AvailableAfter : Z;
  in_ReservedAfter : Z;
  in_Currency : string;
  in_ReferenceType : string;
  in_ReferenceID : string;
  in_IdempotencyKey : string;
  in_UsageEventID : option uuid;
  in_OperatorUserID : option uuid;
  in_Source : string;
  in_CreatedAt : time
}.

(** The row [insertLedger] writes. *)
Definition ledger_row (input : ledgerInsert) (entryID : uuid) : LedgerEntry :=
  {| le_ID := entryID; le_WalletID := in_WalletID input; le_EntryType := in_EntryType input;
     le_AmountMinor := in_AmountMinor input; le_AvailableDelta := in_AvailableDelta input;
     le_ReservedDelta := in_ReservedDelta input; le_AvailableAfter := in_AvailableAfter input;
     le_ReservedAfter := in_ReservedAfter input; le_Currency := in_Currency input;
     le_ReferenceType := in_ReferenceType input; le_ReferenceID := in_ReferenceID input;
     le_IdempotencyKey := in_IdempotencyKey input;
     le_UsageEventID := cloneUUID (in_UsageEventID input);
     le_OperatorUserID := cloneUUID (in_OperatorUserID input);
     le_Source := in_Source input;
     le_CreatedAt := if IsZero (in_CreatedAt input) then wall_now else in_CreatedAt input |}.

Definition insertLedger (input : ledgerInsert) : btx LedgerEntry :=
  entryID ← new_id;
  mapped (insert_ledger_row (ledger_row input entryID)).

(** ** outbox_events and audit_logs *)
Definition insertBillingOutbox (aggregateType : string) (aggregateID : uuid)
    (eventType key : string) (payload : list (string * JVal)) : btx unit :=
  outboxID ← new_id;
  let r := {| ob_ID := outboxID; ob_AggregateType := aggregateType;
              ob_AggregateID := aggregateID; ob_EventType := eventType;
              ob_IdempotencyKey := key; ob_Payload := payload |} in
  conflict ← read (fun d => existsb (fun o =>
      String.eqb (ob_AggregateType o) aggregateType && uuid_eqb (ob_AggregateID o) aggregateID
      && String.eqb (ob_EventType o) eventType && String.eqb (ob_IdempotencyKey o) key)
      (outbox d));
  if conflict : bool then mret tt else
  dup ← read (fun d => existsb (fun o => uuid_eqb (ob_ID o) outboxID) (outbox d));
  mapped (unless_unique dup;; guard (guard_outbox r);;
          write (set_outbox (fun l => (l ++ [r])%list))).

Record AuditEvent := {
  ae_ActorUserID : option uuid;
  ae_Action : string;
  ae_TargetType : string;
  ae_TargetID : string;
  ae_RequestID : string;
  ae_Result : string
}.

(** [audit.Insert]. *)
Definition audit_Insert (event : AuditEvent) : btx unit :=
  if String.eqb (ae_Action event) "" || String.eqb (ae_TargetType event) ""
     || String.eqb (ae_Result event) "" then tx_fail EAudit else
  auditID ← new_id;
  let r := {| au_ID := auditID; au_EventID := "evt_" +:+ uuid_string auditID;
              au_ActorUserID := ae_ActorUserID event; au_Action := ae_Action event;
              au_TargetType := ae_TargetType event;
              au_TargetID := if String.eqb (ae_TargetID event) "" then "unknown"
                             else ae_TargetID event;
              au_RequestID := if String.eqb (ae_RequestID event) "" then None
                              else Some (ae_RequestID event);
              au_Result := ae_Result event |} in
  dup ← read (fun d => existsb (fun o => uuid_eqb (au_ID o) auditID) (audit_logs d));
  raw (unless_unique dup;; guard (guard_audit r);;
       write (set_audit_logs (fun l => (l ++ [r])%list))).

(** ** billing_settlements *)
Definition zero_settlement : Settlement :=
  {| st_ID := uuid_nil; st_ReservationID := uuid_nil; st_UsageEventID := uuid_nil;
     st_IdempotencyKey := ""; st_ReservedAmount := 0; st_ActualAmount := None; st_Status := "";
     st_Estimated := false; st_ErrorClass := ""; st_NextAttemptAt := 0; st_Attempts := 0;
     st_OwnerToken := None; st_LeaseExpiresAt := None; st_CreatedAt := 0; st_UpdatedAt := 0 |}.

Definition loadSettlementByReservation (reservationID : uuid) : stmt Settlement :=
  o ← read (fun d => map_find (fun st => uuid_eqb (st_ReservationID st) reservationID) (settlements d));
  row o.

(** [billing_settlements_state_check] and the amount checks. *)
Definition settlement_check (st : Settlement) : bool :=
  (0 <? st_ReservedAmount st) && negb (opt_negative (st_ActualAmount st))
  && (let has_error := negb (String.eqb (st_ErrorClass st) "") in
      let has_actual := bool_decide (is_Some (st_ActualAmount st)) in
      if String.eqb (st_Status st) SettlementPending then has_actual && has_error
      else if String.eqb (st_Status st) SettlementSettled then has_actual && negb has_error
      else one_of (st_Status st) [SettlementFailed; SettlementReconcileNeeded] && has_error).

(** The trigger [bablo_validate_billing_settlement]. *)
Definition settlement_consistent (st : Settlement) (d : DB) : bool :=
  match usage_events d !! st_UsageEventID st, reservations d !! st_ReservationID st with
  | Some u, Some r =>
      opt_uuid_eqb (ev_WalletID u) (Some (r_WalletID r))
      && String.eqb (ev_RequestID u) (r_RequestID r)
      && (r_AmountMinor r =? st_ReservedAmount st)
      && opt_uuid_eqb (ev_PriceVersionID u) (Some (r_PriceVersionID r))
      && bool_decide (is_Some (ev_AmountMinor u) /\ ev_AmountMinor u = st_ActualAmount st)
      && Bool.eqb (ev_Estimated u) (st_Estimated st)
  | _, _ => false
  end.

Definition insert_settlement (st : Settlement) : stmt Settlement :=
  dup ← read (fun d =>
    bool_decide (is_Some (settlements d !! st_ID st))
    || map_any (fun o => uuid_eqb (st_ReservationID o) (st_ReservationID st)
                         || uuid_eqb (st_UsageEventID o) (st_UsageEventID st)
                         || String.eqb (st_IdempotencyKey o) (st_IdempotencyKey st))
               (settlements d));
  ok ← read (settlement_consistent st);
  check ok;;
  unless_unique dup;;
  check (settlement_check st);;
  guard (guard_settlement st);;
  write (set_settlements (<[st_ID st := st]>));;
  mret st.

(** [UPDATE billing_settlements SET status, error_class, next_attempt_at,
    owner_token = NULL, lease_expires_at = NULL, updated_at WHERE id RETURNING]. *)
Definition update_settlement (settlementID : uuid) (status errorClass : string)
    (nextAttemptAt now : time) : stmt Settlement :=
  o ← read (fun d => settlements d !! settlementID);
  st ← row o;
  let st' := {| st_ID := st_ID st; st_ReservationID := st_ReservationID st;
                st_UsageEventID := st_UsageEventID st; st_IdempotencyKey := st_IdempotencyKey st;
                st_ReservedAmount := st_ReservedAmount st; st_ActualAmount := st_ActualAmount st;
                st_Status := status; st_Estimated := st_Estimated st;
                st_ErrorClass := TrimSpace errorClass; st_NextAttemptAt := nextAttemptAt;
                st_Attempts := st_Attempts st; st_OwnerToken := None; st_LeaseExpiresAt := None;
                st_CreatedAt := st_CreatedAt st; st_UpdatedAt := now |} in
  check (settlement_check st');;
  guard (guard_settlement st');;
  write (set_settlements (<[settlementID := st']>));;
  mret st'.

Definition settlementRetryDelay : Z := Minute.
Definition settlementRecoveryLease : Z := 30 * Second.

Definition persistSettlement (existing : Settlement) (reservation : Reservation)
    (usageEventID : uuid) (actual : Z) (estimated : bool) (status errorClass : string)
    (now : time) : btx Settlement :=
  let nextAttemptAt := if String.eqb status SettlementPending
                       then now + settlementRetryDelay else now in
  if uuid_eqb (st_ID existing) uuid_nil then
    settlementID ← new_id;
    raw (insert_settlement
      {| st_ID := settlementID; st_ReservationID := r_ID reservation;
         st_UsageEventID := usageEventID; st_IdempotencyKey := settlementKey usageEventID;
         st_ReservedAmount := r_AmountMinor reservation; st_ActualAmount := Some actual;
         st_Status := status; st_Estimated := estimated; st_ErrorClass := TrimSpace errorClass;
         st_NextAttemptAt := nextAttemptAt; st_Attempts := 0; st_OwnerToken := None;
         st_LeaseExpiresAt := None; st_CreatedAt := now; st_UpdatedAt := now |})
  else raw (update_settlement (st_ID existing) status errorClass nextAttemptAt now).

Definition upsertSettlement (existing : Settlement) (reservation : Reservation) (event : Event)
    (actual : Z) (status errorClass : string) (now : time) : btx Settlement :=
  persistSettlement existing reservation (ev_ID event) actual (ev_Estimated event)
    status errorClass now.

(** ** wallet_liabilities *)
Definition loadLiabilityByReference (referenceType referenceID : string) : stmt Liability :=
  o ← read (fun d => map_find (fun l => String.eqb (l_ReferenceType l) referenceType
                                        && String.eqb (l_ReferenceID l) referenceID)
                              (liabilities d)); row o.

Definition loadLiabilityByID (liabilityID : uuid) : stmt Liability :=
  o ← read (fun d => liabilities d !! liabilityID); row o.

(** The CHECK constraints of [wallet_liabilities]. *)
Definition liability_check (l : Liability) : bool :=
  one_of (l_LiabilityType l) ["payment_refund"; "payment_dispute"]
  && (0 <? l_Principal l) && (0 <=? l_Recovered l) && (l_Recovered l <=? l_Principal l)
  && (if String.eqb (l_Status l) "open" then l_Recovered l <? l_Principal l
      else if String.eqb (l_Status l) "settled" then l_Recovered l =? l_Principal l
      else String.eqb (l_Status l) "reversed").

Definition insert_liability (l : Liability) : stmt Liability :=
  dup ← read (fun d =>
    bool_decide (is_Some (liabilities d !! l_ID l))
    || map_any (fun o => String.eqb (l_ReferenceType o) (l_ReferenceType l)
                         && String.eqb (l_ReferenceID o) (l_ReferenceID l)) (liabilities d));
  unless_unique dup;;
  known ← read (fun d => bool_decide (is_Some (wallets d !! l_WalletID l)));
  tx_when (negb known) (SqlState "23503");;
  check (liability_check l);;
  guard (guard_liability l);;
  write (set_liabilities (<[l_ID l := l]>));;
  mret l.

(** [UPDATE wallet_liabilities SET recovered_amount_minor, status, updated_at
    WHERE id], under the trigger [bablo_validate_wallet_liability_mutation]. *)
Definition update_liability (liabilityID : uuid) (recovered : Liability -> Z) (status : string)
    (now : time) : stmt Liability :=
  o ← read (fun d => liabilities d !! liabilityID);
  l ← row o;
  let l' := {| l_ID := l_ID l; l_WalletID := l_WalletID l; l_LiabilityType := l_LiabilityType l;
               l_ReferenceType := l_ReferenceType l; l_ReferenceID := l_ReferenceID l;
               l_Principal := l_Principal l; l_Recovered := recovered l;
               l_Currency := l_Currency l; l_Status := status; l_RecoveryLedgerID := None;
               l_CreatedAt := l_CreatedAt l; l_UpdatedAt := now |} in
  tx_when ((l_Recovered l' <? l_Recovered l) || String.eqb (l_Status l) "reversed"
           || (String.eqb (l_Status l) "settled" && negb (String.eqb status "reversed")))
          (SqlState "55000");;
  check (liability_check l');;
  guard (guard_liability l');;
  write (set_liabilities (<[liabilityID := l']>));;
  mret l'.

(** The [EXISTS] subqueries of the [financial_hold] assignments. *)
Definition has_open_liability (walletID : uuid) (d : DB) : bool :=
  map_any (fun l => uuid_eqb (l_WalletID l) walletID && String.eqb (l_Status l) "open")
          (liabilities d).

(** [JOIN wallet_reservations ON reservation.id = settlement.reservation_id
    WHERE reservation.wallet_id = $1 AND settlement.status = 'pending'], skipping
    the settlement of the reservation [except] when one is given. *)
Definition has_pending_settlement (walletID : uuid) (except : option uuid) (d : DB) : bool :=
  map_any (fun st =>
    String.eqb (st_Status st) SettlementPending
    && negb (match except with Some r => uuid_eqb (st_ReservationID st) r | None => false end)
    && match reservations d !! st_ReservationID st with
       | Some r => uuid_eqb (r_WalletID r) walletID
       | None => false
       end) (settlements d).

(** ** Budgets *)
Definition parseBigTotal (total : Z) : result error Z :=
  if total <? 0 then Err ErrBalanceOverflow else Ok total.

Definition parseInt64Total (total : Z) : result error Z :=
  if (total <? min_int64) || (max_int64 <? total) then Err ErrBalanceOverflow else Ok total.

(** [validatePublishedPrice]. *)
Definition price_published (priceVersionID : uuid) (currency : string) (at_ : time) (d : DB) : bool :=
  match price_versions d !! priceVersionID with
  | Some v =>
      String.eqb (Pricing.v_Currency v) currency
      && one_of (Pricing.v_Status v) [Pricing.StatusActive; Pricing.StatusRetired]
      && (Pricing.v_EffectiveFrom v <=? at_)
      && match Pricing.v_EffectiveTo v with None => true | Some t => at_ <? t end
  | None => false
  end.

Definition validatePublishedPrice (priceVersionID : uuid) (currency : string) (at_ : time) : btx unit :=
  if uuid_eqb priceVersionID uuid_nil then tx_fail ErrPriceMissing else
  published ← read (price_published priceVersionID currency at_);
  tx_when (negb published) ErrPriceMissing.

(** Midnight UTC of the day, and of the first day of the month (proleptic
    Gregorian calendar), of an instant. *)
Definition day_start (t : time) : time := t - t mod Day.

Definition day_of_month (days : Z) : Z :=
  let doe := (days + 306) mod 146097 in
  let yoe := (doe - doe / 1460 + doe / 36524 - doe / 146096) / 365 in
  let doy := doe - (365 * yoe + yoe / 4 - yoe / 100) in
  let mp := (5 * doy + 2) / 153 in
  doy - (153 * mp + 2) / 5 + 1.

Definition month_start (t : time) : time :=
  let days := t / Day in (days - (day_of_month days - 1)) * Day.

Definition held_total (apiKeyID : uuid) (d : DB) : Z :=
  msum (fun r => if opt_uuid_eqb (r_APIKeyID r) (Some apiKeyID)
                    && one_of (r_Status r) [ReservationReserved; ReservationSettlementPending]
                 then r_AmountMinor r else 0) (reservations d).

Definition spent_since (apiKeyID : uuid) (start : time) (d : DB) : Z :=
  lsum (fun e =>
    match le_UsageEventID e with
    | Some ev =>
        match usage_events d !! ev with
        | Some u => if opt_uuid_eqb (ev_APIKeyID u) (Some apiKeyID)
                       && String.eqb (le_EntryType e) EntryUsageCharge
                       && (le_AmountMinor e <? 0) && (start <=? le_CreatedAt e)
                    then - le_AmountMinor e else 0
        | None => 0
        end
    | None => 0
    end) (ledger d).

Fixpoint check_limits (apiKeyID : uuid) (held amount : Z) (checks : list (option Z * time)) : btx unit :=
  match checks with
  | [] => mret tt
  | (None, _) :: rest => check_limits apiKeyID held amount rest
  | (Some limit, start) :: rest =>
      total ← read (spent_since apiKeyID start);
      spent ← tx_lift (parseBigTotal total);
      tx_when (limit <? spent + held + amount) ErrBudgetExceeded;;
      check_limits apiKeyID held amount rest
  end.

Definition checkBudgets (input : ReserveInput) (amount : Z) (now : time) : btx unit :=
  match ri_DailyBudgetMinor input, ri_MonthlyBudgetMinor input with
  | None, None => mret tt
  | daily, monthly =>
      total ← read (held_total (ri_APIKeyID input));
      held ← tx_lift (parseBigTotal total);
      check_limits (ri_APIKeyID input) held amount
        [(daily, day_start now); (monthly, month_start now)]
  end.

(** ** Reads *)
Definition GetWallet (userID : uuid) (currency : string) (d : DB) : result error Wallet :=
  match map_find (wallet_owned userID currency) (wallets d) with
  | Some w => Ok w
  | None => Err ErrWalletNotFound
  end.

Definition of_wallet (walletID : uuid) (f : LedgerEntry -> Z) (e : LedgerEntry) : Z :=
  if uuid_eqb (le_WalletID e) walletID then f e else 0.

Definition RebuildBalance (walletID : uuid) (d : DB) : result error (Z * Z) :=
  available ← parseInt64Total (lsum (of_wallet walletID le_AvailableDelta) (ledger d));
  reserved ← parseInt64Total (lsum (of_wallet walletID le_ReservedDelta) (ledger d));
  Ok (available, reserved).

End statements.
End Store.
