(* ===== verification/BillingOps.v ===== *)
(** * The operations of [internal/billing]

    [Repository.Reserve], [Settle], [Release] and [CreditInTx] of
    [repository.go], and [OpenLiabilityInTx], [ReverseLiabilityInTx] and
    [recoverWalletLiabilities] of [liability.go].  Every statement of the source
    is a statement here, in the same order. *)

From stdpp Require Import base gmap strings list sorting.
From Stdlib Require Import ZArith Lia Ascii String.
From S2P Require Import Prelude GoLib Usage Pricing BillingModel Money Store.

Module BillingOps.
Import Usage Billing Money Store.

Section operations.
Context `{UuidText, SqlGuards, WallClock}.

(** [safeAdd] and the early return of [ErrBalanceOverflow]. *)
Definition checked_add (left right : Z) : result error Z :=
  match safeAdd left right with Some v => Ok v | None => Err ErrBalanceOverflow end.

(** ** Reserve *)
Definition new_reservation (reservationID : uuid) (wallet : Wallet) (input : ReserveInput)
    (quote : Quote) (now : time) : Reservation :=
  {| r_ID := reservationID; r_WalletID := w_ID wallet; r_UserID := ri_UserID input;
     r_APIKeyID := uuidPointer (ri_APIKeyID input); r_RequestID := ri_RequestID input;
     r_RequestRecordID := cloneUUID (ri_RequestRecordID input);
     r_ModelID := cloneUUID (ri_ModelID input);
     r_ProviderModelID := cloneUUID (ri_ProviderModelID input);
     r_RouteVersionID := cloneUUID (ri_RouteVersionID input);
     r_ProviderID := cloneUUID (ri_ProviderID input);
     r_CredentialID := cloneUUID (ri_CredentialID input);
     r_PriceVersionID := q_PriceVersionID quote; r_EstimatedUsage := ri_EstimatedUsage input;
     r_ReservationKey := reservationKey (ri_RequestID input);
     r_AmountMinor := q_AmountMinor quote; r_Currency := q_Currency quote;
     r_Status := ReservationReserved; r_SettledAmountMinor := None; r_UsageEventID := None;
     r_Reason := ri_Reason input; r_ExpiresAt := cloneTime (ri_ExpiresAt input);
     r_CreatedAt := now; r_UpdatedAt := now |}.

Definition reserve_entry (wallet : Wallet) (input : ReserveInput) (quote : Quote)
    (availableAfter reservedAfter : Z) (now : time) : ledgerInsert :=
  {| in_WalletID := w_ID wallet; in_EntryType := EntryReservation;
     in_AmountMinor := q_AmountMinor quote;
     in_AvailableDelta := i64_neg (q_AmountMinor quote);
     in_ReservedDelta := q_AmountMinor quote;
     in_AvailableAfter := availableAfter; in_ReservedAfter := reservedAfter;
     in_Currency := q_Currency quote; in_ReferenceType := "request";
     in_ReferenceID := ri_RequestID input;
     in_IdempotencyKey := "reservation:v1:" +:+ ri_RequestID input;
     in_UsageEventID := None; in_OperatorUserID := None;
     in_Source := "billing"; in_CreatedAt := now |}.

Definition Reserve (input : ReserveInput) (quote : Quote) (now : time) : btx Reservation :=
  reservationID ← new_id;
  existing ← optional (loadReservationByRequestID (ri_RequestID input));
  match existing with
  | Some existing =>
      tx_when (negb (sameReservationInput existing input quote)) ErrReservationConflict;;
      mret existing
  | None =>
      validatePublishedPrice (q_PriceVersionID quote) (q_Currency quote) now;;
      wallet ← getOrCreateWallet (ri_UserID input) (q_Currency quote) now;
      tx_when (negb (String.eqb (w_Status wallet) "active") || w_FinancialHold wallet) ErrWalletFrozen;;
      tx_when (negb (String.eqb (w_Currency wallet) (q_Currency quote))) ErrCurrencyMismatch;;
      checkBudgets input (q_AmountMinor quote) now;;
      tx_when (w_Available wallet <? q_AmountMinor quote) ErrInsufficientFunds;;
      reservedAfter ← tx_lift (checked_add (w_Reserved wallet) (q_AmountMinor quote));
      let availableAfter := i64_sub (w_Available wallet) (q_AmountMinor quote) in
      mapped (update_wallet (w_ID wallet) now (set_balances availableAfter reservedAfter));;
      let reservation := new_reservation reservationID wallet input quote now in
      mapped (insert_reservation reservation);;
      entry ← insertLedger (reserve_entry wallet input quote availableAfter reservedAfter now);
      insertBillingOutbox "wallet_reservation" (r_ID reservation) "billing.reservation.created"
        (r_ReservationKey reservation)
        [("reservation_id", JUuid (r_ID reservation)); ("wallet_id", JUuid (r_WalletID reservation));
         ("request_id", JStr (r_RequestID reservation));
         ("amount_minor", JInt (r_AmountMinor reservation));
         ("currency", JStr (r_Currency reservation)); ("ledger_id", JUuid (le_ID entry));
         ("price_version_id", JUuid (r_PriceVersionID reservation))];;
      mret reservation
  end.

(** ** Settle

    The result says whether the settlement stayed pending: the transaction then
    commits and the caller gets [ErrSettlementPending]. *)
Definition event_matches (reservation : Reservation) (event : Event) : bool :=
  String.eqb (r_RequestID reservation) (ev_RequestID event)
  && String.eqb (r_Currency reservation) (ev_Currency event)
  && opt_uuid_eqb (ev_PriceVersionID event) (Some (r_PriceVersionID reservation))
  && opt_uuid_eqb (ev_WalletID event) (Some (r_WalletID reservation))
  && (match ev_UserID event with Some u => uuid_eqb u (r_UserID reservation) | None => true end)
  && (match r_APIKeyID reservation, ev_APIKeyID event with
      | Some a, Some b => uuid_eqb a b | _, _ => true end).

Definition settlement_replays (existing : Settlement) (reservation : Reservation)
    (event : Event) (actual : Z) : bool :=
  uuid_eqb (st_UsageEventID existing) (ev_ID event)
  && (st_ReservedAmount existing =? r_AmountMinor reservation)
  && (match st_ActualAmount existing with Some a => a =? actual | None => false end)
  && Bool.eqb (st_Estimated existing) (ev_Estimated event).

(** The branch [wallet.AvailableBalanceMinor < extra]. *)
Definition settle_pending (existing : Settlement) (reservation : Reservation) (wallet : Wallet)
    (event : Event) (actual : Z) (now : time) : btx (Settlement * bool) :=
  mapped (update_wallet (w_ID wallet) now
            (fun _ w => with_balances (w_Available w) (w_Reserved w) true w));;
  stored ← upsertSettlement existing reservation event actual SettlementPending "insufficient_funds" now;
  mapped (update_reservation (r_ID reservation)
            (set_reservation_status "settlement_pending" (Some actual) (Some (ev_ID event))
               "insufficient_funds" now));;
  insertBillingOutbox "billing_settlement" (st_ID stored) "billing.settlement.pending"
    (st_IdempotencyKey stored)
    [("settlement_id", JUuid (st_ID stored)); ("reservation_id", JUuid (r_ID reservation));
     ("usage_event_id", JUuid (ev_ID event)); ("amount_minor", JInt actual);
     ("currency", JStr (r_Currency reservation)); ("error_class", JStr "insufficient_funds")];;
  mret (stored, true).

Definition charge_entry (wallet : Wallet) (event : Event)
    (actual extra consumedReserved chargeAvailableAfter chargeReservedAfter : Z) (now : time) : ledgerInsert :=
  {| in_WalletID := w_ID wallet; in_EntryType := EntryUsageCharge;
     in_AmountMinor := i64_neg actual; in_AvailableDelta := i64_neg extra;
     in_ReservedDelta := i64_neg consumedReserved;
     in_AvailableAfter := chargeAvailableAfter; in_ReservedAfter := chargeReservedAfter;
     in_Currency := w_Currency wallet; in_ReferenceType := "usage_event";
     in_ReferenceID := uuid_string (ev_ID event);
     in_IdempotencyKey := "usage-charge:v1:" +:+ uuid_string (ev_ID event);
     in_UsageEventID := uuidPointer (ev_ID event); in_OperatorUserID := None;
     in_Source := "billing"; in_CreatedAt := now |}.

Definition settle_release_entry (wallet : Wallet) (reservation : Reservation)
    (event : Event) (released finalAvailable finalReserved : Z) (now : time) : ledgerInsert :=
  {| in_WalletID := w_ID wallet; in_EntryType := EntryRelease;
     in_AmountMinor := i64_neg released; in_AvailableDelta := released;
     in_ReservedDelta := i64_neg released;
     in_AvailableAfter := finalAvailable; in_ReservedAfter := finalReserved;
     in_Currency := w_Currency wallet; in_ReferenceType := "reservation";
     in_ReferenceID := uuid_string (r_ID reservation);
     in_IdempotencyKey := "settlement-release:v1:" +:+ uuid_string (ev_ID event);
     in_UsageEventID := None; in_OperatorUserID := None;
     in_Source := "billing"; in_CreatedAt := now |}.

(** The charge, with the unused part of the hold released. *)
Definition settle_charge (existing : Settlement) (reservation : Reservation) (wallet : Wallet)
    (event : Event) (actual extra : Z) (now : time) : btx (Settlement * bool) :=
  let consumedReserved := if r_AmountMinor reservation <? actual
                          then r_AmountMinor reservation else actual in
  let released := i64_sub (r_AmountMinor reservation) consumedReserved in
  let chargeAvailableAfter := i64_sub (w_Available wallet) extra in
  let chargeReservedAfter := i64_sub (w_Reserved wallet) consumedReserved in
  finalAvailable ← tx_lift
    (if 0 <? released
     then checked_add chargeAvailableAfter released
     else Ok chargeAvailableAfter);
  let finalReserved := if 0 <? released then i64_sub chargeReservedAfter released
                       else chargeReservedAfter in
  tx_when ((finalAvailable <? 0) || (finalReserved <? 0)) ErrSettlementConflict;;
  mapped (update_wallet (w_ID wallet) now (fun d w =>
    with_balances finalAvailable finalReserved
      (has_pending_settlement (w_ID wallet) (Some (r_ID reservation)) d
       || has_open_liability (w_ID wallet) d) w));;
  (if 0 <? actual then
     insertLedger (charge_entry wallet event actual extra consumedReserved
       chargeAvailableAfter chargeReservedAfter now);; mret tt
   else mret tt);;
  (if 0 <? released then
     insertLedger (settle_release_entry wallet reservation event released
       finalAvailable finalReserved now);; mret tt
   else mret tt);;
  tx_when ((actual =? 0) && (released =? 0)) ErrSettlementConflict;;
  stored ← upsertSettlement existing reservation event actual SettlementSettled "" now;
  mapped (update_reservation (r_ID reservation)
            (set_reservation_status "settled" (Some actual) (Some (ev_ID event)) "" now));;
  insertBillingOutbox "billing_settlement" (st_ID stored) "billing.settlement.settled"
    (st_IdempotencyKey stored)
    [("settlement_id", JUuid (st_ID stored)); ("reservation_id", JUuid (r_ID reservation));
     ("usage_event_id", JUuid (ev_ID event)); ("amount_minor", JInt actual);
     ("currency", JStr (w_Currency wallet)); ("estimated", JBool (ev_Estimated event))];;
  mret (stored, false).

Definition Settle_tx (input : SettleInput) (actual : Z) (now : time) : btx (Settlement * bool) :=
  found ← optional (loadReservationByID (si_ReservationID input));
  match found with
  | None => tx_fail ErrReservationNotFound
  | Some reservation =>
      let event := si_Event input in
      tx_when (negb (event_matches reservation event)) ErrSettlementConflict;;
      prior ← optional (loadSettlementByReservation (r_ID reservation));
      let existing := default zero_settlement prior in
      tx_when (bool_decide (is_Some prior)
               && negb (settlement_replays existing reservation event actual)) ErrSettlementConflict;;
      if bool_decide (is_Some prior) && String.eqb (st_Status existing) SettlementSettled
      then mret (existing, false) else
      tx_when (String.eqb (r_Status reservation) ReservationSettled) ErrSettlementConflict;;
      tx_when (String.eqb (r_Status reservation) ReservationReleased) ErrReservationConflict;;
      wallet ← mapped (loadWalletByID (r_WalletID reservation));
      tx_when (negb (String.eqb (w_Currency wallet) (r_Currency reservation))) ErrCurrencyMismatch;;
      tx_when (w_Reserved wallet <? r_AmountMinor reservation) ErrSettlementConflict;;
      let extra := if r_AmountMinor reservation <? actual
                   then i64_sub actual (r_AmountMinor reservation) else 0 in
      if w_Available wallet <? extra
      then settle_pending existing reservation wallet event actual now
      else settle_charge existing reservation wallet event actual extra now
  end.

(** ** Release *)
Definition release_entry (wallet : Wallet) (reservation : Reservation)
    (availableAfter reservedAfter : Z) (now : time) : ledgerInsert :=
  {| in_WalletID := w_ID wallet; in_EntryType := EntryRelease;
     in_AmountMinor := i64_neg (r_AmountMinor reservation);
     in_AvailableDelta := r_AmountMinor reservation;
     in_ReservedDelta := i64_neg (r_AmountMinor reservation);
     in_AvailableAfter := availableAfter; in_ReservedAfter := reservedAfter;
     in_Currency := w_Currency wallet; in_ReferenceType := "reservation";
     in_ReferenceID := uuid_string (r_ID reservation);
     in_IdempotencyKey := "release:v1:" +:+ uuid_string (r_ID reservation);
     in_UsageEventID := None; in_OperatorUserID := None;
     in_Source := "billing"; in_CreatedAt := now |}.

Definition Release_tx (input : ReleaseInput) (now : time) : btx unit :=
  found ← optional (loadReservationByID (rel_ReservationID input));
  match found with
  | None => tx_fail ErrReservationNotFound
  | Some reservation =>
      if String.eqb (r_Status reservation) ReservationReleased then mret tt else
      tx_when (negb (String.eqb (r_Status reservation) ReservationReserved)) ErrReservationConflict;;
      wallet ← mapped (loadWalletByID (r_WalletID reservation));
      tx_when (w_Reserved wallet <? r_AmountMinor reservation) ErrReservationConflict;;
      availableAfter ← tx_lift (checked_add (w_Available wallet) (r_AmountMinor reservation));
      let reservedAfter := i64_sub (w_Reserved wallet) (r_AmountMinor reservation) in
      mapped (update_wallet (w_ID wallet) now (set_balances availableAfter reservedAfter));;
      entry ← insertLedger (release_entry wallet reservation availableAfter reservedAfter now);
      mapped (update_reservation (r_ID reservation) (fun r =>
        set_reservation_status "released" (r_SettledAmountMinor r) (r_UsageEventID r)
          (rel_Reason input) now r));;
      insertBillingOutbox "wallet_reservation" (r_ID reservation) "billing.reservation.released"
        ("release:v1:" +:+ uuid_string (r_ID reservation))
        [("reservation_id", JUuid (r_ID reservation)); ("wallet_id", JUuid (w_ID wallet));
         ("request_id", JStr (r_RequestID reservation));
         ("amount_minor", JInt (r_AmountMinor reservation));
         ("currency", JStr (w_Currency wallet)); ("ledger_id", JUuid (le_ID entry));
         ("reason", JStr (rel_Reason input))]
  end.

(** ** Liability recovery *)
Definition liability_le (a b : Liability) : Prop :=
  l_CreatedAt a < l_CreatedAt b \/ (l_CreatedAt a = l_CreatedAt b /\ (l_ID a <= l_ID b)%N).
#[export] Instance liability_le_dec : RelDecision liability_le.
Proof. intros a b. unfold liability_le. apply _. Defined.

(** [WHERE wallet_id = $1 AND status = 'open' ORDER BY created_at, id]. *)
Definition open_liabilities (walletID : uuid) (d : DB) : list Liability :=
  merge_sort liability_le
    (filter (fun l => uuid_eqb (l_WalletID l) walletID && String.eqb (l_Status l) "open" = true)
            ((map_to_list (liabilities d)).*2)).

(** A ledger row of a recovery or of its reversal. *)
Definition liability_entry (wallet : Wallet) (amount availableAfter : Z) (liabilityID : uuid)
    (key : string) (now : time) : ledgerInsert :=
  {| in_WalletID := w_ID wallet; in_EntryType := EntryPaymentLiability;
     in_AmountMinor := amount; in_AvailableDelta := amount; in_ReservedDelta := 0;
     in_AvailableAfter := availableAfter; in_ReservedAfter := w_Reserved wallet;
     in_Currency := w_Currency wallet; in_ReferenceType := "wallet_liability";
     in_ReferenceID := uuid_string liabilityID; in_IdempotencyKey := key;
     in_UsageEventID := None; in_OperatorUserID := None;
     in_Source := "payment"; in_CreatedAt := now |}.

Fixpoint recover_each (wallet : Wallet) (sourceLedgerID : uuid) (now : time)
    (ls : list Liability) (available : Z) : btx Z :=
  match ls with
  | [] => mret available
  | liability :: rest =>
      if available =? 0 then mret available else
      let outstanding := i64_sub (l_Principal liability) (l_Recovered liability) in
      let recovered := if available <? outstanding then available else outstanding in
      let available := i64_sub available recovered in
      let recoveredTotal := i64_add (l_Recovered liability) recovered in
      let status := if recoveredTotal =? l_Principal liability then "settled" else "open" in
      mapped (update_liability (l_ID liability) (fun _ => recoveredTotal) status now);;
      insertLedger (liability_entry wallet (i64_neg recovered) available (l_ID liability)
        ("liability-recovery:v1:" +:+ uuid_string (l_ID liability) +:+ ":"
         +:+ uuid_string sourceLedgerID) now);;
      recover_each wallet sourceLedgerID now rest available
  end.

(** [financial_hold = EXISTS (open liability) OR EXISTS (pending settlement)]. *)
Definition set_available_and_hold (available : Z) : DB -> Wallet -> Wallet :=
  fun d w => with_balances available (w_Reserved w)
               (has_open_liability (w_ID w) d || has_pending_settlement (w_ID w) None d) w.

Definition recoverWalletLiabilities (wallet : Wallet) (available : Z) (sourceLedgerID : uuid)
    (now : time) : btx unit :=
  ls ← read (open_liabilities (w_ID wallet));
  match ls with
  | [] => mret tt
  | _ =>
      available ← recover_each wallet sourceLedgerID now ls available;
      mapped (update_wallet (w_ID wallet) now (set_available_and_hold available))
  end.

(** ** Credit *)
Definition credit_replays (existing : LedgerEntry) (input : CreditInput) : bool :=
  String.eqb (le_EntryType existing) (cr_EntryType input)
  && (le_AmountMinor existing =? cr_AmountMinor input)
  && String.eqb (le_ReferenceType existing) (cr_ReferenceType input)
  && String.eqb (le_ReferenceID existing) (cr_ReferenceID input)
  && String.eqb (le_Source existing) (cr_Source input)
  && equalUUID (le_OperatorUserID existing) (cr_OperatorUserID input).

Definition credit_entry (wallet : Wallet) (input : CreditInput) (availableAfter : Z)
    (now : time) : ledgerInsert :=
  {| in_WalletID := w_ID wallet; in_EntryType := cr_EntryType input;
     in_AmountMinor := cr_AmountMinor input; in_AvailableDelta := cr_AmountMinor input;
     in_ReservedDelta := 0; in_AvailableAfter := availableAfter;
     in_ReservedAfter := w_Reserved wallet; in_Currency := w_Currency wallet;
     in_ReferenceType := cr_ReferenceType input; in_ReferenceID := cr_ReferenceID input;
     in_IdempotencyKey := cr_IdempotencyKey input; in_UsageEventID := None;
     in_OperatorUserID := cloneUUID (cr_OperatorUserID input);
     in_Source := cr_Source input; in_CreatedAt := now |}.

Definition CreditInTx (input : CreditInput) (now : time) : btx LedgerEntry :=
  wallet ← getOrCreateWallet (cr_UserID input) (cr_Currency input) now;
  existing ← optional (loadLedgerByIdempotency (w_ID wallet) (cr_IdempotencyKey input));
  match existing with
  | Some existing =>
      tx_when (negb (credit_replays existing input)) ErrSettlementConflict;;
      mret existing
  | None =>
      tx_when (String.eqb (w_Status wallet) "closed"
               || (String.eqb (w_Status wallet) "frozen" && (cr_AmountMinor input <? 0))) ErrWalletFrozen;;
      availableAfter ← tx_lift (checked_add (w_Available wallet) (cr_AmountMinor input));
      tx_when (availableAfter <? 0) ErrInsufficientFunds;;
      mapped (update_wallet (w_ID wallet) now (fun _ w =>
        with_balances availableAfter (w_Reserved w) (w_FinancialHold w) w));;
      entry ← insertLedger (credit_entry wallet input availableAfter now);
      match cr_OperatorUserID input with
      | Some operator =>
          audit_Insert
            {| ae_ActorUserID := Some operator; ae_Action := "wallet." +:+ cr_EntryType input;
               ae_TargetType := "wallet"; ae_TargetID := uuid_string (w_ID wallet);
               ae_RequestID := if String.eqb (cr_RequestID input) "" then cr_ReferenceID input
                               else cr_RequestID input;
               ae_Result := "success" |}
      | None => mret tt
      end;;
      insertBillingOutbox "wallet_ledger" (le_ID entry) "billing.wallet.credited"
        (cr_IdempotencyKey input)
        [("ledger_id", JUuid (le_ID entry)); ("wallet_id", JUuid (w_ID wallet));
         ("entry_type", JStr (le_EntryType entry)); ("amount_minor", JInt (le_AmountMinor entry));
         ("currency", JStr (le_Currency entry)); ("reference_type", JStr (le_ReferenceType entry));
         ("reference_id", JStr (le_ReferenceID entry))];;
      recoverWalletLiabilities wallet availableAfter (le_ID entry) now;;
      mret entry
  end.

(** ** Liabilities *)

(** [financial_hold = financial_hold OR $3]. *)
Definition set_available_or_hold (available : Z) (hold : bool) : DB -> Wallet -> Wallet :=
  fun _ w => with_balances available (w_Reserved w) (w_FinancialHold w || hold) w.

(** The [RecoveryLedgerID] of the returned struct; the column is not in the table. *)
Definition with_recovery (entryID : uuid) (l : Liability) : Liability :=
  {| l_ID := l_ID l; l_WalletID := l_WalletID l; l_LiabilityType := l_LiabilityType l;
     l_ReferenceType := l_ReferenceType l; l_ReferenceID := l_ReferenceID l;
     l_Principal := l_Principal l; l_Recovered := l_Recovered l; l_Currency := l_Currency l;
     l_Status := l_Status l; l_RecoveryLedgerID := uuidPointer entryID;
     l_CreatedAt := l_CreatedAt l; l_UpdatedAt := l_UpdatedAt l |}.

Definition OpenLiabilityInTx (input : LiabilityInput) (now : time) : btx Liability :=
  existing ← optional (loadLiabilityByReference (li_ReferenceType input) (li_ReferenceID input));
  match existing with
  | Some existing =>
      existingWallet ← mapped (loadWalletByID (l_WalletID existing));
      tx_when (negb (uuid_eqb (w_UserID existingWallet) (li_UserID input))
               || negb (String.eqb (w_Currency existingWallet) (li_Currency input))
               || negb (sameLiabilityInput existing input)) ErrSettlementConflict;;
      mret existing
  | None =>
      wallet ← getOrCreateWallet (li_UserID input) (li_Currency input) now;
      let recovered := if w_Available wallet <? li_AmountMinor input
                       then w_Available wallet else li_AmountMinor input in
      let availableAfter := i64_sub (w_Available wallet) recovered in
      let status := if recovered <? li_AmountMinor input then "open" else "settled" in
      liabilityID ← new_id;
      value ← mapped (insert_liability
        {| l_ID := liabilityID; l_WalletID := w_ID wallet;
           l_LiabilityType := li_LiabilityType input; l_ReferenceType := li_ReferenceType input;
           l_ReferenceID := li_ReferenceID input; l_Principal := li_AmountMinor input;
           l_Recovered := recovered; l_Currency := li_Currency input; l_Status := status;
           l_RecoveryLedgerID := None; l_CreatedAt := now; l_UpdatedAt := now |});
      mapped (update_wallet (w_ID wallet) now
                (set_available_or_hold availableAfter (String.eqb status "open")));;
      value ← (if 0 <? recovered then
                 entry ← insertLedger (liability_entry wallet (i64_neg recovered) availableAfter
                   liabilityID ("liability-open:v1:" +:+ uuid_string liabilityID) now);
                 mret (with_recovery (le_ID entry) value)
               else mret value);
      insertBillingOutbox "wallet_liability" (l_ID value) "billing.liability.opened"
        ("liability-open:v1:" +:+ uuid_string (l_ID value))
        [("liability_id", JUuid (l_ID value)); ("wallet_id", JUuid (l_WalletID value));
         ("principal_amount_minor", JInt (l_Principal value));
         ("recovered_amount_minor", JInt (l_Recovered value));
         ("currency", JStr (l_Currency value)); ("status", JStr (l_Status value))];;
      mret value
  end.

Definition ReverseLiabilityInTx (liabilityID : uuid) (now : time) : btx Liability :=
  found ← optional (loadLiabilityByID liabilityID);
  match found with
  | None => tx_fail ErrSettlementConflict
  | Some liability =>
      if String.eqb (l_Status liability) "reversed" then mret liability else
      wallet ← mapped (loadWalletByID (l_WalletID liability));
      availableAfter ← tx_lift (checked_add (w_Available wallet) (l_Recovered liability));
      value ← mapped (update_liability (l_ID liability) l_Recovered "reversed" now);
      '(value, sourceLedgerID) ← (if 0 <? l_Recovered liability then
          entry ← insertLedger (liability_entry wallet (l_Recovered liability) availableAfter
            (l_ID liability) ("liability-reversal:v1:" +:+ uuid_string (l_ID liability)) now);
          mret (with_recovery (le_ID entry) value, le_ID entry)
        else mret (value, l_ID liability));
      mapped (update_wallet (w_ID wallet) now (set_available_and_hold availableAfter));;
      let wallet := with_balances availableAfter (w_Reserved wallet) (w_FinancialHold wallet) wallet in
      (if 0 <? l_Recovered liability
       then recoverWalletLiabilities wallet availableAfter sourceLedgerID now
       else mret tt);;
      insertBillingOutbox "wallet_liability" (l_ID value) "billing.liability.reversed"
        ("liability-reversal:v1:" +:+ uuid_string (l_ID value))
        [("liability_id", JUuid (l_ID value)); ("wallet_id", JUuid (l_WalletID value));
         ("recovered_amount_minor", JInt (l_Recovered value));
         ("currency", JStr (l_Currency value))];;
      mret value
  end.

End operations.
End BillingOps.
