(* ===== verification/BillingService.v ===== *)
(** * The service surface of [internal/billing]

    The payment-refund operations of [payment.go], the settlement recovery of
    [recovery.go], and the exported methods of [service.go] and [liability.go]
    that validate their input before they call the repository.  The clock
    [s.now()] is an argument, once per call of the source. *)

From stdpp Require Import base gmap strings list sorting.
From Stdlib Require Import ZArith Lia Ascii String.
From S2P Require Import Prelude GoLib Usage Pricing BillingModel Money Store BillingOps.

Module BillingService.
Import Usage Billing Money Store BillingOps.

Section operations.
Context `{UuidText, SqlGuards, WallClock}.

(** ** Payment refunds ([payment.go]) *)
Definition requirePaymentRefundHold (walletID : uuid) (input : PaymentRefundInput) : btx unit :=
  hold ← optional (loadLedgerByIdempotency walletID
                     (paymentRefundLedgerKey "hold" (pr_PaymentOrderID input)));
  match hold with
  | None => tx_fail ErrReservationNotFound
  | Some hold =>
      tx_when (negb (samePaymentRefundEntry hold EntryPaymentRefundHold input (pr_AmountMinor input)))
        ErrReservationConflict
  end.

Definition auditPaymentRefundLedger (input : PaymentRefundInput) (walletID : uuid)
    (action : string) : btx unit :=
  audit_Insert
    {| ae_ActorUserID := Some (pr_OperatorUserID input); ae_Action := "wallet." +:+ action;
       ae_TargetType := "wallet"; ae_TargetID := uuid_string walletID;
       ae_RequestID := uuid_string (pr_PaymentOrderID input); ae_Result := "success" |}.

(** The ledger row of one refund operation. *)
Definition refund_entry (wallet : Wallet) (input : PaymentRefundInput) (entryType : string)
    (amount da dr availableAfter reservedAfter : Z) (key : string) (now : time) : ledgerInsert :=
  {| in_WalletID := w_ID wallet; in_EntryType := entryType; in_AmountMinor := amount;
     in_AvailableDelta := da; in_ReservedDelta := dr;
     in_AvailableAfter := availableAfter; in_ReservedAfter := reservedAfter;
     in_Currency := w_Currency wallet; in_ReferenceType := "payment_order";
     in_ReferenceID := uuid_string (pr_PaymentOrderID input); in_IdempotencyKey := key;
     in_UsageEventID := None; in_OperatorUserID := uuidPointer (pr_OperatorUserID input);
     in_Source := pr_Source input; in_CreatedAt := now |}.

(** The audit row and the outbox event that end every refund operation. *)
Definition refund_trail (input : PaymentRefundInput) (wallet : Wallet) (entry : LedgerEntry)
    (entryType eventType key : string) : btx LedgerEntry :=
  auditPaymentRefundLedger input (w_ID wallet) entryType;;
  insertBillingOutbox "payment_order" (pr_PaymentOrderID input) eventType key
    [("payment_order_id", JUuid (pr_PaymentOrderID input)); ("wallet_id", JUuid (w_ID wallet));
     ("ledger_id", JUuid (le_ID entry)); ("amount_minor", JInt (pr_AmountMinor input));
     ("currency", JStr (pr_Currency input))];;
  mret entry.

Definition HoldPaymentRefundInTx (input : PaymentRefundInput) (now : time) : btx LedgerEntry :=
  match normalizePaymentRefundInput input with Err _ => tx_fail ErrInvalidInput | Ok normalized =>
  let amount := pr_AmountMinor normalized in
  wallet ← getOrCreateWallet (pr_UserID normalized) (pr_Currency normalized) now;
  let key := paymentRefundLedgerKey "hold" (pr_PaymentOrderID normalized) in
  existing ← optional (loadLedgerByIdempotency (w_ID wallet) key);
  match existing with
  | Some existing =>
      tx_when (negb (samePaymentRefundEntry existing EntryPaymentRefundHold normalized amount))
        ErrSettlementConflict;;
      mret existing
  | None =>
      tx_when (negb (String.eqb (w_Status wallet) "active")) ErrWalletFrozen;;
      tx_when (w_Available wallet <? amount) ErrInsufficientFunds;;
      reservedAfter ← tx_lift (checked_add (w_Reserved wallet) amount);
      let availableAfter := i64_sub (w_Available wallet) amount in
      mapped (update_wallet (w_ID wallet) now (set_balances availableAfter reservedAfter));;
      entry ← insertLedger (refund_entry wallet normalized EntryPaymentRefundHold amount
                (i64_neg amount) amount availableAfter reservedAfter key now);
      refund_trail normalized wallet entry EntryPaymentRefundHold "billing.payment_refund.held" key
  end
  end.

(** [SET reserved_balance_minor = $2]. *)
Definition set_reserved (reserved : Z) : DB -> Wallet -> Wallet :=
  fun _ w => with_balances (w_Available w) reserved (w_FinancialHold w) w.

Definition CompletePaymentRefundInTx (input : PaymentRefundInput) (now : time) : btx LedgerEntry :=
  match normalizePaymentRefundInput input with Err _ => tx_fail ErrInvalidInput | Ok normalized =>
  let amount := pr_AmountMinor normalized in
  wallet ← getOrCreateWallet (pr_UserID normalized) (pr_Currency normalized) now;
  let key := paymentRefundLedgerKey "complete" (pr_PaymentOrderID normalized) in
  existing ← optional (loadLedgerByIdempotency (w_ID wallet) key);
  match existing with
  | Some existing =>
      tx_when (negb (samePaymentRefundEntry existing EntryPaymentReversal normalized (i64_neg amount)))
        ErrSettlementConflict;;
      mret existing
  | None =>
      requirePaymentRefundHold (w_ID wallet) normalized;;
      tx_when (w_Reserved wallet <? amount) ErrReservationConflict;;
      let reservedAfter := i64_sub (w_Reserved wallet) amount in
      mapped (update_wallet (w_ID wallet) now (set_reserved reservedAfter));;
      entry ← insertLedger (refund_entry wallet normalized EntryPaymentReversal (i64_neg amount)
                0 (i64_neg amount) (w_Available wallet) reservedAfter key now);
      refund_trail normalized wallet entry EntryPaymentReversal
        "billing.payment_refund.completed" key
  end
  end.

Definition ReleasePaymentRefundInTx (input : PaymentRefundInput) (now : time) : btx LedgerEntry :=
  match normalizePaymentRefundInput input with Err _ => tx_fail ErrInvalidInput | Ok normalized =>
  let amount := pr_AmountMinor normalized in
  wallet ← getOrCreateWallet (pr_UserID normalized) (pr_Currency normalized) now;
  let key := paymentRefundLedgerKey "release" (pr_PaymentOrderID normalized) in
  existing ← optional (loadLedgerByIdempotency (w_ID wallet) key);
  match existing with
  | Some existing =>
      tx_when (negb (samePaymentRefundEntry existing EntryPaymentRefundRelease normalized
                       (i64_neg amount))) ErrSettlementConflict;;
      mret existing
  | None =>
      requirePaymentRefundHold (w_ID wallet) normalized;;
      tx_when (w_Reserved wallet <? amount) ErrReservationConflict;;
      availableAfter ← tx_lift (checked_add (w_Available wallet) amount);
      let reservedAfter := i64_sub (w_Reserved wallet) amount in
      mapped (update_wallet (w_ID wallet) now (set_balances availableAfter reservedAfter));;
      entry ← insertLedger (refund_entry wallet normalized EntryPaymentRefundRelease
                (i64_neg amount) amount (i64_neg amount) availableAfter reservedAfter key now);
      refund_trail normalized wallet entry EntryPaymentRefundRelease
        "billing.payment_refund.released" key
  end
  end.

(** ** The exported methods that check their input ([service.go]) *)

(** The reservation returned for a quote of zero, which never reaches a wallet. *)
Definition unheld_reservation (normalized : ReserveInput) (quote : Quote) (now : time)
    : Reservation :=
  {| r_ID := uuid_nil; r_WalletID := uuid_nil; r_UserID := ri_UserID normalized;
     r_APIKeyID := uuidPointer (ri_APIKeyID normalized); r_RequestID := ri_RequestID normalized;
     r_RequestRecordID := cloneUUID (ri_RequestRecordID normalized);
     r_ModelID := cloneUUID (ri_ModelID normalized);
     r_ProviderModelID := cloneUUID (ri_ProviderModelID normalized);
     r_RouteVersionID := cloneUUID (ri_RouteVersionID normalized);
     r_ProviderID := cloneUUID (ri_ProviderID normalized);
     r_CredentialID := cloneUUID (ri_CredentialID normalized);
     r_PriceVersionID := q_PriceVersionID quote; r_EstimatedUsage := ri_EstimatedUsage normalized;
     r_ReservationKey := reservationKey (ri_RequestID normalized); r_AmountMinor := 0;
     r_Currency := q_Currency quote; r_Status := ReservationNone; r_SettledAmountMinor := None;
     r_UsageEventID := None; r_Reason := ""; r_ExpiresAt := None;
     r_CreatedAt := now; r_UpdatedAt := now |}.

Definition Service_Reserve (defaultOutput : Z) (input : ReserveInput) (checked now : time)
    : btx Reservation :=
  normalized ← tx_lift (normalizeReserveInput input defaultOutput checked);
  quote ← tx_lift (Quote_ (ri_Price normalized) (ri_EstimatedUsage normalized));
  if q_AmountMinor quote =? 0 then mret (unheld_reservation normalized quote now)
  else Reserve normalized quote now.

Definition settle_input_ok (input : SettleInput) : bool :=
  let event := si_Event input in
  negb (uuid_eqb (si_ReservationID input) uuid_nil || uuid_eqb (ev_ID event) uuid_nil
        || String.eqb (ev_RequestID event) ""
        || match ev_AmountMinor event with Some a => a <? 0 | None => true end)
  && negb (match ev_PriceVersionID event with Some p => uuid_eqb p uuid_nil | None => true end)
  && negb (negb (String.eqb (ev_Currency event) (ToUpper (TrimSpace (ev_Currency event))))
           || negb (slen (ev_Currency event) =? 3)).

(** The flag tells a settlement that stayed pending, which [Settle] returns
    after the commit together with [ErrSettlementPending]. *)
Definition Service_Settle (input : SettleInput) (now : time) : btx (Settlement * bool) :=
  tx_when (negb (settle_input_ok input)) ErrInvalidInput;;
  match ev_AmountMinor (si_Event input) with
  | Some actual => Settle_tx input actual now
  | None => tx_fail ErrInvalidInput
  end.

Definition Service_Release (input : ReleaseInput) (now : time) : btx unit :=
  if uuid_eqb (rel_ReservationID input) uuid_nil then mret tt else
  Release_tx {| rel_ReservationID := rel_ReservationID input;
                rel_Reason := text_or (rel_Reason input) 128 "request_not_charged" |} now.

Definition Service_Credit (input : CreditInput) (now : time) : btx LedgerEntry :=
  normalized ← tx_lift (normalizeCreditInput input);
  CreditInTx normalized now.

Definition Service_OpenLiability (input : LiabilityInput) (now : time) : btx Liability :=
  normalized ← tx_lift (normalizeLiabilityInput input);
  OpenLiabilityInTx normalized now.

Definition Service_ReverseLiability (liabilityID : uuid) (now : time) : btx Liability :=
  tx_when (uuid_eqb liabilityID uuid_nil) ErrInvalidInput;;
  ReverseLiabilityInTx liabilityID now.

Definition Service_GetWallet (userID : uuid) (currency : string) (d : DB) : result error Wallet :=
  if uuid_eqb userID uuid_nil then Err ErrInvalidInput else
  let currency := normalizeCurrency currency in
  if String.eqb currency "" then Err ErrInvalidInput else GetWallet userID currency d.

Definition Service_RebuildBalance (walletID : uuid) (d : DB) : result error (Z * Z) :=
  if uuid_eqb walletID uuid_nil then Err ErrInvalidInput else RebuildBalance walletID d.

(** ** Settlement recovery ([recovery.go]) *)
Record dueSettlement := {
  due_SettlementID : uuid;
  due_ReservationID : uuid;
  due_UsageEventID : uuid
}.

Definition settlement_due (now : time) (st : Settlement) : bool :=
  String.eqb (st_Status st) SettlementPending && (st_NextAttemptAt st <=? now)
  && match st_LeaseExpiresAt st with None => true | Some t => t <=? now end.

(** [ORDER BY next_attempt_at, id]. *)
Definition due_le (a b : Settlement) : Prop :=
  st_NextAttemptAt a < st_NextAttemptAt b
  \/ (st_NextAttemptAt a = st_NextAttemptAt b /\ (st_ID a <= st_ID b)%N).
#[export] Instance due_le_dec : RelDecision due_le.
Proof. intros a b. unfold due_le. apply _. Defined.

(** The rows the [candidates] query locks; [locked] are the rows another
    transaction holds ([FOR UPDATE SKIP LOCKED]). *)
Definition claim_candidates (limit : nat) (now : time) (locked : uuid -> bool) (d : DB)
    : list Settlement :=
  take limit (merge_sort due_le
    (filter (fun st => settlement_due now st && negb (locked (st_ID st)) = true)
            ((map_to_list (settlements d)).*2))).

Definition claim_row (ownerToken : uuid) (now : time) (st : Settlement) : Settlement :=
  {| st_ID := st_ID st; st_ReservationID := st_ReservationID st;
     st_UsageEventID := st_UsageEventID st; st_IdempotencyKey := st_IdempotencyKey st;
     st_ReservedAmount := st_ReservedAmount st; st_ActualAmount := st_ActualAmount st;
     st_Status := st_Status st; st_Estimated := st_Estimated st;
     st_ErrorClass := st_ErrorClass st; st_NextAttemptAt := st_NextAttemptAt st;
     st_Attempts := st_Attempts st + 1; st_OwnerToken := Some ownerToken;
     st_LeaseExpiresAt := Some (now + settlementRecoveryLease);
     st_CreatedAt := st_CreatedAt st; st_UpdatedAt := now |}.

Definition ClaimPendingSettlements (limit : Z) (now : time) (locked : uuid -> bool)
    : btx (list dueSettlement) :=
  tx_when ((limit <? 1) || (1000 <? limit) || IsZero now) ErrInvalidInput;;
  ownerToken ← new_id;
  rows ← read (claim_candidates (Z.to_nat limit) now locked);
  write (set_settlements (fun m =>
    foldr (fun st m => <[st_ID st := claim_row ownerToken now st]> m) m rows));;
  mret (map (fun st => {| due_SettlementID := st_ID st; due_ReservationID := st_ReservationID st;
                          due_UsageEventID := st_UsageEventID st |}) rows).

(** The columns the query selects; the other fields keep Go's zero value. *)
Definition settlement_event (u : Event) (amount : Z) : Event :=
  {| ev_ID := ev_ID u; ev_SettlementKey := ""; ev_RequestRecordID := None;
     ev_RequestID := ev_RequestID u; ev_StartedAt := 0; ev_FinishedAt := 0;
     ev_RequestedModel := ""; ev_UserID := ev_UserID u; ev_APIKeyID := ev_APIKeyID u;
     ev_ResolvedModelID := None; ev_ProviderID := None; ev_ProviderModelID := None;
     ev_RouteVersionID := None; ev_CredentialID := None; ev_PriceVersionID := ev_PriceVersionID u;
     ev_WalletID := ev_WalletID u; ev_Usage := zero_usage; ev_AmountMinor := Some amount;
     ev_Currency := ev_Currency u; ev_Estimated := ev_Estimated u; ev_Provenance := "";
     ev_TerminalStatus := ""; ev_UpstreamStatus := None; ev_ErrorClass := ""; ev_Latency := 0;
     ev_LatencyMS := None; ev_TTFT := 0; ev_TTFTMS := None; ev_CreatedAt := 0 |}.

Definition LoadSettlementUsageEvent (settlementID : uuid) (d : DB) : result error Event :=
  if uuid_eqb settlementID uuid_nil then Err ErrInvalidInput else
  match settlements d !! settlementID with
  | None => Err (mapRepositoryError NoRows)
  | Some st =>
      match usage_events d !! st_UsageEventID st with
      | None => Err (mapRepositoryError NoRows)
      | Some u =>
          match ev_AmountMinor u with
          | Some amount => if amount <? 0 then Err ErrSettlementConflict
                           else Ok (settlement_event u amount)
          | None => Err ErrSettlementConflict
          end
      end
  end.

Definition DeferPendingSettlement (settlementID : uuid) (now : time) (errorClass : string)
    : btx unit :=
  tx_when (uuid_eqb settlementID uuid_nil || IsZero now) ErrInvalidInput;;
  let errorClass := text_or errorClass 128 "recovery_failed" in
  o ← read (fun d => settlements d !! settlementID);
  match o with
  | Some st =>
      if String.eqb (st_Status st) SettlementPending then
        let st' := {| st_ID := st_ID st; st_ReservationID := st_ReservationID st;
          st_UsageEventID := st_UsageEventID st; st_IdempotencyKey := st_IdempotencyKey st;
          st_ReservedAmount := st_ReservedAmount st; st_ActualAmount := st_ActualAmount st;
          st_Status := st_Status st; st_Estimated := st_Estimated st;
          st_ErrorClass := errorClass; st_NextAttemptAt := now + settlementRetryDelay;
          st_Attempts := st_Attempts st; st_OwnerToken := None; st_LeaseExpiresAt := None;
          st_CreatedAt := st_CreatedAt st; st_UpdatedAt := now |} in
        mapped (check (settlement_check st');; guard (guard_settlement st');;
                write (set_settlements (<[settlementID := st']>)))
      else mret tt
  | None => mret tt
  end.

(** What one transaction of the worker gets: its identifiers and its clocks. *)
Record attempt := { at_ids : list uuid; at_settle : time; at_defer : time }.

Inductive outcome := Recovered | StillPending | Failed (e : error).

Definition recover_one (due : dueSettlement) (a : attempt) (d : DB) : DB * outcome :=
  match LoadSettlementUsageEvent (due_SettlementID due) d with
  | Err e =>
      ((run_billing (at_ids a) (DeferPendingSettlement (due_SettlementID due) (at_defer a)
          "usage_event_unavailable") d).1, Failed e)
  | Ok event =>
      let input := {| si_ReservationID := due_ReservationID due; si_Event := event |} in
      match run_billing (at_ids a) (Service_Settle input (at_settle a)) d with
      | (d', Ok (_, false)) => (d', Recovered)
      | (d', Ok (_, true)) => (d', StillPending)
      | (d', Err e) =>
          ((run_billing (at_ids a) (DeferPendingSettlement (due_SettlementID due) (at_defer a)
              "settlement_recovery_failed") d').1, Failed e)
      end
  end.

Fixpoint recover_all (due : list dueSettlement) (attempts : nat -> attempt) (i : nat) (d : DB)
    : DB * list outcome :=
  match due with
  | [] => (d, [])
  | candidate :: rest =>
      let '(d', o) := recover_one candidate (attempts i) d in
      let '(d'', os) := recover_all rest attempts (S i) d' in (d'', o :: os)
  end.

Definition recovered_count (os : list outcome) : Z :=
  lsum (fun o => match o with Recovered => 1 | _ => 0 end) os.

(** The number of recovered settlements and the outcome of every candidate. *)
Definition RecoverPendingSettlements (limit : Z) (ids : list uuid) (now : time)
    (locked : uuid -> bool) (attempts : nat -> attempt) (d : DB)
    : DB * result error (Z * list outcome) :=
  match run_billing ids (ClaimPendingSettlements limit now locked) d with
  | (d', Err e) => (d', Err e)
  | (d', Ok due) =>
      let '(d'', os) := recover_all due attempts 0 d' in (d'', Ok (recovered_count os, os))
  end.

End operations.
End BillingService.
