(* ===== verification/StoreFacts.v ===== *)
(** * What a successful statement did

    One inversion lemma per statement of [Store]: the rows before, the rows
    after, and what the constraints guarantee. [stmt_inv] applies them along a
    transaction. *)

From stdpp Require Import base gmap strings list.
From Stdlib Require Import ZArith Lia Ascii String.
From S2P Require Import Prelude GoLib Usage Pricing BillingModel Store.

Module StoreFacts.
Import Usage Billing Store.

Section facts.
Context `{UuidText, SqlGuards, WallClock}.

Lemma mapped_ok {A} (m : stmt A) s s' a : mapped m s = Ok (s', a) -> m s = Ok (s', a).
Proof. unfold mapped, map_err. destruct (m s) as [[]|]; naive_solver. Qed.

Lemma raw_ok {A} (m : stmt A) s s' a : raw m s = Ok (s', a) -> m s = Ok (s', a).
Proof. unfold raw, map_err. destruct (m s) as [[]|]; naive_solver. Qed.

Lemma read_ok {E A} (f : DB -> A) ids d s' (a : A) :
  @read E A f (ids, d) = Ok (s', a) -> s' = (ids, d) /\ a = f d.
Proof. unfold read. naive_solver. Qed.

Lemma write_ok {E} f ids d s' u :
  @write E f (ids, d) = Ok (s', u) -> s' = (ids, f d).
Proof. unfold write. naive_solver. Qed.

Lemma new_id_ok ids d s' i :
  new_id (ids, d) = Ok (s', i) -> exists rest, ids = i :: rest /\ s' = (rest, d).
Proof. unfold new_id. simpl. case_match; naive_solver. Qed.

Lemma guard_ok g s s' u : guard g s = Ok (s', u) -> s' = s.
Proof. unfold guard. destruct g; [done|]. intros [= -> _]. done. Qed.

Lemma check_ok b s s' u : check b s = Ok (s', u) -> b = true /\ s' = s.
Proof. unfold check. intros [Hb ->]%tx_when_ok. by apply negb_false_iff in Hb. Qed.

Lemma unless_unique_ok b s s' u : unless_unique b s = Ok (s', u) -> b = false /\ s' = s.
Proof. apply tx_when_ok. Qed.

Lemma row_ok {A} (f : DB -> option A) ids d s' a :
  (o ← read f; row o) (ids, d) = Ok (s', a) -> s' = (ids, d) /\ f d = Some a.
Proof.
  intros (s1 & o & [-> ->]%read_ok & Hr)%tx_bind_ok.
  apply tx_lift_ok in Hr as [Hr ->]. destruct (f d); naive_solver.
Qed.

Lemma row_Some {A} (o : option A) s s' a : row o s = Ok (s', a) -> s' = s /\ o = Some a.
Proof. intros [Hr ->]%tx_lift_ok. by destruct o; [injection Hr as ->|]. Qed.

Lemma optional_row {A} (f : DB -> option A) ids d s' o :
  optional (o ← read f; row o) (ids, d) = Ok (s', o) -> s' = (ids, d) /\ f d = o.
Proof.
  unfold optional, mbind, tx_mbind, read, row, tx_lift. simpl. destruct (f d); naive_solver.
Qed.
End facts.

(** Inverts a transaction statement by statement. *)
Ltac stmt_step :=
  match goal with
  | H : mapped _ _ = Ok (_, _) |- _ => apply mapped_ok in H
  | H : raw _ _ = Ok (_, _) |- _ => apply raw_ok in H
  | H : read _ (_, _) = Ok (_, _) |- _ => apply read_ok in H as [? ?]; subst
  | H : write _ (_, _) = Ok (_, _) |- _ => apply write_ok in H; subst
  | H : new_id (_, _) = Ok (_, _) |- _ =>
      let rest := fresh "ids" in apply new_id_ok in H as (rest & ? & ?); subst
  | H : guard _ _ = Ok (_, _) |- _ => apply guard_ok in H; subst
  | H : check _ _ = Ok (_, _) |- _ => apply check_ok in H as [? ?]; subst
  | H : unless_unique _ _ = Ok (_, _) |- _ => apply unless_unique_ok in H as [? ?]; subst
  | _ => tx_step
  end.
Ltac stmt_inv := repeat (stmt_step; cbn beta iota in * ).

Section statements.
Context `{UuidText, SqlGuards, WallClock}.

Lemma update_wallet_ok walletID now f ids d s' u w :
  wallets d !! walletID = Some w ->
  update_wallet walletID now f (ids, d) = Ok (s', u) ->
  s' = (ids, set_wallets (<[walletID := bump_wallet now w (f d w)]>) d)
  /\ 0 <= w_Available (f d w) /\ 0 <= w_Reserved (f d w).
Proof.
  intros Hw Hu. unfold update_wallet in Hu. stmt_inv. rewrite Hw in *. simpl in *.
  stmt_inv. unfold wallet_check in *. split; [done|]. simpl in *. lia.
Qed.

(** [opened u c now d d1]: the rows after [getOrCreateWallet]. *)
Definition zero_wallet (walletID userID : uuid) (currency : string) (now : time) : Wallet :=
  {| w_ID := walletID; w_UserID := userID; w_Currency := currency;
     w_Available := 0; w_Reserved := 0; w_Status := "active"; w_FinancialHold := false;
     w_Version := 0; w_CreatedAt := now; w_UpdatedAt := now |}.

Inductive opened (userID : uuid) (currency : string) (now : time) (d : DB) : DB -> Prop :=
| opened_same : opened userID currency now d d
| opened_new i :
    wallets d !! i = None ->
    (forall k w, wallets d !! k = Some w -> wallet_owned userID currency w = false) ->
    opened userID currency now d
      (set_wallets (<[i := zero_wallet i userID currency now]>) d).

Lemma getOrCreateWallet_ok userID currency now ids d s' w :
  getOrCreateWallet userID currency now (ids, d) = Ok (s', w) ->
  exists rest d1 k, s' = (rest, d1) /\ opened userID currency now d d1
    /\ wallets d1 !! k = Some w /\ w_UserID w = userID /\ w_Currency w = currency.
Proof.
  intros Hg. unfold getOrCreateWallet in Hg. stmt_inv.
  assert (exists d1, x = (ids0, d1) /\ opened userID currency now d d1) as (d1 & -> & Ho).
  { rename select (insert_wallet _ _ = _) into Hi. unfold insert_wallet in Hi. stmt_inv.
    destruct (map_any _ _) eqn:Hany; stmt_inv; [by eexists; split; [done|constructor]|].
    eexists. split; [done|]. simpl in *. rewrite map_any_false in Hany. constructor; [|done].
    rename select (bool_decide _ = false) into Hb. apply bool_decide_eq_false in Hb.
    by apply eq_None_not_Some. }
  rename select (select_wallet_by_owner _ _ _ = _) into Hs.
  unfold select_wallet_by_owner in Hs. apply row_ok in Hs as [-> Hf].
  apply map_find_Some in Hf as (k & Hk & Hown). unfold wallet_owned in Hown.
  apply andb_true_iff in Hown as [Hu%uuid_eqb_eq Hc%String.eqb_eq].
  exists ids0, d1, k. naive_solver.
Qed.

Lemma insertLedger_ok input ids d s' e :
  insertLedger input (ids, d) = Ok (s', e) ->
  exists rest, ids = le_ID e :: rest
    /\ s' = (rest, set_ledger (fun l => (l ++ [e])%list) d)
    /\ e = ledger_row input (le_ID e)
    /\ ledger_check e = true
    /\ is_Some (wallets d !! in_WalletID input)
    /\ List.find (wallet_key (in_WalletID input) (in_IdempotencyKey input)) (ledger d) = None.
Proof.
  intros Hi. unfold insertLedger in Hi. stmt_inv. unfold insert_ledger_row in Hi. stmt_inv.
  eexists. split_and!; [done..| |].
  - rename select (negb _ = false) into Hn. apply negb_false_iff, bool_decide_eq_true in Hn. done.
  - rename select (existsb _ _ = false) into He.
    destruct (List.find _ _) as [e'|] eqn:Hf; [|done]. apply List.find_some in Hf as [Hin Hk].
    enough (existsb _ (ledger d) = true) as Ht by (rewrite He in Ht; done).
    apply existsb_exists. exists e'. split; [done|]. simpl in *. rewrite Hk.
    by rewrite orb_true_r.
Qed.

Lemma insertBillingOutbox_ok at_ aid et key payload ids d s' u :
  insertBillingOutbox at_ aid et key payload (ids, d) = Ok (s', u) ->
  exists rest l, s' = (rest, set_outbox (fun o => (o ++ l)%list) d).
Proof.
  intros Hi. unfold insertBillingOutbox in Hi. stmt_inv.
  destruct (existsb _ _); stmt_inv; [|by eauto].
  eexists _, []. f_equal. unfold set_outbox. rewrite app_nil_r. by destruct d.
Qed.

Lemma audit_Insert_ok event ids d s' u :
  audit_Insert event (ids, d) = Ok (s', u) ->
  exists rest l, s' = (rest, set_audit_logs (fun o => (o ++ l)%list) d).
Proof.
  intros Hi. unfold audit_Insert in Hi. case_match; stmt_inv. by eauto.
Qed.

Lemma insert_reservation_ok r ids d s' u :
  insert_reservation r (ids, d) = Ok (s', u) ->
  s' = (ids, set_reservations (<[r_ID r := r]>) d)
  /\ reservations d !! r_ID r = None
  /\ (forall k r', reservations d !! k = Some r' -> r_RequestID r' <> r_RequestID r)
  /\ reservation_check r = true
  /\ exists w, wallets d !! r_WalletID r = Some w /\ w_UserID w = r_UserID r.
Proof.
  intros Hi. unfold insert_reservation in Hi. stmt_inv.
  rename select (_ || _ = false) into Hor. apply orb_false_iff in Hor as [Hb Ha].
  apply bool_decide_eq_false in Hb. rewrite map_any_false in Ha.
  split_and!; [done| |intros k r' Hk Heq|done|].
  - by apply eq_None_not_Some.
  - specialize (Ha k r' Hk). apply orb_false_iff in Ha as [Ha _].
    apply String.eqb_neq in Ha. done.
  - destruct (wallets d !! r_WalletID r) as [w|] eqn:Hw; [|done].
    exists w. split; [done|]. by apply uuid_eqb_eq.
Qed.

Lemma update_reservation_ok reservationID f ids d s' u r :
  reservations d !! reservationID = Some r ->
  update_reservation reservationID f (ids, d) = Ok (s', u) ->
  s' = (ids, set_reservations (<[reservationID := f r]>) d) /\ reservation_check (f r) = true.
Proof.
  intros Hr Hu. unfold update_reservation in Hu. stmt_inv. rewrite Hr in Hu. stmt_inv. done.
Qed.

(** The stored settlement of [persistSettlement]. *)
Lemma upsertSettlement_ok existing reservation event actual status errorClass now ids d s' st :
  (st_ID existing = uuid_nil \/ settlements d !! st_ID existing = Some existing) ->
  upsertSettlement existing reservation event actual status errorClass now (ids, d) = Ok (s', st) ->
  exists rest, s' = (rest, set_settlements (<[st_ID st := st]>) d)
    /\ st_Status st = status /\ settlement_check st = true
    /\ ((st_ID existing = uuid_nil /\ settlements d !! st_ID st = None
         /\ st_ReservationID st = r_ID reservation /\ st_ActualAmount st = Some actual
         /\ st_UsageEventID st = ev_ID event /\ st_ReservedAmount st = r_AmountMinor reservation
         /\ st_Estimated st = ev_Estimated event
         /\ (forall k o, settlements d !! k = Some o -> st_ReservationID o <> r_ID reservation)
         /\ settlement_consistent st d = true)
        \/ (st_ID existing <> uuid_nil /\ settlements d !! st_ID existing = Some existing
            /\ st_ID st = st_ID existing
            /\ st_ReservationID st = st_ReservationID existing
            /\ st_ActualAmount st = st_ActualAmount existing
            /\ st_UsageEventID st = st_UsageEventID existing
            /\ st_ReservedAmount st = st_ReservedAmount existing
            /\ st_Estimated st = st_Estimated existing)).
Proof.
  intros Hex Hu. unfold upsertSettlement, persistSettlement in Hu.
  destruct (uuid_eqb (st_ID existing) uuid_nil) eqn:Hnil.
  - apply uuid_eqb_eq in Hnil. stmt_inv. unfold insert_settlement in Hu. stmt_inv.
    rename select (_ || _ = false) into Hor. apply orb_false_iff in Hor as [Hb Ha].
    apply bool_decide_eq_false in Hb. rewrite map_any_false in Ha. simpl in *.
    eexists. split_and!; [done..|]. left. split_and!; try done.
    + by apply eq_None_not_Some.
    + intros k o Hk Heq. specialize (Ha k o Hk). rewrite !orb_false_iff in Ha.
      destruct Ha as [[Ha _] _]. apply uuid_eqb_neq in Ha. done.
  - apply uuid_eqb_neq in Hnil. destruct Hex as [?|Hex]; [done|].
    apply raw_ok in Hu. unfold update_settlement in Hu. stmt_inv.
    rename select (row _ _ = _) into Hrow. apply tx_lift_ok in Hrow as [Hrow ->].
    rewrite Hex in Hrow. injection Hrow as ->. stmt_inv.
    eexists. split_and!; [done..|]. right. done.
Qed.

Lemma insert_liability_ok l ids d s' v :
  insert_liability l (ids, d) = Ok (s', v) ->
  s' = (ids, set_liabilities (<[l_ID l := l]>) d) /\ v = l
  /\ liabilities d !! l_ID l = None /\ is_Some (wallets d !! l_WalletID l)
  /\ liability_check l = true.
Proof.
  intros Hi. unfold insert_liability in Hi. stmt_inv.
  rename select (_ || _ = false) into Hor. apply orb_false_iff in Hor as [Hb _].
  apply bool_decide_eq_false in Hb.
  rename select (negb _ = false) into Hn. apply negb_false_iff, bool_decide_eq_true in Hn.
  split_and!; [done..| |done|done]. by apply eq_None_not_Some.
Qed.

(** The row [update_liability] writes. *)
Definition liability_row (l : Liability) (recovered : Z) (status : string) (now : time) : Liability :=
  {| l_ID := l_ID l; l_WalletID := l_WalletID l; l_LiabilityType := l_LiabilityType l;
     l_ReferenceType := l_ReferenceType l; l_ReferenceID := l_ReferenceID l;
     l_Principal := l_Principal l; l_Recovered := recovered;
     l_Currency := l_Currency l; l_Status := status; l_RecoveryLedgerID := None;
     l_CreatedAt := l_CreatedAt l; l_UpdatedAt := now |}.

Lemma update_liability_ok liabilityID recovered status now ids d s' v l :
  liabilities d !! liabilityID = Some l ->
  update_liability liabilityID recovered status now (ids, d) = Ok (s', v) ->
  v = liability_row l (recovered l) status now
  /\ s' = (ids, set_liabilities (<[liabilityID := v]>) d)
  /\ l_Recovered l <= recovered l /\ l_Status l <> "reversed"
  /\ (l_Status l = "settled" -> status = "reversed")
  /\ liability_check v = true.
Proof.
  intros Hl Hu. unfold update_liability in Hu. stmt_inv.
  rename select (row _ _ = _) into Hrow. apply tx_lift_ok in Hrow as [Hrow ->].
  rewrite Hl in Hrow. injection Hrow as ->. stmt_inv.
  rename select (_ || _ = false) into Hor. rewrite !orb_false_iff in Hor.
  destruct Hor as [[Hlt Hrev] Hset]. simpl in *.
  apply String.eqb_neq in Hrev. split_and!; [done..|lia|done| |done].
  intros Hs. rewrite Hs, String.eqb_refl in Hset. simpl in Hset.
  apply negb_false_iff, String.eqb_eq in Hset. done.
Qed.
End statements.

End StoreFacts.
