(* ===== verification/BillingInv.v ===== *)
(** * The invariants of the billing rows

    [Inv] collects what holds of the rows between transactions: the wallet
    projection is the sum of its ledger ([books]), the reserved balance is what
    the open reservations and the payment-refund entries hold ([held_inv]),
    reservations and settlements agree ([res_inv]), the financial hold is
    recomputed exactly ([hold_inv]) and liabilities stay within their principal
    ([liab_inv]).  The lemmas say how each kind of change of the rows preserves
    them; the operations are in [BillingSteps]. *)

From stdpp Require Import base gmap strings list.
From Stdlib Require Import ZArith Lia Ascii String.
From S2P Require Import Prelude GoLib Usage Pricing BillingModel Store StoreFacts.

Module BillingInv.
Import Usage Billing Store StoreFacts.

(** ** The rows, and their change *)
Abbreviation Wallets := (gmap uuid Wallet).
Abbreviation Reservations := (gmap uuid Reservation).
Abbreviation Settlements := (gmap uuid Settlement).
Abbreviation Liabilities := (gmap uuid Liability).

(** [effect d W R S L G d']: [d'] has these tables, and only grows the outbox
    and the audit log of [d]. *)
Definition effect (d : DB) (W : Wallets) (R : Reservations) (S : Settlements) (L : Liabilities)
    (G : list LedgerEntry) (d' : DB) : Prop :=
  wallets d' = W /\ reservations d' = R /\ settlements d' = S /\ liabilities d' = L
  /\ ledger d' = G /\ usage_events d' = usage_events d /\ price_versions d' = price_versions d
  /\ outbox d `prefix_of` outbox d' /\ audit_logs d `prefix_of` audit_logs d'.

Lemma effect_trans d W1 R1 S1 L1 G1 d1 W R S L G d' :
  effect d W1 R1 S1 L1 G1 d1 -> effect d1 W R S L G d' -> effect d W R S L G d'.
Proof.
  intros (_ & _ & _ & _ & _ & U1 & P1 & O1 & A1) (E1 & E2 & E3 & E4 & E5 & U2 & P2 & O2 & A2).
  unfold effect. split_and!; try done; try congruence; by etrans.
Qed.

(** ** The ledger and the wallet projection *)

(** [chain wid a r es a' r']: the entries [es] of wallet [wid] carry the
    balances from [(a, r)] to [(a', r')], each recording the balance after it. *)
Fixpoint chain (wid : uuid) (a r : Z) (es : list LedgerEntry) (a' r' : Z) : Prop :=
  match es with
  | [] => a' = a /\ r' = r
  | e :: es =>
      le_WalletID e = wid /\ le_AvailableAfter e = a + le_AvailableDelta e
      /\ le_ReservedAfter e = r + le_ReservedDelta e
      /\ chain wid (le_AvailableAfter e) (le_ReservedAfter e) es a' r'
  end.

Definition available_of (wid : uuid) (G : list LedgerEntry) : Z :=
  lsum (of_wallet wid le_AvailableDelta) G.
Definition reserved_of (wid : uuid) (G : list LedgerEntry) : Z :=
  lsum (of_wallet wid le_ReservedDelta) G.

Definition snapshots (G : list LedgerEntry) : Prop :=
  forall pre e post, G = (pre ++ e :: post)%list ->
    le_AvailableAfter e = available_of (le_WalletID e) (pre ++ [e])
    /\ le_ReservedAfter e = reserved_of (le_WalletID e) (pre ++ [e]).

Record books (W : Wallets) (G : list LedgerEntry) : Prop := {
  bk_keyed : forall k w, W !! k = Some w -> w_ID w = k;
  bk_range : forall k w, W !! k = Some w -> nat_i64 (w_Available w) /\ nat_i64 (w_Reserved w);
  bk_sum : forall k w, W !! k = Some w ->
    available_of k G = w_Available w /\ reserved_of k G = w_Reserved w;
  bk_known : forall e, e ∈ G -> is_Some (W !! le_WalletID e);
  bk_snapshots : snapshots G;
  bk_owner : forall k1 k2 w1 w2, W !! k1 = Some w1 -> W !! k2 = Some w2 ->
    w_UserID w1 = w_UserID w2 -> w_Currency w1 = w_Currency w2 -> k1 = k2
}.

(** The identity columns of a wallet never change. *)
Definition same_owner (w w' : Wallet) : Prop :=
  w_ID w' = w_ID w /\ w_UserID w' = w_UserID w /\ w_Currency w' = w_Currency w.

(** ** Held amounts *)
Definition held_status (status : string) : bool :=
  one_of status [ReservationReserved; ReservationSettlementPending].

Lemma held_status_open s :
  validReservationStatus s = true -> s <> ReservationSettled -> s <> ReservationReleased ->
  held_status s = true.
Proof.
  unfold validReservationStatus, held_status, one_of. simpl. intros Hv Hs Hr.
  apply String.eqb_neq in Hs, Hr. rewrite Hs, Hr in Hv. simpl in Hv.
  by rewrite orb_false_r in *.
Qed.

Definition held_amount (wid : uuid) (r : Reservation) : Z :=
  if uuid_eqb (r_WalletID r) wid && held_status (r_Status r) then r_AmountMinor r else 0.

Definition held_by (wid : uuid) (R : Reservations) : Z := msum (held_amount wid) R.

Definition refund_type (t : string) : bool :=
  one_of t [EntryPaymentRefundHold; EntryPaymentReversal; EntryPaymentRefundRelease].

(** The reserved balance the payment-refund entries of a wallet account for. *)
Definition refund_by (wid : uuid) (G : list LedgerEntry) : Z :=
  lsum (of_wallet wid (fun e => if refund_type (le_EntryType e) then le_ReservedDelta e else 0)) G.

Definition held_inv (W : Wallets) (R : Reservations) (G : list LedgerEntry) : Prop :=
  forall k w, W !! k = Some w -> w_Reserved w = held_by k R + refund_by k G.

(** ** Reservations and their settlements *)
Definition agree (st : Settlement) (r : Reservation) : Prop :=
  (st_Status st = SettlementPending /\ r_Status r = ReservationSettlementPending)
  \/ (st_Status st = SettlementSettled /\ r_Status r = ReservationSettled).

Record res_inv (W : Wallets) (R : Reservations) (S : Settlements) : Prop := {
  ri_keyed : forall k r, R !! k = Some r -> r_ID r = k;
  ri_amount : forall k r, R !! k = Some r -> 0 < r_AmountMinor r <= max_int64;
  ri_wallet : forall k r, R !! k = Some r -> exists w, W !! r_WalletID r = Some w;
  ri_status : forall k r, R !! k = Some r -> validReservationStatus (r_Status r) = true;
  ri_request : forall k1 k2 r1 r2, R !! k1 = Some r1 -> R !! k2 = Some r2 ->
    r_RequestID r1 = r_RequestID r2 -> k1 = k2;
  si_keyed : forall k st, S !! k = Some st -> st_ID st = k;
  si_agree : forall k st, S !! k = Some st ->
    exists r, R !! st_ReservationID st = Some r /\ agree st r
      /\ st_ReservedAmount st = r_AmountMinor r
      /\ r_SettledAmountMinor r = st_ActualAmount st
      /\ r_UsageEventID r = Some (st_UsageEventID st);
  si_unique : forall k1 k2 s1 s2, S !! k1 = Some s1 -> S !! k2 = Some s2 ->
    st_ReservationID s1 = st_ReservationID s2 -> k1 = k2;
  si_exists : forall k r, R !! k = Some r ->
    r_Status r = ReservationSettlementPending \/ r_Status r = ReservationSettled ->
    exists ks st, S !! ks = Some st /\ st_ReservationID st = k
}.

(** ** Liabilities *)
Definition liability_ok (l : Liability) : Prop :=
  0 < l_Principal l <= max_int64 /\ 0 <= l_Recovered l <= l_Principal l
  /\ ((l_Status l = "open" /\ l_Recovered l < l_Principal l)
      \/ (l_Status l = "settled" /\ l_Recovered l = l_Principal l)
      \/ l_Status l = "reversed").

Record liab_inv (W : Wallets) (L : Liabilities) : Prop := {
  lb_keyed : forall k l, L !! k = Some l -> l_ID l = k;
  lb_ok : forall k l, L !! k = Some l -> liability_ok l;
  lb_wallet : forall k l, L !! k = Some l -> exists w, W !! l_WalletID l = Some w
}.

(** ** The financial hold *)
Definition open_on (wid : uuid) (L : Liabilities) : bool :=
  map_any (fun l => uuid_eqb (l_WalletID l) wid && String.eqb (l_Status l) "open") L.

Definition pending_on (wid : uuid) (R : Reservations) : bool :=
  map_any (fun r => uuid_eqb (r_WalletID r) wid
                    && String.eqb (r_Status r) ReservationSettlementPending) R.

Definition hold_inv (W : Wallets) (R : Reservations) (L : Liabilities) : Prop :=
  forall k w, W !! k = Some w -> w_FinancialHold w = open_on k L || pending_on k R.

(** ** The invariant *)
Record Inv (d : DB) : Prop := {
  inv_books : books (wallets d) (ledger d);
  inv_held : held_inv (wallets d) (reservations d) (ledger d);
  inv_res : res_inv (wallets d) (reservations d) (settlements d);
  inv_liab : liab_inv (wallets d) (liabilities d);
  inv_hold : hold_inv (wallets d) (reservations d) (liabilities d)
}.

Lemma Inv_effect d W R S L G d' :
  effect d W R S L G d' ->
  books W G -> held_inv W R G -> res_inv W R S -> liab_inv W L -> hold_inv W R L -> Inv d'.
Proof. intros (<- & <- & <- & <- & <- & _) ?????. by constructor. Qed.

(** ** The ledger *)
Lemma of_wallet_app wid f G es :
  lsum (of_wallet wid f) (G ++ es) = lsum (of_wallet wid f) G + lsum (of_wallet wid f) es.
Proof. apply lsum_app. Qed.

Lemma chain_app wid a r es a1 r1 es' a' r' :
  chain wid a r es a1 r1 -> chain wid a1 r1 es' a' r' -> chain wid a r (es ++ es') a' r'.
Proof.
  revert a r. induction es as [|e es IH]; simpl; intros a r Hc Hc'.
  - by destruct Hc as [-> ->].
  - destruct Hc as (?&?&?&?). split_and!; auto.
Qed.

Lemma chain_sums wid a r es a' r' :
  chain wid a r es a' r' ->
  available_of wid es = a' - a /\ reserved_of wid es = r' - r
  /\ forall e, e ∈ es -> le_WalletID e = wid.
Proof.
  unfold available_of, reserved_of.
  revert a r. induction es as [|e es IH]; intros a r; simpl.
  - intros [-> ->]. split_and!; [lia|lia|]. intros e He. by apply elem_of_nil in He.
  - intros (Hw & Ha & Hr & Hc). apply IH in Hc as (H1 & H2 & H3).
    unfold of_wallet at 1 3. rewrite Hw, (uuid_eqb_refl wid). split_and!; [lia|lia|].
    intros e' [->|He]%elem_of_cons; auto.
Qed.

Lemma of_wallet_other wid wid' f es :
  (forall e, e ∈ es -> le_WalletID e = wid) -> wid' <> wid ->
  lsum (of_wallet wid' f) es = 0.
Proof.
  intros Hes Hne. apply lsum_zero. intros e He. unfold of_wallet.
  rewrite (Hes e He). by rewrite (proj2 (uuid_eqb_neq wid wid')) by congruence.
Qed.

Lemma snapshots_app wid G es a r a' r' :
  snapshots G -> available_of wid G = a -> reserved_of wid G = r ->
  chain wid a r es a' r' -> snapshots (G ++ es).
Proof.
  revert G a r. induction es as [|e es IH]; intros G a r HG Ha Hr Hc.
  - by rewrite app_nil_r.
  - destruct Hc as (Hw & HA & HR & Hc).
    assert (available_of wid (G ++ [e]) = le_AvailableAfter e
            /\ reserved_of wid (G ++ [e]) = le_ReservedAfter e) as [E1 E2].
    { unfold available_of, reserved_of in *. rewrite !of_wallet_app. simpl.
      unfold of_wallet at 2 4. rewrite Hw, (uuid_eqb_refl wid). lia. }
    rewrite cons_middle, app_assoc. eapply IH; [|exact E1|exact E2|exact Hc].
    intros pre x post Heq.
    destruct post as [|y post] using rev_ind.
    + apply app_inj_tail in Heq as [<- <-]. rewrite Hw. by rewrite E1, E2.
    + clear IHpost. rewrite app_comm_cons, app_assoc in Heq.
      apply app_inj_tail in Heq as [Heq _]. by apply (HG pre x post).
Qed.

Lemma books_post W G wid w w' es :
  books W G -> W !! wid = Some w -> same_owner w w' ->
  chain wid (w_Available w) (w_Reserved w) es (w_Available w') (w_Reserved w') ->
  nat_i64 (w_Available w') -> nat_i64 (w_Reserved w') ->
  books (<[wid := w']> W) (G ++ es).
Proof.
  intros HB Hw (HI & HU & HC) Hc Ha Hr.
  destruct (chain_sums _ _ _ _ _ _ Hc) as (S1 & S2 & S3).
  destruct (bk_sum _ _ HB _ _ Hw) as [E1 E2].
  constructor.
  - intros k x [[<- <-]|[_ Hx]]%lookup_insert_Some; [|by apply (bk_keyed _ _ HB)].
    rewrite HI. by apply (bk_keyed _ _ HB).
  - intros k x [[<- <-]|[_ Hx]]%lookup_insert_Some; [done|by apply (bk_range _ _ HB k)].
  - intros k x Hx. unfold available_of, reserved_of in *. rewrite !of_wallet_app.
    apply lookup_insert_Some in Hx as [[<- <-]|[Hne Hx]]; [lia|].
    rewrite !(of_wallet_other wid k _ es) by (done || congruence).
    destruct (bk_sum _ _ HB _ _ Hx). unfold available_of, reserved_of in *. lia.
  - intros e [He|He]%elem_of_app.
    + rewrite lookup_insert_is_Some'. right. by apply (bk_known _ _ HB).
    + rewrite (S3 _ He), lookup_insert_eq. by eauto.
  - eapply snapshots_app; [apply HB|exact E1|exact E2|exact Hc].
  - assert (forall k x, <[wid:=w']> W !! k = Some x ->
        exists y, W !! k = Some y /\ w_UserID x = w_UserID y /\ w_Currency x = w_Currency y) as Hback.
    { intros k x [[<- <-]|[_ Hx]]%lookup_insert_Some; eauto. }
    intros k1 k2 w1 w2 (y1 & ? & -> & ->)%Hback (y2 & ? & -> & ->)%Hback.
    by apply (bk_owner _ _ HB).
Qed.

(** A change of a wallet that posts nothing. *)
Lemma books_touch W G wid w w' :
  books W G -> W !! wid = Some w -> same_owner w w' ->
  w_Available w' = w_Available w -> w_Reserved w' = w_Reserved w ->
  books (<[wid := w']> W) G.
Proof.
  intros HB Hw Ho Ha Hr. rewrite <- (app_nil_r G).
  destruct (bk_range _ _ HB _ _ Hw). eapply books_post; [done..| | |]; rewrite ?Ha, ?Hr; done.
Qed.

Lemma no_entries W G i f : books W G -> W !! i = None -> lsum (of_wallet i f) G = 0.
Proof.
  intros HB Hi. apply lsum_zero. intros e He. unfold of_wallet.
  destruct (uuid_eqb _ _) eqn:E; [|done]. apply uuid_eqb_eq in E.
  destruct (bk_known _ _ HB _ He) as [x Hx]. congruence.
Qed.

(** ** Opening a wallet *)
Section opening.
Context (W : Wallets) (R : Reservations) (S : Settlements) (L : Liabilities)
        (G : list LedgerEntry) (i u : uuid) (c : string) (now : time).
Hypothesis Hfresh : W !! i = None.
Hypothesis Howner : forall k w, W !! k = Some w -> wallet_owned u c w = false.
Abbreviation W' := (<[i := zero_wallet i u c now]> W).

Lemma books_open : books W G -> books W' G.
Proof.
  intros HB. constructor.
  - intros k w [[<- <-]|[_ Hx]]%lookup_insert_Some; [done|by apply (bk_keyed _ _ HB)].
  - intros k w [[<- <-]|[_ Hx]]%lookup_insert_Some; [|by apply (bk_range _ _ HB k)].
    simpl. i64_unfold. lia.
  - intros k w [[<- <-]|[_ Hx]]%lookup_insert_Some; [|by apply (bk_sum _ _ HB)].
    unfold available_of, reserved_of. by rewrite !(no_entries W G).
  - intros e He. rewrite lookup_insert_is_Some'. right. by apply (bk_known _ _ HB).
  - apply HB.
  - assert (forall k w, W !! k = Some w -> w_UserID w = u -> w_Currency w = c -> False) as Hno.
    { intros k w Hw Hu Hc. specialize (Howner k w Hw). unfold wallet_owned in Howner.
      rewrite Hu, Hc, uuid_eqb_refl, String.eqb_refl in Howner. done. }
    intros k1 k2 w1 w2 [[<- <-]|[_ H1]]%lookup_insert_Some [[<- <-]|[_ H2]]%lookup_insert_Some;
      simpl; intros; [done|exfalso; by eapply Hno..|].
    by apply (bk_owner _ _ HB _ _ w1 w2).
Qed.

Lemma held_open : books W G -> res_inv W R S -> held_inv W R G -> held_inv W' R G.
Proof.
  intros HB HR HH k w [[<- <-]|[_ Hx]]%lookup_insert_Some; [|by apply HH].
  unfold refund_by. rewrite (no_entries W G) by done. simpl.
  unfold held_by. rewrite msum_zero; [done|]. intros k r Hr. unfold held_amount.
  destruct (uuid_eqb _ _) eqn:E; [|done]. apply uuid_eqb_eq in E.
  destruct (ri_wallet _ _ _ HR _ _ Hr). congruence.
Qed.

Lemma res_open : res_inv W R S -> res_inv W' R S.
Proof.
  intros []. constructor; try done. intros k r Hr. destruct (ri_wallet0 k r Hr) as [w Hw].
  exists w. rewrite lookup_insert_ne; [done|]. congruence.
Qed.

Lemma liab_open : liab_inv W L -> liab_inv W' L.
Proof.
  intros []. constructor; try done. intros k r Hr. destruct (lb_wallet0 k r Hr) as [w Hw].
  exists w. rewrite lookup_insert_ne; [done|]. congruence.
Qed.

Lemma hold_open : res_inv W R S -> liab_inv W L -> hold_inv W R L -> hold_inv W' R L.
Proof.
  intros HR HL HH k w [[<- <-]|[_ Hx]]%lookup_insert_Some; [|by apply HH]. simpl.
  symmetry. apply orb_false_iff. split; apply map_any_false; intros k v Hv;
    apply andb_false_iff; left; apply uuid_eqb_neq; intros ?; subst.
  - destruct (lb_wallet _ _ HL _ _ Hv). congruence.
  - destruct (ri_wallet _ _ _ HR _ _ Hv). congruence.
Qed.
End opening.

Lemma Inv_opened u c now d d1 : opened u c now d d1 -> Inv d -> Inv d1.
Proof.
  intros [|i Hi Ho] []; [done|]. eapply Inv_effect; [by repeat split|..].
  - by apply books_open.
  - eapply held_open; eauto.
  - by apply res_open.
  - by apply liab_open.
  - eapply hold_open; eauto.
Qed.

(** ** Preservation, one kind of change at a time *)

(** A wallet posts [es] while its reservations move to [R']. *)
Lemma held_post W R R' G wid w w' es :
  held_inv W R G -> W !! wid = Some w ->
  (forall e, e ∈ es -> le_WalletID e = wid) ->
  (forall k, k <> wid -> held_by k R' = held_by k R) ->
  w_Reserved w' - w_Reserved w = (held_by wid R' - held_by wid R) + refund_by wid es ->
  held_inv (<[wid := w']> W) R' (G ++ es).
Proof.
  intros HH Hw Hes Ho Hd k x Hx. unfold refund_by in *. rewrite of_wallet_app.
  apply lookup_insert_Some in Hx as [[<- <-]|[Hne Hx]].
  - specialize (HH _ _ Hw). unfold refund_by in HH. lia.
  - rewrite (of_wallet_other wid k _ es) by (done || congruence).
    rewrite Ho by congruence. specialize (HH _ _ Hx). unfold refund_by in HH. lia.
Qed.

Lemma held_touch W R G wid w w' :
  held_inv W R G -> W !! wid = Some w -> w_Reserved w' = w_Reserved w ->
  held_inv (<[wid := w']> W) R G.
Proof.
  intros HH Hw Hr. rewrite <- (app_nil_r G). eapply held_post; [done..| |done|].
  - intros e He. by apply elem_of_nil in He.
  - unfold refund_by. simpl. lia.
Qed.

Lemma held_by_insert k R i r : R !! i = None -> held_by k (<[i := r]> R) = held_amount k r + held_by k R.
Proof. apply msum_insert_fresh. Qed.

Lemma held_by_update k R i r r' :
  R !! i = Some r -> held_by k (<[i := r']> R) = held_by k R - held_amount k r + held_amount k r'.
Proof. apply msum_update. Qed.

Lemma held_amount_other k r : r_WalletID r <> k -> held_amount k r = 0.
Proof. intros Hne. unfold held_amount. by rewrite (proj2 (uuid_eqb_neq _ _)). Qed.

Lemma held_amount_held r : held_status (r_Status r) = true -> held_amount (r_WalletID r) r = r_AmountMinor r.
Proof. intros Hs. unfold held_amount. by rewrite uuid_eqb_refl, Hs. Qed.

Lemma held_amount_closed k r : held_status (r_Status r) = false -> held_amount k r = 0.
Proof. intros Hs. unfold held_amount. rewrite Hs. by rewrite andb_false_r. Qed.

(** The entries of a chain that are not refund entries leave the refund part. *)
Lemma refund_none wid es :
  (forall e, e ∈ es -> refund_type (le_EntryType e) = false) -> refund_by wid es = 0.
Proof.
  intros Hes. apply lsum_zero. intros e He. unfold of_wallet. rewrite (Hes e He).
  by case_match.
Qed.

Lemma res_touch W R S wid w' : res_inv W R S -> res_inv (<[wid := w']> W) R S.
Proof.
  intros []. constructor; try done. intros k r Hr. destruct (ri_wallet0 k r Hr) as [w Hw].
  destruct (decide (wid = r_WalletID r)) as [->|]; [by eexists; apply lookup_insert_eq|].
  exists w. by rewrite lookup_insert_ne.
Qed.

Lemma liab_touch W L wid w' : liab_inv W L -> liab_inv (<[wid := w']> W) L.
Proof.
  intros []. constructor; try done. intros k r Hr. destruct (lb_wallet0 k r Hr) as [w Hw].
  destruct (decide (wid = l_WalletID r)) as [->|]; [by eexists; apply lookup_insert_eq|].
  exists w. by rewrite lookup_insert_ne.
Qed.

Lemma res_insert W R S r w :
  res_inv W R S -> R !! r_ID r = None -> W !! r_WalletID r = Some w ->
  0 < r_AmountMinor r <= max_int64 -> r_Status r = ReservationReserved ->
  (forall k r', R !! k = Some r' -> r_RequestID r' <> r_RequestID r) ->
  res_inv W (<[r_ID r := r]> R) S.
Proof.
  intros HR Hf Hw Ha Hs Hq. constructor.
  - intros k x [[<- <-]|[_ Hx]]%lookup_insert_Some; [done|by apply (ri_keyed _ _ _ HR)].
  - intros k x [[<- <-]|[_ Hx]]%lookup_insert_Some; [done|by apply (ri_amount _ _ _ HR k)].
  - intros k x [[<- <-]|[_ Hx]]%lookup_insert_Some; [by eauto|by apply (ri_wallet _ _ _ HR k)].
  - intros k x [[<- <-]|[_ Hx]]%lookup_insert_Some; [by rewrite Hs|by apply (ri_status _ _ _ HR k)].
  - intros k1 k2 r1 r2 [[<- <-]|[_ H1]]%lookup_insert_Some [[<- <-]|[_ H2]]%lookup_insert_Some He;
      [done|exfalso; by eapply Hq..|by eapply (ri_request _ _ _ HR)].
  - apply HR.
  - intros k st Hst. destruct (si_agree _ _ _ HR _ _ Hst) as (r0 & Hr0 & Hrest).
    exists r0. split; [|done]. rewrite lookup_insert_ne; [done|congruence].
  - apply HR.
  - intros k x [[<- <-]|[_ Hx]]%lookup_insert_Some Hst; [|by eapply (si_exists _ _ _ HR)].
    rewrite Hs in Hst. by destruct Hst.
Qed.

(** The columns [update_reservation] leaves. *)
Definition same_reservation (r r' : Reservation) : Prop :=
  r_ID r' = r_ID r /\ r_WalletID r' = r_WalletID r /\ r_AmountMinor r' = r_AmountMinor r
  /\ r_RequestID r' = r_RequestID r /\ r_Currency r' = r_Currency r
  /\ forall input quote, sameReservationInput r' input quote = sameReservationInput r input quote.

(** A reservation and its settlement move together. *)
Lemma res_settle W R S rid r r' st :
  res_inv W R S -> R !! rid = Some r -> same_reservation r r' ->
  st_ReservationID st = rid -> st_ReservedAmount st = r_AmountMinor r -> agree st r' ->
  r_SettledAmountMinor r' = st_ActualAmount st -> r_UsageEventID r' = Some (st_UsageEventID st) ->
  (forall k o, S !! k = Some o -> st_ReservationID o = rid -> k = st_ID st) ->
  (forall o, S !! st_ID st = Some o -> st_ReservationID o = rid) ->
  res_inv W (<[rid := r']> R) (<[st_ID st := st]> S).
Proof.
  intros HR Hr (EI & EW & EA & EQ & _) Hrid Hamt Hag Hsa Hue Huniq Hsame. constructor.
  - intros k x [[<- <-]|[_ Hx]]%lookup_insert_Some; [rewrite EI|]; by apply (ri_keyed _ _ _ HR).
  - intros k x [[<- <-]|[_ Hx]]%lookup_insert_Some; [rewrite EA|]; by eapply (ri_amount _ _ _ HR).
  - intros k x [[<- <-]|[_ Hx]]%lookup_insert_Some; [rewrite EW|]; by eapply (ri_wallet _ _ _ HR).
  - intros k x [[<- <-]|[_ Hx]]%lookup_insert_Some; [|by eapply (ri_status _ _ _ HR)].
    by destruct Hag as [[_ ->]|[_ ->]].
  - assert (forall k x, <[rid:=r']> R !! k = Some x ->
      exists y, R !! k = Some y /\ r_RequestID x = r_RequestID y) as Hback.
    { intros k x [[<- <-]|[_ Hx]]%lookup_insert_Some; eauto. }
    intros k1 k2 r1 r2 (y1 & ? & ->)%Hback (y2 & ? & ->)%Hback. by apply (ri_request _ _ _ HR).
  - intros k x [[<- <-]|[_ Hx]]%lookup_insert_Some; [done|by apply (si_keyed _ _ _ HR)].
  - intros k x [[<- <-]|[Hne Hx]]%lookup_insert_Some.
    + exists r'. rewrite Hrid, lookup_insert_eq, EA. done.
    + destruct (si_agree _ _ _ HR _ _ Hx) as (r0 & Hr0 & Hrest). exists r0. split; [|done].
      rewrite lookup_insert_ne; [done|]. intros Heq. symmetry in Heq. apply Hne. symmetry.
      by apply (Huniq _ _ Hx).
  - intros k1 k2 s1 s2 [[<- <-]|[? H1]]%lookup_insert_Some [[<- <-]|[? H2]]%lookup_insert_Some He.
    + done.
    + rewrite Hrid in He. symmetry in He. by apply (Huniq _ _ H2) in He.
    + rewrite Hrid in He. by apply (Huniq _ _ H1) in He.
    + by eapply (si_unique _ _ _ HR).
  - intros k x [[<- <-]|[Hne Hx]]%lookup_insert_Some Hst.
    + exists (st_ID st), st. by rewrite lookup_insert_eq.
    + destruct (si_exists _ _ _ HR _ _ Hx Hst) as (ks & s0 & Hs0 & Hr0).
      exists ks, s0. split; [|done]. rewrite lookup_insert_ne; [done|].
      intros <-. apply Hne. rewrite <- Hr0. symmetry. by apply Hsame.
Qed.

Lemma res_release W R S rid r r' :
  res_inv W R S -> R !! rid = Some r -> same_reservation r r' ->
  r_Status r = ReservationReserved -> r_Status r' = ReservationReleased ->
  res_inv W (<[rid := r']> R) S.
Proof.
  intros HR Hr (EI & EW & EA & EQ & _) Hs Hs'. constructor.
  - intros k x [[<- <-]|[_ Hx]]%lookup_insert_Some; [rewrite EI|]; by apply (ri_keyed _ _ _ HR).
  - intros k x [[<- <-]|[_ Hx]]%lookup_insert_Some; [rewrite EA|]; by eapply (ri_amount _ _ _ HR).
  - intros k x [[<- <-]|[_ Hx]]%lookup_insert_Some; [rewrite EW|]; by eapply (ri_wallet _ _ _ HR).
  - intros k x [[<- <-]|[_ Hx]]%lookup_insert_Some; [by rewrite Hs'|by eapply (ri_status _ _ _ HR)].
  - assert (forall k x, <[rid:=r']> R !! k = Some x ->
      exists y, R !! k = Some y /\ r_RequestID x = r_RequestID y) as Hback.
    { intros k x [[<- <-]|[_ Hx]]%lookup_insert_Some; eauto. }
    intros k1 k2 r1 r2 (y1 & ? & ->)%Hback (y2 & ? & ->)%Hback. by apply (ri_request _ _ _ HR).
  - apply HR.
  - intros k x Hx. destruct (si_agree _ _ _ HR _ _ Hx) as (r0 & Hr0 & Hag & Hrest).
    exists r0. split; [|done]. rewrite lookup_insert_ne; [done|]. intros ->.
    rewrite Hr in Hr0. injection Hr0 as <-. destruct Hag as [[_ Hc]|[_ Hc]]; by rewrite Hs in Hc.
  - apply HR.
  - intros k x [[<- <-]|[Hne Hx]]%lookup_insert_Some Hst; [|by eapply (si_exists _ _ _ HR)].
    rewrite Hs' in Hst. by destruct Hst.
Qed.

(** The recovery columns of a settlement change, the others stay. *)
Definition same_settlement (st st' : Settlement) : Prop :=
  st_ID st' = st_ID st /\ st_ReservationID st' = st_ReservationID st
  /\ st_Status st' = st_Status st /\ st_ReservedAmount st' = st_ReservedAmount st
  /\ st_ActualAmount st' = st_ActualAmount st /\ st_UsageEventID st' = st_UsageEventID st.

Lemma res_retouch W R S k st st' :
  res_inv W R S -> S !! k = Some st -> same_settlement st st' -> res_inv W R (<[k := st']> S).
Proof.
  intros HR Hst (EI & ER & ES & EA & EC & EU). constructor; try apply HR.
  - intros k' x [[<- <-]|[_ Hx]]%lookup_insert_Some; [rewrite EI|]; by apply (si_keyed _ _ _ HR).
  - intros k' x [[<- <-]|[_ Hx]]%lookup_insert_Some; [|by eapply (si_agree _ _ _ HR)].
    unfold agree. rewrite ER, ES, EA, EC, EU. by eapply (si_agree _ _ _ HR).
  - assert (forall k' x, <[k:=st']> S !! k' = Some x ->
      exists y, S !! k' = Some y /\ st_ReservationID x = st_ReservationID y) as Hback.
    { intros k' x [[<- <-]|[_ Hx]]%lookup_insert_Some; eauto. }
    intros k1 k2 r1 r2 (y1 & ? & ->)%Hback (y2 & ? & ->)%Hback. by apply (si_unique _ _ _ HR).
  - intros k' x Hx Hs. destruct (si_exists _ _ _ HR _ _ Hx Hs) as (ks & s0 & Hs0 & Hr0).
    destruct (decide (k = ks)) as [<-|]; [|exists ks, s0; by rewrite lookup_insert_ne].
    exists k, st'. rewrite lookup_insert_eq, ER. naive_solver.
Qed.

Lemma hold_post W R R' L L' wid w' :
  hold_inv W R L ->
  (forall k, k <> wid -> open_on k L' || pending_on k R' = open_on k L || pending_on k R) ->
  w_FinancialHold w' = open_on wid L' || pending_on wid R' ->
  hold_inv (<[wid := w']> W) R' L'.
Proof.
  intros HH Ho Hw k x [[<- <-]|[Hne Hx]]%lookup_insert_Some; [done|].
  rewrite Ho by congruence. by apply HH.
Qed.

Lemma pending_on_update k R i r r' :
  R !! i = Some r -> r_WalletID r' = r_WalletID r ->
  (r_WalletID r = k -> String.eqb (r_Status r') ReservationSettlementPending
                     = String.eqb (r_Status r) ReservationSettlementPending) ->
  pending_on k (<[i := r']> R) = pending_on k R.
Proof.
  intros Hi Hw Hs. apply (map_any_update _ _ _ r); [done|]. rewrite Hw.
  destruct (uuid_eqb _ _) eqn:E; [|done]. apply uuid_eqb_eq in E. by rewrite Hs.
Qed.

Lemma open_on_update k L i l l' :
  L !! i = Some l -> l_WalletID l' = l_WalletID l ->
  (l_WalletID l = k -> String.eqb (l_Status l') "open" = String.eqb (l_Status l) "open") ->
  open_on k (<[i := l']> L) = open_on k L.
Proof.
  intros Hi Hw Hs. apply (map_any_update _ _ _ l); [done|]. rewrite Hw.
  destruct (uuid_eqb _ _) eqn:E; [|done]. apply uuid_eqb_eq in E. by rewrite Hs.
Qed.

(** The subqueries of the [financial_hold] assignments, on consistent rows. *)
Lemma has_pending_settlement_on wid d :
  res_inv (wallets d) (reservations d) (settlements d) ->
  has_pending_settlement wid None d = pending_on wid (reservations d).
Proof.
  intros HR. apply Bool.eq_iff_eq_true. unfold has_pending_settlement, pending_on.
  rewrite !map_any_true. split.
  - intros (k & st & Hst & Hp). destruct (si_agree _ _ _ HR _ _ Hst) as (r & Hr & Hag & _).
    rewrite Hr in Hp. apply andb_true_iff in Hp as [Hp Hw]. simpl in Hp. rewrite andb_true_r in Hp.
    apply String.eqb_eq in Hp. exists (st_ReservationID st), r. split; [done|]. rewrite Hw. simpl.
    destruct Hag as [[_ ->]|[Hs _]]; [done|]. by rewrite Hs in Hp.
  - intros (k & r & Hr & Hp). apply andb_true_iff in Hp as [Hw Hs].
    apply String.eqb_eq in Hs.
    destruct (si_exists _ _ _ HR _ _ Hr (or_introl Hs)) as (ks & st & Hst & <-).
    exists ks, st. split; [done|]. rewrite Hr, Hw. simpl. rewrite !andb_true_r.
    destruct (si_agree _ _ _ HR _ _ Hst) as (r0 & Hr0 & Hag & _).
    rewrite Hr in Hr0. injection Hr0 as <-. destruct Hag as [[-> _]|[_ Hc]]; [done|].
    by rewrite Hs in Hc.
Qed.

Lemma has_pending_settlement_except wid rid r r' d :
  res_inv (wallets d) (reservations d) (settlements d) ->
  reservations d !! rid = Some r -> r_Status r' = ReservationSettled ->
  has_pending_settlement wid (Some rid) d = pending_on wid (<[rid := r']> (reservations d)).
Proof.
  intros HR Hrid Hs'. apply Bool.eq_iff_eq_true. unfold has_pending_settlement, pending_on.
  rewrite !map_any_true. split.
  - intros (k & st & Hst & Hp). destruct (si_agree _ _ _ HR _ _ Hst) as (r0 & Hr & Hag & _).
    rewrite Hr, !andb_true_iff in Hp. destruct Hp as [[Hp Hne] Hw].
    apply negb_true_iff, uuid_eqb_neq in Hne. apply String.eqb_eq in Hp.
    exists (st_ReservationID st), r0. rewrite lookup_insert_ne, Hw by done. split; [done|].
    destruct Hag as [[_ ->]|[Hs _]]; [done|]. by rewrite Hs in Hp.
  - intros (k & r0 & [[<- <-]|[Hne Hr]]%lookup_insert_Some & Hp).
    { rewrite Hs' in Hp. by rewrite andb_false_r in Hp. }
    apply andb_true_iff in Hp as [Hw Hs]. apply String.eqb_eq in Hs.
    destruct (si_exists _ _ _ HR _ _ Hr (or_introl Hs)) as (ks & st & Hst & <-).
    exists ks, st. split; [done|]. rewrite Hr, Hw, andb_true_r.
    rewrite (proj2 (uuid_eqb_neq _ _)) by done. simpl. rewrite andb_true_r.
    destruct (si_agree _ _ _ HR _ _ Hst) as (r1 & Hr1 & Hag & _).
    rewrite Hr in Hr1. injection Hr1 as <-. destruct Hag as [[-> _]|[_ Hc]]; [done|].
    by rewrite Hs in Hc.
Qed.

End BillingInv.
