(* ===== verification/BillingFacts.v ===== *)
(** * What each billing operation does when it succeeds

    For every operation of [BillingOps] and [BillingService], the exact change
    of the rows on each branch, over wallets whose balances are [int64]. *)

From stdpp Require Import base gmap strings list sorting.
From Stdlib Require Import ZArith Lia Ascii String.
From S2P Require Import Prelude GoLib Usage Pricing BillingModel Money Store StoreFacts.
From S2P Require Import BillingOps BillingService BillingInv.

Module BillingFacts.
Import Usage Billing Money Store StoreFacts BillingOps BillingService BillingInv.

Lemma checked_add_ok a b v :
  in_i64 a -> in_i64 b -> checked_add a b = Ok v -> v = a + b /\ in_i64 v.
Proof.
  unfold checked_add. intros Ha Hb Hv. destruct (safeAdd a b) eqn:E; [|done].
  injection Hv as <-. by apply safeAdd_Some.
Qed.

(** Inverts an operation statement by statement; a wallet update needs the row. *)
Ltac op_step :=
  match goal with
  | H : update_wallet ?k ?now ?f (?ids, ?d) = Ok (?s', ?u), Hw : wallets _ !! ?k = Some ?w |- _ =>
      apply (update_wallet_ok k now f ids d s' u w Hw) in H as (? & ? & ?); subst
  | H : update_reservation ?k ?f (?ids, ?d) = Ok (?s', ?u), Hr : reservations _ !! ?k = Some ?r |- _ =>
      apply (update_reservation_ok k f ids d s' u r Hr) in H as [? ?]; subst
  | H : update_liability ?k ?f ?st ?now (?ids, ?d) = Ok (?s', ?v), Hl : liabilities _ !! ?k = Some ?l |- _ =>
      apply (update_liability_ok k f st now ids d s' v l Hl) in H as (? & ? & ? & ? & ? & ?); subst
  | H : insertLedger _ (_, _) = Ok (_, _) |- _ =>
      let rest := fresh "ids" in let He := fresh "He" in
      apply insertLedger_ok in H as (rest & ? & ? & He & ? & ? & ?); subst
  | H : insertBillingOutbox _ _ _ _ _ (_, _) = Ok (_, _) |- _ =>
      let rest := fresh "ids" in let l := fresh "outs" in
      apply insertBillingOutbox_ok in H as (rest & l & ?); subst
  | H : audit_Insert _ (_, _) = Ok (_, _) |- _ =>
      let rest := fresh "ids" in let l := fresh "auds" in
      apply audit_Insert_ok in H as (rest & l & ?); subst
  | H : insert_reservation _ (_, _) = Ok (_, _) |- _ =>
      apply insert_reservation_ok in H as (? & ? & ? & ? & ?); subst
  | H : optional _ (_, _) = Ok (_, _) |- _ => apply optional_row in H as [? ?]; subst
  | _ => stmt_step
  end.
Ltac op_inv := repeat (op_step; cbn beta iota in * ).

(** Proves [effect] of explicit setters. *)
Ltac solve_effect :=
  unfold effect; simpl; split_and!;
  first [done | congruence | (repeat apply prefix_app_r; apply prefix_eq; congruence) | idtac].

Section facts.
Context `{UuidText, SqlGuards, WallClock}.

(** ** Reads *)
Lemma validatePublishedPrice_ok p c now ids d s' u :
  validatePublishedPrice p c now (ids, d) = Ok (s', u) ->
  s' = (ids, d) /\ price_published p c now d = true.
Proof.
  unfold validatePublishedPrice. intros Hv. case_match; stmt_inv.
  by rename select (negb _ = false) into Hn; apply negb_false_iff in Hn.
Qed.

Lemma check_limits_ok key held amount checks ids d s' u :
  check_limits key held amount checks (ids, d) = Ok (s', u) ->
  s' = (ids, d) /\ forall limit start, (Some limit, start) ∈ checks ->
    spent_since key start d + held + amount <= limit.
Proof.
  revert s'. induction checks as [|[[limit|] start] rest IH]; intros s' Hc; simpl in Hc.
  - stmt_inv. split; [done|]. intros ?? Hin. by apply elem_of_nil in Hin.
  - stmt_inv. apply IH in Hc as [-> Hc]. split; [done|].
    intros l st [[= -> ->]|Hin]%elem_of_cons; [|by apply Hc].
    rename select (parseBigTotal _ = _) into Hp. unfold parseBigTotal in Hp.
    case_match; [done|]. injection Hp as ->. lia.
  - apply IH in Hc as [-> Hc]. split; [done|]. intros l st [[=]|Hin]%elem_of_cons. by apply Hc.
Qed.

(** The limits of an API key hold with [amount] on top of what is spent and held. *)
Definition within_budgets (input : ReserveInput) (amount : Z) (now : time) (d : DB) : Prop :=
  (forall limit, ri_DailyBudgetMinor input = Some limit ->
     spent_since (ri_APIKeyID input) (day_start now) d + held_total (ri_APIKeyID input) d + amount
       <= limit)
  /\ (forall limit, ri_MonthlyBudgetMinor input = Some limit ->
     spent_since (ri_APIKeyID input) (month_start now) d + held_total (ri_APIKeyID input) d + amount
       <= limit).

Lemma checkBudgets_ok input amount now ids d s' u :
  checkBudgets input amount now (ids, d) = Ok (s', u) ->
  s' = (ids, d) /\ within_budgets input amount now d.
Proof.
  unfold checkBudgets, within_budgets. intros Hc.
  assert ((ri_DailyBudgetMinor input = None /\ ri_MonthlyBudgetMinor input = None
           /\ s' = (ids, d)) \/
          check_limits (ri_APIKeyID input) (held_total (ri_APIKeyID input) d) amount
            [(ri_DailyBudgetMinor input, day_start now);
             (ri_MonthlyBudgetMinor input, month_start now)] (ids, d) = Ok (s', u)) as Hcases.
  { destruct (ri_DailyBudgetMinor input), (ri_MonthlyBudgetMinor input); [right..|left];
      stmt_inv; try done;
      rename select (parseBigTotal _ = _) into Hp; unfold parseBigTotal in Hp;
      case_match; try done; injection Hp as <-; done. }
  destruct Hcases as [(-> & -> & ->)|Hl]; [naive_solver|].
  apply check_limits_ok in Hl as [-> Hl]. split_and!; [done| |]; intros limit Hlim.
  - apply Hl. rewrite Hlim. apply list_elem_of_here.
  - apply Hl. rewrite Hlim. do 2 constructor.
Qed.

(** ** Reserve *)
Definition reserve_fresh (input : ReserveInput) (quote : Quote) (now : time) (d : DB)
    (r : Reservation) (d' : DB) : Prop :=
  exists d1 w reservedAfter e,
    opened (ri_UserID input) (q_Currency quote) now d d1
    /\ wallets d1 !! w_ID w = Some w
    /\ w_UserID w = ri_UserID input /\ w_Currency w = q_Currency quote
    /\ w_Status w = "active" /\ w_FinancialHold w = false
    /\ price_published (q_PriceVersionID quote) (q_Currency quote) now d = true
    /\ within_budgets input (q_AmountMinor quote) now d
    /\ q_AmountMinor quote <= w_Available w
    /\ checked_add (w_Reserved w) (q_AmountMinor quote) = Ok reservedAfter
    /\ r = new_reservation (r_ID r) w input quote now
    /\ reservations d !! r_ID r = None
    /\ (forall k r', reservations d !! k = Some r' -> r_RequestID r' <> ri_RequestID input)
    /\ reservation_check r = true
    /\ e = ledger_row (reserve_entry w input quote (i64_sub (w_Available w) (q_AmountMinor quote))
                         reservedAfter now) (le_ID e)
    /\ ledger_check e = true
    /\ effect d
         (<[w_ID w := bump_wallet now w
              (set_balances (i64_sub (w_Available w) (q_AmountMinor quote)) reservedAfter d1 w)]>
            (wallets d1))
         (<[r_ID r := r]> (reservations d)) (settlements d) (liabilities d) (ledger d ++ [e]) d'.

(** Opening a wallet changes the wallets only. *)
Lemma opened_frame u c now d d1 :
  opened u c now d d1 ->
  reservations d1 = reservations d /\ settlements d1 = settlements d
  /\ liabilities d1 = liabilities d /\ ledger d1 = ledger d /\ usage_events d1 = usage_events d
  /\ price_versions d1 = price_versions d /\ outbox d1 = outbox d /\ audit_logs d1 = audit_logs d.
Proof. by intros [|]. Qed.

Definition keyed (d : DB) : Prop := forall k w, wallets d !! k = Some w -> w_ID w = k.

Lemma opened_keyed u c now d d1 : opened u c now d d1 -> keyed d -> keyed d1.
Proof.
  intros [|i Hi _] Hk; [done|]. intros k w Hw. simpl in Hw.
  apply lookup_insert_Some in Hw as [[<- <-]|[_ Hw]]; [done|by apply Hk].
Qed.

Lemma Reserve_ok input quote now ids d s' r :
  keyed d -> Reserve input quote now (ids, d) = Ok (s', r) ->
  (s'.2 = d /\ sameReservationInput r input quote = true
   /\ exists k, reservations d !! k = Some r /\ r_RequestID r = ri_RequestID input)
  \/ reserve_fresh input quote now d r s'.2.
Proof.
  intros Hkd Hr. unfold Reserve in Hr. stmt_inv.
  rename select (optional _ _ = _) into Ho. apply optional_row in Ho as [-> Ho].
  match type of Hr with (match ?o with _ => _ end) _ = _ => destruct o as [existing|] end.
  - left. stmt_inv. apply map_find_Some in Ho as (k & Hk & Hq). apply String.eqb_eq in Hq.
    rename select (negb _ = false) into Hn. apply negb_false_iff in Hn. simpl. eauto.
  - right. apply tx_bind_ok in Hr as (s1 & ? & Hv & Hr). apply validatePublishedPrice_ok in Hv as [-> Hv].
    apply tx_bind_ok in Hr as (s2 & w & Hg & Hr).
    apply getOrCreateWallet_ok in Hg as (ids2 & d1 & k & -> & Hop & Hw & Hu & Hc).
    assert (w_ID w = k) as <- by (by eapply opened_keyed).
    op_inv.
    rename select (checkBudgets _ _ _ _ = _) into Hb. apply checkBudgets_ok in Hb as [-> Hb].
    op_inv. bools. exists d1, w, x10, x16. destruct (opened_frame _ _ _ _ _ Hop) as (F1 & F2 & F3 & F4 & F5 & F6 & F7 & F8).
    split_and!; try done.
    + by destruct Hop.
    + simpl in *. by rewrite <- F1.
    + simpl in *. by rewrite <- F1.
    + solve_effect.
Qed.

(** ** Settle *)
Definition settlement_stored (reservation : Reservation) (event : Event) (actual : Z)
    (status : string) (S : gmap uuid Settlement) (st : Settlement) : Prop :=
  st_Status st = status /\ st_ReservationID st = r_ID reservation
  /\ st_ActualAmount st = Some actual /\ st_UsageEventID st = ev_ID event
  /\ st_ReservedAmount st = r_AmountMinor reservation /\ st_Estimated st = ev_Estimated event
  /\ (forall k o, S !! k = Some o -> st_ReservationID o = r_ID reservation -> k = st_ID st)
  /\ (forall o, S !! st_ID st = Some o ->
       st_ReservationID o = r_ID reservation /\ st_ActualAmount o = Some actual
       /\ st_UsageEventID o = ev_ID event /\ st_ReservedAmount o = r_AmountMinor reservation
       /\ st_Estimated o = ev_Estimated event).

(** What [Settle_tx] knows of the settlement it found. *)
Definition prior_ok (existing : Settlement) (reservation : Reservation) (event : Event)
    (actual : Z) (d : DB) : Prop :=
  st_ID existing = uuid_nil
  \/ (settlements d !! st_ID existing = Some existing
      /\ st_ReservationID existing = r_ID reservation
      /\ settlement_replays existing reservation event actual = true).

Lemma upsert_ok existing reservation event actual status errorClass now ids d s' st :
  res_inv (wallets d) (reservations d) (settlements d) ->
  prior_ok existing reservation event actual d ->
  upsertSettlement existing reservation event actual status errorClass now (ids, d) = Ok (s', st) ->
  exists rest, s' = (rest, set_settlements (<[st_ID st := st]>) d)
    /\ settlement_stored reservation event actual status (settlements d) st.
Proof.
  intros HR Hp Hu. apply upsertSettlement_ok in Hu as (rest & -> & Hs & Hck & Hcase);
    [|destruct Hp; naive_solver].
  exists rest. split; [done|]. unfold settlement_stored.
  destruct Hcase as [(_ & Hf & E1 & E2 & E3 & E4 & E5 & Hun & _)|(Hnn & Hl & EI & ER & EA & EU & EM & EE)].
  - split_and!; try done; [intros k o Hk Ho; by destruct (Hun k o Hk)|].
    intros o Ho. by rewrite Hf in Ho.
  - destruct Hp as [Hnil|(Hx & Hrid & Hrep)].
    { done. }
    unfold settlement_replays in Hrep. bools.
    destruct (st_ActualAmount existing) as [act|] eqn:EAct; [|done]. bools. subst act.
    split_and!; try congruence.
    + intros k o Hk Ho. rewrite EI. apply (si_unique _ _ _ HR _ _ _ _ Hk Hx). congruence.
    + intros o Ho. rewrite EI, Hx in Ho. injection Ho as <-. by split_and!.
Qed.

(** The wallet row of a settlement that stays pending. *)
Lemma settle_pending_ok existing reservation wallet event actual now ids d s' st b :
  res_inv (wallets d) (reservations d) (settlements d) ->
  prior_ok existing reservation event actual d ->
  wallets d !! w_ID wallet = Some wallet ->
  reservations d !! r_ID reservation = Some reservation ->
  settle_pending existing reservation wallet event actual now (ids, d) = Ok (s', (st, b)) ->
  b = true
  /\ settlement_stored reservation event actual SettlementPending (settlements d) st
  /\ effect d
       (<[w_ID wallet := bump_wallet now wallet
            (with_balances (w_Available wallet) (w_Reserved wallet) true wallet)]> (wallets d))
       (<[r_ID reservation := set_reservation_status "settlement_pending" (Some actual)
            (Some (ev_ID event)) "insufficient_funds" now reservation]> (reservations d))
       (<[st_ID st := st]> (settlements d)) (liabilities d) (ledger d) s'.2.
Proof.
  intros HR Hp Hw Hres Hs. unfold settle_pending in Hs. op_inv.
  rename select (upsertSettlement _ _ _ _ _ _ _ _ = _) into Hu.
  apply upsert_ok in Hu as (rest & -> & Hst); [|by apply res_touch|done].
  op_inv.
  split_and!; [done..|]. solve_effect.
Qed.

(** The charge of a settlement in exact arithmetic. *)
Definition settle_extra (reservation : Reservation) (actual : Z) : Z :=
  Z.max 0 (actual - r_AmountMinor reservation).
Definition settle_consumed (reservation : Reservation) (actual : Z) : Z :=
  Z.min actual (r_AmountMinor reservation).
Definition settle_released (reservation : Reservation) (actual : Z) : Z :=
  r_AmountMinor reservation - settle_consumed reservation actual.

(** The entries of a settlement: the charge when there is one, the release when
    part of the hold is left. *)
Definition settle_entries (wallet : Wallet) (reservation : Reservation) (event : Event)
    (actual : Z) (now : time) (es : list LedgerEntry) : Prop :=
  let extra := settle_extra reservation actual in
  let consumed := settle_consumed reservation actual in
  let released := settle_released reservation actual in
  let a := w_Available wallet - extra in
  let r := w_Reserved wallet - consumed in
  exists charge release, es = (charge ++ release)%list
    /\ (if 0 <? actual
        then exists i, charge = [ledger_row (charge_entry wallet event actual extra consumed a r now) i]
        else charge = [])
    /\ (if 0 <? released
        then exists i, release = [ledger_row (settle_release_entry wallet reservation event released
                                               (a + released) (r - released) now) i]
        else release = []).

Lemma optional_post (b : bool) input ids d s' u :
  (if b then insertLedger input;; mret tt else mret tt) (ids, d) = Ok (s', u) ->
  exists rest es, s' = (rest, set_ledger (fun l => (l ++ es)%list) d)
    /\ (if b then exists i, es = [ledger_row input i] else es = []).
Proof.
  intros Hp. destruct b; op_inv.
  - eexists _, [_]. split; [done|]. eexists. by f_equal.
  - exists ids, []. split; [|done]. unfold set_ledger. rewrite app_nil_r. by destruct d.
Qed.

Lemma settle_charge_ok existing reservation wallet event actual now ids d s' st b :
  res_inv (wallets d) (reservations d) (settlements d) ->
  prior_ok existing reservation event actual d ->
  wallets d !! w_ID wallet = Some wallet ->
  reservations d !! r_ID reservation = Some reservation ->
  nat_i64 (w_Available wallet) -> nat_i64 (w_Reserved wallet) -> nat_i64 actual ->
  r_AmountMinor reservation <= w_Reserved wallet ->
  settle_extra reservation actual <= w_Available wallet ->
  settle_charge existing reservation wallet event actual (settle_extra reservation actual) now
    (ids, d) = Ok (s', (st, b)) ->
  b = false
  /\ settlement_stored reservation event actual SettlementSettled (settlements d) st
  /\ w_Available wallet - settle_extra reservation actual + settle_released reservation actual
      <= max_int64
  /\ exists es, settle_entries wallet reservation event actual now es
  /\ effect d
       (<[w_ID wallet := bump_wallet now wallet
            (with_balances
               (w_Available wallet - settle_extra reservation actual
                + settle_released reservation actual)
               (w_Reserved wallet - r_AmountMinor reservation)
               (has_pending_settlement (w_ID wallet) (Some (r_ID reservation)) d
                || has_open_liability (w_ID wallet) d) wallet)]> (wallets d))
       (<[r_ID reservation := set_reservation_status "settled" (Some actual)
            (Some (ev_ID event)) "" now reservation]> (reservations d))
       (<[st_ID st := st]> (settlements d)) (liabilities d) (ledger d ++ es) s'.2.
Proof.
  intros HR Hp Hw Hres Ha Hr Hact Hhold Hextra Hs.
  pose proof (ri_amount _ _ _ HR _ _ Hres) as Hamt.
  unfold settle_charge in Hs.
  replace (if r_AmountMinor reservation <? actual then r_AmountMinor reservation else actual)
    with (settle_consumed reservation actual) in Hs
    by (unfold settle_consumed; case_match; bools; lia).
  assert (0 <= settle_consumed reservation actual <= r_AmountMinor reservation) as Hc
    by (unfold settle_consumed, nat_i64 in *; lia).
  assert (0 <= settle_extra reservation actual) as He by (unfold settle_extra; lia).
  rewrite (i64_sub_id (r_AmountMinor reservation)), (i64_sub_id (w_Available wallet)),
    (i64_sub_id (w_Reserved wallet)) in Hs by (i64_unfold; lia).
  rewrite (i64_sub_id (w_Reserved wallet - _)) in Hs by (i64_unfold; lia).
  fold (settle_released reservation actual) in Hs.
  assert (0 <= settle_released reservation actual) as Hrel by (unfold settle_released; lia).
  assert (w_Reserved wallet - settle_consumed reservation actual
          - settle_released reservation actual = w_Reserved wallet - r_AmountMinor reservation) as HE
    by (unfold settle_released; lia).
  apply tx_bind_ok in Hs as (s1 & final & Hf & Hs). apply tx_lift_ok in Hf as [Hf ->].
  assert (final = w_Available wallet - settle_extra reservation actual
                  + settle_released reservation actual /\ final <= max_int64) as [-> Hmax].
  { destruct (Z.ltb_spec 0 (settle_released reservation actual)).
    - apply checked_add_ok in Hf as [? ?]; i64_unfold; lia.
    - injection Hf as <-. i64_unfold. lia. }
  replace (if 0 <? settle_released reservation actual then _ else _)
    with (w_Reserved wallet - r_AmountMinor reservation) in Hs
    by (case_match; bools; lia).
  op_inv.
  match goal with H : context [charge_entry] |- _ => apply optional_post in H as (? & es1 & -> & Hes1) end.
  match goal with H : context [settle_release_entry] |- _ => apply optional_post in H as (? & es2 & -> & Hes2) end.
  match goal with H : upsertSettlement _ _ _ _ _ _ _ _ = _ |- _ =>
    apply upsert_ok in H as (rest & -> & Hst); [|by apply res_touch|done] end.
  op_inv. split_and!; [done..|]. exists (es1 ++ es2)%list. split.
  - unfold settle_entries. exists es1, es2. split_and!; [done..|]. by rewrite HE.
  - rewrite app_assoc. solve_effect.
Qed.

(** [Settle_tx], branch by branch. *)
Definition settle_replayed (input : SettleInput) (actual : Z) (d : DB) (st : Settlement) (b : bool)
    (d' : DB) : Prop :=
  d' = d /\ b = false /\ st_Status st = SettlementSettled
  /\ exists reservation k, reservations d !! si_ReservationID input = Some reservation
       /\ settlements d !! k = Some st /\ st_ReservationID st = r_ID reservation
       /\ settlement_replays st reservation (si_Event input) actual = true.

Definition settle_waits (input : SettleInput) (actual : Z) (now : time) (d : DB) (st : Settlement)
    (b : bool) (d' : DB) : Prop :=
  exists reservation wallet,
    reservations d !! si_ReservationID input = Some reservation
    /\ event_matches reservation (si_Event input) = true
    /\ held_status (r_Status reservation) = true
    /\ wallets d !! r_WalletID reservation = Some wallet
    /\ r_AmountMinor reservation <= w_Reserved wallet
    /\ w_Available wallet < settle_extra reservation actual
    /\ b = true
    /\ settlement_stored reservation (si_Event input) actual SettlementPending (settlements d) st
    /\ effect d
       (<[w_ID wallet := bump_wallet now wallet
            (with_balances (w_Available wallet) (w_Reserved wallet) true wallet)]> (wallets d))
       (<[r_ID reservation := set_reservation_status "settlement_pending" (Some actual)
            (Some (ev_ID (si_Event input))) "insufficient_funds" now reservation]> (reservations d))
       (<[st_ID st := st]> (settlements d)) (liabilities d) (ledger d) d'.

Definition settle_charges (input : SettleInput) (actual : Z) (now : time) (d : DB) (st : Settlement)
    (b : bool) (d' : DB) : Prop :=
  exists reservation wallet es,
    reservations d !! si_ReservationID input = Some reservation
    /\ event_matches reservation (si_Event input) = true
    /\ held_status (r_Status reservation) = true
    /\ wallets d !! r_WalletID reservation = Some wallet
    /\ r_AmountMinor reservation <= w_Reserved wallet
    /\ settle_extra reservation actual <= w_Available wallet
    /\ w_Available wallet - settle_extra reservation actual + settle_released reservation actual
       <= max_int64
    /\ b = false
    /\ settlement_stored reservation (si_Event input) actual SettlementSettled (settlements d) st
    /\ settle_entries wallet reservation (si_Event input) actual now es
    /\ effect d
       (<[w_ID wallet := bump_wallet now wallet
            (with_balances
               (w_Available wallet - settle_extra reservation actual
                + settle_released reservation actual)
               (w_Reserved wallet - r_AmountMinor reservation)
               (has_pending_settlement (w_ID wallet) (Some (r_ID reservation)) d
                || has_open_liability (w_ID wallet) d) wallet)]> (wallets d))
       (<[r_ID reservation := set_reservation_status "settled" (Some actual)
            (Some (ev_ID (si_Event input))) "" now reservation]> (reservations d))
       (<[st_ID st := st]> (settlements d)) (liabilities d) (ledger d ++ es) d'.

(** The part of [Settle_tx] that follows the replay check. *)
Definition settle_rest (existing : Settlement) (reservation : Reservation) (event : Event)
    (actual : Z) (now : time) : btx (Settlement * bool) :=
  tx_when (String.eqb (r_Status reservation) ReservationSettled) ErrSettlementConflict;;
  tx_when (String.eqb (r_Status reservation) ReservationReleased) ErrReservationConflict;;
  wallet ← mapped (loadWalletByID (r_WalletID reservation));
  tx_when (negb (String.eqb (w_Currency wallet) (r_Currency reservation))) ErrCurrencyMismatch;;
  tx_when (w_Reserved wallet <? r_AmountMinor reservation) ErrSettlementConflict;;
  let extra := if r_AmountMinor reservation <? actual
               then i64_sub actual (r_AmountMinor reservation) else 0 in
  if w_Available wallet <? extra
  then settle_pending existing reservation wallet event actual now
  else settle_charge existing reservation wallet event actual extra now.

Lemma settle_open input actual now ids d s' st b reservation existing :
  Inv d -> nat_i64 actual ->
  reservations d !! si_ReservationID input = Some reservation ->
  event_matches reservation (si_Event input) = true ->
  prior_ok existing reservation (si_Event input) actual d ->
  settle_rest existing reservation (si_Event input) actual now (ids, d) = Ok (s', (st, b)) ->
  settle_waits input actual now d st b s'.2 \/ settle_charges input actual now d st b s'.2.
Proof.
  intros HI Hact Hres Hev Hp Hs. pose proof (inv_res _ HI) as HR. pose proof (inv_books _ HI) as HB.
  assert (r_ID reservation = si_ReservationID input) as Hid by (by apply (ri_keyed _ _ _ HR)).
  rewrite <- Hid in Hres. pose proof (ri_amount _ _ _ HR _ _ Hres) as Hamt.
  unfold settle_rest in Hs.
  replace (if r_AmountMinor reservation <? actual then _ else 0)
    with (settle_extra reservation actual) in Hs
    by (unfold settle_extra; case_match; bools; i64; lia).
  op_inv. unfold loadWalletByID in *.
  match goal with H : (read _ ≫= _) _ = Ok _ |- _ => apply row_ok in H as [-> Hw] end.
  op_inv. bools.
  match type of Hw with _ = Some ?x => rename x into w end.
  assert (w_ID w = r_WalletID reservation) as Hwid by (by apply (bk_keyed _ _ HB)).
  assert (held_status (r_Status reservation) = true) as Hheld.
  { apply held_status_open; [by apply (ri_status _ _ _ HR _ _ Hres)|done..]. }
  destruct (bk_range _ _ HB _ _ Hw) as [Ra Rr].
  rewrite <- Hwid in Hw.
  destruct (Z.ltb_spec (w_Available w) (settle_extra reservation actual)).
  - left. apply settle_pending_ok in Hs as (-> & Hst & He); [|done..].
    exists reservation, w. rewrite <- Hid, <- Hwid. done.
  - right. apply settle_charge_ok in Hs as (-> & Hst & Hmax & es & Hes & He); [|done..].
    exists reservation, w, es. rewrite <- Hid, <- Hwid. done.
Qed.

Lemma Settle_ok input actual now ids d s' st b :
  Inv d -> nat_i64 actual ->
  Settle_tx input actual now (ids, d) = Ok (s', (st, b)) ->
  settle_replayed input actual d st b s'.2
  \/ settle_waits input actual now d st b s'.2
  \/ settle_charges input actual now d st b s'.2.
Proof.
  intros HI Hact Hs. pose proof (inv_res _ HI) as HR. pose proof (inv_books _ HI) as HB.
  unfold Settle_tx in Hs. apply tx_bind_ok in Hs as (s1 & o & Ho & Hs).
  apply optional_row in Ho as [-> Hres]. destruct o as [reservation|]; [|done].
  assert (r_ID reservation = si_ReservationID input) as Hid by (by apply (ri_keyed _ _ _ HR)).
  op_inv. bools.
  match type of Hs with context [map_find ?p ?m] => destruct (map_find p m) as [prior|] eqn:Hprior end.
  - apply map_find_Some in Hprior as (k & Hk & Hrid). bools.
    assert (st_ID prior = k) as Hkid by (by apply (si_keyed _ _ _ HR)).
    rewrite bool_decide_true in * by done. simpl in *.
    destruct (String.eqb_spec (st_Status prior) SettlementSettled) as [Hset|Hset].
    { left. op_inv. bools. split_and!; [done..|]. exists reservation, (st_ID st). done. }
    right. bools.
    apply (settle_open input actual now ids d s' st b reservation prior); try done.
    right. subst k. done.
  - rewrite bool_decide_false in * by (by intros [? ?]). simpl in *. right.
    apply (settle_open input actual now ids d s' st b reservation zero_settlement); try done.
    by left.
Qed.

(** ** Release *)
Definition release_effect (input : ReleaseInput) (now : time) (d d' : DB) : Prop :=
  exists reservation w availableAfter e,
    reservations d !! rel_ReservationID input = Some reservation
    /\ r_Status reservation = ReservationReserved
    /\ wallets d !! w_ID w = Some w /\ w_ID w = r_WalletID reservation
    /\ r_AmountMinor reservation <= w_Reserved w
    /\ availableAfter = w_Available w + r_AmountMinor reservation /\ availableAfter <= max_int64
    /\ e = ledger_row (release_entry w reservation availableAfter
                         (w_Reserved w - r_AmountMinor reservation) now) (le_ID e)
    /\ effect d
         (<[w_ID w := bump_wallet now w
              (set_balances availableAfter (w_Reserved w - r_AmountMinor reservation) d w)]>
            (wallets d))
         (<[r_ID reservation := set_reservation_status "released"
              (r_SettledAmountMinor reservation) (r_UsageEventID reservation)
              (rel_Reason input) now reservation]> (reservations d))
         (settlements d) (liabilities d) (ledger d ++ [e]) d'.

Lemma Release_ok input now ids d s' u :
  Inv d -> Release_tx input now (ids, d) = Ok (s', u) ->
  (s'.2 = d /\ exists r, reservations d !! rel_ReservationID input = Some r
                /\ r_Status r = ReservationReleased)
  \/ release_effect input now d s'.2.
Proof.
  intros HI Hs. pose proof (inv_res _ HI) as HR. pose proof (inv_books _ HI) as HB.
  unfold Release_tx in Hs. apply tx_bind_ok in Hs as (s1 & o & Ho & Hs).
  apply optional_row in Ho as [-> Hres]. destruct o as [reservation|]; [|done].
  assert (r_ID reservation = rel_ReservationID input) as Hid by (by apply (ri_keyed _ _ _ HR)).
  destruct (String.eqb_spec (r_Status reservation) ReservationReleased) as [Hrel|Hrel].
  { left. op_inv. eauto. }
  right. rewrite <- Hid in Hres. pose proof (ri_amount _ _ _ HR _ _ Hres) as Hamt.
  op_inv. unfold loadWalletByID in *.
  match goal with H : (read _ ≫= _) _ = Ok _ |- _ => apply row_ok in H as [-> Hw] end.
  match type of Hw with _ = Some ?x => rename x into w end.
  assert (w_ID w = r_WalletID reservation) as Hwid by (by apply (bk_keyed _ _ HB)).
  destruct (bk_range _ _ HB _ _ Hw) as [Ra Rr]. rewrite <- Hwid in Hw.
  op_inv. bools.
  match goal with H : checked_add _ _ = Ok _ |- _ =>
    apply checked_add_ok in H as [-> Hmax]; [|i64_unfold; lia..] end.
  rewrite (i64_sub_id (w_Reserved w)) in * by (i64_unfold; lia).
  eexists reservation, w, _, _. rewrite <- Hid.
  split_and!; [done..|i64_unfold; lia|eassumption|]. solve_effect.
Qed.

(** ** Liability recovery *)
Definition outstanding (l : Liability) : Z := l_Principal l - l_Recovered l.

(** The recoveries [recover_each] makes: oldest first, each as much as is left. *)
Fixpoint recover_plan (available : Z) (ls : list Liability) : list (Liability * Z) :=
  match ls with
  | [] => []
  | l :: rest =>
      if available =? 0 then [] else
      let r := Z.min available (outstanding l) in (l, r) :: recover_plan (available - r) rest
  end.

Definition recovered_row (now : time) (l : Liability) (r : Z) : Liability :=
  liability_row l (l_Recovered l + r)
    (if l_Recovered l + r =? l_Principal l then "settled" else "open") now.

Definition apply_plan (now : time) (plan : list (Liability * Z)) (L : Liabilities) : Liabilities :=
  foldl (fun L lr => <[l_ID lr.1 := recovered_row now lr.1 lr.2]> L) L plan.

Definition plan_entry (wid : uuid) (lr : Liability * Z) (e : LedgerEntry) : Prop :=
  le_WalletID e = wid /\ le_EntryType e = EntryPaymentLiability
  /\ le_AmountMinor e = - lr.2 /\ le_AvailableDelta e = - lr.2 /\ le_ReservedDelta e = 0
  /\ le_ReferenceID e = uuid_string (l_ID lr.1).

Definition open_list (wid : uuid) (L : Liabilities) (ls : list Liability) : Prop :=
  NoDup (l_ID <$> ls)
  /\ forall l, l ∈ ls -> L !! l_ID l = Some l /\ liability_ok l /\ l_Status l = "open"
                       /\ l_WalletID l = wid.

Lemma open_list_cons wid L l ls x :
  open_list wid L (l :: ls) -> open_list wid (<[l_ID l := x]> L) ls.
Proof.
  intros [Hnd Hall]. rewrite fmap_cons in Hnd. apply NoDup_cons in Hnd as [Hni Hnd].
  split; [done|]. intros l' Hl'. destruct (Hall l') as (Hlk & ?); [by apply elem_of_cons; right|].
  split; [|done]. rewrite lookup_insert_ne; [done|]. intros Heq. apply Hni. rewrite Heq.
  by apply list_elem_of_fmap_2.
Qed.

Lemma recover_each_ok wallet src now ls available ids d s' final :
  nat_i64 available -> nat_i64 (w_Reserved wallet) ->
  open_list (w_ID wallet) (liabilities d) ls ->
  recover_each wallet src now ls available (ids, d) = Ok (s', final) ->
  let plan := recover_plan available ls in
  final = available - lsum snd plan /\ nat_i64 final
  /\ exists rest es d', s' = (rest, d')
       /\ effect d (wallets d) (reservations d) (settlements d)
            (apply_plan now plan (liabilities d)) (ledger d ++ es) d'
       /\ chain (w_ID wallet) available (w_Reserved wallet) es final (w_Reserved wallet)
       /\ Forall2 (plan_entry (w_ID wallet)) plan es.
Proof.
  intros Ha Hr. revert available ids d Ha.
  induction ls as [|l ls IH]; intros available ids d Ha Hol Hs; simpl in Hs.
  { op_inv. simpl. split_and!; [lia|i64_unfold; lia..|]. exists ids, [], d.
    rewrite app_nil_r. split_and!; try done; solve_effect. }
  simpl. destruct (Z.eqb_spec available 0) as [->|Hne].
  { op_inv. simpl. split_and!; [lia|i64_unfold; lia..|]. exists ids, [], d.
    rewrite app_nil_r. split_and!; try done; solve_effect. }
  destruct (proj2 Hol l ltac:(apply list_elem_of_here)) as (Hlk & Hok & Hopen & Hwid).
  destruct Hok as (HP & HRc & Hst).
  assert (l_Recovered l < l_Principal l) as Hlt
    by (destruct Hst as [[_ ?]|[[Hc _]|Hc]]; [done|by rewrite Hopen in Hc..]).
  rewrite (i64_sub_id (l_Principal l)) in Hs by (i64_unfold; lia).
  replace (if available <? l_Principal l - l_Recovered l then available
           else l_Principal l - l_Recovered l)
    with (Z.min available (outstanding l)) in Hs by (unfold outstanding; case_match; bools; lia).
  assert (0 < Z.min available (outstanding l) <= available
          /\ Z.min available (outstanding l) <= l_Principal l - l_Recovered l) as [Hm1 Hm2]
    by (unfold outstanding, nat_i64 in *; lia).
  set (r := Z.min available (outstanding l)) in *.
  rewrite (i64_sub_id available), (i64_add_id (l_Recovered l)), (i64_neg_id r) in Hs
    by (i64_unfold; lia).
  op_inv.
  apply IH in Hs as (Ef & Hf & rest & es & d' & -> & Heff & Hch & Hpl);
    [|i64_unfold; lia|by apply open_list_cons].
  split_and!; [simpl; lia|done|]. exists rest, (x0 :: es), d'. split; [done|].
  split; [|split].
  - rewrite cons_middle, app_assoc. eapply effect_trans; [|exact Heff]. solve_effect.
  - simpl. rewrite He. simpl. split_and!; [done|lia|lia|].
    rewrite <- (Z.add_opp_r available r) in Hch. by rewrite Z.add_opp_r in *.
  - constructor; [|done]. unfold plan_entry. rewrite He. simpl. done.
Qed.

Lemma NoDup_fmap_filter {A B} (f : A -> B) (P : A -> Prop) `{!forall x, Decision (P x)} l :
  NoDup (f <$> l) -> NoDup (f <$> filter P l).
Proof.
  induction l as [|x l IH]; [done|]. rewrite fmap_cons. intros [Hx Hl]%NoDup_cons.
  rewrite filter_cons. case_decide; [|by apply IH]. rewrite fmap_cons. apply NoDup_cons.
  split; [|by apply IH]. intros (y & Heq & [_ Hy]%list_elem_of_filter)%list_elem_of_fmap.
  apply Hx. rewrite Heq. by apply list_elem_of_fmap_2.
Qed.

Lemma open_liabilities_elem wid d l :
  l ∈ open_liabilities wid d <->
  (exists k, liabilities d !! k = Some l) /\ l_WalletID l = wid /\ l_Status l = "open".
Proof.
  unfold open_liabilities. rewrite merge_sort_Permutation, list_elem_of_filter.
  rewrite andb_true_iff, uuid_eqb_eq, String.eqb_eq, list_elem_of_fmap.
  split.
  - intros [[? ?] ([k l'] & -> & Hin)]. split; [|done]. exists k. by apply elem_of_map_to_list.
  - intros [[k Hk] ?]. split; [done|]. exists (k, l). split; [done|]. by apply elem_of_map_to_list.
Qed.

Lemma open_liabilities_list wid d :
  liab_inv (wallets d) (liabilities d) -> open_list wid (liabilities d) (open_liabilities wid d).
Proof.
  intros HL. split.
  - unfold open_liabilities. rewrite merge_sort_Permutation. apply NoDup_fmap_filter.
    rewrite <- list_fmap_compose.
    rewrite (list_fmap_ext _ fst); [apply NoDup_fst_map_to_list|].
    intros i [k l] Hin. simpl. apply (lb_keyed _ _ HL). apply elem_of_map_to_list.
    by eapply list_elem_of_lookup_2.
  - intros l ([k Hk] & Hw & Hs)%open_liabilities_elem.
    rewrite (lb_keyed _ _ HL _ _ Hk). split_and!; try done. by apply (lb_ok _ _ HL k).
Qed.

(** [recoverWalletLiabilities] on the wallet row [w0]. *)
Definition recovery_effect (w0 : Wallet) (now : time) (d d' : DB) : Prop :=
  let plan := recover_plan (w_Available w0) (open_liabilities (w_ID w0) d) in
  let L' := apply_plan now plan (liabilities d) in
  exists es,
    nat_i64 (w_Available w0 - lsum snd plan)
    /\ chain (w_ID w0) (w_Available w0) (w_Reserved w0) es
         (w_Available w0 - lsum snd plan) (w_Reserved w0)
    /\ Forall2 (plan_entry (w_ID w0)) plan es
    /\ effect d
         (<[w_ID w0 := bump_wallet now w0
              (with_balances (w_Available w0 - lsum snd plan) (w_Reserved w0)
                 (open_on (w_ID w0) L' || pending_on (w_ID w0) (reservations d)) w0)]> (wallets d))
         (reservations d) (settlements d) L' (ledger d ++ es) d'.

Lemma recoverWalletLiabilities_ok wallet available src now ids d s' u w0 :
  Inv d -> wallets d !! w_ID w0 = Some w0 -> w_ID wallet = w_ID w0 ->
  w_Reserved wallet = w_Reserved w0 -> available = w_Available w0 ->
  recoverWalletLiabilities wallet available src now (ids, d) = Ok (s', u) ->
  (s'.2 = d /\ open_liabilities (w_ID w0) d = []) \/ recovery_effect w0 now d s'.2.
Proof.
  intros HI Hw Hid Hres -> Hs. pose proof (inv_res _ HI) as HR.
  destruct (bk_range _ _ (inv_books _ HI) _ _ Hw) as [Ra Rr].
  unfold recoverWalletLiabilities in Hs. op_inv. rewrite Hid in *.
  destruct (open_liabilities (w_ID w0) d) as [|l ls] eqn:Hls; [left; by op_inv|right].
  rewrite <- Hls in Hs. op_inv.
  match goal with H : recover_each _ _ _ _ _ _ = _ |- _ =>
    apply recover_each_ok in H as (-> & Hf & rest & es & d2 & -> & Heff & Hch & Hpl);
      [|done|by rewrite Hres|rewrite Hid; by apply open_liabilities_list, inv_liab] end.
  unfold recovery_effect. exists es. rewrite Hid, Hres in *.
  destruct Heff as (E1 & E2 & E3 & E4 & E5 & E6 & E7 & E8 & E9).
  assert (wallets d2 !! w_ID w0 = Some w0) as Hw2 by (by rewrite E1).
  op_inv. split_and!; [done..|]. 
  unfold set_available_and_hold. rewrite has_pending_settlement_on by congruence.
  change (has_open_liability (w_ID w0) d2) with (open_on (w_ID w0) (liabilities d2)).
  rewrite E4, E2. solve_effect.
Qed.

(** The wallet [getOrCreateWallet] returns, on rows that satisfy the invariant. *)
Lemma wallet_opened_ok u c now ids d s1 w :
  Inv d -> getOrCreateWallet u c now (ids, d) = Ok (s1, w) ->
  exists ids2 d1, s1 = (ids2, d1) /\ opened u c now d d1 /\ Inv d1
    /\ wallets d1 !! w_ID w = Some w /\ w_UserID w = u /\ w_Currency w = c
    /\ nat_i64 (w_Available w) /\ nat_i64 (w_Reserved w)
    /\ reservations d1 = reservations d /\ settlements d1 = settlements d
    /\ liabilities d1 = liabilities d /\ ledger d1 = ledger d /\ usage_events d1 = usage_events d
    /\ price_versions d1 = price_versions d /\ outbox d1 = outbox d /\ audit_logs d1 = audit_logs d.
Proof.
  intros HI (ids2 & d1 & k & -> & Hop & Hw & Hu & Hc)%getOrCreateWallet_ok.
  assert (Inv d1) as HI1 by (by eapply Inv_opened).
  assert (w_ID w = k) as <- by (by apply (bk_keyed _ _ (inv_books _ HI1))).
  destruct (bk_range _ _ (inv_books _ HI1) _ _ Hw). exists ids2, d1.
  split_and!; try done; by destruct Hop.
Qed.

(** Takes the first statement of an operation that opens its wallet. *)
Ltac open_wallet Hs :=
  let s1 := fresh "s1" in let Hg := fresh "Hg" in
  apply tx_bind_ok in Hs as (s1 & w & Hg & Hs);
  apply wallet_opened_ok in Hg as
    (ids2 & d1 & -> & Hop & HI1 & Hw & Hu & Hc & Ra & Rr & F1 & F2 & F3 & F4 & F5 & F6 & F7 & F8);
  [|done].

(** ** Credits *)
Definition set_available (available : Z) : Wallet -> Wallet :=
  fun w => with_balances available (w_Reserved w) (w_FinancialHold w) w.

(** The posting of a credit, before any liability is recovered from it. *)
Definition credit_posted (input : CreditInput) (now : time) (d : DB) (w : Wallet) (e : LedgerEntry)
    (d2 : DB) : Prop :=
  exists d1,
    opened (cr_UserID input) (cr_Currency input) now d d1
    /\ wallets d1 !! w_ID w = Some w
    /\ w_UserID w = cr_UserID input /\ w_Currency w = cr_Currency input
    /\ 0 <= w_Available w + cr_AmountMinor input <= max_int64
    /\ w_Status w <> "closed" /\ (w_Status w = "frozen" -> 0 <= cr_AmountMinor input)
    /\ List.find (wallet_key (w_ID w) (cr_IdempotencyKey input)) (ledger d) = None
    /\ e = ledger_row (credit_entry w input (w_Available w + cr_AmountMinor input) now) (le_ID e)
    /\ effect d
         (<[w_ID w := bump_wallet now w (set_available (w_Available w + cr_AmountMinor input) w)]>
            (wallets d1))
         (reservations d) (settlements d) (liabilities d) (ledger d ++ [e]) d2.

(** A wallet that has a ledger entry was not opened by this transaction. *)
Lemma opened_with_entry u c now d d1 k w key e :
  opened u c now d d1 -> books (wallets d) (ledger d) ->
  wallets d1 !! k = Some w -> w_UserID w = u -> w_Currency w = c ->
  List.find (wallet_key k key) (ledger d) = Some e -> d1 = d.
Proof.
  intros Ho HB Hw Hu Hc Hf. destruct Ho as [|i Hi Hown]; [done|exfalso].
  apply List.find_some in Hf as [Hin Hk]. unfold wallet_key in Hk. bools. subst k.
  destruct (bk_known _ _ HB e) as [w0 Hw0]; [by apply list_elem_of_In|]. simpl in Hw.
  rewrite lookup_insert_ne in Hw by congruence.
  specialize (Hown _ _ Hw). unfold wallet_owned in Hown.
  by rewrite Hu, Hc, uuid_eqb_refl, String.eqb_refl in Hown.
Qed.

Lemma CreditInTx_ok input now ids d s' e :
  Inv d -> in_i64 (cr_AmountMinor input) ->
  CreditInTx input now (ids, d) = Ok (s', e) ->
  (exists w, s'.2 = d /\ credit_replays e input = true
     /\ wallets d !! w_ID w = Some w /\ w_UserID w = cr_UserID input /\ w_Currency w = cr_Currency input
     /\ List.find (wallet_key (w_ID w) (cr_IdempotencyKey input)) (ledger d) = Some e)
  \/ exists w d2 d3 ids2 ids3,
       credit_posted input now d w e d2
       /\ recoverWalletLiabilities w (w_Available w + cr_AmountMinor input) (le_ID e) now (ids2, d2)
          = Ok ((ids3, d3), tt)
       /\ s'.2 = d3.
Proof.
  intros HI Hamt Hs. unfold CreditInTx in Hs.
  open_wallet Hs.
  apply tx_bind_ok in Hs as (s1 & o & Ho & Hs). apply optional_row in Ho as [-> Ho].
  destruct o as [existing|].
  - left. op_inv. bools. exists w.
    assert (d1 = d) as ->.
    { eapply opened_with_entry; try done; [by apply inv_books|by rewrite <- F4]. }
    done.
  - right. op_inv. bools.
    match goal with H : checked_add _ _ = Ok _ |- _ =>
      apply checked_add_ok in H as [-> Hmax]; [|i64_unfold; lia..] end.
    match goal with H : (match cr_OperatorUserID input with _ => _ end) _ = Ok (?s, _) |- _ =>
      assert (exists ids3 l, s = (ids3, set_audit_logs (fun o => (o ++ l)%list)
        (set_ledger (fun g => (g ++ [e])%list) (set_wallets
          <[w_ID w := bump_wallet now w (set_available (w_Available w + cr_AmountMinor input) w)]> d1))))
        as (ids3 & auds & ->) end.
    { destruct (cr_OperatorUserID input); [by op_inv; eauto|]. op_inv.
      eexists _, []. f_equal. unfold set_audit_logs. simpl. by rewrite app_nil_r. }
    op_inv.
    match goal with H : recoverWalletLiabilities _ _ _ _ (?i, ?x) = Ok (?s, ?u) |- _ =>
      destruct s as [ids5 d3], u; exists w, x, d3, i, ids5; split_and!; [|exact H|done] end.
    exists d1. split_and!; try done.
    + i64_unfold; lia.
    + intros Hfr. rename select (String.eqb _ _ && _ = false) into Hb.
      rewrite Hfr in Hb. simpl in Hb. bools. lia.
    + by rewrite <- F4.
    + solve_effect.
Qed.

(** ** Liabilities *)
Definition liability_opened (input : LiabilityInput) (now : time) (d : DB) (l : Liability) (d' : DB)
    : Prop :=
  exists d1 w es,
    opened (li_UserID input) (li_Currency input) now d d1
    /\ wallets d1 !! w_ID w = Some w
    /\ w_UserID w = li_UserID input /\ w_Currency w = li_Currency input
    /\ l_WalletID l = w_ID w /\ liabilities d !! l_ID l = None
    /\ l_Principal l = li_AmountMinor input
    /\ l_Recovered l = Z.min (w_Available w) (li_AmountMinor input)
    /\ l_Status l = (if l_Recovered l <? l_Principal l then "open" else "settled")
    /\ l_ReferenceType l = li_ReferenceType input /\ l_ReferenceID l = li_ReferenceID input
    /\ chain (w_ID w) (w_Available w) (w_Reserved w) es
         (w_Available w - l_Recovered l) (w_Reserved w)
    /\ (forall e, e ∈ es -> le_EntryType e = EntryPaymentLiability)
    /\ exists l0, (forall i, with_recovery i l0 = with_recovery i l) /\ l_RecoveryLedgerID l0 = None
    /\ effect d
         (<[w_ID w := bump_wallet now w
              (set_available_or_hold (w_Available w - l_Recovered l)
                 (String.eqb (l_Status l) "open") d1 w)]> (wallets d1))
         (reservations d) (settlements d) (<[l_ID l := l0]> (liabilities d))
         (ledger d ++ es) d'.

Lemma OpenLiability_ok input now ids d s' l :
  Inv d -> 0 < li_AmountMinor input <= max_int64 ->
  OpenLiabilityInTx input now (ids, d) = Ok (s', l) ->
  (s'.2 = d /\ sameLiabilityInput l input = true /\ exists k, liabilities d !! k = Some l)
  \/ liability_opened input now d l s'.2.
Proof.
  intros HI Hamt Hs. unfold OpenLiabilityInTx in Hs.
  apply tx_bind_ok in Hs as (s1 & o & Ho & Hs). apply optional_row in Ho as [-> Ho].
  destruct o as [existing|].
  { left. op_inv. unfold loadWalletByID in *.
    match goal with H : (read _ ≫= _) _ = Ok _ |- _ => apply row_ok in H as [-> Hw] end.
    op_inv. bools. apply map_find_Some in Ho as (k & Hk & _). eauto. }
  right. open_wallet Hs.
  replace (if w_Available w <? li_AmountMinor input then w_Available w else li_AmountMinor input)
    with (Z.min (w_Available w) (li_AmountMinor input)) in Hs
    by (destruct (Z.ltb_spec (w_Available w) (li_AmountMinor input)); lia).
  assert (0 <= Z.min (w_Available w) (li_AmountMinor input) <= w_Available w
          /\ Z.min (w_Available w) (li_AmountMinor input) <= li_AmountMinor input) as Hm
    by (i64_unfold; lia).
  set (r := Z.min (w_Available w) (li_AmountMinor input)) in *.
  rewrite (i64_sub_id (w_Available w) r), (i64_neg_id r) in Hs by (i64_unfold; lia).
  op_inv.
  match goal with H : insert_liability _ _ = _ |- _ =>
    apply insert_liability_ok in H as (-> & -> & Hfr & _ & _) end.
  op_inv. simpl in *.
  destruct (Z.ltb_spec 0 r); op_inv.
  - match goal with H : ?x = ledger_row _ _ |- _ => rename x into e0 end.
    unfold liability_opened. exists d1, w, [e0]. simpl. rewrite <- F3.
    split_and!; try done; try (rewrite He; simpl; (done || lia)).
    + intros e [->|He']%elem_of_cons; [by rewrite He|by apply elem_of_nil in He'].
    + eexists. split; [|split; [|rewrite <- F1, <- F2, <- F4; solve_effect]]; done.
  - unfold liability_opened. exists d1, w, []. simpl. rewrite <- F3. split_and!; try done; [lia|..].
    + intros e He'. by apply elem_of_nil in He'.
    + eexists. split; [|split; [|rewrite <- F1, <- F2, <- F4, app_nil_r; solve_effect]]; done.
Qed.

(** The reversal of a liability, before other liabilities are recovered from the
    returned amount. *)
Definition liability_reversed (liabilityID : uuid) (now : time) (d : DB) (l : Liability)
    (w : Wallet) (d2 : DB) : Prop :=
  let L' := <[l_ID l := liability_row l (l_Recovered l) "reversed" now]> (liabilities d) in
  exists es,
    liabilities d !! liabilityID = Some l /\ l_ID l = liabilityID /\ l_Status l <> "reversed"
    /\ wallets d !! w_ID w = Some w /\ l_WalletID l = w_ID w
    /\ w_Available w + l_Recovered l <= max_int64
    /\ chain (w_ID w) (w_Available w) (w_Reserved w) es
         (w_Available w + l_Recovered l) (w_Reserved w)
    /\ (forall e, e ∈ es -> le_EntryType e = EntryPaymentLiability)
    /\ effect d
         (<[w_ID w := bump_wallet now w
              (with_balances (w_Available w + l_Recovered l) (w_Reserved w)
                 (open_on (w_ID w) L' || pending_on (w_ID w) (reservations d)) w)]> (wallets d))
         (reservations d) (settlements d) L' (ledger d ++ es) d2.

Lemma ReverseLiability_ok liabilityID now ids d s' v :
  Inv d ->
  ReverseLiabilityInTx liabilityID now (ids, d) = Ok (s', v) ->
  (s'.2 = d /\ liabilities d !! liabilityID = Some v /\ l_Status v = "reversed")
  \/ exists l w src d2 d3 ids2 ids3,
       liability_reversed liabilityID now d l w d2
       /\ (if 0 <? l_Recovered l
           then recoverWalletLiabilities
                  (with_balances (w_Available w + l_Recovered l) (w_Reserved w) (w_FinancialHold w) w)
                  (w_Available w + l_Recovered l) src now (ids2, d2) = Ok ((ids3, d3), tt)
           else d3 = d2)
       /\ effect d3 (wallets d3) (reservations d3) (settlements d3) (liabilities d3) (ledger d3) s'.2.
Proof.
  intros HI Hs. pose proof (inv_liab _ HI) as HL. pose proof (inv_books _ HI) as HB.
  unfold ReverseLiabilityInTx in Hs.
  apply tx_bind_ok in Hs as (s1 & o & Ho & Hs). apply optional_row in Ho as [-> Hl].
  destruct o as [l|]; [|done].
  destruct (String.eqb_spec (l_Status l) "reversed") as [Hrev|Hrev].
  { left. by op_inv. }
  right. assert (l_ID l = liabilityID) as <- by (by apply (lb_keyed _ _ HL)).
  destruct (lb_ok _ _ HL _ _ Hl) as (HP & HRc & _).
  unfold loadWalletByID in Hs. op_inv.
  match goal with H : row _ _ = Ok _ |- _ => apply row_Some in H as [-> Hw] end.
  match type of Hw with _ = Some ?x => rename x into w end.
  assert (w_ID w = l_WalletID l) as Hwid by (by apply (bk_keyed _ _ HB)).
  destruct (bk_range _ _ HB _ _ Hw) as [Ra Rr]. rewrite <- Hwid in Hw.
  op_inv.
  match goal with H : checked_add _ _ = Ok _ |- _ =>
    apply checked_add_ok in H as [-> Hmax]; [|i64_unfold; lia..] end.
  set (L' := <[l_ID l := liability_row l (l_Recovered l) "reversed" now]> (liabilities d)).
  match goal with H : (if 0 <? l_Recovered l then _ else mret _) (?i, ?d0) = Ok (?s, ?vs) |- _ =>
    assert (exists ids1 es, s = (ids1, set_ledger (fun g => (g ++ es)%list) d0)
      /\ chain (w_ID w) (w_Available w) (w_Reserved w) es
           (w_Available w + l_Recovered l) (w_Reserved w)
      /\ (forall e, e ∈ es -> le_EntryType e = EntryPaymentLiability))
      as (ids1 & es & -> & Hch & Hty);
    [destruct (Z.ltb_spec 0 (l_Recovered l)); clear Hs|destruct vs as [value src]] end.
  { op_inv. eexists _, [_]. split; [done|]. split.
    - rewrite He. simpl. split_and!; [done|lia..].
    - intros e [->|He']%elem_of_cons; [by rewrite He|by apply elem_of_nil in He']. }
  { op_inv. exists ids, []. split; [|split; [simpl; lia|by intros e He%elem_of_nil]].
    unfold set_ledger. simpl. rewrite app_nil_r. by destruct d. }
  op_inv. eexists l, w, src.
  match goal with H : (if 0 <? l_Recovered l then _ else _) (?i, ?d2) = Ok (?x, ?u) |- _ =>
    destruct x as [ids3 d3], u; exists d2, d3, i, ids3; rename H into Hrec end.
  op_inv. split_and!.
  - exists es. split_and!; try done; [i64_unfold; lia|].
    unfold set_available_and_hold. rewrite has_pending_settlement_on by apply (inv_res _ HI).
    change (has_open_liability (w_ID w) ?x) with (open_on (w_ID w) (liabilities x)).
    simpl. fold L'. solve_effect.
  - destruct (0 <? l_Recovered l); [done|]. by injection Hrec as <- <-.
  - solve_effect.
Qed.

(** ** Payment refunds *)
Lemma normalizePaymentRefundInput_ok input n :
  normalizePaymentRefundInput input = Ok n ->
  pr_AmountMinor n = pr_AmountMinor input /\ 0 < pr_AmountMinor n
  /\ pr_PaymentOrderID n = pr_PaymentOrderID input.
Proof.
  unfold normalizePaymentRefundInput. repeat case_match; intros [= <-]; simpl. bools.
  split_and!; [done|lia|done].
Qed.

(** One refund operation posts one entry of type [t] that moves [da] and [dr]. *)
Definition refund_posted (n : PaymentRefundInput) (now : time) (t key : string) (amount da dr : Z)
    (d : DB) (w : Wallet) (e : LedgerEntry) (d' : DB) : Prop :=
  exists d1,
    opened (pr_UserID n) (pr_Currency n) now d d1
    /\ wallets d1 !! w_ID w = Some w
    /\ w_UserID w = pr_UserID n /\ w_Currency w = pr_Currency n
    /\ nat_i64 (w_Available w + da) /\ nat_i64 (w_Reserved w + dr)
    /\ List.find (wallet_key (w_ID w) key) (ledger d) = None
    /\ e = ledger_row (refund_entry w n t amount da dr (w_Available w + da) (w_Reserved w + dr) key now)
             (le_ID e)
    /\ effect d
         (<[w_ID w := bump_wallet now w (with_balances (w_Available w + da) (w_Reserved w + dr)
                                          (w_FinancialHold w) w)]> (wallets d1))
         (reservations d) (settlements d) (liabilities d) (ledger d ++ [e]) d'.

Definition refund_replayed (n : PaymentRefundInput) (t key : string) (amount : Z) (d : DB)
    (e : LedgerEntry) (d' : DB) : Prop :=
  d' = d /\ samePaymentRefundEntry e t n amount = true
  /\ exists k, List.find (wallet_key k key) (ledger d) = Some e.

Lemma refund_trail_ok n w e t et key ids d s' e' :
  refund_trail n w e t et key (ids, d) = Ok (s', e') ->
  e' = e /\ effect d (wallets d) (reservations d) (settlements d) (liabilities d) (ledger d) s'.2.
Proof.
  unfold refund_trail, auditPaymentRefundLedger. intros Hs. op_inv. split; [done|]. solve_effect.
Qed.

Lemma HoldPaymentRefund_ok input now ids d s' e :
  Inv d -> in_i64 (pr_AmountMinor input) ->
  HoldPaymentRefundInTx input now (ids, d) = Ok (s', e) ->
  exists n, normalizePaymentRefundInput input = Ok n /\
    let key := paymentRefundLedgerKey "hold" (pr_PaymentOrderID n) in
    let amount := pr_AmountMinor n in
    refund_replayed n EntryPaymentRefundHold key amount d e s'.2
    \/ exists w, w_Status w = "active" /\
         refund_posted n now EntryPaymentRefundHold key amount (- amount) amount d w e s'.2.
Proof.
  intros HI Hamt Hs. unfold HoldPaymentRefundInTx in Hs.
  destruct (normalizePaymentRefundInput input) as [n|] eqn:Hn; [|done].
  exists n. split; [done|]. apply normalizePaymentRefundInput_ok in Hn as (En & Hpos & _).
  open_wallet Hs.
  apply tx_bind_ok in Hs as (s1 & o & Ho & Hs). apply optional_row in Ho as [-> Ho].
  destruct o as [existing|].
  - left. op_inv. bools. unfold refund_replayed. split_and!; [|done|exists (w_ID w); by rewrite <- F4].
    eapply opened_with_entry; try done; [by apply inv_books|by rewrite <- F4].
  - right. op_inv. bools.
    match goal with H : checked_add _ _ = Ok _ |- _ =>
      apply checked_add_ok in H as [-> Hmax]; [|i64_unfold; lia..] end.
    rewrite (i64_sub_id (w_Available w)), (i64_neg_id (pr_AmountMinor n)) in * by (i64_unfold; lia).
    op_inv.
    match goal with H : refund_trail _ _ _ _ _ _ _ = _ |- _ =>
      apply refund_trail_ok in H as [-> Heff] end.
    exists w. split; [done|]. exists d1. rewrite <- !Z.add_opp_r in *.
    rewrite <- F1, <- F2, <- F3, <- F4.
    split_and!; try done; [i64_unfold; lia..|]. eapply effect_trans; [|exact Heff]. solve_effect.
Qed.

Definition refund_held (n : PaymentRefundInput) (walletID : uuid) (d : DB) : Prop :=
  exists h, List.find (wallet_key walletID (paymentRefundLedgerKey "hold" (pr_PaymentOrderID n)))
              (ledger d) = Some h
    /\ samePaymentRefundEntry h EntryPaymentRefundHold n (pr_AmountMinor n) = true.

Lemma requirePaymentRefundHold_ok walletID n ids d s' u :
  requirePaymentRefundHold walletID n (ids, d) = Ok (s', u) ->
  s' = (ids, d) /\ refund_held n walletID d.
Proof.
  unfold requirePaymentRefundHold. intros Hs. apply tx_bind_ok in Hs as (s1 & o & Ho & Hs).
  apply optional_row in Ho as [-> Ho]. destruct o as [h|]; [|done]. stmt_inv. bools.
  split; [done|]. by exists h.
Qed.

Lemma CompletePaymentRefund_ok input now ids d s' e :
  Inv d -> in_i64 (pr_AmountMinor input) ->
  CompletePaymentRefundInTx input now (ids, d) = Ok (s', e) ->
  exists n, normalizePaymentRefundInput input = Ok n /\
    let key := paymentRefundLedgerKey "complete" (pr_PaymentOrderID n) in
    let amount := pr_AmountMinor n in
    refund_replayed n EntryPaymentReversal key (- amount) d e s'.2
    \/ exists w, refund_held n (w_ID w) d /\
         refund_posted n now EntryPaymentReversal key (- amount) 0 (- amount) d w e s'.2.
Proof.
  intros HI Hamt Hs. unfold CompletePaymentRefundInTx in Hs.
  destruct (normalizePaymentRefundInput input) as [n|] eqn:Hn; [|done].
  exists n. split; [done|]. apply normalizePaymentRefundInput_ok in Hn as (En & Hpos & _).
  open_wallet Hs.
  apply tx_bind_ok in Hs as (s1 & o & Ho & Hs). apply optional_row in Ho as [-> Ho].
  rewrite (i64_neg_id (pr_AmountMinor n)) in * by (i64_unfold; lia).
  destruct o as [existing|].
  - left. op_inv. bools. unfold refund_replayed. split_and!; [|done|exists (w_ID w); by rewrite <- F4].
    eapply opened_with_entry; try done; [by apply inv_books|by rewrite <- F4].
  - right. apply tx_bind_ok in Hs as (s1 & ? & Hh & Hs).
    apply requirePaymentRefundHold_ok in Hh as [-> Hh]. op_inv. bools.
    rewrite (i64_sub_id (w_Reserved w)) in * by (i64_unfold; lia). op_inv.
    match goal with H : refund_trail _ _ _ _ _ _ _ = _ |- _ =>
      apply refund_trail_ok in H as [-> Heff] end.
    exists w. split; [unfold refund_held in *; by rewrite <- F4|]. exists d1.
    rewrite <- !Z.add_opp_r in *. rewrite Z.add_0_r. rewrite <- F1, <- F2, <- F3, <- F4.
    split_and!; try done; [i64_unfold; lia..|]. eapply effect_trans; [|exact Heff]. solve_effect.
Qed.

Lemma ReleasePaymentRefund_ok input now ids d s' e :
  Inv d -> in_i64 (pr_AmountMinor input) ->
  ReleasePaymentRefundInTx input now (ids, d) = Ok (s', e) ->
  exists n, normalizePaymentRefundInput input = Ok n /\
    let key := paymentRefundLedgerKey "release" (pr_PaymentOrderID n) in
    let amount := pr_AmountMinor n in
    refund_replayed n EntryPaymentRefundRelease key (- amount) d e s'.2
    \/ exists w, refund_held n (w_ID w) d /\
         refund_posted n now EntryPaymentRefundRelease key (- amount) amount (- amount) d w e s'.2.
Proof.
  intros HI Hamt Hs. unfold ReleasePaymentRefundInTx in Hs.
  destruct (normalizePaymentRefundInput input) as [n|] eqn:Hn; [|done].
  exists n. split; [done|]. apply normalizePaymentRefundInput_ok in Hn as (En & Hpos & _).
  open_wallet Hs.
  apply tx_bind_ok in Hs as (s1 & o & Ho & Hs). apply optional_row in Ho as [-> Ho].
  rewrite (i64_neg_id (pr_AmountMinor n)) in * by (i64_unfold; lia).
  destruct o as [existing|].
  - left. op_inv. bools. unfold refund_replayed. split_and!; [|done|exists (w_ID w); by rewrite <- F4].
    eapply opened_with_entry; try done; [by apply inv_books|by rewrite <- F4].
  - right. apply tx_bind_ok in Hs as (s1 & ? & Hh & Hs).
    apply requirePaymentRefundHold_ok in Hh as [-> Hh]. op_inv. bools.
    match goal with H : checked_add _ _ = Ok _ |- _ =>
      apply checked_add_ok in H as [-> Hmax]; [|i64_unfold; lia..] end.
    rewrite (i64_sub_id (w_Reserved w)) in * by (i64_unfold; lia). op_inv.
    match goal with H : refund_trail _ _ _ _ _ _ _ = _ |- _ =>
      apply refund_trail_ok in H as [-> Heff] end.
    exists w. split; [unfold refund_held in *; by rewrite <- F4|]. exists d1.
    rewrite <- !Z.add_opp_r in *. rewrite <- F1, <- F2, <- F3, <- F4.
    split_and!; try done; [i64_unfold; lia..|]. eapply effect_trans; [|exact Heff]. solve_effect.
Qed.
End facts.
End BillingFacts.
