(* ===== verification/BillingSteps.v ===== *)
(** * Every operation preserves the invariant

    One lemma per operation, then the step relation over the exported
    operations of [internal/billing] and the invariant of the reachable rows. *)

From stdpp Require Import base gmap strings list relations sorting.
From Stdlib Require Import ZArith Lia Ascii String.
From S2P Require Import Prelude GoLib Usage Pricing BillingModel Money MoneyProofs Store StoreFacts.
From S2P Require Import BillingOps BillingService BillingInv BillingFacts.

Module BillingSteps.
Import Usage Billing Money MoneyProofs Store StoreFacts BillingOps BillingService BillingInv BillingFacts.

Section steps.
Context `{UuidText, SqlGuards, WallClock}.

Lemma Inv_same d d' :
  effect d (wallets d) (reservations d) (settlements d) (liabilities d) (ledger d) d' ->
  Inv d -> Inv d'.
Proof. intros He []. by eapply Inv_effect. Qed.

Lemma effect_opened u c now d d1 W R S L G d' :
  opened u c now d d1 -> effect d W R S L G d' -> effect d1 W R S L G d'.
Proof. by intros [|]. Qed.

(** A wallet posts entries that touch neither reservations nor liabilities. *)
Lemma Inv_post d d' w w' es :
  Inv d -> wallets d !! w_ID w = Some w -> same_owner w w' ->
  chain (w_ID w) (w_Available w) (w_Reserved w) es (w_Available w') (w_Reserved w') ->
  nat_i64 (w_Available w') -> nat_i64 (w_Reserved w') ->
  w_Reserved w' - w_Reserved w = refund_by (w_ID w) es ->
  w_FinancialHold w' = w_FinancialHold w ->
  effect d (<[w_ID w := w']> (wallets d)) (reservations d) (settlements d) (liabilities d)
    (ledger d ++ es) d' ->
  Inv d'.
Proof.
  intros HI Hw Ho Hc Ha Hr Hd Hh He. destruct HI as [HB HH HR HL HF].
  destruct (chain_sums _ _ _ _ _ _ Hc) as (_ & _ & Hes).
  eapply Inv_effect; [exact He|..].
  - by eapply books_post.
  - eapply held_post; [done..| |]; [done|lia].
  - by apply res_touch.
  - by apply liab_touch.
  - apply (hold_post _ (reservations d) _ (liabilities d)); [done..|].
    rewrite Hh. by apply (HF _ _ Hw).
Qed.

(** ** Reserve *)
Lemma Inv_reserve input quote now d r d' :
  Inv d -> 0 < q_AmountMinor quote <= max_int64 ->
  reserve_fresh input quote now d r d' -> Inv d'.
Proof.
  intros HI Hq (d1 & w & ra & e & Hop & Hw & Hu & Hc & _ & Hhold & _ & _ & Hle & Hadd & Hr & Hf
    & Hreq & _ & He & _ & Heff).
  assert (Inv d1) as [HB HH HR HL HF] by (by eapply Inv_opened).
  destruct (bk_range _ _ HB _ _ Hw) as [Ra Rr].
  apply checked_add_ok in Hadd as [-> Hmax]; [|i64_unfold; lia..].
  rewrite (i64_sub_id (w_Available w)) in * by (i64_unfold; lia).
  assert (r_ID r = r_ID r /\ r_WalletID r = w_ID w /\ r_AmountMinor r = q_AmountMinor quote
          /\ r_Status r = ReservationReserved /\ r_RequestID r = ri_RequestID input)
    as (_ & EW & EA & ES & EQ) by (by rewrite Hr).
  destruct (opened_frame _ _ _ _ _ Hop) as (F1 & F2 & F3 & F4 & _).
  rewrite <- F1, <- F2, <- F3, <- F4 in *.
  assert (chain (w_ID w) (w_Available w) (w_Reserved w) [e]
    (w_Available w - q_AmountMinor quote) (w_Reserved w + q_AmountMinor quote)) as Hch.
  { rewrite He. simpl. rewrite i64_neg_id by (i64_unfold; lia). split_and!; [done|lia..]. }
  destruct (chain_sums _ _ _ _ _ _ Hch) as (_ & _ & Hes).
  eapply Inv_effect; [exact Heff|..].
  - eapply books_post; [done|done|done|exact Hch|i64_unfold; simpl; lia..].
  - eapply held_post; [done|done|done|..].
    + intros k Hk. rewrite held_by_insert by done. rewrite held_amount_other by congruence. lia.
    + rewrite held_by_insert by done. rewrite <- EW, held_amount_held by (by rewrite ES).
      rewrite refund_none; [simpl; lia|]. intros x [->|Hx]%elem_of_cons; [by rewrite He|by apply elem_of_nil in Hx].
  - apply res_touch. eapply res_insert; [done|done|by rewrite EW|by rewrite EA|done|].
    intros k r' Hk. rewrite EQ. by eapply Hreq.
  - by apply liab_touch.
  - assert (forall k, pending_on k (<[r_ID r := r]> (reservations d1)) = pending_on k (reservations d1)) as Hp.
    { intros k. unfold pending_on. rewrite map_any_fresh by done. rewrite ES.
      by rewrite andb_false_r. }
    eapply hold_post; [done| |]; [intros k _; by rewrite Hp|].
    rewrite Hp. simpl. by apply (HF _ _ Hw).
Qed.

(** ** Settle *)
Lemma stored_uniform reservation event actual status S st :
  settlement_stored reservation event actual status S st ->
  forall k o, S !! k = Some o -> st_ReservationID o = r_ID reservation -> k = st_ID st.
Proof. unfold settlement_stored. naive_solver. Qed.

Lemma Inv_settle_waits input actual now d st b d' :
  Inv d -> settle_waits input actual now d st b d' -> Inv d'.
Proof.
  intros [HB HH HR HL HF] (r & w & Hres & _ & Hheld & Hw & _ & _ & _ & Hst & Heff).
  assert (r_ID r = si_ReservationID input) as Hid by (by apply (ri_keyed _ _ _ HR)).
  rewrite <- Hid in Hres.
  assert (w_ID w = r_WalletID r) as Hwid by (by apply (bk_keyed _ _ HB)).
  rewrite <- Hwid in Hw.
  set (r' := set_reservation_status "settlement_pending" (Some actual)
            (Some (ev_ID (si_Event input))) "insufficient_funds" now r) in *.
  destruct Hst as (E1 & E2 & E3 & E4 & E5 & E6 & E7 & E8).
  assert (forall o, settlements d !! st_ID st = Some o -> st_ReservationID o = r_ID r) as E9
    by (intros o Ho; by apply E8).
  assert (same_reservation r r') as Hsame by done.
  assert (forall k, held_by k (<[r_ID r := r']> (reservations d)) = held_by k (reservations d)) as Hby.
  { intros k. rewrite (held_by_update _ _ _ r) by done. unfold held_amount.
    rewrite Hheld. change (r_WalletID r') with (r_WalletID r).
    change (held_status (r_Status r')) with true. change (r_AmountMinor r') with (r_AmountMinor r).
    lia. }
  eapply Inv_effect; [exact Heff|..].
  - by eapply books_touch.
  - rewrite <- (app_nil_r (ledger d)). eapply held_post; [done|done|..].
    + intros e He. by apply elem_of_nil in He.
    + intros k _. by rewrite Hby.
    + rewrite Hby. unfold refund_by. simpl. lia.
  - apply res_touch. eapply res_settle; try done; try congruence.
    + by left.
    + by rewrite E4.
  - by apply liab_touch.
  - eapply hold_post; [done| |].
    + intros k Hk. f_equal. eapply pending_on_update; [done|done|]. intros ?. congruence.
    + simpl. symmetry. apply orb_true_iff. right. apply map_any_true. exists (r_ID r), r'.
      rewrite lookup_insert_eq. split; [done|]. change (r_WalletID r') with (r_WalletID r).
      by rewrite Hwid, uuid_eqb_refl.
Qed.

Lemma settle_entries_chain wallet reservation event actual now es :
  settle_entries wallet reservation event actual now es ->
  nat_i64 actual -> 0 < r_AmountMinor reservation <= max_int64 ->
  chain (w_ID wallet) (w_Available wallet) (w_Reserved wallet) es
    (w_Available wallet - settle_extra reservation actual + settle_released reservation actual)
    (w_Reserved wallet - r_AmountMinor reservation)
  /\ forall e, e ∈ es -> refund_type (le_EntryType e) = false.
Proof.
  intros (c & rl & -> & Hc & Hrl) Ha Hr.
  assert (0 <= settle_consumed reservation actual <= max_int64
    /\ 0 <= settle_extra reservation actual <= max_int64
    /\ 0 <= settle_released reservation actual <= max_int64
    /\ settle_consumed reservation actual + settle_released reservation actual
       = r_AmountMinor reservation
    /\ (actual = 0 -> settle_extra reservation actual = 0 /\ settle_consumed reservation actual = 0))
    as (H1' & H2' & H3' & H4' & H5').
  { unfold settle_released, settle_extra, settle_consumed, nat_i64 in *. lia. }
  split.
  - eapply chain_app.
    + instantiate (1 := w_Reserved wallet - settle_consumed reservation actual).
      instantiate (1 := w_Available wallet - settle_extra reservation actual).
      destruct (Z.ltb_spec 0 actual).
      * destruct Hc as [i ->]. simpl. rewrite !i64_neg_id by (i64_unfold; lia).
        split_and!; [done|lia..].
      * subst c. simpl. i64_unfold. lia.
    + destruct (Z.ltb_spec 0 (settle_released reservation actual)).
      * destruct Hrl as [i ->]. simpl. rewrite !i64_neg_id by (i64_unfold; lia).
        split_and!; [done|lia..].
      * subst rl. simpl. lia.
  - intros e [He|He]%elem_of_app.
    + destruct (Z.ltb_spec 0 actual); [destruct Hc as [i ->]|subst c]; [|by apply elem_of_nil in He].
      apply list_elem_of_singleton in He. by subst e.
    + destruct (Z.ltb_spec 0 (settle_released reservation actual)); [destruct Hrl as [i ->]|subst rl]; [|by apply elem_of_nil in He].
      apply list_elem_of_singleton in He. by subst e.
Qed.

Lemma Inv_settle_charges input actual now d st b d' :
  Inv d -> nat_i64 actual -> settle_charges input actual now d st b d' -> Inv d'.
Proof.
  intros [HB HH HR HL HF] Ha
    (r & w & es & Hres & _ & Hheld & Hw & Hle & Hex & Hmax & _ & Hst & Hes & Heff).
  assert (r_ID r = si_ReservationID input) as Hid by (by apply (ri_keyed _ _ _ HR)).
  rewrite <- Hid in Hres.
  assert (w_ID w = r_WalletID r) as Hwid by (by apply (bk_keyed _ _ HB)).
  rewrite <- Hwid in Hw. destruct (bk_range _ _ HB _ _ Hw) as [Ra Rr].
  pose proof (ri_amount _ _ _ HR _ _ Hres) as Hamt.
  set (r' := set_reservation_status "settled" (Some actual)
            (Some (ev_ID (si_Event input))) "" now r) in *.
  destruct Hst as (E1 & E2 & E3 & E4 & E5 & E6 & E7 & E8).
  assert (forall o, settlements d !! st_ID st = Some o -> st_ReservationID o = r_ID r) as E9
    by (intros o Ho; by apply E8).
  assert (same_reservation r r') as Hsame by done.
  apply settle_entries_chain in Hes as [Hch Hty]; [|done..].
  destruct (chain_sums _ _ _ _ _ _ Hch) as (_ & _ & Hwes).
  eapply Inv_effect; [exact Heff|..].
  - eapply books_post; [done|done|done|exact Hch|..]; i64_unfold; simpl; [|lia].
    unfold settle_released, settle_consumed in *. lia.
  - eapply held_post; [done|done|done|..].
    + intros k Hk. rewrite (held_by_update _ _ _ r) by done.
      rewrite held_amount_other by congruence. rewrite held_amount_closed by done. lia.
    + rewrite (held_by_update _ _ _ r) by done. rewrite (held_amount_closed _ r') by done.
      rewrite Hwid, held_amount_held by done. rewrite refund_none by done. simpl. lia.
  - apply res_touch. eapply res_settle; try done; try congruence.
    + by right.
    + by rewrite E4.
  - by apply liab_touch.
  - eapply hold_post; [done| |].
    + intros k Hk. f_equal. eapply pending_on_update; [done|done|]. intros ?. congruence.
    + simpl. rewrite (has_pending_settlement_except _ _ r r') by done.
      unfold has_open_liability. apply orb_comm.
Qed.

(** ** Release *)
Lemma Inv_release input now d d' : Inv d -> release_effect input now d d' -> Inv d'.
Proof.
  intros [HB HH HR HL HF] (r & w & aa & e & Hres & Hs & Hw & Hwid & Hle & -> & Hmax & He & Heff).
  assert (r_ID r = rel_ReservationID input) as Hid by (by apply (ri_keyed _ _ _ HR)).
  rewrite <- Hid in Hres. destruct (bk_range _ _ HB _ _ Hw) as [Ra Rr].
  pose proof (ri_amount _ _ _ HR _ _ Hres) as Hamt.
  set (r' := set_reservation_status "released" (r_SettledAmountMinor r) (r_UsageEventID r)
              (rel_Reason input) now r) in *.
  assert (chain (w_ID w) (w_Available w) (w_Reserved w) [e]
    (w_Available w + r_AmountMinor r) (w_Reserved w - r_AmountMinor r)) as Hch.
  { rewrite He. simpl. rewrite !i64_neg_id by (i64_unfold; lia). split_and!; [done|lia..]. }
  destruct (chain_sums _ _ _ _ _ _ Hch) as (_ & _ & Hwes).
  eapply Inv_effect; [exact Heff|..].
  - eapply books_post; [done|done|done|exact Hch|..]; i64_unfold; simpl; lia.
  - eapply held_post; [done|done|done|..].
    + intros k Hk. rewrite (held_by_update _ _ _ r) by done.
      rewrite held_amount_other by congruence. rewrite held_amount_closed by done. lia.
    + rewrite (held_by_update _ _ _ r) by done. rewrite (held_amount_closed _ r') by done.
      rewrite Hwid, held_amount_held by (by rewrite Hs).
      rewrite refund_none; [simpl; lia|]. intros x ->%list_elem_of_singleton. by rewrite He.
  - apply res_touch. by eapply res_release.
  - by apply liab_touch.
  - assert (forall k, pending_on k (<[r_ID r := r']> (reservations d)) = pending_on k (reservations d)) as Hp.
    { intros k. eapply pending_on_update; [done|done|]. intros _. by rewrite Hs. }
    eapply hold_post; [done| |]; [intros k _; by rewrite Hp|]. rewrite Hp. by apply (HF _ _ Hw).
Qed.

(** ** Recovery of liabilities *)
Definition plan_ok (wid : uuid) (L : Liabilities) (plan : list (Liability * Z)) : Prop :=
  open_list wid L plan.*1 /\ forall l r, (l, r) ∈ plan -> 0 < r <= outstanding l.

Lemma open_list_sub wid L l ls : open_list wid L (l :: ls) -> open_list wid L ls.
Proof.
  intros [Hnd Hall]. rewrite fmap_cons in Hnd. apply NoDup_cons in Hnd as [_ Hnd].
  split; [done|]. intros l' Hl'. apply Hall. by apply elem_of_cons; right.
Qed.

Lemma recover_plan_fst av ls : (recover_plan av ls).*1 `prefix_of` ls.
Proof.
  revert av. induction ls as [|l ls IH]; intros av; simpl; [done|].
  case_match; simpl; [apply prefix_nil|]. apply prefix_cons, IH.
Qed.

Lemma recover_plan_amounts wid L av ls l r :
  0 <= av -> open_list wid L ls -> (l, r) ∈ recover_plan av ls -> 0 < r <= outstanding l.
Proof.
  revert av. induction ls as [|x ls IH]; intros av Hav Hol Hin; simpl in Hin.
  { by apply elem_of_nil in Hin. }
  destruct (Z.eqb_spec av 0); [by apply elem_of_nil in Hin|].
  destruct (proj2 Hol x ltac:(apply list_elem_of_here)) as (_ & (_ & HRc & Hst) & Hopen & _).
  assert (0 < outstanding x) as Hout.
  { unfold outstanding. destruct Hst as [[_ ?]|[[Hc _]|Hc]]; [lia|by rewrite Hopen in Hc..]. }
  apply elem_of_cons in Hin as [[= -> ->]|Hin]; [lia|].
  eapply IH; [|by eapply open_list_sub|exact Hin]. lia.
Qed.

Lemma recover_plan_ok wid L av ls :
  0 <= av -> open_list wid L ls -> plan_ok wid L (recover_plan av ls).
Proof.
  intros Hav Hol. split; [|intros l r; by eapply recover_plan_amounts].
  destruct (recover_plan_fst av ls) as [k Hk]. destruct Hol as [Hnd Hall].
  rewrite Hk in Hnd. split.
  - rewrite fmap_app in Hnd. by apply NoDup_app in Hnd as [? _].
  - intros l Hl. apply Hall. rewrite Hk. apply elem_of_app. by left.
Qed.

Lemma recovered_row_ok now l r :
  liability_ok l -> 0 < r <= outstanding l -> liability_ok (recovered_row now l r).
Proof.
  unfold liability_ok, outstanding, recovered_row. intros (? & ? & _) Hr. simpl.
  destruct (Z.eqb_spec (l_Recovered l + r) (l_Principal l)); split_and!; try lia;
    [right; left|left]; (split; [done|lia]).
Qed.

Lemma apply_plan_ok wid now plan W L :
  plan_ok wid L plan -> liab_inv W L ->
  liab_inv W (apply_plan now plan L)
  /\ forall k, k <> wid -> open_on k (apply_plan now plan L) = open_on k L.
Proof.
  revert L. induction plan as [|[l r] plan IH]; intros L [Hol Ham] HL; [done|].
  destruct (proj2 Hol l ltac:(apply list_elem_of_here)) as (Hlk & Hok & Hopen & Hwid).
  change (apply_plan now ((l, r) :: plan) L)
    with (apply_plan now plan (<[l_ID l := recovered_row now l r]> L)).
  destruct (IH (<[l_ID l := recovered_row now l r]> L)) as [H1' H2'].
  - split; [by apply open_list_cons|]. intros l' r' Hin. apply Ham. by apply elem_of_cons; right.
  - constructor.
    + intros k x [[<- <-]|[_ Hx]]%lookup_insert_Some; [done|by apply (lb_keyed _ _ HL)].
    + intros k x [[<- <-]|[_ Hx]]%lookup_insert_Some; [|by eapply (lb_ok _ _ HL)].
      apply recovered_row_ok; [done|]. apply Ham, list_elem_of_here.
    + intros k x [[<- <-]|[_ Hx]]%lookup_insert_Some;
        [exact (lb_wallet _ _ HL _ _ Hlk)|by apply (lb_wallet _ _ HL k)].
  - split; [done|]. intros k Hk. rewrite H2' by done.
    eapply open_on_update; [done|done|]. congruence.
Qed.

Lemma plan_entries_kind wid plan es :
  Forall2 (plan_entry wid) plan es -> forall e, e ∈ es -> refund_type (le_EntryType e) = false.
Proof.
  induction 1 as [|lr e plan es (_ & Ht & _) _ IH]; intros x Hx; [by apply elem_of_nil in Hx|].
  apply elem_of_cons in Hx as [->|Hx]; [by rewrite Ht|by apply IH].
Qed.

Lemma Inv_recovery w now d d' :
  Inv d -> wallets d !! w_ID w = Some w -> recovery_effect w now d d' -> Inv d'.
Proof.
  intros [HB HH HR HL HF] Hw (es & Hn & Hch & Hpl & Heff).
  destruct (bk_range _ _ HB _ _ Hw) as [Ra Rr].
  destruct (chain_sums _ _ _ _ _ _ Hch) as (_ & _ & Hwes).
  pose proof (plan_entries_kind _ _ _ Hpl) as Hty.
  destruct (apply_plan_ok (w_ID w) now
    (recover_plan (w_Available w) (open_liabilities (w_ID w) d)) (wallets d) (liabilities d))
    as [HL' Hother]; [|done|].
  { apply recover_plan_ok; [i64_unfold; lia|]. by apply open_liabilities_list. }
  eapply Inv_effect; [exact Heff|..].
  - by eapply books_post.
  - eapply held_post; [done|done|done|done|]. rewrite refund_none by done. simpl. lia.
  - by apply res_touch.
  - by apply liab_touch.
  - eapply hold_post; [done| |done]. intros k Hk. by rewrite Hother.
Qed.

Lemma Inv_recover_step wallet available src now ids d ids' d' w0 :
  Inv d -> wallets d !! w_ID w0 = Some w0 -> w_ID wallet = w_ID w0 ->
  w_Reserved wallet = w_Reserved w0 -> available = w_Available w0 ->
  recoverWalletLiabilities wallet available src now (ids, d) = Ok ((ids', d'), tt) -> Inv d'.
Proof.
  intros HI Hw Hid Hr Ha Hs. eapply recoverWalletLiabilities_ok in Hs as [[<- _]|Hre]; try done.
  by eapply Inv_recovery.
Qed.

(** ** Credits *)
Lemma Inv_credit_posted input now d w e d2 :
  Inv d -> credit_posted input now d w e d2 ->
  Inv d2 /\ exists w2, wallets d2 !! w_ID w2 = Some w2 /\ w_ID w2 = w_ID w
    /\ w_Reserved w2 = w_Reserved w /\ w_Available w2 = w_Available w + cr_AmountMinor input.
Proof.
  intros HI (d1 & Hop & Hw & Hu & Hc & Hr & _ & _ & _ & He & Heff).
  assert (Inv d1) as HI1 by (by eapply Inv_opened).
  destruct (bk_range _ _ (inv_books _ HI1) _ _ Hw) as [Ra Rr].
  destruct (opened_frame _ _ _ _ _ Hop) as (F1 & F2 & F3 & F4 & F5 & F6 & F7 & F8).
  rewrite <- F1, <- F2, <- F3, <- F4 in Heff.
  pose proof (effect_opened _ _ _ _ _ _ _ _ _ _ _ Hop Heff) as Heff1.
  split.
  - eapply Inv_post; [exact HI1|exact Hw| | | | | | |exact Heff1]; try done.
    + rewrite He. simpl. split_and!; [done|lia..].
    + unfold refund_by. simpl. unfold of_wallet. rewrite He. simpl. repeat case_match; lia.
  - eexists. destruct Heff1 as (-> & _).
    match goal with |- <[_ := ?x]> _ !! _ = _ /\ _ => instantiate (1 := x) end.
    simpl. by rewrite lookup_insert_eq.
Qed.

(** ** Liabilities *)
Lemma Inv_liability_opened input now d l d' :
  Inv d -> 0 < li_AmountMinor input <= max_int64 -> liability_opened input now d l d' -> Inv d'.
Proof.
  intros HI Hamt (d1 & w & es & Hop & Hw & Hu & Hc & Hlw & Hfr & HP & HRc & Hst & _ & _ & Hch
    & Hty & l0 & Hl0 & _ & Heff).
  assert (Inv d1) as [HB HH HR HL HF] by (by eapply Inv_opened).
  destruct (bk_range _ _ HB _ _ Hw) as [Ra Rr].
  destruct (opened_frame _ _ _ _ _ Hop) as (F1 & F2 & F3 & F4 & _).
  rewrite <- F1, <- F2, <- F3, <- F4 in *.
  destruct (chain_sums _ _ _ _ _ _ Hch) as (_ & _ & Hwes).
  assert (l_ID l0 = l_ID l /\ l_WalletID l0 = l_WalletID l /\ l_Principal l0 = l_Principal l
          /\ l_Recovered l0 = l_Recovered l /\ l_Status l0 = l_Status l)
    as (E1 & E2 & E3 & E4 & E5).
  { specialize (Hl0 uuid_nil). unfold with_recovery in Hl0. injection Hl0. intros. by subst. }
  eapply Inv_effect; [exact Heff|..].
  - eapply books_post; [done|done|done|exact Hch|..]; i64_unfold; simpl; lia.
  - eapply held_post; [done|done|done|done|].
    rewrite refund_none; [simpl; lia|]. intros e He. by rewrite (Hty e He).
  - by apply res_touch.
  - apply liab_touch. constructor.
    + intros k x [[<- <-]|[_ Hx]]%lookup_insert_Some; [done|by apply (lb_keyed _ _ HL)].
    + intros k x [[<- <-]|[_ Hx]]%lookup_insert_Some; [|by eapply (lb_ok _ _ HL)].
      unfold liability_ok. rewrite E3, E4, E5, Hst. rewrite HP.
      split_and!; [lia..|i64_unfold; lia|lia|].
      destruct (Z.ltb_spec (l_Recovered l) (li_AmountMinor input)); [left|right; left]; (split; [done|lia]).
    + intros k x [[<- <-]|[_ Hx]]%lookup_insert_Some; [|by apply (lb_wallet _ _ HL k)].
      exists w. by rewrite E2, Hlw.
  - assert (forall k, open_on k (<[l_ID l := l0]> (liabilities d1))
      = (uuid_eqb (w_ID w) k && String.eqb (l_Status l) "open") || open_on k (liabilities d1)) as Hopn.
    { intros k. unfold open_on. rewrite map_any_fresh by done. by rewrite E2, E5, Hlw. }
    eapply hold_post; [done| |].
    + intros k Hk. rewrite Hopn. by rewrite (proj2 (uuid_eqb_neq (w_ID w) k)) by congruence.
    + rewrite Hopn, uuid_eqb_refl. simpl. rewrite (HF _ _ Hw).
      by destruct (String.eqb (l_Status l) "open"), (open_on _ _), (pending_on _ _).
Qed.

Lemma Inv_liability_reversed liabilityID now d l w d2 :
  Inv d -> liability_reversed liabilityID now d l w d2 ->
  Inv d2 /\ exists w2, wallets d2 !! w_ID w2 = Some w2 /\ w_ID w2 = w_ID w
    /\ w_Reserved w2 = w_Reserved w /\ w_Available w2 = w_Available w + l_Recovered l.
Proof.
  intros [HB HH HR HL HF] (es & Hl & Hid & Hrev & Hw & Hlw & Hmax & Hch & Hty & Heff).
  destruct (bk_range _ _ HB _ _ Hw) as [Ra Rr].
  rewrite <- Hid in Hl. destruct (lb_ok _ _ HL _ _ Hl) as (HP & HRc & _).
  destruct (chain_sums _ _ _ _ _ _ Hch) as (_ & _ & Hwes).
  split.
  - eapply Inv_effect; [exact Heff|..].
    + eapply books_post; [done|done|done|exact Hch|..]; i64_unfold; simpl; lia.
    + eapply held_post; [done|done|done|done|].
      rewrite refund_none; [simpl; lia|]. intros e He. by rewrite (Hty e He).
    + by apply res_touch.
    + apply liab_touch. constructor.
      * intros k x [[<- <-]|[_ Hx]]%lookup_insert_Some; [done|by apply (lb_keyed _ _ HL)].
      * intros k x [[<- <-]|[_ Hx]]%lookup_insert_Some; [|by eapply (lb_ok _ _ HL)].
        unfold liability_ok. simpl. split_and!; [lia..|]. by right; right.
      * intros k x [[<- <-]|[_ Hx]]%lookup_insert_Some;
          [exact (lb_wallet _ _ HL _ _ Hl)|by apply (lb_wallet _ _ HL k)].
    + eapply hold_post; [done| |done]. intros k Hk. f_equal.
      eapply open_on_update; [done|done|]. congruence.
  - eexists. destruct Heff as (-> & _).
    match goal with |- <[_ := ?x]> _ !! _ = _ /\ _ => instantiate (1 := x) end.
    simpl. by rewrite lookup_insert_eq.
Qed.

Lemma Inv_reverse liabilityID now ids d s' v :
  Inv d -> ReverseLiabilityInTx liabilityID now (ids, d) = Ok (s', v) -> Inv s'.2.
Proof.
  intros HI Hs. apply ReverseLiability_ok in Hs as [(-> & _)|Hs]; [done| |done].
  destruct Hs as (l & w & src & d2 & d3 & ids2 & ids3 & Hrev & Hrec & Heff).
  apply Inv_liability_reversed in Hrev as (HI2 & w2 & Hw2 & Hid & Hr2 & Ha2); [|done].
  assert (Inv d3) as HI3.
  { destruct (0 <? l_Recovered l); [|by subst].
    refine (Inv_recover_step _ _ _ _ _ _ _ _ w2 HI2 Hw2 _ _ _ Hrec); done. }
  by eapply Inv_same.
Qed.

(** ** Refunds *)
Lemma Inv_refund n now t key amount da dr d w e d' :
  Inv d -> refund_type t = true -> refund_posted n now t key amount da dr d w e d' -> Inv d'.
Proof.
  intros HI Ht (d1 & Hop & Hw & Hu & Hc & Ha & Hr & _ & He & Heff).
  assert (Inv d1) as HI1 by (by eapply Inv_opened).
  destruct (opened_frame _ _ _ _ _ Hop) as (F1 & F2 & F3 & F4 & F5 & F6 & F7 & F8).
  rewrite <- F1, <- F2, <- F3, <- F4 in Heff.
  apply (effect_opened _ _ _ _ _ _ _ _ _ _ _ Hop) in Heff.
  eapply Inv_post; [exact HI1|exact Hw| | | | | | |exact Heff]; try done.
  - rewrite He. simpl. done.
  - unfold refund_by. simpl. unfold of_wallet. rewrite He. simpl. rewrite uuid_eqb_refl, Ht. lia.
Qed.

(** ** The recovery columns of settlements *)
Lemma Inv_settlements d d' S' :
  Inv d -> res_inv (wallets d) (reservations d) S' ->
  effect d (wallets d) (reservations d) S' (liabilities d) (ledger d) d' -> Inv d'.
Proof. intros [HB HH HR HL HF] HR' He. by eapply Inv_effect. Qed.

Lemma res_claim token now W R S rows :
  res_inv W R S -> (forall st, st ∈ rows -> S !! st_ID st = Some st) ->
  let S' := foldr (fun st m => <[st_ID st := claim_row token now st]> m) S rows in
  res_inv W R S'
  /\ forall k st, S !! k = Some st -> exists st', S' !! k = Some st' /\ same_settlement st st'.
Proof.
  intros HR. induction rows as [|x rows IH]; intros Hrows; simpl.
  { split; [done|]. intros k st Hk. by exists st. }
  destruct IH as [HR' Hsame]; [intros st Hst; apply Hrows; by apply elem_of_cons; right|].
  pose proof (Hrows x ltac:(apply list_elem_of_here)) as Hx.
  destruct (Hsame _ _ Hx) as (x' & Hx' & (E1 & E2 & E3 & E4 & E5 & E6)).
  split.
  - apply (res_retouch _ _ _ _ x'); [done|done|]. unfold same_settlement. simpl. done.
  - intros k st Hk. destruct (decide (st_ID x = k)) as [<-|Hne].
    + rewrite Hx in Hk. injection Hk as <-. eexists. by rewrite lookup_insert_eq.
    + rewrite lookup_insert_ne by done. by apply Hsame.
Qed.

Lemma claim_candidates_rows n now locked d st :
  Inv d -> st ∈ claim_candidates n now locked d ->
  settlements d !! st_ID st = Some st /\ settlement_due now st = true
  /\ locked (st_ID st) = false.
Proof.
  intros HI Hin. unfold claim_candidates in Hin.
  apply elem_of_take in Hin as (i & Hin & _). apply list_elem_of_lookup_2 in Hin.
  rewrite merge_sort_Permutation in Hin. apply list_elem_of_filter in Hin as [Hd Hin].
  apply andb_true_iff in Hd as [Hdue Hlk%negb_true_iff].
  apply list_elem_of_fmap in Hin as ([k st'] & -> & Hin). apply elem_of_map_to_list in Hin.
  simpl in *. split_and!; [by rewrite (si_keyed _ _ _ (inv_res _ HI) _ _ Hin)|done..].
Qed.

Lemma Inv_claim limit now locked ids d s' due :
  Inv d -> ClaimPendingSettlements limit now locked (ids, d) = Ok (s', due) -> Inv s'.2.
Proof.
  intros HI Hs. unfold ClaimPendingSettlements in Hs. op_inv. simpl.
  eapply Inv_settlements; [exact HI| |solve_effect].
  apply res_claim; [by apply inv_res|]. intros st Hst. by eapply claim_candidates_rows.
Qed.

Lemma Inv_defer settlementID now class ids d s' u :
  Inv d -> DeferPendingSettlement settlementID now class (ids, d) = Ok (s', u) -> Inv s'.2.
Proof.
  intros HI Hs. unfold DeferPendingSettlement in Hs. op_inv.
  destruct (settlements d !! settlementID) as [st|] eqn:Hst; [|by op_inv].
  destruct (String.eqb (st_Status st) SettlementPending); [|by op_inv]. op_inv. simpl.
  eapply Inv_settlements; [exact HI| |solve_effect].
  apply (res_retouch _ _ _ _ st); [by apply inv_res|done..].
Qed.

(** ** The other writers of the rows the billing operations read *)

(** [usage_events] is append-only; a new event has a new identifier. *)
Definition record_usage (u : Event) (d : DB) : DB :=
  mkDB (price_versions d) (<[ev_ID u := u]> (usage_events d)) (wallets d) (reservations d)
       (settlements d) (liabilities d) (ledger d) (outbox d) (audit_logs d).

Definition set_prices (pv : gmap uuid Pricing.Version) (d : DB) : DB :=
  mkDB pv (usage_events d) (wallets d) (reservations d)
       (settlements d) (liabilities d) (ledger d) (outbox d) (audit_logs d).

(** ** The step relation

    A step runs one exported operation, with any arguments and any identifiers,
    to its commit or its rollback; or another package records a usage event or
    changes the price catalogue. *)
Definition committed {A} (ids : list uuid) (m : btx A) (d : DB) : DB := (run_billing ids m d).1.

Inductive step : DB -> DB -> Prop :=
| step_reserve d ids output input checked now :
    step d (committed ids (Service_Reserve output input checked now) d)
| step_settle d ids input now :
    (forall a, ev_AmountMinor (si_Event input) = Some a -> in_i64 a) ->
    step d (committed ids (Service_Settle input now) d)
| step_release d ids input now :
    step d (committed ids (Service_Release input now) d)
| step_credit d ids input now :
    in_i64 (cr_AmountMinor input) ->
    step d (committed ids (Service_Credit input now) d)
| step_open_liability d ids input now :
    in_i64 (li_AmountMinor input) ->
    step d (committed ids (Service_OpenLiability input now) d)
| step_reverse_liability d ids liabilityID now :
    step d (committed ids (Service_ReverseLiability liabilityID now) d)
| step_refund_hold d ids input now :
    in_i64 (pr_AmountMinor input) ->
    step d (committed ids (HoldPaymentRefundInTx input now) d)
| step_refund_complete d ids input now :
    in_i64 (pr_AmountMinor input) ->
    step d (committed ids (CompletePaymentRefundInTx input now) d)
| step_refund_release d ids input now :
    in_i64 (pr_AmountMinor input) ->
    step d (committed ids (ReleasePaymentRefundInTx input now) d)
| step_claim d ids limit now locked :
    step d (committed ids (ClaimPendingSettlements limit now locked) d)
| step_defer d ids settlementID now class :
    step d (committed ids (DeferPendingSettlement settlementID now class) d)
| step_usage d u :
    usage_events d !! ev_ID u = None -> (forall a, ev_AmountMinor u = Some a -> in_i64 a) ->
    step d (record_usage u d)
| step_prices d pv : step d (set_prices pv d).

Definition empty_db : DB := mkDB ∅ ∅ ∅ ∅ ∅ ∅ [] [] [].

Definition reachable (d : DB) : Prop := rtc step empty_db d.

(** A committed operation is either rolled back or a success of its body. *)
Lemma committed_inv {A} ids (m : btx A) d :
  committed ids m d = d \/ exists s' a, m (ids, d) = Ok (s', a) /\ committed ids m d = s'.2.
Proof.
  unfold committed, run_billing. destruct (m (ids, d)) as [[[ids' d'] a]|e]; [right|by left].
  by exists (ids', d'), a.
Qed.

Lemma committed_ok {A} ids (m : btx A) d s' a :
  m (ids, d) = Ok (s', a) -> committed ids m d = s'.2.
Proof. unfold committed, run_billing. intros ->. by destruct s'. Qed.

Ltac step_run H :=
  match goal with
  | |- Inv (committed ?ids ?m ?d) =>
      let s' := fresh "s'" in let a := fresh "a" in let HC := fresh "HC" in
      destruct (committed_inv ids m d) as [->|(s' & a & H & HC)]; [done|rewrite HC; clear HC]
  end.

Lemma calculateQuote_amount s u q : calculateQuote s u = Ok q -> nat_i64 (q_AmountMinor q).
Proof.
  unfold calculateQuote. intros Hq. destruct (Pricing.s_Free s).
  { injection Hq as <-. i64_unfold. simpl. lia. }
  destruct (_ || _) eqn:E1 in Hq; [done|]. destruct (usage_negative u); [done|].
  apply result_bind_ok in Hq as (total & Ht & Hq).
  apply result_bind_ok in Hq as (amount & Ha & Hq). injection Hq as <-. simpl.
  pose proof (quote_total_nonneg _ _ _ Ht) as Hn.
  pose proof (DefaultCurrencyMinorUnits_range (ToUpper (TrimSpace (Pricing.s_Currency s)))).
  rewrite scaledToMinor_spec in Ha by lia. case_bool_decide; [|done]. injection Ha as <-.
  pose proof (ceil_minor_spec total
    (DefaultCurrencyMinorUnits (ToUpper (TrimSpace (Pricing.s_Currency s))))).
  assert (0 <= total * 10 ^ DefaultCurrencyMinorUnits (ToUpper (TrimSpace (Pricing.s_Currency s)))).
  { apply Z.mul_nonneg_nonneg; [done|apply Z.pow_nonneg; lia]. }
  unfold nat_i64; lia.
Qed.

Lemma normalizeCreditInput_amount input n :
  normalizeCreditInput input = Ok n -> cr_AmountMinor n = cr_AmountMinor input.
Proof. unfold normalizeCreditInput. by repeat case_match; intros [= <-]. Qed.

Lemma normalizeLiabilityInput_amount input n :
  normalizeLiabilityInput input = Ok n ->
  li_AmountMinor n = li_AmountMinor input /\ 0 < li_AmountMinor input.
Proof.
  unfold normalizeLiabilityInput. destruct (_ || _) eqn:E; [done|]. intros [= <-]. bools.
  split; [done|lia].
Qed.

Lemma Inv_Reserve output input checked now ids d s' r :
  Inv d -> Service_Reserve output input checked now (ids, d) = Ok (s', r) -> Inv s'.2.
Proof.
  intros HI Hm. unfold Service_Reserve in Hm.
  apply tx_bind_ok in Hm as (s1 & n & Hn & Hm). apply tx_lift_ok in Hn as [Hn ->].
  apply tx_bind_ok in Hm as (s1 & q & Hq & Hm). apply tx_lift_ok in Hq as [Hq ->].
  apply calculateQuote_amount in Hq. destruct (Z.eqb_spec (q_AmountMinor q) 0); [by op_inv|].
  apply Reserve_ok in Hm as [(-> & _)|Hm]; [done| |exact (bk_keyed _ _ (inv_books _ HI))].
  eapply Inv_reserve; [done| |exact Hm]. i64_unfold. lia.
Qed.

Lemma settle_input_amount input actual :
  settle_input_ok input = true -> ev_AmountMinor (si_Event input) = Some actual -> 0 <= actual.
Proof.
  unfold settle_input_ok. intros Hok Ha. rewrite Ha in Hok. bools. lia.
Qed.

Lemma Service_Settle_inv input now ids d s' st b :
  Service_Settle input now (ids, d) = Ok (s', (st, b)) ->
  exists actual, ev_AmountMinor (si_Event input) = Some actual /\ 0 <= actual
    /\ settle_input_ok input = true /\ Settle_tx input actual now (ids, d) = Ok (s', (st, b)).
Proof.
  intros Hm. unfold Service_Settle in Hm. op_inv. bools.
  destruct (ev_AmountMinor (si_Event input)) as [actual|] eqn:Ha; [|done].
  exists actual. split_and!; try done. by eapply settle_input_amount.
Qed.

Lemma Inv_Settle input now ids d s' st b :
  (forall a, ev_AmountMinor (si_Event input) = Some a -> in_i64 a) ->
  Inv d -> Service_Settle input now (ids, d) = Ok (s', (st, b)) -> Inv s'.2.
Proof.
  intros Hty HI Hm. apply Service_Settle_inv in Hm as (actual & Ha & Hpos & _ & Hm).
  specialize (Hty _ Ha). assert (nat_i64 actual) by (i64_unfold; lia).
  apply Settle_ok in Hm as [(-> & _)|[Hm|Hm]]; try done.
  - by eapply Inv_settle_waits.
  - by eapply Inv_settle_charges.
Qed.

Lemma Inv_Credit input now ids d s' e :
  in_i64 (cr_AmountMinor input) -> Inv d ->
  CreditInTx input now (ids, d) = Ok (s', e) -> Inv s'.2.
Proof.
  intros Ha HI Hm.
  apply CreditInTx_ok in Hm as [(k & -> & _)|(w & d2 & d3 & i2 & i3 & Hp & Hrec & ->)]; try done.
  apply Inv_credit_posted in Hp as (HI2 & w2 & Hw2 & Hid & Hr2 & Ha2); [|done].
  refine (Inv_recover_step _ _ _ _ _ _ _ _ w2 HI2 Hw2 _ _ _ Hrec); done.
Qed.

Lemma Inv_step d d' : step d d' -> Inv d -> Inv d'.
Proof.
  intros Hst HI. destruct Hst; try (step_run Hm).
  - by eapply Inv_Reserve.
  - destruct a. by eapply Inv_Settle.
  - unfold Service_Release in Hm. case_match; [by op_inv|].
    apply Release_ok in Hm as [(-> & _)|Hm]; [done| |done]. by eapply Inv_release.
  - unfold Service_Credit in Hm. op_inv.
    match goal with H : normalizeCreditInput _ = _ |- _ => apply normalizeCreditInput_amount in H as Hn end.
    eapply Inv_Credit; [|done|exact Hm]. by rewrite Hn.
  - unfold Service_OpenLiability in Hm. op_inv.
    match goal with H : normalizeLiabilityInput _ = _ |- _ =>
      apply normalizeLiabilityInput_amount in H as [Hn Hpos] end.
    assert (0 < li_AmountMinor x0 <= max_int64) as Hr by (rewrite Hn; i64_unfold; lia).
    apply OpenLiability_ok in Hm as [(-> & _)|Hm]; try done. by eapply Inv_liability_opened.
  - unfold Service_ReverseLiability in Hm. op_inv. by eapply Inv_reverse.
  - apply HoldPaymentRefund_ok in Hm as (n & _ & [(-> & _)|(w & _ & Hm)]); try done.
    by eapply Inv_refund in Hm.
  - apply CompletePaymentRefund_ok in Hm as (n & _ & [(-> & _)|(w & _ & Hm)]); try done.
    by eapply Inv_refund in Hm.
  - apply ReleasePaymentRefund_ok in Hm as (n & _ & [(-> & _)|(w & _ & Hm)]); try done.
    by eapply Inv_refund in Hm.
  - by eapply Inv_claim.
  - by eapply Inv_defer.
  - by destruct HI.
  - by destruct HI.
Qed.

Lemma Inv_empty : Inv empty_db.
Proof.
  split; [constructor| |constructor|constructor|]; simpl; try done.
  - intros e He. by apply elem_of_nil in He.
  - intros [|] ?? Hx; done.
Qed.

Lemma reachable_Inv d : reachable d -> Inv d.
Proof.
  apply (rtc_ind_r Inv empty_db); [apply Inv_empty|]. intros y z _ Hs HI. by eapply Inv_step.
Qed.

End steps.
End BillingSteps.
