(* ===== verification/BillingDemo.v ===== *)
(** * A concrete history of the billing rows

    The instances and the small history the witnesses of the billing theorems
    evaluate: a credit, a published price, a reservation, its usage event and
    its settlement, with everything computed by the kernel. *)

From stdpp Require Import base gmap strings list pretty relations.
From Stdlib Require Import ZArith Lia Ascii String.
From S2P Require Import Prelude GoLib Usage Pricing BillingModel Money Store.
From S2P Require Import BillingOps BillingService BillingInv BillingSteps.

Module BillingDemo.
Import Usage Billing Store BillingOps BillingService BillingInv BillingSteps.

#[export] Instance demo_text : UuidText := fun u => pretty u.
#[export] Instance demo_guards : SqlGuards :=
  {| guard_wallet := fun _ => None; guard_reservation := fun _ => None;
     guard_ledger := fun _ => None; guard_settlement := fun _ => None;
     guard_liability := fun _ => None; guard_outbox := fun _ => None;
     guard_audit := fun _ => None |}.
#[export] Instance demo_clock : WallClock := 1000.

(** A supply of ten identifiers from [n] on. *)
Definition ids_from (n : N) : list uuid := map (fun i => (n + N.of_nat i)%N) (seq 0 10).

Definition demo_user : uuid := 7%N.
Definition demo_key : uuid := 8%N.

Definition demo_credit (amount : Z) (key : string) : CreditInput :=
  {| cr_UserID := demo_user; cr_Currency := "usd"; cr_EntryType := EntryRecharge;
     cr_AmountMinor := amount; cr_ReferenceType := "payment_order"; cr_ReferenceID := key;
     cr_IdempotencyKey := key; cr_RequestID := ""; cr_OperatorUserID := None;
     cr_Source := "payment" |}.

Definition demo_version : Pricing.Version :=
  {| Pricing.v_ID := 50%N; Pricing.v_Scope := "global"; Pricing.v_VersionNo := 1;
     Pricing.v_Currency := "USD"; Pricing.v_EffectiveFrom := 500; Pricing.v_EffectiveTo := None;
     Pricing.v_Status := Pricing.StatusActive; Pricing.v_CreatedBy := 9%N;
     Pricing.v_CreatedAt := 400; Pricing.v_Prices := [] |}.

Definition demo_snapshot : Pricing.Snapshot :=
  {| Pricing.s_VersionID := 50%N; Pricing.s_Scope := "global"; Pricing.s_Currency := "USD";
     Pricing.s_EffectiveFrom := 500; Pricing.s_Prices := <["request" := "1.5"]> ∅;
     Pricing.s_Free := false |}.

Definition demo_reserve (request : string) (daily : option Z) : ReserveInput :=
  {| ri_UserID := demo_user; ri_APIKeyID := demo_key; ri_RequestID := request;
     ri_RequestRecordID := None; ri_ModelID := None; ri_ProviderModelID := None;
     ri_RouteVersionID := None; ri_ProviderID := None; ri_CredentialID := None;
     ri_Price := demo_snapshot; ri_EstimatedUsage := zero_usage; ri_DailyBudgetMinor := daily;
     ri_MonthlyBudgetMinor := None; ri_Reason := ""; ri_ExpiresAt := None |}.

Definition demo_event (eventID walletID : uuid) (request : string) (amount : Z) : Event :=
  {| ev_ID := eventID; ev_SettlementKey := ""; ev_RequestRecordID := None;
     ev_RequestID := request; ev_StartedAt := 900; ev_FinishedAt := 950;
     ev_RequestedModel := "m"; ev_UserID := Some demo_user; ev_APIKeyID := Some demo_key;
     ev_ResolvedModelID := None; ev_ProviderID := None; ev_ProviderModelID := None;
     ev_RouteVersionID := None; ev_CredentialID := None; ev_PriceVersionID := Some 50%N;
     ev_WalletID := Some walletID; ev_Usage := zero_usage; ev_AmountMinor := Some amount;
     ev_Currency := "USD"; ev_Estimated := false; ev_Provenance := "";
     ev_TerminalStatus := StatusSucceeded; ev_UpstreamStatus := None; ev_ErrorClass := "";
     ev_Latency := 0; ev_LatencyMS := None; ev_TTFT := 0; ev_TTFTMS := None; ev_CreatedAt := 950 |}.

(** The history: a credit of 10.00, a hold of 1.50, the usage, its charge. *)
Definition demo1 : DB :=
  committed (ids_from 100) (Service_Credit (demo_credit 1000 "order-1") 1000) empty_db.
Definition demo2 : DB := set_prices (<[50%N := demo_version]> ∅) demo1.
Definition demo3 : DB :=
  committed (ids_from 200) (Service_Reserve 4096 (demo_reserve "req-1" (Some 500)) 1000 1000) demo2.
Definition demo4 : DB := record_usage (demo_event 300%N 100%N "req-1" 120) demo3.
Definition demo_settle : SettleInput :=
  {| si_ReservationID := 200%N; si_Event := demo_event 300%N 100%N "req-1" 120 |}.
Definition demo5 : DB := committed (ids_from 400) (Service_Settle demo_settle 2000) demo4.

Lemma demo1_reachable : reachable demo1.
Proof. apply rtc_once, step_credit. vm_compute. by split. Qed.
Lemma demo2_reachable : reachable demo2.
Proof. eapply rtc_r; [apply demo1_reachable|apply step_prices]. Qed.
Lemma demo3_reachable : reachable demo3.
Proof. eapply rtc_r; [apply demo2_reachable|apply step_reserve]. Qed.
Lemma demo4_reachable : reachable demo4.
Proof.
  eapply rtc_r; [apply demo3_reachable|apply step_usage; [by vm_compute|]].
  intros a [= <-]. vm_compute. by split.
Qed.
Lemma demo5_reachable : reachable demo5.
Proof.
  eapply rtc_r; [apply demo4_reachable|apply step_settle]. intros a [= <-]. vm_compute. by split.
Qed.

(** The wallet the history ends with: 8.80 available, nothing reserved. *)
Example demo5_wallet :
  (fun w => (w_Available w, w_Reserved w, w_FinancialHold w)) <$> wallets demo5 !! 100%N
  = Some (880, 0, false).
Proof. vm_compute. reflexivity. Qed.

(** Rows of the history the witnesses name. *)
Lemma demo5_has_wallet : exists w, wallets demo5 !! 100%N = Some w /\ w_Available w = 880.
Proof. eexists. split; vm_compute; reflexivity. Qed.
Lemma demo3_has_wallet : exists w, wallets demo3 !! 100%N = Some w /\ w_Reserved w = 150.
Proof. eexists. split; vm_compute; reflexivity. Qed.
Lemma demo5_has_settlement : exists st, settlements demo5 !! 402%N = Some st.
Proof. eexists. vm_compute; reflexivity. Qed.
Lemma demo3_ledger : exists e1 e2, ledger demo3 = [e1; e2] /\ le_ReservedAfter e2 = 150.
Proof. do 2 eexists. split; vm_compute; reflexivity. Qed.

Example demo5_reservation :
  (fun r => (r_Status r, r_SettledAmountMinor r)) <$> reservations demo5 !! 200%N
  = Some ("settled", Some 120).
Proof. vm_compute. reflexivity. Qed.

(** A history with a liability: opened on an empty wallet, then recovered from
    the next credit. *)
Definition demo_liability : LiabilityInput :=
  {| li_UserID := demo_user; li_Currency := "USD"; li_LiabilityType := "payment_dispute";
     li_ReferenceType := "dispute"; li_ReferenceID := "dp_1"; li_AmountMinor := 70 |}.
Definition demo_l1 : DB := committed (ids_from 500) (Service_OpenLiability demo_liability 1000) empty_db.
Definition demo_l2 : DB :=
  committed (ids_from 600) (Service_Credit (demo_credit 50 "order-9") 1100) demo_l1.

Lemma demo_l1_reachable : reachable demo_l1.
Proof. apply rtc_once, step_open_liability. vm_compute. by split. Qed.
Lemma demo_l1_has_liability :
  exists l, liabilities demo_l1 !! 501%N = Some l /\ l_Status l = "open".
Proof. eexists. split; vm_compute; reflexivity. Qed.

End BillingDemo.
