(* ===== verification/BillingTheorems.v ===== *)
(** * The billing domain keeps its books

    The properties of the reachable rows: the ledger is the source of the
    wallet projection, snapshots chain, reserved funds are exactly what is
    held, the financial hold and the settlement states agree.  Each property
    with a hypothesis is followed by its instance on [BillingDemo]. *)

From stdpp Require Import base gmap strings list relations.
From Stdlib Require Import ZArith Lia Ascii String.
From S2P Require Import Prelude GoLib Usage Pricing BillingModel Money Store StoreFacts.
From S2P Require Import BillingOps BillingService BillingInv BillingFacts BillingSteps BillingDemo.

Module BillingTheorems.
Import Usage Billing Store StoreFacts BillingOps BillingService BillingInv BillingFacts BillingSteps.

Section theorems.
Context `{UuidText, SqlGuards, WallClock}.

Lemma parseInt64Total_ok z : nat_i64 z -> parseInt64Total z = Ok z.
Proof.
  intros Hz. unfold parseInt64Total. i64_unfold.
  rewrite (proj2 (Z.ltb_ge z _)), (proj2 (Z.ltb_ge _ z)) by lia. done.
Qed.

(** C1: after any history of billing operations, with any interleaving of
    successes and roll-backs, the balances of every wallet are the sums of its
    ledger deltas: [RebuildBalance] returns exactly the stored projection, and
    never the overflow error. *)
Theorem ledger_reconstructs_wallet d k w :
  reachable d -> wallets d !! k = Some w -> RebuildBalance k d = Ok (w_Available w, w_Reserved w).
Proof.
  intros HI%reachable_Inv Hw. pose proof (inv_books _ HI) as HB.
  destruct (bk_sum _ _ HB _ _ Hw) as [Ea Er]. destruct (bk_range _ _ HB _ _ Hw) as [Ra Rr].
  unfold RebuildBalance, available_of, reserved_of in *. rewrite Ea, Er.
  rewrite !parseInt64Total_ok by done. done.
Qed.

(** in every reachable state the available and reserved balances of every
    wallet are between zero and the largest [int64] (no hold, charge, credit,
    refund or recovery overdraws or wraps), and a user has at most one wallet
    per currency. *)
Theorem balances_in_range d :
  reachable d ->
  (forall k w, wallets d !! k = Some w ->
     0 <= w_Available w <= max_int64 /\ 0 <= w_Reserved w <= max_int64)
  /\ (forall k1 k2 w1 w2, wallets d !! k1 = Some w1 -> wallets d !! k2 = Some w2 ->
     w_UserID w1 = w_UserID w2 -> w_Currency w1 = w_Currency w2 -> k1 = k2).
Proof.
  intros HI%reachable_Inv. pose proof (inv_books _ HI) as HB. split.
  - intros k w Hw. by apply (bk_range _ _ HB k).
  - apply HB.
Qed.

(** the after-balances written in each ledger row are the running totals of
    its wallet up to and including that row, so the ledger can be audited row
    by row. *)
Theorem ledger_rows_snapshot_the_balances d pre e post :
  reachable d -> ledger d = (pre ++ e :: post)%list ->
  le_AvailableAfter e = available_of (le_WalletID e) (pre ++ [e])
  /\ le_ReservedAfter e = reserved_of (le_WalletID e) (pre ++ [e]).
Proof. intros HI%reachable_Inv. apply (bk_snapshots _ _ (inv_books _ HI)). Qed.

(** C2: the reserved balance of a wallet is exactly the sum of its reservations
    that are still held ([reserved] or [settlement_pending]) plus the net of its
    payment-refund holds, completions and releases. *)
Theorem reserved_is_what_is_held d k w :
  reachable d -> wallets d !! k = Some w ->
  w_Reserved w = held_by k (reservations d) + refund_by k (ledger d).
Proof. intros HI%reachable_Inv. apply (inv_held _ HI). Qed.

(** the financial hold of a wallet is set exactly while the wallet has an
    open liability or a settlement that is still pending. *)
Theorem financial_hold_is_exact d k w :
  reachable d -> wallets d !! k = Some w ->
  w_FinancialHold w = has_open_liability k d || has_pending_settlement k None d.
Proof.
  intros HI%reachable_Inv Hw. rewrite has_pending_settlement_on by apply (inv_res _ HI).
  by apply (inv_hold _ HI).
Qed.

(** reservations and settlements agree: every settlement belongs to one
    reservation, of the same amount, and is pending or settled exactly as the
    reservation says, with the same charge and usage event; a reservation has
    at most one settlement, and has one as soon as it is pending or settled. *)
Theorem reservations_and_settlements_agree d :
  reachable d ->
  (forall k st, settlements d !! k = Some st ->
     exists r, reservations d !! st_ReservationID st = Some r
       /\ ((st_Status st = SettlementPending /\ r_Status r = ReservationSettlementPending)
           \/ (st_Status st = SettlementSettled /\ r_Status r = ReservationSettled))
       /\ st_ReservedAmount st = r_AmountMinor r
       /\ r_SettledAmountMinor r = st_ActualAmount st
       /\ r_UsageEventID r = Some (st_UsageEventID st))
  /\ (forall k1 k2 s1 s2, settlements d !! k1 = Some s1 -> settlements d !! k2 = Some s2 ->
     st_ReservationID s1 = st_ReservationID s2 -> k1 = k2)
  /\ (forall k r, reservations d !! k = Some r ->
     r_Status r = ReservationSettlementPending \/ r_Status r = ReservationSettled ->
     exists ks st, settlements d !! ks = Some st /\ st_ReservationID st = k).
Proof.
  intros HI%reachable_Inv. pose proof (inv_res _ HI) as HR.
  split_and!; [apply (si_agree _ _ _ HR)|apply (si_unique _ _ _ HR)|apply (si_exists _ _ _ HR)].
Qed.

(** a liability never recovers more than its principal, is [open] exactly
    while something is outstanding (unless it was reversed), and belongs to an
    existing wallet. *)
Theorem liabilities_stay_within_principal d k l :
  reachable d -> liabilities d !! k = Some l ->
  0 < l_Principal l <= max_int64 /\ 0 <= l_Recovered l <= l_Principal l
  /\ ((l_Status l = "open" /\ l_Recovered l < l_Principal l)
      \/ (l_Status l = "settled" /\ l_Recovered l = l_Principal l)
      \/ l_Status l = "reversed")
  /\ exists w, wallets d !! l_WalletID l = Some w.
Proof.
  intros HI%reachable_Inv Hl. pose proof (inv_liab _ HI) as HL.
  destruct (lb_ok _ _ HL _ _ Hl) as (? & ? & ?). split_and!; try done; try lia.
  by apply (lb_wallet _ _ HL k).
Qed.

End theorems.

(** ** Instances *)
Import BillingDemo.

Lemma ledger_reconstructs_wallet_witness :
  exists w, wallets demo5 !! 100%N = Some w
    /\ RebuildBalance 100%N demo5 = Ok (w_Available w, w_Reserved w).
Proof.
  destruct demo5_has_wallet as (w & Hw & _). exists w. split; [exact Hw|].
  exact (ledger_reconstructs_wallet demo5 100%N w demo5_reachable Hw).
Defined.

Lemma balances_in_range_witness :
  exists w, wallets demo3 !! 100%N = Some w /\ 0 <= w_Reserved w <= max_int64.
Proof.
  destruct demo3_has_wallet as (w & Hw & _). exists w. split; [exact Hw|].
  exact (proj2 (proj1 (balances_in_range demo3 demo3_reachable) 100%N w Hw)).
Defined.

Lemma ledger_rows_snapshot_the_balances_witness :
  exists e1 e2, ledger demo3 = [e1; e2]
    /\ le_ReservedAfter e2 = reserved_of (le_WalletID e2) [e1; e2].
Proof.
  destruct demo3_ledger as (e1 & e2 & He & _). exists e1, e2. split; [exact He|].
  exact (proj2 (ledger_rows_snapshot_the_balances demo3 [e1] e2 [] demo3_reachable He)).
Defined.

Lemma reserved_is_what_is_held_witness :
  exists w, wallets demo3 !! 100%N = Some w
    /\ w_Reserved w = held_by 100%N (reservations demo3) + refund_by 100%N (ledger demo3).
Proof.
  destruct demo3_has_wallet as (w & Hw & _). exists w. split; [exact Hw|].
  exact (reserved_is_what_is_held demo3 100%N w demo3_reachable Hw).
Defined.

Lemma financial_hold_is_exact_witness :
  exists w, wallets demo5 !! 100%N = Some w
    /\ w_FinancialHold w = has_open_liability 100%N demo5 || has_pending_settlement 100%N None demo5.
Proof.
  destruct demo5_has_wallet as (w & Hw & _). exists w. split; [exact Hw|].
  exact (financial_hold_is_exact demo5 100%N w demo5_reachable Hw).
Defined.

Lemma reservations_and_settlements_agree_witness :
  exists st r, settlements demo5 !! 402%N = Some st
    /\ reservations demo5 !! st_ReservationID st = Some r /\ st_ReservedAmount st = r_AmountMinor r.
Proof.
  destruct demo5_has_settlement as (st & Hst).
  destruct (proj1 (reservations_and_settlements_agree demo5 demo5_reachable) 402%N st Hst)
    as (r & Hr & _ & Ha & _).
  exists st, r. split; [exact Hst|split; [exact Hr|exact Ha]].
Defined.

Lemma liabilities_stay_within_principal_witness :
  exists l, liabilities demo_l1 !! 501%N = Some l /\ 0 <= l_Recovered l <= l_Principal l.
Proof.
  destruct demo_l1_has_liability as (l & Hl & _). exists l. split; [exact Hl|].
  exact (proj1 (proj2 (liabilities_stay_within_principal demo_l1 501%N l demo_l1_reachable Hl))).
Defined.

End BillingTheorems.
