(* ===== verification/BillingHistory.v ===== *)
(** * How the rows evolve along a history

    The ledger, the outbox and the audit log only grow, reservations follow
    their state machine and liabilities only recover until they are reversed:
    one lemma per kind of change, then every step. *)

From stdpp Require Import base gmap strings list relations.
From Stdlib Require Import ZArith Lia Ascii String.
From S2P Require Import Prelude GoLib Usage Pricing BillingModel Money Store StoreFacts.
From S2P Require Import BillingOps BillingService BillingInv BillingFacts BillingSteps BillingDemo.

Module BillingHistory.
Import Usage Billing Store StoreFacts BillingOps BillingService BillingInv BillingFacts BillingSteps.

(** ** State machines *)

(** A reservation is settled or released from [reserved], or waits in
    [settlement_pending] for its settlement. *)
Definition transition (s s' : string) : Prop :=
  s' = s
  \/ (s = ReservationReserved /\ one_of s' [ReservationSettlementPending; ReservationSettled;
                                            ReservationReleased] = true)
  \/ (s = ReservationSettlementPending /\ s' = ReservationSettled).

Definition terminal (s : string) : bool := one_of s [ReservationSettled; ReservationReleased].

Definition reservation_evolves (r r' : Reservation) : Prop :=
  same_reservation r r' /\ transition (r_Status r) (r_Status r')
  /\ (terminal (r_Status r) = true -> r' = r).

Definition liability_evolves (l l' : Liability) : Prop :=
  l_ID l' = l_ID l /\ l_WalletID l' = l_WalletID l /\ l_Principal l' = l_Principal l
  /\ l_Recovered l <= l_Recovered l'
  /\ (l_Status l = "settled" -> l_Status l' = "settled" \/ l_Status l' = "reversed")
  /\ (l_Status l = "reversed" -> l' = l).

Definition wallet_evolves (w w' : Wallet) : Prop :=
  same_owner w w' /\ w_Status w' = w_Status w /\ w_Version w <= w_Version w'.

(** Only the recovery columns of a settlement change, until it is settled. *)
Definition settlement_evolves (st st' : Settlement) : Prop :=
  st_ID st' = st_ID st /\ st_ReservationID st' = st_ReservationID st
  /\ st_UsageEventID st' = st_UsageEventID st /\ st_ReservedAmount st' = st_ReservedAmount st
  /\ st_ActualAmount st' = st_ActualAmount st /\ st_Estimated st' = st_Estimated st
  /\ (st_Status st = SettlementSettled -> st' = st).

Record evolves (d d' : DB) : Prop := {
  ev_ledger : ledger d `prefix_of` ledger d';
  ev_outbox : outbox d `prefix_of` outbox d';
  ev_audit : audit_logs d `prefix_of` audit_logs d';
  ev_reservations : forall k r, reservations d !! k = Some r ->
    exists r', reservations d' !! k = Some r' /\ reservation_evolves r r';
  ev_liabilities : forall k l, liabilities d !! k = Some l ->
    exists l', liabilities d' !! k = Some l' /\ liability_evolves l l';
  ev_wallets : forall k w, wallets d !! k = Some w ->
    exists w', wallets d' !! k = Some w' /\ wallet_evolves w w';
  ev_settlements : forall k st, settlements d !! k = Some st ->
    exists st', settlements d' !! k = Some st' /\ settlement_evolves st st'
}.

Lemma reservation_evolves_refl r : reservation_evolves r r.
Proof. split_and!; try done. by left. Qed.

Lemma liability_evolves_refl l : liability_evolves l l.
Proof. split_and!; try done. auto. Qed.

Lemma reservation_evolves_trans r1 r2 r3 :
  reservation_evolves r1 r2 -> reservation_evolves r2 r3 -> reservation_evolves r1 r3.
Proof.
  intros ((A1 & A2 & A3 & A4 & A5 & A6) & T1 & F1) ((B1 & B2 & B3 & B4 & B5 & B6) & T2 & F2).
  split; [|split].
  - split_and!; [congruence..|]. intros input quote. by rewrite B6.
  - destruct T1 as [E1|[[E1 H1]|[E1 H1]]], T2 as [E2|[[E2 H2]|[E2 H2]]]; unfold transition.
    + left. congruence.
    + right; left. split; [congruence|done].
    + right; right. split; [congruence|done].
    + right; left. split; [congruence|by rewrite E2].
    + rewrite E2 in H1. done.
    + right; left. split; [done|by rewrite H2].
    + right; right. split; [done|congruence].
    + rewrite H1 in E2. done.
    + rewrite H1 in E2. done.
  - intros Ht. rewrite F2; [by apply F1|]. by rewrite (F1 Ht).
Qed.

Lemma liability_evolves_trans l1 l2 l3 :
  liability_evolves l1 l2 -> liability_evolves l2 l3 -> liability_evolves l1 l3.
Proof.
  intros (A1 & A2 & A3 & A4 & A5 & A6) (B1 & B2 & B3 & B4 & B5 & B6). split_and!; try congruence; try lia.
  - intros Hs. destruct (A5 Hs) as [Hs2|Hs2]; [by apply B5|]. right. by rewrite (B6 Hs2).
  - intros Hs. rewrite B6; [by apply A6|]. by rewrite (A6 Hs).
Qed.

Lemma wallet_evolves_refl w : wallet_evolves w w.
Proof. split_and!; done. Qed.

Lemma settlement_evolves_refl st : settlement_evolves st st.
Proof. split_and!; done. Qed.

Lemma wallet_evolves_trans w1 w2 w3 :
  wallet_evolves w1 w2 -> wallet_evolves w2 w3 -> wallet_evolves w1 w3.
Proof.
  intros ((? & ? & ?) & ? & ?) ((? & ? & ?) & ? & ?). split; [split_and!; congruence|].
  split; [congruence|lia].
Qed.

Lemma settlement_evolves_trans s1 s2 s3 :
  settlement_evolves s1 s2 -> settlement_evolves s2 s3 -> settlement_evolves s1 s3.
Proof.
  intros (? & ? & ? & ? & ? & ? & F1) (? & ? & ? & ? & ? & ? & F2). split_and!; try congruence.
  intros Hs. rewrite F2; [by apply F1|]. by rewrite (F1 Hs).
Qed.

(** ** Changes of the rows *)

(** [rows_evolve P m m']: every row of [m] is still there, [P]-related. *)
Section rows.
Context {V : Type} (P : V -> V -> Prop) (Prefl : forall v, P v v)
        (Ptrans : forall v1 v2 v3, P v1 v2 -> P v2 v3 -> P v1 v3).
Implicit Types m : gmap uuid V.

Definition rows_evolve m m' : Prop :=
  forall k v, m !! k = Some v -> exists v', m' !! k = Some v' /\ P v v'.

Lemma rows_evolve_refl m : rows_evolve m m.
Proof. intros k v Hv. by exists v. Qed.

Lemma rows_evolve_trans m1 m2 m3 : rows_evolve m1 m2 -> rows_evolve m2 m3 -> rows_evolve m1 m3.
Proof.
  intros B1 B2 k r Hr. destruct (B1 k r Hr) as (r2 & Hr2 & E1). destruct (B2 k r2 Hr2) as (r3 & Hr3 & E2).
  exists r3. split; [done|]. by eapply Ptrans.
Qed.

Lemma rows_evolve_insert m k v : m !! k = None -> rows_evolve m (<[k := v]> m).
Proof. intros Hk k' x Hx. exists x. by rewrite lookup_insert_ne by congruence. Qed.

Lemma rows_evolve_update m k v v' : m !! k = Some v -> P v v' -> rows_evolve m (<[k := v']> m).
Proof.
  intros Hk He k' x Hx. destruct (decide (k = k')) as [<-|Hne].
  - rewrite Hk in Hx. injection Hx as <-. exists v'. by rewrite lookup_insert_eq.
  - exists x. by rewrite lookup_insert_ne.
Qed.
End rows.

Abbreviation res_evolve := (rows_evolve reservation_evolves).
Abbreviation liab_evolve := (rows_evolve liability_evolves).
Abbreviation wal_evolve := (rows_evolve wallet_evolves).
Abbreviation set_evolve := (rows_evolve settlement_evolves).

Lemma res_evolve_refl R : res_evolve R R.
Proof. apply rows_evolve_refl, reservation_evolves_refl. Qed.
Lemma liab_evolve_refl L : liab_evolve L L.
Proof. apply rows_evolve_refl, liability_evolves_refl. Qed.
Lemma wal_evolve_refl W : wal_evolve W W.
Proof. apply rows_evolve_refl, wallet_evolves_refl. Qed.
Lemma set_evolve_refl S : set_evolve S S.
Proof. apply rows_evolve_refl, settlement_evolves_refl. Qed.

#[export] Instance evolves_refl : Reflexive evolves.
Proof.
  intros d. constructor; try done.
  - apply res_evolve_refl.
  - apply liab_evolve_refl.
  - apply wal_evolve_refl.
  - apply set_evolve_refl.
Qed.

#[export] Instance evolves_trans : Transitive evolves.
Proof.
  intros d1 d2 d3 [L1 O1 A1 R1 B1 W1 S1] [L2 O2 A2 R2 B2 W2 S2]. constructor; [by etrans..| | | |].
  - exact (rows_evolve_trans _ reservation_evolves_trans _ _ _ R1 R2).
  - exact (rows_evolve_trans _ liability_evolves_trans _ _ _ B1 B2).
  - exact (rows_evolve_trans _ wallet_evolves_trans _ _ _ W1 W2).
  - exact (rows_evolve_trans _ settlement_evolves_trans _ _ _ S1 S2).
Qed.

(** The wallet table of an operation: maybe a new wallet, and one updated row. *)
Lemma wal_evolve_open u c now d d1 : opened u c now d d1 -> wal_evolve (wallets d) (wallets d1).
Proof.
  intros [|i Hi _]; [apply wal_evolve_refl|]. by apply rows_evolve_insert, Hi || apply wallet_evolves_refl.
Qed.

Lemma wal_evolve_bump W w now w' :
  W !! w_ID w = Some w -> wal_evolve W (<[w_ID w := bump_wallet now w w']> W).
Proof.
  intros Hw. eapply rows_evolve_update; [apply wallet_evolves_refl|done|].
  split_and!; simpl; try done. lia.
Qed.

Lemma wal_evolve_op u c now d d1 w w' :
  opened u c now d d1 -> wallets d1 !! w_ID w = Some w ->
  wal_evolve (wallets d) (<[w_ID w := bump_wallet now w w']> (wallets d1)).
Proof.
  intros Ho Hw. eapply (rows_evolve_trans _ wallet_evolves_trans);
    [by eapply wal_evolve_open|by apply wal_evolve_bump].
Qed.

Lemma evolves_effect d W R S L es d' :
  effect d W R S L (ledger d ++ es) d' -> wal_evolve (wallets d) W ->
  res_evolve (reservations d) R -> set_evolve (settlements d) S ->
  liab_evolve (liabilities d) L -> evolves d d'.
Proof.
  intros (<- & <- & <- & <- & EG & _ & _ & O & A) HW HR HS HL. constructor; try done.
  rewrite EG. by apply prefix_app_r.
Qed.

Lemma evolves_effect0 d W R S L d' :
  effect d W R S L (ledger d) d' -> wal_evolve (wallets d) W ->
  res_evolve (reservations d) R -> set_evolve (settlements d) S ->
  liab_evolve (liabilities d) L -> evolves d d'.
Proof. intros He. rewrite <- (app_nil_r (ledger d)) in He. by eapply evolves_effect. Qed.

Lemma evolves_rows d d' :
  ledger d' = ledger d -> outbox d' = outbox d -> audit_logs d' = audit_logs d ->
  reservations d' = reservations d -> liabilities d' = liabilities d ->
  wallets d' = wallets d -> settlements d' = settlements d -> evolves d d'.
Proof.
  intros E1 E2 E3 E4 E5 E6 E7. constructor; rewrite ?E1, ?E2, ?E3, ?E4, ?E5, ?E6, ?E7; try done.
  - apply res_evolve_refl.
  - apply liab_evolve_refl.
  - apply wal_evolve_refl.
  - apply set_evolve_refl.
Qed.

(** The tables an operation leaves, and the row of the wallet it posts to. *)
Ltac evo :=
  first [ apply wal_evolve_refl | apply res_evolve_refl | apply set_evolve_refl
        | apply liab_evolve_refl | by eapply wal_evolve_op | by apply wal_evolve_bump | idtac ].

Lemma held_transition s s' :
  held_status s = true -> one_of s' [ReservationSettlementPending; ReservationSettled] = true ->
  transition s s' /\ terminal s = false.
Proof.
  unfold held_status, one_of, transition, terminal. simpl. rewrite !orb_false_r, !orb_true_iff.
  rewrite !String.eqb_eq. intros Hs Hs'. split.
  - destruct Hs as [->| ->], Hs' as [->| ->]; [right; left|right; left|left|right; right]; auto.
  - by destruct Hs as [->| ->].
Qed.

(** The settlement a [Settle] stores over a pending one. *)
Lemma set_evolve_stored W R S r event actual status st :
  res_inv W R S -> R !! r_ID r = Some r -> held_status (r_Status r) = true ->
  settlement_stored r event actual status S st ->
  set_evolve S (<[st_ID st := st]> S).
Proof.
  intros HR Hr Hh (E1 & E2 & E3 & E4 & E5 & E6 & E7 & E8).
  destruct (S !! st_ID st) as [o|] eqn:Ho.
  - destruct (E8 o eq_refl) as (F1 & F2 & F3 & F4 & F5).
    eapply rows_evolve_update; [apply settlement_evolves_refl|done|].
    split_and!; try congruence; [symmetry; by apply (si_keyed _ _ _ HR)|].
    intros Hs. destruct (si_agree _ _ _ HR _ _ Ho) as (r0 & Hr0 & [[Hc _]|[_ Hc]] & _).
    + by rewrite Hs in Hc.
    + rewrite F1, Hr in Hr0. injection Hr0 as <-. by rewrite Hc in Hh.
  - eapply rows_evolve_insert; [apply settlement_evolves_refl|done].
Qed.

Lemma set_evolve_claim token now rows S :
  (forall st, st ∈ rows -> S !! st_ID st = Some st /\ st_Status st = SettlementPending) ->
  set_evolve S (foldr (fun st m => <[st_ID st := claim_row token now st]> m) S rows).
Proof.
  induction rows as [|x rows IH]; intros Hrows; simpl; [apply set_evolve_refl|].
  intros k st Hk. destruct (decide (st_ID x = k)) as [<-|Hne].
  - destruct (Hrows x ltac:(apply list_elem_of_here)) as [Hx Hp].
    rewrite Hx in Hk. injection Hk as <-. eexists. rewrite lookup_insert_eq. split; [done|].
    split_and!; try done. by rewrite Hp.
  - rewrite lookup_insert_ne by done. apply IH; [|done].
    intros y Hy. apply Hrows. by apply elem_of_cons; right.
Qed.

Section steps.
Context `{UuidText, SqlGuards, WallClock}.

Lemma evolves_settle r status settled event reason now :
  held_status (r_Status r) = true ->
  one_of status [ReservationSettlementPending; ReservationSettled] = true ->
  reservation_evolves r (set_reservation_status status settled event reason now r).
Proof.
  intros Hh Hs. destruct (held_transition _ _ Hh Hs) as [Ht Hn]. split_and!; [done..| |].
  - exact Ht.
  - by rewrite Hn.
Qed.

Lemma plan_evolves wid now plan L :
  plan_ok wid L plan -> liab_evolve L (apply_plan now plan L).
Proof.
  revert L. induction plan as [|[l r] plan IH]; intros L [Hol Ham]; [apply liab_evolve_refl|].
  destruct (proj2 Hol l ltac:(apply list_elem_of_here)) as (Hlk & Hok & Hopen & Hwid).
  change (apply_plan now ((l, r) :: plan) L)
    with (apply_plan now plan (<[l_ID l := recovered_row now l r]> L)).
  eapply (rows_evolve_trans _ liability_evolves_trans); [|apply IH].
  - eapply rows_evolve_update; [apply liability_evolves_refl|done|].
    pose proof (Ham l r ltac:(apply list_elem_of_here)).
    split_and!; simpl; try done; [lia| |]; by rewrite Hopen.
  - split; [by apply open_list_cons|]. intros l' r' Hin. apply Ham. by apply elem_of_cons; right.
Qed.

Lemma evolves_recover wallet available src now ids d ids' d' w0 :
  Inv d -> wallets d !! w_ID w0 = Some w0 -> w_ID wallet = w_ID w0 ->
  w_Reserved wallet = w_Reserved w0 -> available = w_Available w0 ->
  recoverWalletLiabilities wallet available src now (ids, d) = Ok ((ids', d'), tt) -> evolves d d'.
Proof.
  intros HI Hw Hid Hr Ha Hs. eapply recoverWalletLiabilities_ok in Hs as [[<- _]|Hre]; try done.
  destruct Hre as (es & _ & _ & _ & Heff). destruct (bk_range _ _ (inv_books _ HI) _ _ Hw).
  eapply evolves_effect; [exact Heff|evo..]. eapply plan_evolves, recover_plan_ok; [i64_unfold; lia|]. by apply open_liabilities_list, inv_liab.
Qed.

Lemma evolves_refund n now t key amount da dr d w e d' :
  refund_posted n now t key amount da dr d w e d' -> evolves d d'.
Proof.
  intros (d1 & Ho & Hw & _ & _ & _ & _ & _ & _ & Heff). eapply evolves_effect; [exact Heff|evo..].
Qed.

Lemma evolves_Credit input now ids d s' e :
  in_i64 (cr_AmountMinor input) -> Inv d ->
  CreditInTx input now (ids, d) = Ok (s', e) -> evolves d s'.2.
Proof.
  intros Ha HI Hm.
  apply CreditInTx_ok in Hm as [(k & -> & _)|(w & d2 & d3 & i2 & i3 & Hp & Hrec & ->)]; try done.
  pose proof (Inv_credit_posted _ _ _ _ _ _ HI Hp) as (HI2 & w2 & Hw2 & Hid & Hr2 & Ha2).
  destruct Hp as (d1 & Ho & Hw & _ & _ & _ & _ & _ & _ & _ & Heff).
  etrans; [eapply evolves_effect; [exact Heff|evo..]|].
  refine (evolves_recover _ _ _ _ _ _ _ _ w2 HI2 Hw2 _ _ _ Hrec); done.
Qed.

Lemma evolves_Reverse liabilityID now ids d s' v :
  Inv d -> ReverseLiabilityInTx liabilityID now (ids, d) = Ok (s', v) -> evolves d s'.2.
Proof.
  intros HI Hs. apply ReverseLiability_ok in Hs as [(-> & _)|Hs]; [done| |done].
  destruct Hs as (l & w & src & d2 & d3 & ids2 & ids3 & Hrev & Hrec & Heff).
  pose proof (Inv_liability_reversed _ _ _ _ _ _ HI Hrev) as (HI2 & w2 & Hw2 & Hid & Hr2 & Ha2).
  destruct Hrev as (es & Hl & Hlid & Hnr & Hw & _ & _ & _ & _ & Heff2).
  etrans; [|eapply evolves_effect0; [exact Heff|evo..]]. trans d2.
  - eapply evolves_effect; [exact Heff2|evo..].
    eapply rows_evolve_update; [apply liability_evolves_refl|by rewrite Hlid|]. split_and!; simpl; try done; auto; lia.
  - destruct (0 <? l_Recovered l); [|by subst].
    refine (evolves_recover _ _ _ _ _ _ _ _ w2 HI2 Hw2 _ _ _ Hrec); done.
Qed.

Lemma evolves_Reserve output input checked now ids d s' r :
  Inv d -> Service_Reserve output input checked now (ids, d) = Ok (s', r) -> evolves d s'.2.
Proof.
  intros HI Hm. unfold Service_Reserve in Hm.
  apply tx_bind_ok in Hm as (s1 & n & Hn & Hm). apply tx_lift_ok in Hn as [Hn ->].
  apply tx_bind_ok in Hm as (s1 & q & Hq & Hm). apply tx_lift_ok in Hq as [Hq ->].
  destruct (Z.eqb_spec (q_AmountMinor q) 0); [by op_inv|].
  apply Reserve_ok in Hm as [(-> & _)|Hm]; [done| |exact (bk_keyed _ _ (inv_books _ HI))].
  destruct Hm as (d1 & w & ra & e & Ho & Hw & _ & _ & _ & _ & _ & _ & _ & _ & _ & Hf & _ & _ & _ & _ & He).
  eapply evolves_effect; [exact He|evo..].
  eapply rows_evolve_insert; [apply reservation_evolves_refl|done].
Qed.

Lemma evolves_Settle input now ids d s' st b :
  (forall a, ev_AmountMinor (si_Event input) = Some a -> in_i64 a) ->
  Inv d -> Service_Settle input now (ids, d) = Ok (s', (st, b)) -> evolves d s'.2.
Proof.
  intros Hty HI Hm. apply Service_Settle_inv in Hm as (actual & Ha & Hpos & _ & Hm).
  specialize (Hty _ Ha). assert (nat_i64 actual) by (i64_unfold; lia).
  pose proof (inv_res _ HI) as HR.
  apply Settle_ok in Hm as [(-> & _)|[Hm|Hm]]; try done.
  - destruct Hm as (r & w & Hres & _ & Hheld & Hw & _ & _ & _ & Hst & He).
    rewrite <- (ri_keyed _ _ _ HR _ _ Hres) in Hres.
    rewrite <- (bk_keyed _ _ (inv_books _ HI) _ _ Hw) in Hw.
    eapply evolves_effect0; [exact He|evo..].
    + eapply rows_evolve_update; [apply reservation_evolves_refl|exact Hres|by apply evolves_settle].
    + by eapply set_evolve_stored.
  - destruct Hm as (r & w & es & Hres & _ & Hheld & Hw & _ & _ & _ & _ & Hst & _ & He).
    rewrite <- (ri_keyed _ _ _ HR _ _ Hres) in Hres.
    rewrite <- (bk_keyed _ _ (inv_books _ HI) _ _ Hw) in Hw.
    eapply evolves_effect; [exact He|evo..].
    + eapply rows_evolve_update; [apply reservation_evolves_refl|exact Hres|by apply evolves_settle].
    + by eapply set_evolve_stored.
Qed.

Lemma evolves_Release input now ids d s' u :
  Inv d -> Release_tx input now (ids, d) = Ok (s', u) -> evolves d s'.2.
Proof.
  intros HI Hm. pose proof (inv_res _ HI) as HR.
  apply Release_ok in Hm as [(-> & _)|Hm]; [done| |done].
  destruct Hm as (r & w & aa & e & Hres & Hs & Hw & _ & _ & _ & _ & _ & He).
  rewrite <- (ri_keyed _ _ _ HR _ _ Hres) in Hres.
  eapply evolves_effect; [exact He|evo..].
  eapply rows_evolve_update; [apply reservation_evolves_refl|exact Hres|]. split_and!; [done..| |by rewrite Hs].
  right; left. by split.
Qed.

Lemma evolves_Open input now ids d s' l :
  Inv d -> 0 < li_AmountMinor input <= max_int64 ->
  OpenLiabilityInTx input now (ids, d) = Ok (s', l) -> evolves d s'.2.
Proof.
  intros HI Hr Hm. apply OpenLiability_ok in Hm as [(-> & _)|Hm]; try done.
  destruct Hm as (d1 & w & es & Ho & Hw & _ & _ & _ & Hf & _ & _ & _ & _ & _ & _ & _ & l0 & _ & _ & He).
  eapply evolves_effect; [exact He|evo..].
  eapply rows_evolve_insert; [apply liability_evolves_refl|done].
Qed.

Ltac step_run H :=
  match goal with
  | |- evolves ?d (committed ?ids ?m ?d) =>
      let s' := fresh "s'" in let a := fresh "a" in let HC := fresh "HC" in
      destruct (committed_inv ids m d) as [->|(s' & a & H & HC)]; [done|rewrite HC; clear HC]
  end.

Lemma step_evolves d d' : step d d' -> Inv d -> evolves d d'.
Proof.
  intros Hst HI. destruct Hst; try (step_run Hm).
  - by eapply evolves_Reserve.
  - destruct a. by eapply evolves_Settle.
  - unfold Service_Release in Hm. case_match; [by op_inv|]. by eapply evolves_Release.
  - unfold Service_Credit in Hm. op_inv.
    match goal with H : normalizeCreditInput _ = _ |- _ => apply normalizeCreditInput_amount in H as Hn end.
    eapply evolves_Credit; [|done|exact Hm]. by rewrite Hn.
  - unfold Service_OpenLiability in Hm. op_inv.
    match goal with H : normalizeLiabilityInput _ = _ |- _ =>
      apply normalizeLiabilityInput_amount in H as [Hn Hpos] end.
    eapply evolves_Open; [done| |exact Hm]. rewrite Hn; i64_unfold; lia.
  - unfold Service_ReverseLiability in Hm. op_inv. by eapply evolves_Reverse.
  - apply HoldPaymentRefund_ok in Hm as (n & _ & [(-> & _)|(w & _ & Hm)]); try done.
    by eapply evolves_refund.
  - apply CompletePaymentRefund_ok in Hm as (n & _ & [(-> & _)|(w & _ & Hm)]); try done.
    by eapply evolves_refund.
  - apply ReleasePaymentRefund_ok in Hm as (n & _ & [(-> & _)|(w & _ & Hm)]); try done.
    by eapply evolves_refund.
  - unfold ClaimPendingSettlements in Hm. op_inv. eapply evolves_effect0; [solve_effect|evo..].
    apply set_evolve_claim. intros st Hst. apply claim_candidates_rows in Hst as (? & Hd & _); [|done].
    unfold settlement_due in Hd. bools. done.
  - unfold DeferPendingSettlement in Hm. op_inv.
    destruct (settlements d !! settlementID) as [st|] eqn:Hst; [|by op_inv].
    destruct (String.eqb_spec (st_Status st) SettlementPending) as [Hp|]; [|by op_inv]. op_inv.
    eapply evolves_effect0; [solve_effect|evo..].
    eapply rows_evolve_update; [apply settlement_evolves_refl|exact Hst|].
    split_and!; try done. by rewrite Hp.
  - exact (evolves_rows d (record_usage u d) eq_refl eq_refl eq_refl eq_refl eq_refl eq_refl eq_refl).
  - exact (evolves_rows d (set_prices pv d) eq_refl eq_refl eq_refl eq_refl eq_refl eq_refl eq_refl).
Qed.

(** Between two reachable states. *)
Lemma steps_evolve d d' : reachable d -> rtc step d d' -> evolves d d'.
Proof.
  intros Hr Hs. induction Hs as [|d1 d2 d3 Hs _ IH]; [done|].
  etrans; [apply step_evolves; [done|by apply reachable_Inv]|].
  apply IH. by eapply rtc_r.
Qed.

(** history is never rewritten: whatever operations run after a reachable
    state, its ledger, its outbox events and its audit rows stay as they are,
    in order, and new rows only follow them. *)
Theorem history_is_append_only d d' :
  reachable d -> rtc step d d' ->
  ledger d `prefix_of` ledger d' /\ outbox d `prefix_of` outbox d'
  /\ audit_logs d `prefix_of` audit_logs d'.
Proof. intros Hr Hs. destruct (steps_evolve _ _ Hr Hs). done. Qed.

(** a reservation keeps its wallet, amount and request for ever, moves only
    from [reserved] to [settlement_pending], [settled] or [released] and from
    [settlement_pending] to [settled], and a settled or released row is never
    written again. *)
Theorem reservation_lifecycle d d' k r :
  reachable d -> rtc step d d' -> reservations d !! k = Some r ->
  exists r', reservations d' !! k = Some r'
    /\ r_WalletID r' = r_WalletID r /\ r_AmountMinor r' = r_AmountMinor r
    /\ r_RequestID r' = r_RequestID r
    /\ transition (r_Status r) (r_Status r')
    /\ (terminal (r_Status r) = true -> r' = r).
Proof.
  intros Hr Hs Hk. pose proof (ev_reservations _ _ (steps_evolve _ _ Hr Hs)) as HR.
  destruct (HR k r Hk) as (r' & Hr' & (_ & ? & ? & ? & _ & _) & ? & ?). exists r'. by split_and!.
Qed.

(** a liability keeps its wallet and principal, what it recovered never
    decreases, a settled one is only ever reversed, and a reversed one is
    never written again. *)
Theorem liability_lifecycle d d' k l :
  reachable d -> rtc step d d' -> liabilities d !! k = Some l ->
  exists l', liabilities d' !! k = Some l'
    /\ l_WalletID l' = l_WalletID l /\ l_Principal l' = l_Principal l
    /\ l_Recovered l <= l_Recovered l'
    /\ (l_Status l = "settled" -> l_Status l' = "settled" \/ l_Status l' = "reversed")
    /\ (l_Status l = "reversed" -> l' = l).
Proof.
  intros Hr Hs Hk. pose proof (ev_liabilities _ _ (steps_evolve _ _ Hr Hs)) as HL.
  destruct (HL k l Hk) as (l' & Hl' & _ & ? & ? & ? & ? & ?). exists l'. by split_and!.
Qed.

End steps.

(** ** Instances *)
Import BillingDemo.

Lemma demo3_to_demo5 : rtc step demo3 demo5.
Proof.
  apply (rtc_l _ _ demo4).
  - apply step_usage; [by vm_compute|]. intros a [= <-]. vm_compute. by split.
  - apply rtc_once, step_settle. intros a [= <-]. vm_compute. by split.
Qed.

Lemma history_is_append_only_witness :
  ledger demo3 `prefix_of` ledger demo5 /\ List.length (ledger demo3) = 2%nat.
Proof.
  split.
  - exact (proj1 (history_is_append_only demo3 demo5 demo3_reachable demo3_to_demo5)).
  - vm_compute. reflexivity.
Defined.

Lemma demo3_has_reservation :
  exists r, reservations demo3 !! 200%N = Some r /\ r_Status r = ReservationReserved.
Proof. eexists. split; vm_compute; reflexivity. Qed.

Lemma reservation_lifecycle_witness :
  exists r r', reservations demo3 !! 200%N = Some r /\ reservations demo5 !! 200%N = Some r'
    /\ r_AmountMinor r' = r_AmountMinor r.
Proof.
  destruct demo3_has_reservation as (r & Hr & _).
  destruct (reservation_lifecycle demo3 demo5 200%N r demo3_reachable demo3_to_demo5 Hr)
    as (r' & Hr' & _ & Ha & _).
  exists r, r'. split; [exact Hr|split; [exact Hr'|exact Ha]].
Defined.

Lemma demo_l1_to_l2 : rtc step demo_l1 demo_l2.
Proof. apply rtc_once, step_credit. vm_compute. by split. Qed.
Lemma demo_l2_reachable : reachable demo_l2.
Proof. unfold reachable. trans demo_l1; [apply demo_l1_reachable|apply demo_l1_to_l2]. Qed.

Lemma liability_lifecycle_witness :
  exists l l', liabilities demo_l1 !! 501%N = Some l /\ liabilities demo_l2 !! 501%N = Some l'
    /\ l_Recovered l <= l_Recovered l'.
Proof.
  destruct demo_l1_has_liability as (l & Hl & _).
  destruct (liability_lifecycle demo_l1 demo_l2 501%N l demo_l1_reachable demo_l1_to_l2 Hl)
    as (l' & Hl' & _ & _ & Ha & _).
  exists l, l'. split; [exact Hl|split; [exact Hl'|exact Ha]].
Defined.

End BillingHistory.
