(* ===== verification/BillingOpTheorems.v ===== *)
(** * The billing operations, one by one

    What a caller may rely on: the funds a reservation moves and the checks it
    passed, the exact charge of a settlement, idempotent retries that hold
    after any further history, the order and the amounts of liability
    recovery, and the leases of the recovery worker. *)

From stdpp Require Import base gmap strings list relations sorting.
From Stdlib Require Import ZArith Lia Ascii String.
From S2P Require Import Prelude GoLib Usage Pricing BillingModel Money Store StoreFacts.
From S2P Require Import BillingOps BillingService BillingInv BillingFacts BillingSteps BillingDemo.
From S2P Require Import BillingHistory.

Module BillingOpTheorems.
Import Usage Billing Money Store StoreFacts BillingOps BillingService BillingInv BillingFacts.
Import BillingSteps BillingHistory.

Section theorems.
Context `{UuidText, SqlGuards, WallClock}.

(** ** Shared lemmas *)
Lemma opt_uuid_eqb_refl o : opt_uuid_eqb o o = true.
Proof. by apply opt_uuid_eqb_eq. Qed.

Lemma cloneUUID_idem o : cloneUUID (cloneUUID o) = cloneUUID o.
Proof.
  destruct o as [u|]; [|done]. simpl. unfold uuidPointer. destruct (uuid_eqb u uuid_nil) eqn:E; [done|].
  simpl. unfold uuidPointer. by rewrite E.
Qed.

(** A normalised input carries no nil identifier in an optional field. *)
Definition normal_input (n : ReserveInput) : Prop :=
  cloneUUID (ri_RequestRecordID n) = ri_RequestRecordID n
  /\ cloneUUID (ri_ModelID n) = ri_ModelID n
  /\ cloneUUID (ri_ProviderModelID n) = ri_ProviderModelID n
  /\ cloneUUID (ri_RouteVersionID n) = ri_RouteVersionID n
  /\ cloneUUID (ri_ProviderID n) = ri_ProviderID n
  /\ cloneUUID (ri_CredentialID n) = ri_CredentialID n.

Lemma normalizeReserveInput_normal input output now n :
  normalizeReserveInput input output now = Ok n -> normal_input n.
Proof.
  unfold normalizeReserveInput. repeat (case_match; try done).
  all: intros [= <-]; unfold normal_input; cbn [ri_RequestRecordID ri_ModelID ri_ProviderModelID
    ri_RouteVersionID ri_ProviderID ri_CredentialID]; by rewrite !cloneUUID_idem.
Qed.

Lemma new_reservation_same i w n q now :
  normal_input n -> sameReservationInput (new_reservation i w n q now) n q = true.
Proof.
  intros (E1 & E2 & E3 & E4 & E5 & E6). unfold sameReservationInput, new_reservation, equalUUID. simpl.
  rewrite E1, E2, E3, E4, E5, E6, !opt_uuid_eqb_refl, !uuid_eqb_refl, !String.eqb_refl, Z.eqb_refl.
  by rewrite bool_decide_true.
Qed.

(** The row with a given request identifier is the one [SELECT] returns. *)
Lemma find_by_request R W S k r rid :
  res_inv W R S -> R !! k = Some r -> r_RequestID r = rid ->
  map_find (fun r => String.eqb (r_RequestID r) rid) R = Some r.
Proof.
  intros HR Hk Hq. destruct (map_find _ R) as [r'|] eqn:Hf.
  - apply map_find_Some in Hf as (k' & Hk' & Hq'%String.eqb_eq).
    assert (k' = k) as -> by (eapply (ri_request _ _ _ HR); [done..|congruence]). congruence.
  - eapply map_find_None in Hf; [|exact Hk]. apply String.eqb_neq in Hf. done.
Qed.

(** ** Reserve *)

(** C4: a successful [Reserve] either returns, unchanged, the existing
    reservation of the same request and the same input, or: the price version
    was published, the wallet of the user in the quoted currency was active and
    without financial hold, the daily and monthly limits of the key hold with
    this amount added to what is spent and held, and exactly the quoted amount
    moved from available to reserved of that one wallet, recorded by one new
    [reserved] row for the request. *)
Theorem Reserve_holds_exactly_the_quote input quote now ids d s' r :
  reachable d -> 0 < q_AmountMinor quote <= max_int64 ->
  Reserve input quote now (ids, d) = Ok (s', r) ->
  (s'.2 = d /\ sameReservationInput r input quote = true
   /\ exists k, reservations d !! k = Some r)
  \/ (price_published (q_PriceVersionID quote) (q_Currency quote) now d = true
      /\ within_budgets input (q_AmountMinor quote) now d
      /\ reservations s'.2 = <[r_ID r := r]> (reservations d) /\ reservations d !! r_ID r = None
      /\ r_Status r = ReservationReserved /\ r_AmountMinor r = q_AmountMinor quote
      /\ r_RequestID r = ri_RequestID input /\ r_PriceVersionID r = q_PriceVersionID quote
      /\ exists w w', wallets d !! r_WalletID r = Some w
         /\ w_UserID w = ri_UserID input /\ w_Currency w = q_Currency quote
         /\ w_Status w = "active" /\ w_FinancialHold w = false
         /\ wallets s'.2 = <[r_WalletID r := w']> (wallets d)
         /\ w_Available w' = w_Available w - q_AmountMinor quote
         /\ w_Reserved w' = w_Reserved w + q_AmountMinor quote
         /\ 0 <= w_Available w').
Proof.
  intros HI%reachable_Inv Hq Hm. apply Reserve_ok in Hm; [|exact (bk_keyed _ _ (inv_books _ HI))].
  destruct Hm as [(Hd & Hs & k & Hk & _)|Hf]; [left; by eauto|right].
  destruct Hf as (d1 & w & ra & e & Hop & Hw & Hu & Hc & Hst & Hh & Hp & Hb & Hle & Hadd & Hr & Hfr
    & _ & _ & He & _ & Heff).
  assert (d1 = d) as ->.
  { destruct Hop as [|i Hi Hno]; [done|exfalso]. simpl in Hw.
    apply lookup_insert_Some in Hw as [[_ Hz]|[_ Hw]].
    - rewrite <- Hz in Hle. simpl in Hle. lia.
    - specialize (Hno _ _ Hw). unfold wallet_owned in Hno.
      by rewrite Hu, Hc, uuid_eqb_refl, String.eqb_refl in Hno. }
  destruct (bk_range _ _ (inv_books _ HI) _ _ Hw) as [Ra Rr].
  apply checked_add_ok in Hadd as [-> Hmax]; [|i64_unfold; lia..].
  rewrite (i64_sub_id (w_Available w)) in * by (i64_unfold; lia).
  destruct Heff as (EW & ER & _).
  assert (r_WalletID r = w_ID w /\ r_Status r = ReservationReserved
    /\ r_AmountMinor r = q_AmountMinor quote /\ r_RequestID r = ri_RequestID input
    /\ r_PriceVersionID r = q_PriceVersionID quote) as (-> & ? & ? & ? & ?) by (by rewrite Hr).
  split_and!; try done. eexists w, _. split_and!; try done; simpl; lia.
Qed.

(** retries of [Reserve] are idempotent for ever: once a reservation was
    made for an input, the same input (a request without expiry) returns that
    reservation whatever happened since, and changes no row. *)
Theorem Reserve_retry_returns_the_reservation output input c1 n1 c2 n2 ids d s1 r d2 i ids2 :
  reachable d -> ri_ExpiresAt input = None ->
  Service_Reserve output input c1 n1 (ids, d) = Ok (s1, r) -> r_Status r <> ReservationNone ->
  rtc step s1.2 d2 ->
  exists r2, Service_Reserve output input c2 n2 (i :: ids2, d2) = Ok ((ids2, d2), r2)
    /\ r_ID r2 = r_ID r /\ r_WalletID r2 = r_WalletID r /\ r_AmountMinor r2 = r_AmountMinor r.
Proof.
  intros Hr Hexp Hm Hnone Hs2. pose proof (reachable_Inv _ Hr) as HI.
  assert (rtc step d s1.2) as Hs1.
  { apply rtc_once. rewrite <- (committed_ok _ _ _ _ _ Hm). apply step_reserve. }
  assert (reachable s1.2) as Hr1 by (unfold reachable in *; by trans d).
  assert (reachable d2) as Hr2 by (unfold reachable in *; by trans s1.2).
  unfold Service_Reserve in *.
  apply tx_bind_ok in Hm as (s0 & n & Hn & Hm). apply tx_lift_ok in Hn as [Hn ->].
  apply tx_bind_ok in Hm as (s0 & q & Hq & Hm). apply tx_lift_ok in Hq as [Hq ->].
  assert (normalizeReserveInput input output c2 = Ok n) as Hn2.
  { rewrite <- Hn. unfold normalizeReserveInput. by rewrite Hexp. }
  pose proof (normalizeReserveInput_normal _ _ _ _ Hn) as Hnorm.
  destruct (Z.eqb_spec (q_AmountMinor q) 0) as [Hz|Hz].
  { injection Hm as <- <-. by destruct Hnone. }
  assert (exists k, reservations s1.2 !! k = Some r /\ sameReservationInput r n q = true
          /\ r_RequestID r = ri_RequestID n) as (k & Hk & Hsame & Hreq).
  { apply Reserve_ok in Hm; [|exact (bk_keyed _ _ (inv_books _ HI))].
    destruct Hm as [(-> & Hsame & k & Hk & Hreq)|Hf]; [by eauto|].
    destruct Hf as (d1 & w & ra & e & _ & _ & _ & _ & _ & _ & _ & _ & _ & _ & Hnew & _ & _ & _ & _ & _ & Heff).
    destruct Heff as (_ & ER & _). exists (r_ID r). rewrite ER, lookup_insert_eq.
    split; [done|]. rewrite Hnew. split; [by apply new_reservation_same|done]. }
  destruct (ev_reservations _ _ (steps_evolve _ _ Hr1 Hs2) k r Hk)
    as (r2 & Hk2 & (EI & EW & EA & EQ & _ & ES) & _).
  exists r2. split; [|done].
  erewrite tx_bind_eq by (unfold tx_lift; by rewrite Hn2).
  erewrite tx_bind_eq by (unfold tx_lift; by rewrite Hq).
  rewrite (proj2 (Z.eqb_neq _ _)) by done. unfold Reserve.
  erewrite tx_bind_eq by reflexivity.
  erewrite tx_bind_eq; [|].
  2: { unfold optional, loadReservationByRequestID. erewrite tx_bind_eq by reflexivity. simpl.
       erewrite find_by_request; [|exact (inv_res _ (reachable_Inv _ Hr2))|exact Hk2|congruence].
       reflexivity. }
  cbn beta iota. rewrite ES, Hsame. reflexivity.
Qed.

(** *** Refusals *)
Lemma spent_nonneg key start d : 0 <= spent_since key start d.
Proof. apply lsum_nonneg. intros e _. repeat case_match; bools; lia. Qed.

Lemma held_nonneg key d : Inv d -> 0 <= held_total key d.
Proof.
  intros HI. apply msum_nonneg. intros k r Hk.
  pose proof (ri_amount _ _ _ (inv_res _ HI) _ _ Hk). case_match; lia.
Qed.

Lemma check_limits_err key held amount checks ids d :
  (exists limit start, (Some limit, start) ∈ checks /\ limit < spent_since key start d + held + amount) ->
  check_limits key held amount checks (ids, d) = Err ErrBudgetExceeded.
Proof.
  induction checks as [|[[l|] st] rest IH]; intros (limit & start & Hin & Hlt).
  - by apply elem_of_nil in Hin.
  - simpl. erewrite tx_bind_eq by reflexivity.
    erewrite tx_bind_eq.
    2: { unfold parseBigTotal, tx_lift. simpl.
         rewrite (proj2 (Z.ltb_ge _ _)) by apply spent_nonneg. reflexivity. }
    destruct (Z.ltb_spec l (spent_since key st d + held + amount)) as [Hl|Hl].
    + done.
    + erewrite tx_bind_eq by reflexivity. apply IH. exists limit, start. split; [|done].
      apply elem_of_cons in Hin as [[= -> ->]|Hin]; [lia|done].
  - simpl. apply IH. exists limit, start. split; [|done].
    by apply elem_of_cons in Hin as [[=]|Hin].
Qed.

Lemma checkBudgets_err input amount now ids d :
  Inv d -> ~ within_budgets input amount now d ->
  checkBudgets input amount now (ids, d) = Err ErrBudgetExceeded.
Proof.
  intros HI Hn.
  assert (exists limit start, (Some limit, start) ∈
      [(ri_DailyBudgetMinor input, day_start now); (ri_MonthlyBudgetMinor input, month_start now)]
      /\ limit < spent_since (ri_APIKeyID input) start d + held_total (ri_APIKeyID input) d + amount) as Hex.
  { unfold within_budgets in Hn.
    destruct (ri_DailyBudgetMinor input) as [l1|] eqn:E1;
      [destruct (Z.le_gt_cases (spent_since (ri_APIKeyID input) (day_start now) d
          + held_total (ri_APIKeyID input) d + amount) l1) as [Hl1|Hl1];
        [|exists l1, (day_start now); split; [constructor|lia]]|];
    (destruct (ri_MonthlyBudgetMinor input) as [l2|] eqn:E2;
      [destruct (Z.le_gt_cases (spent_since (ri_APIKeyID input) (month_start now) d
          + held_total (ri_APIKeyID input) d + amount) l2) as [Hl2|Hl2];
        [|exists l2, (month_start now); split; [do 2 constructor|lia]]|]);
    exfalso; apply Hn; naive_solver. }
  assert (exists b, checkBudgets input amount now (ids, d)
    = (if b : bool then mret tt else
        check_limits (ri_APIKeyID input) (held_total (ri_APIKeyID input) d) amount
        [(ri_DailyBudgetMinor input, day_start now); (ri_MonthlyBudgetMinor input, month_start now)])
        (ids, d) /\ (b = true -> ri_DailyBudgetMinor input = None /\ ri_MonthlyBudgetMinor input = None))
    as (b & -> & Hb).
  { unfold checkBudgets. destruct (ri_DailyBudgetMinor input), (ri_MonthlyBudgetMinor input);
      [exists false|exists false|exists false|by exists true]; (split; [|done]);
      (erewrite tx_bind_eq by reflexivity); (erewrite tx_bind_eq; [done|]);
      unfold parseBigTotal, tx_lift; simpl;
      rewrite (proj2 (Z.ltb_ge _ _)) by (by apply held_nonneg); reflexivity. }
  destruct b; [|by apply check_limits_err].
  destruct (Hb eq_refl) as [E1 E2]. destruct Hex as (l & st & Hin & _). rewrite E1, E2 in Hin.
  repeat (apply elem_of_cons in Hin as [[=]|Hin]). by apply elem_of_nil in Hin.
Qed.

Lemma getOrCreateWallet_existing u c now i ids d k w :
  Inv d -> wallets d !! k = Some w -> w_UserID w = u -> w_Currency w = c ->
  getOrCreateWallet u c now (i :: ids, d) = Ok ((ids, d), w).
Proof.
  intros HI Hk Hu Hc. unfold getOrCreateWallet.
  assert (wallet_owned u c w = true) as Hown
    by (unfold wallet_owned; by rewrite Hu, Hc, uuid_eqb_refl, String.eqb_refl).
  erewrite tx_bind_eq by reflexivity.
  erewrite (tx_bind_eq _ _ _ (ids, d) tt).
  2: { unfold mapped, insert_wallet. erewrite tx_bind_eq by reflexivity. simpl.
       rewrite (proj2 (map_any_true _ _)) by eauto. reflexivity. }
  unfold mapped, select_wallet_by_owner. erewrite tx_bind_eq by reflexivity. simpl.
  destruct (map_find (wallet_owned u c) (wallets d)) as [w'|] eqn:Hf.
  - apply map_find_Some in Hf as (k' & Hk' & Ho'). unfold wallet_owned in Ho'. bools.
    assert (k' = k) as -> by (eapply (bk_owner _ _ (inv_books _ HI)); [done..|congruence|congruence]).
    rewrite Hk in Hk'. injection Hk' as <-. done.
  - eapply map_find_None in Hf; [|exact Hk]. congruence.
Qed.

(** the refusals of [Reserve], in the order the code decides them: a price
    version that is not published, a wallet that is not active or on financial
    hold, a daily or monthly limit the amount would exceed, too little
    available balance; each with its own error, and with no row changed. *)
Theorem Reserve_refusals input quote now i j ids d k w :
  reachable d ->
  (forall k r, reservations d !! k = Some r -> r_RequestID r <> ri_RequestID input) ->
  wallets d !! k = Some w -> w_UserID w = ri_UserID input -> w_Currency w = q_Currency quote ->
  let published := price_published (q_PriceVersionID quote) (q_Currency quote) now d in
  let outcome := run_billing (i :: j :: ids) (Reserve input quote now) d in
  (published = false \/ q_PriceVersionID quote = uuid_nil -> outcome = (d, Err ErrPriceMissing))
  /\ (published = true -> q_PriceVersionID quote <> uuid_nil ->
      (w_Status w <> "active" \/ w_FinancialHold w = true -> outcome = (d, Err ErrWalletFrozen))
      /\ (w_Status w = "active" -> w_FinancialHold w = false ->
          (~ within_budgets input (q_AmountMinor quote) now d -> outcome = (d, Err ErrBudgetExceeded))
          /\ (checkBudgets input (q_AmountMinor quote) now (ids, d) = Ok ((ids, d), tt) ->
              w_Available w < q_AmountMinor quote -> outcome = (d, Err ErrInsufficientFunds)))).
Proof.
  intros HI%reachable_Inv Hnew Hw Hu Hc published outcome.
  assert (forall e, Reserve input quote now (i :: j :: ids, d) = Err e -> outcome = (d, Err e)) as Hout.
  { intros e He. unfold outcome, run_billing. by rewrite He. }
  assert (map_find (fun r => String.eqb (r_RequestID r) (ri_RequestID input)) (reservations d) = None)
    as Hnone.
  { destruct (map_find _ _) as [r|] eqn:Hf; [|done].
    apply map_find_Some in Hf as (kr & Hkr & Hq%String.eqb_eq). by apply Hnew in Hkr. }
  unfold Reserve in Hout. erewrite tx_bind_eq in Hout by reflexivity.
  erewrite tx_bind_eq in Hout.
  2: { unfold optional, loadReservationByRequestID. erewrite tx_bind_eq by reflexivity. simpl.
       rewrite Hnone. reflexivity. }
  cbn beta iota in Hout. unfold validatePublishedPrice in Hout. fold published in Hout.
  split.
  { intros Hp. apply Hout. destruct (uuid_eqb (q_PriceVersionID quote) uuid_nil) eqn:E; [done|].
    apply uuid_eqb_neq in E. destruct Hp as [Hp|Hp]; [|done].
    unfold mbind, tx_mbind, read, tx_when, tx_fail. simpl. fold published. by rewrite Hp. }
  intros Hp Hnn. rewrite (proj2 (uuid_eqb_neq _ _)) in Hout by done.
  erewrite (tx_bind_eq _ _ _ (j :: ids, d) tt) in Hout.
  2: { unfold mbind, tx_mbind, read, tx_when. simpl. fold published. by rewrite Hp. }
  erewrite tx_bind_eq in Hout by (by apply (getOrCreateWallet_existing _ _ _ _ _ _ k w)).
  split.
  { intros Hfr. apply Hout. unfold mbind, tx_mbind, tx_when.
    destruct (String.eqb_spec (w_Status w) "active") as [Ha|Ha]; [|done].
    destruct Hfr as [?| ->]; done. }
  intros Ha Hh. erewrite tx_bind_eq in Hout by (unfold tx_when; rewrite Ha, Hh; reflexivity).
  erewrite tx_bind_eq in Hout by (unfold tx_when; rewrite Hc, String.eqb_refl; reflexivity).
  split.
  - intros Hb. apply Hout. unfold mbind, tx_mbind. by rewrite checkBudgets_err.
  - intros Hb Hlt. apply Hout. erewrite tx_bind_eq by exact Hb.
    unfold mbind, tx_mbind, tx_when. by rewrite (proj2 (Z.ltb_lt _ _)).
Qed.

(** ** Settle *)
Definition charged (e : LedgerEntry) : Z :=
  if String.eqb (le_EntryType e) EntryUsageCharge then - le_AmountMinor e else 0.

Lemma settle_entries_charged wallet reservation event actual now es :
  settle_entries wallet reservation event actual now es -> nat_i64 actual -> lsum charged es = actual.
Proof.
  intros (c & rl & -> & Hc & Hrl) Ha. rewrite lsum_app.
  assert (lsum charged rl = 0) as ->.
  { destruct (0 <? settle_released _ _); [destruct Hrl as [i ->]|by subst rl]. done. }
  destruct (Z.ltb_spec 0 actual).
  - destruct Hc as [i ->]. rewrite lsum_cons, lsum_nil. unfold charged. simpl.
    rewrite i64_neg_id by (i64_unfold; lia). lia.
  - subst c. simpl. i64_unfold. lia.
Qed.

(** C3: a successful [Settle] either replays a stored settlement of the same
    event and amount and changes nothing; or, when the wallet cannot pay what
    exceeds the hold, leaves every balance and the ledger as they are, stores
    the pending settlement and puts the wallet on financial hold; or charges
    exactly the amount of the usage event: the ledger's charges grow by that
    amount, the whole hold leaves the reserved balance, and what the event did
    not use (or used beyond the hold) is returned to (or taken from) the
    available balance. *)
Theorem Settle_charges_exactly_the_usage input now ids d s' st pending :
  reachable d -> (forall a, ev_AmountMinor (si_Event input) = Some a -> in_i64 a) ->
  Service_Settle input now (ids, d) = Ok (s', (st, pending)) ->
  exists actual reservation,
    ev_AmountMinor (si_Event input) = Some actual
    /\ reservations d !! si_ReservationID input = Some reservation
    /\ st_ReservationID st = si_ReservationID input
    /\ st_ActualAmount st = Some actual /\ st_UsageEventID st = ev_ID (si_Event input)
    /\ ((s'.2 = d /\ pending = false /\ st_Status st = SettlementSettled)
        \/ exists w w', wallets d !! r_WalletID reservation = Some w
           /\ wallets s'.2 = <[r_WalletID reservation := w']> (wallets d)
           /\ settlements s'.2 !! st_ID st = Some st
           /\ ((pending = true /\ st_Status st = SettlementPending
                /\ w_Available w < actual - r_AmountMinor reservation
                /\ w_Available w' = w_Available w /\ w_Reserved w' = w_Reserved w
                /\ w_FinancialHold w' = true /\ ledger s'.2 = ledger d)
               \/ (pending = false /\ st_Status st = SettlementSettled
                   /\ w_Available w' = w_Available w + r_AmountMinor reservation - actual
                   /\ w_Reserved w' = w_Reserved w - r_AmountMinor reservation
                   /\ lsum charged (ledger s'.2) = lsum charged (ledger d) + actual))).
Proof.
  intros HI%reachable_Inv Hty Hm. apply Service_Settle_inv in Hm as (actual & Ha & Hpos & _ & Hm).
  assert (nat_i64 actual) as Hact by (specialize (Hty _ Ha); i64_unfold; lia).
  pose proof (inv_res _ HI) as HR. exists actual.
  apply Settle_ok in Hm as [Hm|[Hm|Hm]]; [| | |done..].
  - destruct Hm as (-> & -> & Hst & r & k & Hr & Hk & Hrid & Hrep). exists r.
    unfold settlement_replays in Hrep. bools.
    destruct (st_ActualAmount st) as [a|]; [|done]. bools. subst a.
    rewrite (ri_keyed _ _ _ HR _ _ Hr) in Hrid. split_and!; try done. by left.
  - destruct Hm as (r & w & Hr & _ & _ & Hw & _ & Hlt & -> & Hst & Heff). exists r.
    pose proof (ri_keyed _ _ _ HR _ _ Hr) as Hid. pose proof (ri_amount _ _ _ HR _ _ Hr) as Hamt.
    pose proof (bk_keyed _ _ (inv_books _ HI) _ _ Hw) as Hwid.
    destruct Hst as (E1 & E2 & E3 & E4 & _). destruct Heff as (EW & _ & ES & _ & EG & _).
    destruct (bk_range _ _ (inv_books _ HI) _ _ Hw) as [Ra Rr].
    split_and!; try done; [congruence|]. right. exists w. eexists. rewrite <- Hwid.
    split_and!; [by rewrite Hwid|exact EW|by rewrite ES, lookup_insert_eq|].
    left. unfold settle_extra, nat_i64 in *. split_and!; try done. lia.
  - destruct Hm as (r & w & es & Hr & _ & _ & Hw & _ & _ & _ & -> & Hst & Hes & Heff). exists r.
    pose proof (ri_keyed _ _ _ HR _ _ Hr) as Hid. pose proof (ri_amount _ _ _ HR _ _ Hr) as Hamt.
    pose proof (bk_keyed _ _ (inv_books _ HI) _ _ Hw) as Hwid.
    destruct Hst as (E1 & E2 & E3 & E4 & _). destruct Heff as (EW & _ & ES & _ & EG & _).
    split_and!; try done; [congruence|]. right. exists w. eexists. rewrite <- Hwid.
    split_and!; [by rewrite Hwid|exact EW|by rewrite ES, lookup_insert_eq|].
    right. split_and!; try done.
    + simpl. unfold settle_released, settle_extra, settle_consumed. lia.
    + rewrite EG, lsum_app. f_equal. by eapply settle_entries_charged.
Qed.

Lemma find_by_reservation R W S k st rid :
  res_inv W R S -> S !! k = Some st -> st_ReservationID st = rid ->
  map_find (fun st => uuid_eqb (st_ReservationID st) rid) S = Some st.
Proof.
  intros HR Hk Hq. destruct (map_find _ S) as [r'|] eqn:Hf.
  - apply map_find_Some in Hf as (k' & Hk' & Hq'). bools.
    assert (k' = k) as -> by (eapply (si_unique _ _ _ HR); [done..|congruence]). congruence.
  - eapply map_find_None in Hf; [|exact Hk]. by bools.
Qed.

(** The rows a settled [Settle] leaves. *)
Lemma settled_rows input actual now ids d s' st :
  Inv d -> nat_i64 actual -> Settle_tx input actual now (ids, d) = Ok (s', (st, false)) ->
  st_Status st = SettlementSettled
  /\ exists r k, reservations s'.2 !! si_ReservationID input = Some r
    /\ r_Status r = ReservationSettled /\ r_ID r = si_ReservationID input
    /\ event_matches r (si_Event input) = true
    /\ settlements s'.2 !! k = Some st /\ st_ReservationID st = r_ID r
    /\ settlement_replays st r (si_Event input) actual = true.
Proof.
  intros HI Hact Hm. pose proof (inv_res _ HI) as HR. pose proof Hm as Hm0.
  apply Settle_ok in Hm as [Hm|[Hm|Hm]]; [| | |done..].
  - destruct Hm as (E & _ & Hst & r & k & Hr & Hk & Hrid & Hrep). rewrite E. split; [done|].
    exists r, k. split_and!; try done.
    + destruct (si_agree _ _ _ HR _ _ Hk) as (r0 & Hr0 & [[Hc _]|[_ Hc]] & _); [by rewrite Hst in Hc|].
      rewrite Hrid, (ri_keyed _ _ _ HR _ _ Hr), Hr in Hr0. by injection Hr0 as <-.
    + by apply (ri_keyed _ _ _ HR).
    + unfold Settle_tx in Hm0. apply tx_bind_ok in Hm0 as (s1 & o & Ho & Hs).
      apply optional_row in Ho as [-> Hres]. rewrite Hr in Hres. subst o. op_inv. by bools.
  - by destruct Hm as (? & ? & _ & _ & _ & _ & _ & _ & ? & _).
  - destruct Hm as (r & w & es & Hr & Hev & _ & Hw & _ & _ & _ & _ & Hst & _ & Heff).
    pose proof (ri_keyed _ _ _ HR _ _ Hr) as Hid.
    destruct Hst as (E1 & E2 & E3 & E4 & E5 & E6 & _). destruct Heff as (_ & ER & ES & _).
    split; [done|]. eexists _, (st_ID st). rewrite ER, ES, <- Hid, lookup_insert_eq.
    split; [done|]. rewrite lookup_insert_eq. split_and!; try done.
    unfold settlement_replays. rewrite E3, E4, E5, E6, uuid_eqb_refl. simpl.
    rewrite !Z.eqb_refl, Bool.eqb_reflx. done.
Qed.

(** retries of [Settle] are idempotent for ever: after a settlement was
    charged, the same call returns the same settlement, whatever happened
    since, charges nothing and changes no row. *)
Theorem Settle_retry_charges_nothing input n1 n2 ids d s1 st d2 ids2 :
  reachable d -> (forall a, ev_AmountMinor (si_Event input) = Some a -> in_i64 a) ->
  Service_Settle input n1 (ids, d) = Ok (s1, (st, false)) -> rtc step s1.2 d2 ->
  Service_Settle input n2 (ids2, d2) = Ok ((ids2, d2), (st, false)).
Proof.
  intros Hr Hty Hm Hs2. pose proof (reachable_Inv _ Hr) as HI.
  assert (rtc step d s1.2) as Hs1.
  { apply rtc_once. rewrite <- (committed_ok _ _ _ _ _ Hm). by apply step_settle. }
  assert (reachable s1.2) as Hr1 by (unfold reachable in *; by trans d).
  assert (reachable d2) as Hr2 by (unfold reachable in *; by trans s1.2).
  apply Service_Settle_inv in Hm as (actual & Ha & Hpos & Hok & Hm).
  assert (nat_i64 actual) as Hact by (specialize (Hty _ Ha); i64_unfold; lia).
  apply settled_rows in Hm as (Hst & r & k & Hres & Hrs & Hid & Hev & Hk & Hrid & Hrep); [|done..].
  pose proof (steps_evolve _ _ Hr1 Hs2) as Hev2.
  destruct (ev_reservations _ _ Hev2 _ _ Hres) as (r2 & Hr2' & _ & _ & Hterm).
  rewrite (Hterm ltac:(by rewrite Hrs)) in Hr2'.
  destruct (ev_settlements _ _ Hev2 _ _ Hk) as (st2 & Hk2 & _ & _ & _ & _ & _ & _ & Hsame).
  rewrite (Hsame Hst) in Hk2.
  unfold Service_Settle. erewrite tx_bind_eq by (unfold tx_when; rewrite Hok; reflexivity).
  rewrite Ha. unfold Settle_tx.
  erewrite tx_bind_eq.
  2: { unfold optional, loadReservationByID. erewrite tx_bind_eq by reflexivity. simpl.
       rewrite Hr2'. reflexivity. }
  cbn beta iota. erewrite tx_bind_eq by (unfold tx_when; rewrite Hev; reflexivity).
  erewrite tx_bind_eq.
  2: { unfold optional, loadSettlementByReservation. erewrite tx_bind_eq by reflexivity. simpl.
       erewrite find_by_reservation; [|exact (inv_res _ (reachable_Inv _ Hr2))|exact Hk2|done].
       reflexivity. }
  cbn zeta. rewrite bool_decide_true by done. simpl.
  erewrite tx_bind_eq by (unfold tx_when; rewrite Hrep; reflexivity).
  rewrite Hst. reflexivity.
Qed.

(** ** Release *)

(** a successful [Release] of a reservation leaves it [released]: either it
    already was and nothing changes, or its whole amount goes back from the
    reserved to the available balance; and releasing it again, at any later
    time, succeeds and changes no row. *)
Theorem Release_returns_the_hold_once input now ids d s1 u n2 d2 ids2 :
  reachable d -> rel_ReservationID input <> uuid_nil ->
  Service_Release input now (ids, d) = Ok (s1, u) -> rtc step s1.2 d2 ->
  (exists r, reservations d !! rel_ReservationID input = Some r
     /\ ((s1.2 = d /\ r_Status r = ReservationReleased)
         \/ (r_Status r = ReservationReserved
             /\ exists w w', wallets d !! r_WalletID r = Some w
                /\ wallets s1.2 = <[r_WalletID r := w']> (wallets d)
                /\ w_Available w' = w_Available w + r_AmountMinor r
                /\ w_Reserved w' = w_Reserved w - r_AmountMinor r)))
  /\ Service_Release input n2 (ids2, d2) = Ok ((ids2, d2), tt).
Proof.
  intros Hr Hnil Hm Hs2. pose proof (reachable_Inv _ Hr) as HI. pose proof (inv_res _ HI) as HR.
  assert (rtc step d s1.2) as Hs1.
  { apply rtc_once. rewrite <- (committed_ok _ _ _ _ _ Hm). by apply step_release. }
  assert (reachable s1.2) as Hr1 by (unfold reachable in *; by trans d).
  unfold Service_Release in *. rewrite (proj2 (uuid_eqb_neq _ _)) in * by done.
  apply Release_ok in Hm; [|done]. simpl in Hm.
  assert (exists r1, reservations s1.2 !! rel_ReservationID input = Some r1
                     /\ r_Status r1 = ReservationReleased) as (r1 & Hr1' & Hst).
  { destruct Hm as [(-> & r & Hk & Hs)|(r & w & aa & e & Hk & _ & _ & _ & _ & _ & _ & _ & Heff)]; [by eauto|].
    destruct Heff as (_ & -> & _). rewrite (ri_keyed _ _ _ HR _ _ Hk), lookup_insert_eq. eauto. }
  split.
  - destruct Hm as [(E & r & Hk & Hs)|(r & w & aa & e & Hk & Hs & Hw & Hwid & _ & -> & _ & _ & Heff)].
    + exists r. split; [done|]. by left.
    + exists r. split; [done|]. right. split; [done|]. destruct Heff as (EW & _).
      simpl in *. rewrite <- Hwid. exists w. eexists. split_and!; [done|exact EW|done|done].
  - destruct (ev_reservations _ _ (steps_evolve _ _ Hr1 Hs2) _ _ Hr1') as (r2 & Hr2 & _ & _ & Hterm).
    rewrite (Hterm ltac:(by rewrite Hst)) in Hr2.
    unfold Release_tx. erewrite tx_bind_eq.
    2: { unfold optional, loadReservationByID. erewrite tx_bind_eq by reflexivity. simpl.
         rewrite Hr2. reflexivity. }
    cbn beta iota. by rewrite Hst.
Qed.

(** ** Credit *)
Lemma find_prefix {A} (p : A -> bool) l l' x :
  l `prefix_of` l' -> List.find p l = Some x -> List.find p l' = Some x.
Proof.
  intros [k ->]. induction l as [|y l IH]; simpl; [done|]. by destruct (p y).
Qed.

Lemma find_last {A} (p : A -> bool) l x :
  List.find p l = None -> p x = true -> List.find p (l ++ [x]) = Some x.
Proof.
  induction l as [|y l IH]; simpl; intros Hn Hp; [by rewrite Hp|]. destruct (p y); [done|by apply IH].
Qed.

Lemma normalizeCreditInput_operator input n :
  normalizeCreditInput input = Ok n -> cloneUUID (cr_OperatorUserID n) = cr_OperatorUserID n.
Proof.
  unfold normalizeCreditInput. repeat (case_match; try done).
  all: intros [= <-]; cbn [cr_OperatorUserID]; apply cloneUUID_idem.
Qed.

(** a credit is applied exactly once: after [Credit] succeeded for an
    idempotency key, the same call at any later time returns the same ledger
    entry and changes no row, so the amount reaches the wallet once. *)
Theorem Credit_applies_once input n1 n2 ids d s1 e d2 i ids2 :
  reachable d -> in_i64 (cr_AmountMinor input) ->
  Service_Credit input n1 (ids, d) = Ok (s1, e) -> rtc step s1.2 d2 ->
  Service_Credit input n2 (i :: ids2, d2) = Ok ((ids2, d2), e).
Proof.
  intros Hr Hty Hm Hs2. pose proof (reachable_Inv _ Hr) as HI.
  assert (rtc step d s1.2) as Hs1.
  { apply rtc_once. rewrite <- (committed_ok _ _ _ _ _ Hm). by apply step_credit. }
  assert (reachable s1.2) as Hr1 by (unfold reachable in *; by trans d).
  assert (reachable d2) as Hr2 by (unfold reachable in *; by trans s1.2).
  unfold Service_Credit in *.
  apply tx_bind_ok in Hm as (s0 & n & Hn & Hm). apply tx_lift_ok in Hn as [Hn ->].
  pose proof (normalizeCreditInput_amount _ _ Hn) as Hamt.
  assert (credit_replays e n = true /\ exists w k, wallets s1.2 !! k = Some w /\ w_ID w = k
    /\ w_UserID w = cr_UserID n /\ w_Currency w = cr_Currency n
    /\ List.find (wallet_key k (cr_IdempotencyKey n)) (ledger s1.2) = Some e)
    as (Hrep & w & k & Hw & Hwid & Hu & Hc & Hf).
  { apply CreditInTx_ok in Hm; [|done|by rewrite Hamt].
    destruct Hm as [(w & -> & Hrep & Hw & Hu & Hc & Hf)|(w & da & d3 & i2 & i3 & Hp & Hrec & ->)].
    { split; [done|]. by exists w, (w_ID w). }
    pose proof (Inv_credit_posted _ _ _ _ _ _ HI Hp) as (HI2 & w2 & Hw2 & Hid & Hr2' & Ha2).
    destruct Hp as (d1 & Ho & Hw & Hu & Hc & _ & _ & _ & Hnone & He & Heff).
    assert (evolves da d3) as Hev by
      (refine (evolves_recover _ _ _ _ _ _ _ _ w2 HI2 Hw2 _ _ _ Hrec); done).
    destruct Heff as (EW & _ & _ & _ & EG & _).
    split.
    - rewrite He. unfold credit_replays. simpl. unfold equalUUID.
      rewrite (normalizeCreditInput_operator _ _ Hn), (normalizeCreditInput_operator _ _ Hn).
      by rewrite opt_uuid_eqb_refl, !String.eqb_refl, Z.eqb_refl.
    - destruct (ev_wallets _ _ Hev (w_ID w) _ ltac:(by rewrite EW, lookup_insert_eq))
        as (w' & Hw' & (E1 & E2 & E3) & _).
      exists w', (w_ID w). split_and!; [done|by rewrite E1|by rewrite E2|by rewrite E3|].
      eapply find_prefix; [apply (ev_ledger _ _ Hev)|]. rewrite EG. apply find_last; [done|].
      rewrite He. unfold wallet_key. simpl. by rewrite uuid_eqb_refl, String.eqb_refl. }
  pose proof (steps_evolve _ _ Hr1 Hs2) as Hev.
  destruct (ev_wallets _ _ Hev _ _ Hw) as (w2 & Hw2 & (E1 & E2 & E3) & _).
  apply (find_prefix _ _ _ _ (ev_ledger _ _ Hev)) in Hf.
  erewrite tx_bind_eq by (unfold tx_lift; by rewrite Hn). unfold CreditInTx.
  erewrite tx_bind_eq
    by (apply (getOrCreateWallet_existing _ _ _ _ _ _ k w2); [by apply reachable_Inv|done|congruence..]).
  erewrite tx_bind_eq.
  2: { unfold optional, loadLedgerByIdempotency. erewrite tx_bind_eq by reflexivity. simpl.
       rewrite E1, Hwid, Hf. reflexivity. }
  cbn beta iota. by erewrite tx_bind_eq by (unfold tx_when; rewrite Hrep; reflexivity).
Qed.

(** ** Recovery of liabilities *)
Definition owed (ls : list Liability) : Z := lsum outstanding ls.

Lemma open_list_owed wid L ls : open_list wid L ls -> 0 <= owed ls.
Proof.
  intros [_ Hall]. apply lsum_nonneg. intros l Hl.
  destruct (Hall l Hl) as (_ & (_ & ? & _) & _). unfold outstanding. lia.
Qed.

Lemma recover_plan_zero ls : recover_plan 0 ls = [].
Proof. by destruct ls. Qed.

Lemma recover_plan_cons av l ls :
  av <> 0 -> recover_plan av (l :: ls)
    = (l, Z.min av (outstanding l)) :: recover_plan (av - Z.min av (outstanding l)) ls.
Proof. intros Hne. simpl. by rewrite (proj2 (Z.eqb_neq av 0)). Qed.

Lemma recover_plan_sum wid L av ls :
  0 <= av -> open_list wid L ls -> lsum snd (recover_plan av ls) = Z.min av (owed ls).
Proof.
  revert av L. induction ls as [|l ls IH]; intros av L Hav Hol; [unfold owed; simpl; lia|].
  pose proof (open_list_sub _ _ _ _ Hol) as Hsub. pose proof (open_list_owed _ _ _ Hsub) as Hn.
  destruct (proj2 Hol l ltac:(apply list_elem_of_here)) as (_ & (_ & Hb & _) & _).
  assert (0 <= outstanding l) as Ho by (unfold outstanding; lia).
  unfold owed in *. rewrite lsum_cons.
  destruct (Z.eq_dec av 0) as [->|Hne].
  - rewrite recover_plan_zero, lsum_nil. lia.
  - rewrite recover_plan_cons, lsum_cons by done. cbn [snd].
    rewrite (IH _ L) by (done || lia). lia.
Qed.

(** Where [recover_plan] leaves each liability: older ones come first. *)
(** Rows outside the plan stay. *)
Lemma apply_plan_other now plan L k :
  (forall lr, lr ∈ plan -> l_ID lr.1 <> k) -> apply_plan now plan L !! k = L !! k.
Proof.
  revert L. induction plan as [|lr plan IH]; intros L Hp; [done|]. simpl.
  rewrite IH by (intros; apply Hp; by apply elem_of_cons; right).
  rewrite lookup_insert_ne; [done|]. apply Hp, list_elem_of_here.
Qed.

Lemma recover_plan_fifo wid now L av pre l post :
  0 <= av -> open_list wid L (pre ++ l :: post) ->
  exists l', apply_plan now (recover_plan av (pre ++ l :: post)) L !! l_ID l = Some l'
    /\ l_Recovered l' = l_Recovered l + Z.min (outstanding l) (Z.max 0 (av - owed pre)).
Proof.
  revert av L. induction pre as [|x pre IH]; intros av L Hav Hol; cbn [app] in *.
  - destruct (proj2 Hol l ltac:(apply list_elem_of_here)) as (Hl & (_ & Hb & _) & _).
    assert (0 <= outstanding l) as Ho by (unfold outstanding; lia).
    change (owed []) with 0. destruct (Z.eq_dec av 0) as [->|Hne].
    + rewrite recover_plan_zero. exists l. split; [done|lia].
    + rewrite recover_plan_cons by done.
      change (apply_plan now ((l, ?r) :: ?p) L) with (apply_plan now p (<[l_ID l := recovered_row now l r]> L)).
      rewrite apply_plan_other, lookup_insert_eq.
      * eexists. split; [done|]. cbn [recovered_row liability_row l_Recovered]. lia.
      * intros lr Hlr Heq. destruct Hol as [Hnd _]. rewrite fmap_cons in Hnd.
        apply NoDup_cons in Hnd as [Hni _]. apply Hni. rewrite <- Heq.
        destruct (recover_plan_fst (av - Z.min av (outstanding l)) post) as [k Hk].
        rewrite Hk. apply list_elem_of_fmap_2, elem_of_app. left. by apply list_elem_of_fmap_2.
  - destruct (proj2 Hol x ltac:(apply list_elem_of_here)) as (Hx & (_ & Hb & _) & _).
    destruct (proj2 Hol l) as (Hl & (_ & Hbl & _) & _);
      [apply elem_of_cons; right; apply elem_of_app; right; constructor|].
    assert (0 <= outstanding x /\ 0 <= outstanding l) as [Ho Hol'] by (unfold outstanding; lia).
    assert (0 <= owed pre) as Hn.
    { apply (open_list_owed wid L). destruct Hol as [Hnd Hall]. split.
      - rewrite fmap_cons, fmap_app in Hnd. apply NoDup_cons in Hnd as [_ Hnd].
        by apply NoDup_app in Hnd as [? _].
      - intros y Hy. apply Hall. apply elem_of_cons. right. apply elem_of_app. by left. }
    unfold owed in *. rewrite lsum_cons. destruct (Z.eq_dec av 0) as [->|Hne].
    + rewrite recover_plan_zero. exists l. split; [done|]. lia.
    + rewrite recover_plan_cons by done.
      change (apply_plan now ((x, ?r) :: ?p) L) with (apply_plan now p (<[l_ID x := recovered_row now x r]> L)).
      destruct (IH (av - Z.min av (outstanding x))
        (<[l_ID x := recovered_row now x (Z.min av (outstanding x))]> L)) as (l' & Hl' & Hr);
        [lia|by apply open_list_cons|].
      exists l'. split; [exact Hl'|]. rewrite Hr. lia.
Qed.

Lemma open_liabilities_sorted wid d : StronglySorted liability_le (open_liabilities wid d).
Proof.
  apply StronglySorted_merge_sort.
  - intros a b c. unfold liability_le. lia.
  - intros a b. unfold liability_le. lia.
Qed.

(** funds that reach a wallet with open liabilities pay them oldest first
    (by creation time, then identifier): each open liability recovers exactly
    the smaller of what it is owed and what is left after every older one, and
    the available balance falls by exactly what was recovered in all. *)
Theorem recovery_pays_oldest_first w src now ids d s' u :
  reachable d -> wallets d !! w_ID w = Some w ->
  recoverWalletLiabilities w (w_Available w) src now (ids, d) = Ok (s', u) ->
  let ls := open_liabilities (w_ID w) d in
  StronglySorted liability_le ls
  /\ (forall pre l post, ls = (pre ++ l :: post)%list ->
      exists l', liabilities s'.2 !! l_ID l = Some l'
        /\ l_Recovered l' = l_Recovered l
             + Z.min (outstanding l) (Z.max 0 (w_Available w - owed pre)))
  /\ exists w', wallets s'.2 !! w_ID w = Some w'
       /\ w_Available w' = Z.max 0 (w_Available w - owed ls) /\ w_Reserved w' = w_Reserved w.
Proof.
  intros HI%reachable_Inv Hw Hm ls. split; [apply open_liabilities_sorted|].
  destruct (bk_range _ _ (inv_books _ HI) _ _ Hw) as [Ra Rr].
  pose proof (open_liabilities_list (w_ID w) d (inv_liab _ HI)) as Hol. fold ls in Hol.
  eapply recoverWalletLiabilities_ok in Hm; try done. destruct Hm as [[-> Hnil]|Hre].
  - fold ls in Hnil. rewrite Hnil. split; [by intros []|]. exists w. split; [done|].
    unfold owed. simpl. unfold nat_i64 in *. lia.
  - destruct Hre as (es & _ & _ & _ & (EW & _ & _ & EL & _)). fold ls in EW, EL. split.
    + intros pre l post Hls. rewrite EL, Hls. apply (recover_plan_fifo (w_ID w)).
      * unfold nat_i64 in *. lia.
      * by rewrite <- Hls.
    + eexists. rewrite EW, lookup_insert_eq. split; [done|]. simpl.
      rewrite (recover_plan_sum (w_ID w) (liabilities d)) by (try done; unfold nat_i64 in *; lia).
      split; [lia|done].
Qed.

(** opening a liability takes at once what the wallet has, and no more: it
    recovers the smaller of its amount and the available balance, stays [open]
    (and puts the wallet on financial hold) exactly when that is not enough,
    and retrying the same input returns the stored liability unchanged. *)
Theorem OpenLiability_takes_what_is_available input now ids d s' l :
  reachable d -> 0 < li_AmountMinor input <= max_int64 ->
  OpenLiabilityInTx input now (ids, d) = Ok (s', l) ->
  (s'.2 = d /\ sameLiabilityInput l input = true)
  \/ (l_Principal l = li_AmountMinor input
      /\ exists w w', wallets s'.2 !! l_WalletID l = Some w'
         /\ (wallets d !! l_WalletID l = Some w
             \/ (wallets d !! l_WalletID l = None /\ w_Available w = 0 /\ w_FinancialHold w = false))
         /\ l_Recovered l = Z.min (w_Available w) (li_AmountMinor input)
         /\ w_Available w' = w_Available w - l_Recovered l
         /\ (l_Status l = "open" <-> w_Available w < li_AmountMinor input)
         /\ w_FinancialHold w' = w_FinancialHold w || String.eqb (l_Status l) "open").
Proof.
  intros HI%reachable_Inv Hamt Hm. apply OpenLiability_ok in Hm; [|done..].
  destruct Hm as [(E & Hs & _)|Hm]; [by left|right].
  destruct Hm as (d1 & w & es & Hop & Hw & _ & _ & Hlw & _ & HP & HRc & Hst & _ & _ & _ & _ & l0 & _ & _
    & (EW & _)).
  split; [done|]. exists w. eexists. rewrite EW, Hlw, lookup_insert_eq. split; [done|]. split.
  { destruct Hop as [|i Hi Ho]; [by left|]. simpl in Hw.
    apply lookup_insert_Some in Hw as [[<- <-]|[_ Hw]]; [right|by left]. done. }
  split_and!; [done|done| |done]. rewrite Hst, HP, HRc.
  destruct (Z.ltb_spec (Z.min (w_Available w) (li_AmountMinor input)) (li_AmountMinor input));
    (split; intros; [|try done]; try done; lia).
Qed.

(** ** The recovery worker *)

Lemma claim_lookup token now rows (S : gmap uuid Settlement) st :
  (forall y, y ∈ rows -> S !! st_ID y = Some y) -> st ∈ rows ->
  foldr (fun st m => <[st_ID st := claim_row token now st]> m) S rows !! st_ID st
  = Some (claim_row token now st).
Proof.
  induction rows as [|y rows IH]; intros Hrows Hin; [by apply elem_of_nil in Hin|]. simpl.
  destruct (decide (st_ID y = st_ID st)) as [He|Hne].
  - rewrite He, lookup_insert_eq. do 2 f_equal.
    pose proof (Hrows y ltac:(apply list_elem_of_here)) as Hy. rewrite He in Hy.
    rewrite (Hrows st Hin) in Hy. by injection Hy.
  - rewrite lookup_insert_ne by done. apply IH.
    + intros z Hz. apply Hrows. by apply elem_of_cons; right.
    + apply elem_of_cons in Hin as [->|Hin]; [by destruct Hne|done].
Qed.

Lemma claim_candidates_due n now locked d st :
  st ∈ claim_candidates n now locked d -> settlement_due now st = true.
Proof.
  intros Hin. unfold claim_candidates in Hin.
  apply elem_of_take in Hin as (i & Hin & _). apply list_elem_of_lookup_2 in Hin.
  rewrite merge_sort_Permutation in Hin. apply list_elem_of_filter in Hin as [Hd _].
  by apply andb_true_iff in Hd as [? _].
Qed.

(** the recovery worker claims at most [limit] settlements, each pending,
    due, unlocked and distinct; a claimed settlement keeps its charge and
    reservation, and no claim within the lease of 30 seconds selects it again. *)
Theorem claims_are_leased limit now locked ids d s' due t n locked' :
  reachable d -> ClaimPendingSettlements limit now locked (ids, d) = Ok (s', due) ->
  Z.of_nat (List.length due) <= limit
  /\ (forall c, c ∈ due -> exists st st',
       settlements d !! due_SettlementID c = Some st /\ settlement_due now st = true
       /\ locked (due_SettlementID c) = false
       /\ due_ReservationID c = st_ReservationID st /\ due_UsageEventID c = st_UsageEventID st
       /\ settlements s'.2 !! due_SettlementID c = Some st' /\ same_settlement st st'
       /\ (t < now + settlementRecoveryLease -> st' ∉ claim_candidates n t locked' s'.2)).
Proof.
  intros HI%reachable_Inv Hm. unfold ClaimPendingSettlements in Hm. op_inv. bools.
  split.
  - rewrite List.length_map. unfold claim_candidates. rewrite length_take. lia.
  - intros c Hc. apply list_elem_of_In, in_map_iff in Hc as (st & <- & Hin).
    apply list_elem_of_In in Hin. pose proof Hin as Hin0.
    apply claim_candidates_rows in Hin as (Hst & Hdue & Hlk); [|done]. simpl.
    exists st. eexists. split_and!; [exact Hst|exact Hdue|exact Hlk|done|done| | |].
    + apply claim_lookup; [|exact Hin0]. intros y Hy. by eapply claim_candidates_rows.
    + split_and!; done.
    + intros Ht Hcl. apply claim_candidates_due in Hcl. unfold settlement_due in Hcl.
      cbn [claim_row st_LeaseExpiresAt] in Hcl. bools. lia.
Qed.

(** ** Payment refunds *)

(** The effect of a refund operation on the wallet of its input. *)
Definition refund_moves (n : PaymentRefundInput) (da dr : Z) (d d' : DB) : Prop :=
  exists w w', wallets d !! w_ID w = Some w /\ w_UserID w = pr_UserID n
    /\ w_Currency w = pr_Currency n /\ wallets d' = <[w_ID w := w']> (wallets d)
    /\ w_Available w' = w_Available w + da /\ w_Reserved w' = w_Reserved w + dr.

Lemma refund_posted_moves n now t key amount da dr d w e d' :
  Inv d -> 0 < pr_AmountMinor n ->
  (da = - pr_AmountMinor n \/ dr = - pr_AmountMinor n) ->
  refund_posted n now t key amount da dr d w e d' -> refund_moves n da dr d d'.
Proof.
  intros HI Hpos Hd (d1 & Hop & Hw & Hu & Hc & Ha & Hr & _ & _ & (EW & _)).
  assert (d1 = d) as ->.
  { destruct Hop as [|i Hi Hno]; [done|exfalso]. simpl in Hw.
    apply lookup_insert_Some in Hw as [[_ Hz]|[_ Hw]].
    - rewrite <- Hz in Ha, Hr. cbn [zero_wallet w_Available w_Reserved] in Ha, Hr. i64_unfold. lia.
    - specialize (Hno _ _ Hw). unfold wallet_owned in Hno.
      by rewrite Hu, Hc, uuid_eqb_refl, String.eqb_refl in Hno. }
  exists w. eexists. split_and!; [done..|exact EW|done|done].
Qed.

(** each payment-refund operation either replays the entry it already wrote
    for the payment order, changing nothing, or moves exactly the refunded
    amount once: the hold from available to reserved, on an active wallet; the
    completion out of reserved and the release back to available, both only
    for an order whose hold is in the ledger. *)
Theorem refunds_move_exactly_the_amount input now ids d :
  reachable d -> in_i64 (pr_AmountMinor input) ->
  (forall s' e, HoldPaymentRefundInTx input now (ids, d) = Ok (s', e) ->
     exists n, normalizePaymentRefundInput input = Ok n /\
       (s'.2 = d \/ refund_moves n (- pr_AmountMinor n) (pr_AmountMinor n) d s'.2))
  /\ (forall s' e, CompletePaymentRefundInTx input now (ids, d) = Ok (s', e) ->
     exists n, normalizePaymentRefundInput input = Ok n /\
       (s'.2 = d \/ ((exists k, refund_held n k d)
                    /\ refund_moves n 0 (- pr_AmountMinor n) d s'.2)))
  /\ (forall s' e, ReleasePaymentRefundInTx input now (ids, d) = Ok (s', e) ->
     exists n, normalizePaymentRefundInput input = Ok n /\
       (s'.2 = d \/ ((exists k, refund_held n k d)
                    /\ refund_moves n (pr_AmountMinor n) (- pr_AmountMinor n) d s'.2))).
Proof.
  intros HI%reachable_Inv Hamt. split_and!; intros s' e Hm.
  - apply HoldPaymentRefund_ok in Hm as (n & Hn & [(-> & _)|(w & _ & Hm)]); [| |done..];
      exists n; (split; [done|]); [by left|right].
    apply normalizePaymentRefundInput_ok in Hn as (_ & Hpos & _).
    eapply refund_posted_moves; [done|done|by left|exact Hm].
  - apply CompletePaymentRefund_ok in Hm as (n & Hn & [(-> & _)|(w & Hh & Hm)]); [| |done..];
      exists n; (split; [done|]); [by left|right].
    apply normalizePaymentRefundInput_ok in Hn as (_ & Hpos & _).
    split; [by eauto|]. eapply refund_posted_moves; [done|done|by right|exact Hm].
  - apply ReleasePaymentRefund_ok in Hm as (n & Hn & [(-> & _)|(w & Hh & Hm)]); [| |done..];
      exists n; (split; [done|]); [by left|right].
    apply normalizePaymentRefundInput_ok in Hn as (_ & Hpos & _).
    split; [by eauto|]. eapply refund_posted_moves; [done|done|by right|exact Hm].
Qed.

End theorems.

(** ** Instances *)
Import BillingDemo.

Definition demo_quote : Quote :=
  {| q_PriceVersionID := 50%N; q_Currency := "USD"; q_AmountMinor := 150; q_Estimated := false |}.

Lemma demo2_reserve :
  exists s' r, Reserve (demo_reserve "req-1" (Some 500)) demo_quote 1000 (ids_from 200, demo2)
               = Ok (s', r).
Proof. do 2 eexists. vm_compute. reflexivity. Qed.

Lemma Reserve_holds_exactly_the_quote_witness :
  exists s' r, Reserve (demo_reserve "req-1" (Some 500)) demo_quote 1000 (ids_from 200, demo2)
               = Ok (s', r)
    /\ (s'.2 = demo2 \/ r_AmountMinor r = 150).
Proof.
  destruct demo2_reserve as (s' & r & Hm). exists s', r. split; [exact Hm|].
  destruct (Reserve_holds_exactly_the_quote (demo_reserve "req-1" (Some 500)) demo_quote 1000
    (ids_from 200) demo2 s' r demo2_reachable ltac:(vm_compute; by split) Hm)
    as [(E & _)|(_ & _ & _ & _ & _ & E & _)]; [left; exact E|right; exact E].
Defined.

Lemma demo2_service_reserve :
  exists s' r, Service_Reserve 4096 (demo_reserve "req-1" (Some 500)) 1000 1000 (ids_from 200, demo2)
               = Ok (s', r) /\ r_Status r <> ReservationNone /\ s'.2 = demo3.
Proof. do 2 eexists. split_and!; [vm_compute; reflexivity|done|vm_compute; reflexivity]. Qed.

Lemma Reserve_retry_returns_the_reservation_witness :
  exists s' r r2, Service_Reserve 4096 (demo_reserve "req-1" (Some 500)) 1000 1000 (ids_from 200, demo2)
               = Ok (s', r)
    /\ Service_Reserve 4096 (demo_reserve "req-1" (Some 500)) 5000 5000 ([999%N], demo5)
       = Ok (([], demo5), r2) /\ r_ID r2 = r_ID r.
Proof.
  destruct demo2_service_reserve as (s' & r & Hm & Hn & Es).
  assert (rtc step s'.2 demo5) as Hs by (rewrite Es; exact demo3_to_demo5).
  destruct (Reserve_retry_returns_the_reservation 4096 (demo_reserve "req-1" (Some 500)) 1000 1000
    5000 5000 (ids_from 200) demo2 s' r demo5 999%N [] demo2_reachable eq_refl Hm Hn Hs)
    as (r2 & Hm2 & Eid & _).
  exists s', r, r2. split; [exact Hm|split; [exact Hm2|exact Eid]].
Defined.

Lemma demo2_has_wallet :
  exists w, wallets demo2 !! 100%N = Some w /\ w_UserID w = demo_user /\ w_Currency w = "USD"
    /\ w_Available w = 1000 /\ w_Status w = "active" /\ w_FinancialHold w = false.
Proof. eexists. split; [vm_compute; reflexivity|]. done. Qed.

Definition demo_big_quote : Quote :=
  {| q_PriceVersionID := 50%N; q_Currency := "USD"; q_AmountMinor := 5000; q_Estimated := false |}.

Lemma Reserve_refusals_witness :
  run_billing [200%N; 201%N] (Reserve (demo_reserve "req-1" None) demo_big_quote 1000) demo2
  = (demo2, Err ErrInsufficientFunds).
Proof.
  destruct demo2_has_wallet as (w & Hw & Hu & Hc & Ha & Hs & Hh).
  assert (forall k r, reservations demo2 !! k = Some r -> r_RequestID r <> "req-1") as Hnew.
  { intros k r Hk. vm_compute in Hk. destruct k; discriminate Hk. }
  destruct (Reserve_refusals (demo_reserve "req-1" None) demo_big_quote 1000 200%N 201%N [] demo2
    100%N w demo2_reachable Hnew Hw Hu Hc) as [_ Hrest].
  apply Hrest; [vm_compute; reflexivity|discriminate|exact Hs|exact Hh|reflexivity|].
  rewrite Ha. reflexivity.
Defined.

Lemma demo_settle_typed a : ev_AmountMinor (si_Event demo_settle) = Some a -> in_i64 a.
Proof. intros [= <-]. vm_compute. by split. Qed.

Lemma demo4_settle :
  exists s' st, Service_Settle demo_settle 2000 (ids_from 400, demo4) = Ok (s', (st, false))
    /\ s'.2 = demo5.
Proof. do 2 eexists. split; vm_compute; reflexivity. Qed.

Lemma Settle_charges_exactly_the_usage_witness :
  exists s' st, Service_Settle demo_settle 2000 (ids_from 400, demo4) = Ok (s', (st, false))
    /\ st_ActualAmount st = Some 120.
Proof.
  destruct demo4_settle as (s' & st & Hm & _). exists s', st. split; [exact Hm|].
  destruct (Settle_charges_exactly_the_usage demo_settle 2000 (ids_from 400) demo4 s' st false
    demo4_reachable demo_settle_typed Hm) as (actual & r & Ha & _ & _ & Hst & _).
  injection Ha as Ha. rewrite Hst, <- Ha. reflexivity.
Defined.

Lemma Settle_retry_charges_nothing_witness :
  exists st, Service_Settle demo_settle 9000 ([], demo5) = Ok (([], demo5), (st, false)).
Proof.
  destruct demo4_settle as (s' & st & Hm & Es). exists st.
  assert (rtc step s'.2 demo5) as Hs by (rewrite Es; apply rtc_refl).
  exact (Settle_retry_charges_nothing demo_settle 2000 9000 (ids_from 400) demo4 s' st demo5 []
    demo4_reachable demo_settle_typed Hm Hs).
Defined.

Definition demo_release : ReleaseInput := {| rel_ReservationID := 200%N; rel_Reason := "" |}.

Lemma demo3_release :
  exists s' u, Service_Release demo_release 1500 (ids_from 700, demo3) = Ok (s', u).
Proof. do 2 eexists. vm_compute. reflexivity. Qed.

Lemma Release_returns_the_hold_once_witness :
  exists s' u, Service_Release demo_release 1500 (ids_from 700, demo3) = Ok (s', u)
    /\ Service_Release demo_release 1600 ([], s'.2) = Ok (([], s'.2), tt).
Proof.
  destruct demo3_release as (s' & u & Hm). exists s', u. split; [exact Hm|].
  exact (proj2 (Release_returns_the_hold_once demo_release 1500 (ids_from 700) demo3 s' u 1600 s'.2 []
    demo3_reachable ltac:(discriminate) Hm (rtc_refl step s'.2))).
Defined.

Lemma demo_credit_ok :
  exists s' e, Service_Credit (demo_credit 1000 "order-1") 1000 (ids_from 100, empty_db) = Ok (s', e)
    /\ s'.2 = demo1.
Proof. do 2 eexists. split; vm_compute; reflexivity. Qed.

Lemma Credit_applies_once_witness :
  exists e, Service_Credit (demo_credit 1000 "order-1") 3000 ([999%N], demo1) = Ok (([], demo1), e).
Proof.
  destruct demo_credit_ok as (s' & e & Hm & Es). exists e.
  assert (rtc step s'.2 demo1) as Hs by (rewrite Es; apply rtc_refl).
  exact (Credit_applies_once (demo_credit 1000 "order-1") 1000 3000 (ids_from 100) empty_db s' e demo1
    999%N [] (rtc_refl step empty_db) ltac:(vm_compute; by split) Hm Hs).
Defined.

Lemma demo_open_ok :
  exists s' l, OpenLiabilityInTx demo_liability 1000 (ids_from 500, empty_db) = Ok (s', l).
Proof. do 2 eexists. vm_compute. reflexivity. Qed.

Lemma OpenLiability_takes_what_is_available_witness :
  exists s' l, OpenLiabilityInTx demo_liability 1000 (ids_from 500, empty_db) = Ok (s', l)
    /\ (s'.2 = empty_db \/ l_Principal l = 70).
Proof.
  destruct demo_open_ok as (s' & l & Hm). exists s', l. split; [exact Hm|].
  destruct (OpenLiability_takes_what_is_available demo_liability 1000 (ids_from 500) empty_db s' l
    (rtc_refl step empty_db) ltac:(vm_compute; by split) Hm) as [[E _]|[E _]]; [left|right]; exact E.
Defined.

(** The wallet of the liability history, and a recovery on it. *)
Definition demo_w2 : Wallet :=
  default (zero_wallet uuid_nil uuid_nil "" 0) (wallets demo_l2 !! 500%N).

Lemma demo_w2_row : wallets demo_l2 !! w_ID demo_w2 = Some demo_w2.
Proof. vm_compute. reflexivity. Qed.

Lemma demo_w2_recovery :
  exists s' u, recoverWalletLiabilities demo_w2 (w_Available demo_w2) 1%N 2000 (ids_from 800, demo_l2)
               = Ok (s', u).
Proof. do 2 eexists. vm_compute. reflexivity. Qed.

Lemma recovery_pays_oldest_first_witness :
  exists s' u, recoverWalletLiabilities demo_w2 (w_Available demo_w2) 1%N 2000 (ids_from 800, demo_l2)
               = Ok (s', u)
    /\ StronglySorted liability_le (open_liabilities (w_ID demo_w2) demo_l2).
Proof.
  destruct demo_w2_recovery as (s' & u & Hm). exists s', u. split; [exact Hm|].
  exact (proj1 (recovery_pays_oldest_first demo_w2 1%N 2000 (ids_from 800) demo_l2 s' u
    demo_l2_reachable demo_w2_row Hm)).
Defined.

(** A settlement that cannot be paid, claimed by the worker. *)
Definition demo6 : DB := record_usage (demo_event 310%N 100%N "req-1" 1200) demo3.
Definition demo_over : SettleInput :=
  {| si_ReservationID := 200%N; si_Event := demo_event 310%N 100%N "req-1" 1200 |}.
Definition demo7 : DB := committed (ids_from 420) (Service_Settle demo_over 2000) demo6.

Lemma demo7_reachable : reachable demo7.
Proof.
  apply (rtc_r _ demo6).
  - apply (rtc_r _ demo3); [apply demo3_reachable|]. apply step_usage; [by vm_compute|].
    intros a [= <-]. vm_compute. by split.
  - apply step_settle. intros a [= <-]. vm_compute. by split.
Qed.

Lemma demo7_claim :
  exists s' c, ClaimPendingSettlements 100 (2000 + Minute) (fun _ => false) ([430%N], demo7)
               = Ok (s', [c]).
Proof. do 2 eexists. vm_compute. reflexivity. Qed.

Lemma claims_are_leased_witness :
  exists s' c st', ClaimPendingSettlements 100 (2000 + Minute) (fun _ => false) ([430%N], demo7)
               = Ok (s', [c])
    /\ settlements s'.2 !! due_SettlementID c = Some st'
    /\ st' ∉ claim_candidates 100 (2000 + Minute + 5) (fun _ => false) s'.2.
Proof.
  destruct demo7_claim as (s' & c & Hm).
  destruct (proj2 (claims_are_leased 100 (2000 + Minute) (fun _ => false) [430%N] demo7 s' [c]
    (2000 + Minute + 5) 100 (fun _ => false) demo7_reachable Hm) c (list_elem_of_here _ _))
    as (st & st' & _ & _ & _ & _ & _ & Hst' & _ & Hn).
  exists s', c, st'. split; [exact Hm|split; [exact Hst'|]]. apply Hn. vm_compute. reflexivity.
Defined.

(** *** The finding about released refund holds *)
Definition demo_refund : PaymentRefundInput :=
  {| pr_UserID := demo_user; pr_Currency := "USD"; pr_AmountMinor := 100;
     pr_PaymentOrderID := 900%N; pr_OperatorUserID := 901%N; pr_Source := "payment" |}.

Lemma demo3_refund_hold :
  exists s' e, HoldPaymentRefundInTx demo_refund 3000 (ids_from 820, demo3) = Ok (s', e).
Proof. do 2 eexists. vm_compute. reflexivity. Qed.

Lemma refunds_move_exactly_the_amount_witness :
  exists s' e n, HoldPaymentRefundInTx demo_refund 3000 (ids_from 820, demo3) = Ok (s', e)
    /\ (s'.2 = demo3 \/ refund_moves n (- pr_AmountMinor n) (pr_AmountMinor n) demo3 s'.2).
Proof.
  destruct demo3_refund_hold as (s' & e & Hm).
  destruct (proj1 (refunds_move_exactly_the_amount demo_refund 3000 (ids_from 820) demo3
    demo3_reachable ltac:(vm_compute; by split)) s' e Hm) as (n & _ & Hr).
  exists s', e, n. split; [exact Hm|exact Hr].
Defined.

Definition demo_r1 : DB := committed (ids_from 820) (HoldPaymentRefundInTx demo_refund 3000) demo3.
Definition demo_r2 : DB := committed (ids_from 840) (ReleasePaymentRefundInTx demo_refund 3100) demo_r1.
Definition demo_r3 : DB := committed (ids_from 860) (CompletePaymentRefundInTx demo_refund 3200) demo_r2.

(** the billing package itself does not refuse to complete a refund whose
    hold was already released: after hold, release and completion of one
    payment order, the reserved balance is smaller than the reservations still
    held, and releasing such a reservation then fails for good. Only the order
    states of the payment package keep a caller from that sequence. *)
Theorem released_refund_hold_is_consumed_again :
  reachable demo_r3
  /\ (exists w, wallets demo_r3 !! 100%N = Some w /\ w_Reserved w = 50
      /\ held_by 100%N (reservations demo_r3) = 150)
  /\ run_billing (ids_from 880) (Service_Release demo_release 3300) demo_r3
     = (demo_r3, Err ErrReservationConflict).
Proof.
  split_and!.
  - apply (rtc_r _ demo_r2).
    + apply (rtc_r _ demo_r1).
      * apply (rtc_r _ demo3); [apply demo3_reachable|apply step_refund_hold; vm_compute; by split].
      * apply step_refund_release. vm_compute. by split.
    + apply step_refund_complete. vm_compute. by split.
  - eexists. split_and!; vm_compute; reflexivity.
  - vm_compute. reflexivity.
Qed.

End BillingOpTheorems.
