(* ===== verification/SchedulerModel.v ===== *)
(** * The data of the scheduler

    [internal/scheduler/model.go], with the part of the route snapshot
    ([internal/route/model.go]) and of the capability declaration
    ([internal/model/model.go]) the scheduler reads. *)

From stdpp Require Import base gmap strings list.
From Stdlib Require Import ZArith Lia Ascii String.
From S2P Require Import Prelude GoLib.

Module Sched.

(** ** Capabilities ([internal/model/model.go]) *)
Record Capabilities := {
  Chat : bool; Responses : bool; Messages : bool; Stream : bool;
  Tools : bool; Vision : bool; Reasoning : bool
}.

(** ** Route snapshots ([internal/route/model.go]) *)
Record Target := {
  t_ID : uuid;
  t_RouteVersionID : uuid;
  t_TargetNo : Z;
  t_ProviderModelID : uuid;
  t_CredentialPoolID : uuid;
  t_ProviderID : uuid;
  t_ProviderSlug : string;
  t_ProviderResourceType : string;
  t_ProviderCommercialAllowed : bool;
  t_UpstreamModelID : string;
  t_Protocol : string;
  t_Capabilities : Capabilities;
  t_ProviderModelEnabled : bool;
  t_ReviewStatus : string;
  t_PoolEnabled : bool;
  t_Priority : Z;
  t_Weight : Z;
  t_CommercialPolicy : string;
  t_EffectiveCommercialAllowed : bool;
  t_Enabled : bool;
  t_Metadata : gmap string string
}.

(** The fields of [route.Resolution] the scheduler reads: [Version.ID],
    [Route.ID] and the candidates. *)
Record Resolution := {
  VersionID : uuid;
  RouteID : uuid;
  Candidates : list Target
}.

Definition ResourceSubscription : string := "subscription".
Definition ReviewApproved : string := "approved".
Definition CredentialActive : string := "active".

(** ** Strategies and defaults *)
Definition StrategyRoundRobin : string := "round_robin".
Definition StrategyWeightedRoundRobin : string := "weighted_round_robin".
Definition StrategyFillFirst : string := "fill_first".
Definition StrategyQuotaAware : string := "quota_aware".

Definition defaultLeaseTTL : Z := 30 * Second.
Definition defaultAffinityTTL : Z := 5 * Minute.
Definition defaultCursorTTL : Z := Hour.
Definition defaultQuotaMaxAge : Z := 2 * Minute.
Definition strategyVersionBase : string := "p0/v1".

(** The package's errors, the error of a cancelled context and a database error
    the repository does not map. *)
Inductive error :=
| ErrInvalidInput | ErrConflict | ErrNoEligible | ErrLeaseBusy
| ErrLeaseNotOwner | ErrStateUnavailable
| ErrContext
| EDatabase (e : sqlerr).
#[export] Instance error_eq_dec : EqDecision error.
Proof. solve_decision. Defined.

(** ** Requests *)
Record QuotaPolicy := {
  qp_Enabled : bool;
  qp_WindowKind : string;
  qp_RequiredTokens : Z;
  qp_MaxAge : Z;
  qp_RequireFresh : bool
}.

Record Request := {
  rq_RequestID : string;
  rq_RequestRecordID : option uuid;
  rq_AttemptNo : Z;
  rq_DecisionNo : Z;
  rq_Resolution : Resolution;
  rq_Protocol : string;
  rq_RequiredCapabilities : Capabilities;
  rq_Region : string;
  rq_ProxyRef : string;
  rq_RequireProxy : bool;
  rq_Quota : QuotaPolicy;
  rq_Strategy : string;
  rq_AffinityKey : string;
  rq_Now : time
}.

(** ** Decisions *)
Record CandidateDecision := {
  cd_TargetID : uuid;
  cd_CredentialID : option uuid;
  cd_TargetPriority : Z;
  cd_MemberPriority : Z;
  cd_Weight : Z;
  cd_Score : Z;
  cd_Eligible : bool;
  cd_Reasons : list string;
  cd_QuotaRemaining : option Z;
  cd_QuotaResetAt : option time;
  cd_QuotaObservedAt : option time
}.

Record FallbackEntry := {
  fb_TargetID : option uuid;
  fb_CredentialID : option uuid;
  fb_Reason : string
}.

Record Decision := {
  d_StrategyVersion : string;
  d_Candidates : list CandidateDecision;
  d_SelectedTargetID : option uuid;
  d_SelectedCredentialID : option uuid;
  d_SelectedProviderID : option uuid;
  d_FallbackChain : list FallbackEntry
}.

(** ** Pool members *)
Record quotaSnapshot := {
  q_Found : bool;
  q_Remaining : option Z;
  q_ResetAt : option time;
  q_ObservedAt : option time;
  q_Confidence : string
}.

Record poolMember := {
  m_CredentialID : uuid;
  m_MemberPriority : Z;
  m_MemberWeight : Z;
  m_Enabled : bool;
  m_ProviderEnabled : bool;
  m_Status : string;
  m_MaxConcurrency : Z;
  m_Region : string;
  m_ProxyRef : string;
  m_CooldownUntil : option time;
  m_Quota : quotaSnapshot
}.

Record candidate := {
  c_target : Target;
  c_member : poolMember;
  c_decision : CandidateDecision;
  c_leaseKey : string;
  c_combinedWeight : Z;
  c_decisionIndex : nat
}.

(** ** Options ([service.go]) *)
Record Options := {
  o_LeaseTTL : Z;
  o_AffinityTTL : Z;
  o_CursorTTL : Z;
  o_QuotaMaxAge : Z
}.

Definition or_default (value default : Z) : Z := if value =? 0 then default else value.

Definition withDefaults (o : Options) : result error Options :=
  let o := {| o_LeaseTTL := or_default (o_LeaseTTL o) defaultLeaseTTL;
              o_AffinityTTL := or_default (o_AffinityTTL o) defaultAffinityTTL;
              o_CursorTTL := or_default (o_CursorTTL o) defaultCursorTTL;
              o_QuotaMaxAge := or_default (o_QuotaMaxAge o) defaultQuotaMaxAge |} in
  if (o_LeaseTTL o <=? 0) || (o_AffinityTTL o <=? 0) || (o_CursorTTL o <=? 0)
     || (o_QuotaMaxAge o <=? 0)
  then Err ErrInvalidInput else Ok o.

(** [mapRepositoryError] of [repository.go]. *)
Definition mapRepositoryError (e : sqlerr) : error :=
  match e with
  | NoRows => ErrNoEligible
  | SqlState code =>
      if String.eqb code "23505" then ErrConflict
      else if String.eqb code "23503" || String.eqb code "23514" || String.eqb code "22P02"
      then ErrInvalidInput
      else if String.eqb code "55000" then ErrConflict
      else EDatabase e
  end.

End Sched.
