(* ===== verification/Coordinator.v ===== *)
(** * The transient coordination state of the scheduler

    [internal/scheduler/coordinator.go]: leases, cursors and affinities, in the
    process ([memoryCoordinator]) and in Redis ([redisCoordinator]), and the
    abstract state both refine.

    The clock and the faults of a call are inputs ([Call]): [c_now] is the first
    reading of the clock, [c_then] the second where the code reads it twice, and
    [c_fault] says that the context was done, or that the command failed before or
    after the server ran it.  The Redis client sends a command again when its reply
    is lost: [c_sent] are the instants of the earlier executions.  The memory
    coordinator only looks at the context.  Operations are atomic (the mutex, a
    Redis command, a Lua script), so concurrent clients are interleaved calls.
    Receivers and clients are not nil. *)

From stdpp Require Import base gmap strings list relations.
From Stdlib Require Import ZArith Lia Ascii String.
From S2P Require Import Prelude GoLib SchedulerModel.

Module Coordinator.
Import Sched.

Inductive fault := Cancelled | NotReached | ReplyLost.
Record Call := { c_now : time; c_then : time; c_fault : option fault; c_sent : list time }.

(** The first execution of a call. *)
Definition started (call : Call) : time := match c_sent call with t :: _ => t | [] => c_now call end.

(** The call under [context.WithoutCancel]. *)
Definition without_cancel (call : Call) : Call :=
  {| c_now := c_now call; c_then := c_then call;
     c_fault := match c_fault call with Some Cancelled => None | f => f end; c_sent := c_sent call |}.

(** A lease handle: [sync.Once] is [ls_done], with the error it stored. *)
Record Lease := {
  ls_resource : string;
  ls_owner : string;
  ls_done : bool;
  ls_err : option error
}.
Definition new_lease (resource owner : string) : Lease :=
  {| ls_resource := resource; ls_owner := owner; ls_done := false; ls_err := None |}.
Definition finish (l : Lease) (err : option error) : Lease :=
  {| ls_resource := ls_resource l; ls_owner := ls_owner l; ls_done := true; ls_err := err |}.
Definition lease_result (err : option error) : result error unit :=
  match err with Some e => Err e | None => Ok tt end.

Definition leaseKeyPrefix : string := "bablo:scheduler:lease:".
Definition cursorKeyPrefix : string := "bablo:scheduler:cursor:".
Definition affinityKeyPrefix : string := "bablo:scheduler:affinity:".

(** The hexadecimal SHA-256 of a string. *)
Class Sha256Hex := sha256_hex : string -> string.
Definition affinityStateKey `{Sha256Hex} (value : string) : string :=
  affinityKeyPrefix +:+ sha256_hex value.

(** ** The interface

    [Acquire], [Next], [GetAffinity] and [SetAffinity] of [Coordinator], and the
    coordinator's part of [Lease.Renew] and [Lease.Release]. *)
Class Coordinator (C : Type) := {
  Acquire : Call -> string -> string -> Z -> C -> C * result error Lease;
  Next : Call -> string -> Z -> Z -> C -> C * result error Z;
  GetAffinity : Call -> string -> C -> C * result error (option uuid);
  SetAffinity : Call -> string -> uuid -> Z -> C -> C * result error unit;
  Renew : Call -> Lease -> Z -> C -> C * result error unit;
  release_once : Call -> Lease -> C -> C * option error
}.

(** [Release]: the body of [once.Do] runs at most once; later calls return the
    error it stored. *)
Definition Release {C} `{Coordinator C} (call : Call) (l : Lease) (c : C)
  : C * Lease * result error unit :=
  if ls_done l then (c, l, lease_result (ls_err l))
  else let '(c', err) := release_once call l c in (c', finish l err, lease_result err).

(** ** In memory *)
Record memoryLeaseEntry := { ml_owner : string; ml_expiresAt : time }.
Record memoryCursorEntry := { mc_value : Z; mc_expiresAt : time }.
Record memoryAffinityEntry := { ma_credentialID : uuid; ma_expiresAt : time }.

Record memoryCoordinator := {
  leases : gmap string memoryLeaseEntry;
  cursors : gmap string memoryCursorEntry;
  affinities : gmap string memoryAffinityEntry
}.

Definition NewMemoryCoordinator : memoryCoordinator :=
  {| leases := ∅; cursors := ∅; affinities := ∅ |}.

Definition cleanup (now : time) (c : memoryCoordinator) : memoryCoordinator :=
  {| leases := filter (fun kv => After (ml_expiresAt kv.2) now = true) (leases c);
     cursors := filter (fun kv => After (mc_expiresAt kv.2) now = true) (cursors c);
     affinities := filter (fun kv => After (ma_expiresAt kv.2) now = true) (affinities c) |}.

Definition with_leases (m : gmap string memoryLeaseEntry) (c : memoryCoordinator) :=
  {| leases := m; cursors := cursors c; affinities := affinities c |}.
Definition with_cursors (m : gmap string memoryCursorEntry) (c : memoryCoordinator) :=
  {| leases := leases c; cursors := m; affinities := affinities c |}.
Definition with_affinities (m : gmap string memoryAffinityEntry) (c : memoryCoordinator) :=
  {| leases := leases c; cursors := cursors c; affinities := m |}.

Definition contextErr (call : Call) : option error :=
  match c_fault call with Some Cancelled => Some ErrContext | _ => None end.

Definition memory_Acquire (call : Call) (resource owner : string) (ttl : Z)
    (c : memoryCoordinator) : memoryCoordinator * result error Lease :=
  match contextErr call with
  | Some e => (c, Err e)
  | None =>
      if String.eqb resource "" || String.eqb owner "" || (ttl <=? 0)
      then (c, Err ErrInvalidInput) else
      let now := c_now call in
      let c := cleanup now c in
      let granted :=
        (with_leases (<[resource := {| ml_owner := owner; ml_expiresAt := now + ttl |}]> (leases c)) c,
         Ok (new_lease resource owner)) in
      match leases c !! resource with
      | Some current => if After (ml_expiresAt current) now then (c, Err ErrLeaseBusy) else granted
      | None => granted
      end
  end.

Definition memory_Next (call : Call) (key : string) (modulo ttl : Z)
    (c : memoryCoordinator) : memoryCoordinator * result error Z :=
  match contextErr call with
  | Some e => (c, Err e)
  | None =>
      if String.eqb key "" || (modulo <=? 0) || (ttl <=? 0) then (c, Err ErrInvalidInput) else
      let now := c_now call in
      let c := cleanup now c in
      let value := match cursors c !! key with Some entry => mc_value entry | None => 0 end in
      (with_cursors (<[key := {| mc_value := i64_add value 1; mc_expiresAt := now + ttl |}]> (cursors c)) c,
       Ok (Z.rem value modulo))
  end.

Section memory_affinity.
Context `{Sha256Hex}.

Definition memory_GetAffinity (call : Call) (key : string) (c : memoryCoordinator)
  : memoryCoordinator * result error (option uuid) :=
  match contextErr call with
  | Some e => (c, Err e)
  | None =>
      if String.eqb key "" then (c, Err ErrInvalidInput) else
      let now := c_now call in
      let c := cleanup now c in
      match affinities c !! affinityStateKey key with
      | Some entry => if After (ma_expiresAt entry) now
                      then (c, Ok (Some (ma_credentialID entry))) else (c, Ok None)
      | None => (c, Ok None)
      end
  end.

Definition memory_SetAffinity (call : Call) (key : string) (credentialID : uuid) (ttl : Z)
    (c : memoryCoordinator) : memoryCoordinator * result error unit :=
  match contextErr call with
  | Some e => (c, Err e)
  | None =>
      if String.eqb key "" || uuid_eqb credentialID uuid_nil || (ttl <=? 0)
      then (c, Err ErrInvalidInput) else
      let now := c_now call in
      let c := cleanup now c in
      (with_affinities
         (<[affinityStateKey key := {| ma_credentialID := credentialID; ma_expiresAt := now + ttl |}]>
            (affinities c)) c, Ok tt)
  end.
End memory_affinity.

Definition memory_Renew (call : Call) (l : Lease) (ttl : Z) (c : memoryCoordinator)
  : memoryCoordinator * result error unit :=
  if ttl <=? 0 then (c, Err ErrInvalidInput) else
  match contextErr call with
  | Some e => (c, Err e)
  | None =>
      match leases c !! ls_resource l with
      | Some entry =>
          if negb (After (ml_expiresAt entry) (c_now call))
             || negb (String.eqb (ml_owner entry) (ls_owner l))
          then (c, Err ErrLeaseNotOwner)
          else (with_leases (<[ls_resource l :=
                  {| ml_owner := ml_owner entry; ml_expiresAt := c_then call + ttl |}]> (leases c)) c, Ok tt)
      | None => (c, Err ErrLeaseNotOwner)
      end
  end.

Definition memory_release (call : Call) (l : Lease) (c : memoryCoordinator)
  : memoryCoordinator * option error :=
  match contextErr call with
  | Some e => (c, Some e)
  | None =>
      match leases c !! ls_resource l with
      | Some entry =>
          if negb (After (ml_expiresAt entry) (c_now call))
          then (with_leases (delete (ls_resource l) (leases c)) c, None)
          else if negb (String.eqb (ml_owner entry) (ls_owner l)) then (c, Some ErrLeaseNotOwner)
          else (with_leases (delete (ls_resource l) (leases c)) c, None)
      | None => (with_leases (delete (ls_resource l) (leases c)) c, None)
      end
  end.

#[export] Instance memory_coordinator `{Sha256Hex} : Coordinator memoryCoordinator := {|
  Acquire := memory_Acquire; Next := memory_Next;
  GetAffinity := memory_GetAffinity; SetAffinity := memory_SetAffinity;
  Renew := memory_Renew; release_once := memory_release |}.

(** ** In Redis

    The server and the client library are not part of the repository: their
    commands are the parameters [RedisServer].  A command sees the server's
    clock; [redis_get t k s] is what [GET] answers at [t].  [client_ttl] is the
    expiry, in nanoseconds, that the client asks for a Go duration given to
    [SetNX] or [Set]; [PEXPIRE] takes the milliseconds the scripts pass. *)
Class RedisServer (S : Type) := {
  redis_get : time -> string -> S -> option string;
  redis_set_nx : time -> string -> string -> Z -> S -> S * bool;
  redis_set : time -> string -> string -> Z -> S -> S;
  redis_incr : time -> string -> S -> option (S * Z);
  redis_pexpire : time -> string -> Z -> S -> S;
  redis_del : time -> string -> S -> S;
  client_ttl : Z -> Z
}.
(** [uuid.Parse], third-party code. *)
Class UuidParse := uuid_parse : string -> option uuid.

(** [Duration.Milliseconds]. *)
Definition Milliseconds (d : Z) : Z := Z.quot d Millisecond.

Section redis.
Context {S : Type} `{RedisServer S, UuidText, UuidParse, Sha256Hex}.

(** The executions whose replies were lost. *)
Fixpoint resend {A} (times : list time) (command : time -> S -> S * A) (s : S) : S :=
  match times with [] => s | t :: times => resend times command (command t s).1 end.
(** A command or a script with the fault of its call, after its earlier executions: the client
    (go-redis, [MaxRetries] 3 unless the URL says otherwise) sends a command again after an error
    of the connection. *)
Definition exec {A} (call : Call) (command : time -> S -> S * A) (s : S) : S * option A :=
  let s := resend (c_sent call) command s in
  match c_fault call with
  | Some (Cancelled | NotReached) => (s, None)
  | Some ReplyLost => ((command (c_now call) s).1, None)
  | None => let '(s', a) := command (c_now call) s in (s', Some a)
  end.

Definition releaseLeaseLua (now : time) (key owner : string) (s : S) : S * Z :=
  match redis_get now key s with
  | None => (s, -1)
  | Some value => if negb (String.eqb value owner) then (s, 0) else (redis_del now key s, 1)
  end.

Definition renewLeaseLua (now : time) (key owner : string) (ms : Z) (s : S) : S * Z :=
  match redis_get now key s with
  | None => (s, 0)
  | Some value => if negb (String.eqb value owner) then (s, 0)
                  else (redis_pexpire now key ms s, 1)
  end.

(** [None] is the error [INCR] raises, which aborts the script. *)
Definition nextCursorLua (now : time) (key : string) (ms : Z) (s : S) : S * option Z :=
  match redis_incr now key s with
  | Some (s', n) => (redis_pexpire now key ms s', Some (n - 1))
  | None => (s, None)
  end.

Definition redis_Acquire (call : Call) (resource owner : string) (ttl : Z) (s : S)
  : S * result error Lease :=
  if String.eqb resource "" || String.eqb owner "" || (ttl <=? 0) then (s, Err ErrInvalidInput) else
  match exec call (fun now => redis_set_nx now (leaseKeyPrefix +:+ resource) owner ttl) s with
  | (s', None) => (s', Err ErrStateUnavailable)
  | (s', Some false) => (s', Err ErrLeaseBusy)
  | (s', Some true) => (s', Ok (new_lease resource owner))
  end.

Definition redis_Next (call : Call) (key : string) (modulo ttl : Z) (s : S)
  : S * result error Z :=
  if String.eqb key "" || (modulo <=? 0) || (ttl <=? 0) then (s, Err ErrInvalidInput) else
  match exec call (fun now => nextCursorLua now (cursorKeyPrefix +:+ key) (Milliseconds ttl)) s with
  | (s', Some (Some value)) => (s', Ok (Z.rem value modulo))
  | (s', _) => (s', Err ErrStateUnavailable)
  end.

Definition redis_GetAffinity (call : Call) (key : string) (s : S)
  : S * result error (option uuid) :=
  if String.eqb key "" then (s, Err ErrInvalidInput) else
  match exec call (fun now s => (s, redis_get now (affinityStateKey key) s)) s with
  | (s', None) => (s', Err ErrStateUnavailable)
  | (s', Some None) => (s', Ok None)
  | (s', Some (Some value)) =>
      match uuid_parse value with
      | None => (s', Ok None)
      | Some credentialID => if uuid_eqb credentialID uuid_nil then (s', Ok None)
                             else (s', Ok (Some credentialID))
      end
  end.

Definition redis_SetAffinity (call : Call) (key : string) (credentialID : uuid) (ttl : Z) (s : S)
  : S * result error unit :=
  if String.eqb key "" || uuid_eqb credentialID uuid_nil || (ttl <=? 0)
  then (s, Err ErrInvalidInput) else
  match exec call (fun now s => (redis_set now (affinityStateKey key)
                                   (uuid_string credentialID) ttl s, tt)) s with
  | (s', None) => (s', Err ErrStateUnavailable)
  | (s', Some _) => (s', Ok tt)
  end.

(** The key of a [redisLease] is the prefix followed by the resource. *)
Definition redis_Renew (call : Call) (l : Lease) (ttl : Z) (s : S) : S * result error unit :=
  if ttl <=? 0 then (s, Err ErrInvalidInput) else
  match exec call (fun now => renewLeaseLua now (leaseKeyPrefix +:+ ls_resource l) (ls_owner l)
                                (Milliseconds ttl)) s with
  | (s', None) => (s', Err ErrStateUnavailable)
  | (s', Some value) => if negb (value =? 1) then (s', Err ErrLeaseNotOwner) else (s', Ok tt)
  end.

Definition redis_release (call : Call) (l : Lease) (s : S) : S * option error :=
  match exec call (fun now => releaseLeaseLua now (leaseKeyPrefix +:+ ls_resource l) (ls_owner l)) s with
  | (s', None) => (s', Some ErrStateUnavailable)
  | (s', Some value) => if (value =? -1) || (value =? 1) then (s', None)
                        else (s', Some ErrLeaseNotOwner)
  end.

#[export] Instance redis_coordinator : Coordinator S := {|
  Acquire := redis_Acquire; Next := redis_Next;
  GetAffinity := redis_GetAffinity; SetAffinity := redis_SetAffinity;
  Renew := redis_Renew; release_once := redis_release |}.
End redis.

End Coordinator.

(** * What a coordinator promises, and that both coordinators keep it

    The abstract coordinator is a [view]: what it would answer about each lease,
    cursor and affinity at each later instant if nothing else happened.  [spec]
    is one fault-free operation on it, [astep] adds refusals and lost replies, [cstep]
    the executions before the last, and [CoordinatorRefines] is the forward simulation an implementation owes.
    The properties of leases and cursors are proved once, against the interface. *)

From stdpp Require Import base gmap strings list relations pretty.
From Stdlib Require Import ZArith Lia Ascii String.
From S2P Require Import Prelude GoLib SchedulerModel.

Module CoordinatorSpec.
Import Sched Coordinator.

(** ** The abstract coordinator *)
Inductive item := ILease (resource : string) | ICursor (key : string) | IAffinity (digest : string).
Inductive val := VOwner (owner : string) | VCount (n : Z) | VCred (credential : uuid).
#[export] Instance item_eq_dec : EqDecision item.
Proof. solve_decision. Defined.
#[export] Instance val_eq_dec : EqDecision val.
Proof. solve_decision. Defined.

Definition view : Type := time -> item -> option val.
Definition empty_view : view := fun _ _ => None.

Definition put (deadline : time) (i : item) (x : val) (v : view) : view := fun t j =>
  if decide (j = i) then (if t <? deadline then Some x else None) else v t j.
Definition drop (i : item) (v : view) : view := fun t j =>
  if decide (j = i) then None else v t j.

Inductive op :=
| OAcquire (resource owner : string) (ttl : Z)
| ORenew (resource owner : string) (ttl : Z)
| ORelease (resource owner : string)
| ONext (key : string) (modulo ttl : Z)
| OGetAffinity (key : string)
| OSetAffinity (key : string) (credential : uuid) (ttl : Z).

Inductive resp :=
| RUnit
| RLease (resource owner : string)
| RIndex (n : Z)
| RCred (credential : option uuid)
| RErr (e : error).

Definition op_valid (o : op) : bool :=
  match o with
  | OAcquire r w ttl => negb (String.eqb r "") && negb (String.eqb w "") && (0 <? ttl)
  | ORenew _ _ ttl => 0 <? ttl
  | ORelease _ _ => true
  | ONext k m ttl => negb (String.eqb k "") && (0 <? m) && (0 <? ttl)
  | OGetAffinity k => negb (String.eqb k "")
  | OSetAffinity k u ttl => negb (String.eqb k "") && negb (uuid_eqb u uuid_nil) && (0 <? ttl)
  end.

(** How long the state an operation writes lives: [lease_ttl] for [Acquire],
    [script_ttl] for [Renew] and [Next], and the instant a renewal counts from; whether
    operations are commands, which may be sent again. *)
Record Ttls := {
  lease_ttl : Z -> Z;
  script_ttl : Z -> Z;
  affinity_ttl : Z -> Z;
  renew_from : Call -> time;
  sends : bool
}.
Definition resent (T : Ttls) (call : Call) : list time := if sends T then c_sent call else [].

Definition count_at (v : view) (t : time) (key : string) : Z :=
  match v t (ICursor key) with Some (VCount n) => n | _ => 0 end.

Section spec.
Context `{Sha256Hex} (T : Ttls).

Definition spec (call : Call) (o : op) (v : view) : view * resp :=
  let now := c_now call in
  match o with
  | OAcquire r w ttl =>
      match v now (ILease r) with
      | Some _ => (v, RErr ErrLeaseBusy)
      | None => (put (now + lease_ttl T ttl) (ILease r) (VOwner w) v, RLease r w)
      end
  | ORenew r w ttl =>
      if bool_decide (v now (ILease r) = Some (VOwner w))
      then (put (renew_from T call + script_ttl T ttl) (ILease r) (VOwner w) v, RUnit)
      else (v, RErr ErrLeaseNotOwner)
  | ORelease r w =>
      match v now (ILease r) with
      | None => (v, RUnit)
      | Some x => if bool_decide (x = VOwner w) then (drop (ILease r) v, RUnit)
                  else (v, RErr ErrLeaseNotOwner)
      end
  | ONext k m ttl =>
      let n := count_at v now k in
      (put (now + script_ttl T ttl) (ICursor k) (VCount (n + 1)) v, RIndex (Z.rem n m))
  | OGetAffinity k =>
      (v, RCred (match v now (IAffinity (sha256_hex k)) with Some (VCred u) => Some u | _ => None end))
  | OSetAffinity k u ttl =>
      (put (now + affinity_ttl T ttl) (IAffinity (sha256_hex k)) (VCred u) v, RUnit)
  end.

(** The counter of a cursor at the top of its range. *)
Definition exhausted (call : Call) (o : op) (v : view) : Prop :=
  match o with ONext k _ _ => max_int64 <= count_at v (c_now call) k | _ => False end.

(** An error that says nothing about who holds a lease. *)
Definition refusal (e : error) : Prop := e <> ErrLeaseBusy /\ e <> ErrLeaseNotOwner.

Inductive astep (call : Call) (o : op) (v : view) : view -> resp -> Prop :=
| a_done v' r :
    op_valid o = true -> ~ exhausted call o v ->
    spec call o v = (v', r) -> astep call o v v' r
| a_refused e :
    c_fault call <> None \/ op_valid o = false ->
    refusal e -> astep call o v v (RErr e)
| a_lost v' r e :
    c_fault call = Some ReplyLost -> op_valid o = true -> ~ exhausted call o v ->
    spec call o v = (v', r) -> refusal e -> astep call o v v' (RErr e)
| a_exhausted v' r :
    exhausted call o v -> op_valid o = true ->
    (forall t i, i <> ICursor (match o with ONext k _ _ => k | _ => "" end) -> v' t i = v t i) ->
    astep call o v v' r.

(** An execution at [t] whose reply was lost. *)
Definition execution (t : time) : Call := {| c_now := t; c_then := t; c_fault := None; c_sent := [] |}.
Inductive resends (o : op) : list time -> view -> view -> Prop :=
| resends_nil v : resends o [] v v
| resends_cons t ts v v1 v2 r : astep (execution t) o v v1 r -> resends o ts v1 v2 -> resends o (t :: ts) v v2.
(** A call: its earlier executions, then one step. *)
Definition cstep (call : Call) (o : op) (v v' : view) (r : resp) : Prop :=
  exists v0, resends o (resent T call) v v0 /\ astep call o v0 v' r.
End spec.

(** ** The interface an implementation owes *)
Definition of_result {A} (f : A -> resp) (r : result error A) : resp :=
  match r with Ok a => f a | Err e => RErr e end.

Definition run {C} `{Coordinator C} (call : Call) (o : op) (c : C) : C * resp :=
  match o with
  | OAcquire r w ttl => let '(c', res) := Acquire call r w ttl c in
      (c', of_result (fun l => RLease (ls_resource l) (ls_owner l)) res)
  | ORenew r w ttl => let '(c', res) := Renew call (new_lease r w) ttl c in
      (c', of_result (fun _ => RUnit) res)
  | ORelease r w => let '(c', err) := release_once call (new_lease r w) c in
      (c', match err with Some e => RErr e | None => RUnit end)
  | ONext k m ttl => let '(c', res) := Next call k m ttl c in (c', of_result RIndex res)
  | OGetAffinity k => let '(c', res) := GetAffinity call k c in (c', of_result RCred res)
  | OSetAffinity k u ttl => let '(c', res) := SetAffinity call k u ttl c in
      (c', of_result (fun _ => RUnit) res)
  end.

Definition wf_call (call : Call) : Prop :=
  c_now call <= c_then call /\ Sorted.StronglySorted Z.le (c_sent call ++ [c_now call]).
Lemma started_now call : wf_call call -> started call <= c_now call.
Proof.
  intros [_ Hs]. unfold started. destruct (c_sent call) as [|t l]; [done|]. cbn [app] in Hs. apply Sorted.StronglySorted_inv in Hs as [_ Hf].
  rewrite Forall_app, Forall_singleton in Hf. by destruct Hf.
Qed.

(** What a view may hold: owners under leases, 64-bit counts under cursors,
    identifiers other than the nil one under affinities. *)
Definition val_ok (i : item) (x : val) : Prop :=
  match i, x with
  | ILease _, VOwner _ => True
  | ICursor _, VCount n => in_i64 n
  | IAffinity _, VCred u => u <> uuid_nil
  | _, _ => False
  end.

Class CoordinatorRefines (C : Type) `{Sha256Hex, Coordinator C} := {
  ttls : Ttls;
  repr : time -> C -> view -> Prop;
  repr_later now later c v : now <= later -> repr now c v -> repr later c v;
  repr_ok now c v t i x : repr now c v -> now <= t -> v t i = Some x -> val_ok i x;
  acquire_lease call r w ttl c c' l : Acquire call r w ttl c = (c', Ok l) -> l = new_lease r w;
  known_errors call o c c' : run call o c <> (c', RErr ErrNoEligible);
  repr_step call o c v c' r :
    wf_call call -> repr (started call) c v -> run call o c = (c', r) ->
    exists v', cstep ttls call o v v' r /\ repr (c_now call) c' v'
}.

(** What every execution keeps holds before the last one. *)
Lemma cstep_last `{Sha256Hex} (T : Ttls) (P : time -> view -> Prop) call o v v' r :
  (forall now now' v, now <= now' -> P now v -> P now' v) ->
  (forall t v v' r, astep T (execution t) o v v' r -> P t v -> P t v') ->
  wf_call call -> P (started call) v -> cstep T call o v v' r ->
  exists v0, P (c_now call) v0 /\ astep T call o v0 v' r.
Proof.
  intros Hmono Hstep Hwf HP (v0 & Hr & Ha). exists v0. split; [|done]. pose proof (started_now _ Hwf) as Hle. destruct Hwf as [_ Hs].
  unfold resent in Hr. destruct (sends T); [|inversion Hr; subst; by eapply Hmono]. unfold started in *.
  revert Hs HP Hle. induction Hr as [w|t ts w w1 w2 r1 H1 Hr IH]; intros Hs HP Hle; [done|].
  apply Hstep in H1; [|exact HP]. cbn [app] in Hs. apply Sorted.StronglySorted_inv in Hs as [Hs Hf].
  apply (IH Ha Hs).
  - eapply Hmono; [|exact H1]. destruct ts; simpl in Hf; by apply Forall_cons in Hf as [? _].
  - destruct ts; [done|]. simpl in Hs. apply Sorted.StronglySorted_inv in Hs as [_ Hf']. rewrite Forall_app, Forall_singleton in Hf'. by destruct Hf'.
Qed.
Lemma cstep_once `{Sha256Hex} (T : Ttls) call o v v' r : resent T call = [] -> cstep T call o v v' r -> astep T call o v v' r.
Proof. intros E (v0 & Hr & Ha). rewrite E in Hr. by inversion Hr; subst. Qed.

(** ** Lemmas on views *)
Lemma put_same d i x v t : put d i x v t i = if t <? d then Some x else None.
Proof. unfold put. by rewrite decide_True. Qed.
Lemma put_other d i j x v t : j <> i -> put d i x v t j = v t j.
Proof. intros. unfold put. by rewrite decide_False. Qed.
Lemma drop_same i v t : drop i v t i = None.
Proof. unfold drop. by rewrite decide_True. Qed.
Lemma drop_other i j v t : j <> i -> drop i v t j = v t j.
Proof. intros. unfold drop. by rewrite decide_False. Qed.

Lemma ltb_case (t d : Z) : (t < d /\ (t <? d) = true) \/ (d <= t /\ (t <? d) = false).
Proof. destruct (Z.ltb_spec t d); [left|right]; auto. Qed.

End CoordinatorSpec.
