(* ===== verification/CoordinatorImpl.v ===== *)
(** * The two coordinators refine the abstract one

    [memoryCoordinator] unconditionally; [redisCoordinator] on a server and a
    client that behave as documented ([RedisLaws]). *)

From stdpp Require Import base gmap strings list relations pretty.
From Stdlib Require Import ZArith Lia Ascii String.
From S2P Require Import Prelude GoLib SchedulerModel Coordinator.

Module CoordinatorImpl.
Import Sched Coordinator CoordinatorSpec.

(** ** In memory *)
Section memory.
Context `{Sha256Hex}.

(** What the coordinator answers about an item at [t]. *)
Definition mview (c : memoryCoordinator) : view := fun t i =>
  match i with
  | ILease r => e ← leases c !! r; if t <? ml_expiresAt e then Some (VOwner (ml_owner e)) else None
  | ICursor k => e ← cursors c !! k; if t <? mc_expiresAt e then Some (VCount (mc_value e)) else None
  | IAffinity d => e ← affinities c !! (affinityKeyPrefix +:+ d);
                   if t <? ma_expiresAt e then Some (VCred (ma_credentialID e)) else None
  end.

Definition memory_wf (c : memoryCoordinator) : Prop :=
  (forall k e, cursors c !! k = Some e -> in_i64 (mc_value e))
  /\ (forall k e, affinities c !! k = Some e -> ma_credentialID e <> uuid_nil).

Definition memory_repr (now : time) (c : memoryCoordinator) (v : view) : Prop :=
  memory_wf c /\ forall t i, now <= t -> v t i = mview c t i.

Lemma filter_live {A} (f : A -> time) (now : time) (m : gmap string A) k :
  filter (fun kv : string * A => After (f kv.2) now = true) m !! k
  = match m !! k with Some e => if now <? f e then Some e else None | None => None end.
Proof.
  rewrite map_lookup_filter. destruct (m !! k) as [e|]; [|done]. simpl.
  unfold After. case_guard as Hg; destruct (now <? f e); simpl; naive_solver.
Qed.

Lemma mview_cleanup now c t i : now <= t -> mview (cleanup now c) t i = mview c t i.
Proof.
  intros Ht. destruct i; simpl; rewrite filter_live; repeat (case_match; simpl); try done;
    bools; lia.
Qed.

Lemma cleanup_wf now c : memory_wf c -> memory_wf (cleanup now c).
Proof.
  intros [Hc Ha]. split; simpl; intros k e; rewrite filter_live; case_match; try done;
    case_match; naive_solver.
Qed.

Lemma cleanup_repr now c v : memory_repr now c v -> memory_repr now (cleanup now c) v.
Proof.
  intros [Hwf Hv]. split; [by apply cleanup_wf|]. intros. rewrite mview_cleanup by done. auto.
Qed.

(** Entries the clean-up leaves are live. *)
Lemma cleanup_lease now c r e : leases (cleanup now c) !! r = Some e -> now < ml_expiresAt e.
Proof. simpl. rewrite filter_live. repeat case_match; try done. intros [= <-]. by bools. Qed.
Lemma cleanup_cursor now c r e : cursors (cleanup now c) !! r = Some e -> now < mc_expiresAt e.
Proof. simpl. rewrite filter_live. repeat case_match; try done. intros [= <-]. by bools. Qed.
Lemma cleanup_affinity now c r e : affinities (cleanup now c) !! r = Some e -> now < ma_expiresAt e.
Proof. simpl. rewrite filter_live. repeat case_match; try done. intros [= <-]. by bools. Qed.

(** Writing or deleting one entry changes one item of the view. *)
Lemma repr_put_lease now c v r w d :
  memory_repr now c v ->
  memory_repr now (with_leases (<[r := {| ml_owner := w; ml_expiresAt := d |}]> (leases c)) c)
    (put d (ILease r) (VOwner w) v).
Proof.
  intros [Hwf Hv]. split; [done|]. intros t i Ht. unfold put. case_decide as Hi.
  - subst. simpl. by rewrite lookup_insert_eq.
  - rewrite Hv by done. destruct i; simpl; try done. rewrite lookup_insert_ne; [done|congruence].
Qed.

Lemma repr_drop_lease now c v r :
  memory_repr now c v ->
  memory_repr now (with_leases (delete r (leases c)) c) (drop (ILease r) v).
Proof.
  intros [Hwf Hv]. split; [done|]. intros t i Ht. unfold drop. case_decide as Hi.
  - subst. simpl. by rewrite lookup_delete_eq.
  - rewrite Hv by done. destruct i; simpl; try done. rewrite lookup_delete_ne; [done|congruence].
Qed.

Lemma repr_put_cursor now c v k n d :
  in_i64 n -> memory_repr now c v ->
  memory_repr now (with_cursors (<[k := {| mc_value := n; mc_expiresAt := d |}]> (cursors c)) c)
    (put d (ICursor k) (VCount n) v).
Proof.
  intros Hn [[Hc Ha] Hv]. split.
  { split; [|done]. simpl. intros k' e [[<- <-]|[_ He]]%lookup_insert_Some; [done|eauto]. }
  intros t i Ht. unfold put. case_decide as Hi.
  - subst. simpl. by rewrite lookup_insert_eq.
  - rewrite Hv by done. destruct i; simpl; try done. rewrite lookup_insert_ne; [done|congruence].
Qed.

Lemma app_inj_l (p a b : string) : p +:+ a = p +:+ b -> a = b.
Proof. unfold String.append. induction p; simpl; [done|]. intros [= ?]. auto. Qed.

Lemma repr_put_affinity now c v k u d :
  u <> uuid_nil -> memory_repr now c v ->
  memory_repr now (with_affinities (<[affinityStateKey k := {| ma_credentialID := u; ma_expiresAt := d |}]>
                     (affinities c)) c)
    (put d (IAffinity (sha256_hex k)) (VCred u) v).
Proof.
  intros Hu [[Hc Ha] Hv]. split.
  { split; [done|]. simpl. intros k' e [[<- <-]|[_ He]]%lookup_insert_Some; [done|eauto]. }
  intros t i Ht. unfold put. case_decide as Hi.
  - subst. simpl. unfold affinityStateKey. by rewrite lookup_insert_eq.
  - rewrite Hv by done. destruct i; simpl; try done. unfold affinityStateKey.
    rewrite lookup_insert_ne; [done|]. intros He%app_inj_l. congruence.
Qed.

Definition memory_ttls : Ttls := {|
  lease_ttl := fun d => d; script_ttl := fun d => d; affinity_ttl := fun d => d;
  renew_from := c_then; sends := false |}.

Lemma context_refused call e : contextErr call = Some e -> c_fault call <> None /\ refusal e.
Proof. unfold contextErr, refusal. destruct (c_fault call) as [[]|]; naive_solver. Qed.

Lemma op_guard_false (a b : bool) (d : Z) :
  a || b || (d <=? 0) = false -> negb a && negb b && (0 <? d) = true.
Proof.
  intros [[-> ->]%orb_false_iff Hd]%orb_false_iff. simpl. by apply Z.ltb_lt, Z.leb_gt.
Qed.
Lemma op_guard_true (a b : bool) (d : Z) :
  a || b || (d <=? 0) = true -> negb a && negb b && (0 <? d) = false.
Proof.
  destruct a, b; simpl; try done. intros Hd%Z.leb_le. by apply Z.ltb_ge.
Qed.

(** The answer about an item from the entry found after the clean-up. *)
Lemma repr_lease now c v r :
  memory_repr now c v ->
  v now (ILease r) = match leases (cleanup now c) !! r with
                     | Some e => Some (VOwner (ml_owner e)) | None => None end.
Proof.
  intros Hr. rewrite (proj2 (cleanup_repr _ _ _ Hr)) by lia. unfold mview.
  destruct (_ !! r) as [e|] eqn:Hl; [|done]. apply cleanup_lease, Z.ltb_lt in Hl.
  cbn [mbind option_bind]. by rewrite Hl.
Qed.
Lemma repr_cursor now c v k :
  memory_repr now c v ->
  v now (ICursor k) = match cursors (cleanup now c) !! k with
                      | Some e => Some (VCount (mc_value e)) | None => None end.
Proof.
  intros Hr. rewrite (proj2 (cleanup_repr _ _ _ Hr)) by lia. unfold mview.
  destruct (_ !! k) as [e|] eqn:Hl; [|done]. apply cleanup_cursor, Z.ltb_lt in Hl.
  cbn [mbind option_bind]. by rewrite Hl.
Qed.
Lemma repr_affinity now c v k :
  memory_repr now c v ->
  v now (IAffinity (sha256_hex k)) = match affinities (cleanup now c) !! affinityStateKey k with
                      | Some e => Some (VCred (ma_credentialID e)) | None => None end.
Proof.
  intros Hr. rewrite (proj2 (cleanup_repr _ _ _ Hr)) by lia. unfold mview, affinityStateKey.
  destruct (_ !! _) as [e|] eqn:Hl; [|done]. apply cleanup_affinity, Z.ltb_lt in Hl.
  cbn [mbind option_bind]. by rewrite Hl.
Qed.

(** One operation on the memory coordinator is one step of the abstract one. *)
Definition simulated (o : op) : Prop := forall call c v c' res,
  memory_repr (c_now call) c v -> run call o c = (c', res) ->
  exists v', astep memory_ttls call o v v' res /\ memory_repr (c_now call) c' v'.

Ltac done_step := apply a_done; [first [assumption|reflexivity]|simpl; tauto|].
Ltac refuse v := exists v; split; [apply a_refused; [auto|by split]|done].

Lemma memory_acquire_step r w ttl : simulated (OAcquire r w ttl).
Proof.
  intros call c v c' res Hr. simpl. unfold memory_Acquire.
  destruct (contextErr call) as [e|] eqn:He.
  { intros [= <- <-]. apply context_refused in He as [??]. exists v.
    split; [apply a_refused; auto|done]. }
  destruct (_ || _ || _) eqn:Hg.
  { intros [= <- <-]. apply op_guard_true in Hg. refuse v. }
  apply op_guard_false in Hg. pose proof (cleanup_repr _ _ _ Hr) as Hr'.
  pose proof (repr_lease _ _ _ r Hr) as Hv.
  destruct (leases (cleanup (c_now call) c) !! r) as [e|] eqn:Hl.
  - pose proof (cleanup_lease _ _ _ _ Hl) as Hlive%Z.ltb_lt. unfold After. rewrite Hlive.
    intros [= <- <-]. exists v. split; [|done]. done_step. simpl. by rewrite Hv.
  - intros [= <- <-]. exists (put (c_now call + ttl) (ILease r) (VOwner w) v). split.
    + done_step. simpl. by rewrite Hv.
    + by apply (repr_put_lease _ (cleanup (c_now call) c)).
Qed.

Lemma next_guard_true k m ttl :
  String.eqb k "" || (m <=? 0) || (ttl <=? 0) = true -> op_valid (ONext k m ttl) = false.
Proof.
  simpl. destruct (String.eqb k ""); [done|]. simpl.
  intros [Hm%Z.leb_le|Ht%Z.leb_le]%orb_true_iff; apply andb_false_iff;
    [left|right]; by apply Z.ltb_ge.
Qed.
Lemma next_guard_false k m ttl :
  String.eqb k "" || (m <=? 0) || (ttl <=? 0) = false -> op_valid (ONext k m ttl) = true.
Proof.
  simpl. intros [[-> Hm%Z.leb_gt]%orb_false_iff Ht%Z.leb_gt]%orb_false_iff.
  apply andb_true_iff. split; by apply Z.ltb_lt.
Qed.

Lemma memory_next_step k m ttl : simulated (ONext k m ttl).
Proof.
  intros call c v c' res Hr. simpl. unfold memory_Next.
  destruct (contextErr call) as [e|] eqn:He.
  { intros [= <- <-]. apply context_refused in He as [??]. exists v.
    split; [apply a_refused; auto|done]. }
  destruct (_ || _ || _) eqn:Hg.
  { intros [= <- <-]. apply next_guard_true in Hg. refuse v. }
  apply next_guard_false in Hg as Hok.
  pose proof (cleanup_repr _ _ _ Hr) as Hr'. pose proof (repr_cursor _ _ _ k Hr) as Hv.
  set (n := match cursors (cleanup (c_now call) c) !! k with Some e => mc_value e | None => 0 end).
  assert (count_at v (c_now call) k = n) as Hn.
  { unfold count_at. rewrite Hv. unfold n. by destruct (_ !! k). }
  assert (in_i64 n) as Hi.
  { unfold n. destruct (_ !! k) eqn:Hk; [by eapply Hr'|by i64_unfold]. }
  intros [= <- <-].
  exists (put (c_now call + ttl) (ICursor k) (VCount (i64_add n 1)) v). split.
  - destruct (decide (max_int64 <= n)) as [Hmax|Hmax].
    + apply a_exhausted; [simpl; lia|done|]. intros t i Hi'. by apply put_other.
    + apply a_done; [assumption|simpl; lia|]; simpl. rewrite Hn. f_equal. f_equal. f_equal.
      symmetry. apply i64_add_id. i64_unfold; lia.
  - apply (repr_put_cursor _ (cleanup (c_now call) c)); [apply wrap64_range|done].
Qed.

Lemma memory_get_step k : simulated (OGetAffinity k).
Proof.
  intros call c v c' res Hr. simpl. unfold memory_GetAffinity.
  destruct (contextErr call) as [e|] eqn:He.
  { intros [= <- <-]. apply context_refused in He as [??]. exists v.
    split; [apply a_refused; auto|done]. }
  destruct (String.eqb k "") eqn:Hg.
  { intros [= <- <-]. exists v. split; [|done]. apply a_refused; [right; simpl; by rewrite Hg|by split]. }
  assert (op_valid (OGetAffinity k) = true) by (simpl; by rewrite Hg).
  pose proof (cleanup_repr _ _ _ Hr) as Hr'. pose proof (repr_affinity _ _ _ k Hr) as Hv.
  destruct (affinities (cleanup (c_now call) c) !! affinityStateKey k) as [e|] eqn:Hl.
  - pose proof (cleanup_affinity _ _ _ _ Hl) as Hlive%Z.ltb_lt. unfold After. rewrite Hlive.
    intros [= <- <-]. exists v. split; [|done]. done_step. simpl. by rewrite Hv.
  - intros [= <- <-]. exists v. split; [|done]. done_step. simpl. by rewrite Hv.
Qed.

Lemma memory_set_step k u ttl : simulated (OSetAffinity k u ttl).
Proof.
  intros call c v c' res Hr. simpl. unfold memory_SetAffinity.
  destruct (contextErr call) as [e|] eqn:He.
  { intros [= <- <-]. apply context_refused in He as [??]. exists v.
    split; [apply a_refused; auto|done]. }
  destruct (_ || _ || _) eqn:Hg.
  { intros [= <- <-]. apply op_guard_true in Hg. refuse v. }
  pose proof Hg as [[_ Hu%uuid_eqb_neq]%orb_false_iff _]%orb_false_iff.
  apply op_guard_false in Hg. pose proof (cleanup_repr _ _ _ Hr) as Hr'.
  intros [= <- <-]. eexists. split; [done_step; reflexivity|].
  by apply (repr_put_affinity _ (cleanup (c_now call) c)).
Qed.

Lemma ttl_guard call r w ttl : (ttl <=? 0) = true -> c_fault call <> None \/ op_valid (ORenew r w ttl) = false.
Proof. intros Ht%Z.leb_le. right. simpl. by apply Z.ltb_ge. Qed.

Lemma memory_renew_step r w ttl : simulated (ORenew r w ttl).
Proof.
  intros call c v c' res Hr. simpl. unfold memory_Renew, new_lease. simpl.
  destruct (ttl <=? 0) eqn:Ht.
  { intros [= <- <-]. exists v. split; [apply a_refused; [by apply ttl_guard|by split]|done]. }
  destruct (contextErr call) as [e|] eqn:He.
  { intros [= <- <-]. apply context_refused in He as [??]. exists v.
    split; [apply a_refused; auto|done]. }
  assert (op_valid (ORenew r w ttl) = true) by (simpl; by apply Z.ltb_lt, Z.leb_gt).
  pose proof (proj2 Hr (c_now call) (ILease r) ltac:(lia)) as Hv. simpl in Hv.
  destruct (leases c !! r) as [e|]; simpl in Hv.
  - unfold After. destruct (c_now call <? ml_expiresAt e); simpl.
    + destruct (String.eqb_spec (ml_owner e) w) as [Hw|Hw]; simpl; intros [= <- <-].
      * exists (put (c_then call + ttl) (ILease r) (VOwner w) v). split.
        -- done_step. simpl. by rewrite Hv, Hw, bool_decide_true.
        -- rewrite Hw. by apply repr_put_lease.
      * exists v. split; [|done]. done_step. simpl.
        by rewrite Hv, bool_decide_false by congruence.
    + intros [= <- <-]. exists v. split; [|done]. done_step. simpl.
      by rewrite Hv, bool_decide_false by done.
  - intros [= <- <-]. exists v. split; [|done]. done_step. simpl.
    by rewrite Hv, bool_decide_false by done.
Qed.

(** Deleting an entry that is no longer live does not change the view. *)
Lemma repr_delete_dead now c v r :
  memory_repr now c v -> v now (ILease r) = None ->
  memory_repr now (with_leases (delete r (leases c)) c) v.
Proof.
  intros Hr Hn. destruct (repr_drop_lease _ _ _ r Hr) as [Hwf Hd]. split; [done|].
  intros t i Ht. rewrite <- Hd by done. unfold drop. case_decide as Hi; [|done]. subst.
  rewrite (proj2 Hr) by done. rewrite (proj2 Hr) in Hn by lia. simpl in *.
  destruct (leases c !! r) as [e|]; [|done]. simpl in *.
  destruct (ltb_case now (ml_expiresAt e))
    as [[_ E]|[Hle _]]; simpl in *; [by rewrite E in Hn|].
  by rewrite (proj2 (Z.ltb_ge t _)) by lia.
Qed.

Lemma memory_release_step r w : simulated (ORelease r w).
Proof.
  intros call c v c' res Hr. simpl. unfold memory_release, new_lease. simpl.
  destruct (contextErr call) as [e|] eqn:He.
  { intros [= <- <-]. apply context_refused in He as [??]. exists v.
    split; [apply a_refused; auto|done]. }
  pose proof (proj2 Hr (c_now call) (ILease r) ltac:(lia)) as Hv. simpl in Hv.
  assert (v (c_now call) (ILease r) = None ->
    exists v', astep memory_ttls call (ORelease r w) v v' RUnit
      /\ memory_repr (c_now call) (with_leases (delete r (leases c)) c) v') as Hdead.
  { intros Hn. exists v. split; [|by apply repr_delete_dead].
    done_step. simpl. by rewrite Hn. }
  destruct (leases c !! r) as [e|]; simpl in Hv.
  - unfold After. destruct (c_now call <? ml_expiresAt e); simpl.
    + destruct (String.eqb_spec (ml_owner e) w) as [Hw|Hw]; simpl; intros [= <- <-].
      * exists (drop (ILease r) v). split; [|by apply repr_drop_lease].
        done_step. simpl. by rewrite Hv, Hw, bool_decide_true.
      * exists v. split; [|done]. done_step. simpl.
        by rewrite Hv, bool_decide_false by congruence.
    + intros [= <- <-]. by apply Hdead.
  - intros [= <- <-]. by apply Hdead.
Qed.

Lemma memory_errors call o (c c' : memoryCoordinator) : run call o c <> (c', RErr ErrNoEligible).
Proof.
  destruct o; simpl; unfold memory_Acquire, memory_Renew, memory_release, memory_Next,
    memory_GetAffinity, memory_SetAffinity, contextErr; repeat (case_match; simplify_eq/=); congruence.
Qed.

Lemma memory_repr_later now later c v : now <= later -> memory_repr now c v -> memory_repr later c v.
Proof. intros Hle [Hwf Hv]. split; [done|]. intros. apply Hv. lia. Qed.

#[export] Instance memory_refines : CoordinatorRefines memoryCoordinator.
Proof.
  refine {| ttls := memory_ttls; repr := memory_repr |}.
  - apply memory_repr_later.
  - intros now c v t i x [[Hc Ha] Hv] Ht Hx. rewrite Hv in Hx by done.
    destruct i; apply bind_Some in Hx as (e & He & Hx); case_match; simplify_eq/=; eauto.
  - intros call r w ttl c c' l. simpl. unfold memory_Acquire.
    repeat case_match; intros; by simplify_eq.
  - intros call o c c'. apply memory_errors.
  - intros call o c v c' r Hwf Hr Hrun. apply (memory_repr_later _ _ _ _ (started_now _ Hwf)) in Hr.
    assert (simulated o) as Hs by (destruct o; [apply memory_acquire_step|apply memory_renew_step|apply memory_release_step
      |apply memory_next_step|apply memory_get_step|apply memory_set_step]).
    destruct (Hs call c v c' r Hr Hrun) as (v' & Hst & Hr'). exists v'. split; [|done]. exists v. split; [constructor|done].
Defined.

(** A new coordinator represents the empty view. *)
Lemma NewMemoryCoordinator_repr now : memory_repr now NewMemoryCoordinator empty_view.
Proof. split; [by split|]. intros t i _. by destruct i. Qed.
End memory.

(** ** In Redis *)

(** The documented behaviour of the commands, of the client's expiry option and
    of [uuid.Parse] on the text of an identifier: [SET NX] writes a missing key
    only; an expiry counts from the command; [INCR] keeps the expiry, starts at 1
    and fails at the top of 64 bits; [PEXPIRE] replaces the expiry of an existing
    key, and deletes the key when it is not positive. *)
Class RedisLaws (S : Type) `{RedisServer S, UuidText, UuidParse} : Prop := {
  law_set_nx now k v ttl s s' ok :
    redis_set_nx now k v ttl s = (s', ok) ->
    match redis_get now k s with
    | None => ok = true /\ forall t k', now <= t -> redis_get t k' s' =
                if decide (k' = k) then (if t <? now + client_ttl ttl then Some v else None)
                else redis_get t k' s
    | Some _ => ok = false /\ forall t k', now <= t -> redis_get t k' s' = redis_get t k' s
    end;
  law_set now k v ttl s t k' : now <= t ->
    redis_get t k' (redis_set now k v ttl s) =
      if decide (k' = k) then (if t <? now + client_ttl ttl then Some v else None)
      else redis_get t k' s;
  law_incr now k s n :
    (redis_get now k s = None /\ n = 0) \/ (redis_get now k s = Some (Itoa n) /\ in_i64 n) ->
    if n <? max_int64 then
      exists s', redis_incr now k s = Some (s', n + 1) /\
        redis_get now k s' = Some (Itoa (n + 1)) /\
        forall t k', now <= t -> k' <> k -> redis_get t k' s' = redis_get t k' s
    else redis_incr now k s = None;
  law_pexpire now k ms s t k' : now <= t ->
    redis_get t k' (redis_pexpire now k ms s) =
      if decide (k' = k)
      then match redis_get now k s with
           | Some v => if t <? now + ms * Millisecond then Some v else None
           | None => None
           end
      else redis_get t k' s;
  law_del now k s t k' : now <= t ->
    redis_get t k' (redis_del now k s) = if decide (k' = k) then None else redis_get t k' s;
  law_client_ttl d : 0 < d -> d mod Millisecond = 0 -> client_ttl d = d;
  law_uuid_parse u : uuid_parse (uuid_string u) = Some u
}.

Section redis.
Context {S : Type} `{RedisLaws S, Sha256Hex}.

Definition item_key (i : item) : string :=
  match i with
  | ILease r => leaseKeyPrefix +:+ r
  | ICursor k => cursorKeyPrefix +:+ k
  | IAffinity d => affinityKeyPrefix +:+ d
  end.
Definition val_text (x : val) : string :=
  match x with VOwner o => o | VCount n => Itoa n | VCred u => uuid_string u end.

Definition redis_repr (now : time) (s : S) (v : view) : Prop :=
  forall t i, now <= t ->
    redis_get t (item_key i) s = val_text <$> v t i
    /\ forall x, v t i = Some x -> val_ok i x.

Definition redis_ttls : Ttls := {|
  lease_ttl := client_ttl; script_ttl := fun d => Milliseconds d * Millisecond;
  affinity_ttl := client_ttl; renew_from := c_now; sends := true |}.

Lemma item_key_inj i j : item_key i = item_key j -> i = j.
Proof.
  destruct i, j; unfold item_key; try (intros ?%app_inj_l; congruence);
    unfold String.append; simpl; intros [=].
Qed.

Lemma Itoa_inj n m : Itoa n = Itoa m -> n = m.
Proof. unfold Itoa. intros. by eapply (inj pretty). Qed.

(** A state whose keys follow an updated view. *)
Lemma redis_repr_put now s s' v i x d :
  redis_repr now s v -> val_ok i x ->
  (forall t k, now <= t -> redis_get t k s' =
     if decide (k = item_key i) then (if t <? d then Some (val_text x) else None)
     else redis_get t k s) ->
  redis_repr now s' (put d i x v).
Proof.
  intros Hr Hx Hs t j Ht. rewrite Hs by done. unfold put.
  destruct (decide (j = i)) as [->|Hne].
  - rewrite decide_True by done. destruct (t <? d); split; [done|naive_solver|done|done].
  - rewrite decide_False by (by intros ?%item_key_inj). by apply Hr.
Qed.

Lemma redis_repr_drop now s s' v i :
  redis_repr now s v ->
  (forall t k, now <= t -> redis_get t k s' =
     if decide (k = item_key i) then None else redis_get t k s) ->
  redis_repr now s' (drop i v).
Proof.
  intros Hr Hs t j Ht. rewrite Hs by done. unfold drop.
  destruct (decide (j = i)) as [->|Hne].
  - by rewrite decide_True.
  - rewrite decide_False by (by intros ?%item_key_inj). by apply Hr.
Qed.

Lemma redis_repr_same now s s' v :
  redis_repr now s v -> (forall t k, now <= t -> redis_get t k s' = redis_get t k s) ->
  redis_repr now s' v.
Proof. intros Hr Hs t i Ht. rewrite Hs by done. by apply Hr. Qed.

(** The value of an item of each kind, read from the server. *)
Lemma redis_lease now s v r :
  redis_repr now s v ->
  match redis_get now (leaseKeyPrefix +:+ r) s with
  | Some o => v now (ILease r) = Some (VOwner o)
  | None => v now (ILease r) = None
  end.
Proof.
  intros Hr. destruct (Hr now (ILease r) ltac:(lia)) as [Hg Hok]. simpl in Hg. rewrite Hg.
  destruct (v now (ILease r)) as [x|]; [|done]. specialize (Hok x eq_refl). by destruct x.
Qed.

Lemma redis_cursor now s v k :
  redis_repr now s v ->
  (redis_get now (cursorKeyPrefix +:+ k) s = None /\ count_at v now k = 0)
  \/ (redis_get now (cursorKeyPrefix +:+ k) s = Some (Itoa (count_at v now k))
      /\ in_i64 (count_at v now k)).
Proof.
  intros Hr. destruct (Hr now (ICursor k) ltac:(lia)) as [Hg Hok]. simpl in Hg.
  unfold count_at. destruct (v now (ICursor k)) as [x|]; [|by left].
  right. specialize (Hok x eq_refl). by destruct x.
Qed.

(** One execution of [command] at any instant is one step of the abstract coordinator, which
    answers [answer]. *)
Definition executes {A} (o : op) (command : time -> S -> S * A) (answer : A -> resp) : Prop :=
  forall t s v, redis_repr t s v ->
  exists v', astep redis_ttls (execution t) o v v' (answer (command t s).2) /\ redis_repr t (command t s).1 v'.

Lemma redis_repr_later now later s v : now <= later -> redis_repr now s v -> redis_repr later s v.
Proof. intros Hle Hr t i Ht. apply Hr. lia. Qed.

(** An execution that is abstractly done is done, or lost with its reply. *)
Lemma executed_step call o v v' rr : op_valid o = true -> astep redis_ttls (execution (c_now call)) o v v' rr ->
  astep redis_ttls call o v v' rr
  /\ (c_fault call = Some ReplyLost -> astep redis_ttls call o v v' (RErr ErrStateUnavailable)).
Proof.
  intros Hok Hst. assert (spec redis_ttls (execution (c_now call)) o v = spec redis_ttls call o v) as Hspec by by destruct o.
  assert (exhausted (execution (c_now call)) o v <-> exhausted call o v) as Hex by by destruct o.
  inversion Hst as [? ? _ Hn Hs|? [Hx|Hx]|? ? ? Hx|? ? He]; subst; [|done|congruence|done|].
  - rewrite Hspec in Hs. rewrite Hex in Hn. split; [by apply a_done|]. intros Hf. by eapply a_lost.
  - rewrite Hex in He. split; [by apply a_exhausted|]. intros _. by apply a_exhausted.
Qed.

(** A command with the faults and the earlier executions of its call. *)
Lemma exec_cstep {A} call o v (command : time -> S -> S * A) answer s s1 oa :
  executes o command answer -> op_valid o = true -> wf_call call -> redis_repr (started call) s v ->
  exec call command s = (s1, oa) ->
  exists v1, cstep redis_ttls call o v v1 (match oa with None => RErr ErrStateUnavailable | Some a => answer a end)
    /\ redis_repr (c_now call) s1 v1.
Proof.
  intros Hx Hok Hwf Hr He. pose proof (started_now _ Hwf) as Hle. destruct Hwf as [_ Hs]. unfold exec in He. unfold cstep, resent. cbn [redis_ttls sends].
  assert (exists v0, resends redis_ttls o (c_sent call) v v0 /\ redis_repr (c_now call) (resend (c_sent call) command s) v0) as (v0 & Hre & Hr0).
  { clear He. unfold started in *. revert s v Hr Hs Hle. induction (c_sent call) as [|t ts IH]; intros s v Hr Hs Hle; cbn [resend].
    - exists v. split; [constructor|done].
    - destruct (Hx t s v Hr) as (v1 & Hs1 & Hr1). cbn [app] in Hs. apply Sorted.StronglySorted_inv in Hs as [Hs Hf].
      destruct (IH (command t s).1 v1) as (v2 & Hs2 & Hr2); [|exact Hs| |].
      + eapply redis_repr_later; [|exact Hr1]. destruct ts; simpl in Hf; by apply Forall_cons in Hf as [? _].
      + destruct ts; [done|]. simpl in Hs. apply Sorted.StronglySorted_inv in Hs as [_ Hf']. rewrite Forall_app, Forall_singleton in Hf'. by destruct Hf'.
      + exists v2. split; [|done]. by econstructor. }
  destruct (Hx _ _ _ Hr0) as (v1 & Hs1 & Hr1). destruct (executed_step call o v0 v1 _ Hok Hs1) as [Hd Hl].
  destruct (c_fault call) as [[| |]|] eqn:Hf.
  1,2: injection He as <- <-; exists v0; split; [|done]; exists v0; split; [done|]; apply a_refused; [by left; rewrite Hf|by split].
  - injection He as <- <-. exists v1. split; [|done]. exists v0. auto.
  - destruct (command (c_now call) _) as [s' a]. injection He as <- <-. exists v1. split; [|done]. exists v0. auto.
Qed.

(** An answer that needs no command. *)
Lemma refused_cstep call o v s e : op_valid o = false -> refusal e -> wf_call call -> redis_repr (started call) s v ->
  exists v', cstep redis_ttls call o v v' (RErr e) /\ redis_repr (c_now call) s v'.
Proof.
  intros Hok He Hwf Hr. exists v. split; [|by eapply redis_repr_later, Hr; apply started_now].
  exists v. split; [|by apply a_refused; auto]. unfold resent. cbn [redis_ttls sends]. induction (c_sent call); econstructor; [|done].
  apply a_refused; [by right|exact He].
Qed.

(** One operation on Redis is one call of the abstract coordinator. *)
Definition redis_simulated (o : op) : Prop := forall call s v s' res,
  wf_call call -> redis_repr (started call) s v -> run call o s = (s', res) ->
  exists v', cstep redis_ttls call o v v' res /\ redis_repr (c_now call) s' v'.

Lemma acquire_executes r w ttl : op_valid (OAcquire r w ttl) = true ->
  executes (OAcquire r w ttl) (fun now => redis_set_nx now (leaseKeyPrefix +:+ r) w ttl)
    (fun ok => if ok : bool then RLease r w else RErr ErrLeaseBusy).
Proof.
  intros Hok t s v Hr. destruct (redis_set_nx t (leaseKeyPrefix +:+ r) w ttl s) as [s2 ok] eqn:Hs.
  pose proof (law_set_nx _ _ _ _ _ _ _ Hs) as Hlaw. pose proof (redis_lease _ _ _ r Hr) as Hv. cbn [fst snd].
  destruct (redis_get _ _ s).
  - destruct Hlaw as [-> Hsame]. exists v. split; [|by eapply redis_repr_same]. apply a_done; [done|simpl; tauto|]. simpl. by rewrite Hv.
  - destruct Hlaw as [-> Hset]. eexists. split; [apply a_done; [done|simpl; tauto|simpl; by rewrite Hv]|]. by eapply redis_repr_put.
Qed.
Lemma redis_acquire_step r w ttl : redis_simulated (OAcquire r w ttl).
Proof.
  intros call s v s' res Hwf Hr. simpl. unfold redis_Acquire.
  destruct (_ || _ || _) eqn:Hg; [intros [= <- <-]; apply op_guard_true in Hg; by apply refused_cstep|].
  apply op_guard_false in Hg. destruct (exec call _ s) as [s1 oa] eqn:He.
  destruct (exec_cstep _ _ _ _ _ _ _ _ (acquire_executes r w ttl Hg) Hg Hwf Hr He) as (v1 & Hst & Hr1).
  destruct oa as [[]|]; intros [= <- <-]; eauto.
Qed.

Lemma renew_executes r w ttl : op_valid (ORenew r w ttl) = true ->
  executes (ORenew r w ttl) (fun now => renewLeaseLua now (leaseKeyPrefix +:+ r) w (Milliseconds ttl))
    (fun n => if n =? 1 then RUnit else RErr ErrLeaseNotOwner).
Proof.
  intros Hok t s v Hr. pose proof (redis_lease _ _ _ r Hr) as Hv. unfold renewLeaseLua.
  destruct (redis_get t (leaseKeyPrefix +:+ r) s) as [o|] eqn:Hget.
  - destruct (String.eqb_spec o w) as [-> |Hne]; cbn [fst snd negb].
    + eexists. split; [apply a_done; [done|simpl; tauto|simpl; rewrite Hv, bool_decide_true by done; reflexivity]|].
      eapply redis_repr_put; [exact Hr|done|]. intros t' k Hle. rewrite law_pexpire by done. cbn [item_key val_text].
      case_decide; [|done]. by rewrite Hget.
    + exists v. split; [|done]. apply a_done; [done|simpl; tauto|]. simpl. by rewrite Hv, bool_decide_false by congruence.
  - exists v. split; [|done]. apply a_done; [done|simpl; tauto|]. simpl. by rewrite Hv, bool_decide_false by done.
Qed.
Lemma redis_renew_step r w ttl : redis_simulated (ORenew r w ttl).
Proof.
  intros call s v s' res Hwf Hr. simpl. unfold redis_Renew, new_lease. simpl. destruct (ttl <=? 0) eqn:Ht.
  { intros [= <- <-]. apply refused_cstep; [|by split|done|done]. simpl. apply Z.ltb_ge. by apply Z.leb_le in Ht. }
  assert (op_valid (ORenew r w ttl) = true) as Hok by (simpl; by apply Z.ltb_lt, Z.leb_gt).
  destruct (exec call _ s) as [s1 oa] eqn:He.
  destruct (exec_cstep _ _ _ _ _ _ _ _ (renew_executes r w ttl Hok) Hok Hwf Hr He) as (v1 & Hst & Hr1).
  destruct oa as [n|]; [destruct (n =? 1)|]; intros [= <- <-]; eauto.
Qed.

Lemma release_executes r w :
  executes (ORelease r w) (fun now => releaseLeaseLua now (leaseKeyPrefix +:+ r) w)
    (fun n => if (n =? -1) || (n =? 1) then RUnit else RErr ErrLeaseNotOwner).
Proof.
  intros t s v Hr. pose proof (redis_lease _ _ _ r Hr) as Hv. unfold releaseLeaseLua.
  destruct (redis_get t (leaseKeyPrefix +:+ r) s) as [o|] eqn:Hget.
  - destruct (String.eqb_spec o w) as [-> |Hne]; cbn [fst snd negb].
    + eexists. split; [apply a_done; [done|simpl; tauto|simpl; rewrite Hv, bool_decide_true by done; reflexivity]|].
      eapply redis_repr_drop; [exact Hr|]. intros t' k Hle. by rewrite law_del.
    + exists v. split; [|done]. apply a_done; [done|simpl; tauto|]. simpl. by rewrite Hv, bool_decide_false by congruence.
  - exists v. split; [|done]. apply a_done; [done|simpl; tauto|]. simpl. by rewrite Hv.
Qed.
Lemma redis_release_step r w : redis_simulated (ORelease r w).
Proof.
  intros call s v s' res Hwf Hr. simpl. unfold redis_release, new_lease. simpl. destruct (exec call _ s) as [s1 oa] eqn:He.
  destruct (exec_cstep _ _ _ _ _ _ _ _ (release_executes r w) eq_refl Hwf Hr He) as (v1 & Hst & Hr1).
  destruct oa as [n|]; [destruct (_ || _)|]; intros [= <- <-]; eauto.
Qed.

Lemma next_executes k m ttl : op_valid (ONext k m ttl) = true ->
  executes (ONext k m ttl) (fun now => nextCursorLua now (cursorKeyPrefix +:+ k) (Milliseconds ttl))
    (fun on => match on with Some n => RIndex (Z.rem n m) | None => RErr ErrStateUnavailable end).
Proof.
  intros Hok t s v Hr. pose proof (law_incr _ _ _ _ (redis_cursor _ _ _ k Hr)) as Hincr. unfold nextCursorLua.
  destruct (count_at v t k <? max_int64) eqn:Hmax.
  - destruct Hincr as (s3 & Hi & Hget & Hsame). rewrite Hi. cbn [fst snd]. apply Z.ltb_lt in Hmax.
    assert (in_i64 (count_at v t k + 1)) as Hin by (destruct (redis_cursor _ _ _ k Hr) as [[_ Hc]|[_ Hc]]; i64_unfold; lia).
    replace (count_at v t k + 1 - 1) with (count_at v t k) by lia.
    eexists. split; [apply a_done; [done|simpl; lia|reflexivity]|]. eapply redis_repr_put; [exact Hr|done|].
    intros t' k' Ht. rewrite law_pexpire by done. cbn [item_key val_text]. case_decide; [by rewrite Hget|by apply Hsame].
  - rewrite Hincr. cbn [fst snd]. apply Z.ltb_ge in Hmax. exists v. split; [|done]. by apply a_exhausted.
Qed.
Lemma redis_next_step k m ttl : redis_simulated (ONext k m ttl).
Proof.
  intros call s v s' res Hwf Hr. simpl. unfold redis_Next.
  destruct (_ || _ || _) eqn:Hg; [intros [= <- <-]; apply next_guard_true in Hg; by apply refused_cstep|].
  apply next_guard_false in Hg. destruct (exec call _ s) as [s1 oa] eqn:He.
  destruct (exec_cstep _ _ _ _ _ _ _ _ (next_executes k m ttl Hg) Hg Hwf Hr He) as (v1 & Hst & Hr1).
  destruct oa as [[n|]|]; intros [= <- <-]; eauto.
Qed.

Definition affinity_answer (value : option string) : resp :=
  RCred (value ← value; u ← uuid_parse value; if uuid_eqb u uuid_nil then None else Some u).
Lemma get_executes k : op_valid (OGetAffinity k) = true ->
  executes (OGetAffinity k) (fun now s => (s, redis_get now (affinityStateKey k) s)) affinity_answer.
Proof.
  intros Hok t s v Hr. exists v. split; [|done]. apply a_done; [done|simpl; tauto|]. simpl. f_equal.
  destruct (Hr t (IAffinity (sha256_hex k)) ltac:(lia)) as [Hget Hwf]. simpl in Hget. unfold affinity_answer, affinityStateKey. rewrite Hget.
  destruct (v t (IAffinity (sha256_hex k))) as [x|]; [|done]. specialize (Hwf x eq_refl). destruct x as [| |u]; simpl in *; try done.
  by rewrite law_uuid_parse; simpl; rewrite (proj2 (uuid_eqb_neq u uuid_nil) Hwf).
Qed.
Lemma redis_get_step k : redis_simulated (OGetAffinity k).
Proof.
  intros call s v s' res Hwf Hr. simpl. unfold redis_GetAffinity. destruct (String.eqb k "") eqn:Hg.
  { intros [= <- <-]. apply refused_cstep; [simpl; by rewrite Hg|by split|done|done]. }
  assert (op_valid (OGetAffinity k) = true) as Hok by (simpl; by rewrite Hg). destruct (exec call _ s) as [s1 oa] eqn:He.
  destruct (exec_cstep _ _ _ _ _ _ _ _ (get_executes k Hok) Hok Hwf Hr He) as (v1 & Hst & Hr1). unfold affinity_answer in Hst.
  destruct oa as [[value|]|]; [|intros [= <- <-]; eauto..]. simpl in Hst.
  destruct (uuid_parse value) as [u|]; simpl in Hst; [destruct (uuid_eqb u uuid_nil)|]; intros [= <- <-]; eauto.
Qed.

Lemma set_executes k u ttl : op_valid (OSetAffinity k u ttl) = true -> u <> uuid_nil ->
  executes (OSetAffinity k u ttl) (fun now s => (redis_set now (affinityStateKey k) (uuid_string u) ttl s, tt)) (fun _ => RUnit).
Proof.
  intros Hok Hu t s v Hr. eexists. split; [apply a_done; [done|simpl; tauto|reflexivity]|]. cbn [fst].
  eapply redis_repr_put; [exact Hr|done|]. intros t' k' Ht. by rewrite law_set.
Qed.
Lemma redis_set_step k u ttl : redis_simulated (OSetAffinity k u ttl).
Proof.
  intros call s v s' res Hwf Hr. simpl. unfold redis_SetAffinity.
  destruct (_ || _ || _) eqn:Hg; [intros [= <- <-]; apply op_guard_true in Hg; by apply refused_cstep|].
  pose proof Hg as [[_ Hu%uuid_eqb_neq]%orb_false_iff _]%orb_false_iff. apply op_guard_false in Hg.
  destruct (exec call _ s) as [s1 oa] eqn:He.
  destruct (exec_cstep _ _ _ _ _ _ _ _ (set_executes k u ttl Hg Hu) Hg Hwf Hr He) as (v1 & Hst & Hr1).
  destruct oa; intros [= <- <-]; eauto.
Qed.

Lemma redis_errors call o (s s' : S) : run call o s <> (s', RErr ErrNoEligible).
Proof.
  destruct o; simpl; unfold redis_Acquire, redis_Renew, redis_release, redis_Next,
    redis_GetAffinity, redis_SetAffinity; repeat (case_match; simplify_eq/=); congruence.
Qed.

#[export] Instance redis_refines : CoordinatorRefines S.
Proof.
  refine {| ttls := redis_ttls; repr := redis_repr |}.
  - apply redis_repr_later.
  - intros now s v t i x Hr Ht Hx. by apply (Hr t i Ht).
  - intros call r w ttl s s' l. simpl. unfold redis_Acquire.
    repeat case_match; intros; by simplify_eq.
  - intros call o s s'. apply redis_errors.
  - intros call o s v s' r. destruct o.
    + apply redis_acquire_step.
    + apply redis_renew_step.
    + apply redis_release_step.
    + apply redis_next_step.
    + apply redis_get_step.
    + apply redis_set_step.
Defined.
End redis.
End CoordinatorImpl.
