(* ===== verification/CoordinatorTheorems.v ===== *)
(** * What leases and cursors guarantee, for any coordinator

    The theorems are about histories of calls ([runs]) of any implementation of
    the interface of [CoordinatorSpec]: the memory coordinator and the Redis one.
    Calls of any number of clients are interleaved; their clock readings do not
    go back. *)

From stdpp Require Import base gmap strings list list_numbers relations pretty.
From Stdlib Require Import ZArith Lia Ascii String.
From S2P Require Import Prelude GoLib SchedulerModel Coordinator CoordinatorImpl.

Module CoordinatorTheorems.
Import Sched Coordinator CoordinatorSpec CoordinatorImpl.

(** ** The abstract coordinator *)
Section views.
Context `{Sha256Hex} (T : Ttls).
Implicit Types (v : view) (call : Call) (o : op).

(** [r] is held by [a] at every instant from [now] on, before [d]. *)
Definition held (now d : time) (r a : string) (v : view) : Prop :=
  forall t, now <= t < d -> v t (ILease r) = Some (VOwner a).
(** [r] is free from [d] on. *)
Definition free_from (now d : time) (r : string) (v : view) : Prop :=
  forall t, now <= t -> d <= t -> v t (ILease r) = None.

(** The operation renews or releases [r] in the name of [a]. *)
Definition by_owner (r a : string) (o : op) : Prop :=
  match o with
  | ORenew r' a' _ | ORelease r' a' => r' = r /\ a' = a
  | _ => False
  end.
(** The operation may lease [r] anew. *)
Definition leases_anew (r : string) (o : op) : Prop :=
  match o with OAcquire r' _ _ | ORenew r' _ _ => r' = r | _ => False end.

(** The lease an operation is about. *)
Definition op_lease (o : op) : option string :=
  match o with OAcquire r _ _ | ORenew r _ _ | ORelease r _ => Some r | _ => None end.

Lemma spec_other_lease call o v v' res t r :
  spec T call o v = (v', res) -> op_lease o <> Some r ->
  v' t (ILease r) = v t (ILease r).
Proof.
  destruct o; simpl; repeat case_match; intros; simplify_eq; try done;
    (rewrite put_other || rewrite drop_other); congruence.
Qed.

Lemma spec_held call o v v' res d r a :
  spec T call o v = (v', res) -> ~ by_owner r a o ->
  held (c_now call) d r a v -> held (c_now call) d r a v'.
Proof.
  intros Hs Hno Hh t Ht. pose proof (Hh (c_now call) ltac:(lia)) as Hnow.
  destruct (decide (op_lease o = Some r)) as [Hr|Hr].
  - assert (v' = v) as ->; [|by apply Hh].
    destruct o; simplify_eq/=; rewrite Hnow in Hs; simplify_eq; try done;
      rewrite bool_decide_false in Hs; simplify_eq; try done; naive_solver.
  - rewrite (spec_other_lease _ _ _ _ _ _ _ Hs); [by apply Hh|done].
Qed.

Lemma astep_held call o v v' res d r a :
  astep T call o v v' res -> ~ by_owner r a o ->
  held (c_now call) d r a v -> held (c_now call) d r a v'.
Proof.
  intros [] Hno Hh; [by eapply spec_held|done|by eapply spec_held|].
  intros t Ht. rewrite H2 by done. by apply Hh.
Qed.

Lemma spec_free call o v v' res d r :
  spec T call o v = (v', res) -> ~ leases_anew r o ->
  free_from (c_now call) d r v -> free_from (c_now call) d r v'.
Proof.
  intros Hs Hno Hf t Ht Hd.
  destruct (decide (op_lease o = Some r)) as [Hr|Hr].
  - destruct o; simplify_eq/=; try tauto.
    repeat case_match; simplify_eq; auto; by rewrite drop_same.
  - rewrite (spec_other_lease _ _ _ _ _ _ _ Hs); [by apply Hf|done].
Qed.

Lemma astep_free call o v v' res d r :
  astep T call o v v' res -> ~ leases_anew r o ->
  free_from (c_now call) d r v -> free_from (c_now call) d r v'.
Proof.
  intros [] Hno Hf; [by eapply spec_free|done|by eapply spec_free|].
  intros t Ht Hd. rewrite H2 by done. by apply Hf.
Qed.

(** A granted lease is held until its deadline, and free from then on. *)
Lemma astep_granted call r a ttl v v' :
  astep T call (OAcquire r a ttl) v v' (RLease r a) ->
  held (c_now call) (c_now call + lease_ttl T ttl) r a v'
  /\ free_from (c_now call) (c_now call + lease_ttl T ttl) r v'.
Proof.
  intros Hs. inversion Hs as [? ? _ _ Hspec| | |? ? Hex]; [|done].
  simpl in Hspec. case_match; simplify_eq. split.
  - intros t Ht. rewrite put_same. by rewrite (proj2 (Z.ltb_lt _ _)) by lia.
  - intros t Ht Hd. rewrite put_same. by rewrite (proj2 (Z.ltb_ge _ _)) by lia.
Qed.

(** What a call on a held lease answers. *)
Lemma astep_acquire_held call r a b ttl d v v' res :
  astep T call (OAcquire r b ttl) v v' res -> held (c_now call) d r a v -> c_now call < d ->
  exists e, res = RErr e /\ (c_fault call = None -> op_valid (OAcquire r b ttl) = true -> e = ErrLeaseBusy).
Proof.
  intros Hs Hh Hd. pose proof (Hh (c_now call) ltac:(lia)) as Hnow.
  inversion Hs as [? ? _ _ Hspec|e Hre|? ? e Hf _ _ Hspec|? ? Hex]; subst; [| | |done].
  - simpl in Hspec. rewrite Hnow in Hspec. simplify_eq. eauto.
  - eexists. split; [done|]. intros ??. destruct Hre; congruence.
  - eexists. split; [done|]. congruence.
Qed.

Lemma astep_stranger call r a b o d v v' res :
  astep T call o v v' res -> by_owner r b o -> b <> a ->
  held (c_now call) d r a v -> c_now call < d ->
  exists e, res = RErr e /\ (c_fault call = None -> op_valid o = true -> e = ErrLeaseNotOwner).
Proof.
  intros Hs Hb Hne Hh Hd. pose proof (Hh (c_now call) ltac:(lia)) as Hnow.
  inversion Hs as [? ? _ _ Hspec|e Hre|? ? e Hf _ _ Hspec|? ? Hex]; subst.
  - destruct o; simpl in Hb; try done; destruct Hb as [-> ->]; simpl in Hspec; rewrite Hnow in Hspec;
      rewrite bool_decide_false in Hspec by congruence; simplify_eq; eauto.
  - eexists. split; [done|]. intros ??. destruct Hre; congruence.
  - eexists. split; [done|]. congruence.
  - by destruct o.
Qed.

Lemma astep_acquire_free call r b ttl d v v' res :
  astep T call (OAcquire r b ttl) v v' res -> free_from (c_now call) d r v -> d <= c_now call ->
  c_fault call = None -> op_valid (OAcquire r b ttl) = true -> res = RLease r b.
Proof.
  intros Hs Hf Hd Hnf Hok. pose proof (Hf (c_now call) ltac:(lia) Hd) as Hnow.
  inversion Hs as [? ? _ _ Hspec|e Hre|? ? e Hlf|? ? Hex]; subst; [| |congruence|done].
  - simpl in Hspec. rewrite Hnow in Hspec. by simplify_eq.
  - destruct Hre; congruence.
Qed.
(** A valid [Acquire] without a fault is granted or finds the resource held. *)
Lemma astep_acquire_plain call r b ttl v v' res : astep T call (OAcquire r b ttl) v v' res ->
  c_fault call = None -> op_valid (OAcquire r b ttl) = true -> res = RLease r b \/ res = RErr ErrLeaseBusy.
Proof.
  intros Hs Hnf Hok. inversion Hs as [? ? _ _ Hspec|e Hre|? ? e Hlf|? ? Hex]; subst; [|by destruct Hre; congruence|congruence|done].
  simpl in Hspec. case_match; simplify_eq; auto.
Qed.
End views.

(** ** Histories *)
Definition event : Type := Call * op * resp.

(** [runs es t c t' c']: the calls [es], made one after another from [t] on, take
    the coordinator from [c] to [c']; the last reading of the clock is [t']. *)
Inductive runs {C} `{Coordinator C} : list event -> time -> C -> time -> C -> Prop :=
| runs_nil t c : runs [] t c t c
| runs_cons call o res es t c c1 t' c' :
    t <= started call -> wf_call call -> run call o c = (c1, res) ->
    runs es (c_now call) c1 t' c' -> runs ((call, o, res) :: es) t c t' c'.

(** Answered, and sent once. *)
Definition fault_free (e : event) : Prop := c_fault e.1.1 = None /\ c_sent e.1.1 = [].

(** The indices a history's calls of [Next] returned for a cursor. *)
Definition next_index (key : string) (e : event) : option Z :=
  match e with
  | (_, ONext k _ _, RIndex n) => if String.eqb k key then Some n else None
  | _ => None
  end.
Definition next_indices (key : string) (es : list event) : list Z := omap (next_index key) es.

Section histories.
Context `{Sha256Hex} {C : Type} `{!Coordinator C, !CoordinatorRefines C}.

Lemma runs_le es t (c : C) t' c' : runs es t c t' c' -> t <= t'.
Proof. induction 1 as [|call o res es t c c1 t' c' Hle Hwf]; [done|]. pose proof (started_now _ Hwf). lia. Qed.

(** A view property that each step preserves holds along a history. *)
Lemma runs_preserve (P : time -> view -> Prop) (Q : op -> Prop) es t c t' c' v :
  (forall now now' v, now <= now' -> P now v -> P now' v) ->
  (forall call o v v' res, astep ttls call o v v' res -> Q o ->
     P (c_now call) v -> P (c_now call) v') ->
  runs es t c t' c' -> repr t c v -> P t v -> Forall (fun e : event => Q e.1.2) es ->
  exists v', repr t' c' v' /\ P t' v'.
Proof.
  intros Hmono Hstep Hruns. revert v.
  induction Hruns as [|call o res es t c c1 t' c' Hle Hwf Hrun Hruns IH]; intros v Hr HP HQ.
  { by exists v. }
  apply Forall_cons in HQ as [HQ HQs].
  destruct (repr_step call o c v c1 res Hwf (repr_later _ _ _ _ Hle Hr) Hrun) as (v1 & Hst & Hr1).
  apply (IH v1 Hr1); [|done].
  destruct (cstep_last ttls P call o v v1 res Hmono) as (v0 & HP0 & Hlast); [|done|by eapply Hmono|done|by eapply Hstep].
  intros s w w' r' Hw. by apply (Hstep (execution s) o w w' r').
Qed.

Lemma held_later r a d now now' v : now <= now' -> held now d r a v -> held now' d r a v.
Proof. intros Hle Hh t Ht. apply Hh. lia. Qed.
Lemma free_later r d now now' v : now <= now' -> free_from now d r v -> free_from now' d r v.
Proof. intros Hle Hh t Ht. apply Hh. lia. Qed.

(** The state after a lease was granted. *)
Lemma granted call r a ttl t c c1 v :
  repr t c v -> t <= started call -> wf_call call ->
  run call (OAcquire r a ttl) c = (c1, RLease r a) ->
  exists v1, repr (c_now call) c1 v1
    /\ held (c_now call) (c_now call + lease_ttl ttls ttl) r a v1
    /\ free_from (c_now call) (c_now call + lease_ttl ttls ttl) r v1.
Proof.
  intros Hr Hle Hwf Hrun.
  destruct (repr_step call _ c v c1 _ Hwf (repr_later _ _ _ _ Hle Hr) Hrun) as (v1 & (v0 & _ & Hst) & Hr1).
  exists v1. split; [done|]. by eapply astep_granted.
Qed.

(** C33: a lease is exclusive: once [a] was granted a resource, then whatever calls
    other clients make, until the lease's deadline or until [a] itself renews or
    releases it, no [Acquire] of that resource succeeds (without a fault it
    answers [ErrLeaseBusy]), and nobody else can renew or release it (without a
    fault they get [ErrLeaseNotOwner]). *)
Theorem lease_is_exclusive call r a ttl t c c1 v es t2 c2 call2 o c3 res :
  repr t c v -> t <= started call -> wf_call call ->
  run call (OAcquire r a ttl) c = (c1, RLease r a) ->
  runs es (c_now call) c1 t2 c2 -> Forall (fun e : event => ~ by_owner r a e.1.2) es ->
  t2 <= started call2 -> c_now call2 < c_now call + lease_ttl ttls ttl -> wf_call call2 ->
  run call2 o c2 = (c3, res) ->
  (forall b ttl2, o = OAcquire r b ttl2 ->
     exists e, res = RErr e /\
       (c_fault call2 = None -> op_valid o = true -> e = ErrLeaseBusy))
  /\ (forall b, by_owner r b o -> b <> a ->
     exists e, res = RErr e /\
       (c_fault call2 = None -> op_valid o = true -> e = ErrLeaseNotOwner)).
Proof.
  intros Hr Hle Hwf Hrun Hruns Hes Ht2 Hd Hwf2 Hrun2.
  destruct (granted _ _ _ _ _ _ _ _ Hr Hle Hwf Hrun) as (v1 & Hr1 & Hh & _).
  destruct (runs_preserve (fun now => held now (c_now call + lease_ttl ttls ttl) r a)
    (fun o => ~ by_owner r a o) es _ _ _ _ v1 (held_later _ _ _)
    ltac:(intros; by eapply astep_held) Hruns Hr1 Hh Hes) as (v2 & Hr2 & Hh2).
  destruct (repr_step call2 o c2 v2 c3 res Hwf2 (repr_later _ _ _ _ Ht2 Hr2) Hrun2)
    as (v3 & Hst & _).
  apply (held_later _ _ _ _ _ _ Ht2) in Hh2.
  assert (~ by_owner r a o -> exists v0, held (c_now call2) (c_now call + lease_ttl ttls ttl) r a v0
    /\ astep ttls call2 o v0 v3 res) as Hlast.
  { intros Hno. apply (cstep_last ttls (fun now => held now (c_now call + lease_ttl ttls ttl) r a) call2 o v2 v3 res); [apply held_later| |done|done|done].
    intros s w w' r' Hw. by apply (astep_held ttls (execution s) o w w' r'). }
  split.
  - intros b ttl2 ->. destruct Hlast as (v0 & Hv0 & Ha); [by intros []|]. by eapply astep_acquire_held.
  - intros b Hb Hne. destruct Hlast as (v0 & Hv0 & Ha); [destruct o; naive_solver|]. by eapply astep_stranger.
Qed.

(** C40: a crashed owner does not block a resource for ever: from the deadline of
    its lease on, if nobody leased the resource in between, the first valid
    [Acquire] without a fault succeeds; only one whose command the client has sent
    before, without a reply, may find the resource taken, by itself. *)
Theorem expired_lease_is_recovered call r a ttl t c c1 v es t2 c2 call2 b ttl2 c3 res :
  repr t c v -> t <= started call -> wf_call call ->
  run call (OAcquire r a ttl) c = (c1, RLease r a) ->
  runs es (c_now call) c1 t2 c2 -> Forall (fun e : event => ~ leases_anew r e.1.2) es ->
  t2 <= started call2 -> c_now call + lease_ttl ttls ttl <= started call2 -> wf_call call2 ->
  c_fault call2 = None -> op_valid (OAcquire r b ttl2) = true ->
  run call2 (OAcquire r b ttl2) c2 = (c3, res) ->
  res = RLease r b \/ resent ttls call2 <> [] /\ res = RErr ErrLeaseBusy.
Proof.
  intros Hr Hle Hwf Hrun Hruns Hes Ht2 Hd Hwf2 Hnf Hok Hrun2.
  destruct (granted _ _ _ _ _ _ _ _ Hr Hle Hwf Hrun) as (v1 & Hr1 & _ & Hf).
  destruct (runs_preserve (fun now => free_from now (c_now call + lease_ttl ttls ttl) r)
    (fun o => ~ leases_anew r o) es _ _ _ _ v1 (free_later _ _)
    ltac:(intros; by eapply astep_free) Hruns Hr1 Hf Hes) as (v2 & Hr2 & Hf2).
  destruct (repr_step call2 _ c2 v2 c3 res Hwf2 (repr_later _ _ _ _ Ht2 Hr2) Hrun2)
    as (v3 & Hst & _).
  apply (free_later _ _ _ _ _ Ht2) in Hf2. destruct (resent ttls call2) as [|s ts] eqn:Es.
  - left. apply cstep_once in Hst; [|done]. pose proof (started_now _ Hwf2) as Hn. apply (free_later _ _ _ _ _ Hn) in Hf2.
    eapply astep_acquire_free; [exact Hst|exact Hf2|lia|done|done].
  - destruct Hst as (v0 & _ & Ha). destruct (astep_acquire_plain _ _ _ _ _ _ _ _ Ha Hnf Hok) as [->| ->]; [by left|by right].
Qed.

(** The calls of [Next] on one cursor, all with the same modulo and lifetime and
    without a fault. *)
Definition steady (key : string) (m ttl : Z) (e : event) : Prop :=
  match e.1.2 with
  | ONext k m' ttl' => k = key -> m' = m /\ ttl' = ttl /\ fault_free e /\ op_valid e.1.2 = true
  | _ => True
  end.

Definition count_is (now until : time) (key : string) (n : Z) (v : view) : Prop :=
  forall t, now <= t <= until -> count_at v t key = n.

(** The cursor an operation advances. *)
Definition op_cursor (o : op) : option string :=
  match o with ONext k _ _ => Some k | _ => None end.

Lemma spec_other_cursor call o v v' res t key :
  spec ttls call o v = (v', res) -> op_cursor o <> Some key ->
  v' t (ICursor key) = v t (ICursor key).
Proof.
  intros Hs Hne. destruct o; simpl in Hs; repeat case_match; simplify_eq; try done;
    (rewrite put_other || rewrite drop_other); try done. naive_solver.
Qed.

Lemma astep_other_cursor call o v v' res t key :
  astep ttls call o v v' res -> op_cursor o <> Some key ->
  v' t (ICursor key) = v t (ICursor key).
Proof.
  intros [] Hne; [by eapply spec_other_cursor|done|by eapply spec_other_cursor|].
  match goal with Hx : forall t i, _ |- _ => apply Hx end.
  destruct o; try done. naive_solver.
Qed.

Lemma cstep_other_cursor call o v v' res t key :
  cstep ttls call o v v' res -> op_cursor o <> Some key ->
  v' t (ICursor key) = v t (ICursor key).
Proof.
  intros (v0 & Hr & Ha) Hne. rewrite (astep_other_cursor _ _ _ _ _ t _ Ha Hne). clear Ha.
  induction Hr as [|s ts v v1 v2 r Hs _ IH]; [done|]. rewrite IH. by eapply astep_other_cursor.
Qed.

Lemma astep_next call key m ttl v v' res n until :
  astep ttls call (ONext key m ttl) v v' res -> c_fault call = None ->
  op_valid (ONext key m ttl) = true -> c_now call <= until < c_now call + script_ttl ttls ttl ->
  count_is (c_now call) until key n v -> 0 <= n < max_int64 ->
  res = RIndex (n mod m) /\ count_is (c_now call) until key (n + 1) v'.
Proof.
  intros Hs Hf Hok Hu Hc Hn.
  assert (count_at v (c_now call) key = n) as Hcn by (apply Hc; lia).
  assert (0 < m) by (simpl in Hok; by repeat (apply andb_true_iff in Hok as [Hok ?]; bools)).
  inversion Hs as [? ? _ _ Hspec|e Hre|? ? ? Hlf|? ? Hex]; subst; [|by destruct Hre; congruence|congruence|].
  - simpl in Hspec. simplify_eq. split; [by rewrite Z.rem_mod_nonneg by lia|].
    intros t Ht. unfold count_at at 1. rewrite put_same.
    by rewrite (proj2 (Z.ltb_lt _ _)) by lia.
  - simpl in Hex. lia.
Qed.

Lemma runs_next key m ttl es t c t' c' : forall v n until,
  runs es t c t' c' -> repr t c v -> Forall (steady key m ttl) es ->
  t' <= until -> until < t + script_ttl ttls ttl -> count_is t until key n v ->
  0 <= n -> n + Z.of_nat (List.length es) <= max_int64 ->
  next_indices key es
  = (fun i => i mod m) <$> seqZ n (Z.of_nat (List.length (next_indices key es))).
Proof.
  intros v n until Hruns. revert v n.
  induction Hruns as [|call o res es t c c1 t' c' Hle Hwf Hrun Hruns IH];
    intros v n Hr Hes Hu Hw Hc Hn Hmax; [done|].
  apply Forall_cons in Hes as [He Hes].
  destruct (repr_step call o c v c1 res Hwf (repr_later _ _ _ _ Hle Hr) Hrun) as (v1 & Hst & Hr1).
  pose proof (runs_le _ _ _ _ _ Hruns). pose proof (started_now _ Hwf). simpl List.length in Hmax.
  assert (count_is (c_now call) until key n v) as Hc' by (intros s Hs; apply Hc; lia).
  destruct (decide (op_cursor o = Some key)) as [Ho|Ho].
  - destruct o as [| | |key' m' ttl'| |]; simplify_eq/=. destruct (He eq_refl) as (-> & -> & [Hf Hsent] & Hok).
    apply cstep_once in Hst; [|unfold resent; simpl in Hsent; rewrite Hsent; by destruct (sends ttls)].
    destruct (astep_next _ _ _ _ _ _ _ n until Hst Hf Hok) as [-> Hc1]; [lia|done|lia|].
    unfold next_indices. cbn [omap list_omap next_index]. rewrite String.eqb_refl.
    fold (next_indices key es). simpl List.length.
    rewrite seqZ_cons, fmap_cons by lia. f_equal.
    rewrite (IH v1 (n + 1) Hr1 Hes Hu) at 1 by (done || lia). do 2 f_equal; lia.
  - assert (forall s, v1 s (ICursor key) = v s (ICursor key)) as Hsame.
    { intros s. by eapply cstep_other_cursor. }
    assert (next_indices key ((call, o, res) :: es) = next_indices key es) as ->.
    { unfold next_indices. cbn [omap list_omap].
      replace (next_index key (call, o, res)) with (@None Z); [done|].
      destruct o as [| | |key' m' ttl'| |]; try done. simpl. destruct res; try done.
      destruct (String.eqb_spec key' key) as [->|]; [naive_solver|done]. }
    apply (IH v1 n); try done; [lia|intros s Hs; unfold count_at; rewrite Hsame; by apply Hc'|lia].
Qed.

Lemma seqZ_mod_NoDup n m : 0 < m -> NoDup ((fun i => i mod m) <$> seqZ n m).
Proof.
  intros Hm. apply NoDup_fmap_2_strong; [|apply NoDup_seqZ].
  intros x y Hx%elem_of_seqZ Hy%elem_of_seqZ Hxy.
  pose proof (Z.div_mod x m ltac:(lia)). pose proof (Z.div_mod y m ltac:(lia)).
  enough (x / m = y / m) by nia.
  pose proof (Z.mod_pos_bound x m Hm). pose proof (Z.mod_pos_bound y m Hm). nia.
Qed.

(** [Next] is a round robin: the calls of any number of clients on one cursor
    within its lifetime get consecutive indices modulo [m], whatever other calls
    come between, so [m] calls get each index exactly once. *)
Theorem next_is_round_robin key m ttl es t c t' c' v n :
  runs es t c t' c' -> repr t c v -> Forall (steady key m ttl) es -> 0 < m ->
  t' < t + script_ttl ttls ttl -> count_is t t' key n v ->
  0 <= n -> n + Z.of_nat (List.length es) <= max_int64 ->
  next_indices key es
  = (fun i => i mod m) <$> seqZ n (Z.of_nat (List.length (next_indices key es)))
  /\ (Z.of_nat (List.length (next_indices key es)) = m ->
      next_indices key es ≡ₚ seqZ 0 m).
Proof.
  intros Hruns Hr Hes Hm Ht Hc Hn Hmax.
  pose proof (runs_next key m ttl es t c t' c' v n t' Hruns Hr Hes ltac:(lia) Ht Hc Hn Hmax) as Heq.
  split; [done|]. intros Hlen. rewrite Hlen in Heq. rewrite Heq.
  apply submseteq_length_Permutation.
  - apply NoDup_submseteq; [by apply seqZ_mod_NoDup|].
    intros x (y & -> & Hy)%list_elem_of_fmap. apply elem_of_seqZ.
    pose proof (Z.mod_pos_bound y m Hm). lia.
  - rewrite length_fmap, !length_seqZ. done.
Qed.
End histories.

(** ** The implementations *)

(** C38: the in-process coordinator implements the abstract one: a new coordinator
    is empty, and every operation, on every branch, faults included, is a step of
    the abstract coordinator on what the maps answer from now on; expired entries
    and the clean-up are invisible. *)
Theorem memory_coordinator_refines `{Sha256Hex} call o c v c' res :
  memory_repr (c_now call) c v -> run call o c = (c', res) ->
  memory_repr (c_now call) NewMemoryCoordinator empty_view
  /\ exists v', astep memory_ttls call o v v' res /\ memory_repr (c_now call) c' v'.
Proof.
  intros Hr Hrun. split; [apply NewMemoryCoordinator_repr|].
  destruct o; revert Hr Hrun.
  - apply memory_acquire_step.
  - apply memory_renew_step.
  - apply memory_release_step.
  - apply memory_next_step.
  - apply memory_get_step.
  - apply memory_set_step.
Qed.

(** C39: the Redis coordinator implements the same abstract coordinator, on a
    server that behaves as documented: its keys, with their prefixes, never
    collide, the scripts check the owner, a command whose reply was lost has
    the effect of its step or none, and a command that the client sent before, at instants that
    do not go back, because its reply was lost, has had the effect of a step at each execution. *)
Theorem redis_coordinator_refines {S} `{RedisLaws S, Sha256Hex} call o (s : S) v s' res :
  wf_call call -> redis_repr (started call) s v -> run call o s = (s', res) ->
  exists v', cstep redis_ttls call o v v' res /\ redis_repr (c_now call) s' v'.
Proof.
  destruct o.
  - apply redis_acquire_step.
  - apply redis_renew_step.
  - apply redis_release_step.
  - apply redis_next_step.
  - apply redis_get_step.
  - apply redis_set_step.
Qed.

(** a positive renewal shorter than a millisecond ends a Redis lease instead
    of extending it: [Milliseconds] truncates it to 0, [PEXPIRE] with 0 deletes the
    key, [Renew] reports success, and the next client is granted the resource
    while the owner still believes it holds it. *)
Theorem submillisecond_renewal_ends_the_lease {S} `{RedisLaws S, Sha256Hex}
    call l ttl (s : S) v r b ttl2 :
  redis_repr (c_now call) s v -> v (c_now call) (ILease (ls_resource l)) = Some (VOwner (ls_owner l)) ->
  c_fault call = None -> c_sent call = [] -> 0 < ttl < Millisecond ->
  r = ls_resource l -> op_valid (OAcquire r b ttl2) = true ->
  exists s1 s2, Renew call l ttl s = (s1, Ok tt) /\ Acquire call r b ttl2 s1 = (s2, Ok (new_lease r b)).
Proof.
  intros Hr Hv Hf Hsent Ht -> Hok.
  pose proof (redis_lease _ _ _ (ls_resource l) Hr) as Hg.
  destruct (redis_get (c_now call) (leaseKeyPrefix +:+ ls_resource l) s) as [o|] eqn:Hget;
    [|congruence].
  assert (o = ls_owner l) as -> by congruence.
  set (s1 := redis_pexpire (c_now call) (leaseKeyPrefix +:+ ls_resource l) (Milliseconds ttl) s).
  assert (redis_get (c_now call) (leaseKeyPrefix +:+ ls_resource l) s1 = None) as Hgone.
  { unfold s1. rewrite law_pexpire, decide_True, Hget by (done || lia).
    rewrite (proj2 (Z.ltb_ge _ _)); [done|]. unfold Milliseconds.
    rewrite Z.quot_small by lia. lia. }
  destruct (redis_set_nx (c_now call) (leaseKeyPrefix +:+ ls_resource l) b ttl2 s1) as [s2 ok] eqn:Hs2.
  pose proof (law_set_nx _ _ _ _ _ _ _ Hs2) as Hlaw. rewrite Hgone in Hlaw. destruct Hlaw as [-> _].
  exists s1, s2. simpl. split.
  - unfold redis_Renew. rewrite (proj2 (Z.leb_gt ttl 0)) by lia. unfold exec, renewLeaseLua.
    rewrite Hsent, Hf. cbn [resend]. rewrite Hget, String.eqb_refl. done.
  - simpl in Hok. apply andb_true_iff in Hok as [[Ha%negb_true_iff Hb%negb_true_iff]%andb_true_iff Hc%Z.ltb_lt].
    unfold redis_Acquire. rewrite Ha, Hb, (proj2 (Z.leb_gt ttl2 0)) by lia. unfold exec.
    rewrite Hsent, Hf. cbn [resend]. by rewrite Hs2.
Qed.
End CoordinatorTheorems.
