(* ===== verification/CoordinatorDemo.v ===== *)
(** * A concrete Redis server and small histories

    A server as a map from keys to values with an expiry, which has every
    documented law the Redis coordinator relies on, and the witnesses of the
    coordinator's theorems. *)

From stdpp Require Import base gmap strings list list_numbers relations pretty.
From Stdlib Require Import ZArith Lia Ascii String.
From S2P Require Import Prelude GoLib SchedulerModel Coordinator CoordinatorImpl.
From S2P Require Import CoordinatorTheorems.

Module CoordinatorDemo.
Import Sched Coordinator CoordinatorSpec CoordinatorImpl CoordinatorTheorems.

(** ** Decimal text read back *)
Definition text_int (s : string) : option Z :=
  match s with
  | String c t => if Ascii.eqb c "-" then Z.opp <$> digits_value 0 t else digits_value 0 s
  | EmptyString => None
  end.

Lemma digits_value_char r y s : (r < 10)%N ->
  digits_value y (String (pretty_N_char r) s) = digits_value (10 * y + Z.of_N r) s.
Proof.
  intros Hr.
  assert (r = 0 \/ r = 1 \/ r = 2 \/ r = 3 \/ r = 4 \/ r = 5 \/ r = 6 \/ r = 7 \/ r = 8 \/ r = 9)%N
    as Hcases by lia.
  by repeat destruct Hcases as [-> | Hcases]; try rewrite Hcases.
Qed.

Lemma digits_value_go x : forall s, (0 < x)%N ->
  digits_value 0 (pretty_N_go x s) = digits_value (Z.of_N x) s.
Proof.
  induction x as [x IH] using (well_founded_induction N.lt_wf_0). intros s Hx.
  rewrite pretty_N_go_step by done.
  pose proof (N.mod_lt x 10 ltac:(lia)) as Hm. pose proof (N.div_mod x 10 ltac:(lia)) as Hdm.
  destruct (decide (0 < x / 10)%N) as [Hd|Hd].
  - rewrite IH, digits_value_char by (done || by apply N.div_lt). f_equal. lia.
  - assert (x / 10 = 0)%N as Hz by lia. rewrite Hz, pretty_N_go_0, digits_value_char by done.
    f_equal. lia.
Qed.

Lemma digits_value_pretty (n : N) : digits_value 0 (pretty n) = Some (Z.of_N n).
Proof.
  unfold pretty, pretty_N. case_decide as Hn; [by subst|].
  rewrite digits_value_go by lia. done.
Qed.

Lemma pretty_go_nonempty x : forall s, s <> "" -> pretty_N_go x s <> "".
Proof.
  induction x as [x IH] using (well_founded_induction N.lt_wf_0). intros s Hs.
  destruct (decide (0 < x)%N) as [Hx|Hx].
  - rewrite pretty_N_go_step by done. apply IH; [by apply N.div_lt|done].
  - assert (x = 0)%N as -> by lia. by rewrite pretty_N_go_0.
Qed.

Lemma text_int_pretty (n : N) : text_int (pretty n) = Some (Z.of_N n).
Proof.
  pose proof (digits_value_pretty n) as Hd. unfold text_int.
  destruct (pretty n) as [|c t] eqn:Hp.
  - exfalso. unfold pretty, pretty_N in Hp. case_decide; [done|].
    rewrite pretty_N_go_step in Hp by lia. eapply pretty_go_nonempty; [|exact Hp]; done.
  - destruct (Ascii.eqb_spec c "-") as [->|]; [by vm_compute in Hd|done].
Qed.

Lemma text_int_Itoa n : text_int (Itoa n) = Some n.
Proof.
  unfold Itoa. destruct n as [|p|p]; [done| |].
  - change (pretty (Z.pos p)) with (pretty (N.pos p)). by rewrite text_int_pretty.
  - change (pretty (Z.neg p)) with (String "-" (pretty (N.pos p))). simpl.
    by rewrite digits_value_pretty.
Qed.

(** ** The server *)
Abbreviation server := (gmap string (string * option time)).

Definition expire (t : time) (e : string * option time) : option string :=
  match e.2 with
  | None => Some e.1
  | Some d => if t <? d then Some e.1 else None
  end.
Definition server_get (t : time) (k : string) (s : server) : option string :=
  s !! k ≫= expire t.
Definition server_set_nx (now : time) (k v : string) (ttl : Z) (s : server) : server * bool :=
  match server_get now k s with
  | Some _ => (s, false)
  | None => (<[k := (v, Some (now + ttl))]> s, true)
  end.
Definition server_incr (now : time) (k : string) (s : server) : option (server * Z) :=
  match server_get now k s with
  | None => Some (<[k := (Itoa 1, None)]> s, 1)
  | Some v =>
      match text_int v with
      | Some n => if n <? max_int64
                  then Some (<[k := (Itoa (n + 1), s !! k ≫= snd)]> s, n + 1) else None
      | None => None
      end
  end.
Definition server_pexpire (now : time) (k : string) (ms : Z) (s : server) : server :=
  match server_get now k s with
  | Some v => if 0 <? ms then <[k := (v, Some (now + ms * Millisecond))]> s else delete k s
  | None => delete k s
  end.

#[export] Instance demo_server : RedisServer server := {|
  redis_get := server_get;
  redis_set_nx := server_set_nx;
  redis_set := fun now k v ttl s => <[k := (v, Some (now + ttl))]> s;
  redis_incr := server_incr;
  redis_pexpire := server_pexpire;
  redis_del := fun _ k s => delete k s;
  client_ttl := fun d => d |}.
#[export] Instance demo_uuid_text : UuidText := fun u => pretty u.
#[export] Instance demo_uuid_parse : UuidParse := fun s => Z.to_N <$> text_int s.
#[export] Instance demo_sha : Sha256Hex := fun s => s.

Lemma server_get_insert t k k' e s :
  server_get t k' (<[k := e]> s) = if decide (k' = k) then expire t e else server_get t k' s.
Proof.
  unfold server_get. case_decide as Hk; [subst; by rewrite lookup_insert_eq|].
  by rewrite lookup_insert_ne by done.
Qed.
Lemma server_get_delete t k k' s :
  server_get t k' (delete k s) = if decide (k' = k) then None else server_get t k' s.
Proof.
  unfold server_get. case_decide as Hk; [subst; by rewrite lookup_delete_eq|].
  by rewrite lookup_delete_ne by done.
Qed.

#[export] Instance demo_redis_laws : RedisLaws server.
Proof.
  split.
  - intros now k v ttl s s' ok. simpl. unfold server_set_nx.
    destruct (server_get now k s) eqn:Hg; intros [= <- <-]; split; try done.
    intros t k' Ht. by rewrite server_get_insert.
  - intros now k v ttl s t k' Ht. simpl. by rewrite server_get_insert.
  - intros now k s n Hn. simpl in *. unfold server_incr.
    destruct Hn as [[Hg ->]|[Hg Hi]]; rewrite Hg.
    + exists (<[k := (Itoa 1, None)]> s). split; [done|]. rewrite server_get_insert.
      split; [by rewrite decide_True|]. intros t k' Ht Hk. by rewrite server_get_insert, decide_False.
    + rewrite text_int_Itoa. destruct (n <? max_int64); [|done]. eexists. split; [done|]. split.
      * rewrite server_get_insert, decide_True by done. unfold server_get in Hg.
        destruct (s !! k) as [[v d]|]; [|done]. unfold expire in *. simpl in *.
        destruct d as [d|]; [|done]. by destruct (now <? d).
      * intros t k' Ht Hk. by rewrite server_get_insert, decide_False.
  - intros now k ms s t k' Ht. simpl. unfold server_pexpire.
    destruct (server_get now k s) as [v|]; [|by rewrite server_get_delete].
    destruct (Z.ltb_spec 0 ms) as [Hms|Hms].
    + by rewrite server_get_insert.
    + rewrite server_get_delete. case_decide; [|done].
      rewrite (proj2 (Z.ltb_ge _ _)); [done|]. unfold Millisecond. lia.
  - intros now k s t k' Ht. simpl. by rewrite server_get_delete.
  - done.
  - intros u. unfold uuid_parse, demo_uuid_parse, uuid_string, demo_uuid_text.
    rewrite text_int_pretty. simpl. by rewrite N2Z.id.
Qed.

(** ** Histories *)
Definition at_ (t : time) : Call := {| c_now := t; c_then := t; c_fault := None; c_sent := [] |}.
Lemma at_wf t : wf_call (at_ t).
Proof. split; [done|]. repeat constructor. Qed.
(** Sent at [t], and again at [t'] because the first reply was lost. *)
Definition again (t t' : time) : Call := {| c_now := t'; c_then := t'; c_fault := None; c_sent := [t] |}.
Lemma again_wf t t' : t <= t' -> wf_call (again t t').
Proof. split; [done|]. repeat constructor; done. Qed.
Definition mem0 : memoryCoordinator := NewMemoryCoordinator.
Definition mem_after (t : time) (o : op) (c : memoryCoordinator) : memoryCoordinator :=
  (run (at_ t) o c).1.

Lemma mem0_repr t : repr t mem0 empty_view.
Proof. apply NewMemoryCoordinator_repr. Qed.

(** [a] leases [r] at 10 for 100; [b] tries to renew it at 20 and [c] to acquire
    it at 50. *)
Definition mem1 : memoryCoordinator := mem_after 10 (OAcquire "r" "a" 100) mem0.

Lemma lease_is_exclusive_witness :
  (run (at_ 50) (OAcquire "r" "c" 100) mem1).2 = RErr ErrLeaseBusy.
Proof.
  destruct (run (at_ 50) (OAcquire "r" "c" 100) mem1) as [c3 res] eqn:Hrun.
  destruct (lease_is_exclusive (at_ 10) "r" "a" 100 0 mem0 mem1 empty_view
    [(at_ 20, ORenew "r" "b" 100, RErr ErrLeaseNotOwner)] 20 mem1 (at_ 50)
    (OAcquire "r" "c" 100) c3 res) as [H _].
  - apply mem0_repr.
  - vm_compute. discriminate.
  - apply at_wf.
  - vm_compute. reflexivity.
  - econstructor; [vm_compute; discriminate|apply at_wf|vm_compute; reflexivity|].
    constructor.
  - constructor; [|constructor]. simpl. intros [_ [=]].
  - vm_compute. discriminate.
  - reflexivity.
  - apply at_wf.
  - exact Hrun.
  - destruct (H "c" 100 eq_refl) as (e & -> & He). simpl. rewrite He; reflexivity.
Defined.

Lemma expired_lease_is_recovered_witness :
  (run (at_ 110) (OAcquire "r" "b" 100) mem1).2 = RLease "r" "b".
Proof.
  destruct (run (at_ 110) (OAcquire "r" "b" 100) mem1) as [c3 res] eqn:Hrun.
  destruct (expired_lease_is_recovered (at_ 10) "r" "a" 100 0 mem0 mem1 empty_view
    [] 10 mem1 (at_ 110) "b" 100 c3 res) as [->|[He _]].
  - apply mem0_repr.
  - vm_compute. discriminate.
  - apply at_wf.
  - vm_compute. reflexivity.
  - constructor.
  - constructor.
  - vm_compute. discriminate.
  - vm_compute. discriminate.
  - apply at_wf.
  - reflexivity.
  - reflexivity.
  - exact Hrun.
  - reflexivity.
  - destruct He. reflexivity.
Defined.

(** Three calls of [Next] modulo 3, another client's lease in between. *)
Definition mem2 : memoryCoordinator := mem_after 1 (ONext "k" 3 100) mem0.
Definition mem3 : memoryCoordinator := mem_after 2 (OAcquire "r" "a" 100) mem2.
Definition mem4 : memoryCoordinator := mem_after 3 (ONext "k" 3 100) mem3.
Definition mem5 : memoryCoordinator := mem_after 4 (ONext "k" 3 100) mem4.
Definition next_history : list event :=
  [(at_ 1, ONext "k" 3 100, RIndex 0); (at_ 2, OAcquire "r" "a" 100, RLease "r" "a");
   (at_ 3, ONext "k" 3 100, RIndex 1); (at_ 4, ONext "k" 3 100, RIndex 2)].

Lemma next_is_round_robin_witness : next_indices "k" next_history ≡ₚ seqZ 0 3.
Proof.
  apply (next_is_round_robin "k" 3 100 next_history 0 mem0 4 mem5 empty_view 0).
  - apply (runs_cons (at_ 1) _ _ _ _ mem0 mem2); [done|apply at_wf|vm_compute; reflexivity|].
    apply (runs_cons (at_ 2) _ _ _ _ mem2 mem3); [done|apply at_wf|vm_compute; reflexivity|].
    apply (runs_cons (at_ 3) _ _ _ _ mem3 mem4); [done|apply at_wf|vm_compute; reflexivity|].
    apply (runs_cons (at_ 4) _ _ _ _ mem4 mem5); [done|apply at_wf|vm_compute; reflexivity|].
    constructor.
  - apply mem0_repr.
  - repeat constructor.
  - reflexivity.
  - reflexivity.
  - intros t _. reflexivity.
  - discriminate.
  - vm_compute. discriminate.
  - reflexivity.
Defined.

Lemma memory_coordinator_refines_witness :
  exists v', astep memory_ttls (at_ 10) (OAcquire "r" "a" 100) empty_view v' (RLease "r" "a")
    /\ memory_repr 10 mem1 v'.
Proof.
  destruct (memory_coordinator_refines (at_ 10) (OAcquire "r" "a" 100) mem0 empty_view mem1
    (RLease "r" "a")) as [_ H].
  - apply NewMemoryCoordinator_repr.
  - vm_compute. reflexivity.
  - exact H.
Defined.

(** The same lease in Redis. *)
Definition red0 : server := ∅.
Definition red1 : server := (run (at_ 10) (OAcquire "r" "a" 100) red0).1.

Lemma red0_repr t : redis_repr t red0 empty_view.
Proof. intros u i _. split; [|done]. unfold empty_view. by destruct i. Qed.

(** The reply to the command at 10 is lost; the command sent again at 11 finds the lease of
    its own call. *)
Lemma redis_coordinator_refines_witness :
  run (again 10 11) (OAcquire "r" "a" 100) red0 = (red1, RErr ErrLeaseBusy)
  /\ exists v', cstep redis_ttls (again 10 11) (OAcquire "r" "a" 100) empty_view v' (RErr ErrLeaseBusy)
    /\ redis_repr 11 red1 v'.
Proof.
  split; [vm_compute; reflexivity|].
  apply (redis_coordinator_refines (again 10 11) (OAcquire "r" "a" 100) red0 empty_view red1).
  - by apply again_wf.
  - apply red0_repr.
  - vm_compute. reflexivity.
Defined.

Lemma red1_step :
  exists v', astep redis_ttls (at_ 10) (OAcquire "r" "a" 100) empty_view v' (RLease "r" "a")
    /\ redis_repr 10 red1 v'.
Proof.
  destruct (redis_acquire_step "r" "a" 100 (at_ 10) red0 empty_view red1 (RLease "r" "a")) as (v' & Hst & Hr).
  - apply at_wf.
  - apply red0_repr.
  - vm_compute. reflexivity.
  - exists v'. split; [by apply cstep_once|done].
Qed.

(** The owner renews for half a millisecond; [b] is granted the resource. *)
Lemma submillisecond_renewal_ends_the_lease_witness :
  exists s1 s2, Renew (at_ 20) (new_lease "r" "a") 500000 red1 = (s1, Ok tt)
    /\ Acquire (at_ 20) "r" "b" 100 s1 = (s2, Ok (new_lease "r" "b")).
Proof.
  destruct red1_step as (v' & Hst & Hr).
  apply (submillisecond_renewal_ends_the_lease (at_ 20) (new_lease "r" "a") 500000 red1 v' "r" "b" 100).
  - intros t i Ht. apply Hr. simpl in *. lia.
  - inversion Hst as [? ? _ _ Hs| | |? ? []]. injection Hs as <-. reflexivity.
  - reflexivity.
  - reflexivity.
  - split; reflexivity.
  - reflexivity.
  - reflexivity.
Defined.
End CoordinatorDemo.
