(* ===== verification/SchedulerRepo.v ===== *)
(** * The rows the scheduler reads and the decisions it records

    [internal/scheduler/repository.go].  Tables are lists or maps of rows; the
    constraints of [scheduler_decisions] over tables outside the model are the
    parameter [DecisionGuard].  A statement that fails before or after the server
    ran it (a cancelled context, a lost connection) is the [c_fault] of its call. *)

From stdpp Require Import base gmap strings list sorting.
From Stdlib Require Import ZArith Lia Ascii String.
From S2P Require Import Prelude GoLib SchedulerModel Coordinator.

Module SchedulerRepo.
Import Sched Coordinator.

(** ** Tables *)
Record PoolMemberRow := {
  pm_pool_id : uuid; pm_credential_id : uuid; pm_priority : Z; pm_weight : Z; pm_enabled : bool }.
Record CredentialRow := {
  cr_provider_id : uuid; cr_status : string; cr_max_concurrency : Z;
  cr_region : string; cr_proxy_ref : string; cr_deleted : bool }.
Record ProviderRow := { pr_slug : string; pr_enabled : bool }.
Record QuotaRow := {
  qs_id : uuid; qs_credential_id : uuid; qs_provider_slug : string; qs_window_kind : string;
  qs_model : string; qs_remaining_tokens : option Z; qs_reset_at : option time;
  qs_observed_at : time; qs_confidence : string }.
Record DecisionRow := {
  dr_id : uuid; dr_request_record_id : option uuid; dr_request_id : string;
  dr_attempt_no : Z; dr_decision_no : Z; dr_route_version_id : option uuid;
  dr_decision : Decision }.

Record SchedDB := {
  pool_members : list PoolMemberRow;
  credentials : gmap uuid CredentialRow;
  providers : gmap uuid ProviderRow;
  cooldowns : gmap uuid (option time);
  quota_snapshots : list QuotaRow;
  scheduler_decisions : list DecisionRow
}.

(** Foreign keys, checks and the trigger [bablo_validate_scheduler_selection]:
    [Some code] is the SQLSTATE raised. *)
Class DecisionGuard := guard_decision : DecisionRow -> option string.

(** ** [loadPoolMembers] *)
Definition member_le (a b : PoolMemberRow) : Prop :=
  pm_priority a < pm_priority b
  \/ (pm_priority a = pm_priority b /\ (pm_credential_id a <= pm_credential_id b)%N).
#[export] Instance member_le_dec : RelDecision member_le.
Proof. intros a b. unfold member_le. apply _. Defined.

(** [ORDER BY (qs.model = $3) DESC, qs.observed_at DESC, qs.id DESC]. *)
Definition quota_key (model : string) (q : QuotaRow) : Z := if String.eqb (qs_model q) model then 1 else 0.
Definition quota_le (model : string) (a b : QuotaRow) : Prop :=
  quota_key model b < quota_key model a
  \/ (quota_key model a = quota_key model b /\
      (qs_observed_at b < qs_observed_at a
       \/ (qs_observed_at a = qs_observed_at b /\ (qs_id b <= qs_id a)%N))).
#[export] Instance quota_le_dec model : RelDecision (quota_le model).
Proof. intros a b. unfold quota_le. apply _. Defined.

Definition quota_matches (window model slug : string) (credential : uuid) (q : QuotaRow) : bool :=
  negb (String.eqb window "") && uuid_eqb (qs_credential_id q) credential
  && String.eqb (qs_provider_slug q) slug && String.eqb (qs_window_kind q) window
  && (String.eqb (qs_model q) "" || String.eqb (qs_model q) model).

Definition latest_quota (window model slug : string) (credential : uuid) (d : SchedDB) : option QuotaRow :=
  head (merge_sort (quota_le model)
          (filter (fun q => quota_matches window model slug credential q = true) (quota_snapshots d))).

Definition no_quota : quotaSnapshot :=
  {| q_Found := false; q_Remaining := None; q_ResetAt := None; q_ObservedAt := None; q_Confidence := "" |}.
Definition quota_snapshot (o : option QuotaRow) : quotaSnapshot :=
  match o with
  | None => no_quota
  | Some q => {| q_Found := true; q_Remaining := qs_remaining_tokens q; q_ResetAt := qs_reset_at q;
                 q_ObservedAt := Some (qs_observed_at q); q_Confidence := qs_confidence q |}
  end.

Definition pool_member (quota : QuotaPolicy) (model : string) (d : SchedDB) (pm : PoolMemberRow)
  : option poolMember :=
  c ← credentials d !! pm_credential_id pm;
  if cr_deleted c then None else
  p ← providers d !! cr_provider_id c;
  Some {| m_CredentialID := pm_credential_id pm; m_MemberPriority := pm_priority pm;
          m_MemberWeight := pm_weight pm; m_Enabled := pm_enabled pm;
          m_ProviderEnabled := pr_enabled p; m_Status := cr_status c;
          m_MaxConcurrency := cr_max_concurrency c; m_Region := cr_region c;
          m_ProxyRef := cr_proxy_ref c;
          m_CooldownUntil := default None (cooldowns d !! pm_credential_id pm);
          m_Quota := quota_snapshot (latest_quota (qp_WindowKind quota) model (pr_slug p)
                                       (pm_credential_id pm) d) |}.

Definition loadPoolMembers (call : Call) (poolID : uuid) (quota : QuotaPolicy)
    (upstreamModel : string) (d : SchedDB) : SchedDB * result error (list poolMember) :=
  match c_fault call with
  | Some _ => (d, Err ErrContext)
  | None =>
      (d, Ok (omap (pool_member quota (TrimSpace upstreamModel) d)
                (merge_sort member_le
                   (filter (fun pm => pm_pool_id pm = poolID) (pool_members d)))))
  end.

(** ** [RecordDecision] *)
Definition decision_row (decisionID : uuid) (request : Request) (decision : Decision) : DecisionRow :=
  {| dr_id := decisionID; dr_request_record_id := rq_RequestRecordID request;
     dr_request_id := rq_RequestID request; dr_attempt_no := rq_AttemptNo request;
     dr_decision_no := rq_DecisionNo request;
     dr_route_version_id :=
       if uuid_eqb (VersionID (rq_Resolution request)) uuid_nil then None
       else Some (VersionID (rq_Resolution request));
     dr_decision := decision |}.

(** [PRIMARY KEY (id)], [UNIQUE (request_id, attempt_no, decision_no)]. *)
Definition decision_dup (row o : DecisionRow) : bool :=
  uuid_eqb (dr_id o) (dr_id row)
  || (String.eqb (dr_request_id o) (dr_request_id row) && (dr_attempt_no o =? dr_attempt_no row)
      && (dr_decision_no o =? dr_decision_no row)).

Definition add_decision (row : DecisionRow) (d : SchedDB) : SchedDB :=
  {| pool_members := pool_members d; credentials := credentials d; providers := providers d;
     cooldowns := cooldowns d; quota_snapshots := quota_snapshots d;
     scheduler_decisions := (scheduler_decisions d ++ [row])%list |}.

Definition insert_decision `{DecisionGuard} (row : DecisionRow) (d : SchedDB) : SchedDB * result error unit :=
  match guard_decision row with
  | Some code => (d, Err (mapRepositoryError (SqlState code)))
  | None => if existsb (decision_dup row) (scheduler_decisions d)
            then (d, Err (mapRepositoryError (SqlState "23505")))
            else (add_decision row d, Ok tt)
  end.

Definition RecordDecision `{DecisionGuard} (decisionID : uuid) (call : Call) (request : Request)
    (decision : Decision) (d : SchedDB) : SchedDB * result error unit :=
  let row := decision_row decisionID request decision in
  match c_fault call with
  | Some (Cancelled | NotReached) => (d, Err ErrContext)
  | Some ReplyLost => ((insert_decision row d).1, Err ErrContext)
  | None => insert_decision row d
  end.

End SchedulerRepo.
