(* ===== verification/Scheduler.v ===== *)
(** * Selection of a credential

    [internal/scheduler/service.go]: eligibility, ordering and [Select].  [Select]
    is one sequential computation whose external calls (pool queries, the
    coordinator, the decision record) are interleaved with other requests: before
    its [i]-th call the environment [Env] may change the coordinator and the rows,
    and gives the clock and the fault of the call. *)

From stdpp Require Import base gmap strings list.
From Stdlib Require Import ZArith Lia Ascii String.
From S2P Require Import Prelude GoLib SchedulerModel Coordinator SchedulerRepo.

Module Scheduler.
Import Sched Coordinator SchedulerRepo.

(** ** Eligibility *)
Definition supportsRequired (available required : Capabilities) : bool :=
  (negb (Chat required) || Chat available)
  && (negb (Responses required) || Responses available)
  && (negb (Messages required) || Messages available)
  && (negb (Stream required) || Stream available)
  && (negb (Tools required) || Tools available)
  && (negb (Vision required) || Vision available)
  && (negb (Reasoning required) || Reasoning available).

(** [if b { reasons = append(reasons, r) }]. *)
Definition when (b : bool) (r : string) : list string := if b then [r] else [].

Definition targetEligibilityReasons (target : Target) (protocol : string) (required : Capabilities)
  : list string :=
  (when (negb (t_Enabled target)) "target_disabled"
  ++ when (negb (t_ProviderModelEnabled target)) "provider_model_disabled"
  ++ when (negb (String.eqb (t_ReviewStatus target) ReviewApproved)) "provider_model_unapproved"
  ++ when (negb (t_PoolEnabled target)) "pool_disabled"
  ++ when (String.eqb (t_ProviderResourceType target) ResourceSubscription
           || negb (t_ProviderCommercialAllowed target)
           || negb (t_EffectiveCommercialAllowed target)) "resource_policy_denied"
  ++ when (negb (String.eqb protocol "") && negb (String.eqb (t_Protocol target) protocol)) "protocol_mismatch"
  ++ when (negb (supportsRequired (t_Capabilities target) required)) "capability_mismatch")%list.

Definition opt_after (t : option time) (now : time) : bool :=
  match t with Some x => After x now | None => false end.

(** [now.Before(observed) || now.Sub(observed) > maxAge]. *)
Definition observation_stale (now observed : time) (maxAge : Z) : bool :=
  Before now observed || (maxAge <? Sub now observed).

Definition quotaEligibilityReasons (snapshot : quotaSnapshot) (policy : QuotaPolicy) (now : time)
  : list string :=
  match (if q_Found snapshot then q_ObservedAt snapshot else None) with
  | None => when (qp_RequireFresh policy) "quota_missing"
  | Some observed =>
      let stale := observation_stale now observed (qp_MaxAge policy)
                   || match q_ResetAt snapshot with Some r => negb (After r now) | None => false end in
      if stale && qp_RequireFresh policy then ["quota_stale"]
      else when (negb stale && match q_Remaining snapshot with
                               | Some n => n <? qp_RequiredTokens policy | None => false end)
                "quota_exhausted"
  end.

Definition memberEligibilityReasons (member : poolMember) (request : Request) : list string :=
  (when (negb (m_Enabled member)) "pool_member_disabled"
  ++ when (negb (m_ProviderEnabled member)) "provider_disabled"
  ++ when (negb (String.eqb (m_Status member) CredentialActive)) "credential_inactive"
  ++ when (m_MaxConcurrency member <? 1) "credential_capacity_invalid"
  ++ when (opt_after (m_CooldownUntil member) (rq_Now request)) "cooldown"
  ++ when (negb (String.eqb (rq_Region request) "")
           && negb (String.eqb (m_Region member) (rq_Region request))) "region_mismatch"
  ++ when (rq_RequireProxy request && String.eqb (m_ProxyRef member) "") "proxy_required"
  ++ when (negb (String.eqb (rq_ProxyRef request) "")
           && negb (String.eqb (m_ProxyRef member) (rq_ProxyRef request))) "proxy_mismatch"
  ++ (if qp_Enabled (rq_Quota request)
      then quotaEligibilityReasons (m_Quota member) (rq_Quota request) (rq_Now request) else []))%list.

Definition quotaUsable (snapshot : quotaSnapshot) (policy : QuotaPolicy) (now : time) : bool :=
  match (if q_Found snapshot then q_ObservedAt snapshot else None) with
  | None => false
  | Some observed =>
      if observation_stale now observed (qp_MaxAge policy) then false
      else match q_ResetAt snapshot with Some r => After r now | None => true end
  end.

(** ** [normalizeRequest] *)
Definition one_strategy (s : string) : bool :=
  String.eqb s StrategyRoundRobin || String.eqb s StrategyWeightedRoundRobin
  || String.eqb s StrategyFillFirst || String.eqb s StrategyQuotaAware.

Definition window_kind_ok (s : string) : bool :=
  String.eqb s "minute" || String.eqb s "hour" || String.eqb s "day" || String.eqb s "month"
  || String.eqb s "provider_specific".

(** The quota part of [normalizeRequest]. *)
Definition normalize_quota (quota : QuotaPolicy) (defaultQuotaMaxAge : Z) : result error QuotaPolicy :=
  if qp_Enabled quota then
    if negb (window_kind_ok (qp_WindowKind quota)) || (qp_RequiredTokens quota <? 0)
    then Err ErrInvalidInput else
    let maxAge := or_default (qp_MaxAge quota) defaultQuotaMaxAge in
    if maxAge <=? 0 then Err ErrInvalidInput
    else Ok {| qp_Enabled := true; qp_WindowKind := qp_WindowKind quota;
               qp_RequiredTokens := qp_RequiredTokens quota; qp_MaxAge := maxAge;
               qp_RequireFresh := qp_RequireFresh quota |}
  else if negb (String.eqb (qp_WindowKind quota) "") || negb (qp_RequiredTokens quota =? 0)
          || negb (qp_MaxAge quota =? 0) || qp_RequireFresh quota
  then Err ErrInvalidInput else Ok quota.

Definition normalizeRequest (request : Request) (defaultQuotaMaxAge : Z) (wall : time)
  : result error Request :=
  let requestID := TrimSpace (rq_RequestID request) in
  let resolution := rq_Resolution request in
  if String.eqb requestID "" || (128 <? slen requestID) || contains_control requestID
  then Err ErrInvalidInput else
  if (rq_AttemptNo request <? 0) || (rq_DecisionNo request <? 0)
     || uuid_eqb (VersionID resolution) uuid_nil || uuid_eqb (RouteID resolution) uuid_nil
     || bool_decide (Candidates resolution = [])
  then Err ErrInvalidInput else
  let strategy := if String.eqb (rq_Strategy request) "" then StrategyRoundRobin
                  else rq_Strategy request in
  if negb (one_strategy strategy) then Err ErrInvalidInput else
  let protocol := TrimSpace (rq_Protocol request) in
  let region := TrimSpace (rq_Region request) in
  let proxyRef := TrimSpace (rq_ProxyRef request) in
  let affinityKey := TrimSpace (rq_AffinityKey request) in
  if (64 <? slen protocol) || (64 <? slen region) || (128 <? slen proxyRef)
     || (256 <? slen affinityKey)
     || contains_control (protocol +:+ region +:+ proxyRef +:+ affinityKey)
  then Err ErrInvalidInput else
  quota ← normalize_quota (rq_Quota request) defaultQuotaMaxAge;
  Ok {| rq_RequestID := requestID; rq_RequestRecordID := rq_RequestRecordID request;
        rq_AttemptNo := rq_AttemptNo request; rq_DecisionNo := rq_DecisionNo request;
        rq_Resolution := resolution; rq_Protocol := protocol;
        rq_RequiredCapabilities := rq_RequiredCapabilities request; rq_Region := region;
        rq_ProxyRef := proxyRef;
        rq_RequireProxy := if String.eqb proxyRef "" then rq_RequireProxy request else true;
        rq_Quota := quota; rq_Strategy := strategy; rq_AffinityKey := affinityKey;
        rq_Now := if IsZero (rq_Now request) then wall else rq_Now request |}.

(** ** Ordering *)
Section ordering.
Context `{UuidText}.

Definition priority_less (left right : candidate) : bool :=
  let l := c_target left in let r := c_target right in
  if negb (t_Priority l =? t_Priority r) then t_Priority l <? t_Priority r else
  if negb (m_MemberPriority (c_member left) =? m_MemberPriority (c_member right))
  then m_MemberPriority (c_member left) <? m_MemberPriority (c_member right) else
  if negb (t_TargetNo l =? t_TargetNo r) then t_TargetNo l <? t_TargetNo r else
  if negb (uuid_eqb (t_ID l) (t_ID r)) then String.ltb (uuid_string (t_ID l)) (uuid_string (t_ID r))
  else String.ltb (uuid_string (m_CredentialID (c_member left)))
                  (uuid_string (m_CredentialID (c_member right))).

Definition same_group (a b : candidate) : bool :=
  (t_Priority (c_target a) =? t_Priority (c_target b))
  && (m_MemberPriority (c_member a) =? m_MemberPriority (c_member b)).

(** One turn of the grouping loop: [value] joins the last group when it has the
    priorities of its first element. *)
Definition add_to_groups (groups : list (list candidate)) (value : candidate) : list (list candidate) :=
  match last groups with
  | Some (first :: rest) =>
      if same_group first value
      then (take (List.length groups - 1) groups ++ [(first :: rest) ++ [value]])%list
      else (groups ++ [[value]])%list
  | _ => (groups ++ [[value]])%list
  end.

Definition groupCandidates (values : list candidate) : list (list candidate) :=
  foldl add_to_groups [] (SliceStable priority_less values).

Definition candidateLess (left right : candidate) : bool :=
  if negb (m_MemberWeight (c_member left) =? m_MemberWeight (c_member right))
  then m_MemberWeight (c_member right) <? m_MemberWeight (c_member left)
  else String.ltb (uuid_string (m_CredentialID (c_member left)))
                  (uuid_string (m_CredentialID (c_member right))).

(** The comparison of reset times, [otherwise] when it does not decide. *)
Definition reset_less (left right : quotaSnapshot) (otherwise : bool) : bool :=
  match q_ResetAt left, q_ResetAt right with
  | None, None => otherwise
  | None, Some _ => false
  | Some _, None => true
  | Some l, Some r => if negb (l =? r) then Before l r else otherwise
  end.

Definition quotaCandidateLess (request : Request) (left right : candidate) : bool :=
  let lq := m_Quota (c_member left) in
  let rq := m_Quota (c_member right) in
  let leftUsable := quotaUsable lq (rq_Quota request) (rq_Now request) in
  let rightUsable := quotaUsable rq (rq_Quota request) (rq_Now request) in
  if negb (Bool.eqb leftUsable rightUsable) then leftUsable else
  if negb leftUsable then candidateLess left right else
  let by_reset := reset_less lq rq (candidateLess left right) in
  match q_Remaining lq, q_Remaining rq with
  | Some l, Some r => if negb (l =? r) then r <? l else by_reset
  | _, _ => by_reset
  end.

Definition totalWeight (values : list candidate) : Z :=
  let total := foldl (fun total value => i64_add total (c_combinedWeight value)) 0 values in
  if total <? 1 then 1 else total.

Fixpoint weighted_from (index : Z) (values : list candidate) (slot : Z) : Z :=
  match values with
  | [] => 0
  | value :: rest => if slot <? c_combinedWeight value then index
                     else weighted_from (index + 1) rest (i64_sub slot (c_combinedWeight value))
  end.
Definition weightedStart (values : list candidate) (slot : Z) : Z := weighted_from 0 values slot.

Definition rotate (values : list candidate) (start : Z) : list candidate :=
  match values with
  | [] => values
  | _ =>
      let start := Z.rem start (Z.of_nat (List.length values)) in
      if start <=? 0 then values
      else (drop (Z.to_nat start) values ++ take (Z.to_nat start) values)%list
  end.

(** [group[0], group[index] = group[index], group[0]] at the first element with
    the credential. *)
Definition affinity_index (affinityID : uuid) (group : list candidate) : option nat :=
  fst <$> list_find (fun item => m_CredentialID (c_member item) = affinityID) group.
Definition swap_first (index : nat) (group : list candidate) : list candidate :=
  match group !! 0%nat, group !! index with
  | Some first, Some item => <[index := first]> (<[0%nat := item]> group)
  | _, _ => group
  end.

Definition cursorKey (versionID : uuid) (strategy : string) (targetPriority memberPriority : Z) : string :=
  uuid_string versionID +:+ ":" +:+ strategy +:+ ":" +:+ Itoa targetPriority +:+ ":"
  +:+ Itoa memberPriority.

Definition scopedAffinityKey (request : Request) : string :=
  if String.eqb (rq_AffinityKey request) "" then ""
  else uuid_string (VersionID (rq_Resolution request)) +:+ ":" +:+ rq_AffinityKey request.
End ordering.


(** ** The world of one [Select] *)
Class Env (C : Type) := {
  env_now : time;                                        (* the first reading of the clock *)
  env_owner : uuid;                                      (* [uuid.New] *)
  env_decision_id : uuid;                                (* [id.New] *)
  env_call : nat -> Call;                                (* the clock and fault of a call *)
  env_others : nat -> C -> SchedDB -> C * SchedDB        (* other requests before a call *)
}.

Record World (C : Type) := mkWorld { w_coord : C; w_db : SchedDB; w_calls : nat }.
Arguments mkWorld {C}. Arguments w_coord {C}. Arguments w_db {C}. Arguments w_calls {C}.

(** What [Select] returns; a zero [Selection] has no lease. *)
Record Selection := {
  s_Target : option Target;
  s_CredentialID : option uuid;
  s_Lease : option Lease;
  s_Decision : Decision
}.

Section select.
Context {C : Type} `{!Coordinator C, !Env C, UuidText, DecisionGuard}.

Definition sel (A : Type) : Type := st (World C) A.

(** An external call. *)
Definition external {A} (f : Call -> C -> SchedDB -> C * SchedDB * A) : sel A := fun w =>
  let '(c, d) := env_others (w_calls w) (w_coord w) (w_db w) in
  let '(c', d', a) := f (env_call (w_calls w)) c d in
  (mkWorld c' d' (S (w_calls w)), a).
Definition on_coordinator {A} (f : Call -> C -> C * A) : sel A :=
  external (fun call c d => let '(c', a) := f call c in (c', d, a)).
Definition on_database {A} (f : Call -> SchedDB -> SchedDB * A) : sel A :=
  external (fun call c d => let '(d', a) := f call d in (c, d', a)).

(** ** Evaluating the candidates *)
Definition empty_decision (version : string) : Decision :=
  {| d_StrategyVersion := version; d_Candidates := []; d_SelectedTargetID := None;
     d_SelectedCredentialID := None; d_SelectedProviderID := None; d_FallbackChain := [] |}.
Definition with_candidates (cs : list CandidateDecision) (d : Decision) : Decision :=
  {| d_StrategyVersion := d_StrategyVersion d; d_Candidates := cs;
     d_SelectedTargetID := d_SelectedTargetID d; d_SelectedCredentialID := d_SelectedCredentialID d;
     d_SelectedProviderID := d_SelectedProviderID d; d_FallbackChain := d_FallbackChain d |}.
Definition add_candidate (c : CandidateDecision) (d : Decision) : Decision :=
  with_candidates (d_Candidates d ++ [c])%list d.
Definition add_fallback (f : FallbackEntry) (d : Decision) : Decision :=
  {| d_StrategyVersion := d_StrategyVersion d; d_Candidates := d_Candidates d;
     d_SelectedTargetID := d_SelectedTargetID d; d_SelectedCredentialID := d_SelectedCredentialID d;
     d_SelectedProviderID := d_SelectedProviderID d;
     d_FallbackChain := (d_FallbackChain d ++ [f])%list |}.
Definition fallback_reason (reason : string) : FallbackEntry :=
  {| fb_TargetID := None; fb_CredentialID := None; fb_Reason := reason |}.

(** A target that is not expanded into its pool. *)
Definition rejected_target (target : Target) (reasons : list string) : CandidateDecision :=
  {| cd_TargetID := t_ID target; cd_CredentialID := None; cd_TargetPriority := t_Priority target;
     cd_MemberPriority := 0; cd_Weight := t_Weight target; cd_Score := 0; cd_Eligible := false;
     cd_Reasons := reasons; cd_QuotaRemaining := None; cd_QuotaResetAt := None;
     cd_QuotaObservedAt := None |}.

Definition combined_weight (target : Target) (member : poolMember) : Z :=
  let w := i64_mul (t_Weight target) (m_MemberWeight member) in if w <? 1 then 1 else w.

Definition member_decision (request : Request) (target : Target) (member : poolMember) : CandidateDecision :=
  let reasons := memberEligibilityReasons member request in
  {| cd_TargetID := t_ID target; cd_CredentialID := Some (m_CredentialID member);
     cd_TargetPriority := t_Priority target; cd_MemberPriority := m_MemberPriority member;
     cd_Weight := combined_weight target member; cd_Score := i64_sub 1000000 (t_Priority target);
     cd_Eligible := bool_decide (reasons = []); cd_Reasons := reasons;
     cd_QuotaRemaining := q_Remaining (m_Quota member); cd_QuotaResetAt := q_ResetAt (m_Quota member);
     cd_QuotaObservedAt := q_ObservedAt (m_Quota member) |}.

Definition new_candidate (request : Request) (target : Target) (member : poolMember) (index : nat) : candidate :=
  {| c_target := target; c_member := member; c_decision := member_decision request target member;
     c_leaseKey := uuid_string (m_CredentialID member);
     c_combinedWeight := combined_weight target member; c_decisionIndex := index |}.

(** The loop over the members of one pool. *)
Fixpoint evaluate_members (request : Request) (target : Target) (members : list poolMember)
    (acc : Decision * list candidate) : Decision * list candidate :=
  match members with
  | [] => acc
  | member :: rest =>
      let '(decision, eligible) := acc in
      let value := new_candidate request target member (List.length (d_Candidates decision)) in
      evaluate_members request target rest
        (add_candidate (c_decision value) decision,
         if cd_Eligible (c_decision value) then (eligible ++ [value])%list else eligible)
  end.

(** The loop over the targets; a failed pool query ends it with what was
    evaluated so far. *)
Fixpoint evaluate_targets (request : Request) (targets : list Target)
    (acc : Decision * list candidate) : sel (Decision * result error (list candidate)) :=
  match targets with
  | [] => mret (acc.1, Ok acc.2)
  | target :: rest =>
      let '(decision, eligible) := acc in
      let reasons := targetEligibilityReasons target (rq_Protocol request) (rq_RequiredCapabilities request) in
      if negb (bool_decide (reasons = []))
      then evaluate_targets request rest (add_candidate (rejected_target target reasons) decision, eligible)
      else
        members ← on_database (fun call => loadPoolMembers call (t_CredentialPoolID target)
                                 (rq_Quota request) (t_UpstreamModelID target));
        match members with
        | Err e => mret (decision, Err e)
        | Ok [] => evaluate_targets request rest
                     (add_candidate (rejected_target target ["pool_empty"]) decision, eligible)
        | Ok members => evaluate_targets request rest (evaluate_members request target members acc)
        end
  end.

(** ** Ordering, with the cursors *)
Definition group_cursor (request : Request) (group : list candidate) : string :=
  match group with
  | first :: _ => cursorKey (VersionID (rq_Resolution request)) (rq_Strategy request)
                    (t_Priority (c_target first)) (m_MemberPriority (c_member first))
  | [] => ""
  end.

(** The [switch request.Strategy] on one group. *)
Definition order_group (options : Options) (request : Request) (group : list candidate)
  : sel (result error (list candidate)) :=
  let strategy := rq_Strategy request in
  if String.eqb strategy StrategyFillFirst then mret (Ok group)
  else if String.eqb strategy StrategyQuotaAware
  then mret (Ok (SliceStable (quotaCandidateLess request) group))
  else if String.eqb strategy StrategyRoundRobin then
    start ← on_coordinator (fun call => Next call (group_cursor request group)
                              (Z.of_nat (List.length group)) (o_CursorTTL options));
    mret (match start with Ok start => Ok (rotate group start) | Err e => Err e end)
  else if String.eqb strategy StrategyWeightedRoundRobin then
    slot ← on_coordinator (fun call => Next call (group_cursor request group)
                             (totalWeight group) (o_CursorTTL options));
    mret (match slot with Ok slot => Ok (rotate group (weightedStart group slot)) | Err e => Err e end)
  else mret (Err ErrInvalidInput).

Fixpoint order_groups (options : Options) (request : Request) (groups : list (list candidate))
    (ordered : list candidate) : sel (result error (list candidate)) :=
  match groups with
  | [] => mret (Ok ordered)
  | group :: rest =>
      g ← order_group options request group;
      match g with
      | Err e => mret (Err e)
      | Ok group => order_groups options request rest (ordered ++ group)%list
      end
  end.

(** The first group keeps its order when the affine credential was put first. *)
Definition orderCandidates (options : Options) (request : Request) (values : list candidate)
    (affinity : option uuid) : sel (result error (list candidate) * bool) :=
  match groupCandidates values with
  | [] => mret (Ok [], false)
  | first :: rest =>
      match affinity ≫= fun id => affinity_index id first with
      | Some index =>
          ordered ← order_groups options request rest (swap_first index first);
          mret (ordered, true)
      | None =>
          ordered ← order_groups options request (first :: rest) [];
          mret (ordered, false)
      end
  end.

(** ** Leases *)
Inductive attempt := Acquired (lease : Lease) | AllBusy | Failed (e : error).

(** The loop over the slots of one credential, from [slot], for [n] slots. *)
Fixpoint acquire_slots (options : Options) (item : candidate) (n : nat) (slot : Z) : sel attempt :=
  match n with
  | O => mret AllBusy
  | S n' =>
      r ← on_coordinator (fun call => Acquire call (c_leaseKey item +:+ ":" +:+ Itoa slot)
                            (uuid_string (env_owner (C:=C))) (o_LeaseTTL options));
      match r with
      | Ok lease => mret (Acquired lease)
      | Err ErrLeaseBusy => acquire_slots options item n' (slot + 1)
      | Err e => mret (Failed e)
      end
  end.

(** [decision.Candidates[i].Eligible = false] and one more reason. *)
Definition mark (index : nat) (reason : string) (d : Decision) : Decision :=
  with_candidates (alter (fun c =>
    {| cd_TargetID := cd_TargetID c; cd_CredentialID := cd_CredentialID c;
       cd_TargetPriority := cd_TargetPriority c; cd_MemberPriority := cd_MemberPriority c;
       cd_Weight := cd_Weight c; cd_Score := cd_Score c; cd_Eligible := false;
       cd_Reasons := (cd_Reasons c ++ [reason])%list; cd_QuotaRemaining := cd_QuotaRemaining c;
       cd_QuotaResetAt := cd_QuotaResetAt c; cd_QuotaObservedAt := cd_QuotaObservedAt c |})
    index (d_Candidates d)) d.
Definition skipped (item : candidate) (reason : string) (d : Decision) : Decision :=
  add_fallback {| fb_TargetID := Some (t_ID (c_target item));
                  fb_CredentialID := Some (m_CredentialID (c_member item)); fb_Reason := reason |}
    (mark (c_decisionIndex item) reason d).

(** The loop over the ordered candidates. *)
Fixpoint acquire_first (options : Options) (ordered : list candidate) (decision : Decision)
  : sel (Decision * result error (option (candidate * Lease))) :=
  match ordered with
  | [] => mret (decision, Ok None)
  | item :: rest =>
      a ← acquire_slots options item (Z.to_nat (m_MaxConcurrency (c_member item))) 0;
      match a with
      | Acquired lease => mret (decision, Ok (Some (item, lease)))
      | AllBusy => acquire_first options rest (skipped item "concurrency_lease_busy" decision)
      | Failed e => mret (skipped item "concurrency_state_unavailable" decision, Err e)
      end
  end.

(** ** [Select] *)
Definition refused (decision : Decision) (e : error) : Selection * option error :=
  ({| s_Target := None; s_CredentialID := None; s_Lease := None; s_Decision := decision |}, Some e).

Definition record_decision (request : Request) (decision : Decision) : sel (result error unit) :=
  on_database (fun call => RecordDecision (env_decision_id (C:=C)) call request decision).

(** [if recordErr := ...; recordErr != nil { return recordErr }; return e]. *)
Definition record_refusal (request : Request) (decision : Decision) (e : error)
  : sel (Selection * option error) :=
  r ← record_decision request decision;
  mret (match r with Err recordErr => refused decision recordErr | Ok _ => refused decision e end).

Definition readAffinity (key : string) : sel (result error (option uuid)) :=
  if String.eqb key "" then mret (Ok None) else on_coordinator (fun call => GetAffinity call key).

Definition with_selected (item : candidate) (d : Decision) : Decision :=
  {| d_StrategyVersion := d_StrategyVersion d; d_Candidates := d_Candidates d;
     d_SelectedTargetID := Some (t_ID (c_target item));
     d_SelectedCredentialID := Some (m_CredentialID (c_member item));
     d_SelectedProviderID := Some (t_ProviderID (c_target item));
     d_FallbackChain := d_FallbackChain d |}.

(** The affinity binding of the selected credential; a failure is only noted. *)
Definition bind_affinity (options : Options) (key : string) (item : candidate) (decision : Decision)
  : sel Decision :=
  if String.eqb key "" then mret decision else
  r ← on_coordinator (fun call => SetAffinity call key (m_CredentialID (c_member item))
                        (o_AffinityTTL options));
  mret (match r with
        | Err _ => add_fallback (fallback_reason "affinity_state_unavailable") decision
        | Ok _ => decision
        end).

(** From the acquired lease to the returned selection: the lease is released when
    the decision cannot be recorded. *)
Definition finish_selection (options : Options) (request : Request) (affinityState : string)
    (item : candidate) (lease : Lease) (decision : Decision) : sel (Selection * option error) :=
  decision ← bind_affinity options affinityState item (with_selected item decision);
  r ← record_decision request decision;
  match r with
  | Err e =>
      on_coordinator (fun call c =>
        let '(c', _, res) := Release (without_cancel call) lease c in (c', res));;
      mret (refused decision e)
  | Ok _ =>
      mret ({| s_Target := Some (c_target item); s_CredentialID := Some (m_CredentialID (c_member item));
               s_Lease := Some lease; s_Decision := decision |}, None)
  end.

(** [Select] after the candidates were evaluated. *)
Definition select_eligible (options : Options) (request : Request) (eligible : list candidate)
    (decision : Decision) : sel (Selection * option error) :=
  let affinityState := scopedAffinityKey request in
  a ← readAffinity affinityState;
  let decision := match a with
                  | Err _ => add_fallback (fallback_reason "affinity_state_unavailable") decision
                  | Ok _ => decision end in
  let affinity := match a with Ok o => o | Err _ => None end in
  '(ordering, affinityUsed) ← orderCandidates options request eligible affinity;
  match ordering with
  | Err e => record_refusal request (add_fallback (fallback_reason "cursor_state_unavailable") decision) e
  | Ok ordered =>
      let decision := match affinity with
        | Some id => if affinityUsed : bool then decision else
            add_fallback {| fb_TargetID := None; fb_CredentialID := Some id;
                            fb_Reason := "affinity_unavailable" |} decision
        | None => decision end in
      '(decision, acquired) ← acquire_first options ordered decision;
      match acquired with
      | Err e => record_refusal request decision e
      | Ok None => record_refusal request decision ErrNoEligible
      | Ok (Some (item, lease)) => finish_selection options request affinityState item lease decision
      end
  end.

Definition Select (options : Options) (request : Request) : sel (Selection * option error) :=
  match normalizeRequest request (o_QuotaMaxAge options) (env_now (C:=C)) with
  | Err e => mret (refused (empty_decision "") e)
  | Ok request =>
      '(decision, evaluated) ← evaluate_targets request (Candidates (rq_Resolution request))
            (empty_decision (strategyVersionBase +:+ "/" +:+ rq_Strategy request), []);
      match evaluated with
      | Err e => mret (refused decision e)
      | Ok [] => record_refusal request decision ErrNoEligible
      | Ok eligible => select_eligible options request eligible decision
      end
  end.
End select.

End Scheduler.
