(* ===== verification/SchedulerOrder.v ===== *)
(** * Properties of the ordering of candidates

    The stable sort, the groups, the rotations, and the shares of the weighted
    round robin. *)

From stdpp Require Import base gmap strings list list_numbers sorting.
From Stdlib Require Import ZArith Lia Ascii String.
From S2P Require Import Prelude GoLib SchedulerModel Coordinator SchedulerRepo Scheduler.

Module SchedulerOrder.
Import Sched Coordinator SchedulerRepo Scheduler.

(** ** [SliceStable] *)
Section sort.
Context {A : Type} (less : A -> A -> bool).

Lemma insert_before_Permutation x l : insert_before less x l ≡ₚ x :: l.
Proof.
  induction l as [|y l IH]; simpl; [done|]. destruct (less x y); [|done].
  rewrite IH. apply Permutation_swap.
Qed.

Lemma SliceStable_Permutation l : SliceStable less l ≡ₚ l.
Proof.
  unfold SliceStable. rewrite reverse_Permutation.
  enough (forall acc, foldl (fun acc x => insert_before less x acc) acc l ≡ₚ (acc ++ l)%list) as H
    by (by rewrite H).
  induction l as [|x l IH]; intros acc; simpl; [by rewrite app_nil_r|].
  rewrite IH, insert_before_Permutation. simpl. by rewrite Permutation_middle.
Qed.

(** The result is ordered by every transitive relation that contains [less] and
    the converse of its complement. *)
Context (R : A -> A -> Prop) (Rtrans : Transitive R).
Hypothesis less_R : forall x y, less x y = true -> R x y.
Hypothesis not_less_R : forall x y, less x y = false -> R y x.

Lemma insert_before_sorted x l :
  StronglySorted (flip R) l -> StronglySorted (flip R) (insert_before less x l).
Proof.
  induction 1 as [|y l Hs IH Hy]; simpl; [by repeat constructor|].
  destruct (less x y) eqn:Hl.
  - constructor; [done|]. rewrite insert_before_Permutation. constructor; [by apply less_R|done].
  - apply not_less_R in Hl. constructor; [by constructor|]. constructor; [done|].
    eapply Forall_impl; [exact Hy|]. intros z Hz. simpl in *. by transitivity y.
Qed.

Lemma StronglySorted_reverse l : StronglySorted (flip R) l -> StronglySorted R (reverse l).
Proof.
  induction 1 as [|x l Hs IH Hx]; [by constructor|]. rewrite reverse_cons.
  apply StronglySorted_app_2; [|done|by repeat constructor].
  intros y z Hy Hz. rewrite elem_of_reverse in Hy. apply list_elem_of_singleton in Hz as ->.
  rewrite Forall_forall in Hx. exact (Hx y Hy).
Qed.

Lemma SliceStable_sorted l : StronglySorted R (SliceStable less l).
Proof.
  unfold SliceStable. apply StronglySorted_reverse.
  enough (forall acc, StronglySorted (flip R) acc ->
    StronglySorted (flip R) (foldl (fun acc x => insert_before less x acc) acc l)) as H
    by (apply H; constructor).
  induction l as [|x l IH]; intros acc Hacc; simpl; [done|].
  by apply IH, insert_before_sorted.
Qed.
End sort.

(** ** Groups *)

(** [a] comes no later than [b] by target priority, then by member priority. *)
Definition group_le (a b : candidate) : Prop :=
  t_Priority (c_target a) < t_Priority (c_target b)
  \/ (t_Priority (c_target a) = t_Priority (c_target b)
      /\ m_MemberPriority (c_member a) <= m_MemberPriority (c_member b)).

#[export] Instance group_le_trans : Transitive group_le.
Proof. intros x y z. unfold group_le. lia. Qed.
#[export] Instance group_le_refl : Reflexive group_le.
Proof. intros x. unfold group_le. lia. Qed.

Lemma same_group_le a b : same_group a b = true -> group_le a b /\ group_le b a.
Proof. unfold same_group, group_le. rewrite andb_true_iff, !Z.eqb_eq. lia. Qed.

Section groups.
Context `{UuidText}.

Lemma priority_less_true a b : priority_less a b = true -> group_le a b.
Proof.
  unfold priority_less, group_le. repeat case_match; intros; bools; lia.
Qed.
Lemma priority_less_false a b : priority_less a b = false -> group_le b a.
Proof.
  unfold priority_less, group_le. repeat case_match; intros; bools; lia.
Qed.

(** The elements of a group have the same priorities. *)
Definition uniform (group : list candidate) : Prop :=
  group <> [] /\ forall a b, a ∈ group -> b ∈ group -> group_le a b.

Lemma add_to_groups_concat groups value :
  Forall (fun g => g <> []) groups ->
  List.concat (add_to_groups groups value) = (List.concat groups ++ [value])%list.
Proof.
  intros Hne. unfold add_to_groups. destruct (last groups) as [g|] eqn:Hl.
  - apply last_Some in Hl as [gs ->]. destruct g as [|first rest].
    { rewrite Forall_app in Hne. destruct Hne as [_ Hne]. rewrite Forall_singleton in Hne. by destruct Hne. }
    destruct (same_group first value).
    + rewrite length_app. simpl List.length.
      replace (List.length gs + 1 - 1)%nat with (List.length gs) by lia. rewrite take_app_length.
      rewrite !concat_app. simpl. rewrite !app_nil_r, <- app_assoc. done.
    + rewrite !concat_app. simpl. done.
  - rewrite concat_app. done.
Qed.

Lemma add_to_groups_uniform groups value :
  Forall uniform groups -> Forall uniform (add_to_groups groups value).
Proof.
  intros Hu. unfold add_to_groups.
  assert (uniform [value]) as Hv.
  { split; [done|]. intros a b ->%list_elem_of_singleton ->%list_elem_of_singleton. done. }
  destruct (last groups) as [[|first rest]|] eqn:Hl;
    [apply Forall_app; auto| |apply Forall_app; auto].
  destruct (same_group first value) eqn:Hs; [|apply Forall_app; auto].
  apply last_Some in Hl as [gs ->]. apply Forall_app in Hu as [Hgs Hg]. apply Forall_inv in Hg.
  rewrite length_app. simpl List.length.
  replace (List.length gs + 1 - 1)%nat with (List.length gs) by lia. rewrite take_app_length.
  apply Forall_app. split; [done|]. apply Forall_singleton. split; [done|].
  destruct Hg as [_ Hg]. apply same_group_le in Hs as [Hs1 Hs2].
  assert (forall a, a ∈ (first :: rest ++ [value])%list -> group_le first a /\ group_le a first) as Hf.
  { intros a Ha. change (first :: rest ++ [value])%list with ((first :: rest) ++ [value])%list in Ha.
    apply elem_of_app in Ha as [Ha | ->%list_elem_of_singleton]; [|done].
    split; apply Hg; (done || apply list_elem_of_here). }
  intros a b Ha Hb. transitivity first; [by apply Hf|by apply Hf].
Qed.

Lemma groupCandidates_concat values :
  List.concat (groupCandidates values) = SliceStable priority_less values
  /\ Forall uniform (groupCandidates values).
Proof.
  unfold groupCandidates. generalize (SliceStable priority_less values). intros l.
  induction l as [|x l [IHc IHu]] using rev_ind; [done|].
  rewrite foldl_app. simpl. split; [|by apply add_to_groups_uniform].
  rewrite add_to_groups_concat, IHc; [done|].
  eapply Forall_impl; [exact IHu|]. by intros g [? _].
Qed.

Lemma groupCandidates_sorted values : StronglySorted group_le (List.concat (groupCandidates values)).
Proof.
  rewrite (proj1 (groupCandidates_concat values)).
  apply SliceStable_sorted; [apply _|apply priority_less_true|apply priority_less_false].
Qed.

Lemma groupCandidates_perm values : List.concat (groupCandidates values) ≡ₚ values.
Proof.
  rewrite (proj1 (groupCandidates_concat values)). apply SliceStable_Permutation.
Qed.
End groups.

(** ** Permutations of a group *)
Lemma rotate_Permutation values start : rotate values start ≡ₚ values.
Proof.
  unfold rotate. destruct values as [|x l]; [done|]. cbv zeta. case_match; [done|].
  rewrite (Permutation_app_comm (drop _ _)). by rewrite take_drop.
Qed.

Lemma swap_first_spec index group first :
  group !! index = Some first ->
  swap_first index group ≡ₚ group /\ head (swap_first index group) = Some first.
Proof.
  intros Hi. unfold swap_first. destruct group as [|x l]; [done|]. simpl. rewrite Hi.
  destruct index as [|index]; simpl in *; [by injection Hi as ->|]. split; [|done].
  apply list_elem_of_split_length in Hi as (l1 & l2 & -> & ->).
  rewrite insert_app_r_alt, Nat.sub_diag by done. simpl.
  rewrite <- !Permutation_middle. apply Permutation_swap.
Qed.

Lemma affinity_index_Some id group index :
  affinity_index id group = Some index ->
  exists item, group !! index = Some item /\ m_CredentialID (c_member item) = id.
Proof.
  unfold affinity_index. intros ([i item] & (Hi & Hid & _)%list_find_Some & ->)%fmap_Some.
  by exists item.
Qed.

(** Reordering inside groups keeps the order between groups. *)
Lemma regrouped_sorted groups groups' :
  Forall2 (≡ₚ) groups groups' -> Forall uniform groups ->
  StronglySorted group_le (List.concat groups) -> StronglySorted group_le (List.concat groups').
Proof.
  induction 1 as [|g g' gs gs' Hg Hgs IH]; [done|].
  intros [Hu Hus]%Forall_cons. simpl. rewrite !StronglySorted_app. intros (Hx & Hs & Hss).
  split_and!; [|clear Hx Hs|by apply IH].
  - intros x y Hx' Hy'. apply Hx; [by rewrite Hg|].
    assert (List.concat gs ≡ₚ List.concat gs') as ->; [|done].
    clear - Hgs. induction Hgs as [|?????? IH]; [done|]. simpl. by apply Permutation_app.
  - destruct Hu as [_ Hu].
    assert (forall a b, a ∈ g' -> b ∈ g' -> group_le a b) as Hu'
      by (intros a b; rewrite <- Hg; apply Hu).
    clear - Hu'. induction g' as [|x l IH]; [constructor|]. constructor.
    + apply IH. intros a b Ha Hb. apply Hu'; by apply list_elem_of_further.
    + apply Forall_forall. intros y Hy. apply Hu'; [apply list_elem_of_here|by apply list_elem_of_further].
Qed.

Lemma concat_Permutation {A} (gs gs' : list (list A)) :
  Forall2 (≡ₚ) gs gs' -> List.concat gs ≡ₚ List.concat gs'.
Proof. induction 1; [done|]. simpl. by apply Permutation_app. Qed.

(** ** [orderCandidates] *)
Section order.
Context {C : Type} `{!Coordinator C, !Env C, UuidText, DecisionGuard}.

Lemma order_group_perm options request group (w w' : World C) group' :
  order_group options request group w = (w', Ok group') -> group' ≡ₚ group.
Proof.
  unfold order_group. repeat case_match.
  - by intros [= _ <-].
  - intros [= _ <-]. apply SliceStable_Permutation.
  - intros (w1 & [start|e] & _ & Hr)%st_bind_run; [|done]. injection Hr as _ <-.
    apply rotate_Permutation.
  - intros (w1 & [slot|e] & _ & Hr)%st_bind_run; [|done]. injection Hr as _ <-.
    apply rotate_Permutation.
  - done.
Qed.

Lemma order_groups_perm options request groups : forall acc (w w' : World C) ordered,
  order_groups options request groups acc w = (w', Ok ordered) ->
  exists groups', Forall2 (≡ₚ) groups groups' /\ ordered = (acc ++ List.concat groups')%list.
Proof.
  induction groups as [|g gs IH]; intros acc w w' ordered; simpl.
  { intros [= _ <-]. exists []. by rewrite app_nil_r. }
  intros (w1 & [g'|e] & Hg & Hr)%st_bind_run; [|done].
  apply order_group_perm in Hg. apply IH in Hr as (gs' & Hgs & ->).
  exists (g' :: gs'). split; [by constructor|]. simpl. by rewrite app_assoc.
Qed.

(** the order in which credentials are tried is a reordering of the eligible
    ones, none lost and none added, that never tries a later priority before an
    earlier one, whatever the strategy; when the affine credential is used it comes
    first of all. *)
Theorem orderCandidates_respects_priorities options request values affinity (w w' : World C) ordered used :
  orderCandidates options request values affinity w = (w', (Ok ordered, used)) ->
  ordered ≡ₚ values /\ StronglySorted group_le ordered
  /\ (used = true -> exists id first, affinity = Some id /\ head ordered = Some first
        /\ m_CredentialID (c_member first) = id).
Proof.
  unfold orderCandidates. intros Ho.
  pose proof (groupCandidates_perm values) as Hperm.
  pose proof (groupCandidates_sorted values) as Hsort.
  destruct (groupCandidates_concat values) as [_ Hu].
  assert (forall gs', Forall2 (≡ₚ) (groupCandidates values) gs' ->
    List.concat gs' ≡ₚ values /\ StronglySorted group_le (List.concat gs')) as Hfin.
  { intros gs' Hgs. split; [by rewrite <- (concat_Permutation _ _ Hgs)|by eapply regrouped_sorted]. }
  destruct (groupCandidates values) as [|g gs] eqn:Hg.
  { injection Ho as _ <- <-. destruct (Hfin []) as [? ?]; [done|]. done. }
  destruct (affinity ≫= _) as [index|] eqn:Ha.
  - apply bind_Some in Ha as (id & -> & (item & Hitem & Hid)%affinity_index_Some).
    apply swap_first_spec in Hitem as [Hswap Hhd].
    apply st_bind_run in Ho as (w1 & r & Hr & Ho). injection Ho as _ -> <-.
    apply order_groups_perm in Hr as (gs' & Hgs & ->).
    destruct (Hfin (swap_first index g :: gs')) as [Hp Hs]; [by constructor|].
    split; [exact Hp|]. split; [exact Hs|]. intros _. exists id, item. split; [done|]. split; [|done].
    by destruct (swap_first index g).
  - apply st_bind_run in Ho as (w1 & r & Hr & Ho). injection Ho as _ -> <-.
    apply order_groups_perm in Hr as (gs' & Hgs & ->).
    destruct (Hfin gs' Hgs) as [Hp Hs]. split; [done|]. split; [done|]. done.
Qed.
End order.

(** ** The shares of the weighted round robin *)

(** How many of the slots [0 .. n-1] satisfy [p]. *)
Definition slots_with (n : Z) (p : Z -> bool) : Z :=
  Z.of_nat (List.length (filter (fun s => p s = true) (seqZ 0 n))).

Definition weights_ok (values : list candidate) : Prop :=
  Forall (fun c => 1 <= c_combinedWeight c) values /\ lsum c_combinedWeight values <= max_int64.

Lemma filter_length_ext {A} (p q : A -> bool) l :
  (forall x, x ∈ l -> p x = q x) ->
  List.length (filter (fun x => p x = true) l) = List.length (filter (fun x => q x = true) l).
Proof.
  induction l as [|x l IH]; intros Hpq; [done|]. rewrite !filter_cons.
  rewrite (Hpq x) by apply list_elem_of_here.
  assert (List.length (filter (fun x => p x = true) l) = List.length (filter (fun x => q x = true) l))
    as IH' by (apply IH; intros; apply Hpq; by apply list_elem_of_further).
  by destruct (decide (q x = true)); simpl; rewrite IH'.
Qed.

Lemma slots_with_ext n p q : (forall s, 0 <= s < n -> p s = q s) -> slots_with n p = slots_with n q.
Proof.
  intros Hpq. unfold slots_with. f_equal. apply filter_length_ext.
  intros s Hs%elem_of_seqZ. apply Hpq. lia.
Qed.

Lemma slots_with_all n : 0 <= n -> slots_with n (fun _ => true) = n.
Proof.
  intros Hn. unfold slots_with. rewrite <- (Z2Nat.id n) at 2 by done.
  rewrite <- (length_seqZ 0 n). f_equal.
  induction (seqZ 0 n) as [|x l IH]; [done|]. rewrite filter_cons_True by done. simpl. by rewrite IH.
Qed.
Lemma slots_with_none n : slots_with n (fun _ => false) = 0.
Proof.
  unfold slots_with. change 0 with (Z.of_nat 0) at 2. f_equal.
  induction (seqZ 0 n) as [|x l IH]; [done|]. by rewrite filter_cons_False.
Qed.

Lemma slots_with_split a b p : 0 <= a -> 0 <= b ->
  slots_with (a + b) p = slots_with a p + slots_with b (fun s => p (a + s)).
Proof.
  intros Ha Hb. unfold slots_with. rewrite seqZ_app by done. rewrite filter_app, length_app.
  rewrite Nat2Z.inj_add. f_equal. f_equal.
  replace (seqZ (0 + a) b) with (Z.add a <$> seqZ 0 b) by (rewrite fmap_add_seqZ; f_equal; lia).
  induction (seqZ 0 b) as [|x l IH]; [done|]. rewrite fmap_cons, !filter_cons.
  by destruct (decide (p (a + x) = true)); simpl; rewrite IH.
Qed.

Lemma lsum_weights_nonneg values :
  Forall (fun c => 1 <= c_combinedWeight c) values -> 0 <= lsum c_combinedWeight values.
Proof. intros Hw. apply lsum_nonneg. intros c Hc. rewrite Forall_forall in Hw. specialize (Hw c Hc). lia. Qed.

Lemma weighted_from_ge values : forall index slot,
  0 <= slot < lsum c_combinedWeight values -> weights_ok values ->
  index <= weighted_from index values slot.
Proof.
  induction values as [|c values IH]; intros index slot Hs [Hw Hmax]; simpl.
  { rewrite lsum_nil in Hs. lia. }
  apply Forall_cons in Hw as [Hc Hw]. rewrite lsum_cons in *.
  pose proof (lsum_weights_nonneg _ Hw). destruct (Z.ltb_spec slot (c_combinedWeight c)); [lia|].
  rewrite i64_sub_id by i64_side. etrans; [|apply IH; [lia|split; [done|lia]]]. lia.
Qed.

Lemma weighted_shares_from values : forall index i c,
  weights_ok values -> values !! i = Some c ->
  slots_with (lsum c_combinedWeight values)
    (fun s => weighted_from index values s =? index + Z.of_nat i) = c_combinedWeight c.
Proof.
  induction values as [|x values IH]; intros index i c [Hw Hmax] Hi; [done|].
  apply Forall_cons in Hw as [Hx Hw]. rewrite lsum_cons in *.
  pose proof (lsum_weights_nonneg _ Hw) as Hn. rewrite slots_with_split by lia.
  assert (weights_ok values) as Hok by (split; [done|lia]).
  destruct i as [|i].
  - injection Hi as ->. rewrite (slots_with_ext _ _ (fun _ => true)).
    2:{ intros s Hs. simpl. rewrite (proj2 (Z.ltb_lt _ _)) by lia. apply Z.eqb_eq. lia. }
    rewrite slots_with_all by lia. rewrite (slots_with_ext _ _ (fun _ => false)).
    2:{ intros s Hs. simpl. rewrite (proj2 (Z.ltb_ge _ _)) by lia.
        rewrite i64_sub_id by i64_side. apply Z.eqb_neq.
        replace (c_combinedWeight c + s - c_combinedWeight c) with s by lia.
        pose proof (weighted_from_ge values (index + 1) s Hs Hok). lia. }
    rewrite slots_with_none. lia.
  - rewrite (slots_with_ext _ _ (fun _ => false)).
    2:{ intros s Hs. simpl weighted_from. rewrite (proj2 (Z.ltb_lt _ _)) by lia. apply Z.eqb_neq. lia. }
    rewrite slots_with_none. rewrite <- (IH (index + 1) i c Hok Hi). rewrite Z.add_0_l.
    apply slots_with_ext. intros s Hs. simpl weighted_from.
    rewrite (proj2 (Z.ltb_ge _ _)) by lia. rewrite i64_sub_id by i64_side.
    replace (c_combinedWeight x + s - c_combinedWeight x) with s by lia.
    apply Bool.eq_iff_eq_true. rewrite !Z.eqb_eq. lia.
Qed.

Lemma totalWeight_spec values : values <> [] -> weights_ok values ->
  totalWeight values = lsum c_combinedWeight values.
Proof.
  intros Hne [Hw Hmax]. unfold totalWeight.
  assert (forall acc l, 0 <= acc -> Forall (fun c => 1 <= c_combinedWeight c) l ->
    acc + lsum c_combinedWeight l <= max_int64 ->
    foldl (fun total value => i64_add total (c_combinedWeight value)) acc l
    = acc + lsum c_combinedWeight l) as Hf.
  { intros acc l. revert acc. induction l as [|c l IH]; intros acc Ha Hl Hm; cbn [foldl].
    - rewrite lsum_nil. lia.
    - apply Forall_cons in Hl as [Hc Hl]. rewrite lsum_cons in *.
      pose proof (lsum_weights_nonneg _ Hl). rewrite i64_add_id by i64_side.
      rewrite IH by (done || lia). lia. }
  rewrite Hf by (done || lia). rewrite Z.add_0_l.
  destruct values as [|c values]; [done|]. apply Forall_cons in Hw as [Hc Hw].
  rewrite lsum_cons. pose proof (lsum_weights_nonneg _ Hw).
  by rewrite (proj2 (Z.ltb_ge _ _)) by lia.
Qed.

(** the weighted round robin serves each credential in proportion to its
    weight: of the [totalWeight] slots of one turn of the cursor, exactly
    [combinedWeight] put a given candidate of the group first. *)
Theorem weighted_round_robin_shares values i c :
  weights_ok values -> values !! i = Some c ->
  totalWeight values = lsum c_combinedWeight values
  /\ slots_with (totalWeight values) (fun slot => weightedStart values slot =? Z.of_nat i)
     = c_combinedWeight c
  /\ (forall slot, weightedStart values slot = Z.of_nat i -> head (rotate values (weightedStart values slot)) = Some c).
Proof.
  intros Hok Hi. rewrite totalWeight_spec; [|by intros ->|done]. split; [done|]. split.
  - apply (weighted_shares_from values 0 i c Hok Hi).
  - intros slot ->. apply lookup_lt_Some in Hi as Hlt. unfold rotate.
    destruct values as [|x l] eqn:Hv; [done|]. rewrite <- Hv in *. cbv zeta.
    rewrite Z.rem_small by lia. destruct (Z.leb_spec (Z.of_nat i) 0).
    + assert (i = 0%nat) as -> by lia. subst. by injection Hi as ->.
    + rewrite Nat2Z.id, (drop_S _ _ _ Hi). done.
Qed.
End SchedulerOrder.
