(* ===== verification/SchedulerProofs.v ===== *)
(** * Eligibility and normalisation

    What a target and a pool member must satisfy to be eligible, what
    [normalizeRequest] guarantees, and the order of the quota-aware strategy. *)

From stdpp Require Import base gmap strings list.
From Stdlib Require Import ZArith Lia Ascii String.
From S2P Require Import Prelude GoLib SchedulerModel Coordinator SchedulerRepo Scheduler.

Module SchedulerProofs.
Import Sched Coordinator SchedulerRepo Scheduler.

(** ** Reasons *)
Lemma when_nil b r : when b r = [] <-> b = false.
Proof. unfold when. by destruct b. Qed.
Lemma app_nil_iff {A} (l1 l2 : list A) : (l1 ++ l2)%list = [] <-> l1 = [] /\ l2 = [].
Proof. destruct l1; naive_solver. Qed.
Lemma guard_eqb s t : negb (String.eqb s "") && negb (String.eqb t s) = false <-> s = "" \/ t = s.
Proof. rewrite andb_false_iff, !negb_false_iff, !String.eqb_eq. done. Qed.

(** [available] has every capability of [required]. *)
Definition capable (available required : Capabilities) : Prop :=
  (Chat required = true -> Chat available = true)
  /\ (Responses required = true -> Responses available = true)
  /\ (Messages required = true -> Messages available = true)
  /\ (Stream required = true -> Stream available = true)
  /\ (Tools required = true -> Tools available = true)
  /\ (Vision required = true -> Vision available = true)
  /\ (Reasoning required = true -> Reasoning available = true).

Lemma requires_spec (required available : bool) :
  negb required || available = true <-> (required = true -> available = true).
Proof. destruct required, available; naive_solver. Qed.

Lemma supportsRequired_spec a r : supportsRequired a r = true <-> capable a r.
Proof.
  unfold supportsRequired, capable. rewrite !andb_true_iff, !requires_spec. tauto.
Qed.

Definition target_usable (target : Target) (protocol : string) (required : Capabilities) : Prop :=
  t_Enabled target = true /\ t_ProviderModelEnabled target = true
  /\ t_ReviewStatus target = ReviewApproved /\ t_PoolEnabled target = true
  /\ t_ProviderResourceType target <> ResourceSubscription
  /\ t_ProviderCommercialAllowed target = true /\ t_EffectiveCommercialAllowed target = true
  /\ (protocol = "" \/ t_Protocol target = protocol)
  /\ capable (t_Capabilities target) required.

(** The snapshot is known and its window is the current one. *)
Definition quota_current (snapshot : quotaSnapshot) (policy : QuotaPolicy) (now : time) : Prop :=
  q_Found snapshot = true
  /\ (exists observed, q_ObservedAt snapshot = Some observed /\ observed <= now
        /\ Sub now observed <= qp_MaxAge policy)
  /\ (forall reset, q_ResetAt snapshot = Some reset -> now < reset).

Definition member_usable (member : poolMember) (request : Request) : Prop :=
  m_Enabled member = true /\ m_ProviderEnabled member = true
  /\ m_Status member = CredentialActive /\ 1 <= m_MaxConcurrency member
  /\ (forall t, m_CooldownUntil member = Some t -> t <= rq_Now request)
  /\ (rq_Region request = "" \/ m_Region member = rq_Region request)
  /\ (rq_RequireProxy request = true -> m_ProxyRef member <> "")
  /\ (rq_ProxyRef request = "" \/ m_ProxyRef member = rq_ProxyRef request)
  /\ (qp_Enabled (rq_Quota request) = true ->
        (qp_RequireFresh (rq_Quota request) = true ->
           quota_current (m_Quota member) (rq_Quota request) (rq_Now request))
        /\ (quota_current (m_Quota member) (rq_Quota request) (rq_Now request) ->
            forall n, q_Remaining (m_Quota member) = Some n -> qp_RequiredTokens (rq_Quota request) <= n)).

Lemma targetEligibilityReasons_nil target protocol required :
  targetEligibilityReasons target protocol required = [] <-> target_usable target protocol required.
Proof.
  unfold targetEligibilityReasons, target_usable.
  rewrite !app_nil_iff, !when_nil, !orb_false_iff, guard_eqb, !negb_false_iff,
    String.eqb_eq, String.eqb_neq, supportsRequired_spec. tauto.
Qed.

Lemma observation_stale_false now observed maxAge :
  observation_stale now observed maxAge = false <-> observed <= now /\ Sub now observed <= maxAge.
Proof. unfold observation_stale, Before. rewrite orb_false_iff, !Z.ltb_ge. done. Qed.

Lemma quotaUsable_spec snapshot policy now :
  quotaUsable snapshot policy now = true <-> quota_current snapshot policy now.
Proof.
  unfold quotaUsable, quota_current. destruct (q_Found snapshot); [|naive_solver].
  destruct (q_ObservedAt snapshot) as [o|]; [|naive_solver].
  destruct (observation_stale now o (qp_MaxAge policy)) eqn:Hs.
  - split; [done|]. intros (_ & (o' & [= <-] & Ho) & _).
    by rewrite (proj2 (observation_stale_false _ _ _) Ho) in Hs.
  - apply observation_stale_false in Hs. unfold After.
    destruct (q_ResetAt snapshot) as [r|]; [rewrite Z.ltb_lt|]; naive_solver.
Qed.

Lemma quotaEligibilityReasons_nil snapshot policy now :
  quotaEligibilityReasons snapshot policy now = [] <->
  (qp_RequireFresh policy = true -> quota_current snapshot policy now)
  /\ (quota_current snapshot policy now ->
      forall n, q_Remaining snapshot = Some n -> qp_RequiredTokens policy <= n).
Proof.
  rewrite <- quotaUsable_spec. unfold quotaEligibilityReasons, quotaUsable.
  destruct (if q_Found snapshot then q_ObservedAt snapshot else None) as [o|].
  2:{ rewrite when_nil. destruct (qp_RequireFresh policy); naive_solver. }
  destruct (observation_stale now o (qp_MaxAge policy)); simpl.
  { destruct (qp_RequireFresh policy); naive_solver. }
  assert (forall n, (n <? qp_RequiredTokens policy) = false <-> qp_RequiredTokens policy <= n) as Hn
    by (intros; apply Z.ltb_ge).
  destruct (q_ResetAt snapshot) as [r|]; simpl.
  - destruct (After r now); simpl; destruct (qp_RequireFresh policy); simpl; try naive_solver;
      rewrite when_nil; destruct (q_Remaining snapshot); rewrite ?Hn; naive_solver.
  - rewrite when_nil. destruct (q_Remaining snapshot); rewrite ?Hn; naive_solver.
Qed.

Lemma memberEligibilityReasons_nil member request :
  memberEligibilityReasons member request = [] <-> member_usable member request.
Proof.
  unfold memberEligibilityReasons, member_usable.
  rewrite !app_nil_iff, !when_nil, !guard_eqb, !negb_false_iff, String.eqb_eq, Z.ltb_ge.
  assert (opt_after (m_CooldownUntil member) (rq_Now request) = false
    <-> forall t, m_CooldownUntil member = Some t -> t <= rq_Now request) as ->.
  { unfold opt_after, After. destruct (m_CooldownUntil member) as [t|]; [rewrite Z.ltb_ge|]; naive_solver. }
  assert (rq_RequireProxy request && String.eqb (m_ProxyRef member) "" = false
    <-> (rq_RequireProxy request = true -> m_ProxyRef member <> "")) as ->.
  { rewrite andb_false_iff, String.eqb_neq. destruct (rq_RequireProxy request); naive_solver. }
  assert ((if qp_Enabled (rq_Quota request)
           then quotaEligibilityReasons (m_Quota member) (rq_Quota request) (rq_Now request)
           else []) = [] <-> (qp_Enabled (rq_Quota request) = true ->
             quotaEligibilityReasons (m_Quota member) (rq_Quota request) (rq_Now request) = [])) as ->.
  { destruct (qp_Enabled (rq_Quota request)); naive_solver. }
  rewrite quotaEligibilityReasons_nil. tauto.
Qed.

(** eligibility is exact: a target has no reason against it exactly when it
    is enabled, approved, allowed for commercial use, not a subscription, of the
    requested protocol and capable of the request; a member exactly when it is
    enabled and active with capacity, out of cooldown, in the requested region
    behind the requested proxy, and, under an enabled quota policy, its snapshot is
    current when freshness is required and a current snapshot leaves enough
    tokens. *)
Theorem eligibility_is_exact target protocol required member request :
  (targetEligibilityReasons target protocol required = [] <-> target_usable target protocol required)
  /\ (memberEligibilityReasons member request = [] <-> member_usable member request).
Proof. split; [apply targetEligibilityReasons_nil|apply memberEligibilityReasons_nil]. Qed.

(** ** Normalised requests *)
Definition trimmed (s : string) : Prop := TrimSpace s = s.

Definition quota_wf (quota : QuotaPolicy) : Prop :=
  if qp_Enabled quota
  then window_kind_ok (qp_WindowKind quota) = true /\ 0 <= qp_RequiredTokens quota /\ 0 < qp_MaxAge quota
  else qp_WindowKind quota = "" /\ qp_RequiredTokens quota = 0 /\ qp_MaxAge quota = 0
       /\ qp_RequireFresh quota = false.

Definition request_wf (r : Request) : Prop :=
  trimmed (rq_RequestID r) /\ trimmed (rq_Protocol r) /\ trimmed (rq_Region r)
  /\ trimmed (rq_ProxyRef r) /\ trimmed (rq_AffinityKey r)
  /\ rq_RequestID r <> "" /\ slen (rq_RequestID r) <= 128 /\ contains_control (rq_RequestID r) = false
  /\ 0 <= rq_AttemptNo r /\ 0 <= rq_DecisionNo r
  /\ VersionID (rq_Resolution r) <> uuid_nil /\ RouteID (rq_Resolution r) <> uuid_nil
  /\ Candidates (rq_Resolution r) <> []
  /\ one_strategy (rq_Strategy r) = true
  /\ slen (rq_Protocol r) <= 64 /\ slen (rq_Region r) <= 64 /\ slen (rq_ProxyRef r) <= 128
  /\ slen (rq_AffinityKey r) <= 256
  /\ contains_control (rq_Protocol r +:+ rq_Region r +:+ rq_ProxyRef r +:+ rq_AffinityKey r) = false
  /\ (rq_ProxyRef r <> "" -> rq_RequireProxy r = true)
  /\ quota_wf (rq_Quota r) /\ rq_Now r <> 0.

Lemma normalize_quota_wf q d q' : normalize_quota q d = Ok q' -> quota_wf q'.
Proof.
  unfold normalize_quota, quota_wf. destruct (qp_Enabled q) eqn:He.
  - case_match eqn:H1; [done|]. case_match eqn:H2; [done|]. intros [= <-]. simpl. bools. auto.
  - case_match eqn:H1; [done|]. intros [= <-]. rewrite He. by bools.
Qed.

Lemma normalize_quota_id q d : quota_wf q -> normalize_quota q d = Ok q.
Proof.
  unfold normalize_quota, quota_wf. destruct q as [[] w t m f]; simpl.
  - intros (-> & Ht & Hm). rewrite (proj2 (Z.ltb_ge _ _)) by done. simpl. unfold or_default.
    rewrite (proj2 (Z.eqb_neq m 0)) by lia. by rewrite (proj2 (Z.leb_gt m 0)) by done.
  - by intros (-> & -> & -> & ->).
Qed.

Lemma strategy_nonempty s : one_strategy s = true -> String.eqb s "" = false.
Proof. intros Hs. apply String.eqb_neq. by intros ->. Qed.

(** what [normalizeRequest] accepts is well formed: trimmed and bounded text
    without control characters, a fixed route version with candidates, a known
    strategy, a proxy requirement whenever a proxy is named, a quota policy that is
    complete or absent, and a clock; the route snapshot is untouched, and
    normalising the result again changes nothing. *)
Theorem normalizeRequest_sound request maxAge wall r :
  wall <> 0 -> normalizeRequest request maxAge wall = Ok r ->
  request_wf r /\ rq_Resolution r = rq_Resolution request
  /\ forall maxAge' wall', normalizeRequest r maxAge' wall' = Ok r.
Proof.
  intros Hwall Hn. assert (request_wf r /\ rq_Resolution r = rq_Resolution request) as [Hwf Hres].
  { unfold normalizeRequest in Hn.
    case_match eqn:H1; [done|]. case_match eqn:H2; [done|]. case_match eqn:H3; [done|].
    case_match eqn:H4; [done|]. apply result_bind_ok in Hn as (q & Hq & [= <-]).
    apply normalize_quota_wf in Hq. unfold request_wf, trimmed, IsZero. simpl. bools.
    split; [|done]. split_and!; try done; try apply TrimSpace_idem.
    - destruct (String.eqb_spec (TrimSpace (rq_ProxyRef request)) ""); [done|done].
    - destruct (Z.eqb_spec (rq_Now request) 0); done. }
  split; [done|]. split; [done|]. intros maxAge' wall'. clear Hn.
  destruct Hwf as (T1 & T2 & T3 & T4 & T5 & Hid & Hlen & Hctl & Ha & Hd & Hv & Hr & Hc & Hs
    & L1 & L2 & L3 & L4 & Hctl2 & Hp & Hq & Hnow).
  unfold normalizeRequest, trimmed in *. rewrite T1, T2, T3, T4, T5, Hctl, Hctl2.
  rewrite (strategy_nonempty _ Hs), Hs. simpl.
  rewrite (proj2 (String.eqb_neq _ _) Hid), (proj2 (Z.ltb_ge 128 _)) by done.
  rewrite (proj2 (Z.ltb_ge (rq_AttemptNo r) 0)), (proj2 (Z.ltb_ge (rq_DecisionNo r) 0)) by done.
  rewrite (proj2 (uuid_eqb_neq _ _) Hv), (proj2 (uuid_eqb_neq _ _) Hr), bool_decide_false by done.
  rewrite !(proj2 (Z.ltb_ge _ _)) by done. simpl. rewrite normalize_quota_id by done.
  unfold IsZero. rewrite (proj2 (Z.eqb_neq _ _) Hnow).
  destruct (String.eqb_spec (rq_ProxyRef r) "") as [He|He]; destruct r; simpl in *; [done|].
  by rewrite Hp.
Qed.

(** ** The quota-aware order *)
Definition with_quota (remaining : option Z) (reset : time) : quotaSnapshot :=
  {| q_Found := true; q_Remaining := remaining; q_ResetAt := Some reset;
     q_ObservedAt := Some 100; q_Confidence := "high" |}.

(** Whether the candidates' snapshots are all usable for the request. *)
Definition all_usable (request : Request) (cs : list candidate) : Prop :=
  Forall (fun c => quotaUsable (m_Quota (c_member c)) (rq_Quota request) (rq_Now request) = true) cs.

(** the comparison of the quota-aware strategy is not an order: as soon as one
    provider reports no remaining count, three usable credentials can each be
    preferred to the next around a cycle (more tokens left, earlier reset, earlier
    reset), so the tried order depends on how the sort happens to compare them. *)
Theorem quota_aware_order_has_cycles `{UuidText} request a b c :
  all_usable request [a; b; c] ->
  (exists n m, q_Remaining (m_Quota (c_member a)) = Some n /\ q_Remaining (m_Quota (c_member c)) = Some m
     /\ n < m) ->
  q_Remaining (m_Quota (c_member b)) = None ->
  (exists x y z, q_ResetAt (m_Quota (c_member a)) = Some x /\ q_ResetAt (m_Quota (c_member b)) = Some y
     /\ q_ResetAt (m_Quota (c_member c)) = Some z /\ x < y < z) ->
  quotaCandidateLess request a b = true /\ quotaCandidateLess request b c = true
  /\ quotaCandidateLess request c a = true.
Proof.
  intros Hall (n & m & Hn & Hm & Hnm) Hrb (x & y & z & Hx & Hy & Hz & Hxyz).
  apply Forall_cons in Hall as [Ha Hall]. apply Forall_cons in Hall as [Hb Hall].
  apply Forall_cons in Hall as [Hc _].
  unfold quotaCandidateLess. rewrite Ha, Hb, Hc, Hn, Hm, Hrb. simpl.
  unfold reset_less. rewrite Hx, Hy, Hz. unfold Before.
  rewrite (proj2 (Z.eqb_neq x y)), (proj2 (Z.eqb_neq y z)), (proj2 (Z.eqb_neq m n)) by lia. simpl.
  rewrite !Z.ltb_lt. lia.
Qed.

(** ** Witnesses *)
Definition no_capabilities : Capabilities :=
  {| Chat := false; Responses := false; Messages := false; Stream := false; Tools := false;
     Vision := false; Reasoning := false |}.
Definition some_target (id : uuid) (priority weight : Z) : Target :=
  {| t_ID := id; t_RouteVersionID := 1%N; t_TargetNo := 0; t_ProviderModelID := 2%N;
     t_CredentialPoolID := 3%N; t_ProviderID := 4%N; t_ProviderSlug := "p";
     t_ProviderResourceType := "official_api"; t_ProviderCommercialAllowed := true;
     t_UpstreamModelID := "m"; t_Protocol := "openai_chat"; t_Capabilities := no_capabilities;
     t_ProviderModelEnabled := true; t_ReviewStatus := "approved"; t_PoolEnabled := true;
     t_Priority := priority; t_Weight := weight; t_CommercialPolicy := "inherit";
     t_EffectiveCommercialAllowed := true; t_Enabled := true; t_Metadata := ∅ |}.
Definition some_request (strategy : string) : Request :=
  {| rq_RequestID := " req-1 "; rq_RequestRecordID := None; rq_AttemptNo := 0; rq_DecisionNo := 0;
     rq_Resolution := {| VersionID := 1%N; RouteID := 9%N; Candidates := [some_target 5%N 0 1] |};
     rq_Protocol := ""; rq_RequiredCapabilities := no_capabilities; rq_Region := "";
     rq_ProxyRef := ""; rq_RequireProxy := false;
     rq_Quota := {| qp_Enabled := true; qp_WindowKind := "hour"; qp_RequiredTokens := 10;
                    qp_MaxAge := 50; qp_RequireFresh := true |};
     rq_Strategy := strategy; rq_AffinityKey := ""; rq_Now := 120 |}.
Definition some_member (id : uuid) (weight : Z) (quota : quotaSnapshot) : poolMember :=
  {| m_CredentialID := id; m_MemberPriority := 0; m_MemberWeight := weight; m_Enabled := true;
     m_ProviderEnabled := true; m_Status := "active"; m_MaxConcurrency := 2; m_Region := "";
     m_ProxyRef := ""; m_CooldownUntil := None; m_Quota := quota |}.
Definition some_text : UuidText := fun _ => "".
Definition some_candidate (id : uuid) (weight : Z) (quota : quotaSnapshot) : candidate :=
  @new_candidate some_text (some_request "") (some_target 5%N 0 1) (some_member id weight quota) 0.

Lemma normalizeRequest_sound_witness :
  exists r, normalizeRequest (some_request "") 7 9 = Ok r /\ request_wf r
    /\ normalizeRequest r 1 1 = Ok r.
Proof.
  destruct (normalizeRequest (some_request "") 7 9) as [r|] eqn:Hr; [|vm_compute in Hr; discriminate].
  destruct (normalizeRequest_sound (some_request "") 7 9 r) as (Hwf & _ & Hid).
  - discriminate.
  - exact Hr.
  - exists r. split; [reflexivity|]. split; [exact Hwf|apply Hid].
Defined.

Lemma quota_aware_order_has_cycles_witness :
  @quotaCandidateLess some_text (some_request "") (some_candidate 1%N 1 (with_quota (Some 10) 200))
    (some_candidate 2%N 1 (with_quota None 300)) = true
  /\ @quotaCandidateLess some_text (some_request "") (some_candidate 2%N 1 (with_quota None 300))
    (some_candidate 3%N 1 (with_quota (Some 20) 400)) = true
  /\ @quotaCandidateLess some_text (some_request "") (some_candidate 3%N 1 (with_quota (Some 20) 400))
    (some_candidate 1%N 1 (with_quota (Some 10) 200)) = true.
Proof.
  apply (@quota_aware_order_has_cycles some_text).
  - repeat constructor.
  - exists 10, 20. repeat split.
  - reflexivity.
  - exists 200, 300, 400. repeat split.
Defined.
End SchedulerProofs.
