(* ===== verification/SelectLeases.v ===== *)
(** * The leases of one [Select]

    The environment of a [Select] is other requests: before each external call
    they run a history of coordinator operations under other owner tokens, in the
    order of the clock ([OtherRequests]).  The invariant is which leases the
    owner token of this [Select] may hold. *)

From stdpp Require Import base gmap strings list.
From Stdlib Require Import ZArith Lia Ascii String.
From S2P Require Import Prelude GoLib SchedulerModel Coordinator CoordinatorImpl.
From S2P Require Import CoordinatorTheorems SchedulerRepo Scheduler.

Module SelectLeases.
Import Sched Coordinator CoordinatorSpec CoordinatorTheorems SchedulerRepo Scheduler.

Section leases.
Context {C : Type} `{SHA : Sha256Hex, !Coordinator C, !CoordinatorRefines C, !Env C, UT : UuidText, DG : DecisionGuard}.

Definition owner : string := uuid_string (env_owner (C:=C)).

(** The operation acts under the owner token of this [Select]. *)
Definition ours (o : op) : Prop :=
  match o with OAcquire _ w _ | ORenew _ w _ | ORelease _ w => w = owner | _ => False end.

(** The instant of the call before the [n]-th, [t0] before the first. *)
Definition before (t0 : time) (n : nat) : time :=
  match n with O => t0 | S m => c_now (env_call (C:=C) m) end.

Class OtherRequests (t0 : time) : Prop := {
  others_run n c d : exists es t', runs es (before t0 n) c t' (env_others n c d).1
    /\ t' <= started (env_call (C:=C) n) /\ Forall (fun e : event => ~ ours e.1.2) es;
  calls_wf n : wf_call (env_call (C:=C) n)
}.

(** No command and no reply is lost on the wire, so none is sent again; the request may be
    cancelled between any two commands. *)
Definition wire_ok : Prop := forall n,
  (c_fault (env_call (C:=C) n) = None \/ c_fault (env_call (C:=C) n) = Some Cancelled)
  /\ resent ttls (env_call (C:=C) n) = [].

(** Leases only end as time passes, and this [Select] holds none outside [L]. *)
Definition lease_view (L : list string) (now : time) (v : view) : Prop :=
  (forall t t' r, now <= t <= t' -> v t' (ILease r) = None \/ v t' (ILease r) = v t (ILease r))
  /\ (forall t r, now <= t -> v t (ILease r) = Some (VOwner owner) -> r ∈ L).

Definition holds_only (t0 : time) (w : World C) (L : list string) : Prop :=
  exists v, repr (before t0 (w_calls w)) (w_coord w) v /\ lease_view L (before t0 (w_calls w)) v.

Lemma lease_view_later L now now' v : now <= now' -> lease_view L now v -> lease_view L now' v.
Proof. intros Hle [H1 H2]. split; [intros t t' r Ht; apply H1; lia|intros t r Ht; apply H2; lia]. Qed.

(** A step that leaves every lease as it is, or drops or grants one. *)
Lemma lease_view_put L now v d r w :
  lease_view L now v -> (w = owner -> r ∈ L) -> lease_view L now (put d (ILease r) (VOwner w) v).
Proof.
  intros [H1 H2] Hw. split.
  - intros t t' r' Ht. unfold put. case_decide; [|by apply H1].
    destruct (Z.ltb_spec t' d), (Z.ltb_spec t d); auto. lia.
  - intros t r' Ht. unfold put. case_decide as Hr; [|by apply H2].
    injection Hr as ->. destruct (t <? d); [|done]. intros [= Hw']. by apply Hw.
Qed.

Lemma lease_view_drop L now v r : lease_view L now v -> lease_view L now (drop (ILease r) v).
Proof.
  intros [H1 H2]. split.
  - intros t t' r' Ht. unfold drop. case_decide; [by left|by apply H1].
  - intros t r' Ht. unfold drop. case_decide; [done|by apply H2].
Qed.

Lemma lease_view_ext L now v v' :
  lease_view L now v -> (forall t r, v' t (ILease r) = v t (ILease r)) -> lease_view L now v'.
Proof. intros [H1 H2] He. split; intros t; intros; rewrite ?He in *; eauto. Qed.

Lemma spec_lease_view L call o v v' res :
  spec ttls call o v = (v', res) -> (forall r ttl, o = OAcquire r owner ttl -> r ∈ L) ->
  (forall r ttl, o = ORenew r owner ttl -> r ∈ L) ->
  lease_view L (c_now call) v -> lease_view L (c_now call) v'.
Proof.
  intros Hs Ha Hr Hv. destruct o; simpl in Hs; repeat case_match; simplify_eq; try done;
    try (apply lease_view_drop; done);
    try (apply lease_view_put; [done|intros ->; eauto]);
    (eapply lease_view_ext; [exact Hv|]; intros; by apply put_other).
Qed.

Lemma astep_lease_view L call o v v' res :
  astep ttls call o v v' res -> (forall r ttl, o = OAcquire r owner ttl -> r ∈ L) ->
  (forall r ttl, o = ORenew r owner ttl -> r ∈ L) ->
  lease_view L (c_now call) v -> lease_view L (c_now call) v'.
Proof.
  intros [] Ha Hr Hv; [by eapply spec_lease_view|done|by eapply spec_lease_view|].
  eapply lease_view_ext; [exact Hv|]. intros.
  match goal with Hx : forall t i, _ |- _ => apply Hx end. done.
Qed.

Lemma others_lease_view L call o v v' res :
  astep ttls call o v v' res -> ~ ours o ->
  lease_view L (c_now call) v -> lease_view L (c_now call) v'.
Proof.
  intros Hs Ho. eapply astep_lease_view; [exact Hs| |]; intros ? ? ->; by destruct Ho.
Qed.

Lemma others_resend L call o v v' res :
  cstep ttls call o v v' res -> ~ ours o -> wf_call call ->
  lease_view L (started call) v -> lease_view L (c_now call) v'.
Proof.
  intros Hs Ho Hwf Hv.
  destruct (cstep_last ttls (lease_view L) call o v v' res) as (v0 & Hv0 & Hlast);
    [apply lease_view_later| |done|done|done|by eapply others_lease_view].
  intros t w w' r Hw. by apply (others_lease_view L (execution t) o w w' r).
Qed.

(** ** The calls *)
Context (t0 : time) `{!OtherRequests t0}.

(** What other requests did before a call does not give this [Select] a lease. *)
Lemma others_hold w L :
  holds_only t0 w L ->
  exists v, let call := env_call (C:=C) (w_calls w) in
    repr (started call) (env_others (w_calls w) (w_coord w) (w_db w)).1 v
    /\ lease_view L (started call) v.
Proof.
  intros (v & Hr & Hv).
  destruct (others_run (w_calls w) (w_coord w) (w_db w)) as (es & t' & Hruns & Ht' & Hes).
  destruct (runs_preserve (lease_view L) (fun o => ~ ours o) es _ _ _ _ v (lease_view_later L)
    (others_lease_view L) Hruns Hr Hv Hes) as (v' & Hr' & Hv').
  exists v'. split; [by eapply repr_later|by eapply lease_view_later].
Qed.

Lemma on_database_holds {A} (f : Call -> SchedDB -> SchedDB * A) w w' a L :
  on_database f w = (w', a) -> holds_only t0 w L -> holds_only t0 w' L.
Proof.
  intros Hf Hw. destruct (others_hold w L Hw) as (v & Hr & Hv).
  unfold on_database, external in Hf.
  destruct (env_others (w_calls w) (w_coord w) (w_db w)) as [c d].
  destruct (f (env_call (w_calls w)) d) as [d' a']. injection Hf as <- <-.
  pose proof (started_now _ (calls_wf (w_calls w))) as Hle. exists v. simpl in *.
  split; [by eapply repr_later|by eapply lease_view_later].
Qed.

(** A coordinator call of this [Select] as an operation. *)
Lemma on_coordinator_step {A} (f : Call -> C -> C * A) (call_op : op) (g : Call -> A -> resp) (h : Call -> Call) w w' a L :
  (forall call c c' a, f call c = (c', a) -> run (h call) call_op c = (c', g call a)) ->
  (forall call, c_now (h call) = c_now call /\ c_then (h call) = c_then call /\ c_sent (h call) = c_sent call) ->
  on_coordinator f w = (w', a) -> holds_only t0 w L ->
  exists v v', let call := env_call (C:=C) (w_calls w) in
    lease_view L (started call) v /\ cstep ttls (h call) call_op v v' (g call a)
    /\ repr (before t0 (w_calls w')) (w_coord w') v' /\ before t0 (w_calls w') = c_now call.
Proof.
  intros Hop Hh Hf Hw. destruct (others_hold w L Hw) as (v & Hr & Hv).
  unfold on_coordinator, external in Hf.
  destruct (env_others (w_calls w) (w_coord w) (w_db w)) as [c d]. simpl in Hr.
  destruct (f (env_call (w_calls w)) c) as [c' a'] eqn:Hfc. injection Hf as <- <-.
  apply Hop in Hfc. destruct (Hh (env_call (C:=C) (w_calls w))) as (Hn & Hthen & Hsent).
  assert (started (h (env_call (w_calls w))) = started (env_call (C:=C) (w_calls w))) as Hst0 by (unfold started; by rewrite Hsent, Hn).
  destruct (repr_step (h (env_call (w_calls w))) call_op c v c' (g (env_call (w_calls w)) a'))
    as (v' & Hst & Hr'); [|by rewrite Hst0|done|].
  { unfold wf_call. rewrite Hn, Hthen, Hsent. apply calls_wf. }
  exists v, v'. simpl. rewrite Hn in Hr'. auto.
Qed.

(** Calls that do not touch this [Select]'s leases. *)
Lemma on_coordinator_holds {A} (f : Call -> C -> C * A) (call_op : op) (g : A -> resp) w w' a L :
  (forall call c c' a, f call c = (c', a) -> run call call_op c = (c', g a)) -> ~ ours call_op ->
  on_coordinator f w = (w', a) -> holds_only t0 w L -> holds_only t0 w' L.
Proof.
  intros Hop Ho Hf Hw.
  destruct (on_coordinator_step f call_op (fun _ => g) (fun c => c) w w' a L) as (v & v' & Hv & Hst & Hr & Hb);
    [done|done|done|done|].
  exists v'. split; [done|]. rewrite Hb. eapply others_resend; [exact Hst|done|apply calls_wf|done].
Qed.

Lemma next_holds options request group n w w' r L :
  on_coordinator (fun call => Next call (group_cursor request group) n (o_CursorTTL options)) w = (w', r) ->
  holds_only t0 w L -> holds_only t0 w' L.
Proof.
  apply (on_coordinator_holds _ (ONext (group_cursor request group) n (o_CursorTTL options))
    (of_result RIndex)); [|by intros []].
  intros call c c' a Ha. simpl. by rewrite Ha.
Qed.

Lemma get_holds key w w' r L :
  on_coordinator (fun call => GetAffinity call key) w = (w', r) ->
  holds_only t0 w L -> holds_only t0 w' L.
Proof.
  apply (on_coordinator_holds _ (OGetAffinity key) (of_result RCred)); [|by intros []].
  intros call c c' a Ha. simpl. by rewrite Ha.
Qed.

Lemma set_holds key id ttl w w' r L :
  on_coordinator (fun call => SetAffinity call key id ttl) w = (w', r) ->
  holds_only t0 w L -> holds_only t0 w' L.
Proof.
  apply (on_coordinator_holds _ (OSetAffinity key id ttl) (of_result (fun _ => RUnit))); [|by intros []].
  intros call c c' a Ha. simpl. by rewrite Ha.
Qed.

(** Acquiring: on success the lease is the only new one; on failure none. *)
Lemma acquire_holds resource ttl w w' r L :
  wire_ok -> on_coordinator (fun call => Acquire call resource owner ttl) w = (w', r) ->
  holds_only t0 w L ->
  match r with
  | Ok lease => lease = new_lease resource owner /\ holds_only t0 w' (resource :: L)
  | Err _ => holds_only t0 w' L
  end.
Proof.
  intros Hwire Hf Hw.
  destruct (on_coordinator_step _ (OAcquire resource owner ttl)
    (fun _ => of_result (fun l => RLease (ls_resource l) (ls_owner l))) (fun c => c) w w' r L
    ltac:(intros ? ? ? ? Ha; simpl; by rewrite Ha) ltac:(done) Hf Hw) as (v & v' & Hv & Hst & Hr & Hb).
  destruct (Hwire (w_calls w)) as [Hfault Hsent]. apply cstep_once in Hst; [|done].
  apply (lease_view_later _ _ _ _ (started_now _ (calls_wf (w_calls w)))) in Hv.
  destruct r as [lease|e].
  - split.
    + unfold on_coordinator, external in Hf.
      destruct (env_others _ _ _) as [c d]. destruct (Acquire _ _ _ _ c) as [c' a] eqn:Ha.
      injection Hf as <- ->. by eapply acquire_lease.
    + exists v'. split; [done|]. rewrite Hb. eapply astep_lease_view; [exact Hst| |done|].
      * intros ? ? [= <- _]. apply list_elem_of_here.
      * destruct Hv as [H1 H2]. split; [done|]. intros. apply list_elem_of_further. by eapply H2.
  - exists v'. split; [done|]. rewrite Hb. simpl in Hst.
    inversion Hst as [? ? _ _ Hspec| |? ? ? Hlost|? ? []]; subst; [|done|].
    + simpl in Hspec. case_match; by simplify_eq.
    + destruct Hfault; simpl in *; congruence.
Qed.

Lemma lease_view_without L now v r :
  lease_view (r :: L) now v -> v now (ILease r) <> Some (VOwner owner) -> lease_view L now v.
Proof.
  intros [H1 H2] Hn. split; [done|]. intros t r' Ht Hv.
  pose proof (H2 t r' Ht Hv) as [-> | Hin]%elem_of_cons; [|done].
  exfalso. destruct (H1 now t r ltac:(lia)) as [Hx|Hx]; congruence.
Qed.

Lemma release_run resource call (c c' : C) a :
  (let '(c1, _, res) := Release call (new_lease resource owner) c in (c1, res)) = (c', a) ->
  run call (ORelease resource owner) c
  = (c', match a with Ok _ => RUnit | Err e => RErr e end).
Proof.
  unfold Release. simpl. destruct (release_once call (new_lease resource owner) c) as [c1 [e|]];
    simpl; intros [= <- <-]; done.
Qed.

(** Releasing, without the request's cancellation. *)
Lemma release_holds resource w w' r L :
  wire_ok ->
  on_coordinator (fun call c => let '(c', _, res) :=
    Release (without_cancel call) (new_lease resource owner) c in (c', res)) w = (w', r) ->
  holds_only t0 w (resource :: L) -> holds_only t0 w' L.
Proof.
  intros Hwire Hf Hw.
  destruct (on_coordinator_step _ (ORelease resource owner)
    (fun _ res => match res with Ok _ => RUnit | Err e => RErr e end) without_cancel w w' r (resource :: L)
    ltac:(intros call c c' a; apply release_run) ltac:(done) Hf Hw)
    as (v & v' & Hv & Hst & Hr & Hb).
  destruct (Hwire (w_calls w)) as [Hfault Hsent]. apply cstep_once in Hst; [|exact Hsent].
  apply (lease_view_later _ _ _ _ (started_now _ (calls_wf (w_calls w)))) in Hv.
  exists v'. split; [done|]. rewrite Hb.
  assert (c_fault (without_cancel (env_call (C:=C) (w_calls w))) = None) as Hnf.
  { simpl. by destruct Hfault as [-> | ->]. }
  inversion Hst as [? ? _ _ Hspec|? [Hx|Hx]|? ? ? Hlost|? ? []]; subst; [|done|done|congruence].
  simpl in Hspec. case_match eqn:Hnow; simplify_eq.
  - case_bool_decide as Hown; simplify_eq.
    + apply lease_view_without with resource; [by apply lease_view_drop|]. by rewrite drop_same.
    + apply lease_view_without with resource; [done|]. congruence.
  - apply lease_view_without with resource; [done|]. congruence.
Qed.
End leases.
End SelectLeases.
