(* ===== verification/SelectFacts.v ===== *)
(** * The candidates, the decision and the recorded row along [Select] *)

From stdpp Require Import base gmap strings list.
From Stdlib Require Import ZArith Lia Ascii String.
From S2P Require Import Prelude GoLib SchedulerModel Coordinator.
From S2P Require Import SchedulerRepo Scheduler SchedulerOrder.

Module SelectFacts.
Import Sched Coordinator CoordinatorSpec SchedulerRepo Scheduler SchedulerOrder.

(** A candidate decision with a reason against it. *)
Definition rejected (cd : CandidateDecision) : Prop := cd_Eligible cd = false /\ cd_Reasons cd <> [].

(** Every entry of the decision is rejected or stands for a candidate of [el]. *)
Definition decided (cds : list CandidateDecision) (el : list candidate) : Prop :=
  forall i cd, cds !! i = Some cd -> rejected cd \/ exists c, c ∈ el /\ c_decisionIndex c = i.

(** No selection in the decision yet. *)
Definition unselected (d : Decision) : Prop :=
  d_SelectedTargetID d = None /\ d_SelectedCredentialID d = None /\ d_SelectedProviderID d = None.

(** The target ids the decision has an entry for. *)
Definition mentions (cds : list CandidateDecision) (id : uuid) : Prop :=
  exists cd, cd ∈ cds /\ cd_TargetID cd = id.

Lemma decided_perm cds el el' : el ≡ₚ el' -> decided cds el -> decided cds el'.
Proof.
  intros Hp Hd i cd Hi. destruct (Hd i cd Hi) as [?|(c & Hc & ?)]; [by left|right].
  exists c. by rewrite <- Hp.
Qed.

Lemma decided_snoc_rejected cds el cd : decided cds el -> rejected cd -> decided (cds ++ [cd])%list el.
Proof.
  intros Hd Hr i x Hi. apply lookup_app_Some in Hi as [Hi|[_ Hi]]; [by apply Hd|].
  apply list_lookup_singleton_Some in Hi as [_ <-]. by left.
Qed.

Lemma decided_snoc cds el cd c :
  decided cds el -> c_decisionIndex c = List.length cds ->
  decided (cds ++ [cd])%list (el ++ [c])%list.
Proof.
  intros Hd Hc i x Hi. apply lookup_app_Some in Hi as [Hi|[Hle Hi]].
  - destruct (Hd i x Hi) as [?|(c' & Hin & ?)]; [by left|right]. exists c'. rewrite elem_of_app. auto.
  - apply list_lookup_singleton_Some in Hi as [Hi _]. right. exists c.
    rewrite elem_of_app, list_elem_of_singleton. split; [by right|]. lia.
Qed.

Lemma mentions_app_l cds cds' id : mentions cds id -> mentions (cds ++ cds')%list id.
Proof. intros (cd & Hin & Hid). exists cd. rewrite elem_of_app. auto. Qed.

(** Marking an entry. *)
Lemma mark_candidates i reason d :
  List.length (d_Candidates (mark i reason d)) = List.length (d_Candidates d)
  /\ forall j cd, d_Candidates (mark i reason d) !! j = Some cd ->
       exists cd0, d_Candidates d !! j = Some cd0 /\ cd_TargetID cd = cd_TargetID cd0
         /\ (rejected cd0 \/ j = i -> rejected cd).
Proof.
  unfold mark, with_candidates. simpl. split; [apply length_alter|].
  intros j cd Hj. destruct (decide (j = i)) as [->|Hne].
  - rewrite list_lookup_alter, decide_True in Hj by done. apply fmap_Some in Hj as (cd0 & Hj & ->).
    exists cd0. split; [done|]. split; [done|]. intros _. split; [done|]. simpl. by destruct (cd_Reasons cd0).
  - rewrite list_lookup_alter_ne in Hj by done. exists cd. naive_solver.
Qed.

Lemma skipped_decided item reason d el :
  decided (d_Candidates d) (item :: el) -> decided (d_Candidates (skipped item reason d)) el.
Proof.
  intros Hd i cd Hi. unfold skipped, add_fallback in Hi. simpl in Hi.
  apply mark_candidates in Hi as (cd0 & Hi & _ & Hr).
  destruct (Hd i cd0 Hi) as [?|(c & [-> |Hc]%elem_of_cons & Hidx)]; [left; auto|left; auto|right; eauto].
Qed.

Lemma skipped_mentions item reason d id :
  mentions (d_Candidates d) id -> mentions (d_Candidates (skipped item reason d)) id.
Proof.
  intros (cd & [j Hj]%list_elem_of_lookup & Hid). unfold skipped, add_fallback. simpl.
  destruct (mark_candidates (c_decisionIndex item) reason d) as [Hlen Hmark].
  destruct (lookup_lt_is_Some_2 (d_Candidates (mark (c_decisionIndex item) reason d)) j) as [cd' Hj'].
  { rewrite Hlen. by apply lookup_lt_Some in Hj. }
  destruct (Hmark j cd' Hj') as (cd0 & Hcd0 & Ht & _). exists cd'. split; [by eapply list_elem_of_lookup_2|].
  congruence.
Qed.

(** ** Evaluation *)
Section evaluate.
Context {C : Type} `{!Coordinator C, !Env C, UT : UuidText, DG : DecisionGuard}.

(** A property of the rows other requests preserve. *)
Context (P : SchedDB -> Prop).
Hypothesis P_others : forall n c d, P d -> P (env_others (C:=C) n c d).2.

(** An eligible candidate: its target and its member have no reason against them,
    and the member is in the target's pool in rows that satisfy [P]. *)
Definition sound_candidate (request : Request) (targets : list Target) (c : candidate) : Prop :=
  c_target c ∈ targets
  /\ targetEligibilityReasons (c_target c) (rq_Protocol request) (rq_RequiredCapabilities request) = []
  /\ memberEligibilityReasons (c_member c) request = []
  /\ c_leaseKey c = uuid_string (m_CredentialID (c_member c))
  /\ exists call d members, P d
       /\ loadPoolMembers call (t_CredentialPoolID (c_target c)) (rq_Quota request)
            (t_UpstreamModelID (c_target c)) d = (d, Ok members)
       /\ c_member c ∈ members.

Definition evaluated (request : Request) (all done_ : list Target) (acc : Decision * list candidate) : Prop :=
  Forall (sound_candidate request all) acc.2 /\ decided (d_Candidates acc.1) acc.2 /\ unselected acc.1
  /\ forall t, t ∈ done_ -> mentions (d_Candidates acc.1) (t_ID t).

Lemma evaluate_members_spec request target all done_ members : forall acc,
  (forall m, m ∈ members -> memberEligibilityReasons m request = [] ->
     forall i, sound_candidate request all (new_candidate request target m i)) ->
  evaluated request all done_ acc ->
  evaluated request all done_ (evaluate_members request target members acc)
  /\ (members <> [] \/ mentions (d_Candidates acc.1) (t_ID target) ->
      mentions (d_Candidates (evaluate_members request target members acc).1) (t_ID target)).
Proof.
  induction members as [|m ms IH]; intros [d el] Hm He; [naive_solver|]. cbn [evaluate_members].
  set (value := new_candidate request target m (List.length (d_Candidates d))).
  set (acc' := (add_candidate (c_decision value) d,
                if cd_Eligible (c_decision value) then (el ++ [value])%list else el)).
  assert (mentions (d_Candidates acc'.1) (t_ID target)) as Hmen.
  { exists (c_decision value). split; [|done]. simpl. rewrite elem_of_app. right. by apply list_elem_of_singleton. }
  destruct (IH acc') as [IH1 IH2].
  { intros. apply Hm; [by apply list_elem_of_further|done]. }
  { destruct He as (H1 & H2 & H3 & H4). unfold acc', evaluated. cbn [fst snd].
    assert (cd_Eligible (c_decision value) = bool_decide (memberEligibilityReasons m request = [])) as Hel
      by done.
    split_and!.
    - rewrite Hel. case_bool_decide as Hr; [|done]. apply Forall_app. split; [done|].
      apply Forall_singleton. apply Hm; [apply list_elem_of_here|done].
    - rewrite Hel. simpl. case_bool_decide as Hr; [by apply decided_snoc|].
      apply decided_snoc_rejected; [done|]. split; [|done]. simpl. by rewrite bool_decide_false.
    - done.
    - intros t Ht. apply mentions_app_l. by apply H4. }
  split; [done|]. intros _. apply IH2. by right.
Qed.

Lemma rejected_target_rejected target reasons : reasons <> [] -> rejected (rejected_target target reasons).
Proof. done. Qed.

Lemma reject_evaluated request all done_ target reasons d el :
  reasons <> [] -> evaluated request all done_ (d, el) ->
  evaluated request all (done_ ++ [target])%list (add_candidate (rejected_target target reasons) d, el).
Proof.
  intros Hr (H1 & H2 & H3 & H4). unfold evaluated. cbn [fst snd]. split_and!; [done| |done|].
  - by apply decided_snoc_rejected.
  - intros t [Ht | ->%list_elem_of_singleton]%elem_of_app; [by apply mentions_app_l, H4|].
    exists (rejected_target target reasons). split; [|done]. simpl. rewrite elem_of_app. right.
    by apply list_elem_of_singleton.
Qed.

Lemma loadPoolMembers_db call pool quota model d : (loadPoolMembers call pool quota model d).1 = d.
Proof. unfold loadPoolMembers. by destruct (c_fault call). Qed.

Lemma evaluate_targets_spec request all todo : forall done_ acc (w w' : World C) d' r,
  all = (done_ ++ todo)%list -> P (w_db w) -> evaluated request all done_ acc ->
  evaluate_targets request todo acc w = (w', (d', r)) ->
  unselected d' /\ forall el, r = Ok el -> evaluated request all all (d', el).
Proof.
  induction todo as [|t ts IH]; intros done_ [d el] w w' d' r Hall HP He; cbn [evaluate_targets].
  { intros [= _ <- <-]. rewrite app_nil_r in Hall. subst. split; [apply He|]. intros ? [= <-]. done. }
  assert (t ∈ all) as Ht by (rewrite Hall, elem_of_app; right; apply list_elem_of_here).
  assert (forall acc' w1, evaluated request all (done_ ++ [t])%list acc' -> P (w_db w1) ->
    evaluate_targets request ts acc' w1 = (w', (d', r)) ->
    unselected d' /\ forall el, r = Ok el -> evaluated request all all (d', el)) as Hnext.
  { intros acc' w1 He' HP' Hr. eapply (IH (done_ ++ [t])%list acc' w1 w'); [|done|done|done].
    by rewrite Hall, <- app_assoc. }
  case_match eqn:Hreasons; [apply Hnext; [|done]; apply reject_evaluated; [|done];
    by apply negb_true_iff, bool_decide_eq_false in Hreasons|].
  apply negb_false_iff, bool_decide_eq_true in Hreasons.
  intros (w1 & members & Hm & Hr)%st_bind_run.
  unfold on_database, external in Hm.
  pose proof (P_others (w_calls w) (w_coord w) (w_db w) HP) as HP1.
  destruct (env_others (w_calls w) (w_coord w) (w_db w)) as [c1 d1]. simpl in HP1.
  pose proof (loadPoolMembers_db (env_call (w_calls w)) (t_CredentialPoolID t) (rq_Quota request)
    (t_UpstreamModelID t) d1) as Hdb.
  destruct (loadPoolMembers _ _ _ _ d1) as [d2 ms] eqn:Hload. simpl in Hdb. subst d2.
  injection Hm as <- <-. destruct ms as [[|m ms]|e].
  - eapply Hnext; [| |exact Hr]; [by apply reject_evaluated|done].
  - eapply Hnext; [| |exact Hr]; [|done].
    destruct (evaluate_members_spec request t all done_ (m :: ms) (d, el)) as [[H1 (H2 & H3 & H4)] H5]; [|done|].
    { intros m' Hm' Hok i. split_and!; try done. eexists _, d1, _. by split_and!. }
    split_and!; [done|done|done|].
    intros t' [Ht' | ->%list_elem_of_singleton]%elem_of_app; [by apply H4|apply H5; by left].
  - injection Hr as <- <- <-. split; [apply He|done].
Qed.

Lemma evaluate_targets_errors request todo : forall acc (w w' : World C) d' e,
  evaluate_targets request todo acc w = (w', (d', Err e)) -> e <> ErrNoEligible.
Proof.
  induction todo as [|t ts IH]; intros [d el] w w' d' e; cbn [evaluate_targets]; [done|].
  case_match; [apply IH|]. intros (w1 & members & Hm & Hr)%st_bind_run.
  destruct members as [[|m ms]|e']; [by eapply IH|by eapply IH|]. injection Hr as _ _ <-.
  unfold on_database, external in Hm. destruct (env_others _ _ _) as [c1 d1].
  unfold loadPoolMembers in Hm. destruct (c_fault _); by simplify_eq.
Qed.

(** ** Trying the candidates *)
Lemma acquire_slots_spec `{SHA : Sha256Hex, !CoordinatorRefines C} options item n : forall slot (w w' : World C) a,
  acquire_slots options item n slot w = (w', a) ->
  match a with
  | Acquired lease => exists k, slot <= k < slot + Z.of_nat n
      /\ lease = new_lease (c_leaseKey item +:+ ":" +:+ Itoa k) (uuid_string (env_owner (C:=C)))
  | AllBusy => True
  | Failed e => e <> ErrNoEligible
  end.
Proof.
  induction n as [|n IH]; intros slot w w' a; cbn [acquire_slots]; [by intros [= _ <-]|].
  intros (w1 & r & Ha & Hr)%st_bind_run.
  unfold on_coordinator, external in Ha. destruct (env_others _ _ _) as [c d].
  destruct (Acquire _ _ _ _ c) as [c' r'] eqn:Hacq. injection Ha as <- ->.
  destruct r as [lease|e].
  - injection Hr as _ <-. exists slot. split; [lia|]. by eapply acquire_lease.
  - assert (e <> ErrNoEligible) as Hne.
    { intros ->. eapply (known_errors _ (OAcquire _ _ _) c c'). simpl. by rewrite Hacq. }
    destruct e; try (by injection Hr as _ <-).
    apply IH in Hr. destruct a; [|done|done]. destruct Hr as (k & Hk & ->). exists k. split; [lia|done].
Qed.

Lemma acquire_first_spec `{SHA : Sha256Hex, !CoordinatorRefines C} options ordered : forall decision (w w' : World C) d' r,
  acquire_first options ordered decision w = (w', (d', r)) ->
  decided (d_Candidates decision) ordered -> unselected decision ->
  unselected d' /\ (forall id, mentions (d_Candidates decision) id -> mentions (d_Candidates d') id)
  /\ match r with
     | Ok (Some (item, lease)) => item ∈ ordered /\ exists k, 0 <= k < m_MaxConcurrency (c_member item)
         /\ lease = new_lease (c_leaseKey item +:+ ":" +:+ Itoa k) (uuid_string (env_owner (C:=C)))
     | Ok None => Forall rejected (d_Candidates d')
     | Err e => e <> ErrNoEligible
     end.
Proof.
  induction ordered as [|item rest IH]; intros decision w w' d' r; cbn [acquire_first].
  { intros [= _ <- <-] Hd Hu. split_and!; [done|done|]. apply Forall_lookup. intros i cd Hi.
    destruct (Hd i cd Hi) as [?|(c & Hc & _)]; [done|]. by apply elem_of_nil in Hc. }
  intros (w1 & a & Ha & Hr)%st_bind_run Hd Hu. apply acquire_slots_spec in Ha. destruct a as [lease| |e].
  - injection Hr as _ <- <-. split; [done|]. split; [done|]. split; [apply list_elem_of_here|].
    destruct Ha as (k & Hk & ->). exists k. split; [lia|done].
  - apply IH in Hr as (H1 & H2 & H3); [|by apply skipped_decided|done]. split; [done|]. split.
    + intros id Hid. by apply H2, skipped_mentions.
    + destruct r as [[[item' lease]|]|]; [|done|done]. destruct H3 as [? ?].
      split; [by apply list_elem_of_further|done].
  - injection Hr as _ <- <-. split; [done|]. split; [|done]. intros id Hid. by apply skipped_mentions.
Qed.

Lemma next_errors `{SHA : Sha256Hex, !CoordinatorRefines C} key n ttl (w w' : World C) e :
  on_coordinator (fun call => Next call key n ttl) w = (w', Err e) -> e <> ErrNoEligible.
Proof.
  unfold on_coordinator, external. destruct (env_others _ _ _) as [c d].
  destruct (Next _ key n ttl c) as [c' r] eqn:Hn. intros [= _ ->] ->.
  eapply (known_errors _ (ONext key n ttl) c c'). simpl. by rewrite Hn.
Qed.

Lemma orderCandidates_errors `{SHA : Sha256Hex, !CoordinatorRefines C} options request values affinity (w w' : World C) e used :
  orderCandidates options request values affinity w = (w', (Err e, used)) -> e <> ErrNoEligible.
Proof.
  assert (forall group (w w' : World C) e, order_group options request group w = (w', Err e) -> e <> ErrNoEligible) as Hg.
  { intros group w1' w2' e'. unfold order_group. repeat case_match; try done.
    - intros (w1 & [a|a] & Ha & Hr)%st_bind_run; [done|]. injection Hr as _ <-. by eapply next_errors.
    - intros (w1 & [a|a] & Ha & Hr)%st_bind_run; [done|]. injection Hr as _ <-. by eapply next_errors.
    - by intros [= _ <-]. }
  assert (forall groups acc (w w' : World C) e, order_groups options request groups acc w = (w', Err e) -> e <> ErrNoEligible) as Hgs.
  { induction groups as [|g gs IH]; intros acc w1' w2' e'; simpl; [done|].
    intros (w1 & [a|a] & Ha & Hr)%st_bind_run; [by eapply IH|]. injection Hr as _ <-. by eapply Hg. }
  unfold orderCandidates. repeat case_match; [done| |];
    intros (w1 & a & Ha & Hr)%st_bind_run; injection Hr as _ -> _; by eapply Hgs.
Qed.

(** ** The recorded row *)
Lemma record_decision_ok request decision (w w' : World C) u :
  record_decision request decision w = (w', Ok u) ->
  last (scheduler_decisions (w_db w')) = Some (decision_row (env_decision_id (C:=C)) request decision).
Proof.
  unfold record_decision, on_database, external. destruct (env_others _ _ _) as [c d].
  unfold RecordDecision. destruct (c_fault _) as [[| |]|]; try done.
  unfold insert_decision. repeat case_match; intros; simplify_eq/=. by rewrite last_snoc.
Qed.

Lemma record_decision_errors request decision (w w' : World C) e :
  record_decision request decision w = (w', Err e) -> e <> ErrNoEligible.
Proof.
  unfold record_decision, on_database, external. destruct (env_others _ _ _) as [c d].
  unfold RecordDecision. destruct (c_fault _) as [[| |]|]; unfold insert_decision, mapRepositoryError;
    repeat case_match; intros; simplify_eq/=; congruence.
Qed.
End evaluate.
End SelectFacts.
