(* ===== verification/SelectTheorems.v ===== *)
(** * What [Select] guarantees

    No lease leaks, what a selection is, and what the recorded decision says. *)

From stdpp Require Import base gmap strings list.
From Stdlib Require Import ZArith Lia Ascii String.
From S2P Require Import Prelude GoLib SchedulerModel Coordinator CoordinatorImpl.
From S2P Require Import CoordinatorTheorems SchedulerRepo Scheduler SchedulerOrder SelectLeases.
From S2P Require Import SelectFacts.

Module SelectTheorems.
Import Sched Coordinator CoordinatorSpec SchedulerRepo Scheduler SchedulerOrder SelectLeases.
Import SelectFacts.

(** ** Leases *)
Section leaks.
Context {C : Type} `{SHA : Sha256Hex, !Coordinator C, !CoordinatorRefines C, !Env C, UT : UuidText, DG : DecisionGuard}.
Context (t0 : time) `{!OtherRequests t0}.
Implicit Types (w : World C) (L : list string).

Lemma order_group_holds options request group w w' r L :
  order_group options request group w = (w', r) -> holds_only t0 w L -> holds_only t0 w' L.
Proof.
  unfold order_group. repeat case_match; try (by intros [= <- _]).
  - intros (w1 & a & Ha & Hr)%st_bind_run Hw. injection Hr as <- _. by eapply next_holds.
  - intros (w1 & a & Ha & Hr)%st_bind_run Hw. injection Hr as <- _. by eapply next_holds.
Qed.

Lemma order_groups_holds options request groups : forall acc w w' r L,
  order_groups options request groups acc w = (w', r) -> holds_only t0 w L -> holds_only t0 w' L.
Proof.
  induction groups as [|g gs IH]; intros acc w w' r L; simpl; [by intros [= <- _]|].
  intros (w1 & a & Ha & Hr)%st_bind_run Hw. pose proof (order_group_holds _ _ _ _ _ _ _ Ha Hw).
  destruct a; [by eapply IH|]. by injection Hr as <- _.
Qed.

Lemma orderCandidates_holds options request values affinity w w' r L :
  orderCandidates options request values affinity w = (w', r) -> holds_only t0 w L -> holds_only t0 w' L.
Proof.
  unfold orderCandidates. repeat case_match; [by intros [= <- _]| |];
    intros (w1 & a & Ha & Hr)%st_bind_run Hw; injection Hr as <- _; by eapply order_groups_holds.
Qed.

Lemma evaluate_targets_holds request targets : forall acc w w' r L,
  evaluate_targets request targets acc w = (w', r) -> holds_only t0 w L -> holds_only t0 w' L.
Proof.
  induction targets as [|t ts IH]; intros [d e] w w' r L; simpl; [by intros [= <- _]|].
  case_match; [by apply IH|].
  intros (w1 & a & Ha & Hr)%st_bind_run Hw. pose proof (on_database_holds _ _ _ _ _ _ Ha Hw).
  destruct a as [[|m ms]|]; [by eapply IH|by eapply IH|]. by injection Hr as <- _.
Qed.

Lemma readAffinity_holds key w w' r L :
  readAffinity key w = (w', r) -> holds_only t0 w L -> holds_only t0 w' L.
Proof. unfold readAffinity. case_match; [by intros [= <- _]|]. by apply get_holds. Qed.

Lemma bind_affinity_holds options key item decision w w' r L :
  bind_affinity options key item decision w = (w', r) -> holds_only t0 w L -> holds_only t0 w' L.
Proof.
  unfold bind_affinity. case_match; [by intros [= <- _]|].
  intros (w1 & a & Ha & Hr)%st_bind_run Hw. injection Hr as <- _. by eapply set_holds.
Qed.

Lemma acquire_slots_holds options item n : forall slot w w' a L,
  wire_ok -> acquire_slots options item n slot w = (w', a) -> holds_only t0 w L ->
  match a with
  | Acquired lease => ls_owner lease = owner /\ ls_done lease = false
                      /\ lease = new_lease (ls_resource lease) owner
                      /\ holds_only t0 w' (ls_resource lease :: L)
  | _ => holds_only t0 w' L
  end.
Proof.
  induction n as [|n IH]; intros slot w w' a L Hwire; simpl; [by intros [= <- <-]|].
  intros (w1 & r & Ha & Hr)%st_bind_run Hw.
  pose proof (acquire_holds t0 _ _ _ _ _ L Hwire Ha Hw) as Hres.
  destruct r as [lease|[]]; try (by injection Hr as <- <-); [|by eapply IH].
  injection Hr as <- <-. by destruct Hres as [-> Hres].
Qed.

Lemma acquire_first_holds options ordered : forall decision w w' r L,
  wire_ok -> acquire_first options ordered decision w = (w', r) -> holds_only t0 w L ->
  match r.2 with
  | Ok (Some (_, lease)) => lease = new_lease (ls_resource lease) owner
                            /\ holds_only t0 w' (ls_resource lease :: L)
  | _ => holds_only t0 w' L
  end.
Proof.
  induction ordered as [|item rest IH]; intros decision w w' r L Hwire; cbn [acquire_first];
    [by intros [= <- <-]|].
  intros (w1 & a & Ha & Hr)%st_bind_run Hw.
  eapply acquire_slots_holds in Ha; [|done|done]. destruct a as [lease| |e].
  - injection Hr as <- <-. simpl. naive_solver.
  - by eapply IH.
  - by injection Hr as <- <-.
Qed.

Lemma record_decision_holds request decision w w' r L :
  record_decision request decision w = (w', r) -> holds_only t0 w L -> holds_only t0 w' L.
Proof. intros Hr. by eapply on_database_holds. Qed.

(** What is held when [Select] returns: the returned lease, or nothing new. *)
Definition accounted (w' : World C) (r : Selection * option error) : Prop :=
  match r.2, s_Lease r.1 with
  | None, Some lease => ls_owner lease = owner /\ holds_only t0 w' [ls_resource lease]
  | Some _, None => holds_only t0 w' []
  | _, _ => False
  end.

Lemma record_refusal_holds request decision e w w' r :
  record_refusal request decision e w = (w', r) -> holds_only t0 w [] -> accounted w' r.
Proof.
  unfold record_refusal. intros (w1 & a & Ha & Hr)%st_bind_run Hw.
  apply record_decision_holds with (L := []) in Ha; [|done].
  injection Hr as <- <-. by destruct a.
Qed.

Lemma finish_selection_holds options request key item lease decision w w' r :
  wire_ok -> finish_selection options request key item lease decision w = (w', r) ->
  lease = new_lease (ls_resource lease) owner -> holds_only t0 w [ls_resource lease] ->
  accounted w' r.
Proof.
  unfold finish_selection. intros Hwire (w1 & d & Hd & Hr)%st_bind_run Hl Hw.
  eapply bind_affinity_holds in Hd; [|done].
  apply st_bind_run in Hr as (w2 & a & Ha & Hr). eapply record_decision_holds in Ha; [|done].
  destruct a as [u|e].
  - injection Hr as <- <-. unfold accounted. simpl. split; [by rewrite Hl|done].
  - apply st_bind_run in Hr as (w3 & u & Hu & Hr). injection Hr as <- <-. unfold accounted. simpl.
    rewrite Hl in Hu. by eapply release_holds.
Qed.

Lemma select_eligible_holds options request eligible decision w w' r :
  wire_ok -> select_eligible options request eligible decision w = (w', r) ->
  holds_only t0 w [] -> accounted w' r.
Proof.
  unfold select_eligible. intros Hwire (w1 & a & Ha & Hr)%st_bind_run Hw.
  eapply readAffinity_holds in Ha; [|done].
  apply st_bind_run in Hr as (w2 & [ordering used] & Ho & Hr). eapply orderCandidates_holds in Ho; [|done].
  destruct ordering as [ordered|e]; [|by eapply record_refusal_holds].
  apply st_bind_run in Hr as (w3 & [d acquired] & Hd & Hr). eapply acquire_first_holds in Hd; [|done|done].
  destruct acquired as [[[item lease]|]|e]; simpl in Hd.
  - destruct Hd. by eapply finish_selection_holds.
  - by eapply record_refusal_holds.
  - by eapply record_refusal_holds.
Qed.

(** C34: [Select] leaks no lease, as long as no command to the coordinator's store and no reply to
    one is lost on the wire ([wire_ok]: every command runs once and is answered, or does not run
    because the request's context is done).  Then, whatever other requests do in between under
    their own tokens, and between whichever two commands the request is cancelled, a [Select] whose
    owner token held nothing before leaves it so when it fails (nothing eligible, no free slot, a
    refused or conflicting decision record, a cancelled context), and when it succeeds the token
    holds exactly the lease returned. *)
Theorem Select_leaks_no_lease options request w w' selection err :
  wire_ok -> holds_only t0 w [] ->
  Select options request w = (w', (selection, err)) ->
  match err with
  | Some _ => s_Lease selection = None /\ holds_only t0 w' []
  | None => exists lease, s_Lease selection = Some lease /\ ls_owner lease = owner
            /\ holds_only t0 w' [ls_resource lease]
  end.
Proof.
  intros Hwire Hw Hs. enough (accounted w' (selection, err)) as Hacc.
  { unfold accounted in Hacc. simpl in Hacc. destruct err, (s_Lease selection); naive_solver. }
  unfold Select in Hs. destruct (normalizeRequest _ _ _) as [request'|e].
  2:{ injection Hs as <- <- <-. done. }
  apply st_bind_run in Hs as (w1 & [d evaluated] & He & Hs). eapply evaluate_targets_holds in He; [|done].
  destruct evaluated as [[|c cs]|e].
  - by eapply record_refusal_holds.
  - by eapply select_eligible_holds.
  - injection Hs as <- <- <-. done.
Qed.
End leaks.

(** ** Selections and refusals *)
Section outcomes.
Context {C : Type} `{SHA : Sha256Hex, !Coordinator C, !CoordinatorRefines C, !Env C, UT : UuidText, DG : DecisionGuard}.
Context (P : SchedDB -> Prop).
Hypothesis P_others : forall n c d, P d -> P (env_others (C:=C) n c d).2.
Implicit Types (w : World C).

(** The decision row of this call. *)
Definition recorded (request : Request) (decision : Decision) (w : World C) : Prop :=
  last (scheduler_decisions (w_db w)) = Some (decision_row (env_decision_id (C:=C)) request decision).

Definition selects (targets : list Target) (request : Request) (w' : World C) (s : Selection) : Prop :=
  exists item k,
    sound_candidate P request targets item
    /\ 0 <= k < m_MaxConcurrency (c_member item)
    /\ s_Target s = Some (c_target item)
    /\ s_CredentialID s = Some (m_CredentialID (c_member item))
    /\ s_Lease s = Some (new_lease (uuid_string (m_CredentialID (c_member item)) +:+ ":" +:+ Itoa k)
                           (uuid_string (env_owner (C:=C))))
    /\ d_SelectedTargetID (s_Decision s) = Some (t_ID (c_target item))
    /\ d_SelectedCredentialID (s_Decision s) = Some (m_CredentialID (c_member item))
    /\ d_SelectedProviderID (s_Decision s) = Some (t_ProviderID (c_target item))
    /\ recorded request (s_Decision s) w'.

Definition refuses (targets : list Target) (request : Request) (w' : World C) (s : Selection) : Prop :=
  s_Lease s = None /\ unselected (s_Decision s)
  /\ Forall rejected (d_Candidates (s_Decision s))
  /\ (forall t, t ∈ targets -> mentions (d_Candidates (s_Decision s)) (t_ID t))
  /\ recorded request (s_Decision s) w'.

(** What [Select] returns without an error, and with [ErrNoEligible]. *)
Definition outcome_ok (targets : list Target) (request : Request) (w' : World C)
    (r : Selection * option error) : Prop :=
  (r.2 = None -> selects targets request w' r.1)
  /\ (r.2 = Some ErrNoEligible -> refuses targets request w' r.1).

Lemma record_refusal_outcome targets request decision e w w' r :
  record_refusal request decision e w = (w', r) ->
  (e = ErrNoEligible -> unselected decision /\ Forall rejected (d_Candidates decision)
     /\ forall t, t ∈ targets -> mentions (d_Candidates decision) (t_ID t)) ->
  outcome_ok targets request w' r.
Proof.
  unfold record_refusal. intros (w1 & a & Ha & Hr)%st_bind_run Hd. injection Hr as <- <-.
  destruct a as [u|e']; simpl; (split; [done|]); intros [= ->].
  - destruct (Hd eq_refl) as (H1 & H2 & H3). split_and!; try done; [apply H1..|].
    by eapply record_decision_ok.
  - by destruct (record_decision_errors _ _ _ _ _ Ha).
Qed.

Lemma finish_selection_outcome targets options request key item k decision w w' r :
  sound_candidate P request targets item -> 0 <= k < m_MaxConcurrency (c_member item) ->
  finish_selection options request key item
    (new_lease (c_leaseKey item +:+ ":" +:+ Itoa k) (uuid_string (env_owner (C:=C)))) decision w = (w', r) ->
  outcome_ok targets request w' r.
Proof.
  unfold finish_selection. intros Hs Hk (w1 & d & Hd & Hr)%st_bind_run.
  apply st_bind_run in Hr as (w2 & a & Ha & Hr).
  assert (d_SelectedTargetID d = Some (t_ID (c_target item))
    /\ d_SelectedCredentialID d = Some (m_CredentialID (c_member item))
    /\ d_SelectedProviderID d = Some (t_ProviderID (c_target item))) as (H1 & H2 & H3).
  { unfold bind_affinity in Hd. destruct (String.eqb key ""); [by injection Hd as _ <-|].
    apply st_bind_run in Hd as (w3 & b & _ & Hd).
    injection Hd as _ <-. by destruct b. }
  destruct a as [u|e].
  - injection Hr as <- <-. split; [intros _|done]. exists item, k. simpl.
    pose proof Hs as (_ & _ & _ & <- & _). split; [exact Hs|]. split; [exact Hk|].
    split_and!; try done. by eapply record_decision_ok.
  - apply st_bind_run in Hr as (w3 & u & _ & Hr). injection Hr as <- <-. split; [done|].
    intros [= ->]. by destruct (record_decision_errors _ _ _ _ _ Ha).
Qed.

Lemma select_eligible_outcome targets options request eligible decision w w' r :
  evaluated P request targets targets (decision, eligible) ->
  select_eligible options request eligible decision w = (w', r) ->
  outcome_ok targets request w' r.
Proof.
  intros (Hsound & Hdec & Hun & Hmen) Hs. cbn [fst snd] in *. unfold select_eligible in Hs.
  apply st_bind_run in Hs as (w1 & a & _ & Hs).
  set (decision1 := match a with Err _ => _ | Ok _ => decision end) in Hs.
  assert (d_Candidates decision1 = d_Candidates decision /\ unselected decision1) as [Hc1 Hu1]
    by (unfold decision1; by destruct a).
  apply st_bind_run in Hs as (w2 & [ordering used] & Ho & Hs).
  destruct ordering as [ordered|e].
  2:{ eapply record_refusal_outcome; [exact Hs|]. intros ->. by apply orderCandidates_errors in Ho. }
  apply orderCandidates_respects_priorities in Ho as (Hperm & _ & _).
  apply st_bind_run in Hs as (w3 & [d acquired] & Hd & Hs).
  apply acquire_first_spec in Hd as (H1 & H2 & H3).
  - destruct acquired as [[[item lease]|]|e].
    + destruct H3 as (Hin & k & Hk & ->). rewrite Hperm in Hin. rewrite Forall_forall in Hsound.
      eapply finish_selection_outcome; [by apply Hsound|exact Hk|exact Hs].
    + eapply record_refusal_outcome; [exact Hs|]. intros _. split_and!; [apply H1..|done|].
      intros t Ht. apply H2. destruct (_ : option uuid); [destruct used|]; simpl; rewrite Hc1; by apply Hmen.
    + eapply record_refusal_outcome; [exact Hs|]. by intros ->.
  - assert (decided (d_Candidates decision1) ordered) as Hd1.
    { rewrite Hc1. by eapply decided_perm. }
    by repeat case_match.
  - by repeat case_match.
Qed.

Lemma normalizeRequest_errors request maxAge wall e :
  normalizeRequest request maxAge wall = Err e -> e = ErrInvalidInput.
Proof.
  assert (forall q d e, normalize_quota q d = Err e -> e = ErrInvalidInput) as Hq.
  { intros q d e'. unfold normalize_quota. repeat case_match; intros; by simplify_eq. }
  unfold normalizeRequest. cbv zeta. intros Hn.
  do 4 (destruct (_ : bool) in Hn; [by injection Hn as <-|]).
  apply result_bind_err in Hn as [Hn|(? & _ & ?)]; [by eapply Hq|done].
Qed.

Lemma Select_outcome options request w w' r :
  P (w_db w) -> Select options request w = (w', r) ->
  (exists request', normalizeRequest request (o_QuotaMaxAge options) (env_now (C:=C)) = Ok request'
     /\ outcome_ok (Candidates (rq_Resolution request')) request' w' r)
  \/ (exists e, r.2 = Some e /\ e <> ErrNoEligible).
Proof.
  intros HP Hs. unfold Select in Hs. destruct (normalizeRequest _ _ _) as [request'|e] eqn:Hn.
  2:{ injection Hs as _ <-. right. exists e. split; [done|].
      by rewrite (normalizeRequest_errors _ _ _ _ Hn). }
  apply st_bind_run in Hs as (w1 & [d evaluated] & He & Hs).
  pose proof He as He'.
  apply (evaluate_targets_spec P P_others request' (Candidates (rq_Resolution request')) _ []) in He
    as [Hun Hev]; [|done|done|].
  2:{ split_and!; try done. intros t Ht. by apply elem_of_nil in Ht. }
  destruct evaluated as [el|e].
  - left. exists request'. split; [done|]. pose proof (Hev el eq_refl) as Hel. destruct el as [|c cs].
    + eapply record_refusal_outcome; [exact Hs|]. intros _. destruct Hel as (_ & Hdec & _ & Hmen).
      split_and!; [apply Hun..| |exact Hmen]. apply Forall_lookup. intros i cd Hi.
      destruct (Hdec i cd Hi) as [?|(? & Hin & _)]; [done|]. by apply elem_of_nil in Hin.
    + by eapply select_eligible_outcome.
  - right. injection Hs as _ <-. exists e. split; [done|]. by eapply evaluate_targets_errors.
Qed.

(** C35: a selection is one that the request and the live rows allow: the target
    is one of the resolution's and has no reason against it; the credential is a
    member of its pool, without a reason against it; the lease is one of its
    [MaxConcurrency] slots, under this call's owner token; and the decision that
    names target, provider and credential is recorded. *)
Theorem Select_returns_an_eligible_slot options request w w' selection :
  P (w_db w) -> Select options request w = (w', (selection, None)) ->
  exists request', normalizeRequest request (o_QuotaMaxAge options) (env_now (C:=C)) = Ok request'
    /\ selects (Candidates (rq_Resolution request')) request' w' selection.
Proof.
  intros HP Hs. destruct (Select_outcome _ _ _ _ _ HP Hs) as [(r' & Hn & [Hok _])|(e & He & _)]; [|done].
  exists r'. split; [done|]. by apply Hok.
Qed.

(** a refusal is explained: when [Select] answers [ErrNoEligible] nothing is
    selected, and the recorded decision has an entry for every target of the
    resolution, each entry not eligible with at least one reason. *)
Theorem Select_explains_refusals options request w w' selection :
  P (w_db w) -> Select options request w = (w', (selection, Some ErrNoEligible)) ->
  exists request', normalizeRequest request (o_QuotaMaxAge options) (env_now (C:=C)) = Ok request'
    /\ refuses (Candidates (rq_Resolution request')) request' w' selection.
Proof.
  intros HP Hs. destruct (Select_outcome _ _ _ _ _ HP Hs) as [(r' & Hn & [_ Hok])|(e & He & ?)].
  - exists r'. split; [done|]. by apply Hok.
  - simpl in He. congruence.
Qed.
End outcomes.
End SelectTheorems.

(** * A concrete pool and the selections of one request

    Two credentials in one pool, a memory coordinator and an environment in which
    another request already holds the only slot of the first credential; the
    witnesses of the scheduler's theorems. *)

From stdpp Require Import base gmap strings list sorting.
From Stdlib Require Import ZArith Lia Ascii String.
From S2P Require Import Prelude GoLib SchedulerModel Coordinator CoordinatorImpl.
From S2P Require Import CoordinatorTheorems CoordinatorDemo SchedulerRepo Scheduler SchedulerOrder.
From S2P Require Import SchedulerProofs SelectLeases SelectFacts.

Module SelectDemo.
Import Sched Coordinator CoordinatorSpec CoordinatorImpl CoordinatorTheorems CoordinatorDemo SchedulerRepo Scheduler.
Import SchedulerOrder SchedulerProofs SelectLeases SelectFacts SelectTheorems.

#[export] Instance demo_decision_guard : DecisionGuard := fun _ => None.

(** The [n]-th call is made at [100 + n]; another request's history runs before
    the first call: it leases the only slot of credential 11. *)
Definition other_call : Call := at_ 100.
Definition other_op : op := OAcquire "11:0" "other" 1000.
#[export] Instance demo_env : Env memoryCoordinator := {|
  env_now := 100; env_owner := 77%N; env_decision_id := 88%N;
  env_call := fun n => at_ (100 + Z.of_nat n);
  env_others := fun n c d => (match n with O => (run other_call other_op c).1 | _ => c end, d) |}.

#[export] Instance demo_others : OtherRequests (C:=memoryCoordinator) 100.
Proof.
  split.
  - intros [|n] c d.
    + destruct (run other_call other_op c) as [c' res] eqn:Hr.
      exists [(other_call, other_op, res)], 100. split_and!.
      * assert ((env_others (C:=memoryCoordinator) 0 c d).1 = c') as ->.
        { change ((run other_call other_op c).1 = c'). by rewrite Hr. }
        eapply runs_cons; [done|apply at_wf|exact Hr|]. constructor.
      * done.
      * constructor; [|constructor]. vm_compute. discriminate.
    + exists [], (100 + Z.of_nat n). split_and!; [constructor|unfold started; simpl; lia|constructor].
  - intros n. apply at_wf.
Qed.

Lemma demo_wire : wire_ok (C:=memoryCoordinator).
Proof. intros n. split; [by left|done]. Qed.

Definition demo_member_row (id : uuid) (enabled : bool) : PoolMemberRow :=
  {| pm_pool_id := 3%N; pm_credential_id := id; pm_priority := 0; pm_weight := 1; pm_enabled := enabled |}.
Definition demo_credential : CredentialRow :=
  {| cr_provider_id := 4%N; cr_status := "active"; cr_max_concurrency := 1; cr_region := "";
     cr_proxy_ref := ""; cr_deleted := false |}.
Definition demo_rows (enabled : bool) : SchedDB :=
  {| pool_members := [demo_member_row 12%N enabled; demo_member_row 11%N enabled];
     credentials := <[11%N := demo_credential]> (<[12%N := demo_credential]> ∅);
     providers := <[4%N := {| pr_slug := "p"; pr_enabled := true |}]> ∅;
     cooldowns := ∅; quota_snapshots := []; scheduler_decisions := [] |}.

Definition demo_request : Request :=
  {| rq_RequestID := "req-1"; rq_RequestRecordID := None; rq_AttemptNo := 0; rq_DecisionNo := 0;
     rq_Resolution := {| VersionID := 1%N; RouteID := 9%N; Candidates := [some_target 5%N 0 1] |};
     rq_Protocol := ""; rq_RequiredCapabilities := no_capabilities; rq_Region := "";
     rq_ProxyRef := ""; rq_RequireProxy := false;
     rq_Quota := {| qp_Enabled := false; qp_WindowKind := ""; qp_RequiredTokens := 0;
                    qp_MaxAge := 0; qp_RequireFresh := false |};
     rq_Strategy := ""; rq_AffinityKey := "user"; rq_Now := 120 |}.
Definition demo_options : Options :=
  {| o_LeaseTTL := 500; o_AffinityTTL := 500; o_CursorTTL := 500; o_QuotaMaxAge := 500 |}.

Definition demo_world (enabled : bool) : World memoryCoordinator :=
  mkWorld NewMemoryCoordinator (demo_rows enabled) 0.

Lemma demo_world_holds enabled : holds_only 100 (demo_world enabled) [].
Proof.
  exists empty_view. split; [apply NewMemoryCoordinator_repr|]. split; [by left|done].
Qed.

(** The first credential is busy: the second is selected. *)
Lemma Select_leaks_no_lease_witness :
  exists w' selection lease, Select demo_options demo_request (demo_world true) = (w', (selection, None))
    /\ s_CredentialID selection = Some 12%N /\ s_Lease selection = Some lease
    /\ holds_only 100 w' [ls_resource lease].
Proof.
  destruct (Select demo_options demo_request (demo_world true)) as [w' [selection err]] eqn:Hs.
  pose proof (Select_leaks_no_lease 100 demo_options demo_request (demo_world true) w' selection err) as H.
  assert (err = None /\ s_CredentialID selection = Some 12%N) as [He Hc].
  { vm_compute in Hs. injection Hs as _ <- <-. split; reflexivity. }
  rewrite He in H, Hs |- *. destruct H as (lease & Hl & _ & Hh).
  - apply demo_wire.
  - apply demo_world_holds.
  - exact Hs.
  - exists w', selection, lease. split; [reflexivity|]. split; [exact Hc|]. split; [exact Hl|exact Hh].
Defined.

Lemma Select_returns_an_eligible_slot_witness :
  exists w' selection request', Select demo_options demo_request (demo_world true) = (w', (selection, None))
    /\ selects (fun _ => True) (Candidates (rq_Resolution request')) request' w' selection.
Proof.
  destruct (Select demo_options demo_request (demo_world true)) as [w' [selection err]] eqn:Hs.
  pose proof (Select_returns_an_eligible_slot (fun _ => True) (fun _ _ _ H => H)
    demo_options demo_request (demo_world true) w' selection) as H.
  assert (err = None) as He by (vm_compute in Hs; injection Hs as _ _ <-; reflexivity).
  rewrite He in Hs |- *. destruct H as (request' & _ & Hsel).
  - exact I.
  - exact Hs.
  - exists w', selection, request'. split; [reflexivity|exact Hsel].
Defined.

Lemma Select_explains_refusals_witness :
  exists w' selection request',
    Select demo_options demo_request (demo_world false) = (w', (selection, Some ErrNoEligible))
    /\ refuses (Candidates (rq_Resolution request')) request' w' selection.
Proof.
  destruct (Select demo_options demo_request (demo_world false)) as [w' [selection err]] eqn:Hs.
  pose proof (Select_explains_refusals (fun _ => True) (fun _ _ _ H => H)
    demo_options demo_request (demo_world false) w' selection) as H.
  assert (err = Some ErrNoEligible) as He by (vm_compute in Hs; injection Hs as _ _ <-; reflexivity).
  rewrite He in Hs |- *. destruct H as (request' & _ & Href).
  - exact I.
  - exact Hs.
  - exists w', selection, request'. split; [reflexivity|exact Href].
Defined.

(** Two groups: the affine credential 22 moves to the front of the first. *)
Definition demo_candidate (id : uuid) (priority weight : Z) : candidate :=
  new_candidate demo_request (some_target 5%N priority 1)
    (some_member id weight (with_quota None 0)) 0.
Definition demo_values : list candidate :=
  [demo_candidate 31%N 1 1; demo_candidate 21%N 0 3; demo_candidate 22%N 0 2].

Definition fill_first_request : Request :=
  {| rq_RequestID := "r"; rq_RequestRecordID := None; rq_AttemptNo := 0; rq_DecisionNo := 0;
     rq_Resolution := rq_Resolution demo_request; rq_Protocol := "";
     rq_RequiredCapabilities := no_capabilities; rq_Region := ""; rq_ProxyRef := "";
     rq_RequireProxy := false; rq_Quota := rq_Quota demo_request;
     rq_Strategy := StrategyFillFirst; rq_AffinityKey := ""; rq_Now := 1 |}.

Lemma orderCandidates_respects_priorities_witness :
  exists ordered, (fun c => m_CredentialID (c_member c)) <$> ordered = [22%N; 21%N; 31%N]
    /\ ordered ≡ₚ demo_values /\ StronglySorted group_le ordered.
Proof.
  destruct (orderCandidates demo_options fill_first_request demo_values (Some 22%N) (demo_world true))
    as [w' [[ordered|e] used]] eqn:Ho; [|vm_compute in Ho; discriminate].
  destruct (orderCandidates_respects_priorities demo_options fill_first_request demo_values
    (Some 22%N) (demo_world true) w' ordered used) as (Hp & Hs & _).
  - exact Ho.
  - exists ordered. split; [|split; [exact Hp|exact Hs]].
    vm_compute in Ho. injection Ho as _ <- _. reflexivity.
Defined.

(** Weights 3 and 2: of five slots, three serve the first. *)
Lemma weighted_round_robin_shares_witness :
  let values := [demo_candidate 21%N 0 3; demo_candidate 22%N 0 2] in
  totalWeight values = 5
  /\ slots_with 5 (fun slot => weightedStart values slot =? 0) = 3.
Proof.
  intros values.
  destruct (weighted_round_robin_shares values 0 (demo_candidate 21%N 0 3)) as (H1 & H2 & _).
  - split; [repeat constructor; vm_compute; discriminate|vm_compute; discriminate].
  - reflexivity.
  - split; [exact H1|]. assert (totalWeight values = 5) as E by exact H1. rewrite E in H2. exact H2.
Defined.
End SelectDemo.
