(* ===== verification/PaymentModel.v ===== *)
(** * Package [internal/payment]: data and input validation

    The records, statuses and errors of [model.go], the provider types and the
    validation functions of [provider.go] and [service.go].  A text column that is
    NULL is the empty string, as [scanOrder] reads it; the CHECK constraints refuse
    to store an empty text. *)

From stdpp Require Import base gmap strings list sorting.
From Stdlib Require Import ZArith Lia Ascii String.
From S2P Require Import Prelude GoLib Usage Pricing BillingModel Money Store Coordinator.

Module Payment.
Import Usage.
Import Coordinator(Sha256Hex, sha256_hex).

(** ** Statuses *)
Definition StatusCreated : string := "created".
Definition StatusPending : string := "pending".
Definition StatusPaid : string := "paid".
Definition StatusFailed : string := "failed".
Definition StatusExpired : string := "expired".
Definition StatusRefundPending : string := "refund_pending".
Definition StatusRefunded : string := "refunded".
Definition StatusClosed : string := "closed".

Definition EventPending : string := "pending".
Definition EventPaid : string := "paid".
Definition EventFailed : string := "failed".
Definition EventExpired : string := "expired".
Definition EventRefunded : string := "refunded".
Definition EventRefundFailed : string := "refund_failed".
Definition EventClosed : string := "closed".
Definition EventDisputeOpened : string := "dispute_opened".
Definition EventDisputeWon : string := "dispute_won".
Definition EventDisputeLost : string := "dispute_lost".

Definition ProcessingPending : string := "pending".
Definition ProcessingProcessed : string := "processed".
Definition ProcessingRejected : string := "rejected".

Definition VoucherActive : string := "active".
Definition VoucherRedeemed : string := "redeemed".
Definition VoucherRevoked : string := "revoked".
Definition VoucherExpired : string := "expired".

Definition OperationCreate : string := "create".
Definition OperationRefund : string := "refund".
Definition OperationPending : string := "pending".
Definition OperationProcessing : string := "processing".
Definition OperationRetryable : string := "retryable".
Definition OperationSucceeded : string := "succeeded".
Definition OperationDefinitiveFailed : string := "definitive_failed".

Definition VerificationWebhook : string := "webhook_signature".
Definition VerificationProvider : string := "provider_api".

(** ** Errors *)
Inductive error :=
| ErrInvalidInput
| ErrNotFound
| ErrConflict
| ErrInvalidTransition
| ErrProviderUnavailable
| ErrProviderRejected
| ErrOperationPending
| ErrWebhookInvalid
| ErrWebhookIgnored
| ErrWebhookReplay
| ErrWebhookMismatch
| ErrRefundPending
| ErrInsufficientFunds
| ErrOrderLimit
| ErrVoucherInvalid
| ErrVoucherUnavailable
| EInner (e : Billing.error)     (* an error of billing or audit, returned as it is *)
| EDatabase (e : sqlerr)         (* an error of pgx, wrapped or as it is *)
| EGenerateID                    (* id.New failed *)
| ESecret.                       (* the keyring or the random source failed *)

(** ** Records *)
Record Order := mkOrder {
  o_ID : uuid;
  o_OrderNo : string;
  o_UserID : uuid;
  o_AmountMinor : Z;
  o_Currency : string;
  o_PaymentProvider : string;
  o_MerchantID : string;
  o_ProviderLiveMode : option bool;
  o_ProviderTradeNo : string;
  o_ProviderRefundNo : string;
  o_ProviderPaymentIntentNo : string;
  o_ProviderChargeNo : string;
  o_Status : string;
  o_IdempotencyKey : string;
  o_CheckoutData : gmap string string;
  o_FailureClass : string;
  o_WalletID : option uuid;
  o_RechargeLedgerID : option uuid;
  o_RefundHoldLedgerID : option uuid;
  o_RefundLedgerID : option uuid;
  o_ExternalRefundedAmountMinor : Z;
  o_UpdatedBy : option uuid;
  o_ExpiresAt : option time;
  o_PaidAt : option time;
  o_RefundedAt : option time;
  o_ClosedAt : option time;
  o_CreatedAt : time;
  o_UpdatedAt : time
}.

(** One column of an [UPDATE payment_orders SET]. *)
Definition set_MerchantID (v : string) (o : Order) : Order :=
  mkOrder
    (o_ID o) (o_OrderNo o) (o_UserID o) (o_AmountMinor o) (o_Currency o) (o_PaymentProvider o) v
    (o_ProviderLiveMode o) (o_ProviderTradeNo o) (o_ProviderRefundNo o) (o_ProviderPaymentIntentNo o)
    (o_ProviderChargeNo o) (o_Status o) (o_IdempotencyKey o) (o_CheckoutData o) (o_FailureClass o)
    (o_WalletID o) (o_RechargeLedgerID o) (o_RefundHoldLedgerID o) (o_RefundLedgerID o)
    (o_ExternalRefundedAmountMinor o) (o_UpdatedBy o) (o_ExpiresAt o) (o_PaidAt o) (o_RefundedAt o)
    (o_ClosedAt o) (o_CreatedAt o) (o_UpdatedAt o).
Definition set_ProviderLiveMode (v : option bool) (o : Order) : Order :=
  mkOrder
    (o_ID o) (o_OrderNo o) (o_UserID o) (o_AmountMinor o) (o_Currency o) (o_PaymentProvider o)
    (o_MerchantID o) v (o_ProviderTradeNo o) (o_ProviderRefundNo o) (o_ProviderPaymentIntentNo o)
    (o_ProviderChargeNo o) (o_Status o) (o_IdempotencyKey o) (o_CheckoutData o) (o_FailureClass o)
    (o_WalletID o) (o_RechargeLedgerID o) (o_RefundHoldLedgerID o) (o_RefundLedgerID o)
    (o_ExternalRefundedAmountMinor o) (o_UpdatedBy o) (o_ExpiresAt o) (o_PaidAt o) (o_RefundedAt o)
    (o_ClosedAt o) (o_CreatedAt o) (o_UpdatedAt o).
Definition set_ProviderTradeNo (v : string) (o : Order) : Order :=
  mkOrder
    (o_ID o) (o_OrderNo o) (o_UserID o) (o_AmountMinor o) (o_Currency o) (o_PaymentProvider o)
    (o_MerchantID o) (o_ProviderLiveMode o) v (o_ProviderRefundNo o) (o_ProviderPaymentIntentNo o)
    (o_ProviderChargeNo o) (o_Status o) (o_IdempotencyKey o) (o_CheckoutData o) (o_FailureClass o)
    (o_WalletID o) (o_RechargeLedgerID o) (o_RefundHoldLedgerID o) (o_RefundLedgerID o)
    (o_ExternalRefundedAmountMinor o) (o_UpdatedBy o) (o_ExpiresAt o) (o_PaidAt o) (o_RefundedAt o)
    (o_ClosedAt o) (o_CreatedAt o) (o_UpdatedAt o).
Definition set_ProviderRefundNo (v : string) (o : Order) : Order :=
  mkOrder
    (o_ID o) (o_OrderNo o) (o_UserID o) (o_AmountMinor o) (o_Currency o) (o_PaymentProvider o)
    (o_MerchantID o) (o_ProviderLiveMode o) (o_ProviderTradeNo o) v (o_ProviderPaymentIntentNo o)
    (o_ProviderChargeNo o) (o_Status o) (o_IdempotencyKey o) (o_CheckoutData o) (o_FailureClass o)
    (o_WalletID o) (o_RechargeLedgerID o) (o_RefundHoldLedgerID o) (o_RefundLedgerID o)
    (o_ExternalRefundedAmountMinor o) (o_UpdatedBy o) (o_ExpiresAt o) (o_PaidAt o) (o_RefundedAt o)
    (o_ClosedAt o) (o_CreatedAt o) (o_UpdatedAt o).
Definition set_ProviderPaymentIntentNo (v : string) (o : Order) : Order :=
  mkOrder
    (o_ID o) (o_OrderNo o) (o_UserID o) (o_AmountMinor o) (o_Currency o) (o_PaymentProvider o)
    (o_MerchantID o) (o_ProviderLiveMode o) (o_ProviderTradeNo o) (o_ProviderRefundNo o) v
    (o_ProviderChargeNo o) (o_Status o) (o_IdempotencyKey o) (o_CheckoutData o) (o_FailureClass o)
    (o_WalletID o) (o_RechargeLedgerID o) (o_RefundHoldLedgerID o) (o_RefundLedgerID o)
    (o_ExternalRefundedAmountMinor o) (o_UpdatedBy o) (o_ExpiresAt o) (o_PaidAt o) (o_RefundedAt o)
    (o_ClosedAt o) (o_CreatedAt o) (o_UpdatedAt o).
Definition set_ProviderChargeNo (v : string) (o : Order) : Order :=
  mkOrder
    (o_ID o) (o_OrderNo o) (o_UserID o) (o_AmountMinor o) (o_Currency o) (o_PaymentProvider o)
    (o_MerchantID o) (o_ProviderLiveMode o) (o_ProviderTradeNo o) (o_ProviderRefundNo o)
    (o_ProviderPaymentIntentNo o) v (o_Status o) (o_IdempotencyKey o) (o_CheckoutData o)
    (o_FailureClass o) (o_WalletID o) (o_RechargeLedgerID o) (o_RefundHoldLedgerID o)
    (o_RefundLedgerID o) (o_ExternalRefundedAmountMinor o) (o_UpdatedBy o) (o_ExpiresAt o) (o_PaidAt o)
    (o_RefundedAt o) (o_ClosedAt o) (o_CreatedAt o) (o_UpdatedAt o).
Definition set_Status (v : string) (o : Order) : Order :=
  mkOrder
    (o_ID o) (o_OrderNo o) (o_UserID o) (o_AmountMinor o) (o_Currency o) (o_PaymentProvider o)
    (o_MerchantID o) (o_ProviderLiveMode o) (o_ProviderTradeNo o) (o_ProviderRefundNo o)
    (o_ProviderPaymentIntentNo o) (o_ProviderChargeNo o) v (o_IdempotencyKey o) (o_CheckoutData o)
    (o_FailureClass o) (o_WalletID o) (o_RechargeLedgerID o) (o_RefundHoldLedgerID o)
    (o_RefundLedgerID o) (o_ExternalRefundedAmountMinor o) (o_UpdatedBy o) (o_ExpiresAt o) (o_PaidAt o)
    (o_RefundedAt o) (o_ClosedAt o) (o_CreatedAt o) (o_UpdatedAt o).
Definition set_CheckoutData (v : gmap string string) (o : Order) : Order :=
  mkOrder
    (o_ID o) (o_OrderNo o) (o_UserID o) (o_AmountMinor o) (o_Currency o) (o_PaymentProvider o)
    (o_MerchantID o) (o_ProviderLiveMode o) (o_ProviderTradeNo o) (o_ProviderRefundNo o)
    (o_ProviderPaymentIntentNo o) (o_ProviderChargeNo o) (o_Status o) (o_IdempotencyKey o) v
    (o_FailureClass o) (o_WalletID o) (o_RechargeLedgerID o) (o_RefundHoldLedgerID o)
    (o_RefundLedgerID o) (o_ExternalRefundedAmountMinor o) (o_UpdatedBy o) (o_ExpiresAt o) (o_PaidAt o)
    (o_RefundedAt o) (o_ClosedAt o) (o_CreatedAt o) (o_UpdatedAt o).
Definition set_FailureClass (v : string) (o : Order) : Order :=
  mkOrder
    (o_ID o) (o_OrderNo o) (o_UserID o) (o_AmountMinor o) (o_Currency o) (o_PaymentProvider o)
    (o_MerchantID o) (o_ProviderLiveMode o) (o_ProviderTradeNo o) (o_ProviderRefundNo o)
    (o_ProviderPaymentIntentNo o) (o_ProviderChargeNo o) (o_Status o) (o_IdempotencyKey o)
    (o_CheckoutData o) v (o_WalletID o) (o_RechargeLedgerID o) (o_RefundHoldLedgerID o)
    (o_RefundLedgerID o) (o_ExternalRefundedAmountMinor o) (o_UpdatedBy o) (o_ExpiresAt o) (o_PaidAt o)
    (o_RefundedAt o) (o_ClosedAt o) (o_CreatedAt o) (o_UpdatedAt o).
Definition set_WalletID (v : option uuid) (o : Order) : Order :=
  mkOrder
    (o_ID o) (o_OrderNo o) (o_UserID o) (o_AmountMinor o) (o_Currency o) (o_PaymentProvider o)
    (o_MerchantID o) (o_ProviderLiveMode o) (o_ProviderTradeNo o) (o_ProviderRefundNo o)
    (o_ProviderPaymentIntentNo o) (o_ProviderChargeNo o) (o_Status o) (o_IdempotencyKey o)
    (o_CheckoutData o) (o_FailureClass o) v (o_RechargeLedgerID o) (o_RefundHoldLedgerID o)
    (o_RefundLedgerID o) (o_ExternalRefundedAmountMinor o) (o_UpdatedBy o) (o_ExpiresAt o) (o_PaidAt o)
    (o_RefundedAt o) (o_ClosedAt o) (o_CreatedAt o) (o_UpdatedAt o).
Definition set_RechargeLedgerID (v : option uuid) (o : Order) : Order :=
  mkOrder
    (o_ID o) (o_OrderNo o) (o_UserID o) (o_AmountMinor o) (o_Currency o) (o_PaymentProvider o)
    (o_MerchantID o) (o_ProviderLiveMode o) (o_ProviderTradeNo o) (o_ProviderRefundNo o)
    (o_ProviderPaymentIntentNo o) (o_ProviderChargeNo o) (o_Status o) (o_IdempotencyKey o)
    (o_CheckoutData o) (o_FailureClass o) (o_WalletID o) v (o_RefundHoldLedgerID o)
    (o_RefundLedgerID o) (o_ExternalRefundedAmountMinor o) (o_UpdatedBy o) (o_ExpiresAt o) (o_PaidAt o)
    (o_RefundedAt o) (o_ClosedAt o) (o_CreatedAt o) (o_UpdatedAt o).
Definition set_RefundHoldLedgerID (v : option uuid) (o : Order) : Order :=
  mkOrder
    (o_ID o) (o_OrderNo o) (o_UserID o) (o_AmountMinor o) (o_Currency o) (o_PaymentProvider o)
    (o_MerchantID o) (o_ProviderLiveMode o) (o_ProviderTradeNo o) (o_ProviderRefundNo o)
    (o_ProviderPaymentIntentNo o) (o_ProviderChargeNo o) (o_Status o) (o_IdempotencyKey o)
    (o_CheckoutData o) (o_FailureClass o) (o_WalletID o) (o_RechargeLedgerID o) v (o_RefundLedgerID o)
    (o_ExternalRefundedAmountMinor o) (o_UpdatedBy o) (o_ExpiresAt o) (o_PaidAt o) (o_RefundedAt o)
    (o_ClosedAt o) (o_CreatedAt o) (o_UpdatedAt o).
Definition set_RefundLedgerID (v : option uuid) (o : Order) : Order :=
  mkOrder
    (o_ID o) (o_OrderNo o) (o_UserID o) (o_AmountMinor o) (o_Currency o) (o_PaymentProvider o)
    (o_MerchantID o) (o_ProviderLiveMode o) (o_ProviderTradeNo o) (o_ProviderRefundNo o)
    (o_ProviderPaymentIntentNo o) (o_ProviderChargeNo o) (o_Status o) (o_IdempotencyKey o)
    (o_CheckoutData o) (o_FailureClass o) (o_WalletID o) (o_RechargeLedgerID o)
    (o_RefundHoldLedgerID o) v (o_ExternalRefundedAmountMinor o) (o_UpdatedBy o) (o_ExpiresAt o)
    (o_PaidAt o) (o_RefundedAt o) (o_ClosedAt o) (o_CreatedAt o) (o_UpdatedAt o).
Definition set_ExternalRefundedAmountMinor (v : Z) (o : Order) : Order :=
  mkOrder
    (o_ID o) (o_OrderNo o) (o_UserID o) (o_AmountMinor o) (o_Currency o) (o_PaymentProvider o)
    (o_MerchantID o) (o_ProviderLiveMode o) (o_ProviderTradeNo o) (o_ProviderRefundNo o)
    (o_ProviderPaymentIntentNo o) (o_ProviderChargeNo o) (o_Status o) (o_IdempotencyKey o)
    (o_CheckoutData o) (o_FailureClass o) (o_WalletID o) (o_RechargeLedgerID o)
    (o_RefundHoldLedgerID o) (o_RefundLedgerID o) v (o_UpdatedBy o) (o_ExpiresAt o) (o_PaidAt o)
    (o_RefundedAt o) (o_ClosedAt o) (o_CreatedAt o) (o_UpdatedAt o).
Definition set_UpdatedBy (v : option uuid) (o : Order) : Order :=
  mkOrder
    (o_ID o) (o_OrderNo o) (o_UserID o) (o_AmountMinor o) (o_Currency o) (o_PaymentProvider o)
    (o_MerchantID o) (o_ProviderLiveMode o) (o_ProviderTradeNo o) (o_ProviderRefundNo o)
    (o_ProviderPaymentIntentNo o) (o_ProviderChargeNo o) (o_Status o) (o_IdempotencyKey o)
    (o_CheckoutData o) (o_FailureClass o) (o_WalletID o) (o_RechargeLedgerID o)
    (o_RefundHoldLedgerID o) (o_RefundLedgerID o) (o_ExternalRefundedAmountMinor o) v (o_ExpiresAt o)
    (o_PaidAt o) (o_RefundedAt o) (o_ClosedAt o) (o_CreatedAt o) (o_UpdatedAt o).
Definition set_ExpiresAt (v : option time) (o : Order) : Order :=
  mkOrder
    (o_ID o) (o_OrderNo o) (o_UserID o) (o_AmountMinor o) (o_Currency o) (o_PaymentProvider o)
    (o_MerchantID o) (o_ProviderLiveMode o) (o_ProviderTradeNo o) (o_ProviderRefundNo o)
    (o_ProviderPaymentIntentNo o) (o_ProviderChargeNo o) (o_Status o) (o_IdempotencyKey o)
    (o_CheckoutData o) (o_FailureClass o) (o_WalletID o) (o_RechargeLedgerID o)
    (o_RefundHoldLedgerID o) (o_RefundLedgerID o) (o_ExternalRefundedAmountMinor o) (o_UpdatedBy o) v
    (o_PaidAt o) (o_RefundedAt o) (o_ClosedAt o) (o_CreatedAt o) (o_UpdatedAt o).
Definition set_PaidAt (v : option time) (o : Order) : Order :=
  mkOrder
    (o_ID o) (o_OrderNo o) (o_UserID o) (o_AmountMinor o) (o_Currency o) (o_PaymentProvider o)
    (o_MerchantID o) (o_ProviderLiveMode o) (o_ProviderTradeNo o) (o_ProviderRefundNo o)
    (o_ProviderPaymentIntentNo o) (o_ProviderChargeNo o) (o_Status o) (o_IdempotencyKey o)
    (o_CheckoutData o) (o_FailureClass o) (o_WalletID o) (o_RechargeLedgerID o)
    (o_RefundHoldLedgerID o) (o_RefundLedgerID o) (o_ExternalRefundedAmountMinor o) (o_UpdatedBy o)
    (o_ExpiresAt o) v (o_RefundedAt o) (o_ClosedAt o) (o_CreatedAt o) (o_UpdatedAt o).
Definition set_RefundedAt (v : option time) (o : Order) : Order :=
  mkOrder
    (o_ID o) (o_OrderNo o) (o_UserID o) (o_AmountMinor o) (o_Currency o) (o_PaymentProvider o)
    (o_MerchantID o) (o_ProviderLiveMode o) (o_ProviderTradeNo o) (o_ProviderRefundNo o)
    (o_ProviderPaymentIntentNo o) (o_ProviderChargeNo o) (o_Status o) (o_IdempotencyKey o)
    (o_CheckoutData o) (o_FailureClass o) (o_WalletID o) (o_RechargeLedgerID o)
    (o_RefundHoldLedgerID o) (o_RefundLedgerID o) (o_ExternalRefundedAmountMinor o) (o_UpdatedBy o)
    (o_ExpiresAt o) (o_PaidAt o) v (o_ClosedAt o) (o_CreatedAt o) (o_UpdatedAt o).
Definition set_ClosedAt (v : option time) (o : Order) : Order :=
  mkOrder
    (o_ID o) (o_OrderNo o) (o_UserID o) (o_AmountMinor o) (o_Currency o) (o_PaymentProvider o)
    (o_MerchantID o) (o_ProviderLiveMode o) (o_ProviderTradeNo o) (o_ProviderRefundNo o)
    (o_ProviderPaymentIntentNo o) (o_ProviderChargeNo o) (o_Status o) (o_IdempotencyKey o)
    (o_CheckoutData o) (o_FailureClass o) (o_WalletID o) (o_RechargeLedgerID o)
    (o_RefundHoldLedgerID o) (o_RefundLedgerID o) (o_ExternalRefundedAmountMinor o) (o_UpdatedBy o)
    (o_ExpiresAt o) (o_PaidAt o) (o_RefundedAt o) v (o_CreatedAt o) (o_UpdatedAt o).
Definition set_UpdatedAt (v : time) (o : Order) : Order :=
  mkOrder
    (o_ID o) (o_OrderNo o) (o_UserID o) (o_AmountMinor o) (o_Currency o) (o_PaymentProvider o)
    (o_MerchantID o) (o_ProviderLiveMode o) (o_ProviderTradeNo o) (o_ProviderRefundNo o)
    (o_ProviderPaymentIntentNo o) (o_ProviderChargeNo o) (o_Status o) (o_IdempotencyKey o)
    (o_CheckoutData o) (o_FailureClass o) (o_WalletID o) (o_RechargeLedgerID o)
    (o_RefundHoldLedgerID o) (o_RefundLedgerID o) (o_ExternalRefundedAmountMinor o) (o_UpdatedBy o)
    (o_ExpiresAt o) (o_PaidAt o) (o_RefundedAt o) (o_ClosedAt o) (o_CreatedAt o) v.

Record VerifiedEvent := {
  ve_ProviderEventID : string;
  ve_MerchantID : string;
  ve_LiveMode : bool;
  ve_OrderNo : string;
  ve_ProviderTradeNo : string;
  ve_ProviderRefundNo : string;
  ve_ProviderPaymentIntentNo : string;
  ve_ProviderChargeNo : string;
  ve_ProviderDisputeNo : string;
  ve_EventType : string;
  ve_AmountMinor : Z;
  ve_Currency : string;
  ve_OccurredAt : time
}.

(** [Event] joined with its processing row, and the payload hash of
    [persistedEvent].  [AmountMinor], [ProviderLiveMode] and [OccurredAt] are NULL
    only in the rows of a retired schema, which no code writes. *)
Record PEvent := {
  pe_ID : uuid;
  pe_PaymentProvider : string;
  pe_ProviderEventID : string;
  pe_OrderID : option uuid;
  pe_ProviderTradeNo : string;
  pe_ProviderRefundNo : string;
  pe_ProviderPaymentIntentNo : string;
  pe_ProviderChargeNo : string;
  pe_ProviderDisputeNo : string;
  pe_EventType : string;
  pe_AmountMinor : option Z;
  pe_Currency : string;
  pe_MerchantID : string;
  pe_ProviderLiveMode : option bool;
  pe_SignatureVerified : bool;
  pe_VerificationSource : string;
  pe_OccurredAt : option time;
  pe_ReceivedAt : time;
  pe_ProcessingStatus : string;
  pe_ErrorClass : string;
  pe_payloadHash : string
}.

Record Voucher := {
  vc_ID : uuid;
  vc_CodePrefix : string;
  vc_AmountMinor : Z;
  vc_Currency : string;
  vc_Status : string;
  vc_ExpiresAt : option time;
  vc_CreatedBy : uuid;
  vc_RedeemedBy : option uuid;
  vc_RedeemedAt : option time;
  vc_CreatedAt : time;
  vc_UpdatedAt : time;
  vc_CodeCiphertext : string;
  vc_CodeNonce : string;
  vc_CodeHash : string;
  vc_CodeKeyVersion : string;
  vc_IdempotencyKey : string
}.

Record CreateOrderInput := {
  co_UserID : uuid;
  co_AmountMinor : Z;
  co_Currency : string;
  co_PaymentProvider : string;
  co_IdempotencyKey : string
}.

Record ProviderOperation := {
  op_ID : uuid;
  op_PaymentOrderID : uuid;
  op_OperationType : string;
  op_PayloadSHA256 : string;
  op_MerchantID : string;
  op_ProviderLiveMode : bool;
  op_Status : string;
  op_OwnerToken : option uuid;
  op_LeaseExpiresAt : option time;
  op_NextAttemptAt : time;
  op_Attempts : Z;
  op_ProviderReference : string;
  op_LastErrorClass : string;
  op_CreatedAt : time;
  op_UpdatedAt : time
}.

Record ProviderOperationClaim := {
  cl_Order : Order;
  cl_Operation : ProviderOperation;
  cl_Claimed : bool
}.

Record ManualRechargeInput := {
  mr_OperatorUserID : uuid;
  mr_UserID : uuid;
  mr_AmountMinor : Z;
  mr_Currency : string;
  mr_RequestID : string;
  mr_IdempotencyKey : string
}.

Record CreateVoucherInput := {
  cv_OperatorUserID : uuid;
  cv_AmountMinor : Z;
  cv_IdempotencyKey : string;
  cv_Currency : string;
  cv_ExpiresAt : option time;
  cv_RequestID : string
}.

Record RedeemVoucherInput := {
  rv_UserID : uuid;
  rv_Code : string;
  rv_RequestID : string
}.

Record RefundInput := {
  rf_OperatorUserID : uuid;
  rf_OrderNo : string;
  rf_RequestID : string
}.

Record CloseInput := {
  ci_OperatorUserID : uuid;
  ci_OrderNo : string;
  ci_RequestID : string
}.

Record WebhookResult := {
  wr_Event : PEvent;
  wr_Order : option Order;
  wr_Replayed : bool;
  wr_Rejected : bool
}.

Record DueProviderOperation := {
  du_OrderID : uuid;
  du_MerchantID : string;
  du_ProviderLiveMode : bool;
  du_OperationType : string;
  du_PayloadSHA256 : string
}.

Record VoucherRedemption := {
  vr_Voucher : Voucher;
  vr_Ledger : Billing.LedgerEntry
}.

Record PageCursor := { pc_CreatedAt : time; pc_ID : uuid }.

Record OrderPage := {
  pg_Orders : list Order;
  pg_NextCursor : option PageCursor
}.

(** [payment_external_refunds], [payment_disputes] ([paymentDispute]) and
    [payment_funding_operations] ([fundingOperation]). *)
Record ExternalRefund := {
  xr_ID : uuid;
  xr_PaymentProvider : string;
  xr_ProviderRefundNo : string;
  xr_OrderID : uuid;
  xr_LiabilityID : uuid;
  xr_ProviderChargeNo : string;
  xr_PaymentIntentNo : string;
  xr_AmountMinor : Z;
  xr_Currency : string;
  xr_OccurredAt : time;
  xr_CreatedAt : time
}.

Record paymentDispute := {
  dp_ID : uuid;
  dp_OrderID : uuid;
  dp_LiabilityID : uuid;
  dp_Provider : string;
  dp_ProviderDisputeNo : string;
  dp_ProviderChargeNo : string;
  dp_PaymentIntentNo : string;
  dp_AmountMinor : Z;
  dp_Currency : string;
  dp_Status : string;
  dp_OpenedAt : time;
  dp_ResolvedAt : option time;
  dp_CreatedAt : time;
  dp_UpdatedAt : time
}.

Record fundingOperation := {
  fo_UserID : uuid;
  fo_Currency : string;
  fo_AmountMinor : Z;
  fo_OperatorUserID : uuid;
  fo_LedgerID : uuid;
  fo_CreatedAt : time
}.

(** ** Provider types ([provider.go]) *)
Record ProviderIdentity := {
  pi_MerchantID : string;
  pi_LiveMode : bool
}.
#[export] Instance ProviderIdentity_eq_dec : EqDecision ProviderIdentity.
Proof. solve_decision. Defined.

(** [Data] in the order the map is ranged over. *)
Record Checkout := {
  ck_ProviderTradeNo : string;
  ck_MerchantID : string;
  ck_LiveMode : bool;
  ck_Data : list (string * string);
  ck_ExpiresAt : option time
}.

Record ProviderState := {
  ps_MerchantID : string;
  ps_LiveMode : bool;
  ps_ProviderTradeNo : string;
  ps_ProviderRefundNo : string;
  ps_EventType : string;
  ps_AmountMinor : Z;
  ps_Currency : string;
  ps_OccurredAt : time
}.

(** ** Validation ([provider.go], [service.go]) *)
Definition normalizeTradeNo (value : string) : string := normalizeText value 160.
Definition normalizeEventID (value : string) : string := normalizeTradeNo value.

Definition normalizeOrderNo (value : string) : string :=
  let value := TrimSpace value in
  if (slen value <? 8) || (80 <? slen value) || contains_control value then "" else value.

Definition provider_byte (c : ascii) : bool :=
  is_lower c || is_digit c || Ascii.eqb c "_" || Ascii.eqb c "-".

(** A byte of a multi-byte rune is outside every range of the loop. *)
Definition normalizeProviderName (value : string) : string :=
  let value := TrimSpace value in
  match value with
  | EmptyString => ""
  | String c _ =>
      if (64 <? slen value) || negb (is_lower c) then "" else
      if forall_bytes provider_byte value then value else ""
  end.

Definition normalizeProviderIdentity (value : ProviderIdentity) : result error ProviderIdentity :=
  let merchant := TrimSpace (pi_MerchantID value) in
  if String.eqb merchant "" || (160 <? slen merchant) then Err ErrProviderUnavailable
  else Ok {| pi_MerchantID := merchant; pi_LiveMode := pi_LiveMode value |}.

Definition sameProviderIdentity (left right : ProviderIdentity) : bool :=
  match normalizeProviderIdentity left, normalizeProviderIdentity right with
  | Ok l, Ok r => bool_decide (l = r)
  | _, _ => false
  end.

(** [normalizeCurrency]: the same text as billing's. *)
Definition normalizeCurrency (value : string) : string :=
  let value := ToUpper (TrimSpace value) in
  if negb (slen value =? 3) then "" else
  if forall_bytes is_upper value then value else "".

Definition validEventType (value : string) : bool :=
  Billing.one_of value [EventPending; EventPaid; EventFailed; EventExpired; EventRefunded;
    EventRefundFailed; EventClosed; EventDisputeOpened; EventDisputeWon; EventDisputeLost].

Definition isRefundTerminalEvent (value : string) : bool :=
  String.eqb value EventRefunded || String.eqb value EventRefundFailed.

Definition isDisputeEvent (eventType : string) : bool :=
  String.eqb eventType EventDisputeOpened || String.eqb eventType EventDisputeWon
  || String.eqb eventType EventDisputeLost.

Definition checkout_item (entry : string * string) : result error (string * string) :=
  let key := TrimSpace entry.1 in
  let item := TrimSpace entry.2 in
  if String.eqb key "" || (64 <? slen key) || (2048 <? slen item) || contains_control (key +:+ item)
  then Err ErrProviderRejected else Ok (key, item).

Fixpoint checkout_items (data : list (string * string)) (copied : gmap string string)
  : result error (gmap string string) :=
  match data with
  | [] => Ok copied
  | entry :: rest =>
      item ← checkout_item entry;
      checkout_items rest (<[item.1 := item.2]> copied)
  end.

Definition validateCheckout (value : Checkout) : result error Checkout :=
  let trade := normalizeTradeNo (ck_ProviderTradeNo value) in
  let merchant := normalizeTradeNo (ck_MerchantID value) in
  if String.eqb trade "" || String.eqb merchant "" then Err ErrProviderRejected else
  if 16 <? Z.of_nat (List.length (ck_Data value)) then Err ErrProviderRejected else
  copied ← checkout_items (ck_Data value) ∅;
  Ok {| ck_ProviderTradeNo := trade; ck_MerchantID := merchant; ck_LiveMode := ck_LiveMode value;
        ck_Data := map_to_list copied; ck_ExpiresAt := ck_ExpiresAt value |}.

Definition checkoutFromOrder (order : Order) : Checkout :=
  {| ck_ProviderTradeNo := o_ProviderTradeNo order; ck_MerchantID := o_MerchantID order;
     ck_LiveMode := default false (o_ProviderLiveMode order);
     ck_Data := map_to_list (o_CheckoutData order); ck_ExpiresAt := o_ExpiresAt order |}.

Definition normalizeCreateOrderInput (input : CreateOrderInput) : result error CreateOrderInput :=
  if uuid_eqb (co_UserID input) uuid_nil || (co_AmountMinor input <=? 0) then Err ErrInvalidInput else
  let currency := normalizeCurrency (co_Currency input) in
  let provider := normalizeProviderName (co_PaymentProvider input) in
  let key := normalizeText (co_IdempotencyKey input) 128 in
  if String.eqb currency "" || String.eqb provider "" || (slen key <? 8) then Err ErrInvalidInput else
  Ok {| co_UserID := co_UserID input; co_AmountMinor := co_AmountMinor input;
        co_Currency := currency; co_PaymentProvider := provider; co_IdempotencyKey := key |}.

(** [providerError]. *)
Definition providerError (err : error) : error :=
  match err with
  | ErrWebhookInvalid | ErrProviderRejected | ErrProviderUnavailable => err
  | ErrInvalidInput => ErrProviderRejected
  | _ => ErrProviderUnavailable
  end.

(** ** Keys and hashes

    [sha256_hex] is the hash in hexadecimal, for [payload_sha256] too. *)
Definition nul : string := String "000"%char "".

Section keys.
Context `{UuidText, Sha256Hex, TimeText}.

Definition bool_text (b : bool) : string := if b then "true" else "false".

Definition orderIdempotencyKey (userID : uuid) (clientKey : string) : string :=
  "payment:create:v1:" +:+ sha256_hex (uuid_string userID +:+ ":" +:+ clientKey).

Definition financialIdempotencyKey (kind : string) (operatorID userID : uuid) (requestID : string)
  : string :=
  "payment:" +:+ kind +:+ ":v1:"
  +:+ sha256_hex (kind +:+ ":" +:+ uuid_string operatorID +:+ ":" +:+ uuid_string userID
                  +:+ ":" +:+ requestID).

Definition providerOperationPayload (operation : string) (order : Order) (identity : ProviderIdentity)
  : string :=
  let expiresAt := match o_ExpiresAt order with Some t => rfc3339 t | None => "" end in
  sha256_hex
    (operation +:+ nul +:+ o_PaymentProvider order +:+ nul +:+ o_OrderNo order +:+ nul
     +:+ Itoa (o_AmountMinor order) +:+ nul +:+ o_Currency order +:+ nul
     +:+ o_ProviderTradeNo order +:+ nul +:+ expiresAt +:+ nul +:+ pi_MerchantID identity +:+ nul
     +:+ bool_text (pi_LiveMode identity)).
End keys.

End Payment.
