(* ===== verification/PaymentStore.v ===== *)
(** * The rows of [internal/payment] and its statements

    The tables of payment beside the rows of billing ([PDB]), the statements of
    [repository.go], [operations.go], [events.go], [funding.go] and [voucher.go], and
    the CHECK, UNIQUE and trigger rules of migrations 000001, 000003, 000012, 000014,
    000016 and 000017 they meet.

    A statement is a [pstmt]: it fails with [NoRows] or an SQLSTATE.  In PostgreSQL an
    SQLSTATE aborts the transaction, after which every statement fails; the error a
    Go callback sees says whether that happened ([f_aborted]). *)

From stdpp Require Import base gmap strings list sorting.
From Stdlib Require Import ZArith Lia Ascii String.
From S2P Require Import Prelude GoLib Usage Pricing BillingModel Money Store Coordinator PaymentModel.

Module PaymentStore.
Import Payment Store(DB, mkDB, price_versions, usage_events, wallets, reservations, settlements, liabilities, ledger, outbox, audit_logs, set_outbox, St, btx, SqlGuards, guard_outbox, WallClock, wall_now, JVal, JUuid, JStr, JInt, JBool, OutboxRow, ob_ID, ob_AggregateType, ob_AggregateID, ob_EventType, ob_IdempotencyKey, ob_Payload).

(** ** Tables *)
Record PDB := mkPDB {
  users : gset uuid;
  books_db : DB;
  orders : gmap uuid Order;
  events : gmap uuid PEvent;
  operations : gmap uuid ProviderOperation;
  external_refunds : gmap uuid ExternalRefund;
  disputes : gmap uuid paymentDispute;
  vouchers : gmap uuid Voucher;
  funding : gmap string fundingOperation
}.

Definition set_users (f : gset uuid -> gset uuid) (p : PDB) : PDB :=
  mkPDB (f (users p)) (books_db p) (orders p) (events p) (operations p) (external_refunds p)
        (disputes p) (vouchers p) (funding p).
Definition set_books (d : DB) (p : PDB) : PDB :=
  mkPDB (users p) d (orders p) (events p) (operations p) (external_refunds p)
        (disputes p) (vouchers p) (funding p).
Definition set_orders (f : gmap uuid Order -> gmap uuid Order) (p : PDB) : PDB :=
  mkPDB (users p) (books_db p) (f (orders p)) (events p) (operations p) (external_refunds p)
        (disputes p) (vouchers p) (funding p).
Definition set_events (f : gmap uuid PEvent -> gmap uuid PEvent) (p : PDB) : PDB :=
  mkPDB (users p) (books_db p) (orders p) (f (events p)) (operations p) (external_refunds p)
        (disputes p) (vouchers p) (funding p).
Definition set_operations (f : gmap uuid ProviderOperation -> gmap uuid ProviderOperation)
    (p : PDB) : PDB :=
  mkPDB (users p) (books_db p) (orders p) (events p) (f (operations p)) (external_refunds p)
        (disputes p) (vouchers p) (funding p).
Definition set_external_refunds (f : gmap uuid ExternalRefund -> gmap uuid ExternalRefund)
    (p : PDB) : PDB :=
  mkPDB (users p) (books_db p) (orders p) (events p) (operations p) (f (external_refunds p))
        (disputes p) (vouchers p) (funding p).
Definition set_disputes (f : gmap uuid paymentDispute -> gmap uuid paymentDispute) (p : PDB) : PDB :=
  mkPDB (users p) (books_db p) (orders p) (events p) (operations p) (external_refunds p)
        (f (disputes p)) (vouchers p) (funding p).
Definition set_vouchers (f : gmap uuid Voucher -> gmap uuid Voucher) (p : PDB) : PDB :=
  mkPDB (users p) (books_db p) (orders p) (events p) (operations p) (external_refunds p)
        (disputes p) (f (vouchers p)) (funding p).
Definition set_funding (f : gmap string fundingOperation -> gmap string fundingOperation)
    (p : PDB) : PDB :=
  mkPDB (users p) (books_db p) (orders p) (events p) (operations p) (external_refunds p)
        (disputes p) (vouchers p) (f (funding p)).

(** ** Parameters

    Constraints over other tables (users of an order, a voucher, a recharge) and the
    format of text columns: [Some code] is the SQLSTATE the server raises. *)
Class PaymentGuards := {
  guard_order : Order -> option string;
  guard_event : PEvent -> option string;
  guard_operation : ProviderOperation -> option string;
  guard_external_refund : ExternalRefund -> option string;
  guard_dispute : paymentDispute -> option string;
  guard_voucher : Voucher -> option string;
  guard_funding : string -> fundingOperation -> option string
}.

(** ** Transactions *)
Definition PSt : Type := list uuid * PDB.
Abbreviation pstmt := (stx PSt sqlerr).

Record failure := { f_error : error; f_aborted : bool }.
Abbreviation ptx := (stx PSt failure).

(** [if cond { return err }] of a Go callback. *)
Definition refuse {A} (e : error) : ptx A := stx_fail {| f_error := e; f_aborted := false |}.
Definition p_when (b : bool) (e : error) : ptx unit :=
  stx_when b {| f_error := e; f_aborted := false |}.
Definition p_lift {A} (r : result error A) : ptx A :=
  stx_lift (map_err (fun e => {| f_error := e; f_aborted := false |}) r).

Definition mapRepositoryError (e : sqlerr) : error :=
  match e with
  | NoRows => ErrNotFound
  | SqlState c =>
      if Billing.one_of c ["23503"; "23514"; "22P02"; "22003"] then ErrInvalidInput
      else if Billing.one_of c ["23505"; "55000"] then ErrConflict
      else EDatabase e
  end.

Definition aborts (e : sqlerr) : bool := match e with NoRows => false | SqlState _ => true end.

Definition failed_with (f : sqlerr -> error) (e : sqlerr) : failure :=
  {| f_error := f e; f_aborted := aborts e |}.

(** [if err != nil { return f(err) }], most often with [mapRepositoryError]. *)
Definition mapped_as {A} (f : sqlerr -> error) (m : pstmt A) : ptx A := fun s =>
  let '(s', r) := m s in (s', map_err (failed_with f) r).
Definition mapped {A} (m : pstmt A) : ptx A := mapped_as mapRepositoryError m.

(** [errors.Is(err, pgx.ErrNoRows)] as the absent case. *)
Definition optional {A} (m : pstmt A) : ptx (option A) := fun s =>
  match m s with
  | (s', Ok a) => (s', Ok (Some a))
  | (s', Err NoRows) => (s', Ok None)
  | (s', Err e) => (s', Err (failed_with mapRepositoryError e))
  end.

(** An operation of billing or audit on the same transaction.  Its errors always
    end the callback, so the rows it leaves then do not matter. *)
Definition inner_as {A} (f : Billing.error -> error) (m : btx A) : ptx A := fun '(ids, p) =>
  match m (ids, books_db p) with
  | Ok ((ids', d'), a) => ((ids', set_books d' p), Ok a)
  | Err e => ((ids, p), Err {| f_error := f e; f_aborted := true |})
  end.
Definition inner {A} (m : btx A) : ptx A := inner_as EInner m.

(** [Store.WithTx]. *)
Definition run_payment {A} (ids : list uuid) (m : ptx A) (p : PDB) : PDB * result error A :=
  match commit m (ids, p) with
  | ((_, p'), r) => (p', map_err f_error r)
  end.

Definition pread {E A} (f : PDB -> A) : stx PSt E A := stx_gets (fun s => f s.2).
Definition pwrite {E} (f : PDB -> PDB) : stx PSt E unit := fun s => ((s.1, f s.2), Ok tt).

Definition new_id : ptx uuid := fun s =>
  match s.1 with
  | i :: rest => ((rest, s.2), Ok i)
  | [] => (s, Err {| f_error := EGenerateID; f_aborted := false |})
  end.

Definition prow {A} (o : option A) : pstmt A :=
  stx_lift (match o with Some a => Ok a | None => Err NoRows end).
Definition pguard (g : option string) : pstmt unit :=
  match g with Some c => stx_fail (SqlState c) | None => mret tt end.
Definition punique (dup : bool) : pstmt unit := stx_when dup (SqlState "23505").
Definition pcheck (ok : bool) : pstmt unit := stx_when (negb ok) (SqlState "23514").
(** [RAISE EXCEPTION ... USING ERRCODE = code] unless [ok]. *)
Definition praise (ok : bool) (code : string) : pstmt unit := stx_when (negb ok) (SqlState code).

(** [COALESCE(column, value)], and [NULLIF(value, '')] as it is. *)
Definition coalesce (column value : string) : string := if String.eqb column "" then value else column.
Definition coalesce_opt {A} (column : option A) (value : option A) : option A :=
  match column with Some _ => column | None => value end.

Section statements.
Context `{UuidText, SqlGuards, WallClock, PaymentGuards}.

(** ** payment_orders *)
Definition select_order (q : Order -> bool) : pstmt Order :=
  o ← pread (fun p => map_find q (orders p)); prow o.

Definition loadOrderByID (orderID : uuid) : pstmt Order :=
  o ← pread (fun p => orders p !! orderID); prow o.
Definition loadOrderByNo (orderNo : string) : pstmt Order :=
  select_order (fun o => String.eqb (o_OrderNo o) orderNo).
Definition loadOrderByIdempotency (key : string) : pstmt Order :=
  select_order (fun o => String.eqb (o_IdempotencyKey o) key).

Definition is_set {A} (o : option A) : bool := match o with Some _ => true | None => false end.
Definition not_before (bound : time) (o : option time) : bool :=
  match o with Some t => bound <=? t | None => true end.

(** [payment_orders_time_check], [payment_orders_terminal_fact_check] (000017), the
    identity check of 000015, the status and the amount checks. *)
Definition order_check (o : Order) : bool :=
  (0 <? o_AmountMinor o)
  && Billing.one_of (o_Status o) [StatusCreated; StatusPending; StatusPaid; StatusFailed;
       StatusExpired; StatusRefundPending; StatusRefunded; StatusClosed]
  && (match o_ExpiresAt o with Some t => o_CreatedAt o <? t | None => true end)
  && not_before (o_CreatedAt o) (o_PaidAt o)
  && (match o_RefundedAt o with
      | Some t => match o_PaidAt o with Some paid => paid <=? t | None => false end
      | None => true end)
  && not_before (o_CreatedAt o) (o_ClosedAt o)
  && (negb (Billing.one_of (o_Status o) [StatusPaid; StatusRefundPending; StatusRefunded])
      || (is_set (o_PaidAt o) && negb (String.eqb (o_ProviderTradeNo o) "")
          && is_set (o_WalletID o) && is_set (o_RechargeLedgerID o)))
  && (negb (String.eqb (o_Status o) StatusRefunded)
      || (is_set (o_RefundedAt o)
          && xorb (is_set (o_RefundLedgerID o))
                  (o_ExternalRefundedAmountMinor o =? o_AmountMinor o)))
  && (negb (String.eqb (o_Status o) StatusClosed) || is_set (o_ClosedAt o))
  && (0 <=? o_ExternalRefundedAmountMinor o)
  && (o_ExternalRefundedAmountMinor o <=? o_AmountMinor o)
  && (String.eqb (o_ProviderTradeNo o) ""
      || (negb (String.eqb (o_MerchantID o) "") && is_set (o_ProviderLiveMode o))).

(** Two rows share a value of a unique column or index. *)
Definition same_text (a b : string) : bool := negb (String.eqb a "") && String.eqb a b.
Definition same_ref (a b : option uuid) : bool := is_set a && opt_uuid_eqb a b.
Definition orders_clash (o o' : Order) : bool :=
  String.eqb (o_OrderNo o) (o_OrderNo o')
  || String.eqb (o_IdempotencyKey o) (o_IdempotencyKey o')
  || (String.eqb (o_PaymentProvider o) (o_PaymentProvider o')
      && (same_text (o_ProviderTradeNo o) (o_ProviderTradeNo o')
          || same_text (o_ProviderRefundNo o) (o_ProviderRefundNo o')
          || same_text (o_ProviderPaymentIntentNo o) (o_ProviderPaymentIntentNo o')
          || same_text (o_ProviderChargeNo o) (o_ProviderChargeNo o')))
  || same_ref (o_RechargeLedgerID o) (o_RechargeLedgerID o')
  || same_ref (o_RefundHoldLedgerID o) (o_RefundHoldLedgerID o')
  || same_ref (o_RefundLedgerID o) (o_RefundLedgerID o').

(** The [EXISTS] of a ledger row in [bablo_validate_payment_order_ledger]. *)
Definition order_ledger_row (o : Order) (entryType : string) (amount : Z) (ledgerID : uuid)
    (d : DB) : bool :=
  existsb (fun e =>
    uuid_eqb (Billing.le_ID e) ledgerID
    && opt_uuid_eqb (Some (Billing.le_WalletID e)) (o_WalletID o)
    && String.eqb (Billing.le_EntryType e) entryType
    && (Billing.le_AmountMinor e =? amount)
    && String.eqb (Billing.le_Currency e) (o_Currency o)
    && String.eqb (Billing.le_ReferenceType e) "payment_order"
    && String.eqb (Billing.le_ReferenceID e) (uuid_string (o_ID o))) (ledger d).

(** The sum over the external refunds of an order and their liabilities. *)
Definition external_total (o : Order) (p : PDB) : Z :=
  msum (fun x =>
    if uuid_eqb (xr_OrderID x) (o_ID o)
       && String.eqb (xr_PaymentProvider x) (o_PaymentProvider o)
       && String.eqb (xr_Currency x) (o_Currency o)
       && match liabilities (books_db p) !! xr_LiabilityID x with
          | Some l =>
              opt_uuid_eqb (Some (Billing.l_WalletID l)) (o_WalletID o)
              && String.eqb (Billing.l_LiabilityType l) "payment_refund"
              && String.eqb (Billing.l_ReferenceType l) "payment_refund"
              && (Billing.l_Principal l =? xr_AmountMinor x)
              && String.eqb (Billing.l_Currency l) (o_Currency o)
          | None => false
          end
    then xr_AmountMinor x else 0) (external_refunds p).

(** The trigger [bablo_validate_payment_order_ledger] (000017). *)
Definition order_ledger_ok (o : Order) (p : PDB) : bool :=
  let d := books_db p in
  let amount := o_AmountMinor o in
  (match o_WalletID o with
   | None => true
   | Some w => match wallets d !! w with
               | Some wallet => uuid_eqb (Billing.w_UserID wallet) (o_UserID o)
                                && String.eqb (Billing.w_Currency wallet) (o_Currency o)
               | None => false
               end
   end)
  && (match o_RechargeLedgerID o with
      | None => true
      | Some l => order_ledger_row o Billing.EntryRecharge amount l d end)
  && (match o_RefundHoldLedgerID o with
      | None => true
      | Some l => order_ledger_row o Billing.EntryPaymentRefundHold amount l d end)
  && (match o_RefundLedgerID o with
      | None => true
      | Some l => order_ledger_row o Billing.EntryPaymentReversal (- amount) l d end)
  && (o_ExternalRefundedAmountMinor o =? external_total o p)
  && (negb (String.eqb (o_Status o) StatusRefundPending) || is_set (o_RefundHoldLedgerID o)).

(** The trigger [bablo_validate_payment_order_transition] (000017): what is fixed
    once assigned, and the status graph. *)
Definition kept {A} `{EqDecision A} (old new : option A) : bool :=
  match old with Some _ => bool_decide (new = old) | None => true end.
Definition kept_text (old new : string) : bool := String.eqb old "" || String.eqb new old.

Definition order_facts_kept (old new : Order) : bool :=
  kept_text (o_ProviderTradeNo old) (o_ProviderTradeNo new)
  && kept_text (o_ProviderRefundNo old) (o_ProviderRefundNo new)
  && kept_text (o_ProviderPaymentIntentNo old) (o_ProviderPaymentIntentNo new)
  && kept_text (o_ProviderChargeNo old) (o_ProviderChargeNo new)
  && kept (o_PaidAt old) (o_PaidAt new)
  && kept (o_RefundedAt old) (o_RefundedAt new)
  && kept (o_ClosedAt old) (o_ClosedAt new)
  && kept (o_WalletID old) (o_WalletID new)
  && kept (o_RechargeLedgerID old) (o_RechargeLedgerID new)
  && kept (o_RefundHoldLedgerID old) (o_RefundHoldLedgerID new)
  && kept (o_RefundLedgerID old) (o_RefundLedgerID new)
  && (o_ExternalRefundedAmountMinor old <=? o_ExternalRefundedAmountMinor new).

Definition order_transition_ok (old new : string) : bool :=
  String.eqb new old
  || (String.eqb old StatusCreated
      && Billing.one_of new [StatusPending; StatusPaid; StatusFailed; StatusExpired; StatusClosed])
  || (String.eqb old StatusPending
      && Billing.one_of new [StatusPaid; StatusFailed; StatusExpired; StatusClosed])
  || (String.eqb old StatusPaid && Billing.one_of new [StatusRefundPending; StatusRefunded])
  || (String.eqb old StatusRefundPending && Billing.one_of new [StatusPaid; StatusRefunded])
  || (Billing.one_of old [StatusFailed; StatusExpired]
      && Billing.one_of new [StatusPending; StatusPaid; StatusClosed]).

Definition insert_order (o : Order) : pstmt Order :=
  dup ← pread (fun p => bool_decide (is_Some (orders p !! o_ID o))
                        || map_any (orders_clash o) (orders p));
  ok ← pread (order_ledger_ok o);
  praise ok "23514";;
  pcheck (order_check o);;
  punique dup;;
  pguard (guard_order o);;
  pwrite (set_orders (<[o_ID o := o]>));;
  mret o.

(** [UPDATE payment_orders SET ... WHERE id = orderID RETURNING ...].  No update
    assigns the columns the first test of the transition trigger compares.  [ledger]
    says whether the [SET] list names a column of the ledger trigger. *)
Definition update_order (orderID : uuid) (ledger_columns : bool) (f : Order -> Order) : pstmt Order :=
  row ← pread (fun p => orders p !! orderID);
  old ← prow row;
  let new := f old in
  ok ← pread (order_ledger_ok new);
  praise (negb ledger_columns || ok) "23514";;
  praise (order_facts_kept old new) "55000";;
  praise (order_transition_ok (o_Status old) (o_Status new)) "23514";;
  praise (o_UpdatedAt old <=? o_UpdatedAt new) "23514";;
  pcheck (order_check new);;
  dup ← pread (fun p => map_any (fun o => negb (uuid_eqb (o_ID o) orderID) && orders_clash new o)
                                (orders p));
  punique dup;;
  pguard (guard_order new);;
  pwrite (set_orders (<[orderID := new]>));;
  mret new.

(** ** Outbox, on the rows of billing *)
Definition insertPaymentOutbox (aggregateType : string) (aggregateID : uuid)
    (eventType key : string) (payload : list (string * JVal)) : ptx unit :=
  p_when (negb (String.eqb aggregateType "payment_order")
          && negb (String.eqb aggregateType "payment_voucher")) ErrInvalidInput;;
  outboxID ← new_id;
  let r := {| ob_ID := outboxID; ob_AggregateType := aggregateType;
              ob_AggregateID := aggregateID; ob_EventType := eventType;
              ob_IdempotencyKey := key; ob_Payload := payload |} in
  conflict ← pread (fun p => existsb (fun o =>
      String.eqb (ob_AggregateType o) aggregateType && uuid_eqb (ob_AggregateID o) aggregateID
      && String.eqb (ob_EventType o) eventType && String.eqb (ob_IdempotencyKey o) key)
      (outbox (books_db p)));
  if conflict : bool then mret tt else
  dup ← pread (fun p => existsb (fun o => uuid_eqb (ob_ID o) outboxID) (outbox (books_db p)));
  mapped (punique dup;; pguard (guard_outbox r);;
          pwrite (fun p => set_books (set_outbox (fun l => (l ++ [r])%list) (books_db p)) p)).

(** ** payment_provider_operations *)
Definition of_operation (orderID : uuid) (operationType : string) (op : ProviderOperation) : bool :=
  uuid_eqb (op_PaymentOrderID op) orderID && String.eqb (op_OperationType op) operationType.

Definition loadProviderOperation (orderID : uuid) (operationType : string) : pstmt ProviderOperation :=
  o ← pread (fun p => map_find (of_operation orderID operationType) (operations p)); prow o.

(** The CHECK constraints of 000014. *)
Definition operation_check (op : ProviderOperation) : bool :=
  Billing.one_of (op_OperationType op) [OperationCreate; OperationRefund]
  && Billing.one_of (op_Status op) [OperationPending; OperationProcessing; OperationRetryable;
       OperationSucceeded; OperationDefinitiveFailed]
  && (0 <=? op_Attempts op)
  && (if String.eqb (op_Status op) OperationProcessing
      then is_set (op_OwnerToken op) && is_set (op_LeaseExpiresAt op)
      else negb (is_set (op_OwnerToken op)) && negb (is_set (op_LeaseExpiresAt op))).

Definition insert_operation (op : ProviderOperation) : pstmt ProviderOperation :=
  dup ← pread (fun p => bool_decide (is_Some (operations p !! op_ID op))
            || map_any (of_operation (op_PaymentOrderID op) (op_OperationType op)) (operations p));
  pcheck (operation_check op);;
  punique dup;;
  pguard (guard_operation op);;
  pwrite (set_operations (<[op_ID op := op]>));;
  mret op.

(** The columns every [UPDATE payment_provider_operations] assigns or keeps, the instants in
    microseconds. *)
Definition operation_row (op : ProviderOperation) (status : string) (owner : option uuid)
    (lease : option time) (next : time) (attempts : Z) (reference errorClass : string) (now : time)
  : ProviderOperation :=
  {| op_ID := op_ID op; op_PaymentOrderID := op_PaymentOrderID op;
     op_OperationType := op_OperationType op; op_PayloadSHA256 := op_PayloadSHA256 op;
     op_MerchantID := op_MerchantID op; op_ProviderLiveMode := op_ProviderLiveMode op;
     op_Status := status; op_OwnerToken := owner; op_LeaseExpiresAt := pg_time <$> lease;
     op_NextAttemptAt := pg_time next; op_Attempts := attempts; op_ProviderReference := reference;
     op_LastErrorClass := errorClass; op_CreatedAt := op_CreatedAt op; op_UpdatedAt := pg_time now |}.

Definition update_operation (operationID : uuid) (f : ProviderOperation -> ProviderOperation)
  : pstmt ProviderOperation :=
  row ← pread (fun p => operations p !! operationID);
  old ← prow row;
  pcheck (operation_check (f old));;
  pguard (guard_operation (f old));;
  pwrite (set_operations (<[operationID := f old]>));;
  mret (f old).

(** An [UPDATE] without [RETURNING]: no row is no error. *)
Definition exec_update {A} (m : pstmt A) : pstmt unit := fun s =>
  match m s with
  | (s', Ok _) => (s', Ok tt)
  | (s', Err NoRows) => (s', Ok tt)
  | (s', Err e) => (s', Err e)
  end.

(** ** payment_events and payment_event_processing *)
Definition of_event (provider eventID : string) (e : PEvent) : bool :=
  String.eqb (pe_PaymentProvider e) provider && String.eqb (pe_ProviderEventID e) eventID.

Definition loadEventByProviderID (provider eventID : string) : pstmt PEvent :=
  o ← pread (fun p => map_find (of_event provider eventID) (events p)); prow o.
Definition loadEventByID (eventID : uuid) : pstmt PEvent :=
  o ← pread (fun p => events p !! eventID); prow o.

(** [payment_events_verified_fact_check] (000015) for the two sources the code
    writes. *)
Definition event_check (e : PEvent) : bool :=
  Billing.one_of (pe_VerificationSource e) [VerificationWebhook; VerificationProvider]
  && Bool.eqb (pe_SignatureVerified e) (String.eqb (pe_VerificationSource e) VerificationWebhook)
  && validEventType (pe_EventType e)
  && negb (String.eqb (pe_ProviderTradeNo e) "")
  && (negb (isRefundTerminalEvent (pe_EventType e)) || negb (String.eqb (pe_ProviderRefundNo e) ""))
  && (match pe_AmountMinor e with Some a => 0 <? a | None => false end)
  && negb (String.eqb (pe_Currency e) "") && negb (String.eqb (pe_MerchantID e) "")
  && is_set (pe_ProviderLiveMode e) && is_set (pe_OccurredAt e).

(** [INSERT ... ON CONFLICT (payment_provider, provider_event_id) DO NOTHING] and the
    row of [payment_event_processing]: [false] when nothing was inserted. *)
Definition insert_event (e : PEvent) : pstmt bool :=
  conflict ← pread (fun p => map_any (of_event (pe_PaymentProvider e) (pe_ProviderEventID e)) (events p));
  pcheck (event_check e);;
  if conflict : bool then mret false else
  dup ← pread (fun p => bool_decide (is_Some (events p !! pe_ID e)));
  punique dup;;
  pguard (guard_event e);;
  pwrite (set_events (<[pe_ID e := e]>));;
  mret true.

Definition processing_row (e : PEvent) (status errorClass : string) : PEvent :=
  {| pe_ID := pe_ID e; pe_PaymentProvider := pe_PaymentProvider e;
     pe_ProviderEventID := pe_ProviderEventID e; pe_OrderID := pe_OrderID e;
     pe_ProviderTradeNo := pe_ProviderTradeNo e; pe_ProviderRefundNo := pe_ProviderRefundNo e;
     pe_ProviderPaymentIntentNo := pe_ProviderPaymentIntentNo e;
     pe_ProviderChargeNo := pe_ProviderChargeNo e; pe_ProviderDisputeNo := pe_ProviderDisputeNo e;
     pe_EventType := pe_EventType e; pe_AmountMinor := pe_AmountMinor e;
     pe_Currency := pe_Currency e; pe_MerchantID := pe_MerchantID e;
     pe_ProviderLiveMode := pe_ProviderLiveMode e; pe_SignatureVerified := pe_SignatureVerified e;
     pe_VerificationSource := pe_VerificationSource e; pe_OccurredAt := pe_OccurredAt e;
     pe_ReceivedAt := pe_ReceivedAt e; pe_ProcessingStatus := status; pe_ErrorClass := errorClass;
     pe_payloadHash := pe_payloadHash e |}.

(** [UPDATE payment_event_processing SET status, processed_at, last_error_class]. *)
Definition update_processing (eventID : uuid) (status errorClass : string) : pstmt unit :=
  row ← pread (fun p => events p !! eventID);
  match row with
  | None => mret tt
  | Some e =>
      pguard (guard_event (processing_row e status errorClass));;
      pwrite (set_events (<[eventID := processing_row e status errorClass]>))
  end.

(** ** payment_external_refunds and payment_disputes *)
Definition of_refund (provider refundNo : string) (x : ExternalRefund) : bool :=
  String.eqb (xr_PaymentProvider x) provider && String.eqb (xr_ProviderRefundNo x) refundNo.

Definition loadExternalRefund (provider refundNo : string) : pstmt ExternalRefund :=
  o ← pread (fun p => map_find (of_refund provider refundNo) (external_refunds p)); prow o.

Definition insert_external_refund (x : ExternalRefund) : pstmt unit :=
  dup ← pread (fun p => bool_decide (is_Some (external_refunds p !! xr_ID x))
      || map_any (fun y => of_refund (xr_PaymentProvider x) (xr_ProviderRefundNo x) y
                           || uuid_eqb (xr_LiabilityID y) (xr_LiabilityID x)) (external_refunds p));
  pcheck (0 <? xr_AmountMinor x);;
  punique dup;;
  pguard (guard_external_refund x);;
  pwrite (set_external_refunds (<[xr_ID x := x]>)).

Definition of_dispute (provider disputeNo : string) (x : paymentDispute) : bool :=
  String.eqb (dp_Provider x) provider && String.eqb (dp_ProviderDisputeNo x) disputeNo.

Definition loadPaymentDispute (provider disputeNo : string) : pstmt paymentDispute :=
  o ← pread (fun p => map_find (of_dispute provider disputeNo) (disputes p)); prow o.

Definition insert_dispute (x : paymentDispute) : pstmt unit :=
  dup ← pread (fun p => bool_decide (is_Some (disputes p !! dp_ID x))
      || map_any (fun y => of_dispute (dp_Provider x) (dp_ProviderDisputeNo x) y
                           || uuid_eqb (dp_LiabilityID y) (dp_LiabilityID x)) (disputes p));
  pcheck ((0 <? dp_AmountMinor x) && negb (String.eqb (dp_ProviderChargeNo x) ""));;
  punique dup;;
  pguard (guard_dispute x);;
  pwrite (set_disputes (<[dp_ID x := x]>)).

(** [UPDATE payment_disputes SET status, resolved_at, updated_at WHERE id], under
    [bablo_validate_payment_dispute_mutation]. *)
Definition resolve_dispute (disputeID : uuid) (status : string) (resolvedAt now : time) : pstmt unit :=
  row ← pread (fun p => disputes p !! disputeID);
  match row with
  | None => mret tt
  | Some x =>
      praise (String.eqb (dp_Status x) "open" && Billing.one_of status ["won"; "lost"]) "55000";;
      pcheck (dp_OpenedAt x <=? resolvedAt);;
      let y := {| dp_ID := dp_ID x; dp_OrderID := dp_OrderID x; dp_LiabilityID := dp_LiabilityID x;
                  dp_Provider := dp_Provider x; dp_ProviderDisputeNo := dp_ProviderDisputeNo x;
                  dp_ProviderChargeNo := dp_ProviderChargeNo x;
                  dp_PaymentIntentNo := dp_PaymentIntentNo x; dp_AmountMinor := dp_AmountMinor x;
                  dp_Currency := dp_Currency x; dp_Status := status; dp_OpenedAt := dp_OpenedAt x;
                  dp_ResolvedAt := Some resolvedAt; dp_CreatedAt := dp_CreatedAt x;
                  dp_UpdatedAt := now |} in
      pguard (guard_dispute y);;
      pwrite (set_disputes (<[disputeID := y]>))
  end.

(** ** payment_vouchers *)
Definition select_voucher (q : Voucher -> bool) : pstmt Voucher :=
  o ← pread (fun p => map_find q (vouchers p)); prow o.
Definition loadVoucherByHash (hash : string) : pstmt Voucher :=
  select_voucher (fun v => String.eqb (vc_CodeHash v) hash).
Definition loadVoucherByID (voucherID : uuid) : pstmt Voucher :=
  o ← pread (fun p => vouchers p !! voucherID); prow o.
Definition loadVoucherByIdempotency (key : string) : pstmt Voucher :=
  select_voucher (fun v => String.eqb (vc_IdempotencyKey v) key).

(** The CHECK constraints of 000012 on the numbers, times and status. *)
Definition voucher_check (v : Voucher) : bool :=
  (0 <? vc_AmountMinor v)
  && Billing.one_of (vc_Status v) [VoucherActive; VoucherRedeemed; VoucherRevoked; VoucherExpired]
  && (match vc_ExpiresAt v with Some t => vc_CreatedAt v <? t | None => true end)
  && Bool.eqb (String.eqb (vc_Status v) VoucherRedeemed)
              (is_set (vc_RedeemedBy v) && is_set (vc_RedeemedAt v))
  && not_before (vc_CreatedAt v) (vc_RedeemedAt v).

(** [INSERT ... ON CONFLICT (idempotency_key) DO NOTHING RETURNING]: no row on a
    conflict. *)
Definition insert_voucher (v : Voucher) : pstmt Voucher :=
  conflict ← pread (fun p =>
    map_any (fun o => String.eqb (vc_IdempotencyKey o) (vc_IdempotencyKey v)) (vouchers p));
  pcheck (voucher_check v);;
  if conflict : bool then stx_fail NoRows else
  dup ← pread (fun p => bool_decide (is_Some (vouchers p !! vc_ID v))
                        || map_any (fun o => String.eqb (vc_CodeHash o) (vc_CodeHash v)) (vouchers p));
  punique dup;;
  pguard (guard_voucher v);;
  pwrite (set_vouchers (<[vc_ID v := v]>));;
  mret v.

(** [UPDATE payment_vouchers SET status, ..., code_ciphertext = NULL, code_nonce = NULL,
    code_key_version = NULL, updated_at WHERE id RETURNING], under
    [bablo_validate_payment_voucher_transition]. *)
Definition update_voucher (voucherID : uuid) (status : string) (redeemed : option (uuid * time))
    (now : time) : pstmt Voucher :=
  row ← pread (fun p => vouchers p !! voucherID);
  old ← prow row;
  let new :=
    {| vc_ID := vc_ID old; vc_CodePrefix := vc_CodePrefix old; vc_AmountMinor := vc_AmountMinor old;
       vc_Currency := vc_Currency old; vc_Status := status; vc_ExpiresAt := vc_ExpiresAt old;
       vc_CreatedBy := vc_CreatedBy old;
       vc_RedeemedBy := match redeemed with Some (u, _) => Some u | None => vc_RedeemedBy old end;
       vc_RedeemedAt := match redeemed with Some (_, t) => Some t | None => vc_RedeemedAt old end;
       vc_CreatedAt := vc_CreatedAt old; vc_UpdatedAt := now;
       vc_CodeCiphertext := ""; vc_CodeNonce := ""; vc_CodeHash := vc_CodeHash old;
       vc_CodeKeyVersion := ""; vc_IdempotencyKey := vc_IdempotencyKey old |} in
  praise (String.eqb status (vc_Status old)
          || (String.eqb (vc_Status old) VoucherActive
              && Billing.one_of status [VoucherRedeemed; VoucherRevoked; VoucherExpired])) "23514";;
  praise (vc_UpdatedAt old <=? now) "23514";;
  pcheck (voucher_check new);;
  pguard (guard_voucher new);;
  pwrite (set_vouchers (<[voucherID := new]>));;
  mret new.

(** ** payment_funding_operations *)
Definition loadFundingOperation (idempotencyKey : string) : pstmt fundingOperation :=
  o ← pread (fun p => funding p !! idempotencyKey); prow o.

(** [INSERT ... ON CONFLICT (idempotency_key) DO NOTHING]: [false] when nothing was
    inserted. *)
Definition insert_funding (idempotencyKey : string) (f : fundingOperation) : pstmt bool :=
  conflict ← pread (fun p => bool_decide (is_Some (funding p !! idempotencyKey)));
  pcheck (0 <? fo_AmountMinor f);;
  if conflict : bool then mret false else
  dup ← pread (fun p => map_any (fun g => uuid_eqb (fo_LedgerID g) (fo_LedgerID f)) (funding p));
  punique dup;;
  pguard (guard_funding idempotencyKey f);;
  pwrite (set_funding (<[idempotencyKey := f]>));;
  mret true.

End statements.
End PaymentStore.
