(* ===== verification/PaymentRepo.v ===== *)
(** * The repository of [internal/payment]: orders and provider operations

    [repository.go] and [operations.go].  An exported method is a [ptx] run by
    [run_payment] ([Store.WithTx]); a query outside a transaction is a function of
    the rows.  [now] is the argument of the method, [clock] the billing service's own
    clock at the call.  A nil receiver and a cancelled context are not modelled. *)

From stdpp Require Import base gmap strings list sorting.
From Stdlib Require Import ZArith Lia Ascii String.
From S2P Require Import Prelude GoLib Usage Pricing BillingModel Money Store BillingOps.
From S2P Require Import BillingService Coordinator PaymentModel PaymentStore.

Module PaymentRepo.
Import Payment PaymentStore.
Import Store(JUuid, JStr, JInt, SqlGuards, WallClock).
Import Coordinator(Sha256Hex).

Definition maximumActivePaymentOrdersPerUser : Z := 5.
Definition providerOperationLease : Z := 30 * Second.
Definition providerOperationRetryBase : Z := 5 * Second.

(** [strings.ReplaceAll(s, b, "")] for a one-byte text. *)
Fixpoint remove_byte (b : ascii) (s : string) : string :=
  match s with
  | EmptyString => EmptyString
  | String c t => if Ascii.eqb c b then remove_byte b t else String c (remove_byte b t)
  end.

(** [for attempt := 1; attempt < attempts && delay < 5*time.Minute; attempt++ { delay *= 2 }]:
    the fuel is the number of turns the first condition allows. *)
Fixpoint double_delay (turns : nat) (delay : Z) : Z :=
  match turns with
  | O => delay
  | S turns => if delay <? 5 * Minute then double_delay turns (i64_mul delay 2) else delay
  end.
Definition providerOperationRetryDelay (attempts : Z) : Z :=
  let delay := double_delay (Z.to_nat (attempts - 1)) providerOperationRetryBase in
  if 5 * Minute <? delay then 5 * Minute else delay.

Section repository.
Context `{UuidText, SqlGuards, WallClock, PaymentGuards, Sha256Hex, TimeText}.

Definition audit (event : Store.AuditEvent) : ptx unit := inner (Store.audit_Insert event).

(** An audit event whose target is the order. *)
Definition order_audit (actor : option uuid) (action : string) (orderID : uuid) (requestID : string)
  : Store.AuditEvent :=
  {| Store.ae_ActorUserID := actor; Store.ae_Action := action;
     Store.ae_TargetType := "payment_order"; Store.ae_TargetID := uuid_string orderID;
     Store.ae_RequestID := requestID; Store.ae_Result := "success" |}.

(** ** Provider operations ([operations.go]) *)
Definition operation_matches (operation : ProviderOperation) (payload : string)
    (identity : ProviderIdentity) : bool :=
  String.eqb (op_PayloadSHA256 operation) payload
  && String.eqb (op_MerchantID operation) (pi_MerchantID identity)
  && Bool.eqb (op_ProviderLiveMode operation) (pi_LiveMode identity).

Definition known_operation (operationType : string) : bool :=
  String.eqb operationType OperationCreate || String.eqb operationType OperationRefund.

(** [INSERT ... ON CONFLICT (payment_order_id, operation_type) DO NOTHING]. *)
Definition insert_operation_if_absent (op : ProviderOperation) : pstmt unit :=
  conflict ← pread (fun p =>
    map_any (of_operation (op_PaymentOrderID op) (op_OperationType op)) (operations p));
  pcheck (operation_check op);;
  if conflict : bool then mret tt else (insert_operation op;; mret tt).

Definition ensureProviderOperation (order : Order) (operationType : string)
    (identity : ProviderIdentity) (now : time) : ptx unit :=
  match normalizeProviderIdentity identity with
  | Err _ => refuse ErrInvalidInput
  | Ok identity =>
      p_when (uuid_eqb (o_ID order) uuid_nil || negb (known_operation operationType)) ErrInvalidInput;;
      let payload := providerOperationPayload operationType order identity in
      operationID ← new_id;
      mapped (insert_operation_if_absent
        {| op_ID := operationID; op_PaymentOrderID := o_ID order;
           op_OperationType := operationType; op_PayloadSHA256 := payload;
           op_MerchantID := pi_MerchantID identity; op_ProviderLiveMode := pi_LiveMode identity;
           op_Status := OperationPending; op_OwnerToken := None; op_LeaseExpiresAt := None;
           op_NextAttemptAt := pg_time now; op_Attempts := 0; op_ProviderReference := "";
           op_LastErrorClass := ""; op_CreatedAt := pg_time now; op_UpdatedAt := pg_time now |});;
      operation ← mapped (loadProviderOperation (o_ID order) operationType);
      p_when (negb (operation_matches operation payload identity)) ErrConflict
  end.

(** A claim that leaves the operation to somebody else or to later. *)
Definition operation_waits (operation : ProviderOperation) (now : time) : bool :=
  Billing.one_of (op_Status operation) [OperationSucceeded; OperationDefinitiveFailed]
  || (String.eqb (op_Status operation) OperationProcessing
      && match op_LeaseExpiresAt operation with Some t => After t now | None => false end)
  || (String.eqb (op_Status operation) OperationRetryable && After (op_NextAttemptAt operation) now).

Definition ClaimProviderOperation (orderID : uuid) (operationType : string)
    (identity : ProviderIdentity) (payload : string) (now : time) : ptx ProviderOperationClaim :=
  match normalizeProviderIdentity identity with
  | Err _ => refuse ErrInvalidInput
  | Ok identity =>
      p_when (uuid_eqb orderID uuid_nil || negb (known_operation operationType)) ErrInvalidInput;;
      order ← mapped (loadOrderByID orderID);
      found ← optional (loadProviderOperation orderID operationType);
      match found with
      | None =>
          owner ← new_id;
          operationID ← new_id;
          operation ← mapped (insert_operation
            {| op_ID := operationID; op_PaymentOrderID := o_ID order;
               op_OperationType := operationType; op_PayloadSHA256 := payload;
               op_MerchantID := pi_MerchantID identity; op_ProviderLiveMode := pi_LiveMode identity;
               op_Status := OperationProcessing; op_OwnerToken := Some owner;
               op_LeaseExpiresAt := Some (pg_time (now + providerOperationLease));
               op_NextAttemptAt := pg_time now;
               op_Attempts := 1; op_ProviderReference := ""; op_LastErrorClass := "";
               op_CreatedAt := pg_time now; op_UpdatedAt := pg_time now |});
          mret {| cl_Order := order; cl_Operation := operation; cl_Claimed := true |}
      | Some operation =>
          p_when (negb (operation_matches operation payload identity)) ErrConflict;;
          if operation_waits operation now
          then mret {| cl_Order := order; cl_Operation := operation; cl_Claimed := false |} else
          owner ← new_id;
          operation ← mapped (update_operation (op_ID operation) (fun op =>
            operation_row op OperationProcessing (Some owner) (Some (now + providerOperationLease)) now
              (op_Attempts op + 1) (op_ProviderReference op) "" now));
          mret {| cl_Order := order; cl_Operation := operation; cl_Claimed := true |}
      end
  end.

Definition owned_by (operation : ProviderOperation) (ownerToken : uuid) : bool :=
  String.eqb (op_Status operation) OperationProcessing
  && match op_OwnerToken operation with Some o => uuid_eqb o ownerToken | None => false end.

Definition opt_bool_is (o : option bool) (b : bool) : bool :=
  match o with Some x => Bool.eqb x b | None => false end.
Definition opt_bool_not (o : option bool) (b : bool) : bool :=
  match o with Some x => negb (Bool.eqb x b) | None => false end.

(** The earlier of the order's and the checkout's expiry. *)
Definition earlier_expiry (order : Order) (checkout : Checkout) : option time :=
  match ck_ExpiresAt checkout, o_ExpiresAt order with
  | Some t, None => Some t
  | Some t, Some u => if Before t u then Some t else Some u
  | None, e => e
  end.

Definition CompleteCreateOperation (orderID ownerToken : uuid) (checkout : Checkout) (now : time)
  : ptx Order :=
  p_when (uuid_eqb orderID uuid_nil || uuid_eqb ownerToken uuid_nil) ErrInvalidInput;;
  checkout ← p_lift (validateCheckout checkout);
  order ← mapped (loadOrderByID orderID);
  operation ← mapped (loadProviderOperation orderID OperationCreate);
  p_when (negb (String.eqb (op_MerchantID operation) (ck_MerchantID checkout))
          || negb (Bool.eqb (op_ProviderLiveMode operation) (ck_LiveMode checkout))) ErrConflict;;
  p_when (negb (String.eqb (o_ProviderTradeNo order) "")
          && negb (String.eqb (o_ProviderTradeNo order) (ck_ProviderTradeNo checkout))) ErrConflict;;
  p_when (negb (String.eqb (o_MerchantID order) "")
          && negb (String.eqb (o_MerchantID order) (ck_MerchantID checkout))) ErrConflict;;
  p_when (opt_bool_not (o_ProviderLiveMode order) (ck_LiveMode checkout)) ErrConflict;;
  if String.eqb (op_Status operation) OperationSucceeded then mret order else
  p_when (negb (owned_by operation ownerToken)) ErrOperationPending;;
  p_when (negb (Billing.one_of (o_Status order) [StatusCreated; StatusPending; StatusPaid]))
         ErrInvalidTransition;;
  if String.eqb (o_Status order) StatusPaid then
    mapped (exec_update (update_operation (op_ID operation) (fun op =>
      operation_row op OperationSucceeded None None (op_NextAttemptAt op) (op_Attempts op)
        (ck_ProviderTradeNo checkout) (op_LastErrorClass op) now)));;
    mret order
  else
  let expiresAt := earlier_expiry order checkout in
  value ← mapped (update_order (o_ID order) true (fun o =>
    set_Status StatusPending (set_MerchantID (ck_MerchantID checkout)
    (set_ProviderLiveMode (Some (ck_LiveMode checkout))
    (set_ProviderTradeNo (ck_ProviderTradeNo checkout)
    (set_CheckoutData (list_to_map (ck_Data checkout))
    (set_ExpiresAt expiresAt (set_FailureClass "" (set_UpdatedAt now o)))))))));
  insertPaymentOutbox "payment_order" (o_ID value) "payment.order.pending"
    ("payment:pending:v2:" +:+ uuid_string (o_ID value))
    [("order_id", JUuid (o_ID value)); ("order_no", JStr (o_OrderNo value));
     ("provider_trade_no", JStr (o_ProviderTradeNo value))];;
  mret value.

Definition FinishCreateOperation (orderID ownerToken : uuid) (errorClass : string)
    (definitive : bool) (now : time) : ptx Order :=
  let errorClass := Usage.normalizeText errorClass 64 in
  p_when (uuid_eqb orderID uuid_nil || uuid_eqb ownerToken uuid_nil || String.eqb errorClass "")
         ErrInvalidInput;;
  order ← mapped (loadOrderByID orderID);
  operation ← mapped (loadProviderOperation orderID OperationCreate);
  if Billing.one_of (op_Status operation) [OperationSucceeded; OperationDefinitiveFailed]
  then mret order else
  p_when (negb (owned_by operation ownerToken)) ErrOperationPending;;
  let status := if definitive then OperationDefinitiveFailed else OperationRetryable in
  let nextAttemptAt := if definitive then now
                       else now + providerOperationRetryDelay (op_Attempts operation) in
  mapped (exec_update (update_operation (op_ID operation) (fun op =>
    operation_row op status None None nextAttemptAt (op_Attempts op) (op_ProviderReference op)
      errorClass now)));;
  if definitive && String.eqb (o_Status order) StatusCreated then
    value ← mapped (update_order (o_ID order) true (fun o =>
      set_Status StatusFailed (set_FailureClass errorClass (set_UpdatedAt now o))));
    insertPaymentOutbox "payment_order" (o_ID value) "payment.order.failed"
      ("payment:create-failed:v2:" +:+ uuid_string (o_ID value))
      [("order_id", JUuid (o_ID value)); ("order_no", JStr (o_OrderNo value));
       ("error_class", JStr errorClass)];;
    mret value
  else mret order.

Definition ClaimRefundOperation (orderID : uuid) (identity : ProviderIdentity) (payload : string)
    (now : time) : ptx ProviderOperationClaim :=
  ClaimProviderOperation orderID OperationRefund identity payload now.

Definition CompleteRefundOperation (orderID ownerToken : uuid) (refundNo : string) (now : time)
  : ptx Order :=
  let refundNo := normalizeTradeNo refundNo in
  p_when (uuid_eqb orderID uuid_nil || uuid_eqb ownerToken uuid_nil || String.eqb refundNo "")
         ErrInvalidInput;;
  order ← mapped (loadOrderByID orderID);
  operation ← mapped (loadProviderOperation orderID OperationRefund);
  if String.eqb (op_Status operation) OperationSucceeded then mret order else
  p_when (negb (owned_by operation ownerToken)) ErrOperationPending;;
  p_when (negb (Billing.one_of (o_Status order) [StatusRefundPending; StatusRefunded]))
         ErrInvalidTransition;;
  p_when (negb (String.eqb (o_ProviderRefundNo order) "")
          && negb (String.eqb (o_ProviderRefundNo order) refundNo)) ErrConflict;;
  value ← mapped (update_order (o_ID order) false (fun o =>
    set_ProviderRefundNo (coalesce (o_ProviderRefundNo o) refundNo) (set_UpdatedAt now o)));
  mapped (exec_update (update_operation (op_ID operation) (fun op =>
    operation_row op OperationSucceeded None None now (op_Attempts op) refundNo
      (op_LastErrorClass op) now)));;
  mret value.

(** The refund of an order, as its billing operations take it. *)
Definition refund_input (order : Order) (operator : uuid) : Billing.PaymentRefundInput :=
  {| Billing.pr_UserID := o_UserID order; Billing.pr_Currency := o_Currency order;
     Billing.pr_AmountMinor := o_AmountMinor order; Billing.pr_PaymentOrderID := o_ID order;
     Billing.pr_OperatorUserID := operator; Billing.pr_Source := "payment" |}.

Definition FinishRefundOperation (orderID ownerToken : uuid) (errorClass : string)
    (definitive : bool) (now clock : time) : ptx Order :=
  let errorClass := Usage.normalizeText errorClass 64 in
  p_when (uuid_eqb orderID uuid_nil || uuid_eqb ownerToken uuid_nil || String.eqb errorClass "")
         ErrInvalidInput;;
  order ← mapped (loadOrderByID orderID);
  operation ← mapped (loadProviderOperation orderID OperationRefund);
  if Billing.one_of (op_Status operation) [OperationSucceeded; OperationDefinitiveFailed]
  then mret order else
  p_when (negb (owned_by operation ownerToken)) ErrOperationPending;;
  if negb definitive then
    mapped (exec_update (update_operation (op_ID operation) (fun op =>
      operation_row op OperationRetryable None None
        (now + providerOperationRetryDelay (op_Attempts operation)) (op_Attempts op)
        (op_ProviderReference op) errorClass now)));;
    mret order
  else
  match o_UpdatedBy order with
  | None => refuse ErrRefundPending
  | Some operator =>
      p_when (negb (String.eqb (o_Status order) StatusRefundPending)
              || negb (String.eqb (o_ProviderRefundNo order) "")
              || negb (is_set (o_RefundHoldLedgerID order))) ErrRefundPending;;
      inner (BillingService.ReleasePaymentRefundInTx (refund_input order operator) clock);;
      value ← mapped (update_order (o_ID order) true (fun o =>
        set_Status StatusPaid (set_FailureClass errorClass (set_UpdatedAt now o))));
      mapped (exec_update (update_operation (op_ID operation) (fun op =>
        operation_row op OperationDefinitiveFailed None None now (op_Attempts op)
          (op_ProviderReference op) errorClass now)));;
      insertPaymentOutbox "payment_order" (o_ID value) "payment.order.refund_failed"
        ("payment:refund-failed:v2:" +:+ uuid_string (o_ID value))
        [("order_id", JUuid (o_ID value)); ("order_no", JStr (o_OrderNo value));
         ("error_class", JStr errorClass)];;
      mret value
  end.

(** ** Orders ([repository.go]) *)
Definition order_active (userID : uuid) (o : Order) : bool :=
  uuid_eqb (o_UserID o) userID && Billing.one_of (o_Status o) [StatusCreated; StatusPending].

Definition select_user (userID : uuid) : pstmt uuid :=
  known ← pread (fun p => bool_decide (userID ∈ users p));
  prow (if known : bool then Some userID else None).

Definition same_order_input (existing : Order) (input : CreateOrderInput) : bool :=
  uuid_eqb (o_UserID existing) (co_UserID input)
  && (o_AmountMinor existing =? co_AmountMinor input)
  && String.eqb (o_Currency existing) (co_Currency input)
  && String.eqb (o_PaymentProvider existing) (co_PaymentProvider input).

(** The row [CreateOrder] inserts. *)
Definition new_order (orderID : uuid) (input : CreateOrderInput) (expiresAt now : time) : Order :=
  {| o_ID := orderID; o_OrderNo := "bablo_pay_" +:+ remove_byte "-" (uuid_string orderID);
     o_UserID := co_UserID input; o_AmountMinor := co_AmountMinor input;
     o_Currency := co_Currency input; o_PaymentProvider := co_PaymentProvider input;
     o_MerchantID := ""; o_ProviderLiveMode := None; o_ProviderTradeNo := "";
     o_ProviderRefundNo := ""; o_ProviderPaymentIntentNo := ""; o_ProviderChargeNo := "";
     o_Status := StatusCreated; o_IdempotencyKey := co_IdempotencyKey input;
     o_CheckoutData := ∅; o_FailureClass := ""; o_WalletID := None;
     o_RechargeLedgerID := None; o_RefundHoldLedgerID := None; o_RefundLedgerID := None;
     o_ExternalRefundedAmountMinor := 0; o_UpdatedBy := None; o_ExpiresAt := Some expiresAt;
     o_PaidAt := None; o_RefundedAt := None; o_ClosedAt := None;
     o_CreatedAt := now; o_UpdatedAt := now |}.

Definition CreateOrder (input : CreateOrderInput) (identity : ProviderIdentity)
    (expiresAt now : time) : ptx Order :=
  found ← optional (loadOrderByIdempotency (co_IdempotencyKey input));
  match found with
  | Some existing =>
      p_when (negb (same_order_input existing input)) ErrConflict;;
      (if String.eqb (o_Status existing) StatusCreated
       then ensureProviderOperation existing OperationCreate identity now else mret tt);;
      mret existing
  | None =>
      mapped (select_user (co_UserID input));;
      activeOrders ← pread (fun p =>
        msum (fun o => if order_active (co_UserID input) o then 1 else 0) (orders p));
      p_when (maximumActivePaymentOrdersPerUser <=? activeOrders) ErrOrderLimit;;
      orderID ← new_id;
      value ← mapped (insert_order (new_order orderID input expiresAt now));
      insertPaymentOutbox "payment_order" (o_ID value) "payment.order.created"
        ("payment:create:v1:" +:+ uuid_string (o_ID value))
        [("order_id", JUuid (o_ID value)); ("order_no", JStr (o_OrderNo value));
         ("user_id", JUuid (o_UserID value)); ("amount_minor", JInt (o_AmountMinor value));
         ("currency", JStr (o_Currency value));
         ("payment_provider", JStr (o_PaymentProvider value))];;
      ensureProviderOperation value OperationCreate identity now;;
      mret value
  end.

Definition GetOrderForUser (userID : uuid) (orderNo : string) (p : PDB) : result error Order :=
  match map_find (fun o => uuid_eqb (o_UserID o) userID && String.eqb (o_OrderNo o) orderNo)
                 (orders p) with
  | Some o => Ok o | None => Err ErrNotFound end.

Definition GetOrder (orderNo : string) (p : PDB) : result error Order :=
  match map_find (fun o => String.eqb (o_OrderNo o) orderNo) (orders p) with
  | Some o => Ok o | None => Err ErrNotFound end.

(** [ORDER BY created_at DESC, id DESC], and the row comparison with the cursor. *)
Definition newer (a b : Order) : Prop :=
  o_CreatedAt b < o_CreatedAt a \/ (o_CreatedAt a = o_CreatedAt b /\ (o_ID b <= o_ID a)%N).
#[export] Instance newer_dec : RelDecision newer.
Proof. intros a b. unfold newer. apply _. Defined.

Definition after_cursor (cursor : option PageCursor) (o : Order) : bool :=
  match cursor with
  | None => true
  | Some c => (o_CreatedAt o <? pc_CreatedAt c)
              || ((o_CreatedAt o =? pc_CreatedAt c) && (o_ID o <? pc_ID c)%N)
  end.

Definition order_listing (userID : uuid) (cursor : option PageCursor) (p : PDB) : list Order :=
  merge_sort newer
    (filter (fun o => uuid_eqb (o_UserID o) userID && after_cursor cursor o = true)
            ((map_to_list (orders p)).*2)).

(** The rows after [LIMIT limit + 1], cut to [limit]; a negative limit is an error
    of the server. *)
Definition ListOrders (userID : uuid) (cursor : option PageCursor) (limit : nat) (p : PDB)
  : OrderPage :=
  let values := take (limit + 1) (order_listing userID cursor p) in
  if (limit <? List.length values)%nat then
    {| pg_Orders := take limit values;
       pg_NextCursor := (fun o => {| pc_CreatedAt := o_CreatedAt o; pc_ID := o_ID o |})
                        <$> values !! (limit - 1)%nat |}
  else {| pg_Orders := values; pg_NextCursor := None |}.

Definition PrepareRefund (input : RefundInput) (identity : ProviderIdentity) (now clock : time)
  : ptx Order :=
  order ← mapped (loadOrderByNo (rf_OrderNo input));
  p_when (negb (String.eqb (o_MerchantID order) (pi_MerchantID identity))
          || negb (opt_bool_is (o_ProviderLiveMode order) (pi_LiveMode identity)))
         ErrProviderUnavailable;;
  if Billing.one_of (o_Status order) [StatusRefundPending; StatusRefunded] then
    (if String.eqb (o_Status order) StatusRefundPending
     then ensureProviderOperation order OperationRefund identity now else mret tt);;
    mret order
  else
  p_when (negb (String.eqb (o_ProviderRefundNo order) "")
          || negb (String.eqb (o_FailureClass order) "")) ErrInvalidTransition;;
  p_when (negb (String.eqb (o_Status order) StatusPaid) || negb (is_set (o_WalletID order))
          || negb (is_set (o_RechargeLedgerID order))) ErrInvalidTransition;;
  hold ← inner_as (fun e => match e with
                            | Billing.ErrInsufficientFunds => ErrInsufficientFunds
                            | _ => EInner e end)
           (BillingService.HoldPaymentRefundInTx (refund_input order (rf_OperatorUserID input)) clock);
  value ← mapped (update_order (o_ID order) true (fun o =>
    set_Status StatusRefundPending (set_UpdatedBy (Some (rf_OperatorUserID input))
    (set_RefundHoldLedgerID (Some (Billing.le_ID hold))
    (set_FailureClass "" (set_UpdatedAt now o))))));
  audit (order_audit (Some (rf_OperatorUserID input)) "payment.refund.requested" (o_ID order)
           (rf_RequestID input));;
  insertPaymentOutbox "payment_order" (o_ID order) "payment.refund.requested"
    ("payment:refund-request:v1:" +:+ uuid_string (o_ID order))
    [("order_id", JUuid (o_ID order)); ("order_no", JStr (o_OrderNo order));
     ("wallet_id", JUuid (Billing.le_WalletID hold)); ("ledger_id", JUuid (Billing.le_ID hold));
     ("amount_minor", JInt (o_AmountMinor order)); ("currency", JStr (o_Currency order))];;
  ensureProviderOperation value OperationRefund identity now;;
  mret value.

Definition MarkClosed (input : CloseInput) (now : time) : ptx Order :=
  order ← mapped (loadOrderByNo (ci_OrderNo input));
  if String.eqb (o_Status order) StatusClosed then mret order else
  p_when (negb (Billing.one_of (o_Status order)
                  [StatusCreated; StatusPending; StatusFailed; StatusExpired])) ErrInvalidTransition;;
  value ← mapped (update_order (o_ID order) true (fun o =>
    set_Status StatusClosed (set_ClosedAt (Some now)
    (set_UpdatedBy (Some (ci_OperatorUserID input)) (set_UpdatedAt now o)))));
  audit (order_audit (Some (ci_OperatorUserID input)) "payment.order.closed" (o_ID order)
           (ci_RequestID input));;
  insertPaymentOutbox "payment_order" (o_ID order) "payment.order.closed"
    ("payment:close:v1:" +:+ uuid_string (o_ID order))
    [("order_id", JUuid (o_ID order)); ("order_no", JStr (o_OrderNo order))];;
  mret value.

Definition MarkExpired (orderID : uuid) (now : time) : ptx bool :=
  order ← mapped (loadOrderByID orderID);
  if negb (Billing.one_of (o_Status order) [StatusCreated; StatusPending])
     || match o_ExpiresAt order with Some t => After t now | None => true end
  then mret false else
  mapped (exec_update (update_order (o_ID order) true (fun o =>
    set_Status StatusExpired (set_UpdatedAt now o))));;
  audit (order_audit None "payment.order.expired" (o_ID order) (uuid_string (o_ID order)));;
  insertPaymentOutbox "payment_order" (o_ID order) "payment.order.expired"
    ("payment:expire:v1:" +:+ uuid_string (o_ID order))
    [("order_id", JUuid (o_ID order)); ("order_no", JStr (o_OrderNo order))];;
  mret true.

Definition TouchMaintenance (orderID : uuid) (now : time) : ptx unit :=
  p_when (uuid_eqb orderID uuid_nil || IsZero now) ErrInvalidInput;;
  row ← pread (fun p => orders p !! orderID);
  match row with
  | Some o =>
      if Billing.one_of (o_Status o) [StatusCreated; StatusPending; StatusRefundPending]
      then mapped (update_order orderID false (set_UpdatedAt now));; mret tt
      else refuse ErrInvalidTransition
  | None => refuse ErrInvalidTransition
  end.

(** ** The queues of the worker *)
Definition due_before (key1 key2 : Order -> Z) (a b : Order) : Prop :=
  key1 a < key1 b \/ (key1 a = key1 b /\
    (key2 a < key2 b \/ (key2 a = key2 b /\ (o_ID a <= o_ID b)%N))).
#[export] Instance due_before_dec key1 key2 : RelDecision (due_before key1 key2).
Proof. intros a b. unfold due_before. apply _. Defined.

Definition limit_ok (limit : Z) : bool := (1 <=? limit) && (limit <=? 1000).

Definition order_due (now : time) (o : Order) : bool :=
  Billing.one_of (o_Status o) [StatusCreated; StatusPending]
  && match o_ExpiresAt o with Some t => t <=? now | None => false end.

(** [ORDER BY updated_at, expires_at, id]. *)
Definition ListDueOrders (limit : Z) (now : time) (p : PDB) : result error (list Order) :=
  if negb (limit_ok limit) then Err ErrInvalidInput else
  Ok (take (Z.to_nat limit)
       (merge_sort (due_before o_UpdatedAt (fun o => default 0 (o_ExpiresAt o)))
          (filter (fun o => order_due now o = true) ((map_to_list (orders p)).*2)))).

Definition order_reconcilable (o : Order) : bool :=
  (String.eqb (o_Status o) StatusPending && negb (String.eqb (o_ProviderTradeNo o) ""))
  || (String.eqb (o_Status o) StatusRefundPending && negb (String.eqb (o_ProviderRefundNo o) "")).

(** [ORDER BY updated_at, id]. *)
Definition ListReconciliationOrders (limit : Z) (p : PDB) : result error (list Order) :=
  if negb (limit_ok limit) then Err ErrInvalidInput else
  Ok (take (Z.to_nat limit)
       (merge_sort (due_before o_UpdatedAt (fun _ => 0))
          (filter (fun o => order_reconcilable o = true) ((map_to_list (orders p)).*2)))).

Definition operation_due (now : time) (op : ProviderOperation) : bool :=
  (Billing.one_of (op_Status op) [OperationPending; OperationRetryable]
   && (op_NextAttemptAt op <=? pg_time now))
  || (String.eqb (op_Status op) OperationProcessing
      && match op_LeaseExpiresAt op with Some t => t <=? pg_time now | None => false end).

(** [ORDER BY next_attempt_at, payment_order_id]. *)
Definition due_first (a b : ProviderOperation) : Prop :=
  op_NextAttemptAt a < op_NextAttemptAt b
  \/ (op_NextAttemptAt a = op_NextAttemptAt b /\ (op_PaymentOrderID a <= op_PaymentOrderID b)%N).
#[export] Instance due_first_dec : RelDecision due_first.
Proof. intros a b. unfold due_first. apply _. Defined.

Definition due_operation (op : ProviderOperation) : DueProviderOperation :=
  {| du_OrderID := op_PaymentOrderID op; du_MerchantID := op_MerchantID op;
     du_ProviderLiveMode := op_ProviderLiveMode op; du_OperationType := op_OperationType op;
     du_PayloadSHA256 := op_PayloadSHA256 op |}.

Definition ListDueProviderOperations (limit : Z) (now : time) (p : PDB)
  : result error (list DueProviderOperation) :=
  if negb (limit_ok limit) then Err ErrInvalidInput else
  Ok (map due_operation (take (Z.to_nat limit)
       (merge_sort due_first
          (filter (fun op => operation_due now op = true) ((map_to_list (operations p)).*2))))).

End repository.
End PaymentRepo.
