(* ===== verification/PaymentEvents.v ===== *)
(** * Verified provider events

    [events.go]: the order an event names, what the event does to it, the provider
    operation it completes, and the transaction around that, which records the event
    with its outcome: processed, or rejected with an error that is returned after the
    commit. *)

From stdpp Require Import base gmap strings list sorting.
From Stdlib Require Import ZArith Lia Ascii String.
From S2P Require Import Prelude GoLib Usage Pricing BillingModel Money Store BillingOps.
From S2P Require Import BillingService Coordinator PaymentModel PaymentStore PaymentRepo.

Module PaymentEvents.
Import Payment PaymentStore PaymentRepo.
Import Store(JUuid, JStr, JInt, SqlGuards, WallClock).
Import Coordinator(Sha256Hex, sha256_hex).

(** ** The order of an event *)

(** The first of the queries that has a row. *)
Fixpoint first_row {A} (queries : list (PDB -> option A)) (p : PDB) : option A :=
  match queries with
  | [] => None
  | q :: rest => match q p with Some a => Some a | None => first_row rest p end
  end.

Definition order_where (q : Order -> bool) (p : PDB) : option Order := map_find q (orders p).

(** [load]: no row when the value is empty. *)
Definition provider_lookup (provider : string) (column : Order -> string) (value : string)
    (p : PDB) : option Order :=
  if String.eqb value "" then None else
  order_where (fun o => String.eqb (o_PaymentProvider o) provider && String.eqb (column o) value) p.

Definition find_order_for_event (provider : string) (event : VerifiedEvent) (p : PDB)
  : option Order :=
  first_row
    [ (fun p => if String.eqb (ve_OrderNo event) "" then None
                else order_where (fun o => String.eqb (o_OrderNo o) (ve_OrderNo event)) p);
      provider_lookup provider o_ProviderPaymentIntentNo (ve_ProviderPaymentIntentNo event);
      provider_lookup provider o_ProviderChargeNo (ve_ProviderChargeNo event);
      provider_lookup provider o_ProviderTradeNo (ve_ProviderTradeNo event) ] p.

Definition loadOrderForVerifiedEvent (provider : string) (event : VerifiedEvent) : pstmt Order :=
  o ← pread (find_order_for_event provider event); prow o.

(** Two references agree where both are given. *)
Definition agrees (a b : string) : bool := String.eqb a "" || String.eqb b "" || String.eqb b a.

Definition eventReferencesOrder (order : Order) (event : VerifiedEvent) : bool :=
  let tradeUsesProviderObject :=
    negb (String.eqb (ve_ProviderTradeNo event) "")
    && (String.eqb (ve_ProviderTradeNo event) (ve_ProviderPaymentIntentNo event)
        || String.eqb (ve_ProviderTradeNo event) (ve_ProviderChargeNo event)) in
  (String.eqb (ve_OrderNo event) "" || String.eqb (ve_OrderNo event) (o_OrderNo order))
  && (tradeUsesProviderObject || agrees (o_ProviderTradeNo order) (ve_ProviderTradeNo event))
  && agrees (o_ProviderRefundNo order) (ve_ProviderRefundNo event)
  && agrees (o_ProviderPaymentIntentNo order) (ve_ProviderPaymentIntentNo event)
  && agrees (o_ProviderChargeNo order) (ve_ProviderChargeNo event).

(** The test that rejects an event as [order_mismatch]. *)
Definition event_mismatch (order : Order) (provider : string) (verified : VerifiedEvent) : bool :=
  let merchantMismatch := negb (String.eqb (o_MerchantID order) "")
                          && negb (String.eqb (o_MerchantID order) (ve_MerchantID verified)) in
  let modeMismatch := opt_bool_not (o_ProviderLiveMode order) (ve_LiveMode verified) in
  let amountMismatch :=
    if isDisputeEvent (ve_EventType verified)
       || (String.eqb (ve_EventType verified) EventRefunded
           && String.eqb (o_Status order) StatusPaid && negb (is_set (o_RefundHoldLedgerID order)))
    then (ve_AmountMinor verified <=? 0) || (o_AmountMinor order <? ve_AmountMinor verified)
    else negb (o_AmountMinor order =? ve_AmountMinor verified) in
  negb (String.eqb (o_PaymentProvider order) provider) || amountMismatch
  || negb (String.eqb (o_Currency order) (ve_Currency verified))
  || merchantMismatch || modeMismatch || negb (eventReferencesOrder order verified).

(** [errors.Is] against the three errors a rejection may record. *)
Definition permanentPaymentEventError (err : error) : bool :=
  match err with ErrWebhookMismatch | ErrInvalidTransition | ErrConflict => true | _ => false end.

Definition paymentErrorClass (err : error) : string :=
  match err with
  | ErrInvalidTransition => "invalid_transition"
  | ErrWebhookMismatch => "order_mismatch"
  | EInner Billing.ErrInsufficientFunds => "insufficient_funds"
  | _ => "processing_failed"
  end.

Definition replayedWebhookError (existing : PEvent) : option error :=
  if String.eqb (pe_ProcessingStatus existing) ProcessingProcessed then None else
  Some (if Billing.one_of (pe_ErrorClass existing) ["order_not_found"; "order_mismatch"]
        then ErrWebhookMismatch
        else if String.eqb (pe_ErrorClass existing) "invalid_transition" then ErrInvalidTransition
        else if String.eqb (pe_ErrorClass existing) "insufficient_funds" then ErrInsufficientFunds
        else ErrConflict).

Definition mapVerifiedEventInsertError (e : sqlerr) : error :=
  match mapRepositoryError e with ErrConflict => ErrWebhookReplay | e => e end.

Definition sameAuthenticatedEvent (existing : PEvent) (value : VerifiedEvent) (hash source : string)
    (signatureVerified : bool) : bool :=
  String.eqb (pe_payloadHash existing) hash
  && Bool.eqb (pe_SignatureVerified existing) signatureVerified
  && String.eqb (pe_VerificationSource existing) source
  && String.eqb (pe_ProviderTradeNo existing) (ve_ProviderTradeNo value)
  && String.eqb (pe_ProviderPaymentIntentNo existing) (ve_ProviderPaymentIntentNo value)
  && String.eqb (pe_ProviderChargeNo existing) (ve_ProviderChargeNo value)
  && String.eqb (pe_ProviderDisputeNo existing) (ve_ProviderDisputeNo value)
  && String.eqb (pe_EventType existing) (ve_EventType value)
  && String.eqb (pe_ProviderRefundNo existing) (ve_ProviderRefundNo value)
  && match pe_AmountMinor existing with Some a => a =? ve_AmountMinor value | None => false end
  && String.eqb (pe_Currency existing) (ve_Currency value)
  && String.eqb (pe_MerchantID existing) (ve_MerchantID value)
  && opt_bool_is (pe_ProviderLiveMode existing) (ve_LiveMode value)
  && match pe_OccurredAt existing with Some t => t =? ve_OccurredAt value | None => false end.

Section events.
Context `{UuidText, SqlGuards, WallClock, PaymentGuards, Sha256Hex, TimeText}.

Definition attachProviderIdentifiers (order : Order) (event : VerifiedEvent) (now : time)
  : ptx Order :=
  p_when (negb (agrees (o_ProviderPaymentIntentNo order) (ve_ProviderPaymentIntentNo event))
          || negb (agrees (o_ProviderChargeNo order) (ve_ProviderChargeNo event)))
         ErrWebhookMismatch;;
  if String.eqb (ve_ProviderPaymentIntentNo event) "" && String.eqb (ve_ProviderChargeNo event) ""
  then mret order else
  mapped_as (fun e => match mapRepositoryError e with ErrConflict => ErrWebhookMismatch | e => e end)
    (update_order (o_ID order) false (fun o =>
      set_ProviderPaymentIntentNo
        (coalesce (o_ProviderPaymentIntentNo o) (ve_ProviderPaymentIntentNo event))
      (set_ProviderChargeNo (coalesce (o_ProviderChargeNo o) (ve_ProviderChargeNo event))
      (set_UpdatedAt now o)))).

(** [merchant_id = COALESCE(merchant_id, $), provider_live_mode = COALESCE(...)]. *)
Definition attach_identity (event : VerifiedEvent) (o : Order) : Order :=
  set_MerchantID (coalesce (o_MerchantID o) (ve_MerchantID event))
    (set_ProviderLiveMode (coalesce_opt (o_ProviderLiveMode o) (Some (ve_LiveMode event))) o).
Definition attach_trade (event : VerifiedEvent) (o : Order) : Order :=
  set_ProviderTradeNo (coalesce (o_ProviderTradeNo o) (ve_ProviderTradeNo event))
    (attach_identity event o).

(** ** What an event does to its order *)
Definition apply_pending (order : Order) (event : VerifiedEvent) (now : time) : ptx Order :=
  if negb (String.eqb (ve_ProviderRefundNo event) "") then
    if negb (String.eqb (o_ProviderRefundNo order) "")
       || negb (String.eqb (o_Status order) StatusRefundPending)
    then mret order else
    mapped (update_order (o_ID order) false (fun o =>
      set_ProviderRefundNo (ve_ProviderRefundNo event) (set_UpdatedAt now o)))
  else
  if String.eqb (o_Status order) StatusPaid then mret order else
  p_when (negb (Billing.one_of (o_Status order) [StatusCreated; StatusPending])) ErrInvalidTransition;;
  mapped (update_order (o_ID order) true (fun o =>
    set_Status StatusPending (set_FailureClass "" (set_UpdatedAt now (attach_trade event o))))).

Definition recharge_key (orderID : uuid) : string :=
  "payment:recharge:v1:" +:+ uuid_string orderID.

Definition recharge_input (order : Order) : Billing.CreditInput :=
  {| Billing.cr_UserID := o_UserID order; Billing.cr_Currency := o_Currency order;
     Billing.cr_EntryType := Billing.EntryRecharge; Billing.cr_AmountMinor := o_AmountMinor order;
     Billing.cr_ReferenceType := "payment_order"; Billing.cr_ReferenceID := uuid_string (o_ID order);
     Billing.cr_IdempotencyKey := recharge_key (o_ID order); Billing.cr_RequestID := "";
     Billing.cr_OperatorUserID := None; Billing.cr_Source := "payment" |}.

(** The payload of an outbox event about money that moved. *)
Definition money_payload (order : Order) (entry : Billing.LedgerEntry) : list (string * Store.JVal) :=
  [("order_id", JUuid (o_ID order)); ("order_no", JStr (o_OrderNo order));
   ("wallet_id", JUuid (Billing.le_WalletID entry)); ("ledger_id", JUuid (Billing.le_ID entry));
   ("amount_minor", JInt (o_AmountMinor order)); ("currency", JStr (o_Currency order))].

Definition apply_paid (order : Order) (event : VerifiedEvent) (now clock : time) : ptx Order :=
  if String.eqb (o_Status order) StatusPaid then mret order else
  p_when (negb (Billing.one_of (o_Status order) [StatusCreated; StatusPending])) ErrInvalidTransition;;
  p_when (Before (ve_OccurredAt event) (o_CreatedAt order)) ErrWebhookMismatch;;
  entry ← inner (BillingService.Service_Credit (recharge_input order) clock);
  value ← mapped (update_order (o_ID order) true (fun o =>
    set_Status StatusPaid (set_WalletID (Some (Billing.le_WalletID entry))
    (set_RechargeLedgerID (Some (Billing.le_ID entry)) (set_PaidAt (Some (ve_OccurredAt event))
    (set_FailureClass "" (set_UpdatedAt now (attach_trade event o))))))));
  insertPaymentOutbox "payment_order" (o_ID order) "payment.order.paid"
    ("payment:paid:v1:" +:+ uuid_string (o_ID order)) (money_payload order entry);;
  mret value.

Definition transitionProviderTerminal (order : Order) (target failureClass : string)
    (event : VerifiedEvent) (now : time) : ptx Order :=
  if String.eqb (o_Status order) target then mret order else
  let allowed := Billing.one_of (o_Status order) [StatusCreated; StatusPending]
    || (String.eqb target StatusClosed
        && Billing.one_of (o_Status order) [StatusFailed; StatusExpired]) in
  p_when (negb allowed) ErrInvalidTransition;;
  let closedAt := if String.eqb target StatusClosed then Some (ve_OccurredAt event) else None in
  value ← mapped (update_order (o_ID order) true (fun o =>
    set_Status target (set_FailureClass failureClass
    (set_ClosedAt (coalesce_opt (o_ClosedAt o) closedAt) (set_UpdatedAt now (attach_trade event o))))));
  insertPaymentOutbox "payment_order" (o_ID order) ("payment.order." +:+ target)
    ("payment:" +:+ target +:+ ":v1:" +:+ uuid_string (o_ID order))
    [("order_id", JUuid (o_ID order)); ("order_no", JStr (o_OrderNo order)); ("status", JStr target)];;
  mret value.

Definition applyExternalRefund (order : Order) (event : VerifiedEvent) (now clock : time) : ptx Order :=
  p_when (negb (is_set (o_WalletID order)) || String.eqb (ve_ProviderRefundNo event) ""
          || Before (ve_OccurredAt event) (o_CreatedAt order)) ErrWebhookMismatch;;
  found ← optional (loadExternalRefund (o_PaymentProvider order) (ve_ProviderRefundNo event));
  match found with
  | Some existing =>
      p_when (negb (uuid_eqb (xr_OrderID existing) (o_ID order))
              || negb (xr_AmountMinor existing =? ve_AmountMinor event)
              || negb (String.eqb (xr_Currency existing) (ve_Currency event))) ErrWebhookMismatch;;
      mret order
  | None =>
      p_when ((o_AmountMinor order <? ve_AmountMinor event)
              || (i64_sub (o_AmountMinor order) (ve_AmountMinor event)
                    <? o_ExternalRefundedAmountMinor order)) ErrWebhookMismatch;;
      let total := i64_add (o_ExternalRefundedAmountMinor order) (ve_AmountMinor event) in
      liability ← inner (BillingService.Service_OpenLiability
        {| Billing.li_UserID := o_UserID order; Billing.li_Currency := o_Currency order;
           Billing.li_LiabilityType := "payment_refund"; Billing.li_ReferenceType := "payment_refund";
           Billing.li_ReferenceID := o_PaymentProvider order +:+ ":" +:+ ve_ProviderRefundNo event;
           Billing.li_AmountMinor := ve_AmountMinor event |} clock);
      refundID ← new_id;
      mapped (insert_external_refund
        {| xr_ID := refundID; xr_PaymentProvider := o_PaymentProvider order;
           xr_ProviderRefundNo := ve_ProviderRefundNo event; xr_OrderID := o_ID order;
           xr_LiabilityID := Billing.l_ID liability; xr_ProviderChargeNo := ve_ProviderChargeNo event;
           xr_PaymentIntentNo := ve_ProviderPaymentIntentNo event;
           xr_AmountMinor := ve_AmountMinor event; xr_Currency := ve_Currency event;
           xr_OccurredAt := ve_OccurredAt event; xr_CreatedAt := now |});;
      let whole := total =? o_AmountMinor order in
      let targetStatus := if whole then StatusRefunded else o_Status order in
      let refundedAt := if whole then Some (ve_OccurredAt event) else None in
      value ← mapped (update_order (o_ID order) true (fun o =>
        set_Status targetStatus (set_ExternalRefundedAmountMinor total
        (set_RefundedAt (coalesce_opt (o_RefundedAt o) refundedAt)
        (set_FailureClass "" (set_UpdatedAt now o))))));
      insertPaymentOutbox "payment_order" (o_ID order) "payment.order.externally_refunded"
        ("payment:external-refund:v1:" +:+ uuid_string refundID)
        [("order_id", JUuid (o_ID order)); ("order_no", JStr (o_OrderNo order));
         ("wallet_id", JUuid (default uuid_nil (o_WalletID order)));
         ("external_refund_id", JUuid refundID);
         ("provider_refund_no", JStr (ve_ProviderRefundNo event));
         ("liability_id", JUuid (Billing.l_ID liability));
         ("amount_minor", JInt (ve_AmountMinor event));
         ("external_refunded_amount_minor", JInt total);
         ("recovered_amount_minor", JInt (Billing.l_Recovered liability));
         ("currency", JStr (o_Currency order))];;
      mret value
  end.

(** The refund number an order keeps: its own, else the event's. *)
Definition refund_number (order : Order) (event : VerifiedEvent) : string :=
  coalesce (o_ProviderRefundNo order) (ve_ProviderRefundNo event).

Definition apply_refunded (order : Order) (event : VerifiedEvent) (now clock : time) : ptx Order :=
  if String.eqb (o_Status order) StatusPaid && negb (is_set (o_RefundHoldLedgerID order))
  then applyExternalRefund order event now clock else
  if String.eqb (o_Status order) StatusRefunded then mret order else
  let refundNo := refund_number order event in
  match o_UpdatedBy order with
  | None => refuse ErrInvalidTransition
  | Some operator =>
      p_when (negb (String.eqb (o_Status order) StatusRefundPending) || String.eqb refundNo "")
             ErrInvalidTransition;;
      entry ← inner (BillingService.CompletePaymentRefundInTx (refund_input order operator) clock);
      value ← mapped (update_order (o_ID order) true (fun o =>
        set_Status StatusRefunded (set_ProviderRefundNo refundNo
        (set_RefundLedgerID (Some (Billing.le_ID entry))
        (set_RefundedAt (Some (ve_OccurredAt event))
        (set_FailureClass "" (set_UpdatedAt now (attach_identity event o))))))));
      insertPaymentOutbox "payment_order" (o_ID order) "payment.order.refunded"
        ("payment:refunded:v1:" +:+ uuid_string (o_ID order)) (money_payload order entry);;
      mret value
  end.

Definition apply_refund_failed (order : Order) (event : VerifiedEvent) (now clock : time) : ptx Order :=
  if String.eqb (o_Status order) StatusPaid
     && String.eqb (o_ProviderRefundNo order) (ve_ProviderRefundNo event)
     && String.eqb (o_FailureClass order) "provider_refund_failed"
  then mret order else
  let refundNo := refund_number order event in
  match o_UpdatedBy order with
  | None => refuse ErrInvalidTransition
  | Some operator =>
      p_when (negb (String.eqb (o_Status order) StatusRefundPending) || String.eqb refundNo "")
             ErrInvalidTransition;;
      inner (BillingService.ReleasePaymentRefundInTx (refund_input order operator) clock);;
      value ← mapped (update_order (o_ID order) true (fun o =>
        set_Status StatusPaid (set_ProviderRefundNo refundNo
        (set_FailureClass "provider_refund_failed" (set_UpdatedAt now (attach_identity event o))))));
      insertPaymentOutbox "payment_order" (o_ID order) "payment.order.refund_failed"
        ("payment:refund-failed:v1:" +:+ uuid_string (o_ID order))
        [("order_id", JUuid (o_ID order)); ("order_no", JStr (o_OrderNo order));
         ("amount_minor", JInt (o_AmountMinor order)); ("currency", JStr (o_Currency order))];;
      mret value
  end.

(** The dispute of an event, opened with its liability when it is new. *)
Definition load_or_open_dispute (order : Order) (event : VerifiedEvent) (now clock : time)
  : ptx paymentDispute :=
  found ← optional (loadPaymentDispute (o_PaymentProvider order) (ve_ProviderDisputeNo event));
  match found with
  | Some dispute =>
      p_when (negb (uuid_eqb (dp_OrderID dispute) (o_ID order))
              || negb (String.eqb (dp_ProviderChargeNo dispute) (ve_ProviderChargeNo event))
              || negb (dp_AmountMinor dispute =? ve_AmountMinor event)
              || negb (String.eqb (dp_Currency dispute) (ve_Currency event))) ErrWebhookMismatch;;
      mret dispute
  | None =>
      liability ← inner (BillingService.Service_OpenLiability
        {| Billing.li_UserID := o_UserID order; Billing.li_Currency := o_Currency order;
           Billing.li_LiabilityType := "payment_dispute"; Billing.li_ReferenceType := "payment_dispute";
           Billing.li_ReferenceID := o_PaymentProvider order +:+ ":" +:+ ve_ProviderDisputeNo event;
           Billing.li_AmountMinor := ve_AmountMinor event |} clock);
      disputeID ← new_id;
      let dispute :=
        {| dp_ID := disputeID; dp_OrderID := o_ID order; dp_LiabilityID := Billing.l_ID liability;
           dp_Provider := o_PaymentProvider order; dp_ProviderDisputeNo := ve_ProviderDisputeNo event;
           dp_ProviderChargeNo := ve_ProviderChargeNo event;
           dp_PaymentIntentNo := ve_ProviderPaymentIntentNo event;
           dp_AmountMinor := ve_AmountMinor event; dp_Currency := ve_Currency event;
           dp_Status := "open"; dp_OpenedAt := ve_OccurredAt event; dp_ResolvedAt := None;
           dp_CreatedAt := now; dp_UpdatedAt := now |} in
      mapped (insert_dispute dispute);;
      mret dispute
  end.

Definition dispute_target (eventType : string) : string :=
  if String.eqb eventType EventDisputeWon then "won"
  else if String.eqb eventType EventDisputeLost then "lost" else "open".

Definition applyDisputeEvent (order : Order) (event : VerifiedEvent) (now clock : time) : ptx Order :=
  p_when (negb (is_set (o_WalletID order)) || String.eqb (ve_ProviderDisputeNo event) ""
          || String.eqb (ve_ProviderChargeNo event) ""
          || Before (ve_OccurredAt event) (o_CreatedAt order)) ErrWebhookMismatch;;
  dispute ← load_or_open_dispute order event now clock;
  let target := dispute_target (ve_EventType event) in
  if String.eqb (dp_Status dispute) target
     || (String.eqb target "open" && negb (String.eqb (dp_Status dispute) "open"))
  then mret order else
  p_when (negb (String.eqb (dp_Status dispute) "open")) ErrWebhookMismatch;;
  (if String.eqb target "won"
   then inner (BillingService.Service_ReverseLiability (dp_LiabilityID dispute) clock);; mret tt
   else mret tt);;
  (if negb (String.eqb target "open")
   then mapped (resolve_dispute (dp_ID dispute) target (ve_OccurredAt event) now)
   else mret tt);;
  insertPaymentOutbox "payment_order" (o_ID order) ("payment.dispute." +:+ target)
    ("payment:dispute:" +:+ target +:+ ":v1:" +:+ uuid_string (dp_ID dispute))
    [("order_id", JUuid (o_ID order)); ("order_no", JStr (o_OrderNo order));
     ("dispute_id", JUuid (dp_ID dispute));
     ("provider_dispute_no", JStr (dp_ProviderDisputeNo dispute));
     ("liability_id", JUuid (dp_LiabilityID dispute)); ("amount_minor", JInt (dp_AmountMinor dispute));
     ("currency", JStr (dp_Currency dispute)); ("status", JStr target)];;
  mret order.

Definition applyVerifiedEvent (order : Order) (event : VerifiedEvent) (now clock : time) : ptx Order :=
  let t := ve_EventType event in
  if String.eqb t EventPending then apply_pending order event now
  else if String.eqb t EventPaid then apply_paid order event now clock
  else if String.eqb t EventFailed
       then transitionProviderTerminal order StatusFailed "provider_failed" event now
  else if String.eqb t EventExpired then transitionProviderTerminal order StatusExpired "" event now
  else if String.eqb t EventClosed then transitionProviderTerminal order StatusClosed "" event now
  else if String.eqb t EventRefunded then apply_refunded order event now clock
  else if String.eqb t EventRefundFailed then apply_refund_failed order event now clock
  else if isDisputeEvent t then applyDisputeEvent order event now clock
  else refuse ErrWebhookMismatch.

(** At most one operation of each type per order: [RowsAffected] is 0 when there is
    none, or when it failed definitively. *)
Definition completeProviderOperationFromEvent (orderID : uuid) (event : VerifiedEvent) (now : time)
  : ptx unit :=
  let '(operationType, reference) :=
    if String.eqb (ve_ProviderRefundNo event) "" then (OperationCreate, ve_ProviderTradeNo event)
    else (OperationRefund, ve_ProviderRefundNo event) in
  row ← pread (fun p => map_find (of_operation orderID operationType) (operations p));
  match row with
  | None => mret tt
  | Some op =>
      p_when (String.eqb (op_Status op) OperationDefinitiveFailed) ErrConflict;;
      mapped (update_operation (op_ID op) (fun op =>
        operation_row op OperationSucceeded None None now (op_Attempts op) reference "" now));;
      mret tt
  end.

(** ** The transaction *)
Definition rejectVerifiedEvent (eventID : uuid) (provider requestID errorClass : string) (now : time)
  : ptx unit :=
  mapped (update_processing eventID ProcessingRejected errorClass);;
  audit {| Store.ae_ActorUserID := None; Store.ae_Action := "payment.webhook.rejected";
           Store.ae_TargetType := "payment_provider"; Store.ae_TargetID := provider;
           Store.ae_RequestID := requestID; Store.ae_Result := "denied" |}.

(** After a statement that failed with an SQLSTATE every further one fails. *)
Definition in_failed_transaction : failure :=
  {| f_error := EDatabase (SqlState "25P02"); f_aborted := true |}.

(** [Ok (Some e)]: the event is rejected with [e], which [WithTx] commits. *)
Definition settle_outcome (m : ptx Order) (eventID : uuid) (provider requestID : string)
    (eventType : string) (order : Order) (now : time) : ptx (Order * option error) := fun s =>
  match m s with
  | (s', Ok updated) =>
      (mapped (update_processing eventID ProcessingProcessed "");;
       audit (order_audit None ("payment.webhook." +:+ eventType) (o_ID order) requestID);;
       mret (updated, None)) s'
  | (s', Err f) =>
      if negb (permanentPaymentEventError (f_error f)) then (s', Err f) else
      if f_aborted f then (s', Err in_failed_transaction) else
      (rejectVerifiedEvent eventID provider requestID (paymentErrorClass (f_error f)) now;;
       mret (order, Some (f_error f))) s'
  end.

Definition apply_and_complete (order : Order) (verified : VerifiedEvent) (now clock : time)
  : ptx Order :=
  updated ← applyVerifiedEvent order verified now clock;
  (if isDisputeEvent (ve_EventType verified) then mret tt
   else completeProviderOperationFromEvent (o_ID order) verified now);;
  mret updated.

Definition replayedWebhookResult (existing : PEvent) (p : PDB) : WebhookResult :=
  {| wr_Event := existing;
     wr_Order := match pe_OrderID existing with Some orderID => orders p !! orderID | None => None end;
     wr_Replayed := true; wr_Rejected := is_set (replayedWebhookError existing) |}.

Definition replay (existing : PEvent) (verified : VerifiedEvent) (hash source : string)
    (signatureVerified : bool) : ptx (WebhookResult * option error) :=
  p_when (negb (sameAuthenticatedEvent existing verified hash source signatureVerified))
         ErrWebhookReplay;;
  result ← pread (replayedWebhookResult existing);
  mret (result, replayedWebhookError existing).

(** The row of a new event. *)
Definition event_row (eventID : uuid) (provider : string) (orderID : option uuid)
    (verified : VerifiedEvent) (hash source : string) (signatureVerified : bool) (receivedAt : time)
  : PEvent :=
  {| pe_ID := eventID; pe_PaymentProvider := provider;
     pe_ProviderEventID := ve_ProviderEventID verified; pe_OrderID := orderID;
     pe_ProviderTradeNo := ve_ProviderTradeNo verified;
     pe_ProviderRefundNo := ve_ProviderRefundNo verified;
     pe_ProviderPaymentIntentNo := ve_ProviderPaymentIntentNo verified;
     pe_ProviderChargeNo := ve_ProviderChargeNo verified;
     pe_ProviderDisputeNo := ve_ProviderDisputeNo verified; pe_EventType := ve_EventType verified;
     pe_AmountMinor := Some (ve_AmountMinor verified); pe_Currency := ve_Currency verified;
     pe_MerchantID := ve_MerchantID verified; pe_ProviderLiveMode := Some (ve_LiveMode verified);
     pe_SignatureVerified := signatureVerified; pe_VerificationSource := source;
     pe_OccurredAt := Some (pg_time (ve_OccurredAt verified)); pe_ReceivedAt := receivedAt;
     pe_ProcessingStatus := ProcessingPending; pe_ErrorClass := ""; pe_payloadHash := hash |}.

(** The outcome of a recorded event: the order the result shows and the error. *)
Definition process_recorded (eventID : uuid) (provider requestID : string)
    (found : option Order) (verified : VerifiedEvent) (receivedAt clock : time)
  : ptx (option Order * option error) :=
  match found with
  | None =>
      rejectVerifiedEvent eventID provider requestID "order_not_found" receivedAt;;
      mret (None, Some ErrWebhookMismatch)
  | Some order =>
      if event_mismatch order provider verified then
        rejectVerifiedEvent eventID provider requestID "order_mismatch" receivedAt;;
        mret (Some order, Some ErrWebhookMismatch)
      else
      order ← attachProviderIdentifiers order verified receivedAt;
      '(shown, e) ← settle_outcome (apply_and_complete order verified receivedAt clock)
        eventID provider requestID (ve_EventType verified) order receivedAt;
      mret (Some shown, e)
  end.

Definition processAuthenticatedEvent (provider : string) (verified : VerifiedEvent)
    (payloadHash verificationSource : string) (signatureVerified : bool) (requestID : string)
    (receivedAt clock : time) : ptx (WebhookResult * option error) :=
  p_when (negb (Billing.one_of verificationSource [VerificationWebhook; VerificationProvider])
          || negb (Bool.eqb signatureVerified (String.eqb verificationSource VerificationWebhook)))
         ErrInvalidInput;;
  existing ← optional (loadEventByProviderID provider (ve_ProviderEventID verified));
  match existing with
  | Some existing => replay existing verified payloadHash verificationSource signatureVerified
  | None =>
      found ← optional (loadOrderForVerifiedEvent provider verified);
      eventID ← new_id;
      inserted ← mapped_as mapVerifiedEventInsertError
        (insert_event (event_row eventID provider (o_ID <$> found) verified payloadHash
           verificationSource signatureVerified receivedAt));
      if negb inserted then
        existing ← mapped (loadEventByProviderID provider (ve_ProviderEventID verified));
        replay existing verified payloadHash verificationSource signatureVerified
      else
      '(shown, e) ← process_recorded eventID provider requestID found verified receivedAt clock;
      value ← mapped (loadEventByID eventID);
      mret ({| wr_Event := value; wr_Order := shown; wr_Replayed := false; wr_Rejected := is_set e |}, e)
  end.

Definition ProcessVerifiedEvent (provider : string) (verified : VerifiedEvent) (payloadHash : string)
    (requestID : string) (receivedAt clock : time) : ptx (WebhookResult * option error) :=
  processAuthenticatedEvent provider verified payloadHash VerificationWebhook true requestID
    receivedAt clock.

(** The event a reconciled provider state is turned into. *)
Definition state_hash (provider : string) (order : Order) (state : ProviderState) : string :=
  sha256_hex
    (provider +:+ nul +:+ o_OrderNo order +:+ nul +:+ ps_MerchantID state +:+ nul
     +:+ bool_text (ps_LiveMode state) +:+ nul +:+ ps_ProviderTradeNo state +:+ nul
     +:+ ps_ProviderRefundNo state +:+ nul +:+ ps_EventType state +:+ nul
     +:+ Itoa (ps_AmountMinor state) +:+ nul +:+ ps_Currency state +:+ nul
     +:+ rfc3339 (ps_OccurredAt state)).

Definition state_event (hash : string) (order : Order) (state : ProviderState) : VerifiedEvent :=
  {| ve_ProviderEventID := "reconcile_" +:+ hash; ve_MerchantID := ps_MerchantID state;
     ve_LiveMode := ps_LiveMode state; ve_OrderNo := o_OrderNo order;
     ve_ProviderTradeNo := ps_ProviderTradeNo state; ve_ProviderRefundNo := ps_ProviderRefundNo state;
     ve_ProviderPaymentIntentNo := ""; ve_ProviderChargeNo := ""; ve_ProviderDisputeNo := "";
     ve_EventType := ps_EventType state; ve_AmountMinor := ps_AmountMinor state;
     ve_Currency := ps_Currency state; ve_OccurredAt := ps_OccurredAt state |}.

Definition ProcessProviderState (provider : string) (order : Order) (state : ProviderState)
    (receivedAt clock : time) : ptx (WebhookResult * option error) :=
  p_when (uuid_eqb (o_ID order) uuid_nil || String.eqb provider "" || String.eqb (ps_MerchantID state) ""
          || String.eqb (ps_ProviderTradeNo state) "" || negb (validEventType (ps_EventType state))
          || String.eqb (ps_EventType state) EventPending || (ps_AmountMinor state <=? 0)
          || String.eqb (ps_Currency state) "" || IsZero (ps_OccurredAt state)) ErrInvalidInput;;
  let payloadHash := state_hash provider order state in
  processAuthenticatedEvent provider (state_event payloadHash order state) payloadHash
    VerificationProvider false ("payment-reconcile:" +:+ uuid_string (o_ID order)) receivedAt clock.

End events.
End PaymentEvents.
