(* ===== verification/Secret.v ===== *)
(** * Package [internal/secret]: the versioned keyring

    [keyring.go].  AES-256-GCM ([crypto/aes], [crypto/cipher]) is a parameter with the
    law that opening what was sealed under the same key, nonce and additional data
    gives the plaintext back; the random source is an argument of [Seal]. *)

From stdpp Require Import base gmap strings list.
From Stdlib Require Import ZArith Lia Ascii String.
From S2P Require Import Prelude GoLib.

Module Secret.

Inductive error := ErrInvalidKeyring | ErrUnknownVersion | ErrDecrypt | ERandom.

Record Sealed := { Ciphertext : string; Nonce : string; KeyVersion : string }.

(** The AEADs of the source's map, by the bytes of their key. *)
Record Keyring := { current : string; keys : gmap string string }.

(** [cipher.NewGCM]: nonces of 12 bytes, tags of 16. *)
Definition NonceSize : Z := 12.
Definition Overhead : Z := 16.

Class Aead := {
  aead_seal : string -> string -> string -> string -> string;
  aead_open : string -> string -> string -> string -> option string
}.
(** Documented behaviour of [cipher.AEAD]. *)
Class AeadLaws (A : Aead) : Prop := {
  aead_opens : forall key nonce plaintext aad,
    aead_open key nonce (aead_seal key nonce plaintext aad) aad = Some plaintext;
  aead_overhead : forall key nonce plaintext aad,
    slen (aead_seal key nonce plaintext aad) = slen plaintext + Overhead
}.

Definition alphanumeric (c : ascii) : bool := is_upper c || is_lower c || is_digit c.
Definition version_byte (c : ascii) : bool :=
  alphanumeric c || Ascii.eqb c "." || Ascii.eqb c "_" || Ascii.eqb c "-".

(** [^[A-Za-z0-9][A-Za-z0-9._-]{0,63}$]. *)
Definition keyVersionPattern (s : string) : bool :=
  match s with
  | EmptyString => false
  | String c t => alphanumeric c && forall_bytes version_byte t && (slen t <=? 63)
  end.

Definition NewKeyring (current : string) (keys : gmap string string) : result error Keyring :=
  if negb (keyVersionPattern current) || (Z.of_nat (size keys) =? 0)
     || (16 <? Z.of_nat (size keys)) then Err ErrInvalidKeyring else
  if negb (forallb (fun kv => keyVersionPattern kv.1 && (slen kv.2 =? 32)) (map_to_list keys))
  then Err ErrInvalidKeyring else
  match keys !! current with
  | None => Err ErrInvalidKeyring
  | Some _ => Ok {| current := current; keys := keys |}
  end.

Section cipher.
Context `{Aead}.

(** [nonce] is what [io.ReadFull(rand.Reader, nonce)] read, [None] on its error. *)
Definition Seal (k : Keyring) (nonce : option string) (plaintext aad : string)
  : result error Sealed :=
  match keys k !! current k with
  | None => Err ErrUnknownVersion
  | Some key =>
      match nonce with
      | None => Err ERandom
      | Some nonce => Ok {| Ciphertext := aead_seal key nonce plaintext aad; Nonce := nonce;
                            KeyVersion := current k |}
      end
  end.

Definition Open (k : Keyring) (sealed : Sealed) (aad : string) : result error string :=
  match keys k !! KeyVersion sealed with
  | None => Err ErrUnknownVersion
  | Some key =>
      if negb (slen (Nonce sealed) =? NonceSize) || (slen (Ciphertext sealed) <=? Overhead)
      then Err ErrDecrypt else
      match aead_open key (Nonce sealed) (Ciphertext sealed) aad with
      | Some plaintext => Ok plaintext
      | None => Err ErrDecrypt
      end
  end.

(** A keyring that still has the keys of an older one opens what that one sealed, and
    only the empty plaintext is refused: its ciphertext is no longer than the tag. *)
Lemma Open_Seal `{!AeadLaws _} (old new : Keyring) nonce plaintext aad sealed :
  keys old ⊆ keys new -> slen nonce = NonceSize ->
  Seal old (Some nonce) plaintext aad = Ok sealed ->
  Open new sealed aad = if String.eqb plaintext "" then Err ErrDecrypt else Ok plaintext.
Proof.
  intros Hsub Hn. unfold Seal. destruct (keys old !! current old) as [key|] eqn:Hk; [|done].
  intros [= <-]. unfold Open. simpl. rewrite (lookup_weaken _ _ _ _ Hk Hsub), Hn, aead_overhead.
  rewrite Z.eqb_refl, aead_opens. cbn [negb orb].
  destruct plaintext as [|c t]; [done|]. change (String.eqb (String c t) "") with false.
  case_match eqn:E; [|done]. apply Z.leb_le in E. unfold slen in E. simpl in E. lia.
Qed.

(** A keyring [NewKeyring] accepted always seals. *)
Lemma NewKeyring_seals cur ks k nonce plaintext aad :
  NewKeyring cur ks = Ok k -> is_ok (Seal k (Some nonce) plaintext aad) = true.
Proof.
  unfold NewKeyring. repeat case_match; intros [=]; subst. unfold Seal. simpl. by simplify_option_eq.
Qed.

End cipher.
End Secret.
