(* ===== verification/PaymentFunding.v ===== *)
(** * Manual recharges and vouchers

    [funding.go] and [voucher.go], with the functions of [service.go] that make the
    voucher code and the idempotency keys. *)

From stdpp Require Import base gmap strings list sorting.
From Stdlib Require Import ZArith Lia Ascii String.
From S2P Require Import Prelude GoLib Usage Pricing BillingModel Money Store BillingOps.
From S2P Require Import BillingService Coordinator Secret PaymentModel PaymentStore PaymentRepo.

Module PaymentFunding.
Import Payment PaymentStore PaymentRepo.
Import Store(JUuid, JStr, JInt, SqlGuards, WallClock).
Import Coordinator(Sha256Hex, sha256_hex).
Import Secret(Aead, Keyring, Seal, Open).

Record CreatedVoucher := { cr_Voucher : Voucher; cr_Code : string }.

Definition voucherPrefix : string := "bablo_vc_".

(** [base64.RawURLEncoding]. *)
Definition base64_alphabet : string :=
  "ABCDEFGHIJKLMNOPQRSTUVWXYZabcdefghijklmnopqrstuvwxyz0123456789-_".
Definition base64_char (sextet : Z) : ascii :=
  default "A"%char (String.get (Z.to_nat sextet) base64_alphabet).
Definition base64_byte (c : ascii) : bool :=
  is_upper c || is_lower c || is_digit c || Ascii.eqb c "-" || Ascii.eqb c "_".

Fixpoint RawURLEncode (bytes : list Z) : string :=
  match bytes with
  | a :: b :: c :: rest =>
      String (base64_char (Z.shiftr a 2))
      (String (base64_char (Z.lor (Z.shiftl (Z.land a 3) 4) (Z.shiftr b 4)))
      (String (base64_char (Z.lor (Z.shiftl (Z.land b 15) 2) (Z.shiftr c 6)))
      (String (base64_char (Z.land c 63)) (RawURLEncode rest))))
  | [a; b] =>
      String (base64_char (Z.shiftr a 2))
      (String (base64_char (Z.lor (Z.shiftl (Z.land a 3) 4) (Z.shiftr b 4)))
      (String (base64_char (Z.shiftl (Z.land b 15) 2)) ""))
  | [a] =>
      String (base64_char (Z.shiftr a 2)) (String (base64_char (Z.shiftl (Z.land a 3) 4)) "")
  | [] => ""
  end.

(** The prefix and 43 characters that decode to 32 bytes.  The decoder skips line
    breaks and ignores the unused bits of the last character: 43 characters decode to
    32 bytes exactly when each of them is of the alphabet. *)
Definition validVoucherCode (value : string) : bool :=
  String.prefix voucherPrefix value && (slen value =? slen voucherPrefix + 43)
  && forall_bytes base64_byte
       (String.substring (String.length voucherPrefix) 43 value).

Definition sameOptionalTime (left right : option time) : bool :=
  match left, right with
  | Some l, Some r => l =? r
  | None, None => true
  | _, _ => false
  end.

Definition sameFundingOperation (existing : fundingOperation) (input : ManualRechargeInput) : bool :=
  uuid_eqb (fo_UserID existing) (mr_UserID input)
  && String.eqb (fo_Currency existing) (mr_Currency input)
  && (fo_AmountMinor existing =? mr_AmountMinor input)
  && uuid_eqb (fo_OperatorUserID existing) (mr_OperatorUserID input).

Section funding.
Context `{UuidText, SqlGuards, WallClock, PaymentGuards, Sha256Hex, Aead}.

(** ** [ManualRecharge] *)
Definition manual_input (input : ManualRechargeInput) (idempotencyKey : string)
  : Billing.CreditInput :=
  {| Billing.cr_UserID := mr_UserID input; Billing.cr_Currency := mr_Currency input;
     Billing.cr_EntryType := Billing.EntryRecharge; Billing.cr_AmountMinor := mr_AmountMinor input;
     Billing.cr_ReferenceType := "admin_recharge"; Billing.cr_ReferenceID := idempotencyKey;
     Billing.cr_IdempotencyKey := idempotencyKey; Billing.cr_RequestID := mr_RequestID input;
     Billing.cr_OperatorUserID := Some (mr_OperatorUserID input); Billing.cr_Source := "admin" |}.

Definition funding_row (input : ManualRechargeInput) (ledgerID : uuid) (now : time)
  : fundingOperation :=
  {| fo_UserID := mr_UserID input; fo_Currency := mr_Currency input;
     fo_AmountMinor := mr_AmountMinor input; fo_OperatorUserID := mr_OperatorUserID input;
     fo_LedgerID := ledgerID; fo_CreatedAt := now |}.

Definition ManualRecharge (input : ManualRechargeInput) (idempotencyKey : string) (now clock : time)
  : ptx Billing.LedgerEntry :=
  p_when (String.eqb idempotencyKey "" || IsZero now) ErrInvalidInput;;
  found ← optional (loadFundingOperation idempotencyKey);
  p_when (match found with
          | Some existing => negb (sameFundingOperation existing input) | None => false end)
         ErrConflict;;
  entry ← inner (BillingService.Service_Credit (manual_input input idempotencyKey) clock);
  let recorded := match found with Some existing => fo_LedgerID existing | None => uuid_nil end in
  if negb (uuid_eqb recorded uuid_nil) then
    p_when (negb (uuid_eqb recorded (Billing.le_ID entry))) ErrConflict;;
    mret entry
  else
  inserted ← mapped (insert_funding idempotencyKey (funding_row input (Billing.le_ID entry) now));
  if inserted : bool then mret entry else
  existing ← mapped (loadFundingOperation idempotencyKey);
  p_when (negb (sameFundingOperation existing input)
          || negb (uuid_eqb (fo_LedgerID existing) (Billing.le_ID entry))) ErrConflict;;
  mret entry.

(** ** Vouchers *)
Definition voucherAAD (voucherID : uuid) : string :=
  "bablo:payment:voucher:" +:+ uuid_string voucherID.

Definition voucher_audit (actor : uuid) (action : string) (voucherID : uuid) (requestID : string)
  : Store.AuditEvent :=
  {| Store.ae_ActorUserID := Some actor; Store.ae_Action := action;
     Store.ae_TargetType := "payment_voucher"; Store.ae_TargetID := uuid_string voucherID;
     Store.ae_RequestID := requestID; Store.ae_Result := "success" |}.

Definition p_secret {A} (r : result Secret.error A) : ptx A :=
  stx_lift (map_err (fun _ => {| f_error := ESecret; f_aborted := false |}) r).

Definition replayCreatedVoucher (keyring : Keyring) (voucher : Voucher) (input : CreateVoucherInput)
  : ptx CreatedVoucher :=
  p_when (negb (vc_AmountMinor voucher =? cv_AmountMinor input)
          || negb (String.eqb (vc_Currency voucher) (cv_Currency input))
          || negb (uuid_eqb (vc_CreatedBy voucher) (cv_OperatorUserID input))
          || negb (sameOptionalTime (vc_ExpiresAt voucher) (cv_ExpiresAt input))) ErrConflict;;
  p_when (negb (String.eqb (vc_Status voucher) VoucherActive)
          || String.eqb (vc_CodeCiphertext voucher) "" || String.eqb (vc_CodeNonce voucher) ""
          || String.eqb (vc_CodeKeyVersion voucher) "") ErrVoucherUnavailable;;
  code ← p_secret (Open keyring
    {| Secret.Ciphertext := vc_CodeCiphertext voucher; Secret.Nonce := vc_CodeNonce voucher;
       Secret.KeyVersion := vc_CodeKeyVersion voucher |} (voucherAAD (vc_ID voucher)));
  p_when (negb (validVoucherCode code) || negb (String.eqb (sha256_hex code) (vc_CodeHash voucher))
          || negb (String.prefix (vc_CodePrefix voucher) code)) ErrConflict;;
  mret {| cr_Voucher := voucher; cr_Code := code |}.

(** The row [CreateVoucher] inserts. *)
Definition new_voucher (voucherID : uuid) (input : CreateVoucherInput) (codeHash prefix : string)
    (sealed : Secret.Sealed) (now : time) : Voucher :=
  {| vc_ID := voucherID; vc_CodePrefix := prefix; vc_AmountMinor := cv_AmountMinor input;
     vc_Currency := cv_Currency input; vc_Status := VoucherActive;
     vc_ExpiresAt := pg_time <$> cv_ExpiresAt input; vc_CreatedBy := cv_OperatorUserID input;
     vc_RedeemedBy := None; vc_RedeemedAt := None; vc_CreatedAt := now; vc_UpdatedAt := now;
     vc_CodeCiphertext := Secret.Ciphertext sealed; vc_CodeNonce := Secret.Nonce sealed;
     vc_CodeHash := codeHash; vc_CodeKeyVersion := Secret.KeyVersion sealed;
     vc_IdempotencyKey := cv_IdempotencyKey input |}.

Definition CreateVoucher (keyring : option Keyring) (nonce : option string)
    (input : CreateVoucherInput) (code codeHash prefix : string) (now : time) : ptx CreatedVoucher :=
  match keyring with
  | None => refuse ErrProviderUnavailable
  | Some keyring =>
      p_when (negb (validVoucherCode code) || negb (String.eqb (sha256_hex code) codeHash)
              || negb (String.prefix prefix code) || (slen prefix <? 8)) ErrProviderUnavailable;;
      found ← optional (loadVoucherByIdempotency (cv_IdempotencyKey input));
      match found with
      | Some existing => replayCreatedVoucher keyring existing input
      | None =>
          voucherID ← new_id;
          sealed ← p_secret (Seal keyring nonce code (voucherAAD voucherID));
          inserted ← optional (insert_voucher (new_voucher voucherID input codeHash prefix sealed now));
          match inserted with
          | None =>
              existing ← mapped (loadVoucherByIdempotency (cv_IdempotencyKey input));
              replayCreatedVoucher keyring existing input
          | Some value =>
              audit (voucher_audit (cv_OperatorUserID input) "payment.voucher.created" (vc_ID value)
                       (cv_RequestID input));;
              insertPaymentOutbox "payment_voucher" (vc_ID value) "payment.voucher.created"
                ("payment:voucher-create:v2:" +:+ uuid_string (vc_ID value))
                [("voucher_id", JUuid (vc_ID value)); ("code_prefix", JStr (vc_CodePrefix value));
                 ("amount_minor", JInt (vc_AmountMinor value));
                 ("currency", JStr (vc_Currency value))];;
              mret {| cr_Voucher := value; cr_Code := code |}
          end
      end
  end.

Definition voucher_key (voucherID : uuid) : string :=
  "payment:voucher:v1:" +:+ uuid_string voucherID.

Definition voucher_input (voucher : Voucher) (userID : uuid) : Billing.CreditInput :=
  {| Billing.cr_UserID := userID; Billing.cr_Currency := vc_Currency voucher;
     Billing.cr_EntryType := Billing.EntryGrant; Billing.cr_AmountMinor := vc_AmountMinor voucher;
     Billing.cr_ReferenceType := "payment_voucher";
     Billing.cr_ReferenceID := uuid_string (vc_ID voucher);
     Billing.cr_IdempotencyKey := voucher_key (vc_ID voucher); Billing.cr_RequestID := "";
     Billing.cr_OperatorUserID := None; Billing.cr_Source := "payment" |}.

Definition loadVoucherLedger (voucherID userID : uuid) (currency : string)
  : ptx Billing.LedgerEntry :=
  wallet ← mapped (o ← pread (fun p =>
    map_find (Store.wallet_owned userID currency) (Store.wallets (books_db p))); prow o);
  mapped (o ← pread (fun p =>
    List.find (Store.wallet_key (Billing.w_ID wallet) (voucher_key voucherID))
              (Store.ledger (books_db p))); prow o).

(** [Ok (Err e)]: the error that is returned after the commit. *)
Definition RedeemVoucher (input : RedeemVoucherInput) (codeHash : string) (now clock : time)
  : ptx (result error VoucherRedemption) :=
  found ← optional (loadVoucherByHash codeHash);
  match found with
  | None => mret (Err ErrVoucherInvalid)
  | Some voucher =>
      if String.eqb (vc_Status voucher) VoucherRedeemed
         && opt_uuid_eqb (vc_RedeemedBy voucher) (Some (rv_UserID input)) then
        ledger ← loadVoucherLedger (vc_ID voucher) (rv_UserID input) (vc_Currency voucher);
        mret (Ok {| vr_Voucher := voucher; vr_Ledger := ledger |})
      else
      if negb (String.eqb (vc_Status voucher) VoucherActive) then mret (Err ErrVoucherUnavailable) else
      if (match vc_ExpiresAt voucher with Some t => negb (After t now) | None => false end) then
        mapped (exec_update (update_voucher (vc_ID voucher) VoucherExpired None now));;
        mret (Err ErrVoucherUnavailable)
      else
      ledger ← inner (BillingService.Service_Credit (voucher_input voucher (rv_UserID input)) clock);
      value ← mapped (update_voucher (vc_ID voucher) VoucherRedeemed (Some (rv_UserID input, now)) now);
      audit (voucher_audit (rv_UserID input) "payment.voucher.redeemed" (vc_ID voucher)
               (rv_RequestID input));;
      insertPaymentOutbox "payment_voucher" (vc_ID voucher) "payment.voucher.redeemed"
        ("payment:voucher-redeem:v1:" +:+ uuid_string (vc_ID voucher))
        [("voucher_id", JUuid (vc_ID voucher)); ("user_id", JUuid (rv_UserID input));
         ("wallet_id", JUuid (Billing.le_WalletID ledger)); ("ledger_id", JUuid (Billing.le_ID ledger));
         ("amount_minor", JInt (vc_AmountMinor voucher)); ("currency", JStr (vc_Currency voucher))];;
      mret (Ok {| vr_Voucher := value; vr_Ledger := ledger |})
  end.

Definition RevokeVoucher (operatorUserID voucherID : uuid) (requestID : string) (now : time)
  : ptx Voucher :=
  voucher ← mapped (loadVoucherByID voucherID);
  if String.eqb (vc_Status voucher) VoucherRevoked then mret voucher else
  p_when (negb (String.eqb (vc_Status voucher) VoucherActive)) ErrVoucherUnavailable;;
  value ← mapped (update_voucher (vc_ID voucher) VoucherRevoked None now);
  audit (voucher_audit operatorUserID "payment.voucher.revoked" (vc_ID voucher) requestID);;
  insertPaymentOutbox "payment_voucher" (vc_ID voucher) "payment.voucher.revoked"
    ("payment:voucher-revoke:v1:" +:+ uuid_string (vc_ID voucher))
    [("voucher_id", JUuid (vc_ID voucher))];;
  mret value.

End funding.
End PaymentFunding.
