(* ===== verification/PaymentService.v ===== *)
(** * The service surface of [internal/payment]

    [service.go]: what each method checks before and after its calls of the repository
    and of the provider, and the passes of the maintenance worker ([worker.go]).

    The methods run over a [World]: the committed rows, the supply of identifiers and a
    counter of the outside events.  Event [n] is one of: a reading of the clock
    ([clock n]); an answer of a provider; the beginning of a transaction or of a query,
    before which other processes may have committed ([others n]).  A method returns its
    Go results as a pair, the error last. *)

From stdpp Require Import base gmap strings list sorting.
From Stdlib Require Import ZArith Lia Ascii String.
From S2P Require Import Prelude GoLib Usage Pricing BillingModel Money Store BillingOps.
From S2P Require Import BillingService Coordinator Secret PaymentModel PaymentStore PaymentRepo.
From S2P Require Import PaymentEvents PaymentFunding.

Module PaymentService.
Import Payment PaymentStore PaymentRepo PaymentEvents PaymentFunding.
Import Store(SqlGuards, WallClock).
Import Coordinator(Sha256Hex, sha256_hex).
Import Secret(Aead, Keyring).

Definition maximumPageLimit : Z := 100.

(** ** Providers

    The interface [Provider] of [provider.go]; its implementations talk to the payment
    provider, so an answer may depend on the number of the event. *)
Record ProviderCreateInput := {
  pci_OrderNo : string; pci_AmountMinor : Z; pci_Currency : string; pci_ExpiresAt : time
}.
Record ProviderRefundInput := {
  pri_OrderNo : string; pri_ProviderTradeNo : string; pri_AmountMinor : Z; pri_Currency : string
}.
Record ProviderCloseInput := { pcl_OrderNo : string; pcl_ProviderTradeNo : string }.
Record ProviderPaymentStateInput := {
  pps_OrderNo : string; pps_ProviderTradeNo : string; pps_AmountMinor : Z; pps_Currency : string;
  pps_ExpiresAt : option time; pps_ObservedAt : time
}.
Record ProviderRefundStateInput := {
  prs_OrderNo : string; prs_ProviderTradeNo : string; prs_ProviderRefundNo : string;
  prs_AmountMinor : Z; prs_Currency : string; prs_ObservedAt : time
}.
Record SignedWebhook := {
  sw_Headers : list (string * list string); sw_Body : string; sw_ReceivedAt : time
}.

Record Provider := {
  Identity : ProviderIdentity;
  Provider_CreateOrder : nat -> ProviderCreateInput -> result error Checkout;
  Provider_Refund : nat -> ProviderRefundInput -> result error string;
  Provider_Close : nat -> ProviderCloseInput -> result error unit;
  ReconcilePayment : nat -> ProviderPaymentStateInput -> result error ProviderState;
  ReconcileRefund : nat -> ProviderRefundStateInput -> result error ProviderState;
  VerifyWebhook : nat -> SignedWebhook -> result error VerifiedEvent
}.

(** [NewRegistry]: the providers by name. *)
Definition Registry : Type := gmap string Provider.

Fixpoint NewRegistry (providers : list (string * Provider)) (registry : Registry)
  : result error Registry :=
  match providers with
  | [] => Ok registry
  | (declared, provider) :: rest =>
      let name := normalizeProviderName declared in
      if String.eqb name "" || negb (String.eqb name declared) then Err ErrInvalidInput else
      match registry !! name with
      | Some _ => Err ErrConflict
      | None => NewRegistry rest (<[name := provider]> registry)
      end
  end.

Definition Registry_Provider (registry : Registry) (name : string) : option Provider :=
  registry !! normalizeProviderName name.

(** ** The world of a call *)
Record World := mkWorld { w_db : PDB; w_ids : list uuid; w_event : nat }.
Abbreviation svc := (st World).

Record CreateOrderResult := { cor_Order : option Order; cor_Checkout : option Checkout }.

Section service.
Context `{UuidText, SqlGuards, WallClock, PaymentGuards, Sha256Hex, TimeText, Aead}.
Context (providers : Registry) (clock : nat -> time) (others : nat -> PDB -> PDB)
        (orderTTL : Z) (keyring : option Keyring).

Definition next_event : svc nat := fun w =>
  (mkWorld (w_db w) (w_ids w) (S (w_event w)), w_event w).
Definition now : svc time := n ← next_event; mret (clock n).
(** One call of a provider. *)
Definition ask {A} (f : nat -> A) : svc A := n ← next_event; mret (f n).

(** [WithTx], after what other processes committed. *)
Definition transact {A} (m : ptx A) : svc (result error A) := fun w =>
  match commit m (w_ids w, others (w_event w) (w_db w)) with
  | ((ids, p), r) => (mkWorld p ids (S (w_event w)), map_err f_error r)
  end.
Definition query {A} (f : PDB -> A) : svc A := fun w =>
  let p := others (w_event w) (w_db w) in (mkWorld p (w_ids w) (S (w_event w)), f p).

(** ** Creating an order *)
Definition identity_of_claim (claim : ProviderOperationClaim) : ProviderIdentity :=
  {| pi_MerchantID := op_MerchantID (cl_Operation claim);
     pi_LiveMode := op_ProviderLiveMode (cl_Operation claim) |}.

Definition definitive_error (e : error) : bool :=
  match e with ErrProviderRejected | ErrInvalidInput => true | _ => false end.

Definition with_order (order : Order) (e : option error) : CreateOrderResult * option error :=
  ({| cor_Order := Some order; cor_Checkout := None |}, e).
Definition with_checkout (order : Order) : CreateOrderResult * option error :=
  ({| cor_Order := Some order; cor_Checkout := Some (checkoutFromOrder order) |}, None).

(** What a provider's answer to a claimed creation is recorded as. *)
Definition record_create (order : Order) (owner : uuid) (answer : result error Checkout)
  : svc (CreateOrderResult * option error) :=
  match answer with
  | Err providerErr =>
      let definitive := definitive_error providerErr in
      t ← now;
      failed ← transact (FinishCreateOperation (o_ID order) owner "provider_create_failed"
                           definitive t);
      mret (match failed with
            | Err finishErr => with_order order (Some finishErr)
            | Ok failed => with_order failed (Some (if definitive then ErrProviderRejected
                                                    else providerError providerErr))
            end)
  | Ok checkout =>
      match validateCheckout checkout with
      | Ok checkout =>
          if match ck_ExpiresAt checkout with Some t => Before t (o_CreatedAt order) | None => false end
          then
            t ← now;
            finished ← transact (FinishCreateOperation (o_ID order) owner "provider_response_invalid"
                                   false t);
            mret (with_order order (Some (match finished with
                                          | Err e => e | Ok _ => ErrProviderUnavailable end)))
          else
            t ← now;
            pending ← transact (CompleteCreateOperation (o_ID order) owner checkout t);
            mret (match pending with
                  | Err e => with_order order (Some e)
                  | Ok pending => with_checkout pending
                  end)
      | Err _ =>
          t ← now;
          finished ← transact (FinishCreateOperation (o_ID order) owner "provider_response_invalid"
                                 false t);
          mret (with_order order (Some (match finished with
                                        | Err e => e | Ok _ => ErrProviderUnavailable end)))
      end
  end.

Definition executeCreateClaim (provider : Provider) (claim : ProviderOperationClaim)
  : svc (CreateOrderResult * option error) :=
  let order := cl_Order claim in
  let operation := cl_Operation claim in
  if negb (sameProviderIdentity (Identity provider) (identity_of_claim claim))
  then mret (with_order order (Some ErrProviderUnavailable)) else
  if negb (cl_Claimed claim) then
    mret (if String.eqb (op_Status operation) OperationSucceeded then
            if String.eqb (o_Status order) StatusPending then with_checkout order
            else with_order order None
          else if String.eqb (op_Status operation) OperationDefinitiveFailed
               then with_order order (Some ErrProviderRejected)
          else with_order order (Some ErrOperationPending))
  else
  match op_OwnerToken operation, o_ExpiresAt order with
  | Some owner, Some expiresAt =>
      answer ← ask (fun n => Provider_CreateOrder provider n
        {| pci_OrderNo := o_OrderNo order; pci_AmountMinor := o_AmountMinor order;
           pci_Currency := o_Currency order; pci_ExpiresAt := expiresAt |});
      record_create order owner answer
  | _, _ => mret (with_order order (Some ErrOperationPending))
  end.

Definition failed_create (e : error) : CreateOrderResult * option error :=
  ({| cor_Order := None; cor_Checkout := None |}, Some e).

Definition Service_CreateOrder (input : CreateOrderInput) : svc (CreateOrderResult * option error) :=
  match normalizeCreateOrderInput input with
  | Err e => mret (failed_create e)
  | Ok normalized =>
  match Registry_Provider providers (co_PaymentProvider normalized) with
  | None => mret (failed_create ErrProviderUnavailable)
  | Some provider =>
  match normalizeProviderIdentity (Identity provider) with
  | Err e => mret (failed_create e)
  | Ok ident =>
      let keyed := {| co_UserID := co_UserID normalized; co_AmountMinor := co_AmountMinor normalized;
        co_Currency := co_Currency normalized; co_PaymentProvider := co_PaymentProvider normalized;
        co_IdempotencyKey := orderIdempotencyKey (co_UserID normalized)
                               (co_IdempotencyKey normalized) |} in
      t ← now;
      created ← transact (CreateOrder keyed ident (t + orderTTL) t);
      match created with
      | Err e => mret (failed_create e)
      | Ok order =>
          if String.eqb (o_Status order) StatusPending then mret (with_checkout order) else
          if negb (String.eqb (o_Status order) StatusCreated) then mret (with_order order None) else
          match o_ExpiresAt order with
          | None => mret (with_order order (Some ErrProviderRejected))
          | Some _ =>
              claim ← transact (ClaimProviderOperation (o_ID order) OperationCreate ident
                                  (providerOperationPayload OperationCreate order ident) t);
              match claim with
              | Err e => mret (with_order order (Some e))
              | Ok claim => executeCreateClaim provider claim
              end
          end
      end
  end end end.

(** ** Reading orders *)
Definition Service_GetOrder (userID : uuid) (orderNo : string) : svc (result error Order) :=
  if uuid_eqb userID uuid_nil then mret (Err ErrInvalidInput) else
  let orderNo := normalizeOrderNo orderNo in
  if String.eqb orderNo "" then mret (Err ErrInvalidInput) else
  query (GetOrderForUser userID orderNo).

Definition Service_ListOrders (userID : uuid) (cursor : option PageCursor) (limit : Z)
  : svc (result error OrderPage) :=
  if uuid_eqb userID uuid_nil || (limit <? 1) || (maximumPageLimit <? limit)
  then mret (Err ErrInvalidInput) else
  if match cursor with
     | Some c => uuid_eqb (pc_ID c) uuid_nil || IsZero (pc_CreatedAt c) | None => false end
  then mret (Err ErrInvalidInput) else
  page ← query (ListOrders userID cursor (Z.to_nat limit));
  mret (Ok page).

(** ** Funding *)
Definition Service_ManualRecharge (input : ManualRechargeInput)
  : svc (result error Billing.LedgerEntry) :=
  if uuid_eqb (mr_OperatorUserID input) uuid_nil || uuid_eqb (mr_UserID input) uuid_nil
     || (mr_AmountMinor input <=? 0) then mret (Err ErrInvalidInput) else
  let currency := normalizeCurrency (mr_Currency input) in
  let requestID := Usage.normalizeText (mr_RequestID input) 128 in
  let key := Usage.normalizeText (mr_IdempotencyKey input) 128 in
  if String.eqb currency "" || String.eqb requestID "" || (slen key <? 8)
  then mret (Err ErrInvalidInput) else
  let normalized := {| mr_OperatorUserID := mr_OperatorUserID input; mr_UserID := mr_UserID input;
    mr_AmountMinor := mr_AmountMinor input; mr_Currency := currency; mr_RequestID := requestID;
    mr_IdempotencyKey := key |} in
  t ← now; c ← now;
  transact (ManualRecharge normalized
    (financialIdempotencyKey "admin-recharge" (mr_OperatorUserID input) (mr_UserID input) key) t c).

(** [secret] is what the random source gave, [nonce] the nonce of the keyring. *)
Definition Service_CreateVoucher (secret : option (list Z)) (nonce : option string)
    (input : CreateVoucherInput) : svc (result error CreatedVoucher) :=
  if uuid_eqb (cv_OperatorUserID input) uuid_nil || (cv_AmountMinor input <=? 0)
  then mret (Err ErrInvalidInput) else
  let currency := normalizeCurrency (cv_Currency input) in
  let requestID := Usage.normalizeText (cv_RequestID input) 128 in
  let key := Usage.normalizeText (cv_IdempotencyKey input) 128 in
  if String.eqb currency "" || String.eqb requestID "" || (slen key <? 8)
  then mret (Err ErrInvalidInput) else
  t ← now;
  if match cv_ExpiresAt input with Some e => negb (After e t) | None => false end
  then mret (Err ErrInvalidInput) else
  match secret with
  | None => mret (Err ESecret)
  | Some secret =>
      let code := voucherPrefix +:+ RawURLEncode secret in
      let prefix := if 16 <? slen code then String.substring 0 16 code else code in
      let normalized := {| cv_OperatorUserID := cv_OperatorUserID input;
        cv_AmountMinor := cv_AmountMinor input;
        cv_IdempotencyKey := financialIdempotencyKey "voucher-create" (cv_OperatorUserID input)
                               (cv_OperatorUserID input) key;
        cv_Currency := currency; cv_ExpiresAt := cv_ExpiresAt input; cv_RequestID := requestID |} in
      transact (CreateVoucher keyring nonce normalized code (sha256_hex code) prefix t)
  end.

Definition Service_RedeemVoucher (input : RedeemVoucherInput) : svc (result error VoucherRedemption) :=
  if uuid_eqb (rv_UserID input) uuid_nil then mret (Err ErrInvalidInput) else
  let code := TrimSpace (rv_Code input) in
  let requestID := Usage.normalizeText (rv_RequestID input) 128 in
  if negb (validVoucherCode code) || String.eqb requestID "" then mret (Err ErrVoucherInvalid) else
  t ← now; c ← now;
  redeemed ← transact (RedeemVoucher {| rv_UserID := rv_UserID input; rv_Code := "";
                                        rv_RequestID := requestID |} (sha256_hex code) t c);
  mret (match redeemed with Ok r => r | Err e => Err e end).

Definition Service_RevokeVoucher (operatorUserID voucherID : uuid) (requestID : string)
  : svc (result error Voucher) :=
  let requestID := Usage.normalizeText requestID 128 in
  if uuid_eqb operatorUserID uuid_nil || uuid_eqb voucherID uuid_nil || String.eqb requestID ""
  then mret (Err ErrInvalidInput) else
  t ← now;
  transact (RevokeVoucher operatorUserID voucherID requestID t).

(** ** Refunds *)
Definition executeRefundClaim (provider : Provider) (claim : ProviderOperationClaim)
  : svc (option Order * option error) :=
  let prepared := cl_Order claim in
  let operation := cl_Operation claim in
  if negb (sameProviderIdentity (Identity provider) (identity_of_claim claim))
  then mret (Some prepared, Some ErrProviderUnavailable) else
  if negb (cl_Claimed claim) then
    mret (Some prepared,
          if String.eqb (op_Status operation) OperationSucceeded then None
          else if String.eqb (op_Status operation) OperationDefinitiveFailed
               then Some ErrProviderRejected else Some ErrRefundPending)
  else
  match op_OwnerToken operation with
  | None => mret (Some prepared, Some ErrRefundPending)
  | Some owner =>
      answer ← ask (fun n => Provider_Refund provider n
        {| pri_OrderNo := o_OrderNo prepared; pri_ProviderTradeNo := o_ProviderTradeNo prepared;
           pri_AmountMinor := o_AmountMinor prepared; pri_Currency := o_Currency prepared |});
      match answer with
      | Err providerErr =>
          let definitive := definitive_error providerErr in
          t ← now; c ← now;
          finished ← transact (FinishRefundOperation (o_ID prepared) owner "provider_refund_failed"
                                 definitive t c);
          mret (match finished with
                | Err finishErr => (Some prepared, Some finishErr)
                | Ok finished => (Some finished, Some (if definitive then ErrProviderRejected
                                                       else ErrRefundPending))
                end)
      | Ok refundNo =>
          let refundNo := normalizeTradeNo refundNo in
          if String.eqb refundNo "" then
            t ← now; c ← now;
            finished ← transact (FinishRefundOperation (o_ID prepared) owner
                                   "provider_response_invalid" false t c);
            mret (Some prepared, Some (match finished with
                                       | Err e => e | Ok _ => ErrRefundPending end))
          else
            t ← now;
            updated ← transact (CompleteRefundOperation (o_ID prepared) owner refundNo t);
            mret (match updated with
                  | Err e => (Some prepared, Some e)
                  | Ok updated => (Some updated, None)
                  end)
      end
  end.

Definition Refund (input : RefundInput) : svc (option Order * option error) :=
  let orderNo := normalizeOrderNo (rf_OrderNo input) in
  let requestID := Usage.normalizeText (rf_RequestID input) 128 in
  if uuid_eqb (rf_OperatorUserID input) uuid_nil || String.eqb orderNo "" || String.eqb requestID ""
  then mret (None, Some ErrInvalidInput) else
  found ← query (GetOrder orderNo);
  match found with
  | Err e => mret (None, Some e)
  | Ok order =>
  if 0 <? o_ExternalRefundedAmountMinor order then mret (None, Some ErrInvalidTransition) else
  match Registry_Provider providers (o_PaymentProvider order) with
  | None => mret (None, Some ErrProviderUnavailable)
  | Some provider =>
  match normalizeProviderIdentity (Identity provider) with
  | Err e => mret (None, Some e)
  | Ok ident =>
      t ← now; c ← now;
      prepared ← transact (PrepareRefund {| rf_OperatorUserID := rf_OperatorUserID input;
        rf_OrderNo := orderNo; rf_RequestID := requestID |} ident t c);
      match prepared with
      | Err e => mret (None, Some e)
      | Ok prepared =>
          if String.eqb (o_Status prepared) StatusRefunded
             || negb (String.eqb (o_ProviderRefundNo prepared) "")
          then mret (Some prepared, None) else
          t ← now;
          claim ← transact (ClaimRefundOperation (o_ID prepared) ident
                              (providerOperationPayload OperationRefund prepared ident) t);
          match claim with
          | Err e => mret (Some prepared, Some e)
          | Ok claim => executeRefundClaim provider claim
          end
      end
  end end end.

(** ** Closing *)
Definition Close (input : CloseInput) : svc (option Order * option error) :=
  let orderNo := normalizeOrderNo (ci_OrderNo input) in
  let requestID := Usage.normalizeText (ci_RequestID input) 128 in
  if uuid_eqb (ci_OperatorUserID input) uuid_nil || String.eqb orderNo "" || String.eqb requestID ""
  then mret (None, Some ErrInvalidInput) else
  found ← query (GetOrder orderNo);
  match found with
  | Err e => mret (None, Some e)
  | Ok order =>
  if String.eqb (o_Status order) StatusClosed then mret (Some order, None) else
  if negb (Billing.one_of (o_Status order) [StatusCreated; StatusPending; StatusFailed; StatusExpired])
  then mret (None, Some ErrInvalidTransition) else
  match Registry_Provider providers (o_PaymentProvider order) with
  | None => mret (None, Some ErrProviderUnavailable)
  | Some provider =>
      closed ← ask (fun n => Provider_Close provider n
        {| pcl_OrderNo := o_OrderNo order; pcl_ProviderTradeNo := o_ProviderTradeNo order |});
      match closed with
      | Err e => mret (None, Some (providerError e))
      | Ok _ =>
          t ← now;
          marked ← transact (MarkClosed {| ci_OperatorUserID := ci_OperatorUserID input;
                                           ci_OrderNo := orderNo; ci_RequestID := requestID |} t);
          mret (match marked with Ok o => (Some o, None) | Err e => (None, Some e) end)
      end
  end end.

End service.
End PaymentService.
