(* ===== verification/PaymentWorker.v ===== *)
(** * The maintenance of payments

    The rest of [service.go]: webhooks, the passes over due operations, orders to
    reconcile and orders to expire, and one turn of [RunExpirationWorker]
    ([worker.go]).  A pass returns its count and the errors [errors.Join] collects, in
    order; the texts around a wrapped error are not kept. *)

From stdpp Require Import base gmap strings list sorting.
From Stdlib Require Import ZArith Lia Ascii String.
From S2P Require Import Prelude GoLib Usage Pricing BillingModel Money Store BillingOps.
From S2P Require Import BillingService Coordinator Secret PaymentModel PaymentStore PaymentRepo.
From S2P Require Import PaymentEvents PaymentFunding PaymentService.

Module PaymentWorker.
Import Payment PaymentStore PaymentRepo PaymentEvents PaymentFunding PaymentService.
Import Store(SqlGuards, WallClock).
Import Coordinator(Sha256Hex, sha256_hex).

Definition paymentMaintenanceBatchSize : Z := 100.

Definition last_error (r : result error Order) : option error :=
  match r with Ok _ => None | Err e => Some e end.

(** What one item of a pass adds: its success or its errors. *)
Definition tally (acc : Z * list error) (item : Z * list error) : Z * list error :=
  (acc.1 + item.1, (acc.2 ++ item.2)%list).

Fixpoint each {A} (f : A -> svc (Z * list error)) (items : list A) (acc : Z * list error)
  : svc (Z * list error) :=
  match items with
  | [] => mret acc
  | item :: rest => r ← f item; each f rest (tally acc r)
  end.

Section worker.
Context `{UuidText, SqlGuards, WallClock, PaymentGuards, Sha256Hex, TimeText}.
Context (providers : Registry) (clock : nat -> time) (others : nat -> PDB -> PDB).

Definition maintenanceFailure (order : Order) (t : time) (cause : error) : svc (list error) :=
  touched ← transact others (TouchMaintenance (o_ID order) t);
  mret (match touched with Ok _ => [cause] | Err e => [cause; e] end).

Definition fails (order : Order) (t : time) (cause : error) : svc (Z * list error) :=
  failures ← maintenanceFailure order t cause; mret (0, failures).

(** ** [ExpireDue] *)
Definition expire_one (order : Order) : svc (Z * list error) :=
  observedAt ← now clock;
  match Registry_Provider providers (o_PaymentProvider order) with
  | None => fails order observedAt ErrProviderUnavailable
  | Some provider =>
      closed ← ask (fun n => Provider_Close provider n
        {| pcl_OrderNo := o_OrderNo order; pcl_ProviderTradeNo := o_ProviderTradeNo order |});
      match closed with
      | Err e => fails order observedAt e
      | Ok _ =>
          t ← now clock;
          changed ← transact others (MarkExpired (o_ID order) t);
          match changed with
          | Err e => fails order observedAt e
          | Ok changed => mret (if changed : bool then 1 else 0, [])
          end
      end
  end.

Definition ExpireDue (limit : Z) : svc (Z * list error) :=
  if negb (limit_ok limit) then mret (0, [ErrInvalidInput]) else
  t ← now clock;
  due ← query others (ListDueOrders limit t);
  match due with
  | Err e => mret (0, [e])
  | Ok due => each expire_one due (0, [])
  end.

(** ** [RecoverProviderOperations] *)
Definition finish_as (operationType : string) (orderID owner : uuid) (errorClass : string)
  : svc (result error Order) :=
  t ← now clock;
  if String.eqb operationType OperationCreate
  then transact others (FinishCreateOperation orderID owner errorClass false t)
  else c ← now clock; transact others (FinishRefundOperation orderID owner errorClass false t c).

Definition recover_one (t : time) (due : DueProviderOperation) : svc (Z * list error) :=
  let ident := {| pi_MerchantID := du_MerchantID due; pi_LiveMode := du_ProviderLiveMode due |} in
  claimed ← transact others (ClaimProviderOperation (du_OrderID due) (du_OperationType due) ident
                               (du_PayloadSHA256 due) t);
  match claimed with
  | Err e => mret (0, [e])
  | Ok claim =>
  if negb (cl_Claimed claim) then mret (0, []) else
  match Registry_Provider providers (o_PaymentProvider (cl_Order claim)) with
  | None =>
      match op_OwnerToken (cl_Operation claim) with
      | None => mret (0, [ErrProviderUnavailable])
      | Some owner =>
          finished ← finish_as (du_OperationType due) (o_ID (cl_Order claim)) owner
                       "provider_unconfigured";
          mret (0, [default ErrProviderUnavailable (last_error finished)])
      end
  | Some provider =>
      if negb (sameProviderIdentity (Identity provider) ident) then
        match op_OwnerToken (cl_Operation claim) with
        | None => mret (0, [ErrProviderUnavailable])
        | Some owner =>
            finished ← finish_as (du_OperationType due) (o_ID (cl_Order claim)) owner
                         "provider_identity_unavailable";
            mret (0, [default ErrProviderUnavailable (last_error finished)])
        end
      else
      e ← (if String.eqb (du_OperationType due) OperationCreate
           then r ← executeCreateClaim clock others provider claim; mret r.2
           else if String.eqb (du_OperationType due) OperationRefund
           then r ← executeRefundClaim clock others provider claim; mret r.2
           else mret (Some ErrInvalidInput));
      mret (match e with Some e => (0, [e]) | None => (1, []) end)
  end end.

Definition RecoverProviderOperations (limit : Z) : svc (Z * list error) :=
  if negb (limit_ok limit) then mret (0, [ErrInvalidInput]) else
  t ← now clock;
  due ← query others (ListDueProviderOperations limit t);
  match due with
  | Err e => mret (0, [e])
  | Ok due => each (recover_one t) due (0, [])
  end.

(** ** [ReconcileOrders] *)
Definition normalize_state (state : ProviderState) : ProviderState :=
  {| ps_MerchantID := normalizeTradeNo (ps_MerchantID state); ps_LiveMode := ps_LiveMode state;
     ps_ProviderTradeNo := normalizeTradeNo (ps_ProviderTradeNo state);
     ps_ProviderRefundNo := normalizeTradeNo (ps_ProviderRefundNo state);
     ps_EventType := ps_EventType state; ps_AmountMinor := ps_AmountMinor state;
     ps_Currency := normalizeCurrency (ps_Currency state); ps_OccurredAt := ps_OccurredAt state |}.

Definition state_mismatch (order : Order) (state : ProviderState) : bool :=
  String.eqb (o_MerchantID order) "" || negb (String.eqb (ps_MerchantID state) (o_MerchantID order))
  || negb (opt_bool_is (o_ProviderLiveMode order) (ps_LiveMode state))
  || negb (String.eqb (ps_ProviderTradeNo state) (o_ProviderTradeNo order))
  || (String.eqb (o_Status order) StatusRefundPending
      && negb (String.eqb (ps_ProviderRefundNo state) (o_ProviderRefundNo order)))
  || negb (ps_AmountMinor state =? o_AmountMinor order)
  || negb (String.eqb (ps_Currency state) (o_Currency order))
  || negb (validEventType (ps_EventType state)) || IsZero (ps_OccurredAt state).

(** The provider's view of an order. *)
Definition observe (provider : Provider) (order : Order) (observedAt : time)
  : svc (result error ProviderState) :=
  if String.eqb (o_Status order) StatusRefundPending then
    ask (fun n => ReconcileRefund provider n
      {| prs_OrderNo := o_OrderNo order; prs_ProviderTradeNo := o_ProviderTradeNo order;
         prs_ProviderRefundNo := o_ProviderRefundNo order; prs_AmountMinor := o_AmountMinor order;
         prs_Currency := o_Currency order; prs_ObservedAt := observedAt |})
  else
    ask (fun n => ReconcilePayment provider n
      {| pps_OrderNo := o_OrderNo order; pps_ProviderTradeNo := o_ProviderTradeNo order;
         pps_AmountMinor := o_AmountMinor order; pps_Currency := o_Currency order;
         pps_ExpiresAt := o_ExpiresAt order; pps_ObservedAt := observedAt |}).

Definition reconcile_one (order : Order) : svc (Z * list error) :=
  observedAt ← now clock;
  match Registry_Provider providers (o_PaymentProvider order) with
  | None => fails order observedAt ErrProviderUnavailable
  | Some provider =>
      answer ← observe provider order observedAt;
      match answer with
      | Err e => fails order observedAt (providerError e)
      | Ok state =>
          let state := normalize_state state in
          if String.eqb (ps_EventType state) EventPending then
            touched ← transact others (TouchMaintenance (o_ID order) observedAt);
            mret (0, match touched with Ok _ => [] | Err e => [e] end)
          else
          if state_mismatch order state then fails order observedAt ErrWebhookMismatch else
          c ← now clock;
          processed ← transact others
            (ProcessProviderState (o_PaymentProvider order) order state observedAt c);
          match processed with
          | Err e => fails order observedAt e
          | Ok (_, Some e) => fails order observedAt e
          | Ok (r, None) => mret (if wr_Rejected r then 0 else 1, [])
          end
      end
  end.

Definition ReconcileOrders (limit : Z) : svc (Z * list error) :=
  if negb (limit_ok limit) then mret (0, [ErrInvalidInput]) else
  orders ← query others (ListReconciliationOrders limit);
  match orders with
  | Err e => mret (0, [e])
  | Ok orders => each reconcile_one orders (0, [])
  end.

(** ** One turn of [RunExpirationWorker], and its ticks until the context ends *)
Definition run : svc unit :=
  RecoverProviderOperations paymentMaintenanceBatchSize;;
  ReconcileOrders paymentMaintenanceBatchSize;;
  ExpireDue paymentMaintenanceBatchSize;;
  mret tt.

Fixpoint RunExpirationWorker (ticks : nat) : svc unit :=
  match ticks with
  | O => run
  | S ticks => RunExpirationWorker ticks;; run
  end.

(** ** [HandleWebhook] *)
Definition normalize_verified (v : VerifiedEvent) : VerifiedEvent :=
  {| ve_ProviderEventID := normalizeEventID (ve_ProviderEventID v);
     ve_MerchantID := normalizeTradeNo (ve_MerchantID v); ve_LiveMode := ve_LiveMode v;
     ve_OrderNo := normalizeOrderNo (ve_OrderNo v);
     ve_ProviderTradeNo := normalizeTradeNo (ve_ProviderTradeNo v);
     ve_ProviderRefundNo := normalizeTradeNo (ve_ProviderRefundNo v);
     ve_ProviderPaymentIntentNo := normalizeTradeNo (ve_ProviderPaymentIntentNo v);
     ve_ProviderChargeNo := normalizeTradeNo (ve_ProviderChargeNo v);
     ve_ProviderDisputeNo := normalizeTradeNo (ve_ProviderDisputeNo v);
     ve_EventType := ve_EventType v; ve_AmountMinor := ve_AmountMinor v;
     ve_Currency := normalizeCurrency (ve_Currency v); ve_OccurredAt := ve_OccurredAt v |}.

Definition verified_complete (v : VerifiedEvent) : bool :=
  let hasOrderReference := negb (String.eqb (ve_OrderNo v) "")
    || negb (String.eqb (ve_ProviderPaymentIntentNo v) "")
    || negb (String.eqb (ve_ProviderChargeNo v) "") in
  let disputeReferenceInvalid := isDisputeEvent (ve_EventType v)
    && (String.eqb (ve_ProviderDisputeNo v) "" || String.eqb (ve_ProviderChargeNo v) "") in
  negb (String.eqb (ve_ProviderEventID v) "" || negb hasOrderReference
        || String.eqb (ve_ProviderTradeNo v) "" || negb (validEventType (ve_EventType v))
        || (isRefundTerminalEvent (ve_EventType v) && String.eqb (ve_ProviderRefundNo v) "")
        || disputeReferenceInvalid || (ve_AmountMinor v <=? 0) || String.eqb (ve_Currency v) ""
        || String.eqb (ve_MerchantID v) "" || IsZero (ve_OccurredAt v)).

Definition HandleWebhook (providerName : string) (headers : list (string * list string))
    (body requestID : string) (receivedAt : time) : svc (option WebhookResult * option error) :=
  let providerName := normalizeProviderName providerName in
  let requestID := Usage.normalizeText requestID 128 in
  if String.eqb providerName "" || String.eqb body "" || String.eqb requestID ""
  then mret (None, Some ErrInvalidInput) else
  match Registry_Provider providers providerName with
  | None => mret (None, Some ErrProviderUnavailable)
  | Some provider =>
      receivedAt ← (if IsZero receivedAt then now clock else mret receivedAt);
      answer ← ask (fun n => VerifyWebhook provider n
        {| sw_Headers := headers; sw_Body := body; sw_ReceivedAt := receivedAt |});
      match answer with
      | Err e => mret (None, Some e)
      | Ok verified =>
          let verified := normalize_verified verified in
          if negb (verified_complete verified) then mret (None, Some ErrWebhookInvalid) else
          c ← now clock;
          processed ← transact others
            (ProcessVerifiedEvent providerName verified (sha256_hex body) requestID receivedAt c);
          mret (match processed with
                | Err e => (None, Some e)
                | Ok (r, e) => (Some r, e)
                end)
      end
  end.

End worker.
End PaymentWorker.
