(* ===== verification/BillingRows.v ===== *)
(** * What the operations of billing post, seen from the payments

    [posts d d' es]: the rows moved from [d] to [d'] under the invariant and the ledger
    grew by [es].  A row of one of the four [quiet] types is never a recharge, a grant
    or a part of a payment refund; every operation but the credits and the payment
    refunds posts only such rows.  [other_step] is the part of [step] that packages
    other than payment run. *)

From stdpp Require Import base gmap strings list relations.
From Stdlib Require Import ZArith Lia Ascii String.
From S2P Require Import Prelude GoLib Usage Pricing BillingModel Money Store StoreFacts.
From S2P Require Import BillingOps BillingService BillingInv BillingFacts BillingSteps BillingHistory.

Module BillingRows.
Import Usage Billing Store StoreFacts BillingOps BillingService BillingInv BillingFacts
  BillingSteps BillingHistory.

Definition quiet (e : LedgerEntry) : Prop :=
  one_of (le_EntryType e) [EntryReservation; EntryRelease; EntryUsageCharge; EntryPaymentLiability]
  = true.

Record posts (d d' : DB) (es : list LedgerEntry) : Prop := {
  po_inv : Inv d';
  po_evolves : evolves d d';
  po_ledger : ledger d' = (ledger d ++ es)%list
}.

Lemma posts_refl d : Inv d -> posts d d [].
Proof. intros HI. constructor; [done|done|by rewrite app_nil_r]. Qed.

Lemma posts_trans d1 d2 d3 es1 es2 :
  posts d1 d2 es1 -> posts d2 d3 es2 -> posts d1 d3 (es1 ++ es2).
Proof.
  intros [_ E1 L1] [I2 E2 L2]. constructor; [done|by etrans|]. by rewrite L2, L1, app_assoc.
Qed.

Lemma posts_same d d' :
  Inv d ->
  effect d (wallets d) (reservations d) (settlements d) (liabilities d) (ledger d) d' ->
  posts d d' [].
Proof.
  intros HI He. constructor; [by eapply Inv_same|eapply evolves_effect0; [exact He|evo..]|].
  destruct He as (_ & _ & _ & _ & -> & _). by rewrite app_nil_r.
Qed.

Lemma posts_none d d' : posts d d' [] -> ledger d' = ledger d.
Proof. intros [_ _ ->]. apply app_nil_r. Qed.

Lemma quiet_liability es :
  (forall e, e ∈ es -> le_EntryType e = EntryPaymentLiability) -> Forall quiet es.
Proof. intros Hes. apply Forall_forall. intros e He. unfold quiet. by rewrite (Hes e He). Qed.

Section rows.
Context `{UuidText, SqlGuards, WallClock}.

(** ** The steps of other packages *)
Inductive other_step : DB -> DB -> Prop :=
| other_reserve d ids output input checked now :
    other_step d (committed ids (Service_Reserve output input checked now) d)
| other_settle d ids input now :
    (forall a, ev_AmountMinor (si_Event input) = Some a -> in_i64 a) ->
    other_step d (committed ids (Service_Settle input now) d)
| other_release d ids input now :
    other_step d (committed ids (Service_Release input now) d)
| other_claim d ids limit now locked :
    other_step d (committed ids (ClaimPendingSettlements limit now locked) d)
| other_defer d ids settlementID now class :
    other_step d (committed ids (DeferPendingSettlement settlementID now class) d)
| other_usage d u :
    usage_events d !! ev_ID u = None -> (forall a, ev_AmountMinor u = Some a -> in_i64 a) ->
    other_step d (record_usage u d)
| other_prices d pv : other_step d (set_prices pv d).

Lemma other_step_step d d' : other_step d d' -> step d d'.
Proof. by intros []; constructor. Qed.

(** The ledger rows of a step that did not fail. *)
Definition quiet_growth (d d' : DB) : Prop :=
  exists es, ledger d' = (ledger d ++ es)%list /\ Forall quiet es.

Lemma quiet_growth_refl d : quiet_growth d d.
Proof. exists []. by rewrite app_nil_r. Qed.

Lemma quiet_growth_trans d1 d2 d3 :
  quiet_growth d1 d2 -> quiet_growth d2 d3 -> quiet_growth d1 d3.
Proof.
  intros (es1 & L1 & Q1) (es2 & L2 & Q2). exists (es1 ++ es2)%list.
  split; [by rewrite L2, L1, app_assoc|]. by apply Forall_app.
Qed.

Lemma quiet_keeps d d' : ledger d' = ledger d -> quiet_growth d d'.
Proof. intros E. exists []. by rewrite app_nil_r. Qed.

Lemma quiet_same d W R S L d' : effect d W R S L (ledger d) d' -> quiet_growth d d'.
Proof. intros (_ & _ & _ & _ & E & _). exists []. by rewrite app_nil_r. Qed.

Lemma quiet_effect d W R S L es d' :
  effect d W R S L (ledger d ++ es) d' -> Forall quiet es -> quiet_growth d d'.
Proof. intros (_ & _ & _ & _ & E & _) Hq. by exists es. Qed.

Lemma quiet_Reserve output input checked now ids d s' r :
  Inv d -> Service_Reserve output input checked now (ids, d) = Ok (s', r) -> quiet_growth d s'.2.
Proof.
  intros HI Hm. unfold Service_Reserve in Hm.
  apply tx_bind_ok in Hm as (s1 & n & Hn & Hm). apply tx_lift_ok in Hn as [Hn ->].
  apply tx_bind_ok in Hm as (s1 & q & Hq & Hm). apply tx_lift_ok in Hq as [Hq ->].
  destruct (Z.eqb_spec (q_AmountMinor q) 0); [op_inv; apply quiet_growth_refl|].
  apply Reserve_ok in Hm as [(-> & _)|Hm]; [apply quiet_growth_refl| |exact (bk_keyed _ _ (inv_books _ HI))].
  destruct Hm as (d1 & w & ra & e & _ & _ & _ & _ & _ & _ & _ & _ & _ & _ & _ & _ & _ & _ & Hre & _ & He).
  eapply quiet_effect; [exact He|]. rewrite Hre. by repeat constructor.
Qed.

Lemma quiet_Settle input now ids d s' st b :
  (forall a, ev_AmountMinor (si_Event input) = Some a -> in_i64 a) ->
  Inv d -> Service_Settle input now (ids, d) = Ok (s', (st, b)) -> quiet_growth d s'.2.
Proof.
  intros Hty HI Hm. apply Service_Settle_inv in Hm as (actual & Ha & Hpos & _ & Hm).
  specialize (Hty _ Ha). assert (nat_i64 actual) by (i64_unfold; lia).
  apply Settle_ok in Hm as [(-> & _)|[Hm|Hm]]; try done; [apply quiet_growth_refl| |].
  - destruct Hm as (r & w & _ & _ & _ & _ & _ & _ & _ & _ & He). by eapply quiet_same.
  - destruct Hm as (r & w & es & _ & _ & _ & _ & _ & _ & _ & _ & _ & Hes & He).
    eapply quiet_effect; [exact He|]. destruct Hes as (c & rl & -> & Hc & Hrl). apply Forall_app. split.
    + destruct (0 <? actual); [destruct Hc as [i ->]|subst c]; by repeat constructor.
    + case_match; [destruct Hrl as [i ->]|subst rl]; by repeat constructor.
Qed.

Lemma quiet_Release input now ids d s' u :
  Inv d -> Service_Release input now (ids, d) = Ok (s', u) -> quiet_growth d s'.2.
Proof.
  intros HI Hm. unfold Service_Release in Hm. case_match; [op_inv; apply quiet_growth_refl|].
  apply Release_ok in Hm as [(-> & _)|Hm]; [apply quiet_growth_refl| |done].
  destruct Hm as (r & w & aa & e & _ & _ & _ & _ & _ & _ & _ & Hre & He).
  eapply quiet_effect; [exact He|]. rewrite Hre. by repeat constructor.
Qed.

Ltac other_run H :=
  match goal with
  | |- quiet_growth ?d (committed ?ids ?m ?d) =>
      let s' := fresh "s'" in let a := fresh "a" in let HC := fresh "HC" in
      destruct (committed_inv ids m d) as [->|(s' & a & H & HC)];
        [apply quiet_growth_refl|rewrite HC; clear HC]
  end.

Lemma other_step_quiet d d' : other_step d d' -> Inv d -> quiet_growth d d'.
Proof.
  intros Hst HI. destruct Hst; try (other_run Hm).
  - by eapply quiet_Reserve.
  - destruct a. by eapply quiet_Settle.
  - by eapply quiet_Release.
  - unfold ClaimPendingSettlements in Hm. op_inv. by apply quiet_keeps.
  - unfold DeferPendingSettlement in Hm. op_inv.
    destruct (settlements d !! settlementID) as [st|]; [|op_inv; by apply quiet_keeps].
    destruct (String.eqb (st_Status st) SettlementPending); op_inv; by apply quiet_keeps.
  - by apply quiet_keeps.
  - by apply quiet_keeps.
Qed.

Lemma step_posts d d' : step d d' -> Inv d -> Inv d' /\ evolves d d'.
Proof. intros Hs HI. split; [by eapply Inv_step|by apply step_evolves]. Qed.

Lemma posts_quiet d d' :
  step d d' -> Inv d -> quiet_growth d d' -> exists es, posts d d' es /\ Forall quiet es.
Proof.
  intros Hs HI (es & HL & Hq). destruct (step_posts _ _ Hs HI) as [HI' He].
  exists es. split; [by constructor|done].
Qed.

Lemma other_posts d d' :
  other_step d d' -> Inv d -> exists es, posts d d' es /\ Forall quiet es.
Proof. intros Ho HI. eapply posts_quiet; [by apply other_step_step|done|by apply other_step_quiet]. Qed.

(** ** Liabilities *)
Lemma quiet_recover wallet available src now ids d ids' d' w0 :
  Inv d -> wallets d !! w_ID w0 = Some w0 -> w_ID wallet = w_ID w0 ->
  w_Reserved wallet = w_Reserved w0 -> available = w_Available w0 ->
  recoverWalletLiabilities wallet available src now (ids, d) = Ok ((ids', d'), tt) ->
  quiet_growth d d'.
Proof.
  intros HI Hw Hid Hr Ha Hs. eapply recoverWalletLiabilities_ok in Hs as [[<- _]|Hre]; try done.
  { apply quiet_growth_refl. }
  destruct Hre as (es & _ & _ & Hpl & He). eapply quiet_effect; [exact He|].
  apply quiet_liability. intros e Hin. clear -Hpl Hin.
  induction Hpl as [|lr x plan es (_ & Ht & _) _ IH]; [by apply elem_of_nil in Hin|].
  apply elem_of_cons in Hin as [->|Hin]; [done|by apply IH].
Qed.

(** The fields a liability keeps from its input. *)
Definition liability_of (input : LiabilityInput) (l : Liability) : Prop :=
  l_Principal l = li_AmountMinor input
  /\ l_ReferenceType l = li_ReferenceType input /\ l_ReferenceID l = li_ReferenceID input.

Lemma posts_OpenLiability input now ids d s' l :
  in_i64 (li_AmountMinor input) -> Inv d ->
  Service_OpenLiability input now (ids, d) = Ok (s', l) ->
  (exists es, posts d s'.2 es /\ Forall quiet es) /\ l_Principal l = li_AmountMinor input
  /\ exists l', liabilities s'.2 !! l_ID l = Some l' /\ l_Principal l' = l_Principal l.
Proof.
  intros Hr HI Hm. assert (step d s'.2) as Hs.
  { rewrite <- (committed_ok ids (Service_OpenLiability input now) d s' l Hm). by constructor. }
  unfold Service_OpenLiability in Hm.
  apply tx_bind_ok in Hm as (s1 & n & Hn & Hm). apply tx_lift_ok in Hn as [Hn ->].
  apply normalizeLiabilityInput_amount in Hn as [Hn Hpos].
  apply OpenLiability_ok in Hm as [(Hd & Hsame & k & Hk)|Hm]; [| |done|rewrite Hn; i64_unfold; lia].
  - rewrite Hd in *. split; [|split].
    + exists []. split; [by apply posts_refl|constructor].
    + unfold sameLiabilityInput in Hsame. bools. congruence.
    + exists l. rewrite (lb_keyed _ _ (inv_liab _ HI) _ _ Hk). done.
  - destruct Hm as (d1 & w & es & _ & _ & _ & _ & _ & _ & HP & _ & _ & _ & _ & _ & Hty & l0 & Hl0 & _ & He).
    split; [|split; [congruence|]].
    + eapply posts_quiet; [done|done|]. eapply quiet_effect; [exact He|by apply quiet_liability].
    + destruct He as (_ & _ & _ & -> & _). specialize (Hl0 uuid_nil). unfold with_recovery in Hl0.
      exists l0. rewrite lookup_insert_eq. split; [done|]. injection Hl0. congruence.
Qed.

Lemma posts_ReverseLiability liabilityID now ids d s' v :
  Inv d -> Service_ReverseLiability liabilityID now (ids, d) = Ok (s', v) ->
  exists es, posts d s'.2 es /\ Forall quiet es.
Proof.
  intros HI Hm. assert (step d s'.2) as Hs.
  { rewrite <- (committed_ok _ _ _ _ _ Hm). by constructor. }
  eapply posts_quiet; [done|done|]. unfold Service_ReverseLiability in Hm. op_inv.
  apply ReverseLiability_ok in Hm as [(-> & _)|Hm]; [apply quiet_growth_refl| |done].
  destruct Hm as (l & w & src & d2 & d3 & ids2 & ids3 & Hrev & Hrec & He).
  pose proof (Inv_liability_reversed _ _ _ _ _ _ HI Hrev) as (HI2 & w2 & Hw2 & Hid & Hr2 & Ha2).
  destruct Hrev as (es & _ & _ & _ & _ & _ & _ & _ & Hty & He2).
  eapply quiet_growth_trans; [eapply quiet_effect; [exact He2|by apply quiet_liability]|].
  eapply quiet_growth_trans; [|by eapply quiet_same].
  destruct (0 <? l_Recovered l); [|subst; apply quiet_growth_refl].
  refine (quiet_recover _ _ _ _ _ _ _ _ w2 HI2 Hw2 _ _ _ Hrec); done.
Qed.

(** ** Credits *)

(** The row of a credit, up to its identifier and the balances after it. *)
Definition credit_row (input : CreditInput) (e : LedgerEntry) : Prop :=
  le_EntryType e = cr_EntryType input /\ le_AmountMinor e = cr_AmountMinor input
  /\ le_ReferenceType e = cr_ReferenceType input /\ le_ReferenceID e = cr_ReferenceID input
  /\ le_IdempotencyKey e = cr_IdempotencyKey input.

(** Wallet [wid] is that of the user in the currency. *)
Definition owns (d : DB) (wid userID : uuid) (currency : string) : Prop :=
  exists w, wallets d !! wid = Some w /\ w_UserID w = userID /\ w_Currency w = currency.

Lemma owns_evolves d d' wid u c : evolves d d' -> owns d wid u c -> owns d' wid u c.
Proof.
  intros He (w & Hw & <- & <-). destruct (ev_wallets _ _ He _ _ Hw) as (w' & Hw' & (_ & E1 & E2) & _).
  by exists w'.
Qed.

Lemma owns_unique d w1 w2 u c : Inv d -> owns d w1 u c -> owns d w2 u c -> w1 = w2.
Proof.
  intros HI (x1 & H1' & <- & <-) (x2 & H2' & E1 & E2).
  by apply (bk_owner _ _ (inv_books _ HI) _ _ _ _ H1' H2').
Qed.

Lemma credit_replays_row e input : credit_replays e input = true ->
  le_EntryType e = cr_EntryType input /\ le_AmountMinor e = cr_AmountMinor input
  /\ le_ReferenceType e = cr_ReferenceType input /\ le_ReferenceID e = cr_ReferenceID input.
Proof. unfold credit_replays. intros Hr. by bools. Qed.

Lemma find_key wid key G (e : LedgerEntry) :
  List.find (wallet_key wid key) G = Some e ->
  e ∈ G /\ le_WalletID e = wid /\ le_IdempotencyKey e = key.
Proof.
  intros Hf. apply List.find_some in Hf as [Hin Hk]. unfold wallet_key in Hk. bools.
  split_and!; [by apply list_elem_of_In|done..].
Qed.

Lemma find_key_none wid key G (e : LedgerEntry) :
  List.find (wallet_key wid key) G = None -> e ∈ G ->
  le_WalletID e = wid -> le_IdempotencyKey e = key -> False.
Proof.
  intros Hf Hin <- <-. apply list_elem_of_In in Hin.
  pose proof (List.find_none _ _ Hf _ Hin) as Hk. unfold wallet_key in Hk.
  by rewrite uuid_eqb_refl, String.eqb_refl in Hk.
Qed.

Lemma posts_Credit input now ids d s' e :
  in_i64 (cr_AmountMinor input) -> Inv d ->
  Service_Credit input now (ids, d) = Ok (s', e) ->
  exists n, normalizeCreditInput input = Ok n /\
  ((s'.2 = d /\ e ∈ ledger d /\ credit_replays e n = true
    /\ owns d (le_WalletID e) (cr_UserID n) (cr_Currency n)
    /\ le_IdempotencyKey e = cr_IdempotencyKey n)
   \/ exists es, posts d s'.2 (e :: es) /\ Forall quiet es /\ credit_row n e
       /\ le_AvailableDelta e = le_AmountMinor e /\ le_ReservedDelta e = 0
       /\ owns s'.2 (le_WalletID e) (cr_UserID n) (cr_Currency n)
       /\ forall x, x ∈ ledger d -> le_WalletID x = le_WalletID e ->
                    le_IdempotencyKey x = le_IdempotencyKey e -> False).
Proof.
  intros Hr HI Hm. assert (step d s'.2) as Hs.
  { rewrite <- (committed_ok _ _ _ _ _ Hm). by constructor. }
  destruct (step_posts _ _ Hs HI) as [HI' Hev].
  unfold Service_Credit in Hm.
  apply tx_bind_ok in Hm as (s1 & n & Hn & Hm). apply tx_lift_ok in Hn as [Hn ->].
  exists n. split; [done|]. apply normalizeCreditInput_amount in Hn. rewrite <- Hn in Hr.
  apply CreditInTx_ok in Hm as [(w & Hd & Hrep & Hw & Hu & Hc & Hf)|Hm]; [..|done|done].
  { left. apply find_key in Hf as (Hin & Hwid & Hkey). rewrite Hwid.
    split_and!; [done..| |done]. by exists w. }
  right. destruct Hm as (w & d2 & d3 & ids2 & ids3 & Hp & Hrec & Hd3). rewrite Hd3 in *.
  pose proof (Inv_credit_posted _ _ _ _ _ _ HI Hp) as (HI2 & w2 & Hw2 & Hid & Hr2 & Ha2).
  destruct Hp as (d1 & Hop & Hw & Hu & Hc & _ & _ & _ & Hfind & He & Heff).
  assert (quiet_growth d2 d3) as (es & HL & Hq)
    by (refine (quiet_recover _ _ _ _ _ _ _ _ w2 HI2 Hw2 _ _ _ Hrec); done).
  assert (evolves d2 d3) as Hev2
    by (refine (evolves_recover _ _ _ _ _ _ _ _ w2 HI2 Hw2 _ _ _ Hrec); done).
  assert (le_WalletID e = w_ID w) as Hwid by (by rewrite He).
  destruct Heff as (E1 & _ & _ & _ & E5 & _).
  exists es. split_and!; [|done|by rewrite He..| |].
  - constructor; [done..|]. rewrite HL, E5. by rewrite <- app_assoc.
  - eapply owns_evolves; [exact Hev2|]. rewrite Hwid.
    eexists. split; [by rewrite E1, lookup_insert_eq|]. done.
  - intros x Hx Hxw Hxk. eapply find_key_none; [exact Hfind|exact Hx|congruence|].
    rewrite Hxk. by rewrite He.
Qed.

(** ** Payment refunds *)
Definition order_entry (t : string) (orderID : uuid) (amount : Z) (e : LedgerEntry) : Prop :=
  le_EntryType e = t /\ le_AmountMinor e = amount
  /\ le_ReferenceType e = "payment_order" /\ le_ReferenceID e = uuid_string orderID.

Lemma same_refund_entry e t n amount :
  samePaymentRefundEntry e t n amount = true -> order_entry t (pr_PaymentOrderID n) amount e.
Proof. unfold samePaymentRefundEntry. intros Hs. by bools. Qed.

Lemma posts_refund n now t key amount da dr d w e d' :
  Inv d -> refund_type t = true -> refund_posted n now t key amount da dr d w e d' ->
  posts d d' [e] /\ order_entry t (pr_PaymentOrderID n) amount e
  /\ le_WalletID e = w_ID w /\ (le_AvailableDelta e = da /\ le_ReservedDelta e = dr) /\ owns d' (w_ID w) (pr_UserID n) (pr_Currency n).
Proof.
  intros HI Ht Hp. pose proof (Inv_refund _ _ _ _ _ _ _ _ _ _ _ HI Ht Hp) as HI'.
  pose proof (evolves_refund _ _ _ _ _ _ _ _ _ _ _ Hp) as Hev.
  destruct Hp as (d1 & Hop & Hw & Hu & Hc & _ & _ & _ & He & Heff).
  destruct Heff as (E1 & _ & _ & _ & E5 & _).
  split_and!; [by constructor|by rewrite He..|].
  eexists. split; [by rewrite E1, lookup_insert_eq|]. done.
Qed.

(** What a payment refund operation does with the order: the same entry again, or one
    new entry of type [t]; [held] when it needs the hold of the same wallet. *)
Definition refund_move (input : PaymentRefundInput) (t : string) (amount da dr : Z) (held : bool)
    (d : DB) (e : LedgerEntry) (d' : DB) : Prop :=
  let oid := pr_PaymentOrderID input in
  (d' = d /\ e ∈ ledger d /\ order_entry t oid amount e)
  \/ (posts d d' [e] /\ order_entry t oid amount e
      /\ (le_AvailableDelta e = da /\ le_ReservedDelta e = dr)
      /\ (held = true -> exists h, h ∈ ledger d /\ le_WalletID h = le_WalletID e
             /\ order_entry EntryPaymentRefundHold oid (pr_AmountMinor input) h)).

Lemma replayed_move input n t key amount da dr held d e d' :
  normalizePaymentRefundInput input = Ok n -> refund_replayed n t key amount d e d' ->
  refund_move input t amount da dr held d e d'.
Proof.
  intros (E1 & _ & E3)%normalizePaymentRefundInput_ok (-> & Hsame & k & Hf). left.
  apply find_key in Hf as (Hin & _). rewrite <- E3. split_and!; try done. by apply same_refund_entry.
Qed.

Lemma held_row n walletID d :
  refund_held n walletID d -> exists h, h ∈ ledger d /\ le_WalletID h = walletID
    /\ order_entry EntryPaymentRefundHold (pr_PaymentOrderID n) (pr_AmountMinor n) h.
Proof.
  intros (h & Hf & Hs). apply find_key in Hf as (? & ? & _). exists h. split_and!; try done.
  by apply same_refund_entry.
Qed.

Lemma Hold_move input now ids d s' e :
  Inv d -> in_i64 (pr_AmountMinor input) ->
  HoldPaymentRefundInTx input now (ids, d) = Ok (s', e) ->
  refund_move input EntryPaymentRefundHold (pr_AmountMinor input) (- pr_AmountMinor input)
    (pr_AmountMinor input) false d e s'.2.
Proof.
  intros HI Ha Hm. apply HoldPaymentRefund_ok in Hm as (n & Hn & Hm); [|done..].
  destruct (normalizePaymentRefundInput_ok _ _ Hn) as (E1 & _ & E3). cbn zeta in Hm. rewrite E1 in Hm.
  destruct Hm as [Hm|(w & _ & Hm)]; [by eapply replayed_move|].
  apply posts_refund in Hm as (? & ? & ? & [? ?] & _); [|done..]. right. rewrite <- E3. by split_and!.
Qed.

Lemma Complete_move input now ids d s' e :
  Inv d -> in_i64 (pr_AmountMinor input) ->
  CompletePaymentRefundInTx input now (ids, d) = Ok (s', e) ->
  refund_move input EntryPaymentReversal (- pr_AmountMinor input) 0 (- pr_AmountMinor input) true d e s'.2.
Proof.
  intros HI Ha Hm. apply CompletePaymentRefund_ok in Hm as (n & Hn & Hm); [|done..].
  destruct (normalizePaymentRefundInput_ok _ _ Hn) as (E1 & _ & E3). cbn zeta in Hm.
  destruct Hm as [Hm|(w & Hh & Hm)]; [rewrite E1 in Hm; by eapply replayed_move|].
  apply held_row in Hh as (h & Hin & Hwh & Hoh). rewrite E1, E3 in *.
  apply posts_refund in Hm as (? & ? & Hwe & [? ?] & _); [|done..]. right. rewrite <- E3 at 1.
  split_and!; try done. intros _. exists h. split_and!; [done|congruence|done].
Qed.

Lemma Release_move input now ids d s' e :
  Inv d -> in_i64 (pr_AmountMinor input) ->
  ReleasePaymentRefundInTx input now (ids, d) = Ok (s', e) ->
  refund_move input EntryPaymentRefundRelease (- pr_AmountMinor input) (pr_AmountMinor input)
    (- pr_AmountMinor input) true
    d e s'.2.
Proof.
  intros HI Ha Hm. apply ReleasePaymentRefund_ok in Hm as (n & Hn & Hm); [|done..].
  destruct (normalizePaymentRefundInput_ok _ _ Hn) as (E1 & _ & E3). cbn zeta in Hm.
  destruct Hm as [Hm|(w & Hh & Hm)]; [rewrite E1 in Hm; by eapply replayed_move|].
  apply held_row in Hh as (h & Hin & Hwh & Hoh). rewrite E1, E3 in *.
  apply posts_refund in Hm as (? & ? & Hwe & [? ?] & _); [|done..]. right. rewrite <- E3 at 1.
  split_and!; try done. intros _. exists h. split_and!; [done|congruence|done].
Qed.

(** ** The rows every operation adds beside the ledger *)
Lemma posts_audit event ids d s' u :
  Inv d -> audit_Insert event (ids, d) = Ok (s', u) -> posts d s'.2 [].
Proof. intros HI Hm. op_inv. apply posts_same; [done|]. solve_effect. Qed.

Lemma posts_outbox l d : Inv d -> posts d (set_outbox (fun o => (o ++ l)%list) d) [].
Proof. intros HI. apply posts_same; [done|]. solve_effect. Qed.

End rows.
End BillingRows.
