(* ===== verification/PaymentMoves.v ===== *)
(** * The abstract ledger machine of the payments

    What a committed transaction of [internal/payment] may do to the money: a sequence
    of [move]s.  A move changes one order, voucher or recharge and posts exactly the
    ledger rows that go with it.  [PInv] is what the moves keep; that the Go
    operations are such sequences is in [PaymentSteps]. *)

From stdpp Require Import base gmap strings list.
From Stdlib Require Import ZArith Lia Ascii String.
From S2P Require Import Prelude GoLib Usage Pricing BillingModel Money Store StoreFacts.
From S2P Require Import BillingOps BillingService BillingInv BillingFacts BillingSteps.
From S2P Require Import BillingHistory BillingRows Coordinator PaymentModel PaymentStore.
From S2P Require Import PaymentFunding.

Module PaymentMoves.
Import Payment PaymentStore BillingInv BillingHistory BillingRows.
Import Store(DB, wallets, reservations, settlements, liabilities, ledger, outbox, audit_logs).
Import Billing(LedgerEntry, le_ID, le_WalletID, le_EntryType, le_AmountMinor, le_AvailableDelta,
  le_ReservedDelta, le_ReferenceType, le_ReferenceID, one_of, EntryRecharge, EntryGrant,
  EntryPaymentRefundHold, EntryPaymentReversal, EntryPaymentRefundRelease,
  EntryReservation, EntryRelease, EntryUsageCharge, EntryPaymentLiability).

(** ** Where a ledger row comes from *)
Inductive source :=
| SUsage                        (* holds, charges and liabilities *)
| SOrder (reference : string)
| SVoucher (reference : string)
| SManual
| SOther.
#[export] Instance source_eq_dec : EqDecision source.
Proof. solve_decision. Defined.

Definition source_of (e : LedgerEntry) : source :=
  let t := le_EntryType e in
  if one_of t [EntryReservation; EntryRelease; EntryUsageCharge; EntryPaymentLiability] then SUsage
  else if one_of t [EntryRecharge; EntryPaymentRefundHold; EntryPaymentReversal;
                    EntryPaymentRefundRelease]
          && String.eqb (le_ReferenceType e) "payment_order" then SOrder (le_ReferenceID e)
  else if String.eqb t EntryGrant && String.eqb (le_ReferenceType e) "payment_voucher"
       then SVoucher (le_ReferenceID e)
  else if String.eqb t EntryRecharge && String.eqb (le_ReferenceType e) "admin_recharge" then SManual
  else SOther.

Definition rows_of (s : source) (G : list LedgerEntry) : list LedgerEntry :=
  filter (fun e => source_of e = s) G.

(** The change of the total of a wallet. *)
Definition net (e : LedgerEntry) : Z := le_AvailableDelta e + le_ReservedDelta e.

(** ** The columns of an order *)
Definition unpaid (o : Order) : bool :=
  one_of (o_Status o) [StatusCreated; StatusPending; StatusFailed; StatusExpired; StatusClosed].

(** The transitions of the Go code, a part of those the trigger allows. *)
Definition next_status (s s' : string) : bool :=
  (String.eqb s StatusCreated
   && one_of s' [StatusPending; StatusPaid; StatusFailed; StatusExpired; StatusClosed])
  || (String.eqb s StatusPending && one_of s' [StatusPaid; StatusFailed; StatusExpired; StatusClosed])
  || (one_of s [StatusFailed; StatusExpired] && String.eqb s' StatusClosed)
  || (String.eqb s StatusPaid && one_of s' [StatusRefundPending; StatusRefunded])
  || (String.eqb s StatusRefundPending && one_of s' [StatusPaid; StatusRefunded]).

Definition order_identity (o o' : Order) : Prop :=
  o_ID o' = o_ID o /\ o_OrderNo o' = o_OrderNo o /\ o_UserID o' = o_UserID o
  /\ o_AmountMinor o' = o_AmountMinor o /\ o_Currency o' = o_Currency o
  /\ o_PaymentProvider o' = o_PaymentProvider o /\ o_IdempotencyKey o' = o_IdempotencyKey o
  /\ o_CreatedAt o' = o_CreatedAt o.

Record order_step (o o' : Order) : Prop := {
  os_identity : order_identity o o';
  os_facts : order_facts_kept o o' = true;
  os_merchant : o_MerchantID o = "" \/ o_MerchantID o' = o_MerchantID o;
  os_mode : o_ProviderLiveMode o = None \/ o_ProviderLiveMode o' = o_ProviderLiveMode o;
  os_status : o_Status o' = o_Status o \/ next_status (o_Status o) (o_Status o') = true;
  os_updated : o_UpdatedAt o <= o_UpdatedAt o';
  os_check : order_check o' = true
}.

Definition same_money (o o' : Order) : Prop :=
  o_WalletID o' = o_WalletID o /\ o_RechargeLedgerID o' = o_RechargeLedgerID o
  /\ o_RefundHoldLedgerID o' = o_RefundHoldLedgerID o /\ o_RefundLedgerID o' = o_RefundLedgerID o
  /\ o_ExternalRefundedAmountMinor o' = o_ExternalRefundedAmountMinor o.

(** ** Moves *)
Definition frame (p' : PDB) (O : gmap uuid Order) (V : gmap uuid Voucher)
    (F : gmap string fundingOperation) (X : gmap uuid ExternalRefund) : Prop :=
  orders p' = O /\ vouchers p' = V /\ funding p' = F /\ external_refunds p' = X.

Definition apart (k : uuid) (o : Order) (O : gmap uuid Order) : Prop :=
  forall k2 o2, O !! k2 = Some o2 -> k2 <> k -> orders_clash o o2 = false.

Section moves.
Context `{UuidText}.

(** [o'] replaces the order [o]; the ledger grows by [es]. *)
Record order_move (p p' : PDB) (k : uuid) (o o' : Order) (es : list LedgerEntry) : Prop := {
  om_old : orders p !! k = Some o;
  om_step : order_step o o';
  om_apart : apart k o' (orders p);
  om_posts : posts (books_db p) (books_db p') es
}.

(** An entry of the order on its wallet. *)
Definition posted (o : Order) (t : string) (amount da dr : Z) (wallet : option uuid)
    (e : LedgerEntry) : Prop :=
  order_entry t (o_ID o) amount e /\ (le_AvailableDelta e = da /\ le_ReservedDelta e = dr)
  /\ wallet = Some (le_WalletID e).

Inductive move (p p' : PDB) : Prop :=
| mv_quiet es :
    posts (books_db p) (books_db p') es -> Forall quiet es ->
    frame p' (orders p) (vouchers p) (funding p) (external_refunds p) -> move p p'
| mv_create o :
    orders p !! o_ID o = None -> apart (o_ID o) o (orders p) -> order_check o = true ->
    o_AmountMinor o <= max_int64 -> o_Status o = StatusCreated -> o_WalletID o = None ->
    o_RechargeLedgerID o = None -> o_RefundHoldLedgerID o = None -> o_RefundLedgerID o = None ->
    o_ExternalRefundedAmountMinor o = 0 ->
    posts (books_db p) (books_db p') [] ->
    frame p' (<[o_ID o := o]> (orders p)) (vouchers p) (funding p) (external_refunds p) -> move p p'
| mv_order k o o' :
    order_move p p' k o o' [] -> same_money o o' ->
    (o_Status o' = o_Status o /\ o_FailureClass o' = o_FailureClass o
     \/ unpaid o = true /\ unpaid o' = true) ->
    frame p' (<[k := o']> (orders p)) (vouchers p) (funding p) (external_refunds p) -> move p p'
| mv_pay k o o' e es :
    order_move p p' k o o' (e :: es) -> Forall quiet es ->
    unpaid o = true -> o_Status o' = StatusPaid ->
    posted o EntryRecharge (o_AmountMinor o) (o_AmountMinor o) 0 (o_WalletID o') e ->
    owns (books_db p') (le_WalletID e) (o_UserID o) (o_Currency o) ->
    o_RechargeLedgerID o' = Some (le_ID e) ->
    o_RefundHoldLedgerID o' = o_RefundHoldLedgerID o -> o_RefundLedgerID o' = o_RefundLedgerID o ->
    o_ExternalRefundedAmountMinor o' = o_ExternalRefundedAmountMinor o ->
    frame p' (<[k := o']> (orders p)) (vouchers p) (funding p) (external_refunds p) -> move p p'
| mv_hold k o o' e :
    order_move p p' k o o' [e] ->
    o_Status o = StatusPaid -> o_FailureClass o = "" -> o_Status o' = StatusRefundPending ->
    posted o EntryPaymentRefundHold (o_AmountMinor o) (- o_AmountMinor o) (o_AmountMinor o)
      (o_WalletID o) e ->
    o_WalletID o' = o_WalletID o -> o_RechargeLedgerID o' = o_RechargeLedgerID o ->
    o_RefundHoldLedgerID o' = Some (le_ID e) -> o_RefundLedgerID o' = o_RefundLedgerID o ->
    o_ExternalRefundedAmountMinor o' = o_ExternalRefundedAmountMinor o ->
    frame p' (<[k := o']> (orders p)) (vouchers p) (funding p) (external_refunds p) -> move p p'
| mv_unhold k o o' e :
    order_move p p' k o o' [e] ->
    o_Status o = StatusRefundPending -> o_Status o' = StatusPaid -> o_FailureClass o' <> "" ->
    posted o EntryPaymentRefundRelease (- o_AmountMinor o) (o_AmountMinor o) (- o_AmountMinor o)
      (o_WalletID o) e ->
    same_money o o' ->
    frame p' (<[k := o']> (orders p)) (vouchers p) (funding p) (external_refunds p) -> move p p'
| mv_refund k o o' e :
    order_move p p' k o o' [e] ->
    o_Status o = StatusRefundPending -> o_Status o' = StatusRefunded ->
    posted o EntryPaymentReversal (- o_AmountMinor o) 0 (- o_AmountMinor o) (o_WalletID o) e ->
    o_WalletID o' = o_WalletID o -> o_RechargeLedgerID o' = o_RechargeLedgerID o ->
    o_RefundHoldLedgerID o' = o_RefundHoldLedgerID o -> o_RefundLedgerID o' = Some (le_ID e) ->
    o_ExternalRefundedAmountMinor o' = o_ExternalRefundedAmountMinor o ->
    frame p' (<[k := o']> (orders p)) (vouchers p) (funding p) (external_refunds p) -> move p p'
| mv_external k o o' x es :
    order_move p p' k o o' es -> Forall quiet es ->
    o_Status o = StatusPaid -> o_RefundHoldLedgerID o = None ->
    xr_OrderID x = k -> external_refunds p !! xr_ID x = None -> 0 < xr_AmountMinor x ->
    (exists l, liabilities (books_db p') !! xr_LiabilityID x = Some l
               /\ Billing.l_Principal l = xr_AmountMinor x) ->
    (forall i y, external_refunds p !! i = Some y -> xr_LiabilityID y <> xr_LiabilityID x) ->
    o_WalletID o' = o_WalletID o -> o_RechargeLedgerID o' = o_RechargeLedgerID o ->
    o_RefundHoldLedgerID o' = None -> o_RefundLedgerID o' = o_RefundLedgerID o ->
    o_ExternalRefundedAmountMinor o' = o_ExternalRefundedAmountMinor o + xr_AmountMinor x ->
    o_ExternalRefundedAmountMinor o' <= o_AmountMinor o ->
    o_Status o' = (if o_ExternalRefundedAmountMinor o' =? o_AmountMinor o then StatusRefunded
                   else StatusPaid) ->
    frame p' (<[k := o']> (orders p)) (vouchers p) (funding p)
      (<[xr_ID x := x]> (external_refunds p)) -> move p p'
| mv_issue v :
    vouchers p !! vc_ID v = None -> voucher_check v = true -> vc_AmountMinor v <= max_int64 ->
    vc_Status v = VoucherActive ->
    (forall k w, vouchers p !! k = Some w ->
       vc_CodeHash w <> vc_CodeHash v /\ vc_IdempotencyKey w <> vc_IdempotencyKey v) ->
    posts (books_db p) (books_db p') [] ->
    frame p' (orders p) (<[vc_ID v := v]> (vouchers p)) (funding p) (external_refunds p) -> move p p'
| mv_void k v v' :
    vouchers p !! k = Some v -> vc_Status v = VoucherActive ->
    one_of (vc_Status v') [VoucherRevoked; VoucherExpired] = true ->
    vc_ID v' = vc_ID v -> vc_AmountMinor v' = vc_AmountMinor v -> vc_Currency v' = vc_Currency v ->
    vc_CodeHash v' = vc_CodeHash v -> vc_IdempotencyKey v' = vc_IdempotencyKey v ->
    vc_CodeCiphertext v' = "" ->
    posts (books_db p) (books_db p') [] ->
    frame p' (orders p) (<[k := v']> (vouchers p)) (funding p) (external_refunds p) -> move p p'
| mv_redeem k v v' userID e es :
    vouchers p !! k = Some v -> vc_Status v = VoucherActive -> vc_Status v' = VoucherRedeemed ->
    vc_ID v' = vc_ID v -> vc_AmountMinor v' = vc_AmountMinor v -> vc_Currency v' = vc_Currency v ->
    vc_CodeHash v' = vc_CodeHash v -> vc_IdempotencyKey v' = vc_IdempotencyKey v ->
    vc_CodeCiphertext v' = "" -> vc_RedeemedBy v' = Some userID ->
    posts (books_db p) (books_db p') (e :: es) -> Forall quiet es ->
    le_EntryType e = EntryGrant -> le_AmountMinor e = vc_AmountMinor v ->
    le_ReferenceType e = "payment_voucher" -> le_ReferenceID e = uuid_string (vc_ID v) ->
    le_AvailableDelta e = vc_AmountMinor v -> le_ReservedDelta e = 0 ->
    owns (books_db p') (le_WalletID e) userID (Billing.normalizeCurrency (vc_Currency v)) ->
    frame p' (orders p) (<[k := v']> (vouchers p)) (funding p) (external_refunds p) -> move p p'
| mv_manual key f e es :
    funding p !! key = None -> 0 < fo_AmountMinor f -> fo_LedgerID f = le_ID e ->
    (forall i g, funding p !! i = Some g -> fo_LedgerID g <> fo_LedgerID f) ->
    posts (books_db p) (books_db p') (e :: es) -> Forall quiet es ->
    le_EntryType e = EntryRecharge -> le_AmountMinor e = fo_AmountMinor f ->
    le_ReferenceType e = "admin_recharge" -> le_ReferenceID e = Usage.normalizeText key 160 ->
    Billing.le_IdempotencyKey e = Usage.normalizeText key 160 ->
    le_AvailableDelta e = fo_AmountMinor f -> le_ReservedDelta e = 0 ->
    owns (books_db p') (le_WalletID e) (fo_UserID f) (Billing.normalizeCurrency (fo_Currency f)) ->
    frame p' (orders p) (vouchers p) (<[key := f]> (funding p)) (external_refunds p) -> move p p'.

(** ** The invariant of the moves *)

(** The rows the ledger holds for an order: type, amount and, where the order records
    it, identifier. *)
Definition expected (o : Order) : list (string * Z * option uuid) :=
  let a := o_AmountMinor o in
  match o_RechargeLedgerID o with
  | None => []
  | Some r =>
      (EntryRecharge, a, Some r) ::
      match o_RefundHoldLedgerID o with
      | None => []
      | Some h =>
          (EntryPaymentRefundHold, a, Some h) ::
          (if String.eqb (o_Status o) StatusRefundPending then [] else
           match o_RefundLedgerID o with
           | Some v => [(EntryPaymentReversal, - a, Some v)]
           | None => [(EntryPaymentRefundRelease, - a, None)]
           end)
      end
  end.

Definition row_is (wallet : option uuid) (x : string * Z * option uuid) (e : LedgerEntry) : Prop :=
  le_EntryType e = x.1.1 /\ le_AmountMinor e = x.1.2 /\ wallet = Some (le_WalletID e)
  /\ match x.2 with Some i => le_ID e = i | None => True end.

(** The phases of an order. *)
Inductive phase (o : Order) : Prop :=
| ph_unpaid :
    unpaid o = true -> o_WalletID o = None -> o_RechargeLedgerID o = None ->
    o_RefundHoldLedgerID o = None -> o_RefundLedgerID o = None ->
    o_ExternalRefundedAmountMinor o = 0 -> phase o
| ph_paid w r :
    o_Status o = StatusPaid -> o_WalletID o = Some w -> o_RechargeLedgerID o = Some r ->
    o_RefundHoldLedgerID o = None -> o_RefundLedgerID o = None ->
    0 <= o_ExternalRefundedAmountMinor o < o_AmountMinor o -> phase o
| ph_pending w r h :
    o_Status o = StatusRefundPending -> o_WalletID o = Some w -> o_RechargeLedgerID o = Some r ->
    o_RefundHoldLedgerID o = Some h -> o_RefundLedgerID o = None ->
    0 <= o_ExternalRefundedAmountMinor o < o_AmountMinor o -> phase o
| ph_released w r h :
    o_Status o = StatusPaid -> o_WalletID o = Some w -> o_RechargeLedgerID o = Some r ->
    o_RefundHoldLedgerID o = Some h -> o_RefundLedgerID o = None -> o_FailureClass o <> "" ->
    0 <= o_ExternalRefundedAmountMinor o < o_AmountMinor o -> phase o
| ph_refunded w r h v :
    o_Status o = StatusRefunded -> o_WalletID o = Some w -> o_RechargeLedgerID o = Some r ->
    o_RefundHoldLedgerID o = Some h -> o_RefundLedgerID o = Some v ->
    0 <= o_ExternalRefundedAmountMinor o < o_AmountMinor o -> phase o
| ph_external w r :
    o_Status o = StatusRefunded -> o_WalletID o = Some w -> o_RechargeLedgerID o = Some r ->
    o_RefundHoldLedgerID o = None -> o_RefundLedgerID o = None ->
    o_ExternalRefundedAmountMinor o = o_AmountMinor o -> phase o.

Record order_inv (p : PDB) (k : uuid) (o : Order) : Prop := {
  oi_id : o_ID o = k;
  oi_check : order_check o = true;
  oi_amount : 0 < o_AmountMinor o <= max_int64;
  oi_phase : phase o;
  oi_wallet : forall w, o_WalletID o = Some w -> owns (books_db p) w (o_UserID o) (o_Currency o);
  oi_rows : Forall2 (row_is (o_WalletID o)) (expected o)
              (rows_of (SOrder (uuid_string k)) (ledger (books_db p)));
  oi_external : o_ExternalRefundedAmountMinor o
    = msum (fun x => if uuid_eqb (xr_OrderID x) k then xr_AmountMinor x else 0) (external_refunds p)
}.

Definition voucher_rows (p : PDB) (k : uuid) (v : Voucher) (rows : list LedgerEntry) : Prop :=
  if String.eqb (vc_Status v) VoucherRedeemed
  then exists userID e, vc_RedeemedBy v = Some userID /\ rows = [e]
         /\ le_AmountMinor e = vc_AmountMinor v /\ le_AvailableDelta e = vc_AmountMinor v
         /\ owns (books_db p) (le_WalletID e) userID (Billing.normalizeCurrency (vc_Currency v))
  else rows = [].

Record voucher_inv (p : PDB) (k : uuid) (v : Voucher) : Prop := {
  vi_id : vc_ID v = k;
  vi_amount : 0 < vc_AmountMinor v <= max_int64;
  vi_rows : voucher_rows p k v (rows_of (SVoucher (uuid_string k)) (ledger (books_db p)));
  vi_secret : vc_Status v <> VoucherActive -> vc_CodeCiphertext v = ""
}.

Definition funding_inv (p : PDB) (key : string) (f : fundingOperation) : Prop :=
  0 < fo_AmountMinor f /\ exists e, e ∈ ledger (books_db p) /\ le_ID e = fo_LedgerID f
    /\ source_of e = SManual /\ le_AmountMinor e = fo_AmountMinor f
    /\ le_ReferenceID e = Usage.normalizeText key 160
    /\ Billing.le_IdempotencyKey e = Usage.normalizeText key 160
    /\ owns (books_db p) (le_WalletID e) (fo_UserID f) (Billing.normalizeCurrency (fo_Currency f)).

(** The refund hold an order keeps on a wallet. *)
Definition pending_of (wid : uuid) (o : Order) : Z :=
  if String.eqb (o_Status o) StatusRefundPending && opt_uuid_eqb (o_WalletID o) (Some wid)
  then o_AmountMinor o else 0.

(** What an order brought into the wallets: its payment, less its refund. *)
Definition order_net (o : Order) : Z :=
  (if is_set (o_RechargeLedgerID o) then o_AmountMinor o else 0)
  - (if is_set (o_RefundLedgerID o) then o_AmountMinor o else 0).
Definition voucher_net (v : Voucher) : Z :=
  if String.eqb (vc_Status v) VoucherRedeemed then vc_AmountMinor v else 0.

Definition money_in (p : PDB) : Z :=
  msum order_net (orders p) + msum voucher_net (vouchers p) + msum fo_AmountMinor (funding p).

Definition usage_net (G : list LedgerEntry) : Z :=
  lsum (fun e => if bool_decide (source_of e = SUsage) then net e else 0) G.

(** Every row belongs to usage, or to a known order, voucher or recharge. *)
Definition accounted (p : PDB) (e : LedgerEntry) : Prop :=
  match source_of e with
  | SUsage => True
  | SOrder r => exists k, is_Some (orders p !! k) /\ r = uuid_string k
  | SVoucher r => exists k, is_Some (vouchers p !! k) /\ r = uuid_string k
  | SManual => exists key f, funding p !! key = Some f /\ fo_LedgerID f = le_ID e
  | SOther => False
  end.

Record PInv (p : PDB) : Prop := {
  pv_books : Inv (books_db p);
  pv_order : forall k o, orders p !! k = Some o -> order_inv p k o;
  pv_apart : forall k o, orders p !! k = Some o -> apart k o (orders p);
  pv_voucher : forall k v, vouchers p !! k = Some v -> voucher_inv p k v;
  pv_voucher_apart : forall k1 k2 v1 v2, vouchers p !! k1 = Some v1 -> vouchers p !! k2 = Some v2 ->
    vc_CodeHash v1 = vc_CodeHash v2 \/ vc_IdempotencyKey v1 = vc_IdempotencyKey v2 -> k1 = k2;
  pv_funding : forall key f, funding p !! key = Some f -> funding_inv p key f;
  pv_external : forall i x, external_refunds p !! i = Some x ->
    0 < xr_AmountMinor x /\ is_Some (orders p !! xr_OrderID x)
    /\ exists l, liabilities (books_db p) !! xr_LiabilityID x = Some l
                 /\ Billing.l_Principal l = xr_AmountMinor x;
  pv_external_apart : forall i1 i2 x1 x2, external_refunds p !! i1 = Some x1 ->
    external_refunds p !! i2 = Some x2 -> xr_LiabilityID x1 = xr_LiabilityID x2 -> i1 = i2;
  pv_accounted : forall e, e ∈ ledger (books_db p) -> accounted p e;
  pv_pending : forall wid, refund_by wid (ledger (books_db p)) = msum (pending_of wid) (orders p);
  pv_net : lsum net (ledger (books_db p)) = money_in p + usage_net (ledger (books_db p))
}.

End moves.
End PaymentMoves.
