(* ===== verification/PaymentInv.v ===== *)
(** * The invariant of the payments is kept by every move *)

From stdpp Require Import base gmap strings list relations.
From Stdlib Require Import ZArith Lia Ascii String.
From S2P Require Import Prelude GoLib Usage Pricing BillingModel Money Store StoreFacts.
From S2P Require Import BillingOps BillingService BillingInv BillingFacts BillingSteps.
From S2P Require Import BillingHistory BillingRows Coordinator PaymentModel PaymentStore.
From S2P Require Import PaymentFunding PaymentMoves.

Module PaymentInv.
Import Payment PaymentStore BillingInv BillingHistory BillingRows PaymentMoves.
Import Store(DB, mkDB, wallets, reservations, settlements, liabilities, ledger, outbox, audit_logs).
Import Billing(LedgerEntry, le_ID, le_WalletID, le_EntryType, le_AmountMinor, le_AvailableDelta,
  le_ReservedDelta, le_ReferenceType, le_ReferenceID, one_of, EntryRecharge, EntryGrant,
  EntryPaymentRefundHold, EntryPaymentReversal, EntryPaymentRefundRelease,
  EntryReservation, EntryRelease, EntryUsageCharge, EntryPaymentLiability).

(** ** Sources of rows *)
Lemma quiet_source e : quiet e -> source_of e = SUsage.
Proof. unfold quiet, source_of. by intros ->. Qed.

Lemma order_source t oid amount e :
  one_of t [EntryRecharge; EntryPaymentRefundHold; EntryPaymentReversal; EntryPaymentRefundRelease]
    = true ->
  forall `{UuidText}, order_entry t oid amount e -> source_of e = SOrder (uuid_string oid).
Proof.
  intros Ht ? (E1 & _ & E2 & E3). unfold source_of. rewrite E1, E2, E3, Ht.
  destruct (one_of t [EntryReservation; EntryRelease; EntryUsageCharge; EntryPaymentLiability]) eqn:Hq;
    [|by rewrite String.eqb_refl]. exfalso. clear -Ht Hq. unfold one_of in *. simpl in *.
  rewrite !orb_true_iff, !String.eqb_eq in *. naive_solver.
Qed.

Lemma rows_of_app s G es : rows_of s (G ++ es) = (rows_of s G ++ rows_of s es)%list.
Proof. apply filter_app. Qed.

Lemma rows_of_none s es : Forall (fun e => source_of e <> s) es -> rows_of s es = [].
Proof.
  unfold rows_of. induction 1 as [|e es He _ IH]; [done|]. by rewrite filter_cons_False.
Qed.

Lemma rows_of_quiet s es : Forall quiet es -> s <> SUsage -> rows_of s es = [].
Proof.
  intros Hq Hs. apply rows_of_none. eapply Forall_impl; [exact Hq|].
  intros e ->%quiet_source. congruence.
Qed.

Lemma rows_of_cons s e es : source_of e = s -> rows_of s (e :: es) = e :: rows_of s es.
Proof. intros <-. unfold rows_of. by rewrite filter_cons_True. Qed.

Lemma elem_of_rows_of s G e : e ∈ rows_of s G <-> source_of e = s /\ e ∈ G.
Proof. unfold rows_of. by rewrite list_elem_of_filter. Qed.

(** ** Sums *)
Lemma refund_by_app wid G es : refund_by wid (G ++ es) = refund_by wid G + refund_by wid es.
Proof. apply lsum_app. Qed.

Lemma refund_by_quiet wid es : Forall quiet es -> refund_by wid es = 0.
Proof.
  intros Hq. apply lsum_zero. intros e He. rewrite Forall_forall in Hq. specialize (Hq e He).
  unfold Store.of_wallet. case_match; [|done]. case_match eqn:Hr; [|done]. exfalso. clear -Hq Hr.
  unfold quiet, refund_type, one_of in *. destruct e as [? ? t]. simpl in *.
  rewrite !orb_true_iff, !String.eqb_eq in *. naive_solver.
Qed.

Lemma usage_net_app G es : usage_net (G ++ es) = usage_net G + usage_net es.
Proof. apply lsum_app. Qed.

Lemma usage_net_quiet es : Forall quiet es -> usage_net es = lsum net es.
Proof.
  intros Hq. apply lsum_ext. intros e He. rewrite Forall_forall in Hq.
  by rewrite bool_decide_eq_true_2 by (by apply quiet_source, Hq).
Qed.

Lemma usage_net_cons e es : source_of e <> SUsage -> usage_net (e :: es) = usage_net es.
Proof. intros He. unfold usage_net. rewrite lsum_cons. by rewrite bool_decide_eq_false_2. Qed.

Lemma orders_clash_sym o o' : orders_clash o o' = orders_clash o' o.
Proof.
  assert (forall a b, same_text a b = same_text b a) as Ht.
  { intros a b. unfold same_text. rewrite (String.eqb_sym a b).
    destruct (String.eqb_spec b a) as [->|]; [done|]. by rewrite !andb_false_r. }
  assert (forall a b, same_ref a b = same_ref b a) as Hr.
  { intros [a|] [b|]; unfold same_ref; simpl; try done. apply N.eqb_sym. }
  unfold orders_clash.
  rewrite (String.eqb_sym (o_OrderNo o)), (String.eqb_sym (o_IdempotencyKey o)),
    (String.eqb_sym (o_PaymentProvider o)), (Ht (o_ProviderTradeNo o)), (Ht (o_ProviderRefundNo o)),
    (Ht (o_ProviderPaymentIntentNo o)), (Ht (o_ProviderChargeNo o)), (Hr (o_RechargeLedgerID o)),
    (Hr (o_RefundHoldLedgerID o)), (Hr (o_RefundLedgerID o)). done.
Qed.

Section keep.
Context `{UuidText} (UL : UuidTextLaws _).
Implicit Types (p : PDB).

Lemma liability_kept d d' i a :
  evolves d d' -> (exists l, liabilities d !! i = Some l /\ Billing.l_Principal l = a) ->
  exists l, liabilities d' !! i = Some l /\ Billing.l_Principal l = a.
Proof.
  intros He (l & Hl & <-). destruct (ev_liabilities _ _ He _ _ Hl) as (l' & Hl' & _ & _ & HP & _).
  by exists l'.
Qed.

(** ** What a change elsewhere leaves *)
Lemma order_inv_kept p p' k o es :
  posts (books_db p) (books_db p') es ->
  Forall (fun e => source_of e <> SOrder (uuid_string k)) es ->
  msum (fun x => if uuid_eqb (xr_OrderID x) k then xr_AmountMinor x else 0) (external_refunds p')
  = msum (fun x => if uuid_eqb (xr_OrderID x) k then xr_AmountMinor x else 0) (external_refunds p) ->
  order_inv p k o -> order_inv p' k o.
Proof.
  intros [_ Hev HL] Hes HX [E1 E2 E3 E4 E5 E6 E7]. constructor; try done.
  - intros w Hw. eapply owns_evolves; [exact Hev|by apply E5].
  - by rewrite HL, rows_of_app, (rows_of_none _ es), app_nil_r.
  - by rewrite HX.
Qed.

Lemma voucher_rows_kept p p' k v rows :
  evolves (books_db p) (books_db p') -> voucher_rows p k v rows -> voucher_rows p' k v rows.
Proof.
  intros Hev. unfold voucher_rows. case_match; [|done].
  intros (u & e & ? & ? & ? & ? & ?). exists u, e. split_and!; try done.
  by eapply owns_evolves.
Qed.

Lemma voucher_inv_kept p p' k v es :
  posts (books_db p) (books_db p') es ->
  Forall (fun e => source_of e <> SVoucher (uuid_string k)) es ->
  voucher_inv p k v -> voucher_inv p' k v.
Proof.
  intros [_ Hev HL] Hes [E1 E2 E3 E4]. constructor; try done.
  rewrite HL, rows_of_app, (rows_of_none _ es), app_nil_r by done. by eapply voucher_rows_kept.
Qed.

Lemma funding_inv_kept p p' key f es :
  posts (books_db p) (books_db p') es -> funding_inv p key f -> funding_inv p' key f.
Proof.
  intros [_ Hev HL] (Ha & e & Hin & ? & ? & ? & ? & ? & ?). split; [done|]. exists e.
  split_and!; try done; [|by eapply owns_evolves]. rewrite HL. apply elem_of_app. by left.
Qed.

(** A row is still accounted for when no order, voucher or recharge went away. *)
Lemma accounted_kept p p' e :
  (forall k, is_Some (orders p !! k) -> is_Some (orders p' !! k)) ->
  (forall k, is_Some (vouchers p !! k) -> is_Some (vouchers p' !! k)) ->
  (forall key f, funding p !! key = Some f -> funding p' !! key = Some f) ->
  accounted p e -> accounted p' e.
Proof. unfold accounted. intros HO HV HF. case_match; naive_solver. Qed.

Lemma insert_known {A} (m : gmap uuid A) k v k2 : is_Some (m !! k2) -> is_Some (<[k := v]> m !! k2).
Proof. intros. rewrite lookup_insert_is_Some'. by right. Qed.

Definition external_sum (k : uuid) (X : gmap uuid ExternalRefund) : Z :=
  msum (fun x => if uuid_eqb (xr_OrderID x) k then xr_AmountMinor x else 0) X.

Definition externals_ok (p' : PDB) : Prop :=
  (forall i x, external_refunds p' !! i = Some x ->
    0 < xr_AmountMinor x /\ is_Some (orders p' !! xr_OrderID x)
    /\ exists l, liabilities (books_db p') !! xr_LiabilityID x = Some l
                 /\ Billing.l_Principal l = xr_AmountMinor x)
  /\ (forall i1 i2 x1 x2, external_refunds p' !! i1 = Some x1 ->
    external_refunds p' !! i2 = Some x2 -> xr_LiabilityID x1 = xr_LiabilityID x2 -> i1 = i2).

Lemma externals_kept p p' :
  PInv p -> evolves (books_db p) (books_db p') -> external_refunds p' = external_refunds p ->
  (forall k, is_Some (orders p !! k) -> is_Some (orders p' !! k)) -> externals_ok p'.
Proof.
  intros HP Hev HX HO. split; rewrite HX; [|by apply HP].
  intros i x Hx. destruct (pv_external _ HP _ _ Hx) as (? & ? & ?). split_and!; [done|by apply HO|].
  by eapply liability_kept.
Qed.

(** A change of one order, with the rows it posts. *)
Lemma PInv_order p p' k o o' es :
  PInv p -> order_move p p' k o o' es ->
  orders p' = <[k := o']> (orders p) -> vouchers p' = vouchers p -> funding p' = funding p ->
  Forall (fun e => source_of e = SUsage \/ source_of e = SOrder (uuid_string k)) es ->
  phase o' ->
  (forall w, o_WalletID o' = Some w -> owns (books_db p') w (o_UserID o) (o_Currency o)) ->
  Forall2 (row_is (o_WalletID o')) (expected o')
    (rows_of (SOrder (uuid_string k)) (ledger (books_db p)) ++ rows_of (SOrder (uuid_string k)) es) ->
  o_ExternalRefundedAmountMinor o' = external_sum k (external_refunds p') ->
  (forall k2, k2 <> k -> external_sum k2 (external_refunds p') = external_sum k2 (external_refunds p)) ->
  externals_ok p' ->
  (forall wid, refund_by wid es = pending_of wid o' - pending_of wid o) ->
  lsum net es = order_net o' - order_net o + usage_net es ->
  PInv p'.
Proof.
  intros HP [Hk Hstep Hap Hposts] EO EV EF Hsrc Hph Hown Hrows Hext Hext2 [HX1 HX2] Hpend Hnet.
  pose proof Hposts as [HI' Hev HL].
  destruct Hstep as [(I1 & I2 & I3 & I4 & I5 & I6 & I7 & I8) _ _ _ _ _ Hc].
  destruct (pv_order _ HP _ _ Hk) as [Q1 _ Q3 _ _ _ _].
  assert (forall k2, is_Some (orders p !! k2) -> is_Some (orders p' !! k2)) as HO.
  { intros k2 Hs. rewrite EO. by apply insert_known. }
  constructor; try done.
  - intros k2 o2. rewrite EO. intros [[<- <-]|[Hne Hk2]]%lookup_insert_Some.
    + constructor; [congruence|done|by rewrite I4|done| | |done].
      * intros w Hw. rewrite I3, I5. by apply Hown.
      * by rewrite HL, rows_of_app.
    + eapply order_inv_kept; [exact Hposts| |by apply Hext2|by apply (pv_order _ HP)].
      eapply Forall_impl; [exact Hsrc|]. intros e [->| ->]; [done|].
      intros [= Hs%uuid_string_inj]. congruence.
  - intros k1 o1. rewrite EO. intros [[<- <-]|[Hne Hk1]]%lookup_insert_Some k2 o2.
    + intros [[<- _]|[_ Hk2]]%lookup_insert_Some; [done|]. by apply Hap.
    + intros [[<- <-]|[_ Hk2]]%lookup_insert_Some Hd; [|by eapply (pv_apart _ HP)].
      rewrite orders_clash_sym. by eapply Hap.
  - intros k2 v. rewrite EV. intros Hv.
    eapply voucher_inv_kept; [exact Hposts| |by apply (pv_voucher _ HP)].
    eapply Forall_impl; [exact Hsrc|]. by intros e [->| ->].
  - rewrite EV. apply HP.
  - intros key f. rewrite EF. intros Hf. eapply funding_inv_kept; [done|by apply (pv_funding _ HP)].
  - intros e. rewrite HL, elem_of_app. intros [He|He].
    + eapply accounted_kept; [done|by rewrite EV|by rewrite EF|by apply (pv_accounted _ HP)].
    + rewrite Forall_forall in Hsrc. unfold accounted.
      destruct (Hsrc _ He) as [->| ->]; [done|]. exists k. split; [|done]. by apply HO.
  - intros wid. rewrite HL, EO, refund_by_app, (msum_update _ _ _ _ _ Hk), Hpend.
    rewrite (pv_pending _ HP). lia.
  - unfold money_in. rewrite HL, EO, EV, EF, lsum_app, usage_net_app, (msum_update _ _ _ _ _ Hk), Hnet.
    rewrite (pv_net _ HP). unfold money_in. lia.
Qed.

(** The same with the external refunds untouched. *)
Lemma PInv_order_only p p' k o o' es :
  PInv p -> order_move p p' k o o' es ->
  frame p' (<[k := o']> (orders p)) (vouchers p) (funding p) (external_refunds p) ->
  Forall (fun e => source_of e = SUsage \/ source_of e = SOrder (uuid_string k)) es ->
  phase o' ->
  (forall w, o_WalletID o' = Some w -> owns (books_db p') w (o_UserID o) (o_Currency o)) ->
  Forall2 (row_is (o_WalletID o')) (expected o')
    (rows_of (SOrder (uuid_string k)) (ledger (books_db p)) ++ rows_of (SOrder (uuid_string k)) es) ->
  o_ExternalRefundedAmountMinor o' = o_ExternalRefundedAmountMinor o ->
  (forall wid, refund_by wid es = pending_of wid o' - pending_of wid o) ->
  lsum net es = order_net o' - order_net o + usage_net es ->
  PInv p'.
Proof.
  intros HP Hm (EO & EV & EF & EX) Hs Hph Hown Hrows Hext Hpend Hnet.
  pose proof Hm as [Hk _ _ [_ Hev _]].
  eapply PInv_order; try done.
  - rewrite EX, Hext. by apply (pv_order _ HP).
  - by rewrite EX.
  - eapply externals_kept; try done. intros k2 Hk2. rewrite EO. by apply insert_known.
Qed.

Ltac phase_clash :=
  unfold unpaid in *; repeat match goal with H : o_Status ?o = _ |- _ => rewrite H in * end;
  discriminate.

Lemma phase_of_unpaid o : phase o -> unpaid o = true ->
  o_WalletID o = None /\ o_RechargeLedgerID o = None /\ o_RefundHoldLedgerID o = None
  /\ o_RefundLedgerID o = None /\ o_ExternalRefundedAmountMinor o = 0.
Proof. intros [] Hu; try phase_clash. done. Qed.

Lemma phase_of_pending o : phase o -> o_Status o = StatusRefundPending ->
  exists w r h, o_WalletID o = Some w /\ o_RechargeLedgerID o = Some r
    /\ o_RefundHoldLedgerID o = Some h /\ o_RefundLedgerID o = None
    /\ 0 <= o_ExternalRefundedAmountMinor o < o_AmountMinor o.
Proof. intros [] Hu; try phase_clash. by exists w, r, h. Qed.

Lemma phase_of_paid o : phase o -> o_Status o = StatusPaid -> 
  exists w r, o_WalletID o = Some w /\ o_RechargeLedgerID o = Some r
    /\ o_RefundLedgerID o = None /\ (o_RefundHoldLedgerID o = None \/ o_FailureClass o <> "")
    /\ 0 <= o_ExternalRefundedAmountMinor o < o_AmountMinor o.
Proof. intros [] Hu; try phase_clash; exists w, r; auto 10. Qed.

Lemma phase_same o o' : phase o -> same_money o o' -> o_AmountMinor o' = o_AmountMinor o ->
  o_Status o' = o_Status o -> o_FailureClass o' = o_FailureClass o -> phase o'.
Proof.
  intros Hp (E1 & E2 & E3 & E4 & E5) Ha Es Ef.
  destruct Hp; [eapply ph_unpaid|eapply ph_paid|eapply ph_pending|eapply ph_released|eapply ph_refunded
    |eapply ph_external]; try congruence; unfold unpaid; try (by rewrite Es); lia || (rewrite ?E1, ?E2, ?E3, ?E4; done).
Qed.

(** ** One row of an order *)
Section posted_row.
Context (p p' : PDB) (o : Order) (t : string) (amount da dr : Z) (w : option uuid) (e : LedgerEntry)
  (es : list LedgerEntry).
Hypothesis (Hp : posted o t amount da dr w e) (Hq : Forall quiet es).
Hypothesis (Ht : one_of t [EntryRecharge; EntryPaymentRefundHold; EntryPaymentReversal;
                           EntryPaymentRefundRelease] = true).

Lemma posted_source : source_of e = SOrder (uuid_string (o_ID o)).
Proof. destruct Hp as (He & _). by eapply order_source. Qed.

Lemma posted_sources k : o_ID o = k ->
  Forall (fun e => source_of e = SUsage \/ source_of e = SOrder (uuid_string k)) (e :: es).
Proof.
  intros <-. constructor; [right; apply posted_source|].
  eapply Forall_impl; [exact Hq|]. intros x Hx. left. by apply quiet_source.
Qed.

Lemma posted_rows k : o_ID o = k -> rows_of (SOrder (uuid_string k)) (e :: es) = [e].
Proof. intros <-. rewrite rows_of_cons by apply posted_source. by rewrite rows_of_quiet. Qed.

Lemma posted_refund wid :
  refund_by wid (e :: es) = if refund_type t && opt_uuid_eqb w (Some wid) then dr else 0.
Proof.
  destruct Hp as ((E1 & _) & (_ & E2) & ->). change (e :: es) with ([e] ++ es)%list.
  rewrite refund_by_app, (refund_by_quiet _ es Hq). unfold refund_by, Store.of_wallet. rewrite lsum_cons.
  rewrite E1, E2. change (opt_uuid_eqb _ _) with (uuid_eqb (le_WalletID e) wid).
  destruct (uuid_eqb (le_WalletID e) wid); rewrite ?andb_true_r, ?andb_false_r; [|done].
  case_match; simpl; lia.
Qed.

Lemma posted_net : lsum net (e :: es) = da + dr + usage_net (e :: es).
Proof.
  rewrite usage_net_cons by (by rewrite posted_source). rewrite usage_net_quiet by done.
  destruct Hp as (_ & (E1 & E2) & _). rewrite lsum_cons. unfold net at 1. lia.
Qed.

Lemma posted_row i : match i with Some i => le_ID e = i | None => True end ->
  row_is w (t, amount, i) e.
Proof. destruct Hp as ((E1 & E2 & _) & _ & E3). intros Hi. by split_and!. Qed.

End posted_row.

Lemma pending_not wid o : o_Status o <> StatusRefundPending -> pending_of wid o = 0.
Proof. intros Hs. unfold pending_of. by apply String.eqb_neq in Hs as ->. Qed.

Lemma pending_held wid o : o_Status o = StatusRefundPending ->
  pending_of wid o = if opt_uuid_eqb (o_WalletID o) (Some wid) then o_AmountMinor o else 0.
Proof. intros Hs. unfold pending_of. by rewrite Hs. Qed.

Lemma unpaid_not_pending o : unpaid o = true -> o_Status o <> StatusRefundPending.
Proof. intros Hu Hs. phase_clash. Qed.

Ltac order_facts HP Hm :=
  pose proof (om_old _ _ _ _ _ _ Hm) as Hk;
  pose proof (pv_order _ HP _ _ Hk) as [Hid _ Hamt Hph Hown Hrows Hext];
  destruct (os_identity _ _ (om_step _ _ _ _ _ _ Hm)) as (I1 & I2 & I3 & I4 & I5 & I6 & I7 & I8);
  pose proof (po_evolves _ _ _ (om_posts _ _ _ _ _ _ Hm)) as Hev.

Lemma move_order p p' k o o' :
  PInv p -> order_move p p' k o o' [] -> same_money o o' ->
  (o_Status o' = o_Status o /\ o_FailureClass o' = o_FailureClass o
   \/ unpaid o = true /\ unpaid o' = true) ->
  frame p' (<[k := o']> (orders p)) (vouchers p) (funding p) (external_refunds p) -> PInv p'.
Proof.
  intros HP Hm Hsm Hst Hfr. order_facts HP Hm. destruct Hsm as (E1 & E2 & E3 & E4 & E5).
  assert (o_RechargeLedgerID o = None \/ o_Status o' = o_Status o) as Hst2.
  { destruct Hst as [[? _]|[Hu _]]; [by right|left]. by destruct (phase_of_unpaid _ Hph Hu) as (? & ? & _). }
  eapply PInv_order_only; try done.
  - destruct Hst as [[Es Ef]|[Hu Hu']]; [by eapply phase_same|].
    destruct (phase_of_unpaid _ Hph Hu) as (? & ? & ? & ? & ?). apply ph_unpaid; congruence.
  - intros w. rewrite E1. intros Hw. eapply owns_evolves; [done|by apply Hown].
  - rewrite E1, app_nil_r. replace (expected o') with (expected o); [done|].
    unfold expected. rewrite E2, E3, E4, I4. destruct Hst2 as [-> | ->]; done.
  - intros wid. change (refund_by wid []) with 0. destruct Hst as [[Es _]|[Hu Hu']].
    + unfold pending_of. rewrite Es, E1, I4. lia.
    + rewrite !pending_not by by apply unpaid_not_pending. done.
  - change (lsum net []) with 0. change (usage_net []) with 0. unfold order_net. rewrite E2, E4, I4. lia.
Qed.

Lemma move_pay p p' k o o' e es :
  PInv p -> order_move p p' k o o' (e :: es) -> Forall quiet es ->
  unpaid o = true -> o_Status o' = StatusPaid ->
  posted o EntryRecharge (o_AmountMinor o) (o_AmountMinor o) 0 (o_WalletID o') e ->
  owns (books_db p') (le_WalletID e) (o_UserID o) (o_Currency o) ->
  o_RechargeLedgerID o' = Some (le_ID e) ->
  o_RefundHoldLedgerID o' = o_RefundHoldLedgerID o -> o_RefundLedgerID o' = o_RefundLedgerID o ->
  o_ExternalRefundedAmountMinor o' = o_ExternalRefundedAmountMinor o ->
  frame p' (<[k := o']> (orders p)) (vouchers p) (funding p) (external_refunds p) -> PInv p'.
Proof.
  intros HP Hm Hq Hu Hs' Hpo Ho E2 E3 E4 E5 Hfr. order_facts HP Hm.
  destruct (phase_of_unpaid _ Hph Hu) as (U1 & U2 & U3 & U4 & U5).
  pose proof Hpo as (_ & _ & Hw). unfold expected in Hrows. rewrite U2 in Hrows.
  apply Forall2_nil_inv_l in Hrows. rewrite U3 in E3. rewrite U4 in E4.
  eapply PInv_order_only; try done.
  - by eapply posted_sources.
  - eapply ph_paid; try done. rewrite E5, U5, I4. lia.
  - intros w. rewrite Hw. intros [= <-]. done.
  - erewrite Hrows, posted_rows by done. unfold expected. rewrite E2, E3, I4. simpl.
    constructor; [|done]. by eapply posted_row.
  - intros wid. erewrite posted_refund by done. simpl. rewrite !pending_not; [lia|..].
    + by apply unpaid_not_pending.
    + by rewrite Hs'.
  - erewrite posted_net by done. unfold order_net. rewrite E2, E4, U2, U4, I4. simpl. lia.
Qed.

(** The rows so far and one more. *)
Lemma expected_snoc w rows x G e es k :
  Forall2 (row_is w) rows G -> rows_of (SOrder (uuid_string k)) (e :: es) = [e] -> row_is w x e ->
  Forall2 (row_is w) (rows ++ [x]) (G ++ rows_of (SOrder (uuid_string k)) (e :: es)).
Proof. intros HG -> Hx. apply Forall2_app; [done|]. by constructor. Qed.

Lemma move_hold p p' k o o' e :
  PInv p -> order_move p p' k o o' [e] ->
  o_Status o = StatusPaid -> o_FailureClass o = "" -> o_Status o' = StatusRefundPending ->
  posted o EntryPaymentRefundHold (o_AmountMinor o) (- o_AmountMinor o) (o_AmountMinor o)
    (o_WalletID o) e ->
  o_WalletID o' = o_WalletID o -> o_RechargeLedgerID o' = o_RechargeLedgerID o ->
  o_RefundHoldLedgerID o' = Some (le_ID e) -> o_RefundLedgerID o' = o_RefundLedgerID o ->
  o_ExternalRefundedAmountMinor o' = o_ExternalRefundedAmountMinor o ->
  frame p' (<[k := o']> (orders p)) (vouchers p) (funding p) (external_refunds p) -> PInv p'.
Proof.
  intros HP Hm Hs Hf Hs' Hpo E1 E2 E3 E4 E5 Hfr. order_facts HP Hm.
  destruct (phase_of_paid _ Hph Hs) as (w & r & U1 & U2 & U4 & [U3|Hnf] & U5); [|done].
  rewrite U1 in *. rewrite U2 in E2. rewrite U4 in E4.
  eapply PInv_order_only; try done.
  - by eapply posted_sources.
  - eapply ph_pending; try done. by rewrite E5, I4.
  - intros w0. rewrite E1. intros [= <-]. eapply owns_evolves; [done|by apply Hown].
  - rewrite E1. unfold expected in *. rewrite U2, U3 in Hrows. rewrite E2, E3, I4, Hs'. simpl.
    eapply (expected_snoc _ [_]); [done|by eapply posted_rows|]. by eapply posted_row.
  - intros wid. erewrite posted_refund by done.
    rewrite (pending_held _ o'), (pending_not _ o), E1, I4 by (done || by rewrite Hs).
    change (refund_type _) with true. simpl. case_match; lia.
  - erewrite posted_net by done. unfold order_net. rewrite E2, E4, U2, U4, I4. simpl. lia.
Qed.

Lemma move_unhold p p' k o o' e :
  PInv p -> order_move p p' k o o' [e] ->
  o_Status o = StatusRefundPending -> o_Status o' = StatusPaid -> o_FailureClass o' <> "" ->
  posted o EntryPaymentRefundRelease (- o_AmountMinor o) (o_AmountMinor o) (- o_AmountMinor o)
    (o_WalletID o) e ->
  same_money o o' ->
  frame p' (<[k := o']> (orders p)) (vouchers p) (funding p) (external_refunds p) -> PInv p'.
Proof.
  intros HP Hm Hs Hs' Hf Hpo (E1 & E2 & E3 & E4 & E5) Hfr. order_facts HP Hm.
  destruct (phase_of_pending _ Hph Hs) as (w & r & h & U1 & U2 & U3 & U4 & U5).
  rewrite U1 in *. rewrite U2 in E2. rewrite U3 in E3. rewrite U4 in E4.
  eapply PInv_order_only; try done.
  - by eapply posted_sources.
  - eapply ph_released; try done. by rewrite E5, I4.
  - intros w0. rewrite E1. intros [= <-]. eapply owns_evolves; [done|by apply Hown].
  - rewrite E1. unfold expected in *. rewrite U2, U3, Hs in Hrows. rewrite E2, E3, E4, I4, Hs'. simpl.
    eapply (expected_snoc _ [_; _]); [done|by eapply posted_rows|]. by eapply posted_row.
  - intros wid. erewrite posted_refund by done.
    rewrite (pending_held _ o), (pending_not _ o'), U1 by (done || by rewrite Hs').
    change (refund_type _) with true. simpl. case_match; lia.
  - erewrite posted_net by done. unfold order_net. rewrite E2, E4, U2, U4, I4. simpl. lia.
Qed.

Lemma move_refund p p' k o o' e :
  PInv p -> order_move p p' k o o' [e] ->
  o_Status o = StatusRefundPending -> o_Status o' = StatusRefunded ->
  posted o EntryPaymentReversal (- o_AmountMinor o) 0 (- o_AmountMinor o) (o_WalletID o) e ->
  o_WalletID o' = o_WalletID o -> o_RechargeLedgerID o' = o_RechargeLedgerID o ->
  o_RefundHoldLedgerID o' = o_RefundHoldLedgerID o -> o_RefundLedgerID o' = Some (le_ID e) ->
  o_ExternalRefundedAmountMinor o' = o_ExternalRefundedAmountMinor o ->
  frame p' (<[k := o']> (orders p)) (vouchers p) (funding p) (external_refunds p) -> PInv p'.
Proof.
  intros HP Hm Hs Hs' Hpo E1 E2 E3 E4 E5 Hfr. order_facts HP Hm.
  destruct (phase_of_pending _ Hph Hs) as (w & r & h & U1 & U2 & U3 & U4 & U5).
  rewrite U1 in *. rewrite U2 in E2. rewrite U3 in E3.
  eapply PInv_order_only; try done.
  - by eapply posted_sources.
  - eapply ph_refunded; try done. by rewrite E5, I4.
  - intros w0. rewrite E1. intros [= <-]. eapply owns_evolves; [done|by apply Hown].
  - rewrite E1. unfold expected in *. rewrite U2, U3, Hs in Hrows. rewrite E2, E3, E4, I4, Hs'. simpl.
    eapply (expected_snoc _ [_; _]); [done|by eapply posted_rows|]. by eapply posted_row.
  - intros wid. erewrite posted_refund by done.
    rewrite (pending_held _ o), (pending_not _ o'), U1 by (done || by rewrite Hs').
    change (refund_type _) with true. simpl. case_match; lia.
  - erewrite posted_net by done. unfold order_net. rewrite E2, E4, U2, U4, I4. simpl. lia.
Qed.

Lemma external_sum_insert k (X : gmap uuid ExternalRefund) x :
  X !! xr_ID x = None ->
  external_sum k (<[xr_ID x := x]> X)
  = (if uuid_eqb (xr_OrderID x) k then xr_AmountMinor x else 0) + external_sum k X.
Proof. intros Hx. unfold external_sum. by rewrite msum_insert_fresh. Qed.

Lemma move_external p p' k o o' x es :
  PInv p -> order_move p p' k o o' es -> Forall quiet es ->
  o_Status o = StatusPaid -> o_RefundHoldLedgerID o = None ->
  xr_OrderID x = k -> external_refunds p !! xr_ID x = None -> 0 < xr_AmountMinor x ->
  (exists l, liabilities (books_db p') !! xr_LiabilityID x = Some l
             /\ Billing.l_Principal l = xr_AmountMinor x) ->
  (forall i y, external_refunds p !! i = Some y -> xr_LiabilityID y <> xr_LiabilityID x) ->
  o_WalletID o' = o_WalletID o -> o_RechargeLedgerID o' = o_RechargeLedgerID o ->
  o_RefundHoldLedgerID o' = None -> o_RefundLedgerID o' = o_RefundLedgerID o ->
  o_ExternalRefundedAmountMinor o' = o_ExternalRefundedAmountMinor o + xr_AmountMinor x ->
  o_ExternalRefundedAmountMinor o' <= o_AmountMinor o ->
  o_Status o' = (if o_ExternalRefundedAmountMinor o' =? o_AmountMinor o then StatusRefunded
                 else StatusPaid) ->
  frame p' (<[k := o']> (orders p)) (vouchers p) (funding p)
    (<[xr_ID x := x]> (external_refunds p)) -> PInv p'.
Proof.
  intros HP Hm Hq Hs Hh Hxo Hxf Hxa Hxl Hxu E1 E2 E3 E4 E5 Hle Hs' (EO & EV & EF & EX).
  order_facts HP Hm.
  destruct (phase_of_paid _ Hph Hs) as (w & r & U1 & U2 & U4 & _ & U5).
  rewrite U1 in *. rewrite U2 in E2. rewrite U4 in E4.
  eapply PInv_order; try done.
  - eapply Forall_impl; [exact Hq|]. intros e He. left. by apply quiet_source.
  - destruct (Z.eqb_spec (o_ExternalRefundedAmountMinor o') (o_AmountMinor o)) as [Ee|Hne].
    + eapply ph_external; try done. congruence.
    + eapply ph_paid; try done. rewrite I4. lia.
  - intros w0. rewrite E1. intros [= <-]. eapply owns_evolves; [done|by apply Hown].
  - rewrite (rows_of_quiet _ es), app_nil_r, E1 by done.
    unfold expected in *. rewrite U2, Hh in Hrows. by rewrite E2, E3, I4.
  - rewrite EX, external_sum_insert, Hxo, uuid_eqb_refl, E5, Hext by done. unfold external_sum. lia.
  - intros k2 Hk2. rewrite EX, external_sum_insert, Hxo by done.
    assert (uuid_eqb k k2 = false) as -> by (by apply uuid_eqb_neq). done.
  - split; rewrite EX.
    + intros i y [[<- <-]|[_ Hy]]%lookup_insert_Some.
      * split_and!; [done| |done]. rewrite EO, Hxo. apply lookup_insert_is_Some'. by left.
      * destruct (pv_external _ HP _ _ Hy) as (? & ? & ?). split_and!; [done| |].
        -- rewrite EO. by apply insert_known.
        -- by eapply liability_kept.
    + intros i1 i2 x1 x2 [[<- <-]|[_ Hy1]]%lookup_insert_Some [[<- <-]|[_ Hy2]]%lookup_insert_Some Hl;
        [done| | |by eapply (pv_external_apart _ HP)].
      * by destruct (Hxu _ _ Hy2).
      * by destruct (Hxu _ _ Hy1).
  - intros wid. rewrite refund_by_quiet, !pending_not; try done.
    + rewrite Hs. done.
    + rewrite Hs'. by case_match.
  - rewrite usage_net_quiet by done. unfold order_net. rewrite E2, E4, U2, U4, I4. simpl. lia.
Qed.

Definition vouchers_ok (p' : PDB) : Prop :=
  (forall k v, vouchers p' !! k = Some v -> voucher_inv p' k v)
  /\ (forall k1 k2 v1 v2, vouchers p' !! k1 = Some v1 -> vouchers p' !! k2 = Some v2 ->
      vc_CodeHash v1 = vc_CodeHash v2 \/ vc_IdempotencyKey v1 = vc_IdempotencyKey v2 -> k1 = k2).

(** A change that leaves the orders alone. *)
Lemma PInv_rest p p' es :
  PInv p -> posts (books_db p) (books_db p') es ->
  orders p' = orders p -> external_refunds p' = external_refunds p ->
  Forall (fun e => accounted p' e /\ forall r, source_of e <> SOrder r) es ->
  (forall wid, refund_by wid es = 0) ->
  vouchers_ok p' -> (forall k, is_Some (vouchers p !! k) -> is_Some (vouchers p' !! k)) ->
  (forall key f, funding p' !! key = Some f -> funding_inv p' key f) ->
  (forall key f, funding p !! key = Some f -> funding p' !! key = Some f) ->
  lsum net es = msum voucher_net (vouchers p') + msum fo_AmountMinor (funding p')
    - msum voucher_net (vouchers p) - msum fo_AmountMinor (funding p) + usage_net es ->
  PInv p'.
Proof.
  intros HP Hposts EO EX Hes Hrf [HV1 HV2] HVk HF HFk Hnet. pose proof Hposts as [HI' Hev HL].
  destruct (externals_kept p p' HP Hev EX) as [HX1 HX2]; [intros k; by rewrite EO|].
  constructor; try done.
  - intros k o. rewrite EO. intros Hk. eapply order_inv_kept; [exact Hposts| |by rewrite EX|by apply HP].
    eapply Forall_impl; [exact Hes|]. intros e [_ Hs]. apply Hs.
  - rewrite EO. apply HP.
  - intros e. rewrite HL, elem_of_app. intros [He|He].
    + apply (accounted_kept p p'); [by rewrite EO|done|done|by apply (pv_accounted _ HP)].
    + rewrite Forall_forall in Hes. by apply Hes.
  - intros wid. rewrite HL, refund_by_app, EO, Hrf, (pv_pending _ HP). lia.
  - unfold money_in. rewrite HL, EO, lsum_app, usage_net_app, Hnet, (pv_net _ HP). unfold money_in. lia.
Qed.

Lemma quiet_apart p' es : Forall quiet es ->
  Forall (fun e => accounted p' e /\ forall r, source_of e <> SOrder r) es.
Proof.
  intros Hq. eapply Forall_impl; [exact Hq|]. intros e Hs%quiet_source. unfold accounted.
  by rewrite Hs.
Qed.

Lemma vouchers_kept p p' es :
  PInv p -> posts (books_db p) (books_db p') es -> vouchers p' = vouchers p ->
  Forall (fun e => forall r, source_of e <> SVoucher r) es -> vouchers_ok p'.
Proof.
  intros HP Hposts EV Hes. split; rewrite EV; [|apply HP].
  intros k v Hv. eapply voucher_inv_kept; [exact Hposts| |by apply HP].
  eapply Forall_impl; [exact Hes|]. auto.
Qed.

Lemma funding_kept p p' es :
  PInv p -> posts (books_db p) (books_db p') es -> funding p' = funding p ->
  forall key f, funding p' !! key = Some f -> funding_inv p' key f.
Proof. intros HP Hposts EF key f. rewrite EF. intros Hf. eapply funding_inv_kept; [done|by apply HP]. Qed.

Lemma move_quiet p p' es :
  PInv p -> posts (books_db p) (books_db p') es -> Forall quiet es ->
  frame p' (orders p) (vouchers p) (funding p) (external_refunds p) -> PInv p'.
Proof.
  intros HP Hposts Hq (EO & EV & EF & EX).
  eapply PInv_rest; try done.
  - by apply quiet_apart.
  - intros wid. by apply refund_by_quiet.
  - eapply vouchers_kept; try done. eapply Forall_impl; [exact Hq|].
    by intros e ->%quiet_source.
  - by rewrite EV.
  - by eapply funding_kept.
  - by rewrite EF.
  - rewrite usage_net_quiet, EV, EF by done. lia.
Qed.

(** One voucher [v'] at [k] in place of what was there. *)
Lemma vouchers_insert p p' es k v' :
  PInv p -> posts (books_db p) (books_db p') es -> vouchers p' = <[k := v']> (vouchers p) ->
  Forall (fun e => forall k2, k2 <> k -> source_of e <> SVoucher (uuid_string k2)) es ->
  voucher_inv p' k v' ->
  (forall k2 w, k2 <> k -> vouchers p !! k2 = Some w ->
     vc_CodeHash w <> vc_CodeHash v' /\ vc_IdempotencyKey w <> vc_IdempotencyKey v') ->
  vouchers_ok p'.
Proof.
  intros HP Hposts EV Hes Hv' Hap. split; rewrite EV.
  - intros k2 v [[<- <-]|[Hne Hv]]%lookup_insert_Some; [done|].
    eapply voucher_inv_kept; [exact Hposts| |by apply HP].
    eapply Forall_impl; [exact Hes|]. auto.
  - intros k1 k2 v1 v2 [[<- <-]|[N1 Hy1]]%lookup_insert_Some [[<- <-]|[N2 Hy2]]%lookup_insert_Some Hc;
      [done| | |by eapply (pv_voucher_apart _ HP)].
    + destruct (Hap _ _ (not_eq_sym N2) Hy2). naive_solver.
    + destruct (Hap _ _ (not_eq_sym N1) Hy1). naive_solver.
Qed.

Lemma voucher_same_apart p k v v' :
  PInv p -> vouchers p !! k = Some v ->
  vc_CodeHash v' = vc_CodeHash v -> vc_IdempotencyKey v' = vc_IdempotencyKey v ->
  forall k2 w, k2 <> k -> vouchers p !! k2 = Some w ->
    vc_CodeHash w <> vc_CodeHash v' /\ vc_IdempotencyKey w <> vc_IdempotencyKey v'.
Proof.
  intros HP Hk -> -> k2 w Hne Hw. split; intros E; apply Hne; eapply (pv_voucher_apart _ HP); eauto.
Qed.

Lemma move_issue p p' v :
  PInv p -> vouchers p !! vc_ID v = None -> voucher_check v = true -> vc_AmountMinor v <= max_int64 ->
  vc_Status v = VoucherActive ->
  (forall k w, vouchers p !! k = Some w ->
     vc_CodeHash w <> vc_CodeHash v /\ vc_IdempotencyKey w <> vc_IdempotencyKey v) ->
  posts (books_db p) (books_db p') [] ->
  frame p' (orders p) (<[vc_ID v := v]> (vouchers p)) (funding p) (external_refunds p) -> PInv p'.
Proof.
  intros HP Hk Hc Hmax Hs Hap Hposts (EO & EV & EF & EX).
  eapply PInv_rest; try done.
  - eapply vouchers_insert; try done; [|by eauto].
    constructor; [done| | |by rewrite Hs].
    + unfold voucher_check in Hc. bools. lia.
    + unfold voucher_rows. rewrite Hs. simpl. rewrite (posts_none _ _ Hposts).
      apply rows_of_none, Forall_forall. intros e He Hse.
      pose proof (pv_accounted _ HP _ He) as Ha. unfold accounted in Ha. rewrite Hse in Ha.
      destruct Ha as (k & [w Hw] & E%uuid_string_inj). congruence.
  - intros k. rewrite EV. apply insert_known.
  - by eapply funding_kept.
  - by rewrite EF.
  - rewrite EV, EF, msum_insert_fresh by done. unfold voucher_net at 1. rewrite Hs. simpl.
    change (lsum net []) with 0. change (usage_net []) with 0. lia.
Qed.

Lemma move_void p p' k v v' :
  PInv p -> vouchers p !! k = Some v -> vc_Status v = VoucherActive ->
  one_of (vc_Status v') [VoucherRevoked; VoucherExpired] = true ->
  vc_ID v' = vc_ID v -> vc_AmountMinor v' = vc_AmountMinor v ->
  vc_CodeHash v' = vc_CodeHash v -> vc_IdempotencyKey v' = vc_IdempotencyKey v ->
  vc_CodeCiphertext v' = "" ->
  posts (books_db p) (books_db p') [] ->
  frame p' (orders p) (<[k := v']> (vouchers p)) (funding p) (external_refunds p) -> PInv p'.
Proof.
  intros HP Hk Hs Hs' E1 E2 E3 E4 E5 Hposts (EO & EV & EF & EX).
  destruct (pv_voucher _ HP _ _ Hk) as [V1 V2 V3 V4].
  assert (String.eqb (vc_Status v') VoucherRedeemed = false) as Hnr.
  { unfold one_of in Hs'. simpl in Hs'. rewrite !orb_true_iff, !String.eqb_eq in Hs'.
    by destruct Hs' as [->|[->|?]]. }
  unfold voucher_rows in V3. rewrite Hs in V3. simpl in V3.
  eapply PInv_rest; try done.
  - eapply vouchers_insert; try done; [|by eapply voucher_same_apart].
    constructor; [congruence|by rewrite E2| |done].
    unfold voucher_rows. by rewrite Hnr, (posts_none _ _ Hposts).
  - intros k2. rewrite EV. apply insert_known.
  - by eapply funding_kept.
  - by rewrite EF.
  - rewrite EV, EF, (msum_update _ _ _ _ _ Hk). unfold voucher_net at 2 3. rewrite Hs, Hnr. simpl.
    change (lsum net []) with 0. change (usage_net []) with 0. lia.
Qed.

Lemma grant_refund wid t e es : le_EntryType e = t -> refund_type t = false -> Forall quiet es ->
  refund_by wid (e :: es) = 0.
Proof.
  intros <- Hr Hq. change (e :: es) with ([e] ++ es)%list.
  rewrite refund_by_app, (refund_by_quiet _ es Hq). unfold refund_by, Store.of_wallet. rewrite lsum_cons.
  rewrite Hr. case_match; done.
Qed.

Lemma funded_net s e es : source_of e = s -> s <> SUsage -> Forall quiet es ->
  lsum net (e :: es) = net e + usage_net (e :: es).
Proof.
  intros <- Hs Hq. rewrite usage_net_cons, usage_net_quiet, lsum_cons by done. done.
Qed.

Lemma move_redeem p p' k v v' userID e es :
  PInv p -> vouchers p !! k = Some v -> vc_Status v = VoucherActive ->
  vc_Status v' = VoucherRedeemed ->
  vc_ID v' = vc_ID v -> vc_AmountMinor v' = vc_AmountMinor v -> vc_Currency v' = vc_Currency v ->
  vc_CodeHash v' = vc_CodeHash v -> vc_IdempotencyKey v' = vc_IdempotencyKey v ->
  vc_CodeCiphertext v' = "" -> vc_RedeemedBy v' = Some userID ->
  posts (books_db p) (books_db p') (e :: es) -> Forall quiet es ->
  le_EntryType e = EntryGrant -> le_AmountMinor e = vc_AmountMinor v ->
  le_ReferenceType e = "payment_voucher" -> le_ReferenceID e = uuid_string (vc_ID v) ->
  le_AvailableDelta e = vc_AmountMinor v -> le_ReservedDelta e = 0 ->
  owns (books_db p') (le_WalletID e) userID (Billing.normalizeCurrency (vc_Currency v)) ->
  frame p' (orders p) (<[k := v']> (vouchers p)) (funding p) (external_refunds p) -> PInv p'.
Proof.
  intros HP Hk Hs Hs' E1 E2 E3 E4 E5 E6 E7 Hposts Hq R1 R2 R3 R4 R5 R6 Ho (EO & EV & EF & EX).
  destruct (pv_voucher _ HP _ _ Hk) as [V1 V2 V3 _].
  assert (source_of e = SVoucher (uuid_string k)) as Hsrc by (unfold source_of; by rewrite R1, R3, R4, V1).
  unfold voucher_rows in V3. rewrite Hs in V3. simpl in V3. pose proof Hposts as [_ Hev HL].
  eapply PInv_rest; try done.
  - constructor; [|by apply quiet_apart]. unfold accounted. rewrite Hsrc. split; [|done].
    exists k. split; [|done]. rewrite EV. apply lookup_insert_is_Some'. by left.
  - intros wid. by eapply grant_refund.
  - eapply vouchers_insert; try done; [| |by eapply voucher_same_apart].
    + constructor.
      * intros k2 Hne. rewrite Hsrc. intros [= E%uuid_string_inj]. congruence.
      * eapply Forall_impl; [exact Hq|]. by intros x ->%quiet_source.
    + constructor; [congruence|by rewrite E2| |done].
      unfold voucher_rows. rewrite Hs'. simpl. exists userID, e.
      rewrite HL, rows_of_app, V3, (rows_of_cons _ _ _ Hsrc), rows_of_quiet by done.
      rewrite E2, E3. by split_and!.
  - intros k2. rewrite EV. apply insert_known.
  - eapply funding_kept; done.
  - by rewrite EF.
  - erewrite (funded_net _ e es Hsrc) by done. rewrite EV, EF, (msum_update _ _ _ _ _ Hk).
    unfold voucher_net at 2 3. rewrite Hs, Hs', E2. simpl. unfold net. rewrite R5, R6. lia.
Qed.

Lemma move_manual p p' key f e es :
  PInv p -> funding p !! key = None -> 0 < fo_AmountMinor f -> fo_LedgerID f = le_ID e ->
  posts (books_db p) (books_db p') (e :: es) -> Forall quiet es ->
  le_EntryType e = EntryRecharge -> le_AmountMinor e = fo_AmountMinor f ->
  le_ReferenceType e = "admin_recharge" -> le_ReferenceID e = Usage.normalizeText key 160 ->
  Billing.le_IdempotencyKey e = Usage.normalizeText key 160 ->
  le_AvailableDelta e = fo_AmountMinor f -> le_ReservedDelta e = 0 ->
  owns (books_db p') (le_WalletID e) (fo_UserID f) (Billing.normalizeCurrency (fo_Currency f)) ->
  frame p' (orders p) (vouchers p) (<[key := f]> (funding p)) (external_refunds p) -> PInv p'.
Proof.
  intros HP Hk Ha Hid Hposts Hq R1 R2 R3 R4 R4' R5 R6 Ho (EO & EV & EF & EX).
  assert (source_of e = SManual) as Hsrc by (unfold source_of; by rewrite R1, R3).
  pose proof Hposts as [_ Hev HL].
  eapply PInv_rest; try done.
  - constructor; [|by apply quiet_apart]. unfold accounted. rewrite Hsrc. split; [|done].
    exists key, f. rewrite EF, lookup_insert_eq. done.
  - intros wid. by eapply grant_refund.
  - eapply vouchers_kept; try done. constructor; [by rewrite Hsrc|].
    eapply Forall_impl; [exact Hq|]. by intros x ->%quiet_source.
  - by rewrite EV.
  - rewrite EF. intros key2 g [[<- <-]|[_ Hg]]%lookup_insert_Some.
    + split; [done|]. exists e. split_and!; try done. rewrite HL, elem_of_app. right. by left.
    + eapply funding_inv_kept; [done|by apply HP].
  - rewrite EF. intros key2 g Hg. rewrite lookup_insert_ne; [done|]. intros ->. congruence.
  - erewrite (funded_net _ e es Hsrc) by done. rewrite EV, EF, msum_insert_fresh by done.
    unfold net. rewrite R5, R6. lia.
Qed.

Lemma move_create p p' o :
  PInv p -> orders p !! o_ID o = None -> apart (o_ID o) o (orders p) -> order_check o = true ->
  o_AmountMinor o <= max_int64 -> o_Status o = StatusCreated -> o_WalletID o = None ->
  o_RechargeLedgerID o = None -> o_RefundHoldLedgerID o = None -> o_RefundLedgerID o = None ->
  o_ExternalRefundedAmountMinor o = 0 ->
  posts (books_db p) (books_db p') [] ->
  frame p' (<[o_ID o := o]> (orders p)) (vouchers p) (funding p) (external_refunds p) -> PInv p'.
Proof.
  intros HP Hk Hap Hc Ha Hs E1 E2 E3 E4 E5 Hposts (EO & EV & EF & EX).
  pose proof Hposts as [HI' Hev _]. pose proof (posts_none _ _ Hposts) as HL.
  assert (forall k2, is_Some (orders p !! k2) -> is_Some (orders p' !! k2)) as HO.
  { intros k2 Hs2. rewrite EO. by apply insert_known. }
  destruct (externals_kept p p' HP Hev EX HO) as [HX1 HX2].
  constructor; try done.
  - intros k2 o2. rewrite EO. intros [[<- <-]|[Hne Hk2]]%lookup_insert_Some.
    + constructor; [done|done| |by apply ph_unpaid; [unfold unpaid; rewrite Hs|..]|by rewrite E1| |].
      * unfold order_check in Hc. bools. lia.
      * unfold expected. rewrite E2, HL. rewrite rows_of_none; [done|].
        apply Forall_forall. intros e He Hse.
        pose proof (pv_accounted _ HP _ He) as Hacc. unfold accounted in Hacc. rewrite Hse in Hacc.
        destruct Hacc as (k & [w Hw] & E%uuid_string_inj). congruence.
      * rewrite EX, E5. symmetry. apply msum_zero. intros i x Hx. case_match eqn:Ho; [|done].
        apply uuid_eqb_eq in Ho. destruct (pv_external _ HP _ _ Hx) as (_ & [? Hx2] & _). congruence.
    + eapply order_inv_kept; [exact Hposts|done|by rewrite EX|by apply (pv_order _ HP)].
  - intros k1 o1. rewrite EO. intros [[<- <-]|[Hne Hk1]]%lookup_insert_Some k2 o2.
    + intros [[<- _]|[_ Hk2]]%lookup_insert_Some; [done|]. by apply Hap.
    + intros [[<- <-]|[_ Hk2]]%lookup_insert_Some Hd; [|by eapply (pv_apart _ HP)].
      rewrite orders_clash_sym. by eapply Hap.
  - by apply (vouchers_kept _ _ _ HP Hposts EV).
  - rewrite EV. apply HP.
  - by eapply funding_kept.
  - intros e. rewrite HL. intros He.
    apply (accounted_kept p p'); [done|by rewrite EV|by rewrite EF|by apply (pv_accounted _ HP)].
  - intros wid. rewrite HL, EO, msum_insert_fresh by done.
    rewrite (pending_not _ o) by (by rewrite Hs). apply (pv_pending _ HP).
  - unfold money_in. rewrite HL, EO, EV, EF, msum_insert_fresh by done.
    assert (order_net o = 0) as -> by (unfold order_net; by rewrite E2, E4). apply (pv_net _ HP).
Qed.

Lemma PInv_move p p' : PInv p -> move p p' -> PInv p'.
Proof.
  intros HP Hm. destruct Hm.
  - by eapply move_quiet.
  - by eapply move_create.
  - by eapply move_order.
  - by eapply (move_pay p).
  - by eapply (move_hold p).
  - by eapply (move_unhold p).
  - by eapply (move_refund p).
  - by eapply (move_external p).
  - by eapply move_issue.
  - by eapply move_void.
  - by eapply (move_redeem p).
  - by eapply (move_manual p).
Qed.

Lemma PInv_moves p p' : PInv p -> rtc move p p' -> PInv p'.
Proof. intros HP Hm. induction Hm as [|p1 p2 p3 Hm _ IH]; [done|]. apply IH. by eapply PInv_move. Qed.

End keep.

(** The tables before anything happened. *)
Definition no_payments (U : gset uuid) : PDB := mkPDB U BillingSteps.empty_db ∅ ∅ ∅ ∅ ∅ ∅ ∅.

Lemma PInv_start `{UuidText} U : PInv (no_payments U).
Proof.
  constructor; simpl; try done; [apply BillingSteps.Inv_empty|].
  intros e He. by apply elem_of_nil in He.
Qed.

End PaymentInv.
