(* ===== verification/PaymentFacts.v ===== *)
(** * What a statement of [internal/payment] that succeeds does

    One lemma per statement of [PaymentStore] says which row it wrote and what it
    checked, and [keeps_from] composes them into the moves of [PaymentMoves]:
    from the state [s0] the transaction has reached [s], and whatever the rest of it
    leaves behind is again a sequence of moves. *)

From stdpp Require Import base gmap strings list relations.
From Stdlib Require Import ZArith Lia Ascii String.
From S2P Require Import Prelude GoLib Usage Pricing BillingModel Money Store StoreFacts.
From S2P Require Import BillingOps BillingService BillingInv BillingFacts BillingSteps.
From S2P Require Import BillingHistory BillingRows Coordinator PaymentModel PaymentStore.
From S2P Require Import PaymentRepo PaymentEvents PaymentFunding PaymentMoves PaymentInv.

Module PaymentFacts.
Import Payment PaymentStore PaymentRepo PaymentEvents PaymentFunding BillingInv BillingHistory
  BillingRows PaymentMoves PaymentInv.
Import Store(DB, St, btx, SqlGuards, WallClock, wallets, reservations, settlements, liabilities,
  ledger, outbox, audit_logs, set_outbox).
Import Coordinator(Sha256Hex).
Import Usage(normalizeText).

(** ** Plain texts are their own normal form *)
Definition printable (c : ascii) : bool := (33 <=? code c) && (code c <=? 126).

Lemma space1_printable c : printable c = true -> space1 c = false.
Proof.
  unfold printable, space1. intros Hp. bools.
  apply orb_false_iff. split; [apply andb_false_iff; right; lia|lia].
Qed.

Lemma starts_printable (f : ascii -> ascii -> bool) (g : ascii -> ascii -> ascii -> bool) s :
  (forall a b, printable a = true -> f a b = false) ->
  (forall a b c, printable a = true -> g a b c = false) ->
  forall_bytes printable s = true -> starts space1 f g s = false.
Proof.
  intros Hf Hg. destruct s as [|a [|b [|c v]]]; simpl; try done;
    intros Hp; apply andb_true_iff in Hp as [Ha _];
    rewrite ?(space1_printable a Ha), ?(Hf a _ Ha), ?(Hg a _ _ Ha); done.
Qed.

Lemma TrimSpace_printable s : forall_bytes printable s = true -> TrimSpace s = s.
Proof.
  intros Hp. unfold TrimSpace, TrimLeftSpace, TrimRightSpace.
  assert (forall a b, printable a = true -> space2 a b = false /\ space2 b a = false) as H2.
  { intros a b Ha. unfold printable, space2 in *. bools.
    split; apply andb_false_iff; [left; lia|right; apply orb_false_iff; lia]. }
  assert (forall a b c, printable a = true -> space3 a b c = false /\ space3 c b a = false) as H3.
  { intros a b c Ha. unfold printable, space3 in *. bools.
    split; repeat (apply orb_false_iff; split); repeat rewrite ?andb_false_iff, ?orb_false_iff; lia. }
  rewrite (starts_false_strip _ _ _ s) by (apply starts_printable; [apply H2|apply H3|done]).
  rewrite starts_false_strip, srev_involutive; [done|].
  apply starts_printable; [apply H2|apply H3|by rewrite forall_bytes_srev].
Qed.

Lemma normalizeText_printable s max :
  forall_bytes printable s = true -> normalizeText s max <> "" -> normalizeText s max = s.
Proof.
  intros Hp. unfold normalizeText. rewrite TrimSpace_printable by done. by case_match.
Qed.

Lemma uuid_printable `{UuidText} (UL : UuidTextLaws _) u : forall_bytes printable (uuid_string u) = true.
Proof.
  eapply forall_bytes_impl; [|apply uuid_string_plain]. intros c Hc.
  unfold printable, is_digit, is_lower in *. rewrite !orb_true_iff, Ascii.eqb_eq in Hc.
  destruct Hc as [[Hc|Hc]| ->]; [bools; apply andb_true_iff; lia..|done].
Qed.

(** ** Combinators *)
Section combinators.
Context {A : Type}.
Implicit Types (s : PSt) (m : pstmt A).

Lemma mapped_as_ok f m s s' (a : A) : mapped_as f m s = (s', Ok a) -> m s = (s', Ok a).
Proof. unfold mapped_as. destruct (m s) as [s1 [?|?]]; simpl; naive_solver. Qed.

Lemma p_mapped_ok m s s' (a : A) : mapped m s = (s', Ok a) -> m s = (s', Ok a).
Proof. apply mapped_as_ok. Qed.

Lemma optional_ok m s s' r : optional m s = (s', Ok r) ->
  match r with Some a => m s = (s', Ok a) | None => m s = (s', Err NoRows) end.
Proof. unfold optional. destruct (m s) as [s1 [?|[]]]; naive_solver. Qed.

Lemma exec_update_ok m s s' u : exec_update m s = (s', Ok u) ->
  (exists a, m s = (s', Ok a)) \/ m s = (s', Err NoRows).
Proof. unfold exec_update. destruct (m s) as [s1 [?|[]]]; naive_solver. Qed.

Lemma inner_as_ok f (m : btx A) ids p s' (a : A) : inner_as f m (ids, p) = (s', Ok a) ->
  exists ids' d', m (ids, books_db p) = Ok ((ids', d'), a) /\ s' = (ids', set_books d' p).
Proof. unfold inner_as. destruct (m _) as [[[ids' d'] ?]|]; naive_solver. Qed.

Lemma inner_ok (m : btx A) ids p s' (a : A) : inner m (ids, p) = (s', Ok a) ->
  exists ids' d', m (ids, books_db p) = Ok ((ids', d'), a) /\ s' = (ids', set_books d' p).
Proof. apply inner_as_ok. Qed.

Lemma prow_ok o s s' (a : A) : prow o s = (s', Ok a) -> o = Some a /\ s' = s.
Proof. unfold prow, stx_lift. destruct o; naive_solver. Qed.

Lemma prow_norows o s s' : prow o s = (s', @Err _ A NoRows) -> o = None /\ s' = s.
Proof. unfold prow, stx_lift. destruct o; naive_solver. Qed.
End combinators.

Lemma pguard_ok g s s' u : pguard g s = (s', Ok u) -> g = None /\ s' = s.
Proof. unfold pguard, stx_fail. destruct g; [done|]. intros [= <- _]. done. Qed.

Lemma punique_ok b s s' u : punique b s = (s', Ok u) -> b = false /\ s' = s.
Proof. apply stx_when_ok. Qed.

Lemma pcheck_ok b s s' u : pcheck b s = (s', Ok u) -> b = true /\ s' = s.
Proof. intros [Hb ->]%stx_when_ok. by apply negb_false_iff in Hb. Qed.

Lemma praise_ok b c s s' u : praise b c s = (s', Ok u) -> b = true /\ s' = s.
Proof. intros [Hb ->]%stx_when_ok. by apply negb_false_iff in Hb. Qed.

Lemma p_when_ok b e s s' u : p_when b e s = (s', Ok u) -> b = false /\ s' = s.
Proof. apply stx_when_ok. Qed.

Lemma p_lift_ok {A} (r : result error A) s s' a : p_lift r s = (s', Ok a) -> r = Ok a /\ s' = s.
Proof. intros [Hr ->]%stx_lift_ok. destruct r; naive_solver. Qed.

Lemma pread_ok {E A} (f : PDB -> A) s s' a : @pread E A f s = (s', Ok a) -> a = f s.2 /\ s' = s.
Proof. unfold pread, stx_gets. naive_solver. Qed.

Lemma pwrite_ok {E} (f : PDB -> PDB) s s' u : @pwrite E f s = (s', Ok u) -> s' = (s.1, f s.2).
Proof. unfold pwrite. naive_solver. Qed.

Lemma p_new_id_ok s s' i : new_id s = (s', Ok i) -> s'.2 = s.2.
Proof. unfold new_id. destruct s.1; naive_solver. Qed.

(** One statement of a sequence that succeeded. *)
Ltac p_step :=
  match goal with
  | H : (_ ≫= _) _ = (_, Ok _) |- _ => apply stx_bind_ok in H as (? & ? & ? & H)
  | H : mret _ _ = (_, Ok _) |- _ => injection H as ??; subst
  | H : stx_fail _ _ = (_, Ok _) |- _ => discriminate H
  | H : refuse _ _ = (_, Ok _) |- _ => discriminate H
  | H : stx_when _ _ _ = (_, Ok _) |- _ => apply stx_when_ok in H as [? ?]; subst
  | H : p_when _ _ _ = (_, Ok _) |- _ => apply p_when_ok in H as [? ?]; subst
  | H : p_lift _ _ = (_, Ok _) |- _ => apply p_lift_ok in H as [? ?]; subst
  | H : pguard _ _ = (_, Ok _) |- _ => apply pguard_ok in H as [? ?]; subst
  | H : punique _ _ = (_, Ok _) |- _ => apply punique_ok in H as [? ?]; subst
  | H : pcheck _ _ = (_, Ok _) |- _ => apply pcheck_ok in H as [? ?]; subst
  | H : praise _ _ _ = (_, Ok _) |- _ => apply praise_ok in H as [? ?]; subst
  | H : pread _ _ = (_, Ok _) |- _ => apply pread_ok in H as [? ?]; subst
  | H : pwrite _ _ = (_, Ok _) |- _ => apply pwrite_ok in H; subst
  | H : prow _ _ = (_, Ok _) |- _ => apply prow_ok in H as [? ?]; subst
  | H : mapped _ _ = (_, Ok _) |- _ => apply p_mapped_ok in H
  | H : (_, Err _) = (_, Ok _) |- _ => discriminate H
  | H : (_, Ok _) = (_, Ok _) |- _ => injection H as ??; subst
  end.
Ltac p_inv := repeat (p_step; simpl in *).
(** The uniqueness test that found nothing. *)
Ltac dup_inv Hk Hd :=
  match goal with E : false = _ |- _ =>
    symmetry in E; apply orb_false_iff in E as [Hk Hd] end.
Ltac id_inv := repeat match goal with H : new_id _ = (_, Ok _) |- _ => apply p_new_id_ok in H end.

(** ** Rows beside the money *)
Record beside (p p' : PDB) : Prop := {
  bs_frame : frame p' (orders p) (vouchers p) (funding p) (external_refunds p);
  bs_books : Inv (books_db p) -> posts (books_db p) (books_db p') []
}.

Lemma beside_refl p : beside p p.
Proof. constructor; [done|]. intros HI. by apply posts_refl. Qed.

Lemma beside_trans p1 p2 p3 : beside p1 p2 -> beside p2 p3 -> beside p1 p3.
Proof.
  intros [(E1 & E2 & E3 & E4) B1] [(F1 & F2 & F3 & F4) B2]. constructor.
  - unfold frame. by rewrite F1, F2, F3, F4.
  - intros HI. pose proof (B1 HI) as P1. apply (posts_trans _ _ _ _ _ P1), B2, P1.
Qed.

Lemma beside_books p p' : frame p' (orders p) (vouchers p) (funding p) (external_refunds p) ->
  books_db p' = books_db p -> beside p p'.
Proof. intros Hf Hb. constructor; [done|]. rewrite Hb. intros HI. by apply posts_refl. Qed.

Section statements.
Context `{UuidText, SqlGuards, WallClock, PaymentGuards, Sha256Hex, TimeText}.
Implicit Types (s : PSt).

Lemma beside_move p p' : PInv p -> beside p p' -> move p p'.
Proof. intros HP [Hf Hb]. eapply mv_quiet; [apply Hb, HP|constructor|done]. Qed.

Lemma outbox_beside aggregateType aggregateID eventType key payload s s' u :
  insertPaymentOutbox aggregateType aggregateID eventType key payload s = (s', Ok u) ->
  beside s.2 s'.2.
Proof.
  intros Hm. unfold insertPaymentOutbox in Hm. p_inv. id_inv.
  match goal with E : ?p = s.2 |- _ => rewrite <- E in *; clear E end.
  destruct (existsb _ _) in Hm; p_inv; [apply beside_refl|].
  constructor; [done|]. intros HI. by apply posts_outbox.
Qed.

Lemma audit_beside event s s' u : audit event s = (s', Ok u) -> beside s.2 s'.2.
Proof.
  intros Hm. destruct s as [ids p]. apply inner_ok in Hm as (ids' & d' & Hm & ->). simpl.
  constructor; [done|]. intros HI. by apply (posts_audit _ _ _ _ _ HI Hm).
Qed.

Lemma insert_operation_beside op s s' a : insert_operation op s = (s', Ok a) -> beside s.2 s'.2.
Proof. intros Hm. unfold insert_operation in Hm. p_inv. by apply beside_books. Qed.

Lemma update_operation_beside i f s s' a : update_operation i f s = (s', Ok a) -> beside s.2 s'.2.
Proof. intros Hm. unfold update_operation in Hm. p_inv. by apply beside_books. Qed.

Lemma update_operation_missing i f s s' : update_operation i f s = (s', Err NoRows) -> s' = s.
Proof.
  intros Hm. unfold update_operation, pread, stx_gets, mbind, stx_mbind, prow, stx_lift in Hm.
  destruct (operations s.2 !! i) as [op|]; [|congruence].
  unfold pcheck, stx_when, pguard, stx_fail in Hm.
  destruct (operation_check (f op)), (guard_operation (f op)); simpl in Hm; discriminate Hm.
Qed.

Lemma exec_operation_beside i f s s' u :
  mapped (exec_update (update_operation i f)) s = (s', Ok u) -> beside s.2 s'.2.
Proof.
  intros [[a Hm]|Hm]%p_mapped_ok%exec_update_ok; [by eapply update_operation_beside|].
  apply update_operation_missing in Hm as ->. apply beside_refl.
Qed.

Lemma insert_event_beside e s s' b : insert_event e s = (s', Ok b) -> beside s.2 s'.2.
Proof.
  intros Hm. unfold insert_event in Hm. p_inv. destruct (map_any _ _); p_inv; [apply beside_refl|].
  by apply beside_books.
Qed.

Lemma update_processing_beside i status class s s' u :
  update_processing i status class s = (s', Ok u) -> beside s.2 s'.2.
Proof.
  intros Hm. unfold update_processing in Hm. p_inv.
  destruct (events s.2 !! i); p_inv; [by apply beside_books|apply beside_refl].
Qed.

Lemma insert_dispute_beside x s s' u : insert_dispute x s = (s', Ok u) -> beside s.2 s'.2.
Proof. intros Hm. unfold insert_dispute in Hm. p_inv. by apply beside_books. Qed.

Lemma resolve_dispute_beside i status t now s s' u :
  resolve_dispute i status t now s = (s', Ok u) -> beside s.2 s'.2.
Proof.
  intros Hm. unfold resolve_dispute in Hm. p_inv.
  destruct (disputes s.2 !! i); p_inv; [by apply beside_books|apply beside_refl].
Qed.

Lemma ensure_beside order t identity now s s' u :
  ensureProviderOperation order t identity now s = (s', Ok u) -> beside s.2 s'.2.
Proof.
  intros Hm. unfold ensureProviderOperation in Hm. destruct (normalizeProviderIdentity identity); [|p_inv].
  unfold loadProviderOperation, insert_operation_if_absent in Hm. p_inv. id_inv.
  match goal with E : ?p = s.2 |- _ => rewrite <- E in *; clear E end.
  match goal with Hi : (if ?b then _ else _) _ = _ |- _ => destruct b end; p_inv; [apply beside_refl|].
  by eapply insert_operation_beside.
Qed.

(** ** Orders *)

(** What the server checked of an order it wrote in place of [o]. *)
Record written (O : gmap uuid Order) (k : uuid) (o o' : Order) : Prop := {
  wr_row : O !! k = Some o;
  wr_facts : order_facts_kept o o' = true;
  wr_transition : order_transition_ok (o_Status o) (o_Status o') = true;
  wr_updated : o_UpdatedAt o <= o_UpdatedAt o';
  wr_check : order_check o' = true;
  wr_apart : apart k o' O
}.

Definition keyed (O : gmap uuid Order) : Prop := forall k o, O !! k = Some o -> o_ID o = k.

Lemma PInv_keyed p : PInv p -> keyed (orders p).
Proof. intros HP k o Hk. apply (pv_order _ HP _ _ Hk). Qed.

Lemma no_clash_apart O k o : keyed O ->
  map_any (fun x => negb (uuid_eqb (o_ID x) k) && orders_clash o x) O = false -> apart k o O.
Proof.
  intros HO Hd k2 o2 Hk2 Hne. rewrite map_any_false in Hd. specialize (Hd _ _ Hk2).
  rewrite (HO _ _ Hk2) in Hd. apply uuid_eqb_neq in Hne.
  by rewrite Hne in Hd.
Qed.

Lemma update_order_ok k b f s s' o' : keyed (orders s.2) ->
  update_order k b f s = (s', Ok o') ->
  exists o, written (orders s.2) k o o' /\ o' = f o
    /\ s' = (s.1, set_orders (<[k := o']>) s.2)
    /\ (b = true -> order_ledger_ok o' s.2 = true).
Proof.
  intros HO Hm. unfold update_order in Hm. p_inv. eexists. split; [|split; [done|split; [done|]]].
  - bools. constructor; try done. by apply no_clash_apart.
  - intros ->. by rewrite orb_false_l in *.
Qed.

Lemma update_order_missing k b f s s' : update_order k b f s = (s', Err NoRows) -> s' = s.
Proof.
  intros Hm. unfold update_order, pread, stx_gets, mbind, stx_mbind, prow, stx_lift in Hm.
  destruct (orders s.2 !! k) as [o|]; [|congruence].
  unfold praise, pcheck, punique, stx_when, pguard, stx_fail in Hm.
  repeat match type of Hm with
  | context [if ?b then Err _ else _] => destruct b; simpl in Hm; [discriminate Hm|]
  end.
  destruct (guard_order (f o)); simpl in Hm; discriminate Hm.
Qed.

Lemma insert_order_ok o s s' o' : insert_order o s = (s', Ok o') ->
  o' = o /\ s' = (s.1, set_orders (<[o_ID o := o]>) s.2) /\ orders s.2 !! o_ID o = None
  /\ order_check o = true /\ apart (o_ID o) o (orders s.2) /\ order_ledger_ok o s.2 = true.
Proof.
  intros Hm. unfold insert_order in Hm. p_inv.
  dup_inv Hk Hd.
  apply bool_decide_eq_false, eq_None_not_Some in Hk. rewrite map_any_false in Hd.
  split_and!; try done. intros k2 o2 Hk2 _. by apply (Hd k2).
Qed.

Lemma loadOrderByID_ok k s s' o : loadOrderByID k s = (s', Ok o) -> s' = s /\ orders s.2 !! k = Some o.
Proof. intros Hm. unfold loadOrderByID in Hm. by p_inv. Qed.

Lemma select_order_ok q s s' o : select_order q s = (s', Ok o) ->
  s' = s /\ exists k, orders s.2 !! k = Some o /\ q o = true.
Proof. intros Hm. unfold select_order in Hm. p_inv. split; [done|]. by apply map_find_Some. Qed.

(** ** Other tables the moves are about *)
Lemma insert_external_ok x s s' u : insert_external_refund x s = (s', Ok u) ->
  s' = (s.1, set_external_refunds (<[xr_ID x := x]>) s.2)
  /\ external_refunds s.2 !! xr_ID x = None /\ 0 < xr_AmountMinor x
  /\ forall i y, external_refunds s.2 !! i = Some y ->
       of_refund (xr_PaymentProvider x) (xr_ProviderRefundNo x) y = false
       /\ xr_LiabilityID y <> xr_LiabilityID x.
Proof.
  intros Hm. unfold insert_external_refund in Hm. p_inv.
  dup_inv Hk Hd.
  apply bool_decide_eq_false, eq_None_not_Some in Hk. rewrite map_any_false in Hd. bools.
  split_and!; try done. intros i y Hy. specialize (Hd _ _ Hy). bools. done.
Qed.

(** The row [update_voucher] writes. *)
Definition voucher_row (old : Voucher) (status : string) (redeemed : option (uuid * time)) (now : time)
  : Voucher :=
  {| vc_ID := vc_ID old; vc_CodePrefix := vc_CodePrefix old; vc_AmountMinor := vc_AmountMinor old;
     vc_Currency := vc_Currency old; vc_Status := status; vc_ExpiresAt := vc_ExpiresAt old;
     vc_CreatedBy := vc_CreatedBy old;
     vc_RedeemedBy := match redeemed with Some (u, _) => Some u | None => vc_RedeemedBy old end;
     vc_RedeemedAt := match redeemed with Some (_, t) => Some t | None => vc_RedeemedAt old end;
     vc_CreatedAt := vc_CreatedAt old; vc_UpdatedAt := now;
     vc_CodeCiphertext := ""; vc_CodeNonce := ""; vc_CodeHash := vc_CodeHash old;
     vc_CodeKeyVersion := ""; vc_IdempotencyKey := vc_IdempotencyKey old |}.

Lemma update_voucher_ok i status redeemed now s s' v' :
  update_voucher i status redeemed now s = (s', Ok v') ->
  exists v, vouchers s.2 !! i = Some v /\ v' = voucher_row v status redeemed now
    /\ s' = (s.1, set_vouchers (<[i := v']>) s.2).
Proof. intros Hm. unfold update_voucher in Hm. p_inv. eexists. split_and!; done. Qed.

Lemma update_voucher_missing i status redeemed now s s' :
  update_voucher i status redeemed now s = (s', Err NoRows) -> s' = s.
Proof.
  intros Hm. unfold update_voucher, pread, stx_gets, mbind, stx_mbind, prow, stx_lift in Hm.
  destruct (vouchers s.2 !! i) as [v|]; [|congruence].
  unfold praise, pcheck, stx_when, pguard, stx_fail in Hm.
  repeat match type of Hm with
  | context [if ?b then Err _ else _] => destruct b; simpl in Hm; [discriminate Hm|]
  | context [guard_voucher ?x] => destruct (guard_voucher x); simpl in Hm
  end; discriminate Hm.
Qed.

Lemma insert_voucher_ok v s s' v' : insert_voucher v s = (s', Ok v') ->
  v' = v /\ s' = (s.1, set_vouchers (<[vc_ID v := v]>) s.2) /\ vouchers s.2 !! vc_ID v = None
  /\ voucher_check v = true
  /\ forall k w, vouchers s.2 !! k = Some w ->
       vc_CodeHash w <> vc_CodeHash v /\ vc_IdempotencyKey w <> vc_IdempotencyKey v.
Proof.
  intros Hm. unfold insert_voucher in Hm. p_inv. destruct (map_any _ _) eqn:Hc in Hm; p_inv.
  dup_inv Hk Hd.
  apply bool_decide_eq_false, eq_None_not_Some in Hk. rewrite map_any_false in Hd, Hc.
  split_and!; try done. intros k w Hw. specialize (Hd _ _ Hw). specialize (Hc _ _ Hw). by bools.
Qed.

Lemma insert_voucher_conflict v s s' : insert_voucher v s = (s', Err NoRows) -> s' = s.
Proof.
  intros Hm. unfold insert_voucher, pread, stx_gets, mbind, stx_mbind in Hm.
  unfold pcheck, punique, stx_when, pguard, stx_fail in Hm.
  destruct (voucher_check v); simpl in Hm; [|discriminate Hm].
  destruct (map_any _ (vouchers s.2)); [congruence|].
  destruct (_ || _); simpl in Hm; [discriminate Hm|].
  destruct (guard_voucher v); simpl in Hm; discriminate Hm.
Qed.

Lemma select_voucher_ok q s s' v : select_voucher q s = (s', Ok v) ->
  s' = s /\ exists k, vouchers s.2 !! k = Some v /\ q v = true.
Proof. intros Hm. unfold select_voucher in Hm. p_inv. split; [done|]. by apply map_find_Some. Qed.

Lemma select_voucher_missing q s s' : select_voucher q s = (s', Err NoRows) -> s' = s.
Proof. intros Hm. unfold select_voucher, pread, stx_gets, mbind, stx_mbind, prow, stx_lift in Hm. congruence. Qed.

Lemma insert_funding_ok key f s s' b : insert_funding key f s = (s', Ok b) ->
  (b = false /\ s' = s /\ is_Some (funding s.2 !! key))
  \/ (b = true /\ s' = (s.1, set_funding (<[key := f]>) s.2) /\ funding s.2 !! key = None
      /\ 0 < fo_AmountMinor f
      /\ forall i g, funding s.2 !! i = Some g -> fo_LedgerID g <> fo_LedgerID f).
Proof.
  intros Hm. unfold insert_funding in Hm. p_inv.
  destruct (bool_decide (is_Some (funding s.2 !! key))) eqn:Hk; p_inv.
  { left. by apply bool_decide_eq_true in Hk. }
  right. apply bool_decide_eq_false, eq_None_not_Some in Hk. bools. split_and!; try done.
  match goal with E : false = _ |- _ => symmetry in E; rewrite map_any_false in E;
    intros i g Hg; specialize (E _ _ Hg) end. by bools.
Qed.

(** ** Composing a transaction *)

(** The errors after which the rows a callback has written may be committed. *)
Definition soft (f : failure) : Prop :=
  f_aborted f = false /\ permanentPaymentEventError (f_error f) = true.
Definition lasting {A} (r : result failure A) : Prop :=
  match r with Ok _ => True | Err f => soft f end.

Definition keeps_from (p0 : PDB) (s : PSt) {A} (m : ptx A) : Prop :=
  forall s' r, m s = (s', r) -> lasting r -> rtc move p0 s'.2.

(** Statements whose errors end the transaction. *)
Definition brittle {A} (m : ptx A) : Prop := forall s s' f, m s = (s', Err f) -> ~ soft f.

Lemma brittle_mapped_as {A} g (m : pstmt A) :
  permanentPaymentEventError (g NoRows) = false -> brittle (mapped_as g m).
Proof.
  intros Hg s s' f. unfold mapped_as. destruct (m s) as [s1 [a|e]]; [done|]. intros [= <- <-] [Ha Hp].
  destruct e; simpl in *; [by rewrite Hg in Hp|done].
Qed.

Lemma brittle_mapped {A} (m : pstmt A) : brittle (mapped m).
Proof. by apply brittle_mapped_as. Qed.

Lemma brittle_optional {A} (m : pstmt A) : brittle (optional m).
Proof. intros s s' f. unfold optional. destruct (m s) as [s1 [a|[]]]; [done..|]. by intros [= <- <-] [Ha _]. Qed.

Lemma brittle_inner_as {A} g (m : btx A) : brittle (inner_as g m).
Proof.
  intros [ids p] s' f. unfold inner_as. destruct (m _) as [[[ids' d'] a]|e]; [done|].
  by intros [= <- <-] [Ha _].
Qed.

Lemma brittle_inner {A} (m : btx A) : brittle (inner m).
Proof. apply brittle_inner_as. Qed.

Lemma brittle_new_id : brittle new_id.
Proof. intros s s' f. unfold new_id. destruct s.1; [|done]. by intros [= <- <-] [_ Hp]. Qed.

Lemma brittle_pread {A} (g : PDB -> A) : brittle (pread g).
Proof. by intros s s' f. Qed.

Lemma brittle_ret {A} (a : A) : brittle (mret a).
Proof. by intros s s' f. Qed.

Lemma brittle_bind {A B} (m : ptx A) (g : A -> ptx B) :
  brittle m -> (forall a, brittle (g a)) -> brittle (m ≫= g).
Proof.
  intros Hm Hg s s' f Hr. apply stx_bind_err in Hr as [Hr|(s1 & a & _ & Hr)]; [by eapply Hm|by eapply Hg].
Qed.

Lemma brittle_audit event : brittle (audit event).
Proof. apply brittle_inner. Qed.

Lemma brittle_outbox t i e k l : Billing.one_of t ["payment_order"; "payment_voucher"] = true ->
  brittle (insertPaymentOutbox t i e k l).
Proof.
  intros Ht. unfold insertPaymentOutbox. apply brittle_bind.
  - assert (negb (String.eqb t "payment_order") && negb (String.eqb t "payment_voucher") = false) as ->.
    { unfold Billing.one_of in Ht. simpl in Ht. rewrite orb_false_r in Ht.
      by rewrite <- negb_orb, Ht. }
    by intros s s' f.
  - intros _. apply brittle_bind; [apply brittle_new_id|]. intros o.
    apply brittle_bind; [apply brittle_pread|]. intros []; [apply brittle_ret|].
    apply brittle_bind; [apply brittle_pread|]. intros dup. apply brittle_mapped.
Qed.

Section rules.
Context (p0 : PDB) {A B : Type}.
Implicit Types (m : ptx A) (g : A -> ptx B).

Lemma keeps_ret s (a : A) : rtc move p0 s.2 -> keeps_from p0 s (mret a).
Proof. intros Hm s' r [= <- <-]. done. Qed.

Lemma keeps_refuse s e : rtc move p0 s.2 -> keeps_from p0 s (@refuse A e).
Proof. intros Hm s' r [= <- <-]. done. Qed.

Lemma keeps_when s b e (k : unit -> ptx B) : rtc move p0 s.2 ->
  (b = false -> keeps_from p0 s (k tt)) -> keeps_from p0 s (p_when b e ≫= k).
Proof.
  intros Hm Hk s' r. unfold p_when, stx_when, mbind, stx_mbind. destruct b.
  - intros [= <- <-]. done.
  - by apply Hk.
Qed.

Lemma keeps_hard s m g : brittle m ->
  (forall s1 a, m s = (s1, Ok a) -> keeps_from p0 s1 (g a)) -> keeps_from p0 s (m ≫= g).
Proof.
  intros Hb Hg s' r. unfold mbind, stx_mbind. destruct (m s) as [s1 [a|f]] eqn:Hm.
  - by apply Hg.
  - intros [= <- <-] Hs. by destruct (Hb _ _ _ Hm).
Qed.

Lemma keeps_soft s m g : keeps_from p0 s m ->
  (forall s1 a, m s = (s1, Ok a) -> rtc move p0 s1.2 -> keeps_from p0 s1 (g a)) ->
  keeps_from p0 s (m ≫= g).
Proof.
  intros Hk Hg s' r. unfold mbind, stx_mbind. destruct (m s) as [s1 [a|f]] eqn:Hm.
  - apply Hg; [done|]. by eapply Hk.
  - intros [= <- <-] Hs. by eapply (Hk s1 (Err f)).
Qed.

Lemma keeps_beside (UL : UuidTextLaws _) s m g : PInv p0 -> rtc move p0 s.2 -> brittle m ->
  (forall s1 a, m s = (s1, Ok a) -> beside s.2 s1.2) ->
  (forall s1 a, m s = (s1, Ok a) -> beside s.2 s1.2 -> rtc move p0 s1.2 -> keeps_from p0 s1 (g a)) ->
  keeps_from p0 s (m ≫= g).
Proof.
  intros HP Hm Hb Hbe Hg. apply keeps_hard; [done|]. intros s1 a Ha. apply Hg; [done|by eapply Hbe|].
  eapply rtc_r; [exact Hm|]. apply beside_move; [by eapply PInv_moves|by eapply Hbe].
Qed.
End rules.

Lemma keeps_run {A} p0 ids (m : ptx A) p' r :
  keeps_from p0 (ids, p0) m -> run_payment ids m p0 = (p', r) -> rtc move p0 p'.
Proof.
  intros Hk. unfold run_payment, commit. destruct (m (ids, p0)) as [[ids' p1] [a|f]] eqn:Hm.
  - intros [= <- _]. by apply (Hk _ _ Hm).
  - intros [= <- _]. done.
Qed.

End statements.
End PaymentFacts.
