(* ===== verification/PaymentSteps.v ===== *)
(** * The operations of [internal/payment] are sequences of moves

    For every repository method that writes: whatever it commits, started from rows
    under [PInv], is reached by moves ([keeps_from]). *)

From stdpp Require Import base gmap strings list relations.
From Stdlib Require Import ZArith Lia Ascii String.
From S2P Require Import Prelude GoLib Usage Pricing BillingModel Money Store StoreFacts.
From S2P Require Import BillingOps BillingService BillingInv BillingFacts BillingSteps.
From S2P Require Import BillingHistory BillingRows Coordinator Secret PaymentModel PaymentStore.
From S2P Require Import PaymentRepo PaymentEvents PaymentFunding PaymentMoves PaymentInv.
From S2P Require Import PaymentFacts.

Module PaymentSteps.
Import Payment PaymentStore PaymentRepo PaymentEvents PaymentFunding BillingInv BillingHistory
  BillingRows PaymentMoves PaymentInv PaymentFacts.
Import Store(DB, St, btx, SqlGuards, WallClock, wallets, reservations, settlements, liabilities,
  ledger, outbox, audit_logs, set_outbox).
Import Coordinator(Sha256Hex).
Import Billing(LedgerEntry, le_ID, le_WalletID, le_EntryType, le_AmountMinor, le_AvailableDelta,
  le_ReservedDelta, le_ReferenceType, le_ReferenceID, one_of, EntryRecharge, EntryGrant,
  EntryPaymentRefundHold, EntryPaymentReversal, EntryPaymentRefundRelease).
Import Usage(normalizeText).

(** ** Proof steps *)
Ltac plain_order := constructor; [by split_and!|try by right|try by right|by split_and!|].

(** The rest of a transaction after it has said what it did. *)
Ltac keeps_note :=
  eapply keeps_beside; [done|done|done| | |];
    [first [apply brittle_audit | by apply brittle_outbox]
    |intros ? []; first [apply audit_beside | apply outbox_beside]
    |intros ? [] _ _ ?].

Ltac same_order Ho := simpl in Ho; match type of Ho with _ = Some ?o1 =>
  match goal with Hk : _ !! _ = Some ?o |- _ => assert (o1 = o) as -> by congruence end end.

Section steps.
Context `{UuidText, SqlGuards, WallClock, PaymentGuards, Sha256Hex, TimeText, Secret.Aead}.
Context (UL : UuidTextLaws _).
Implicit Types (s : PSt) (p : PDB).

(** ** Rows of one order *)
Lemma known_rows p k o e : PInv p -> orders p !! k = Some o -> e ∈ ledger (books_db p) ->
  source_of e = SOrder (uuid_string k) -> exists x, x ∈ expected o /\ row_is (o_WalletID o) x e.
Proof.
  intros HP Hk He Hs. pose proof (oi_rows _ _ _ (pv_order _ HP _ _ Hk)) as Hr.
  assert (e ∈ rows_of (SOrder (uuid_string k)) (ledger (books_db p))) as Hin by (by apply elem_of_rows_of).
  apply list_elem_of_lookup in Hin as [i Hi]. eapply Forall2_lookup_r in Hi as (x & Hx & Hrow); [|exact Hr].
  exists x. split; [|done]. by eapply list_elem_of_lookup_2.
Qed.

Lemma ledger_row_inv o t amount i d : order_ledger_row o t amount i d = true ->
  exists e, e ∈ ledger d /\ le_ID e = i /\ o_WalletID o = Some (le_WalletID e)
    /\ order_entry t (o_ID o) amount e.
Proof.
  unfold order_ledger_row. intros (e & He & Hb)%existsb_exists. exists e.
  apply list_elem_of_In in He. bools.
  match goal with E : opt_uuid_eqb _ _ = true |- _ => apply opt_uuid_eqb_eq in E end.
  split_and!; try done.
Qed.

Lemma ledger_ok_owns o p w : order_ledger_ok o p = true -> o_WalletID o = Some w ->
  owns (books_db p) w (o_UserID o) (o_Currency o).
Proof.
  intros Hl Hw. unfold order_ledger_ok in Hl. rewrite Hw in Hl.
  destruct (wallets (books_db p) !! w) as [x|] eqn:Hx; [|done]. bools. by exists x.
Qed.

(** ** A change of an order that moves no money *)
Record plain (o o' : Order) : Prop := {
  pl_identity : order_identity o o';
  pl_merchant : o_MerchantID o = "" \/ o_MerchantID o' = o_MerchantID o;
  pl_mode : o_ProviderLiveMode o = None \/ o_ProviderLiveMode o' = o_ProviderLiveMode o;
  pl_money : same_money o o';
  pl_status : o_Status o' = o_Status o /\ o_FailureClass o' = o_FailureClass o
              \/ unpaid o = true /\ unpaid o' = true
                 /\ (o_Status o' = o_Status o \/ next_status (o_Status o) (o_Status o') = true)
}.

Lemma written_step O k o o' : written O k o o' -> order_identity o o' ->
  (o_MerchantID o = "" \/ o_MerchantID o' = o_MerchantID o) ->
  (o_ProviderLiveMode o = None \/ o_ProviderLiveMode o' = o_ProviderLiveMode o) ->
  (o_Status o' = o_Status o \/ next_status (o_Status o) (o_Status o') = true) -> order_step o o'.
Proof. intros [] ????. by constructor. Qed.

Lemma plain_move p p' k o o' : PInv p -> written (orders p) k o o' -> plain o o' ->
  p' = set_orders <[k := o']> p -> move p p'.
Proof.
  intros HP Hw [] ->. eapply mv_order; [|done|naive_solver|done]. constructor.
  - by apply Hw.
  - eapply written_step; [done..|]. naive_solver.
  - by apply Hw.
  - apply posts_refl, HP.
Qed.

Lemma update_keeps p0 s e k b f : PInv p0 -> rtc move p0 s.2 ->
  permanentPaymentEventError (e NoRows) = false ->
  (forall o, orders s.2 !! k = Some o -> order_check (f o) = true -> plain o (f o)) ->
  keeps_from p0 s (mapped_as e (update_order k b f)).
Proof.
  intros HP Hm He Hf s' r Hr Hl. destruct r as [o'|fl]; [|by destruct (brittle_mapped_as e _ He _ _ _ Hr)].
  apply mapped_as_ok in Hr. assert (PInv s.2) as HP1 by (by eapply PInv_moves).
  apply update_order_ok in Hr as (o & Hw & -> & -> & _); [|by apply PInv_keyed].
  eapply rtc_r; [exact Hm|]. eapply plain_move; [done|exact Hw| |done].
  apply Hf; [apply Hw|apply Hw].
Qed.

Lemma updated_row s k b f s' o' : PInv s.2 -> mapped (update_order k b f) s = (s', Ok o') ->
  exists o, orders s.2 !! k = Some o /\ o' = f o /\ orders s'.2 !! k = Some o' /\ o_ID o = k.
Proof.
  intros HP Hr%p_mapped_ok. apply update_order_ok in Hr as (o & Hw & -> & -> & _); [|by apply PInv_keyed].
  exists o. split_and!; [apply Hw|done|apply lookup_insert_eq|]. apply (PInv_keyed _ HP), Hw.
Qed.

Lemma TouchMaintenance_keeps p ids k now : PInv p -> keeps_from p (ids, p) (TouchMaintenance k now).
Proof.
  intros HP. unfold TouchMaintenance. apply keeps_when; [done|]. intros _.
  apply keeps_hard; [apply brittle_pread|]. intros s1 row [-> ->]%pread_ok. cbn [snd].
  destruct (orders p !! k) as [o|]; [|by apply keeps_refuse].
  destruct (one_of _ _); [|by apply keeps_refuse].
  eapply keeps_soft; [apply update_keeps; try done|intros ? ? _ ?; by apply keeps_ret].
  intros o1 _ _. plain_order. by left.
Qed.

Lemma loaded_order p ids k s1 o : mapped (loadOrderByID k) (ids, p) = (s1, Ok o) ->
  s1 = (ids, p) /\ orders p !! k = Some o.
Proof. intros Hl%p_mapped_ok%loadOrderByID_ok. naive_solver. Qed.

Lemma loaded_order_no p ids no s1 o : PInv p -> mapped (loadOrderByNo no) (ids, p) = (s1, Ok o) ->
  s1 = (ids, p) /\ orders p !! o_ID o = Some o.
Proof.
  intros HP Hl%p_mapped_ok. unfold loadOrderByNo in Hl. apply select_order_ok in Hl as (-> & k & Hk & _).
  split; [done|]. by rewrite (PInv_keyed _ HP _ _ Hk).
Qed.

Lemma loaded_operation s k t s1 op : mapped (loadProviderOperation k t) s = (s1, Ok op) -> s1 = s.
Proof. intros Hl%p_mapped_ok. unfold loadProviderOperation in Hl. by p_inv. Qed.

Lemma one_of_unpaid o l : one_of (o_Status o) l = true ->
  forallb (fun a => one_of a [StatusCreated; StatusPending; StatusFailed; StatusExpired; StatusClosed]) l
    = true -> unpaid o = true.
Proof.
  intros Ho Hl. unfold unpaid. unfold one_of in Ho. apply existsb_exists in Ho as (x & Hx & E%String.eqb_eq).
  rewrite E. by apply forallb_forall with (x := x) in Hl.
Qed.

(** A change between statuses without money. *)
Lemma unpaid_change o o' l :
  one_of (o_Status o) l = true ->
  forallb (fun a => one_of a [StatusCreated; StatusPending; StatusFailed; StatusExpired; StatusClosed]) l
    = true ->
  unpaid o' = true -> forallb (fun x => String.eqb (o_Status o') x || next_status x (o_Status o')) l = true ->
  o_Status o' = o_Status o /\ o_FailureClass o' = o_FailureClass o
  \/ unpaid o = true /\ unpaid o' = true
     /\ (o_Status o' = o_Status o \/ next_status (o_Status o) (o_Status o') = true).
Proof.
  intros Ho Hl Hu Hn. right. split_and!; [by eapply one_of_unpaid|done|].
  unfold one_of in Ho. apply existsb_exists in Ho as (x & Hx & E%String.eqb_eq).
  apply forallb_forall with (x := x) in Hn; [|done]. rewrite E. apply orb_true_iff in Hn as [Hn|Hn].
  - left. by apply String.eqb_eq in Hn.
  - by right.
Qed.

Lemma MarkClosed_keeps p ids input now : PInv p -> keeps_from p (ids, p) (MarkClosed input now).
Proof.
  intros HP. unfold MarkClosed. apply keeps_hard; [apply brittle_mapped|].
  intros s1 o [-> Hk]%loaded_order_no; [|done]. case_match; [by apply keeps_ret|].
  apply keeps_when; [done|]. intros Hs%negb_false_iff.
  eapply keeps_soft; [apply update_keeps; try done|].
  - intros o1 Ho1 _. assert (o1 = o) as -> by (simpl in Ho1; congruence).
    plain_order. eapply unpaid_change; done.
  - intros s1 o1 _ Hm. keeps_note. keeps_note. by apply keeps_ret.
Qed.

Lemma exec_keeps p0 s k b f : PInv p0 -> rtc move p0 s.2 ->
  (forall o, orders s.2 !! k = Some o -> order_check (f o) = true -> plain o (f o)) ->
  keeps_from p0 s (mapped (exec_update (update_order k b f))).
Proof.
  intros HP Hm Hf s' r Hr Hl. destruct r as [u|fl]; [|by destruct (brittle_mapped _ _ _ _ Hr)].
  apply p_mapped_ok, exec_update_ok in Hr as [[o' Hr]|Hr].
  - apply (update_keeps p0 s mapRepositoryError k b f HP Hm eq_refl Hf s' (Ok o')); [|done].
    unfold mapped_as. by rewrite Hr.
  - by apply update_order_missing in Hr as ->.
Qed.

Lemma MarkExpired_keeps p ids k now : PInv p -> keeps_from p (ids, p) (MarkExpired k now).
Proof.
  intros HP. unfold MarkExpired. apply keeps_hard; [apply brittle_mapped|].
  intros s1 o [-> Hk]%loaded_order. case_match eqn:Hc; [by apply keeps_ret|].
  apply orb_false_iff in Hc as [Hc%negb_false_iff _].
  rewrite (PInv_keyed _ HP _ _ Hk).
  eapply keeps_soft; [apply exec_keeps; try done|].
  - intros o1 Ho1 _. assert (o1 = o) as -> by (simpl in Ho1; congruence).
    plain_order. eapply unpaid_change; done.
  - intros s1 o1 _ Hm. keeps_note. keeps_note. by apply keeps_ret.
Qed.

Lemma keeps_new_id {B} p0 s (g : uuid -> ptx B) : rtc move p0 s.2 ->
  (forall s1 i, s1.2 = s.2 -> rtc move p0 s1.2 -> keeps_from p0 s1 (g i)) ->
  keeps_from p0 s (new_id ≫= g).
Proof.
  intros Hm Hg. apply keeps_hard; [apply brittle_new_id|]. intros s1 i Hi%p_new_id_ok.
  apply Hg; [done|by rewrite Hi].
Qed.

Lemma keeps_check p0 s b e : rtc move p0 s.2 -> keeps_from p0 s (p_when b e).
Proof. intros Hm s' r. unfold p_when, stx_when. intros [= <- _] _. done. Qed.

Lemma insert_absent_beside op s s' u : insert_operation_if_absent op s = (s', Ok u) ->
  beside s.2 s'.2.
Proof.
  intros Hm. unfold insert_operation_if_absent in Hm. p_inv.
  match goal with Hi : (if ?b then _ else _) _ = _ |- _ => destruct b end; p_inv; [apply beside_refl|].
  by eapply insert_operation_beside.
Qed.

Lemma ensure_keeps p0 s order t identity now : PInv p0 -> rtc move p0 s.2 ->
  keeps_from p0 s (ensureProviderOperation order t identity now).
Proof.
  intros HP Hm. unfold ensureProviderOperation.
  destruct (normalizeProviderIdentity identity); [|by apply keeps_refuse].
  apply keeps_when; [done|]. intros _. apply keeps_new_id; [done|]. intros s1 i _ Hm1.
  eapply keeps_beside; [done|done|done|apply brittle_mapped| |].
  - intros s2 u Hi%p_mapped_ok. by eapply insert_absent_beside.
  - intros s2 u _ _ Hm2. apply keeps_hard; [apply brittle_mapped|].
    intros s3 op ->%loaded_operation. by apply keeps_check.
Qed.

Lemma CreateOrder_keeps p ids input identity expiresAt now :
  co_AmountMinor input <= max_int64 -> PInv p ->
  keeps_from p (ids, p) (CreateOrder input identity expiresAt now).
Proof.
  intros Ha HP. unfold CreateOrder. apply keeps_hard; [apply brittle_optional|].
  intros s1 found Hf%optional_ok. destruct found as [o|].
  - apply select_order_ok in Hf as (-> & k & Hk & _). apply keeps_when; [done|]. intros _.
    eapply keeps_soft; [|intros s1 [] _ Hm; by apply keeps_ret].
    case_match; [by apply ensure_keeps|by apply keeps_ret].
  - assert (s1 = (ids, p)) as ->.
    { unfold loadOrderByIdempotency, select_order, pread, stx_gets, mbind, stx_mbind, prow, stx_lift in Hf.
      congruence. }
    apply keeps_hard; [apply brittle_mapped|]. intros s1 u Hu%p_mapped_ok.
    unfold select_user in Hu. p_inv.
    apply keeps_hard; [apply brittle_pread|]. intros s1 n [-> ->]%pread_ok.
    apply keeps_when; [done|]. intros _. apply keeps_new_id; [done|]. intros s1 i Es Hm1.
    apply keeps_hard; [apply brittle_mapped|]. intros s2 o Ho%p_mapped_ok.
    apply insert_order_ok in Ho as (-> & -> & Hk & Hc & Hap & _). rewrite Es in *.
    assert (rtc move p (set_orders <[i := new_order i input expiresAt now]> p)) as Hm2.
    { apply rtc_once. eapply mv_create; try done. apply posts_refl, HP. }
    keeps_note. eapply keeps_soft; [by apply ensure_keeps|intros ? [] _ ?; by apply keeps_ret].
Qed.

Lemma Claim_keeps p ids k t identity payload now : PInv p ->
  keeps_from p (ids, p) (ClaimProviderOperation k t identity payload now).
Proof.
  intros HP. unfold ClaimProviderOperation.
  destruct (normalizeProviderIdentity identity); [|by apply keeps_refuse].
  apply keeps_when; [done|]. intros _. apply keeps_hard; [apply brittle_mapped|].
  intros s1 o [-> Hk]%loaded_order. apply keeps_hard; [apply brittle_optional|].
  intros s1 found Hf%optional_ok.
  assert (s1 = (ids, p)) as ->.
  { unfold loadProviderOperation, pread, stx_gets, mbind, stx_mbind, prow, stx_lift in Hf.
    destruct found; congruence. }
  clear Hf. destruct found as [op|].
  - apply keeps_when; [done|]. intros _. case_match; [by apply keeps_ret|].
    apply keeps_new_id; [done|]. intros s1 owner _ Hm1.
    eapply keeps_beside; [done|done|done|apply brittle_mapped| |intros ? ? _ _ ?; by apply keeps_ret].
    intros s2 op2 Hu%p_mapped_ok. by eapply update_operation_beside.
  - apply keeps_new_id; [done|]. intros s1 owner _ Hm1. apply keeps_new_id; [done|]. intros s2 i _ Hm2.
    eapply keeps_beside; [done|done|done|apply brittle_mapped| |intros ? ? _ _ ?; by apply keeps_ret].
    intros s3 op2 Hu%p_mapped_ok. by eapply insert_operation_beside.
Qed.

Lemma keeps_lift {A B} p0 s (r : result error A) (g : A -> ptx B) : rtc move p0 s.2 ->
  (forall a, r = Ok a -> keeps_from p0 s (g a)) -> keeps_from p0 s (p_lift r ≫= g).
Proof.
  intros Hm Hg s' r'. unfold p_lift, stx_lift, mbind, stx_mbind. destruct r as [a|e]; simpl.
  - by apply Hg.
  - intros [= <- _] _. done.
Qed.

Lemma exec_operation_keeps {B} p0 s i f (g : unit -> ptx B) : PInv p0 -> rtc move p0 s.2 ->
  (forall s1, beside s.2 s1.2 -> rtc move p0 s1.2 -> keeps_from p0 s1 (g tt)) ->
  keeps_from p0 s (mapped (exec_update (update_operation i f)) ≫= g).
Proof.
  intros HP Hm Hg. eapply keeps_beside; [done|done|done|apply brittle_mapped| |].
  - intros s1 u. apply exec_operation_beside.
  - intros s1 [] _ Hb Hm1. by apply Hg.
Qed.

Lemma kept_or_empty a b : negb (String.eqb a "") && negb (String.eqb a b) = false -> a = "" \/ b = a.
Proof.
  intros Hc. apply andb_false_iff in Hc as [Hc|Hc]; apply negb_false_iff, String.eqb_eq in Hc; auto.
Qed.

Lemma CompleteCreate_keeps p ids k owner checkout now : PInv p ->
  keeps_from p (ids, p) (CompleteCreateOperation k owner checkout now).
Proof.
  intros HP. unfold CompleteCreateOperation. apply keeps_when; [done|]. intros _.
  apply keeps_lift; [done|]. intros ck _. apply keeps_hard; [apply brittle_mapped|].
  intros s1 o [-> Hk]%loaded_order. apply keeps_hard; [apply brittle_mapped|].
  intros s1 op ->%loaded_operation. do 4 (apply keeps_when; [done|]; intros ?).
  case_match; [by apply keeps_ret|]. do 2 (apply keeps_when; [done|]; intros ?).
  case_match eqn:Hpaid.
  { apply exec_operation_keeps; [done..|]. intros ? _ ?. by apply keeps_ret. }
  pose proof (PInv_keyed _ HP _ _ Hk) as Hid.
  eapply keeps_soft; [apply update_keeps; try done|].
  - rewrite Hid. intros o1 Ho1 _. same_order Ho1. constructor; [by split_and!| | |by split_and!|].
    + by apply kept_or_empty.
    + simpl. destruct (o_ProviderLiveMode o) as [b|]; [right|by left]. simpl in *.
      match goal with Hb : negb (Bool.eqb b _) = false |- _ =>
        apply negb_false_iff, eqb_prop in Hb; by rewrite Hb end.
    + apply (unpaid_change _ _ [StatusCreated; StatusPending]); try done.
      match goal with Ho : negb (one_of _ [_; _; _]) = false |- _ =>
        apply negb_false_iff in Ho; unfold one_of in *; simpl in *; rewrite Hpaid in Ho end.
      by rewrite orb_false_r in *.
  - intros s1 o1 _ Hm. keeps_note. by apply keeps_ret.
Qed.

Lemma FinishCreate_keeps p ids k owner class definitive now : PInv p ->
  keeps_from p (ids, p) (FinishCreateOperation k owner class definitive now).
Proof.
  intros HP. unfold FinishCreateOperation. apply keeps_when; [done|]. intros _.
  apply keeps_hard; [apply brittle_mapped|].
  intros s1 o [-> Hk]%loaded_order. apply keeps_hard; [apply brittle_mapped|].
  intros s1 op ->%loaded_operation. case_match; [by apply keeps_ret|].
  apply keeps_when; [done|]. intros _. apply exec_operation_keeps; [done..|].
  intros s1 [(EO & _) _] Hm. case_match eqn:Hc; [|by apply keeps_ret].
  apply andb_true_iff in Hc as [_ Hc%String.eqb_eq]. pose proof (PInv_keyed _ HP _ _ Hk) as Hid.
  eapply keeps_soft; [apply update_keeps; try done|].
  - rewrite Hid, EO. intros o1 Ho1 _. same_order Ho1. plain_order.
    apply (unpaid_change _ _ [StatusCreated]); try done. by rewrite Hc.
  - intros s2 o1 _ Hm2. keeps_note. by apply keeps_ret.
Qed.

Lemma CompleteRefund_keeps p ids k owner refundNo now : PInv p ->
  keeps_from p (ids, p) (CompleteRefundOperation k owner refundNo now).
Proof.
  intros HP. unfold CompleteRefundOperation. apply keeps_when; [done|]. intros _.
  apply keeps_hard; [apply brittle_mapped|].
  intros s1 o [-> Hk]%loaded_order. apply keeps_hard; [apply brittle_mapped|].
  intros s1 op ->%loaded_operation. case_match; [by apply keeps_ret|].
  do 3 (apply keeps_when; [done|]; intros ?).
  eapply keeps_soft; [apply update_keeps; try done|].
  - intros o1 _ _. plain_order. by left.
  - intros s1 o1 _ Hm. apply exec_operation_keeps; [done..|]. intros ? _ ?. by apply keeps_ret.
Qed.

End steps.
End PaymentSteps.
