(* ===== verification/PaymentMoney.v ===== *)
(** * The operations of [internal/payment] that post to the ledger

    Payment, refund hold, release and completion, external refunds, vouchers and
    manual recharges, and the transaction around a verified event. *)

From stdpp Require Import base gmap strings list relations.
From Stdlib Require Import ZArith Lia Ascii String.
From S2P Require Import Prelude GoLib Usage Pricing BillingModel Money Store StoreFacts.
From S2P Require Import BillingOps BillingService BillingInv BillingFacts BillingSteps.
From S2P Require Import BillingHistory BillingRows Coordinator Secret PaymentModel PaymentStore.
From S2P Require Import PaymentRepo PaymentEvents PaymentFunding PaymentMoves PaymentInv.
From S2P Require Import PaymentFacts PaymentSteps.

Module PaymentMoney.
Import Payment PaymentStore PaymentRepo PaymentEvents PaymentFunding BillingInv BillingHistory
  BillingRows PaymentMoves PaymentInv PaymentFacts PaymentSteps.
Import Store(DB, St, btx, SqlGuards, WallClock, wallets, reservations, settlements, liabilities,
  ledger, outbox, audit_logs, set_outbox).
Import Coordinator(Sha256Hex).
Import Billing(LedgerEntry, le_ID, le_WalletID, le_EntryType, le_AmountMinor, le_AvailableDelta,
  le_ReservedDelta, le_ReferenceType, le_ReferenceID, one_of, EntryRecharge, EntryGrant,
  EntryPaymentRefundHold, EntryPaymentReversal, EntryPaymentRefundRelease).
Import Usage(normalizeText).

Section money.
Context `{UuidText, SqlGuards, WallClock, PaymentGuards, Sha256Hex, TimeText, Secret.Aead}.
Context (UL : UuidTextLaws _).
Implicit Types (s : PSt) (p : PDB).

Definition order_type (t : string) : bool :=
  one_of t [EntryRecharge; EntryPaymentRefundHold; EntryPaymentReversal; EntryPaymentRefundRelease].

(** The ledger has no row of a type the order does not expect. *)
Lemma no_row p k o t amount e : PInv p -> orders p !! k = Some o -> order_type t = true ->
  (forall x, x ∈ expected o -> x.1.1 <> t) ->
  e ∈ ledger (books_db p) -> order_entry t k amount e -> False.
Proof.
  intros HP Hk Ht Hx He Hoe. assert (source_of e = SOrder (uuid_string k)) as Hs by (by eapply order_source).
  destruct (known_rows p k o e HP Hk He Hs) as (x & Hin & Ety & _). apply (Hx x Hin).
  destruct Hoe as (E & _). congruence.
Qed.

(** The wallet of an old row of the order. *)
Lemma row_wallet p k o t amount e : PInv p -> orders p !! k = Some o -> order_type t = true ->
  e ∈ ledger (books_db p) -> order_entry t k amount e -> o_WalletID o = Some (le_WalletID e).
Proof.
  intros HP Hk Ht He Hoe. assert (source_of e = SOrder (uuid_string k)) as Hs by (by eapply order_source).
  destruct (known_rows p k o e HP Hk He Hs) as (x & Hin & _ & _ & Hw & _). done.
Qed.

(** The wallet the server checked for the one new row. *)
Lemma new_row_wallet p k o o' d' e t amount i : PInv p -> orders p !! k = Some o ->
  order_type t = true -> (forall x, x ∈ expected o -> x.1.1 <> t) ->
  ledger d' = (ledger (books_db p) ++ [e])%list -> o_ID o' = k ->
  order_ledger_row o' t amount i d' = true -> o_WalletID o' = Some (le_WalletID e).
Proof.
  intros HP Hk Ht Hx HL Hid (x & Hin & _ & Hw & Hoe)%ledger_row_inv. rewrite Hid in Hoe.
  rewrite HL, elem_of_app, list_elem_of_singleton in Hin. destruct Hin as [Hin| ->]; [|done].
  exfalso. by eapply (no_row p k o).
Qed.

Lemma expected_unpaid o : phase o -> unpaid o = true -> expected o = [].
Proof. intros Hp Hu. destruct (phase_of_unpaid o Hp Hu) as (_ & E & _). unfold expected. by rewrite E. Qed.

Lemma expected_paid o r : o_RechargeLedgerID o = Some r -> o_RefundHoldLedgerID o = None ->
  expected o = [(EntryRecharge, o_AmountMinor o, Some r)].
Proof. intros E1 E2. unfold expected. by rewrite E1, E2. Qed.

Lemma expected_pending o : phase o -> o_Status o = StatusRefundPending ->
  exists r h, expected o = [(EntryRecharge, o_AmountMinor o, Some r);
                            (EntryPaymentRefundHold, o_AmountMinor o, Some h)].
Proof.
  intros Hp Hs. destruct (phase_of_pending o Hp Hs) as (_ & r & h & _ & E1 & E2 & _).
  exists r, h. unfold expected. by rewrite E1, E2, Hs.
Qed.

Ltac not_expected E :=
  rewrite E; intros ? Hin; rewrite ?elem_of_cons, ?elem_of_nil in Hin;
  repeat (destruct Hin as [->|Hin]; [done|]); done.

Lemma in_i64_amount p k o : PInv p -> orders p !! k = Some o -> in_i64 (o_AmountMinor o).
Proof.
  intros HP Hk. pose proof (oi_amount _ _ _ (pv_order _ HP _ _ Hk)). i64_unfold. lia.
Qed.

Lemma keeps_new_id_hard {B} p0 s (g : uuid -> ptx B) :
  (forall s1 i, s1.2 = s.2 -> keeps_from p0 s1 (g i)) -> keeps_from p0 s (new_id ≫= g).
Proof.
  intros Hg. apply keeps_hard; [apply brittle_new_id|]. intros s1 i Hi%p_new_id_ok. by apply Hg.
Qed.

(** ** [PrepareRefund] *)
Lemma hold_step p k o operator clock ids ids' d' e f s2 o' :
  PInv p -> orders p !! k = Some o -> o_Status o = StatusPaid -> o_FailureClass o = "" ->
  BillingService.HoldPaymentRefundInTx (refund_input o operator) clock (ids, books_db p)
    = Ok ((ids', d'), e) ->
  update_order k true f (ids', set_books d' p) = (s2, Ok o') ->
  order_identity o (f o) -> o_MerchantID (f o) = o_MerchantID o ->
  o_ProviderLiveMode (f o) = o_ProviderLiveMode o -> o_Status (f o) = StatusRefundPending ->
  o_WalletID (f o) = o_WalletID o -> o_RechargeLedgerID (f o) = o_RechargeLedgerID o ->
  o_RefundHoldLedgerID (f o) = Some (le_ID e) -> o_RefundLedgerID (f o) = o_RefundLedgerID o ->
  o_ExternalRefundedAmountMinor (f o) = o_ExternalRefundedAmountMinor o ->
  move p s2.2.
Proof.
  intros HP Hk Hs Hfc Hh Hu Hid Hmer Hmode Hs' E1 E2 E3 E4 E5.
  pose proof (pv_order _ HP _ _ Hk) as [Hkey _ _ Hph _ _ _].
  destruct (phase_of_paid _ Hph Hs) as (w & r & U1 & U2 & U4 & [U3|Hnf] & U5); [|done].
  pose proof (expected_paid _ _ U2 U3) as Hx.
  apply update_order_ok in Hu as (o1 & Hw & -> & -> & Hl); [|exact (PInv_keyed p HP)].
  assert (o1 = o) as -> by (pose proof (wr_row _ _ _ _ Hw) as E; simpl in E; congruence).
  specialize (Hl eq_refl). assert (o_ID (f o) = k) as Hid' by (destruct Hid as (-> & _); done).
  apply Hold_move in Hh; [|apply HP|by eapply in_i64_amount]. unfold refund_move in Hh. simpl in Hh. rewrite Hkey in Hh.
  destruct Hh as [(-> & He & Hoe)|(Hposts & Hoe & Hd & _)].
  { exfalso. by eapply (no_row p k o EntryPaymentRefundHold); [..|not_expected Hx| |]. }
  assert (o_WalletID (f o) = Some (le_WalletID e)) as Hwal.
  { eapply (new_row_wallet p k o (f o) d' e EntryPaymentRefundHold); [done|done|done|not_expected Hx| |done|].
    - apply Hposts.
    - unfold order_ledger_ok in Hl. rewrite E3 in Hl. bools. eassumption. }
  eapply (mv_hold p _ k o (f o) e); try done.
  - constructor; [done| |apply Hw|done]. eapply written_step; [exact Hw|done|by right|by right|right].
    by rewrite Hs, Hs'.
  - split_and!; [by rewrite Hkey|apply Hd|apply Hd|congruence].
Qed.

Lemma PrepareRefund_keeps p ids input identity now clock : PInv p ->
  keeps_from p (ids, p) (PrepareRefund input identity now clock).
Proof.
  intros HP. unfold PrepareRefund. apply keeps_hard; [apply brittle_mapped|].
  intros s1 o [-> Hk]%loaded_order_no; [|done]. apply keeps_when; [done|]. intros _.
  case_match.
  { eapply keeps_soft; [|intros s1 [] _ Hm; by apply keeps_ret].
    case_match; [by apply ensure_keeps|by apply keeps_ret]. }
  do 2 (apply keeps_when; [done|]; intros ?). bools.
  apply keeps_hard; [apply brittle_inner_as|]. intros s1 e (ids' & d' & Hh & ->)%inner_as_ok.
  apply keeps_hard; [apply brittle_mapped|]. intros s2 o' Hu%p_mapped_ok.
  assert (rtc move p s2.2) as Hm.
  { apply rtc_once. eapply hold_step; try done. }
  keeps_note. keeps_note. eapply keeps_soft; [by apply ensure_keeps|intros ? [] _ ?; by apply keeps_ret].
Qed.

(** ** The end of a refund *)
Lemma release_step p k o operator clock ids ids' d' e f s2 o' :
  PInv p -> orders p !! k = Some o -> o_Status o = StatusRefundPending ->
  BillingService.ReleasePaymentRefundInTx (refund_input o operator) clock (ids, books_db p)
    = Ok ((ids', d'), e) ->
  update_order k true f (ids', set_books d' p) = (s2, Ok o') ->
  order_identity o (f o) -> (o_MerchantID o = "" \/ o_MerchantID (f o) = o_MerchantID o) ->
  (o_ProviderLiveMode o = None \/ o_ProviderLiveMode (f o) = o_ProviderLiveMode o) ->
  o_Status (f o) = StatusPaid -> o_FailureClass (f o) <> "" -> same_money o (f o) -> move p s2.2.
Proof.
  intros HP Hk Hs Hh Hu Hid Hmer Hmode Hs' Hfc Hsm.
  pose proof (pv_order _ HP _ _ Hk) as [Hkey _ _ Hph _ _ _].
  destruct (expected_pending _ Hph Hs) as (r & h & Hx).
  apply update_order_ok in Hu as (o1 & Hw & -> & -> & _); [|exact (PInv_keyed p HP)].
  assert (o1 = o) as -> by (pose proof (wr_row _ _ _ _ Hw) as E; simpl in E; congruence).
  apply Release_move in Hh; [|apply HP|by eapply in_i64_amount].
  unfold refund_move in Hh. simpl in Hh. rewrite Hkey in Hh.
  destruct Hh as [(-> & He & Hoe)|(Hposts & Hoe & Hd & Hheld)].
  { exfalso. by eapply (no_row p k o EntryPaymentRefundRelease); [..|not_expected Hx| |]. }
  destruct (Hheld eq_refl) as (x & Hxin & Hxw & Hxo).
  eapply (mv_unhold p _ k o (f o) e); try done.
  - constructor; [done| |apply Hw|done]. eapply written_step; [exact Hw|done|done|done|right].
    by rewrite Hs, Hs'.
  - split_and!; [by rewrite Hkey|apply Hd|apply Hd|]. rewrite <- Hxw.
    by apply (row_wallet p k o _ _ x HP Hk (eq_refl : order_type EntryPaymentRefundHold = true) Hxin Hxo).
Qed.

Lemma reversal_step p k o operator clock ids ids' d' e f s2 o' :
  PInv p -> orders p !! k = Some o -> o_Status o = StatusRefundPending ->
  BillingService.CompletePaymentRefundInTx (refund_input o operator) clock (ids, books_db p)
    = Ok ((ids', d'), e) ->
  update_order k true f (ids', set_books d' p) = (s2, Ok o') ->
  order_identity o (f o) -> (o_MerchantID o = "" \/ o_MerchantID (f o) = o_MerchantID o) ->
  (o_ProviderLiveMode o = None \/ o_ProviderLiveMode (f o) = o_ProviderLiveMode o) ->
  o_Status (f o) = StatusRefunded ->
  o_WalletID (f o) = o_WalletID o -> o_RechargeLedgerID (f o) = o_RechargeLedgerID o ->
  o_RefundHoldLedgerID (f o) = o_RefundHoldLedgerID o -> o_RefundLedgerID (f o) = Some (le_ID e) ->
  o_ExternalRefundedAmountMinor (f o) = o_ExternalRefundedAmountMinor o -> move p s2.2.
Proof.
  intros HP Hk Hs Hh Hu Hid Hmer Hmode Hs' E1 E2 E3 E4 E5.
  pose proof (pv_order _ HP _ _ Hk) as [Hkey _ _ Hph _ _ _].
  destruct (expected_pending _ Hph Hs) as (r & h & Hx).
  apply update_order_ok in Hu as (o1 & Hw & -> & -> & _); [|exact (PInv_keyed p HP)].
  assert (o1 = o) as -> by (pose proof (wr_row _ _ _ _ Hw) as E; simpl in E; congruence).
  apply Complete_move in Hh; [|apply HP|by eapply in_i64_amount].
  unfold refund_move in Hh. simpl in Hh. rewrite Hkey in Hh.
  destruct Hh as [(-> & He & Hoe)|(Hposts & Hoe & Hd & Hheld)].
  { exfalso. by eapply (no_row p k o EntryPaymentReversal); [..|not_expected Hx| |]. }
  destruct (Hheld eq_refl) as (x & Hxin & Hxw & Hxo).
  eapply (mv_refund p _ k o (f o) e); try done.
  - constructor; [done| |apply Hw|done]. eapply written_step; [exact Hw|done|done|done|right].
    by rewrite Hs, Hs'.
  - split_and!; [by rewrite Hkey|apply Hd|apply Hd|]. rewrite <- Hxw.
    by apply (row_wallet p k o _ _ x HP Hk (eq_refl : order_type EntryPaymentRefundHold = true) Hxin Hxo).
Qed.

Lemma FinishRefund_keeps p ids k owner class definitive now clock : PInv p ->
  keeps_from p (ids, p) (FinishRefundOperation k owner class definitive now clock).
Proof.
  intros HP. unfold FinishRefundOperation. apply keeps_when; [done|]. intros Hc.
  apply keeps_hard; [apply brittle_mapped|].
  intros s1 o [-> Hk]%loaded_order. apply keeps_hard; [apply brittle_mapped|].
  intros s1 op ->%loaded_operation. case_match; [by apply keeps_ret|].
  apply keeps_when; [done|]. intros _. case_match.
  { apply exec_operation_keeps; [done..|]. intros ? _ ?. by apply keeps_ret. }
  destruct (o_UpdatedBy o) as [operator|]; [|by apply keeps_refuse].
  apply keeps_when; [done|]. intros ?. bools. rewrite (PInv_keyed _ HP _ _ Hk).
  apply keeps_hard; [apply brittle_inner|]. intros s1 e (ids' & d' & Hh & ->)%inner_ok.
  apply keeps_hard; [apply brittle_mapped|]. intros s2 o' Hu%p_mapped_ok.
  assert (rtc move p s2.2) as Hm.
  { apply rtc_once. eapply release_step; try done; by right. }
  apply exec_operation_keeps; [done..|]. intros s3 _ Hm3. keeps_note. by apply keeps_ret.
Qed.

(** ** A payment *)
Lemma normalized_credit input n : Billing.normalizeCreditInput input = Ok n ->
  Billing.cr_UserID n = Billing.cr_UserID input
  /\ Billing.cr_Currency n = Billing.normalizeCurrency (Billing.cr_Currency input)
  /\ Billing.cr_EntryType n = Billing.cr_EntryType input
  /\ Billing.cr_AmountMinor n = Billing.cr_AmountMinor input
  /\ Billing.cr_ReferenceType n = normalizeText (Billing.cr_ReferenceType input) 64
  /\ Billing.cr_ReferenceID n = normalizeText (Billing.cr_ReferenceID input) 160
  /\ Billing.cr_IdempotencyKey n = normalizeText (Billing.cr_IdempotencyKey input) 160
  /\ Billing.cr_ReferenceID n <> "".
Proof.
  unfold Billing.normalizeCreditInput. intros Hn. repeat case_match; try done;
    injection Hn as <-; simpl; bools; split_and!; done.
Qed.

(** The reference of a credit for an identified row. *)
Lemma credit_reference input n u : Billing.normalizeCreditInput input = Ok n ->
  Billing.cr_ReferenceID input = uuid_string u -> Billing.cr_ReferenceID n = uuid_string u.
Proof.
  intros Hn Hu. destruct (normalized_credit _ _ Hn) as (_ & _ & _ & _ & _ & E & _ & Hne).
  rewrite E, Hu in *. apply normalizeText_printable; [by apply uuid_printable|done].
Qed.

Lemma pay_step p k o clock ids ids' d' e f s2 o' :
  PInv p -> orders p !! k = Some o -> one_of (o_Status o) [StatusCreated; StatusPending] = true ->
  BillingService.Service_Credit (recharge_input o) clock (ids, books_db p) = Ok ((ids', d'), e) ->
  update_order k true f (ids', set_books d' p) = (s2, Ok o') ->
  order_identity o (f o) -> (o_MerchantID o = "" \/ o_MerchantID (f o) = o_MerchantID o) ->
  (o_ProviderLiveMode o = None \/ o_ProviderLiveMode (f o) = o_ProviderLiveMode o) ->
  o_Status (f o) = StatusPaid -> o_WalletID (f o) = Some (le_WalletID e) ->
  o_RechargeLedgerID (f o) = Some (le_ID e) ->
  o_RefundHoldLedgerID (f o) = o_RefundHoldLedgerID o -> o_RefundLedgerID (f o) = o_RefundLedgerID o ->
  o_ExternalRefundedAmountMinor (f o) = o_ExternalRefundedAmountMinor o -> move p s2.2.
Proof.
  intros HP Hk Hs Hh Hu Hid Hmer Hmode Hs' E1 E2 E3 E4 E5.
  pose proof (pv_order _ HP _ _ Hk) as [Hkey _ _ Hph _ _ _].
  assert (unpaid o = true) as Hun by (by eapply one_of_unpaid).
  pose proof (expected_unpaid _ Hph Hun) as Hx.
  apply update_order_ok in Hu as (o1 & Hw & -> & -> & Hl); [|exact (PInv_keyed p HP)].
  assert (o1 = o) as -> by (pose proof (wr_row _ _ _ _ Hw) as E; simpl in E; congruence).
  specialize (Hl eq_refl). pose proof (ledger_ok_owns _ _ _ Hl E1) as Ho. simpl in Ho.
  destruct Hid as (I1 & I2 & I3 & I4 & I5 & Irest). rewrite I3, I5 in Ho.
  apply posts_Credit in Hh as (n & Hn & Hh); [|by eapply in_i64_amount|apply HP].
  destruct (normalized_credit _ _ Hn) as (N1 & N2 & N3 & N4 & N5 & _).
  pose proof (credit_reference _ _ _ Hn eq_refl) as N6. simpl in N3, N4, N5.
  assert (forall x, le_EntryType x = EntryRecharge -> le_AmountMinor x = o_AmountMinor o ->
            le_ReferenceType x = "payment_order" -> le_ReferenceID x = uuid_string (o_ID o) ->
            order_entry EntryRecharge k (o_AmountMinor o) x) as Hoe.
  { intros x R1 R2 R3 R4. rewrite <- Hkey. by split_and!. }
  destruct Hh as [(_ & He & Hr & _)|(es & Hposts & Hq & (R1 & R2 & R3 & R4 & _) & D1 & D2 & _ & _)].
  { exfalso. apply credit_replays_row in Hr as (R1 & R2 & R3 & R4). rewrite N3 in R1. rewrite N4 in R2.
    rewrite N5 in R3. rewrite N6 in R4.
    by eapply (no_row p k o EntryRecharge); [..|not_expected Hx|exact He|by apply Hoe]. }
  rewrite N3 in R1. rewrite N4 in R2. rewrite N5 in R3. rewrite N6 in R4. simpl in *.
  eapply (mv_pay p _ k o (f o) e es); try done.
  - constructor; [done| |apply Hw|done]. eapply written_step; [exact Hw| |done|done|right].
    + split_and!; try done; apply Irest.
    + rewrite Hs'. unfold one_of in Hs. simpl in Hs. rewrite orb_false_r in Hs.
      apply orb_true_iff in Hs as [->%String.eqb_eq| ->%String.eqb_eq]; done.
  - split_and!; [rewrite Hkey; by apply Hoe|congruence|done|done].
Qed.

(** ** What an event does to its order *)
Lemma attach_identity_merchant event o :
  o_MerchantID o = "" \/ o_MerchantID (attach_identity event o) = o_MerchantID o.
Proof. simpl. unfold coalesce. destruct (String.eqb_spec (o_MerchantID o) ""); auto. Qed.

Lemma attach_identity_mode event o :
  o_ProviderLiveMode o = None \/ o_ProviderLiveMode (attach_identity event o) = o_ProviderLiveMode o.
Proof. simpl. destruct (o_ProviderLiveMode o); auto. Qed.

Section events.
Context (p : PDB) (order : Order) (event : VerifiedEvent) (now clock : time) (ids : list uuid).
Context (HP : PInv p) (Hk : orders p !! o_ID order = Some order).
Context (Hamount : in_i64 (ve_AmountMinor event)).

Ltac the_order := intros o1 Ho1 _; same_order Ho1.

Lemma apply_pending_keeps : keeps_from p (ids, p) (apply_pending order event now).
Proof.
  unfold apply_pending. case_match.
  - case_match; [by apply keeps_ret|]. apply update_keeps; try done. the_order. plain_order. by left.
  - case_match; [by apply keeps_ret|]. apply keeps_when; [done|]. intros Hs%negb_false_iff.
    apply update_keeps; try done. the_order.
    constructor; [by split_and!|apply attach_identity_merchant|apply attach_identity_mode|by split_and!|].
    by apply (unpaid_change _ _ [StatusCreated; StatusPending]).
Qed.

Lemma apply_paid_keeps : keeps_from p (ids, p) (apply_paid order event now clock).
Proof.
  unfold apply_paid. case_match; [by apply keeps_ret|].
  apply keeps_when; [done|]. intros Hs%negb_false_iff. apply keeps_when; [done|]. intros _.
  apply keeps_hard; [apply brittle_inner|]. intros s1 e (ids' & d' & Hh & ->)%inner_ok.
  apply keeps_hard; [apply brittle_mapped|]. intros s2 o' Hu%p_mapped_ok.
  assert (rtc move p s2.2) as Hm.
  { apply rtc_once. eapply pay_step; try done; [apply attach_identity_merchant|apply attach_identity_mode]. }
  keeps_note. by apply keeps_ret.
Qed.

Lemma terminal_keeps target class :
  one_of target [StatusFailed; StatusExpired; StatusClosed] = true ->
  keeps_from p (ids, p) (transitionProviderTerminal order target class event now).
Proof.
  intros Ht. unfold transitionProviderTerminal. case_match; [by apply keeps_ret|].
  apply keeps_when; [done|]. intros Hs%negb_false_iff.
  eapply keeps_soft; [apply update_keeps; try done|].
  - the_order.
    constructor; [by split_and!|apply attach_identity_merchant|apply attach_identity_mode|by split_and!|].
    unfold one_of in Ht. cbn [existsb] in Ht. rewrite orb_false_r in Ht.
    apply orb_true_iff in Hs as [Hs|[E Hs]%andb_true_iff].
    + apply (unpaid_change _ _ [StatusCreated; StatusPending]); try done;
        apply orb_true_iff in Ht as [->%String.eqb_eq|[->%String.eqb_eq| ->%String.eqb_eq]%orb_true_iff]; done.
    + apply String.eqb_eq in E as ->. by apply (unpaid_change _ _ [StatusFailed; StatusExpired]).
  - intros s1 o1 _ Hm. keeps_note. by apply keeps_ret.
Qed.

Lemma external_keeps : o_Status order = StatusPaid -> o_RefundHoldLedgerID order = None ->
  keeps_from p (ids, p) (applyExternalRefund order event now clock).
Proof.
  intros Hs Hho. unfold applyExternalRefund. apply keeps_when; [done|]. intros _.
  apply keeps_hard; [apply brittle_optional|]. intros s1 found Hf%optional_ok.
  assert (s1 = (ids, p)) as ->.
  { unfold loadExternalRefund, pread, stx_gets, mbind, stx_mbind, prow, stx_lift in Hf.
    destruct found; congruence. }
  clear Hf. destruct found as [x|]; [apply keeps_when; [done|]; intros _; by apply keeps_ret|].
  apply keeps_when; [done|]. intros Hle. bools.
  pose proof (pv_order _ HP _ _ Hk) as [Hkey _ Ha Hph _ _ _].
  destruct (phase_of_paid _ Hph Hs) as (w & r & U1 & U2 & U4 & _ & U5).
  apply keeps_hard; [apply brittle_inner|]. intros s1 l (ids' & d' & Hl & ->)%inner_ok.
  apply posts_OpenLiability in Hl as ((es & Hposts & Hq) & HPr & (l' & Hl' & HPr')); [|done|apply HP].
  simpl in HPr, Hl', Hposts.
  apply keeps_new_id_hard. intros s1 i Es1.
  match goal with |- context [insert_external_refund ?y] => set (x := y) end.
  apply keeps_hard; [apply brittle_mapped|]. intros s2 u Hx%p_mapped_ok.
  apply insert_external_ok in Hx as (-> & Hxf & Hxa & Hxu). rewrite Es1 in *. simpl in Hxf, Hxa, Hxu.
  apply keeps_hard; [apply brittle_mapped|]. intros s2 o' Hu%p_mapped_ok.
  apply update_order_ok in Hu as (o1 & Hw & -> & -> & _); [|exact (PInv_keyed p HP)].
  assert (o1 = order) as -> by (pose proof (wr_row _ _ _ _ Hw) as E; simpl in E; congruence).
  assert (i64_sub (o_AmountMinor order) (ve_AmountMinor event)
          = o_AmountMinor order - ve_AmountMinor event) as Hsub by (apply i64_sub_id; i64_unfold; lia).
  rewrite Hsub in *.
  assert (i64_add (o_ExternalRefundedAmountMinor order) (ve_AmountMinor event)
          = o_ExternalRefundedAmountMinor order + ve_AmountMinor event) as Hadd
    by (apply i64_add_id; i64_unfold; lia).
  rewrite Hadd in *.
  match type of Hw with written _ _ _ ?o => set (o2 := o) in * end.
  match goal with |- keeps_from _ ?s _ => assert (rtc move p s.2) as Hm end.
  { apply rtc_once. eapply (mv_external p _ (o_ID order) order o2 x es); try done.
    - constructor; [done| |apply Hw|done]. eapply written_step; [exact Hw|by split_and!|by right|by right|].
      unfold o2. simpl. rewrite Hs. case_match; [by right|by left].
    - exists l'. split; [done|]. by rewrite HPr', HPr.
    - intros y z Hy. by apply Hxu in Hy as [_ ?].
    - unfold o2. simpl. lia.
    - unfold o2. simpl. by rewrite Hs. }
  keeps_note. by apply keeps_ret.
Qed.

Lemma apply_refunded_keeps : keeps_from p (ids, p) (apply_refunded order event now clock).
Proof.
  unfold apply_refunded. case_match eqn:Hc.
  { bools. apply external_keeps; [done|]. by destruct (o_RefundHoldLedgerID order). }
  case_match; [by apply keeps_ret|]. destruct (o_UpdatedBy order) as [operator|]; [|by apply keeps_refuse].
  apply keeps_when; [done|]. intros Hs. bools.
  apply keeps_hard; [apply brittle_inner|]. intros s1 e (ids' & d' & Hh & ->)%inner_ok.
  apply keeps_hard; [apply brittle_mapped|]. intros s2 o' Hu%p_mapped_ok.
  assert (rtc move p s2.2) as Hm.
  { apply rtc_once.
    eapply reversal_step; try done; [apply attach_identity_merchant|apply attach_identity_mode]. }
  keeps_note. by apply keeps_ret.
Qed.

Lemma apply_refund_failed_keeps : keeps_from p (ids, p) (apply_refund_failed order event now clock).
Proof.
  unfold apply_refund_failed. case_match; [by apply keeps_ret|].
  destruct (o_UpdatedBy order) as [operator|]; [|by apply keeps_refuse].
  apply keeps_when; [done|]. intros Hs. bools.
  apply keeps_hard; [apply brittle_inner|]. intros s1 e (ids' & d' & Hh & ->)%inner_ok.
  apply keeps_hard; [apply brittle_mapped|]. intros s2 o' Hu%p_mapped_ok.
  assert (rtc move p s2.2) as Hm.
  { apply rtc_once.
    eapply release_step; try done; [apply attach_identity_merchant|apply attach_identity_mode]. }
  keeps_note. by apply keeps_ret.
Qed.

Lemma quiet_books p1 d' : PInv p1 -> (exists es, posts (books_db p1) d' es /\ Forall quiet es) ->
  move p1 (set_books d' p1).
Proof. intros _ (es & Hp & Hq). by eapply mv_quiet. Qed.

Lemma dispute_open_keeps : keeps_from p (ids, p) (load_or_open_dispute order event now clock).
Proof.
  unfold load_or_open_dispute. apply keeps_hard; [apply brittle_optional|]. intros s1 found Hf%optional_ok.
  assert (s1 = (ids, p)) as ->.
  { unfold loadPaymentDispute, pread, stx_gets, mbind, stx_mbind, prow, stx_lift in Hf.
    destruct found; congruence. }
  clear Hf. destruct found as [x|]; [apply keeps_when; [done|]; intros _; by apply keeps_ret|].
  apply keeps_hard; [apply brittle_inner|]. intros s1 l (ids' & d' & Hl & ->)%inner_ok.
  apply posts_OpenLiability in Hl as (Hq & _); [|done|apply HP].
  assert (rtc move p (set_books d' p)) as Hm by (by apply rtc_once, quiet_books).
  apply keeps_new_id; [done|]. intros s1 i _ Hm1.
  eapply keeps_beside; [done|done|done|apply brittle_mapped| |intros ? ? _ _ ?; by apply keeps_ret].
  intros s2 u Hx%p_mapped_ok. by eapply insert_dispute_beside.
Qed.

Lemma reverse_keeps p1 s1 i : rtc move p p1 -> s1.2 = p1 ->
  keeps_from p s1 (inner (BillingService.Service_ReverseLiability i clock);; mret tt).
Proof.
  destruct s1 as [ids1 p2]. simpl. intros Hm ->. assert (PInv p1) as HP1 by (by eapply PInv_moves).
  apply keeps_hard; [apply brittle_inner|]. intros s2 v (ids' & d' & Hr & ->)%inner_ok.
  apply posts_ReverseLiability in Hr; [|apply HP1]. apply keeps_ret.
  eapply rtc_r; [exact Hm|]. by apply quiet_books.
Qed.

Lemma dispute_keeps : keeps_from p (ids, p) (applyDisputeEvent order event now clock).
Proof.
  unfold applyDisputeEvent. apply keeps_when; [done|]. intros _.
  apply keeps_soft; [apply dispute_open_keeps|]. intros s1 x _ Hm1.
  case_match; [by apply keeps_ret|]. apply keeps_when; [done|]. intros _.
  apply keeps_soft.
  { case_match; [by eapply reverse_keeps|by apply keeps_ret]. }
  intros s2 [] _ Hm2. apply keeps_soft.
  { case_match; [|by apply keeps_ret]. intros s3 r Hr Hl.
    destruct r as [u|f]; [|by destruct (brittle_mapped _ _ _ _ Hr)].
    apply p_mapped_ok, resolve_dispute_beside in Hr. eapply rtc_r; [exact Hm2|].
    apply beside_move; [by eapply PInv_moves|done]. }
  intros s3 [] _ Hm3. keeps_note. by apply keeps_ret.
Qed.

Lemma apply_event_keeps : keeps_from p (ids, p) (applyVerifiedEvent order event now clock).
Proof.
  unfold applyVerifiedEvent. repeat case_match.
  - apply apply_pending_keeps.
  - apply apply_paid_keeps.
  - by apply terminal_keeps.
  - by apply terminal_keeps.
  - by apply terminal_keeps.
  - apply apply_refunded_keeps.
  - apply apply_refund_failed_keeps.
  - apply dispute_keeps.
  - by apply keeps_refuse.
Qed.

End events.
(** ** The transaction of an event *)
Lemma complete_event_keeps p0 s k event now : PInv p0 -> rtc move p0 s.2 ->
  keeps_from p0 s (completeProviderOperationFromEvent k event now).
Proof.
  intros HP Hm. unfold completeProviderOperationFromEvent.
  destruct (if String.eqb (ve_ProviderRefundNo event) "" then _ else _) as [t ref].
  apply keeps_hard; [apply brittle_pread|]. intros s1 row [-> ->]%pread_ok.
  destruct (map_find _ _) as [op|]; [|by apply keeps_ret].
  apply keeps_when; [done|]. intros _.
  eapply keeps_beside; [done|done|done|apply brittle_mapped| |intros ? ? _ _ ?; by apply keeps_ret].
  intros s2 a Ha%p_mapped_ok. by eapply update_operation_beside.
Qed.

Lemma apply_and_complete_keeps p ids order event now clock : PInv p ->
  orders p !! o_ID order = Some order -> in_i64 (ve_AmountMinor event) ->
  keeps_from p (ids, p) (apply_and_complete order event now clock).
Proof.
  intros HP Hk Ha. unfold apply_and_complete. apply keeps_soft; [by apply apply_event_keeps|].
  intros s1 o _ Hm. apply keeps_soft.
  { case_match; [by apply keeps_ret|by apply complete_event_keeps]. }
  intros s2 [] _ Hm2. by apply keeps_ret.
Qed.

Lemma processing_keeps {B} p0 s i status class (g : unit -> ptx B) : PInv p0 -> rtc move p0 s.2 ->
  (forall s1, rtc move p0 s1.2 -> keeps_from p0 s1 (g tt)) ->
  keeps_from p0 s (mapped (update_processing i status class) ≫= g).
Proof.
  intros HP Hm Hg. eapply keeps_beside; [done|done|done|apply brittle_mapped| |].
  - intros s1 u Hu%p_mapped_ok. by eapply update_processing_beside.
  - intros s1 [] _ _ Hm1. by apply Hg.
Qed.

Lemma reject_keeps p0 s i provider requestID class now : PInv p0 -> rtc move p0 s.2 ->
  keeps_from p0 s (rejectVerifiedEvent i provider requestID class now).
Proof.
  intros HP Hm. unfold rejectVerifiedEvent. apply processing_keeps; [done..|]. intros s1 Hm1 s' r Hr Hl.
  destruct r as [u|f]; [|by destruct (brittle_audit _ _ _ _ Hr)].
  apply audit_beside in Hr. eapply rtc_r; [exact Hm1|].
  apply beside_move; [by eapply PInv_moves|done].
Qed.

Lemma settle_keeps p0 s m i provider requestID t order now : PInv p0 -> keeps_from p0 s m ->
  keeps_from p0 s (settle_outcome m i provider requestID t order now).
Proof.
  intros HP Hk s' r. unfold settle_outcome. destruct (m s) as [s1 [o|f]] eqn:Hm.
  - assert (rtc move p0 s1.2) as Hm1 by (by apply (Hk _ _ Hm)). revert s' r.
    change (keeps_from p0 s1 (mapped (update_processing i ProcessingProcessed "");;
      audit (order_audit None ("payment.webhook." +:+ t) (o_ID order) requestID);;
      mret (o, None : option error))).
    apply processing_keeps; [done..|]. intros s2 Hm2. keeps_note. by apply keeps_ret.
  - destruct (permanentPaymentEventError (f_error f)) eqn:Hp; simpl.
    + destruct (f_aborted f) eqn:Ha; [by intros [= <- <-] []|].
      assert (rtc move p0 s1.2) as Hm1 by (by apply (Hk _ _ Hm)). revert s' r.
      change (keeps_from p0 s1 (rejectVerifiedEvent i provider requestID
        (paymentErrorClass (f_error f)) now;; mret (order, Some (f_error f)))).
      apply keeps_soft; [by apply reject_keeps|]. intros s2 [] _ Hm2. by apply keeps_ret.
    + intros [= <- <-] [_ Hs]. congruence.
Qed.

Lemma keeps_rebase {A} p0 p1 ids (m : ptx A) : rtc move p0 p1 -> keeps_from p1 (ids, p1) m ->
  keeps_from p0 (ids, p1) m.
Proof. intros Hm Hk s' r Hr Hl. etrans; [exact Hm|]. by eapply Hk. Qed.

Lemma attach_ids_keeps p ids order event now : PInv p -> orders p !! o_ID order = Some order ->
  keeps_from p (ids, p) (attachProviderIdentifiers order event now).
Proof.
  intros HP Hk. unfold attachProviderIdentifiers. apply keeps_when; [done|]. intros _.
  case_match; [by apply keeps_ret|]. apply update_keeps; try done.
  intros o1 Ho1 _. same_order Ho1. plain_order. by left.
Qed.

Lemma attach_ids_row p ids order event now s1 o1 : PInv p -> orders p !! o_ID order = Some order ->
  attachProviderIdentifiers order event now (ids, p) = (s1, Ok o1) -> orders s1.2 !! o_ID o1 = Some o1.
Proof.
  intros HP Hk Hr. unfold attachProviderIdentifiers in Hr. p_inv. case_match; p_inv; [done|].
  apply mapped_as_ok, update_order_ok in Hr as (o & Hw & -> & -> & _); [|exact (PInv_keyed p HP)].
  apply wr_row in Hw. simpl in Hw. assert (o = order) as -> by congruence. apply lookup_insert_eq.
Qed.

Lemma first_row_Some {A} (qs : list (PDB -> option A)) p a : first_row qs p = Some a ->
  exists q, q ∈ qs /\ q p = Some a.
Proof.
  induction qs as [|q qs IH]; simpl; [done|]. destruct (q p) eqn:Hq.
  - intros [= ->]. exists q. split; [by left|done].
  - intros (q' & Hin & Hq')%IH. exists q'. split; [by right|done].
Qed.

Lemma found_order p provider event o : find_order_for_event provider event p = Some o ->
  exists k, orders p !! k = Some o.
Proof.
  intros (q & Hin & Hq)%first_row_Some.
  rewrite !elem_of_cons, elem_of_nil in Hin.
  assert (forall x, order_where x p = Some o -> exists k, orders p !! k = Some o) as Hf.
  { intros x (k & Hk & _)%map_find_Some. by exists k. }
  destruct Hin as [->|[->|[->|[->|[]]]]]; unfold provider_lookup in Hq; case_match; try done; by eapply Hf.
Qed.

Lemma process_recorded_keeps p ids i provider requestID found event receivedAt clock : PInv p ->
  (forall o, found = Some o -> orders p !! o_ID o = Some o) -> in_i64 (ve_AmountMinor event) ->
  keeps_from p (ids, p) (process_recorded i provider requestID found event receivedAt clock).
Proof.
  intros HP Hf Ha. unfold process_recorded. destruct found as [order|].
  - case_match.
    { apply keeps_soft; [by apply reject_keeps|]. intros s1 [] _ Hm. by apply keeps_ret. }
    specialize (Hf order eq_refl). apply keeps_soft; [by apply attach_ids_keeps|].
    intros [ids1 p1] o1 Ho1 Hm1. apply attach_ids_row in Ho1; [|done..]. simpl in Ho1, Hm1.
    apply keeps_soft.
    { apply settle_keeps; [done|]. apply keeps_rebase; [done|].
      apply apply_and_complete_keeps; [by eapply PInv_moves|done..]. }
    intros s2 [shown e] _ Hm2. by apply keeps_ret.
  - apply keeps_soft; [by apply reject_keeps|]. intros s1 [] _ Hm. by apply keeps_ret.
Qed.

Lemma replay_keeps p0 s x event hash source verified : rtc move p0 s.2 ->
  keeps_from p0 s (replay x event hash source verified).
Proof.
  intros Hm. unfold replay. apply keeps_when; [done|]. intros _.
  apply keeps_hard; [apply brittle_pread|]. intros s1 r [-> ->]%pread_ok. by apply keeps_ret.
Qed.

Lemma process_keeps p ids provider event hash source verified requestID receivedAt clock : PInv p ->
  in_i64 (ve_AmountMinor event) ->
  keeps_from p (ids, p) (processAuthenticatedEvent provider event hash source verified requestID
                           receivedAt clock).
Proof.
  intros HP Ha. unfold processAuthenticatedEvent. apply keeps_when; [done|]. intros _.
  apply keeps_hard; [apply brittle_optional|]. intros s1 existing He%optional_ok.
  assert (s1 = (ids, p)) as ->.
  { unfold loadEventByProviderID, pread, stx_gets, mbind, stx_mbind, prow, stx_lift in He.
    destruct existing; congruence. }
  clear He. destruct existing as [x|]; [by apply replay_keeps|].
  apply keeps_hard; [apply brittle_optional|]. intros s1 found Hf%optional_ok.
  assert (s1 = (ids, p) /\ forall o, found = Some o -> orders p !! o_ID o = Some o) as [-> Hrow].
  { unfold loadOrderForVerifiedEvent, pread, stx_gets, mbind, stx_mbind, prow, stx_lift in Hf. simpl in Hf.
    destruct found as [o|]; [|split; [congruence|done]].
    destruct (find_order_for_event provider event p) as [o1|] eqn:Hfo; [|done]. injection Hf as <- <-.
    split; [done|]. intros o2 [= <-]. apply found_order in Hfo as [k Hk].
    by rewrite (PInv_keyed _ HP _ _ Hk). }
  clear Hf. apply keeps_new_id; [done|]. intros s1 i Es Hm.
  eapply keeps_beside; [done|done|done|by apply brittle_mapped_as| |].
  { intros s2 b Hb%mapped_as_ok. by eapply insert_event_beside. }
  intros [ids2 p2] inserted _ [(EO & _) _] Hm2. simpl in EO, Hm2. destruct inserted; simpl.
  - apply keeps_soft.
    { apply keeps_rebase; [done|]. apply process_recorded_keeps; [by eapply PInv_moves| |done].
      intros o Ho. rewrite EO, Es. by apply Hrow. }
    intros s3 [shown e] _ Hm3. apply keeps_hard; [apply brittle_mapped|]. intros s4 x Hx%p_mapped_ok.
    unfold loadEventByID in Hx. p_inv. by apply keeps_ret.
  - apply keeps_hard; [apply brittle_mapped|]. intros s4 x Hx%p_mapped_ok.
    unfold loadEventByProviderID in Hx. p_inv. by apply replay_keeps.
Qed.

Lemma Process_keeps p ids provider event hash requestID receivedAt clock : PInv p ->
  in_i64 (ve_AmountMinor event) ->
  keeps_from p (ids, p) (ProcessVerifiedEvent provider event hash requestID receivedAt clock).
Proof. apply process_keeps. Qed.

Lemma ProviderState_keeps p ids provider order state receivedAt clock : PInv p ->
  in_i64 (ps_AmountMinor state) ->
  keeps_from p (ids, p) (ProcessProviderState provider order state receivedAt clock).
Proof.
  intros HP Ha. unfold ProcessProviderState. apply keeps_when; [done|]. intros _.
  by apply process_keeps.
Qed.

(** ** Manual recharges *)
Lemma manual_facts input key n : Billing.normalizeCreditInput (manual_input input key) = Ok n ->
  Billing.cr_UserID n = mr_UserID input
  /\ Billing.cr_Currency n = Billing.normalizeCurrency (mr_Currency input)
  /\ Billing.cr_EntryType n = EntryRecharge /\ Billing.cr_AmountMinor n = mr_AmountMinor input
  /\ Billing.cr_ReferenceType n = "admin_recharge"
  /\ Billing.cr_ReferenceID n = normalizeText key 160
  /\ Billing.cr_IdempotencyKey n = normalizeText key 160.
Proof. intros Hn%normalized_credit. destruct_and! Hn. by split_and!. Qed.

(** A recorded recharge is not posted again. *)
Lemma manual_again p key f input clock ids ids' d' e :
  PInv p -> in_i64 (mr_AmountMinor input) -> funding p !! key = Some f ->
  sameFundingOperation f input = true ->
  BillingService.Service_Credit (manual_input input key) clock (ids, books_db p) = Ok ((ids', d'), e) ->
  d' = books_db p.
Proof.
  intros HP Ha Hf Hsame Hc. apply posts_Credit in Hc as (n & Hn & Hc); [|done|apply HP].
  apply manual_facts in Hn as (N1 & N2 & _ & _ & _ & _ & N6). simpl in Hc.
  destruct Hc as [(-> & _)|(es & Hposts & _ & Hrow & _ & _ & Hown & Hfresh)]; [done|exfalso].
  destruct (pv_funding _ HP _ _ Hf) as (_ & e0 & Hin & _ & _ & _ & _ & Hkey & Hown0).
  unfold sameFundingOperation in Hsame. bools. simpl in *.
  pose proof (owns_evolves _ _ _ _ _ (po_evolves _ _ _ Hposts) Hown0) as Hown1.
  rewrite N1, N2 in Hown. destruct Hrow as (_ & _ & _ & _ & Hkey').
  eapply Hfresh; [exact Hin| |by rewrite Hkey, Hkey', N6].
  eapply owns_unique; [apply (po_inv _ _ _ Hposts)|exact Hown1|congruence].
Qed.

Lemma Manual_keeps p ids input key now clock : in_i64 (mr_AmountMinor input) -> PInv p ->
  keeps_from p (ids, p) (ManualRecharge input key now clock).
Proof.
  intros Ha HP. unfold ManualRecharge. apply keeps_when; [done|]. intros _.
  apply keeps_hard; [apply brittle_optional|]. intros s1 found Hf%optional_ok.
  assert (s1 = (ids, p) /\ found = funding p !! key) as [-> ->].
  { unfold loadFundingOperation, pread, stx_gets, mbind, stx_mbind, prow, stx_lift in Hf. simpl in Hf.
    destruct found, (funding p !! key); naive_solver. }
  clear Hf. apply keeps_when; [done|]. intros Hsame.
  apply keeps_hard; [apply brittle_inner|]. intros s1 e (ids' & d' & Hc & ->)%inner_ok.
  destruct (funding p !! key) as [f|] eqn:Hf.
  - apply negb_false_iff in Hsame. pose proof (manual_again _ _ _ _ _ _ _ _ _ HP Ha Hf Hsame Hc) as ->.
    assert (rtc move p (set_books (books_db p) p)) as Hm.
    { apply rtc_once, quiet_books; [done|]. exists []. split; [|constructor]. apply posts_refl, HP. }
    case_match; [apply keeps_when; [done|]; intros _; by apply keeps_ret|].
    apply keeps_hard; [apply brittle_mapped|]. intros s2 b Hb%p_mapped_ok.
    apply insert_funding_ok in Hb as [(-> & -> & _)|(_ & _ & Hn & _)]; [|simpl in Hn; congruence].
    apply keeps_hard; [apply brittle_mapped|]. intros s3 x Hx%p_mapped_ok.
    unfold loadFundingOperation in Hx. p_inv. apply keeps_when; [done|]. intros _. by apply keeps_ret.
  - simpl. apply keeps_hard; [apply brittle_mapped|]. intros s2 b Hb%p_mapped_ok.
    apply insert_funding_ok in Hb as [(_ & _ & Hs)|(-> & -> & _ & Hpos & Hnew)].
    { simpl in Hs. rewrite Hf in Hs. by destruct Hs. }
    apply keeps_ret, rtc_once. simpl in Hpos, Hnew |- *.
    apply posts_Credit in Hc as (n & Hn & Hc); [|done|apply HP].
    apply manual_facts in Hn as (N1 & N2 & N3 & N4 & N5 & N6 & N7).
    destruct Hc as [(_ & He & Hr & _)|(es & Hposts & Hq & Hrow & D1 & D2 & Hown & _)].
    + exfalso. apply credit_replays_row in Hr as (R1 & R2 & R3 & R4).
      pose proof (pv_accounted _ HP _ He) as Hacc. unfold accounted in Hacc.
      assert (source_of e = SManual) as Hs by (unfold source_of; by rewrite R1, R3, N3, N5).
      rewrite Hs in Hacc. destruct Hacc as (key0 & f & Hf0 & Hid). by apply (Hnew _ _ Hf0).
    + destruct Hrow as (R1 & R2 & R3 & R4 & R5). rewrite N1, N2 in Hown.
      eapply (mv_manual p _ key _ e es); try done; simpl; first [exact Hnew|exact Hown|congruence].
Qed.

(** ** Vouchers *)
Lemma keeps_secret {A B} p0 s (r : result Secret.error A) (g : A -> ptx B) : rtc move p0 s.2 ->
  (forall a, r = Ok a -> keeps_from p0 s (g a)) -> keeps_from p0 s (p_secret r ≫= g).
Proof.
  intros Hm Hg s' r'. unfold p_secret, stx_lift, mbind, stx_mbind. destruct r as [a|e]; simpl.
  - by apply Hg.
  - intros [= <- _] _. done.
Qed.

Lemma replay_created_keeps p0 s keyring v input : rtc move p0 s.2 ->
  keeps_from p0 s (replayCreatedVoucher keyring v input).
Proof.
  intros Hm. unfold replayCreatedVoucher. do 2 (apply keeps_when; [done|]; intros _).
  apply keeps_secret; [done|]. intros code _. apply keeps_when; [done|]. intros _. by apply keeps_ret.
Qed.

Lemma found_voucher q s s1 found : optional (select_voucher q) s = (s1, Ok found) ->
  s1 = s /\ forall v, found = Some v -> exists k, vouchers s.2 !! k = Some v.
Proof.
  intros Hf%optional_ok. destruct found as [v|].
  - apply select_voucher_ok in Hf as (-> & k & Hk & _). split; [done|]. intros v1 [= <-]. by exists k.
  - apply select_voucher_missing in Hf as ->. done.
Qed.

Lemma CreateVoucher_keeps p ids keyring nonce input code hash prefix now :
  cv_AmountMinor input <= max_int64 -> PInv p ->
  keeps_from p (ids, p) (CreateVoucher keyring nonce input code hash prefix now).
Proof.
  intros Ha HP. unfold CreateVoucher. destruct keyring as [keyring|]; [|by apply keeps_refuse].
  apply keeps_when; [done|]. intros _. apply keeps_hard; [apply brittle_optional|].
  intros s1 found [-> _]%found_voucher. destruct found; [by apply replay_created_keeps|].
  apply keeps_new_id; [done|]. intros s1 i Es Hm. apply keeps_secret; [done|]. intros sealed _.
  apply keeps_hard; [apply brittle_optional|]. intros s2 inserted Hi%optional_ok.
  destruct inserted as [v|].
  - apply insert_voucher_ok in Hi as (-> & -> & Hk & Hc & Hap). rewrite Es in *.
    match goal with |- context [set_vouchers _ _] => idtac end.
    match goal with |- keeps_from _ ?s _ => assert (rtc move p s.2) as Hm2 end.
    { apply rtc_once. eapply mv_issue; try done. apply posts_refl, HP. }
    keeps_note. keeps_note. by apply keeps_ret.
  - apply insert_voucher_conflict in Hi as ->. apply keeps_hard; [apply brittle_mapped|].
    intros s2 v Hv%p_mapped_ok. apply select_voucher_ok in Hv as (-> & _). by apply replay_created_keeps.
Qed.

Lemma Revoke_keeps p ids operator i requestID now : PInv p ->
  keeps_from p (ids, p) (RevokeVoucher operator i requestID now).
Proof.
  intros HP. unfold RevokeVoucher. apply keeps_hard; [apply brittle_mapped|].
  intros s1 v Hv%p_mapped_ok. unfold loadVoucherByID in Hv. p_inv. case_match; [by apply keeps_ret|].
  apply keeps_when; [done|]. intros Hs. bools.
  match goal with E : vouchers p !! i = Some _ |- _ => rename E into Hk end.
  rewrite (vi_id _ _ _ (pv_voucher _ HP _ _ Hk)).
  apply keeps_hard; [apply brittle_mapped|]. intros s2 v' Hu%p_mapped_ok.
  apply update_voucher_ok in Hu as (v0 & Hk0 & -> & ->). simpl in Hk0.
  assert (v0 = v) as -> by congruence.
  match goal with |- keeps_from _ ?s _ => assert (rtc move p s.2) as Hm end.
  { apply rtc_once. eapply (mv_void p _ i v (voucher_row v VoucherRevoked None now)); try done.
    apply posts_refl, HP. }
  keeps_note. keeps_note. by apply keeps_ret.
Qed.

Lemma brittle_load_ledger i u c : brittle (loadVoucherLedger i u c).
Proof.
  unfold loadVoucherLedger. apply brittle_bind; [apply brittle_mapped|]. intros w. apply brittle_mapped.
Qed.

Lemma redeem_step p k v u clock ids ids' d' e now :
  PInv p -> vouchers p !! k = Some v -> vc_Status v = VoucherActive ->
  BillingService.Service_Credit (voucher_input v u) clock (ids, books_db p) = Ok ((ids', d'), e) ->
  move p (set_vouchers (<[k := voucher_row v VoucherRedeemed (Some (u, now)) now]>) (set_books d' p)).
Proof.
  intros HP Hk Hs Hc. pose proof (pv_voucher _ HP _ _ Hk) as [Hid Hamt Hrows _].
  apply posts_Credit in Hc as (n & Hn & Hc); [|simpl; i64_unfold; lia|apply HP].
  destruct (normalized_credit _ _ Hn) as (N1 & N2 & N3 & N4 & N5 & _).
  pose proof (credit_reference _ _ _ Hn eq_refl) as N6. simpl in N1, N2, N3, N4, N5.
  destruct Hc as [(_ & He & Hr & _)|(es & Hposts & Hq & (R1 & R2 & R3 & R4 & _) & D1 & D2 & Hown & _)].
  - exfalso. apply credit_replays_row in Hr as (R1 & R2 & R3 & R4).
    assert (source_of e = SVoucher (uuid_string k)) as Hsrc.
    { unfold source_of. by rewrite R1, R3, R4, N3, N5, N6, Hid. }
    unfold voucher_rows in Hrows. rewrite Hs in Hrows. simpl in Hrows.
    assert (e ∈ rows_of (SVoucher (uuid_string k)) (ledger (books_db p))) as Hin by (by apply elem_of_rows_of).
    rewrite Hrows in Hin. by apply elem_of_nil in Hin.
  - rewrite N1, N2 in Hown. rewrite N3 in R1. rewrite N4 in R2. rewrite N5 in R3. rewrite N6 in R4.
    eapply (mv_redeem p _ k v (voucher_row v VoucherRedeemed (Some (u, now)) now) u e es); try done.
    congruence.
Qed.

Lemma Redeem_keeps p ids input hash now clock : PInv p ->
  keeps_from p (ids, p) (RedeemVoucher input hash now clock).
Proof.
  intros HP. unfold RedeemVoucher. apply keeps_hard; [apply brittle_optional|].
  intros s1 found [-> Hv]%found_voucher. destruct found as [v|]; [|by apply keeps_ret].
  destruct (Hv v eq_refl) as [k Hk]. simpl in Hk. clear Hv.
  pose proof (pv_voucher _ HP _ _ Hk) as [Hid Hamt Hrows _].
  case_match.
  { eapply keeps_beside; [done|done|done|apply brittle_load_ledger| |intros ? ? _ _ ?; by apply keeps_ret].
    intros s1 e He. unfold loadVoucherLedger in He. p_inv. apply beside_refl. }
  case_match eqn:Hs; [by apply keeps_ret|]. apply negb_false_iff, String.eqb_eq in Hs. rewrite Hid.
  case_match.
  { apply keeps_hard; [apply brittle_mapped|]. intros s1 u Hu%p_mapped_ok%exec_update_ok. apply keeps_ret.
    destruct Hu as [[v' Hu]|Hu]; [|by apply update_voucher_missing in Hu as ->].
    apply update_voucher_ok in Hu as (v0 & Hk0 & -> & ->). simpl in Hk0. assert (v0 = v) as -> by congruence.
    apply rtc_once. eapply (mv_void p _ k v (voucher_row v VoucherExpired None now)); try done.
    apply posts_refl, HP. }
  apply keeps_hard; [apply brittle_inner|]. intros s1 e (ids' & d' & Hc & ->)%inner_ok.
  apply keeps_hard; [apply brittle_mapped|]. intros s2 v' Hu%p_mapped_ok.
  apply update_voucher_ok in Hu as (v0 & Hk0 & -> & ->). simpl in Hk0. assert (v0 = v) as -> by congruence.
  match goal with |- keeps_from _ ?s _ => assert (rtc move p s.2) as Hm end.
  { apply rtc_once. by eapply redeem_step. }
  keeps_note. keeps_note. by apply keeps_ret.
Qed.


End money.
End PaymentMoney.
