(* ===== verification/PaymentLife.v ===== *)
(** * The life of the payment tables

    [payment_tx]: the transactions of the package.  [pstep]: one of them, an operation
    of another package on the books, or a change of the users.  Every reachable state
    satisfies [PInv]; the methods of the service and its worker, with whatever other
    processes commit in between, only reach such states. *)

From stdpp Require Import base gmap strings list relations.
From Stdlib Require Import ZArith Lia Ascii String.
From S2P Require Import Prelude GoLib Usage Pricing BillingModel Money Store StoreFacts.
From S2P Require Import BillingOps BillingService BillingInv BillingFacts BillingSteps.
From S2P Require Import BillingHistory BillingRows Coordinator Secret PaymentModel PaymentStore.
From S2P Require Import PaymentRepo PaymentEvents PaymentFunding PaymentService PaymentWorker.
From S2P Require Import PaymentMoves PaymentInv PaymentFacts PaymentSteps PaymentMoney.

Module PaymentLife.
Import Payment PaymentStore PaymentRepo PaymentEvents PaymentFunding PaymentService PaymentWorker
  BillingInv BillingRows PaymentMoves PaymentInv PaymentFacts PaymentSteps PaymentMoney.
Import Store(DB, SqlGuards, WallClock).
Import Coordinator(Sha256Hex).

Section life.
Context `{UuidText, SqlGuards, WallClock, PaymentGuards, Sha256Hex, TimeText, Secret.Aead}.

(** ** Transactions, with amounts of Go's [int64] *)
Inductive payment_tx : forall A : Type, ptx A -> Prop :=
| tx_create input identity expiresAt now :
    co_AmountMinor input <= max_int64 -> payment_tx _ (CreateOrder input identity expiresAt now)
| tx_claim k t identity payload now : payment_tx _ (ClaimProviderOperation k t identity payload now)
| tx_complete_create k owner checkout now :
    payment_tx _ (CompleteCreateOperation k owner checkout now)
| tx_finish_create k owner class definitive now :
    payment_tx _ (FinishCreateOperation k owner class definitive now)
| tx_complete_refund k owner refundNo now :
    payment_tx _ (CompleteRefundOperation k owner refundNo now)
| tx_finish_refund k owner class definitive now clock :
    payment_tx _ (FinishRefundOperation k owner class definitive now clock)
| tx_prepare_refund input identity now clock : payment_tx _ (PrepareRefund input identity now clock)
| tx_close input now : payment_tx _ (MarkClosed input now)
| tx_expire k now : payment_tx _ (MarkExpired k now)
| tx_touch k now : payment_tx _ (TouchMaintenance k now)
| tx_event provider event hash requestID receivedAt clock :
    in_i64 (ve_AmountMinor event) ->
    payment_tx _ (ProcessVerifiedEvent provider event hash requestID receivedAt clock)
| tx_state provider order state receivedAt clock :
    in_i64 (ps_AmountMinor state) ->
    payment_tx _ (ProcessProviderState provider order state receivedAt clock)
| tx_manual input key now clock :
    in_i64 (mr_AmountMinor input) -> payment_tx _ (ManualRecharge input key now clock)
| tx_voucher keyring nonce input code hash prefix now :
    cv_AmountMinor input <= max_int64 ->
    payment_tx _ (CreateVoucher keyring nonce input code hash prefix now)
| tx_redeem input hash now clock : payment_tx _ (RedeemVoucher input hash now clock)
| tx_revoke operator i requestID now : payment_tx _ (RevokeVoucher operator i requestID now).

Inductive pstep (p : PDB) : PDB -> Prop :=
| pstep_tx A (m : ptx A) ids : payment_tx A m -> pstep p (run_payment ids m p).1
| pstep_other d : other_step (books_db p) d -> pstep p (set_books d p)
| pstep_users U : pstep p (set_users (fun _ => U) p).

Definition preachable (p : PDB) : Prop := exists U, rtc pstep (no_payments U) p.

Section invariant.
Context (UL : UuidTextLaws _).

Lemma payment_tx_keeps A (m : ptx A) ids p :
  payment_tx A m -> PInv p -> keeps_from p (ids, p) m.
Proof.
  intros Hm HP. destruct Hm.
  - by apply CreateOrder_keeps.
  - by apply Claim_keeps.
  - by apply CompleteCreate_keeps.
  - by apply FinishCreate_keeps.
  - by apply CompleteRefund_keeps.
  - by apply FinishRefund_keeps.
  - by apply PrepareRefund_keeps.
  - by apply MarkClosed_keeps.
  - by apply MarkExpired_keeps.
  - by apply TouchMaintenance_keeps.
  - by apply Process_keeps.
  - by apply ProviderState_keeps.
  - by apply Manual_keeps.
  - by apply CreateVoucher_keeps.
  - by apply Redeem_keeps.
  - by apply Revoke_keeps.
Qed.

Lemma pstep_moves p p' : PInv p -> pstep p p' -> rtc move p p'.
Proof.
  intros HP Hs. destruct Hs as [A m ids Hm|d Hd|U].
  - destruct (run_payment ids m p) as [p' r] eqn:Hr.
    eapply keeps_run; [by apply payment_tx_keeps|exact Hr].
  - apply rtc_once. destruct (other_posts _ _ Hd (pv_books _ HP)) as (es & Hp & Hq).
    by eapply mv_quiet.
  - apply rtc_once. eapply mv_quiet; [apply posts_refl, HP|constructor|done].
Qed.

Lemma PInv_pstep p p' : PInv p -> pstep p p' -> PInv p'.
Proof. intros HP Hs. eapply PInv_moves; [done..|by apply pstep_moves]. Qed.

Lemma PInv_psteps p p' : PInv p -> rtc pstep p p' -> PInv p'.
Proof. intros HP Hs. induction Hs as [|p1 p2 p3 Hs _ IH]; [done|]. apply IH. by eapply PInv_pstep. Qed.

Lemma psteps_moves p p' : PInv p -> rtc pstep p p' -> rtc move p p'.
Proof.
  intros HP Hs. induction Hs as [|p1 p2 p3 Hs _ IH]; [done|].
  etrans; [by apply pstep_moves|]. apply IH. by eapply PInv_pstep.
Qed.

Lemma preachable_PInv p : preachable p -> PInv p.
Proof. intros [U Hs]. eapply PInv_psteps; [apply PInv_start|done]. Qed.
End invariant.

Lemma preachable_psteps p p' : preachable p -> rtc pstep p p' -> preachable p'.
Proof. intros [U Hs] Hs'. exists U. by etrans. Qed.

Lemma preachable_start U : preachable (no_payments U).
Proof. by exists U. Qed.

(** ** The service *)
Section service.
Context (providers : Registry) (clock : nat -> time) (others : nat -> PDB -> PDB)
        (orderTTL : Z) (keyring : option Secret.Keyring).
Context (Hothers : forall n p, rtc pstep p (others n p)).

(** The amounts a provider reports are of type [int64]. *)
Definition provider_typed (provider : Provider) : Prop :=
  (forall n w v, VerifyWebhook provider n w = Ok v -> in_i64 (ve_AmountMinor v))
  /\ (forall n q v, ReconcilePayment provider n q = Ok v -> in_i64 (ps_AmountMinor v))
  /\ (forall n q v, ReconcileRefund provider n q = Ok v -> in_i64 (ps_AmountMinor v)).
Context (Htyped : forall name provider, providers !! name = Some provider -> provider_typed provider).

(** The rows only take steps while [m] runs. *)
Definition stepping {A} (m : svc A) : Prop := forall w, rtc pstep (w_db w) (w_db (m w).1).

Lemma stepping_ret {A} (a : A) : stepping (mret a).
Proof. by intros w. Qed.

Lemma stepping_bind {A B} (m : svc A) (f : A -> svc B) :
  stepping m -> (forall a, stepping (f a)) -> stepping (m ≫= f).
Proof. intros Hm Hf w. rewrite st_bind_eq. etrans; [apply Hm|apply Hf]. Qed.

Lemma stepping_transact {A} (m : ptx A) : payment_tx A m -> stepping (transact others m).
Proof.
  intros Hm w. unfold transact. set (p := others (w_event w) (w_db w)).
  pose proof (pstep_tx p A m (w_ids w) Hm) as Hs. unfold run_payment in Hs.
  destruct (commit m (w_ids w, p)) as [[ids p'] r]. simpl in *.
  eapply rtc_r; [apply Hothers|exact Hs].
Qed.

Lemma stepping_query {A} (f : PDB -> A) : stepping (query others f).
Proof. intros w. apply Hothers. Qed.

Lemma stepping_now : stepping (now clock).
Proof. by intros w. Qed.

Lemma stepping_ask {A} (f : nat -> A) : stepping (ask f).
Proof. by intros w. Qed.

(** A call of the provider, with what is known of its answer. *)
Lemma stepping_ask_bind {A B} (f : nat -> A) (g : A -> svc B) :
  (forall n, stepping (g (f n))) -> stepping (ask f ≫= g).
Proof. intros Hg w. rewrite st_bind_eq. apply (Hg (w_event w) (ask f w).1). Qed.

Lemma stepping_each {A} (f : A -> svc (Z * list error)) items acc :
  (forall a, stepping (f a)) -> stepping (each f items acc).
Proof.
  intros Hf. revert acc. induction items as [|a items IH]; intros acc; [apply stepping_ret|].
  apply stepping_bind; [apply Hf|]. intros r. apply IH.
Qed.
End service.
End life.

(** [stepping_go] walks a method of the service. *)
Ltac tx_known :=
  lazymatch goal with |- payment_tx _ ?m =>
    lazymatch m with
    | CreateOrder _ _ _ _ => apply tx_create
    | ClaimProviderOperation _ _ _ _ _ => apply tx_claim
    | ClaimRefundOperation _ _ _ _ => apply tx_claim
    | CompleteCreateOperation _ _ _ _ => apply tx_complete_create
    | FinishCreateOperation _ _ _ _ _ => apply tx_finish_create
    | CompleteRefundOperation _ _ _ _ => apply tx_complete_refund
    | FinishRefundOperation _ _ _ _ _ _ => apply tx_finish_refund
    | PrepareRefund _ _ _ _ => apply tx_prepare_refund
    | MarkClosed _ _ => apply tx_close
    | MarkExpired _ _ => apply tx_expire
    | TouchMaintenance _ _ => apply tx_touch
    | ProcessVerifiedEvent _ _ _ _ _ _ => apply tx_event
    | ProcessProviderState _ _ _ _ _ => apply tx_state
    | ManualRecharge _ _ _ _ => apply tx_manual
    | CreateVoucher _ _ _ _ _ _ _ => apply tx_voucher
    | RedeemVoucher _ _ _ _ => apply tx_redeem
    | RevokeVoucher _ _ _ _ => apply tx_revoke
    end
  end.
Ltac stepping_go :=
  repeat lazymatch goal with
  | |- stepping (_ ≫= _) => apply stepping_bind; [|intros ?]
  | |- stepping (mret _) => apply stepping_ret
  | |- stepping (now _) => apply stepping_now
  | |- stepping (ask _) => apply stepping_ask
  | |- stepping (query _ _) => apply stepping_query; assumption
  | |- stepping (transact _ _) => apply stepping_transact; [assumption|tx_known]
  | |- stepping (each _ _ _) => apply stepping_each; intros ?
  | |- stepping (match ?x with _ => _ end) => destruct x eqn:?
  end.

Section methods.
Context `{UuidText, SqlGuards, WallClock, PaymentGuards, Sha256Hex, TimeText, Secret.Aead}.
Context (providers : Registry) (clock : nat -> time) (others : nat -> PDB -> PDB)
        (orderTTL : Z) (keyring : option Secret.Keyring).
Context (Hothers : forall n p, rtc pstep p (others n p)).
Context (Htyped : forall name provider, providers !! name = Some provider -> provider_typed provider).

Lemma stepping_create_claim provider claim :
  stepping (executeCreateClaim clock others provider claim).
Proof. unfold executeCreateClaim, record_create. stepping_go. Qed.

Lemma stepping_refund_claim provider claim :
  stepping (executeRefundClaim clock others provider claim).
Proof. unfold executeRefundClaim. stepping_go. Qed.

Lemma stepping_fails order t cause : stepping (fails others order t cause).
Proof. unfold fails, maintenanceFailure. stepping_go. Qed.

Lemma stepping_finish_as t k owner class : stepping (finish_as clock others t k owner class).
Proof. unfold finish_as. stepping_go. Qed.

Lemma normalized_order_amount input n : normalizeCreateOrderInput input = Ok n ->
  co_AmountMinor n = co_AmountMinor input.
Proof. unfold normalizeCreateOrderInput. intros Hn. repeat case_match; try done. by injection Hn as <-. Qed.

Lemma stepping_CreateOrder input : co_AmountMinor input <= max_int64 ->
  stepping (Service_CreateOrder providers clock others orderTTL input).
Proof.
  intros Ha. unfold Service_CreateOrder.
  destruct (normalizeCreateOrderInput input) as [n|e] eqn:Hn; [|stepping_go].
  apply normalized_order_amount in Hn. stepping_go; [simpl; by rewrite Hn|apply stepping_create_claim].
Qed.

Lemma stepping_ManualRecharge input : in_i64 (mr_AmountMinor input) ->
  stepping (Service_ManualRecharge clock others input).
Proof. intros Ha. unfold Service_ManualRecharge. stepping_go. done. Qed.

Lemma stepping_CreateVoucher secret nonce input : cv_AmountMinor input <= max_int64 ->
  stepping (Service_CreateVoucher clock others keyring secret nonce input).
Proof. intros Ha. unfold Service_CreateVoucher. stepping_go. done. Qed.

Lemma stepping_RedeemVoucher input : stepping (Service_RedeemVoucher clock others input).
Proof. unfold Service_RedeemVoucher. stepping_go. Qed.

Lemma stepping_RevokeVoucher operator i requestID :
  stepping (Service_RevokeVoucher clock others operator i requestID).
Proof. unfold Service_RevokeVoucher. stepping_go. Qed.

Lemma stepping_Refund input : stepping (Refund providers clock others input).
Proof. unfold Refund. stepping_go. apply stepping_refund_claim. Qed.

Lemma stepping_Close input : stepping (Close providers clock others input).
Proof. unfold Close. stepping_go. Qed.

Lemma stepping_reads userID orderNo cursor limit :
  stepping (Service_GetOrder others userID orderNo) /\ stepping (Service_ListOrders others userID cursor limit).
Proof. unfold Service_GetOrder, Service_ListOrders. split; stepping_go. Qed.

Lemma stepping_expire_one order : stepping (expire_one providers clock others order).
Proof. unfold expire_one. stepping_go; apply stepping_fails. Qed.

Lemma stepping_ExpireDue limit : stepping (ExpireDue providers clock others limit).
Proof. unfold ExpireDue. stepping_go. apply stepping_expire_one. Qed.

Lemma stepping_recover_one t due : stepping (recover_one providers clock others t due).
Proof.
  unfold recover_one. stepping_go;
    first [apply stepping_finish_as|apply stepping_create_claim|apply stepping_refund_claim].
Qed.

Lemma stepping_Recover limit : stepping (RecoverProviderOperations providers clock others limit).
Proof. unfold RecoverProviderOperations. stepping_go. apply stepping_recover_one. Qed.

Lemma stepping_reconcile_one order : stepping (reconcile_one providers clock others order).
Proof.
  unfold reconcile_one. apply stepping_bind; [apply stepping_now|]. intros t.
  unfold Registry_Provider. destruct (providers !! _) as [provider|] eqn:Hp; [|apply stepping_fails].
  destruct (Htyped _ _ Hp) as (_ & H1p & H2p).
  unfold observe. destruct (String.eqb _ _); apply stepping_ask_bind; intros n;
    match goal with |- context [match ?a with Ok _ => _ | Err _ => _ end] =>
      destruct a as [state|e] eqn:Hs end; try apply stepping_fails;
    stepping_go; try apply stepping_fails; simpl; first [exact (H1p _ _ _ Hs)|exact (H2p _ _ _ Hs)].
Qed.

Lemma stepping_Reconcile limit : stepping (ReconcileOrders providers clock others limit).
Proof. unfold ReconcileOrders. stepping_go. apply stepping_reconcile_one. Qed.

Lemma stepping_run : stepping (run providers clock others).
Proof.
  unfold run. apply stepping_bind; [apply stepping_Recover|]. intros _.
  apply stepping_bind; [apply stepping_Reconcile|]. intros _.
  apply stepping_bind; [apply stepping_ExpireDue|]. intros _. apply stepping_ret.
Qed.

Lemma stepping_worker ticks : stepping (RunExpirationWorker providers clock others ticks).
Proof.
  induction ticks as [|ticks IH]; [apply stepping_run|].
  apply stepping_bind; [exact IH|]. intros _. apply stepping_run.
Qed.

Lemma stepping_webhook name headers body requestID receivedAt :
  stepping (HandleWebhook providers clock others name headers body requestID receivedAt).
Proof.
  unfold HandleWebhook. destruct (_ || _); [apply stepping_ret|].
  unfold Registry_Provider. destruct (providers !! _) as [provider|] eqn:Hp; [|apply stepping_ret].
  destruct (Htyped _ _ Hp) as (H0p & _). apply stepping_bind; [stepping_go|]. intros t.
  apply stepping_ask_bind. intros n. destruct (VerifyWebhook _ _ _) as [v|e] eqn:Hv; stepping_go.
  exact (H0p _ _ _ Hv).
Qed.

(** Every method of the service, with arguments of their Go types. *)
Inductive call : forall A : Type, svc A -> Prop :=
| call_create input : co_AmountMinor input <= max_int64 ->
    call _ (Service_CreateOrder providers clock others orderTTL input)
| call_get userID orderNo : call _ (Service_GetOrder others userID orderNo)
| call_list userID cursor limit : call _ (Service_ListOrders others userID cursor limit)
| call_webhook name headers body requestID receivedAt :
    call _ (HandleWebhook providers clock others name headers body requestID receivedAt)
| call_refund input : call _ (Refund providers clock others input)
| call_close input : call _ (Close providers clock others input)
| call_manual input : in_i64 (mr_AmountMinor input) ->
    call _ (Service_ManualRecharge clock others input)
| call_voucher secret nonce input : cv_AmountMinor input <= max_int64 ->
    call _ (Service_CreateVoucher clock others keyring secret nonce input)
| call_redeem input : call _ (Service_RedeemVoucher clock others input)
| call_revoke operator i requestID :
    call _ (Service_RevokeVoucher clock others operator i requestID)
| call_worker ticks : call _ (RunExpirationWorker providers clock others ticks).

Lemma call_stepping A (m : svc A) : call A m -> stepping m.
Proof.
  intros [].
  - by apply stepping_CreateOrder.
  - apply (proj1 (stepping_reads userID orderNo None 0)).
  - apply (proj2 (stepping_reads userID "" cursor limit)).
  - apply stepping_webhook.
  - apply stepping_Refund.
  - apply stepping_Close.
  - by apply stepping_ManualRecharge.
  - by apply stepping_CreateVoucher.
  - apply stepping_RedeemVoucher.
  - apply stepping_RevokeVoucher.
  - apply stepping_worker.
Qed.

End methods.
End PaymentLife.
