(* ===== verification/PaymentRows.v ===== *)
(** * The tables of operations and events

    [always I m]: the transaction [m] keeps the condition [I] of the tables, whatever
    its outcome.  A condition that the other tables do not matter for is kept by every
    transaction when the statements on operations and events keep it ([always_tx]);
    the identifiers and unique keys of both tables are one ([rows_ok]). *)

From stdpp Require Import base gmap strings list relations.
From Stdlib Require Import ZArith Lia Ascii String.
From S2P Require Import Prelude GoLib Usage Pricing BillingModel Money Store.
From S2P Require Import BillingOps BillingService BillingRows Coordinator Secret PaymentModel.
From S2P Require Import PaymentStore PaymentRepo PaymentEvents PaymentFunding PaymentMoves.
From S2P Require Import PaymentInv PaymentFacts PaymentLife.

Module PaymentRows.
Import Payment PaymentStore PaymentRepo PaymentEvents PaymentFunding PaymentFacts PaymentLife.
Import Store(DB, btx, SqlGuards, WallClock, guard_outbox).
Import Coordinator(Sha256Hex).

Definition always (I : PDB -> Prop) {E A} (m : stx PSt E A) : Prop :=
  forall s s' r, I s.2 -> m s = (s', r) -> I s'.2.

Section rules.
Context (I : PDB -> Prop).
Context {E A B : Type}.

Lemma always_ret (a : A) : always I (mret a : stx PSt E A).
Proof. intros s s' r Hi [= <- _]. done. Qed.
Lemma always_fail (e : E) : always I (stx_fail e : stx PSt E A).
Proof. intros s s' r Hi [= <- _]. done. Qed.
Lemma always_lift (x : result E A) : always I (stx_lift x).
Proof. intros s s' r Hi [= <- _]. done. Qed.
Lemma always_when b (e : E) : always I (stx_when b e).
Proof. intros s s' r Hi [= <- _]. done. Qed.
Lemma always_pread (f : PDB -> A) : always I (pread f : stx PSt E A).
Proof. intros s s' r Hi [= <- _]. done. Qed.
Lemma always_pwrite f : (forall p, I p -> I (f p)) -> always I (pwrite f : stx PSt E unit).
Proof. intros Hf s s' r Hi [= <- _]. by apply Hf. Qed.
Lemma always_bind (m : stx PSt E A) (f : A -> stx PSt E B) :
  always I m -> (forall a, always I (f a)) -> always I (m ≫= f).
Proof.
  intros Hm Hf s s' r Hi. unfold mbind, stx_mbind. destruct (m s) as [s1 [a|e]] eqn:Hs.
  - apply Hf. by eapply Hm.
  - intros [= <- _]. by eapply Hm.
Qed.
End rules.

Section stmts.
Context (I : PDB -> Prop) {A : Type}.

Lemma always_mapped_as f (m : pstmt A) : always I m -> always I (mapped_as f m).
Proof.
  intros Hm s s' r Hi. unfold mapped_as. destruct (m s) as [s1 x] eqn:Hs. intros [= <- _]. by eapply Hm.
Qed.
Lemma always_mapped (m : pstmt A) : always I m -> always I (mapped m).
Proof. apply always_mapped_as. Qed.
Lemma always_optional (m : pstmt A) : always I m -> always I (optional m).
Proof.
  intros Hm s s' r Hi. unfold optional. destruct (m s) as [s1 [a|[]]] eqn:Hs; intros [= <- _]; by eapply Hm.
Qed.
Lemma always_exec (m : pstmt A) : always I m -> always I (exec_update m).
Proof.
  intros Hm s s' r Hi. unfold exec_update.
  destruct (m s) as [s1 [a|[]]] eqn:Hs; intros [= <- _]; by eapply Hm.
Qed.
Lemma always_new_id : always I new_id.
Proof. intros s s' r Hi. unfold new_id. destruct s.1; by intros [= <- _]. Qed.
Lemma always_prow (o : option A) : always I (prow o).
Proof. apply always_lift. Qed.
Lemma always_refuse (e : error) : always I (@refuse A e).
Proof. apply always_fail. Qed.
Lemma always_p_when b e : always I (p_when b e).
Proof. apply always_when. Qed.
Lemma always_p_lift (r : result error A) : always I (p_lift r).
Proof. apply always_lift. Qed.
Lemma always_p_secret (r : result Secret.error A) : always I (p_secret r).
Proof. apply always_lift. Qed.
Lemma always_pguard g : always I (pguard g).
Proof. destruct g; [apply always_fail|apply always_ret]. Qed.
Lemma always_inner_as f (m : btx A) : (forall d p, I p -> I (set_books d p)) -> always I (inner_as f m).
Proof.
  intros Hb [ids p] s' r Hi. unfold inner_as.
  destruct (m _) as [[[ids' d'] a]|e]; intros [= <- _]; [by apply Hb|done].
Qed.
End stmts.

(** One step into a transaction. *)
Ltac always_step :=
  lazymatch goal with
  | |- always _ (_ ≫= _) => apply always_bind; [|intros ?]
  | |- always _ (mret _) => apply always_ret
  | |- always _ (refuse _) => apply always_refuse
  | |- always _ (stx_fail _) => apply always_fail
  | |- always _ (stx_lift _) => apply always_lift
  | |- always _ (p_when _ _) => apply always_p_when
  | |- always _ (p_lift _) => apply always_p_lift
  | |- always _ (p_secret _) => apply always_p_secret
  | |- always _ (pread _) => apply always_pread
  | |- always _ (prow _) => apply always_prow
  | |- always _ (pguard _) => apply always_pguard
  | |- always _ (punique _) => apply always_when
  | |- always _ (pcheck _) => apply always_when
  | |- always _ (praise _ _) => apply always_when
  | |- always _ new_id => apply always_new_id
  | |- always _ (mapped _) => apply always_mapped
  | |- always _ (mapped_as _ _) => apply always_mapped_as
  | |- always _ (optional _) => apply always_optional
  | |- always _ (exec_update _) => apply always_exec
  | |- always _ (inner_as _ _) => apply always_inner_as; assumption
  | |- always _ (inner _) => apply always_inner_as; assumption
  | |- always _ (audit _) => apply always_inner_as; assumption
  | |- always _ (pwrite _) => apply always_pwrite; intros ?; auto
  | |- always _ (match ?x with _ => _ end) => destruct x
  end.
Ltac always_go := repeat always_step.

(** A condition the tables beside orders, operations and events do not matter for. *)
Record indifferent (I : PDB -> Prop) : Prop := {
  in_books d p : I p -> I (set_books d p);
  in_external f p : I p -> I (set_external_refunds f p);
  in_disputes f p : I p -> I (set_disputes f p);
  in_vouchers f p : I p -> I (set_vouchers f p);
  in_funding f p : I p -> I (set_funding f p)
}.

Section tx.
Context `{UuidText, SqlGuards, WallClock, PaymentGuards, Sha256Hex, TimeText, Secret.Aead}.
Context (I : PDB -> Prop) (HI : indifferent I).
Context (Hinsert : forall op, always I (insert_operation op))
        (Hupdate : forall i f, (forall op, op_ID (f op) = op_ID op
             /\ op_PaymentOrderID (f op) = op_PaymentOrderID op
             /\ op_OperationType (f op) = op_OperationType op) -> always I (update_operation i f)).

Let Hbooks := in_books I HI.
Let Hexternal := in_external I HI.
Let Hdisputes := in_disputes I HI.
Let Hvouchers := in_vouchers I HI.
Let Hfunding := in_funding I HI.

Lemma always_outbox t i e k l : always I (insertPaymentOutbox t i e k l).
Proof. unfold insertPaymentOutbox. always_go. Qed.

Lemma always_dispute order event now clock : always I (applyDisputeEvent order event now clock).
Proof.
  unfold applyDisputeEvent, load_or_open_dispute, loadPaymentDispute, insert_dispute, resolve_dispute.
  repeat first [apply always_outbox | always_step].
Qed.

Lemma always_reject i provider requestID class now :
  (forall st c, always I (update_processing i st c)) ->
  always I (rejectVerifiedEvent i provider requestID class now).
Proof. intros Hp. unfold rejectVerifiedEvent. repeat first [apply Hp | always_step]. Qed.

Lemma always_settle m i provider requestID t order now :
  (forall st c, always I (update_processing i st c)) ->
  always I m -> always I (settle_outcome m i provider requestID t order now).
Proof.
  intros Hp Hm s s' r Hi. unfold settle_outcome. destruct (m s) as [s1 [o|f]] eqn:Hs.
  - assert (I s1.2) as Hi1 by (by eapply Hm). revert Hi1.
    match goal with |- _ -> ?x s1 = _ -> _ => intros Hi1; apply (fun y : always I x => y s1 s' r Hi1) end.
    repeat first [apply Hp | always_step].
  - assert (I s1.2) as Hi1 by (by eapply Hm).
    destruct (negb _); [by intros [= <- _]|]. destruct (f_aborted f); [by intros [= <- _]|].
    match goal with |- ?x s1 = _ -> _ => apply (fun y : always I x => y s1 s' r Hi1) end.
    repeat first [by apply always_reject | always_step].
Qed.

Context (Horders : forall f p, I p -> I (set_orders f p)).

Lemma always_update_order k b f : always I (update_order k b f).
Proof. unfold update_order. always_go. Qed.
Lemma always_operation i f : (forall op, op_ID (f op) = op_ID op
    /\ op_PaymentOrderID (f op) = op_PaymentOrderID op /\ op_OperationType (f op) = op_OperationType op) ->
  always I (update_operation i f).
Proof. apply Hupdate. Qed.

Ltac tx_step :=
  first
    [ apply always_update_order | apply always_outbox | apply Hinsert
    | apply Hupdate; intros ?; by split_and!
    | always_step ].
Ltac tx_go := repeat tx_step.

Lemma always_ensure order t identity now : always I (ensureProviderOperation order t identity now).
Proof.
  unfold ensureProviderOperation, insert_operation_if_absent, loadProviderOperation. tx_go.
Qed.

Lemma always_external order event now clock : always I (applyExternalRefund order event now clock).
Proof. unfold applyExternalRefund, loadExternalRefund, insert_external_refund. tx_go. Qed.

Lemma always_apply order event now clock : always I (applyVerifiedEvent order event now clock).
Proof.
  unfold applyVerifiedEvent, apply_pending, apply_paid, transitionProviderTerminal, apply_refunded,
    apply_refund_failed.
  repeat first [apply always_external | apply always_dispute | tx_step].
Qed.

Lemma always_apply_and_complete order event now clock :
  always I (apply_and_complete order event now clock).
Proof.
  unfold apply_and_complete, completeProviderOperationFromEvent.
  repeat first [apply always_apply | tx_step].
Qed.

Lemma always_attach order event now : always I (attachProviderIdentifiers order event now).
Proof. unfold attachProviderIdentifiers. tx_go. Qed.

Context (Hprocessing : forall i st c, always I (update_processing i st c)).

Lemma always_recorded i provider requestID found event receivedAt clock :
  always I (process_recorded i provider requestID found event receivedAt clock).
Proof.
  unfold process_recorded.
  repeat first [by apply always_reject | apply always_attach
    | apply always_settle; [by intros|apply always_apply_and_complete] | tx_step].
Qed.

Context (Hevent : forall e, always I (insert_event e)).

Lemma always_process provider event hash source verified requestID receivedAt clock :
  always I (processAuthenticatedEvent provider event hash source verified requestID receivedAt clock).
Proof.
  unfold processAuthenticatedEvent, loadEventByProviderID, loadEventByID, loadOrderForVerifiedEvent,
    replay.
  repeat first [apply always_recorded | apply Hevent | tx_step].
Qed.

Lemma always_tx A (m : ptx A) : payment_tx A m -> always I m.
Proof.
  intros [].
  - unfold CreateOrder, loadOrderByIdempotency, select_order, select_user, insert_order.
    repeat first [apply always_ensure | tx_step].
  - unfold ClaimProviderOperation, loadOrderByID, loadProviderOperation. tx_go.
  - unfold CompleteCreateOperation, loadOrderByID, loadProviderOperation. tx_go.
  - unfold FinishCreateOperation, loadOrderByID, loadProviderOperation. tx_go.
  - unfold CompleteRefundOperation, loadOrderByID, loadProviderOperation. tx_go.
  - unfold FinishRefundOperation, loadOrderByID, loadProviderOperation. tx_go.
  - unfold PrepareRefund, loadOrderByNo, select_order.
    repeat first [apply always_ensure | tx_step].
  - unfold MarkClosed, loadOrderByNo, select_order. tx_go.
  - unfold MarkExpired, loadOrderByID. tx_go.
  - unfold TouchMaintenance. tx_go.
  - apply always_process.
  - unfold ProcessProviderState. repeat first [apply always_process | tx_step].
  - unfold ManualRecharge, loadFundingOperation, insert_funding. tx_go.
  - unfold CreateVoucher, loadVoucherByIdempotency, select_voucher, insert_voucher, replayCreatedVoucher.
    tx_go.
  - unfold RedeemVoucher, loadVoucherByHash, select_voucher, loadVoucherLedger, update_voucher. tx_go.
  - unfold RevokeVoucher, loadVoucherByID, update_voucher. tx_go.
Qed.
End tx.

(** ** Identifiers and unique keys *)
Record rows_ok (p : PDB) : Prop := {
  ro_op_keyed : forall k op, operations p !! k = Some op -> op_ID op = k;
  ro_op_unique : forall k1 k2 o1 o2, operations p !! k1 = Some o1 -> operations p !! k2 = Some o2 ->
    op_PaymentOrderID o1 = op_PaymentOrderID o2 -> op_OperationType o1 = op_OperationType o2 -> k1 = k2;
  ro_op_check : forall k op, operations p !! k = Some op -> operation_check op = true;
  ro_ev_keyed : forall k e, events p !! k = Some e -> pe_ID e = k;
  ro_ev_unique : forall k1 k2 e1 e2, events p !! k1 = Some e1 -> events p !! k2 = Some e2 ->
    pe_PaymentProvider e1 = pe_PaymentProvider e2 ->
    pe_ProviderEventID e1 = pe_ProviderEventID e2 -> k1 = k2
}.

Lemma rows_indifferent : indifferent rows_ok.
Proof. by constructor; intros ? p []; constructor. Qed.

(** A statement, unfolded. *)
Ltac run_stmt :=
  unfold pread, stx_gets, mbind, stx_mbind, mret, stx_mret, pcheck, punique, stx_when, pguard, stx_fail,
    pwrite, prow, stx_lift.
Ltac stmt_stops := simpl; intros [= <- _]; done.

Section rows.
Context `{UuidText, SqlGuards, WallClock, PaymentGuards, Sha256Hex, TimeText, Secret.Aead}.

(** A row written at [k] that has the unique key of no other row. *)
Lemma unique_insert {V} (same : V -> V -> Prop) (m : gmap uuid V) k v :
  (forall v1 v2, same v1 v2 -> same v2 v1) ->
  (forall k1 k2 v1 v2, m !! k1 = Some v1 -> m !! k2 = Some v2 -> same v1 v2 -> k1 = k2) ->
  (forall k2 v2, m !! k2 = Some v2 -> same v2 v -> k2 = k) ->
  forall k1 k2 v1 v2, <[k := v]> m !! k1 = Some v1 -> <[k := v]> m !! k2 = Some v2 ->
    same v1 v2 -> k1 = k2.
Proof.
  intros Hsym Hm Hv k1 k2 v1 v2 [[<- <-]|[_ H1']]%lookup_insert_Some [[<- <-]|[_ H2']]%lookup_insert_Some Hs.
  - done.
  - symmetry. apply (Hv _ _ H2'). by apply Hsym.
  - by apply (Hv _ _ H1').
  - by eapply Hm.
Qed.

Definition same_operation (a b : ProviderOperation) : Prop :=
  op_PaymentOrderID a = op_PaymentOrderID b /\ op_OperationType a = op_OperationType b.

Lemma rows_put_operation p k op : rows_ok p -> op_ID op = k -> operation_check op = true ->
  (forall k2 o2, operations p !! k2 = Some o2 -> same_operation o2 op -> k2 = k) ->
  rows_ok (set_operations <[k := op]> p).
Proof.
  intros [] Hid Hc Hu. constructor; simpl; try done.
  - intros k2 o2 [[<- <-]|[_ Hk]]%lookup_insert_Some; [done|by eauto].
  - intros k1 k2 o1 o2 Hk1 Hk2 E1 E2.
    eapply (unique_insert same_operation (operations p) k op); try done.
    + intros ?? []. by split.
    + intros ???? ?? [E3 E4]. by eapply ro_op_unique0.
  - intros k2 o2 [[<- <-]|[_ Hk]]%lookup_insert_Some; [done|by eauto].
Qed.

Lemma rows_put_event p k e : rows_ok p -> pe_ID e = k ->
  (forall k2 e2, events p !! k2 = Some e2 -> pe_PaymentProvider e2 = pe_PaymentProvider e ->
     pe_ProviderEventID e2 = pe_ProviderEventID e -> k2 = k) ->
  rows_ok (set_events <[k := e]> p).
Proof.
  intros [] Hid Hu. constructor; simpl; try done.
  - intros k2 e2 [[<- <-]|[_ Hk]]%lookup_insert_Some; [done|by eauto].
  - intros k1 k2 e1 e2 Hk1 Hk2 E1 E2.
    eapply (unique_insert (fun a b => pe_PaymentProvider a = pe_PaymentProvider b
              /\ pe_ProviderEventID a = pe_ProviderEventID b) (events p) k e); try done.
    + intros ?? []. by split.
    + intros ???? ?? [E3 E4]. by eapply ro_ev_unique0.
    + intros ?? ? []. by eauto.
Qed.

Lemma rows_insert_operation op : always rows_ok (insert_operation op).
Proof.
  intros s s' r Hi. unfold insert_operation. run_stmt.
  destruct (operation_check op) eqn:Hc; [simpl|stmt_stops].
  destruct (bool_decide (is_Some (operations s.2 !! op_ID op)) || _) eqn:Hd; [stmt_stops|].
  apply orb_false_iff in Hd as [_ Hd]. rewrite map_any_false in Hd.
  destruct (guard_operation op); [stmt_stops|]. simpl. intros [= <- _]. simpl.
  apply rows_put_operation; try done. intros k2 o2 Hk2 [E1 E2]. specialize (Hd _ _ Hk2).
  unfold of_operation in Hd. by rewrite E1, E2, uuid_eqb_refl, String.eqb_refl in Hd.
Qed.

Lemma rows_update_operation i f : (forall op, op_ID (f op) = op_ID op
    /\ op_PaymentOrderID (f op) = op_PaymentOrderID op /\ op_OperationType (f op) = op_OperationType op) ->
  always rows_ok (update_operation i f).
Proof.
  intros Hf s s' r Hi. unfold update_operation. run_stmt.
  destruct (operations s.2 !! i) as [op|] eqn:Hk; [simpl|stmt_stops].
  destruct (Hf op) as (F1 & F2 & F3).
  destruct (operation_check (f op)) eqn:Hc; [simpl|stmt_stops].
  destruct (guard_operation (f op)); [stmt_stops|]. simpl. intros [= <- _]. simpl.
  apply rows_put_operation; try done.
  - rewrite F1. by apply (ro_op_keyed _ Hi).
  - intros k2 o2 Hk2 [E1 E2]. eapply (ro_op_unique _ Hi); [exact Hk2|exact Hk|congruence..].
Qed.

Lemma rows_insert_event e : always rows_ok (insert_event e).
Proof.
  intros s s' r Hi. unfold insert_event. run_stmt.
  destruct (event_check e); [simpl|stmt_stops].
  destruct (map_any (of_event (pe_PaymentProvider e) (pe_ProviderEventID e)) (events s.2)) eqn:Hd;
    [stmt_stops|]. rewrite map_any_false in Hd.
  destruct (bool_decide _); [stmt_stops|]. simpl. destruct (guard_event e); [stmt_stops|].
  simpl. intros [= <- _]. simpl. apply rows_put_event; try done.
  intros k2 e2 Hk2 E1 E2. specialize (Hd _ _ Hk2).
  unfold of_event in Hd. by rewrite E1, E2, !String.eqb_refl in Hd.
Qed.

Lemma rows_update_processing i st c : always rows_ok (update_processing i st c).
Proof.
  intros s s' r Hi. unfold update_processing. run_stmt.
  destruct (events s.2 !! i) as [e|] eqn:Hk; [|stmt_stops].
  destruct (guard_event _); [stmt_stops|]. simpl. intros [= <- _]. simpl.
  apply rows_put_event; try done.
  - simpl. by apply (ro_ev_keyed _ Hi).
  - simpl. intros k2 e2 Hk2 E1 E2. by eapply (ro_ev_unique _ Hi).
Qed.

Lemma always_run (I : PDB -> Prop) A (m : ptx A) ids p : always I m -> I p -> I (run_payment ids m p).1.
Proof.
  intros Hm Hi. unfold run_payment, commit. destruct (m (ids, p)) as [[ids' p'] [a|e]] eqn:Hs; [|done].
  exact (Hm (ids, p) _ _ Hi Hs).
Qed.

Lemma rows_pstep p p' : rows_ok p -> pstep p p' -> rows_ok p'.
Proof.
  intros Hr Hs. destruct Hs as [A m ids Hm|d Hd|U].
  - apply always_run; [|done]. apply always_tx; [apply rows_indifferent|..|done]; [| |by intros ? ? []|..].
    + apply rows_insert_operation.
    + apply rows_update_operation.
    + apply rows_update_processing.
    + apply rows_insert_event.
  - by apply (in_books _ rows_indifferent).
  - by destruct Hr; constructor.
Qed.

Lemma rows_psteps p p' : rows_ok p -> rtc pstep p p' -> rows_ok p'.
Proof. intros Hr Hs. induction Hs as [|p1 p2 p3 Hs _ IH]; [done|]. apply IH. by eapply rows_pstep. Qed.

Lemma preachable_rows p : preachable p -> rows_ok p.
Proof. intros [U Hs]. eapply rows_psteps; [|exact Hs]. by constructor. Qed.

(** ** One row per key *)
Lemma find_operation p k op : rows_ok p -> operations p !! k = Some op ->
  map_find (of_operation (op_PaymentOrderID op) (op_OperationType op)) (operations p) = Some op.
Proof.
  intros Hr Hk. destruct (map_find _ _) as [op2|] eqn:Hf.
  - apply map_find_Some in Hf as (k2 & Hk2 & Hq). unfold of_operation in Hq. bools.
    assert (k2 = k) as -> by (by eapply (ro_op_unique _ Hr)). congruence.
  - eapply map_find_None in Hf; [|exact Hk]. unfold of_operation in Hf.
    by rewrite uuid_eqb_refl, String.eqb_refl in Hf.
Qed.

Lemma find_event p k e : rows_ok p -> events p !! k = Some e ->
  map_find (of_event (pe_PaymentProvider e) (pe_ProviderEventID e)) (events p) = Some e.
Proof.
  intros Hr Hk. destruct (map_find _ _) as [e2|] eqn:Hf.
  - apply map_find_Some in Hf as (k2 & Hk2 & Hq). unfold of_event in Hq. bools.
    assert (k2 = k) as -> by (by eapply (ro_ev_unique _ Hr)). congruence.
  - eapply map_find_None in Hf; [|exact Hk]. unfold of_event in Hf. by rewrite !String.eqb_refl in Hf.
Qed.
End rows.
End PaymentRows.
