(* ===== verification/PaymentDemo.v ===== *)
(** * A concrete history of the payment tables

    Instances for the parameters and a history the witnesses evaluate: an order is
    created, sent to the provider, paid, refunded; another keeps a refund that failed
    and is then refunded in part at the provider; a voucher is issued and redeemed; a
    manual recharge. *)

From stdpp Require Import base gmap strings list pretty relations.
From Stdlib Require Import ZArith Lia Ascii String.
From S2P Require Import Prelude GoLib Usage Pricing BillingModel Money Store.
From S2P Require Import BillingOps BillingService BillingInv BillingSteps BillingDemo BillingRows.
From S2P Require Import Coordinator Secret PaymentModel PaymentStore PaymentRepo PaymentEvents.
From S2P Require Import PaymentFunding PaymentService PaymentWorker PaymentMoves PaymentInv.
From S2P Require Import PaymentLife.

Module PaymentDemo.
Import Payment PaymentStore PaymentRepo PaymentEvents PaymentFunding PaymentService PaymentInv
  PaymentLife BillingDemo.
Import Coordinator(Sha256Hex, sha256_hex).

(** Decimal numbers are a text of identifiers that satisfies the laws. *)
Lemma pretty_plain (u : N) :
  forall_bytes (fun c => is_digit c || is_lower c || Ascii.eqb c "-") (pretty u) = true.
Proof.
  assert (forall x s, forall_bytes (fun c => is_digit c || is_lower c || Ascii.eqb c "-") s = true ->
    forall_bytes (fun c => is_digit c || is_lower c || Ascii.eqb c "-") (pretty_N_go x s) = true) as Hgo.
  { intros x. induction (N.lt_wf_0 x) as [x _ IH]. intros s Hs.
    destruct (decide (0 < x)%N) as [Hx|Hx].
    - rewrite pretty_N_go_step by done. apply IH; [by apply N.div_lt|]. simpl. rewrite Hs, andb_true_r.
      unfold pretty_N_char. by repeat case_match.
    - assert (x = 0%N) as -> by lia. by rewrite pretty_N_go_0. }
  unfold pretty, pretty_N. case_decide; [done|]. by apply Hgo.
Qed.

#[export] Instance demo_text_laws : UuidTextLaws demo_text.
Proof. constructor; [apply _|exact pretty_plain]. Qed.

#[export] Instance demo_sha : Sha256Hex := fun s => s.
#[export] Instance demo_rfc3339 : TimeText := fun t => pretty (Z.to_N t).
#[export] Instance demo_payment_guards : PaymentGuards :=
  {| guard_order := fun _ => None; guard_event := fun _ => None; guard_operation := fun _ => None;
     guard_external_refund := fun _ => None; guard_dispute := fun _ => None;
     guard_voucher := fun _ => None; guard_funding := fun _ _ => None |}.

(** Sealing appends sixteen bytes. *)
Definition demo_tag : string := "0123456789abcdef".
#[export] Instance demo_aead : Secret.Aead :=
  {| Secret.aead_seal := fun _ _ plaintext _ => plaintext +:+ demo_tag;
     Secret.aead_open := fun _ _ ciphertext _ =>
       Some (String.substring 0 (String.length ciphertext - 16) ciphertext) |}.

Lemma substring_front s t : String.substring 0 (String.length s) (s +:+ t) = s.
Proof. induction s as [|c s IH]; [by destruct t|]. simpl. by f_equal. Qed.
#[export] Instance demo_aead_laws : Secret.AeadLaws demo_aead.
Proof.
  constructor; intros key nonce plaintext aad; simpl.
  - f_equal. assert (String.length (plaintext +:+ demo_tag) - 16 = String.length plaintext)%nat as ->.
    { pose proof (slen_app plaintext demo_tag) as Hl. unfold slen in Hl. simpl in Hl. lia. }
    apply substring_front.
  - by rewrite slen_app.
Qed.

Definition then_do {A} (ids : N) (m : ptx A) (p : PDB) : PDB := (run_payment (ids_from ids) m p).1.

Definition demo_identity : ProviderIdentity := {| pi_MerchantID := "merchant"; pi_LiveMode := true |}.
Definition demo_create (key : string) : CreateOrderInput :=
  {| co_UserID := demo_user; co_AmountMinor := 500; co_Currency := "USD";
     co_PaymentProvider := "stripe"; co_IdempotencyKey := key |}.
Definition demo_checkout (trade : string) : Checkout :=
  {| ck_ProviderTradeNo := trade; ck_MerchantID := "merchant"; ck_LiveMode := true;
     ck_Data := [("url", "https://pay.example/c")]; ck_ExpiresAt := None |}.
Definition demo_paid_event (id orderNo trade eventType refundNo : string) (amount : Z) : VerifiedEvent :=
  {| ve_ProviderEventID := id; ve_MerchantID := "merchant"; ve_LiveMode := true;
     ve_OrderNo := orderNo; ve_ProviderTradeNo := trade; ve_ProviderRefundNo := refundNo;
     ve_ProviderPaymentIntentNo := ""; ve_ProviderChargeNo := ""; ve_ProviderDisputeNo := "";
     ve_EventType := eventType; ve_AmountMinor := amount; ve_Currency := "USD"; ve_OccurredAt := 5000 |}.

Definition demo_webhook (ids : N) (event : VerifiedEvent) (now : time) : PDB -> PDB :=
  then_do ids (ProcessVerifiedEvent "stripe" event (ve_ProviderEventID event) "req" now now).

(** An order from its creation to its payment. *)
Definition demo_order : uuid := 1000%N.
Definition payload_of (t : string) (p : PDB) : string :=
  default "" (op_PayloadSHA256 <$> map_find (of_operation demo_order t) (operations p)).
Definition demo_claim (t : string) (ids : N) (now : time) (p : PDB) : PDB :=
  then_do ids (ClaimProviderOperation demo_order t demo_identity (payload_of t p) now) p.

Definition p0 : PDB := no_payments {[demo_user]}.
Definition p1 : PDB := then_do 1000 (CreateOrder (demo_create "key-1") demo_identity 9000 2000) p0.
Definition p2 : PDB := demo_claim OperationCreate 1010 2100 p1.
Definition p3 : PDB :=
  then_do 1020 (CompleteCreateOperation demo_order 1010%N (demo_checkout "pi_1") 2200) p2.
Definition demo_paid : VerifiedEvent := demo_paid_event "evt_1" "bablo_pay_1000" "pi_1" EventPaid "" 500.
Definition p4 : PDB := demo_webhook 1030 demo_paid 5100 p3.

(** Its refund: held, sent to the provider, confirmed. *)
Definition demo_refund : RefundInput :=
  {| rf_OperatorUserID := 9%N; rf_OrderNo := "bablo_pay_1000"; rf_RequestID := "req-r" |}.
Definition p5 : PDB := then_do 1040 (PrepareRefund demo_refund demo_identity 5200 5200) p4.
Definition p6 : PDB := demo_claim OperationRefund 1050 5300 p5.
Definition p7 : PDB := then_do 1060 (CompleteRefundOperation demo_order 1050%N "re_1" 5400) p6.
Definition demo_refunded : VerifiedEvent :=
  demo_paid_event "evt_2" "bablo_pay_1000" "pi_1" EventRefunded "re_1" 500.
Definition p8 : PDB := demo_webhook 1070 demo_refunded 5500 p7.

(** Or the provider refuses it. *)
Definition p7' : PDB :=
  then_do 1060 (FinishRefundOperation demo_order 1050%N "declined" true 5400 5400) p6.

(** Or two fifths are refunded at the provider, and the rest is refunded here. *)
Definition demo_partial : VerifiedEvent :=
  demo_paid_event "evt_3" "bablo_pay_1000" "pi_1" EventRefunded "re_9" 200.
Definition x5 : PDB := demo_webhook 1080 demo_partial 5150 p4.
Definition x6 : PDB := then_do 1040 (PrepareRefund demo_refund demo_identity 5200 5200) x5.

(** A voucher of 3.00 is issued and redeemed, and 2.50 recharged by hand. *)
Definition demo_keyring : Secret.Keyring :=
  {| Secret.current := "k1"; Secret.keys := <["k1" := "0123456789abcdef0123456789abcdef"]> ∅ |}.
Definition demo_code : string := voucherPrefix +:+ RawURLEncode (repeat 77 32).
Definition demo_issue : CreateVoucherInput :=
  {| cv_OperatorUserID := 9%N; cv_AmountMinor := 300; cv_IdempotencyKey := "voucher-key";
     cv_Currency := "USD"; cv_ExpiresAt := Some 90000; cv_RequestID := "req-v" |}.
Definition v1 : PDB :=
  then_do 1100 (CreateVoucher (Some demo_keyring) (Some "123456789012") demo_issue demo_code
    (sha256_hex demo_code) (String.substring 0 16 demo_code) 6000) p4.
Definition demo_redeem : RedeemVoucherInput :=
  {| rv_UserID := demo_user; rv_Code := ""; rv_RequestID := "req-w" |}.
Definition v2 : PDB := then_do 1110 (RedeemVoucher demo_redeem (sha256_hex demo_code) 6100 6100) v1.
Definition demo_manual : ManualRechargeInput :=
  {| mr_OperatorUserID := 9%N; mr_UserID := demo_user; mr_AmountMinor := 250; mr_Currency := "USD";
     mr_RequestID := "req-m"; mr_IdempotencyKey := "manual-key" |}.
Definition v3 : PDB := then_do 1120 (ManualRecharge demo_manual "manual-key" 6200 6200) v2.

Definition summary (p : PDB) :=
  ((fun o => (o_Status o, o_ExternalRefundedAmountMinor o, o_FailureClass o)) <$> orders p !! demo_order,
   (fun w => (Billing.w_Available w, Billing.w_Reserved w)) <$> Store.wallets (books_db p) !! 1031%N).


(** The history is one of the transactions of the package. *)
Lemma then_reachable {A} n (m : ptx A) p : payment_tx A m -> preachable p -> preachable (then_do n m p).
Proof. intros Hm Hp. eapply preachable_psteps; [exact Hp|]. by apply rtc_once, pstep_tx. Qed.

Lemma webhook_reachable n event now p :
  in_i64 (ve_AmountMinor event) -> preachable p -> preachable (demo_webhook n event now p).
Proof. intros Ha. by apply then_reachable, tx_event. Qed.

Ltac demo_go := repeat lazymatch goal with
  | |- preachable p0 => apply preachable_start
  | |- preachable (demo_webhook _ _ _ _) => apply webhook_reachable; [by vm_compute|]
  | |- preachable (then_do _ _ _) => apply then_reachable; [tx_known; try (by vm_compute)|]
  end.

Lemma p4_reachable : preachable p4.
Proof. unfold p4, p3, p2, p1, demo_claim. demo_go. Qed.
Lemma p6_reachable : preachable p6.
Proof. unfold p6, p5, demo_claim. demo_go. apply p4_reachable. Qed.
Lemma p8_reachable : preachable p8.
Proof. unfold p8, p7. demo_go. apply p6_reachable. Qed.
Lemma p7'_reachable : preachable p7'.
Proof. unfold p7'. demo_go. apply p6_reachable. Qed.
Lemma x5_reachable : preachable x5.
Proof. unfold x5. demo_go. apply p4_reachable. Qed.
Lemma v3_reachable : preachable v3.
Proof. unfold v3, v2, v1. demo_go. apply p4_reachable. Qed.

Example summaries :
  summary p4 = (Some ("paid", 0, ""), Some (500, 0))
  /\ summary p6 = (Some ("refund_pending", 0, ""), Some (0, 500))
  /\ summary p8 = (Some ("refunded", 0, ""), Some (0, 0))
  /\ summary p7' = (Some ("paid", 0, "declined"), Some (500, 0))
  /\ summary x5 = (Some ("paid", 200, ""), Some (300, 0))
  /\ summary v3 = (Some ("paid", 0, ""), Some (1050, 0)).
Proof. vm_compute. by split_and!. Qed.

(** Rows the witnesses name. *)
Lemma p4_has_order : exists o, orders p4 !! demo_order = Some o /\ o_Status o = StatusPaid.
Proof. eexists. split; vm_compute; reflexivity. Qed.
Lemma p6_has_wallet : exists w, Store.wallets (books_db p6) !! 1031%N = Some w
  /\ Billing.w_Reserved w = 500.
Proof. eexists. split; vm_compute; reflexivity. Qed.
Lemma x5_has_order : exists o, orders x5 !! demo_order = Some o
  /\ o_ExternalRefundedAmountMinor o = 200.
Proof. eexists. split; vm_compute; reflexivity. Qed.
Lemma v2_has_voucher : exists v, vouchers v2 !! 1100%N = Some v /\ vc_Status v = VoucherRedeemed.
Proof. eexists. split; vm_compute; reflexivity. Qed.
Lemma v1_reachable : preachable v1.
Proof. unfold v1. demo_go. apply p4_reachable. Qed.
Lemma v2_reachable : preachable v2.
Proof. unfold v2. demo_go. apply v1_reachable. Qed.

(** The result of a transaction of the history. *)
Lemma then_ran {A} n (m : ptx A) p r :
  (run_payment (ids_from n) m p).2 = r -> run_payment (ids_from n) m p = (then_do n m p, r).
Proof. intros <-. apply surjective_pairing. Qed.
Lemma p1_reachable : preachable p1.
Proof. unfold p1. demo_go. Qed.
Lemma p3_reachable : preachable p3.
Proof. unfold p3, p2, demo_claim. demo_go. apply p1_reachable. Qed.

End PaymentDemo.
