(* ===== verification/PaymentTheorems.v ===== *)
(** * What holds of the payments

    The money: which ledger rows an order, a voucher and a recharge have, what a wallet
    holds back, where the balance of all wallets comes from; the life of orders and
    vouchers; the single flight of provider operations; the idempotence of events. *)

From stdpp Require Import base gmap strings list relations.
From Stdlib Require Import ZArith Lia Ascii String.
From S2P Require Import Prelude GoLib Usage Pricing BillingModel Money Store StoreFacts.
From S2P Require Import BillingOps BillingService BillingInv BillingFacts BillingSteps.
From S2P Require Import BillingHistory BillingDemo BillingRows Coordinator Secret PaymentModel.
From S2P Require Import PaymentStore PaymentRepo PaymentEvents PaymentFunding PaymentService.
From S2P Require Import PaymentWorker PaymentMoves PaymentInv PaymentFacts PaymentSteps.
From S2P Require Import PaymentMoney PaymentLife PaymentRows PaymentDemo.

Module PaymentTheorems.
Import Payment PaymentStore PaymentRepo PaymentEvents PaymentFunding PaymentService PaymentWorker
  BillingInv BillingRows PaymentMoves PaymentInv PaymentFacts PaymentLife PaymentRows PaymentDemo.
Import Store(DB, SqlGuards, WallClock, wallets, reservations, liabilities, ledger, of_wallet).
Import Coordinator(Sha256Hex, sha256_hex).
Import Billing(LedgerEntry, le_ID, le_WalletID, le_EntryType, le_AmountMinor, le_AvailableDelta,
  le_ReservedDelta, EntryRecharge, w_Available, w_Reserved, w_ID).

Section theorems.
Context `{UuidText, SqlGuards, WallClock, PaymentGuards, Sha256Hex, TimeText, Secret.Aead}.
Context (UL : UuidTextLaws _).

(** ** Sums over wallets *)
Lemma msum_plus {K} `{Countable K} {V} (f g : V -> Z) (m : gmap K V) :
  msum (fun v => f v + g v) m = msum f m + msum g m.
Proof.
  unfold msum. induction (map_to_list m) as [|x l IH]; [done|]. rewrite !lsum_cons, IH. lia.
Qed.

Lemma msum_one (W : gmap uuid Billing.Wallet) k a : is_Some (W !! k) ->
  (forall i w, W !! i = Some w -> w_ID w = i) ->
  msum (fun w => if uuid_eqb k (w_ID w) then a else 0) W = a.
Proof.
  intros [w Hw] Hk. rewrite (msum_lookup _ _ _ _ Hw), (Hk _ _ Hw), uuid_eqb_refl.
  rewrite msum_zero; [lia|]. intros i v [Hne Hv]%lookup_delete_Some. rewrite (Hk _ _ Hv).
  assert (uuid_eqb k i = false) as -> by (by apply uuid_eqb_neq). done.
Qed.

Lemma wallets_partition (W : gmap uuid Billing.Wallet) (f : LedgerEntry -> Z) G :
  (forall i w, W !! i = Some w -> w_ID w = i) -> (forall e, e ∈ G -> is_Some (W !! le_WalletID e)) ->
  msum (fun w => lsum (of_wallet (w_ID w) f) G) W = lsum f G.
Proof.
  intros HW. induction G as [|e G IH]; intros Hk.
  - apply msum_zero. done.
  - rewrite lsum_cons, <- IH by (intros e' He'; apply Hk; by right).
    rewrite <- (msum_one W (le_WalletID e) (f e)) by first [done|apply Hk, list_elem_of_here].
    rewrite <- msum_plus. apply msum_ext. intros i w _. by rewrite lsum_cons.
Qed.

(** The balance of all wallets is what the ledger moved. *)
Lemma wallets_total d : Inv d ->
  msum (fun w => w_Available w + w_Reserved w) (wallets d) = lsum net (ledger d).
Proof.
  intros HI. pose proof (inv_books _ HI) as HB. rewrite msum_plus.
  assert (lsum net (ledger d) = lsum le_AvailableDelta (ledger d) + lsum le_ReservedDelta (ledger d)) as ->.
  { clear HI HB. induction (ledger d) as [|e G IH]; [done|]. rewrite !lsum_cons, IH. unfold net. lia. }
  rewrite <- (wallets_partition (wallets d) le_AvailableDelta), <- (wallets_partition (wallets d) le_ReservedDelta)
    by apply HB.
  f_equal; apply msum_ext; intros k w Hk; rewrite (bk_keyed _ _ HB _ _ Hk);
    by destruct (bk_sum _ _ HB _ _ Hk) as [E1 E2].
Qed.

(** the ledger rows that refer to an order are, in order, exactly those its columns
    record: none before it is paid; then one recharge of its amount on its wallet, the row
    the order names; a refund hold, and its reversal or release, when it has them.  So a
    paid order has been credited exactly once, whatever webhooks, retries, reconciliation
    passes and other operations ran. *)
Theorem order_rows_are_exactly_recorded p k o :
  preachable p -> orders p !! k = Some o ->
  phase o
  /\ Forall2 (row_is (o_WalletID o)) (expected o)
       (rows_of (SOrder (uuid_string (o_ID o))) (ledger (books_db p)))
  /\ (forall w, o_WalletID o = Some w -> owns (books_db p) w (o_UserID o) (o_Currency o)).
Proof.
  intros Hp Hk. apply (preachable_PInv UL) in Hp. destruct (pv_order _ Hp _ _ Hk) as [-> ????? _].
  by split_and!.
Qed.

(** the reserved balance of a wallet is what is held: the amounts of its open
    reservations and of the refunds of its orders that wait for the provider. *)
Theorem reserved_is_holds_and_pending_refunds p wid w :
  preachable p -> wallets (books_db p) !! wid = Some w ->
  w_Reserved w = held_by wid (reservations (books_db p)) + msum (pending_of wid) (orders p).
Proof.
  intros Hp Hw. apply (preachable_PInv UL) in Hp. rewrite <- (pv_pending _ Hp).
  by apply (inv_held _ (pv_books _ Hp)).
Qed.

(** C7: conservation.  The balances of all wallets add up to what orders, vouchers and
    manual recharges brought in, less refunds, and what usage charges, corrections and
    liabilities moved. *)
Theorem balances_come_from_payments_and_usage p :
  preachable p ->
  msum (fun w => w_Available w + w_Reserved w) (wallets (books_db p))
  = money_in p + usage_net (ledger (books_db p)).
Proof.
  intros Hp. apply (preachable_PInv UL) in Hp.
  rewrite wallets_total by apply Hp. apply (pv_net _ Hp).
Qed.

(** C14: refinement.  Whatever a transaction of the package commits is a sequence of moves
    of the abstract ledger machine: each changes one order, voucher or recharge along its
    status graph and posts exactly the ledger rows that go with it. *)
Theorem transactions_refine_the_ledger_machine p A (m : ptx A) ids :
  preachable p -> payment_tx A m -> rtc move p (run_payment ids m p).1.
Proof.
  intros Hp Hm. apply (pstep_moves UL); [by apply preachable_PInv|]. by apply pstep_tx.
Qed.

(** a method of the service, with whatever other processes commit between its
    transactions, leaves the rows in a reachable state: every statement about reachable
    rows holds after it, also when it fails or its provider misbehaves. *)
Theorem service_calls_stay_reachable providers clock others orderTTL keyring A (m : svc A) w :
  (forall n p, rtc pstep p (others n p)) ->
  (forall name provider, providers !! name = Some provider -> provider_typed provider) ->
  call providers clock others orderTTL keyring A m ->
  preachable (w_db w) -> preachable (w_db (m w).1) /\ PInv (w_db (m w).1).
Proof.
  intros Ho Ht Hm Hw.
  assert (preachable (w_db (m w).1)) as Hp.
  { eapply preachable_psteps; [exact Hw|]. by eapply call_stepping. }
  split; [done|by apply preachable_PInv].
Qed.

(** external refunds.  The refunded amount an order shows is the sum of the refunds
    recorded for it, never more than the order, and each of them is a liability of its
    amount on the books. *)
Theorem external_refunds_add_up p k o :
  preachable p -> orders p !! k = Some o ->
  o_ExternalRefundedAmountMinor o = external_sum k (external_refunds p)
  /\ 0 <= o_ExternalRefundedAmountMinor o <= o_AmountMinor o
  /\ (forall i x, external_refunds p !! i = Some x ->
        exists l, liabilities (books_db p) !! xr_LiabilityID x = Some l
                  /\ Billing.l_Principal l = xr_AmountMinor x).
Proof.
  intros Hp Hk. apply (preachable_PInv UL) in Hp. destruct (pv_order _ Hp _ _ Hk) as [_ Hc Ha _ _ _ HX].
  split_and!; [done|..].
  - unfold order_check in Hc. bools. lia.
  - unfold order_check in Hc. bools. lia.
  - intros i x Hx. by destruct (pv_external _ Hp _ _ Hx) as (_ & _ & ?).
Qed.

End theorems.

(** ** Instances *)
Import BillingDemo.

Lemma order_rows_are_exactly_recorded_witness : exists o, orders p4 !! demo_order = Some o
  /\ o_Status o = StatusPaid /\ phase o
  /\ Forall2 (row_is (o_WalletID o)) (expected o)
       (rows_of (SOrder (uuid_string (o_ID o))) (ledger (books_db p4)))
  /\ (forall w, o_WalletID o = Some w -> owns (books_db p4) w (o_UserID o) (o_Currency o)).
Proof.
  destruct p4_has_order as (o & Ho & Hs). exists o. split; [exact Ho|split; [exact Hs|]].
  apply (order_rows_are_exactly_recorded demo_text_laws p4 demo_order o p4_reachable Ho).
Defined.

Lemma reserved_is_holds_and_pending_refunds_witness : exists w,
  wallets (books_db p6) !! 1031%N = Some w /\ w_Reserved w = 500
  /\ w_Reserved w = held_by 1031%N (reservations (books_db p6)) + msum (pending_of 1031%N) (orders p6).
Proof.
  destruct p6_has_wallet as (w & Hw & Hr). exists w. split; [exact Hw|split; [exact Hr|]].
  apply (reserved_is_holds_and_pending_refunds demo_text_laws p6 1031%N w p6_reachable Hw).
Defined.

Lemma balances_come_from_payments_and_usage_witness :
  money_in v3 = 1050
  /\ msum (fun w => w_Available w + w_Reserved w) (wallets (books_db v3))
     = money_in v3 + usage_net (ledger (books_db v3)).
Proof.
  split; [vm_compute; reflexivity|].
  apply (balances_come_from_payments_and_usage demo_text_laws v3 v3_reachable).
Defined.

Lemma transactions_refine_the_ledger_machine_witness :
  rtc move p4 (run_payment (BillingDemo.ids_from 1040) (PrepareRefund demo_refund demo_identity 5200 5200) p4).1.
Proof.
  apply (transactions_refine_the_ledger_machine demo_text_laws p4 _ _ _ p4_reachable
           (tx_prepare_refund _ _ _ _)).
Defined.

Definition demo_world : World := mkWorld v2 (BillingDemo.ids_from 1120) 0.

Lemma service_calls_stay_reachable_witness :
  let w' := (Service_ManualRecharge (fun _ => 6200) (fun _ p => p) demo_manual demo_world).1 in
  preachable (w_db w') /\ PInv (w_db w').
Proof.
  apply (service_calls_stay_reachable demo_text_laws ∅ (fun _ => 6200) (fun _ p => p) 0 None _
           (Service_ManualRecharge (fun _ => 6200) (fun _ p => p) demo_manual) demo_world).
  - intros n p. reflexivity.
  - intros name provider Hp. discriminate Hp.
  - apply call_manual. vm_compute. split; intros Hd; discriminate Hd.
  - exact v2_reachable.
Defined.

Lemma external_refunds_add_up_witness : exists o, orders x5 !! demo_order = Some o
  /\ o_ExternalRefundedAmountMinor o = 200
  /\ o_ExternalRefundedAmountMinor o = external_sum demo_order (external_refunds x5)
  /\ 0 <= o_ExternalRefundedAmountMinor o <= o_AmountMinor o
  /\ (forall i x, external_refunds x5 !! i = Some x ->
        exists l, liabilities (books_db x5) !! xr_LiabilityID x = Some l
                  /\ Billing.l_Principal l = xr_AmountMinor x).
Proof.
  destruct x5_has_order as (o & Ho & Hs). exists o. split; [exact Ho|split; [exact Hs|]].
  apply (external_refunds_add_up demo_text_laws x5 demo_order o x5_reachable Ho).
Defined.

End PaymentTheorems.

(** * The life of an order and of a voucher

    What later states say of a row that an earlier one had. *)

From stdpp Require Import base gmap strings list relations.
From Stdlib Require Import ZArith Lia Ascii String.
From S2P Require Import Prelude GoLib Usage Pricing BillingModel Money Store StoreFacts.
From S2P Require Import BillingOps BillingService BillingInv BillingFacts BillingSteps.
From S2P Require Import BillingHistory BillingDemo BillingRows Coordinator Secret PaymentModel.
From S2P Require Import PaymentStore PaymentRepo PaymentEvents PaymentFunding PaymentMoves.
From S2P Require Import PaymentInv PaymentFacts PaymentLife PaymentDemo.

Module PaymentHistory.
Import Payment PaymentStore PaymentRepo PaymentEvents PaymentFunding BillingInv BillingHistory
  BillingRows PaymentMoves PaymentInv PaymentFacts PaymentLife PaymentDemo.
Import Store(DB, SqlGuards, WallClock, wallets, ledger).
Import Coordinator(Sha256Hex).
Import Billing(LedgerEntry, le_WalletID, le_AmountMinor, le_AvailableDelta, one_of).

(** ** Orders *)
Definition status_step (a b : string) : Prop := next_status a b = true.

Record order_evolves (o o' : Order) : Prop := {
  oe_identity : order_identity o o';
  oe_facts : order_facts_kept o o' = true;
  oe_merchant : o_MerchantID o = "" \/ o_MerchantID o' = o_MerchantID o;
  oe_mode : o_ProviderLiveMode o = None \/ o_ProviderLiveMode o' = o_ProviderLiveMode o;
  oe_status : rtc status_step (o_Status o) (o_Status o');
  oe_updated : o_UpdatedAt o <= o_UpdatedAt o'
}.

Lemma kept_trans {A} `{EqDecision A} (a b c : option A) :
  kept a b = true -> kept b c = true -> kept a c = true.
Proof.
  unfold kept. destruct a as [x|]; [|done]. intros ->%bool_decide_eq_true. done.
Qed.

Lemma kept_text_trans a b c : kept_text a b = true -> kept_text b c = true -> kept_text a c = true.
Proof.
  unfold kept_text. rewrite !orb_true_iff, !String.eqb_eq. intuition congruence.
Qed.

Lemma kept_refl {A} `{EqDecision A} (a : option A) : kept a a = true.
Proof. unfold kept. destruct a; [by apply bool_decide_eq_true|done]. Qed.

Lemma kept_text_refl a : kept_text a a = true.
Proof. unfold kept_text. by rewrite String.eqb_refl, orb_true_r. Qed.

Lemma order_facts_refl o : order_facts_kept o o = true.
Proof. unfold order_facts_kept. by rewrite !kept_text_refl, !kept_refl, Z.leb_refl. Qed.

Lemma order_facts_trans o1 o2 o3 :
  order_facts_kept o1 o2 = true -> order_facts_kept o2 o3 = true -> order_facts_kept o1 o3 = true.
Proof.
  unfold order_facts_kept. rewrite !andb_true_iff, !Z.leb_le. intros A B. destruct_and! A. destruct_and! B.
  split_and!; (eapply kept_text_trans; eassumption) || (eapply kept_trans; eassumption) || lia.
Qed.

Lemma order_evolves_refl o : order_evolves o o.
Proof. constructor; [by split_and!|apply order_facts_refl|by right|by right|done|lia]. Qed.

Lemma order_evolves_trans o1 o2 o3 :
  order_evolves o1 o2 -> order_evolves o2 o3 -> order_evolves o1 o3.
Proof.
  intros [I1 F1 M1 L1 S1 U1] [I2 F2 M2 L2 S2 U2]. constructor.
  - unfold order_identity in *. intuition congruence.
  - by eapply order_facts_trans.
  - destruct M1 as [?|E]; [by left|]. rewrite E in M2. destruct M2; [by left|right; congruence].
  - destruct L1 as [?|E]; [by left|]. rewrite E in L2. destruct L2; [by left|right; congruence].
  - by etrans.
  - lia.
Qed.

Lemma order_step_evolves o o' : order_step o o' -> order_evolves o o'.
Proof.
  intros [I F M L S U _]. constructor; try done. destruct S as [->|S]; [done|by apply rtc_once].
Qed.

(** ** Vouchers *)
Record voucher_evolves (v v' : Voucher) : Prop := {
  ve_same : vc_ID v' = vc_ID v /\ vc_AmountMinor v' = vc_AmountMinor v
            /\ vc_Currency v' = vc_Currency v /\ vc_CodeHash v' = vc_CodeHash v
            /\ vc_IdempotencyKey v' = vc_IdempotencyKey v;
  ve_final : vc_Status v <> VoucherActive -> v' = v
}.

Lemma voucher_evolves_refl v : voucher_evolves v v.
Proof. by constructor. Qed.

Lemma voucher_evolves_trans v1 v2 v3 :
  voucher_evolves v1 v2 -> voucher_evolves v2 v3 -> voucher_evolves v1 v3.
Proof.
  intros [E1 F1] [E2 F2]. constructor; [destruct_and! E1; destruct_and! E2; split_and!; congruence|].
  intros Hs. specialize (F1 Hs). subst v2. by apply F2.
Qed.

Section history.
Context `{UuidText}.

(** Rows of a table only evolve. *)
Definition rows_kept {V} (R : V -> V -> Prop) (m m' : gmap uuid V) : Prop :=
  forall k v, m !! k = Some v -> exists v', m' !! k = Some v' /\ R v v'.

Lemma rows_kept_refl {V} (R : V -> V -> Prop) m : (forall v, R v v) -> rows_kept R m m.
Proof. intros HR k v Hk. by exists v. Qed.

Lemma rows_kept_new {V} (R : V -> V -> Prop) m k v : (forall v, R v v) ->
  m !! k = None -> rows_kept R m (<[k := v]> m).
Proof. intros HR Hk k2 v2 Hk2. exists v2. rewrite lookup_insert_ne by congruence. done. Qed.

Lemma rows_kept_change {V} (R : V -> V -> Prop) m k v v' : (forall v, R v v) ->
  m !! k = Some v -> R v v' -> rows_kept R m (<[k := v']> m).
Proof.
  intros HR Hk Hv k2 v2 Hk2. destruct (decide (k = k2)) as [<-|Hne].
  - exists v'. rewrite lookup_insert_eq. split; [done|congruence].
  - exists v2. by rewrite lookup_insert_ne.
Qed.

Record tables_evolve (p p' : PDB) : Prop := {
  te_orders : rows_kept order_evolves (orders p) (orders p');
  te_vouchers : rows_kept voucher_evolves (vouchers p) (vouchers p');
  te_books : evolves (books_db p) (books_db p')
}.

Lemma tables_evolve_trans p1 p2 p3 :
  tables_evolve p1 p2 -> tables_evolve p2 p3 -> tables_evolve p1 p3.
Proof.
  intros [O1 V1 B1] [O2 V2 B2]. constructor; [..|by etrans].
  - intros k o (o2 & Hk2 & E2)%O1. apply O2 in Hk2 as (o3 & Hk3 & E3). exists o3.
    split; [done|by eapply order_evolves_trans].
  - intros k v (v2 & Hk2 & E2)%V1. apply V2 in Hk2 as (v3 & Hk3 & E3). exists v3.
    split; [done|by eapply voucher_evolves_trans].
Qed.

Ltac same_orders := apply rows_kept_refl, order_evolves_refl.
Ltac same_vouchers := apply rows_kept_refl, voucher_evolves_refl.

Lemma order_move_evolves p p' k o o' es V F X : order_move p p' k o o' es ->
  frame p' (<[k := o']> (orders p)) (vouchers p) F X -> V = vouchers p -> tables_evolve p p'.
Proof.
  intros [Hk Hs _ [_ Hev _]] (EO & EV & _) _. constructor; [..|done].
  - rewrite EO. eapply rows_kept_change; [apply order_evolves_refl|exact Hk|by apply order_step_evolves].
  - rewrite EV. same_vouchers.
Qed.

Lemma voucher_move_evolves p p' k v v' es F X : vouchers p !! k = Some v -> voucher_evolves v v' ->
  posts (books_db p) (books_db p') es -> frame p' (orders p) (<[k := v']> (vouchers p)) F X ->
  tables_evolve p p'.
Proof.
  intros Hk Hv [_ Hev _] (EO & EV & _). constructor; [..|done].
  - rewrite EO. same_orders.
  - rewrite EV. by eapply rows_kept_change; [apply voucher_evolves_refl|..].
Qed.

Lemma move_evolves p p' : move p p' -> tables_evolve p p'.
Proof.
  intros Hm. destruct Hm;
    try (by eapply order_move_evolves; [eassumption|eassumption|reflexivity]);
    try (eapply voucher_move_evolves; [eassumption| |eassumption|eassumption]);
    try (match goal with
         | Hs : vc_Status ?v = VoucherActive |- voucher_evolves ?v _ =>
             constructor; [by split_and!|by rewrite Hs]
         end).
  all: match goal with
       | Hp : posts _ _ _, Hf : frame _ _ _ _ _ |- _ =>
           destruct Hp as [_ Hev _]; destruct Hf as (EO & EV & _)
       end; constructor; rewrite ?EO, ?EV; try done; try same_orders; try same_vouchers.
  - by apply rows_kept_new; [apply order_evolves_refl|].
  - by apply rows_kept_new; [apply voucher_evolves_refl|].
Qed.

Lemma moves_evolve p p' : rtc move p p' -> tables_evolve p p'.
Proof.
  intros Hm. induction Hm as [p|p1 p2 p3 Hm _ IH].
  - constructor; [same_orders|same_vouchers|reflexivity].
  - eapply tables_evolve_trans; [by apply move_evolves|done].
Qed.

Context `{SqlGuards, WallClock, PaymentGuards, Sha256Hex, TimeText, Secret.Aead}.
Context (UL : UuidTextLaws _).

Lemma psteps_evolve p p' : preachable p -> rtc pstep p p' -> tables_evolve p p'.
Proof.
  intros Hp Hs. apply moves_evolve, (psteps_moves UL); [by apply preachable_PInv|done].
Qed.

(** C11: the life of an order.  In every later state the order is still there with the same
    owner, amount, currency and provider; what it has recorded (merchant, mode, provider
    references, times, wallet, ledger rows) stays; its refunded amount and update time
    only grow; its status has followed the graph, so a refunded or closed order stays one. *)
Theorem order_lifecycle p p' k o :
  preachable p -> rtc pstep p p' -> orders p !! k = Some o ->
  exists o', orders p' !! k = Some o' /\ order_evolves o o'
    /\ (one_of (o_Status o) [StatusRefunded; StatusClosed] = true -> o_Status o' = o_Status o).
Proof.
  intros Hp Hs Hk. destruct (te_orders _ _ (psteps_evolve _ _ Hp Hs) _ _ Hk) as (o' & Hk' & He).
  exists o'. split_and!; [done..|]. intros Ht. pose proof (oe_status _ _ He) as Hst.
  destruct Hst as [|a b c Hab _]; [done|]. exfalso. unfold status_step in Hab.
  unfold one_of in Ht. cbn [existsb] in Ht. rewrite orb_false_r in Ht.
  apply orb_true_iff in Ht as [->%String.eqb_eq| ->%String.eqb_eq]; discriminate Hab.
Qed.

(** C12: a voucher is redeemed at most once.  Later states keep its amount, currency and
    code; once it is redeemed, revoked or expired it never changes again; and the ledger
    holds no row of it, or, when it is redeemed, one grant of its amount on the wallet of
    the user who redeemed it. *)
Theorem voucher_single_use p p' k v :
  preachable p -> rtc pstep p p' -> vouchers p !! k = Some v ->
  exists v', vouchers p' !! k = Some v' /\ voucher_evolves v v'
    /\ voucher_rows p' k v' (rows_of (SVoucher (uuid_string k)) (ledger (books_db p')))
    /\ (vc_Status v' <> VoucherActive -> vc_CodeCiphertext v' = "").
Proof.
  intros Hp Hs Hk. destruct (te_vouchers _ _ (psteps_evolve _ _ Hp Hs) _ _ Hk) as (v' & Hk' & He).
  assert (PInv p') as HP by (apply preachable_PInv; [done|by eapply preachable_psteps]).
  destruct (pv_voucher _ HP _ _ Hk') as [_ _ Hr Hc]. by exists v'.
Qed.
End history.

(** ** Instances *)
Import BillingDemo.

Lemma p4_to_p8 : rtc pstep p4 p8.
Proof.
  unfold p8, p7, p6, p5, demo_claim, demo_webhook, then_do.
  do 4 (eapply rtc_r; [|apply pstep_tx; tx_known; try (by vm_compute)]). done.
Qed.


Lemma order_lifecycle_witness : exists o, orders p4 !! demo_order = Some o /\ o_Status o = StatusPaid
  /\ exists o', orders p8 !! demo_order = Some o' /\ order_evolves o o'
    /\ (one_of (o_Status o) [StatusRefunded; StatusClosed] = true -> o_Status o' = o_Status o).
Proof.
  destruct p4_has_order as (o & Ho & Hs). exists o. split; [exact Ho|split; [exact Hs|]].
  apply (order_lifecycle demo_text_laws p4 p8 demo_order o p4_reachable p4_to_p8 Ho).
Defined.

Lemma v2_to_v3 : rtc pstep v2 v3.
Proof. unfold v3, then_do. eapply rtc_r; [reflexivity|apply pstep_tx; tx_known; by vm_compute]. Qed.

Lemma voucher_single_use_witness : exists v, vouchers v2 !! 1100%N = Some v
  /\ vc_Status v = VoucherRedeemed
  /\ exists v', vouchers v3 !! 1100%N = Some v' /\ voucher_evolves v v'
    /\ voucher_rows v3 1100%N v' (rows_of (SVoucher (uuid_string 1100%N)) (ledger (books_db v3)))
    /\ (vc_Status v' <> VoucherActive -> vc_CodeCiphertext v' = "").
Proof.
  destruct v2_has_voucher as (v & Hv & Hs). exists v. split; [exact Hv|split; [exact Hs|]].
  apply (voucher_single_use demo_text_laws v2 v3 1100%N v v2_reachable v2_to_v3 Hv).
Defined.

End PaymentHistory.
