(* ===== verification/PaymentProtocol.v ===== *)
(** * The protocol with the providers

    Provider operations are claimed by one worker at a time and retried with a bounded
    back-off; an authenticated event takes effect once; a payment is credited only for an
    event that matches the order. *)

From stdpp Require Import base gmap strings list relations sorting.
From Stdlib Require Import ZArith Lia Ascii String.
From S2P Require Import Prelude GoLib Usage Pricing BillingModel Money Store StoreFacts.
From S2P Require Import BillingOps BillingService BillingInv BillingFacts BillingSteps.
From S2P Require Import BillingHistory BillingDemo BillingRows Coordinator Secret PaymentModel.
From S2P Require Import PaymentStore PaymentRepo PaymentEvents PaymentFunding PaymentMoves.
From S2P Require Import PaymentInv PaymentFacts PaymentSteps PaymentMoney PaymentLife PaymentRows.
From S2P Require Import PaymentDemo.

Module PaymentProtocol.
Import Payment PaymentStore PaymentRepo PaymentEvents PaymentFunding PaymentMoves PaymentInv
  PaymentFacts PaymentSteps PaymentMoney PaymentLife PaymentRows PaymentDemo.
Import Store(DB, SqlGuards, WallClock).
Import Coordinator(Sha256Hex).
Import Billing(one_of).

(** ** Back-off *)
Lemma double_delay_min n d : 0 < d ->
  Z.min (5 * Minute) (double_delay n d) = Z.min (5 * Minute) (d * 2 ^ Z.of_nat n).
Proof.
  revert d. induction n as [|n IH]; intros d Hd.
  - simpl. f_equal. lia.
  - rewrite Nat2Z.inj_succ, Z.pow_succ_r by lia. cbn [double_delay].
    destruct (Z.ltb_spec d (5 * Minute)) as [Hlt|Hge].
    + rewrite i64_mul_id by (i64_unfold; unfold Minute, Second in *; lia). rewrite IH by lia.
      f_equal. lia.
    + assert (1 <= 2 ^ Z.of_nat n) by (apply (Z.pow_le_mono_r 2 0); lia). nia.
Qed.

(** the delay before a retry is five seconds doubled for every earlier attempt, cut at
    five minutes: it never overflows, never falls below five seconds, and grows with the
    number of attempts. *)
Theorem retry_delay_is_capped_doubling attempts :
  providerOperationRetryDelay attempts
  = Z.min (5 * Minute) (5 * Second * 2 ^ Z.max 0 (attempts - 1))
  /\ 5 * Second <= providerOperationRetryDelay attempts <= 5 * Minute
  /\ (forall more, attempts <= more ->
        providerOperationRetryDelay attempts <= providerOperationRetryDelay more).
Proof.
  assert (forall n, providerOperationRetryDelay n
            = Z.min (5 * Minute) (5 * Second * 2 ^ Z.max 0 (n - 1))) as Hc.
  { intros n. unfold providerOperationRetryDelay.
    rewrite <- (Z2Nat.id (Z.max 0 (n - 1))), <- double_delay_min by (unfold Second; lia).
    replace (Z.to_nat (Z.max 0 (n - 1))) with (Z.to_nat (n - 1)) by lia.
    change providerOperationRetryBase with (5 * Second). case_match eqn:E; lia. }
  assert (forall n, 1 <= 2 ^ Z.max 0 (n - 1)) as H1.
  { intros n. apply (Z.pow_le_mono_r 2 0); lia. }
  split_and!; [done| | |].
  - rewrite Hc. specialize (H1 attempts). unfold Minute, Second in *. lia.
  - rewrite Hc. lia.
  - intros more Hle. rewrite !Hc.
    assert (2 ^ Z.max 0 (attempts - 1) <= 2 ^ Z.max 0 (more - 1)) by (apply Z.pow_le_mono_r; lia).
    unfold Second. lia.
Qed.

Section protocol.
Context `{UuidText, SqlGuards, WallClock, PaymentGuards, Sha256Hex, TimeText, Secret.Aead}.

Lemma run_ok {A} ids (m : ptx A) p p' a : run_payment ids m p = (p', Ok a) ->
  exists ids', m (ids, p) = ((ids', p'), Ok a).
Proof.
  unfold run_payment, commit. destruct (m (ids, p)) as [[ids' p1] [x|f]]; simpl; [|done].
  intros [= <- <-]. by exists ids'.
Qed.

(** ** Claims *)
Lemma claim_ok ids k t identity payload now p s' claim :
  ClaimProviderOperation k t identity payload now (ids, p) = (s', Ok claim) ->
  cl_Claimed claim = true -> rows_ok p -> keyed (orders p) ->
  exists op owner, cl_Operation claim = op /\ op_PaymentOrderID op = k /\ op_OperationType op = t
    /\ op_Status op = OperationProcessing /\ op_OwnerToken op = Some owner
    /\ op_LeaseExpiresAt op = Some (pg_time (now + providerOperationLease))
    /\ operations s'.2 !! op_ID op = Some op.
Proof.
  intros Hm Hc Hr HO. unfold ClaimProviderOperation in Hm.
  destruct (normalizeProviderIdentity identity) as [ident|]; [|p_inv].
  apply stx_bind_ok in Hm as (s1 & [] & Hw & Hm). apply p_when_ok in Hw as [_ ->].
  apply stx_bind_ok in Hm as (s1 & o & Ho & Hm). apply loaded_order in Ho as [-> Hko].
  apply stx_bind_ok in Hm as (s1 & found & Hf & Hm). apply optional_ok in Hf.
  unfold loadProviderOperation, pread, stx_gets, mbind, stx_mbind, prow, stx_lift in Hf.
  destruct found as [op|].
  - simpl in Hf. destruct (map_find _ (operations p)) as [op1|] eqn:Hfind; [|done].
    injection Hf as <- <-. apply map_find_Some in Hfind as (k1 & Hk1 & Hq).
    unfold of_operation in Hq. bools. pose proof (ro_op_keyed _ Hr _ _ Hk1) as Hkey.
    apply stx_bind_ok in Hm as (s2 & [] & Hw & Hm). apply p_when_ok in Hw as [_ ->].
    destruct (operation_waits op1 now); [p_inv; done|].
    apply stx_bind_ok in Hm as (s2 & owner & Hi & Hm). apply p_new_id_ok in Hi.
    apply stx_bind_ok in Hm as (s3 & op2 & Hu & Hm). apply p_mapped_ok in Hu.
    unfold update_operation in Hu. p_inv.
    match goal with E : operations _ !! op_ID op1 = Some ?x |- _ =>
      assert (x = op1) as -> by congruence end.
    eexists _, owner. split_and!; try done. simpl. apply lookup_insert_eq.
  - assert (s1 = (ids, p)) as ->.
    { simpl in Hf. by destruct (map_find _ (operations p)); injection Hf. }
    apply stx_bind_ok in Hm as (s2 & owner & Hi & Hm). apply p_new_id_ok in Hi.
    apply stx_bind_ok in Hm as (s3 & opID & Hi2 & Hm). apply p_new_id_ok in Hi2.
    apply stx_bind_ok in Hm as (s4 & op2 & Hu & Hm). apply p_mapped_ok in Hu.
    unfold insert_operation in Hu. p_inv.
    eexists _, owner. split_and!; try done; [|simpl; apply lookup_insert_eq]. by apply HO.
Qed.

(** C10: a provider operation is in the hands of one worker at a time.  A claim that
    succeeds gives the operation to a fresh owner for thirty seconds (the end of the lease is
    stored in microseconds), and in whatever
    reachable state that row still stands, no claim of the same operation before the lease
    ends succeeds or changes anything. *)
Theorem claims_are_single_flight (UL : UuidTextLaws _) ids k t identity payload now p p1 claim :
  preachable p ->
  run_payment ids (ClaimProviderOperation k t identity payload now) p = (p1, Ok claim) ->
  cl_Claimed claim = true ->
  let op := cl_Operation claim in
  (operations p1 !! op_ID op = Some op /\ op_Status op = OperationProcessing
   /\ is_Some (op_OwnerToken op) /\ op_LeaseExpiresAt op = Some (pg_time (now + providerOperationLease)))
  /\ forall p2 ids' identity' payload' now' p3 r, preachable p2 ->
       operations p2 !! op_ID op = Some op -> now' < pg_time (now + providerOperationLease) ->
       run_payment ids' (ClaimProviderOperation k t identity' payload' now') p2 = (p3, r) ->
       p3 = p2 /\ forall c, r = Ok c -> cl_Claimed c = false /\ cl_Operation c = op.
Proof.
  intros Hp Hrun Hc. apply run_ok in Hrun as (ids1 & Hm).
  pose proof (preachable_rows _ Hp) as Hr. pose proof (PInv_keyed _ (preachable_PInv UL _ Hp)) as HO.
  destruct (claim_ok _ _ _ _ _ _ _ _ _ Hm Hc Hr HO) as (op & owner & -> & E1 & E2 & E3 & E4 & E5 & E6).
  cbn zeta. split; [split_and!; [exact E6|done|by rewrite E4|done]|].
  intros p2 ids' identity' payload' now' p3 r Hp2 Hk2 Hlt Hrun2.
  pose proof (preachable_rows _ Hp2) as Hr2.
  pose proof (find_operation _ _ _ Hr2 Hk2) as Hfind. rewrite E1, E2 in Hfind.
  unfold run_payment, commit in Hrun2.
  destruct (ClaimProviderOperation k t identity' payload' now' (ids', p2)) as [[ids3 p4'] [c|f]] eqn:Hm2;
    [|by injection Hrun2 as <- <-].
  injection Hrun2 as <- <-. unfold ClaimProviderOperation in Hm2.
  destruct (normalizeProviderIdentity identity') as [ident|]; [|p_inv].
  apply stx_bind_ok in Hm2 as (s1 & [] & Hw & Hm2). apply p_when_ok in Hw as [_ ->].
  apply stx_bind_ok in Hm2 as (s1 & o & Ho & Hm2). apply loaded_order in Ho as [-> Hko].
  unfold loadProviderOperation, optional, pread, stx_gets, mbind, stx_mbind, prow, stx_lift in Hm2.
  simpl in Hm2. rewrite Hfind in Hm2. simpl in Hm2.
  destruct (negb (operation_matches op payload' ident)); simpl in Hm2; [done|].
  assert (operation_waits op now' = true) as Hwt.
  { unfold operation_waits. rewrite E3, E5. apply orb_true_iff. left. apply orb_true_iff. right.
    unfold After. simpl. by apply Z.ltb_lt. }
  rewrite Hwt in Hm2. injection Hm2 as <- <- <-. split; [done|]. by intros c [= <-].
Qed.

(** ** Events *)
Section recorded.
Context (i : uuid) (row : PEvent).

(** The row of the event stands, up to its processing columns. *)
Definition recorded (p : PDB) : Prop :=
  exists st class, events p !! i = Some (processing_row row st class).

Lemma recorded_indifferent : indifferent recorded.
Proof. by constructor; intros ? p (st & class & Hk); exists st, class. Qed.

Lemma recorded_orders f p : recorded p -> recorded (set_orders f p).
Proof. intros (st & class & Hk). by exists st, class. Qed.

Lemma recorded_insert op : always recorded (insert_operation op).
Proof. unfold insert_operation. always_go. Qed.
Lemma recorded_update k f : always recorded (update_operation k f).
Proof. unfold update_operation. always_go. Qed.

Lemma recorded_processing k st class : always recorded (update_processing k st class).
Proof.
  intros s s' r (st0 & class0 & Hk). unfold update_processing. run_stmt.
  destruct (events s.2 !! k) as [e|] eqn:He; [|intros [= <- _]; by exists st0, class0].
  destruct (guard_event _); [intros [= <- _]; by exists st0, class0|]. simpl. intros [= <- _]. simpl.
  destruct (decide (k = i)) as [->|Hne].
  - exists st, class. simpl. rewrite lookup_insert_eq. f_equal. assert (e = processing_row row st0 class0) as ->
      by congruence. done.
  - exists st0, class0. simpl. by rewrite lookup_insert_ne.
Qed.

Definition outcome_of (e : option error) (p : PDB) : Prop :=
  exists class, events p !! i
    = Some (processing_row row (if is_set e then ProcessingRejected else ProcessingProcessed) class).

Lemma outcome_beside e p p' : events p' = events p -> outcome_of e p -> outcome_of e p'.
Proof. unfold outcome_of. by intros ->. Qed.

Lemma processed_row s st class s' u :
  recorded s.2 -> mapped (update_processing i st class) s = (s', Ok u) ->
  events s'.2 !! i = Some (processing_row row st class).
Proof.
  intros (st0 & class0 & Hk) Hm%p_mapped_ok. unfold update_processing in Hm. p_inv. rewrite Hk in Hm. p_inv.
  apply lookup_insert_eq.
Qed.

Lemma audit_events event s s' u : audit event s = (s', Ok u) -> events s'.2 = events s.2.
Proof. intros Hm. destruct s as [ids p]. by apply inner_ok in Hm as (ids' & d' & _ & ->). Qed.

Lemma reject_outcome provider requestID class now e s s' u : recorded s.2 ->
  rejectVerifiedEvent i provider requestID class now s = (s', Ok u) -> outcome_of (Some e) s'.2.
Proof.
  intros Hr Hm. unfold rejectVerifiedEvent in Hm. apply stx_bind_ok in Hm as (s1 & u1 & Hp & Ha).
  apply processed_row in Hp; [|done]. apply audit_events in Ha. exists class. by rewrite Ha.
Qed.

Lemma settle_outcome_row m provider requestID t order now s s' o e :
  always recorded m -> recorded s.2 ->
  settle_outcome m i provider requestID t order now s = (s', Ok (o, e)) -> outcome_of e s'.2.
Proof.
  intros Hm Hr. unfold settle_outcome. destruct (m s) as [s1 [x|f]] eqn:Hs.
  - assert (recorded s1.2) as Hr1 by (by eapply Hm). intros Hrun.
    apply stx_bind_ok in Hrun as (s2 & u & Hp & Hrun). apply processed_row in Hp; [|done].
    apply stx_bind_ok in Hrun as (s3 & u2 & Ha & Hrun). apply audit_events in Ha.
    injection Hrun as <- <- <-. exists "". by rewrite Ha.
  - assert (recorded s1.2) as Hr1 by (by eapply Hm). repeat case_match; try done. intros Hrun.
    apply stx_bind_ok in Hrun as (s2 & [] & Hp & Hrun). injection Hrun as <- <- <-.
    by eapply reject_outcome.
Qed.

Lemma recorded_outcome provider requestID found event receivedAt clock s s' o e :
  recorded s.2 ->
  process_recorded i provider requestID found event receivedAt clock s = (s', Ok (o, e)) ->
  outcome_of e s'.2.
Proof.
  intros Hr Hm. unfold process_recorded in Hm. destruct found as [order|].
  - destruct (event_mismatch order provider event).
    { apply stx_bind_ok in Hm as (s1 & [] & Hp & Hm). injection Hm as <- <- <-. by eapply reject_outcome. }
    apply stx_bind_ok in Hm as (s1 & o1 & Ha & Hm).
    assert (recorded s1.2) as Hr1.
    { eapply always_attach; [apply recorded_orders|exact Hr|exact Ha]. }
    apply stx_bind_ok in Hm as (s2 & [shown e1] & Hs & Hm). injection Hm as <- <- <-.
    eapply settle_outcome_row; [|exact Hr1|exact Hs].
    apply always_apply_and_complete; [apply recorded_indifferent| |apply recorded_orders].
    intros k f _. apply recorded_update.
  - apply stx_bind_ok in Hm as (s1 & [] & Hp & Hm). injection Hm as <- <- <-. by eapply reject_outcome.
Qed.
End recorded.

Lemma replay_state x event hash source verified s s' r e :
  replay x event hash source verified s = (s', Ok (r, e)) -> wr_Replayed r = true.
Proof. intros Hm. unfold replay in Hm. p_inv. done. Qed.

(** A call that recorded the event as new. *)
Lemma process_new provider event hash source verified requestID receivedAt clock s s' r e :
  processAuthenticatedEvent provider event hash source verified requestID receivedAt clock s
    = (s', Ok (r, e)) ->
  wr_Replayed r = false ->
  wr_Rejected r = is_set e
  /\ exists i orderID class,
    let row := processing_row (event_row i provider orderID event hash source verified receivedAt)
                 (if is_set e then ProcessingRejected else ProcessingProcessed) class in
    wr_Event r = row /\ events s'.2 !! i = Some row.
Proof.
  intros Hm Hn. unfold processAuthenticatedEvent in Hm.
  apply stx_bind_ok in Hm as (s1 & [] & Hw & Hm). apply p_when_ok in Hw as [_ ->].
  apply stx_bind_ok in Hm as (s1 & existing & _ & Hm).
  destruct existing as [x|]; [apply replay_state in Hm; congruence|].
  apply stx_bind_ok in Hm as (s2 & found & _ & Hm).
  apply stx_bind_ok in Hm as (s3 & i & _ & Hm).
  apply stx_bind_ok in Hm as (s4 & inserted & Hi & Hm). apply mapped_as_ok in Hi.
  destruct inserted; simpl in Hm.
  - set (row := event_row i provider (o_ID <$> found) event hash source verified receivedAt) in *.
    assert (recorded i row s4.2) as Hr.
    { clear Hm. exists ProcessingPending, "". unfold insert_event in Hi. p_inv. destruct (map_any _ _); p_inv; [done|].
      injection Hi as <-. apply lookup_insert_eq. }
    apply stx_bind_ok in Hm as (s5 & [shown e1] & Hp & Hm).
    apply (recorded_outcome i row) in Hp as (class & Hrow); [|done].
    unfold loadEventByID in Hm. p_inv. split; [done|].
    exists i, (o_ID <$> found), class. cbn zeta; simpl; fold row; split; [congruence|exact Hrow].
  - apply stx_bind_ok in Hm as (s5 & x & _ & Hm). apply replay_state in Hm. congruence.
Qed.

(** C9: an authenticated event takes effect once.  When a webhook has been recorded, then
    in whatever reachable state its record still stands, the same event again changes no
    row at all and reports the recorded outcome: no error when it was processed, an error
    when it was rejected.  (The stored occurrence time has microseconds, so an event with
    finer ones is not recognised.) *)
Theorem event_takes_effect_once ids provider event hash requestID receivedAt clock p p1 r e :
  pg_time (ve_OccurredAt event) = ve_OccurredAt event ->
  run_payment ids (ProcessVerifiedEvent provider event hash requestID receivedAt clock) p
    = (p1, Ok (r, e)) ->
  wr_Replayed r = false ->
  let row := wr_Event r in
  (events p1 !! pe_ID row = Some row /\ wr_Rejected r = is_set e)
  /\ forall p2 ids' requestID' receivedAt' clock', preachable p2 -> events p2 !! pe_ID row = Some row ->
       exists e',
         run_payment ids' (ProcessVerifiedEvent provider event hash requestID' receivedAt' clock') p2
         = (p2, Ok ({| wr_Event := row; wr_Order := wr_Order (replayedWebhookResult row p2);
                       wr_Replayed := true; wr_Rejected := wr_Rejected r |}, e'))
         /\ is_set e' = is_set e.
Proof.
  intros Ht Hrun Hn. apply run_ok in Hrun as (ids1 & Hm).
  apply process_new in Hm as (Hrej & i & orderID & class & Hrow & Hk); [|done]. cbn zeta.
  rewrite Hrow. cbn zeta in Hk. simpl in Hk. split; [by split|].
  intros p2 ids' requestID' receivedAt' clock' Hp2 Hk2. simpl in Hk2.
  pose proof (find_event _ _ _ (preachable_rows _ Hp2) Hk2) as Hf. simpl in Hf.
  match type of Hk2 with _ = Some ?x => set (row := x) in * end.
  exists (replayedWebhookError row).
  assert (is_set (replayedWebhookError row) = is_set e) as He.
  { unfold replayedWebhookError, row. simpl. by destruct e. }
  split; [|done]. unfold run_payment, commit, ProcessVerifiedEvent, processAuthenticatedEvent, replay.
  assert (sameAuthenticatedEvent row event hash VerificationWebhook true = true) as Hs.
  { unfold sameAuthenticatedEvent, row, opt_bool_is. simpl.
    by rewrite !String.eqb_refl, !Z.eqb_refl, eqb_reflx, Ht, Z.eqb_refl. }
  unfold loadEventByProviderID, optional. run_stmt. simpl. rewrite Hf. simpl. rewrite Hs. simpl.
  by rewrite Hrej, <- He.
Qed.

(** ** What it takes to be paid *)
Section unpaid.
Context (k : uuid).

Definition unpaid_at (p : PDB) : Prop := exists o, orders p !! k = Some o /\ unpaid o = true.

Lemma unpaid_indifferent : indifferent unpaid_at.
Proof. by constructor; intros ? p (o & Hk); exists o. Qed.

Lemma unpaid_update k2 b f : k2 <> k \/ (forall o, unpaid o = true -> unpaid (f o) = true) ->
  always unpaid_at (update_order k2 b f).
Proof.
  intros Hf s s' r (o & Hk & Hu). unfold update_order. run_stmt.
  destruct (orders s.2 !! k2) as [o2|] eqn:Hk2; [|intros [= <- _]; by exists o].
  unfold praise, stx_when.
  repeat match goal with |- context [if ?b then Err _ else Ok tt] =>
    destruct b; [intros [= <- _]; by exists o|] end.
  destruct (guard_order (f o2)); [intros [= <- _]; by exists o|]. simpl.
  intros [= <- _].
  unfold unpaid_at. simpl. destruct (decide (k2 = k)) as [->|Hne].
  - exists (f o2). rewrite lookup_insert_eq. split; [done|]. destruct Hf as [?|Hf]; [done|].
    apply Hf. congruence.
  - exists o. by rewrite lookup_insert_ne.
Qed.

Lemma unpaid_insert op : always unpaid_at (insert_operation op).
Proof. unfold insert_operation. always_go. Qed.
Lemma unpaid_update_operation i f : always unpaid_at (update_operation i f).
Proof. unfold update_operation. always_go. Qed.
Lemma unpaid_processing i st class : always unpaid_at (update_processing i st class).
Proof. unfold update_processing. always_go. Qed.
Lemma unpaid_event e : always unpaid_at (insert_event e).
Proof. unfold insert_event. always_go. Qed.

Lemma always_stop {B} I e (g : unit -> ptx B) : always I (p_when true e ≫= g).
Proof. intros s s' r Hi [= <- _]. done. Qed.

Lemma unpaid_attach order event now : always unpaid_at (attachProviderIdentifiers order event now).
Proof.
  unfold attachProviderIdentifiers.
  repeat first [apply unpaid_update; right; intros ?; done | always_step].
Qed.

Section order.
Context (order : Order) (event : VerifiedEvent).
Context (Hother : o_ID order <> k
  \/ (unpaid order = true /\ (ve_EventType event <> EventPaid
                             \/ Before (ve_OccurredAt event) (o_CreatedAt order) = true))).

Let Hbooks := in_books unpaid_at unpaid_indifferent.
Let Hexternal := in_external unpaid_at unpaid_indifferent.

Ltac unpaid_step :=
  first
    [ apply (always_outbox unpaid_at unpaid_indifferent)
    | apply unpaid_update_operation
    | apply unpaid_update; first [by left | right; intros ?; done]
    | always_step ].

Lemma unpaid_apply now clock : always unpaid_at (applyVerifiedEvent order event now clock).
Proof.
  unfold applyVerifiedEvent. destruct Hother as [Hne|[Hu Hev]].
  - repeat case_match; try apply (always_dispute _ unpaid_indifferent); try apply always_refuse;
      unfold apply_pending, apply_paid, transitionProviderTerminal, apply_refunded, apply_refund_failed,
        applyExternalRefund, loadExternalRefund, insert_external_refund; repeat unpaid_step.
  - assert (forall t, one_of t [StatusPaid; StatusRefundPending; StatusRefunded] = true ->
              String.eqb (o_Status order) t = false) as Hs.
    { intros t Ht. destruct (String.eqb_spec (o_Status order) t) as [E|]; [|done]. exfalso.
      unfold unpaid in Hu. rewrite E in Hu. unfold one_of in *. cbn [existsb] in *.
      rewrite !orb_true_iff, !String.eqb_eq in Ht. clear -Hu Ht. naive_solver. }
    repeat case_match; try apply (always_dispute _ unpaid_indifferent); try apply always_refuse.
    + unfold apply_pending. repeat unpaid_step.
    + unfold apply_paid. bools. destruct Hev as [?|Hb]; [done|]. rewrite Hb, (Hs StatusPaid) by done.
      apply always_bind; [apply always_p_when|intros _]. apply always_stop.
    + unfold transitionProviderTerminal. repeat unpaid_step.
    + unfold transitionProviderTerminal. repeat unpaid_step.
    + unfold transitionProviderTerminal. repeat unpaid_step.
    + unfold apply_refunded. rewrite !Hs by done. cbn [andb]. destruct (o_UpdatedBy order);
        [apply always_stop|apply always_refuse].
    + unfold apply_refund_failed. rewrite !Hs by done. cbn [andb]. destruct (o_UpdatedBy order);
        [apply always_stop|apply always_refuse].
Qed.

Lemma unpaid_apply_and_complete now clock : always unpaid_at (apply_and_complete order event now clock).
Proof.
  unfold apply_and_complete, completeProviderOperationFromEvent.
  repeat first [apply unpaid_apply | unpaid_step].
Qed.
End order.

(** The order of an event that may pay it. *)
Definition payable (o : Order) (provider : string) (event : VerifiedEvent) : bool :=
  String.eqb (ve_EventType event) EventPaid && String.eqb (o_PaymentProvider o) provider
  && (o_AmountMinor o =? ve_AmountMinor event) && String.eqb (o_Currency o) (ve_Currency event)
  && (String.eqb (o_MerchantID o) "" || String.eqb (o_MerchantID o) (ve_MerchantID event))
  && negb (opt_bool_not (o_ProviderLiveMode o) (ve_LiveMode event))
  && negb (Before (ve_OccurredAt event) (o_CreatedAt o)).

Lemma matched_payable o provider event : event_mismatch o provider event = false ->
  ve_EventType event = EventPaid -> Before (ve_OccurredAt event) (o_CreatedAt o) = false ->
  payable o provider event = true.
Proof.
  intros Hm Ht Hb. unfold event_mismatch in Hm. rewrite Ht in Hm.
  change (isDisputeEvent EventPaid) with false in Hm.
  change (String.eqb EventPaid EventRefunded) with false in Hm. cbn [orb andb] in Hm.
  rewrite !orb_false_iff in Hm. destruct Hm as (((((E1 & E2) & E3) & E4) & E5) & _).
  apply negb_false_iff in E1, E2, E3. unfold payable. rewrite E1, E2, E3, E5, Ht, Hb, String.eqb_refl.
  cbn [andb negb]. rewrite !andb_true_r. apply orb_true_iff.
  apply andb_false_iff in E4 as [E4|E4]; apply negb_false_iff in E4; auto.
Qed.

(** The order after its identifiers are attached is the same to what pays it. *)
Lemma attach_ids_same p ids order event now s1 o1 : PInv p -> orders p !! o_ID order = Some order ->
  attachProviderIdentifiers order event now (ids, p) = (s1, Ok o1) ->
  o_ID o1 = o_ID order /\ o_Status o1 = o_Status order /\ o_CreatedAt o1 = o_CreatedAt order.
Proof.
  intros HP Hk Hr. unfold attachProviderIdentifiers in Hr. p_inv. case_match; p_inv; [done|].
  apply mapped_as_ok, update_order_ok in Hr as (o & Hw & -> & -> & _); [|exact (PInv_keyed p HP)].
  apply wr_row in Hw. simpl in Hw. assert (o = order) as -> by congruence. done.
Qed.

Lemma unpaid_recorded p ids i provider requestID found event receivedAt clock s' r o :
  PInv p -> orders p !! k = Some o -> unpaid o = true -> payable o provider event = false ->
  (forall x, found = Some x -> orders p !! o_ID x = Some x) ->
  process_recorded i provider requestID found event receivedAt clock (ids, p) = (s', r) ->
  unpaid_at s'.2.
Proof.
  intros HP Hk Hu Hb Hf Hm. assert (unpaid_at p) as Hi by (by exists o).
  unfold process_recorded in Hm. destruct found as [order|].
  - specialize (Hf order eq_refl). destruct (event_mismatch order provider event) eqn:Hmm.
    { revert Hm. apply (always_bind unpaid_at); [|intros; apply always_ret|exact Hi].
      apply always_reject; [apply unpaid_indifferent|apply unpaid_processing]. }
    unfold mbind at 1, stx_mbind at 1 in Hm.
    destruct (attachProviderIdentifiers order event receivedAt (ids, p)) as [s1 [o1|f]] eqn:Ha.
    + assert (unpaid_at s1.2) as Hi1 by exact (unpaid_attach order event receivedAt (ids, p) _ _ Hi Ha).
      destruct (attach_ids_same _ _ _ _ _ _ _ HP Hf Ha) as (E1 & E2 & E3).
      revert Hm. apply (always_bind unpaid_at); [|intros []; apply always_ret|exact Hi1].
      apply always_settle; [apply unpaid_indifferent|apply unpaid_processing|].
      apply unpaid_apply_and_complete. destruct (decide (o_ID order = k)) as [E|Hne]; [right|left; congruence].
      assert (order = o) as -> by congruence. split; [unfold unpaid in *; by rewrite E2|].
      destruct (decide (ve_EventType event = EventPaid)) as [Ht|]; [right|by left]. rewrite E3.
      destruct (Before (ve_OccurredAt event) (o_CreatedAt o)) eqn:Hbe; [done|].
      by rewrite (matched_payable _ _ _ Hmm Ht Hbe) in Hb.
    + injection Hm as <- _. exact (unpaid_attach order event receivedAt (ids, p) _ _ Hi Ha).
  - revert Hm. apply (always_bind unpaid_at); [|intros; apply always_ret|exact Hi].
    apply always_reject; [apply unpaid_indifferent|apply unpaid_processing].
Qed.

Lemma unpaid_process (UL : UuidTextLaws _) p ids provider event hash source verified requestID
    receivedAt clock s' x o :
  PInv p -> orders p !! k = Some o -> unpaid o = true -> payable o provider event = false ->
  processAuthenticatedEvent provider event hash source verified requestID receivedAt clock (ids, p)
    = (s', Ok x) -> unpaid_at s'.2.
Proof.
  intros HP Hk Hu Hb Hm. assert (unpaid_at p) as Hi by (by exists o).
  unfold processAuthenticatedEvent in Hm.
  apply stx_bind_ok in Hm as (s1 & [] & Hw & Hm). apply p_when_ok in Hw as [_ ->].
  apply stx_bind_ok in Hm as (s1 & existing & He & Hm). apply optional_ok in He.
  assert (s1 = (ids, p)) as ->.
  { unfold loadEventByProviderID in He. revert He. run_stmt. destruct existing; naive_solver. }
  clear He. destruct existing as [y|]; [unfold replay in Hm; by p_inv|].
  apply stx_bind_ok in Hm as (s2 & found & Hf & Hm). apply optional_ok in Hf.
  assert (s2 = (ids, p) /\ forall y, found = Some y -> orders p !! o_ID y = Some y) as [-> Hrow].
  { unfold loadOrderForVerifiedEvent in Hf. revert Hf. run_stmt. simpl. intros Hf.
    destruct found as [y|]; [|split; [congruence|done]].
    destruct (find_order_for_event provider event p) as [y1|] eqn:Hfo; [|done]. injection Hf as <- <-.
    split; [done|]. intros y2 [= <-]. apply found_order in Hfo as [k1 Hk1].
    by rewrite (PInv_keyed _ HP _ _ Hk1). }
  apply stx_bind_ok in Hm as (s3 & i & Hi3 & Hm). apply p_new_id_ok in Hi3. simpl in Hi3.
  apply stx_bind_ok in Hm as ([ids4 p4'] & inserted & Hins & Hm). apply mapped_as_ok in Hins.
  apply insert_event_beside in Hins. rewrite Hi3 in Hins. simpl in Hins.
  pose proof (bs_frame _ _ Hins) as (EO & _).
  assert (PInv p4') as HP4 by (eapply PInv_move; [done|exact HP|by apply beside_move]).
  destruct inserted; simpl in Hm.
  - apply stx_bind_ok in Hm as (s5 & [shown e1] & Hp & Hm). unfold loadEventByID in Hm. p_inv.
    eapply unpaid_recorded; [exact HP4|by rewrite EO|exact Hu|exact Hb| |exact Hp]. by rewrite EO.
  - apply stx_bind_ok in Hm as (s5 & y & Hl & Hm). unfold loadEventByProviderID in Hl.
    unfold replay in Hm. p_inv. exists o. by rewrite EO.
Qed.
End unpaid.

(** C8: an order is paid only by an event that is about it.  When a webhook or a
    reconciled provider state takes an order out of the unpaid statuses, the event is a
    payment of exactly the order's amount and currency, by the order's provider, for the
    merchant and mode the order has, and not older than the order. *)
Theorem payment_needs_a_matching_event (UL : UuidTextLaws _) ids provider event hash source verified
    requestID receivedAt clock p p1 r k o o' :
  preachable p ->
  run_payment ids (processAuthenticatedEvent provider event hash source verified requestID receivedAt
                     clock) p = (p1, r) ->
  orders p !! k = Some o -> unpaid o = true -> orders p1 !! k = Some o' -> unpaid o' = false ->
  payable o provider event = true.
Proof.
  intros Hp Hrun Hk Hu Hk' Hu'. destruct (payable o provider event) eqn:Hb; [done|exfalso].
  destruct r as [x|e].
  - apply run_ok in Hrun as (ids1 & Hm).
    destruct (unpaid_process k UL _ _ _ _ _ _ _ _ _ _ _ _ _ (preachable_PInv UL _ Hp) Hk Hu Hb Hm)
      as (o2 & Hk2 & Hu2). simpl in Hk2. congruence.
  - unfold run_payment, commit in Hrun.
    destruct (processAuthenticatedEvent _ _ _ _ _ _ _ _ _) as [[? ?] [?|?]]; [done|].
    injection Hrun as <- _. congruence.
Qed.
End protocol.

(** ** Instances *)
Import BillingDemo.

(** The claim of the demo order's creation. *)
Definition demo_claimed : ptx ProviderOperationClaim :=
  ClaimProviderOperation demo_order OperationCreate demo_identity (payload_of OperationCreate p1) 2100.

Lemma demo_claim_ran : exists claim,
  run_payment (ids_from 1010) demo_claimed p1 = (p2, Ok claim) /\ cl_Claimed claim = true.
Proof.
  eexists. split.
  - unfold p2, demo_claim. apply (then_ran 1010 demo_claimed p1). vm_compute. reflexivity.
  - reflexivity.
Qed.

Lemma claims_are_single_flight_witness : exists claim,
  run_payment (ids_from 1010) demo_claimed p1 = (p2, Ok claim) /\ cl_Claimed claim = true
  /\ operations p2 !! op_ID (cl_Operation claim) = Some (cl_Operation claim).
Proof.
  destruct demo_claim_ran as (claim & Hrun & Hc). exists claim. split; [exact Hrun|split; [exact Hc|]].
  apply (claims_are_single_flight demo_text_laws (ids_from 1010) demo_order OperationCreate demo_identity
    (payload_of OperationCreate p1) 2100 p1 p2 claim p1_reachable Hrun Hc).
Defined.

Lemma demo_event_ran : exists r,
  run_payment (ids_from 1030) (ProcessVerifiedEvent "stripe" demo_paid "evt_1" "req" 5100 5100) p3
  = (p4, Ok (r, None)) /\ wr_Replayed r = false.
Proof.
  eexists. split.
  - unfold p4, demo_webhook. apply then_ran. vm_compute. reflexivity.
  - reflexivity.
Qed.

Lemma event_takes_effect_once_witness : exists r,
  run_payment (ids_from 1030) (ProcessVerifiedEvent "stripe" demo_paid "evt_1" "req" 5100 5100) p3
  = (p4, Ok (r, None))
  /\ exists e, run_payment (ids_from 1090) (ProcessVerifiedEvent "stripe" demo_paid "evt_1" "again" 5200 5200) p4
       = (p4, Ok ({| wr_Event := wr_Event r; wr_Order := wr_Order (replayedWebhookResult (wr_Event r) p4);
                     wr_Replayed := true; wr_Rejected := wr_Rejected r |}, e)) /\ is_set e = false.
Proof.
  destruct demo_event_ran as (r & Hrun & Hr). exists r. split; [exact Hrun|].
  destruct (event_takes_effect_once (ids_from 1030) "stripe" demo_paid "evt_1" "req" 5100 5100 p3 p4 r None
    eq_refl Hrun Hr) as [[Hk _] Hagain].
  apply (Hagain p4 (ids_from 1090) "again" 5200 5200 p4_reachable Hk).
Defined.

Lemma demo_order_waits : exists o, orders p3 !! demo_order = Some o /\ unpaid o = true.
Proof. eexists. split; vm_compute; reflexivity. Qed.

Lemma payment_needs_a_matching_event_witness : exists o, orders p3 !! demo_order = Some o
  /\ unpaid o = true /\ payable o "stripe" demo_paid = true.
Proof.
  destruct demo_order_waits as (o & Ho & Hu). exists o. split; [exact Ho|split; [exact Hu|]].
  destruct p4_has_order as (o' & Ho' & Hs).
  apply (payment_needs_a_matching_event demo_text_laws (ids_from 1030) "stripe" demo_paid "evt_1"
    VerificationWebhook true "req" 5100 5100 p3 p4 (run_payment (ids_from 1030) (ProcessVerifiedEvent "stripe" demo_paid "evt_1" "req" 5100 5100) p3).2
    demo_order o o' p3_reachable (then_ran _ _ _ _ eq_refl) Ho Hu Ho').
  unfold unpaid. rewrite Hs. reflexivity.
Defined.

End PaymentProtocol.

(** * What the concrete history shows *)

From stdpp Require Import base gmap strings list.
From Stdlib Require Import ZArith Lia Ascii String.
From S2P Require Import Prelude GoLib Usage Pricing BillingModel Money Store BillingOps.
From S2P Require Import BillingService BillingInv BillingDemo BillingRows Coordinator Secret.
From S2P Require Import PaymentModel PaymentStore PaymentRepo PaymentEvents PaymentFunding.
From S2P Require Import PaymentService PaymentWorker PaymentMoves PaymentInv PaymentLife.
From S2P Require Import PaymentDemo.

Module PaymentFindings.
Import Payment PaymentStore PaymentRepo PaymentEvents PaymentFunding PaymentService PaymentInv
  PaymentLife PaymentDemo BillingDemo.

(** [CompleteCreateOperation] leaves the operation of an order it made pending as it was:
    when the lease has run out the operation is claimed again, and the provider is called
    again for an order it already has. *)
Definition p3_again : PDB * result error ProviderOperationClaim :=
  run_payment (ids_from 1200) (ClaimProviderOperation demo_order OperationCreate demo_identity
    (payload_of OperationCreate p1) (2100 + providerOperationLease)) p3.

Lemma finished_checkout_is_claimed_again :
  summary p3 = (Some (StatusPending, 0, ""), None)
  /\ match p3_again.2 with Ok claim => cl_Claimed claim | Err _ => false end = true.
Proof. vm_compute. split; reflexivity. Qed.

(** If that second call is declined_again, the payment the customer makes on the first checkout is
    credited, and its event is recorded as rejected with a conflict. *)
Definition declined_again : PDB :=
  then_do 1020 (FinishCreateOperation demo_order 1200%N "declined" true (3000 + providerOperationLease))
    p3_again.1.
Definition declined_paid : PDB * result error (WebhookResult * option error) :=
  run_payment (ids_from 1030) (ProcessVerifiedEvent "stripe" demo_paid "evt_1" "req" 5100 5100) declined_again.

Lemma credited_event_is_rejected :
  summary declined_paid.1 = (Some (StatusPaid, 0, ""), Some (500, 0))
  /\ match declined_paid.2 with
     | Ok (r, e) => wr_Rejected r = true /\ e = Some ErrConflict
                    /\ pe_ProcessingStatus (wr_Event r) = ProcessingRejected
     | Err _ => False
     end.
Proof. vm_compute. split_and!; reflexivity. Qed.

End PaymentFindings.
