(* ===== verification/PaymentQueries.v ===== *)
(** * Listings, voucher codes and sealed codes *)

From stdpp Require Import base gmap strings list relations sorting.
From Stdlib Require Import ZArith Lia Ascii String.
From S2P Require Import Prelude GoLib Usage Pricing BillingModel Money Store StoreFacts.
From S2P Require Import BillingOps BillingService BillingInv BillingDemo BillingRows Coordinator.
From S2P Require Import Secret PaymentModel PaymentStore PaymentRepo PaymentEvents PaymentFunding.
From S2P Require Import PaymentMoves PaymentInv PaymentFacts PaymentMoney PaymentLife PaymentRows.
From S2P Require Import PaymentDemo.

Module PaymentQueries.
Import Payment PaymentStore PaymentRepo PaymentEvents PaymentFunding PaymentMoves PaymentInv
  PaymentFacts PaymentMoney PaymentLife PaymentRows PaymentDemo.
Import Store(DB, SqlGuards, WallClock).
Import Coordinator(Sha256Hex, sha256_hex).

#[local] Open Scope list_scope.

(** ** Pages of orders *)
#[export] Instance newer_total : Total newer.
Proof. intros a b. unfold newer. lia. Qed.
#[export] Instance newer_trans : Transitive newer.
Proof. intros a b c. unfold newer. lia. Qed.

Definition cursor_of (o : Order) : PageCursor := {| pc_CreatedAt := o_CreatedAt o; pc_ID := o_ID o |}.

Lemma after_cursor_iff x y : o_ID x <> o_ID y ->
  after_cursor (Some (cursor_of x)) y = true <-> newer x y.
Proof.
  intros Hne. unfold after_cursor, newer. simpl.
  rewrite orb_true_iff, andb_true_iff, Z.ltb_lt, Z.eqb_eq, N.ltb_lt. lia.
Qed.

Lemma newer_antisym x y : newer x y -> newer y x -> o_ID x = o_ID y.
Proof. unfold newer. lia. Qed.

Lemma filter_none {A} (P : A -> Prop) `{forall x, Decision (P x)} (l : list A) :
  (forall x, x ∈ l -> ~ P x) -> filter P l = [].
Proof.
  induction l as [|a l IH]; intros Hl; [done|]. rewrite filter_cons_False by (apply Hl; left).
  apply IH. intros x Hx. apply Hl. by right.
Qed.

Lemma filter_all {A} (P : A -> Prop) `{forall x, Decision (P x)} (l : list A) :
  (forall x, x ∈ l -> P x) -> filter P l = l.
Proof.
  induction l as [|a l IH]; intros Hl; [done|]. rewrite filter_cons_True by (apply Hl; left).
  f_equal. apply IH. intros x Hx. apply Hl. by right.
Qed.

Lemma filter_after l1 x l2 : StronglySorted newer (l1 ++ x :: l2) -> NoDup (o_ID <$> l1 ++ x :: l2) ->
  filter (fun o => after_cursor (Some (cursor_of x)) o = true) (l1 ++ x :: l2) = l2.
Proof.
  intros Hs Hn. rewrite fmap_app, fmap_cons in Hn.
  apply NoDup_app in Hn as (_ & Hd & Hn). apply NoDup_cons in Hn as [Hx _].
  assert (forall y, y ∈ l1 \/ y ∈ l2 -> o_ID x <> o_ID y) as Hne.
  { intros y [Hy|Hy] E.
    - apply (Hd (o_ID y)); [by apply list_elem_of_fmap_2|]. rewrite E. left.
    - apply Hx. rewrite E. by apply list_elem_of_fmap_2. }
  rewrite filter_app, filter_none, filter_cons_False, filter_all; [done|..].
  - intros y Hy. apply after_cursor_iff; [by auto|]. apply StronglySorted_app_1_r in Hs.
    inversion_clear Hs as [|? ? _ Hall]. rewrite Forall_forall in Hall. by apply Hall.
  - unfold after_cursor. simpl. rewrite Z.ltb_irrefl, N.ltb_irrefl, andb_false_r. done.
  - intros y Hy Ha. apply after_cursor_iff in Ha; [|by auto].
    apply (Hne y); [by left|]. apply newer_antisym; [done|].
    eapply StronglySorted_app_1_elem_of; [exact Hs|done|left].
Qed.

Section pages.
Context (p : PDB) (HO : keyed (orders p)) (userID : uuid).

Definition mine : list Order :=
  filter (fun o => uuid_eqb (o_UserID o) userID = true) (map_to_list (orders p)).*2.

Lemma listing_perm cursor :
  order_listing userID cursor p ≡ₚ filter (fun o => after_cursor cursor o = true) mine.
Proof.
  unfold order_listing, mine. rewrite merge_sort_Permutation, list_filter_filter.
  apply reflexive_eq, list_filter_iff. intros o. rewrite andb_true_iff. tauto.
Qed.

Lemma ids_nodup : NoDup (o_ID <$> mine).
Proof.
  unfold mine. apply NoDup_fmap_2_strong.
  - intros x y Hx Hy E. apply list_elem_of_filter in Hx as [_ Hx], Hy as [_ Hy].
    apply list_elem_of_fmap in Hx as ([k1 x1] & -> & Hx), Hy as ([k2 y1] & -> & Hy).
    apply elem_of_map_to_list in Hx, Hy. simpl in *. pose proof (HO _ _ Hx). pose proof (HO _ _ Hy). congruence.
  - apply NoDup_filter. apply NoDup_fmap_2_strong; [|apply NoDup_map_to_list].
    intros [k1 x1] [k2 y1] Hx Hy E. simpl in E. subst y1.
    apply elem_of_map_to_list in Hx, Hy. pose proof (HO _ _ Hx). pose proof (HO _ _ Hy). congruence.
Qed.

Definition listing : list Order := order_listing userID None p.

Lemma listing_sorted cursor : StronglySorted newer (order_listing userID cursor p).
Proof. apply Sorted_StronglySorted; [apply _|]. apply Sorted_merge_sort. apply _. Qed.

Lemma listing_mine : listing ≡ₚ mine.
Proof.
  unfold listing. rewrite listing_perm. apply reflexive_eq.
  induction mine as [|o l IH]; [done|]. rewrite filter_cons_True by done. by rewrite IH.
Qed.

Lemma listing_ids : NoDup (o_ID <$> listing).
Proof. rewrite listing_mine. apply ids_nodup. Qed.

Lemma mine_iff o : o ∈ mine <-> exists k, orders p !! k = Some o /\ o_UserID o = userID.
Proof.
  unfold mine. rewrite list_elem_of_filter, uuid_eqb_eq, list_elem_of_fmap. split.
  - intros [Hu ([k x] & -> & Hk%elem_of_map_to_list)]. by exists k.
  - intros (k & Hk & Hu). split; [done|]. exists (k, o). by rewrite elem_of_map_to_list.
Qed.

Lemma same_row x y : x ∈ mine -> y ∈ mine -> o_ID x = o_ID y -> x = y.
Proof.
  intros (k1 & Hx & _)%mine_iff (k2 & Hy & _)%mine_iff E.
  pose proof (HO _ _ Hx). pose proof (HO _ _ Hy). congruence.
Qed.

(** What follows the cursor of a row of the listing is the rest of the listing. *)
Lemma rest_of_listing i x : listing !! i = Some x ->
  order_listing userID (Some (cursor_of x)) p = drop (S i) listing.
Proof.
  intros Hi. pose proof (listing_sorted None) as Hs. fold listing in Hs.
  pose proof (take_drop_middle listing i x Hi) as Hl.
  assert (filter (fun o => after_cursor (Some (cursor_of x)) o = true) listing = drop (S i) listing) as Hf.
  { pose proof listing_ids as Hn. rewrite <- Hl in Hs, Hn. rewrite <- Hl at 1.
    by apply filter_after. }
  apply (StronglySorted_unique_strong newer).
  - intros a b Ha Hb H1 H2. apply same_row; [|by rewrite <- listing_mine, <- Hl; apply elem_of_app; right; by right|by apply newer_antisym].
    rewrite listing_perm in Ha. by apply list_elem_of_filter in Ha as [_ ?].
  - apply listing_sorted.
  - rewrite <- Hl in Hs. apply StronglySorted_app_1_r in Hs. by inversion Hs.
  - by rewrite <- Hf, listing_perm, listing_mine.
Qed.

(** The pages from a cursor on, as a client that follows [NextCursor] reads them. *)
Fixpoint all_pages (limit fuel : nat) (cursor : option PageCursor) : option (list Order) :=
  match fuel with
  | O => None
  | S fuel =>
      let page := ListOrders userID cursor limit p in
      match pg_NextCursor page with
      | None => Some (pg_Orders page)
      | Some next => (fun rest => pg_Orders page ++ rest) <$> all_pages limit fuel (Some next)
      end
  end.

Lemma all_pages_from limit fuel : (1 <= limit)%nat -> forall i cursor,
  order_listing userID cursor p = drop i listing -> (List.length listing - i < fuel)%nat ->
  all_pages limit fuel cursor = Some (drop i listing).
Proof.
  intros Hl. induction fuel as [|fuel IH]; intros i cursor Hc Hf; [lia|].
  cbn [all_pages]. unfold ListOrders. rewrite Hc.
  destruct (Nat.ltb_spec limit (List.length (take (limit + 1) (drop i listing)))) as [Hlt|Hge].
  - cbn [pg_NextCursor pg_Orders]. rewrite length_take, length_drop in Hlt.
    rewrite lookup_take_lt, lookup_drop by lia.
    destruct (lookup_lt_is_Some_2 listing (i + (limit - 1))) as [x Hx]; [lia|].
    rewrite Hx. simpl. fold (cursor_of x). rewrite (IH (i + limit)%nat); [|rewrite (rest_of_listing _ _ Hx); f_equal; lia|lia].
    simpl. rewrite take_take, Nat.min_l, <- drop_drop by lia. f_equal. apply take_drop.
  - cbn [pg_NextCursor pg_Orders]. f_equal. rewrite length_take in Hge. apply take_ge. lia.
Qed.

End pages.

Section theorem.
Context `{UuidText, SqlGuards, WallClock, PaymentGuards, Sha256Hex, TimeText, Secret.Aead}.

(** C15: paging ends and loses nothing.  Reading the pages of a user's orders by following the
    cursors comes to an end after at most as many pages as there are rows, whatever the page
    size; the pages joined are the user's orders, each once, from the newest to the oldest. *)
Theorem order_pages_list_every_order (UL : UuidTextLaws _) p userID limit :
  preachable p -> (1 <= limit)%nat ->
  exists l, all_pages p userID limit (S (size (orders p))) None = Some l
    /\ StronglySorted newer l /\ NoDup (o_ID <$> l)
    /\ forall o, o ∈ l <-> exists k, orders p !! k = Some o /\ o_UserID o = userID.
Proof.
  intros Hp Hl. pose proof (PInv_keyed _ (preachable_PInv UL _ Hp)) as HO.
  exists (listing p userID). split_and!.
  - apply (all_pages_from p HO userID limit _ Hl 0); [done|]. rewrite listing_mine. unfold mine.
    pose proof (length_filter (fun o => uuid_eqb (o_UserID o) userID = true) (map_to_list (orders p)).*2).
    rewrite length_fmap, length_map_to_list in *. lia.
  - apply listing_sorted.
  - by apply listing_ids.
  - intros o. by rewrite listing_mine, mine_iff.
Qed.
(** ** Voucher codes *)
Definition sealed_code (v : Voucher) : Secret.Sealed :=
  {| Secret.Ciphertext := vc_CodeCiphertext v; Secret.Nonce := vc_CodeNonce v;
     Secret.KeyVersion := vc_CodeKeyVersion v |}.

(** What [replayCreatedVoucher] asks of the voucher before it shows its code. *)
Record shows (keyring : Secret.Keyring) (v : Voucher) (input : CreateVoucherInput) (code : string) : Prop := {
  sh_amount : vc_AmountMinor v = cv_AmountMinor input;
  sh_currency : vc_Currency v = cv_Currency input;
  sh_operator : vc_CreatedBy v = cv_OperatorUserID input;
  sh_expiry : sameOptionalTime (vc_ExpiresAt v) (cv_ExpiresAt input) = true;
  sh_active : vc_Status v = VoucherActive;
  sh_sealed : vc_CodeCiphertext v <> "" /\ vc_CodeNonce v <> "" /\ vc_CodeKeyVersion v <> "";
  sh_open : Secret.Open keyring (sealed_code v) (voucherAAD (vc_ID v)) = Ok code;
  sh_valid : validVoucherCode code = true;
  sh_hash : sha256_hex code = vc_CodeHash v;
  sh_prefix : String.prefix (vc_CodePrefix v) code = true
}.

Lemma p_secret_ok {A} (r : result Secret.error A) s s' a : p_secret r s = (s', Ok a) -> r = Ok a /\ s' = s.
Proof. unfold p_secret, stx_lift, map_err. destruct r; naive_solver. Qed.

Lemma replay_shows keyring v input s s' r : replayCreatedVoucher keyring v input s = (s', Ok r) ->
  s' = s /\ cr_Voucher r = v /\ shows keyring v input (cr_Code r).
Proof.
  intros Hr. unfold replayCreatedVoucher in Hr. p_inv.
  match goal with H : p_secret _ _ = _ |- _ => apply p_secret_ok in H as [Ho ->] end.
  p_inv. bools. split; [done|]. split; [done|]. by constructor.
Qed.

Lemma shows_replay keyring v input code s : shows keyring v input code ->
  replayCreatedVoucher keyring v input s = (s, Ok {| cr_Voucher := v; cr_Code := code |}).
Proof.
  intros [Ea Ec Eo Ex Es (N1 & N2 & N3) Hop Hv Hh Hp]. unfold replayCreatedVoucher.
  apply String.eqb_neq in N1, N2, N3. fold (sealed_code v).
  rewrite Ea, Ec, Eo, Ex, Es, N1, N2, N3, Hop, Z.eqb_refl, !String.eqb_refl, uuid_eqb_refl.
  unfold p_secret, map_err, p_when, stx_when, stx_lift, mbind, stx_mbind, mret, stx_mret. simpl.
  by rewrite Hv, Hh, Hp, String.eqb_refl.
Qed.

Lemma shows_rotated old new v input code : Secret.keys old ⊆ Secret.keys new ->
  shows old v input code -> shows new v input code.
Proof.
  intros Hsub []. constructor; try done. unfold Secret.Open in *.
  destruct (Secret.keys old !! _) as [key|] eqn:Hk; [|done].
  by rewrite (lookup_weaken _ _ _ _ Hk Hsub).
Qed.

Lemma version_not_empty s : Secret.keyVersionPattern s = true -> s <> "".
Proof. by destruct s. Qed.

Lemma sealed_shows `{!Secret.AeadLaws _} cur ks keyring nonce i input code prefix sealed now :
  Secret.NewKeyring cur ks = Ok keyring -> slen nonce = Secret.NonceSize ->
  pg_time <$> cv_ExpiresAt input = cv_ExpiresAt input ->
  validVoucherCode code = true -> String.prefix prefix code = true ->
  Secret.Seal keyring (Some nonce) code (voucherAAD i) = Ok sealed ->
  shows keyring (new_voucher i input (sha256_hex code) prefix sealed now) input code.
Proof.
  intros Hk Hn Hx Hv Hp Hs.
  pose proof (Secret.Open_Seal keyring keyring nonce code (voucherAAD i) sealed) as Ho.
  assert (code <> "") as Hne by (intros ->; done). apply String.eqb_neq in Hne. rewrite Hne in Ho.
  assert (Secret.Ciphertext sealed <> "" /\ Secret.Nonce sealed = nonce
          /\ Secret.KeyVersion sealed = Secret.current keyring) as (Q1 & Q2 & Q3).
  { unfold Secret.Seal in Hs. case_match; [|done]. injection Hs as <-. simpl. split; [|done]. intros E.
    match goal with k : string |- _ => pose proof (Secret.aead_overhead k nonce code (voucherAAD i)) as Hov end.
    rewrite E in Hov. unfold slen, Secret.Overhead in Hov. simpl in Hov. lia. }
  constructor; simpl; try done.
  - rewrite Hx. destruct (cv_ExpiresAt input); [|done]. simpl. apply Z.eqb_refl.
  - rewrite Q2, Q3. split_and!; [done|by intros ->|]. apply version_not_empty.
    unfold Secret.NewKeyring in Hk. repeat case_match; try done. injection Hk as <-. simpl. by bools.
  - unfold sealed_code. simpl. destruct sealed. simpl in *. by apply Ho.
Qed.

Lemma beside_vouchers p p' : beside p p' -> vouchers p' = vouchers p.
Proof. intros [(_ & E & _) _]. exact E. Qed.

Lemma create_shows `{!Secret.AeadLaws _} (UL : UuidTextLaws _) cur ks keyring nonce input code prefix now ids p s' r :
  PInv p -> Secret.NewKeyring cur ks = Ok keyring -> slen nonce = Secret.NonceSize ->
  pg_time <$> cv_ExpiresAt input = cv_ExpiresAt input ->
  CreateVoucher (Some keyring) (Some nonce) input code (sha256_hex code) prefix now (ids, p)
    = (s', Ok r) ->
  let v := cr_Voucher r in
  vouchers s'.2 !! vc_ID v = Some v /\ vc_IdempotencyKey v = cv_IdempotencyKey input
  /\ shows keyring v input (cr_Code r).
Proof.
  intros HP Hk Hn Hx Hm. unfold CreateVoucher in Hm.
  assert (forall s v, s.2 = p -> loadVoucherByIdempotency (cv_IdempotencyKey input) s = (s, Ok v) ->
    replayCreatedVoucher keyring v input s = (s', Ok r) ->
    let v := cr_Voucher r in
    vouchers s'.2 !! vc_ID v = Some v /\ vc_IdempotencyKey v = cv_IdempotencyKey input
    /\ shows keyring v input (cr_Code r)) as Hold.
  { intros s v Hs Hl Hr. apply replay_shows in Hr as (-> & <- & Hsh).
    apply select_voucher_ok in Hl as (_ & k & Hkv & E). rewrite Hs in *. apply String.eqb_eq in E.
    cbn zeta. by rewrite (vi_id _ _ _ (pv_voucher _ HP _ _ Hkv)). }
  apply stx_bind_ok in Hm as (s1 & [] & Hw & Hm). apply p_when_ok in Hw as [Hw ->].
  apply stx_bind_ok in Hm as (s1 & found & Hf & Hm). pose proof (found_voucher _ _ _ _ Hf) as [-> _].
  apply optional_ok in Hf. destruct found as [v|]; [by apply (Hold (ids, p) v eq_refl Hf Hm)|].
  apply stx_bind_ok in Hm as (s2 & i & Hi & Hm). apply p_new_id_ok in Hi.
  apply stx_bind_ok in Hm as (s3 & sealed & Hs & Hm). apply p_secret_ok in Hs as [Hs ->].
  apply stx_bind_ok in Hm as (s3 & inserted & Hins & Hm). apply optional_ok in Hins.
  destruct inserted as [v|].
  - apply insert_voucher_ok in Hins as (-> & -> & _).
    apply stx_bind_ok in Hm as (s4 & [] & Ha%audit_beside & Hm).
    apply stx_bind_ok in Hm as (s5 & [] & Hb%outbox_beside & Hm). injection Hm as <- <-. cbn zeta.
    rewrite (beside_vouchers _ _ Hb), (beside_vouchers _ _ Ha). simpl. split; [apply lookup_insert_eq|].
    split; [done|]. bools. by eapply sealed_shows.
  - apply insert_voucher_conflict in Hins as ->.
    apply stx_bind_ok in Hm as (s4 & v & Hl & Hm). apply p_mapped_ok in Hl.
    pose proof (select_voucher_ok _ _ _ _ Hl) as [-> _]. by apply (Hold _ _ Hi Hl Hm).
Qed.

(** C13: a voucher's code can be shown again.  Once a voucher has been created, then in
    whatever reachable state its row still stands, the same request again, with any keyring
    that still has the old keys (the current one may have been rotated) and whatever fresh
    code and nonce it comes with, shows the same voucher with the same code, which is a
    valid code with the stored hash, and changes no row.  (The expiry must have no more than
    microseconds, as the stored one.) *)
Theorem voucher_code_is_recoverable `{!Secret.AeadLaws _} (UL : UuidTextLaws _) cur ks keyring nonce
    ids input code prefix now p p1 r :
  preachable p -> Secret.NewKeyring cur ks = Ok keyring -> slen nonce = Secret.NonceSize ->
  pg_time <$> cv_ExpiresAt input = cv_ExpiresAt input ->
  run_payment ids (CreateVoucher (Some keyring) (Some nonce) input code (sha256_hex code) prefix now) p
    = (p1, Ok r) ->
  (vouchers p1 !! vc_ID (cr_Voucher r) = Some (cr_Voucher r)
   /\ validVoucherCode (cr_Code r) = true /\ sha256_hex (cr_Code r) = vc_CodeHash (cr_Voucher r))
  /\ forall p2 ids' rotated nonce' code' prefix' now', preachable p2 ->
       vouchers p2 !! vc_ID (cr_Voucher r) = Some (cr_Voucher r) ->
       Secret.keys keyring ⊆ Secret.keys rotated ->
       validVoucherCode code' = true -> String.prefix prefix' code' = true -> 8 <= slen prefix' ->
       run_payment ids' (CreateVoucher (Some rotated) nonce' input code' (sha256_hex code') prefix' now') p2
       = (p2, Ok r).
Proof.
  intros Hp Hk Hn Hx Hrun. unfold run_payment, commit in Hrun.
  destruct (CreateVoucher _ _ _ _ _ _ _ _) as [s' [r1|f]] eqn:Hm; [|done].
  destruct s' as [ids1 p1']. injection Hrun as -> ->.
  apply (create_shows UL cur ks) in Hm as (Hv & E & Hsh); [|by apply (preachable_PInv UL)|done..].
  split; [by destruct Hsh|]. intros p2 ids' rotated nonce' code' prefix' now' Hp2 Hv2 Hsub Hvc Hpre Hlen.
  assert (map_find (fun v => String.eqb (vc_IdempotencyKey v) (cv_IdempotencyKey input)) (vouchers p2)
          = Some (cr_Voucher r)) as Hfind.
  { destruct (map_find _ _) as [v2|] eqn:Hf.
    - apply map_find_Some in Hf as (k2 & Hk2 & Hq%String.eqb_eq).
      assert (k2 = vc_ID (cr_Voucher r)) as ->; [|congruence].
      eapply (pv_voucher_apart _ (preachable_PInv UL _ Hp2)); [exact Hk2|exact Hv2|right; congruence].
    - eapply map_find_None in Hf; [|exact Hv2]. by rewrite E, String.eqb_refl in Hf. }
  unfold run_payment, commit, CreateVoucher, loadVoucherByIdempotency, select_voucher, optional.
  rewrite Hvc, Hpre, String.eqb_refl. assert ((slen prefix' <? 8) = false) as -> by by apply Z.ltb_ge.
  run_stmt. simpl. rewrite Hfind. simpl.
  rewrite (shows_replay _ _ _ _ _ (shows_rotated _ _ _ _ _ Hsub Hsh)). by destruct r.
Qed.

End theorem.

(** ** Instances *)
Import BillingDemo.

Lemma order_pages_list_every_order_witness :
  exists l, all_pages p4 demo_user 1 (S (size (orders p4))) None = Some l
    /\ StronglySorted newer l /\ NoDup (o_ID <$> l)
    /\ forall o, o ∈ l <-> exists k, orders p4 !! k = Some o /\ o_UserID o = demo_user.
Proof.
  apply (order_pages_list_every_order demo_text_laws p4 demo_user 1 p4_reachable). lia.
Defined.

(** The keyring of the demo, and a later one that has rotated its current key. *)
Lemma demo_keyring_valid :
  Secret.NewKeyring "k1" (Secret.keys demo_keyring) = Ok demo_keyring.
Proof. vm_compute. reflexivity. Qed.
Definition demo_rotated : Secret.Keyring :=
  {| Secret.current := "k2";
     Secret.keys := <["k2" := "fedcba9876543210fedcba9876543210"]> (Secret.keys demo_keyring) |}.
Definition demo_fresh : string := voucherPrefix +:+ RawURLEncode (replicate 32 9).
Definition demo_created : ptx CreatedVoucher :=
  CreateVoucher (Some demo_keyring) (Some "123456789012") demo_issue demo_code (sha256_hex demo_code)
    (String.substring 0 16 demo_code) 6000.

Lemma demo_create_ran : exists r, run_payment (ids_from 1100) demo_created p4 = (v1, Ok r).
Proof. eexists. unfold v1. apply (then_ran 1100 demo_created p4). vm_compute. reflexivity. Qed.

Lemma voucher_code_is_recoverable_witness : exists r,
  run_payment (ids_from 1100) demo_created p4 = (v1, Ok r)
  /\ run_payment (ids_from 1200)
       (CreateVoucher (Some demo_rotated) None demo_issue demo_fresh (sha256_hex demo_fresh)
         (String.substring 0 16 demo_fresh) 6500) v1 = (v1, Ok r).
Proof.
  destruct demo_create_ran as [r Hrun]. exists r. split; [exact Hrun|].
  destruct (voucher_code_is_recoverable demo_text_laws "k1" (Secret.keys demo_keyring) demo_keyring
    "123456789012" (ids_from 1100) demo_issue demo_code (String.substring 0 16 demo_code) 6000 p4 v1 r
    p4_reachable demo_keyring_valid eq_refl eq_refl Hrun) as [(Hv & _) Hagain].
  apply (Hagain v1 (ids_from 1200) demo_rotated None demo_fresh (String.substring 0 16 demo_fresh) 6500
    v1_reachable Hv).
  - by apply insert_subseteq.
  - vm_compute. reflexivity.
  - vm_compute. reflexivity.
  - vm_compute. discriminate.
Defined.

End PaymentQueries.

(** * The codes of vouchers

    [RawURLEncode] is one to one on byte strings of one length, and the code the service
    makes of thirty-two random bytes is one the service accepts. *)

From stdpp Require Import base strings list numbers.
From Stdlib Require Import ZArith Lia Ascii String.
From S2P Require Import Prelude GoLib Usage PaymentModel PaymentStore PaymentFacts PaymentFunding.

Module VoucherCodes.
Import PaymentFacts PaymentFunding.

#[local] Ltac Zify.zify_post_hook ::= Z.to_euclidean_division_equations.

Definition byte (x : Z) : Prop := 0 <= x < 256.

(** A property of the numbers below [n], by trying each. *)
Lemma below_all (q : Z -> bool) n : forallb q (seqZ 0 n) = true -> forall x, 0 <= x < n -> q x = true.
Proof. rewrite forallb_forall. intros Hq x Hx. apply Hq, list_elem_of_In, elem_of_seqZ. lia. Qed.

Lemma base64_chars x : 0 <= x < 64 -> base64_byte (base64_char x) = true.
Proof. by apply (below_all (fun x => base64_byte (base64_char x))). Qed.

Definition base64_value (c : ascii) : Z :=
  default 0 (List.find (fun x => Ascii.eqb (base64_char x) c) (seqZ 0 64)).

Lemma base64_char_inj x y : 0 <= x < 64 -> 0 <= y < 64 -> base64_char x = base64_char y -> x = y.
Proof.
  assert (forall z, 0 <= z < 64 -> base64_value (base64_char z) = z) as Hv.
  { intros z Hz. apply Z.eqb_eq. by apply (below_all (fun z => base64_value (base64_char z) =? z) 64). }
  intros Hx Hy E. by rewrite <- (Hv x), <- (Hv y), E.
Qed.

(** ** The sextets as numbers *)
Lemma lor_parts k x y : 0 <= k -> 0 <= y < 2 ^ k -> Z.lor (Z.shiftl x k) y = x * 2 ^ k + y.
Proof.
  intros Hk Hy. rewrite <- Z.shiftl_mul_pow2 by done.
  assert (Z.land (Z.shiftl x k) y = 0) as Hl.
  { destruct (decide (y = 0)) as [->|Hne]; [apply Z.land_0_r|]. apply Z.bits_inj'. intros n Hn. rewrite Z.land_spec, Z.bits_0.
    destruct (Z.ltb_spec n k) as [Hlt|Hge]; [by rewrite Z.shiftl_spec_low|].
    rewrite (Z.bits_above_log2 y), andb_false_r; [done|lia|].
    apply Z.log2_lt_pow2; [lia|].
    apply Z.lt_le_trans with (2 ^ k); [lia|]. apply Z.pow_le_mono_r; lia. }
  pose proof (Z.add_lor_land (Z.shiftl x k) y). lia.
Qed.

Lemma land_low a : Z.land a 3 = a mod 4 /\ Z.land a 15 = a mod 16 /\ Z.land a 63 = a mod 64.
Proof.
  split_and!; [apply (Z.land_ones a 2)|apply (Z.land_ones a 4)|apply (Z.land_ones a 6)]; done.
Qed.
Lemma sextet_a a : Z.shiftr a 2 = a / 4.
Proof. by rewrite Z.shiftr_div_pow2. Qed.
Lemma sextet_b a b : byte b -> Z.lor (Z.shiftl (Z.land a 3) 4) (Z.shiftr b 4) = a mod 4 * 16 + b / 16.
Proof.
  intros Hb. rewrite Z.shiftr_div_pow2 by lia. change (2 ^ 4) with 16. rewrite lor_parts; [|lia|].
  - by destruct (land_low a) as (-> & _).
  - change (2 ^ 4) with 16. unfold byte in Hb. lia.
Qed.
Lemma sextet_c b c : byte c -> Z.lor (Z.shiftl (Z.land b 15) 2) (Z.shiftr c 6) = b mod 16 * 4 + c / 64.
Proof.
  intros Hb. rewrite Z.shiftr_div_pow2 by lia. change (2 ^ 6) with 64. rewrite lor_parts; [|lia|].
  - by destruct (land_low b) as (_ & -> & _).
  - change (2 ^ 2) with 4. unfold byte in Hb. lia.
Qed.
Lemma sextet_d c : Z.land c 63 = c mod 64.
Proof. apply land_low. Qed.
Lemma sextet_b_end a : Z.shiftl (Z.land a 3) 4 = a mod 4 * 16.
Proof. rewrite Z.shiftl_mul_pow2 by done. by destruct (land_low a) as (-> & _). Qed.
Lemma sextet_c_end b : Z.shiftl (Z.land b 15) 2 = b mod 16 * 4.
Proof. rewrite Z.shiftl_mul_pow2 by done. by destruct (land_low b) as (_ & -> & _). Qed.

(** Lists three at a time. *)
Lemma triples_ind {A} (P : list A -> Prop) :
  P [] -> (forall a, P [a]) -> (forall a b, P [a; b]) ->
  (forall a b c l, P l -> P (a :: b :: c :: l)) -> forall l, P l.
Proof.
  intros H0 H1 H2 H3. fix IH 1. intros [|a [|b [|c l]]]; [exact H0|apply H1|apply H2|apply H3, IH].
Qed.

Ltac sextets := unfold byte in *; rewrite ?sextet_a, ?sextet_b, ?sextet_c, ?sextet_d, ?sextet_b_end, ?sextet_c_end by done.
Ltac each_byte :=
  repeat match goal with Hb : Forall byte (_ :: _) |- _ =>
    let Hr := fresh "Hr" in apply Forall_cons_1 in Hb as [? Hr] end.

(** Equal characters, equal sextets. *)
Ltac same_sextets :=
  repeat match goal with
  | E : String _ _ = String _ _ |- _ => injection E as ??
  | E : base64_char ?x = base64_char ?y |- _ => apply base64_char_inj in E; [|lia..]
  end.

Lemma RawURLEncode_inj l1 : forall l2, Forall byte l1 -> Forall byte l2 ->
  List.length l1 = List.length l2 -> RawURLEncode l1 = RawURLEncode l2 -> l1 = l2.
Proof.
  induction l1 as [|a|a b|a b c l1 IH] using triples_ind; intros [|a' [|b' [|c' l2]]] H1 H2 Hl E;
    try discriminate Hl; [done|..]; each_byte; cbn [RawURLEncode] in E; revert E; sextets; intros E; same_sextets.
  - f_equal. lia.
  - f_equal; [lia|]. f_equal. lia.
  - f_equal; [lia|]. f_equal; [lia|]. f_equal; [lia|]. apply IH; [done..|by injection Hl|done].
Qed.

Lemma RawURLEncode_length l : slen (RawURLEncode l) = (4 * Z.of_nat (List.length l) + 2) / 3.
Proof.
  induction l as [|a|a b|a b c l IH] using triples_ind; [done..|]. unfold slen in *.
  cbn [RawURLEncode String.length List.length] in *. lia.
Qed.

Lemma RawURLEncode_chars l : Forall byte l -> forall_bytes base64_byte (RawURLEncode l) = true.
Proof.
  induction l as [|a|a b|a b c l IH] using triples_ind; intros Hl; [done|..]; each_byte;
    cbn [RawURLEncode forall_bytes]; sextets; rewrite !base64_chars by lia; [done..|]. by apply IH.
Qed.

(** The code [CreateVoucher] of the service makes of the bytes it draws. *)
Definition code_of (secret : list Z) : string := voucherPrefix +:+ RawURLEncode secret.

Lemma substring_whole n s : (String.length s <= n)%nat -> String.substring 0 n s = s.
Proof.
  revert n. induction s as [|c s IH]; intros [|n] Hn; try done; simpl in Hn; [lia|].
  simpl. rewrite IH; [done|lia].
Qed.

Lemma code_length secret : List.length secret = 32%nat -> slen (RawURLEncode secret) = 43.
Proof. intros Hl. by rewrite RawURLEncode_length, Hl. Qed.

Lemma prefix_substring n s : String.prefix (String.substring 0 n s) s = true.
Proof.
  revert n. induction s as [|c s IH]; intros [|n]; try done. simpl. destruct (ascii_dec c c); [apply IH|done].
Qed.

Lemma base64_printable c : base64_byte c = true -> printable c = true.
Proof. destruct c as [[] [] [] [] [] [] [] []]; vm_compute; done. Qed.

Lemma valid_after_prefix s : slen s = 43 -> forall_bytes base64_byte s = true ->
  validVoucherCode (voucherPrefix +:+ s) = true.
Proof.
  intros Hs Hc. unfold validVoucherCode. generalize voucherPrefix. intros p.
  assert (String.prefix p (p +:+ s) = true /\ slen (p +:+ s) = slen p + 43
          /\ String.substring (String.length p) 43 (p +:+ s) = s) as (-> & -> & ->).
  { induction p as [|c p (IH1 & IH2 & IH3)].
    - split_and!; [by destruct s|exact Hs|]. apply substring_whole. unfold slen in Hs. lia.
    - split_and!; [|unfold slen in *; simpl; lia|exact IH3]. simpl. by destruct (ascii_dec c c). }
  by rewrite Z.eqb_refl, Hc.
Qed.

(** C16: the codes the service issues.  Thirty-two random bytes give a code the package accepts
    ([validVoucherCode], also after the [TrimSpace] of a redemption) with a displayable prefix
    of sixteen characters, and two different draws never give the same code. *)
Theorem issued_codes_are_valid_and_distinct secret :
  Forall byte secret -> List.length secret = 32%nat ->
  (validVoucherCode (code_of secret) = true /\ TrimSpace (code_of secret) = code_of secret)
  /\ (slen (code_of secret) = 52
      /\ String.prefix (String.substring 0 16 (code_of secret)) (code_of secret) = true)
  /\ forall other, Forall byte other -> List.length other = 32%nat ->
       code_of other = code_of secret -> other = secret.
Proof.
  intros Hb Hl. pose proof (code_length _ Hl) as Hs. pose proof (RawURLEncode_chars _ Hb) as Hc.
  split_and!.
  - by apply valid_after_prefix.
  - apply TrimSpace_printable. unfold code_of. simpl.
    by apply (forall_bytes_impl base64_byte); [apply base64_printable|].
  - unfold code_of. by rewrite slen_app, Hs.
  - apply prefix_substring.
  - intros other Ho Hol E. apply RawURLEncode_inj; [done..|congruence|]. by injection E.
Qed.

(** Thirty-two times the byte 77. *)
Lemma issued_codes_are_valid_and_distinct_witness :
  let secret := replicate 32 77 in
  (validVoucherCode (code_of secret) = true /\ TrimSpace (code_of secret) = code_of secret)
  /\ (slen (code_of secret) = 52
      /\ String.prefix (String.substring 0 16 (code_of secret)) (code_of secret) = true)
  /\ forall other, Forall byte other -> List.length other = 32%nat ->
       code_of other = code_of secret -> other = secret.
Proof.
  apply (issued_codes_are_valid_and_distinct (replicate 32 77)); [|reflexivity].
  apply Forall_replicate. unfold byte. lia.
Defined.

End VoucherCodes.
