(* ===== verification/UsageModel.v ===== *)
(** * Package [internal/usage]: requests, reconciliations and the outbox

    The rest of [model.go] and the validation of [service.go].  [Usage.v] has the events
    and statuses billing reads. *)

From stdpp Require Import base gmap strings list.
From Stdlib Require Import ZArith Lia Ascii String.
From S2P Require Import Prelude GoLib Usage.

Module UsageModel.
Import Usage.

Definition ProvenanceAdapter : string := "adapter".
Definition ProvenanceMissingUsage : string := "missing_usage".
Definition ProvenanceEstimated : string := "estimated".

Definition outboxEventUsageRecorded : string := "usage.recorded".
Definition outboxEventUsageReconciled : string := "usage.reconciliation.recorded".
Definition outboxAggregateUsage : string := "usage_event".
Definition outboxAggregateReconciliation : string := "usage_reconciliation".

(** The sentinel errors; [EGenerateID] is the random source's, [EDatabase] an error of
    the server that is passed on. *)
Inductive error :=
| ErrInvalidInput | ErrNotFound | ErrConflict | ErrRequestAlreadyClosed
| ErrOutboxNotOwned | ErrOutboxInvalidState
| EGenerateID | EDatabase (e : sqlerr).

(** ** Data *)
Record StartInput := {
  si_RequestID : string; si_UserID : uuid; si_APIKeyID : uuid; si_Endpoint : string;
  si_RequestedModel : string; si_Stream : bool; si_StartedAt : time
}.

Record RequestHandle := {
  rh_RecordID : uuid; rh_RequestID : string; rh_UserID : uuid; rh_APIKeyID : uuid;
  rh_Endpoint : string; rh_RequestedModel : string; rh_Stream : bool; rh_StartedAt : time;
  rh_TerminalStatus : string
}.

Record AttemptInput := {
  at_AttemptNo : Z; at_RouteVersionID : option uuid; at_ProviderID : option uuid;
  at_ProviderModelID : option uuid; at_CredentialID : option uuid; at_StartedAt : time
}.

Record FinalizeInput := {
  fi_Attempt : option AttemptInput;
  fi_ResolvedModelID : option uuid; fi_ProviderID : option uuid; fi_ProviderModelID : option uuid;
  fi_RouteVersionID : option uuid; fi_CredentialID : option uuid; fi_PriceVersionID : option uuid;
  fi_WalletID : option uuid; fi_Usage : TokenUsage; fi_AmountMinor : option Z; fi_Currency : string;
  fi_Estimated : bool; fi_Provenance : string; fi_TerminalStatus : string;
  fi_UpstreamStatus : option Z; fi_ErrorClass : string; fi_Latency : Z; fi_TTFT : option Z;
  fi_FinishedAt : time
}.

Record ReconciliationInput := {
  ri_UsageEventID : uuid; ri_Source : string; ri_SourceEventKey : string;
  ri_InputTokensDelta : Z; ri_OutputTokensDelta : Z; ri_CacheReadDelta : Z;
  ri_CacheWriteDelta : Z; ri_ReasoningDelta : Z; ri_AmountMinorDelta : Z
}.

Record Reconciliation := {
  rc_ID : uuid; rc_UsageEventID : uuid; rc_Source : string; rc_SourceEventKey : string;
  rc_InputTokensDelta : Z; rc_OutputTokensDelta : Z; rc_CacheReadDelta : Z;
  rc_CacheWriteDelta : Z; rc_ReasoningDelta : Z; rc_AmountMinorDelta : Z;
  rc_Status : string; rc_CreatedAt : time
}.

(** ** Validation *)
(** [cloneUUIDPtr]: the nil identifier counts as absent. *)
Definition cloneUUIDPtr (value : option uuid) : option uuid :=
  match value with Some u => if uuid_eqb u uuid_nil then None else Some u | None => None end.
Definition normalizeUUIDPtr := cloneUUIDPtr.
Definition uuidPtrOrNil (value : uuid) : option uuid :=
  if uuid_eqb value uuid_nil then None else Some value.
Definition RecordIDPointer (h : RequestHandle) : option uuid := uuidPtrOrNil (rh_RecordID h).

Definition is_letter (c : ascii) : bool := is_upper c || is_lower c.
Definition asciiLetters (value : string) : bool := forall_bytes is_letter value.

(** [value == strings.TrimSpace(value) && normalizeText(value, max) != ""]. *)
Definition trimmed_text (value : string) (max : Z) : bool :=
  String.eqb value (TrimSpace value) && negb (String.eqb (normalizeText value max) "").

Definition normalizeStartInput (input : StartInput) (now : time) : result error StartInput :=
  if negb (trimmed_text (si_RequestID input) 128) then Err ErrInvalidInput else
  if negb (trimmed_text (si_Endpoint input) 128) then Err ErrInvalidInput else
  if negb (trimmed_text (si_RequestedModel input) 128) then Err ErrInvalidInput else
  Ok {| si_RequestID := si_RequestID input; si_UserID := si_UserID input;
        si_APIKeyID := si_APIKeyID input; si_Endpoint := si_Endpoint input;
        si_RequestedModel := si_RequestedModel input; si_Stream := si_Stream input;
        si_StartedAt := if IsZero (si_StartedAt input) then now else si_StartedAt input |}.

Definition negative (o : option Z) : bool := match o with Some z => z <? 0 | None => false end.
Definition is_some {A} (o : option A) : bool := match o with Some _ => true | None => false end.

(** [len(c) != 3 || c != strings.ToUpper(c) || !asciiLetters(c)]. *)
Definition currency_ok (c : string) : bool :=
  (slen c =? 3) && String.eqb c (ToUpper c) && asciiLetters c.

(** The tests of [normalizeFinalizeInput], in its order. *)
Definition finalize_input_ok (handle : RequestHandle) (input : FinalizeInput) : bool :=
  let u := fi_Usage input in
  negb (uuid_eqb (rh_RecordID handle) uuid_nil || String.eqb (rh_RequestID handle) "")
  && validStatus (fi_TerminalStatus input)
  && negb ((InputTokens u <? 0) || (OutputTokens u <? 0) || (CacheReadTokens u <? 0)
           || (CacheWriteTokens u <? 0) || (ReasoningTokens u <? 0))
  && negb (negative (fi_AmountMinor input))
  && (String.eqb (fi_Currency input) "" || currency_ok (fi_Currency input))
  && Bool.eqb (is_some (fi_AmountMinor input)) (negb (String.eqb (fi_Currency input) ""))
  && negb (match fi_AmountMinor input with Some a => 0 <? a | None => false end
           && negb (is_some (fi_WalletID input)))
  && (0 <=? fi_Latency input)
  && negb (negative (fi_TTFT input)).

Definition upstream_ok (o : option Z) : bool :=
  match o with Some s => (100 <=? s) && (s <=? 599) | None => true end.

Definition normalize_attempt (handle : RequestHandle) (finished : time) (attempt : AttemptInput)
  : AttemptInput :=
  let started := if IsZero (at_StartedAt attempt) then rh_StartedAt handle else at_StartedAt attempt in
  let started := if IsZero started then finished else started in
  let started := if After started finished then finished else started in
  {| at_AttemptNo := at_AttemptNo attempt;
     at_RouteVersionID := normalizeUUIDPtr (at_RouteVersionID attempt);
     at_ProviderID := normalizeUUIDPtr (at_ProviderID attempt);
     at_ProviderModelID := normalizeUUIDPtr (at_ProviderModelID attempt);
     at_CredentialID := normalizeUUIDPtr (at_CredentialID attempt); at_StartedAt := started |}.

Definition normalize_provenance (estimated : bool) (value : string) : string :=
  let value := normalizeText value 64 in
  if String.eqb value "" then (if estimated then ProvenanceEstimated else ProvenanceAdapter) else value.

Definition finished_at (handle : RequestHandle) (finished now : time) : time :=
  let finished := if IsZero finished then now else finished in
  if negb (IsZero (rh_StartedAt handle)) && Before finished (rh_StartedAt handle)
  then rh_StartedAt handle else finished.

Definition normalizeFinalizeInput (handle : RequestHandle) (input : FinalizeInput) (now : time)
  : result error FinalizeInput :=
  if negb (finalize_input_ok handle input) then Err ErrInvalidInput else
  let finished := finished_at handle (fi_FinishedAt input) now in
  if negb (upstream_ok (fi_UpstreamStatus input)) then Err ErrInvalidInput else
  if match fi_Attempt input with Some a => at_AttemptNo a <? 0 | None => false end
  then Err ErrInvalidInput else
  Ok {| fi_Attempt := normalize_attempt handle finished <$> fi_Attempt input;
        fi_ResolvedModelID := normalizeUUIDPtr (fi_ResolvedModelID input);
        fi_ProviderID := normalizeUUIDPtr (fi_ProviderID input);
        fi_ProviderModelID := normalizeUUIDPtr (fi_ProviderModelID input);
        fi_RouteVersionID := normalizeUUIDPtr (fi_RouteVersionID input);
        fi_CredentialID := normalizeUUIDPtr (fi_CredentialID input);
        fi_PriceVersionID := normalizeUUIDPtr (fi_PriceVersionID input);
        fi_WalletID := normalizeUUIDPtr (fi_WalletID input); fi_Usage := fi_Usage input;
        fi_AmountMinor := fi_AmountMinor input; fi_Currency := fi_Currency input;
        fi_Estimated := fi_Estimated input;
        fi_Provenance := normalize_provenance (fi_Estimated input) (fi_Provenance input);
        fi_TerminalStatus := fi_TerminalStatus input; fi_UpstreamStatus := fi_UpstreamStatus input;
        fi_ErrorClass := normalizeText (fi_ErrorClass input) 128; fi_Latency := fi_Latency input;
        fi_TTFT := fi_TTFT input; fi_FinishedAt := finished |}.

Definition normalizeReconciliationInput (input : ReconciliationInput)
  : result error ReconciliationInput :=
  if uuid_eqb (ri_UsageEventID input) uuid_nil then Err ErrInvalidInput else
  if negb (trimmed_text (ri_Source input) 64) then Err ErrInvalidInput else
  if negb (trimmed_text (ri_SourceEventKey input) 256) then Err ErrInvalidInput else Ok input.

Definition normalizeWorkerID (value : string) : result error string :=
  if trimmed_text value 128 then Ok value else Err ErrInvalidInput.

(** ** Durations *)
Definition durationMillis (value : Z) : Z := if value <=? 0 then 0 else value / Millisecond.
Definition durationPtrMillis (value : option Z) : option Z := durationMillis <$> value.
Definition durationValue (value : option Z) : Z := default 0 value.

Definition settlementKey (requestID : string) : string := "usage:v1:" +:+ requestID.

End UsageModel.
