(* ===== verification/UsageRepo.v ===== *)
(** * [internal/usage/repository.go]: the usage facts and the outbox

    The tables of the package beside those of billing, whose [usage_events] and
    [outbox_events] it writes; [BeginRequest], [Finalize], [RecordReconciliation] and
    the three operations of the outbox, with the rules of migrations 000001, 000002 and
    000010. *)

From stdpp Require Import base gmap strings list sorting.
From Stdlib Require Import ZArith Lia Ascii String.
From S2P Require Import Prelude GoLib Usage Pricing BillingModel Store UsageModel.

Module UsageRepo.
Import Usage UsageModel.
Import Store(DB, mkDB, price_versions, usage_events, wallets, reservations, settlements, liabilities, ledger, outbox, audit_logs, set_outbox, SqlGuards, guard_outbox, JVal, JUuid, JStr, JInt, JBool, JObj, OutboxRow, ob_ID, ob_AggregateType, ob_AggregateID, ob_EventType, ob_IdempotencyKey, ob_Payload).

(** ** Tables *)
(** A row of [request_records]; a NULL status is the empty text. *)
Record RequestRow := {
  rr_ID : uuid; rr_RequestID : string; rr_UserID : option uuid; rr_APIKeyID : option uuid;
  rr_Endpoint : string; rr_RequestedModel : string; rr_Stream : bool; rr_StartedAt : time;
  rr_FinishedAt : option time; rr_TerminalStatus : string
}.

(** A row of [request_attempts], whose key is the request and the attempt number. *)
Record AttemptRow := {
  ar_ID : uuid; ar_RouteVersionID : option uuid; ar_ProviderID : option uuid;
  ar_ProviderModelID : option uuid; ar_CredentialID : option uuid; ar_StartedAt : time;
  ar_UpstreamStatus : option Z; ar_ErrorClass : string; ar_FinishedAt : option time;
  ar_LatencyMS : option Z; ar_TTFTMS : option Z
}.

(** The delivery columns of a row of [outbox_events]. *)
Record Delivery := {
  dl_Status : string; dl_Attempts : Z; dl_NextAttemptAt : time; dl_ClaimedAt : option time;
  dl_ClaimedBy : option string; dl_PublishedAt : option time; dl_LastErrorClass : string;
  dl_CreatedAt : time
}.

Record UDB := mkUDB {
  books : DB;
  request_records : gmap uuid RequestRow;
  request_attempts : gmap (uuid * Z) AttemptRow;
  usage_reconciliations : gmap uuid Reconciliation;
  deliveries : gmap uuid Delivery
}.

Definition set_books (f : DB -> DB) (p : UDB) : UDB :=
  mkUDB (f (books p)) (request_records p) (request_attempts p) (usage_reconciliations p) (deliveries p).
Definition set_records (f : gmap uuid RequestRow -> gmap uuid RequestRow) (p : UDB) : UDB :=
  mkUDB (books p) (f (request_records p)) (request_attempts p) (usage_reconciliations p) (deliveries p).
Definition set_attempts (f : gmap (uuid * Z) AttemptRow -> gmap (uuid * Z) AttemptRow) (p : UDB) : UDB :=
  mkUDB (books p) (request_records p) (f (request_attempts p)) (usage_reconciliations p) (deliveries p).
Definition set_reconciliations (f : gmap uuid Reconciliation -> gmap uuid Reconciliation) (p : UDB) : UDB :=
  mkUDB (books p) (request_records p) (request_attempts p) (f (usage_reconciliations p)) (deliveries p).
Definition set_deliveries (f : gmap uuid Delivery -> gmap uuid Delivery) (p : UDB) : UDB :=
  mkUDB (books p) (request_records p) (request_attempts p) (usage_reconciliations p) (f (deliveries p)).

Definition set_usage_events (f : gmap uuid Event -> gmap uuid Event) (d : DB) : DB :=
  mkDB (price_versions d) (f (usage_events d)) (wallets d) (reservations d) (settlements d)
       (liabilities d) (ledger d) (outbox d) (audit_logs d).

(** ** Parameters

    Foreign keys, the format and the width of columns: [Some code] is the SQLSTATE the
    server raises.  [inserted_at] is the server's clock at the insertion of an outbox
    row, the default of its [created_at] and [next_attempt_at]. *)
Class UsageGuards := {
  guard_request : RequestRow -> option string;
  guard_usage_event : Event -> option string;
  guard_attempt : uuid * Z -> AttemptRow -> option string;
  guard_reconciliation : Reconciliation -> option string
}.
Class OutboxBirth := inserted_at : uuid -> time.

(** ** Transactions *)
Definition USt : Type := list uuid * UDB.
Abbreviation utx := (tx USt error).

Definition mapRepositoryError (e : sqlerr) : error :=
  match e with
  | NoRows => ErrNotFound
  | SqlState c =>
      if Billing.one_of c ["23505"; "55000"] then ErrConflict
      else if Billing.one_of c ["23503"; "23514"; "22P02"] then ErrInvalidInput
      else EDatabase e
  end.

Definition uread {A} (f : UDB -> A) : utx A := fun s => Ok (s, f s.2).
Definition uwrite (f : UDB -> UDB) : utx unit := fun s => Ok ((s.1, f s.2), tt).
Definition usql (e : sqlerr) : utx unit := tx_fail (mapRepositoryError e).
Definition u_id : utx uuid := fun s =>
  match s.1 with
  | i :: rest => Ok ((rest, s.2), i)
  | [] => Err EGenerateID
  end.
Definition urow {A} (o : option A) : utx A :=
  tx_lift (match o with Some a => Ok a | None => Err ErrNotFound end).
Definition uguard (g : option string) : utx unit :=
  match g with Some c => usql (SqlState c) | None => mret tt end.
Definition uunique (dup : bool) : utx unit := if dup then usql (SqlState "23505") else mret tt.
Definition ucheck (ok : bool) : utx unit := if ok then mret tt else usql (SqlState "23514").

(** [Store.WithTx]. *)
Definition run_usage {A} (ids : list uuid) (m : utx A) (p : UDB) : UDB * result error A :=
  match m (ids, p) with
  | Ok ((_, p'), a) => (p', Ok a)
  | Err e => (p, Err e)
  end.

Section repository.
Context `{UuidText, TimeText, SqlGuards, UsageGuards, OutboxBirth}.

(** ** request_records *)
(** [scanRequestRecord]. *)
Definition handle_of (r : RequestRow) : RequestHandle :=
  {| rh_RecordID := rr_ID r; rh_RequestID := rr_RequestID r;
     rh_UserID := default uuid_nil (rr_UserID r); rh_APIKeyID := default uuid_nil (rr_APIKeyID r);
     rh_Endpoint := rr_Endpoint r; rh_RequestedModel := rr_RequestedModel r; rh_Stream := rr_Stream r;
     rh_StartedAt := rr_StartedAt r; rh_TerminalStatus := rr_TerminalStatus r |}.

Definition loadRequestRecord (requestID : string) : utx RequestHandle :=
  o ← uread (fun p => map_find (fun r => String.eqb (rr_RequestID r) requestID) (request_records p));
  r ← urow o;
  mret (handle_of r).
Definition loadRequestRecordByID (recordID : uuid) : utx RequestHandle :=
  o ← uread (fun p => request_records p !! recordID);
  r ← urow o;
  mret (handle_of r).

Definition request_check (r : RequestRow) : bool :=
  (String.eqb (rr_TerminalStatus r) "" || validStatus (rr_TerminalStatus r))
  && match rr_FinishedAt r with Some t => rr_StartedAt r <=? t | None => true end.

Definition request_row (recordID : uuid) (input : StartInput) (startedAt : time) : RequestRow :=
  {| rr_ID := recordID; rr_RequestID := si_RequestID input;
     rr_UserID := uuidPtrOrNil (si_UserID input); rr_APIKeyID := uuidPtrOrNil (si_APIKeyID input);
     rr_Endpoint := si_Endpoint input; rr_RequestedModel := si_RequestedModel input;
     rr_Stream := si_Stream input; rr_StartedAt := pg_time startedAt; rr_FinishedAt := None;
     rr_TerminalStatus := "" |}.

(** [INSERT ... ON CONFLICT (request_id) DO NOTHING]. *)
Definition insert_request (r : RequestRow) : utx unit :=
  conflict ← uread (fun p =>
    map_any (fun o => String.eqb (rr_RequestID o) (rr_RequestID r)) (request_records p));
  if conflict : bool then mret tt else
  dup ← uread (fun p => bool_decide (is_Some (request_records p !! rr_ID r)));
  uunique dup;;
  uguard (guard_request r);;
  uwrite (set_records (<[rr_ID r := r]>)).

Definition sameRequestMetadata (record : RequestHandle) (input : StartInput) : bool :=
  String.eqb (rh_RequestID record) (si_RequestID input)
  && uuid_eqb (rh_UserID record) (si_UserID input)
  && uuid_eqb (rh_APIKeyID record) (si_APIKeyID input)
  && String.eqb (rh_Endpoint record) (si_Endpoint input)
  && String.eqb (rh_RequestedModel record) (si_RequestedModel input)
  && Bool.eqb (rh_Stream record) (si_Stream input).

(** [clock] is [time.Now()] where the start was left zero. *)
Definition BeginRequest (input : StartInput) (clock : time) : utx RequestHandle :=
  let startedAt := if IsZero (si_StartedAt input) then clock else si_StartedAt input in
  recordID ← u_id;
  insert_request (request_row recordID input startedAt);;
  record ← loadRequestRecord (si_RequestID input);
  tx_when (negb (sameRequestMetadata record input)) ErrConflict;;
  mret record.

(** ** usage_events *)
Definition eventFromFinalize (eventID : uuid) (key : string) (handle : RequestHandle)
    (input : FinalizeInput) (createdAt : time) : Event :=
  {| ev_ID := eventID; ev_SettlementKey := key; ev_RequestRecordID := RecordIDPointer handle;
     ev_RequestID := rh_RequestID handle; ev_StartedAt := rh_StartedAt handle;
     ev_FinishedAt := fi_FinishedAt input; ev_RequestedModel := rh_RequestedModel handle;
     ev_UserID := uuidPtrOrNil (rh_UserID handle); ev_APIKeyID := uuidPtrOrNil (rh_APIKeyID handle);
     ev_ResolvedModelID := cloneUUIDPtr (fi_ResolvedModelID input);
     ev_ProviderID := cloneUUIDPtr (fi_ProviderID input);
     ev_ProviderModelID := cloneUUIDPtr (fi_ProviderModelID input);
     ev_RouteVersionID := cloneUUIDPtr (fi_RouteVersionID input);
     ev_CredentialID := cloneUUIDPtr (fi_CredentialID input);
     ev_PriceVersionID := cloneUUIDPtr (fi_PriceVersionID input);
     ev_WalletID := cloneUUIDPtr (fi_WalletID input); ev_Usage := fi_Usage input;
     ev_AmountMinor := fi_AmountMinor input; ev_Currency := fi_Currency input;
     ev_Estimated := fi_Estimated input; ev_Provenance := fi_Provenance input;
     ev_TerminalStatus := fi_TerminalStatus input; ev_UpstreamStatus := fi_UpstreamStatus input;
     ev_ErrorClass := fi_ErrorClass input; ev_Latency := fi_Latency input;
     ev_LatencyMS := Some (durationMillis (fi_Latency input));
     ev_TTFT := durationValue (fi_TTFT input); ev_TTFTMS := durationPtrMillis (fi_TTFT input);
     ev_CreatedAt := createdAt |}.

(** The event as a later [scanUsageEvent] reads it: instants have microseconds and the
    durations are those of the millisecond columns. *)
Definition stored_event (e : Event) : Event :=
  let ms := fun o : option Z => match o with Some m => m * Millisecond | None => 0 end in
  {| ev_ID := ev_ID e; ev_SettlementKey := ev_SettlementKey e;
     ev_RequestRecordID := ev_RequestRecordID e; ev_RequestID := ev_RequestID e;
     ev_StartedAt := pg_time (ev_StartedAt e); ev_FinishedAt := pg_time (ev_FinishedAt e);
     ev_RequestedModel := ev_RequestedModel e; ev_UserID := ev_UserID e;
     ev_APIKeyID := ev_APIKeyID e; ev_ResolvedModelID := ev_ResolvedModelID e;
     ev_ProviderID := ev_ProviderID e; ev_ProviderModelID := ev_ProviderModelID e;
     ev_RouteVersionID := ev_RouteVersionID e; ev_CredentialID := ev_CredentialID e;
     ev_PriceVersionID := ev_PriceVersionID e; ev_WalletID := ev_WalletID e; ev_Usage := ev_Usage e;
     ev_AmountMinor := ev_AmountMinor e; ev_Currency := ev_Currency e;
     ev_Estimated := ev_Estimated e; ev_Provenance := ev_Provenance e;
     ev_TerminalStatus := ev_TerminalStatus e; ev_UpstreamStatus := ev_UpstreamStatus e;
     ev_ErrorClass := ev_ErrorClass e; ev_Latency := ms (ev_LatencyMS e);
     ev_LatencyMS := ev_LatencyMS e; ev_TTFT := ms (ev_TTFTMS e); ev_TTFTMS := ev_TTFTMS e;
     ev_CreatedAt := pg_time (ev_CreatedAt e) |}.

(** The CHECK constraints of the table. *)
Definition usage_check (e : Event) : bool :=
  let u := ev_Usage e in
  (0 <=? InputTokens u) && (0 <=? OutputTokens u) && (0 <=? CacheReadTokens u)
  && (0 <=? CacheWriteTokens u) && (0 <=? ReasoningTokens u)
  && negb (negative (ev_AmountMinor e)) && validStatus (ev_TerminalStatus e)
  && upstream_ok (ev_UpstreamStatus e) && negb (negative (ev_LatencyMS e))
  && negb (negative (ev_TTFTMS e)) && (ev_StartedAt e <=? ev_FinishedAt e).

(** The trigger [bablo_validate_usage_request_link]. *)
Definition request_link_ok (e : Event) (p : UDB) : bool :=
  match ev_RequestRecordID e with
  | None => true
  | Some r => match request_records p !! r with
              | Some row => String.eqb (rr_RequestID row) (ev_RequestID e)
              | None => false
              end
  end.

Definition events_clash (e o : Event) : bool :=
  String.eqb (ev_SettlementKey o) (ev_SettlementKey e) || String.eqb (ev_RequestID o) (ev_RequestID e).

Definition insert_usage_event (e : Event) : utx unit :=
  let row := stored_event e in
  linked ← uread (request_link_ok row);
  ucheck linked;;
  ucheck (usage_check row);;
  dup ← uread (fun p => bool_decide (is_Some (usage_events (books p) !! ev_ID e))
                        || map_any (events_clash row) (usage_events (books p)));
  uunique dup;;
  uguard (guard_usage_event row);;
  uwrite (set_books (set_usage_events (<[ev_ID row := row]>))).

Definition find_usage_event (q : Event -> bool) : utx (option Event) :=
  uread (fun p => map_find q (usage_events (books p))).
Definition loadUsageEventBySettlementKey (key : string) : utx (option Event) :=
  find_usage_event (fun e => String.eqb (ev_SettlementKey e) key).
Definition loadUsageEventByRequestID (requestID : string) : utx (option Event) :=
  find_usage_event (fun e => String.eqb (ev_RequestID e) requestID).

(** [t.Truncate(time.Microsecond)] is the microseconds of [t] since the zero time. *)
Definition sameInstant (left right : time) : bool :=
  if IsZero left || IsZero right then IsZero left && IsZero right
  else pg_time left =? pg_time right.

Definition opt_Z_eqb (a b : option Z) : bool :=
  match a, b with Some x, Some y => x =? y | None, None => true | _, _ => false end.

Definition sameEventInput (existing : Event) (handle : RequestHandle) (input : FinalizeInput) : bool :=
  let expected := eventFromFinalize (ev_ID existing) (ev_SettlementKey existing) handle input
                    (ev_CreatedAt existing) in
  opt_uuid_eqb (ev_RequestRecordID existing) (ev_RequestRecordID expected)
  && String.eqb (ev_RequestID existing) (ev_RequestID expected)
  && opt_uuid_eqb (ev_UserID existing) (ev_UserID expected)
  && opt_uuid_eqb (ev_APIKeyID existing) (ev_APIKeyID expected)
  && String.eqb (ev_RequestedModel existing) (ev_RequestedModel expected)
  && sameInstant (ev_StartedAt existing) (ev_StartedAt expected)
  && sameInstant (ev_FinishedAt existing) (ev_FinishedAt expected)
  && opt_uuid_eqb (ev_ResolvedModelID existing) (ev_ResolvedModelID expected)
  && opt_uuid_eqb (ev_ProviderID existing) (ev_ProviderID expected)
  && opt_uuid_eqb (ev_ProviderModelID existing) (ev_ProviderModelID expected)
  && opt_uuid_eqb (ev_RouteVersionID existing) (ev_RouteVersionID expected)
  && opt_uuid_eqb (ev_CredentialID existing) (ev_CredentialID expected)
  && opt_uuid_eqb (ev_PriceVersionID existing) (ev_PriceVersionID expected)
  && opt_uuid_eqb (ev_WalletID existing) (ev_WalletID expected)
  && bool_decide (ev_Usage existing = ev_Usage expected)
  && opt_Z_eqb (ev_AmountMinor existing) (ev_AmountMinor expected)
  && String.eqb (ev_Currency existing) (ev_Currency expected)
  && Bool.eqb (ev_Estimated existing) (ev_Estimated expected)
  && String.eqb (ev_Provenance existing) (ev_Provenance expected)
  && String.eqb (ev_TerminalStatus existing) (ev_TerminalStatus expected)
  && opt_Z_eqb (ev_UpstreamStatus existing) (ev_UpstreamStatus expected)
  && String.eqb (ev_ErrorClass existing) (ev_ErrorClass expected)
  && opt_Z_eqb (ev_LatencyMS existing) (ev_LatencyMS expected)
  && opt_Z_eqb (ev_TTFTMS existing) (ev_TTFTMS expected).

(** [UPDATE request_records SET finished_at = COALESCE(...), terminal_status = COALESCE(...)]. *)
Definition closed_row (status : string) (finishedAt : time) (r : RequestRow) : RequestRow :=
  {| rr_ID := rr_ID r; rr_RequestID := rr_RequestID r; rr_UserID := rr_UserID r;
     rr_APIKeyID := rr_APIKeyID r; rr_Endpoint := rr_Endpoint r;
     rr_RequestedModel := rr_RequestedModel r; rr_Stream := rr_Stream r; rr_StartedAt := rr_StartedAt r;
     rr_FinishedAt := match rr_FinishedAt r with Some t => Some t | None => Some (pg_time finishedAt) end;
     rr_TerminalStatus := if String.eqb (rr_TerminalStatus r) "" then status else rr_TerminalStatus r |}.

Definition closeRequestRecord (recordID : uuid) (status : string) (finishedAt : time) : utx unit :=
  found ← uread (fun p => request_records p !! recordID);
  match found with
  | None => mret tt
  | Some r =>
      let new := closed_row status finishedAt r in
      ucheck (request_check new);;
      uwrite (set_records (<[recordID := new]>))
  end.

(** ** request_attempts *)
Definition attempt_check (attemptNo : Z) (a : AttemptRow) : bool :=
  (0 <=? attemptNo) && upstream_ok (ar_UpstreamStatus a) && negb (negative (ar_LatencyMS a))
  && negb (negative (ar_TTFTMS a))
  && match ar_FinishedAt a with Some t => ar_StartedAt a <=? t | None => true end.

Definition new_attempt (attemptID : uuid) (attempt : AttemptInput) (startedAt : time) : AttemptRow :=
  {| ar_ID := attemptID; ar_RouteVersionID := cloneUUIDPtr (at_RouteVersionID attempt);
     ar_ProviderID := cloneUUIDPtr (at_ProviderID attempt);
     ar_ProviderModelID := cloneUUIDPtr (at_ProviderModelID attempt);
     ar_CredentialID := cloneUUIDPtr (at_CredentialID attempt); ar_StartedAt := pg_time startedAt;
     ar_UpstreamStatus := None; ar_ErrorClass := ""; ar_FinishedAt := None; ar_LatencyMS := None;
     ar_TTFTMS := None |}.

(** [COALESCE(column, value)]. *)
Definition coalesce_id (column value : option uuid) : option uuid :=
  match column with Some _ => column | None => cloneUUIDPtr value end.

Definition attempt_row (r : AttemptRow) (attempt : AttemptInput) (input : FinalizeInput) : AttemptRow :=
  {| ar_ID := ar_ID r;
     ar_RouteVersionID := coalesce_id (ar_RouteVersionID r) (at_RouteVersionID attempt);
     ar_ProviderID := coalesce_id (ar_ProviderID r) (at_ProviderID attempt);
     ar_ProviderModelID := coalesce_id (ar_ProviderModelID r) (at_ProviderModelID attempt);
     ar_CredentialID := coalesce_id (ar_CredentialID r) (at_CredentialID attempt);
     ar_StartedAt := ar_StartedAt r; ar_UpstreamStatus := fi_UpstreamStatus input;
     ar_ErrorClass := fi_ErrorClass input; ar_FinishedAt := Some (pg_time (fi_FinishedAt input));
     ar_LatencyMS := Some (durationMillis (fi_Latency input));
     ar_TTFTMS := durationPtrMillis (fi_TTFT input) |}.

(** [INSERT ... ON CONFLICT (request_record_id, attempt_no) DO NOTHING]. *)
Definition insert_attempt (key : uuid * Z) (a : AttemptRow) : utx unit :=
  ucheck (attempt_check key.2 a);;
  conflict ← uread (fun p => bool_decide (is_Some (request_attempts p !! key)));
  if conflict : bool then mret tt else
  dup ← uread (fun p => map_any (fun o => uuid_eqb (ar_ID o) (ar_ID a)) (request_attempts p));
  uunique dup;;
  uguard (guard_attempt key a);;
  uwrite (set_attempts (<[key := a]>)).

Definition upsertAttempt (handle : RequestHandle) (attempt : AttemptInput) (input : FinalizeInput)
    (clock : time) : utx unit :=
  let startedAt := at_StartedAt attempt in
  let startedAt := if IsZero startedAt then rh_StartedAt handle else startedAt in
  let startedAt := if IsZero startedAt then clock else startedAt in
  let key := (rh_RecordID handle, at_AttemptNo attempt) in
  attemptID ← u_id;
  insert_attempt key (new_attempt attemptID attempt startedAt);;
  found ← uread (fun p => request_attempts p !! key);
  match found with
  | None => mret tt
  | Some r =>
      let new := attempt_row r attempt input in
      ucheck (attempt_check key.2 new);;
      uguard (guard_attempt key new);;
      uwrite (set_attempts (<[key := new]>))
  end.

(** ** outbox_events *)
Definition opt_field {A} (name : string) (f : A -> JVal) (o : option A) : list (string * JVal) :=
  match o with Some a => [(name, f a)] | None => [] end.
Definition text_field (name value : string) : list (string * JVal) :=
  if String.eqb value "" then [] else [(name, JStr value)].

(** [json.Marshal] of an [Event], with its [omitempty] tags. *)
Definition usage_json (u : TokenUsage) : JVal :=
  JObj [("input_tokens", JInt (InputTokens u)); ("output_tokens", JInt (OutputTokens u));
        ("cache_read_tokens", JInt (CacheReadTokens u)); ("cache_write_tokens", JInt (CacheWriteTokens u));
        ("reasoning_tokens", JInt (ReasoningTokens u))].
Definition event_json (e : Event) : JVal := JObj (
  [("id", JUuid (ev_ID e)); ("settlement_key", JStr (ev_SettlementKey e))]
  ++ opt_field "request_record_id" JUuid (ev_RequestRecordID e)
  ++ [("request_id", JStr (ev_RequestID e)); ("started_at", JStr (rfc3339 (ev_StartedAt e)));
      ("finished_at", JStr (rfc3339 (ev_FinishedAt e))); ("requested_model", JStr (ev_RequestedModel e))]
  ++ opt_field "user_id" JUuid (ev_UserID e) ++ opt_field "api_key_id" JUuid (ev_APIKeyID e)
  ++ opt_field "resolved_model_id" JUuid (ev_ResolvedModelID e)
  ++ opt_field "provider_id" JUuid (ev_ProviderID e)
  ++ opt_field "provider_model_id" JUuid (ev_ProviderModelID e)
  ++ opt_field "route_version_id" JUuid (ev_RouteVersionID e)
  ++ opt_field "credential_id" JUuid (ev_CredentialID e)
  ++ opt_field "price_version_id" JUuid (ev_PriceVersionID e)
  ++ opt_field "wallet_id" JUuid (ev_WalletID e)
  ++ [("usage", usage_json (ev_Usage e))]
  ++ opt_field "amount_minor" JInt (ev_AmountMinor e) ++ text_field "currency" (ev_Currency e)
  ++ [("estimated", JBool (ev_Estimated e)); ("provenance", JStr (ev_Provenance e));
      ("terminal_status", JStr (ev_TerminalStatus e))]
  ++ opt_field "upstream_status" JInt (ev_UpstreamStatus e)
  ++ text_field "error_class" (ev_ErrorClass e)
  ++ opt_field "latency_ms" JInt (ev_LatencyMS e) ++ opt_field "ttft_ms" JInt (ev_TTFTMS e)
  ++ [("created_at", JStr (rfc3339 (ev_CreatedAt e)))])%list.

Definition reconciliation_json (r : Reconciliation) : JVal := JObj
  [("id", JUuid (rc_ID r)); ("usage_event_id", JUuid (rc_UsageEventID r));
   ("source", JStr (rc_Source r)); ("source_event_key", JStr (rc_SourceEventKey r));
   ("input_tokens_delta", JInt (rc_InputTokensDelta r));
   ("output_tokens_delta", JInt (rc_OutputTokensDelta r));
   ("cache_read_tokens_delta", JInt (rc_CacheReadDelta r));
   ("cache_write_tokens_delta", JInt (rc_CacheWriteDelta r));
   ("reasoning_tokens_delta", JInt (rc_ReasoningDelta r));
   ("amount_minor_delta", JInt (rc_AmountMinorDelta r)); ("status", JStr (rc_Status r));
   ("created_at", JStr (rfc3339 (rc_CreatedAt r)))].

Definition outbox_key (aggregateType : string) (aggregateID : uuid) (eventType key : string)
    (o : OutboxRow) : bool :=
  String.eqb (ob_AggregateType o) aggregateType && uuid_eqb (ob_AggregateID o) aggregateID
  && String.eqb (ob_EventType o) eventType && String.eqb (ob_IdempotencyKey o) key.

Definition insert_outbox (aggregateType : string) (aggregateID : uuid) (eventType key : string)
    (payload : list (string * JVal)) : utx unit :=
  outboxID ← u_id;
  let r := {| ob_ID := outboxID; ob_AggregateType := aggregateType; ob_AggregateID := aggregateID;
              ob_EventType := eventType; ob_IdempotencyKey := key; ob_Payload := payload |} in
  conflict ← uread (fun p =>
    existsb (outbox_key aggregateType aggregateID eventType key) (outbox (books p)));
  if conflict : bool then mret tt else
  dup ← uread (fun p => existsb (fun o => uuid_eqb (ob_ID o) outboxID) (outbox (books p)));
  uunique dup;;
  uguard (guard_outbox r);;
  uwrite (set_books (set_outbox (fun l => (l ++ [r])%list))).

Definition insertUsageOutbox (event : Event) : utx unit :=
  insert_outbox outboxAggregateUsage (ev_ID event) outboxEventUsageRecorded
    ("usage:" +:+ ev_SettlementKey event) [("schema_version", JInt 1); ("event", event_json event)].

Definition insertReconciliationOutbox (r : Reconciliation) : utx unit :=
  insert_outbox outboxAggregateReconciliation (rc_ID r) outboxEventUsageReconciled
    ("reconciliation:" +:+ rc_Source r +:+ ":" +:+ rc_SourceEventKey r)
    [("schema_version", JInt 1); ("reconciliation", reconciliation_json r)].

(** ** [Finalize] *)
(** The fact is there already. *)
Definition finalize_again (existing : Event) (handle : RequestHandle) (input : FinalizeInput) : utx Event :=
  tx_when (negb (sameEventInput existing handle input)) ErrConflict;;
  tx_when (negb (opt_uuid_eqb (ev_RequestRecordID existing) (Some (rh_RecordID handle)))) ErrConflict;;
  closeRequestRecord (rh_RecordID handle) (fi_TerminalStatus input) (fi_FinishedAt input);;
  insertUsageOutbox existing;;
  mret existing.

Definition with_created (e : Event) (t : time) : Event :=
  {| ev_ID := ev_ID e; ev_SettlementKey := ev_SettlementKey e;
     ev_RequestRecordID := ev_RequestRecordID e; ev_RequestID := ev_RequestID e;
     ev_StartedAt := ev_StartedAt e; ev_FinishedAt := ev_FinishedAt e;
     ev_RequestedModel := ev_RequestedModel e; ev_UserID := ev_UserID e; ev_APIKeyID := ev_APIKeyID e;
     ev_ResolvedModelID := ev_ResolvedModelID e; ev_ProviderID := ev_ProviderID e;
     ev_ProviderModelID := ev_ProviderModelID e; ev_RouteVersionID := ev_RouteVersionID e;
     ev_CredentialID := ev_CredentialID e; ev_PriceVersionID := ev_PriceVersionID e;
     ev_WalletID := ev_WalletID e; ev_Usage := ev_Usage e; ev_AmountMinor := ev_AmountMinor e;
     ev_Currency := ev_Currency e; ev_Estimated := ev_Estimated e; ev_Provenance := ev_Provenance e;
     ev_TerminalStatus := ev_TerminalStatus e; ev_UpstreamStatus := ev_UpstreamStatus e;
     ev_ErrorClass := ev_ErrorClass e; ev_Latency := ev_Latency e; ev_LatencyMS := ev_LatencyMS e;
     ev_TTFT := ev_TTFT e; ev_TTFTMS := ev_TTFTMS e; ev_CreatedAt := t |}.

(** The fact is appended; [RETURNING created_at] gives the stored creation time. *)
Definition finalize_new (handle : RequestHandle) (input : FinalizeInput) (clock : time) : utx Event :=
  eventID ← u_id;
  let createdAt := if negb (IsZero (fi_FinishedAt input)) && After (fi_FinishedAt input) clock
                   then fi_FinishedAt input else clock in
  let event := eventFromFinalize eventID (settlementKey (rh_RequestID handle)) handle input createdAt in
  insert_usage_event event;;
  let event := with_created event (pg_time createdAt) in
  match fi_Attempt input with
  | Some attempt => upsertAttempt handle attempt input clock
  | None => mret tt
  end;;
  closeRequestRecord (rh_RecordID handle) (fi_TerminalStatus input) (fi_FinishedAt input);;
  insertUsageOutbox event;;
  mret event.

Definition Finalize (handle : RequestHandle) (input : FinalizeInput) (clock : time) : utx Event :=
  record ← loadRequestRecordByID (rh_RecordID handle);
  tx_when (negb (String.eqb (rh_RequestID record) (rh_RequestID handle))) ErrConflict;;
  tx_when (negb (String.eqb (rh_TerminalStatus record) "")
           && negb (String.eqb (rh_TerminalStatus record) (fi_TerminalStatus input)))
          ErrRequestAlreadyClosed;;
  existing ← loadUsageEventBySettlementKey (settlementKey (rh_RequestID handle));
  match existing with
  | Some e => finalize_again e handle input
  | None =>
      byRequest ← loadUsageEventByRequestID (rh_RequestID handle);
      tx_when (is_some byRequest) ErrConflict;;
      finalize_new handle input clock
  end.

(** ** Reconciliations *)
Definition of_source (source key : string) (r : Reconciliation) : bool :=
  String.eqb (rc_Source r) source && String.eqb (rc_SourceEventKey r) key.

Definition loadReconciliation (source key : string) : utx Reconciliation :=
  o ← uread (fun p => map_find (of_source source key) (usage_reconciliations p)); urow o.

Definition reconciliation_row (reconciliationID : uuid) (input : ReconciliationInput) (created : time)
  : Reconciliation :=
  {| rc_ID := reconciliationID; rc_UsageEventID := ri_UsageEventID input; rc_Source := ri_Source input;
     rc_SourceEventKey := ri_SourceEventKey input; rc_InputTokensDelta := ri_InputTokensDelta input;
     rc_OutputTokensDelta := ri_OutputTokensDelta input; rc_CacheReadDelta := ri_CacheReadDelta input;
     rc_CacheWriteDelta := ri_CacheWriteDelta input; rc_ReasoningDelta := ri_ReasoningDelta input;
     rc_AmountMinorDelta := ri_AmountMinorDelta input; rc_Status := "recorded";
     rc_CreatedAt := created |}.

Definition insert_reconciliation (r : Reconciliation) : utx unit :=
  conflict ← uread (fun p =>
    map_any (of_source (rc_Source r) (rc_SourceEventKey r)) (usage_reconciliations p));
  if conflict : bool then mret tt else
  dup ← uread (fun p => bool_decide (is_Some (usage_reconciliations p !! rc_ID r)));
  uunique dup;;
  uguard (guard_reconciliation r);;
  uwrite (set_reconciliations (<[rc_ID r := r]>)).

Definition sameReconciliationInput (stored : Reconciliation) (input : ReconciliationInput) : bool :=
  uuid_eqb (rc_UsageEventID stored) (ri_UsageEventID input)
  && String.eqb (rc_Source stored) (ri_Source input)
  && String.eqb (rc_SourceEventKey stored) (ri_SourceEventKey input)
  && (rc_InputTokensDelta stored =? ri_InputTokensDelta input)
  && (rc_OutputTokensDelta stored =? ri_OutputTokensDelta input)
  && (rc_CacheReadDelta stored =? ri_CacheReadDelta input)
  && (rc_CacheWriteDelta stored =? ri_CacheWriteDelta input)
  && (rc_ReasoningDelta stored =? ri_ReasoningDelta input)
  && (rc_AmountMinorDelta stored =? ri_AmountMinorDelta input).

(** [created] is the default [now()] of [created_at]. *)
Definition RecordReconciliation (input : ReconciliationInput) (created : time) : utx Reconciliation :=
  found ← uread (fun p => usage_events (books p) !! ri_UsageEventID input);
  urow found;;
  reconciliationID ← u_id;
  insert_reconciliation (reconciliation_row reconciliationID input (pg_time created));;
  stored ← loadReconciliation (ri_Source input) (ri_SourceEventKey input);
  tx_when (negb (uuid_eqb (rc_UsageEventID stored) (ri_UsageEventID input))) ErrConflict;;
  tx_when (negb (sameReconciliationInput stored input)) ErrConflict;;
  insertReconciliationOutbox stored;;
  mret stored.

(** ** The delivery of outbox rows *)
Definition pending_delivery (outboxID : uuid) : Delivery :=
  {| dl_Status := "pending"; dl_Attempts := 0; dl_NextAttemptAt := inserted_at outboxID;
     dl_ClaimedAt := None; dl_ClaimedBy := None; dl_PublishedAt := None; dl_LastErrorClass := "";
     dl_CreatedAt := inserted_at outboxID |}.
(** A row without an entry has the defaults of its columns. *)
Definition delivery (p : UDB) (outboxID : uuid) : Delivery :=
  default (pending_delivery outboxID) (deliveries p !! outboxID).

(** [OutboxEvent]: the row and its delivery columns. *)
Definition OutboxEvent : Type := OutboxRow * Delivery.

Definition delivery_due (now cutoff : time) (d : Delivery) : bool :=
  (String.eqb (dl_Status d) "pending" && (dl_NextAttemptAt d <=? now))
  || (String.eqb (dl_Status d) "processing"
      && match dl_ClaimedAt d with Some t => t <? cutoff | None => true end).

(** [ORDER BY next_attempt_at, created_at, id]. *)
Definition delivery_before (a b : OutboxEvent) : Prop :=
  let key := fun x : OutboxEvent => (dl_NextAttemptAt x.2, dl_CreatedAt x.2, Z.of_N (ob_ID x.1)) in
  let '(a1, a2, a3) := key a in let '(b1, b2, b3) := key b in
  a1 < b1 \/ (a1 = b1 /\ (a2 < b2 \/ (a2 = b2 /\ a3 <= b3))).
#[export] Instance delivery_before_dec : RelDecision delivery_before.
Proof. intros a b. unfold delivery_before. simpl. apply _. Defined.

Definition claim_candidates (limit : nat) (now cutoff : time) (locked : uuid -> bool) (p : UDB)
  : list OutboxEvent :=
  take limit (merge_sort delivery_before
    (filter (fun x => delivery_due now cutoff x.2 && negb (locked (ob_ID x.1)) = true)
      ((fun o => (o, delivery p (ob_ID o))) <$> outbox (books p)))).

Definition claimed (workerID : string) (now : time) (d : Delivery) : Delivery :=
  {| dl_Status := "processing"; dl_Attempts := dl_Attempts d + 1;
     dl_NextAttemptAt := dl_NextAttemptAt d; dl_ClaimedAt := Some (pg_time now);
     dl_ClaimedBy := Some workerID; dl_PublishedAt := dl_PublishedAt d;
     dl_LastErrorClass := dl_LastErrorClass d; dl_CreatedAt := dl_CreatedAt d |}.

Definition max_int32 : Z := 2147483647.

(** [locked] are the rows another transaction has locked, which [SKIP LOCKED] leaves out.
    The rows come back in the order of the candidates; the server promises none. *)
Definition Repository_ClaimOutbox (workerID : string) (limit : nat) (lease : Z) (now : time)
    (locked : uuid -> bool) : utx (list OutboxEvent) :=
  events ← uread (claim_candidates limit (pg_time now) (pg_time (now - lease)) locked);
  if existsb (fun x => dl_Attempts x.2 =? max_int32) events then
    usql (SqlState "22003");; mret []
  else
  let rows := (fun x : OutboxEvent => (x.1, claimed workerID now x.2)) <$> events in
  uwrite (set_deliveries (fun m => foldr (fun x => <[ob_ID x.1 := x.2]>) m rows));;
  mret rows.

Definition outboxOwnershipError (eventID : uuid) (workerID : string) (p : UDB) : error :=
  if negb (existsb (fun o => uuid_eqb (ob_ID o) eventID) (outbox (books p))) then ErrNotFound else
  let d := delivery p eventID in
  if negb (String.eqb (dl_Status d) "processing")
     || match dl_ClaimedBy d with Some w => negb (String.eqb w workerID) | None => true end
  then ErrOutboxNotOwned else ErrOutboxInvalidState.

(** [WHERE id = $1 AND status = 'processing' AND claimed_by = $2]. *)
Definition owned_delivery (eventID : uuid) (workerID : string) (p : UDB) : bool :=
  existsb (fun o => uuid_eqb (ob_ID o) eventID) (outbox (books p))
  && String.eqb (dl_Status (delivery p eventID)) "processing"
  && match dl_ClaimedBy (delivery p eventID) with Some w => String.eqb w workerID | None => false end.

Definition update_owned (eventID : uuid) (workerID : string) (f : Delivery -> Delivery) : utx unit :=
  owned ← uread (owned_delivery eventID workerID);
  if owned : bool
  then uwrite (fun p => set_deliveries (<[eventID := f (delivery p eventID)]>) p)
  else e ← uread (outboxOwnershipError eventID workerID); tx_fail e.

Definition published (publishedAt : time) (d : Delivery) : Delivery :=
  {| dl_Status := "published"; dl_Attempts := dl_Attempts d; dl_NextAttemptAt := dl_NextAttemptAt d;
     dl_ClaimedAt := None; dl_ClaimedBy := None; dl_PublishedAt := Some (pg_time publishedAt);
     dl_LastErrorClass := dl_LastErrorClass d; dl_CreatedAt := dl_CreatedAt d |}.

Definition Repository_MarkOutboxPublished (eventID : uuid) (workerID : string) (publishedAt clock : time)
  : utx unit :=
  update_owned eventID workerID (published (if IsZero publishedAt then clock else publishedAt)).

Definition failed (permanent : bool) (errorClass : string) (retryAt : time) (d : Delivery) : Delivery :=
  {| dl_Status := if permanent then "failed" else "pending"; dl_Attempts := dl_Attempts d;
     dl_NextAttemptAt := pg_time retryAt; dl_ClaimedAt := None; dl_ClaimedBy := None;
     dl_PublishedAt := dl_PublishedAt d; dl_LastErrorClass := errorClass; dl_CreatedAt := dl_CreatedAt d |}.

Definition Repository_MarkOutboxFailed (eventID : uuid) (workerID errorClass : string)
    (retryAt : time) (permanent : bool) (clock : time) : utx unit :=
  update_owned eventID workerID (failed permanent errorClass (if IsZero retryAt then clock else retryAt)).

(** ** [service.go]

    Each call reads the clock once for the validation ([now]) and the repository once
    more ([clock]). *)
Definition Service_BeginRequest (ids : list uuid) (input : StartInput) (now clock : time) (p : UDB)
  : UDB * result error RequestHandle :=
  match normalizeStartInput input now with
  | Err e => (p, Err e)
  | Ok normalized => run_usage ids (BeginRequest normalized clock) p
  end.

Definition Service_Finalize (ids : list uuid) (handle : RequestHandle) (input : FinalizeInput)
    (now clock : time) (p : UDB) : UDB * result error Event :=
  match normalizeFinalizeInput handle input now with
  | Err e => (p, Err e)
  | Ok normalized => run_usage ids (Finalize handle normalized clock) p
  end.

Definition Service_RecordReconciliation (ids : list uuid) (input : ReconciliationInput)
    (created : time) (p : UDB) : UDB * result error Reconciliation :=
  match normalizeReconciliationInput input with
  | Err e => (p, Err e)
  | Ok normalized => run_usage ids (RecordReconciliation normalized created) p
  end.

Definition Service_ClaimOutbox (workerID : string) (limit lease : Z) (clock : time)
    (locked : uuid -> bool) (p : UDB) : UDB * result error (list OutboxEvent) :=
  match normalizeWorkerID workerID with
  | Err e => (p, Err e)
  | Ok workerID =>
      let limit := if limit =? 0 then 32 else limit in
      if (limit <? 1) || (100 <? limit) then (p, Err ErrInvalidInput) else
      let lease := if lease =? 0 then 30 * Second else lease in
      if (lease <? Second) || (24 * Hour <? lease) then (p, Err ErrInvalidInput) else
      run_usage [] (Repository_ClaimOutbox workerID (Z.to_nat limit) lease clock locked) p
  end.

Definition Service_MarkOutboxPublished (eventID : uuid) (workerID : string) (publishedAt now clock : time)
    (p : UDB) : UDB * result error unit :=
  match normalizeWorkerID workerID with
  | Err e => (p, Err e)
  | Ok workerID =>
      if uuid_eqb eventID uuid_nil then (p, Err ErrInvalidInput) else
      run_usage [] (Repository_MarkOutboxPublished eventID workerID
        (if IsZero publishedAt then now else publishedAt) clock) p
  end.

Definition Service_MarkOutboxFailed (eventID : uuid) (workerID errorClass : string) (retryAt : time)
    (permanent : bool) (now clock : time) (p : UDB) : UDB * result error unit :=
  match normalizeWorkerID workerID with
  | Err e => (p, Err e)
  | Ok workerID =>
      let errorClass := normalizeText errorClass 128 in
      if String.eqb errorClass "" then (p, Err ErrInvalidInput) else
      if uuid_eqb eventID uuid_nil then (p, Err ErrInvalidInput) else
      run_usage [] (Repository_MarkOutboxFailed eventID workerID errorClass
        (if IsZero retryAt then now else retryAt) permanent clock) p
  end.

End repository.
End UsageRepo.
