(* ===== verification/UsageFacts.v ===== *)
(** * The outbox rows and usage facts that billing leaves alone

    [growing m]: the transaction [m] of billing appends to the outbox rows of other
    aggregates than usage events, each with a fresh identifier, and leaves the usage
    events as they are.  Every step of billing but the recording of a usage event is. *)

From stdpp Require Import base gmap strings list relations.
From Stdlib Require Import ZArith Lia Ascii String.
From S2P Require Import Prelude GoLib Usage Pricing BillingModel Money Store StoreFacts.
From S2P Require Import BillingOps BillingService BillingSteps UsageModel.

Module UsageBooks.
Import Usage Billing Money Store StoreFacts BillingOps BillingService BillingSteps.
Import UsageModel(outboxAggregateUsage).

Definition foreign (o : OutboxRow) : Prop := ob_AggregateType o <> outboxAggregateUsage.

Record grown (d d' : DB) : Prop := {
  gr_usage : usage_events d' = usage_events d;
  gr_outbox : exists l, outbox d' = (outbox d ++ l)%list /\ Forall foreign l;
  gr_ids : NoDup (ob_ID <$> outbox d) -> NoDup (ob_ID <$> outbox d')
}.

#[export] Instance grown_preorder : PreOrder grown.
Proof.
  split.
  - intros d. split; [done| |done]. exists []. by rewrite app_nil_r.
  - intros d1 d2 d3 [U1 (l1 & O1 & F1) N1] [U2 (l2 & O2 & F2) N2]. split; [congruence| |by auto].
    exists (l1 ++ l2)%list. rewrite O2, O1, app_assoc. split; [done|]. by apply Forall_app.
Qed.

Lemma grown_same d d' : usage_events d' = usage_events d -> outbox d' = outbox d -> grown d d'.
Proof. intros E1 E2. split; [done| |by rewrite E2]. exists []. by rewrite E2, app_nil_r. Qed.

Definition growing {E A} (m : tx St E A) : Prop :=
  forall s s' a, m s = Ok (s', a) -> grown s.2 s'.2.

Section rules.
Context {E A B : Type}.

Lemma growing_ret (a : A) : growing (mret a : tx St E A).
Proof. intros s s' r [= <- _]. done. Qed.
Lemma growing_fail (e : E) : growing (tx_fail e : tx St E A).
Proof. by intros s s' r. Qed.
Lemma growing_lift (r : result E A) : growing (tx_lift r).
Proof. intros s s' a [_ ->]%tx_lift_ok. done. Qed.
Lemma growing_when b (e : E) : growing (tx_when b e).
Proof. intros s s' a [_ ->]%tx_when_ok. done. Qed.
Lemma growing_read (f : DB -> A) : growing (read f : tx St E A).
Proof. intros s s' a [= <- _]. done. Qed.
Lemma growing_write f : (forall d, grown d (f d)) -> growing (write f : tx St E unit).
Proof. intros Hf s s' a [= <- _]. apply Hf. Qed.
Lemma growing_bind (m : tx St E A) (f : A -> tx St E B) :
  growing m -> (forall a, growing (f a)) -> growing (m ≫= f).
Proof.
  intros Hm Hf s s' b (s1 & a & H1 & H2)%tx_bind_ok. etrans; [by eapply Hm|by eapply Hf].
Qed.
Lemma growing_map_err {E'} (f : E -> E') (m : tx St E A) :
  growing m -> growing (fun s => map_err f (m s)).
Proof. intros Hm s s' a. unfold map_err. destruct (m s) eqn:Hs; [|done]. intros [= ->]. by eapply Hm. Qed.
End rules.

Section billing.
Context `{UuidText, SqlGuards, WallClock}.

Lemma growing_mapped {A} (m : stmt A) : growing m -> growing (mapped m).
Proof. apply growing_map_err. Qed.
Lemma growing_raw {A} (m : stmt A) : growing m -> growing (raw m).
Proof. apply growing_map_err. Qed.
Lemma growing_optional {A} (m : stmt A) : growing m -> growing (optional m).
Proof.
  intros Hm s s' a. unfold optional. destruct (m s) as [[s1 x]|[]] eqn:Hs; intros [= <- _]; [|done].
  by eapply Hm.
Qed.
Lemma growing_new_id : growing new_id.
Proof. intros s s' a. unfold new_id. destruct s.1; [done|]. by intros [= <- _]. Qed.
Lemma growing_guard g : growing (guard g).
Proof. destruct g; [apply growing_fail|apply growing_ret]. Qed.
End billing.

Ltac growing_step :=
  lazymatch goal with
  | |- growing (_ ≫= _) => apply growing_bind; [|intros ?]
  | |- growing (mret _) => apply growing_ret
  | |- growing (tx_fail _) => apply growing_fail
  | |- growing (tx_lift _) => apply growing_lift
  | |- growing (tx_when _ _) => apply growing_when
  | |- growing (unless_unique _) => apply growing_when
  | |- growing (check _) => apply growing_when
  | |- growing (row _) => apply growing_lift
  | |- growing (read _) => apply growing_read
  | |- growing (write _) => apply growing_write; intros ?; by apply grown_same
  | |- growing (mapped _) => apply growing_mapped
  | |- growing (raw _) => apply growing_raw
  | |- growing (optional _) => apply growing_optional
  | |- growing new_id => apply growing_new_id
  | |- growing (guard _) => apply growing_guard
  | |- growing (let _ := _ in _) => cbv zeta
  | |- growing (match ?x with _ => _ end) => destruct x
  end.
Ltac growing_go := repeat (first [solve [eauto with growing] | growing_step]).

Create HintDb growing.

Section operations.
Context `{UuidText, SqlGuards, WallClock}.

Lemma growing_outbox aggregateType aggregateID eventType key payload :
  aggregateType <> outboxAggregateUsage ->
  growing (insertBillingOutbox aggregateType aggregateID eventType key payload).
Proof.
  intros Ha. unfold insertBillingOutbox. apply growing_bind; [apply growing_new_id|intros i].
  apply growing_bind; [apply growing_read|intros [|]]; [apply growing_ret|].
  intros [ids d] s' u (s1 & dup & [-> ->]%read_ok & Hm)%tx_bind_ok. stmt_inv.
  split; [done|..]; simpl.
  - eexists. split; [done|]. by constructor.
  - intros Hn. rewrite fmap_app. apply NoDup_app. split; [done|]. split; [|apply NoDup_singleton].
    intros k Hk Hx. apply list_elem_of_singleton in Hx as ->.
    apply list_elem_of_fmap in Hk as (o & Ho & Hin).
    rename select (existsb _ _ = false) into Hd. apply not_true_iff_false in Hd. apply Hd.
    apply existsb_exists. exists o. split; [by apply list_elem_of_In|]. simpl in Ho.
    by rewrite Ho, uuid_eqb_refl.
Qed.

Lemma growing_insertLedger input : growing (insertLedger input).
Proof. unfold insertLedger, insert_ledger_row. growing_go. Qed.
Lemma growing_getOrCreateWallet u c now : growing (getOrCreateWallet u c now).
Proof. unfold getOrCreateWallet, insert_wallet, select_wallet_by_owner. growing_go. Qed.
Lemma growing_update_wallet k now f : growing (update_wallet k now f).
Proof. unfold update_wallet. growing_go. Qed.
Lemma growing_update_reservation k f : growing (update_reservation k f).
Proof. unfold update_reservation. growing_go. Qed.
Lemma growing_insert_reservation r : growing (insert_reservation r).
Proof. unfold insert_reservation. growing_go. Qed.
Lemma growing_audit e : growing (audit_Insert e).
Proof. unfold audit_Insert. growing_go. Qed.
End operations.

#[export] Hint Resolve growing_insertLedger growing_getOrCreateWallet growing_update_wallet
  growing_update_reservation growing_insert_reservation growing_audit : growing.
#[export] Hint Extern 1 (growing (insertBillingOutbox _ _ _ _ _)) =>
  apply growing_outbox; discriminate : growing.

Section steps.
Context `{UuidText, SqlGuards, WallClock}.

Lemma growing_check_limits key held amount checks : growing (check_limits key held amount checks).
Proof. induction checks as [|[[limit|] start] rest IH]; simpl; growing_go; done. Qed.
Lemma growing_checkBudgets input amount now : growing (checkBudgets input amount now).
Proof. unfold checkBudgets. growing_go; apply growing_check_limits. Qed.
Lemma growing_persist e r u actual est st c now :
  growing (persistSettlement e r u actual est st c now).
Proof. unfold persistSettlement, insert_settlement, update_settlement. growing_go. Qed.
Lemma growing_recover_each w src now ls available : growing (recover_each w src now ls available).
Proof.
  revert available. induction ls as [|l ls IH]; intros available; cbn [recover_each]; [growing_go|].
  unfold update_liability. growing_go; apply IH.
Qed.
Lemma growing_recover w available src now : growing (recoverWalletLiabilities w available src now).
Proof. unfold recoverWalletLiabilities. growing_go; apply growing_recover_each. Qed.

Hint Resolve growing_checkBudgets growing_persist growing_recover : growing.

Lemma growing_Reserve output input checked now : growing (Service_Reserve output input checked now).
Proof. unfold Service_Reserve, Reserve, validatePublishedPrice, loadReservationByRequestID. growing_go. Qed.
Lemma growing_Settle input now : growing (Service_Settle input now).
Proof.
  unfold Service_Settle, Settle_tx, settle_pending, settle_charge, upsertSettlement, loadReservationByID,
    loadSettlementByReservation, loadWalletByID. growing_go.
Qed.
Lemma growing_Release input now : growing (Service_Release input now).
Proof. unfold Service_Release, Release_tx, loadReservationByID, loadWalletByID. growing_go. Qed.
Lemma growing_Credit input now : growing (Service_Credit input now).
Proof. unfold Service_Credit, CreditInTx, loadLedgerByIdempotency. growing_go. Qed.
Lemma growing_OpenLiability input now : growing (Service_OpenLiability input now).
Proof.
  unfold Service_OpenLiability, OpenLiabilityInTx, loadLiabilityByReference, loadWalletByID,
    insert_liability. growing_go.
Qed.
Lemma growing_ReverseLiability i now : growing (Service_ReverseLiability i now).
Proof.
  unfold Service_ReverseLiability, ReverseLiabilityInTx, loadLiabilityByID, loadWalletByID,
    update_liability. growing_go.
Qed.
Lemma growing_Hold input now : growing (HoldPaymentRefundInTx input now).
Proof.
  unfold HoldPaymentRefundInTx, refund_trail, auditPaymentRefundLedger, loadLedgerByIdempotency. growing_go.
Qed.
Lemma growing_Complete input now : growing (CompletePaymentRefundInTx input now).
Proof.
  unfold CompletePaymentRefundInTx, requirePaymentRefundHold, refund_trail, auditPaymentRefundLedger,
    loadLedgerByIdempotency. growing_go.
Qed.
Lemma growing_ReleaseRefund input now : growing (ReleasePaymentRefundInTx input now).
Proof.
  unfold ReleasePaymentRefundInTx, requirePaymentRefundHold, refund_trail, auditPaymentRefundLedger,
    loadLedgerByIdempotency. growing_go.
Qed.
Lemma growing_Claim limit now locked : growing (ClaimPendingSettlements limit now locked).
Proof. unfold ClaimPendingSettlements. growing_go. Qed.
Lemma growing_Defer i now c : growing (DeferPendingSettlement i now c).
Proof. unfold DeferPendingSettlement. growing_go. Qed.

Lemma committed_grown {A} ids (m : btx A) d : growing m -> grown d (committed ids m d).
Proof. intros Hm. destruct (committed_inv ids m d) as [->|(s' & a & Hs & ->)]; [done|]. by apply Hm in Hs. Qed.

(** Every step of billing leaves the usage events and their outbox rows alone; the
    step that does not is the recording of a usage event. *)
Lemma step_grown d d' : step d d' -> usage_events d' = usage_events d -> grown d d'.
Proof.
  intros Hs Hu. destruct Hs as [| | | | | | | | | | |d u Hnew _|]; try apply committed_grown.
  all: eauto using growing_Reserve, growing_Settle, growing_Release, growing_Credit,
    growing_OpenLiability, growing_ReverseLiability, growing_Hold, growing_Complete,
    growing_ReleaseRefund, growing_Claim, growing_Defer.
  - apply (f_equal (lookup (ev_ID u))) in Hu. simpl in Hu. rewrite lookup_insert_eq in Hu. congruence.
  - by apply grown_same.
Qed.
End steps.
End UsageBooks.

(** * What the statements of [UsageRepo] do, and the invariant of the usage tables

    One inversion lemma per statement, the effect of [Finalize], [BeginRequest] and
    [RecordReconciliation], and [UInv], which says that a request has at most one usage
    event, with its record, its attempt and its outbox row. *)

From stdpp Require Import base gmap strings list sorting.
From Stdlib Require Import ZArith Lia Ascii String.
From S2P Require Import Prelude GoLib Usage Pricing BillingModel Money Store StoreFacts.
From S2P Require Import BillingInv BillingFacts BillingSteps UsageModel UsageRepo.

Module UsageFacts.
Import Usage UsageModel UsageRepo UsageBooks.
Import Store(DB, mkDB, price_versions, usage_events, wallets, reservations, settlements, liabilities, ledger, outbox, audit_logs, set_outbox, SqlGuards, guard_outbox, WallClock, JVal, JUuid, JStr, JInt, JBool, JObj, OutboxRow, ob_ID, ob_AggregateType, ob_AggregateID, ob_EventType, ob_IdempotencyKey, ob_Payload).
Import BillingInv(Inv, effect).
Import BillingSteps(Inv_same, record_usage, step, step_usage, Inv_step).

(** ** Statements *)
Section statements.
Context `{UuidText, TimeText, SqlGuards, UsageGuards, OutboxBirth}.

Lemma uread_ok {A} (f : UDB -> A) s s' a : uread f s = Ok (s', a) -> s' = s /\ a = f s.2.
Proof. by intros [= <- <-]. Qed.
Lemma uwrite_ok f ids p s' u : uwrite f (ids, p) = Ok (s', u) -> s' = (ids, f p).
Proof. by intros [= <- _]. Qed.
Lemma u_id_ok ids p s' i : u_id (ids, p) = Ok (s', i) -> exists rest, ids = i :: rest /\ s' = (rest, p).
Proof. unfold u_id. simpl. destruct ids as [|i' rest]; intros Hi; [done|]. injection Hi as <- <-. by exists rest. Qed.
Lemma urow_ok {A} (o : option A) s s' a : urow o s = Ok (s', a) -> s' = s /\ o = Some a.
Proof. intros [Hr ->]%tx_lift_ok. by destruct o; [injection Hr as ->|]. Qed.
Lemma uguard_ok g s s' u : uguard g s = Ok (s', u) -> s' = s.
Proof. destruct g; [done|]. by intros [= <- _]. Qed.
Lemma uunique_ok b s s' u : uunique b s = Ok (s', u) -> b = false /\ s' = s.
Proof. destruct b; [done|]. by intros [= <- _]. Qed.
Lemma ucheck_ok b s s' u : ucheck b s = Ok (s', u) -> b = true /\ s' = s.
Proof. destruct b; [|done]. by intros [= <- _]. Qed.
Lemma usql_ok e s s' u : usql e s = Ok (s', u) -> False.
Proof. done. Qed.
End statements.

(** Inverts a transaction statement by statement. *)
Ltac u_step :=
  match goal with
  | H : uread _ _ = Ok (_, _) |- _ => apply uread_ok in H as [? ?]; subst
  | H : uwrite _ (_, _) = Ok (_, _) |- _ => apply uwrite_ok in H; subst
  | H : u_id (_, _) = Ok (_, _) |- _ =>
      let rest := fresh "ids" in apply u_id_ok in H as (rest & ? & ?); subst
  | H : urow _ _ = Ok (_, _) |- _ => apply urow_ok in H as [? ?]; subst
  | H : uguard _ _ = Ok (_, _) |- _ => apply uguard_ok in H; subst
  | H : uunique _ _ = Ok (_, _) |- _ => apply uunique_ok in H as [? ?]; subst
  | H : ucheck _ _ = Ok (_, _) |- _ => apply ucheck_ok in H as [? ?]; subst
  | H : usql _ _ = Ok (_, _) |- _ => destruct (usql_ok _ _ _ _ H)
  | H : tx_fail _ _ = Ok (_, _) |- _ => discriminate H
  | _ => tx_step
  end.
Ltac u_inv := repeat (u_step; cbn [fst snd] in * ).

Section effects.
Context `{UuidText, TimeText, SqlGuards, UsageGuards, OutboxBirth}.

Definition out_row (i : uuid) (at_ : string) (aid : uuid) (et key : string)
    (payload : list (string * JVal)) : OutboxRow :=
  {| ob_ID := i; ob_AggregateType := at_; ob_AggregateID := aid; ob_EventType := et;
     ob_IdempotencyKey := key; ob_Payload := payload |}.

Definition add_rows (l : list OutboxRow) : UDB -> UDB :=
  set_books (set_outbox (fun o => (o ++ l)%list)).

Lemma add_rows_nil p : add_rows [] p = p.
Proof. unfold add_rows, set_books, set_outbox. destruct p as [[]]; simpl. by rewrite app_nil_r. Qed.

Definition outbox_added (at_ : string) (aid : uuid) (et key : string) (payload : list (string * JVal))
    (p : UDB) (l : list OutboxRow) : Prop :=
  let found := existsb (outbox_key at_ aid et key) (outbox (books p)) in
  (found = true /\ l = [])
  \/ (found = false /\ exists i, (i ∉ (ob_ID <$> outbox (books p))) /\ l = [out_row i at_ aid et key payload]).

Lemma not_in_outbox i (l : list OutboxRow) :
  existsb (fun o => uuid_eqb (ob_ID o) i) l = false -> i ∉ (ob_ID <$> l).
Proof.
  intros Hd (o & -> & Ho)%list_elem_of_fmap. apply not_true_iff_false in Hd. apply Hd.
  apply existsb_exists. exists o. split; [by apply list_elem_of_In|]. apply uuid_eqb_refl.
Qed.

Lemma insert_outbox_ok at_ aid et key payload ids p s' u :
  insert_outbox at_ aid et key payload (ids, p) = Ok (s', u) ->
  exists rest l, s' = (rest, add_rows l p) /\ outbox_added at_ aid et key payload p l.
Proof.
  intros Hm. unfold insert_outbox in Hm. u_inv. unfold outbox_added.
  match type of Hm with context [existsb ?f ?l] => destruct (existsb f l) eqn:Hf in Hm end; u_inv.
  - eexists _, []. rewrite add_rows_nil. auto.
  - eexists _, [_]. split; [done|]. right. split; [done|]. eexists. split; [|done].
    by apply not_in_outbox.
Qed.

Lemma closeRequestRecord_ok k status t r ids p s' u :
  request_records p !! k = Some r -> closeRequestRecord k status t (ids, p) = Ok (s', u) ->
  s' = (ids, set_records (<[k := closed_row status t r]>) p) /\ request_check (closed_row status t r) = true.
Proof. intros Hk Hm. unfold closeRequestRecord in Hm. u_inv. rewrite Hk in Hm. u_inv. done. Qed.

Lemma insert_usage_event_ok e ids p s' u :
  insert_usage_event e (ids, p) = Ok (s', u) ->
  s' = (ids, set_books (set_usage_events (<[ev_ID e := stored_event e]>)) p)
  /\ request_link_ok (stored_event e) p = true /\ usage_check (stored_event e) = true
  /\ usage_events (books p) !! ev_ID e = None
  /\ (forall k o, usage_events (books p) !! k = Some o ->
        ev_SettlementKey o <> ev_SettlementKey e /\ ev_RequestID o <> ev_RequestID e).
Proof.
  intros Hm. unfold insert_usage_event in Hm. u_inv. rename select (_ || _ = false) into Hd.
  apply orb_false_iff in Hd as [Hd1 Hd2]. apply bool_decide_eq_false, eq_None_not_Some in Hd1.
  split_and!; try done. intros k o Ho. rewrite map_any_false in Hd2. specialize (Hd2 _ _ Ho).
  unfold events_clash in Hd2. simpl in Hd2. by bools.
Qed.

Definition attempt_written (key : uuid * Z) (attempt : AttemptInput) (input : FinalizeInput)
    (p p' : UDB) : Prop :=
  exists a, (request_attempts p !! key = Some a
             \/ exists i t, request_attempts p !! key = None /\ a = new_attempt i attempt t)
    /\ p' = set_attempts (<[key := attempt_row a attempt input]>) p.

Lemma set_attempts_twice key a a' p :
  set_attempts (<[key := a']>) (set_attempts (<[key := a]>) p) = set_attempts (<[key := a']>) p.
Proof. unfold set_attempts. simpl. by rewrite insert_insert_eq. Qed.

Lemma upsertAttempt_ok handle attempt input clock ids p s' u :
  upsertAttempt handle attempt input clock (ids, p) = Ok (s', u) ->
  exists rest p', s' = (rest, p')
    /\ attempt_written (rh_RecordID handle, at_AttemptNo attempt) attempt input p p'.
Proof.
  intros Hm. unfold upsertAttempt, insert_attempt in Hm. u_inv. case_bool_decide as Hc; u_inv.
  - destruct Hc as [a Ha]. rewrite Ha in Hm. u_inv. eexists _, _. split; [done|]. exists a. auto.
  - simpl in Hm. rewrite lookup_insert_eq in Hm. u_inv. eexists _, _. split; [done|].
    rewrite set_attempts_twice. eexists. split; [|done]. right. apply eq_None_not_Some in Hc. eauto.
Qed.

(** ** The invariant *)
Definition recorded_key (e : Event) : OutboxRow -> bool :=
  outbox_key outboxAggregateUsage (ev_ID e) outboxEventUsageRecorded ("usage:" +:+ ev_SettlementKey e).

(** The row [usage.recorded] of an event holds the event as [Finalize] saw it. *)
Definition announces (e : Event) (o : OutboxRow) : Prop :=
  recorded_key e o = true
  /\ exists seen, stored_event seen = e
       /\ ob_Payload o = [("schema_version", JInt 1); ("event", event_json seen)].

(** The record of a request after its event. *)
Definition closed_by (e : Event) (r : RequestRow) : Prop :=
  rr_RequestID r = ev_RequestID e /\ rr_TerminalStatus r = ev_TerminalStatus e
  /\ rr_FinishedAt r = Some (ev_FinishedAt e).

(** An attempt as the event reports it. *)
Definition attempt_of (e : Event) (a : AttemptRow) : Prop :=
  ar_UpstreamStatus a = ev_UpstreamStatus e /\ ar_ErrorClass a = ev_ErrorClass e
  /\ ar_FinishedAt a = Some (ev_FinishedAt e) /\ ar_LatencyMS a = ev_LatencyMS e
  /\ ar_TTFTMS a = ev_TTFTMS e.

Record UInv (p : UDB) : Prop := {
  ui_books : Inv (books p);
  ui_records : forall k r, request_records p !! k = Some r -> rr_ID r = k /\ request_check r = true;
  ui_requests : forall k1 r1 k2 r2, request_records p !! k1 = Some r1 ->
    request_records p !! k2 = Some r2 -> rr_RequestID r1 = rr_RequestID r2 -> k1 = k2;
  ui_events : forall k e, usage_events (books p) !! k = Some e ->
    ev_ID e = k /\ ev_SettlementKey e = settlementKey (ev_RequestID e)
    /\ validStatus (ev_TerminalStatus e) = true
    /\ exists i r, ev_RequestRecordID e = Some i /\ request_records p !! i = Some r /\ closed_by e r;
  ui_open : forall k r, request_records p !! k = Some r ->
    (exists j e, usage_events (books p) !! j = Some e /\ ev_RequestRecordID e = Some k)
    \/ (rr_TerminalStatus r = "" /\ rr_FinishedAt r = None);
  ui_once : forall k1 e1 k2 e2, usage_events (books p) !! k1 = Some e1 ->
    usage_events (books p) !! k2 = Some e2 -> ev_RequestID e1 = ev_RequestID e2 -> k1 = k2;
  ui_attempts : forall k n a, request_attempts p !! (k, n) = Some a ->
    exists j e, usage_events (books p) !! j = Some e /\ ev_RequestRecordID e = Some k /\ attempt_of e a;
  ui_attempt : forall k n1 n2, is_Some (request_attempts p !! (k, n1)) ->
    is_Some (request_attempts p !! (k, n2)) -> n1 = n2;
  ui_rows : forall o, o ∈ outbox (books p) -> ob_AggregateType o = outboxAggregateUsage ->
    exists e, usage_events (books p) !! ob_AggregateID o = Some e /\ announces e o;
  ui_row : forall k e, usage_events (books p) !! k = Some e ->
    exists o, List.filter (recorded_key e) (outbox (books p)) = [o];
  ui_ids : NoDup (ob_ID <$> outbox (books p));
  ui_deliveries : forall k, is_Some (deliveries p !! k) -> k ∈ (ob_ID <$> outbox (books p))
}.

Lemma recorded_key_type e o : recorded_key e o = true -> ob_AggregateType o = outboxAggregateUsage.
Proof. unfold recorded_key, outbox_key. intros. by bools. Qed.

Lemma recorded_foreign e l : Forall foreign l -> List.filter (recorded_key e) l = [].
Proof.
  induction 1 as [|o l Ho _ IH]; [done|]. simpl. destruct (recorded_key e o) eqn:Hk; [|done].
  by apply recorded_key_type in Hk.
Qed.

Lemma announces_id e o : announces e o -> ob_AggregateID o = ev_ID e.
Proof. intros [Hk _]. unfold recorded_key, outbox_key in Hk. by bools. Qed.

(** Rows of billing and outbox rows of other aggregates. *)
Lemma UInv_grown p d : UInv p -> Inv d -> grown (books p) d -> UInv (set_books (fun _ => d) p).
Proof.
  intros [] HI [Hu (l & Ho & Hf) Hn]. constructor; simpl; rewrite ?Hu; try done.
  - intros o. rewrite Ho. intros [Hin|Hin]%elem_of_app Ht; [by apply ui_rows0|].
    rewrite Forall_forall in Hf. by apply Hf in Hin.
  - intros k e He. destruct (ui_row0 _ _ He) as [o Hr]. exists o.
    by rewrite Ho, List.filter_app, (recorded_foreign _ l), app_nil_r.
  - by apply Hn.
  - intros k Hk. rewrite Ho, fmap_app. apply elem_of_app. left. by apply ui_deliveries0.
Qed.

Lemma Inv_outbox l d : Inv d -> Inv (set_outbox (fun o => (o ++ l)%list) d).
Proof. intros HI. eapply Inv_same; [|exact HI]. BillingFacts.solve_effect. Qed.

Lemma grown_outbox l d :
  Forall foreign l -> Forall (fun o => ob_ID o ∉ (ob_ID <$> outbox d)) l -> (Datatypes.length l <= 1)%nat ->
  grown d (set_outbox (fun o => (o ++ l)%list) d).
Proof.
  intros Hf Hi Hl. constructor; [done|by exists l|]. simpl. intros Hn. rewrite fmap_app.
  destruct l as [|o [|]]; simpl in *; [by rewrite app_nil_r| |lia].
  apply Forall_cons_1 in Hi as [Hi _]. apply NoDup_app. split; [done|].
  split; [|apply NoDup_singleton]. by intros x Hx ->%list_elem_of_singleton.
Qed.

Lemma UInv_other_outbox at_ aid et key payload l p :
  at_ <> outboxAggregateUsage -> outbox_added at_ aid et key payload p l ->
  UInv p -> UInv (add_rows l p).
Proof.
  intros Ha Hl HI. apply (UInv_grown p (set_outbox (fun o => (o ++ l)%list) (books p)) HI).
  - by apply Inv_outbox, HI.
  - destruct Hl as [[_ ->]|(_ & i & Hi & ->)]; apply grown_outbox; simpl; repeat constructor; try lia; done.
Qed.

(** ** The effect of a new fact *)
Record finalized (k : uuid) (e : Event) (p p' : UDB) : Prop := {
  fz_event : ev_RequestRecordID e = Some k /\ ev_SettlementKey e = settlementKey (ev_RequestID e)
    /\ validStatus (ev_TerminalStatus e) = true;
  fz_new : usage_events (books p) !! ev_ID e = None
    /\ forall j o, usage_events (books p) !! j = Some o -> ev_RequestID o <> ev_RequestID e;
  fz_events : usage_events (books p') = <[ev_ID e := e]> (usage_events (books p));
  fz_record : exists r r', request_records p !! k = Some r
    /\ rr_TerminalStatus r = "" /\ rr_FinishedAt r = None /\ rr_RequestID r' = rr_RequestID r
    /\ rr_ID r' = rr_ID r /\ closed_by e r' /\ request_check r' = true
    /\ request_records p' = <[k := r']> (request_records p);
  fz_attempts : request_attempts p' = request_attempts p
    \/ exists n a, attempt_of e a /\ request_attempts p' = <[(k, n) := a]> (request_attempts p);
  fz_outbox : exists o, announces e o /\ (ob_ID o ∉ (ob_ID <$> outbox (books p)))
    /\ outbox (books p') = (outbox (books p) ++ [o])%list;
  fz_rest : deliveries p' = deliveries p /\ usage_reconciliations p' = usage_reconciliations p;
  fz_books : Inv (books p')
}.

Lemma no_attempt_yet k e p p' n a :
  UInv p -> finalized k e p p' -> request_attempts p !! (k, n) = Some a -> False.
Proof.
  intros HI [(He & _) (_ & Hnew) _ (r & r' & Hr & _ & _ & Hq & _ & (Hc & _) & _) _ _ _ _] Ha.
  apply (ui_attempts _ HI) in Ha as (j & e2 & He2 & Hk & _).
  destruct (ui_events _ HI _ _ He2) as (_ & _ & _ & i & r2 & Hi & Hr2 & (Hc2 & _)).
  assert (i = k) as -> by congruence. apply (Hnew _ _ He2). congruence.
Qed.

Lemma UInv_finalized k e p p' : UInv p -> finalized k e p p' -> UInv p'.
Proof.
  intros HI HF. pose proof (no_attempt_yet k e p p') as Hna. specialize (fun n a => Hna n a HI HF).
  destruct HF as [(Ek & Ekey & Est) (Hn & Hnew) Hev (r & r' & Hr & Hr1 & Hr2 & Hq & Hid & Hc & Hch & Hrec)
    Hat (o & Ho & Hfresh & Hout) (Hdl & _) HB].
  destruct HI. constructor; rewrite ?Hev, ?Hrec, ?Hdl; try done.
  - intros i x [[<- <-]|[Hne Hx]]%lookup_insert_Some; [|by apply ui_records0].
    split; [|done]. rewrite Hid. by apply (ui_records0 k r).
  - intros k1 r1 k2 r2 [[<- <-]|[N1 H1']]%lookup_insert_Some [[<- <-]|[N2 H2']]%lookup_insert_Some Heq;
      [done|..]; [rewrite Hq in Heq|rewrite Hq in Heq|]; by eapply ui_requests0.
  - intros j x [[<- <-]|[Hne Hx]]%lookup_insert_Some.
    + split_and!; try done. exists k, r'. by rewrite lookup_insert_eq.
    + destruct (ui_events0 _ _ Hx) as (? & ? & ? & i & y & Hi & Hy & Hcy). split_and!; try done.
      exists i, y. rewrite lookup_insert_ne; [done|]. intros <-. apply (Hnew _ _ Hx).
      destruct Hc as (Hc & _), Hcy as (Hcy & _). congruence.
  - intros i x [[<- <-]|[Hne Hx]]%lookup_insert_Some.
    + left. exists (ev_ID e), e. by rewrite lookup_insert_eq.
    + destruct (ui_open0 _ _ Hx) as [(j & e2 & He2 & Hk2)|]; [|by right]. left. exists j, e2.
      rewrite lookup_insert_ne; [done|]. congruence.
  - intros k1 e1 k2 e2 [[<- <-]|[N1 H1']]%lookup_insert_Some [[<- <-]|[N2 H2']]%lookup_insert_Some Heq;
      [done|..]; [by apply Hnew in H2'|by apply Hnew in H1'|by eapply ui_once0].
  - assert (forall i n x, request_attempts p !! (i, n) = Some x ->
      exists j e2, <[ev_ID e := e]> (usage_events (books p)) !! j = Some e2
        /\ ev_RequestRecordID e2 = Some i /\ attempt_of e2 x) as Hold.
    { intros i n x Hx. destruct (ui_attempts0 _ _ _ Hx) as (j & e2 & He2 & ?). exists j, e2.
      rewrite lookup_insert_ne; [done|]. congruence. }
    destruct Hat as [->|(n & a & Ha & ->)]; [done|].
    intros i n2 x [[[= <- <-] <-]|[Hne Hx]]%lookup_insert_Some; [|by eapply Hold].
    exists (ev_ID e), e. by rewrite lookup_insert_eq.
  - destruct Hat as [->|(n & a & Ha & ->)]; [done|]. intros i n1 n2 [x1 H1'] [x2 H2'].
    apply lookup_insert_Some in H1' as [[[= <- <-] <-]|[N1 H1']];
      apply lookup_insert_Some in H2' as [[[= ] ?]|[N2 H2']]; subst; try done.
    + by apply Hna in H2'.
    + by apply Hna in H1'.
    + by eapply ui_attempt0.
  - intros x. rewrite Hout. intros [Hx|Hx]%elem_of_app Ht.
    + destruct (ui_rows0 _ Hx Ht) as (e2 & He2 & Ha). exists e2.
      rewrite lookup_insert_ne; [done|]. congruence.
    + apply list_elem_of_singleton in Hx as ->. exists e. rewrite (announces_id _ _ Ho).
      by rewrite lookup_insert_eq.
  - intros j x Hx. rewrite Hout, List.filter_app. simpl.
    apply lookup_insert_Some in Hx as [[<- <-]|[Hne Hx]].
    + exists o. rewrite (proj1 Ho).
      destruct (List.filter _ _) as [|y l] eqn:Hy; [done|]. exfalso.
      assert (In y (List.filter (recorded_key e) (outbox (books p)))) as Hin by (rewrite Hy; by left).
      apply filter_In in Hin as [Hin Hk]. apply list_elem_of_In in Hin.
      destruct (ui_rows0 _ Hin (recorded_key_type _ _ Hk)) as (e2 & He2 & _).
      unfold recorded_key, outbox_key in Hk. bools. congruence.
    + destruct (ui_row0 _ _ Hx) as [y Hy]. exists y. rewrite Hy.
      destruct (recorded_key x o) eqn:Hk; [|done]. exfalso. apply announces_id in Ho.
      unfold recorded_key, outbox_key in Hk. bools. destruct (ui_events0 _ _ Hx) as (? & _). congruence.
  - rewrite Hout, fmap_app. apply NoDup_app. split; [done|]. split; [|apply NoDup_singleton].
    by intros i Hi ->%list_elem_of_singleton.
  - intros i Hi. rewrite Hout, fmap_app. apply elem_of_app. left. by apply ui_deliveries0.
Qed.
End effects.
End UsageFacts.
