(* ===== verification/UsageSteps.v ===== *)
(** * The usage transactions, and the histories that keep the invariant

    What a committed [Finalize], [BeginRequest] and [RecordReconciliation] did, the
    deliveries of outbox rows as a machine of their own, and the steps of the package
    among those of billing. *)

From stdpp Require Import base gmap strings list sorting relations.
From Stdlib Require Import ZArith Lia Ascii String.
From S2P Require Import Prelude GoLib Usage Pricing BillingModel Money Store StoreFacts.
From S2P Require Import BillingInv BillingFacts BillingSteps UsageModel UsageRepo UsageFacts.
From S2P Require Import UsageFacts.

Module UsageSteps.
Import Usage UsageModel UsageRepo UsageBooks UsageFacts.
Import Store(DB, mkDB, usage_events, outbox, set_outbox, SqlGuards, WallClock, OutboxRow, ob_ID, ob_AggregateType, ob_AggregateID, ob_EventType, ob_IdempotencyKey, ob_Payload).
Import BillingInv(Inv).
Import BillingSteps(record_usage, step, step_usage, Inv_step, empty_db, Inv_empty).

Section operations.
Context `{UuidText, TimeText, SqlGuards, UsageGuards, OutboxBirth, WallClock}.

(** ** The lookups of [Finalize] *)
Lemma find_by_key p k e :
  UInv p -> usage_events (books p) !! k = Some e ->
  map_find (fun x => String.eqb (ev_SettlementKey x) (ev_SettlementKey e)) (usage_events (books p)) = Some e.
Proof.
  intros HI He. destruct (map_find _ _) as [x|] eqn:Hf.
  - apply map_find_Some in Hf as (j & Hj & Hq%String.eqb_eq).
    destruct (ui_events _ HI _ _ He) as (_ & K1 & _). destruct (ui_events _ HI _ _ Hj) as (_ & K2 & _).
    rewrite K1, K2 in Hq. apply (inj (append "usage:v1:")) in Hq.
    assert (j = k) as -> by (by eapply ui_once). congruence.
  - eapply map_find_None in Hf; [|exact He]. by rewrite String.eqb_refl in Hf.
Qed.

Lemma event_of_record p k r :
  UInv p -> request_records p !! k = Some r -> rr_TerminalStatus r <> "" ->
  exists j e, usage_events (books p) !! j = Some e /\ ev_RequestRecordID e = Some k
    /\ ev_RequestID e = rr_RequestID r.
Proof.
  intros HI Hr Hs. destruct (ui_open _ HI _ _ Hr) as [(j & e & He & Hk)|[? _]]; [|done].
  exists j, e. split_and!; try done. destruct (ui_events _ HI _ _ He) as (_ & _ & _ & i & r2 & Hi & Hr2 & Hc & _).
  congruence.
Qed.

(** ** [finalize_again] changes nothing *)
Lemma closed_row_same status t e r : closed_by e r -> validStatus (ev_TerminalStatus e) = true ->
  closed_row status t r = r.
Proof.
  intros (_ & Hs & Hf) Hv. unfold closed_row. rewrite Hf, Hs.
  destruct (String.eqb_spec (ev_TerminalStatus e) "") as [E|]; [by rewrite E in Hv|].
  destruct r; simpl in *; congruence.
Qed.

Lemma set_records_same k r p : request_records p !! k = Some r -> set_records (<[k := r]>) p = p.
Proof. intros Hk. unfold set_records. rewrite insert_id by done. by destruct p. Qed.

Lemma recorded_found p k e :
  UInv p -> usage_events (books p) !! k = Some e -> existsb (recorded_key e) (outbox (books p)) = true.
Proof.
  intros HI He. destruct (ui_row _ HI _ _ He) as [o Ho]. apply existsb_exists. exists o.
  apply filter_In. rewrite Ho. by left.
Qed.

Lemma finalize_again_ok e k handle input ids p s' e' :
  UInv p -> usage_events (books p) !! k = Some e ->
  finalize_again e handle input (ids, p) = Ok (s', e') ->
  s'.2 = p /\ e' = e /\ sameEventInput e handle input = true.
Proof.
  intros HI He Hm. unfold finalize_again in Hm. u_inv. bools.
  rename select (opt_uuid_eqb _ _ = true) into Hk. apply opt_uuid_eqb_eq in Hk.
  destruct (ui_events _ HI _ _ He) as (_ & _ & Hv & i & r & Hi & Hr & Hc).
  assert (i = rh_RecordID handle) as -> by congruence.
  match goal with H : closeRequestRecord _ _ _ _ = _ |- _ => rename H into Hcl end.
  eapply closeRequestRecord_ok in Hcl as [Es _]; [|exact Hr].
  rewrite (closed_row_same _ _ e'), set_records_same in Es by done.
  match goal with H : insertUsageOutbox _ _ = _ |- _ => rename H into Ho end. rewrite Es in Ho.
  apply insert_outbox_ok in Ho as (rest & l & -> & [[_ ->]|[Hn _]]); simpl in *.
  - by rewrite add_rows_nil.
  - pose proof (recorded_found _ _ _ HI He) as Hf. unfold recorded_key in Hf. congruence.
Qed.

(** ** A new fact *)
Lemma pg_time_idem t : pg_time (pg_time t) = pg_time t.
Proof. unfold pg_time. pose proof (Zminus_mod_idemp_r t t 1000) as E. rewrite E, Z.sub_diag. apply Z.sub_0_r. Qed.

Lemma stored_created e t : stored_event (with_created e (pg_time t)) = stored_event (with_created e t).
Proof. unfold stored_event, with_created; simpl. by rewrite pg_time_idem. Qed.

Lemma open_record p k r :
  UInv p -> request_records p !! k = Some r ->
  (forall j o, usage_events (books p) !! j = Some o -> ev_RequestID o <> rr_RequestID r) ->
  rr_TerminalStatus r = "" /\ rr_FinishedAt r = None.
Proof.
  intros HI Hr Hno. destruct (ui_open _ HI _ _ Hr) as [(j & e & He & Hk)|]; [|done]. exfalso.
  apply (Hno _ _ He). destruct (ui_events _ HI _ _ He) as (_ & _ & _ & i & r2 & Hi & Hr2 & Hc & _).
  congruence.
Qed.

Lemma outbox_fresh p e : UInv p -> usage_events (books p) !! ev_ID e = None ->
  existsb (recorded_key e) (outbox (books p)) = false.
Proof.
  intros HI He. apply not_true_iff_false. intros (o & Hin & Hk)%existsb_exists.
  apply list_elem_of_In in Hin. destruct (ui_rows _ HI _ Hin (recorded_key_type _ _ Hk)) as (e2 & He2 & _).
  unfold recorded_key, outbox_key in Hk. bools. congruence.
Qed.

Lemma attempt_stage handle input clock s s' u :
  match fi_Attempt input with
  | Some attempt => upsertAttempt handle attempt input clock
  | None => mret tt
  end s = Ok (s', u) ->
  exists rest p', s' = (rest, p') /\ (p' = s.2 \/ exists attempt,
    attempt_written (rh_RecordID handle, at_AttemptNo attempt) attempt input s.2 p').
Proof.
  destruct s as [ids p]. destruct (fi_Attempt input) as [attempt|].
  - intros (rest & p' & -> & Hp)%upsertAttempt_ok. eauto 8.
  - intros [= <- _]. eauto 8.
Qed.

Lemma finalize_new_ok handle input clock r ids p s' e :
  UInv p -> rh_RecordID handle <> uuid_nil -> request_records p !! rh_RecordID handle = Some r ->
  rr_RequestID r = rh_RequestID handle ->
  (forall j o, usage_events (books p) !! j = Some o -> ev_RequestID o <> rh_RequestID handle) ->
  (forall a, fi_AmountMinor input = Some a -> in_i64 a) ->
  finalize_new handle input clock (ids, p) = Ok (s', e) ->
  finalized (rh_RecordID handle) (stored_event e) p s'.2
  /\ exists i c, e = with_created (eventFromFinalize i (settlementKey (rh_RequestID handle)) handle input c)
                      (pg_time c).
Proof.
  intros HI Hnil Hr Hq Hno Ha Hm.
  destruct (open_record _ _ _ HI Hr) as [Ro Rf]; [by rewrite Hq|].
  unfold finalize_new in Hm. u_inv.
  match goal with |- context [with_created (eventFromFinalize ?i ?k _ _ ?c) _] =>
    set (e0 := eventFromFinalize i k handle input c) in *; set (c0 := c) in *; rename i into eid end.
  match goal with H : insert_usage_event _ _ = _ |- _ => apply insert_usage_event_ok in H as (E1 & _ & Hck & Hn & _) end.
  match goal with H : match fi_Attempt input with _ => _ end _ = _ |- _ => rename H into Hat end.
  rewrite E1 in Hat. apply attempt_stage in Hat as (ids1 & p2 & E2 & Hat). simpl in Hat.
  match goal with H : closeRequestRecord _ _ _ _ = _ |- _ => rename H into Hcl end. rewrite E2 in Hcl.
  assert (request_records p2 = request_records p /\ deliveries p2 = deliveries p
    /\ usage_reconciliations p2 = usage_reconciliations p
    /\ books p2 = record_usage (stored_event e0) (books p)) as (P1 & P2 & P3 & P4).
  { by destruct Hat as [->|(attempt & a & _ & ->)]. }
  eapply closeRequestRecord_ok in Hcl as [E3 Hch]; [|by rewrite P1].
  match goal with H : insertUsageOutbox _ _ = _ |- _ => rename H into Ho end. rewrite E3 in Ho.
  apply insert_outbox_ok in Ho as (ids2 & l & E4 & Hl). rewrite E4. simpl.
  rewrite stored_created. change (stored_event (with_created e0 c0)) with (stored_event e0).
  unfold outbox_added in Hl. simpl in Hl. rewrite P4 in Hl. simpl in Hl.
  pose proof (outbox_fresh _ (stored_event e0) HI Hn) as Hfr. unfold recorded_key in Hfr. simpl in Hfr.
  rewrite Hfr in Hl. destruct Hl as [[? _]|(_ & i & Hi & ->)]; [done|].
  split; [|by exists eid, c0]. constructor; simpl; rewrite ?P1, ?P2, ?P3, ?P4; try done.
  - split_and!; [|done|]. { unfold RecordIDPointer, uuidPtrOrNil. apply uuid_eqb_neq in Hnil. by rewrite Hnil. }
    unfold usage_check in Hck. by bools.
  - exists r, (closed_row (fi_TerminalStatus input) (fi_FinishedAt input) r). split_and!; try done.
    unfold closed_by, closed_row. simpl. rewrite Ro, Rf. by split_and!.
  - destruct Hat as [->|(attempt & a & _ & ->)]; [by left|]. right. eexists _, _. split; [|done]. done.
  - eexists. split; [|split; [|reflexivity]]; [split|exact Hi].
    + unfold recorded_key, outbox_key. simpl. by rewrite !String.eqb_refl, uuid_eqb_refl.
    + exists (with_created e0 (pg_time c0)). by rewrite stored_created.
  - apply Inv_outbox. eapply Inv_step; [|exact (ui_books _ HI)]. by apply step_usage.
Qed.

(** [Finalize] returns the stored fact or adds the fact of a request that has none. *)
Definition new_fact (handle : RequestHandle) (input : FinalizeInput) (e : Event) : Prop :=
  exists i c, e = with_created (eventFromFinalize i (settlementKey (rh_RequestID handle)) handle input c)
                    (pg_time c).

Lemma Finalize_ok handle input clock ids p s' e :
  UInv p -> rh_RecordID handle <> uuid_nil -> (forall a, fi_AmountMinor input = Some a -> in_i64 a) ->
  Finalize handle input clock (ids, p) = Ok (s', e) ->
  (s'.2 = p /\ usage_events (books p) !! ev_ID e = Some e /\ sameEventInput e handle input = true)
  \/ (finalized (rh_RecordID handle) (stored_event e) p s'.2 /\ new_fact handle input e).
Proof.
  intros HI Hnil Ha Hm. unfold Finalize, loadRequestRecordByID, loadUsageEventBySettlementKey,
    loadUsageEventByRequestID, find_usage_event in Hm. u_inv.
  rename select (request_records _ !! _ = Some _) into Hr. bools.
  match type of Hm with match map_find ?q ?m with _ => _ end _ = _ =>
    destruct (map_find q m) as [x|] eqn:Hf end.
  - left. apply map_find_Some in Hf as (k & Hk & _).
    destruct (finalize_again_ok _ _ _ _ _ _ _ _ HI Hk Hm) as (-> & -> & Hs).
    split_and!; try done. by rewrite (proj1 (ui_events _ HI _ _ Hk)).
  - right. u_inv. rename select (is_some _ = false) into Hreq.
    eapply finalize_new_ok in Hm; [exact Hm|done|done|exact Hr|done| |done].
    intros j o Ho Hq. destruct (map_find _ _) eqn:Hq2 in Hreq; [done|].
    eapply map_find_None in Hq2; [|exact Ho]. by rewrite Hq, String.eqb_refl in Hq2.
Qed.

(** ** [BeginRequest] *)
Definition same_request (input : StartInput) (h : RequestHandle) : Prop :=
  rh_RequestID h = si_RequestID input /\ rh_UserID h = si_UserID input
  /\ rh_APIKeyID h = si_APIKeyID input /\ rh_Endpoint h = si_Endpoint input
  /\ rh_RequestedModel h = si_RequestedModel input /\ rh_Stream h = si_Stream input.

Lemma sameRequestMetadata_iff h input : sameRequestMetadata h input = true <-> same_request input h.
Proof.
  unfold sameRequestMetadata, same_request. rewrite !andb_true_iff, !String.eqb_eq, !uuid_eqb_eq.
  rewrite Bool.eqb_true_iff. tauto.
Qed.

Lemma find_request p k r :
  UInv p -> request_records p !! k = Some r ->
  map_find (fun x => String.eqb (rr_RequestID x) (rr_RequestID r)) (request_records p) = Some r.
Proof.
  intros HI Hr. destruct (map_find _ _) as [x|] eqn:Hf.
  - apply map_find_Some in Hf as (j & Hj & Hq%String.eqb_eq).
    assert (j = k) as -> by (by eapply ui_requests). congruence.
  - eapply map_find_None in Hf; [|exact Hr]. by rewrite String.eqb_refl in Hf.
Qed.

(** The record was there, or is added. *)
Inductive begun (input : StartInput) (clock : time) (h : RequestHandle) (p : UDB) : UDB -> Prop :=
| begun_again k r : request_records p !! k = Some r -> h = handle_of r -> begun input clock h p p
| begun_new i :
    request_records p !! i = None ->
    (forall k r, request_records p !! k = Some r -> rr_RequestID r <> si_RequestID input) ->
    let r := request_row i input (if IsZero (si_StartedAt input) then clock else si_StartedAt input) in
    h = handle_of r ->
    begun input clock h p (set_records (<[i := r]>) p).

Lemma find_new_request (m : gmap uuid RequestRow) i r x :
  (forall k r', m !! k = Some r' -> rr_RequestID r' <> rr_RequestID r) ->
  map_find (fun y => String.eqb (rr_RequestID y) (rr_RequestID r)) (<[i := r]> m) = Some x -> x = r.
Proof.
  intros Hn (k & [[_ <-]|[_ Hk]]%lookup_insert_Some & Hq%String.eqb_eq)%map_find_Some; [done|].
  by apply Hn in Hk.
Qed.

Lemma BeginRequest_ok input clock ids p s' h :
  BeginRequest input clock (ids, p) = Ok (s', h) ->
  begun input clock h p s'.2 /\ same_request input h.
Proof.
  intros Hm. unfold BeginRequest, insert_request, loadRequestRecord in Hm. u_inv. bools.
  rename select (sameRequestMetadata _ _ = true) into Hsame. apply sameRequestMetadata_iff in Hsame.
  split; [|done].
  match goal with H : (if ?b then _ else _) _ = Ok (?x, _) |- _ => destruct b eqn:Hb; u_inv end.
  - rename select (map_find _ _ = _) into Hf. apply map_find_Some in Hf as (k & Hk & _).
    by eapply begun_again.
  - bools. rename select (map_find _ _ = _) into Hf. rewrite map_any_false in Hb.
    assert (forall k r, request_records p !! k = Some r -> rr_RequestID r <> si_RequestID input) as Hn.
    { intros k r Hr. apply Hb in Hr. by bools. }
    simpl in Hf. apply (find_new_request _ _ (request_row _ _ _)) in Hf as ->; [|done].
    apply begun_new; [|done..].
    by apply eq_None_not_Some.
Qed.

Lemma request_row_check i input t : request_check (request_row i input t) = true.
Proof. done. Qed.

Lemma UInv_begun input clock h p p' : UInv p -> begun input clock h p p' -> UInv p'.
Proof.
  intros HI [|i Hi Hn r _]; [done|]. destruct HI. constructor; simpl; try done.
  - intros k x [[<- <-]|[_ Hx]]%lookup_insert_Some; [done|by apply ui_records0].
  - intros k1 r1 k2 r2 [[<- <-]|[N1 H1']]%lookup_insert_Some [[<- <-]|[N2 H2']]%lookup_insert_Some Heq;
      [done|..]; [by apply Hn in H2'|by apply Hn in H1'|by eapply ui_requests0].
  - intros k e He. destruct (ui_events0 _ _ He) as (? & ? & ? & j & x & Hj & Hx & Hc).
    split_and!; try done. exists j, x. rewrite lookup_insert_ne; [done|]. congruence.
  - intros k x [[<- <-]|[_ Hx]]%lookup_insert_Some; [by right|by apply ui_open0].
Qed.

(** ** [RecordReconciliation] *)
Lemma RecordReconciliation_ok input created ids p s' r :
  RecordReconciliation input created (ids, p) = Ok (s', r) ->
  exists l q, s'.2 = add_rows l q
    /\ outbox_added outboxAggregateReconciliation (rc_ID r) outboxEventUsageReconciled
         ("reconciliation:" +:+ rc_Source r +:+ ":" +:+ rc_SourceEventKey r)
         [("schema_version", Store.JInt 1); ("reconciliation", reconciliation_json r)] q l
    /\ is_Some (usage_events (books p) !! ri_UsageEventID input)
    /\ sameReconciliationInput r input = true
    /\ (q = p \/ q = set_reconciliations (<[rc_ID r := r]>) p /\ usage_reconciliations p !! rc_ID r = None
         /\ rc_CreatedAt r = pg_time created)
    /\ (exists k, usage_reconciliations q !! k = Some r).
Proof.
  intros Hm. unfold RecordReconciliation, insert_reconciliation, loadReconciliation in Hm. u_inv. bools.
  rename select (insertReconciliationOutbox _ _ = _) into Ho.
  match goal with H : (if ?b then _ else _) _ = Ok (?x, _) |- _ => destruct b eqn:Hb; u_inv end;
    apply insert_outbox_ok in Ho as (rest & l & -> & Hl);
    rename select (map_find _ _ = _) into Hf; apply map_find_Some in Hf as (k & Hk & Hq).
  - exists l, p. split_and!; try done; eauto.
  - bools. exists l. eexists. split_and!; [done|exact Hl|by eauto|done| |by eauto].
    right. simpl in Hk. apply lookup_insert_Some in Hk as [[<- <-]|[_ Hk]].
    + split_and!; try done. by apply eq_None_not_Some.
    + rewrite map_any_false in Hb. apply Hb in Hk. simpl in Hk. congruence.
Qed.

Lemma UInv_reconciliations f p : UInv p -> UInv (set_reconciliations f p).
Proof. by intros []. Qed.
End operations.
End UsageSteps.
