(* ===== verification/UsageHistory.v ===== *)
(** * Histories of the usage tables

    The calls of [usage.Service] and the transactions of billing as a list of actions,
    the invariant of the states they reach, what they never change, and the machine
    each outbox row goes through while it is delivered. *)

From stdpp Require Import base gmap strings list sorting relations.
From Stdlib Require Import ZArith Lia Ascii String.
From S2P Require Import Prelude GoLib Usage Pricing BillingModel Money Store StoreFacts.
From S2P Require Import BillingInv BillingFacts BillingSteps UsageModel UsageRepo UsageFacts.
From S2P Require Import UsageFacts UsageSteps.

Module UsageHistory.
Import Usage UsageModel UsageRepo UsageBooks UsageFacts UsageSteps.
Import Store(DB, mkDB, usage_events, outbox, set_outbox, SqlGuards, WallClock, OutboxRow, ob_ID, ob_AggregateType, ob_AggregateID, ob_EventType, ob_IdempotencyKey, ob_Payload).
Import BillingInv(Inv).
Import BillingSteps(step, Inv_step, empty_db, Inv_empty).

(** A call with its arguments, its clock readings and its identifiers; [ABilling d] is
    a transaction of another package that leaves the books [d]. *)
Inductive action :=
| ABegin (ids : list uuid) (input : StartInput) (now clock : time)
| AFinalize (ids : list uuid) (handle : RequestHandle) (input : FinalizeInput) (now clock : time)
| AReconcile (ids : list uuid) (input : ReconciliationInput) (created : time)
| AClaim (workerID : string) (limit lease : Z) (clock : time) (locked : uuid -> bool)
| APublished (eventID : uuid) (workerID : string) (publishedAt now clock : time)
| AFailed (eventID : uuid) (workerID errorClass : string) (retryAt : time) (permanent : bool)
    (now clock : time)
| ABilling (d : DB).

Section history.
Context `{UuidText, TimeText, SqlGuards, UsageGuards, OutboxBirth, WallClock}.

Definition perform (a : action) (p : UDB) : UDB :=
  match a with
  | ABegin ids input now clock => (Service_BeginRequest ids input now clock p).1
  | AFinalize ids handle input now clock => (Service_Finalize ids handle input now clock p).1
  | AReconcile ids input created => (Service_RecordReconciliation ids input created p).1
  | AClaim w limit lease clock locked => (Service_ClaimOutbox w limit lease clock locked p).1
  | APublished k w t now clock => (Service_MarkOutboxPublished k w t now clock p).1
  | AFailed k w c t permanent now clock => (Service_MarkOutboxFailed k w c t permanent now clock p).1
  | ABilling d => set_books (fun _ => d) p
  end.

(** Amounts are [int64]; billing's transaction is one of [BillingSteps.step] that is
    not the recording of a usage event. *)
Definition allowed (a : action) (p : UDB) : Prop :=
  match a with
  | AFinalize _ _ input _ _ => forall n, fi_AmountMinor input = Some n -> in_i64 n
  | ABilling d => step (books p) d /\ usage_events d = usage_events (books p)
  | _ => True
  end.

(** A step by an action that satisfies [Q]. *)
Definition usage_step (Q : action -> Prop) (p p' : UDB) : Prop :=
  exists a, allowed a p /\ Q a /\ p' = perform a p.

Definition any (a : action) : Prop := True.
Definition empty_tables : UDB := mkUDB empty_db ∅ ∅ ∅ ∅.
Definition usage_reachable (p : UDB) : Prop := rtc (usage_step any) empty_tables p.

Lemma usage_step_any Q p p' : usage_step Q p p' -> usage_step any p p'.
Proof. intros (a & Ha & _ & ->). by exists a. Qed.

(** ** What a call did *)
Lemma run_usage_cases {A} ids (m : utx A) p :
  (exists e, m (ids, p) = Err e /\ run_usage ids m p = (p, Err e))
  \/ (exists s' a, m (ids, p) = Ok (s', a) /\ run_usage ids m p = (s'.2, Ok a)).
Proof.
  unfold run_usage. destruct (m (ids, p)) as [[[ids' p'] a]|e] eqn:Hm; [right|left; by exists e].
  by exists (ids', p'), a.
Qed.

Lemma run_usage_ok {A} ids (m : utx A) p p' a :
  run_usage ids m p = (p', Ok a) <-> exists rest, m (ids, p) = Ok ((rest, p'), a).
Proof.
  unfold run_usage. split.
  - destruct (m (ids, p)) as [[[ids' q] x]|e]; [|done]. intros [= -> ->]. by exists ids'.
  - by intros [rest ->].
Qed.

Lemma normalizeFinalize_ok handle input now n :
  normalizeFinalizeInput handle input now = Ok n ->
  rh_RecordID handle <> uuid_nil /\ fi_AmountMinor n = fi_AmountMinor input
  /\ fi_TerminalStatus n = fi_TerminalStatus input /\ fi_Usage n = fi_Usage input.
Proof.
  unfold normalizeFinalizeInput. destruct (finalize_input_ok handle input) eqn:E; simpl; [|done].
  destruct (upstream_ok _); simpl; [|done].
  match goal with |- (if ?b then _ else _) = _ -> _ => destruct b; [done|] end.
  intros [= <-]. simpl. unfold finalize_input_ok in E. bools.
  by split_and!.
Qed.

(** ** Deliveries *)
Lemma delivery_insert k d p j :
  delivery (set_deliveries (<[k := d]>) p) j = if bool_decide (j = k) then d else delivery p j.
Proof.
  unfold delivery. simpl. case_bool_decide as Hj; [by rewrite Hj, lookup_insert_eq|].
  by rewrite lookup_insert_ne.
Qed.

(** The life of a delivery: claimed when due, ended by the worker it is claimed by. *)
Definition owned_by (w : string) (d : Delivery) : Prop :=
  dl_Status d = "processing" /\ dl_ClaimedBy d = Some w.

Inductive dl_step : Delivery -> Delivery -> Prop :=
| dl_claim w now cutoff d :
    delivery_due (pg_time now) cutoff d = true -> cutoff <= pg_time now -> dl_step d (claimed w now d)
| dl_publish w t d : owned_by w d -> dl_step d (published t d)
| dl_fail w permanent c t d : owned_by w d -> dl_step d (failed permanent c t d).

(** The rows a claim picks, and their deliveries after it. *)
Lemma claim_candidate limit now cutoff locked p x :
  x ∈ claim_candidates limit now cutoff locked p ->
  x.1 ∈ outbox (books p) /\ x.2 = delivery p (ob_ID x.1) /\ delivery_due now cutoff x.2 = true
  /\ locked (ob_ID x.1) = false.
Proof.
  unfold claim_candidates. intros (i & Hx & _)%elem_of_take. apply list_elem_of_lookup_2 in Hx.
  rewrite merge_sort_Permutation in Hx.
  apply list_elem_of_filter in Hx as [Hd (o & -> & Ho)%list_elem_of_fmap]. simpl in *. by bools.
Qed.

Lemma foldr_deliveries (rows : list OutboxEvent) (f : uuid -> Delivery) (m : gmap uuid Delivery) k :
  (forall x, x ∈ rows -> x.2 = f (ob_ID x.1)) ->
  foldr (fun x : OutboxEvent => <[ob_ID x.1 := x.2]>) m rows !! k
  = if bool_decide (k ∈ (fun x : OutboxEvent => ob_ID x.1) <$> rows) then Some (f k) else m !! k.
Proof.
  induction rows as [|x rows IH]; intros Hf; simpl; [done|].
  destruct (decide (ob_ID x.1 = k)) as [<-|Hne].
  - rewrite lookup_insert_eq, bool_decide_eq_true_2 by apply list_elem_of_here.
    f_equal. apply Hf, list_elem_of_here.
  - rewrite lookup_insert_ne by done. rewrite IH by (intros y Hy; by apply Hf; right).
    erewrite bool_decide_ext; [done|]. rewrite elem_of_cons. split; [by right|]. by intros [->|].
Qed.

Lemma ClaimOutbox_ok w limit lease now locked ids p s' rows :
  Repository_ClaimOutbox w limit lease now locked (ids, p) = Ok (s', rows) ->
  let picked := claim_candidates limit (pg_time now) (pg_time (now - lease)) locked p in
  rows = (fun x : OutboxEvent => (x.1, claimed w now x.2)) <$> picked
  /\ books s'.2 = books p /\ request_records s'.2 = request_records p
  /\ request_attempts s'.2 = request_attempts p
  /\ usage_reconciliations s'.2 = usage_reconciliations p
  /\ (forall k, deliveries s'.2 !! k =
        if bool_decide (k ∈ (fun x : OutboxEvent => ob_ID x.1) <$> picked)
        then Some (claimed w now (delivery p k)) else deliveries p !! k).
Proof.
  intros Hm picked. unfold Repository_ClaimOutbox in Hm. u_inv. fold picked in Hm.
  destruct (existsb _ _); u_inv. split_and!; try done. intros k. simpl.
  rewrite (foldr_deliveries _ (fun k => claimed w now (delivery p k))).
  - rewrite <- list_fmap_compose. done.
  - intros x (y & -> & Hy)%list_elem_of_fmap. simpl. by apply claim_candidate in Hy as (_ & -> & _).
Qed.

Lemma update_owned_ok k w f ids p s' u :
  update_owned k w f (ids, p) = Ok (s', u) ->
  owned_by w (delivery p k) /\ k ∈ (ob_ID <$> outbox (books p))
  /\ s'.2 = set_deliveries (<[k := f (delivery p k)]>) p.
Proof.
  intros Hm. unfold update_owned in Hm. u_inv.
  match type of Hm with (if ?b then _ else _) _ = _ => destruct b eqn:Hb end; u_inv.
  unfold owned_delivery in Hb. simpl in Hb. bools. split_and!; [| |done].
  - split; [done|]. destruct (dl_ClaimedBy _); [|done]. bools. by subst.
  - rename select (existsb _ _ = true) into He. apply existsb_exists in He as (o & Ho & Hk).
    apply list_elem_of_fmap. exists o. apply uuid_eqb_eq in Hk. split; [done|by apply list_elem_of_In].
Qed.

(** ** What never changes *)
Record uevolves (p p' : UDB) : Prop := {
  ue_events : forall k e, usage_events (books p) !! k = Some e -> usage_events (books p') !! k = Some e;
  ue_records : forall k r, request_records p !! k = Some r -> exists r',
    request_records p' !! k = Some r' /\ rr_ID r' = rr_ID r /\ rr_RequestID r' = rr_RequestID r
    /\ (r' = r \/ rr_TerminalStatus r = "");
  ue_outbox : exists l, outbox (books p') = (outbox (books p) ++ l)%list;
  ue_deliveries : forall k, rtc dl_step (delivery p k) (delivery p' k)
}.

#[export] Instance uevolves_preorder : PreOrder uevolves.
Proof.
  split.
  - intros p. split; try done; [intros k r ?; exists r; auto|]. exists []. by rewrite app_nil_r.
  - intros p1 p2 p3 [E1 R1 (l1 & O1) D1] [E2 R2 (l2 & O2) D2]. split; [by auto|..].
    + intros k r Hr. destruct (R1 _ _ Hr) as (r2 & Hr2 & I2 & Q2 & C2).
      destruct (R2 _ _ Hr2) as (r3 & Hr3 & I3 & Q3 & C3). exists r3. split_and!; try congruence.
      destruct C2 as [->|]; [destruct C3 as [->|]|]; auto.
    + exists (l1 ++ l2)%list. by rewrite O2, O1, app_assoc.
    + intros k. etrans; [apply D1|apply D2].
Qed.

Lemma uevolves_books p d l :
  usage_events d = usage_events (books p) -> outbox d = (outbox (books p) ++ l)%list ->
  uevolves p (set_books (fun _ => d) p).
Proof.
  intros Hu Ho. split; simpl; [by rewrite Hu|intros k r ?; exists r; auto|by exists l|done].
Qed.

Lemma uevolves_add l p : uevolves p (add_rows l p).
Proof. by apply (uevolves_books p (set_outbox (fun o => (o ++ l)%list) (books p)) l). Qed.

Lemma uevolves_begun input clock h p p' : begun input clock h p p' -> uevolves p p'.
Proof.
  intros [|i Hi Hn r _]; [done|]. split; simpl; try done; [|exists []; by rewrite app_nil_r].
  intros k x Hx. exists x. rewrite lookup_insert_ne; [auto|]. congruence.
Qed.

Lemma uevolves_finalized k e p p' : finalized k e p p' -> uevolves p p'.
Proof.
  intros [_ (Hn & _) Hev (r & r' & Hr & Hr1 & _ & Hq & Hid & _ & _ & Hrec) _ (o & _ & _ & Ho) (Hd & _) _].
  split.
  - intros j x Hx. rewrite Hev, lookup_insert_ne; [done|]. congruence.
  - intros j x Hx. rewrite Hrec. destruct (decide (k = j)) as [<-|].
    + rewrite lookup_insert_eq. exists r'. assert (x = r) as -> by congruence. auto.
    + rewrite lookup_insert_ne by done. exists x. auto.
  - by exists [o].
  - intros j. unfold delivery. by rewrite Hd.
Qed.

Lemma uevolves_owned k w f p :
  (forall d, owned_by w d -> dl_step d (f d)) -> owned_by w (delivery p k) ->
  uevolves p (set_deliveries (<[k := f (delivery p k)]>) p).
Proof.
  intros Hf Hw. split; simpl; [done|intros j r ?; exists r; auto|exists []; by rewrite app_nil_r|].
  intros j. rewrite delivery_insert. case_bool_decide as Hj; [|done]. subst j. by apply rtc_once, Hf.
Qed.

Lemma pg_time_mono t u : t <= u -> pg_time t <= pg_time u.
Proof. unfold pg_time. intros Hle. pose proof (Z.div_mod t 1000). pose proof (Z.div_mod u 1000).
  pose proof (Z.div_le_mono t u 1000). lia. Qed.

Lemma delivery_claim w limit lease now locked ids p s' rows k :
  Repository_ClaimOutbox w limit lease now locked (ids, p) = Ok (s', rows) ->
  (delivery s'.2 k = delivery p k
   /\ forall x, x ∈ claim_candidates limit (pg_time now) (pg_time (now - lease)) locked p -> ob_ID x.1 <> k)
  \/ (delivery s'.2 k = claimed w now (delivery p k) /\ locked k = false
      /\ delivery_due (pg_time now) (pg_time (now - lease)) (delivery p k) = true).
Proof.
  intros (_ & _ & _ & _ & _ & Hd)%ClaimOutbox_ok. specialize (Hd k).
  assert (delivery s'.2 k = default (pending_delivery k) (deliveries s'.2 !! k)) as -> by done.
  rewrite Hd. case_bool_decide as Hk; simpl.
  - right. apply list_elem_of_fmap in Hk as (x & -> & Hx). split; [done|].
    by apply claim_candidate in Hx as (_ & <- & ? & ?).
  - left. split; [done|]. intros x Hx <-. apply Hk, list_elem_of_fmap. eauto.
Qed.

Lemma uevolves_claim w limit lease now locked ids p s' rows :
  0 <= lease -> Repository_ClaimOutbox w limit lease now locked (ids, p) = Ok (s', rows) ->
  uevolves p s'.2.
Proof.
  intros Hl Hm. pose proof (ClaimOutbox_ok _ _ _ _ _ _ _ _ _ Hm) as (_ & Hb & Hr & _).
  split; rewrite ?Hb, ?Hr; [done|intros j r ?; exists r; auto|exists []; by rewrite app_nil_r|].
  intros k. destruct (delivery_claim _ _ _ _ _ _ _ _ _ k Hm) as [[-> _]|(-> & _ & Hdue)]; [done|].
  apply rtc_once. eapply dl_claim; [exact Hdue|]. apply pg_time_mono. lia.
Qed.

(** ** Every action keeps the invariant *)
Lemma UInv_deliveries f p :
  (forall k, is_Some (f (deliveries p) !! k) -> k ∈ (ob_ID <$> outbox (books p))) ->
  UInv p -> UInv (set_deliveries f p).
Proof. intros Hf []. by constructor. Qed.

Definition preserved (p p' : UDB) : Prop := UInv p' /\ uevolves p p'.

Lemma preserved_refl p : UInv p -> preserved p p.
Proof. by split. Qed.

Lemma preserved_begin ids input now clock p :
  UInv p -> preserved p (Service_BeginRequest ids input now clock p).1.
Proof.
  intros HI. unfold Service_BeginRequest. destruct (normalizeStartInput _ _) as [n|]; [|by apply preserved_refl].
  destruct (run_usage_cases ids (BeginRequest n clock) p) as [(e & _ & ->)|(s' & h & Hm & ->)];
    [by apply preserved_refl|]. apply BeginRequest_ok in Hm as [Hb _].
  split; [by eapply UInv_begun|by eapply uevolves_begun].
Qed.

Lemma preserved_finalize ids handle input now clock p :
  UInv p -> (forall n, fi_AmountMinor input = Some n -> in_i64 n) ->
  preserved p (Service_Finalize ids handle input now clock p).1.
Proof.
  intros HI Ha. unfold Service_Finalize.
  destruct (normalizeFinalizeInput _ _ _) as [n|] eqn:Hn; [|by apply preserved_refl].
  apply normalizeFinalize_ok in Hn as (Hnil & En & _).
  destruct (run_usage_cases ids (Finalize handle n clock) p) as [(e & _ & ->)|(s' & e & Hm & ->)];
    [by apply preserved_refl|].
  apply Finalize_ok in Hm as [(Es & _)|(Hf & _)]; [|..|by rewrite En]; try done; simpl.
  { rewrite Es. by apply preserved_refl. }
  split; [by eapply UInv_finalized|by eapply uevolves_finalized].
Qed.

Lemma preserved_reconcile ids input created p :
  UInv p -> preserved p (Service_RecordReconciliation ids input created p).1.
Proof.
  intros HI. unfold Service_RecordReconciliation.
  destruct (normalizeReconciliationInput input) as [n|]; [|by apply preserved_refl].
  destruct (run_usage_cases ids (RecordReconciliation n created) p) as [(e & _ & ->)|(s' & r & Hm & ->)];
    [by apply preserved_refl|].
  apply RecordReconciliation_ok in Hm as (l & q & Es & Hl & _ & _ & Hq & _). simpl. rewrite Es.
  assert (UInv q /\ uevolves p q) as [Iq Eq].
  { destruct Hq as [->|(-> & _)]; [done|]. split; [by apply UInv_reconciliations|].
    split; simpl; [done|intros j x ?; exists x; auto|exists []; by rewrite app_nil_r|done]. }
  split; [by eapply UInv_other_outbox; [|exact Hl|]|]. etrans; [exact Eq|apply uevolves_add].
Qed.

Lemma preserved_claim w limit lease clock locked p :
  UInv p -> preserved p (Service_ClaimOutbox w limit lease clock locked p).1.
Proof.
  intros HI. unfold Service_ClaimOutbox. destruct (normalizeWorkerID w) as [w'|]; [|by apply preserved_refl].
  destruct (_ || _); [by apply preserved_refl|].
  destruct (_ || _) eqn:Hl; [by apply preserved_refl|].
  match goal with |- context [run_usage [] ?m p] =>
    destruct (run_usage_cases [] m p) as [(e & _ & ->)|(s' & rows & Hm & ->)] end; [by apply preserved_refl|].
  split; [|eapply uevolves_claim; [|exact Hm]; bools; unfold Second in *; lia].
  pose proof (ClaimOutbox_ok _ _ _ _ _ _ _ _ _ Hm) as (_ & Hb & Hr & Ha & Hc & Hd).
  assert (s'.2 = set_deliveries (fun _ => deliveries s'.2) p) as ->.
  { destruct s' as [? []], p; simpl in *. unfold set_deliveries. simpl. congruence. }
  apply UInv_deliveries; [|done]. intros k. rewrite Hd. case_bool_decide as Hk; [|apply (ui_deliveries _ HI)].
  intros _. apply list_elem_of_fmap in Hk as (x & -> & Hx). apply claim_candidate in Hx as (Hx & _).
  by apply list_elem_of_fmap_2.
Qed.

Lemma preserved_owned k w f p s' u :
  (forall w d, owned_by w d -> dl_step d (f d)) -> update_owned k w f ([], p) = Ok (s', u) -> UInv p ->
  preserved p s'.2.
Proof.
  intros Hf (Hw & Hk & ->)%update_owned_ok HI. split; [|by eapply uevolves_owned; [apply Hf|]].
  apply UInv_deliveries; [|done]. intros j [x [[<- _]|[_ Hj]]%lookup_insert_Some]; [done|].
  apply (ui_deliveries _ HI). by exists x.
Qed.

Lemma preserved_published k w t now clock p :
  UInv p -> preserved p (Service_MarkOutboxPublished k w t now clock p).1.
Proof.
  intros HI. unfold Service_MarkOutboxPublished, Repository_MarkOutboxPublished.
  destruct (normalizeWorkerID w) as [w'|]; [|by apply preserved_refl].
  destruct (uuid_eqb k uuid_nil); [by apply preserved_refl|].
  match goal with |- context [run_usage [] ?m p] =>
    destruct (run_usage_cases [] m p) as [(e & _ & ->)|(s' & [] & Hm & ->)] end; [by apply preserved_refl|].
  eapply preserved_owned; [|exact Hm|done]. intros. by eapply dl_publish.
Qed.

Lemma preserved_failed k w c t permanent now clock p :
  UInv p -> preserved p (Service_MarkOutboxFailed k w c t permanent now clock p).1.
Proof.
  intros HI. unfold Service_MarkOutboxFailed, Repository_MarkOutboxFailed.
  destruct (normalizeWorkerID w) as [w'|]; [|by apply preserved_refl].
  destruct (String.eqb _ ""); [by apply preserved_refl|].
  destruct (uuid_eqb k uuid_nil); [by apply preserved_refl|].
  match goal with |- context [run_usage [] ?m p] =>
    destruct (run_usage_cases [] m p) as [(e & _ & ->)|(s' & [] & Hm & ->)] end; [by apply preserved_refl|].
  eapply preserved_owned; [|exact Hm|done]. intros. by eapply dl_fail.
Qed.

Lemma preserved_billing d p :
  UInv p -> step (books p) d -> usage_events d = usage_events (books p) ->
  preserved p (set_books (fun _ => d) p).
Proof.
  intros HI Hs Hu. pose proof (step_grown _ _ Hs Hu) as Hg. split.
  - apply UInv_grown; [done| |done]. eapply Inv_step; [done|by apply HI].
  - destruct Hg as [_ (l & Hl & _) _]. by eapply uevolves_books.
Qed.

Lemma perform_preserved a p : UInv p -> allowed a p -> preserved p (perform a p).
Proof.
  intros HI Ha. destruct a; simpl in *.
  - by apply preserved_begin.
  - by apply preserved_finalize.
  - by apply preserved_reconcile.
  - by apply preserved_claim.
  - by apply preserved_published.
  - by apply preserved_failed.
  - destruct Ha. by apply preserved_billing.
Qed.

Lemma UInv_empty : UInv empty_tables.
Proof.
  constructor; simpl; try done; try (intros *; rewrite lookup_empty; by intros).
  - apply Inv_empty.
  - intros o Ho. by apply elem_of_nil in Ho.
  - constructor.
Qed.

Lemma usage_reachable_Inv p : usage_reachable p -> UInv p.
Proof.
  apply (rtc_ind_r UInv empty_tables); [apply UInv_empty|].
  intros y z _ (a & Ha & _ & ->) HI. by apply perform_preserved.
Qed.

Lemma usage_steps_evolve Q p p' : UInv p -> rtc (usage_step Q) p p' -> UInv p' /\ uevolves p p'.
Proof.
  intros HI Hs. revert HI. induction Hs as [|p1 p2 p3 (a & Ha & _ & ->) _ IH]; [done|].
  intros HI. destruct (perform_preserved _ _ HI Ha) as [I2 E2]. destruct (IH I2) as [I3 E3].
  split; [done|]. by etrans.
Qed.
End history.
End UsageHistory.
