(* ===== verification/UsageTheorems.v ===== *)
(** * The properties of the usage package

    One fact per request, with its record, attempt and outbox row; retries of
    [Finalize]; the delivery of outbox rows to workers. *)

From stdpp Require Import base gmap strings list sorting relations.
From Stdlib Require Import ZArith Lia Ascii String.
From S2P Require Import Prelude GoLib Usage Pricing BillingModel Money Store StoreFacts.
From S2P Require Import BillingInv BillingFacts BillingSteps UsageModel UsageRepo UsageFacts.
From S2P Require Import UsageFacts UsageSteps UsageHistory.

Module UsageTheorems.
Import Usage UsageModel UsageRepo UsageBooks UsageFacts UsageSteps UsageHistory.
Import Store(DB, mkDB, usage_events, outbox, set_outbox, SqlGuards, WallClock, OutboxRow, ob_ID, ob_AggregateType, ob_AggregateID, ob_EventType, ob_IdempotencyKey, ob_Payload).

Section properties.
Context `{UuidText, TimeText, SqlGuards, UsageGuards, OutboxBirth, WallClock}.

(** ** One fact per request *)

(** C17: usage is recorded exactly once: in every state that the service and billing reach,
    a request has at most one usage event; its settlement key is made from the request
    identifier, its request record is closed with its status and finish time, its only
    attempt reports what it reports, and exactly one [usage.recorded] row announces it;
    and a record that is closed has its event. *)
Theorem usage_is_recorded_once p :
  usage_reachable p ->
  (forall k e, usage_events (books p) !! k = Some e ->
     ev_ID e = k /\ ev_SettlementKey e = "usage:v1:" +:+ ev_RequestID e
     /\ (forall k2 e2, usage_events (books p) !! k2 = Some e2 -> ev_RequestID e2 = ev_RequestID e -> k2 = k)
     /\ (exists i r, ev_RequestRecordID e = Some i /\ request_records p !! i = Some r /\ closed_by e r
          /\ forall n a, request_attempts p !! (i, n) = Some a -> attempt_of e a
               /\ forall m, is_Some (request_attempts p !! (i, m)) -> m = n)
     /\ exists o, List.filter (recorded_key e) (outbox (books p)) = [o] /\ announces e o)
  /\ (forall k r, request_records p !! k = Some r -> rr_TerminalStatus r <> "" ->
        exists j e, usage_events (books p) !! j = Some e /\ ev_RequestRecordID e = Some k).
Proof.
  intros HI%usage_reachable_Inv. split.
  - intros k e He. destruct (ui_events _ HI _ _ He) as (Hid & Hkey & _ & i & r & Hi & Hr & Hc).
    split_and!; [done|done|..].
    + intros k2 e2 He2 Hq. by eapply (ui_once _ HI).
    + exists i, r. split_and!; try done. intros n a Ha. split; [|intros m Hm; by eapply (ui_attempt _ HI); eauto].
      destruct (ui_attempts _ HI _ _ _ Ha) as (j & e2 & He2 & Hk2 & Hat).
      destruct (ui_events _ HI _ _ He2) as (_ & _ & _ & i2 & r2 & Hi2 & Hr2 & Hc2).
      assert (j = k) as ->; [|congruence].
      eapply (ui_once _ HI); [done|done|]. destruct Hc as (<- & _), Hc2 as (<- & _). congruence.
    + destruct (ui_row _ HI _ _ He) as [o Ho]. exists o. split; [done|].
      assert (In o (List.filter (recorded_key e) (outbox (books p)))) as Hin by (rewrite Ho; by left).
      apply filter_In in Hin as [Hin Hk]. apply list_elem_of_In in Hin.
      destruct (ui_rows _ HI _ Hin (recorded_key_type _ _ Hk)) as (e2 & He2 & Ha).
      assert (ob_AggregateID o = ev_ID e) as E by (unfold recorded_key, outbox_key in Hk; by bools).
      assert (e2 = e) as -> by congruence. done.
  - intros k r Hr Hs. destruct (event_of_record _ _ _ HI Hr Hs) as (j & e & He & Hk & _). eauto.
Qed.

(** ** Retries of [Finalize] *)
(** A clock reading whose microseconds are not all zero, unless it is the zero time. *)
Definition measurable (t : time) : Prop := IsZero (pg_time t) = IsZero t.

Lemma sameInstant_stored t : measurable t -> sameInstant (pg_time t) t = true.
Proof.
  intros Hm. unfold sameInstant. rewrite Hm. destruct (IsZero t); [done|]. simpl.
  rewrite pg_time_idem. apply Z.eqb_refl.
Qed.

Lemma opt_Z_eqb_refl o : opt_Z_eqb o o = true.
Proof. destruct o; [apply Z.eqb_refl|done]. Qed.
Lemma opt_uuid_refl o : opt_uuid_eqb o o = true.
Proof. by apply opt_uuid_eqb_eq. Qed.

Lemma stored_same handle n e :
  new_fact handle n e -> measurable (rh_StartedAt handle) -> measurable (fi_FinishedAt n) ->
  sameEventInput (stored_event e) handle n = true.
Proof.
  intros (i & c & ->) Hs Hf.
  cbv beta iota zeta delta [sameEventInput stored_event with_created eventFromFinalize
    ev_ID ev_SettlementKey ev_RequestRecordID ev_RequestID ev_StartedAt ev_FinishedAt
    ev_RequestedModel ev_UserID ev_APIKeyID ev_ResolvedModelID ev_ProviderID ev_ProviderModelID
    ev_RouteVersionID ev_CredentialID ev_PriceVersionID ev_WalletID ev_Usage ev_AmountMinor
    ev_Currency ev_Estimated ev_Provenance ev_TerminalStatus ev_UpstreamStatus ev_ErrorClass
    ev_Latency ev_LatencyMS ev_TTFT ev_TTFTMS ev_CreatedAt].
  rewrite !sameInstant_stored, !opt_uuid_refl, !opt_Z_eqb_refl, !String.eqb_refl, Bool.eqb_reflx by done.
  by rewrite bool_decide_eq_true_2.
Qed.

Lemma same_input_status e handle n :
  sameEventInput e handle n = true ->
  ev_RequestID e = rh_RequestID handle /\ ev_TerminalStatus e = fi_TerminalStatus n.
Proof.
  unfold sameEventInput. cbv zeta. set (x := eventFromFinalize _ _ _ _ _). intros Hs.
  rewrite !andb_true_iff in Hs. rewrite <- (eq_refl : ev_RequestID x = rh_RequestID handle),
    <- (eq_refl : ev_TerminalStatus x = fi_TerminalStatus n).
  split; apply String.eqb_eq; tauto.
Qed.

(** Statements run forward. *)
Lemma run_read {A B} (f : UDB -> A) (g : A -> utx B) s : (uread f ≫= g) s = g (f s.2) s.
Proof. done. Qed.
Lemma run_when {B} b e (g : unit -> utx B) s : b = false -> (tx_when b e ≫= g) s = g tt s.
Proof. by intros ->. Qed.
Lemma run_id {B} (g : uuid -> utx B) i ids p : (u_id ≫= g) (i :: ids, p) = g i (ids, p).
Proof. done. Qed.
Lemma run_check {B} b (g : unit -> utx B) s : b = true -> (ucheck b ≫= g) s = g tt s.
Proof. by intros ->. Qed.

Lemma loadRequestRecordByID_run p k r ids :
  request_records p !! k = Some r ->
  loadRequestRecordByID k (ids, p) = Ok ((ids, p), handle_of r).
Proof. intros Hr. unfold loadRequestRecordByID. rewrite run_read. simpl. by rewrite Hr. Qed.

Lemma close_again p k r e status t ids :
  UInv p -> request_records p !! k = Some r -> closed_by e r -> validStatus (ev_TerminalStatus e) = true ->
  closeRequestRecord k status t (ids, p) = Ok ((ids, p), tt).
Proof.
  intros HI Hr Hc Hv. unfold closeRequestRecord. rewrite run_read. simpl. rewrite Hr.
  rewrite (closed_row_same _ _ e), run_check by (done || by apply (ui_records _ HI k)).
  unfold uwrite. simpl. by rewrite set_records_same.
Qed.

Lemma announced_again p k e i ids :
  UInv p -> usage_events (books p) !! k = Some e ->
  insertUsageOutbox e (i :: ids, p) = Ok ((ids, p), tt).
Proof.
  intros HI He. unfold insertUsageOutbox, insert_outbox. rewrite run_id, run_read. simpl.
  pose proof (recorded_found _ _ _ HI He) as Hf. unfold recorded_key in Hf. by rewrite Hf.
Qed.

Lemma Finalize_again p k e handle n clock i ids :
  UInv p -> usage_events (books p) !! k = Some e -> sameEventInput e handle n = true ->
  ev_RequestRecordID e = Some (rh_RecordID handle) ->
  Finalize handle n clock (i :: ids, p) = Ok ((ids, p), e).
Proof.
  intros HI He Hs Hrec. destruct (ui_events _ HI _ _ He) as (_ & Hkey & Hv & i0 & r & Hi & Hr & Hc).
  assert (i0 = rh_RecordID handle) as -> by congruence. pose proof Hc as (Cq & Cs & _).
  assert (ev_RequestID e = rh_RequestID handle /\ ev_TerminalStatus e = fi_TerminalStatus n) as [Eq Es].
  { by apply same_input_status. }
  unfold Finalize. rewrite (tx_bind_eq _ _ _ _ _ (loadRequestRecordByID_run _ _ _ _ Hr)).
  rewrite !run_when; [|simpl; by rewrite Cs, Es, String.eqb_refl, andb_false_r
                      |simpl; by rewrite Cq, Eq, String.eqb_refl].
  unfold loadUsageEventBySettlementKey, find_usage_event. rewrite run_read. simpl.
  rewrite <- Eq, <- Hkey, (find_by_key _ k) by done. unfold finalize_again.
  rewrite !run_when by (by rewrite ?Hs, ?Hrec, ?opt_uuid_refl).
  rewrite (tx_bind_eq _ _ _ _ _ (close_again _ _ _ _ _ _ _ HI Hr Hc Hv)).
  by rewrite (tx_bind_eq _ _ _ _ _ (announced_again _ _ _ _ _ HI He)).
Qed.

(** A request that has its fact keeps it: no later [Finalize] on it writes anything. *)
Lemma Finalize_after_fact p k e handle n clock ids s' e' :
  UInv p -> usage_events (books p) !! k = Some e -> ev_RequestRecordID e = Some (rh_RecordID handle) ->
  Finalize handle n clock (ids, p) = Ok (s', e') -> s'.2 = p.
Proof.
  intros HI He Hrec Hm. destruct (ui_events _ HI _ _ He) as (_ & Hkey & _ & i & r & Hi & Hr & (Cq & _)).
  assert (i = rh_RecordID handle) as -> by congruence.
  unfold Finalize in Hm. rewrite (tx_bind_eq _ _ _ _ _ (loadRequestRecordByID_run _ _ _ _ Hr)) in Hm.
  u_inv. bools. cbn [rh_RequestID handle_of] in *. 
  unfold loadUsageEventBySettlementKey, find_usage_event in *. u_inv.
  assert (settlementKey (rh_RequestID handle) = ev_SettlementKey e) as Ek by (rewrite Hkey; congruence).
  rewrite Ek in Hm. rewrite (find_by_key _ _ _ HI He) in Hm.
  by eapply finalize_again_ok in Hm as (-> & _).
Qed.

Lemma finalize_stored p ids h input now clock p1 e :
  UInv p -> (forall a, fi_AmountMinor input = Some a -> in_i64 a) ->
  Service_Finalize ids h input now clock p = (p1, Ok e) ->
  exists n, normalizeFinalizeInput h input now = Ok n /\ rh_RecordID h <> uuid_nil
    /\ (usage_events (books p1) !! ev_ID e = Some e /\ p1 = p /\ sameEventInput e h n = true
        \/ usage_events (books p1) !! ev_ID e = Some (stored_event e) /\ new_fact h n e
           /\ finalized (rh_RecordID h) (stored_event e) p p1).
Proof.
  intros HI Ha. unfold Service_Finalize. destruct (normalizeFinalizeInput h input now) as [n|] eqn:Hn; [|done].
  intros [rest Hm]%run_usage_ok. exists n. destruct (normalizeFinalize_ok _ _ _ _ Hn) as (Hnil & Ea & _).
  split; [done|]. split; [done|]. apply Finalize_ok in Hm as [(E & He & Hs)|[Hf Hnew]]; simpl in *; try done.
  - left. by rewrite E.
  - right. split; [|done]. rewrite (fz_events _ _ _ _ Hf). by rewrite lookup_insert_eq.
  - by rewrite Ea.
Qed.

Lemma same_record e h n :
  rh_RecordID h <> uuid_nil -> sameEventInput e h n = true -> ev_RequestRecordID e = Some (rh_RecordID h).
Proof.
  intros Hnil. unfold sameEventInput. cbv zeta. intros Hs. rewrite !andb_true_iff in Hs.
  assert (opt_uuid_eqb (ev_RequestRecordID e) (RecordIDPointer h) = true) as Ho by tauto.
  apply opt_uuid_eqb_eq in Ho. rewrite Ho. unfold RecordIDPointer, uuidPtrOrNil.
  apply uuid_eqb_neq in Hnil. by rewrite Hnil.
Qed.

(** retries of [Finalize]: once [Finalize] of a request has returned a fact, and
    whatever other calls follow, the same call again (its input normalised to the same
    values) returns that fact as it is stored and changes nothing, and no other call of
    [Finalize] with that handle changes anything. *)
Theorem Finalize_retry_returns_the_fact p ids h input now clock p1 e p2 i2 ids2 now2 clock2 :
  usage_reachable p -> (forall a, fi_AmountMinor input = Some a -> in_i64 a) ->
  Service_Finalize ids h input now clock p = (p1, Ok e) ->
  normalizeFinalizeInput h input now2 = normalizeFinalizeInput h input now ->
  (forall n, normalizeFinalizeInput h input now = Ok n -> measurable (fi_FinishedAt n)) ->
  measurable (rh_StartedAt h) ->
  rtc (usage_step any) p1 p2 ->
  (exists e2, usage_events (books p1) !! ev_ID e = Some e2
    /\ Service_Finalize (i2 :: ids2) h input now2 clock2 p2 = (p2, Ok e2))
  /\ forall ids3 input3 now3 clock3, (Service_Finalize ids3 h input3 now3 clock3 p2).1 = p2.
Proof.
  intros HI%usage_reachable_Inv Ha Hm Hnow Hf Hst Hs.
  destruct (finalize_stored _ _ _ _ _ _ _ _ HI Ha Hm) as (n & Hn & Hnil & Hcases).
  assert (UInv p1) as HI1.
  { pose proof (preserved_finalize ids h input now clock p HI Ha) as [HI1 _]. by rewrite Hm in HI1. }
  destruct (usage_steps_evolve _ _ _ HI1 Hs) as [HI2 HE].
  assert (exists e2, usage_events (books p1) !! ev_ID e = Some e2 /\ sameEventInput e2 h n = true)
    as (e2 & He2 & Hsame).
  { destruct Hcases as [(He & _ & ?)|(He & Hnew & _)]; [by exists e|]. exists (stored_event e).
    split; [done|]. apply stored_same; auto. }
  pose proof (same_record _ _ _ Hnil Hsame) as Hrec. pose proof (ue_events _ _ HE _ _ He2) as He3.
  split.
  - exists e2. split; [done|]. unfold Service_Finalize. rewrite Hnow, Hn. apply run_usage_ok.
    exists ids2. by eapply Finalize_again.
  - intros ids3 input3 now3 clock3. unfold Service_Finalize.
    destruct (normalizeFinalizeInput h input3 now3) as [n3|]; [|done].
    destruct (run_usage_cases ids3 (Finalize h n3 clock3) p2) as [(x & _ & ->)|(s' & x & Hm3 & ->)]; [done|].
    simpl. by eapply Finalize_after_fact.
Qed.

(** ** Deliveries *)
Lemma ClaimOutbox_service w limit lease clock locked p p1 rows :
  Service_ClaimOutbox w limit lease clock locked p = (p1, Ok rows) ->
  normalizeWorkerID w = Ok w /\ exists n l rest,
    n = (if limit =? 0 then 32 else limit) /\ 1 <= n <= 100
    /\ l = (if lease =? 0 then 30 * Second else lease) /\ Second <= l <= 24 * Hour
    /\ Repository_ClaimOutbox w (Z.to_nat n) l clock locked ([], p) = Ok ((rest, p1), rows).
Proof.
  unfold Service_ClaimOutbox, normalizeWorkerID. destruct (trimmed_text w 128); [|done].
  destruct (_ || _) eqn:E1; [done|]. destruct (_ || _) eqn:E2 at 1; [done|].
  intros [rest Hm]%run_usage_ok. split; [done|]. bools. eexists _, _, rest.
  split_and!; [reflexivity|lia|lia|reflexivity|lia|lia|exact Hm].
Qed.

(** What other callers may do while worker [w] holds the row [k] it claimed at [now]:
    claim with a lease that does not reach back to [now], and mark rows of their own. *)
Definition undisturbed (k : uuid) (w : string) (now : time) (a : action) : Prop :=
  match a with
  | AClaim _ _ lease clock _ => pg_time (clock - (if lease =? 0 then 30 * Second else lease)) <= pg_time now
  | APublished k2 w2 _ _ _ => k2 = k -> w2 <> w
  | AFailed k2 w2 _ _ _ _ _ => k2 = k -> w2 <> w
  | _ => True
  end.

Lemma normalizeWorkerID_same w w2 : normalizeWorkerID w = Ok w2 -> w2 = w.
Proof. unfold normalizeWorkerID. destruct (trimmed_text w 128); [|done]. by intros [= ->]. Qed.

Lemma update_owned_other k w k2 w2 f ids p s' u :
  update_owned k2 w2 f (ids, p) = Ok (s', u) -> owned_by w (delivery p k) -> (k2 = k -> w2 <> w) ->
  delivery s'.2 k = delivery p k.
Proof.
  intros (Ho & _ & ->)%update_owned_ok Hw Hne. rewrite delivery_insert. case_bool_decide as Hk; [|done].
  subst k2. exfalso. apply Hne; [done|]. destruct Ho as [_ E1], Hw as [_ E2]. congruence.
Qed.

Lemma claim_error w limit lease clock locked p p1 e :
  Service_ClaimOutbox w limit lease clock locked p = (p1, Err e) -> p1 = p.
Proof.
  unfold Service_ClaimOutbox, run_usage. destruct (normalizeWorkerID w); [|by intros [= -> _]].
  destruct (_ || _); [by intros [= -> _]|]. destruct (_ || _); [by intros [= -> _]|].
  destruct (Repository_ClaimOutbox _ _ _ _ _ _) as [[[] ?]|]; [done|]. by intros [= -> _].
Qed.

Lemma undisturbed_step k w now a p t :
  owned_by w (delivery p k) -> dl_ClaimedAt (delivery p k) = Some t -> pg_time now <= t ->
  UInv p -> allowed a p -> undisturbed k w now a -> k ∈ (ob_ID <$> outbox (books p)) ->
  delivery (perform a p) k = delivery p k.
Proof.
  intros Hw Ht Hle HI Ha Hu Hk. destruct a; simpl in *.
  - unfold Service_BeginRequest. destruct (normalizeStartInput _ _) as [n|]; [|done].
    destruct (run_usage_cases ids (BeginRequest n clock) p) as [(e & _ & ->)|(s' & h & Hm & ->)]; [done|].
    by apply BeginRequest_ok in Hm as [[|] _].
  - unfold Service_Finalize. destruct (normalizeFinalizeInput _ _ _) as [n|] eqn:Hn; [|done].
    apply normalizeFinalize_ok in Hn as (Hnil & En & _).
    destruct (run_usage_cases ids (Finalize handle n clock) p) as [(e & _ & ->)|(s' & e & Hm & ->)]; [done|].
    simpl. apply Finalize_ok in Hm as [(-> & _)|(Hf & _)]; [done| |done|done|by rewrite En].
    unfold delivery. by rewrite (proj1 (fz_rest _ _ _ _ Hf)).
  - unfold Service_RecordReconciliation. destruct (normalizeReconciliationInput input) as [n|]; [|done].
    destruct (run_usage_cases ids (RecordReconciliation n created) p) as [(e & _ & ->)|(s' & r & Hm & ->)]; [done|].
    apply RecordReconciliation_ok in Hm as (l & q & Es & _ & _ & _ & Hq & _). simpl. rewrite Es.
    by destruct Hq as [->|(-> & _)].
  - destruct (Service_ClaimOutbox workerID limit lease clock locked p) as [p1 [rows|e]] eqn:Hm; simpl.
    + apply ClaimOutbox_service in Hm as (_ & n & l & rest & _ & _ & El & _ & Hm).
      apply (delivery_claim _ _ _ _ _ _ _ _ _ k) in Hm as [[E _]|(_ & _ & Hdue)]; [done|]. exfalso.
      destruct Hw as [W1 W2]. unfold delivery_due in Hdue. rewrite W1, Ht in Hdue. simpl in Hdue.
      rewrite <- El in Hu. apply Z.ltb_lt in Hdue. lia.
    + by rewrite (claim_error _ _ _ _ _ _ _ _ Hm).
  - unfold Service_MarkOutboxPublished. destruct (normalizeWorkerID workerID) as [w2|] eqn:Hn; [|done].
    apply normalizeWorkerID_same in Hn as ->. destruct (uuid_eqb eventID uuid_nil); [done|].
    match goal with |- context [run_usage [] ?m p] =>
      destruct (run_usage_cases [] m p) as [(e & _ & ->)|(s' & [] & Hm & ->)] end; [done|].
    by eapply update_owned_other in Hm.
  - unfold Service_MarkOutboxFailed. destruct (normalizeWorkerID workerID) as [w2|] eqn:Hn; [|done].
    apply normalizeWorkerID_same in Hn as ->. destruct (String.eqb _ ""); [done|].
    destruct (uuid_eqb eventID uuid_nil); [done|].
    match goal with |- context [run_usage [] ?m p] =>
      destruct (run_usage_cases [] m p) as [(e & _ & ->)|(s' & [] & Hm & ->)] end; [done|].
    by eapply update_owned_other in Hm.
  - done.
Qed.

Lemma undisturbed_steps k w now p p' t :
  rtc (usage_step (undisturbed k w now)) p p' ->
  owned_by w (delivery p k) -> dl_ClaimedAt (delivery p k) = Some t -> pg_time now <= t ->
  UInv p -> k ∈ (ob_ID <$> outbox (books p)) ->
  delivery p' k = delivery p k /\ k ∈ (ob_ID <$> outbox (books p')).
Proof.
  intros Hs. induction Hs as [|p1 p2 p3 (a & Ha & Hu & ->) _ IH]; intros Hw Ht Hle HI Hk; [done|].
  pose proof (undisturbed_step _ _ _ _ _ _ Hw Ht Hle HI Ha Hu Hk) as Hd.
  destruct (perform_preserved _ _ HI Ha) as [HI2 HE].
  destruct (ue_outbox _ _ HE) as [l Hl]. rewrite <- Hd. apply IH; rewrite ?Hd; try done.
  rewrite Hl, fmap_app. apply elem_of_app. by left.
Qed.

Lemma owned_delivery_run k w p :
  owned_by w (delivery p k) -> k ∈ (ob_ID <$> outbox (books p)) -> owned_delivery k w p = true.
Proof.
  intros [H1' H2'] (o & -> & Ho)%list_elem_of_fmap. unfold owned_delivery.
  rewrite H1', H2', !String.eqb_refl, !andb_true_r. apply existsb_exists. exists o.
  split; [by apply list_elem_of_In|apply uuid_eqb_refl].
Qed.

(** an outbox row has one holder: the rows a claim returns were due and not locked,
    are in processing for that worker, and stay so whatever happens that is not the
    worker's own mark, as long as no later claim's lease reaches back to the claim; at
    the end the worker can still mark each of them published. *)
Theorem outbox_claims_are_exclusive p w limit lease now locked p1 rows p2 x :
  usage_reachable p -> Service_ClaimOutbox w limit lease now locked p = (p1, Ok rows) -> x ∈ rows ->
  rtc (usage_step (undisturbed (ob_ID x.1) w now)) p1 p2 ->
  locked (ob_ID x.1) = false /\ x.1 ∈ outbox (books p)
  /\ (exists cutoff, delivery_due (pg_time now) cutoff (delivery p (ob_ID x.1)) = true)
  /\ x.2 = claimed w now (delivery p (ob_ID x.1)) /\ delivery p2 (ob_ID x.1) = x.2
  /\ forall t now2 clock, uuid_eqb (ob_ID x.1) uuid_nil = false -> exists p3,
       Service_MarkOutboxPublished (ob_ID x.1) w t now2 clock p2 = (p3, Ok tt)
       /\ dl_Status (delivery p3 (ob_ID x.1)) = "published".
Proof.
  intros HI%usage_reachable_Inv Hm Hx Hs.
  pose proof (preserved_claim w limit lease now locked p HI) as [HI1 _]. rewrite Hm in HI1. simpl in HI1.
  apply ClaimOutbox_service in Hm as (Hw & n & l & rest & _ & _ & _ & _ & Hm).
  pose proof (ClaimOutbox_ok _ _ _ _ _ _ _ _ _ Hm) as (Hrows & Hb & _). simpl in Hb.
  rewrite Hrows in Hx. apply list_elem_of_fmap in Hx as (y & -> & Hy). cbn [fst snd] in *.
  pose proof (claim_candidate _ _ _ _ _ _ Hy) as (Ho & Hd & Hdue & Hlock).
  destruct (delivery_claim _ _ _ _ _ _ _ _ _ (ob_ID y.1) Hm) as [[_ Hno]|(E & _)]; [by apply Hno in Hy|].
  simpl in E. rewrite Hd in *.
  assert (ob_ID y.1 ∈ (ob_ID <$> outbox (books p1))) as Hin by (rewrite Hb; by apply list_elem_of_fmap_2).
  destruct (undisturbed_steps _ _ _ _ _ (pg_time now) Hs) as [E2 Hk]; [by rewrite E..|done|done|done|].
  rewrite E in E2.
  split_and!; try done; [by eexists|]. intros t now2 clock Hnil.
  unfold Service_MarkOutboxPublished. rewrite Hw, Hnil.
  unfold Repository_MarkOutboxPublished, update_owned. eexists. split.
  - apply run_usage_ok. exists []. rewrite run_read. simpl.
    rewrite owned_delivery_run; [reflexivity|by rewrite E2|done].
  - rewrite delivery_insert, bool_decide_eq_true_2 by done. done.
Qed.

(** ** The life of a delivery *)
Lemma dl_terminal d d' : dl_step d d' -> dl_Status d = "published" \/ dl_Status d = "failed" -> False.
Proof.
  intros [w now cutoff d0 Hd _|w t d0 [Hs _]|w b c t d0 [Hs _]] [E|E]; try (rewrite E in Hs; discriminate Hs).
  all: unfold delivery_due in Hd; by rewrite E in Hd.
Qed.

Lemma dl_terminal_rtc d d' :
  rtc dl_step d d' -> dl_Status d = "published" \/ dl_Status d = "failed" -> d' = d.
Proof. intros [|d1 d2 d3 Hs _] Ht; [done|]. by destruct (dl_terminal _ _ Hs Ht). Qed.

Definition delivery_ok (d : Delivery) : Prop :=
  (dl_Status d = "pending" \/ dl_Status d = "processing" \/ dl_Status d = "published" \/ dl_Status d = "failed")
  /\ (dl_Status d = "processing" <-> is_Some (dl_ClaimedBy d))
  /\ (is_Some (dl_ClaimedBy d) <-> is_Some (dl_ClaimedAt d))
  /\ (dl_Status d = "published" <-> is_Some (dl_PublishedAt d)) /\ 0 <= dl_Attempts d.

Lemma dl_step_ok d d' : dl_step d d' -> delivery_ok d -> delivery_ok d' /\ dl_Attempts d <= dl_Attempts d'.
Proof.
  intros [w now cutoff d0 Hd _|w t d0 [Hs _]|w b c t d0 [Hs _]] (S1 & S2 & S3 & S4 & S5);
    unfold delivery_ok; simpl; (split; [|lia]); split_and!; try lia; try done; try tauto.
  all: try (split; [done|by intros []]).
  - split; [discriminate|]. intros Hp. apply S4 in Hp. unfold delivery_due in Hd. by rewrite Hp in Hd.
  - destruct b; auto.
  - split; [by destruct b|by intros []].
  - rewrite <- S4, Hs. split; [by destruct b|done].
Qed.

Lemma dl_steps_ok d d' :
  rtc dl_step d d' -> delivery_ok d -> delivery_ok d' /\ dl_Attempts d <= dl_Attempts d'.
Proof.
  induction 1 as [|d1 d2 d3 Hs _ IH]; intros Hd; [done|]. destruct (dl_step_ok _ _ Hs Hd) as [H2' L2].
  destruct (IH H2') as [H3' L3]. split; [done|lia].
Qed.

Lemma pending_ok k : delivery_ok (pending_delivery k).
Proof. split_and!; simpl; try done; try (split; [done|by intros []]); auto. Qed.

Lemma usage_reachable_evolves p : usage_reachable p -> uevolves empty_tables p.
Proof. intros Hp. by apply (usage_steps_evolve any empty_tables p UInv_empty). Qed.

(** the delivery of an outbox row follows its state machine: from its insertion,
    pending, a row is only claimed when it is due and only published or failed by the
    worker that holds it; attempts never go down; holder and claim time are there
    exactly in processing, the publication time exactly when published; a published or
    failed row is never touched again, and no row disappears. *)
Theorem outbox_rows_follow_the_lifecycle p p' k :
  usage_reachable p -> rtc (usage_step any) p p' -> k ∈ (ob_ID <$> outbox (books p)) ->
  rtc dl_step (pending_delivery k) (delivery p k) /\ rtc dl_step (delivery p k) (delivery p' k)
  /\ delivery_ok (delivery p k) /\ delivery_ok (delivery p' k)
  /\ dl_Attempts (delivery p k) <= dl_Attempts (delivery p' k)
  /\ (dl_Status (delivery p k) = "published" \/ dl_Status (delivery p k) = "failed" ->
      delivery p' k = delivery p k)
  /\ k ∈ (ob_ID <$> outbox (books p')).
Proof.
  intros Hp Hs Hk. pose proof (ue_deliveries _ _ (usage_reachable_evolves _ Hp) k) as H0'.
  destruct (usage_steps_evolve _ _ _ (usage_reachable_Inv _ Hp) Hs) as [_ HE].
  pose proof (ue_deliveries _ _ HE k) as Hd. destruct (dl_steps_ok _ _ H0' (pending_ok k)) as [Ok1 _].
  destruct (dl_steps_ok _ _ Hd Ok1) as [Ok2 Hle]. split_and!; try done.
  - by apply dl_terminal_rtc.
  - destruct (ue_outbox _ _ HE) as [l ->]. rewrite fmap_app. apply elem_of_app. by left.
Qed.

(** Marking a delivery: done for the holder, refused for everyone else. *)
Theorem outbox_marks_have_three_outcomes p k w t now clock :
  normalizeWorkerID w = Ok w -> k <> uuid_nil ->
  let r := Service_MarkOutboxPublished k w t now clock p in
  ((k ∉ (ob_ID <$> outbox (books p))) /\ r = (p, Err ErrNotFound))
  \/ (k ∈ (ob_ID <$> outbox (books p)) /\ ~ owned_by w (delivery p k) /\ r = (p, Err ErrOutboxNotOwned))
  \/ (k ∈ (ob_ID <$> outbox (books p)) /\ owned_by w (delivery p k) /\ exists p', r = (p', Ok tt)
       /\ dl_Status (delivery p' k) = "published").
Proof.
  intros Hw Hk r. subst r. unfold Service_MarkOutboxPublished, Repository_MarkOutboxPublished, run_usage.
  rewrite Hw. apply uuid_eqb_neq in Hk. rewrite Hk. unfold update_owned. rewrite run_read. simpl.
  destruct (existsb (fun o => uuid_eqb (ob_ID o) k) (outbox (books p))) eqn:Hin.
  - assert (k ∈ (ob_ID <$> outbox (books p))) as Hk2.
    { apply existsb_exists in Hin as (o & Ho & Hq%uuid_eqb_eq). apply list_elem_of_fmap. exists o.
      split; [done|by apply list_elem_of_In]. }
    right. destruct (owned_delivery k w p) eqn:Ho.
    + right. split_and!; [done|..].
      * unfold owned_delivery in Ho. bools. split; [done|]. destruct (dl_ClaimedBy _); [by bools; subst|done].
      * eexists. split; [done|]. simpl. by rewrite delivery_insert, bool_decide_eq_true_2.
    + left. split_and!; [done| |].
      * intros Hown. by rewrite owned_delivery_run in Ho.
      * rewrite run_read. unfold tx_fail. simpl. repeat f_equal. unfold outboxOwnershipError. rewrite Hin. simpl.
        unfold owned_delivery in Ho. rewrite Hin in Ho. simpl in Ho.
        destruct (String.eqb (dl_Status (delivery p k)) "processing"); simpl in *; [|done].
        destruct (dl_ClaimedBy (delivery p k)) as [w2|]; [|done]. by rewrite Ho.
  - left. split; [by apply not_in_outbox|]. 
    assert (owned_delivery k w p = false) as -> by (unfold owned_delivery; by rewrite Hin).
    rewrite run_read. unfold tx_fail, outboxOwnershipError. simpl. by rewrite Hin.
Qed.
End properties.
End UsageTheorems.

(** * A concrete history of the usage tables, and the witnesses of their properties

    A wallet is credited, a request begins and is finalised with one attempt, a
    reconciliation is recorded, the outbox rows are claimed and one is published. *)

From stdpp Require Import base gmap strings list pretty relations.
From Stdlib Require Import ZArith Lia Ascii String.
From S2P Require Import Prelude GoLib Usage Pricing BillingModel Money Store.
From S2P Require Import BillingOps BillingService BillingInv BillingSteps BillingDemo.
From S2P Require Import UsageModel UsageRepo UsageFacts UsageSteps UsageHistory.

Module UsageDemo.
Import Usage UsageModel UsageRepo UsageFacts UsageSteps UsageHistory UsageTheorems BillingDemo.
Import Store(usage_events, outbox, OutboxRow, ob_ID).

#[export] Instance demo_rfc3339 : TimeText := fun t => pretty (Z.to_N t).
#[export] Instance demo_usage_guards : UsageGuards :=
  {| guard_request := fun _ => None; guard_usage_event := fun _ => None;
     guard_attempt := fun _ _ => None; guard_reconciliation := fun _ => None |}.
#[export] Instance demo_birth : OutboxBirth := fun _ => 4000000.

Definition demo_start : StartInput :=
  {| si_RequestID := "req-1"; si_UserID := demo_user; si_APIKeyID := demo_key;
     si_Endpoint := "/v1/chat/completions"; si_RequestedModel := "m"; si_Stream := false;
     si_StartedAt := 0 |}.
Definition demo_handle : RequestHandle :=
  {| rh_RecordID := 600%N; rh_RequestID := "req-1"; rh_UserID := demo_user; rh_APIKeyID := demo_key;
     rh_Endpoint := "/v1/chat/completions"; rh_RequestedModel := "m"; rh_Stream := false;
     rh_StartedAt := 2000000; rh_TerminalStatus := "" |}.
Definition demo_attempt : AttemptInput :=
  {| at_AttemptNo := 0; at_RouteVersionID := None; at_ProviderID := None; at_ProviderModelID := None;
     at_CredentialID := None; at_StartedAt := 0 |}.
Definition demo_finalize : FinalizeInput :=
  {| fi_Attempt := Some demo_attempt; fi_ResolvedModelID := None; fi_ProviderID := None;
     fi_ProviderModelID := None; fi_RouteVersionID := None; fi_CredentialID := None;
     fi_PriceVersionID := Some 50%N; fi_WalletID := Some 100%N;
     fi_Usage := {| InputTokens := 10; OutputTokens := 20; CacheReadTokens := 0;
                    CacheWriteTokens := 0; ReasoningTokens := 5 |};
     fi_AmountMinor := Some 120; fi_Currency := "USD"; fi_Estimated := false; fi_Provenance := "";
     fi_TerminalStatus := StatusSucceeded; fi_UpstreamStatus := Some 200; fi_ErrorClass := "";
     fi_Latency := 1500000000; fi_TTFT := Some 2000000; fi_FinishedAt := 3000000 |}.
Definition demo_reconcile : ReconciliationInput :=
  {| ri_UsageEventID := 610%N; ri_Source := "provider"; ri_SourceEventKey := "k1";
     ri_InputTokensDelta := 1; ri_OutputTokensDelta := 0; ri_CacheReadDelta := 0;
     ri_CacheWriteDelta := 0; ri_ReasoningDelta := 0; ri_AmountMinorDelta := -20 |}.

Definition u1 : UDB := perform (ABilling demo1) empty_tables.
Definition u2 : UDB := perform (ABegin (ids_from 600) demo_start 2000000 2000000) u1.
Definition demo_finalized : UDB * result error Event :=
  Service_Finalize (ids_from 610) demo_handle demo_finalize 3100000 3100000 u2.
Definition u3 : UDB := demo_finalized.1.
Definition u4 : UDB := perform (AReconcile (ids_from 620) demo_reconcile 3200000) u3.
Definition demo_claim_result : UDB * result error (list OutboxEvent) :=
  Service_ClaimOutbox "worker-1" 10 0 5000000 (fun _ => false) u4.
Definition u5 : UDB := demo_claim_result.1.
Definition u6 : UDB := perform (AClaim "worker-2" 10 0 6000000 (fun _ => false)) u5.
Definition u7 : UDB := perform (APublished 612%N "worker-1" 0 7000000 7000000) u6.

Lemma steps_one Q a p p' : allowed a p' -> Q a -> rtc (usage_step Q) p p' -> rtc (usage_step Q) p (perform a p').
Proof. intros Ha Hq Hs. eapply rtc_r; [exact Hs|]. by exists a. Qed.

Lemma u2_reachable : usage_reachable u2.
Proof.
  unfold usage_reachable, u2, u1. apply steps_one; [done..|]. apply steps_one; [|done..].
  split; [|by vm_compute]. unfold demo1. apply BillingSteps.step_credit. by vm_compute.
Qed.
Lemma u3_reachable : usage_reachable u3.
Proof.
  change u3 with (perform (AFinalize (ids_from 610) demo_handle demo_finalize 3100000 3100000) u2).
  apply steps_one; [|done|apply u2_reachable]. intros n [= <-]. by vm_compute.
Qed.
Lemma u4_reachable : usage_reachable u4.
Proof. apply steps_one; [done..|apply u3_reachable]. Qed.
Lemma u5_reachable : usage_reachable u5.
Proof.
  change u5 with (perform (AClaim "worker-1" 10 0 5000000 (fun _ => false)) u4).
  apply steps_one; [done..|apply u4_reachable].
Qed.

(** The tables of the history, evaluated. *)
Example demo_history :
  (rr_TerminalStatus <$> request_records u3 !! 600%N) = Some "succeeded"
  /\ (ev_SettlementKey <$> usage_events (books u3) !! 610%N) = Some "usage:v1:req-1"
  /\ (ar_LatencyMS <$> request_attempts u3 !! (600%N, 0)) = Some (Some 1500)
  /\ ((fun o => (ob_ID o, Store.ob_EventType o)) <$> outbox (books u4))
     = [(102%N, "billing.wallet.credited"); (612%N, "usage.recorded");
        (621%N, "usage.reconciliation.recorded")]
  /\ dl_ClaimedBy (delivery u6 612%N) = Some "worker-1"
  /\ dl_Status (delivery u7 612%N) = "published" /\ dl_Status (delivery u7 621%N) = "processing".
Proof. vm_compute. by split_and!. Qed.

(** ** Witnesses *)
Lemma usage_is_recorded_once_witness :
  exists e o, usage_events (books u4) !! 610%N = Some e
    /\ List.filter (recorded_key e) (outbox (books u4)) = [o] /\ announces e o.
Proof.
  destruct (usage_is_recorded_once u4 u4_reachable) as [Hall _].
  assert (exists e, usage_events (books u4) !! 610%N = Some e) as [e He].
  { eexists. vm_compute. reflexivity. }
  destruct (Hall _ _ He) as (_ & _ & _ & _ & o & Ho & Ha).
  exists e, o. exact (conj He (conj Ho Ha)).
Defined.

Lemma u3_to_u5 : rtc (usage_step any) u3 u5.
Proof.
  change u5 with (perform (AClaim "worker-1" 10 0 5000000 (fun _ => false)) u4).
  apply steps_one; [done..|]. by apply steps_one.
Qed.

Lemma Finalize_retry_returns_the_fact_witness :
  exists e e2, demo_finalized.2 = Ok e /\ usage_events (books u3) !! ev_ID e = Some e2
    /\ Service_Finalize [700%N] demo_handle demo_finalize 9000000 9000000 u5 = (u5, Ok e2).
Proof.
  assert (exists e, demo_finalized.2 = Ok e) as [e He] by (eexists; vm_compute; reflexivity).
  exists e.
  destruct (Finalize_retry_returns_the_fact u2 (ids_from 610) demo_handle demo_finalize 3100000 3100000
    u3 e u5 700%N [] 9000000 9000000) as [(e2 & He2 & Hs) _].
  - apply u2_reachable.
  - intros a [= <-]. by vm_compute.
  - change (demo_finalized = (demo_finalized.1, Ok e)). rewrite <- He. apply surjective_pairing.
  - by vm_compute.
  - intros n. vm_compute. by intros [= <-].
  - by vm_compute.
  - apply u3_to_u5.
  - exists e2. exact (conj He (conj He2 Hs)).
Defined.

Lemma outbox_claims_are_exclusive_witness :
  exists x rows, demo_claim_result.2 = Ok rows /\ x ∈ rows /\ delivery u6 (ob_ID x.1) = x.2.
Proof.
  assert (exists rows, demo_claim_result.2 = Ok rows) as [rows Hr] by (eexists; vm_compute; reflexivity).
  assert (exists x, x ∈ rows /\ ob_ID x.1 = 612%N) as (x & Hx & Hid).
  { revert Hr. vm_compute. intros [= <-]. eexists. split; [right; left|]. done. }
  exists x, rows. split; [exact Hr|]. split; [exact Hx|].
  destruct (outbox_claims_are_exclusive u4 "worker-1" 10 0 5000000 (fun _ => false) u5 rows u6 x)
    as (_ & _ & _ & _ & Hd & _); [apply u4_reachable| |exact Hx| |exact Hd].
  - change (demo_claim_result = (demo_claim_result.1, Ok rows)). rewrite <- Hr. apply surjective_pairing.
  - rewrite Hid. unfold u6. apply steps_one; [done| |done]. by vm_compute.
Defined.

Lemma outbox_rows_follow_the_lifecycle_witness :
  rtc dl_step (delivery u4 612%N) (delivery u5 612%N) /\ delivery_ok (delivery u5 612%N).
Proof.
  destruct (outbox_rows_follow_the_lifecycle u4 u5 612%N) as (_ & H1' & _ & H2' & _).
  - apply u4_reachable.
  - change u5 with (perform (AClaim "worker-1" 10 0 5000000 (fun _ => false)) u4). by apply steps_one.
  - apply list_elem_of_In. vm_compute. tauto.
  - exact (conj H1' H2').
Defined.

Lemma outbox_marks_have_three_outcomes_witness :
  exists p', Service_MarkOutboxPublished 612%N "worker-1" 0 7000000 7000000 u6 = (p', Ok tt).
Proof.
  destruct (outbox_marks_have_three_outcomes u6 612%N "worker-1" 0 7000000 7000000)
    as [(Hk & _)|[(_ & Hno & _)|(_ & _ & p' & Hp & _)]]; [by vm_compute|done|..].
  - exfalso. apply Hk, list_elem_of_In. vm_compute. tauto.
  - exfalso. apply Hno. by vm_compute.
  - exists p'. exact Hp.
Defined.
End UsageDemo.
