(* ===== verification/Json.v ===== *)
(** * [encoding/json]: the values the program decodes

    A value is what a valid text denotes: numbers keep their literal, strings are
    decoded, objects keep their fields in order with duplicates.  [parse] is the scanner
    of the library, one byte at a time over a stack of open containers; a field lookup
    is the one of a map (the last duplicate wins) or of a struct (names are folded). *)

From stdpp Require Import base gmap strings list.
From Stdlib Require Import ZArith Lia Ascii String.
From S2P Require Import Prelude GoLib.

Module Json.

#[warnings="-register-all"]
Inductive value :=
| VNull
| VBool (b : bool)
| VNumber (literal : string)
| VString (s : string)
| VArray (vs : list value)
| VObject (fields : list (string * value)).

(** ** Strings: [unquote]

    Escapes are decoded, an invalid surrogate or an invalid UTF-8 byte becomes U+FFFD. *)
Definition byte_of (z : Z) : ascii := ascii_of_N (Z.to_N z).
Definition between (a x b : Z) : bool := (a <=? x) && (x <=? b).

(** [utf8.EncodeRune]. *)
Definition encode_rune (r : Z) (t : string) : string :=
  if r <? 128 then String (byte_of r) t
  else if r <? 2048 then
    String (byte_of (192 + Z.shiftr r 6)) (String (byte_of (128 + Z.land r 63)) t)
  else if r <? 65536 then
    String (byte_of (224 + Z.shiftr r 12)) (String (byte_of (128 + Z.land (Z.shiftr r 6) 63))
      (String (byte_of (128 + Z.land r 63)) t))
  else
    String (byte_of (240 + Z.shiftr r 18)) (String (byte_of (128 + Z.land (Z.shiftr r 12) 63))
      (String (byte_of (128 + Z.land (Z.shiftr r 6) 63)) (String (byte_of (128 + Z.land r 63)) t))).

Definition replacement : Z := 65533.

(** The sequences [utf8.DecodeRune] accepts. *)
Definition continuation (c : ascii) : bool := between 128 (code c) 191.
Definition utf8_two (a b : ascii) : bool := between 194 (code a) 223 && continuation b.
Definition utf8_three (a b c : ascii) : bool :=
  let x := code a in let y := code b in
  ((x =? 224) && between 160 y 191 || (between 225 x 236 || between 238 x 239) && between 128 y 191
   || (x =? 237) && between 128 y 159) && continuation c.
Definition utf8_four (a b c d : ascii) : bool :=
  let x := code a in let y := code b in
  ((x =? 240) && between 144 y 191 || between 241 x 243 && between 128 y 191
   || (x =? 244) && between 128 y 143) && continuation c && continuation d.

Definition hex_digit (c : ascii) : option Z :=
  let x := code c in
  if between 48 x 57 then Some (x - 48)
  else if between 97 x 102 then Some (x - 87)
  else if between 65 x 70 then Some (x - 55) else None.
Definition hex4 (a b c d : ascii) : option Z :=
  match hex_digit a, hex_digit b, hex_digit c, hex_digit d with
  | Some w, Some x, Some y, Some z => Some (((w * 16 + x) * 16 + y) * 16 + z)
  | _, _, _, _ => None
  end.

(** [getu4] and [utf16.DecodeRune] of what follows a high surrogate. *)
Definition low_surrogate (high : Z) (s : string) : option (Z * string) :=
  match s with
  | String "092" (String "u" (String a (String b (String c (String d t))))) =>
      match hex4 a b c d with
      | Some low => if between 55296 high 56319 && between 56320 low 57343
                    then Some (65536 + (high - 55296) * 1024 + (low - 56320), t) else None
      | None => None
      end
  | _ => None
  end.

Definition simple_escape (c : ascii) : option Z :=
  let x := code c in
  if (x =? 34) || (x =? 92) || (x =? 47) then Some x
  else if x =? 98 then Some 8 else if x =? 102 then Some 12 else if x =? 110 then Some 10
  else if x =? 114 then Some 13 else if x =? 116 then Some 9 else None.

(** [fuel] is at least the number of bytes left: every turn consumes one. *)
Fixpoint unquote_go (fuel : nat) (s : string) : string :=
  match fuel with
  | O => ""
  | S fuel =>
      match s with
      | EmptyString => ""
      | String "092" (String "u" (String a (String b (String c (String d t))))) =>
          let r := default replacement (hex4 a b c d) in
          if between 55296 r 57343 then
            match low_surrogate r t with
            | Some (r2, t2) => encode_rune r2 (unquote_go fuel t2)
            | None => encode_rune replacement (unquote_go fuel t)
            end
          else encode_rune r (unquote_go fuel t)
      | String "092" (String e t) => encode_rune (default replacement (simple_escape e)) (unquote_go fuel t)
      | String a t =>
          if code a <? 128 then String a (unquote_go fuel t) else
          match t with
          | String b (String c (String d u)) =>
              if utf8_two a b then String a (String b (unquote_go fuel (String c (String d u))))
              else if utf8_three a b c then String a (String b (String c (unquote_go fuel (String d u))))
              else if utf8_four a b c d then String a (String b (String c (String d (unquote_go fuel u))))
              else encode_rune replacement (unquote_go fuel t)
          | String b (String c EmptyString) =>
              if utf8_two a b then String a (String b (unquote_go fuel (String c EmptyString)))
              else if utf8_three a b c then s else encode_rune replacement (unquote_go fuel t)
          | String b EmptyString => if utf8_two a b then s else encode_rune replacement (unquote_go fuel t)
          | EmptyString => encode_rune replacement ""
          end
      end
  end.
Definition unquote (raw : string) : string := unquote_go (String.length raw) raw.

(** ** The scanner *)
Inductive frame :=
| FArray (vs : list value)
| FField (fields : list (string * value)) (key : string).

(** What the digits of a number literal have reached. *)
Inductive phase := PMinus | PZero | PInt | PDot | PFrac | PExp | PExpSign | PExpDigits.

Inductive state :=
| SValue (K : list frame) (may_close : bool)
| SKey (fields : list (string * value)) (K : list frame) (may_close : bool)
| SString (acc : string) (hex : nat) (escaped : bool) (key : option (list (string * value))) (K : list frame)
| SColon (fields : list (string * value)) (key : string) (K : list frame)
| SLiteral (rest : string) (v : value) (K : list frame)
| SNumber (acc : string) (p : phase) (K : list frame)
| SAfter (v : value) (K : list frame).

Definition is_ws (c : ascii) : bool :=
  let x := code c in (x =? 32) || (x =? 9) || (x =? 10) || (x =? 13).
Definition is_hex (c : ascii) : bool := match hex_digit c with Some _ => true | None => false end.

Definition maxNestingDepth : nat := 10000.
Definition deep (K : list frame) : bool := (maxNestingDepth <=? Datatypes.length K)%nat.

Definition begin_value (K : list frame) (c : ascii) : option state :=
  if Ascii.eqb c "{" then (if deep K then None else Some (SKey [] K true))
  else if Ascii.eqb c "[" then (if deep K then None else Some (SValue (FArray [] :: K) true))
  else if (code c =? 34) then Some (SString "" 0 false None K)
  else if Ascii.eqb c "t" then Some (SLiteral "rue" (VBool true) K)
  else if Ascii.eqb c "f" then Some (SLiteral "alse" (VBool false) K)
  else if Ascii.eqb c "n" then Some (SLiteral "ull" VNull K)
  else if Ascii.eqb c "-" then Some (SNumber (String c "") PMinus K)
  else if Ascii.eqb c "0" then Some (SNumber (String c "") PZero K)
  else if is_digit c then Some (SNumber (String c "") PInt K)
  else None.

(** A byte after a complete value: [stateEndValue]. *)
Definition end_value (v : value) (K : list frame) (c : ascii) : option state :=
  if is_ws c then Some (SAfter v K) else
  match K with
  | [] => None
  | FArray vs :: K =>
      if Ascii.eqb c "," then Some (SValue (FArray (v :: vs) :: K) false)
      else if Ascii.eqb c "]" then Some (SAfter (VArray (rev (v :: vs))) K) else None
  | FField fields key :: K =>
      if Ascii.eqb c "," then Some (SKey ((key, v) :: fields) K false)
      else if Ascii.eqb c "}" then Some (SAfter (VObject (rev ((key, v) :: fields))) K) else None
  end.

Definition end_string (acc : string) (key : option (list (string * value))) (K : list frame) : state :=
  let s := unquote (srev acc) in
  match key with
  | Some fields => SColon fields s K
  | None => SAfter (VString s) K
  end.

Definition is_exp (c : ascii) : bool := Ascii.eqb c "e" || Ascii.eqb c "E".

Definition next_phase (p : phase) (c : ascii) : option phase :=
  match p with
  | PMinus => if Ascii.eqb c "0" then Some PZero else if is_digit c then Some PInt else None
  | PZero => if Ascii.eqb c "." then Some PDot else if is_exp c then Some PExp else None
  | PInt => if is_digit c then Some PInt else if Ascii.eqb c "." then Some PDot
            else if is_exp c then Some PExp else None
  | PDot => if is_digit c then Some PFrac else None
  | PFrac => if is_digit c then Some PFrac else if is_exp c then Some PExp else None
  | PExp => if is_digit c then Some PExpDigits
            else if Ascii.eqb c "+" || Ascii.eqb c "-" then Some PExpSign else None
  | PExpSign => if is_digit c then Some PExpDigits else None
  | PExpDigits => if is_digit c then Some PExpDigits else None
  end.
Definition accepting (p : phase) : bool :=
  match p with PZero | PInt | PFrac | PExpDigits => true | _ => false end.

Definition step (st : state) (c : ascii) : option state :=
  match st with
  | SValue K may_close =>
      if is_ws c then Some st
      else if may_close && Ascii.eqb c "]" then
        match K with FArray _ :: K => Some (SAfter (VArray []) K) | _ => None end
      else begin_value K c
  | SKey fields K may_close =>
      if is_ws c then Some st
      else if may_close && Ascii.eqb c "}" then Some (SAfter (VObject []) K)
      else if (code c =? 34) then Some (SString "" 0 false (Some fields) K) else None
  | SString acc (S hex) _ key K => if is_hex c then Some (SString (String c acc) hex false key K) else None
  | SString acc O true key K =>
      if Ascii.eqb c "u" then Some (SString (String c acc) 4 false key K)
      else match simple_escape c with
           | Some _ => Some (SString (String c acc) 0 false key K)
           | None => None
           end
  | SString acc O false key K =>
      if (code c =? 34) then Some (end_string acc key K)
      else if Ascii.eqb c "092" then Some (SString (String c acc) 0 true key K)
      else if code c <? 32 then None else Some (SString (String c acc) 0 false key K)
  | SColon fields key K =>
      if is_ws c then Some st
      else if Ascii.eqb c ":" then Some (SValue (FField fields key :: K) false) else None
  | SLiteral rest v K =>
      match rest with
      | String d EmptyString => if Ascii.eqb c d then Some (SAfter v K) else None
      | String d rest => if Ascii.eqb c d then Some (SLiteral rest v K) else None
      | EmptyString => None
      end
  | SNumber acc p K =>
      match next_phase p c with
      | Some p => Some (SNumber (String c acc) p K)
      | None => if accepting p then end_value (VNumber (srev acc)) K c else None
      end
  | SAfter v K => end_value v K c
  end.

Fixpoint run (st : state) (s : string) : option state :=
  match s with
  | EmptyString => Some st
  | String c t => match step st c with Some st => run st t | None => None end
  end.

(** [json.Unmarshal] of a whole text, with [None] where [json.Valid] is false. *)
Definition parse (s : string) : option value :=
  match run (SValue [] false) s with
  | Some (SAfter v []) => Some v
  | Some (SNumber acc p []) => if accepting p then Some (VNumber (srev acc)) else None
  | _ => None
  end.
Definition Valid (s : string) : bool := match parse s with Some _ => true | None => false end.

(** ** Fields *)
(** A map keeps the last of two fields with one name. *)
Definition last_field {A} (key : string) (fields : list (string * A)) : option A :=
  foldl (fun found kv => if String.eqb kv.1 key then Some kv.2 else found) None fields.

(** [foldName]: ASCII letters are upper-cased, and the two runes that fold to one. *)
Definition fold_byte (c : ascii) : ascii :=
  if is_lower c then ascii_of_N (N_of_ascii c - 32) else c.
Fixpoint fold_name (s : string) : string :=
  match s with
  | String a t =>
      match t with
      | String b u =>
          if (code a =? 197) && (code b =? 191) then String "S" (fold_name u) else
          match u with
          | String c v =>
              if (code a =? 226) && (code b =? 132) && (code c =? 170) then String "K" (fold_name v)
              else String (fold_byte a) (fold_name t)
          | EmptyString => String (fold_byte a) (fold_name t)
          end
      | EmptyString => String (fold_byte a) EmptyString
      end
  | EmptyString => EmptyString
  end.

(** The values a struct field with the JSON name [name] is given, in order. *)
Definition struct_values (name : string) (fields : list (string * value)) : list value :=
  snd <$> filter (fun kv => String.eqb (fold_name kv.1) (fold_name name) = true) fields.

(** A [json.RawMessage] field: the last value, JSON null included. *)
Definition raw_field (name : string) (fields : list (string * value)) : option value :=
  last (struct_values name fields).

(** ** Integers: [strconv.ParseInt(s, 10, 64)] of a decimal text. *)
Definition fits_i64 (n : Z) : bool := (min_int64 <=? n) && (n <=? max_int64).
Definition ParseInt64 (s : string) : option Z :=
  let '(negative, body) := match s with
    | String "+" t => (false, t) | String "-" t => (true, t) | _ => (false, s) end in
  match body with
  | EmptyString => None
  | _ => match digits_value 0 body with
         | Some n => let n := if negative : bool then - n else n in
                     if fits_i64 n then Some n else None
         | None => None
         end
  end.

(** [isValidNumber]. *)
Fixpoint number_run (p : phase) (s : string) : bool :=
  match s with
  | EmptyString => accepting p
  | String c t => match next_phase p c with Some p => number_run p t | None => false end
  end.
Definition isValidNumber (s : string) : bool :=
  match s with
  | EmptyString => false
  | String c t => if Ascii.eqb c "-" then number_run PMinus t
                  else if Ascii.eqb c "0" then number_run PZero t
                  else is_digit c && number_run PInt t
  end.
End Json.
