(* ===== verification/UsageExtract.v ===== *)
(** * Token counts of a provider response: [internal/usage/extract.go]

    A Go map is ranged over in an arbitrary order.  [MapOrder] is that order: each
    [range] statement executed has its own position (the path of the calls that led to
    it), so two loops over one map may run in two orders.  A decoded object is the list
    of its entries, one per key; a nil map is the empty list, no branch tells them
    apart. *)

From stdpp Require Import base gmap strings list.
From Stdlib Require Import ZArith Lia Ascii String.
From S2P Require Import Prelude GoLib Json Usage.
Import Json Usage.

Module UsageExtract.

Abbreviation object := (list (string * value)).

(** The order of a [range] over a map. *)
Class MapOrder := range : list nat -> object -> object.
Class MapOrderLaws (O : MapOrder) : Prop := range_perm : forall path object, @range O path object ≡ₚ object.

Definition normalizeKey (value : string) : string :=
  ReplaceByte "-" "_" (ToLower (TrimSpace value)).

(** ** Numbers *)
Definition parseNonNegativeInt (raw : value) : option Z :=
  let non_negative n := if 0 <=? n then Some n else None in
  match raw with
  | VNumber number => ParseInt64 number ≫= non_negative
  | VString text =>
      match (if isValidNumber text then ParseInt64 text ≫= non_negative else None) with
      | Some value => Some value
      | None => ParseInt64 (TrimSpace text) ≫= non_negative
      end
  | _ => None
  end.

(** ** The counters of [TokenUsage], named as the pointers [read] is given *)
Inductive field := FInput | FOutput | FCacheRead | FCacheWrite | FReasoning.
#[export] Instance field_eq_dec : EqDecision field.
Proof. solve_decision. Defined.

Definition count (f : field) (u : TokenUsage) : Z :=
  match f with
  | FInput => InputTokens u | FOutput => OutputTokens u | FCacheRead => CacheReadTokens u
  | FCacheWrite => CacheWriteTokens u | FReasoning => ReasoningTokens u
  end.
Definition set_count (f : field) (n : Z) (u : TokenUsage) : TokenUsage :=
  let pick g := if decide (f = g) then n else count g u in
  {| InputTokens := pick FInput; OutputTokens := pick FOutput; CacheReadTokens := pick FCacheRead;
     CacheWriteTokens := pick FCacheWrite; ReasoningTokens := pick FReasoning |}.

Definition index (f : field) : nat :=
  match f with FInput => 0 | FOutput => 1 | FCacheRead => 2 | FCacheWrite => 3 | FReasoning => 4 end.

(** [parsedUsage]. *)
Record parsedUsage := { p_value : TokenUsage; p_seen : list bool; p_invalid : bool }.
Definition parsed_zero : parsedUsage :=
  {| p_value := zero_usage; p_seen := [false; false; false; false; false]; p_invalid := false |}.
Definition found (f : field) (p : parsedUsage) : bool := nth (index f) (p_seen p) false.

(** What one entry that has a candidate's name does: nothing for [null]. *)
Definition read_entry (f : field) (raw : value) (p : parsedUsage) : parsedUsage :=
  match raw with
  | VNull => p
  | _ =>
      match parseNonNegativeInt raw with
      | Some n => {| p_value := set_count f n (p_value p);
                     p_seen := <[index f := true]> (p_seen p); p_invalid := p_invalid p |}
      | None => {| p_value := p_value p; p_seen := p_seen p; p_invalid := true |}
      end
  end.

Definition candidate (keys : list string) (kv : string * value) : bool :=
  mem (normalizeKey kv.1) (normalizeKey <$> keys).

(** The first entry with a candidate's name decides. *)
Definition first_candidate (keys : list string) (entries : object) : option value :=
  snd <$> head (filter (fun kv => candidate keys kv = true) entries).

Section extract.
Context `{MapOrder}.

Definition read (path : list nat) (f : field) (object : object) (keys : list string)
    (p : parsedUsage) : parsedUsage :=
  if found f p then p else
  match first_candidate keys (range path object) with
  | Some raw => read_entry f raw p
  | None => p
  end.

Definition input_keys : list string :=
  ["input_tokens"; "input_token_count"; "inputtokencount"; "prompt_tokens"; "prompt_token_count";
   "prompttokencount"; "inputtokens"; "prompttokens"].
Definition output_keys : list string :=
  ["output_tokens"; "output_token_count"; "outputtokencount"; "completion_tokens";
   "candidates_token_count"; "candidatestokencount"; "outputtokens"; "completiontokens"].
Definition cache_read_keys : list string :=
  ["cache_read_tokens"; "cache_read_input_tokens"; "cached_tokens"; "cached_token_count";
   "cachedcontenttokencount"; "cache_read_tokens_count"].
Definition cache_write_keys : list string :=
  ["cache_write_tokens"; "cache_creation_input_tokens"; "cache_creation_tokens";
   "cache_creation_input_token_count"].
Definition reasoning_keys : list string :=
  ["reasoning_tokens"; "thoughts_tokens"; "thoughts_token_count"; "thoughtstokencount";
   "reasoningtokens"; "thoughtstokens"].
Definition detail_cache_read_keys : list string :=
  ["cached_tokens"; "cache_read_tokens"; "cachedcontenttokencount"; "cache_read_input_tokens"].
Definition detail_cache_write_keys : list string :=
  ["cache_creation_input_tokens"; "cache_creation_tokens"; "cache_write_tokens"].
Definition detail_reasoning_keys : list string :=
  ["reasoning_tokens"; "thoughts_tokens"; "reasoningtokens"; "thoughtstokens"].
Definition details_names : list string :=
  ["prompt_tokens_details"; "input_tokens_details"; "completion_tokens_details";
   "output_tokens_details"; "input_token_details"; "cached_content"].

(** [json.Unmarshal(raw, &m)] for a [map[string]json.RawMessage]: JSON null gives a nil
    map, a value that is no object is an error, the last of two equal keys wins. *)
Definition decode_map (raw : value) : option object :=
  match raw with
  | VNull => Some []
  | VObject fields =>
      Some (foldl (fun (m : object) kv => if mem kv.1 m.*1
                               then (fun e => if String.eqb e.1 kv.1 then kv else e) <$> m
                               else (m ++ [kv])%list) [] fields)
  | _ => None
  end.

Definition read_details (path : list nat) (details : object) (p : parsedUsage) : parsedUsage :=
  let p := read (0%nat :: path) FCacheRead details detail_cache_read_keys p in
  let p := read (1%nat :: path) FCacheWrite details detail_cache_write_keys p in
  read (2%nat :: path) FReasoning details detail_reasoning_keys p.

(** The loop over the entries that carry details, at position [i] of its order. *)
Fixpoint details_loop (path : list nat) (i : nat) (entries : object) (p : parsedUsage) : parsedUsage :=
  match entries with
  | [] => p
  | kv :: entries =>
      let p := if mem (normalizeKey kv.1) details_names then
                 match decode_map kv.2 with
                 | Some details => read_details (i :: path) details p
                 | None => p
                 end
               else p in
      details_loop path (S i) entries p
  end.

Definition read_top (path : list nat) (object : object) (p : parsedUsage) : parsedUsage :=
  let p := read (0%nat :: path) FInput object input_keys p in
  let p := read (1%nat :: path) FOutput object output_keys p in
  let p := read (2%nat :: path) FCacheRead object cache_read_keys p in
  let p := read (3%nat :: path) FCacheWrite object cache_write_keys p in
  read (4%nat :: path) FReasoning object reasoning_keys p.

Definition parsed_result (p : parsedUsage) : option TokenUsage :=
  if p_invalid p then None
  else if negb (found FInput p) || negb (found FOutput p) then None
  else Some (p_value p).

Definition parseUsageObject (path : list nat) (object : object) : option TokenUsage :=
  parsed_result (details_loop (6%nat :: path) 0 (range (5%nat :: path) object)
                   (read_top path object parsed_zero)).

(** ** The search *)
Definition usage_names : list string :=
  ["usage"; "usagemetadata"; "usage_metadata"; "tokencounts"; "token_counts"].

Definition usage_entry (path : list nat) (kv : string * value) : option TokenUsage :=
  if mem (normalizeKey kv.1) usage_names
  then decode_map kv.2 ≫= parseUsageObject path else None.

(** The first [Some] of a loop whose turn [i] has the path [i :: path]. *)
Fixpoint first_of (turn : list nat -> string * value -> option TokenUsage) (path : list nat)
    (i : nat) (entries : object) : option TokenUsage :=
  match entries with
  | [] => None
  | kv :: entries =>
      match turn (i :: path) kv with
      | Some u => Some u
      | None => first_of turn path (S i) entries
      end
  end.

(** [levels] is [5 - depth]: the search stops at depth 5. *)
Fixpoint findUsage (levels : nat) (path : list nat) (object : object) : option TokenUsage :=
  match levels with
  | O => None
  | S levels =>
      match first_of usage_entry (0%nat :: path) 0 (range (1%nat :: path) object) with
      | Some u => Some u
      | None =>
          first_of (fun path kv =>
              match decode_map kv.2 with
              | Some ((_ :: _) as nested) => findUsage levels path nested
              | _ => None
              end) (2%nat :: path) 0 (range (3%nat :: path) object)
      end
  end.

Definition ExtractJSON (path : list nat) (payload : string) : option TokenUsage :=
  let payload := TrimSpace payload in
  if String.eqb payload "" then None else
  (parse payload ≫= decode_map) ≫= findUsage 5 path.

(** ** The accumulator *)
Record Accumulator := { latest : TokenUsage; seen : bool }.
Definition accumulator_zero : Accumulator := {| latest := zero_usage; seen := false |}.
Definition observed_usage (u : TokenUsage) : Accumulator := {| latest := u; seen := true |}.

(** The JSON text of one line, if it has one. *)
Definition usage_line (line : string) : option string :=
  let line := TrimSpace line in
  if String.eqb line "" || HasPrefix line "event:" || String.eqb line "[DONE]" then None else
  let line := if HasPrefix line "data:" then TrimSpace (TrimPrefix line "data:") else line in
  if String.eqb line "" || String.eqb line "[DONE]" then None else Some line.

Fixpoint observe_lines (path : list nat) (i : nat) (lines : list string) (a : Accumulator)
    (observed : bool) : Accumulator * bool :=
  match lines with
  | [] => (a, observed)
  | line :: lines =>
      match usage_line line ≫= ExtractJSON (i :: path) with
      | Some u => observe_lines path (S i) lines (observed_usage u) true
      | None => observe_lines path (S i) lines a observed
      end
  end.

Definition Observe (path : list nat) (payload : string) (a : Accumulator) : Accumulator :=
  if String.eqb payload "" then a else
  let '(a, observed) :=
    observe_lines (0%nat :: path) 0 (SplitByte "010" (DropByte "013" payload)) a false in
  if observed then a else
  match ExtractJSON (1%nat :: path) payload with
  | Some u => observed_usage u
  | None => a
  end.

Definition Value (a : Accumulator) : option TokenUsage := if seen a then Some (latest a) else None.
End extract.
End UsageExtract.

(** * What a parse of token counts depends on

    [parseUsageObject] applies one entry per candidate group; its result is a function
    of the values each counter is offered, in order ([counter_run]).  When no counter is
    named twice ([unambiguous]) these values do not depend on the order of the maps. *)

From stdpp Require Import base gmap strings list.
From Stdlib Require Import ZArith Lia Ascii String.
From S2P Require Import Prelude GoLib Json Usage.
Import Json Usage UsageExtract.

Module UsageExtractFacts.

#[local] Open Scope list_scope.
Abbreviation object := (list (string * value)).

Definition fields : list field := [FInput; FOutput; FCacheRead; FCacheWrite; FReasoning].
Definition top_keys (f : field) : list string :=
  match f with
  | FInput => input_keys | FOutput => output_keys | FCacheRead => cache_read_keys
  | FCacheWrite => cache_write_keys | FReasoning => reasoning_keys
  end.
Definition detail_keys (f : field) : list string :=
  match f with
  | FInput => [] | FOutput => [] | FCacheRead => detail_cache_read_keys
  | FCacheWrite => detail_cache_write_keys | FReasoning => detail_reasoning_keys
  end.

(** The details an entry carries. *)
Definition details_of (kv : string * value) : option object :=
  if mem (normalizeKey kv.1) details_names then decode_map kv.2 else None.

Definition candidates (keys : list string) (entries : object) : object :=
  filter (fun kv => candidate keys kv = true) entries.

(** No counter is named twice, at the top or in the details. *)
Definition unambiguous (entries : object) : Prop :=
  forall f, (Datatypes.length (candidates (top_keys f) entries) <= 1)%nat
            /\ (Datatypes.length (omap details_of entries ≫= candidates (detail_keys f)) <= 1)%nat.

(** The values a counter is offered: the top-level entry, then the details. *)
Definition offered (f : field) (entries : object) : list value :=
  option_list (first_candidate (top_keys f) entries)
  ++ omap (first_candidate (detail_keys f)) (omap details_of entries).

(** ** The reference: the first value that is not null decides *)
Definition is_null (v : value) : bool := match v with VNull => true | _ => false end.
Definition reported (f : field) (entries : object) : option value :=
  head (filter (fun v => is_null v = false) (offered f entries)).

Definition well_reported (f : field) (entries : object) : bool :=
  match reported f entries with
  | Some raw => match parseNonNegativeInt raw with Some _ => true | None => false end
  | None => true
  end.
Definition reported_count (f : field) (entries : object) : option Z :=
  reported f entries ≫= parseNonNegativeInt.

Definition reference (entries : object) : option TokenUsage :=
  if negb (forallb (fun f => well_reported f entries) fields) then None else
  match reported_count FInput entries, reported_count FOutput entries with
  | Some input, Some output =>
      Some {| InputTokens := input; OutputTokens := output;
              CacheReadTokens := default 0 (reported_count FCacheRead entries);
              CacheWriteTokens := default 0 (reported_count FCacheWrite entries);
              ReasoningTokens := default 0 (reported_count FReasoning entries) |}
  | _, _ => None
  end.

(** ** One counter over the values it is offered *)
Fixpoint counter_run (l : list value) : option Z * bool :=
  match l with
  | [] => (None, false)
  | VNull :: l => counter_run l
  | raw :: l =>
      match parseNonNegativeInt raw with
      | Some n => (Some n, false)
      | None => ((counter_run l).1, true)
      end
  end.

(** ** The parse as a sequence of acts *)
Definition act (a : field * value) (p : parsedUsage) : parsedUsage :=
  if found a.1 p then p else read_entry a.1 a.2 p.
Definition acts (l : list (field * value)) (p : parsedUsage) : parsedUsage :=
  foldl (fun p a => act a p) p l.
Definition values_of (f : field) (l : list (field * value)) : list value :=
  snd <$> filter (fun a => a.1 = f) l.

Lemma acts_app l1 l2 p : acts (l1 ++ l2) p = acts l2 (acts l1 p).
Proof. unfold acts. by rewrite foldl_app. Qed.

Definition shaped (p : parsedUsage) : Prop := Datatypes.length (p_seen p) = 5%nat.

Lemma shaped_read f raw p : shaped p -> shaped (read_entry f raw p).
Proof. unfold shaped, read_entry. intros. repeat case_match; cbn; rewrite ?length_insert; done. Qed.

Lemma found_insert f g (l : list bool) :
  Datatypes.length l = 5%nat ->
  nth (index g) (<[index f := true]> l) false = if decide (f = g) then true else nth (index g) l false.
Proof.
  intros Hl. destruct l as [|? [|? [|? [|? [|? [|? ?]]]]]]; try done.
  destruct f, g; reflexivity.
Qed.

Lemma count_set f g n u : count g (set_count f n u) = if decide (f = g) then n else count g u.
Proof. by destruct f, g. Qed.

(** What a later part [l] of the acts adds to a counter of [p]. *)
Definition after (f : field) (l : list value) (p : parsedUsage) : bool * Z * bool :=
  if found f p then (true, count f (p_value p), false)
  else match counter_run l with
       | (Some n, bad) => (true, n, bad)
       | (None, bad) => (false, count f (p_value p), bad)
       end.

Lemma values_of_cons f a l :
  values_of f (a :: l) = if decide (a.1 = f) then a.2 :: values_of f l else values_of f l.
Proof. unfold values_of. rewrite filter_cons. by destruct (decide _). Qed.

Lemma read_entry_cases f raw p :
  shaped p -> found f p = false ->
  raw = VNull /\ read_entry f raw p = p
  \/ raw <> VNull /\ (exists n, parseNonNegativeInt raw = Some n
        /\ found f (read_entry f raw p) = true /\ count f (p_value (read_entry f raw p)) = n
        /\ p_invalid (read_entry f raw p) = p_invalid p)
  \/ raw <> VNull /\ parseNonNegativeInt raw = None /\ p_value (read_entry f raw p) = p_value p
     /\ p_seen (read_entry f raw p) = p_seen p /\ p_invalid (read_entry f raw p) = true.
Proof.
  intros Hs Hf. unfold read_entry.
  destruct (parseNonNegativeInt raw) as [n|] eqn:E.
  - right. left. destruct raw; try discriminate E;
      (split; [done|]; exists n; unfold found; cbn; rewrite found_insert, count_set by done;
       by rewrite !decide_True by done).
  - destruct raw; [by left|..]; right; right; split_and!; done.
Qed.

Lemma read_entry_other f g raw p :
  shaped p -> f <> g ->
  found g (read_entry f raw p) = found g p
  /\ count g (p_value (read_entry f raw p)) = count g (p_value p).
Proof.
  intros Hs Hne. unfold read_entry, found.
  repeat case_match; cbn; rewrite ?found_insert, ?count_set, ?decide_False by done; done.
Qed.

Lemma counter_run_cons raw l :
  counter_run (raw :: l) =
  if is_null raw then counter_run l
  else match parseNonNegativeInt raw with
       | Some n => (Some n, false) | None => ((counter_run l).1, true) end.
Proof. by destruct raw. Qed.

Lemma is_null_true raw : is_null raw = true <-> raw = VNull.
Proof. by destruct raw. Qed.

(** One act, seen from a counter. *)
Lemma after_other f g raw l p :
  shaped p -> f <> g -> after f (values_of f l) (act (g, raw) p) = after f (values_of f ((g, raw) :: l)) p.
Proof.
  intros Hs Hne. rewrite values_of_cons. cbn. rewrite decide_False by congruence.
  unfold act. cbn. destruct (found g p); [done|].
  destruct (read_entry_other g f raw p Hs) as [E1 E2]; [congruence|].
  unfold after. by rewrite E1, E2.
Qed.

Lemma after_same g raw l p :
  shaped p ->
  (after g (values_of g l) (act (g, raw) p)).1 = (after g (values_of g ((g, raw) :: l)) p).1
  /\ (p_invalid (act (g, raw) p) || (after g (values_of g l) (act (g, raw) p)).2
      = p_invalid p || (after g (values_of g ((g, raw) :: l)) p).2).
Proof.
  intros Hs. rewrite values_of_cons. cbn [fst snd]. rewrite decide_True by done.
  unfold act. cbn [fst snd]. destruct (found g p) eqn:Ef.
  { unfold after. by rewrite Ef. }
  destruct (read_entry_cases g raw p Hs Ef)
    as [[-> ->]|[(Hn & n & En & E1 & E2 & E3)|(Hn & En & E1 & E2 & E3)]].
  - done.
  - unfold after. rewrite E1, Ef, counter_run_cons, En, E2, E3.
    destruct (is_null raw) eqn:Enull; [by apply is_null_true in Enull|]. done.
  - unfold after. rewrite counter_run_cons, En, E1, E3.
    assert (found g (read_entry g raw p) = false) as -> by (unfold found in *; by rewrite E2).
    rewrite Ef. destruct (is_null raw) eqn:Enull; [by apply is_null_true in Enull|].
    destruct (counter_run (values_of g l)) as [[?|] ?]; cbn; by rewrite ?orb_true_r.
Qed.

(** The acts reach, for each counter, what its own values say; an invalid value of any
    counter is kept. *)
Lemma acts_spec l p :
  shaped p ->
  (forall f, found f (acts l p) = (after f (values_of f l) p).1.1
             /\ count f (p_value (acts l p)) = (after f (values_of f l) p).1.2)
  /\ (p_invalid (acts l p) = true
      <-> p_invalid p = true \/ exists f, (after f (values_of f l) p).2 = true).
Proof.
  revert p. induction l as [|[g raw] l IH]; intros p Hs.
  { unfold after. cbn. split; [intros f; by destruct (found f p)|].
    split; [by left|]. intros [?|[f Hf]]; [done|]. by destruct (found f p). }
  change (acts ((g, raw) :: l) p) with (acts l (act (g, raw) p)).
  assert (shaped (act (g, raw) p)) as Hs'.
  { unfold act. case_match; [done|]. by apply shaped_read. }
  destruct (after_same g raw l p Hs) as [E1 E2]. destruct (IH _ Hs') as [H1 H2]. split.
  - intros f. destruct (H1 f) as [-> ->]. destruct (decide (f = g)) as [->|Hne]; [by rewrite E1|].
    by rewrite after_other.
  - rewrite H2. clear H1 H2. apply (f_equal (eq true)) in E2.
    assert (p_invalid (act (g, raw) p) = true \/ (after g (values_of g l) (act (g, raw) p)).2 = true
      <-> p_invalid p = true \/ (after g (values_of g ((g, raw) :: l)) p).2 = true) as E3.
    { rewrite <- !orb_true_iff. split; intros E; symmetry; [rewrite <- E2|rewrite E2]; done. }
    split.
    + intros [Hi|[f Hf]].
      * destruct E3 as [[?|?] _]; [by left|by left|by eauto].
      * destruct (decide (f = g)) as [->|Hne]; [destruct E3 as [[?|?] _]; eauto|].
        rewrite after_other in Hf by done. eauto.
    + intros [Hi|[f Hf]].
      * destruct E3 as [_ [?|?]]; [by left|by left|by eauto].
      * destruct (decide (f = g)) as [->|Hne]; [destruct E3 as [_ [?|?]]; eauto|].
        right. exists f. by rewrite after_other.
Qed.

(** ** The acts of a parse *)
Section order.
Context `{O : MapOrder}.

Definition detail_index (f : field) : nat :=
  match f with FCacheRead => 0 | FCacheWrite => 1 | _ => 2 end.

(** The values the loop over the details offers a counter. *)
Fixpoint detail_values (f : field) (path : list nat) (i : nat) (entries : object) : list value :=
  match entries with
  | [] => []
  | kv :: entries =>
      match details_of kv with
      | Some details =>
          option_list (first_candidate (detail_keys f) (range (detail_index f :: i :: path) details))
      | None => []
      end ++ detail_values f path (S i) entries
  end.

Definition chosen (f : field) (path : list nat) (keys : list string) (entries : object)
    : list (field * value) := pair f <$> option_list (first_candidate keys (range path entries)).

Lemma read_acts path f entries keys p :
  read path f entries keys p = acts (chosen f path keys entries) p.
Proof.
  unfold read, chosen, acts. destruct (first_candidate _ _) as [raw|]; cbn; [done|]. by case_match.
Qed.

Lemma values_of_app f l1 l2 : values_of f (l1 ++ l2) = values_of f l1 ++ values_of f l2.
Proof. unfold values_of. by rewrite filter_app, fmap_app. Qed.

Lemma values_of_chosen f g path keys entries :
  values_of f (chosen g path keys entries)
  = if decide (g = f) then option_list (first_candidate keys (range path entries)) else [].
Proof.
  unfold chosen. destruct (first_candidate _ _) as [raw|].
  - change (pair g <$> option_list (Some raw)) with [(g, raw)]. rewrite values_of_cons. cbn.
    by destruct (decide (g = f)).
  - by destruct (decide (g = f)).
Qed.

Lemma first_candidate_no_keys entries : first_candidate [] entries = None.
Proof. unfold first_candidate. by induction entries as [|kv entries IH]. Qed.

Lemma details_acts path i entries p :
  exists l, details_loop path i entries p = acts l p
            /\ forall f, values_of f l = detail_values f path i entries.
Proof.
  revert i p. induction entries as [|kv entries IH]; intros i p; [by exists []|].
  cbn [details_loop detail_values].
  assert (exists l0, (if mem (normalizeKey kv.1) details_names then
                        match decode_map kv.2 with
                        | Some details => read_details (i :: path) details p | None => p end
                      else p) = acts l0 p
          /\ forall f, values_of f l0 = match details_of kv with
              | Some details => option_list (first_candidate (detail_keys f)
                                  (range (detail_index f :: i :: path) details))
              | None => [] end) as (l0 & -> & H0).
  { unfold details_of. destruct (mem _ _); [|by exists []].
    destruct (decode_map kv.2) as [d|]; [|by exists []].
    unfold read_details. rewrite !read_acts, <- !acts_app. eexists. split; [done|].
    intros f. rewrite !values_of_app, !values_of_chosen.
    destruct f; cbn -[first_candidate]; rewrite ?first_candidate_no_keys, ?app_nil_r; done. }
  destruct (IH (S i) (acts l0 p)) as (l & -> & H1).
  exists (l0 ++ l). rewrite acts_app. split; [done|]. intros f. by rewrite values_of_app, H0, H1.
Qed.

(** The values a counter is offered under this order. *)
Definition offers (f : field) (path : list nat) (entries : object) : list value :=
  option_list (first_candidate (top_keys f) (range (index f :: path) entries))
  ++ detail_values f (6%nat :: path) 0 (range (5%nat :: path) entries).

Lemma parse_acts path entries :
  exists l, parseUsageObject path entries = parsed_result (acts l parsed_zero)
            /\ forall f, values_of f l = offers f path entries.
Proof.
  unfold parseUsageObject, read_top. rewrite !read_acts, <- !acts_app.
  edestruct details_acts as (l & -> & Hl). rewrite <- acts_app. eexists. split; [done|].
  intros f. unfold offers. rewrite !values_of_app, !values_of_chosen, Hl.
  destruct f; cbn -[first_candidate range]; rewrite ?app_nil_r; done.
Qed.

(** A parse from the values each counter is offered. *)
Lemma parse_counters path entries :
  parseUsageObject path entries =
  (if existsb (fun f => (counter_run (offers f path entries)).2) fields then None else
   match (counter_run (offers FInput path entries)).1, (counter_run (offers FOutput path entries)).1 with
   | Some input, Some output =>
       Some {| InputTokens := input; OutputTokens := output;
               CacheReadTokens := default 0 (counter_run (offers FCacheRead path entries)).1;
               CacheWriteTokens := default 0 (counter_run (offers FCacheWrite path entries)).1;
               ReasoningTokens := default 0 (counter_run (offers FReasoning path entries)).1 |}
   | _, _ => None
   end).
Proof.
  destruct (parse_acts path entries) as (l & -> & Hl).
  destruct (acts_spec l parsed_zero) as [H1 H2]; [done|].
  assert (forall f, after f (values_of f l) parsed_zero =
            match counter_run (offers f path entries) with
            | (Some n, bad) => (true, n, bad) | (None, bad) => (false, 0, bad) end) as Ha.
  { intros f. unfold after. rewrite Hl. by destruct f. }
  unfold parsed_result.
  assert (p_invalid (acts l parsed_zero)
          = existsb (fun f => (counter_run (offers f path entries)).2) fields) as ->.
  { apply Bool.eq_iff_eq_true. rewrite H2, existsb_exists. split.
    - intros [?|[f Hf]]; [done|]. exists f. split; [destruct f; cbn; tauto|].
      rewrite Ha in Hf. by destruct (counter_run _) as [[?|] ?].
    - intros (f & _ & Hf). right. exists f. rewrite Ha. by destruct (counter_run _) as [[?|] ?]. }
  destruct (existsb _ _); [done|].
  destruct (H1 FInput) as [-> Hi], (H1 FOutput) as [-> Ho], (H1 FCacheRead) as [_ Hr],
    (H1 FCacheWrite) as [_ Hw], (H1 FReasoning) as [_ Hz].
  rewrite !Ha in *.
  destruct (counter_run (offers FInput path entries)) as [[?|] ?]; [|done].
  destruct (counter_run (offers FOutput path entries)) as [[?|] ?]; [|done]. cbn in *. f_equal.
  destruct (p_value (acts l parsed_zero)); cbn in *; subst.
  destruct (counter_run (offers FCacheRead _ _)) as [[?|] ?], (counter_run (offers FCacheWrite _ _)) as [[?|] ?],
    (counter_run (offers FReasoning _ _)) as [[?|] ?]; done.
Qed.
End order.

(** ** Unambiguous objects *)
Lemma perm_short {A} (l1 l2 : list A) : l1 ≡ₚ l2 -> (Datatypes.length l2 <= 1)%nat -> l1 = l2.
Proof.
  intros Hp Hl. destruct l2 as [|x [|y l2]]; cbn in Hl; [..|lia].
  - by apply Permutation_nil_r.
  - by apply Permutation_singleton_r.
Qed.

Lemma omap_perm {A B} (f : A -> option B) l1 l2 : l1 ≡ₚ l2 -> omap f l1 ≡ₚ omap f l2.
Proof. intros Hp. by apply omap_Permutation. Qed.

(** With one candidate in all the details, the first of each is all there is. *)
Lemma first_of_details keys (ds : list object) :
  (Datatypes.length (ds ≫= candidates keys) <= 1)%nat ->
  omap (first_candidate keys) ds = snd <$> (ds ≫= candidates keys).
Proof.
  induction ds as [|d ds IH]; [done|]. cbn. rewrite length_app. intros Hl. rewrite IH by lia.
  unfold first_candidate. change (filter _ d) with (candidates keys d).
  destruct (candidates keys d) as [|kv [|kv2 l]]; cbn in *; [done..|lia].
Qed.

Section laws.
Context `{O : MapOrder} `{!MapOrderLaws O}.

Lemma first_candidate_range keys path entries :
  (Datatypes.length (candidates keys entries) <= 1)%nat ->
  first_candidate keys (range path entries) = first_candidate keys entries.
Proof.
  intros Hl. unfold first_candidate. f_equal. f_equal. apply perm_short; [|done].
  apply filter_Permutation, range_perm.
Qed.

Lemma detail_values_eq f path i entries :
  (Datatypes.length (omap details_of entries ≫= candidates (detail_keys f)) <= 1)%nat ->
  detail_values f path i entries = omap (first_candidate (detail_keys f)) (omap details_of entries).
Proof.
  revert i. induction entries as [|kv entries IH]; intros i; [done|]. cbn [detail_values omap list_omap].
  destruct (details_of kv) as [d|] eqn:Ed; [|by intros; apply IH].
  cbn. rewrite length_app. intros Hl. rewrite IH by lia.
  rewrite first_candidate_range by lia. by destruct (first_candidate _ d).
Qed.

Lemma offers_eq f path entries :
  unambiguous entries -> offers f path entries = offered f entries.
Proof.
  intros Hu. destruct (Hu f) as [H1 H2]. unfold offers, offered.
  rewrite first_candidate_range by done. f_equal.
  assert (range (5%nat :: path) entries ≡ₚ entries) as Hp by apply range_perm.
  assert (omap details_of (range (5%nat :: path) entries) ≫= candidates (detail_keys f)
          ≡ₚ omap details_of entries ≫= candidates (detail_keys f)) as Hp2.
  { by rewrite (omap_perm details_of _ _ Hp). }
  rewrite detail_values_eq by (by rewrite Hp2).
  rewrite !first_of_details by (by rewrite ?Hp2). f_equal. by apply perm_short.
Qed.
End laws.

Lemma offered_short f entries : unambiguous entries -> (Datatypes.length (offered f entries) <= 2)%nat.
Proof.
  intros Hu. destruct (Hu f) as [_ H2]. unfold offered. rewrite length_app.
  rewrite first_of_details, length_fmap by done.
  destruct (first_candidate _ _); cbn; lia.
Qed.
End UsageExtractFacts.
