(* ===== verification/UsageExtractTheorems.v ===== *)
(** * Properties of the extraction of token counts

    The search meets every usage object of the first five levels; an answer is always
    made of counts the document states, and it does not depend on the order of Go's maps
    when the document names each counter once.  When it names one twice, it does. *)

From stdpp Require Import base gmap strings list.
From Stdlib Require Import ZArith Lia Ascii String.
From S2P Require Import Prelude GoLib Json Usage UsageExtract.
Import Json Usage UsageExtract UsageExtractFacts.

Module UsageExtractTheorems.
#[local] Open Scope list_scope.
#[local] Arguments mem : simpl never.
#[local] Arguments normalizeKey : simpl never.
#[local] Arguments usage_names : simpl never.

(** The objects under a usage name in the first [levels] levels of a document. *)
Fixpoint usage_sites (levels : nat) (entries : list (string * value)) : list (list (string * value)) :=
  match levels with
  | O => []
  | S levels =>
      omap (fun kv => if mem (normalizeKey kv.1) usage_names then decode_map kv.2 else None) entries
      ++ (omap (fun kv => decode_map kv.2) entries ≫= usage_sites levels)
  end.

(** An entry that states a counter, with its value. *)
Definition states (f : field) (n : Z) (site : list (string * value)) : Prop :=
  exists key raw, (key, raw) ∈ site /\ mem (normalizeKey key) (normalizeKey <$> top_keys f) = true
                  /\ parseNonNegativeInt raw = Some n.

(** ** Numbers *)
Lemma ParseInt64_range s n : ParseInt64 s = Some n -> in_i64 n.
Proof.
  unfold ParseInt64, fits_i64. intros Hp.
  destruct (match s with String "+" t => _ | String "-" t => _ | _ => _ end) as [neg body].
  destruct body; [done|]. destruct (digits_value _ _); [|done].
  destruct (_ && _) eqn:E; [|done]. injection Hp as <-. bools. by split.
Qed.

Lemma parseNonNegativeInt_range raw n : parseNonNegativeInt raw = Some n -> nat_i64 n.
Proof.
  assert (forall s, ParseInt64 s ≫= (fun n => if 0 <=? n then Some n else None) = Some n -> nat_i64 n) as H.
  { intros s Hs. apply bind_Some in Hs as (m & Hm%ParseInt64_range & Hn).
    destruct (0 <=? m) eqn:E; [|done]. injection Hn as <-. bools. unfold in_i64, nat_i64 in *. lia. }
  destruct raw; simpl; try done; [by apply H|]. destruct (isValidNumber s); [|by apply H].
  destruct (ParseInt64 s ≫= _) eqn:E; [|by apply H]. intros [= ->]. by eapply H.
Qed.

(** ** One counter *)
Lemma counter_run_head l :
  (counter_run l).2 = match head (filter (fun v => is_null v = false) l) with
                      | Some raw => match parseNonNegativeInt raw with Some _ => false | None => true end
                      | None => false end
  /\ ((counter_run l).2 = false ->
      (counter_run l).1 = head (filter (fun v => is_null v = false) l) ≫= parseNonNegativeInt).
Proof.
  induction l as [|raw l [IH1 IH2]]; [done|]. rewrite counter_run_cons, filter_cons.
  destruct (is_null raw); cbn [decide].
  - by rewrite decide_False by done.
  - rewrite decide_True by done. cbn. by destruct (parseNonNegativeInt raw).
Qed.

Lemma counter_run_in l n : (counter_run l).1 = Some n -> exists raw, raw ∈ l /\ parseNonNegativeInt raw = Some n.
Proof.
  induction l as [|raw l IH]; [done|]. rewrite counter_run_cons.
  destruct (is_null raw); [intros (r & ? & ?)%IH; exists r; split; [by right|done]|].
  destruct (parseNonNegativeInt raw) as [m|] eqn:E; cbn.
  - intros [= ->]. exists raw. split; [by left|done].
  - intros (r & ? & ?)%IH. exists r. split; [by right|done].
Qed.

Section order.
Context `{O : MapOrder} `{!MapOrderLaws O}.

(** ** One usage object *)
Lemma parse_is_reference path entries :
  unambiguous entries -> parseUsageObject path entries = reference entries.
Proof.
  intros Hu. rewrite parse_counters. cbn [existsb fields]. rewrite !offers_eq by done. unfold reference.
  change (_ || _) with (existsb (fun f => (counter_run (offered f entries)).2) fields).
  assert (existsb (fun f => (counter_run (offered f entries)).2) fields
          = negb (forallb (fun f => well_reported f entries) fields)) as E.
  { unfold well_reported, reported. cbn [existsb forallb fields].
    rewrite !(proj1 (counter_run_head _)). repeat case_match; done. }
  rewrite E. destruct (negb _) eqn:Hbad; [done|].
  assert (forall f, (counter_run (offered f entries)).2 = false) as Hgood.
  { intros f. destruct ((counter_run (offered f entries)).2) eqn:Ef; [|done].
    rewrite <- E. symmetry. apply existsb_exists. exists f. split; [destruct f; cbn; tauto|done]. }
  rewrite !(proj2 (counter_run_head _)) by apply Hgood. done.
Qed.

Lemma parse_sound path entries u :
  parseUsageObject path entries = Some u ->
  usage_ok u /\ states FInput (InputTokens u) entries /\ states FOutput (OutputTokens u) entries.
Proof.
  rewrite parse_counters. destruct (existsb _ _); [done|].
  destruct (counter_run (offers FInput path entries)).1 as [i|] eqn:Ei; [|done].
  destruct (counter_run (offers FOutput path entries)).1 as [o|] eqn:Eo; [|done].
  intros [= <-].
  assert (forall f, nat_i64 (default 0 (counter_run (offers f path entries)).1)) as Hr.
  { intros f. destruct (counter_run (offers f path entries)).1 as [n|] eqn:En; [change (nat_i64 n)|change (nat_i64 0); unfold nat_i64, max_int64; lia].
    apply counter_run_in in En as (raw & _ & Hn). by apply parseNonNegativeInt_range in Hn. }
  assert (forall f n, detail_keys f = [] -> (counter_run (offers f path entries)).1 = Some n ->
                      states f n entries) as Hs.
  { intros f n Hf (raw & Hin & Hn)%counter_run_in. unfold offers in Hin.
    assert (forall p k es, detail_values f p k es = []) as Hd.
    { intros p k es. revert k. induction es as [|kv es IH]; intros k; [done|]. cbn.
      rewrite IH, app_nil_r. destruct (details_of kv); [|done]. by rewrite Hf, first_candidate_no_keys. }
    rewrite Hd, app_nil_r in Hin. unfold first_candidate in Hin.
    destruct (filter _ _) as [|[key v] l] eqn:Ef; [by apply elem_of_nil in Hin|].
    apply list_elem_of_singleton in Hin. cbn in Hin. subst raw.
    assert ((key, v) ∈ (key, v) :: l) as Hin by left. rewrite <- Ef in Hin.
    apply list_elem_of_filter in Hin as [Hc Hin]. rewrite range_perm in Hin.
    exists key, v. split_and!; [done..]. }
  split_and!; [|by apply Hs..].
  unfold usage_ok. cbn. pose proof (Hr FInput) as H1. pose proof (Hr FOutput) as H2.
  rewrite Ei in H1. rewrite Eo in H2. split_and!; [done..|apply Hr|apply Hr|apply Hr].
Qed.

(** ** The search *)
Lemma first_of_Some turn path i entries u :
  first_of turn path i entries = Some u -> exists j kv, kv ∈ entries /\ turn (j :: path) kv = Some u.
Proof.
  revert i. induction entries as [|kv entries IH]; intros i; [done|]. cbn.
  destruct (turn (i :: path) kv) eqn:E.
  - intros [= ->]. exists i, kv. split; [by left|done].
  - intros (j & kv' & ? & ?)%IH. exists j, kv'. split; [by right|done].
Qed.

Lemma first_of_None turn path i entries :
  first_of turn path i entries = None -> forall kv, kv ∈ entries -> exists j, turn (j :: path) kv = None.
Proof.
  revert i. induction entries as [|kv entries IH]; intros i; [by intros _ ? ?%elem_of_nil|]. cbn.
  destruct (turn (i :: path) kv) eqn:E; [done|].
  intros Hn kv' [->|Hin]%elem_of_cons; [by exists i|]. by eapply IH.
Qed.

Lemma search_sound levels path entries u :
  findUsage levels path entries = Some u ->
  exists site p, site ∈ usage_sites levels entries /\ parseUsageObject p site = Some u.
Proof.
  revert path entries u. induction levels as [|levels IH]; intros path entries u; [done|]. cbn.
  destruct (first_of usage_entry _ _ _) eqn:E; [intros [= ->]|clear E; intros E];
    apply first_of_Some in E as (j & kv & Hin & Hu); rewrite range_perm in Hin.
  - unfold usage_entry in Hu. destruct (mem _ _) eqn:Em; [|done].
    apply bind_Some in Hu as (site & Hd & Hp). exists site. eexists. split; [|done].
    apply elem_of_app. left. apply list_elem_of_omap. exists kv. split; [done|]. by rewrite Em.
  - destruct (decode_map kv.2) as [[|e nested]|] eqn:Hd; [done| |done].
    apply IH in Hu as (site & p & Hs & Hp). exists site, p. split; [|done].
    apply elem_of_app. right. apply list_elem_of_bind. exists (e :: nested). split; [done|].
    apply list_elem_of_omap. by exists kv.
Qed.

Lemma usage_sites_nil levels : usage_sites levels [] = [].
Proof. by destruct levels. Qed.

Lemma search_complete levels path entries :
  findUsage levels path entries = None ->
  forall site, site ∈ usage_sites levels entries -> exists p, parseUsageObject p site = None.
Proof.
  revert path entries. induction levels as [|levels IH]; intros path entries; [by intros _ ? ?%elem_of_nil|].
  cbn. destruct (first_of usage_entry _ _ _) eqn:E1; [done|]. intros E2 site.
  intros [(kv & Hin & Hs)%list_elem_of_omap|(nested & Hs & (kv & Hin & Hd)%list_elem_of_omap)%list_elem_of_bind]
    %elem_of_app.
  - eapply first_of_None in E1 as [j Hj]; [|rewrite range_perm; exact Hin]. unfold usage_entry in Hj.
    destruct (mem _ _); [|done]. rewrite Hs in Hj. exists (j :: 0%nat :: path). exact Hj.
  - eapply first_of_None in E2 as [j Hj]; [|rewrite range_perm; exact Hin]. cbn in Hj. rewrite Hd in Hj.
    destruct nested as [|e nested]; [|by eapply IH].
    rewrite usage_sites_nil in Hs. by apply elem_of_nil in Hs.
Qed.

(** Without ambiguity the search answers what the reference says of the only usage
    object. *)
Lemma search_is_reference levels path entries :
  (Datatypes.length (usage_sites levels entries) <= 1)%nat ->
  (forall site, site ∈ usage_sites levels entries -> unambiguous site) ->
  findUsage levels path entries = head (usage_sites levels entries) ≫= reference.
Proof.
  intros Hl Hu. destruct (findUsage levels path entries) as [u|] eqn:E.
  - apply search_sound in E as (site & p & Hin & Hp).
    rewrite parse_is_reference in Hp by auto.
    destruct (usage_sites levels entries) as [|s [|s2 l]]; cbn in *; [by apply elem_of_nil in Hin| |lia].
    apply list_elem_of_singleton in Hin as ->. by rewrite Hp.
  - destruct (usage_sites levels entries) as [|s l] eqn:Es; [done|].
    destruct (search_complete _ _ _ E s) as [p Hp]; [rewrite Es; by left|].
    cbn. rewrite <- Hp. apply parse_is_reference, Hu. by left.
Qed.
End order.

(** The object of a payload. *)
Definition document (payload : string) : option (list (string * value)) :=
  parse (TrimSpace payload) ≫= decode_map.

Lemma ExtractJSON_document `{O : MapOrder} path payload :
  ExtractJSON path payload = document payload ≫= findUsage 5 path.
Proof.
  unfold ExtractJSON, document. destruct (String.eqb _ _) eqn:E; [|done].
  by apply String.eqb_eq in E as ->.
Qed.

(** C19: [ExtractJSON] is a function of the payload, whatever order Go ranges over its
    maps in, when the payload has at most one usage object (in its first five levels) and
    names each counter of it once: the answer is the reference one, where the first value
    that is not null decides, top level before details, and a bad value of any counter
    refuses the whole object. *)
Theorem extraction_ignores_map_order (O : MapOrder) (L : MapOrderLaws O) path payload doc :
  document payload = Some doc ->
  (Datatypes.length (usage_sites 5 doc) <= 1)%nat ->
  (forall site, site ∈ usage_sites 5 doc -> unambiguous site) ->
  ExtractJSON path payload = head (usage_sites 5 doc) ≫= reference.
Proof. intros Hd Hl Hu. rewrite ExtractJSON_document, Hd. by apply search_is_reference. Qed.

(** Whatever the order and however odd the payload, counts that are extracted are
    non-negative [int64]s, and the input and output counts are ones that one usage object
    of the payload states under an accepted name: nothing is made up, a total or a
    partial breakdown is no answer. *)
Theorem extracted_counts_are_stated (O : MapOrder) (L : MapOrderLaws O) path payload u :
  ExtractJSON path payload = Some u ->
  usage_ok u /\
  exists doc site, document payload = Some doc /\ site ∈ usage_sites 5 doc
    /\ states FInput (InputTokens u) site /\ states FOutput (OutputTokens u) site.
Proof.
  rewrite ExtractJSON_document. intros (doc & Hd & Hf)%bind_Some.
  apply search_sound in Hf as (site & p & Hin & Hp%parse_sound).
  destruct Hp as (Hok & Hi & Ho). split; [done|]. by exists doc, site.
Qed.

(** ** Orders and payloads *)
Definition source_order : MapOrder := fun _ entries => entries.
Definition reverse_order : MapOrder := fun _ entries => reverse entries.

#[export] Instance source_order_laws : MapOrderLaws source_order.
Proof. intros path entries. unfold range, source_order. reflexivity. Qed.
#[export] Instance reverse_order_laws : MapOrderLaws reverse_order.
Proof. intros path entries. unfold range, reverse_order. apply reverse_Permutation. Qed.

(** The text of a payload, with ['] for the double quote. *)
Definition text (s : string) : string := ReplaceByte "'" "034" s.

Definition openai_chat : string := text
  "{'id':'chatcmpl_test','usage':{'prompt_tokens':12,'completion_tokens':8,'total_tokens':20,'prompt_tokens_details':{'cached_tokens':3},'completion_tokens_details':{'reasoning_tokens':2}}}".
Definition gemini : string := text
  "{'usageMetadata':{'promptTokenCount':11,'candidatesTokenCount':9,'cachedContentTokenCount':5,'thoughtsTokenCount':3}}".
Definition two_names : string := text
  "{'usage':{'input_tokens':0,'prompt_tokens':1000,'output_tokens':7}}".

Example chat_counts :
  @ExtractJSON source_order [] openai_chat
  = Some {| InputTokens := 12; OutputTokens := 8; CacheReadTokens := 3; CacheWriteTokens := 0;
            ReasoningTokens := 2 |}.
Proof. vm_compute. reflexivity. Qed.

Example gemini_counts :
  @ExtractJSON reverse_order [] gemini
  = Some {| InputTokens := 11; OutputTokens := 9; CacheReadTokens := 5; CacheWriteTokens := 0;
            ReasoningTokens := 3 |}.
Proof. vm_compute. reflexivity. Qed.

Example partial_counts_refused :
  @ExtractJSON source_order [] (text "{'usage':{'completion_tokens':8,'total_tokens':20}}") = None
  /\ @ExtractJSON source_order [] (text "{'usage':{'input_tokens':-1,'output_tokens':2}}") = None
  /\ @ExtractJSON source_order [] "not-json" = None.
Proof. vm_compute. done. Qed.

(** The stream of the accumulator's test: the last cumulative usage is kept. *)
Example stream_counts :
  Value (@Observe source_order [] (text "data: {'choices':[],'usage':{'prompt_tokens':5,'completion_tokens':4}}

data: [DONE]

")
    (@Observe source_order [] (text "data: {'choices':[],'usage':{'prompt_tokens':3,'completion_tokens':1}}

") accumulator_zero))
  = Some {| InputTokens := 5; OutputTokens := 4; CacheReadTokens := 0; CacheWriteTokens := 0;
            ReasoningTokens := 0 |}.
Proof. vm_compute. reflexivity. Qed.

Definition unambiguous_b (entries : list (string * value)) : bool :=
  forallb (fun f => (Datatypes.length (candidates (top_keys f) entries) <=? 1)%nat
                    && (Datatypes.length (omap details_of entries ≫= candidates (detail_keys f)) <=? 1)%nat)
    fields.
Lemma unambiguous_b_true entries : unambiguous_b entries = true -> unambiguous entries.
Proof.
  unfold unambiguous_b. rewrite forallb_forall. intros H f.
  specialize (H f). rewrite andb_true_iff, !Nat.leb_le in H. apply H. destruct f; cbn; tauto.
Qed.

(** Two names of one counter make the extracted count depend on the order of the map:
    both orders are Go's, and the bill differs by the whole input. *)
Theorem two_names_of_a_counter_race :
  exists O1 O2, MapOrderLaws O1 /\ MapOrderLaws O2
    /\ (exists u, @ExtractJSON O1 [] two_names = Some u /\ InputTokens u = 0)
    /\ (exists u, @ExtractJSON O2 [] two_names = Some u /\ InputTokens u = 1000).
Proof.
  exists source_order, reverse_order. split; [apply _|]. split; [apply _|].
  split; eexists; (split; [vm_compute; reflexivity|reflexivity]).
Qed.

Lemma extraction_ignores_map_order_witness :
  @ExtractJSON reverse_order [] openai_chat
  = Some {| InputTokens := 12; OutputTokens := 8; CacheReadTokens := 3; CacheWriteTokens := 0;
            ReasoningTokens := 2 |}.
Proof.
  assert (exists doc, document openai_chat = Some doc /\ (Datatypes.length (usage_sites 5 doc) <= 1)%nat
          /\ Forall (fun site => unambiguous_b site = true) (usage_sites 5 doc)
          /\ head (usage_sites 5 doc) ≫= reference
             = Some {| InputTokens := 12; OutputTokens := 8; CacheReadTokens := 3;
                       CacheWriteTokens := 0; ReasoningTokens := 2 |}) as (doc & Hd & Hl & Hu & Hr).
  { eexists. split; [vm_compute; reflexivity|]. split; [vm_compute; lia|].
    split; [repeat constructor|vm_compute; reflexivity]. }
  rewrite <- Hr. apply (extraction_ignores_map_order reverse_order _ [] openai_chat doc Hd Hl).
  intros site Hin. apply unambiguous_b_true. rewrite Forall_forall in Hu. by apply Hu.
Defined.

Lemma extracted_counts_are_stated_witness : exists u, usage_ok u /\ InputTokens u = 11.
Proof.
  eexists. split; [|].
  - exact (proj1 (extracted_counts_are_stated source_order _ [] gemini
      {| InputTokens := 11; OutputTokens := 9; CacheReadTokens := 5; CacheWriteTokens := 0;
         ReasoningTokens := 3 |} ltac:(vm_compute; reflexivity))).
  - reflexivity.
Defined.
End UsageExtractTheorems.
