(* ===== verification/ProxyErrors.v ===== *)
(** * Package [internal/proxy]: errors and what a client is told of them

    [mapPublicError], [mapUpstreamError], [errorStatus] and [errorClass] of handler.go.
    A Go error is what its consumers can ask of it: the sentinels [errors.Is] finds in
    its chain, and the [UpstreamError] of [errors.As]. *)

From stdpp Require Import base gmap strings list.
From Stdlib Require Import ZArith Lia Ascii String.
From S2P Require Import Prelude GoLib Json.
From S2P Require Pricing BillingModel UsageModel SchedulerModel.

Module ProxyErrors.
Import Json(byte_of).

(** ** Errors of the packages the proxy calls through an interface *)
Inductive keyError :=
| KeyInvalidInput | KeyNotFound | KeyConflict | ErrInvalidKey | ErrIPDenied | ErrModelDenied
| ErrRateLimited | ErrRateLimitUnavailable.
Inductive modelError := ModelInvalidInput | ModelNotFound | ModelConflict.
Inductive routeError :=
| RouteInvalidInput | RouteNotFound | RouteConflict | ErrNoRoute | ErrRouteDisabled | ErrTargetUnavailable.

Inductive sentinel :=
| ErrInferenceUnavailable | ErrStreamingUnsupported | ErrStreamIncomplete | ErrEmptyStream
| ErrMalformedResponse | ErrClientCancelled | ErrInvalidRequest | ErrRequestTooLarge
| ErrMethodNotAllowed | ErrProxyNotFound | ErrUsageUnavailable
| OfUsage (e : UsageModel.UsageModel.error) | OfPricing (e : Pricing.Pricing.error)
| OfBilling (e : BillingModel.Billing.error) | OfScheduler (e : SchedulerModel.Sched.error)
| OfKey (e : keyError) | OfModel (e : modelError) | OfRoute (e : routeError)
| Canceled | DeadlineExceeded | EOF.

(** [inference.UpstreamError]. *)
Record UpstreamError := { ue_Class : string; ue_HTTPStatus : Z; ue_Retryable : bool }.

Record goerr := { e_chain : list sentinel; e_upstream : option UpstreamError }.
Definition only (s : sentinel) : goerr := {| e_chain := [s]; e_upstream := None |}.
Definition upstream (u : UpstreamError) : goerr := {| e_chain := []; e_upstream := Some u |}.

#[export] Instance pricing_error_dec : EqDecision Pricing.Pricing.error.
Proof. solve_decision. Defined.
#[export] Instance billing_error_dec : EqDecision BillingModel.Billing.error.
Proof. solve_decision. Defined.
#[export] Instance usage_error_dec : EqDecision UsageModel.UsageModel.error.
Proof. solve_decision. Defined.
#[export] Instance keyError_dec : EqDecision keyError.
Proof. solve_decision. Defined.
#[export] Instance modelError_dec : EqDecision modelError.
Proof. solve_decision. Defined.
#[export] Instance routeError_dec : EqDecision routeError.
Proof. solve_decision. Defined.
#[local] Existing Instance SchedulerModel.Sched.error_eq_dec.
#[export] Instance sentinel_dec : EqDecision sentinel.
Proof. solve_decision. Defined.

(** [errors.Is]. *)
Definition Is (e : goerr) (s : sentinel) : bool := bool_decide (s ∈ e_chain e).
Definition is_any (e : goerr) (l : list sentinel) : bool := existsb (Is e) l.

(** ** Answers *)
Record mappedError := {
  me_status : Z; me_type : string; me_code : string; me_message : string; me_retryAfter : string
}.
Definition mapped (status : Z) (typeName code message : string) : mappedError :=
  {| me_status := status; me_type := typeName; me_code := code; me_message := message;
     me_retryAfter := "" |}.
Definition retry_after (seconds : string) (m : mappedError) : mappedError :=
  {| me_status := me_status m; me_type := me_type m; me_code := me_code m;
     me_message := me_message m; me_retryAfter := seconds |}.

Definition upstream_rate_limit : mappedError :=
  retry_after "60" (mapped 429 "rate_limit_error" "upstream_rate_limit" "The upstream rate limit was exceeded.").

Definition mapUpstreamError (err : UpstreamError) : mappedError :=
  let class := ToLower (TrimSpace (ue_Class err)) in
  if mem class ["provider_not_configured"; "credential_unavailable"; "credential_source_unsupported"]
  then mapped 503 "upstream_error" class "The upstream credential is unavailable." else
  if String.eqb class "rate_limit" then upstream_rate_limit else
  if String.eqb class "authentication"
  then mapped 502 "upstream_error" "upstream_authentication" "The upstream authentication failed." else
  if String.eqb class "permission"
  then mapped 502 "upstream_error" "upstream_permission" "The upstream rejected the request." else
  if String.eqb class "timeout"
  then mapped 504 "upstream_error" "upstream_timeout" "The upstream request timed out." else
  if ue_HTTPStatus err =? 429 then upstream_rate_limit else
  mapped 502 "upstream_error" "upstream_error" "The upstream request failed.".

Definition internal_error : mappedError :=
  mapped 500 "api_error" "internal_error" "The request could not be completed.".
Definition invalid_request : mappedError :=
  mapped 400 "invalid_request_error" "invalid_request" "The request is invalid.".
Definition no_credential : mappedError :=
  mapped 503 "upstream_error" "no_eligible_credential" "No eligible upstream credential is available.".
Definition client_cancelled : mappedError :=
  mapped 499 "api_error" "client_cancelled" "The client cancelled the request.".

(** The cases of the [switch], in order. *)
Definition public_cases : list (list sentinel * mappedError) :=
  [([ErrInferenceUnavailable], mapped 503 "api_error" "inference_unavailable" "Inference service is not configured.");
   ([ErrUsageUnavailable], mapped 503 "api_error" "usage_unavailable" "Usage settlement is temporarily unavailable.");
   ([OfUsage UsageModel.UsageModel.ErrRequestAlreadyClosed],
    mapped 409 "invalid_request_error" "duplicate_request" "The request id has already been finalized.");
   ([OfPricing Pricing.Pricing.ErrPriceMissing; OfPricing Pricing.Pricing.ErrBillingDisabled],
    mapped 503 "api_error" "price_unavailable" "The model price is not currently available.");
   ([ErrStreamingUnsupported], mapped 501 "api_error" "streaming_unavailable" "Streaming is not available.");
   ([ErrClientCancelled], client_cancelled);
   ([OfKey ErrInvalidKey], mapped 401 "authentication_error" "invalid_api_key" "The API key is invalid.");
   ([OfKey ErrIPDenied], mapped 403 "permission_error" "ip_not_allowed" "The source IP is not allowed.");
   ([OfKey ErrModelDenied], mapped 403 "permission_error" "model_not_allowed" "The API key cannot access this model.");
   ([OfKey ErrRateLimited],
    retry_after "60" (mapped 429 "rate_limit_error" "rate_limited" "The API key rate limit was exceeded."));
   ([OfKey ErrRateLimitUnavailable],
    mapped 503 "api_error" "rate_limit_unavailable" "Rate limiting is temporarily unavailable.");
   ([OfKey KeyInvalidInput], invalid_request);
   ([OfModel ModelNotFound], mapped 404 "not_found" "model_not_found" "The requested model does not exist.");
   ([OfModel ModelInvalidInput], mapped 400 "invalid_request_error" "invalid_model" "The requested model is invalid.");
   ([OfRoute ErrNoRoute], mapped 503 "upstream_error" "route_unavailable" "No route is available for this model.");
   ([OfRoute ErrRouteDisabled], mapped 503 "upstream_error" "route_disabled" "The route is currently disabled.");
   ([OfRoute ErrTargetUnavailable; OfScheduler SchedulerModel.Sched.ErrNoEligible], no_credential);
   ([ErrRequestTooLarge], mapped 413 "invalid_request_error" "request_too_large" "The request body is too large.");
   ([OfScheduler SchedulerModel.Sched.ErrStateUnavailable],
    mapped 503 "api_error" "scheduler_unavailable" "Scheduler coordination is temporarily unavailable.");
   ([OfScheduler SchedulerModel.Sched.ErrInvalidInput], invalid_request);
   ([OfScheduler SchedulerModel.Sched.ErrLeaseBusy], no_credential);
   ([OfBilling BillingModel.Billing.ErrInsufficientFunds],
    mapped 402 "billing_error" "insufficient_funds" "The wallet has insufficient funds.");
   ([OfBilling BillingModel.Billing.ErrBudgetExceeded],
    mapped 402 "billing_error" "budget_exceeded" "The API key budget has been exceeded.");
   ([OfBilling BillingModel.Billing.ErrWalletFrozen],
    mapped 403 "billing_error" "wallet_unavailable" "The wallet is unavailable.");
   ([OfBilling BillingModel.Billing.ErrSettlementPending],
    retry_after "60" (mapped 503 "billing_error" "settlement_pending" "Usage settlement is pending reconciliation."));
   ([OfBilling BillingModel.Billing.ErrPriceMissing],
    mapped 503 "billing_error" "price_unavailable" "Pricing is temporarily unavailable.");
   ([OfBilling BillingModel.Billing.ErrInvalidInput], invalid_request);
   ([OfBilling BillingModel.Billing.ErrReservationConflict; OfBilling BillingModel.Billing.ErrSettlementConflict;
     OfBilling BillingModel.Billing.ErrBalanceOverflow],
    mapped 503 "billing_error" "billing_unavailable" "Billing is temporarily unavailable.");
   ([ErrMalformedResponse; ErrEmptyStream; ErrStreamIncomplete],
    mapped 502 "upstream_error" "upstream_protocol_error" "The upstream response was incomplete or invalid.");
   ([ErrInvalidRequest], invalid_request);
   ([ErrMethodNotAllowed], mapped 405 "invalid_request_error" "method_not_allowed" "Method not allowed.");
   ([ErrProxyNotFound], mapped 404 "invalid_request_error" "not_found" "The requested endpoint does not exist.")].

Definition public_case (err : goerr) : option mappedError :=
  snd <$> List.find (fun c => is_any err c.1) public_cases.

(** [None] is the nil error. *)
Definition mapPublicError (err : option goerr) : mappedError :=
  match err with
  | None => internal_error
  | Some err =>
      match public_case err with
      | Some m => m
      | None =>
          match e_upstream err with
          | Some u => mapUpstreamError u
          | None =>
              if Is err DeadlineExceeded
              then mapped 504 "upstream_error" "upstream_timeout" "The upstream request timed out."
              else if Is err Canceled then client_cancelled else internal_error
          end
      end
  end.

Definition errorStatus (err : goerr) : Z := me_status (mapPublicError (Some err)).

Definition errorClass (err : option goerr) : string :=
  match err with
  | None => ""
  | Some err =>
      match e_upstream err with
      | Some u => if String.eqb (ue_Class u) "" then me_code (mapPublicError (Some err)) else ue_Class u
      | None => me_code (mapPublicError (Some err))
      end
  end.

(** ** The error body *)
(** What [encoding/json] writes for a byte or a rune of a string, HTML escaping on. *)
Definition hex_char (z : Z) : ascii := byte_of (if z <? 10 then 48 + z else 87 + z).
Definition u_escape (x : Z) (t : string) : string :=
  String "092" (String "u" (String (hex_char (Z.land (Z.shiftr x 12) 15))
    (String (hex_char (Z.land (Z.shiftr x 8) 15)) (String (hex_char (Z.land (Z.shiftr x 4) 15))
      (String (hex_char (Z.land x 15)) t))))).
Definition encode_byte (c : ascii) (t : string) : string :=
  let x := code c in
  if (x =? 34) || (x =? 92) then String "092" (String c t)
  else if x =? 8 then String "092" (String "b" t) else if x =? 12 then String "092" (String "f" t)
  else if x =? 10 then String "092" (String "n" t) else if x =? 13 then String "092" (String "r" t)
  else if x =? 9 then String "092" (String "t" t)
  else if (x <? 32) || (x =? 60) || (x =? 62) || (x =? 38) then u_escape x t else String c t.

(** A string of ASCII bytes: what every string of an error body is. *)
Fixpoint encode_ascii (s : string) : string :=
  match s with EmptyString => "" | String c t => encode_byte c (encode_ascii t) end.
Definition quoted (s : string) : string := String "034" (encode_ascii s +:+ String "034" "").

(** The object of [writeProxyError] and [writeSSEError]; keys are in order. *)
Definition error_body (m : mappedError) (request_id : string) : string :=
  "{" +:+ quoted "error" +:+ ":{" +:+ quoted "code" +:+ ":" +:+ quoted (me_code m) +:+ ","
  +:+ quoted "message" +:+ ":" +:+ quoted (me_message m) +:+ ","
  +:+ quoted "request_id" +:+ ":" +:+ quoted request_id +:+ ","
  +:+ quoted "type" +:+ ":" +:+ quoted (me_type m) +:+ "}}".

End ProxyErrors.

(** * What a client can be told of an error

    The answers [mapPublicError] gives are a fixed list; their bodies are read back. *)

From stdpp Require Import base gmap strings list.
From Stdlib Require Import ZArith Lia Ascii String.
From S2P Require Import Prelude GoLib Json.
Import Json ProxyErrors.

Module ProxyErrorFacts.

(** ** The answers *)
Definition credential_answer (class : string) : mappedError :=
  mapped 503 "upstream_error" class "The upstream credential is unavailable.".
Definition upstream_answers : list mappedError :=
  [credential_answer "provider_not_configured"; credential_answer "credential_unavailable";
   credential_answer "credential_source_unsupported"; upstream_rate_limit;
   mapped 502 "upstream_error" "upstream_authentication" "The upstream authentication failed.";
   mapped 502 "upstream_error" "upstream_permission" "The upstream rejected the request.";
   mapped 504 "upstream_error" "upstream_timeout" "The upstream request timed out.";
   mapped 502 "upstream_error" "upstream_error" "The upstream request failed."].
Definition answers : list mappedError :=
  (internal_error :: client_cancelled :: (public_cases.*2 ++ upstream_answers))%list.

Lemma mapUpstreamError_answer u : mapUpstreamError u ∈ upstream_answers.
Proof.
  unfold mapUpstreamError. cbv zeta. set (class := ToLower _). clearbody class.
  destruct (mem class _) eqn:E; [|repeat case_match; set_solver].
  apply mem_true in E. apply elem_of_cons in E as [->|E]; [set_solver|].
  apply elem_of_cons in E as [->|E]; [set_solver|].
  apply list_elem_of_singleton in E as ->. set_solver.
Qed.

Lemma mapPublicError_answer err : mapPublicError err ∈ answers.
Proof.
  unfold answers. destruct err as [err|]; [|by left]. unfold mapPublicError.
  destruct (public_case err) as [m|] eqn:E.
  - do 2 right. apply elem_of_app. left. unfold public_case in E.
    apply fmap_Some in E as (c & Hc%find_some & ->). apply list_elem_of_fmap. exists c.
    split; [done|]. apply list_elem_of_In, Hc.
  - destruct (e_upstream err) as [u|].
    + do 2 right. apply elem_of_app. right. apply mapUpstreamError_answer.
    + destruct (Is err DeadlineExceeded); [|destruct (Is err Canceled); [by right; left|by left]].
      do 2 right. apply elem_of_app. right. unfold upstream_answers. set_solver.
Qed.

(** ** Strings that are written as they are *)
Definition plain (c : ascii) : bool :=
  between 32 (code c) 126
  && negb ((code c =? 34) || (code c =? 92) || (code c =? 60) || (code c =? 62) || (code c =? 38)).

Definition plain_answer (m : mappedError) : bool :=
  forall_bytes plain (me_code m) && forall_bytes plain (me_message m) && forall_bytes plain (me_type m)
  && (400 <=? me_status m) && (me_status m <=? 599).

Lemma answers_plain m : m ∈ answers -> plain_answer m = true.
Proof.
  assert (forallb plain_answer answers = true) as H by (vm_compute; reflexivity).
  rewrite forallb_forall in H. intros Hm. apply H, list_elem_of_In, Hm.
Qed.

Lemma plain_code c : plain c = true -> 32 <= code c <= 126 /\ code c <> 34 /\ code c <> 92
  /\ code c <> 60 /\ code c <> 62 /\ code c <> 38.
Proof. unfold plain, between. intros H. bools. lia. Qed.

Lemma encode_plain s : forall_bytes plain s = true -> encode_ascii s = s.
Proof.
  induction s as [|c s IH]; [done|]. cbn [forall_bytes encode_ascii].
  rewrite andb_true_iff. intros [Hc%plain_code Hs]. rewrite IH by done. unfold encode_byte.
  repeat match goal with |- context [code c =? ?k] =>
    replace (code c =? k) with false by (symmetry; apply Z.eqb_neq; lia) end.
  replace (code c <? 32) with false by (symmetry; apply Z.ltb_ge; lia). done.
Qed.

Lemma unquote_step n c t :
  code c <> 92 -> code c < 128 -> unquote_go (S n) (String c t) = String c (unquote_go n t).
Proof.
  intros H1 H2. destruct c as [[] [] [] [] [] [] [] []]; try reflexivity; vm_compute in H1, H2; congruence.
Qed.

Lemma unquote_plain s : forall_bytes plain s = true -> unquote s = s.
Proof.
  unfold unquote. induction s as [|c s IH]; [done|]. cbn [forall_bytes String.length].
  rewrite andb_true_iff. intros [Hc%plain_code Hs]. rewrite unquote_step by lia. by rewrite IH.
Qed.

(** ** The scanner over a quoted string *)
Lemma run_app st s t : run st (s +:+ t) = run st s ≫= fun st => run st t.
Proof.
  revert st. induction s as [|c s IH]; intros st; [done|]. unfold String.append in *. simpl.
  destruct (step st c); [apply IH|done].
Qed.

Lemma run_plain s acc key K :
  forall_bytes plain s = true ->
  run (SString acc 0 false key K) s = Some (SString (srev s +:+ acc) 0 false key K).
Proof.
  revert acc. induction s as [|c s IH]; intros acc; [done|]. cbn [forall_bytes run].
  rewrite andb_true_iff. intros [Hc%plain_code Hs]. unfold step.
  replace (code c =? 34) with false by (symmetry; apply Z.eqb_neq; lia).
  assert (Ascii.eqb c "092" = false) as ->.
  { apply Ascii.eqb_neq. intros ->. destruct Hc as (_ & _ & Hc & _). by apply Hc. }
  replace (code c <? 32) with false by (symmetry; apply Z.ltb_ge; lia).
  rewrite IH by done. rewrite srev_cons, <- sapp_assoc. done.
Qed.

Lemma run_quoted acc key K s t :
  forall_bytes plain s = true -> acc = "" ->
  run (SString acc 0 false key K) (encode_ascii s +:+ String "034" t)
  = run (match key with Some fields => SColon fields s K | None => SAfter (VString s) K end) t.
Proof.
  intros Hs ->. rewrite encode_plain, run_app, run_plain by done. cbn [mbind option_bind].
  rewrite sapp_nil_r. cbn [run step]. change (code "034" =? 34) with true. cbv iota.
  unfold end_string. rewrite srev_involutive, unquote_plain by done. by destruct key.
Qed.

Lemma quoted_app s t : quoted s +:+ t = String "034" (encode_ascii s +:+ String "034" t).
Proof. unfold quoted. change (String "034" ?x +:+ t) with (String "034" (x +:+ t)). by rewrite <- sapp_assoc. Qed.

Lemma run_key fields K may_close s t :
  forall_bytes plain s = true ->
  run (SKey fields K may_close) (quoted s +:+ t) = run (SColon fields s K) t.
Proof.
  intros Hs. rewrite quoted_app. cbn [run].
  assert (step (SKey fields K may_close) "034" = Some (SString "" 0 false (Some fields) K)) as ->.
  { by destruct may_close. }
  by rewrite (run_quoted "" (Some fields)).
Qed.

Lemma run_value K s t :
  forall_bytes plain s = true ->
  run (SValue K false) (quoted s +:+ t) = run (SAfter (VString s) K) t.
Proof.
  intros Hs. rewrite quoted_app. cbn [run].
  assert (step (SValue K false) "034" = Some (SString "" 0 false None K)) as -> by done.
  by rewrite (run_quoted "" None).
Qed.

(** One field of the inner object, and what follows it. *)
Lemma run_field fields K may_close name s t :
  forall_bytes plain name = true -> forall_bytes plain s = true ->
  run (SKey fields K may_close) (quoted name +:+ ":" +:+ quoted s +:+ t)
  = run (SAfter (VString s) (FField fields name :: K)) t.
Proof.
  intros Hn Hs. rewrite run_key by done. change (":" +:+ ?x) with (String ":" x). cbn [run].
  assert (step (SColon fields name K) ":" = Some (SValue (FField fields name :: K) false)) as -> by done.
  by rewrite run_value.
Qed.

Lemma run_comma v fields name K t :
  run (SAfter v (FField fields name :: K)) ("," +:+ t) = run (SKey ((name, v) :: fields) K false) t.
Proof. done. Qed.

(** C20: An error answer is one of a fixed list, so that nothing of an upstream's text reaches
    the client; it is a client or a server error; and its body is the JSON object of the
    API with that code and the request identifier. *)
Theorem error_answers_are_fixed err id :
  forall_bytes plain id = true ->
  let m := mapPublicError err in
  m ∈ answers /\ 400 <= me_status m <= 599
  /\ parse (error_body m id) = Some (VObject [("error", VObject
       [("code", VString (me_code m)); ("message", VString (me_message m));
        ("request_id", VString id); ("type", VString (me_type m))])]).
Proof.
  intros Hid m. pose proof (mapPublicError_answer err) as Hm. fold m in Hm.
  pose proof (answers_plain m Hm) as Hp. unfold plain_answer in Hp. bools.
  split_and!; [done|lia|lia|]. unfold parse, error_body.
  change ("{" +:+ ?x) with (String "{" x). cbn [run].
  assert (step (SValue [] false) "{" = Some (SKey [] [] true)) as -> by done.
  rewrite run_key by done. change (":{" +:+ ?x) with (String ":" (String "{" x)). cbn [run].
  assert (step (SColon [] "error" []) ":" = Some (SValue [FField [] "error"] false)) as -> by done.
  assert (step (SValue [FField [] "error"] false) "{" = Some (SKey [] [FField [] "error"] true)) as -> by done.
  rewrite !run_field, !run_comma by done.
  rewrite !run_field, !run_comma by done. rewrite !run_field, !run_comma by done.
  rewrite run_field by done. done.
Qed.
End ProxyErrorFacts.
