(* ===== verification/ProxyText.v ===== *)
(** * Package [internal/proxy]: the texts of a request and of its answer

    Reading the body ([readRequest]), request identifiers, the header filters, the
    framing of server-sent events and the recognition of the last one, from handler.go.
    A header map is the list of its entries in the order Go ranges over it. *)

From stdpp Require Import base gmap strings list.
From Stdlib Require Import ZArith Lia Ascii String.
From S2P Require Import Prelude GoLib Json ProxyErrors SchedulerModel.
Import Json ProxyErrors.

Module ProxyText.

(** ** Endpoints *)
Definition modelsPath : string := "/v1/models".
Definition chatCompletionsPath : string := "/v1/chat/completions".
Definition responsesPath : string := "/v1/responses".
Definition defaultMaxBodyBytes : Z := 4194304.
Definition defaultLeaseTTL : Z := 30 * Second.

Inductive endpoint := endpointChat | endpointResponses.
Definition endpoint_path (e : endpoint) : string :=
  match e with endpointChat => chatCompletionsPath | endpointResponses => responsesPath end.
(** [provider.ProtocolOpenAIChat] and [ProtocolOpenAIResponses]. *)
Definition protocol (e : endpoint) : string :=
  match e with endpointChat => "openai_chat" | endpointResponses => "openai_responses" end.
Definition format (e : endpoint) : string :=
  match e with endpointChat => "openai" | endpointResponses => "openai-response" end.

(** ** Request identifiers *)
Definition id_byte (c : ascii) : bool :=
  is_lower c || is_upper c || is_digit c || Ascii.eqb c "-" || Ascii.eqb c "_" || Ascii.eqb c ".".
Definition normalizeRequestID (value : string) : string :=
  let value := TrimSpace value in
  if String.eqb value "" || (64 <? slen value) then ""
  else if forall_bytes id_byte value then value else "".

(** [fresh] is the identifier [uuid.NewString] would draw. *)
Definition requestID `{UuidText} (context_id header : string) (fresh : uuid) : string :=
  if negb (String.eqb context_id "") then context_id else
  let value := normalizeRequestID header in
  if negb (String.eqb value "") then value
  else "req_" +:+ DropByte "-" (uuid_string fresh).

(** ** The body *)
Record parsedRequest := {
  p_Model : string; p_Stream : bool; p_Tools : bool; p_Reasoning : bool; p_MaxOutputTokens : Z
}.

(** A [json.RawMessage] that is absent or null. *)
Definition presentJSON (raw : option value) : bool :=
  match raw with None | Some VNull => false | Some _ => true end.

Definition reasoningRequested (raw : option value) : bool :=
  match raw with
  | None | Some VNull => false
  | Some (VString text) => negb (String.eqb (ToLower (TrimSpace text)) "none")
  | Some _ => true
  end.

(** [json.Unmarshal] into an [int64]. *)
Definition decode_int64 (raw : value) : option Z :=
  match raw with VNumber literal => ParseInt64 literal | _ => None end.

Fixpoint parseMaxOutputTokens (values : list (option value)) (maximum : Z) : option Z :=
  match values with
  | [] => Some maximum
  | None :: values | Some VNull :: values => parseMaxOutputTokens values maximum
  | Some raw :: values =>
      match decode_int64 raw with
      | Some n => if n <=? 0 then None else parseMaxOutputTokens values (if maximum <? n then n else maximum)
      | None => None
      end
  end.

Definition decode_stream (raw : option value) : option bool :=
  match raw with
  | None | Some VNull => Some false
  | Some (VBool b) => Some b
  | Some _ => None
  end.

(** The decoded struct: a JSON null leaves it empty, another value is an error. *)
Definition struct_fields (v : value) : option (list (string * value)) :=
  match v with VObject fields => Some fields | VNull => Some [] | _ => None end.

Definition parse_body (body : string) : option parsedRequest :=
  fields ← parse body ≫= struct_fields;
  let raw name := raw_field name fields in
  model ← match raw "model" with Some (VString s) => Some (TrimSpace s) | _ => None end;
  if String.eqb model "" then None else
  stream ← decode_stream (raw "stream");
  maximum ← parseMaxOutputTokens [raw "max_tokens"; raw "max_completion_tokens"; raw "max_output_tokens"] 0;
  Some {| p_Model := model; p_Stream := stream; p_Tools := presentJSON (raw "tools");
          p_Reasoning := presentJSON (raw "reasoning") || reasoningRequested (raw "reasoning_effort");
          p_MaxOutputTokens := maximum |}.

(** What reading the body meets: no body, a transport error, or its bytes. *)
Inductive request_body := NoBody | BrokenBody | Body (bytes : string).

Definition readRequest (maxBodyBytes : Z) (body : request_body) : result goerr (string * parsedRequest) :=
  match body with
  | NoBody | BrokenBody => Err (only ErrInvalidRequest)
  | Body bytes =>
      if maxBodyBytes <? slen bytes then Err (only ErrRequestTooLarge) else
      match parse_body bytes with
      | Some parsed => Ok (bytes, parsed)
      | None => Err (only ErrInvalidRequest)
      end
  end.

Definition requiredCapabilities (e : endpoint) (request : parsedRequest) : Sched.Capabilities :=
  {| Sched.Chat := match e with endpointChat => true | _ => false end;
     Sched.Responses := match e with endpointResponses => true | _ => false end;
     Sched.Messages := false; Sched.Stream := p_Stream request; Sched.Tools := p_Tools request;
     Sched.Vision := false; Sched.Reasoning := p_Reasoning request |}.

(** [len(body)] is an [int]. *)
Definition estimateTokens (body : string) : Z :=
  if String.eqb body "" then 0 else
  let value := i64_add (slen body) 3 / 4 in if value <? 1 then 1 else value.

Definition selectedProvider `{UuidText} (target : Sched.Target) : string :=
  let value := TrimSpace (Sched.t_ProviderSlug target) in
  if String.eqb value "" then uuid_string (Sched.t_ProviderID target) else value.

(** ** Headers *)
Abbreviation headers := (list (string * list string)).

Definition safeHeaderValue (value : string) : bool := negb (contains_control value).

Definition token_byte (c : ascii) : bool :=
  is_lower c || is_upper c || is_digit c || exists_byte (Ascii.eqb c) "!#$%&'*+-.^_`|~".
Fixpoint canonical_from (upper : bool) (s : string) : string :=
  match s with
  | EmptyString => ""
  | String c t => String (if upper then upper_byte c else lower_byte c) (canonical_from (Ascii.eqb c "-") t)
  end.
(** [http.CanonicalHeaderKey]. *)
Definition CanonicalHeaderKey (s : string) : string :=
  if forall_bytes token_byte s then canonical_from true s else s.

(** A write of [http.Header] and of a plain map. *)
Definition header_add (key value : string) (h : headers) : headers :=
  if mem key h.*1
  then (fun kv : string * list string => if String.eqb kv.1 key then (kv.1, (kv.2 ++ [value])%list) else kv) <$> h
  else (h ++ [(key, [value])])%list.
Definition header_set (key : string) (values : list string) (h : headers) : headers :=
  if mem key h.*1
  then (fun kv : string * list string => if String.eqb kv.1 key then (kv.1, values) else kv) <$> h
  else (h ++ [(key, values)])%list.

Definition allowedRequestHeaders : list string :=
  ["accept"; "anthropic-beta"; "anthropic-version"; "baggage"; "content-type"; "openai-beta";
   "traceparent"; "tracestate"; "user-agent"].
Definition safeResponseHeaders : list string :=
  ["content-type"; "retry-after"; "x-ratelimit-limit-requests"; "x-ratelimit-remaining-requests";
   "x-ratelimit-reset-requests"; "x-ratelimit-limit-tokens"; "x-ratelimit-remaining-tokens";
   "x-ratelimit-reset-tokens"].

(** The loop both filters run: the safe values of the allowed names, one by one. *)
Definition forward (allowed : list string) (source target : headers) : headers :=
  foldl (fun h kv =>
    if mem (ToLower (TrimSpace kv.1)) allowed
    then foldl (fun h v => if safeHeaderValue v then header_add (CanonicalHeaderKey kv.1) v h else h) h kv.2
    else h) target source.

Definition filteredRequestHeaders (source : headers) (id : string) : headers :=
  header_set "X-Request-ID" [id] (forward allowedRequestHeaders source []).
Definition writeSafeResponseHeaders (source target : headers) : headers :=
  forward safeResponseHeaders source target.

(** ** Server-sent events *)
Definition LF : ascii := "010".
Definition CR : ascii := "013".
Definition newline : string := String LF "".

(** The two [bytes.ReplaceAll] of [frameSSEPayload]: CR LF, and then CR, become LF. *)
Fixpoint unix_lines (s : string) : string :=
  match s with
  | EmptyString => ""
  | String c t =>
      if Ascii.eqb c CR then
        match t with
        | String d u => if Ascii.eqb d LF then String LF (unix_lines u) else String LF (unix_lines t)
        | EmptyString => newline
        end
      else String c (unix_lines t)
  end.

Definition sse_field (line : string) : bool :=
  HasPrefix line "data:" || HasPrefix line "event:" || HasPrefix line "id:" || HasPrefix line "retry:"
  || HasPrefix line ":".

(** The first line that is not blank decides. *)
Definition isSSEPayload (payload : string) : bool :=
  match List.find (fun line => negb (String.eqb line "")) (TrimSpace <$> SplitByte LF payload) with
  | Some line => sse_field line
  | None => false
  end.

Definition data_lines (lines : list string) : string :=
  foldr (fun line t => "data: " +:+ line +:+ newline +:+ t) newline lines.

Definition frameSSEPayload (payload : string) : string :=
  let payload := unix_lines payload in
  if isSSEPayload payload then TrimRightByte LF payload +:+ newline +:+ newline
  else data_lines (SplitByte LF payload).

(** The lines of a payload without CR, trimmed. *)
Definition payload_lines (payload : string) : list string := TrimSpace <$> SplitByte LF (DropByte CR payload).
Definition strip_data (line : string) : string :=
  if HasPrefix line "data:" then TrimSpace (TrimPrefix line "data:") else line.

Definition sseDonePayload (payload : string) : bool :=
  existsb (fun line => String.eqb (strip_data line) "[DONE]") (payload_lines payload).

(** [json.Unmarshal] into [struct{ Type string }], trimmed; [None] for an error. *)
Definition event_type (line : string) : option string :=
  fields ← parse line ≫= struct_fields;
  let values := struct_values "type" fields in
  if forallb (fun v => match v with VString _ | VNull => true | _ => false end) values
  then Some (TrimSpace (foldl (fun t v => match v with VString s => s | _ => t end) "" values))
  else None.

Fixpoint event_type_of (lines : list string) (eventName : string) : string :=
  match lines with
  | [] => eventName
  | line :: lines =>
      if String.eqb line "" then event_type_of lines eventName else
      match CutPrefix "event:" line with
      | Some name => event_type_of lines (TrimSpace name)
      | None =>
          let line := strip_data line in
          if String.eqb line "[DONE]" then event_type_of lines eventName else
          match event_type line with
          | Some t => if String.eqb t "" then event_type_of lines eventName else t
          | None => event_type_of lines eventName
          end
      end
  end.
Definition responseEventType (payload : string) : string := event_type_of (payload_lines payload) "".

Definition done_frame : string := "data: [DONE]" +:+ newline +:+ newline.

(** [writeSSEError]: the bytes, for a writer that can flush or not. *)
Definition sse_error_frame (flusher : bool) (path : string) (m : mappedError) (id : string) : string :=
  let encoded := error_body m id in
  if flusher && Contains path "/responses"
  then "event: error" +:+ newline +:+ "data: " +:+ encoded +:+ newline +:+ newline
  else frameSSEPayload encoded.

End ProxyText.

(** * What the texts of the proxy are read as

    A reader of server-sent events, which the frames of the proxy are checked against;
    the header filters; the error bodies as JSON. *)

From stdpp Require Import base gmap strings list.
From Stdlib Require Import ZArith Lia Ascii String.
From S2P Require Import Prelude GoLib Json ProxyErrors.
Import Json ProxyErrors ProxyText.

Module ProxyTextFacts.
#[local] Arguments Ascii.eqb : simpl never.

(** ** A reader of server-sent events (the [EventSource] of the HTML standard)

    The line being read, reversed, and the data lines of the event, reversed. *)
Record reader := { rd_line : string; rd_data : list string }.
Definition idle : reader := {| rd_line := ""; rd_data := [] |}.

Definition end_line (r : reader) : reader * list string :=
  let line := srev (rd_line r) in
  if String.eqb line "" then
    (idle, match rd_data r with [] => [] | data => [Join newline (rev data)] end)
  else match CutPrefix "data:" line with
       | Some data => ({| rd_line := ""; rd_data := default data (CutPrefix " " data) :: rd_data r |}, [])
       | None => ({| rd_line := ""; rd_data := rd_data r |}, [])
       end.
Definition feed (r : reader) (c : ascii) : reader * list string :=
  if Ascii.eqb c LF then end_line r
  else ({| rd_line := String c (rd_line r); rd_data := rd_data r |}, []).
Fixpoint read_from (r : reader) (s : string) : reader * list string :=
  match s with
  | EmptyString => (r, [])
  | String c t =>
      let '(r1, e1) := feed r c in let '(r2, e2) := read_from r1 t in (r2, (e1 ++ e2)%list)
  end.
(** The events a client gets of a body. *)
Definition events (s : string) : list string := (read_from idle s).2.

Lemma read_app r s t :
  read_from r (s +:+ t)
  = ((read_from (read_from r s).1 t).1, ((read_from r s).2 ++ (read_from (read_from r s).1 t).2)%list).
Proof.
  revert r. induction s as [|c s IH]; intros r; unfold String.append in *; simpl.
  - by destruct (read_from r t).
  - destruct (feed r c) as [r1 e1]. specialize (IH r1). rewrite IH.
    destruct (read_from r1 s) as [r2 e2]; simpl. by rewrite app_assoc.
Qed.

Definition no_lf (s : string) : bool := forall_bytes (fun c => negb (Ascii.eqb c LF)) s.

Lemma read_chars r s :
  no_lf s = true -> read_from r s = ({| rd_line := srev s +:+ rd_line r; rd_data := rd_data r |}, []).
Proof.
  unfold no_lf. revert r. induction s as [|c s IH]; intros [line data]; [done|]. simpl.
  rewrite andb_true_iff, negb_true_iff. intros [Hc Hs]. unfold feed. rewrite Hc. rewrite IH by done.
  simpl. rewrite srev_cons. by rewrite <- sapp_assoc.
Qed.

(** A whole line, its line feed included. *)
Lemma read_line r s :
  no_lf s = true -> rd_line r = "" -> read_from r (s +:+ newline) = end_line {| rd_line := srev s; rd_data := rd_data r |}.
Proof.
  intros Hs Hr. rewrite read_app, (read_chars r s) by done. simpl. rewrite Hr, sapp_nil_r.
  unfold feed. simpl. destruct (end_line _) as [r2 e2]. simpl. by rewrite app_nil_r.
Qed.

Lemma SplitByte_no_lf s l : l ∈ SplitByte LF s -> no_lf l = true.
Proof.
  revert l. induction s as [|c s IH]; intros l; cbn [SplitByte].
  { intros ->%list_elem_of_singleton. done. }
  destruct (Ascii.eqb LF c) eqn:E.
  - intros [->|Hl]%elem_of_cons; [done|by apply IH].
  - assert (Ascii.eqb c LF = false) as E'.
    { apply Ascii.eqb_neq. apply Ascii.eqb_neq in E. congruence. }
    destruct (SplitByte LF s) as [|w ws].
    + intros ->%list_elem_of_singleton. cbn. by rewrite E'.
    + intros [->|Hl]%elem_of_cons; [|apply IH; by right].
      unfold no_lf. cbn. rewrite E'. apply IH. by left.
Qed.

Lemma SplitByte_cons s : exists w ws, SplitByte LF s = w :: ws.
Proof.
  destruct s as [|c s]; cbn; [do 2 eexists; reflexivity|].
  destruct (Ascii.eqb LF c); [do 2 eexists; reflexivity|].
  destruct (SplitByte LF s); do 2 eexists; reflexivity.
Qed.

Lemma Join_cons x y l : Join newline (x :: y :: l) = x +:+ newline +:+ Join newline (y :: l).
Proof. done. Qed.

Lemma Join_SplitByte s : Join newline (SplitByte LF s) = s.
Proof.
  induction s as [|c s IH]; [done|]. cbn [SplitByte].
  destruct (SplitByte_cons s) as (w & ws & E). rewrite E in *.
  destruct (Ascii.eqb LF c) eqn:Ec.
  - apply Ascii.eqb_eq in Ec as <-. rewrite Join_cons, IH. done.
  - destruct ws as [|w2 ws].
    + by rewrite <- IH.
    + rewrite Join_cons. rewrite Join_cons in IH. by rewrite <- IH.
Qed.

(** The lines of a framed payload give one event with all of them. *)
Lemma read_data_lines lines data :
  (forall l, l ∈ lines -> no_lf l = true) ->
  read_from {| rd_line := ""; rd_data := data |} (data_lines lines)
  = (idle, match (rev lines ++ data)%list with [] => [] | d => [Join newline (rev d)] end).
Proof.
  revert data. induction lines as [|line lines IH]; intros data Hl.
  { cbn. by destruct data. }
  change (data_lines (line :: lines)) with ("data: " +:+ line +:+ newline +:+ data_lines lines).
  assert (no_lf ("data: " +:+ line) = true) as Hno.
  { unfold no_lf. rewrite forall_bytes_app. simpl. apply Hl. by left. }
  rewrite (sapp_assoc "data: "), (sapp_assoc ("data: " +:+ line)), read_app, read_line by done.
  unfold end_line. cbn [rd_line rd_data]. rewrite srev_involutive.
  change (String.eqb ("data: " +:+ line) "") with false.
  change ("data: " +:+ line) with ("data:" +:+ (" " +:+ line)). cbv iota. rewrite CutPrefix_app.
  rewrite CutPrefix_app. cbn [fst snd rd_data default].
  rewrite IH by (intros l' H'; apply Hl; by right). simpl. by rewrite <- app_assoc.
Qed.

(** ** Frames *)
Lemma events_reset r s : (read_from r (s +:+ newline +:+ newline)).1 = idle.
Proof.
  rewrite sapp_assoc, read_app. simpl.
  assert (exists d, (read_from r (s +:+ newline)).1 = {| rd_line := ""; rd_data := d |}) as [d ->].
  { rewrite read_app. simpl. unfold feed. simpl. unfold end_line.
    destruct (String.eqb _ ""); [by eexists|]. destruct (CutPrefix "data:" _); by eexists. }
  done.
Qed.

Lemma SplitByte_lines p : forall l, l ∈ SplitByte LF p -> no_lf l = true.
Proof. intros l. apply SplitByte_no_lf. Qed.

Lemma read_framed_text p :
  isSSEPayload (unix_lines p) = false -> read_from idle (frameSSEPayload p) = (idle, [unix_lines p]).
Proof.
  intros Hp. unfold frameSSEPayload. rewrite Hp. unfold idle at 1.
  rewrite read_data_lines by apply SplitByte_lines. rewrite app_nil_r.
  destruct (rev (SplitByte LF (unix_lines p))) as [|l ls] eqn:Er.
  - apply (f_equal (@rev string)) in Er. rewrite rev_involutive in Er.
    destruct (SplitByte_cons (unix_lines p)) as (w & ws & E). by rewrite E in Er.
  - by rewrite <- Er, rev_involutive, Join_SplitByte.
Qed.

Lemma frame_idle p : (read_from idle (frameSSEPayload p)).1 = idle.
Proof.
  destruct (isSSEPayload (unix_lines p)) eqn:E; [|by rewrite read_framed_text].
  unfold frameSSEPayload. rewrite E. apply events_reset.
Qed.

Lemma events_frame p rest : events (frameSSEPayload p +:+ rest) = (events (frameSSEPayload p) ++ events rest)%list.
Proof. unfold events. rewrite read_app, frame_idle. done. Qed.

(** Each frame is self-contained: whatever follows it is read as if it came alone, and a
    payload that is no event stream itself arrives as one event, its line ends
    normalised and nothing else changed. *)
Theorem frames_read_back p rest :
  events (frameSSEPayload p +:+ rest) = (events (frameSSEPayload p) ++ events rest)%list
  /\ (isSSEPayload (unix_lines p) = false -> events (frameSSEPayload p) = [unix_lines p])
  /\ events done_frame = ["[DONE]"].
Proof.
  split_and!; [apply events_frame| |done]. intros Hp. unfold events. by rewrite read_framed_text.
Qed.

(** ** Headers *)
(** Every value of a name outside [keep] satisfies [P], and its name is [allowed]. *)
Definition vetted (allowed : list string) (target h : headers) : Prop :=
  forall key values v, (key, values) ∈ h -> v ∈ values ->
    (exists old, (key, old) ∈ target /\ v ∈ old)
    \/ safeHeaderValue v = true /\ exists name, mem (ToLower (TrimSpace name)) allowed = true
                                                /\ key = CanonicalHeaderKey name.

Lemma header_add_in key value h k vs v :
  (k, vs) ∈ header_add key value h -> v ∈ vs ->
  (exists old, (k, old) ∈ h /\ v ∈ old) \/ (k = key /\ v = value).
Proof.
  unfold header_add. destruct (mem key h.*1).
  - intros ([k0 vs0] & E & Hin)%list_elem_of_fmap Hv. simpl in E.
    destruct (String.eqb k0 key) eqn:Ek; [|injection E as -> ->; eauto].
    injection E as -> ->. apply String.eqb_eq in Ek as ->.
    apply elem_of_app in Hv as [Hv|Hv%list_elem_of_singleton]; [eauto|by right].
  - intros [Hin|E%list_elem_of_singleton]%elem_of_app Hv; [eauto|].
    injection E as -> ->. apply list_elem_of_singleton in Hv. by right.
Qed.

Lemma forward_values allowed target name values h :
  mem (ToLower (TrimSpace name)) allowed = true -> vetted allowed target h ->
  vetted allowed target (foldl (fun h v => if safeHeaderValue v
                                           then header_add (CanonicalHeaderKey name) v h else h) h values).
Proof.
  intros Hn. revert h. induction values as [|v values IH]; intros h Hh; [done|]. simpl. apply IH.
  destruct (safeHeaderValue v) eqn:Ev; [|done]. intros k vs x Hin Hx.
  destruct (header_add_in _ _ _ _ _ _ Hin Hx) as [(old & ? & ?)|[-> ->]]; [by eapply Hh|].
  right. split; [done|]. eauto.
Qed.

Lemma forward_vetted allowed source target h :
  vetted allowed target h ->
  vetted allowed target (foldl (fun h kv =>
    if mem (ToLower (TrimSpace kv.1)) allowed
    then foldl (fun h v => if safeHeaderValue v then header_add (CanonicalHeaderKey kv.1) v h else h) h kv.2
    else h) h source).
Proof.
  revert h. induction source as [|kv source IH]; intros h Hh; [done|]. simpl. apply IH.
  destruct (mem _ _) eqn:Em; [by apply forward_values|done].
Qed.

Lemma forward_safe allowed source target : vetted allowed target (forward allowed source target).
Proof. apply forward_vetted. intros k vs v Hin Hv. left. eauto. Qed.

Lemma header_set_in key values h k vs v :
  (k, vs) ∈ header_set key values h -> v ∈ vs ->
  (exists old, (k, old) ∈ h /\ v ∈ old) \/ (k = key /\ v ∈ values).
Proof.
  unfold header_set. destruct (mem key h.*1).
  - intros ([k0 vs0] & E & Hin)%list_elem_of_fmap Hv. simpl in E.
    destruct (String.eqb k0 key) eqn:Ek; [|injection E as -> ->; eauto].
    injection E as -> ->. apply String.eqb_eq in Ek as ->. by right.
  - intros [Hin|E%list_elem_of_singleton]%elem_of_app Hv; [eauto|]. injection E as -> ->. by right.
Qed.

(** What crosses to the upstream is on the list of protocol headers, with values that
    hold no CR, LF or NUL, beside the request identifier; in particular no credential,
    cookie or host of the client does.  What crosses back is on the list of response
    headers, beside what the handler had set. *)
Theorem only_listed_headers_cross source own id key values v :
  ((key, values) ∈ filteredRequestHeaders source id -> v ∈ values ->
     key = "X-Request-ID" /\ v = id
     \/ safeHeaderValue v = true /\ exists name, key = CanonicalHeaderKey name
          /\ ToLower (TrimSpace name) ∈ allowedRequestHeaders)
  /\ ((key, values) ∈ writeSafeResponseHeaders source own -> v ∈ values ->
     (exists old, (key, old) ∈ own /\ v ∈ old)
     \/ safeHeaderValue v = true /\ exists name, key = CanonicalHeaderKey name
          /\ ToLower (TrimSpace name) ∈ safeResponseHeaders).
Proof.
  split; intros Hin Hv.
  - destruct (header_set_in _ _ _ _ _ _ Hin Hv) as [(old & Hold & Hvo)|[-> Hid]].
    + destruct (forward_safe _ _ _ _ _ _ Hold Hvo) as [(o2 & Ho%elem_of_nil & _)|(Hs & name & Hm & ->)]; [done|].
      right. split; [done|]. exists name. split; [done|]. by apply mem_true.
    + apply list_elem_of_singleton in Hid as ->. by left.
  - destruct (forward_safe _ _ _ _ _ _ Hin Hv) as [Hold|(Hs & name & Hm & ->)]; [by left|].
    right. split; [done|]. exists name. split; [done|]. by apply mem_true.
Qed.
End ProxyTextFacts.
