(* ===== verification/ProxyStream.v ===== *)
(** * Package [internal/proxy]: writing an answer, and the loop of a stream

    [writeProxyError], [writeSSEError], [writeSSEDone] and [writeStream] of handler.go
    over the response of one request.  [Stream.Next] is third-party code behind an
    interface: a stream is the list of what its calls return, each with what the handler
    observes around it (the context of the request, the client's connection, the clock).
    A list that ends before the loop does is a call that has not returned. *)

From stdpp Require Import base gmap strings list.
From Stdlib Require Import ZArith Lia Ascii String.
From S2P Require Import Prelude GoLib Json Usage UsageExtract ProxyErrors ProxyText.
Import Usage UsageExtract ProxyErrors ProxyText.

Module ProxyStream.

(** ** [http.ResponseWriter] *)
Record response := { w_headers : headers; w_sent : option (Z * headers); w_body : string }.
Definition fresh_response : response := {| w_headers := []; w_sent := None; w_body := "" |}.

Definition set_header (key value : string) (w : response) : response :=
  {| w_headers := header_set key [value] (w_headers w); w_sent := w_sent w; w_body := w_body w |}.
Definition set_headers (h : headers) (w : response) : response :=
  {| w_headers := h; w_sent := w_sent w; w_body := w_body w |}.
Definition get_header (key : string) (w : response) : string :=
  match List.find (fun kv => String.eqb kv.1 key) (w_headers w) with
  | Some kv => default "" (head kv.2)
  | None => ""
  end.
(** The first [WriteHeader] counts; a [Write] implies status 200. *)
Definition WriteHeader (status : Z) (w : response) : response :=
  {| w_headers := w_headers w;
     w_sent := match w_sent w with Some s => Some s | None => Some (status, w_headers w) end;
     w_body := w_body w |}.
Definition Write (bytes : string) (w : response) : response :=
  let w := WriteHeader 200 w in
  {| w_headers := w_headers w; w_sent := w_sent w; w_body := w_body w +:+ bytes |}.

(** What a handler knows of its request: the path, the identifier, whether the writer
    flushes. *)
Record exchange := { x_path : string; x_id : string; x_flusher : bool }.

(** [writeProxyError] and [writeJSON]; the encoder ends the body with a newline. *)
Definition writeProxyError (x : exchange) (err : option goerr) (w : response) : response :=
  let m := mapPublicError err in
  let w := if String.eqb (me_retryAfter m) "" then w else set_header "Retry-After" (me_retryAfter m) w in
  let w := set_header "Cache-Control" "no-store" w in
  let w := if String.eqb (get_header "X-Request-Id" w) "" then set_header "X-Request-Id" (x_id x) w else w in
  Write (error_body m (x_id x) +:+ newline) (WriteHeader (me_status m)
    (set_header "Content-Type" "application/json" w)).

Definition writeSSEError (x : exchange) (err : option goerr) (w : response) : response :=
  Write (sse_error_frame (x_flusher x) (x_path x) (mapPublicError err) (x_id x)) w.
Definition writeSSEDone (w : response) : response := Write done_frame w.

(** ** Streams *)
(** One return of [Next]: the event, the error; whether [r.Context()] is cancelled when
    it is looked at once and twice afterwards, whether writing the payload fails, and
    the clock at its first payload. *)
Record next := {
  n_payload : string; n_done : bool; n_err : option goerr;
  n_gone : bool; n_gone_later : bool; n_write_fails : bool; n_at : time
}.
Record Stream := { s_headers : headers; s_events : list next }.

Record streamOutcome := {
  o_err : option goerr; o_cancelled : bool; o_wroteHeaders : bool; o_headers : headers;
  o_observed : TokenUsage; o_usageFound : bool; o_ttft : option Z
}.

(** The variables of the loop. *)
Record loop := {
  l_accumulator : Accumulator; l_firstPayloadAt : time; l_wroteHeaders : bool;
  l_chatDone : bool; l_responseTerminal : bool; l_terminalFailure : bool; l_hadPayload : bool
}.
Definition loop_start : loop :=
  {| l_accumulator := accumulator_zero; l_firstPayloadAt := 0; l_wroteHeaders := false;
     l_chatDone := false; l_responseTerminal := false; l_terminalFailure := false;
     l_hadPayload := false |}.

Definition stream_failed : goerr :=
  upstream {| ue_Class := "stream_failed"; ue_HTTPStatus := 502; ue_Retryable := false |}.

(** What a [return] of the loop says: the error, or [cancelled]. *)
Inductive ending := Finished (err : option goerr) | Cancelled.

Section stream.
Context `{MapOrder}.

Definition start_stream (h : headers) (w : response) : response :=
  WriteHeader 200
    (set_header "X-Accel-Buffering" "no" (set_header "Connection" "keep-alive"
      (set_header "Cache-Control" "no-store" (set_header "Content-Type" "text/event-stream"
        (set_headers (writeSafeResponseHeaders h (w_headers w)) w))))).

Definition is_failure_event (t : string) : bool :=
  mem t ["response.failed"; "response.incomplete"; "error"].

(** The payload of one event: the variables after it and the response; the writer may
    fail, then the loop is left with the headers written. *)
Definition observe_payload (path : list nat) (e : endpoint) (h : headers) (n : next) (l : loop)
    (w : response) : loop * response :=
  let w := if l_wroteHeaders l then w else start_stream h w in
  let w := Write (frameSSEPayload (n_payload n)) w in
  let first := if IsZero (l_firstPayloadAt l) then n_at n else l_firstPayloadAt l in
  let acc := Observe path (n_payload n) (l_accumulator l) in
  if n_write_fails n then
    ({| l_accumulator := acc; l_firstPayloadAt := first; l_wroteHeaders := true;
        l_chatDone := l_chatDone l; l_responseTerminal := l_responseTerminal l;
        l_terminalFailure := l_terminalFailure l; l_hadPayload := l_hadPayload l |}, w)
  else
    let t := match e with endpointResponses => responseEventType (n_payload n) | endpointChat => "" end in
    ({| l_accumulator := acc; l_firstPayloadAt := first; l_wroteHeaders := true;
        l_chatDone := l_chatDone l
          || match e with endpointChat => sseDonePayload (n_payload n) | endpointResponses => false end;
        l_responseTerminal := l_responseTerminal l || String.eqb t "response.completed" || is_failure_event t;
        l_terminalFailure := l_terminalFailure l || is_failure_event t;
        l_hadPayload := true |}, w).

(** After the payload: the ending, or [None] to go on with the next event. *)
Definition after_payload (x : exchange) (e : endpoint) (n : next) (l : loop) (w : response)
    : option ending * response :=
  let terminal := if l_terminalFailure l then Finished (Some stream_failed) else Finished None in
  let cancel := (Some Cancelled, if l_wroteHeaders l then w else writeProxyError x (Some (only ErrClientCancelled)) w) in
  let chat_done w := match e with endpointChat => writeSSEDone w | endpointResponses => w end in
  match n_err n with
  | None =>
      if l_chatDone l || l_responseTerminal l then (Some terminal, w)
      else if negb (n_done n) then (None, w)
      else if n_gone n then cancel
      else if negb (l_wroteHeaders l) then (Some (Finished (Some (only ErrEmptyStream))), w)
      else match e with
           | endpointChat =>
               (Some (Finished (Some (only ErrStreamIncomplete))),
                writeSSEDone (writeSSEError x (Some (only ErrStreamIncomplete)) w))
           | endpointResponses =>
               (Some (Finished (Some (only ErrStreamIncomplete))),
                if l_hadPayload l then writeSSEError x (Some (only ErrStreamIncomplete)) w else w)
           end
  | Some err =>
      if n_gone n then cancel
      else if Is err Canceled || Is err DeadlineExceeded then
        if n_gone_later n then cancel
        else (Some (Finished (Some err)),
              if l_wroteHeaders l then chat_done (writeSSEError x (Some err) w) else w)
      else if negb (Is err EOF) then
        (Some (Finished (Some err)),
         if l_wroteHeaders l then
           let w := writeSSEError x (Some err) w in
           match e with
           | endpointChat => if sseDonePayload (n_payload n) then w else writeSSEDone w
           | endpointResponses => w
           end
         else w)
      else if negb (l_wroteHeaders l) then (Some (Finished (Some (only ErrEmptyStream))), w)
      else match e with
           | endpointChat =>
               if l_chatDone l then (Some (Finished None), w)
               else (Some (Finished (Some (only ErrStreamIncomplete))),
                     writeSSEDone (writeSSEError x (Some (only ErrStreamIncomplete)) w))
           | endpointResponses =>
               if l_responseTerminal l then (Some terminal, w)
               else (Some (Finished (Some (only ErrStreamIncomplete))),
                     if l_hadPayload l then writeSSEError x (Some (only ErrStreamIncomplete)) w else w)
           end
  end.

(** One turn of the loop. *)
Definition turn (path : list nat) (x : exchange) (e : endpoint) (h : headers) (n : next) (l : loop)
    (w : response) : option ending * loop * response :=
  if String.eqb (n_payload n) "" then
    let '(r, w) := after_payload x e n l w in (r, l, w)
  else
    let '(l, w) := observe_payload path e h n l w in
    if n_write_fails n then (Some Cancelled, l, w)
    else let '(r, w) := after_payload x e n l w in (r, l, w).

Fixpoint stream_loop (i : nat) (x : exchange) (e : endpoint) (h : headers) (events : list next)
    (l : loop) (w : response) : option ending * loop * response :=
  match events with
  | [] => (None, l, w)
  | n :: events =>
      match turn [i] x e h n l w with
      | (None, l, w) => stream_loop (S i) x e h events l w
      | out => out
      end
  end.

(** [cloneObservedHeaders] copies. *)
Definition outcome_of (started : time) (h : headers) (r : ending) (l : loop) : streamOutcome :=
  {| o_err := match r with Finished err => err | Cancelled => None end;
     o_cancelled := match r with Cancelled => true | Finished _ => false end;
     o_wroteHeaders := l_wroteHeaders l; o_headers := h;
     o_observed := default zero_usage (Value (l_accumulator l));
     o_usageFound := match Value (l_accumulator l) with Some _ => true | None => false end;
     o_ttft := if IsZero (l_firstPayloadAt l) then None
               else let ttft := Sub (l_firstPayloadAt l) started in Some (if ttft <? 0 then 0 else ttft) |}.

(** The outcome, [None] while the stream is waited for.  [stream] may be nil. *)
Definition writeStream (started : time) (x : exchange) (e : endpoint) (stream : option Stream)
    (w : response) : option streamOutcome * response :=
  match stream with
  | None => (Some (outcome_of started [] (Finished (Some (only ErrEmptyStream))) loop_start), w)
  | Some s =>
      if negb (x_flusher x) then
        (Some (outcome_of started (s_headers s) (Finished (Some (only ErrStreamingUnsupported))) loop_start), w)
      else
        let '(r, l, w) := stream_loop 0 x e (s_headers s) (s_events s) loop_start w in
        (match r with Some r => Some (outcome_of started (s_headers s) r l) | None => None end, w)
  end.
End stream.
End ProxyStream.

(** * What a stream leaves at the client

    The invariant of the loop of [writeStream]: the body is the frames of the payloads
    read so far, and the flags say which markers they held. *)

From stdpp Require Import base gmap strings list.
From Stdlib Require Import ZArith Lia Ascii String.
From S2P Require Import Prelude GoLib Json Usage UsageExtract ProxyErrors ProxyText.
Import Usage UsageExtract ProxyErrors ProxyText ProxyStream.

Module ProxyStreamFacts.
#[local] Open Scope list_scope.

(** The payloads of the events, the empty ones left out. *)
Definition payloads (events : list next) : list string :=
  List.filter (fun p => negb (String.eqb p "")) (n_payload <$> events).
Definition frames (ps : list string) : string := foldr (fun p t => frameSSEPayload p +:+ t) "" ps.

(** The markers of each endpoint. *)
Definition chat_done (e : endpoint) (ps : list string) : bool :=
  match e with endpointChat => existsb sseDonePayload ps | endpointResponses => false end.
Definition failed_event (e : endpoint) (ps : list string) : bool :=
  match e with
  | endpointChat => false
  | endpointResponses => existsb (fun p => is_failure_event (responseEventType p)) ps
  end.
Definition completed_event (e : endpoint) (ps : list string) : bool :=
  match e with
  | endpointChat => false
  | endpointResponses => existsb (fun p => String.eqb (responseEventType p) "response.completed") ps
  end.

(** The stream said it was complete, and no part of it said it failed. *)
Definition well_ended (e : endpoint) (ps : list string) : bool :=
  (chat_done e ps || completed_event e ps) && negb (failed_event e ps).

Lemma frames_app ps qs : frames (ps ++ qs) = frames ps +:+ frames qs.
Proof. induction ps as [|p ps IH]; [done|]. simpl. by rewrite IH, sapp_assoc. Qed.

Lemma payloads_app a b : payloads (a ++ b) = payloads a ++ payloads b.
Proof. unfold payloads. by rewrite fmap_app, List.filter_app. Qed.

Lemma payloads_one n : payloads [n] = if String.eqb (n_payload n) "" then [] else [n_payload n].
Proof. unfold payloads. simpl. by destruct (String.eqb _ _). Qed.

Definition no_payload (ps : list string) : bool := match ps with [] => true | _ => false end.

(** ** The invariant, after the events [used] *)
Record loop_inv (e : endpoint) (w0 : response) (used : list next) (l : loop) (w : response) : Prop := {
  li_wrote : l_wroteHeaders l = negb (no_payload (payloads used));
  li_had : l_hadPayload l = negb (no_payload (payloads used));
  li_chat : l_chatDone l = chat_done e (payloads used);
  li_terminal : l_responseTerminal l = completed_event e (payloads used) || failed_event e (payloads used);
  li_failure : l_terminalFailure l = failed_event e (payloads used);
  li_body : w_body w = frames (payloads used);
  li_silent : payloads used = [] -> w = w0;
  li_sent : payloads used <> [] -> exists h, w_sent w = Some (200, h) /\ ("Content-Type", ["text/event-stream"]) ∈ h
}.

Lemma header_set_has k vs h : (k, vs) ∈ header_set k vs h.
Proof.
  unfold header_set. destruct (mem k h.*1) eqn:E.
  - apply mem_true in E. apply list_elem_of_fmap in E as ([k0 vs0] & -> & Hin).
    apply list_elem_of_fmap. exists (k0, vs0). simpl. by rewrite String.eqb_refl.
  - apply elem_of_app. right. by apply list_elem_of_singleton.
Qed.

Lemma header_set_other k vs k2 vs2 h : k2 <> k -> (k2, vs2) ∈ h -> (k2, vs2) ∈ header_set k vs h.
Proof.
  intros Hne Hin. unfold header_set. destruct (mem k h.*1); [|apply elem_of_app; by left].
  apply list_elem_of_fmap. exists (k2, vs2). simpl. by destruct (String.eqb_spec k2 k).
Qed.

Section stream.
Context `{MapOrder}.

Lemma start_stream_sent h w :
  w_sent w = None -> exists hs, w_sent (start_stream h w) = Some (200, hs)
                                /\ ("Content-Type", ["text/event-stream"]) ∈ hs.
Proof.
  intros Hw. unfold start_stream. cbn. rewrite Hw. eexists. split; [done|].
  do 3 (apply header_set_other; [done|]). apply header_set_has.
Qed.

Lemma Write_sent bytes w : is_Some (w_sent w) -> w_sent (Write bytes w) = w_sent w.
Proof. intros [s Hs]. unfold Write, WriteHeader. simpl. by rewrite Hs. Qed.
Lemma Write_body bytes w : w_body (Write bytes w) = w_body w +:+ bytes.
Proof. done. Qed.

(** A payload that is written keeps the invariant. *)
Lemma observe_inv path e h n used l w w0 l' w' :
  w_sent w0 = None -> loop_inv e w0 used l w -> n_payload n <> "" -> n_write_fails n = false ->
  observe_payload path e h n l w = (l', w') -> loop_inv e w0 (used ++ [n]) l' w'.
Proof.
  intros Hw0 HI Hp Hf. unfold observe_payload. rewrite Hf. cbv zeta. intros [= <- <-].
  assert (payloads (used ++ [n]) = payloads used ++ [n_payload n]) as E.
  { rewrite payloads_app, payloads_one. by destruct (String.eqb_spec (n_payload n) ""). }
  assert (no_payload (payloads used ++ [n_payload n]) = false) as En by (by destruct (payloads used)).
  set (w1 := if l_wroteHeaders l then w else start_stream h w).
  assert (w_body w1 = frames (payloads used)) as Hb.
  { rewrite <- (li_body _ _ _ _ _ HI). unfold w1. by destruct (l_wroteHeaders l). }
  assert (exists hs, w_sent w1 = Some (200, hs) /\ ("Content-Type", ["text/event-stream"]) ∈ hs) as (hs & Hs & Hct).
  { unfold w1. rewrite (li_wrote _ _ _ _ _ HI). destruct (payloads used) eqn:Ep.
    - apply start_stream_sent. by rewrite (li_silent _ _ _ _ _ HI Ep).
    - apply (li_sent _ _ _ _ _ HI). by rewrite Ep. }
  constructor; rewrite ?E, ?En; cbn [l_wroteHeaders l_hadPayload l_chatDone l_responseTerminal l_terminalFailure].
  - done.
  - done.
  - rewrite (li_chat _ _ _ _ _ HI). unfold chat_done. destruct e; rewrite ?existsb_app; simpl; by rewrite ?orb_false_r.
  - rewrite (li_terminal _ _ _ _ _ HI). unfold completed_event, failed_event. destruct e; [done|].
    rewrite !existsb_app. simpl. rewrite !orb_false_r. set (a := existsb _ _). set (b := existsb _ _).
    destruct a, b, (String.eqb _ _), (is_failure_event _); done.
  - rewrite (li_failure _ _ _ _ _ HI). unfold failed_event. destruct e; rewrite ?existsb_app; simpl; by rewrite ?orb_false_r.
  - rewrite Write_body, Hb, frames_app. simpl. by rewrite sapp_nil_r.
  - by destruct (payloads used).
  - intros _. exists hs. by rewrite Write_sent.
Qed.

Lemma silent_inv e n used l w w0 : loop_inv e w0 used l w -> n_payload n = "" -> loop_inv e w0 (used ++ [n]) l w.
Proof.
  intros HI Hp. assert (payloads (used ++ [n]) = payloads used) as E.
  { rewrite payloads_app, payloads_one, Hp. simpl. by rewrite app_nil_r. }
  destruct HI. by constructor; rewrite E.
Qed.

(** What follows the frames of the payloads [ps] when the loop ends with [err].  Nothing after
    a stream that ended well, when there was no payload, and after a response whose upstream
    itself sent the event of its failure; otherwise the error event of [err], and for a chat a
    last [DONE] when the upstream sent none. *)
Definition error_event (x : exchange) (err : goerr) : string :=
  sse_error_frame (x_flusher x) (x_path x) (mapPublicError (Some err)) (x_id x).
Inductive trailer (x : exchange) (e : endpoint) (ps : list string) : option goerr -> string -> Prop :=
| t_clean : well_ended e ps = true -> trailer x e ps None ""
| t_empty err : ps = [] -> trailer x e ps (Some err) ""
| t_failed : e = endpointResponses -> failed_event e ps = true -> trailer x e ps (Some stream_failed) ""
| t_told err : ps <> [] -> (e = endpointChat -> existsb sseDonePayload ps = true) ->
    trailer x e ps (Some err) (error_event x err)
| t_told_done err : ps <> [] -> e = endpointChat ->
    trailer x e ps (Some err) (error_event x err +:+ done_frame).

(** The client's end of a stream that finished. *)
Record delivered (x : exchange) (e : endpoint) (w0 : response) (used : list next) (err : option goerr)
    (l : loop) (w : response) : Prop := {
  de_wrote : l_wroteHeaders l = negb (no_payload (payloads used));
  de_body : exists t, w_body w = frames (payloads used) +:+ t /\ trailer x e (payloads used) err t;
  de_silent : payloads used = [] -> w = w0 /\ err <> None;
  de_sent : payloads used <> [] ->
    exists h, w_sent w = Some (200, h) /\ ("Content-Type", ["text/event-stream"]) ∈ h;
  de_ended : err = None -> well_ended e (payloads used) = true
}.

Lemma writeSSEError_body x err w :
  w_body (writeSSEError x err w) = w_body w +:+ sse_error_frame (x_flusher x) (x_path x) (mapPublicError err) (x_id x).
Proof. done. Qed.

Lemma sent_after_error x err w h : w_sent w = Some h -> w_sent (writeSSEError x err w) = Some h.
Proof. intros Hs. unfold writeSSEError. rewrite Write_sent; [done|by eexists]. Qed.
Lemma sent_after_done w h : w_sent w = Some h -> w_sent (writeSSEDone w) = Some h.
Proof. intros Hs. unfold writeSSEDone. rewrite Write_sent; [done|by eexists]. Qed.

(** A stream that ends with nothing more written. *)
Lemma delivered_quiet x e w0 used err l w :
  loop_inv e w0 used l w -> (payloads used = [] -> err <> None) ->
  (forall x, err = Some x -> payloads used = []
     \/ e = endpointResponses /\ failed_event e (payloads used) = true /\ x = stream_failed) ->
  (err = None -> well_ended e (payloads used) = true) ->
  delivered x e w0 used err l w.
Proof.
  intros HI Hs Hq He. destruct HI. constructor; [done| |by auto|done|done].
  exists "". rewrite sapp_nil_r. split; [done|]. destruct err as [er|]; [|constructor; by apply He].
  by destruct (Hq er eq_refl) as [?|(? & ? & ->)]; [apply t_empty|apply t_failed].
Qed.

(** One that ends with an error event, and a last [DONE] when [closing]. *)
Lemma delivered_told x e w0 used err (closing : bool) l w :
  loop_inv e w0 used l w -> payloads used <> [] -> (closing = true -> e = endpointChat) ->
  (closing = false -> e = endpointChat -> existsb sseDonePayload (payloads used) = true) ->
  delivered x e w0 used (Some err) l
    (if closing then writeSSEDone (writeSSEError x (Some err) w) else writeSSEError x (Some err) w).
Proof.
  intros HI Hne Hc Hd. destruct (li_sent _ _ _ _ _ HI Hne) as (h & Hs & Hct).
  pose proof (li_body _ _ _ _ _ HI) as Hb. pose proof (li_wrote _ _ _ _ _ HI) as Hw.
  pose proof (sent_after_error x (Some err) _ _ Hs) as Hs2. pose proof (sent_after_done _ _ Hs2) as Hs3.
  constructor; [done| |done| |done].
  - destruct closing.
    + eexists. split; [|apply (t_told_done x e _ err); [done|by apply Hc]].
      unfold writeSSEDone, error_event. rewrite Write_body, writeSSEError_body, Hb. by rewrite <- sapp_assoc.
    + exists (error_event x err). split; [by rewrite <- Hb|]. constructor; [done|by apply Hd].
  - intros _. exists h. split; [|done]. by destruct closing.
Qed.

Lemma no_payload_true ps : no_payload ps = true <-> ps = [].
Proof. by destruct ps. Qed.

(** The return of a turn that finishes. *)
Lemma after_payload_delivered x e w0 used n l w err w' :
  loop_inv e w0 (used ++ [n]) l w -> chat_done e (payloads used) = false ->
  after_payload x e n l w = (Some (Finished err), w') ->
  delivered x e w0 (used ++ [n]) err l w'.
Proof.
  intros HI Hold. set (all := used ++ [n]) in *.
  pose proof (li_wrote _ _ _ _ _ HI) as Hw. pose proof (li_had _ _ _ _ _ HI) as Hh.
  pose proof (li_chat _ _ _ _ _ HI) as Hc. pose proof (li_terminal _ _ _ _ _ HI) as Ht.
  pose proof (li_failure _ _ _ _ _ HI) as Hf.
  assert (forall err, no_payload (payloads all) = true -> delivered x e w0 all (Some err) l w) as Hempty.
  { intros er Hn%no_payload_true. apply delivered_quiet; [done|done| |done]. intros; by left. }
  assert (e = endpointResponses -> failed_event e (payloads all) = true ->
          delivered x e w0 all (Some stream_failed) l w) as Hresp.
  { intros -> Hbad. apply delivered_quiet; [done|done| |done]. intros ? [= <-]. by right. }
  assert (well_ended e (payloads all) = true -> delivered x e w0 all None l w) as Hclean.
  { intros Hok. apply delivered_quiet; [done| |done|done]. intros Hn. rewrite Hn in Hok. by destruct e. }
  unfold after_payload. rewrite Hw, Hh, Hc, Ht, Hf in *.
  destruct (no_payload (payloads all)) eqn:En.
  { apply no_payload_true in En as En'. rewrite En' in *. cbn [negb].
    assert (chat_done e [] = false /\ completed_event e [] = false /\ failed_event e [] = false) as (-> & -> & ->)
      by (by destruct e).
    cbn [orb]. repeat case_match; intros [= <- <-] || intros [=]; by apply Hempty. }
  assert (payloads all <> []) as Hne by (intros E; by rewrite E in En).
  pose proof (fun er closing => delivered_told x e w0 all er closing l w HI Hne) as Htold.
  assert (completed_event e (payloads all) || failed_event e (payloads all) = true ->
          failed_event e (payloads all) = false -> well_ended e (payloads all) = true) as Hwe.
  { intros Hor Hno. unfold well_ended. rewrite Hno, orb_false_r in *. rewrite Hor. by rewrite orb_true_r. }
  cbn [negb]. destruct e.
  - (* a chat *) cbn [chat_done completed_event failed_event orb] in *.
    destruct (n_err n) as [er|].
    + destruct (n_gone n); [done|]. destruct (Is er Canceled || Is er DeadlineExceeded).
      { destruct (n_gone_later n); [done|]. intros [= <- <-]. by apply (Htold er true). }
      destruct (negb (Is er EOF)).
      { intros [= <- <-]. destruct (sseDonePayload (n_payload n)) eqn:Ed; [|by apply (Htold er true)].
        apply (Htold er false); [done|]. intros _ _. apply existsb_exists. exists (n_payload n).
        split; [|done]. unfold all. rewrite payloads_app, payloads_one.
        destruct (String.eqb_spec (n_payload n) "") as [E0|]; [by rewrite E0 in Ed|].
        apply in_or_app. right. by left. }
      destruct (existsb sseDonePayload (payloads all)) eqn:Ex; intros [= <- <-].
      * apply Hclean. unfold well_ended. cbn. by rewrite Ex.
      * by apply (Htold _ true).
    + destruct (existsb sseDonePayload (payloads all)) eqn:Ex; cbn [orb].
      * intros [= <- <-]. apply Hclean. unfold well_ended. cbn. by rewrite Ex.
      * destruct (negb (n_done n)); [done|]. destruct (n_gone n); [done|].
        intros [= <- <-]. by apply (Htold _ true).
  - (* a response *) cbn [chat_done orb] in *.
    assert (forall er, delivered x endpointResponses w0 all (Some er) l (writeSSEError x (Some er) w)) as Htell.
    { intros er. by apply (Htold er false). }
    set (completed := completed_event endpointResponses (payloads all)) in *.
    set (bad := failed_event endpointResponses (payloads all)) in *.
    destruct (completed || bad) eqn:Et; destruct (n_err n) as [er|].
    + destruct (n_gone n); [done|]. destruct (Is er Canceled || Is er DeadlineExceeded).
      { destruct (n_gone_later n); [done|]. intros [= <- <-]. apply Htell. }
      destruct (negb (Is er EOF)); [intros [= <- <-]; apply Htell|].
      destruct bad; intros [= <- <-]; [by apply Hresp|by apply Hclean, Hwe].
    + destruct bad; intros [= <- <-]; [by apply Hresp|by apply Hclean, Hwe].
    + destruct (n_gone n); [done|]. destruct (Is er Canceled || Is er DeadlineExceeded).
      { destruct (n_gone_later n); [done|]. intros [= <- <-]. apply Htell. }
      destruct (negb (Is er EOF)); intros [= <- <-]; apply Htell.
    + destruct (negb (n_done n)); [done|]. destruct (n_gone n); [done|]. intros [= <- <-]. apply Htell.
Qed.

(** A turn that goes on. *)
Lemma after_payload_on x e n l w w' :
  after_payload x e n l w = (None, w') ->
  w' = w /\ n_err n = None /\ n_done n = false /\ l_chatDone l = false.
Proof.
  unfold after_payload. destruct (n_err n) as [er|].
  - repeat case_match; intros [=].
  - destruct (l_chatDone l) eqn:E; [done|]. simpl.
    destruct (l_responseTerminal l), (n_done n); simpl; repeat case_match; intros [=]; by subst.
Qed.

Lemma turn_cases path x e h n used l w w0 r l' w' :
  w_sent w0 = None -> loop_inv e w0 used l w -> turn path x e h n l w = (r, l', w') ->
  r = Some Cancelled
  \/ exists w1, loop_inv e w0 (used ++ [n]) l' w1 /\ after_payload x e n l' w1 = (r, w').
Proof.
  intros Hw0 HI. unfold turn. destruct (String.eqb_spec (n_payload n) "") as [Hp|Hp].
  - destruct (after_payload x e n l w) as [r0 w1] eqn:E. intros [= <- <- <-].
    right. exists w. split; [by apply silent_inv|done].
  - destruct (observe_payload path e h n l w) as [l1 w1] eqn:Eo.
    destruct (n_write_fails n) eqn:Ef; [intros [= <- <- <-]; by left|].
    destruct (after_payload x e n l1 w1) as [r0 w2] eqn:E. intros [= <- <- <-].
    right. exists w1. split; [by eapply observe_inv|done].
Qed.

Lemma loop_delivered i x e h events used l w w0 err l' w' :
  w_sent w0 = None -> loop_inv e w0 used l w -> chat_done e (payloads used) = false ->
  stream_loop i x e h events l w = (Some (Finished err), l', w') ->
  exists more rest, events = more ++ rest /\ delivered x e w0 (used ++ more) err l' w'.
Proof.
  intros Hw0. revert i used l w. induction events as [|n events IH]; intros i used l w HI Hc; [done|]. cbn [stream_loop].
  destruct (turn [i] x e h n l w) as [[r l1] w1] eqn:Et.
  destruct (turn_cases _ _ _ _ _ _ _ _ _ _ _ _ Hw0 HI Et) as [->|(w2 & HI2 & Ha)]; [done|].
  destruct r as [r|].
  - intros [= -> -> ->]. exists [n], events. split; [done|]. by eapply after_payload_delivered.
  - intros Hl. apply after_payload_on in Ha as (-> & _ & _ & Hd).
    destruct (IH (S i) (used ++ [n]) l1 w2 HI2) as (more & rest & -> & Hdel); [|done|].
    + by rewrite <- (li_chat _ _ _ _ _ HI2).
    + exists (n :: more), rest. split; [done|]. by rewrite <- app_assoc in Hdel.
Qed.

(** Every event that is the last one, or comes with an error, ends the loop. *)
Lemma loop_ends i x e h events l w n :
  n ∈ events -> n_done n = true \/ n_err n <> None ->
  exists r l' w', stream_loop i x e h events l w = (Some r, l', w').
Proof.
  revert i l w. induction events as [|n0 events IH]; intros i l w Hin Hend; [by apply elem_of_nil in Hin|].
  cbn [stream_loop]. destruct (turn [i] x e h n0 l w) as [[[r|] l1] w1] eqn:Et; [by eauto|].
  apply elem_of_cons in Hin as [->|Hin]; [|by apply IH]. exfalso. unfold turn in Et.
  assert (forall l w w', after_payload x e n0 l w = (None, w') -> False) as Hno.
  { intros l2 w2 w3 (_ & He & Hd & _)%after_payload_on. destruct Hend; congruence. }
  destruct (String.eqb _ _).
  - destruct (after_payload x e n0 l w) as [[?|] ?] eqn:E; [done|by eapply Hno].
  - destruct (observe_payload _ _ _ _ _ _) as [l2 w2]. destruct (n_write_fails n0); [done|].
    destruct (after_payload x e n0 l2 w2) as [[?|] ?] eqn:E; [done|by eapply Hno].
Qed.

Lemma loop_inv_start e w : w_body w = "" -> loop_inv e w [] loop_start w.
Proof. intros Hb. by constructor; destruct e. Qed.


(** The loop does not outlive its stream: as soon as [Next] returns an error or a last
    event, the handler returns, whatever came before. *)
Theorem streams_end started x e s w n :
  n ∈ s_events s -> n_done n = true \/ n_err n <> None ->
  exists o w', writeStream started x e (Some s) w = (Some o, w').
Proof.
  intros Hin Hend. unfold writeStream. destruct (negb (x_flusher x)); [by do 2 eexists|].
  destruct (loop_ends 0 x e (s_headers s) (s_events s) loop_start w n Hin Hend) as (r & l & w' & ->).
  by do 2 eexists.
Qed.
End stream.
End ProxyStreamFacts.
