(* ===== verification/ProxyUsage.v ===== *)
(** * Package [internal/proxy]: the usage state of a request ([usage.go])

    The world of one request: the tables of usage and billing, the response, and the
    calls it made whose effects are outside the model.  Every call outside the process
    is an event with a number: it is preceded by what others committed ([others]), may
    fail before or after its transaction committed ([fault]), and has its own clock
    readings and identifiers. *)

From stdpp Require Import base gmap strings list.
From Stdlib Require Import ZArith Lia Ascii String.
From S2P Require Import Prelude GoLib Usage UsageModel UsageRepo Pricing BillingModel Money.
From S2P Require Import Store BillingOps BillingService SchedulerModel Scheduler Coordinator.
From S2P Require Import UsageExtract ProxyErrors ProxyText ProxyStream.

Module ProxyUsage.
Import Usage UsageModel UsageRepo ProxyErrors ProxyText ProxyStream.
Import Store(btx, run_billing, SqlGuards, WallClock, DB).
Import BillingService(Service_Settle).

(** ** Inference requests and results ([internal/inference]) *)
Record ResolvedRoute := {
  ir_RouteID : string; ir_RouteVersionID : string; ir_ProviderID : string; ir_CredentialID : string;
  ir_RequestedModel : string; ir_ResolvedModel : string
}.
Record InferenceRequest := {
  iq_RequestID : string; iq_Route : ResolvedRoute; iq_SourceFormat : string; iq_ResponseFormat : string;
  iq_Headers : headers; iq_RequestPath : string; iq_Body : string; iq_Stream : bool
}.
Record ExecutionResult := { er_StatusCode : Z; er_Headers : headers; er_Body : string }.
Record CredentialResult := {
  cr_CredentialID : uuid; cr_Provider : string; cr_Model : string; cr_RouteModel : string;
  cr_Succeeded : bool; cr_ErrorClass : string; cr_HTTPStatus : Z; cr_CooldownUntil : option time;
  cr_ObservedAt : time
}.
(** [quota.ProbeRequest]. *)
Record ProbeRequest := {
  pb_CredentialID : uuid; pb_ProviderSlug : string; pb_Model : string; pb_ObservationKey : string
}.

(** Calls whose effects are not modelled, in order. *)
Inductive effect :=
| Executed (r : InferenceRequest)
| ObservedQuota (r : ProbeRequest) (h : headers) (at_ : time)
| Marked (r : CredentialResult)
| RecordedHealth (r : CredentialResult)
| ReleasedLease (s : Scheduler.Selection).

Record World := mkWorld { w_db : UDB; w_event : nat; w_resp : response; w_log : list effect }.
Abbreviation svc := (st World).

(** The caller, [apikey.Principal]. *)
Record Principal := {
  pc_UserID : uuid; pc_APIKeyID : uuid; pc_DailyBudgetMinor : option Z; pc_MonthlyBudgetMinor : option Z
}.
(** The fields of [route.Resolution] the proxy reads beside the scheduler's. *)
Record Resolution := { rs_ModelID : uuid; rs_Route : Sched.Resolution }.

(** A transaction that fails for the client: with its effects or without them. *)
Inductive failure := Lost (e : goerr) | RolledBack (e : goerr).

(** ** The state *)
Record usageState := {
  us_handle : RequestHandle; us_started : time;
  us_resolvedModelID : option uuid; us_routeVersionID : option uuid; us_providerID : option uuid;
  us_providerModelID : option uuid; us_credentialID : option uuid; us_selected : bool;
  us_price : Pricing.Snapshot; us_priceVersionID : option uuid; us_currency : string;
  us_reservation : option Billing.Reservation; us_done : bool
}.

Record usageCompletion := {
  uc_err : option goerr; uc_cancelled : bool; uc_observed : TokenUsage; uc_usageFound : bool;
  uc_latency : Z; uc_ttft : option Z; uc_upstreamStatus : Z
}.

Definition zero_snapshot : Pricing.Snapshot :=
  {| Pricing.s_VersionID := uuid_nil; Pricing.s_Scope := ""; Pricing.s_Currency := "";
     Pricing.s_EffectiveFrom := 0; Pricing.s_Prices := ∅; Pricing.s_Free := false |}.

Definition new_state (handle : RequestHandle) (started : time) : usageState :=
  {| us_handle := handle; us_started := started; us_resolvedModelID := None; us_routeVersionID := None;
     us_providerID := None; us_providerModelID := None; us_credentialID := None; us_selected := false;
     us_price := zero_snapshot; us_priceVersionID := None; us_currency := ""; us_reservation := None;
     us_done := false |}.

Definition setResolution (r : Resolution) (s : usageState) : usageState :=
  {| us_handle := us_handle s; us_started := us_started s;
     us_resolvedModelID := uuidPtrOrNil (rs_ModelID r);
     us_routeVersionID := uuidPtrOrNil (Sched.VersionID (rs_Route r));
     us_providerID := us_providerID s; us_providerModelID := us_providerModelID s;
     us_credentialID := us_credentialID s; us_selected := us_selected s; us_price := us_price s;
     us_priceVersionID := us_priceVersionID s; us_currency := us_currency s;
     us_reservation := us_reservation s; us_done := us_done s |}.

(** A zero [Target] has nil identifiers and empty texts. *)
Definition target_id (f : Sched.Target -> uuid) (s : Scheduler.Selection) : uuid :=
  default uuid_nil (f <$> Scheduler.s_Target s).
Definition target_text (f : Sched.Target -> string) (s : Scheduler.Selection) : string :=
  default "" (f <$> Scheduler.s_Target s).
Definition credential_id (s : Scheduler.Selection) : uuid := default uuid_nil (Scheduler.s_CredentialID s).

(** A field that is only set to an identifier that is not nil. *)
Definition set_id (value : uuid) (old : option uuid) : option uuid :=
  match uuidPtrOrNil value with Some u => Some u | None => old end.

Definition setSelection (sel : Scheduler.Selection) (s : usageState) : usageState :=
  {| us_handle := us_handle s; us_started := us_started s;
     us_resolvedModelID := us_resolvedModelID s;
     us_routeVersionID := set_id (target_id Sched.t_RouteVersionID sel) (us_routeVersionID s);
     us_providerID := set_id (target_id Sched.t_ProviderID sel) (us_providerID s);
     us_providerModelID := set_id (target_id Sched.t_ProviderModelID sel) (us_providerModelID s);
     us_credentialID := set_id (credential_id sel) (us_credentialID s);
     us_selected := negb (uuid_eqb (credential_id sel) uuid_nil); us_price := us_price s;
     us_priceVersionID := us_priceVersionID s; us_currency := us_currency s;
     us_reservation := us_reservation s; us_done := us_done s |}.

Definition setPrice (snapshot : Pricing.Snapshot) (s : usageState) : usageState :=
  {| us_handle := us_handle s; us_started := us_started s; us_resolvedModelID := us_resolvedModelID s;
     us_routeVersionID := us_routeVersionID s; us_providerID := us_providerID s;
     us_providerModelID := us_providerModelID s; us_credentialID := us_credentialID s;
     us_selected := us_selected s; us_price := snapshot;
     us_priceVersionID := set_id (Pricing.s_VersionID snapshot) (us_priceVersionID s);
     us_currency := Pricing.s_Currency snapshot; us_reservation := us_reservation s;
     us_done := us_done s |}.

Definition clone_reservation (r : Billing.Reservation) : Billing.Reservation :=
  {| Billing.r_ID := Billing.r_ID r; Billing.r_WalletID := Billing.r_WalletID r;
     Billing.r_UserID := Billing.r_UserID r; Billing.r_APIKeyID := cloneUUIDPtr (Billing.r_APIKeyID r);
     Billing.r_RequestID := Billing.r_RequestID r;
     Billing.r_RequestRecordID := cloneUUIDPtr (Billing.r_RequestRecordID r);
     Billing.r_ModelID := cloneUUIDPtr (Billing.r_ModelID r);
     Billing.r_ProviderModelID := cloneUUIDPtr (Billing.r_ProviderModelID r);
     Billing.r_RouteVersionID := cloneUUIDPtr (Billing.r_RouteVersionID r);
     Billing.r_ProviderID := cloneUUIDPtr (Billing.r_ProviderID r);
     Billing.r_CredentialID := cloneUUIDPtr (Billing.r_CredentialID r);
     Billing.r_PriceVersionID := Billing.r_PriceVersionID r;
     Billing.r_EstimatedUsage := Billing.r_EstimatedUsage r;
     Billing.r_ReservationKey := Billing.r_ReservationKey r; Billing.r_AmountMinor := Billing.r_AmountMinor r;
     Billing.r_Currency := Billing.r_Currency r; Billing.r_Status := Billing.r_Status r;
     Billing.r_SettledAmountMinor := Billing.r_SettledAmountMinor r;
     Billing.r_UsageEventID := cloneUUIDPtr (Billing.r_UsageEventID r); Billing.r_Reason := Billing.r_Reason r;
     Billing.r_ExpiresAt := Billing.r_ExpiresAt r; Billing.r_CreatedAt := Billing.r_CreatedAt r;
     Billing.r_UpdatedAt := Billing.r_UpdatedAt r |}.

Definition setReservation (r : Billing.Reservation) (s : usageState) : usageState :=
  {| us_handle := us_handle s; us_started := us_started s; us_resolvedModelID := us_resolvedModelID s;
     us_routeVersionID := us_routeVersionID s; us_providerID := us_providerID s;
     us_providerModelID := us_providerModelID s; us_credentialID := us_credentialID s;
     us_selected := us_selected s; us_price := us_price s; us_priceVersionID := us_priceVersionID s;
     us_currency := us_currency s; us_reservation := Some (clone_reservation r); us_done := us_done s |}.

(** ** What [finalize] records, before the database *)
(** [gone]: the context of the request is cancelled. *)
Definition completion_status (c : usageCompletion) (gone : bool) : string :=
  let errs s := match uc_err c with Some e => Is e s | None => false end in
  if uc_cancelled c || errs ErrClientCancelled || (errs Canceled && gone) then StatusCancelled
  else match uc_err c with
       | Some _ => StatusFailed
       | None => if uc_usageFound c then StatusSucceeded else StatusReconcileNeeded
       end.

Definition http_status_ok (s : Z) : bool := (100 <=? s) && (s <=? 599).
Definition upstream_status (c : usageCompletion) : option Z :=
  if http_status_ok (uc_upstreamStatus c) then Some (uc_upstreamStatus c) else
  match uc_err c ≫= e_upstream with
  | Some u => if http_status_ok (ue_HTTPStatus u) then Some (ue_HTTPStatus u) else None
  | None => None
  end.

Definition attempt_input (s : usageState) : option AttemptInput :=
  if us_selected s then
    Some {| at_AttemptNo := 0; at_RouteVersionID := cloneUUIDPtr (us_routeVersionID s);
            at_ProviderID := cloneUUIDPtr (us_providerID s);
            at_ProviderModelID := cloneUUIDPtr (us_providerModelID s);
            at_CredentialID := cloneUUIDPtr (us_credentialID s); at_StartedAt := us_started s |}
  else None.

(** The reservation, when it holds something: its status is not [ReservationNone]. *)
Definition held (s : usageState) : option Billing.Reservation :=
  match us_reservation s with
  | Some r => if String.eqb (Billing.r_Status r) Billing.ReservationNone then None else Some r
  | None => None
  end.

(** The amount, whether it is estimated, the currency and the wallet. *)
Definition charge (billing : bool) (s : usageState) (c : usageCompletion)
  : result goerr (option Z * bool * string * option uuid) :=
  match billing, us_priceVersionID s with
  | true, Some _ =>
      let wallet := held s ≫= (fun r => uuidPtrOrNil (Billing.r_WalletID r)) in
      match negb (uc_usageFound c), held s with
      | true, Some r => Ok (Some (Billing.r_AmountMinor r), true, us_currency s, wallet)
      | _, _ =>
          match Money.Quote_ (us_price s) (uc_observed c) with
          | Ok q => Ok (Some (Billing.q_AmountMinor q), false, us_currency s, wallet)
          | Err _ => Err (only ErrUsageUnavailable)
          end
      end
  | _, _ => Ok (None, false, "", None)
  end.

Definition finalize_input (s : usageState) (c : usageCompletion) (gone : bool) (latency : Z)
    (finished : time) (amount : option Z) (estimated : bool) (currency : string) (wallet : option uuid)
  : FinalizeInput :=
  {| fi_Attempt := attempt_input s; fi_ResolvedModelID := cloneUUIDPtr (us_resolvedModelID s);
     fi_ProviderID := cloneUUIDPtr (us_providerID s);
     fi_ProviderModelID := cloneUUIDPtr (us_providerModelID s);
     fi_RouteVersionID := cloneUUIDPtr (us_routeVersionID s);
     fi_CredentialID := cloneUUIDPtr (us_credentialID s);
     fi_PriceVersionID := cloneUUIDPtr (us_priceVersionID s); fi_WalletID := cloneUUIDPtr wallet;
     fi_Usage := uc_observed c; fi_AmountMinor := amount; fi_Currency := currency;
     fi_Estimated := estimated;
     fi_Provenance := if uc_usageFound c then ProvenanceAdapter else ProvenanceMissingUsage;
     fi_TerminalStatus := completion_status c gone; fi_UpstreamStatus := upstream_status c;
     fi_ErrorClass := errorClass (uc_err c); fi_Latency := latency; fi_TTFT := uc_ttft c;
     fi_FinishedAt := finished |}.

Section state.
Context `{UuidText, TimeText, SqlGuards, UsageGuards, OutboxBirth, WallClock}.
(** The clock (an event, a reading of it), the identifiers a call draws, other requests,
    faults, and the context of the request. *)
Context (clock : nat -> nat -> time) (ids : nat -> list uuid) (others : nat -> UDB -> UDB)
        (fault : nat -> option failure) (gone : nat -> bool).
(** The recorder and the billing coordinator may be nil. *)
Context (has_usage has_billing : bool).

Definition next_event : svc nat := fun w =>
  (mkWorld (w_db w) (S (w_event w)) (w_resp w) (w_log w), w_event w).
Definition now : svc time := n ← next_event; mret (clock n 0%nat).
Definition is_gone : svc bool := n ← next_event; mret (gone n).
Definition log (e : effect) : svc unit := fun w =>
  (mkWorld (w_db w) (w_event w) (w_resp w) (w_log w ++ [e])%list, tt).
Definition respond (f : response -> response) : svc unit := fun w =>
  (mkWorld (w_db w) (w_event w) (f (w_resp w)) (w_log w), tt).

(** A transaction of another package, its error as the proxy sees it. *)
Definition transact {E A} (of_error : E -> goerr) (f : nat -> UDB -> UDB * result E A)
  : svc (result goerr A) := fun w =>
  let n := w_event w in
  let p := others n (w_db w) in
  let '(p', r) := f n p in
  let out := match fault n with
             | None => (p', map_err of_error r)
             | Some (Lost e) => (p', Err e)
             | Some (RolledBack e) => (p, Err e)
             end in
  (mkWorld out.1 (S n) (w_resp w) (w_log w), out.2).

Definition billing_call {A} (f : nat -> btx A) : nat -> UDB -> UDB * result Billing.error A := fun n p =>
  let '(d, r) := run_billing (ids n) (f n) (books p) in (set_books (fun _ => d) p, r).

Definition beginUsage (id : string) (principal : Principal) (e : endpoint) (parsed : parsedRequest)
  : svc (result goerr (option usageState)) :=
  if negb has_usage then mret (Ok None) else
  started ← now;
  let input := {| si_RequestID := id; si_UserID := pc_UserID principal;
                  si_APIKeyID := pc_APIKeyID principal; si_Endpoint := endpoint_path e;
                  si_RequestedModel := p_Model parsed; si_Stream := p_Stream parsed;
                  si_StartedAt := started |} in
  r ← transact (fun e => only (OfUsage e))
        (fun n => Service_BeginRequest (ids n) input (clock n 0%nat) (clock n 1%nat));
  match r with
  | Err _ => mret (Err (only ErrUsageUnavailable))
  | Ok handle =>
      if negb (String.eqb (rh_TerminalStatus handle) "")
      then mret (Err (only (OfUsage ErrRequestAlreadyClosed)))
      else mret (Ok (Some (new_state handle started)))
  end.

(** The settlement of a recorded event.  [ErrSettlementPending], which [Settle] returns
    after its commit, is no failure: it is the flag of [Service_Settle]'s result. *)
Definition settle (s : usageState) (event : Event) : svc (option goerr) :=
  match held s with
  | Some r =>
      if negb has_billing || String.eqb (Billing.r_Status r) Billing.ReservationReleased then mret None else
      settled ← transact (fun e => only (OfBilling e))
        (billing_call (fun n => Service_Settle {| Billing.si_ReservationID := Billing.r_ID r;
                                                  Billing.si_Event := event |} (clock n 0%nat)));
      mret (match settled with
            | Ok _ => None
            | Err _ => Some (only ErrUsageUnavailable)
            end)
  | None => mret None
  end.

(** [finalize]: the error, if any.  Nothing finalises a request twice. *)
Definition finalize (s : usageState) (c : usageCompletion) : svc (option goerr) :=
  if us_done s then mret None else
  at_start ← now;
  let since := Sub at_start (us_started s) in
  let latency := if uc_latency c <=? 0 then (if since <? 0 then 0 else since) else uc_latency c in
  cancelled ← is_gone;
  match charge has_billing s c with
  | Err e => mret (Some e)
  | Ok (amount, estimated, currency, wallet) =>
      finished ← now;
      r ← transact (fun e => only (OfUsage e))
            (fun n => Service_Finalize (ids n) (us_handle s)
              (finalize_input s c cancelled latency finished amount estimated currency wallet)
              (clock n 0%nat) (clock n 1%nat));
      match r with
      | Err _ => mret (Some (only ErrUsageUnavailable))
      | Ok event => settle s event
      end
  end.

(** [finalizeUsage] of a state that may be nil. *)
Definition finalizeUsage (state : option usageState) (c : usageCompletion) : svc (option goerr) :=
  match state with None => mret None | Some s => finalize s c end.

Definition failed_with (err : goerr) (cancelled : bool) : usageCompletion :=
  {| uc_err := Some err; uc_cancelled := cancelled; uc_observed := zero_usage; uc_usageFound := false;
     uc_latency := 0; uc_ttft := None; uc_upstreamStatus := 0 |}.
Definition finalizeUsageFailure (state : option usageState) (err : goerr) : svc (option goerr) :=
  cancelled ← is_gone;
  finalizeUsage state (failed_with err cancelled).

Definition usageRecordID (state : option usageState) : option uuid :=
  state ≫= (fun s => RecordIDPointer (us_handle s)).
End state.
End ProxyUsage.
