(* ===== verification/Proxy.v ===== *)
(** * Package [internal/proxy]: the handler ([handler.go], [quota.go], [NewHandler])

    One request from [ServeHTTP] to its answer.  The interfaces of model.go (keys,
    catalogue, routes, scheduler, prices, engine) are arguments, asked at a numbered event;
    the usage recorder and the billing coordinator are the services of [UsageRepo] and
    [BillingService] over one database. *)

From stdpp Require Import base gmap strings list.
From Stdlib Require Import ZArith Lia Ascii String.
From S2P Require Import Prelude GoLib Json Usage UsageModel UsageRepo Pricing BillingModel.
From S2P Require Import Store BillingService SchedulerModel Coordinator Scheduler.
From S2P Require Import UsageExtract ProxyErrors ProxyText ProxyStream ProxyUsage.

Module Proxy.
Import Usage UsageModel UsageRepo UsageExtract ProxyErrors ProxyText ProxyStream ProxyUsage.
Import Store(SqlGuards, WallClock).
Import BillingService(Service_Reserve).

(** ** Construction *)
(** The optional parts of [Options]. *)
Record Parts := {
  has_keys : bool; has_models : bool; has_routes : bool; has_scheduler : bool; has_engine : bool;
  has_health : bool; has_runtime : bool; has_quota : bool; has_usage : bool; has_prices : bool;
  has_billing : bool; has_lister : bool
}.
Record Settings := {
  maxBodyBytes : Z; leaseTTL : Z; strategy : string; quotaPolicy : Sched.QuotaPolicy;
  reserveOutputTokens : Z
}.

(** [NewHandler]: the settings with their defaults, or a refusal. *)
Definition NewHandler (parts : Parts) (s : Settings) : option Settings :=
  if negb (has_keys parts) || negb (has_models parts) then None else
  if has_engine parts && negb (has_usage parts && has_prices parts && has_billing parts) then None else
  let body := if maxBodyBytes s =? 0 then defaultMaxBodyBytes else maxBodyBytes s in
  if (body <? 1) || (33554432 <? body) then None else
  let ttl := if leaseTTL s =? 0 then defaultLeaseTTL else leaseTTL s in
  if ttl <=? 0 then None else
  Some {| maxBodyBytes := body; leaseTTL := ttl;
          strategy := if String.eqb (strategy s) "" then Sched.StrategyRoundRobin else strategy s;
          quotaPolicy := quotaPolicy s; reserveOutputTokens := reserveOutputTokens s |}.

(** [newLeaseKeeper]: how often the keeper of a lease renews it. *)
Definition keeper_interval (ttl : Z) : Z :=
  let interval := Z.quot ttl 3 in if interval <? Second then Second else interval.

(** ** Requests and catalogue pages *)
Record HttpRequest := {
  hr_Method : string; hr_Path : string; hr_ContextID : string; hr_RequestIDHeader : string;
  hr_Headers : headers; hr_Body : request_body; hr_Flusher : bool; hr_FreshID : uuid
}.
Record CatalogModel := { cm_PublicID : string; cm_CreatedAt : time }.
Record CatalogPage := { cp_Models : list CatalogModel; cp_NextCursor : string }.

(** The parts that are interfaces of other packages. *)
Record Services := {
  sv_principal : option Principal;
  sv_authorized : nat -> result goerr (list string);
  sv_list : nat -> string -> result goerr CatalogPage;
  sv_resolve : nat -> string -> result goerr string;
  sv_authorize : nat -> Principal -> string -> Z -> option goerr;
  sv_route : nat -> string -> result goerr Resolution;
  sv_select : nat -> Sched.Request -> result goerr Scheduler.Selection;
  sv_price : nat -> uuid -> option uuid -> time -> result goerr Pricing.Snapshot;
  sv_execute : nat -> InferenceRequest -> result goerr ExecutionResult;
  sv_stream : nat -> InferenceRequest -> result goerr (option Stream)
}.

Section handler.
Context `{UuidText, TimeText, SqlGuards, UsageGuards, OutboxBirth, WallClock, MapOrder}.
Context (clock : nat -> nat -> time) (ids : nat -> list uuid) (others : nat -> UDB -> UDB)
        (fault : nat -> option failure) (gone : nat -> bool).
Context (parts : Parts) (settings : Settings) (services : Services).

Local Abbreviation finalizeUsage :=
  (ProxyUsage.finalizeUsage clock ids others fault gone (has_billing parts)).
Local Abbreviation finalizeUsageFailure :=
  (ProxyUsage.finalizeUsageFailure clock ids others fault gone (has_billing parts)).
Local Abbreviation now := (ProxyUsage.now clock).

Definition ask {A} (f : nat -> A) : svc A := n ← next_event; mret (f n).

(** ** Reports *)
Definition observeQuota (selection : Scheduler.Selection) (request : InferenceRequest) (h : headers)
    (observedAt : time) : svc unit :=
  if negb (has_quota parts) || uuid_eqb (credential_id selection) uuid_nil then mret tt else
  let provider := TrimSpace (ir_ProviderID (iq_Route request)) in
  let provider := if String.eqb provider "" then TrimSpace (target_text Sched.t_ProviderSlug selection)
                  else provider in
  if String.eqb provider "" then mret tt else
  log (ObservedQuota {| pb_CredentialID := credential_id selection; pb_ProviderSlug := provider;
                        pb_Model := TrimSpace (ir_ResolvedModel (iq_Route request));
                        pb_ObservationKey := TrimSpace (iq_RequestID request) |} h observedAt).

Definition credential_result (selection : Scheduler.Selection) (err : option goerr) (observedAt : time)
  : CredentialResult :=
  let model := TrimSpace (target_text Sched.t_UpstreamModelID selection) in
  let status := match err with Some e => errorStatus e | None => 0 end in
  {| cr_CredentialID := credential_id selection;
     cr_Provider := TrimSpace (target_text Sched.t_ProviderSlug selection);
     cr_Model := model; cr_RouteModel := model;
     cr_Succeeded := match err with None => true | Some _ => false end;
     cr_ErrorClass := errorClass err; cr_HTTPStatus := status;
     cr_CooldownUntil := if status =? 429 then Some (observedAt + Minute)
                         else if 500 <=? status then Some (observedAt + 30 * Second) else None;
     cr_ObservedAt := observedAt |}.

Definition reportResult (selection : Scheduler.Selection) (err : option goerr) : svc unit :=
  if uuid_eqb (credential_id selection) uuid_nil then mret tt else
  if match err with Some e => Is e Canceled || Is e ErrClientCancelled | None => false end then mret tt else
  observedAt ← now;
  let result := credential_result selection err observedAt in
  (if has_runtime parts then log (Marked result) else mret tt);;
  (if has_health parts then log (RecordedHealth result) else mret tt).

(** [writeProxyError] of the finalisation's error, or of the request's. *)
Definition refuse (x : exchange) (finalizeErr : option goerr) (err : goerr) : svc unit :=
  respond (writeProxyError x (Some (default err finalizeErr))).

(** An error before the upstream request: the record is finalised, then answered. *)
Definition fail (x : exchange) (state : option usageState) (err : goerr) : svc unit :=
  finalizeErr ← finalizeUsageFailure state err;
  refuse x finalizeErr err.

(** ** Executing *)
Definition success_status (status : Z) : bool := (200 <=? status) && (status <? 300).

Definition write_result (result : ExecutionResult) (status : Z) (w : response) : response :=
  Write (er_Body result) (WriteHeader status
    (set_header "Content-Type" "application/json" (set_header "Cache-Control" "no-store"
      (set_headers (writeSafeResponseHeaders (er_Headers result) (w_headers w)) w)))).

Definition executeJSON (x : exchange) (selection : Scheduler.Selection) (request : InferenceRequest)
    (state : option usageState) : svc unit :=
  log (Executed request);;
  answer ← ask (fun n => sv_execute services n request);
  match answer with
  | Err err =>
      finalizeErr ← finalizeUsageFailure state err;
      reportResult selection (Some err);;
      refuse x finalizeErr err
  | Ok result =>
      let status := if er_StatusCode result =? 0 then 200 else er_StatusCode result in
      let observed := ExtractJSON [] (er_Body result) in
      observedAt ← now;
      observeQuota selection request (er_Headers result) observedAt;;
      let completion err := {| uc_err := err; uc_cancelled := false;
        uc_observed := default zero_usage observed; uc_usageFound := bool_decide (is_Some observed);
        uc_latency := 0; uc_ttft := None; uc_upstreamStatus := status |} in
      if negb (success_status status) || String.eqb (TrimSpace (er_Body result)) ""
         || negb (Json.Valid (er_Body result)) then
        let err := if negb (success_status status)
                   then upstream {| ue_Class := "upstream_response"; ue_HTTPStatus := status;
                                    ue_Retryable := false |}
                   else only ErrMalformedResponse in
        finalizeErr ← finalizeUsage state (completion (Some err));
        reportResult selection (Some err);;
        refuse x finalizeErr err
      else
        finalizeErr ← finalizeUsage state (completion None);
        reportResult selection None;;
        match finalizeErr with
        | Some e => respond (writeProxyError x (Some e))
        | None => respond (write_result result status)
        end
  end.

(** What is told of an error once the stream is written. *)
Definition tell (x : exchange) (wroteHeaders : bool) (err : option goerr) : svc unit :=
  respond (if wroteHeaders then writeSSEError x err else writeProxyError x err).

(** [false]: the stream has not ended yet. *)
Definition executeStream (x : exchange) (e : endpoint) (selection : Scheduler.Selection)
    (request : InferenceRequest) (state : option usageState) : svc bool :=
  log (Executed request);;
  answer ← ask (fun n => sv_stream services n request);
  match answer with
  | Err err =>
      finalizeErr ← finalizeUsageFailure state err;
      reportResult selection (Some err);;
      refuse x finalizeErr err;;
      mret true
  | Ok stream =>
      started ← now;
      out ← (fun w => let '(o, r) := writeStream started x e stream (w_resp w) in
                      (mkWorld (w_db w) (w_event w) r (w_log w), o));
      match out with
      | None => mret false
      | Some outcome =>
          observedAt ← now;
          observeQuota selection request (o_headers outcome) observedAt;;
          finalizeErr ← finalizeUsage state
            {| uc_err := o_err outcome; uc_cancelled := o_cancelled outcome;
               uc_observed := o_observed outcome; uc_usageFound := o_usageFound outcome;
               uc_latency := 0; uc_ttft := o_ttft outcome;
               uc_upstreamStatus := if o_wroteHeaders outcome then 200 else 0 |};
          (if o_cancelled outcome then mret tt else
           match o_err outcome with
           | Some err =>
               reportResult selection (Some err);;
               match finalizeErr with
               | Some e => tell x (o_wroteHeaders outcome) (Some e)
               | None => if o_wroteHeaders outcome then mret tt
                         else respond (writeProxyError x (Some err))
               end
           | None =>
               reportResult selection None;;
               match finalizeErr with
               | Some e => tell x (o_wroteHeaders outcome) (Some e)
               | None => mret tt
               end
           end);;
          mret true
      end
  end.

(** ** Completing *)
Definition required_quota (body : string) (parsed : parsedRequest) : Sched.QuotaPolicy :=
  let policy := quotaPolicy settings in
  if Sched.qp_Enabled policy then
    let tokens := estimateTokens body in
    let tokens := if 0 <? p_MaxOutputTokens parsed then i64_add tokens (p_MaxOutputTokens parsed) else tokens in
    {| Sched.qp_Enabled := true; Sched.qp_WindowKind := Sched.qp_WindowKind policy;
       Sched.qp_RequiredTokens := if Sched.qp_RequiredTokens policy <? tokens then tokens
                                  else Sched.qp_RequiredTokens policy;
       Sched.qp_MaxAge := Sched.qp_MaxAge policy; Sched.qp_RequireFresh := Sched.qp_RequireFresh policy |}
  else policy.

Definition schedule_request (x : exchange) (e : endpoint) (principal : Principal) (publicID : string)
    (resolution : Resolution) (state : option usageState) (body : string) (parsed : parsedRequest)
    (at_ : time) : Sched.Request :=
  {| Sched.rq_RequestID := x_id x; Sched.rq_RequestRecordID := usageRecordID state;
     Sched.rq_AttemptNo := 0; Sched.rq_DecisionNo := 0; Sched.rq_Resolution := rs_Route resolution;
     Sched.rq_Protocol := protocol e; Sched.rq_RequiredCapabilities := requiredCapabilities e parsed;
     Sched.rq_Region := ""; Sched.rq_ProxyRef := ""; Sched.rq_RequireProxy := false;
     Sched.rq_Quota := required_quota body parsed; Sched.rq_Strategy := strategy settings;
     Sched.rq_AffinityKey := uuid_string (pc_APIKeyID principal) +:+ ":" +:+ publicID;
     Sched.rq_Now := at_ |}.

Definition reserve_input (x : exchange) (principal : Principal) (resolution : Resolution)
    (selection : Scheduler.Selection) (state : usageState) (price : Pricing.Snapshot) (body : string)
    (parsed : parsedRequest) : Billing.ReserveInput :=
  {| Billing.ri_UserID := pc_UserID principal; Billing.ri_APIKeyID := pc_APIKeyID principal;
     Billing.ri_RequestID := x_id x; Billing.ri_RequestRecordID := usageRecordID (Some state);
     Billing.ri_ModelID := uuidPtrOrNil (rs_ModelID resolution);
     Billing.ri_ProviderModelID := uuidPtrOrNil (target_id Sched.t_ProviderModelID selection);
     Billing.ri_RouteVersionID := uuidPtrOrNil (Sched.VersionID (rs_Route resolution));
     Billing.ri_ProviderID := uuidPtrOrNil (target_id Sched.t_ProviderID selection);
     Billing.ri_CredentialID := uuidPtrOrNil (credential_id selection);
     Billing.ri_Price := price;
     Billing.ri_EstimatedUsage := {| InputTokens := estimateTokens body;
       OutputTokens := p_MaxOutputTokens parsed; CacheReadTokens := 0; CacheWriteTokens := 0;
       ReasoningTokens := 0 |};
     Billing.ri_DailyBudgetMinor := pc_DailyBudgetMinor principal;
     Billing.ri_MonthlyBudgetMinor := pc_MonthlyBudgetMinor principal;
     Billing.ri_Reason := "inference_budget_hold"; Billing.ri_ExpiresAt := None |}.

Definition inference_request (r : HttpRequest) (x : exchange) (e : endpoint) (resolution : Resolution)
    (selection : Scheduler.Selection) (body : string) (parsed : parsedRequest) : InferenceRequest :=
  {| iq_RequestID := x_id x;
     iq_Route := {| ir_RouteID := uuid_string (Sched.RouteID (rs_Route resolution));
       ir_RouteVersionID := uuid_string (Sched.VersionID (rs_Route resolution));
       ir_ProviderID := match Scheduler.s_Target selection with
                        | Some target => selectedProvider target
                        | None => uuid_string uuid_nil
                        end;
       ir_CredentialID := uuid_string (credential_id selection);
       ir_RequestedModel := p_Model parsed;
       ir_ResolvedModel := target_text Sched.t_UpstreamModelID selection |};
     iq_SourceFormat := format e; iq_ResponseFormat := format e;
     iq_Headers := filteredRequestHeaders (hr_Headers r) (x_id x); iq_RequestPath := endpoint_path e;
     iq_Body := body; iq_Stream := p_Stream parsed |}.

(** The price of the selected target; the state is priced. *)
Definition price_step (resolution : Resolution) (selection : Scheduler.Selection)
    (state : option usageState) : svc (result goerr (Pricing.Snapshot * option usageState)) :=
  if negb (has_prices parts) then mret (Ok (zero_snapshot, state)) else
  at_ ← now;
  r ← ask (fun n => sv_price services n (rs_ModelID resolution)
                      (uuidPtrOrNil (target_id Sched.t_ProviderModelID selection)) at_);
  mret (match r with Ok snapshot => Ok (snapshot, setPrice snapshot <$> state) | Err e => Err e end).

(** The hold on the wallet; [None] is a recorder that is missing. *)
Definition reserve_step (x : exchange) (principal : Principal) (resolution : Resolution)
    (selection : Scheduler.Selection) (price : Pricing.Snapshot) (body : string) (parsed : parsedRequest)
    (state : usageState) : svc (result goerr usageState) :=
  r ← transact others fault (fun e => only (OfBilling e))
        (billing_call ids (fun n => Service_Reserve (reserveOutputTokens settings)
          (reserve_input x principal resolution selection state price body parsed)
          (clock n 0%nat) (clock n 1%nat)));
  mret (match r with Ok reservation => Ok (setReservation reservation state) | Err e => Err e end).

(** The upstream request, once everything is reserved. *)
Definition execute (r : HttpRequest) (x : exchange) (e : endpoint) (resolution : Resolution)
    (selection : Scheduler.Selection) (body : string) (parsed : parsedRequest) (state : option usageState)
  : svc bool :=
  let request := inference_request r x e resolution selection body parsed in
  if p_Stream parsed then executeStream x e selection request state
  else executeJSON x selection request state;; mret true.

(** The part of [complete] under the lease. *)
Definition with_lease (r : HttpRequest) (x : exchange) (e : endpoint) (principal : Principal)
    (resolution : Resolution) (selection : Scheduler.Selection) (body : string) (parsed : parsedRequest)
    (state : option usageState) : svc bool :=
  priced ← price_step resolution selection state;
  match priced with
  | Err err => fail x state err;; mret true
  | Ok (price, state) =>
      if negb (has_billing parts) then execute r x e resolution selection body parsed state else
      match state with
      | None => respond (writeProxyError x (Some (only ErrUsageUnavailable)));; mret true
      | Some s =>
          reserved ← reserve_step x principal resolution selection price body parsed s;
          match reserved with
          | Err err => fail x state err;; mret true
          | Ok s => execute r x e resolution selection body parsed (Some s)
          end
      end
  end.

(** The lease is released by a deferred call, when the rest has returned. *)
Definition release_after (selection : Scheduler.Selection) (body : svc bool) : svc bool :=
  finished ← body;
  if finished : bool then log (ReleasedLease selection);; mret true else mret false.

Definition route_and_run (r : HttpRequest) (x : exchange) (e : endpoint) (principal : Principal)
    (publicID body : string) (parsed : parsedRequest) (state : option usageState) : svc bool :=
  if negb (has_routes parts && has_scheduler parts && has_engine parts)
  then fail x state (only ErrInferenceUnavailable);; mret true else
  routed ← ask (fun n => sv_route services n publicID);
  match routed with
  | Err err => fail x state err;; mret true
  | Ok resolution =>
      let state := setResolution resolution <$> state in
      at_ ← now;
      selected ← ask (fun n => sv_select services n
        (schedule_request x e principal publicID resolution state body parsed at_));
      match selected with
      | Err err => fail x state err;; mret true
      | Ok selection =>
          release_after selection
            (with_lease r x e principal resolution selection body parsed
               (setSelection selection <$> state))
      end
  end.

Definition complete (r : HttpRequest) (x : exchange) (e : endpoint) : svc bool :=
  match sv_principal services with
  | None => respond (writeProxyError x (Some (only (OfKey ErrInvalidKey))));; mret true
  | Some principal =>
      match readRequest (maxBodyBytes settings) (hr_Body r) with
      | Err err => respond (writeProxyError x (Some err));; mret true
      | Ok (body, parsed) =>
          resolved ← ask (fun n => sv_resolve services n (p_Model parsed));
          match resolved with
          | Err err => respond (writeProxyError x (Some err));; mret true
          | Ok publicID =>
              denied ← ask (fun n => sv_authorize services n principal publicID (estimateTokens body));
              match denied with
              | Some err => respond (writeProxyError x (Some err));; mret true
              | None =>
                  begun ← beginUsage clock ids others fault (has_usage parts) (x_id x) principal e parsed;
                  match begun with
                  | Err err => respond (writeProxyError x (Some err));; mret true
                  | Ok state => route_and_run r x e principal publicID body parsed state
                  end
              end
          end
      end
  end.

(** ** The list of models *)
(** [time.Time.Unix]. *)
Definition Unix (t : time) : Z := t / Second - 62135596800.
Definition allowed_names (authorized : list string) : list string :=
  List.filter (fun v => negb (String.eqb v "")) (TrimSpace <$> authorized).

(** The pages from [cursor]; [fuel] bounds the cursors seen, 1000 of them. *)
Fixpoint list_pages (fuel : nat) (allowed : list string) (cursor : string) (seen : list string)
  : svc (result goerr (list (string * Z))) :=
  match fuel with
  | O => mret (Err (only ErrMalformedResponse))
  | S fuel =>
      page ← ask (fun n => sv_list services n cursor);
      match page with
      | Err e => mret (Err e)
      | Ok page =>
          let models := (fun m => (cm_PublicID m, Unix (cm_CreatedAt m))) <$>
            List.filter (fun m => mem (cm_PublicID m) allowed) (cp_Models page) in
          let next := cp_NextCursor page in
          if String.eqb next "" then mret (Ok models) else
          if mem next seen || (1000 <=? Datatypes.length seen)%nat
          then mret (Err (only ErrMalformedResponse)) else
          rest ← list_pages fuel allowed next (next :: seen);
          mret (match rest with Ok ms => Ok (models ++ ms)%list | Err e => Err e end)
      end
  end.

(** The models shown; writing them as JSON is [encoding/json]'s. *)
Definition listModels : svc (result goerr (list (string * Z))) :=
  match sv_principal services with
  | None => mret (Err (only (OfKey ErrInvalidKey)))
  | Some _ =>
      if negb (has_lister parts) then mret (Err (only ErrInferenceUnavailable)) else
      authorized ← ask (sv_authorized services);
      match authorized with
      | Err e => mret (Err e)
      | Ok names =>
          match allowed_names names with
          | [] => mret (Ok [])
          | allowed => list_pages 1002 allowed "" []
          end
      end
  end.

(** ** [ServeHTTP] *)
(** The identifier every later [requestID] of the request finds. *)
Definition exchange_of (r : HttpRequest) : exchange :=
  {| x_path := hr_Path r; x_id := requestID (hr_ContextID r) (hr_RequestIDHeader r) (hr_FreshID r);
     x_flusher := hr_Flusher r |}.

Definition methodNotAllowed (x : exchange) (method : string) : svc unit :=
  respond (fun w => writeProxyError x (Some (only ErrMethodNotAllowed)) (set_header "Allow" method w)).

(** The headers every answer starts with. *)
Definition start_headers (x : exchange) (w : response) : response :=
  let w := set_header "Cache-Control" "no-store" w in
  if String.eqb (get_header "X-Request-Id" w) "" then set_header "X-Request-Id" (x_id x) w else w.

(** What the list of models is written as is an argument. *)
Definition ServeHTTP (encode_models : list (string * Z) -> string) (r : HttpRequest) : svc bool :=
  let x := exchange_of r in
  respond (start_headers x);;
  if String.eqb (hr_Path r) modelsPath then
    (if negb (String.eqb (hr_Method r) "GET") then methodNotAllowed x "GET" else
     models ← listModels;
     match models with
     | Ok ms => respond (fun w => Write (encode_models ms)
         (WriteHeader 200 (set_header "Content-Type" "application/json" w)))
     | Err e => respond (writeProxyError x (Some e))
     end);; mret true
  else if String.eqb (hr_Path r) chatCompletionsPath then
    if negb (String.eqb (hr_Method r) "POST") then methodNotAllowed x "POST";; mret true
    else complete r x endpointChat
  else if String.eqb (hr_Path r) responsesPath then
    if negb (String.eqb (hr_Method r) "POST") then methodNotAllowed x "POST";; mret true
    else complete r x endpointResponses
  else respond (writeProxyError x (Some (only ErrProxyNotFound)));; mret true.
End handler.
End Proxy.
