(* ===== verification/ProxyFacts.v ===== *)
(** * What one request does to the tables

    Usage actions leave the rows of billing alone but the events and the outbox; every
    transaction of the handler is an action of the usage history, so that whatever a
    request does, the invariant holds and recorded events and settlements stay. *)

From stdpp Require Import base gmap strings list relations.
From Stdlib Require Import ZArith Lia Ascii String.
From S2P Require Import Prelude GoLib Usage Pricing BillingModel Money Store StoreFacts.
From S2P Require Import BillingOps BillingService BillingInv BillingFacts BillingSteps BillingHistory.
From S2P Require Import UsageModel UsageRepo UsageFacts UsageSteps UsageHistory.
From S2P Require Import Scheduler UsageExtract ProxyErrors ProxyText ProxyStream ProxyUsage.

Module ProxyMoves.
Import Usage UsageModel UsageRepo UsageFacts UsageSteps UsageHistory ProxyErrors ProxyUsage.
Import Store(DB, mkDB, usage_events, wallets, reservations, settlements, liabilities, ledger, outbox, set_outbox, SqlGuards, WallClock, btx, run_billing).
Import BillingInv(Inv, inv_res, res_inv, ri_amount).
Import BillingSteps(step, committed).
Import BillingHistory(rows_evolve, rows_evolve_trans, settlement_evolves, settlement_evolves_refl, settlement_evolves_trans, set_evolve_refl, step_evolves, ev_settlements, ev_reservations).
Import BillingHistory(reservation_evolves, reservation_evolves_trans, res_evolve_refl).

(** ** The rows of billing under usage actions *)
Definition kept (d d' : DB) : Prop :=
  wallets d' = wallets d /\ reservations d' = reservations d /\ settlements d' = settlements d
  /\ liabilities d' = liabilities d /\ ledger d' = ledger d.
#[export] Instance kept_preorder : PreOrder kept.
Proof.
  split; [done|]. intros d1 d2 d3 (?&?&?&?&?) (?&?&?&?&?). unfold kept. split_and!; congruence.
Qed.

(** Statements that keep them. *)
Definition keeps {A} (m : utx A) : Prop :=
  forall s s' a, m s = Ok (s', a) -> kept (books s.2) (books s'.2).

Lemma ukeeps_bind {A B} (m : utx A) (f : A -> utx B) :
  keeps m -> (forall a, keeps (f a)) -> keeps (m ≫= f).
Proof.
  intros Hm Hf s s' b (s1 & a & H1 & H2)%tx_bind_ok. etrans; [by eapply Hm|by eapply Hf].
Qed.
Lemma ukeeps_ret {A} (a : A) : keeps (mret a).
Proof. by intros s s' b [= <- _]. Qed.
Lemma ukeeps_fail {A} e : keeps (tx_fail e : utx A).
Proof. by intros s s' b. Qed.
Lemma ukeeps_lift {A} (r : result error A) : keeps (tx_lift r).
Proof. intros s s' b [_ ->]%tx_lift_ok. done. Qed.
Lemma ukeeps_when b e : keeps (tx_when b e).
Proof. intros s s' u [_ ->]%tx_when_ok. done. Qed.
Lemma ukeeps_read {A} (f : UDB -> A) : keeps (uread f).
Proof. by intros s s' b [= <- _]. Qed.
Lemma ukeeps_write f : (forall p, kept (books p) (books (f p))) -> keeps (uwrite f).
Proof. intros Hf s s' u [= <-]. apply Hf. Qed.
Lemma ukeeps_id : keeps u_id.
Proof. intros [[|i ids] p] s' a; [done|]. by intros [= <- _]. Qed.
Lemma ukeeps_sql e : keeps (usql e).
Proof. by intros s s' u. Qed.

Create HintDb keeps discriminated.
#[local] Hint Resolve ukeeps_ret ukeeps_fail ukeeps_lift ukeeps_when ukeeps_read ukeeps_id ukeeps_sql : keeps.
(** Walks a sequence of statements. *)
Ltac keep :=
  repeat first
    [ apply ukeeps_bind; [|intros ?]
    | progress cbv zeta
    | apply ukeeps_write; intros ?; repeat split; reflexivity
    | match goal with |- forall _, _ => intro end
    | solve [eauto with keeps nocore]
    | match goal with |- keeps (match ?x with _ => _ end) => destruct x end ].

Section finalize.
Context `{UuidText, TimeText, SqlGuards, UsageGuards, OutboxBirth, WallClock}.

Lemma ukeeps_guard g : keeps (uguard g).
Proof. unfold uguard. keep. Qed.
Lemma ukeeps_unique b : keeps (uunique b).
Proof. unfold uunique. keep. Qed.
Lemma ukeeps_check b : keeps (ucheck b).
Proof. unfold ucheck. keep. Qed.
Lemma ukeeps_row {A} (o : option A) : keeps (urow o).
Proof. unfold urow. keep. Qed.
#[local] Hint Resolve ukeeps_guard ukeeps_unique ukeeps_check ukeeps_row : keeps.

Lemma ukeeps_begin input clock : keeps (BeginRequest input clock).
Proof. unfold BeginRequest, insert_request, loadRequestRecord. keep. Qed.
Lemma ukeeps_close k status t : keeps (closeRequestRecord k status t).
Proof. unfold closeRequestRecord. keep. Qed.
Lemma ukeeps_outbox a b c d e : keeps (insert_outbox a b c d e).
Proof. unfold insert_outbox. keep. Qed.
#[local] Hint Resolve ukeeps_close ukeeps_outbox : keeps.
Lemma ukeeps_announce e : keeps (insertUsageOutbox e).
Proof. unfold insertUsageOutbox. keep. Qed.
Lemma ukeeps_attempt h a i c : keeps (upsertAttempt h a i c).
Proof. unfold upsertAttempt, insert_attempt. keep. Qed.
Lemma ukeeps_event e : keeps (insert_usage_event e).
Proof. unfold insert_usage_event. keep. Qed.
#[local] Hint Resolve ukeeps_announce ukeeps_attempt ukeeps_event : keeps.
Lemma ukeeps_finalize handle input clock : keeps (Finalize handle input clock).
Proof.
  unfold Finalize, loadRequestRecordByID, loadUsageEventBySettlementKey, loadUsageEventByRequestID,
    find_usage_event, finalize_again, finalize_new. keep.
Qed.
Lemma ukeeps_reconcile input created : keeps (RecordReconciliation input created).
Proof.
  unfold RecordReconciliation, insert_reconciliation, loadReconciliation, insertReconciliationOutbox. keep.
Qed.
Lemma ukeeps_claim w l t n locked : keeps (Repository_ClaimOutbox w l t n locked).
Proof. unfold Repository_ClaimOutbox. keep. Qed.
Lemma ukeeps_owned k w f : keeps (update_owned k w f).
Proof. unfold update_owned. keep. Qed.

Lemma run_kept {A} ids (m : utx A) p : keeps m -> kept (books p) (books (run_usage ids m p).1).
Proof.
  intros Hm. destruct (run_usage_cases ids m p) as [(e & _ & ->)|(s' & a & Hr & ->)]; [done|].
  apply (Hm _ _ _ Hr).
Qed.

Lemma perform_kept a p :
  (forall d, a <> ABilling d) -> kept (books p) (books (perform a p)).
Proof.
  intros Ha. destruct a; cbn [perform]; try by destruct (Ha d).
  - unfold Service_BeginRequest. case_match; [|done]. apply run_kept, ukeeps_begin.
  - unfold Service_Finalize. case_match; [|done]. apply run_kept, ukeeps_finalize.
  - unfold Service_RecordReconciliation. case_match; [|done]. apply run_kept, ukeeps_reconcile.
  - unfold Service_ClaimOutbox. repeat (case_match; [|done]) || case_match; try done; apply run_kept, ukeeps_claim.
  - unfold Service_MarkOutboxPublished, Repository_MarkOutboxPublished.
    repeat case_match; try done; apply run_kept, ukeeps_owned.
  - unfold Service_MarkOutboxFailed, Repository_MarkOutboxFailed.
    repeat case_match; try done; apply run_kept, ukeeps_owned.
Qed.

(** ** Histories from a state *)
(** The invariant holds afterwards, usage facts stay, settlements stay but for their
    recovery columns. *)
Record carries (p p' : UDB) : Prop := {
  ca_inv : UInv p';
  ca_usage : uevolves p p';
  ca_settlements : rows_evolve settlement_evolves (settlements (books p)) (settlements (books p'));
  ca_reservations : rows_evolve reservation_evolves (reservations (books p)) (reservations (books p'))
}.

Lemma carries_refl p : UInv p -> carries p p.
Proof. intros HI. split; [done|done|apply set_evolve_refl|apply res_evolve_refl]. Qed.
Lemma carries_trans p1 p2 p3 : carries p1 p2 -> carries p2 p3 -> carries p1 p3.
Proof.
  intros [I1 U1 S1 R1] [I2 U2 S2 R2]. split; [done|by etrans|..].
  - exact (rows_evolve_trans _ settlement_evolves_trans _ _ _ S1 S2).
  - exact (rows_evolve_trans _ reservation_evolves_trans _ _ _ R1 R2).
Qed.

Lemma perform_carries a p : UInv p -> allowed a p -> carries p (perform a p).
Proof.
  intros HI Ha. destruct (perform_preserved a p HI Ha) as [HI' HE].
  destruct (match a with ABilling d => Some d | _ => None end) as [d|] eqn:Ed.
  - destruct a; try done. destruct Ha as [Hs _]. simpl.
    pose proof (step_evolves _ _ Hs (ui_books _ HI)) as He.
    split; [done|done|exact (ev_settlements _ _ He)|exact (ev_reservations _ _ He)].
  - destruct (perform_kept a p) as (_ & Er & Es & _); [by intros d ->|].
    split; [done|done|rewrite Es; apply set_evolve_refl|rewrite Er; apply res_evolve_refl].
Qed.

Lemma steps_carry Q p p' : UInv p -> rtc (usage_step Q) p p' -> carries p p'.
Proof.
  intros HI Hs. revert HI. induction Hs as [|p1 p2 p3 (a & Ha & _ & ->) _ IH]; intros HI; [by apply carries_refl|].
  pose proof (perform_carries a p1 HI Ha) as Hc. eapply carries_trans; [exact Hc|]. apply IH, Hc.
Qed.

(** ** Handler code *)
Context (others : nat -> UDB -> UDB) (fault : nat -> option failure).
(** What other requests and workers commit meanwhile is a history of usage and billing. *)
Hypothesis others_ok : forall n p, UInv p -> rtc (usage_step any) p (others n p).

(** Whatever [m] does, the tables carry what they had. *)
Definition moves {A} (m : ProxyUsage.svc A) : Prop :=
  forall w w' a, m w = (w', a) -> UInv (w_db w) -> carries (w_db w) (w_db w').

Lemma moves_ret {A} (a : A) : moves (mret a).
Proof. intros w w' b [= <- _]. apply carries_refl. Qed.
Lemma moves_bind {A B} (m : ProxyUsage.svc A) (f : A -> ProxyUsage.svc B) :
  moves m -> (forall a, moves (f a)) -> moves (m ≫= f).
Proof.
  intros Hm Hf w w' b (w1 & a & Ha & Hb)%st_bind_run HI.
  pose proof (Hm _ _ _ Ha HI) as C1. eapply carries_trans; [exact C1|]. eapply Hf; [done|apply C1].
Qed.
(** Code that leaves the tables alone. *)
Lemma moves_pure {A} (m : ProxyUsage.svc A) : (forall w, w_db (m w).1 = w_db w) -> moves m.
Proof. intros Hm w w' a E HI. specialize (Hm w). rewrite E in Hm. simpl in Hm. rewrite Hm. by apply carries_refl. Qed.

(** A transaction whose effect is that of a usage action. *)
Definition performs {E A} (f : nat -> UDB -> UDB * result E A) : Prop :=
  forall n p, UInv p -> carries p (f n p).1.

Lemma moves_transact {E A} (of_error : E -> goerr) (f : nat -> UDB -> UDB * result E A) :
  performs f -> moves (transact others fault of_error f).
Proof.
  intros Hf w w' a. unfold transact. set (p := others (w_event w) (w_db w)).
  intros Ht HI. assert (carries (w_db w) p) as Hp by (eapply steps_carry; [done|by apply others_ok]).
  specialize (Hf (w_event w) p (ca_inv _ _ Hp)). destruct (f (w_event w) p) as [p' r]. simpl in Hf.
  injection Ht as <- _. destruct (fault (w_event w)) as [[e|e]|]; simpl.
  - by eapply carries_trans.
  - done.
  - by eapply carries_trans.
Qed.

Lemma performs_begin ids input (now clock : nat -> time) :
  performs (fun n => Service_BeginRequest (ids n) input (now n) (clock n)).
Proof. intros n p HI. by apply (perform_carries (ABegin (ids n) input (now n) (clock n))). Qed.

Lemma performs_finalize ids handle input (now clock : nat -> time) :
  (forall a, fi_AmountMinor input = Some a -> in_i64 a) ->
  performs (fun n => Service_Finalize (ids n) handle input (now n) (clock n)).
Proof. intros Ha n p HI. by apply (perform_carries (AFinalize (ids n) handle input (now n) (clock n))). Qed.

Lemma performs_billing {A} ids (m : nat -> btx A) :
  (forall n d, step d (committed (ids n) (m n) d)) ->
  (forall n d, usage_events (committed (ids n) (m n) d) = usage_events d) ->
  performs (billing_call ids m).
Proof.
  intros Hs Hu n p HI. unfold billing_call.
  specialize (Hs n (books p)). specialize (Hu n (books p)). unfold committed in *.
  destruct (run_billing (ids n) (m n) (books p)) as [d r]. simpl in *.
  by apply (perform_carries (ABilling d)).
Qed.
End finalize.
End ProxyMoves.

(** * What the transactions of a request leave

    [Service_Finalize], [Service_Settle] and [Service_Reserve] as the handler uses them,
    and [finalize]: when it reports no error, the event is recorded and settled. *)

From stdpp Require Import base gmap strings list relations.
From Stdlib Require Import ZArith Lia Ascii String.
From S2P Require Import Prelude GoLib Usage Pricing BillingModel Money Store StoreFacts.
From S2P Require Import BillingOps BillingService BillingInv BillingFacts BillingSteps BillingHistory.
From S2P Require Import UsageModel UsageRepo UsageFacts UsageSteps UsageHistory UsageTheorems.
From S2P Require Import Scheduler UsageExtract ProxyErrors ProxyText ProxyStream ProxyUsage.

Module ProxyFacts.
Import Usage UsageModel UsageRepo UsageBooks UsageFacts UsageSteps UsageHistory ProxyErrors ProxyUsage ProxyMoves.
Import Store(DB, mkDB, usage_events, settlements, reservations, outbox, SqlGuards, WallClock, btx, run_billing).
Import BillingService(Service_Settle, Service_Reserve, settle_input_ok).
Import BillingInv(Inv, inv_res, inv_books, bk_keyed, res_inv, ri_amount, ri_keyed, si_agree).
Import BillingSteps(step, committed, step_reserve, step_settle).

Section facts.
Context `{UuidText, TimeText, SqlGuards, UsageGuards, OutboxBirth, WallClock}.

(** ** [Service_Finalize] *)
Lemma same_input_amount e handle n :
  sameEventInput e handle n = true ->
  ev_RequestID e = rh_RequestID handle /\ ev_TerminalStatus e = fi_TerminalStatus n
  /\ ev_AmountMinor e = fi_AmountMinor n.
Proof.
  unfold sameEventInput. cbv zeta. set (x := eventFromFinalize _ _ _ _ _). intros Hs.
  rewrite !andb_true_iff in Hs.
  rewrite <- (eq_refl : ev_RequestID x = rh_RequestID handle),
    <- (eq_refl : ev_TerminalStatus x = fi_TerminalStatus n),
    <- (eq_refl : ev_AmountMinor x = fi_AmountMinor n).
  assert (forall a b, opt_Z_eqb a b = true -> a = b) as Ho.
  { intros [a|] [b|]; simpl; try done. by intros ->%Z.eqb_eq. }
  split_and!; [apply String.eqb_eq; tauto..|]. apply Ho. tauto.
Qed.

(** The event a successful [Finalize] returns is recorded, with the handle's request,
    the input's status and the input's amount. *)
Lemma Service_Finalize_event ids handle input now clock p p' e :
  UInv p -> (forall n, fi_AmountMinor input = Some n -> in_i64 n) ->
  Service_Finalize ids handle input now clock p = (p', Ok e) ->
  exists row, usage_events (books p') !! ev_ID e = Some row /\ ev_ID row = ev_ID e
    /\ ev_RequestID row = rh_RequestID handle /\ ev_TerminalStatus row = fi_TerminalStatus input
    /\ ev_AmountMinor row = fi_AmountMinor input /\ ev_AmountMinor e = fi_AmountMinor input
    /\ finalize_input_ok handle input = true.
Proof.
  intros HI Ha. unfold Service_Finalize.
  destruct (normalizeFinalizeInput handle input now) as [n|] eqn:Hn; [|done]. intros Hm.
  assert (finalize_input_ok handle input = true) as Hok.
  { unfold normalizeFinalizeInput in Hn. by destruct (finalize_input_ok handle input). }
  pose proof (normalizeFinalize_ok _ _ _ _ Hn) as (Hnil & En & Es & _).
  apply run_usage_ok in Hm as [rest Hm]. pose proof Hm as Hm0.
  apply Finalize_ok in Hm as [(E & Hrow & Hsame)|(Hf & i & c & He)]; [|..|by rewrite En]; try done; simpl in *.
  - subst p'. apply same_input_amount in Hsame as (Hq & Hst & Ham).
    exists e. by rewrite Hq, Hst, Ham, Es, En.
  - pose proof (fz_events _ _ _ _ Hf) as Hev. exists (stored_event e).
    rewrite Hev. change (ev_ID (stored_event e)) with (ev_ID e). rewrite lookup_insert_eq.
    subst e. split_and!; try done; by rewrite <- ?Es, <- ?En.
Qed.

(** ** [Service_Settle] *)
Lemma Service_Settle_row rid e now ids d d' st b :
  Inv d -> (forall a, ev_AmountMinor e = Some a -> in_i64 a) ->
  run_billing ids (Service_Settle {| Billing.si_ReservationID := rid; Billing.si_Event := e |} now) d
    = (d', Ok (st, b)) ->
  exists k, settlements d' !! k = Some st /\ Billing.st_ReservationID st = rid
    /\ Billing.st_UsageEventID st = ev_ID e /\ Billing.st_ActualAmount st = ev_AmountMinor e
    /\ exists r, reservations d' !! rid = Some r /\ Billing.st_ReservedAmount st = Billing.r_AmountMinor r.
Proof.
  intros HI Ha Hrun. unfold run_billing in Hrun.
  destruct (Service_Settle _ now (ids, d)) as [[[ids2 d2] [st2 b2]]|er] eqn:Hm; [|done].
  injection Hrun as -> -> ->. apply BillingSteps.Service_Settle_inv in Hm as (actual & Hact & Hpos & _ & Hm).
  simpl in Hact. assert (nat_i64 actual) as Hnat.
  { specialize (Ha _ Hact). unfold in_i64, nat_i64 in *. lia. }
  apply BillingFacts.Settle_ok in Hm as [Hm|[Hm|Hm]]; [..|done|done]; simpl in *.
  - destruct Hm as (-> & _ & _ & r & k & Hr & Hk & Hid & Hrep). exists k.
    unfold BillingOps.settlement_replays in Hrep. bools.
    destruct (Billing.st_ActualAmount st) as [act|]; [|done]. bools.
    rewrite Hid, (ri_keyed _ _ _ (inv_res _ HI) _ _ Hr). split_and!; [done..|congruence|by exists r].
  - destruct Hm as (r & w & Hr & _ & _ & _ & _ & _ & _ & Hst & Heff).
    destruct Hst as (_ & E2 & E3 & E4 & E5 & _). destruct Heff as (_ & ER & ES & _). simpl in E3, E4, E5.
    exists (Billing.st_ID st). pose proof (ri_keyed _ _ _ (inv_res _ HI) _ _ Hr) as Hkey. simpl in Hkey.
    rewrite ES, lookup_insert_eq, E2, ER, <- Hkey, lookup_insert_eq. split_and!; [congruence..|by eexists].
  - destruct Hm as (r & w & es & Hr & _ & _ & _ & _ & _ & _ & _ & Hst & _ & Heff).
    destruct Hst as (_ & E2 & E3 & E4 & E5 & _). destruct Heff as (_ & ER & ES & _). simpl in E3, E4, E5.
    exists (Billing.st_ID st). pose proof (ri_keyed _ _ _ (inv_res _ HI) _ _ Hr) as Hkey. simpl in Hkey.
    rewrite ES, lookup_insert_eq, E2, ER, <- Hkey, lookup_insert_eq. split_and!; [congruence..|by eexists].
Qed.

(** ** [Service_Reserve] *)
(** The estimate of an input: the default output when it names none and is not free. *)
Definition normal_estimate (output : Z) (input : Billing.ReserveInput) : TokenUsage :=
  let estimate := Billing.ri_EstimatedUsage input in
  if (OutputTokens estimate =? 0) && negb (Pricing.s_Free (Billing.ri_Price input))
  then Billing.set_output estimate output else estimate.
(** What a successful reservation holds: the quote of the normalised estimate, or nothing
    when that is zero. *)
Definition holds (output : Z) (input : Billing.ReserveInput) (r : Billing.Reservation) (d : DB) : Prop :=
  exists quote, Money.Quote_ (Billing.ri_Price input) (normal_estimate output input) = Ok quote
    /\ nat_i64 (Billing.q_AmountMinor quote) /\ Billing.r_AmountMinor r = Billing.q_AmountMinor quote
    /\ (Billing.q_AmountMinor quote = 0 /\ Billing.r_Status r = Billing.ReservationNone
        \/ reservations d !! Billing.r_ID r = Some r
           /\ Billing.r_RequestID r = Billing.ri_RequestID input).

Lemma normalizeReserve_estimate input output now n :
  Billing.normalizeReserveInput input output now = Ok n ->
  Billing.ri_Price n = Billing.ri_Price input /\ Billing.ri_RequestID n = Billing.ri_RequestID input
  /\ Billing.ri_EstimatedUsage n = normal_estimate output input.
Proof.
  unfold Billing.normalizeReserveInput.
  do 3 match goal with |- (if ?b then _ else _) = _ -> _ => destruct b eqn:?; [done|] end.
  cbv zeta. fold (normal_estimate output input).
  repeat match goal with |- (if ?b then _ else _) = _ -> _ => destruct b eqn:?; [done|] end.
  by intros [= <-].
Qed.

Lemma Service_Reserve_holds output input checked now ids d d' r :
  Inv d ->
  run_billing ids (Service_Reserve output input checked now) d = (d', Ok r) -> holds output input r d'.
Proof.
  intros HI Hrun. unfold run_billing in Hrun.
  destruct (Service_Reserve output input checked now (ids, d)) as [[[ids2 d2] r2]|er] eqn:Hm; [|done].
  injection Hrun as -> ->. unfold Service_Reserve in Hm.
  apply tx_bind_ok in Hm as (s1 & n & Hn & Hm). apply tx_lift_ok in Hn as [Hn ->].
  apply tx_bind_ok in Hm as (s1 & q & Hq & Hm). apply tx_lift_ok in Hq as [Hq ->].
  apply normalizeReserve_estimate in Hn as (Hp & Hid & Hest).
  pose proof (BillingSteps.calculateQuote_amount _ _ _ Hq) as Hamt.
  exists q. rewrite <- Hp, <- Hest.
  destruct (Z.eqb_spec (Billing.q_AmountMinor q) 0) as [E|E].
  - injection Hm as <- <- <-. simpl. split_and!; try done. by left.
  - apply BillingFacts.Reserve_ok in Hm as [(E2 & Hsame & k & Hk & Hr)|Hf];
      [| |exact (bk_keyed _ _ (inv_books _ HI))]; simpl in *.
    + subst d'. split_and!; try done.
      * unfold Billing.sameReservationInput in Hsame. rewrite !andb_true_iff in Hsame.
        apply Z.eqb_eq. tauto.
      * right. rewrite (ri_keyed _ _ _ (inv_res _ HI) _ _ Hk). split; [done|congruence].
    + destruct Hf as (d1 & w & ra & e & _ & _ & _ & _ & _ & _ & _ & _ & _ & _ & Hr & _ & _ & _ & _ & _ & Heff).
      destruct Heff as (_ & ER & _). assert (Billing.r_AmountMinor r = Billing.q_AmountMinor q) as Ha by (by rewrite Hr).
      assert (Billing.r_RequestID r = Billing.ri_RequestID n) as Hq2 by (by rewrite Hr).
      split_and!; try done. right. rewrite ER, lookup_insert_eq. split; [done|congruence].
Qed.

(** ** Handler code with what it learns *)
Context (clock : nat -> nat -> time) (ids : nat -> list uuid) (others : nat -> UDB -> UDB)
        (fault : nat -> option failure) (gone : nat -> bool).
Hypothesis others_ok : forall n p, UInv p -> rtc (usage_step any) p (others n p).

Lemma moves_bind_post {A B} (P : A -> Prop) (m : svc A) (f : A -> svc B) :
  moves m -> (forall w w' a, m w = (w', a) -> UInv (w_db w) -> P a) -> (forall a, P a -> moves (f a)) ->
  moves (m ≫= f).
Proof.
  intros Hm HP Hf w w' b (w1 & a & Ha & Hb)%st_bind_run HI.
  pose proof (Hm _ _ _ Ha HI) as C1. eapply carries_trans; [exact C1|].
  eapply Hf; [by eapply HP|done|apply C1].
Qed.

Lemma transact_ok {E A} (of_error : E -> goerr) (f : nat -> UDB -> UDB * result E A) w w' a :
  UInv (w_db w) -> transact others fault of_error f w = (w', Ok a) ->
  exists p, UInv p /\ f (w_event w) p = (w_db w', Ok a).
Proof.
  intros HI. unfold transact. set (p := others (w_event w) (w_db w)).
  assert (UInv p) as Hp.
  { eapply ca_inv, (steps_carry any (w_db w) p HI). by apply others_ok. }
  destruct (f (w_event w) p) as [p' r] eqn:Ef. destruct (fault (w_event w)) as [[e|e]|]; [done..|].
  simpl. intros [= <- Hr]. exists p. split; [done|]. simpl. rewrite Ef. by destruct r; [injection Hr as ->|].
Qed.

Lemma performs_settle rid e (now : nat -> time) :
  (forall a, ev_AmountMinor e = Some a -> in_i64 a) ->
  performs (billing_call ids (fun n => Service_Settle
    {| Billing.si_ReservationID := rid; Billing.si_Event := e |} (now n))).
Proof.
  intros Ha. apply performs_billing.
  - intros n d. by apply step_settle.
  - intros n d. apply gr_usage, committed_grown, growing_Settle.
Qed.

Lemma performs_reserve output (input : Billing.ReserveInput) (checked now : nat -> time) :
  performs (billing_call ids (fun n => Service_Reserve output input (checked n) (now n))).
Proof.
  apply performs_billing.
  - intros n d. by apply step_reserve.
  - intros n d. apply gr_usage, committed_grown, growing_Reserve.
Qed.

(** ** [finalize] *)
(** The amount of a hold is an [int64]. *)
Definition state_ok (s : usageState) : Prop :=
  forall r, us_reservation s = Some r -> in_i64 (Billing.r_AmountMinor r).

Lemma held_Some s r :
  held s = Some r <-> us_reservation s = Some r /\ Billing.r_Status r <> Billing.ReservationNone.
Proof.
  unfold held. destruct (us_reservation s) as [x|]; [|naive_solver].
  destruct (String.eqb_spec (Billing.r_Status x) Billing.ReservationNone); naive_solver.
Qed.

Lemma charge_ok has_billing s c amount estimated currency wallet :
  state_ok s -> charge has_billing s c = Ok (amount, estimated, currency, wallet) ->
  (forall a, amount = Some a -> in_i64 a)
  /\ (is_Some wallet -> is_Some (held s))
  /\ (uc_usageFound c = false -> forall a r, amount = Some a -> held s = Some r -> a = Billing.r_AmountMinor r).
Proof.
  intros Hs. unfold charge. destruct has_billing; [|by intros [= <- <- <- <-]; split_and!; [|intros [? ?]|]].
  destruct (us_priceVersionID s); [|by intros [= <- <- <- <-]; split_and!; [|intros [? ?]|]].
  assert (forall r, is_Some (held s ≫= (fun r => uuidPtrOrNil (Billing.r_WalletID r))) -> r = held s -> is_Some r) as Hw.
  { intros r [wid Hu] ->. destruct (held s); [by eexists|done]. }
  assert (forall q, Money.Quote_ (us_price s) (uc_observed c) = Ok q -> in_i64 (Billing.q_AmountMinor q)) as Hq.
  { intros q E%BillingSteps.calculateQuote_amount. unfold in_i64, nat_i64, min_int64 in *. lia. }
  destruct (uc_usageFound c) eqn:Ef; simpl negb; destruct (held s) as [r|] eqn:Eh;
    [..|intros [= <- <- <- <-]; split_and!;
      [intros a [= <-]; by apply Hs, held_Some|eauto|intros _ a r' [= <-]; congruence]|];
    (destruct (Money.Quote_ _ _) as [q|] eqn:Eq; [|done]; intros [= <- <- <- <-]; split_and!;
      [intros a [= <-]; by apply Hq|eauto|congruence]).
Qed.

Lemma moves_settle has_billing s e :
  (forall a, ev_AmountMinor e = Some a -> in_i64 a) -> moves (settle clock ids others fault has_billing s e).
Proof.
  intros Ha. unfold settle. destruct (held s) as [r|]; [|apply moves_ret].
  destruct (_ || _); [apply moves_ret|]. apply moves_bind; [|intros x; apply moves_ret].
  apply moves_transact; [done|]. by apply performs_settle.
Qed.

Lemma moves_now : moves (now clock).
Proof. by apply moves_pure. Qed.
Lemma moves_gone : moves (is_gone gone).
Proof. by apply moves_pure. Qed.

Lemma moves_finalize has_billing s c :
  state_ok s -> moves (finalize clock ids others fault gone has_billing s c).
Proof.
  intros Hs. unfold finalize. destruct (us_done s); [apply moves_ret|].
  apply moves_bind; [apply moves_now|intros t0]. cbv zeta.
  apply moves_bind; [apply moves_gone|intros g].
  destruct (charge has_billing s c) as [[[[amount estimated] currency] wallet]|e] eqn:Ec; [|apply moves_ret].
  apply charge_ok in Ec as (Ha & _ & _); [|done].
  apply moves_bind; [apply moves_now|intros t1].
  apply (moves_bind_post (fun r => forall e, r = Ok e -> forall a, ev_AmountMinor e = Some a -> in_i64 a)).
  - apply moves_transact; [done|]. by apply performs_finalize.
  - intros w w' r Ht HI e -> a Hev. apply transact_ok in Ht as (p & Hp & Hf); [|done].
    apply Service_Finalize_event in Hf as (row & _ & _ & _ & _ & _ & E & _); [|done..]. rewrite E in Hev. by apply Ha.
  - intros [e|e] He; [|apply moves_ret]. apply moves_settle. by apply He.
Qed.

(** What the tables show of a request [id] that was finalised with the completion [c]: its
    event, and, when it held something, the settlement of exactly the amount of the event. *)
Definition billed (id : string) (c : usageCompletion) (g : bool) (s : usageState) (p : UDB) : Prop :=
  exists row, usage_events (books p) !! ev_ID row = Some row /\ ev_RequestID row = id
    /\ ev_TerminalStatus row = completion_status c g
    /\ (forall a, ev_AmountMinor row = Some a -> 0 < a -> is_Some (held s))
    /\ (uc_usageFound c = false -> forall a r, ev_AmountMinor row = Some a -> held s = Some r ->
          a = Billing.r_AmountMinor r)
    /\ (forall r, held s = Some r -> Billing.r_Status r <> Billing.ReservationReleased ->
          exists k st, settlements (books p) !! k = Some st
            /\ Billing.st_ReservationID st = Billing.r_ID r /\ Billing.st_UsageEventID st = ev_ID row
            /\ Billing.st_ActualAmount st = ev_AmountMinor row
            /\ exists hold, reservations (books p) !! Billing.r_ID r = Some hold
                 /\ Billing.st_ReservedAmount st = Billing.r_AmountMinor hold).

(** When [finalize] reports no error, the event of the request is recorded with the
    status of the completion, an amount that is not zero has a hold behind it, and that
    hold has a settlement of the event, charged or waiting for recovery. *)
Lemma finalize_billed s c w w' :
  UInv (w_db w) -> state_ok s -> us_done s = false ->
  finalize clock ids others fault gone true s c w = (w', None) ->
  exists g, billed (rh_RequestID (us_handle s)) c g s (w_db w').
Proof.
  intros HI Hs Hd. unfold finalize. rewrite Hd.
  intros (w1 & t0 & E1 & Hrun)%st_bind_run. cbv zeta in Hrun.
  pose proof (moves_now _ _ _ E1 HI) as C1.
  apply st_bind_run in Hrun as (w2 & g & E2 & Hrun). exists g.
  pose proof (moves_gone _ _ _ E2 (ca_inv _ _ C1)) as C2.
  destruct (charge true s c) as [[[[amount estimated] currency] wallet]|e] eqn:Ec; [|done].
  pose proof (charge_ok _ _ _ _ _ _ _ Hs Ec) as (Ha & Hwal & Hmiss).
  apply st_bind_run in Hrun as (w3 & t1 & E3 & Hrun).
  pose proof (moves_now _ _ _ E3 (ca_inv _ _ C2)) as C3.
  set (latency := if uc_latency c <=? 0 then _ else uc_latency c) in Hrun. clearbody latency.
  set (input := finalize_input s c g latency t1 amount estimated currency wallet) in Hrun.
  apply st_bind_run in Hrun as (w4 & r & E4 & Hrun). destruct r as [event|]; [|done].
  assert (forall a, fi_AmountMinor input = Some a -> in_i64 a) as Hia by done.
  assert (moves (transact others fault (fun e => only (OfUsage e)) (fun n =>
    Service_Finalize (ids n) (us_handle s) input (clock n 0%nat) (clock n 1%nat)))) as Hmf.
  { apply moves_transact; [done|]. by apply performs_finalize. }
  pose proof (Hmf _ _ _ E4 (ca_inv _ _ C3)) as C4.
  apply transact_ok in E4 as (p & Hp & Hf); [|apply C3].
  apply Service_Finalize_event in Hf as (row & Hrow & Hid & Hq & Hst & Ham & Hae & Hok); [|done|done].
  change (fi_AmountMinor input) with amount in *.
  change (fi_TerminalStatus input) with (completion_status c g) in *.
  assert (forall a, ev_AmountMinor row = Some a -> 0 < a -> is_Some (held s)) as Hpos.
  { intros a Hra Hlt. apply Hwal. rewrite Ham in Hra. unfold finalize_input_ok in Hok. bools.
    change (fi_AmountMinor input) with amount in *. change (fi_WalletID input) with (cloneUUIDPtr wallet) in *.
    rewrite Hra in *.
    destruct wallet as [wid|]; [by eexists|]. exfalso.
    rename select (_ && _ = false) into Hbad. simpl in Hbad. rewrite andb_true_r in Hbad.
    apply Z.ltb_ge in Hbad. lia. }
  unfold settle in Hrun.
  destruct (held s) as [r|] eqn:Eh.
  2:{ injection Hrun as <-. exists row. rewrite Hid, Eh. by split_and!. }
  cbn [negb orb] in Hrun. destruct (String.eqb_spec (Billing.r_Status r) Billing.ReservationReleased) as [Er|Er].
  { injection Hrun as <-. exists row. rewrite Hid. split_and!; try done.
    { rewrite Ham, Eh. exact Hmiss. }
    intros r' Hr' Hn. congruence. }
  apply st_bind_run in Hrun as (w5 & settled & E5 & Hrun).
  assert (moves (transact others fault (fun e => only (OfBilling e)) (billing_call ids (fun n =>
    Service_Settle {| Billing.si_ReservationID := Billing.r_ID r; Billing.si_Event := event |} (clock n 0%nat))))) as Hms.
  { apply moves_transact; [done|]. apply performs_settle. intros a Hev. rewrite Hae in Hev. by apply Ha. }
  pose proof (Hms _ _ _ E5 (ca_inv _ _ C4)) as C5. injection Hrun as <- Hnone.
  destruct settled as [[st b]|er]; [|done].
  apply transact_ok in E5 as (q & Hqi & Hset); [|apply C4]. unfold billing_call in Hset.
  match type of Hset with (let '(_, _) := ?x in _) = _ => destruct x as [d res] eqn:Hbill end.
  injection Hset as Hdb ->.
  apply Service_Settle_row in Hbill as (k & Hk & F1 & F2 & F3 & hold & F4 & F5);
    [|apply Hqi|intros a Hev; rewrite Hae in Hev; by apply Ha].
  exists row. rewrite Hid. split_and!; try done.
  - by apply (ue_events _ _ (ca_usage _ _ C5)) in Hrow.
  - rewrite Ham, Eh. exact Hmiss.
  - intros r' Hr' _. assert (r' = r) as -> by congruence. exists k, st. rewrite <- Hdb.
    split_and!; [done|done|congruence|congruence|by exists hold].
Qed.
End facts.
End ProxyFacts.

(** * Running the handler: what answers, and what changes the tables

    Code that does not answer ([quiet]), code that answers an error ([fails]), code whose
    successes are recorded and settled ([good]), and the tables under each part of the
    handler ([moves]). *)

From stdpp Require Import base gmap strings list relations.
From Stdlib Require Import ZArith Lia Ascii String.
From S2P Require Import Prelude GoLib Usage Pricing BillingModel Money Store StoreFacts.
From S2P Require Import BillingOps BillingService BillingInv BillingFacts BillingSteps BillingHistory.
From S2P Require Import UsageModel UsageRepo UsageFacts UsageSteps UsageHistory UsageTheorems.
From S2P Require Import SchedulerModel Scheduler UsageExtract ProxyErrors ProxyText ProxyStream ProxyUsage.
From S2P Require Import Proxy ProxyErrors ProxyStream.

Module ProxyRuns.
Import Usage UsageModel UsageRepo UsageFacts UsageSteps UsageHistory UsageExtract.
Import ProxyErrors ProxyText ProxyStream ProxyUsage Proxy ProxyErrorFacts ProxyMoves ProxyFacts.
Import Store(DB, usage_events, settlements, reservations, SqlGuards, WallClock).
Import BillingService(Service_Reserve).

Definition success_sent (w : response) : Prop :=
  exists status h, w_sent w = Some (status, h) /\ 200 <= status < 300.

Section handler.
Context `{UuidText, TimeText, SqlGuards, UsageGuards, OutboxBirth, WallClock, MapOrder}.
Context (clock : nat -> nat -> time) (ids : nat -> list uuid) (others : nat -> UDB -> UDB)
        (fault : nat -> option failure) (gone : nat -> bool).
Context (parts : Parts) (settings : Settings) (services : Services).
Hypothesis others_ok : forall n p, UInv p -> rtc (usage_step any) p (others n p).

(** ** Code that does not answer, and code that answers an error *)
Definition quiet {A} (m : svc A) : Prop := forall w, w_resp (m w).1 = w_resp w.
Definition fails {A} (m : svc A) : Prop :=
  forall w, w_sent (w_resp w) = None -> ~ success_sent (w_resp (m w).1).

Lemma quiet_ret {A} (a : A) : quiet (mret a).
Proof. done. Qed.
Lemma quiet_bind {A B} (m : svc A) (f : A -> svc B) : quiet m -> (forall a, quiet (f a)) -> quiet (m ≫= f).
Proof. intros Hm Hf w. rewrite st_bind_eq, Hf. apply Hm. Qed.
Lemma quiet_event : quiet next_event.
Proof. done. Qed.
Lemma quiet_log e : quiet (log e).
Proof. done. Qed.
Lemma quiet_transact {E A} (of_error : E -> goerr) (f : nat -> UDB -> UDB * result E A) :
  quiet (transact others fault of_error f).
Proof. intros w. unfold transact. by destruct (f _ _). Qed.

Lemma fails_bind {A B} (m : svc A) (f : A -> svc B) : quiet m -> (forall a, fails (f a)) -> fails (m ≫= f).
Proof. intros Hm Hf w Hw. rewrite st_bind_eq. apply Hf. by rewrite Hm. Qed.
Lemma fails_then {A B} (m : svc A) (f : A -> svc B) : fails m -> (forall a, quiet (f a)) -> fails (m ≫= f).
Proof. intros Hm Hf w Hw. rewrite st_bind_eq, Hf. by apply Hm. Qed.

Lemma writeProxyError_sent x err w :
  w_sent w = None -> exists h, w_sent (writeProxyError x err w) = Some (me_status (mapPublicError err), h).
Proof.
  intros Hw. unfold writeProxyError. cbv zeta.
  set (w1 := if String.eqb (me_retryAfter _) "" then w else _).
  assert (w_sent w1 = None) as W1 by (unfold w1; case_match; exact Hw).
  set (w2 := if String.eqb (get_header _ _) "" then _ else _).
  assert (w_sent w2 = None) as W2 by (unfold w2; case_match; exact W1).
  clearbody w2. cbn. rewrite W2. by eexists.
Qed.

Lemma error_status err : 400 <= me_status (mapPublicError err).
Proof.
  pose proof (answers_plain _ (mapPublicError_answer err)) as Hp. unfold plain_answer in Hp. bools. lia.
Qed.

Lemma error_no_success x err w : w_sent w = None -> ~ success_sent (writeProxyError x err w).
Proof.
  intros Hw (st & h & Hs & Hr). destruct (writeProxyError_sent x err w Hw) as [h' Hs'].
  rewrite Hs in Hs'. injection Hs' as -> _. pose proof (error_status err). lia.
Qed.

Lemma fails_respond x err : fails (respond (writeProxyError x err)).
Proof. intros w Hw. simpl. by apply error_no_success. Qed.

#[local] Create HintDb quiet discriminated.
#[local] Hint Resolve quiet_ret quiet_event quiet_log quiet_transact : quiet.
Ltac quieten :=
  repeat first
    [ apply quiet_bind; [|intros ?]
    | progress cbv zeta
    | match goal with |- forall _, _ => intro end
    | solve [eauto with quiet nocore]
    | match goal with
      | |- quiet (if ?x then _ else _) => destruct x
      | |- quiet (match ?x with _ => _ end) => destruct x
      end ].

Lemma quiet_now : quiet (ProxyUsage.now clock).
Proof. unfold ProxyUsage.now. quieten. Qed.
Lemma quiet_gone : quiet (is_gone gone).
Proof. unfold is_gone. quieten. Qed.
Lemma quiet_ask {A} (f : nat -> A) : quiet (ask f).
Proof. unfold ask. quieten. Qed.
#[local] Hint Resolve quiet_now quiet_gone quiet_ask : quiet.
Lemma quiet_finalize b s c : quiet (finalize clock ids others fault gone b s c).
Proof. unfold finalize, settle. quieten. Qed.
#[local] Hint Resolve quiet_finalize : quiet.
Lemma quiet_finalizeUsage b s c : quiet (finalizeUsage clock ids others fault gone b s c).
Proof. unfold finalizeUsage. quieten. Qed.
#[local] Hint Resolve quiet_finalizeUsage : quiet.
Lemma quiet_failure b s e : quiet (finalizeUsageFailure clock ids others fault gone b s e).
Proof. unfold finalizeUsageFailure. quieten. Qed.
Lemma quiet_report sel e : quiet (reportResult clock parts sel e).
Proof. clear gone. unfold reportResult. quieten. Qed.
Lemma quiet_observe sel rq h t : quiet (observeQuota parts sel rq h t).
Proof. clear clock gone. unfold observeQuota. quieten. Qed.
Lemma quiet_begin b id p e parsed : quiet (beginUsage clock ids others fault b id p e parsed).
Proof. clear gone. unfold beginUsage. quieten. Qed.
#[local] Hint Resolve quiet_failure quiet_report quiet_observe quiet_begin : quiet.
Lemma quiet_price resolution sel state : quiet (price_step clock parts services resolution sel state).
Proof. clear gone. unfold price_step. quieten. Qed.
Lemma quiet_reserve x p resolution sel price body parsed s :
  quiet (reserve_step clock ids others fault settings x p resolution sel price body parsed s).
Proof. clear gone. unfold reserve_step. quieten. Qed.
#[local] Hint Resolve quiet_price quiet_reserve : quiet.

Lemma fails_fail x state err : fails (fail clock ids others fault gone parts x state err).
Proof. unfold fail, refuse. apply fails_bind; [quieten|intros e]. apply fails_respond. Qed.

(** ** Tables *)
Definition states_ok (state : option usageState) : Prop := forall s, state = Some s -> state_ok s.

Lemma moves_next : moves next_event.
Proof. by apply moves_pure. Qed.
Lemma moves_ask {A} (f : nat -> A) : moves (ask f).
Proof. by apply moves_pure. Qed.
Lemma moves_log e : moves (log e).
Proof. by apply moves_pure. Qed.
Lemma moves_respond f : moves (respond f).
Proof. by apply moves_pure. Qed.
Lemma moves_finalizeUsage b state c :
  states_ok state -> moves (finalizeUsage clock ids others fault gone b state c).
Proof. intros Hs. destruct state as [s|]; [|apply moves_ret]. by apply moves_finalize, Hs. Qed.
Lemma moves_failure b state err :
  states_ok state -> moves (finalizeUsageFailure clock ids others fault gone b state err).
Proof.
  intros Hs. unfold finalizeUsageFailure. apply moves_bind; [apply moves_gone|intros g].
  by apply moves_finalizeUsage.
Qed.
Lemma moves_fail x state err : states_ok state -> moves (fail clock ids others fault gone parts x state err).
Proof.
  intros Hs. unfold fail, refuse. apply moves_bind; [by apply moves_failure|intros e]. apply moves_respond.
Qed.
Lemma moves_report sel e : moves (reportResult clock parts sel e).
Proof.
  unfold reportResult. destruct (uuid_eqb _ _); [apply moves_ret|].
  match goal with |- moves (if ?b then _ else _) => destruct b; [apply moves_ret|] end.
  apply moves_bind; [apply moves_now|intros t]. cbv zeta.
  apply moves_bind; [destruct (has_runtime parts); [apply moves_log|apply moves_ret]|intros _].
  destruct (has_health parts); [apply moves_log|apply moves_ret].
Qed.
Lemma moves_observe sel rq h t : moves (observeQuota parts sel rq h t).
Proof.
  unfold observeQuota. destruct (_ || _); [apply moves_ret|]. cbv zeta.
  match goal with |- moves (if ?b then _ else _) => destruct b; [apply moves_ret|apply moves_log] end.
Qed.

(** ** Code that only answers a success that is recorded and settled *)
(** The event of the request, of a response that succeeded.  When it costs something, the
    request has a hold, and the hold has the settlement of that event for that cost, unless
    it is a hold that was released.  When the usage is missing, the cost is the hold. *)
Definition accounted (id : string) (p : UDB) : Prop :=
  exists row, usage_events (books p) !! ev_ID row = Some row /\ ev_RequestID row = id
    /\ (ev_TerminalStatus row = StatusSucceeded \/ ev_TerminalStatus row = StatusReconcileNeeded)
    /\ forall a, ev_AmountMinor row = Some a -> 0 < a ->
         exists r, reservations (books p) !! Billing.r_ID r = Some r /\ Billing.r_RequestID r = id
           /\ (ev_TerminalStatus row = StatusReconcileNeeded -> a = Billing.r_AmountMinor r)
           /\ (Billing.r_Status r = Billing.ReservationReleased
               \/ exists k st, settlements (books p) !! k = Some st
                    /\ Billing.st_ReservationID st = Billing.r_ID r
                    /\ Billing.st_UsageEventID st = ev_ID row
                    /\ Billing.st_ReservedAmount st = Billing.r_AmountMinor r
                    /\ Billing.st_ActualAmount st = Some a).

(** The state of the request [id]: its handle, and its hold when it holds something. *)
Record owned (id : string) (s : usageState) (p : UDB) : Prop := {
  ow_id : rh_RequestID (us_handle s) = id;
  ow_open : us_done s = false;
  ow_amount : state_ok s;
  ow_hold : forall r, held s = Some r -> exists row,
    reservations (books p) !! Billing.r_ID r = Some row /\ Billing.r_ID row = Billing.r_ID r
    /\ Billing.r_RequestID row = id /\ Billing.r_AmountMinor row = Billing.r_AmountMinor r
    /\ (Billing.r_Status r = Billing.ReservationReleased -> Billing.r_Status row = Billing.ReservationReleased)
}.

Lemma hold_carries p p' k row :
  carries p p' -> reservations (books p) !! k = Some row -> exists row',
    reservations (books p') !! k = Some row' /\ Billing.r_ID row' = Billing.r_ID row
    /\ Billing.r_RequestID row' = Billing.r_RequestID row
    /\ Billing.r_AmountMinor row' = Billing.r_AmountMinor row
    /\ (Billing.r_Status row = Billing.ReservationReleased -> Billing.r_Status row' = Billing.ReservationReleased).
Proof.
  intros HC Hk. destruct (ca_reservations _ _ HC k row Hk) as (row' & Hk' & (E1 & _ & E2 & E3 & _) & _ & Ht).
  exists row'. split_and!; try done. intros Hr. rewrite Ht; [done|]. by rewrite Hr.
Qed.

Lemma accounted_carries id p p' : carries p p' -> accounted id p -> accounted id p'.
Proof.
  intros HC (row & Hrow & Hid & Hst & Hpaid). exists row. split_and!; try done.
  { by apply (ue_events _ _ (ca_usage _ _ HC)). }
  intros a Ha Hlt. destruct (Hpaid a Ha Hlt) as (r & Hr & Hq & Hm & Hs).
  destruct (hold_carries _ _ _ _ HC Hr) as (r' & Hr' & E1 & E2 & Eam & E3). exists r'.
  rewrite E1, E2, Eam. split_and!; [done..|]. destruct Hs as [Hs|(k & st & Hk & F1 & F2 & F3 & F4)]; [left; auto|right].
  destruct (ca_settlements _ _ HC k st Hk) as (st' & Hk' & _ & G1 & G2 & G3 & G4 & _). exists k, st'.
  split_and!; congruence.
Qed.

Lemma owned_carries id s p p' : carries p p' -> owned id s p -> owned id s p'.
Proof.
  intros HC [E1 E2 E3 Hh]. split; [done..|]. intros r Hr. destruct (Hh r Hr) as (row & Hrow & F1 & F2 & F4 & F3).
  destruct (hold_carries _ _ _ _ HC Hrow) as (row' & Hrow' & G1 & G2 & G4 & G3). exists row'.
  split_and!; [done|congruence..|]. intros Hs. by apply G3, F3.
Qed.

(** A finalisation without error accounts for the request. *)
Lemma finalize_accounted id s c w w' :
  UInv (w_db w) -> owned id s (w_db w) -> uc_err c = None -> uc_cancelled c = false ->
  finalize clock ids others fault gone true s c w = (w', None) -> accounted id (w_db w').
Proof.
  intros HI [E1 E2 E3 Hh] Hc Hx Hrun.
  pose proof (moves_finalize clock ids others fault gone others_ok true s c E3 _ _ _ Hrun HI) as HC.
  apply finalize_billed in Hrun as (g & row & Hrow & Hid & Hst & Hpos & Hmiss & Hset); [|done..].
  unfold completion_status in Hst. rewrite Hc, Hx in Hst. simpl in Hst.
  exists row. split_and!; [done|congruence|..].
  { rewrite Hst. destruct (uc_usageFound c); auto. }
  intros a Ha Hlt. destruct (Hpos a Ha Hlt) as [r Hr].
  destruct (Hh r Hr) as (x & Hx1 & F1 & F2 & F4 & F3).
  destruct (hold_carries _ _ _ _ HC Hx1) as (x' & Hx' & G1 & G2 & G4 & G3).
  exists x'. rewrite G1, F1. split_and!; [done|congruence|..].
  { rewrite Hst, G4, F4. destruct (uc_usageFound c) eqn:Ef; [done|]. intros _. by apply Hmiss. }
  destruct (String.eqb_spec (Billing.r_Status r) Billing.ReservationReleased) as [Er|Er]; [left; auto|right].
  destruct (Hset r Hr Er) as (k & st & K1 & K2 & K3 & K4 & hold & K5 & K6). exists k, st.
  rewrite Hx' in K5. split_and!; congruence.
Qed.

(** From tables where [Pre] holds, a success is only answered for an accounted request. *)
Definition good {A} (id : string) (Pre : UDB -> Prop) (m : svc A) : Prop :=
  forall w w' a, m w = (w', a) -> UInv (w_db w) -> Pre (w_db w) -> w_sent (w_resp w) = None ->
    success_sent (w_resp w') -> accounted id (w_db w').
Definition stable (Pre : UDB -> Prop) : Prop := forall p p', carries p p' -> Pre p -> Pre p'.

Lemma good_fails {A} id Pre (m : svc A) : fails m -> good id Pre m.
Proof. intros Hm w w' a E _ _ Hw Hs. specialize (Hm w Hw). rewrite E in Hm. done. Qed.

Lemma good_bind {A B} id Pre (Post : A -> UDB -> Prop) (m : svc A) (f : A -> svc B) :
  quiet m -> moves m ->
  (forall w w' a, m w = (w', a) -> UInv (w_db w) -> Pre (w_db w) -> Post a (w_db w')) ->
  (forall a, good id (Post a) (f a)) -> good id Pre (m ≫= f).
Proof.
  intros Hq Hm HP Hf w w' b (w1 & a & Ha & Hb)%st_bind_run HI Hpre Hw Hs.
  eapply Hf; [exact Hb|apply (Hm _ _ _ Ha HI)|by eapply HP| |done].
  specialize (Hq w). rewrite Ha in Hq. simpl in Hq. by rewrite Hq.
Qed.

Lemma good_any {A B} id Pre (m : svc A) (f : A -> svc B) :
  stable Pre -> quiet m -> moves m -> (forall a, good id Pre (f a)) -> good id Pre (m ≫= f).
Proof.
  intros HS Hq Hm Hf. apply (good_bind id Pre (fun _ => Pre)); [done..| |done].
  intros w w' a E HI Hp. eapply HS; [by eapply Hm|done].
Qed.

Lemma good_then {A B} id Pre (m : svc A) (f : A -> svc B) :
  good id Pre m -> (forall a, quiet (f a)) -> (forall a, moves (f a)) -> moves m -> good id Pre (m ≫= f).
Proof.
  intros Hg Hq Hm Hmm w w' b (w1 & a & Ha & Hb)%st_bind_run HI Hp Hw Hs.
  pose proof (Hmm _ _ _ Ha HI) as C1. eapply accounted_carries; [eapply Hm; [exact Hb|apply C1]|].
  eapply Hg; [exact Ha|done..|]. specialize (Hq a w1). rewrite Hb in Hq. simpl in Hq. by rewrite <- Hq.
Qed.

End handler.
End ProxyRuns.
