(* ===== verification/ProxyTheorems.v ===== *)
(** * The handler: what it answers, what it records, what it sends upstream

    A successful answer to a request that is not streamed is recorded and settled; the
    upstream is only called for a request that is recorded and whose estimated cost is
    held, once, and the lease it took is released. *)

From stdpp Require Import base gmap strings list relations.
From Stdlib Require Import ZArith Lia Ascii String.
From S2P Require Import Prelude GoLib Json Usage Pricing BillingModel Money Store StoreFacts.
From S2P Require Import BillingOps BillingService BillingInv BillingFacts BillingSteps BillingHistory.
From S2P Require Import UsageModel UsageRepo UsageFacts UsageSteps UsageHistory UsageTheorems.
From S2P Require Import SchedulerModel Scheduler UsageExtract ProxyErrors ProxyText ProxyStream ProxyUsage.
From S2P Require Import Proxy ProxyErrors ProxyStream ProxyFacts.

Module ProxyTheorems.
Import Usage UsageModel UsageRepo UsageFacts UsageSteps UsageHistory UsageExtract.
Import ProxyErrors ProxyText ProxyStream ProxyUsage Proxy ProxyErrorFacts ProxyMoves ProxyFacts ProxyRuns.
Import Store(DB, usage_events, settlements, reservations, SqlGuards, WallClock).
Import BillingService(Service_Reserve).

Section handler.
Context `{UuidText, TimeText, SqlGuards, UsageGuards, OutboxBirth, WallClock, MapOrder}.
Context (clock : nat -> nat -> time) (ids : nat -> list uuid) (others : nat -> UDB -> UDB)
        (fault : nat -> option failure) (gone : nat -> bool).
Context (parts : Parts) (settings : Settings) (services : Services).
Hypothesis others_ok : forall n p, UInv p -> rtc (usage_step any) p (others n p).

(** ** The state between the steps *)
(** A state that holds nothing yet. *)
Definition fresh (id : string) (s : usageState) : Prop :=
  rh_RequestID (us_handle s) = id /\ us_done s = false /\ us_reservation s = None.

Lemma fresh_owned id s p : fresh id s -> owned id s p.
Proof.
  intros (E1 & E2 & E3). split; [done|done|..].
  - intros r Hr. by rewrite E3 in Hr.
  - intros r Hr. unfold held in Hr. by rewrite E3 in Hr.
Qed.
Lemma owned_state_ok id s p : owned id s p -> states_ok (Some s).
Proof. intros Ho x [= <-]. apply Ho. Qed.
Lemma fresh_state_ok id s : fresh id s -> states_ok (Some s).
Proof. intros (_ & _ & E) x [= <-] r Hr. by rewrite E in Hr. Qed.

Lemma stable_owned id s : stable (owned id s).
Proof. intros p p' HC Ho. by eapply owned_carries. Qed.
Lemma stable_accounted id (P : Prop) : stable (fun p => P -> accounted id p).
Proof. intros p p' HC Ha HP. eapply accounted_carries; eauto. Qed.

(** The open handle of a request that began. *)
Lemma beginUsage_fresh id principal e parsed w w' state :
  UInv (w_db w) ->
  beginUsage clock ids others fault true id principal e parsed w = (w', Ok state) ->
  exists s, state = Some s /\ fresh id s.
Proof.
  intros HI. unfold beginUsage. cbn [negb]. intros (w1 & t & E1 & Hrun)%st_bind_run.
  cbv zeta in Hrun. apply st_bind_run in Hrun as (w2 & r & E2 & Hrun).
  destruct r as [h|]; [|done]. destruct (negb _) eqn:Hopen; [done|]. injection Hrun as <- <-.
  apply transact_ok in E2 as (p & Hp & E2); [|done|by injection E1 as <- _].
  unfold Service_BeginRequest in E2. destruct (normalizeStartInput _ _) as [n|] eqn:Hn; [|done].
  apply run_usage_ok in E2 as [rest Hm]. apply BeginRequest_ok in Hm as [_ (Hq & _)].
  assert (si_RequestID n = id) as Hid.
  { unfold normalizeStartInput in Hn. repeat match type of Hn with (if ?b then _ else _) = _ => destruct b; [done|] end.
    by injection Hn as <-. }
  eexists. split; [done|]. unfold fresh. simpl. split_and!; congruence.
Qed.

(** The state after its hold was taken. *)
Lemma reserve_owned x principal resolution sel price body parsed s w w' s' :
  UInv (w_db w) -> fresh (x_id x) s ->
  reserve_step clock ids others fault settings x principal resolution sel price body parsed s w
    = (w', Ok s') ->
  owned (x_id x) s' (w_db w')
  /\ exists r, us_reservation s' = Some (clone_reservation r)
       /\ holds (reserveOutputTokens settings) (reserve_input x principal resolution sel s price body parsed) r (books (w_db w')).
Proof.
  intros HI (F1 & F2 & F3) (w1 & res & E1 & Hrun)%st_bind_run. destruct res as [r|]; [|done].
  injection Hrun as <- <-. apply transact_ok in E1 as (p & Hp & E1); [|done..].
  unfold billing_call in E1.
  match type of E1 with (let '(_, _) := ?x in _) = _ => destruct x as [d res] eqn:Hbill end.
  injection E1 as Hdb ->. apply Service_Reserve_holds in Hbill; [|apply Hp].
  rewrite <- Hdb. cbn [books set_books].
  split; [|by exists r].
  destruct Hbill as (q & Hq & Hn & Ham & Hheld).
  split; [done|done|..].
  - intros x0 [= <-]. simpl. rewrite Ham. unfold in_i64, nat_i64, min_int64 in *. lia.
  - intros x0 Hx. apply held_Some in Hx as [[= <-] Hx]. simpl in Hx.
    destruct Hheld as [[_ Hnone]|[Hrow Hid]]; [done|].
    exists r. simpl. split_and!; done.
Qed.

(** ** Successes *)
(** [finalizeUsage] of the state of the request: no error means accounted. *)
Lemma good_finalize {B} id s c (f : option goerr -> svc B) :
  state_ok s -> uc_err c = None -> uc_cancelled c = false ->
  (forall e, good id (fun p => e = None -> accounted id p) (f e)) ->
  good id (owned id s) (finalizeUsage clock ids others fault gone true (Some s) c ≫= f).
Proof.
  intros Hs Hc Hx Hf. apply (good_bind id _ (fun e p => e = None -> accounted id p)); [..|done].
  - apply quiet_finalizeUsage.
  - apply moves_finalizeUsage; [exact others_ok|]. intros x [= <-]. exact Hs.
  - intros w w' a Hrun HI Ho ->. exact (finalize_accounted clock ids others fault gone others_ok id s c w w' HI Ho Hc Hx Hrun).
Qed.

Lemma executeJSON_good x sel request s :
  state_ok s -> has_billing parts = true ->
  good (x_id x) (owned (x_id x) s)
    (executeJSON clock ids others fault gone parts services x sel request (Some s)).
Proof.
  intros Hs Hb. unfold executeJSON, refuse. rewrite Hb.
  apply good_any; [apply stable_owned|apply quiet_log|apply moves_log|intros _].
  apply good_any; [apply stable_owned|apply quiet_ask|apply moves_ask|intros [result|err]].
  2:{ apply good_fails, fails_bind; [apply quiet_failure|intros e].
      apply fails_bind; [apply quiet_report|intros _]. apply fails_respond. }
  cbv zeta. apply good_any; [apply stable_owned|apply quiet_now|apply moves_now|intros t].
  apply good_any; [apply stable_owned|apply quiet_observe|apply moves_observe|intros _].
  match goal with |- good _ _ (if ?b then _ else _) => destruct b end.
  - apply good_fails, fails_bind; [apply quiet_finalizeUsage|intros e].
    apply fails_bind; [apply quiet_report|intros _]. apply fails_respond.
  - apply good_finalize; [done..|]. intros e.
    apply good_any; [apply stable_accounted|apply quiet_report|apply moves_report|intros _].
    destruct e as [e|]; [apply good_fails, fails_respond|].
    intros w w' u [= <- _] _ Ha _ _. by apply Ha.
Qed.

Lemma moves_executeJSON x sel request state :
  states_ok state ->
  moves (executeJSON clock ids others fault gone parts services x sel request state).
Proof.
  intros Hs. unfold executeJSON, refuse. apply moves_bind; [apply moves_log|intros _].
  apply moves_bind; [apply moves_ask|intros [result|err]].
  - cbv zeta. apply moves_bind; [apply moves_now|intros t].
    apply moves_bind; [apply moves_observe|intros _].
    match goal with |- moves (if ?b then _ else _) => destruct b end;
      (apply moves_bind; [by apply moves_finalizeUsage|intros e];
       apply moves_bind; [apply moves_report|intros _]).
    + apply moves_respond.
    + destruct e; apply moves_respond.
  - apply moves_bind; [by apply moves_failure|intros e].
    apply moves_bind; [apply moves_report|intros _]. apply moves_respond.
Qed.

Lemma moves_executeStream x e sel request state :
  states_ok state ->
  moves (executeStream clock ids others fault gone parts services x e sel request state).
Proof.
  intros Hs. unfold executeStream, tell, refuse. apply moves_bind; [apply moves_log|intros _].
  apply moves_bind; [apply moves_ask|intros [stream|err]].
  - apply moves_bind; [apply moves_now|intros t]. apply moves_bind.
    { apply moves_pure. intros w. by destruct (writeStream _ _ _ _ _). }
    intros [o|]; [|apply moves_ret]. apply moves_bind; [apply moves_now|intros t2].
    apply moves_bind; [apply moves_observe|intros _].
    apply moves_bind; [by apply moves_finalizeUsage|intros fe].
    apply moves_bind; [|intros _; apply moves_ret].
    destruct (o_cancelled o); [apply moves_ret|].
    destruct (o_err o); (apply moves_bind; [apply moves_report|intros _]);
      destruct fe; try apply moves_ret; try apply moves_respond.
    destruct (o_wroteHeaders o); [apply moves_ret|apply moves_respond].
  - apply moves_bind; [by apply moves_failure|intros fe].
    apply moves_bind; [apply moves_report|intros _].
    apply moves_bind; [apply moves_respond|intros _; apply moves_ret].
Qed.

(** ** The tables under the rest of the handler *)
Lemma moves_execute r x e resolution sel body parsed state :
  states_ok state ->
  moves (execute clock ids others fault gone parts services r x e resolution sel body parsed state).
Proof.
  intros Hs. unfold execute. cbv zeta. destruct (p_Stream parsed); [by apply moves_executeStream|].
  apply moves_bind; [by apply moves_executeJSON|intros _; apply moves_ret].
Qed.

Lemma moves_reserve x principal resolution sel price body parsed s :
  moves (reserve_step clock ids others fault settings x principal resolution sel price body parsed s).
Proof.
  unfold reserve_step. apply moves_bind; [|intros a; apply moves_ret].
  apply moves_transact; [done|]. apply performs_reserve.
Qed.

Lemma moves_price resolution sel state : moves (price_step clock parts services resolution sel state).
Proof.
  unfold price_step. destruct (negb _); [apply moves_ret|]. apply moves_bind; [apply moves_now|intros t].
  apply moves_bind; [apply moves_ask|intros a; apply moves_ret].
Qed.

(** The state the price step leaves. *)
Lemma price_state resolution sel state w w' price state' :
  price_step clock parts services resolution sel state w = (w', Ok (price, state')) ->
  state' = state \/ state' = setPrice price <$> state.
Proof.
  unfold price_step. destruct (negb _); [intros [= _ _ <-]; by left|].
  intros (w1 & t & _ & Hrun)%st_bind_run. apply st_bind_run in Hrun as (w2 & [a|] & _ & Hrun); [|done].
  injection Hrun as _ <- <-. by right.
Qed.

Lemma fresh_price id price s : fresh id s -> fresh id (setPrice price s).
Proof. done. Qed.
Lemma fresh_selection id sel s : fresh id s -> fresh id (setSelection sel s).
Proof. done. Qed.
Lemma fresh_resolution id r s : fresh id s -> fresh id (setResolution r s).
Proof. done. Qed.

Lemma moves_refusal x state err :
  states_ok state ->
  moves (fail clock ids others fault gone parts x state err;; mret true).
Proof. intros Hs. apply moves_bind; [by apply moves_fail|intros _; apply moves_ret]. Qed.

Lemma priced_fresh id resolution sel s w w' price state' :
  fresh id s -> price_step clock parts services resolution sel (Some s) w = (w', Ok (price, state')) ->
  exists s', state' = Some s' /\ fresh id s'.
Proof. intros Hs [->| ->]%price_state; eauto using fresh_price. Qed.

Lemma moves_lease r x e principal resolution sel body parsed s :
  fresh (x_id x) s ->
  moves (with_lease clock ids others fault gone parts settings services r x e principal resolution sel
           body parsed (Some s)).
Proof.
  intros Hs. unfold with_lease.
  apply (moves_bind_post (fun a => forall price state, a = Ok (price, state) ->
           exists s', state = Some s' /\ fresh (x_id x) s')); [apply moves_price|..].
  { intros w w' a Hrun _ price state ->. exact (priced_fresh _ _ _ _ _ _ _ _ Hs Hrun). }
  intros [[price state]|err] Hst.
  2:{ apply moves_refusal. exact (fresh_state_ok _ _ Hs). }
  destruct (Hst price state eq_refl) as (s' & -> & Hf). destruct (negb _).
  { apply moves_execute. exact (fresh_state_ok _ _ Hf). }
  apply (moves_bind_post (fun a => forall s2, a = Ok s2 -> state_ok s2)); [apply moves_reserve|..].
  { intros w w' a Hrun HI s2 ->.
    destruct (reserve_owned _ _ _ _ _ _ _ _ _ _ _ HI Hf Hrun) as [Ho _]. exact (ow_amount _ _ _ Ho). }
  intros [s2|err] Ho.
  - apply moves_execute. intros s3 [= <-]. exact (Ho s2 eq_refl).
  - apply moves_refusal. exact (fresh_state_ok _ _ Hf).
Qed.

(** ** Successes of requests that are not streamed *)
Lemma quiet_done {A} (f : A -> svc bool) : (forall a, f a = mret true) -> forall a, quiet (f a).
Proof. intros Hf a. rewrite Hf. apply quiet_ret. Qed.

Lemma good_refusal id Pre x state err :
  good id Pre (fail clock ids others fault gone parts x state err;; mret true).
Proof. apply good_fails, fails_then; [apply fails_fail|intros _; apply quiet_ret]. Qed.

Lemma good_answer id Pre x err :
  good id Pre (respond (writeProxyError x err);; mret true).
Proof. apply good_fails, fails_then; [apply fails_respond|intros _; apply quiet_ret]. Qed.

(** What [Pre] says whatever the tables are. *)
Lemma good_when {A} id Pre (P : Prop) (m : svc A) :
  (forall p, Pre p -> P) -> (P -> good id Pre m) -> good id Pre m.
Proof. intros HP Hm w w' a Hrun HI Hpre. by eapply (Hm (HP _ Hpre)). Qed.

Lemma good_lease r x e principal resolution sel body parsed s :
  fresh (x_id x) s -> has_billing parts = true -> p_Stream parsed = false ->
  good (x_id x) (fun _ => True)
    (with_lease clock ids others fault gone parts settings services r x e principal resolution sel
       body parsed (Some s)).
Proof.
  intros Hs Hb Hp. unfold with_lease. rewrite Hb. cbn [negb].
  apply (good_bind _ _ (fun a _ => forall price state, a = Ok (price, state) ->
           exists s', state = Some s' /\ fresh (x_id x) s')); [apply quiet_price|apply moves_price|..].
  { intros w w' a Hrun _ _ price state ->. exact (priced_fresh _ _ _ _ _ _ _ _ Hs Hrun). }
  intros [[price state]|err]; [|apply good_refusal].
  apply (good_when _ _ (exists s', state = Some s' /\ fresh (x_id x) s')); [eauto|].
  intros (s' & -> & Hf).
  apply (good_bind _ _ (fun a p => forall s2, a = Ok s2 -> owned (x_id x) s2 p));
    [apply quiet_reserve|apply moves_reserve|..].
  { intros w w' a Hrun HI _ s2 ->. exact (proj1 (reserve_owned _ _ _ _ _ _ _ _ _ _ _ HI Hf Hrun)). }
  intros [s2|err]; [|apply good_refusal].
  apply (good_when _ _ (state_ok s2)); [intros p Ho; apply (Ho s2 eq_refl)|intros Hok].
  unfold execute. cbv zeta. rewrite Hp. apply good_then; [|intros _; apply quiet_ret|intros _; apply moves_ret|].
  2:{ apply moves_executeJSON. intros s3 [= <-]. exact Hok. }
  intros w w' u Hrun HI Ho. exact (executeJSON_good x sel _ s2 Hok Hb w w' u Hrun HI (Ho s2 eq_refl)).
Qed.

Lemma good_routed r x e principal publicID body parsed s :
  fresh (x_id x) s -> has_billing parts = true -> p_Stream parsed = false ->
  good (x_id x) (fun _ => True)
    (route_and_run clock ids others fault gone parts settings services r x e principal publicID
       body parsed (Some s)).
Proof.
  intros Hs Hb Hp. unfold route_and_run. destruct (negb _); [apply good_refusal|].
  apply good_any; [done|apply quiet_ask|apply moves_ask|intros [resolution|err]]; [|apply good_refusal].
  apply good_any; [done|apply quiet_now|apply moves_now|intros t].
  apply good_any; [done|apply quiet_ask|apply moves_ask|intros [sel|err]]; [|apply good_refusal].
  cbn [fmap option_fmap option_map]. unfold release_after.
  assert (fresh (x_id x) (setSelection sel (setResolution resolution s))) as Hf by exact Hs.
  apply good_then; [by apply good_lease|..|by apply moves_lease].
  - intros []; [|apply quiet_ret]. apply quiet_bind; [apply quiet_log|intros _; apply quiet_ret].
  - intros []; [|apply moves_ret]. apply moves_bind; [apply moves_log|intros _; apply moves_ret].
Qed.

Lemma moves_begin id principal e parsed :
  moves (beginUsage clock ids others fault true id principal e parsed).
Proof.
  unfold beginUsage. cbn [negb]. apply moves_bind; [apply moves_now|intros t].
  apply moves_bind; [apply moves_transact; [done|apply performs_begin]|intros [h|err]]; [|apply moves_ret].
  destruct (negb _); apply moves_ret.
Qed.

Lemma good_complete r x e :
  has_usage parts = true -> has_billing parts = true ->
  (forall body parsed, readRequest (maxBodyBytes settings) (hr_Body r) = Ok (body, parsed) ->
     p_Stream parsed = false) ->
  good (x_id x) (fun _ => True) (complete clock ids others fault gone parts settings services r x e).
Proof.
  intros Hu Hb Hp. unfold complete. rewrite Hu. destruct (sv_principal services) as [principal|]; [|apply good_answer].
  destruct (readRequest _ _) as [[body parsed]|err]; [|apply good_answer].
  specialize (Hp body parsed eq_refl).
  apply good_any; [done|apply quiet_ask|apply moves_ask|intros [publicID|err]]; [|apply good_answer].
  apply good_any; [done|apply quiet_ask|apply moves_ask|intros [err|]]; [apply good_answer|].
  apply (good_bind _ _ (fun a _ => forall state, a = Ok state -> exists s, state = Some s /\ fresh (x_id x) s));
    [apply quiet_begin|..].
  - apply moves_begin.
  - intros w w' a Hrun HI _ state ->. exact (beginUsage_fresh _ _ _ _ _ _ _ HI Hrun).
  - intros [state|err]; [|apply good_answer].
    apply (good_when _ _ (exists s, state = Some s /\ fresh (x_id x) s)); [eauto|].
    intros (s & -> & Hf) w w' u Hrun HI _. exact (good_routed _ _ _ _ _ _ _ _ Hf Hb Hp w w' u Hrun HI I).
Qed.

Lemma start_headers_sent x v : w_sent (start_headers x v) = w_sent v.
Proof. unfold start_headers. by destruct (String.eqb (get_header _ _) _). Qed.

Lemma good_headers {A} id f (m : svc A) :
  (forall v, w_sent (f v) = w_sent v) -> good id (fun _ => True) m ->
  good id (fun _ => True) (respond f ≫= fun _ => m).
Proof.
  intros Hf Hm w w' a (w1 & u & [= <- _] & Hrun)%st_bind_run HI _ Hw. apply (Hm _ _ _ Hrun HI I).
  simpl. by rewrite Hf.
Qed.

Lemma fails_method x method : fails (methodNotAllowed x method).
Proof. intros v Hv. apply error_no_success. exact Hv. Qed.

(** C5: In a deployment with usage recording and billing, whatever the other requests to these two
    services do meanwhile, when a completion or a response that is not streamed is answered with
    success, its usage event is recorded, as succeeded or as missing its usage. When that event costs
    something, the request has a hold on the wallet, and there is a settlement of that hold and
    that event, over the amount of the hold and for exactly the cost of the event, unless the
    hold is one that [Release] of the billing service has given back.
    When the usage is missing, the cost is the amount of the hold. *)
Theorem success_is_recorded_and_settled encode r w w' finished :
  UInv (w_db w) -> w_sent (w_resp w) = None -> has_usage parts = true -> has_billing parts = true ->
  hr_Path r <> modelsPath ->
  (forall body parsed, readRequest (maxBodyBytes settings) (hr_Body r) = Ok (body, parsed) ->
     p_Stream parsed = false) ->
  ServeHTTP clock ids others fault gone parts settings services encode r w = (w', finished) ->
  success_sent (w_resp w') ->
  accounted (requestID (hr_ContextID r) (hr_RequestIDHeader r) (hr_FreshID r)) (w_db w').
Proof.
  intros HI Hw Hu Hb Hpath Hp Hrun.
  enough (good (x_id (exchange_of r)) (fun _ => True)
    (ServeHTTP clock ids others fault gone parts settings services encode r))
    as Hg by exact (Hg _ _ _ Hrun HI I Hw).
  clear w w' finished HI Hw Hrun.
  unfold ServeHTTP. cbv zeta. rewrite (proj2 (String.eqb_neq _ _) Hpath).
  apply good_headers; [apply start_headers_sent|].
  assert (forall method, good (x_id (exchange_of r)) (fun _ => True)
    (methodNotAllowed (exchange_of r) method;; mret true)) as Hm.
  { intros method. apply good_fails, fails_then; [apply fails_method|intros _; apply quiet_ret]. }
  destruct (String.eqb _ chatCompletionsPath); [destruct (negb _); [apply Hm|by apply good_complete]|].
  destruct (String.eqb _ responsesPath); [destruct (negb _); [apply Hm|by apply good_complete]|].
  apply good_answer.
Qed.
End handler.
End ProxyTheorems.
