(* ===== verification/ProxyCalls.v ===== *)
(** * The calls of a request: the upstream, the reports and the lease

    The log of a request: an upstream call is made at most once, for a request that is
    recorded and whose estimated cost is held; what follows it are reports; the lease of
    the selection is released last. *)

From stdpp Require Import base gmap strings list relations.
From Stdlib Require Import ZArith Lia Ascii String.
From S2P Require Import Prelude GoLib Json Usage Pricing BillingModel Money Store StoreFacts.
From S2P Require Import BillingOps BillingService BillingInv BillingFacts BillingSteps BillingHistory.
From S2P Require Import UsageModel UsageRepo UsageFacts UsageSteps UsageHistory UsageTheorems.
From S2P Require Import SchedulerModel Scheduler UsageExtract ProxyErrors ProxyText ProxyStream ProxyUsage.
From S2P Require Import Proxy ProxyErrors ProxyStream ProxyFacts ProxyTheorems.

Module ProxyCalls.
Import Usage UsageModel UsageRepo UsageFacts UsageSteps UsageHistory UsageExtract.
Import ProxyErrors ProxyText ProxyStream ProxyUsage Proxy ProxyErrorFacts ProxyMoves ProxyFacts ProxyRuns.
Import ProxyTheorems.
Import Store(DB, usage_events, settlements, reservations, SqlGuards, WallClock).
Import BillingService(Service_Reserve).
#[local] Open Scope list_scope.

(** ** Code that logs nothing, and code that logs reports *)
Definition silent {A} (m : svc A) : Prop := forall w, w_log (m w).1 = w_log w.
Definition is_report (e : effect) : bool :=
  match e with Executed _ | ReleasedLease _ => false | _ => true end.
Definition reporting {A} (m : svc A) : Prop :=
  forall w, exists l, w_log (m w).1 = w_log w ++ l /\ forallb is_report l = true.

Lemma silent_ret {A} (a : A) : silent (mret a).
Proof. done. Qed.
Lemma silent_bind {A B} (m : svc A) (f : A -> svc B) : silent m -> (forall a, silent (f a)) -> silent (m ≫= f).
Proof. intros Hm Hf w. rewrite st_bind_eq, Hf. apply Hm. Qed.
Lemma silent_event : silent next_event.
Proof. done. Qed.
Lemma silent_respond f : silent (respond f).
Proof. done. Qed.
Lemma silent_transact {E A} others fault (of_error : E -> goerr) (f : nat -> UDB -> UDB * result E A) :
  silent (transact others fault of_error f).
Proof. intros w. unfold transact. by destruct (f _ _). Qed.

Lemma silent_reporting {A} (m : svc A) : silent m -> reporting m.
Proof. intros Hm w. exists []. by rewrite Hm, app_nil_r. Qed.
Lemma reporting_bind {A B} (m : svc A) (f : A -> svc B) :
  reporting m -> (forall a, reporting (f a)) -> reporting (m ≫= f).
Proof.
  intros Hm Hf w. rewrite st_bind_eq. destruct (Hm w) as (l1 & E1 & R1).
  destruct (Hf (m w).2 (m w).1) as (l2 & E2 & R2). exists (l1 ++ l2).
  by rewrite E2, E1, app_assoc, forallb_app, R1, R2.
Qed.
Lemma reporting_log e : is_report e = true -> reporting (log e).
Proof. intros He w. exists [e]. simpl. by rewrite He. Qed.

#[local] Create HintDb logs discriminated.
#[local] Hint Resolve silent_ret silent_event silent_respond silent_transact silent_reporting : logs.
#[local] Hint Extern 2 (reporting (log _)) => (apply reporting_log; reflexivity) : logs.
(** Walks the statements of a handler. *)
Ltac walk :=
  repeat first
    [ solve [eauto with logs nocore]
    | lazymatch goal with
      | |- silent (_ ≫= _) => apply silent_bind; [|intros ?]
      | |- reporting (_ ≫= _) => apply reporting_bind; [|intros ?]
      end
    | progress cbv zeta
    | match goal with |- forall _, _ => intro end
    | match goal with
      | |- silent (if ?x then _ else _) => destruct x
      | |- silent (match ?x with _ => _ end) => destruct x
      | |- reporting (if ?x then _ else _) => destruct x
      | |- reporting (match ?x with _ => _ end) => destruct x
      end ].

Section handler.
Context `{UuidText, TimeText, SqlGuards, UsageGuards, OutboxBirth, WallClock, MapOrder}.
Context (clock : nat -> nat -> time) (ids : nat -> list uuid) (others : nat -> UDB -> UDB)
        (fault : nat -> option failure) (gone : nat -> bool).
Context (parts : Parts) (settings : Settings) (services : Services).

Lemma silent_now : silent (ProxyUsage.now clock).
Proof. clear. unfold ProxyUsage.now. walk. Qed.
Lemma silent_gone : silent (is_gone gone).
Proof. clear. unfold is_gone. walk. Qed.
Lemma silent_ask {A} (f : nat -> A) : silent (ask f).
Proof. clear. unfold ask. walk. Qed.
#[local] Hint Resolve silent_now silent_gone silent_ask : logs.
Lemma silent_finalize b s c : silent (finalize clock ids others fault gone b s c).
Proof. unfold finalize, settle. walk. Qed.
#[local] Hint Resolve silent_finalize : logs.
Lemma silent_finalizeUsage b s c : silent (finalizeUsage clock ids others fault gone b s c).
Proof. unfold finalizeUsage. walk. Qed.
#[local] Hint Resolve silent_finalizeUsage : logs.
Lemma silent_failure b s e : silent (finalizeUsageFailure clock ids others fault gone b s e).
Proof. unfold finalizeUsageFailure. walk. Qed.
#[local] Hint Resolve silent_failure : logs.
Lemma silent_fail x s e : silent (fail clock ids others fault gone parts x s e).
Proof. unfold fail, refuse. walk. Qed.
Lemma silent_begin b id p e parsed : silent (beginUsage clock ids others fault b id p e parsed).
Proof. clear gone. unfold beginUsage. walk. Qed.
Lemma silent_price resolution sel state : silent (price_step clock parts services resolution sel state).
Proof. clear gone. unfold price_step. walk. Qed.
Lemma silent_reserve x p resolution sel price body parsed s :
  silent (reserve_step clock ids others fault settings x p resolution sel price body parsed s).
Proof. clear gone. unfold reserve_step. walk. Qed.
Lemma reporting_report sel e : reporting (reportResult clock parts sel e).
Proof. clear gone. unfold reportResult. walk. Qed.
Lemma reporting_observe sel rq h t : reporting (observeQuota parts sel rq h t).
Proof. clear gone clock. unfold observeQuota. walk. Qed.
#[local] Hint Resolve silent_fail silent_begin silent_price silent_reserve reporting_report reporting_observe : logs.

Lemma then_ret {A B} (m : svc A) (b : B) w : ((m ≫= fun _ => mret b) w).1 = (m w).1.
Proof. by rewrite st_bind_eq. Qed.

(** The upstream call comes first, and only reports follow. *)
Lemma execute_log r x e resolution sel body parsed state w :
  exists reports,
    w_log (execute clock ids others fault gone parts services r x e resolution sel body parsed state w).1
      = w_log w ++ Executed (inference_request r x e resolution sel body parsed) :: reports
    /\ forallb is_report reports = true.
Proof.
  unfold execute. cbv zeta. set (request := inference_request _ _ _ _ _ _ _). clearbody request.
  assert (forall B (f : unit -> svc B), (forall a, reporting (f a)) -> exists reports,
    w_log ((log (Executed request) ≫= f) w).1 = w_log w ++ Executed request :: reports
    /\ forallb is_report reports = true) as Hlog.
  { intros B f Hf. rewrite st_bind_eq. destruct (Hf (log (Executed request) w).2 (log (Executed request) w).1)
      as (l & E & R). exists l. split; [|done]. rewrite E. simpl. by rewrite <- app_assoc. }
  destruct (p_Stream parsed).
  - unfold executeStream, refuse, tell. apply Hlog. intros _. walk.
    apply silent_reporting. intros v. by destruct (writeStream _ _ _ _ _).
  - rewrite then_ret. unfold executeJSON, refuse. apply Hlog. intros _. walk.
Qed.

Hypothesis others_ok : forall n p, UInv p -> rtc (usage_step any) p (others n p).

(** ** What an upstream call finds in the tables *)
(** The request [id] has its record. *)
Definition recorded (id : string) (p : UDB) : Prop :=
  exists k row, request_records p !! k = Some row /\ rr_RequestID row = id.
(** The estimate of a request: a token for every four bytes begun, and the output it asks for, or the
    configured output when it asks for none and the price is not free. *)
Definition estimate_of (body : string) (parsed : parsedRequest) (price : Pricing.Snapshot) : TokenUsage :=
  {| InputTokens := estimateTokens body;
     OutputTokens := if (p_MaxOutputTokens parsed =? 0) && negb (Pricing.s_Free price)
                     then reserveOutputTokens settings else p_MaxOutputTokens parsed;
     CacheReadTokens := 0; CacheWriteTokens := 0; ReasoningTokens := 0 |}.
(** The price service was asked, at event [S k], for the price of the selected target's model at
    the instant read just before. *)
Definition priced (resolution : Resolution) (sel : Scheduler.Selection) (price : Pricing.Snapshot) : Prop :=
  exists k, sv_price services (S k) (rs_ModelID resolution)
              (uuidPtrOrNil (target_id Sched.t_ProviderModelID sel)) (clock k 0%nat) = Ok price.
(** The quote of the request's estimate at the price of the selection is zero or held for [id]. *)
Definition prepaid (id body : string) (parsed : parsedRequest) (resolution : Resolution)
    (sel : Scheduler.Selection) (p : UDB) : Prop :=
  exists price quote, priced resolution sel price
    /\ Money.Quote_ price (estimate_of body parsed price) = Ok quote
    /\ (Billing.q_AmountMinor quote = 0
        \/ exists row, reservations (books p) !! Billing.r_ID row = Some row
             /\ Billing.r_RequestID row = id /\ Billing.r_AmountMinor row = Billing.q_AmountMinor quote).
Definition covered (id body : string) (parsed : parsedRequest) (resolution : Resolution)
    (sel : Scheduler.Selection) (p : UDB) : Prop :=
  recorded id p /\ prepaid id body parsed resolution sel p.

Lemma recorded_carries id p p' : carries p p' -> recorded id p -> recorded id p'.
Proof.
  intros HC (k & row & Hk & Hid). destruct (ue_records _ _ (ca_usage _ _ HC) k row Hk) as (row' & Hk' & _ & E & _).
  exists k, row'. split; [done|congruence].
Qed.
Lemma prepaid_carries id body parsed resolution sel p p' :
  carries p p' -> prepaid id body parsed resolution sel p -> prepaid id body parsed resolution sel p'.
Proof.
  intros HC (price & q & E1 & E2 & Hq). exists price, q.
  split_and!; [done..|]. destruct Hq as [Hq|(row & Hrow & F1 & F2)]; [by left|right].
  destruct (hold_carries _ _ _ _ HC Hrow) as (row' & Hr & G1 & G2 & G3 & _). exists row'.
  rewrite G1. split_and!; [done|congruence..].
Qed.

(** What [m] logs, from tables where [Pre] holds. *)
Definition logs {A} (Pre : UDB -> Prop) (m : svc A) (Q : list effect -> A -> UDB -> Prop) : Prop :=
  forall w w' a, m w = (w', a) -> UInv (w_db w) -> Pre (w_db w) ->
    exists l, w_log w' = w_log w ++ l /\ Q l a (w_db w').

Lemma logs_bind {A B} Pre (R : A -> UDB -> Prop) (m : svc A) (f : A -> svc B) Q :
  silent m -> moves m ->
  (forall w w' a, m w = (w', a) -> UInv (w_db w) -> Pre (w_db w) -> R a (w_db w')) ->
  (forall a, logs (R a) (f a) Q) -> logs Pre (m ≫= f) Q.
Proof.
  intros Hs Hm HR Hf w w' b (w1 & a & Ha & Hb)%st_bind_run HI Hpre.
  destruct (Hf a w1 w' b Hb) as (l & E & HQ); [apply (Hm _ _ _ Ha HI)|by eapply HR|].
  exists l. split; [|done]. rewrite E. specialize (Hs w). rewrite Ha in Hs. simpl in Hs. by rewrite Hs.
Qed.
Lemma logs_any {A B} Pre (m : svc A) (f : A -> svc B) Q :
  stable Pre -> silent m -> moves m -> (forall a, logs Pre (f a) Q) -> logs Pre (m ≫= f) Q.
Proof.
  intros HS Hs Hm Hf. apply (logs_bind Pre (fun _ => Pre)); [done..| |done].
  intros w w' a E HI Hp. eapply HS; [by eapply Hm|done].
Qed.
Lemma logs_when {A} Pre (P : Prop) (m : svc A) Q :
  (forall p, Pre p -> P) -> (P -> logs Pre m Q) -> logs Pre m Q.
Proof. intros HP Hm w w' a Hrun HI Hpre. by eapply (Hm (HP _ Hpre)). Qed.
Lemma logs_silent {A} Pre (m : svc A) (Q : list effect -> A -> UDB -> Prop) :
  silent m -> (forall a p, Q [] a p) -> logs Pre m Q.
Proof.
  intros Hs HQ w w' a Hrun _ _. exists []. rewrite app_nil_r. specialize (Hs w). rewrite Hrun in Hs. by split.
Qed.
Lemma logs_weaken {A} Pre (m : svc A) (Q Q' : list effect -> A -> UDB -> Prop) :
  (forall l a p, Q l a p -> Q' l a p) -> logs Pre m Q -> logs Pre m Q'.
Proof. intros HQ Hm w w' a Hrun HI Hp. destruct (Hm _ _ _ Hrun HI Hp) as (l & E & Hl). exists l. auto. Qed.

(** Nothing was called, or the upstream was, once, at the target of [sel] and with the body of the
    request, which is covered. *)
Definition called (r : HttpRequest) (resolution : Resolution) (sel : Scheduler.Selection)
    (l : list effect) (p : UDB) : Prop :=
  let x := exchange_of r in
  l = [] \/ exists e reports body parsed,
    l = Executed (inference_request r x e resolution sel body parsed) :: reports
    /\ forallb is_report reports = true
    /\ readRequest (maxBodyBytes settings) (hr_Body r) = Ok (body, parsed)
    /\ covered (x_id x) body parsed resolution sel p.

Lemma refusal_logs Pre r resolution sel x state err :
  logs Pre (fail clock ids others fault gone parts x state err;; mret true) (fun l _ p => called r resolution sel l p).
Proof.
  apply logs_silent; [|intros a p; by left]. apply silent_bind; [apply silent_fail|intros _; apply silent_ret].
Qed.

Lemma execute_logs r e resolution sel body parsed state :
  let x := exchange_of r in
  states_ok state -> readRequest (maxBodyBytes settings) (hr_Body r) = Ok (body, parsed) ->
  logs (covered (x_id x) body parsed resolution sel)
    (execute clock ids others fault gone parts services r x e resolution sel body parsed state)
    (fun l _ p => called r resolution sel l p).
Proof.
  intros x Hs Hb w w' a Hrun HI [Hrec Hpre].
  pose proof (moves_execute clock ids others fault gone parts services others_ok
    r x e resolution sel body parsed state Hs _ _ _ Hrun HI) as HC.
  destruct (execute_log r x e resolution sel body parsed state w) as (reports & E & R).
  rewrite Hrun in E. simpl in E. eexists. split; [exact E|]. right.
  exists e, reports, body, parsed.
  split_and!; try done. split; [by eapply recorded_carries|by eapply prepaid_carries].
Qed.

(** The hold that was taken is for the estimate at the price of the selection. *)
Lemma reserve_prepaid x principal resolution sel price body parsed s w w' s' :
  UInv (w_db w) -> fresh (x_id x) s ->
  priced resolution sel price ->
  reserve_step clock ids others fault settings x principal resolution sel price body parsed s w
    = (w', Ok s') -> prepaid (x_id x) body parsed resolution sel (w_db w').
Proof.
  intros HI Hf Hprice Hrun.
  destruct (reserve_owned clock ids others fault settings others_ok
    _ _ _ _ _ _ _ _ _ _ _ HI Hf Hrun) as (_ & r & _ & q & Hq & _ & Ham & Hheld).
  exists price, q. split; [done|]. split.
  { revert Hq. unfold normal_estimate, estimate_of. simpl. by destruct (_ && _). }
  destruct Hheld as [[Hz _]|[Hrow Hid]]; [by left|]. right. exists r. by split_and!.
Qed.

Lemma price_answer resolution sel state w w' price state' :
  has_prices parts = true ->
  price_step clock parts services resolution sel state w = (w', Ok (price, state')) ->
  priced resolution sel price.
Proof.
  intros Hp. unfold price_step. rewrite Hp. cbn [negb]. intros (w1 & t & Ht & Hrun)%st_bind_run.
  unfold ProxyUsage.now in Ht. apply st_bind_run in Ht as (w0 & k & Hk & Ht). injection Hk as <- <-. injection Ht as <- <-.
  apply st_bind_run in Hrun as (w2 & a & Ha & Hrun). unfold ask in Ha.
  apply st_bind_run in Ha as (w3 & n & Hn & Ha). injection Hn as <- <-. injection Ha as _ Ha.
  destruct a as [snapshot|]; [|done].
  injection Hrun as _ -> _. by eexists.
Qed.

Lemma lease_logs r e principal resolution sel body parsed s :
  let x := exchange_of r in fresh (x_id x) s -> has_billing parts = true -> has_prices parts = true ->
  readRequest (maxBodyBytes settings) (hr_Body r) = Ok (body, parsed) ->
  logs (recorded (x_id x))
    (with_lease clock ids others fault gone parts settings services r x e principal resolution sel
       body parsed (Some s))
    (fun l _ p => called r resolution sel l p).
Proof.
  intros x Hs Hb Hp Hread. unfold with_lease. rewrite Hb. cbn [negb].
  apply (logs_bind _ (fun a p => recorded (x_id x) p /\ forall price state, a = Ok (price, state) ->
    (exists s', state = Some s' /\ fresh (x_id x) s')
    /\ priced resolution sel price));
    [apply silent_price|apply moves_price|..].
  { intros w w' a Hrun HI Hrec. split.
    { eapply recorded_carries; [exact (moves_price _ _ _ _ _ _ _ _ _ Hrun HI)|done]. }
    intros price state ->. split; [exact (priced_fresh _ _ _ _ _ _ _ _ _ _ _ Hs Hrun)|].
    exact (price_answer _ _ _ _ _ _ _ Hp Hrun). }
  intros [[price state]|err]; [|apply refusal_logs].
  apply (logs_when _ ((exists s', state = Some s' /\ fresh (x_id x) s')
    /\ priced resolution sel price)); [naive_solver|].
  intros [(s' & -> & Hf) Hprice].
  apply (logs_bind _ (fun a p => forall s2, a = Ok s2 -> state_ok s2 /\ covered (x_id x) body parsed resolution sel p));
    [apply silent_reserve|by apply moves_reserve|..].
  { intros w w' a Hrun HI [Hrec _] s2 ->. split.
    - destruct (reserve_owned clock ids others fault settings others_ok
        _ _ _ _ _ _ _ _ _ _ _ HI Hf Hrun) as [Ho _]. exact (ow_amount _ _ _ Ho).
    - split; [|exact (reserve_prepaid _ _ _ _ _ _ _ _ _ _ _ HI Hf Hprice Hrun)].
      eapply recorded_carries; [|exact Hrec].
      exact (moves_reserve _ _ _ _ _ others_ok _ _ _ _ _ _ _ _ _ _ _ Hrun HI). }
  intros [s2|err]; [|apply refusal_logs].
  apply (logs_when _ (state_ok s2)); [intros p Ho; apply (Ho s2 eq_refl)|intros Hok].
  intros w w' a Hrun HI Hcov. refine (execute_logs _ _ _ _ _ _ _ _ Hread _ _ _ Hrun HI _).
  - intros s3 [= <-]. exact Hok.
  - exact (proj2 (Hcov s2 eq_refl)).
Qed.

(** What a whole request called: the upstream at most once, under the selection that the
    scheduler made from the request's route, then the release of the lease of that
    selection, when it finished. *)
Definition concluded (r : HttpRequest) (l : list effect) (finished : bool) (p : UDB) : Prop :=
  l = [] \/ exists m publicID resolution n rq sel called_before,
    sv_route services m publicID = Ok resolution
    /\ sv_select services n rq = Ok sel /\ Sched.rq_RequestID rq = x_id (exchange_of r)
    /\ Sched.rq_Resolution rq = rs_Route resolution
    /\ called r resolution sel called_before p
    /\ l = called_before ++ (if finished then [ReleasedLease sel] else []).

Lemma refusal_concluded Pre r x state err :
  logs Pre (fail clock ids others fault gone parts x state err;; mret true) (concluded r).
Proof.
  apply logs_silent; [|intros a p; by left]. apply silent_bind; [apply silent_fail|intros _; apply silent_ret].
Qed.
Lemma answer_concluded Pre r f : logs Pre (respond f;; mret true) (concluded r).
Proof. apply logs_silent; [walk|intros a p; by left]. Qed.

Lemma routed_logs r e principal publicID body parsed s :
  let x := exchange_of r in fresh (x_id x) s -> has_billing parts = true -> has_prices parts = true ->
  readRequest (maxBodyBytes settings) (hr_Body r) = Ok (body, parsed) ->
  logs (recorded (x_id x))
    (route_and_run clock ids others fault gone parts settings services r x e principal publicID
       body parsed (Some s)) (concluded r).
Proof.
  intros x Hs Hb Hp Hread. unfold route_and_run. destruct (negb _); [apply refusal_concluded|].
  assert (stable (recorded (x_id x))) as HS by (intros p p'; apply recorded_carries).
  apply (logs_bind _ (fun a p => recorded (x_id x) p /\ exists m, sv_route services m publicID = a));
    [apply silent_ask|apply moves_ask|..].
  { intros w w' a Hrun HI Hrec. unfold ask in Hrun. apply st_bind_run in Hrun as (w1 & m & [= <- _] & Hrun).
    injection Hrun as <- <-. split; [exact Hrec|by eexists]. }
  intros [resolution|err]; [|apply refusal_concluded].
  apply (logs_when _ (exists m, sv_route services m publicID = Ok resolution)); [naive_solver|intros [m Hroute]].
  apply (logs_bind _ (fun _ => recorded (x_id x))); [apply silent_now|apply moves_now|..].
  { intros w w' a Hrun HI [Hrec _]. exact (HS _ _ (moves_now _ _ _ _ Hrun HI) Hrec). }
  intros t.
  set (rq := schedule_request _ _ _ _ _ _ _ _ _ _).
  assert (Sched.rq_RequestID rq = x_id x /\ Sched.rq_Resolution rq = rs_Route resolution) as [Hrq Hres] by done. clearbody rq.
  apply (logs_bind _ (fun a p => recorded (x_id x) p /\ exists n, sv_select services n rq = a));
    [apply silent_ask|apply moves_ask|..].
  { intros w w' a Hrun HI Hrec. unfold ask in Hrun. apply st_bind_run in Hrun as (w1 & n & [= <- _] & Hrun).
    injection Hrun as <- <-. split; [exact Hrec|by eexists]. }
  intros [sel|err]; [|apply refusal_concluded].
  apply (logs_when _ (exists n, sv_select services n rq = Ok sel)); [naive_solver|intros [n Hsel]].
  cbn [fmap option_fmap option_map]. unfold release_after.
  intros w w' finished (w1 & a & Ha & Hrun)%st_bind_run HI [Hrec _].
  assert (fresh (x_id x) (setSelection sel (setResolution resolution s))) as Hf by exact Hs.
  destruct (lease_logs _ _ _ _ _ _ _ _ Hf Hb Hp Hread _ _ _ Ha HI Hrec) as (l & E & Hl).
  destruct a.
  - apply st_bind_run in Hrun as (w2 & u & [= <- _] & Hrun). injection Hrun as <- <-. simpl.
    exists (l ++ [ReleasedLease sel]). rewrite E, <- app_assoc. split; [done|]. right.
    exists m, publicID, resolution, n, rq, sel, l. done.
  - injection Hrun as <- <-. exists l. split; [done|]. right. exists m, publicID, resolution, n, rq, sel, l. by rewrite app_nil_r.
Qed.

Lemma beginUsage_recorded id principal e parsed w w' state :
  UInv (w_db w) ->
  beginUsage clock ids others fault true id principal e parsed w = (w', Ok state) ->
  recorded id (w_db w').
Proof.
  intros HI. unfold beginUsage. cbn [negb]. intros (w1 & t & E1 & Hrun)%st_bind_run.
  cbv zeta in Hrun. apply st_bind_run in Hrun as (w2 & r & E2 & Hrun).
  destruct r as [h|]; [|done]. destruct (negb _); [done|]. injection Hrun as <- _.
  apply transact_ok in E2 as (p & Hp & E2); [|done|by injection E1 as <- _].
  unfold Service_BeginRequest in E2. destruct (normalizeStartInput _ _) as [n|] eqn:Hn; [|done].
  apply run_usage_ok in E2 as [rest Hm]. apply BeginRequest_ok in Hm as [Hm (Hq & _)]. simpl in Hm.
  assert (si_RequestID n = id) as Hid.
  { unfold normalizeStartInput in Hn. repeat match type of Hn with (if ?b then _ else _) = _ => destruct b; [done|] end.
    by injection Hn as <-. }
  inversion Hm as [k row Hk Hh Hdb|i Hnew Hfree row Hh Hdb]; subst h.
  - exists k, row. split; [congruence|]. by rewrite <- Hid, <- Hq.
  - exists i, row. split; [cbn; by rewrite lookup_insert_eq|done].
Qed.

Lemma complete_logs r e :
  let x := exchange_of r in
  has_usage parts = true -> has_billing parts = true -> has_prices parts = true ->
  logs (fun _ => True) (complete clock ids others fault gone parts settings services r x e) (concluded r).
Proof.
  intros x Hu Hb Hp. unfold complete. rewrite Hu. destruct (sv_principal services) as [principal|]; [|apply answer_concluded].
  destruct (readRequest _ _) as [[body parsed]|err] eqn:Hread; [|apply answer_concluded].
  apply logs_any; [done|apply silent_ask|apply moves_ask|intros [publicID|err]]; [|apply answer_concluded].
  apply logs_any; [done|apply silent_ask|apply moves_ask|intros [err|]]; [apply answer_concluded|].
  apply (logs_bind _ (fun a p => forall state, a = Ok state ->
    (exists s, state = Some s /\ fresh (x_id x) s) /\ recorded (x_id x) p)); [apply silent_begin|by apply moves_begin|..].
  - intros w w' a Hrun HI _ state ->. split.
    + exact (beginUsage_fresh clock ids others fault others_ok _ _ _ _ _ _ _ HI Hrun).
    + exact (beginUsage_recorded _ _ _ _ _ _ _ HI Hrun).
  - intros [state|err]; [|apply answer_concluded].
    apply (logs_when _ (exists s, state = Some s /\ fresh (x_id x) s)); [naive_solver|].
    intros (s & -> & Hf) w w' u Hrun HI Hrec.
    exact (routed_logs _ _ _ _ _ _ _ Hf Hb Hp Hread w w' u Hrun HI (proj2 (Hrec _ eq_refl))).
Qed.

Lemma silent_pages fuel allowed cursor seen : silent (list_pages services fuel allowed cursor seen).
Proof.
  revert cursor seen. induction fuel as [|fuel IH]; intros cursor seen; [done|]. cbn [list_pages].
  apply silent_bind; [apply silent_ask|intros [page|err]]; [|done]. cbv zeta.
  destruct (String.eqb _ _); [done|]. destruct (_ || _); [done|].
  apply silent_bind; [apply IH|intros a; apply silent_ret].
Qed.

End handler.
End ProxyCalls.

(** * Costs without a hold

    A priced request that holds nothing cannot be recorded once it costs something: its
    finalisation is refused, the tables stay as they were and the answer is that usage
    is unavailable, whatever the error of the request was. *)

From stdpp Require Import base gmap strings list relations.
From Stdlib Require Import ZArith Lia Ascii String.
From S2P Require Import Prelude GoLib Usage Pricing BillingModel Money Store StoreFacts.
From S2P Require Import UsageModel UsageRepo UsageExtract ProxyErrors ProxyText ProxyStream ProxyUsage.
From S2P Require Import Proxy ProxyErrors ProxyFacts.

Module ProxyFindings.
Import Usage UsageModel UsageRepo UsageExtract ProxyErrors ProxyText ProxyStream ProxyUsage Proxy ProxyFacts.
Import Store(SqlGuards, WallClock).

Section findings.
Context `{UuidText, TimeText, SqlGuards, UsageGuards, OutboxBirth, WallClock, MapOrder}.
Context (clock : nat -> nat -> time) (ids : nat -> list uuid) (others : nat -> UDB -> UDB)
        (fault : nat -> option failure) (gone : nat -> bool) (parts : Parts).

(** A priced state without a hold whose usage costs something. *)
Definition unheld_cost (s : usageState) (u : TokenUsage) : Prop :=
  held s = None /\ us_done s = false /\ is_Some (us_priceVersionID s)
  /\ exists quote, Money.Quote_ (us_price s) u = Ok quote /\ 0 < Billing.q_AmountMinor quote.

Lemma unheld_charge s c :
  unheld_cost s (uc_observed c) ->
  exists a currency, 0 < a /\ charge true s c = Ok (Some a, false, currency, None).
Proof.
  intros (Hh & _ & [v Hv] & q & Hq & Hpos). exists (Billing.q_AmountMinor q), (us_currency s).
  split; [done|]. unfold charge. rewrite Hv, Hh, Hq. by destruct (negb _).
Qed.

(** Only what others commit changes the tables. *)
Definition only_others (w w' : World) : Prop := exists n, w_db w' = others n (w_db w).

Lemma finalize_refused s c w w' r :
  unheld_cost s (uc_observed c) ->
  finalize clock ids others fault gone true s c w = (w', r) ->
  r = Some (only ErrUsageUnavailable) /\ only_others w w' /\ w_resp w' = w_resp w.
Proof.
  intros Hu. pose proof Hu as (_ & Hd & _). destruct (unheld_charge s c Hu) as (a & cur & Ha & Hc).
  unfold finalize. rewrite Hd. intros (w1 & t0 & E1 & Hrun)%st_bind_run. cbv zeta in Hrun.
  apply st_bind_run in Hrun as (w2 & g & E2 & Hrun). rewrite Hc in Hrun.
  apply st_bind_run in Hrun as (w3 & t1 & E3 & Hrun).
  injection E1 as <- _. injection E2 as <- _. injection E3 as <- _.
  match type of Hrun with context [finalize_input s c g ?l t1 _ _ _ _] => set (latency := l) in Hrun end.
  set (input := finalize_input s c g latency t1 (Some a) false cur None) in Hrun.
  assert (finalize_input_ok (us_handle s) input = false) as Hno.
  { unfold finalize_input_ok. change (fi_AmountMinor input) with (Some a).
    change (fi_WalletID input) with (None : option uuid). cbn [is_some].
    rewrite (proj2 (Z.ltb_lt 0 a) Ha). simpl. by rewrite !andb_false_r. }
  apply st_bind_run in Hrun as (w4 & res & E4 & Hrun). unfold transact in E4.
  unfold Service_Finalize, normalizeFinalizeInput in E4. rewrite Hno in E4. cbn [negb] in E4.
  injection E4 as <- Hres.
  assert (exists e, res = Err e) as [e ->] by (destruct (fault _) as [[]|]; subst res; by eexists).
  injection Hrun as <- <-. split; [done|]. split; [|done].
  exists (S (S (S (w_event w)))). cbn. by destruct (fault _) as [[]|].
Qed.

(** A priced request without a hold that costs something cannot be closed: finalising it
    reports that usage is unavailable and records nothing, and an error it was refused
    with is answered as status 503. *)
Theorem unheld_costs_cannot_be_recorded x s c err w w' r w2 :
  unheld_cost s (uc_observed c) -> unheld_cost s zero_usage -> has_billing parts = true ->
  finalize clock ids others fault gone true s c w = (w', r) ->
  fail clock ids others fault gone parts x (Some s) err w = (w2, tt) ->
  r = Some (only ErrUsageUnavailable) /\ only_others w w'
  /\ only_others w w2 /\ w_resp w2 = writeProxyError x (Some (only ErrUsageUnavailable)) (w_resp w)
  /\ me_status (mapPublicError (Some (only ErrUsageUnavailable))) = 503.
Proof.
  intros Hc Hz Hb Hfin Hfail.
  apply finalize_refused in Hfin as (-> & Ho & _); [|done]. split; [done|]. split; [done|].
  unfold fail, finalizeUsageFailure in Hfail. rewrite Hb in Hfail.
  apply st_bind_run in Hfail as (w3 & fe & E1 & E2).
  apply st_bind_run in E1 as (w4 & g & E0 & E1). unfold finalizeUsage in E1.
  injection E0 as <- _. apply finalize_refused in E1 as (-> & [n Hn] & Hr); [|done].
  injection E2 as <-. cbn. rewrite Hr. split; [by exists n|]. split; [done|]. by vm_compute.
Qed.
End findings.
End ProxyFindings.
