(* ===== verification/ProxyDemo.v ===== *)
(** * Requests against a concrete deployment, and the witnesses of the proxy's properties

    One user with a wallet of 10.00, one model at 1.50 a request, one credential.  The
    upstream answers a completion with its usage. *)

From stdpp Require Import base gmap strings list pretty relations.
From Stdlib Require Import ZArith Lia Ascii String.
From S2P Require Import Prelude GoLib Json Usage Pricing BillingModel Money Store.
From S2P Require Import BillingOps BillingService BillingInv BillingSteps BillingDemo.
From S2P Require Import UsageModel UsageRepo UsageFacts UsageSteps UsageHistory UsageTheorems.
From S2P Require Import SchedulerModel Scheduler SchedulerProofs UsageExtract UsageExtractTheorems.
From S2P Require Import ProxyErrors ProxyText ProxyStream ProxyUsage Proxy.
From S2P Require Import ProxyFacts ProxyTheorems ProxyCalls.

Module ProxyDemo.
Import Usage UsageModel UsageRepo UsageFacts UsageSteps UsageHistory UsageDemo BillingDemo UsageExtract.
Import UsageExtractTheorems.
Import ProxyErrors ProxyText ProxyStream ProxyUsage Proxy ProxyErrorFacts ProxyStreamFacts.
Import ProxyRuns ProxyTheorems ProxyCalls ProxyFindings.
Import Store(usage_events, settlements, reservations).

#[export] Instance demo_order : MapOrder := source_order.

(** The tables before the request: a credit of 10.00 and a price version. *)
Definition before : UDB := perform (ABilling demo2) (perform (ABilling demo1) empty_tables).

Lemma before_ok : UInv before.
Proof.
  apply usage_reachable_Inv. unfold before. apply steps_one; [|exact I|].
  - split; [exact (BillingSteps.step_prices _ _)|by vm_compute].
  - apply steps_one; [|exact I|constructor]. split; [|by vm_compute].
    apply BillingSteps.step_credit. by vm_compute.
Qed.

Definition demo_parts : Parts :=
  {| has_keys := true; has_models := true; has_routes := true; has_scheduler := true;
     has_engine := true; has_health := true; has_runtime := true; has_quota := true;
     has_usage := true; has_prices := true; has_billing := true; has_lister := true |}.
Definition demo_settings : Settings :=
  {| maxBodyBytes := defaultMaxBodyBytes; leaseTTL := ProxyText.defaultLeaseTTL;
     strategy := Sched.StrategyRoundRobin;
     quotaPolicy := {| Sched.qp_Enabled := false; Sched.qp_WindowKind := "";
       Sched.qp_RequiredTokens := 0; Sched.qp_MaxAge := 0; Sched.qp_RequireFresh := false |};
     reserveOutputTokens := 4096 |}.

Definition demo_target : Sched.Target := SchedulerProofs.some_target 5%N 0 1.
Definition demo_selection : Scheduler.Selection :=
  {| Scheduler.s_Target := Some demo_target; Scheduler.s_CredentialID := Some 11%N;
     Scheduler.s_Lease := None;
     Scheduler.s_Decision := {| Sched.d_StrategyVersion := ""; Sched.d_Candidates := [];
       Sched.d_SelectedTargetID := Some 5%N; Sched.d_SelectedCredentialID := Some 11%N;
       Sched.d_SelectedProviderID := Some 4%N; Sched.d_FallbackChain := [] |} |}.
Definition demo_resolution : Resolution :=
  {| rs_ModelID := 70%N;
     rs_Route := {| Sched.VersionID := 1%N; Sched.RouteID := 9%N; Sched.Candidates := [demo_target] |} |}.

Definition event (payload : string) (t : time) : next :=
  {| n_payload := payload; n_done := false; n_err := None; n_gone := false; n_gone_later := false;
     n_write_fails := false; n_at := t |}.
Definition chunk : string := text "{'choices':[{'delta':{'content':'hi'}}]}".
Definition chat_stream : Stream :=
  {| s_headers := []; s_events := [event chunk 10; event openai_chat 20; event "[DONE]" 30] |}.

Definition demo_services : Services :=
  {| sv_principal := Some {| pc_UserID := demo_user; pc_APIKeyID := demo_key;
       pc_DailyBudgetMinor := None; pc_MonthlyBudgetMinor := None |};
     sv_authorized := fun _ => Ok ["m"];
     sv_list := fun _ _ => Ok {| cp_Models := []; cp_NextCursor := "" |};
     sv_resolve := fun _ name => Ok name;
     sv_authorize := fun _ _ _ _ => None;
     sv_route := fun _ _ => Ok demo_resolution;
     sv_select := fun _ _ => Ok demo_selection;
     sv_price := fun _ _ _ _ => Ok demo_snapshot;
     sv_execute := fun _ _ => Ok {| er_StatusCode := 0; er_Headers := []; er_Body := openai_chat |};
     sv_stream := fun _ _ => Ok (Some chat_stream) |}.

Definition clock (event reading : nat) : time := 2000000 + 1000 * Z.of_nat event + Z.of_nat reading.
Definition event_ids (event : nat) : list uuid := ids_from (1000 + 100 * N.of_nat event).
Definition alone (event : nat) (p : UDB) : UDB := p.
Definition no_fault (event : nat) : option failure := None.
Definition present (event : nat) : bool := false.

Lemma alone_ok n p : UInv p -> rtc (usage_step any) p (alone n p).
Proof. intros _. constructor. Qed.

Definition post (body : string) : HttpRequest :=
  {| hr_Method := "POST"; hr_Path := chatCompletionsPath; hr_ContextID := "";
     hr_RequestIDHeader := "req-1"; hr_Headers := []; hr_Body := Body (text body);
     hr_Flusher := true; hr_FreshID := 99%N |}.
Definition completion : HttpRequest := post "{'model':'m','max_tokens':16,'messages':[]}".
Definition streamed : HttpRequest := post "{'model':'m','stream':true,'messages':[]}".

Definition untouched : response := {| w_headers := []; w_sent := None; w_body := "" |}.
Definition start (p : UDB) : World := mkWorld p 0 untouched [].

Definition serve (services : Services) (r : HttpRequest) (w : World) : World * bool :=
  ServeHTTP clock event_ids alone no_fault present demo_parts demo_settings services (fun _ => "") r w.

Definition answered : World * bool := serve demo_services completion (start before).
Definition was_streamed : World * bool := serve demo_services streamed (start before).

Definition rows {A} (m : gmap uuid A) : list A := (map_to_list m).*2.

(** What the request left. *)
Example completion_run :
  w_body (w_resp answered.1) = openai_chat /\ (fst <$> w_sent (w_resp answered.1)) = Some 200
  /\ List.map (fun e => (ev_TerminalStatus e, ev_AmountMinor e)) (rows (usage_events (books (w_db answered.1))))
     = [("succeeded", Some 150)]
  /\ List.map Billing.st_Status (rows (settlements (books (w_db answered.1)))) = ["settled"]
  /\ Datatypes.length (w_log answered.1) = 5%nat /\ answered.2 = true.
Proof. vm_compute. by split_and!. Qed.

Example stream_run :
  w_body (w_resp was_streamed.1)
  = frameSSEPayload chunk +:+ frameSSEPayload openai_chat +:+ frameSSEPayload "[DONE]"
  /\ List.map (fun e => (ev_TerminalStatus e, ev_AmountMinor e)) (rows (usage_events (books (w_db was_streamed.1))))
     = [("succeeded", Some 150)].
Proof. vm_compute. by split_and!. Qed.

(** ** One identifier, two streams *)
(** The tables when the first stream was delivered and is about to be finalised: those a
    failure of that transaction leaves. *)
Definition at_finalize : nat := 16.
Definition finalize_fails (event : nat) : option failure :=
  if Nat.eqb event at_finalize then Some (RolledBack (only DeadlineExceeded)) else None.
Definition delivered_unrecorded : UDB :=
  w_db (ServeHTTP clock event_ids alone finalize_fails present demo_parts demo_settings demo_services
          (fun _ => "") streamed (start before)).1.
(** The second request with the identifier, served then. *)
Definition second_stream : World * bool :=
  serve demo_services streamed (mkWorld delivered_unrecorded 40 untouched []).
Definition meanwhile (event : nat) (p : UDB) : UDB :=
  if Nat.eqb event at_finalize then w_db second_stream.1 else p.
Definition first_stream : World * bool :=
  ServeHTTP clock event_ids meanwhile no_fault present demo_parts demo_settings demo_services
    (fun _ => "") streamed (start before).

Definition executions (w : World) : nat :=
  Datatypes.length (List.filter (fun e => match e with Executed _ => true | _ => false end) (w_log w)).
Definition content : string :=
  frameSSEPayload chunk +:+ frameSSEPayload openai_chat +:+ frameSSEPayload "[DONE]".

(** Two requests that carry the same identifier are both served from the upstream to the
    end of the stream, and one of them is recorded and paid for: the second takes the
    open record and the hold of the first. *)
Theorem one_identifier_serves_two_streams :
  w_body (w_resp second_stream.1) = content /\ HasPrefix (w_body (w_resp first_stream.1)) content = true
  /\ executions first_stream.1 = 1%nat /\ executions second_stream.1 = 1%nat
  /\ List.map ev_RequestID (rows (usage_events (books (w_db first_stream.1)))) = ["req-1"]
  /\ List.map Billing.st_ActualAmount (rows (settlements (books (w_db first_stream.1)))) = [Some 150]
  /\ List.map Billing.w_Available (rows (Store.wallets (books (w_db first_stream.1)))) = [850].
Proof. vm_compute. by split_and!. Qed.

(** ** Witnesses *)
Lemma success_is_recorded_and_settled_witness : accounted "req-1" (w_db answered.1).
Proof.
  refine (success_is_recorded_and_settled clock event_ids alone no_fault present demo_parts demo_settings
    demo_services alone_ok (fun _ => "") completion (start before) answered.1 answered.2
    before_ok eq_refl eq_refl eq_refl _ _ _ _).
  - vm_compute. discriminate.
  - intros body parsed E. vm_compute in E. injection E as _ <-. reflexivity.
  - exact (surjective_pairing answered).
  - do 2 eexists. split; [vm_compute; reflexivity|lia].
Defined.


(** A state at 1.50 a request that holds nothing. *)
Definition unheld_state : usageState := setPrice demo_snapshot (new_state demo_handle 2000000).
Definition refused_world : World := start (w_db answered.1).
Definition demo_failure : usageCompletion := failed_with (only (OfBilling Billing.ErrInsufficientFunds)) false.

Lemma unheld_costs_cannot_be_recorded_witness :
  me_status (mapPublicError (Some (only (OfBilling Billing.ErrInsufficientFunds)))) = 402
  /\ (fst <$> w_sent (w_resp (fail clock event_ids alone no_fault present demo_parts (exchange_of completion)
        (Some unheld_state) (only (OfBilling Billing.ErrInsufficientFunds)) refused_world).1)) = Some 503.
Proof.
  assert (unheld_cost unheld_state zero_usage) as Hu.
  { split; [reflexivity|]. split; [reflexivity|]. split; [by eexists|].
    eexists. split; [vm_compute; reflexivity|by vm_compute]. }
  set (refused := fail clock event_ids alone no_fault present demo_parts (exchange_of completion)
        (Some unheld_state) (only (OfBilling Billing.ErrInsufficientFunds)) refused_world).
  destruct (unheld_costs_cannot_be_recorded clock event_ids alone no_fault present demo_parts
    (exchange_of completion) unheld_state demo_failure (only (OfBilling Billing.ErrInsufficientFunds))
    refused_world
    (finalize clock event_ids alone no_fault present true unheld_state demo_failure refused_world).1
    (finalize clock event_ids alone no_fault present true unheld_state demo_failure refused_world).2
    refused.1) as (_ & _ & _ & Hr & _); [exact Hu|exact Hu|reflexivity|apply surjective_pairing|..].
  - unfold refused. rewrite (surjective_pairing (fail _ _ _ _ _ _ _ _ _ _)) at 1.
    match goal with |- (?a, ?b) = (?a, tt) => destruct b end. reflexivity.
  - split; [vm_compute; reflexivity|]. fold refused. rewrite Hr. vm_compute. reflexivity.
Defined.

Lemma error_answers_are_fixed_witness : mapPublicError (Some (only ErrInvalidRequest)) ∈ answers.
Proof. exact (proj1 (error_answers_are_fixed (Some (only ErrInvalidRequest)) "req-1" eq_refl)). Defined.


Definition silent_end : Stream :=
  {| s_headers := []; s_events := [event chunk 10;
       {| n_payload := ""; n_done := true; n_err := Some (only EOF); n_gone := false;
          n_gone_later := false; n_write_fails := false; n_at := 20 |}] |}.
Lemma streams_end_witness :
  exists o w, writeStream 5 (exchange_of streamed) endpointChat (Some silent_end) untouched = (Some o, w).
Proof.
  eapply (streams_end 5 (exchange_of streamed) endpointChat silent_end untouched).
  - right. left.
  - left. reflexivity.
Defined.
End ProxyDemo.
