(* ===== verification/PricingRepo.v ===== *)
(** * Package [internal/pricing]: the repository and the service

    [repository.go] and the calls of [service.go] over the rows of [price_versions] and
    [model_prices], with the CHECK, UNIQUE and trigger rules of migrations 000001, 000003
    and 000006 that its statements meet. *)

From stdpp Require Import base gmap strings list sorting pretty.
From Stdlib Require Import ZArith Lia Ascii String.
From S2P Require Import Prelude GoLib Pricing BillingModel Money.

Module PricingRepo.
Import Pricing.
Import Billing(one_of).

(** ** Rows *)
(** [unit_price numeric(30, 12)]: the number of 10^-12. *)
Record PriceRow := {
  mp_ID : uuid; mp_VersionID : uuid; mp_PricingScope : string; mp_ModelID : option uuid;
  mp_ProviderModelID : option uuid; mp_Dimension : string; mp_UnitPrice : Z
}.
(** The audit rows the package writes. *)
Record PriceAudit := { pa_ActorUserID : uuid; pa_Action : string; pa_TargetID : uuid; pa_RequestID : string }.

(** A row of [price_versions] is a [Version] without its entries. *)
Record PriceDB := mkPriceDB {
  versions : gmap uuid Version;
  prices : gmap uuid PriceRow;
  audits : list PriceAudit
}.
Definition set_versions (f : gmap uuid Version -> gmap uuid Version) (p : PriceDB) : PriceDB :=
  mkPriceDB (f (versions p)) (prices p) (audits p).
Definition set_price_rows (f : gmap uuid PriceRow -> gmap uuid PriceRow) (p : PriceDB) : PriceDB :=
  mkPriceDB (versions p) (f (prices p)) (audits p).

(** Foreign keys, the audit table and the catalogue: [Some code] is the SQLSTATE the server
    raises; [billing_class] of an enabled model that is not deleted; [NOW()]. *)
Class PriceGuards := {
  guard_version : Version -> option string;
  guard_price : PriceRow -> option string;
  guard_price_audit : PriceAudit -> option string;
  billing_class : uuid -> option string;
  priced_at : time
}.

Definition is_published (status : string) : bool := one_of status [StatusActive; StatusRetired].

(** ** Amounts in a numeric column *)
(** [$7::numeric] into the column: the texts [validateCreate] stores are exact. *)
Definition numeric_of (text : string) : option Z :=
  match Money.parseScaledPrice text with Ok v => Some v | Err _ => None end.
(** [n] decimal digits of [v]. *)
Fixpoint fixed_digits (n : nat) (v : Z) (rest : string) : string :=
  match n with
  | O => rest
  | S n => fixed_digits n (v / 10) (String (ascii_of_N (Z.to_N (48 + v mod 10))) rest)
  end.
Definition integer_text (v : Z) : string :=
  let s := TrimLeftByte "0" (fixed_digits 18 v "") in if String.eqb s "" then "0" else s.
(** [unit_price::text], with its twelve decimals. *)
Definition numeric_text (v : Z) : string :=
  integer_text (v / 10 ^ 12) +:+ String "." (fixed_digits 12 v "").

(** ** Statements *)
Definition PSt : Type := list uuid * PriceDB.
Abbreviation ptx := (tx PSt error).

Definition sql_text (e : sqlerr) : string := match e with NoRows => "no rows" | SqlState c => c end.
Definition mapRepositoryError (e : sqlerr) : error :=
  match e with
  | NoRows => ErrNotFound
  | SqlState c =>
      if one_of c ["23505"; "55000"] then ErrConflict
      else if one_of c ["23503"; "23514"; "22P02"] then ErrInvalidInput
      else EWrapped (sql_text e)
  end.

Definition price_read {A} (f : PriceDB -> A) : ptx A := fun s => Ok (s, f s.2).
Definition price_write (f : PriceDB -> PriceDB) : ptx unit := fun s => Ok ((s.1, f s.2), tt).
Definition price_sql (e : sqlerr) : ptx unit := tx_fail (mapRepositoryError e).
(** [id.New]. *)
Definition price_id : ptx uuid := fun s =>
  match s.1 with
  | i :: rest => Ok ((rest, s.2), i)
  | [] => Err (EWrapped "generate UUIDv7")
  end.
Definition price_guard (g : option string) : ptx unit :=
  match g with Some c => price_sql (SqlState c) | None => mret tt end.
Definition price_raise (ok : bool) (code : string) : ptx unit := if ok then mret tt else price_sql (SqlState code).

(** [Store.WithTx]. *)
Definition run_pricing {A} (ids : list uuid) (m : ptx A) (p : PriceDB) : PriceDB * result error A :=
  match m (ids, p) with
  | Ok ((_, p'), a) => (p', Ok a)
  | Err e => (p, Err e)
  end.

(** [tstzrange(from, to, '[)') && tstzrange(from', to', '[)')] of ranges that are not empty. *)
Definition starts_before (from : time) (to : option time) : bool :=
  match to with Some t => from <? t | None => true end.
Definition ranges_overlap (a b : Version) : bool :=
  starts_before (v_EffectiveFrom a) (v_EffectiveTo b) && starts_before (v_EffectiveFrom b) (v_EffectiveTo a).

(** [bablo_validate_price_version_interval]. *)
Definition interval_ok (v : Version) (p : PriceDB) : bool :=
  negb (is_published (v_Status v))
  || negb (map_any (fun o => String.eqb (v_Scope o) (v_Scope v) && is_published (v_Status o)
                             && negb (uuid_eqb (v_ID o) (v_ID v)) && ranges_overlap o v) (versions p)).

Definition same_end (a b : option time) : bool :=
  match a, b with Some x, Some y => x =? y | None, None => true | _, _ => false end.

(** [bablo_guard_published_price_version]. *)
Definition identity_kept (old new : Version) : bool :=
  negb (is_published (v_Status old))
  || (String.eqb (v_Scope new) (v_Scope old) && (v_VersionNo new =? v_VersionNo old)
      && String.eqb (v_Currency new) (v_Currency old) && (v_EffectiveFrom new =? v_EffectiveFrom old)
      && uuid_eqb (v_CreatedBy new) (v_CreatedBy old) && negb (String.eqb (v_Status new) StatusDraft)
      && negb (String.eqb (v_Status old) StatusRetired && negb (String.eqb (v_Status new) StatusRetired))
      && match v_EffectiveTo old with None => true | Some t => same_end (v_EffectiveTo new) (Some t) end).

(** The CHECK constraints of [price_versions]. *)
Definition version_check (v : Version) : bool :=
  validScope (v_Scope v) && (0 <? v_VersionNo v) && currency_matches (v_Currency v)
  && starts_before (v_EffectiveFrom v) (v_EffectiveTo v)
  && one_of (v_Status v) [StatusDraft; StatusActive; StatusRetired].

(** The CHECK constraints of [model_prices]. *)
Definition price_check (r : PriceRow) : bool :=
  validDimension (mp_Dimension r) && (0 <=? mp_UnitPrice r)
  && match mp_ModelID r, mp_ProviderModelID r with
     | None, None => String.eqb (mp_PricingScope r) ScopeGlobal
     | Some _, None => String.eqb (mp_PricingScope r) ScopeModel
     | None, Some _ => String.eqb (mp_PricingScope r) ScopeProviderModel
     | Some _, Some _ => false
     end.

(** The three partial unique indexes of [model_prices]. *)
Definition same_price_key (a b : PriceRow) : bool :=
  uuid_eqb (mp_VersionID a) (mp_VersionID b) && String.eqb (mp_PricingScope a) (mp_PricingScope b)
  && opt_uuid_eqb (mp_ModelID a) (mp_ModelID b)
  && opt_uuid_eqb (mp_ProviderModelID a) (mp_ProviderModelID b)
  && String.eqb (mp_Dimension a) (mp_Dimension b).

Section repository.
Context `{UuidText, PriceGuards}.

Definition insert_version (v : Version) : ptx unit :=
  ok ← price_read (interval_ok v);
  price_raise ok "23505";;
  price_raise (version_check v) "23514";;
  dup ← price_read (fun p => bool_decide (is_Some (versions p !! v_ID v))
    || map_any (fun o => String.eqb (v_Scope o) (v_Scope v) && (v_VersionNo o =? v_VersionNo v)) (versions p));
  price_raise (negb dup) "23505";;
  price_guard (guard_version v);;
  price_write (set_versions (<[v_ID v := v]>)).

(** The triggers run in the order of their names, before the constraints. *)
Definition update_version (old new : Version) : ptx unit :=
  ok ← price_read (interval_ok new);
  price_raise ok "23505";;
  price_raise (identity_kept old new) "55000";;
  price_raise (version_check new) "23514";;
  price_write (set_versions (<[v_ID old := new]>)).

(** [bablo_guard_published_price_entry], then [bablo_validate_price_entry_scope]. *)
Definition insert_price (r : PriceRow) : ptx unit :=
  parent ← price_read (fun p => versions p !! mp_VersionID r);
  price_raise (match parent with Some v => negb (is_published (v_Status v)) | None => true end) "55000";;
  price_raise (match parent with Some v => String.eqb (v_Scope v) (mp_PricingScope r) | None => false end) "23514";;
  price_raise (price_check r) "23514";;
  dup ← price_read (fun p => bool_decide (is_Some (prices p !! mp_ID r)) || map_any (same_price_key r) (prices p));
  price_raise (negb dup) "23505";;
  price_guard (guard_price r);;
  price_write (set_price_rows (<[mp_ID r := r]>)).

Definition insert_audit (a : PriceAudit) : ptx unit :=
  _ ← price_id;
  match guard_price_audit a with
  | Some c => tx_fail (EWrapped c)
  | None => price_write (fun p => mkPriceDB (versions p) (prices p) (audits p ++ [a])%list)
  end.

(** ** Reading *)
(** [ORDER BY pricing_scope, model_id, provider_model_id, dimension], nulls last. *)
Definition uuid_le_nulls_last (a b : option uuid) : bool :=
  match a, b with _, None => true | None, Some _ => false | Some x, Some y => (x <=? y)%N end.
Definition price_row_le (a b : PriceRow) : Prop :=
  (if String.eqb (mp_PricingScope a) (mp_PricingScope b) then
     if opt_uuid_eqb (mp_ModelID a) (mp_ModelID b) then
       if opt_uuid_eqb (mp_ProviderModelID a) (mp_ProviderModelID b)
       then String.leb (mp_Dimension a) (mp_Dimension b)
       else uuid_le_nulls_last (mp_ProviderModelID a) (mp_ProviderModelID b)
     else uuid_le_nulls_last (mp_ModelID a) (mp_ModelID b)
   else String.leb (mp_PricingScope a) (mp_PricingScope b)) = true.
#[export] Instance price_row_le_dec : RelDecision price_row_le.
Proof. intros a b. unfold price_row_le. apply _. Defined.

Definition version_prices (id : uuid) (p : PriceDB) : list PriceRow :=
  merge_sort price_row_le
    (List.filter (fun r => uuid_eqb (mp_VersionID r) id) (map_to_list (prices p)).*2).

Definition scan_entry (r : PriceRow) : result error Entry :=
  match normalizeAmount (numeric_text (mp_UnitPrice r)) with
  | Ok amount => Ok {| e_ID := mp_ID r; e_PricingScope := mp_PricingScope r; e_ModelID := mp_ModelID r;
                       e_ProviderModelID := mp_ProviderModelID r; e_Dimension := mp_Dimension r;
                       e_UnitPrice := amount |}
  | Err _ => Err (EWrapped "normalize stored price")
  end.
Fixpoint scan_entries (rows : list PriceRow) : result error (list Entry) :=
  match rows with
  | [] => Ok []
  | r :: rows => e ← scan_entry r; es ← scan_entries rows; Ok (e :: es)
  end.

Definition with_entries (v : Version) (es : list Entry) : Version :=
  {| v_ID := v_ID v; v_Scope := v_Scope v; v_VersionNo := v_VersionNo v; v_Currency := v_Currency v;
     v_EffectiveFrom := v_EffectiveFrom v; v_EffectiveTo := v_EffectiveTo v; v_Status := v_Status v;
     v_CreatedBy := v_CreatedBy v; v_CreatedAt := v_CreatedAt v; v_Prices := es |}.

Definition loadEntries (v : Version) (p : PriceDB) : result error Version :=
  es ← scan_entries (version_prices (v_ID v) p); Ok (with_entries v es).
Definition getVersion (id : uuid) (p : PriceDB) : result error Version :=
  match versions p !! id with Some v => loadEntries v p | None => Err ErrNotFound end.
Definition get_in_tx (id : uuid) : ptx Version := r ← price_read (getVersion id); tx_lift r.

(** ** [create] *)
Definition next_version_no (scope : string) (p : PriceDB) : Z :=
  foldr (fun kv m => if String.eqb (v_Scope kv.2) scope then Z.max (v_VersionNo kv.2) m else m) 0
    (map_to_list (versions p)) + 1.

Definition draft_row (id : uuid) (no : Z) (actor : uuid) (input : CreateInput) : Version :=
  {| v_ID := id; v_Scope := ci_Scope input; v_VersionNo := no; v_Currency := ci_Currency input;
     v_EffectiveFrom := pg_time (ci_EffectiveFrom input);
     v_EffectiveTo := pg_time <$> ci_EffectiveTo input; v_Status := StatusDraft; v_CreatedBy := actor;
     v_CreatedAt := priced_at; v_Prices := [] |}.

Definition price_row (id versionID : uuid) (scope : string) (amount : Z) (e : EntryInput) : PriceRow :=
  {| mp_ID := id; mp_VersionID := versionID; mp_PricingScope := scope; mp_ModelID := ei_ModelID e;
     mp_ProviderModelID := ei_ProviderModelID e; mp_Dimension := ei_Dimension e; mp_UnitPrice := amount |}.

Fixpoint insert_prices (versionID : uuid) (scope : string) (entries : list EntryInput) : ptx unit :=
  match entries with
  | [] => mret tt
  | e :: entries =>
      entryID ← price_id;
      match numeric_of (ei_UnitPrice e) with
      | Some amount => insert_price (price_row entryID versionID scope amount e)
      | None => price_sql (SqlState "22P02")
      end;;
      insert_prices versionID scope entries
  end.

Definition create (actor versionID : uuid) (input : CreateInput) (requestID : string) : ptx Version :=
  no ← price_read (next_version_no (ci_Scope input));
  (if max_int64 <? no then tx_fail (EWrapped "22003") else mret tt);;
  insert_version (draft_row versionID no actor input);;
  insert_prices versionID (ci_Scope input) (ci_Prices input);;
  insert_audit {| pa_ActorUserID := actor; pa_Action := "price_version.create"; pa_TargetID := versionID;
                  pa_RequestID := requestID |};;
  get_in_tx versionID.

(** ** [activate] and [retire] *)
Definition with_status (status : string) (to : option time) (v : Version) : Version :=
  {| v_ID := v_ID v; v_Scope := v_Scope v; v_VersionNo := v_VersionNo v; v_Currency := v_Currency v;
     v_EffectiveFrom := v_EffectiveFrom v; v_EffectiveTo := to; v_Status := status;
     v_CreatedBy := v_CreatedBy v; v_CreatedAt := v_CreatedAt v; v_Prices := v_Prices v |}.

(** [UPDATE price_versions ... WHERE id = $1]. *)
Definition update_by_id (id : uuid) (f : Version -> Version) : ptx unit :=
  o ← price_read (fun p => versions p !! id);
  match o with Some v => update_version v (f v) | None => mret tt end.

Definition activate (actor versionID : uuid) (requestID : string) : ptx Version :=
  current ← get_in_tx versionID;
  if String.eqb (v_Status current) StatusActive then mret current else
  tx_when (negb (String.eqb (v_Status current) StatusDraft) || (List.length (v_Prices current) =? 0)%nat)
    ErrConflict;;
  update_by_id versionID (fun v => with_status StatusActive (v_EffectiveTo v) v);;
  insert_audit {| pa_ActorUserID := actor; pa_Action := "price_version.activate";
                  pa_TargetID := versionID; pa_RequestID := requestID |};;
  get_in_tx versionID.

Definition retire (actor versionID : uuid) (retiredAt : time) (requestID : string) : ptx Version :=
  current ← get_in_tx versionID;
  if String.eqb (v_Status current) StatusRetired then mret current else
  tx_when (negb (String.eqb (v_Status current) StatusActive)
           || negb (After retiredAt (v_EffectiveFrom current))) ErrConflict;;
  update_by_id versionID (with_status StatusRetired (Some (pg_time retiredAt)));;
  insert_audit {| pa_ActorUserID := actor; pa_Action := "price_version.retire";
                  pa_TargetID := versionID; pa_RequestID := requestID |};;
  get_in_tx versionID.

(** ** [list] *)
Record Page := { pg_Versions : list Version; pg_NextCursor : Z }.
Definition newer_version (a b : Version) : Prop := v_VersionNo b <= v_VersionNo a.
#[export] Instance newer_version_dec : RelDecision newer_version.
Proof. intros a b. unfold newer_version. apply _. Defined.

Definition version_listing (scope : string) (cursor : Z) (p : PriceDB) : list Version :=
  merge_sort newer_version
    (List.filter (fun v => String.eqb (v_Scope v) scope && (v_VersionNo v <? cursor))
       (map_to_list (versions p)).*2).
Fixpoint load_all (vs : list Version) (p : PriceDB) : result error (list Version) :=
  match vs with
  | [] => Ok []
  | v :: vs => v' ← loadEntries v p; vs' ← load_all vs p; Ok (v' :: vs')
  end.
Definition list_versions (scope : string) (cursor limit : Z) (p : PriceDB) : result error Page :=
  let cursor := if cursor =? 0 then max_int64 else cursor in
  let rows := take (Z.to_nat (limit + 1)) (version_listing scope cursor p) in
  let more := limit <? Z.of_nat (List.length rows) in
  let shown := if more then take (Z.to_nat limit) rows else rows in
  let next := if more then match last shown with Some v => v_VersionNo v | None => 0 end else 0 in
  vs ← load_all shown p;
  Ok {| pg_Versions := vs; pg_NextCursor := next |}.

(** ** [resolve] *)
(** The row of a target: the three cases of the WHERE clause. *)
Definition of_target (scope : string) (model providerModel : uuid) (r : PriceRow) : bool :=
  if String.eqb scope ScopeGlobal
  then opt_uuid_eqb (mp_ModelID r) None && opt_uuid_eqb (mp_ProviderModelID r) None
  else if String.eqb scope ScopeModel
  then opt_uuid_eqb (mp_ModelID r) (Some model) && opt_uuid_eqb (mp_ProviderModelID r) None
  else String.eqb scope ScopeProviderModel
       && opt_uuid_eqb (mp_ProviderModelID r) (Some providerModel) && opt_uuid_eqb (mp_ModelID r) None.

Definition covers (at_ : time) (v : Version) : bool :=
  (v_EffectiveFrom v <=? at_) && match v_EffectiveTo v with None => true | Some t => at_ <? t end.

Definition resolvable (scope : string) (model providerModel : uuid) (at_ : time) (p : PriceDB) (v : Version) : bool :=
  String.eqb (v_Scope v) scope && is_published (v_Status v) && covers at_ v
  && map_any (fun r => uuid_eqb (mp_VersionID r) (v_ID v) && String.eqb (mp_PricingScope r) (v_Scope v)
                       && of_target scope model providerModel r) (prices p).

(** [ORDER BY version_no DESC LIMIT 1]. *)
Definition resolved_version (scope : string) (model providerModel : uuid) (at_ : time) (p : PriceDB) : option Version :=
  head (merge_sort newer_version
    (List.filter (resolvable scope model providerModel at_ p) (map_to_list (versions p)).*2)).

(** The rows of the target, in any order: [snapshot.Prices] is a map. *)
Fixpoint price_map (rows : list PriceRow) : result error (gmap string string) :=
  match rows with
  | [] => Ok ∅
  | r :: rows =>
      match normalizeAmount (numeric_text (mp_UnitPrice r)) with
      | Ok amount => m ← price_map rows; Ok (<[mp_Dimension r := amount]> m)
      | Err _ => Err (EWrapped "normalize resolved price")
      end
  end.
Definition target_prices (versionID : uuid) (scope : string) (model providerModel : uuid) (p : PriceDB) : list PriceRow :=
  List.filter (fun r => uuid_eqb (mp_VersionID r) versionID && of_target scope model providerModel r)
    (map_to_list (prices p)).*2.

Definition resolve (scope : string) (model providerModel : uuid) (at_ : time) (p : PriceDB)
  : result error (option Snapshot) :=
  match resolved_version scope model providerModel (pg_time at_) p with
  | None => Ok None
  | Some v =>
      m ← price_map (target_prices (v_ID v) scope model providerModel p);
      Ok (Some {| s_VersionID := v_ID v; s_Scope := scope; s_Currency := v_Currency v;
                  s_EffectiveFrom := v_EffectiveFrom v; s_Prices := m; s_Free := false |})
  end.

(** ** The service *)
Definition Service_Create (ids : list uuid) (actor : uuid) (input : CreateInput) (requestID : string) (p : PriceDB)
  : PriceDB * result error Version :=
  if uuid_eqb actor uuid_nil then (p, Err ErrInvalidInput) else
  match validateCreate input with
  | Err e => (p, Err e)
  | Ok validated =>
      match ids with
      | [] => (p, Err (EWrapped "generate UUIDv7"))
      | versionID :: ids => run_pricing ids (create actor versionID validated requestID) p
      end
  end.

Definition Service_Get (versionID : uuid) (p : PriceDB) : result error Version :=
  if uuid_eqb versionID uuid_nil then Err ErrInvalidInput else getVersion versionID p.

Definition Service_List (scope : string) (cursor limit : Z) (p : PriceDB) : result error Page :=
  let scope := TrimSpace scope in
  if negb (validScope scope) || (cursor <? 0) then Err ErrInvalidInput else
  let limit := if limit =? 0 then 50 else limit in
  if (limit <? 1) || (maximumPageSize <? limit) then Err ErrInvalidInput else
  list_versions scope cursor limit p.

(** [others] commit between the check and the transaction. *)
Definition Service_Activate (others : PriceDB -> PriceDB) (ids : list uuid) (actor versionID : uuid)
    (requestID : string) (p : PriceDB) : PriceDB * result error Version :=
  if uuid_eqb actor uuid_nil || uuid_eqb versionID uuid_nil then (p, Err ErrInvalidInput) else
  match getVersion versionID p with
  | Err e => (p, Err e)
  | Ok version =>
      if String.eqb (v_Status version) StatusActive then (p, Ok version) else
      if negb (String.eqb (v_Status version) StatusDraft) || negb (publishable version)
      then (p, Err ErrConflict)
      else run_pricing ids (activate actor versionID requestID) (others p)
  end.

Definition Service_Retire (ids : list uuid) (actor versionID : uuid) (retiredAt now : time)
    (requestID : string) (p : PriceDB) : PriceDB * result error Version :=
  if uuid_eqb actor uuid_nil || uuid_eqb versionID uuid_nil then (p, Err ErrInvalidInput) else
  let retiredAt := if IsZero retiredAt then now else retiredAt in
  run_pricing ids (retire actor versionID retiredAt requestID) p.

Fixpoint resolve_scopes (scopes required : list string) (model providerModel : uuid) (at_ : time) (p : PriceDB)
  : result error Snapshot :=
  match scopes with
  | [] => Err ErrPriceMissing
  | scope :: scopes =>
      found ← resolve scope model providerModel at_ p;
      match found with
      | None => resolve_scopes scopes required model providerModel at_ p
      | Some snapshot =>
          if forallb (fun d => bool_decide (is_Some (s_Prices snapshot !! d))) required
          then Ok snapshot else Err ErrPriceMissing
      end
  end.

Definition free_snapshot : Snapshot :=
  {| s_VersionID := uuid_nil; s_Scope := BillingFree; s_Currency := ""; s_EffectiveFrom := 0;
     s_Prices := ∅; s_Free := true |}.

Definition required_dimensions (class : string) : list string :=
  if String.eqb class BillingToken then [DimensionInputToken; DimensionOutputToken] else [DimensionRequest].
Definition lookup_scopes (providerModel : option uuid) : list string :=
  match providerModel with
  | Some _ => [ScopeProviderModel; ScopeModel; ScopeGlobal]
  | None => [ScopeModel; ScopeGlobal]
  end.

Definition ResolveSnapshot (model : uuid) (providerModel : option uuid) (at_ now : time) (p : PriceDB)
  : result error Snapshot :=
  if uuid_eqb model uuid_nil || match providerModel with Some u => uuid_eqb u uuid_nil | None => false end
  then Err ErrInvalidInput else
  let at_ := if IsZero at_ then now else at_ in
  match billing_class model with
  | None => Err ErrNotFound
  | Some class =>
      if String.eqb class BillingDisabled then Err ErrBillingDisabled else
      if String.eqb class BillingFree then Ok free_snapshot else
      resolve_scopes (lookup_scopes providerModel) (required_dimensions class) model
        (default uuid_nil providerModel) at_ p
  end.
End repository.
End PricingRepo.
