(* ===== verification/PricingHistory.v ===== *)
(** * Histories of the price tables

    The texts of numeric columns ([PricingNumeric]), what the transactions of [PricingRepo] do when they succeed, the invariant of the
    rows, and what later transactions keep of a bundle. *)

From stdpp Require Import base gmap strings list sorting relations.
From Stdlib Require Import ZArith Lia Ascii String.
From S2P Require Import Prelude GoLib Pricing BillingModel Money MoneyProofs PricingRepo.

Module PricingNumeric.
Import Pricing PricingRepo Money MoneyProofs.

(** ** The text of a numeric value *)
Lemma digit_code v : 0 <= v < 10 -> code (ascii_of_N (Z.to_N (48 + v))) = 48 + v.
Proof. intros Hv. unfold code. rewrite N_ascii_embedding by lia. lia. Qed.
Lemma digit_is_digit v : 0 <= v < 10 -> is_digit (ascii_of_N (Z.to_N (48 + v))) = true.
Proof. intros Hv. unfold is_digit. rewrite digit_code by done. apply andb_true_iff. rewrite !Z.leb_le. lia. Qed.

Lemma fixed_digits_digits n v s : forall_bytes is_digit (fixed_digits n v s) = forall_bytes is_digit s.
Proof.
  revert v s. induction n as [|n IH]; intros v s; [done|]. cbn [fixed_digits]. rewrite IH. cbn [forall_bytes].
  rewrite digit_is_digit; [done|]. apply Z.mod_pos_bound. lia.
Qed.
Lemma fixed_digits_length n v s : String.length (fixed_digits n v s) = (n + String.length s)%nat.
Proof. revert v s. induction n as [|n IH]; intros v s; [done|]. cbn [fixed_digits]. rewrite IH. simpl. lia. Qed.

Lemma fixed_digits_value n v s acc :
  digits_value acc (fixed_digits n v s) = digits_value (acc * 10 ^ Z.of_nat n + v mod 10 ^ Z.of_nat n) s.
Proof.
  revert v s acc. induction n as [|n IH]; intros v s acc.
  { simpl. f_equal. rewrite Z.mod_1_r. lia. }
  cbn [fixed_digits]. rewrite IH. cbn [digits_value].
  pose proof (Z.mod_pos_bound v 10 ltac:(lia)). rewrite digit_is_digit by done.
  f_equal. rewrite digit_code by done. rewrite Nat2Z.inj_succ, Z.pow_succ_r by lia.
  rewrite (Z.rem_mul_r v 10 (10 ^ Z.of_nat n)) by lia. lia.
Qed.

Lemma digits_value_app s t acc : digits_value acc (s +:+ t) =
  match digits_value acc s with Some a => digits_value a t | None => None end.
Proof.
  revert acc. induction s as [|c s IH]; intros acc; [done|].
  change (String c s +:+ t) with (String c (s +:+ t)). cbn [digits_value]. destruct (is_digit c); [apply IH|done].
Qed.

Lemma TrimLeftByte_head b s c t : TrimLeftByte b s = String c t -> c <> b.
Proof.
  induction s as [|d s IH]; cbn [TrimLeftByte]; [done|]. destruct (Ascii.eqb_spec b d); [done|].
  by intros [= <- _] ->.
Qed.

Lemma integer_text_ok v : 0 <= v < 10 ^ 18 ->
  integer_part_ok (integer_text v) = true /\ forall_bytes is_digit (integer_text v) = true
  /\ slen (integer_text v) <= 18 /\ digits_value 0 (integer_text v) = Some v.
Proof.
  intros Hv. unfold integer_text.
  set (s := fixed_digits 18 v "").
  assert (forall_bytes is_digit s = true) as Hd by (unfold s; by rewrite fixed_digits_digits).
  assert (String.length s = 18%nat) as Hl by (unfold s; rewrite fixed_digits_length; done).
  assert (digits_value 0 s = Some v) as Hval.
  { unfold s. rewrite fixed_digits_value. simpl digits_value. change (Z.of_nat 18) with 18.
    rewrite Z.mod_small by lia. f_equal. }
  pose proof (big_SetString_trim s) as Hb. cbv zeta in Hb |- *.
  destruct (TrimLeftByte_spec "0" s) as [n Hn].
  destruct (String.eqb_spec (TrimLeftByte "0" s) "") as [He|He].
  - specialize (Hb ltac:(by intros E; rewrite E in Hl)). rewrite Hval in Hb. split_and!; try done.
  - specialize (Hb ltac:(by intros E; rewrite E in Hl)). rewrite Hval in Hb.
    destruct (TrimLeftByte "0" s) as [|c t] eqn:Ht; [done|].
    rewrite Hn, forall_bytes_app in Hd. apply andb_true_iff in Hd as [_ Hd].
    assert (slen (String c t) <= 18) as Hls.
    { rewrite Hn, slength_app, length_RepeatByte in Hl. unfold slen. lia. }
    split_and!; [|done|done|].
    + unfold integer_part_ok. cbn [forall_bytes] in Hd. apply andb_true_iff in Hd as [Hc Ht'].
      rewrite Hc, Ht'. destruct (Z.eqb_spec (code c) 48) as [E|_].
      * exfalso. apply (TrimLeftByte_head _ _ _ _ Ht). unfold code in E.
        rewrite <- (ascii_N_embedding c). by replace (N_of_ascii c) with 48%N by lia.
      * simpl. apply Z.leb_le. unfold slen in *. cbn [String.length] in Hls. lia.
    + by rewrite <- Hb.
Qed.

Lemma numeric_text_ok v : 0 <= v < 10 ^ 30 ->
  exists t, normalizeAmount (numeric_text v) = Ok t /\ parseScaledPrice t = Ok v.
Proof.
  intros Hv.
  destruct (integer_text_ok (v / 10 ^ 12)) as (Hi & Hdi & Hli & Hval).
  { split; [apply Z.div_pos; lia|]. apply Z.div_lt_upper_bound; lia. }
  set (i := integer_text (v / 10 ^ 12)) in *. set (f := fixed_digits 12 v "").
  assert (forall_bytes is_digit f = true) as Hdf by (unfold f; by rewrite fixed_digits_digits).
  assert (String.length f = 12%nat) as Hlf by (unfold f; by rewrite fixed_digits_length).
  assert (decimal_ok i f) as Hok.
  { split_and!; [by intros E; rewrite E in Hi|done| |done|done]. unfold slen. by rewrite Hlf. }
  assert (decimal_value i f = v) as Hdv.
  { unfold decimal_value. rewrite Hlf. change (RepeatByte "0" (priceScale - 12)) with "".
    rewrite digits_value_app, Hval, sapp_nil_r. unfold f. rewrite fixed_digits_value. simpl digits_value.
    change (Z.of_nat 12) with 12. simpl default. rewrite (Z.div_mod v (10 ^ 12)) at 3 by lia. lia. }
  assert (numeric_text v = decimal_text i (Some f)) as Ht by done.
  pose proof (plain_TrimSpace _ (decimal_text_plain i (Some f) Hok)) as Htrim.
  assert (is_ok (normalizeAmount (numeric_text v)) = true) as Hn.
  { unfold normalizeAmount. rewrite Ht, Htrim.
    assert (amount_matches (decimal_text i (Some f)) = true) as ->.
    { unfold amount_matches. rewrite (SplitByte_decimal i (Some f)) by done. rewrite Hi. unfold fraction_part_ok, slen.
      by rewrite Hlf, Hdf. }
    simpl negb. by destruct (ContainsByte _ _). }
  destruct (normalizeAmount (numeric_text v)) as [t|] eqn:E; [|done]. exists t. split; [done|].
  destruct (normalizeAmount_preserves_value _ _ E) as (w & Hw & Hp & _).
  rewrite (parse_decimal _ i (Some f)) in Hw; [|by rewrite Ht|done]. injection Hw as <-.
  simpl in Hp. by rewrite Hdv in Hp.
Qed.
End PricingNumeric.

Module PricingHistory.
Import Pricing PricingRepo.
Import Billing(one_of).

Section facts.
Context `{UuidText, PriceGuards}.

(** ** Statements that succeed *)
Lemma price_read_ok {A} (f : PriceDB -> A) s s' a : price_read f s = Ok (s', a) -> s' = s /\ a = f s.2.
Proof. by intros [= <- <-]. Qed.
Lemma price_write_ok f ids p s' u : price_write f (ids, p) = Ok (s', u) -> s' = (ids, f p).
Proof. by intros [= <-]. Qed.
Lemma price_raise_ok b c s s' u : price_raise b c s = Ok (s', u) -> b = true /\ s' = s.
Proof. unfold price_raise. destruct b; [by intros [= <-]|done]. Qed.
Lemma price_guard_ok g s s' u : price_guard g s = Ok (s', u) -> s' = s.
Proof. unfold price_guard. destruct g; [done|by intros [= <-]]. Qed.
Lemma price_id_ok ids p s' i : price_id (ids, p) = Ok (s', i) -> exists rest, ids = i :: rest /\ s' = (rest, p).
Proof. unfold price_id. simpl. destruct ids as [|x ids]; [done|]. intros [= <- <-]. by eexists. Qed.
Lemma get_in_tx_ok id s s' v : get_in_tx id s = Ok (s', v) -> s' = s /\ getVersion id s.2 = Ok v.
Proof.
  unfold get_in_tx. intros (s1 & r & [-> ->]%price_read_ok & [Hr ->]%tx_lift_ok)%tx_bind_ok. done.
Qed.

End facts.

Ltac p_step :=
  match goal with
  | H : price_read _ _ = Ok (_, _) |- _ => apply price_read_ok in H as [? ?]; subst
  | H : price_write _ (_, _) = Ok (_, _) |- _ => apply price_write_ok in H; subst
  | H : price_raise _ _ _ = Ok (_, _) |- _ => apply price_raise_ok in H as [? ?]; subst
  | H : price_guard _ _ = Ok (_, _) |- _ => apply price_guard_ok in H; subst
  | H : get_in_tx _ _ = Ok (_, _) |- _ => apply get_in_tx_ok in H as [? ?]; subst
  | H : price_id (_, _) = Ok (_, _) |- _ =>
      let rest := fresh "ids" in apply price_id_ok in H as (rest & ? & ?); subst
  | H : tx_fail _ _ = Ok (_, _) |- _ => discriminate H
  | _ => tx_step
  end.
Ltac p_inv := repeat (p_step; cbn [fst snd] in * ).

Section effects.
Context `{UuidText, PriceGuards}.

Lemma insert_version_ok v ids p s' u :
  insert_version v (ids, p) = Ok (s', u) ->
  s' = (ids, set_versions (<[v_ID v := v]>) p)
  /\ interval_ok v p = true /\ version_check v = true /\ versions p !! v_ID v = None
  /\ forall k o, versions p !! k = Some o -> v_Scope o = v_Scope v -> v_VersionNo o <> v_VersionNo v.
Proof.
  intros Hm. unfold insert_version in Hm. p_inv. bools.
  rename select (~ is_Some _) into Hd.
  rename select (map_any _ _ = false) into Hn. rewrite map_any_false in Hn.
  split_and!; try done.
  - destruct (versions p !! v_ID v) eqn:E; [|done]. destruct Hd. by eexists.
  - intros k o Ho Hs Hv. specialize (Hn _ _ Ho). rewrite Hs, Hv, String.eqb_refl, Z.eqb_refl in Hn. done.
Qed.

Lemma update_version_ok old new ids p s' u :
  update_version old new (ids, p) = Ok (s', u) ->
  s' = (ids, set_versions (<[v_ID old := new]>) p)
  /\ interval_ok new p = true /\ identity_kept old new = true /\ version_check new = true.
Proof. intros Hm. unfold update_version in Hm. p_inv. by split_and!. Qed.

Lemma insert_price_ok r ids p s' u :
  insert_price r (ids, p) = Ok (s', u) ->
  s' = (ids, set_price_rows (<[mp_ID r := r]>) p) /\ price_check r = true
  /\ (exists v, versions p !! mp_VersionID r = Some v /\ is_published (v_Status v) = false
                /\ v_Scope v = mp_PricingScope r)
  /\ prices p !! mp_ID r = None
  /\ forall k o, prices p !! k = Some o -> same_price_key r o = false.
Proof.
  intros Hm. unfold insert_price in Hm. p_inv. bools.
  rename select (~ is_Some _) into Hd.
  rename select (map_any _ _ = false) into Hn. rewrite map_any_false in Hn.
  destruct (versions p !! mp_VersionID r) as [v|]; [|done]. bools.
  split_and!; try done.
  - by exists v.
  - destruct (prices p !! mp_ID r) eqn:E; [|done]. destruct Hd. by eexists.
Qed.

Lemma insert_audit_ok a ids p s' u :
  insert_audit a (ids, p) = Ok (s', u) ->
  exists rest, s' = (rest, mkPriceDB (versions p) (prices p) (audits p ++ [a])%list).
Proof.
  intros Hm. unfold insert_audit in Hm. p_inv. destruct (guard_price_audit a); [done|].
  p_inv. by eexists.
Qed.

(** ** The rows a draft gets *)
Inductive stored (versionID : uuid) (scope : string) : list EntryInput -> list PriceRow -> Prop :=
| stored_nil : stored versionID scope [] []
| stored_cons i amount e es rows :
    numeric_of (ei_UnitPrice e) = Some amount ->
    stored versionID scope es rows ->
    stored versionID scope (e :: es) (price_row i versionID scope amount e :: rows).

Lemma stored_amount versionID scope es rows r : stored versionID scope es rows -> r ∈ rows ->
  0 <= mp_UnitPrice r < 10 ^ 30.
Proof.
  intros Hs. induction Hs as [|i amount e es rows Ha _ IH]; [by intros ?%elem_of_nil|].
  intros [->|?]%elem_of_cons; [|by apply IH]. simpl. unfold numeric_of in Ha.
  destruct (Money.parseScaledPrice _) as [v|] eqn:E; [|done]. injection Ha as <-.
  by eapply MoneyProofs.parseScaledPrice_range.
Qed.

(** [rows] were inserted, one after the other, into [m]. *)
Fixpoint added (rows : list PriceRow) (m : gmap uuid PriceRow) : gmap uuid PriceRow :=
  match rows with [] => m | r :: rows => added rows (<[mp_ID r := r]> m) end.

(** Each row was new when it was inserted. *)
Fixpoint fresh_rows (v : Version) (rows : list PriceRow) (m : gmap uuid PriceRow) : Prop :=
  match rows with
  | [] => True
  | r :: rows =>
      price_check r = true /\ m !! mp_ID r = None /\ mp_VersionID r = v_ID v
      /\ mp_PricingScope r = v_Scope v
      /\ (forall k o, m !! k = Some o -> same_price_key r o = false)
      /\ fresh_rows v rows (<[mp_ID r := r]> m)
  end.

Lemma insert_prices_ok v scope es ids p s' u :
  versions p !! v_ID v = Some v -> v_Scope v = scope ->
  insert_prices (v_ID v) scope es (ids, p) = Ok (s', u) ->
  exists rows rest, s' = (rest, set_price_rows (fun _ => added rows (prices p)) p)
    /\ stored (v_ID v) scope es rows /\ fresh_rows v rows (prices p).
Proof.
  intros Hv Hs. revert ids p s' u Hv. induction es as [|e es IH]; intros ids p s' u Hv Hm.
  { injection Hm as <-. exists [], ids. split_and!; [by destruct p|constructor|done]. }
  cbn [insert_prices] in Hm. p_inv. destruct (numeric_of (ei_UnitPrice e)) as [amount|] eqn:Ha; [|done].
  p_inv. match goal with H : insert_price _ _ = Ok _ |- _ => apply insert_price_ok in H as (-> & Hc & Hp & Hi & Hk) end.
  match goal with H : insert_prices _ _ _ _ = Ok _ |- _ => apply IH in H as (rows & rest & -> & Hst & Hfr); [|done] end.
  eexists (_ :: rows), rest. split; [reflexivity|]. split; [by constructor|].
  simpl in *. destruct Hp as (v' & Hv' & _). split_and!; try done.
Qed.

(** ** What a transaction changes *)
Definition keyed (p : PriceDB) : Prop := forall k v, versions p !! k = Some v -> v_ID v = k.

Inductive change (p p' : PriceDB) : Prop :=
| change_none : versions p' = versions p -> prices p' = prices p -> change p p'
| change_create v es rows :
    v_Status v = StatusDraft -> v_Prices v = [] -> version_check v = true ->
    versions p !! v_ID v = None ->
    (forall k o, versions p !! k = Some o -> v_Scope o = v_Scope v -> v_VersionNo o <> v_VersionNo v) ->
    stored (v_ID v) (v_Scope v) es rows -> fresh_rows v rows (prices p) ->
    versions p' = <[v_ID v := v]> (versions p) -> prices p' = added rows (prices p) -> change p p'
| change_update old status to :
    let new := with_status status to old in
    versions p !! v_ID old = Some old ->
    (v_Status old = StatusDraft /\ status = StatusActive /\ to = v_EffectiveTo old
     \/ v_Status old = StatusActive /\ status = StatusRetired /\ is_Some to) ->
    (v_Status old = StatusDraft -> exists full, getVersion (v_ID old) p = Ok full /\ publishable full = true) ->
    interval_ok new p = true -> identity_kept old new = true -> version_check new = true ->
    versions p' = <[v_ID old := new]> (versions p) -> prices p' = prices p -> change p p'.

Lemma getVersion_row id p v :
  getVersion id p = Ok v -> exists row, versions p !! id = Some row /\ v_Status v = v_Status row
    /\ v_EffectiveFrom v = v_EffectiveFrom row
    /\ exists es, scan_entries (version_prices (v_ID row) p) = Ok es /\ v = with_entries row es.
Proof.
  unfold getVersion, loadEntries. destruct (versions p !! id) as [row|]; [|done].
  intros (es & He & [= <-])%result_bind_ok. exists row. split_and!; try done. by exists es.
Qed.

Lemma create_ok actor vid input req ids p s' v :
  keyed p -> create actor vid input req (ids, p) = Ok (s', v) ->
  change p s'.2 /\ exists row rows,
    row = draft_row vid (next_version_no (ci_Scope input) p) actor input
    /\ stored vid (ci_Scope input) (ci_Prices input) rows
    /\ versions s'.2 = <[vid := row]> (versions p) /\ prices s'.2 = added rows (prices p)
    /\ fresh_rows row rows (prices p)
    /\ versions p !! vid = None /\ getVersion vid s'.2 = Ok v.
Proof.
  intros HK Hm. unfold create in Hm. p_inv.
  match goal with H : (if ?b then _ else _) _ = Ok _ |- _ => destruct b; [done|]; p_inv end.
  match goal with H : insert_version _ _ = Ok _ |- _ => apply insert_version_ok in H as (-> & Hi & Hc & Hn & Hu) end.
  set (row := draft_row vid _ actor input) in *.
  match goal with H : insert_prices _ _ _ _ = Ok _ |- _ =>
    apply (insert_prices_ok row) in H as (rows & rest & -> & Hst & Hfr); [|simpl; by rewrite lookup_insert_eq|done] end.
  match goal with H : insert_audit _ _ = Ok _ |- _ => apply insert_audit_ok in H as [rest' ->] end.
  split; [|exists row, rows; by split_and!].
  by apply (change_create p _ row (ci_Prices input) rows).
Qed.

Lemma update_by_id_ok id f ids p s' u v :
  keyed p -> versions p !! id = Some v -> update_by_id id f (ids, p) = Ok (s', u) ->
  s' = (ids, set_versions (<[id := f v]>) p) /\ interval_ok (f v) p = true
  /\ identity_kept v (f v) = true /\ version_check (f v) = true.
Proof.
  intros HK Hv Hm. unfold update_by_id in Hm. p_inv. rewrite Hv in *.
  apply update_version_ok in Hm as (-> & H1 & H2 & H3). by rewrite (HK _ _ Hv).
Qed.

Lemma activate_ok actor vid req ids p s' v :
  keyed p ->
  (forall full, getVersion vid p = Ok full -> v_Status full = StatusDraft -> publishable full = true) ->
  activate actor vid req (ids, p) = Ok (s', v) ->
  change p s'.2 /\ getVersion vid s'.2 = Ok v /\ v_Status v = StatusActive.
Proof.
  intros HK Hpub Hm. unfold activate in Hm. p_inv. rename select (getVersion vid p = _) into Hg.
  pose proof Hg as Hrow. apply getVersion_row in Hrow as (row & Hr & Hs & _).
  match goal with H : (if ?b then _ else _) _ = Ok _ |- _ => destruct b eqn:Ha; p_inv end.
  { split; [by apply change_none|]. split; [done|]. by apply String.eqb_eq. }
  bools. match goal with H : update_by_id _ _ _ = Ok _ |- _ =>
    apply (update_by_id_ok _ _ _ _ _ _ row) in H as (-> & Hi & Hk & Hc); [|done..] end.
  match goal with H : insert_audit _ _ = Ok _ |- _ => apply insert_audit_ok in H as [rest' ->] end.
  simpl in *. pose proof (HK _ _ Hr) as Hid. split; [|split; [done|]].
  - apply (change_update p _ row StatusActive (v_EffectiveTo row)); simpl; rewrite ?Hid; try done.
    + left. split_and!; [congruence|done..].
    + intros _. eexists. split; [exact Hg|]. by apply Hpub.
  - rename select (getVersion vid _ = Ok v) into Hg2. apply getVersion_row in Hg2 as (r2 & Hr2 & -> & _).
    simpl in Hr2. rewrite lookup_insert_eq in Hr2. by injection Hr2 as <-.
Qed.

Lemma retire_ok actor vid at_ req ids p s' v :
  keyed p -> retire actor vid at_ req (ids, p) = Ok (s', v) ->
  change p s'.2 /\ getVersion vid s'.2 = Ok v /\ v_Status v = StatusRetired.
Proof.
  intros HK Hm. unfold retire in Hm. p_inv. rename select (getVersion vid p = _) into Hg.
  pose proof Hg as Hrow. apply getVersion_row in Hrow as (row & Hr & Hs & _).
  match goal with H : (if ?b then _ else _) _ = Ok _ |- _ => destruct b eqn:Ha; p_inv end.
  { split; [by apply change_none|]. split; [done|]. by apply String.eqb_eq. }
  bools. match goal with H : update_by_id _ _ _ = Ok _ |- _ =>
    apply (update_by_id_ok _ _ _ _ _ _ row) in H as (-> & Hi & Hk & Hc); [|done..] end.
  match goal with H : insert_audit _ _ = Ok _ |- _ => apply insert_audit_ok in H as [rest' ->] end.
  simpl in *. pose proof (HK _ _ Hr) as Hid. split; [|split; [done|]].
  - apply (change_update p _ row StatusRetired (Some (pg_time at_))); simpl; rewrite ?Hid; try done.
    + right. split_and!; [congruence|done|by eexists].
    + intros Hd. rewrite <- Hs in Hd. assert (StatusActive = StatusDraft) by congruence. done.
  - rename select (getVersion vid _ = Ok v) into Hg2. apply getVersion_row in Hg2 as (r2 & Hr2 & -> & _).
    simpl in Hr2. rewrite lookup_insert_eq in Hr2. by injection Hr2 as <-.
Qed.

(** ** The invariant of the rows *)
Record sound (p : PriceDB) : Prop := {
  s_key : keyed p;
  s_row_key : forall k r, prices p !! k = Some r -> mp_ID r = k;
  s_check : forall k v, versions p !! k = Some v -> version_check v = true /\ v_Prices v = [];
  s_number : forall k k' v v', versions p !! k = Some v -> versions p !! k' = Some v' ->
    v_Scope v = v_Scope v' -> v_VersionNo v = v_VersionNo v' -> k = k';
  s_disjoint : forall k k' v v', versions p !! k = Some v -> versions p !! k' = Some v' -> k <> k' ->
    v_Scope v = v_Scope v' -> is_published (v_Status v) = true -> is_published (v_Status v') = true ->
    ranges_overlap v v' = false;
  s_row : forall k r, prices p !! k = Some r -> price_check r = true
    /\ exists v, versions p !! mp_VersionID r = Some v /\ v_Scope v = mp_PricingScope r;
  s_unique : forall k k' r r', prices p !! k = Some r -> prices p !! k' = Some r' ->
    same_price_key r r' = true -> k = k';
  s_amount : forall k r, prices p !! k = Some r -> 0 <= mp_UnitPrice r < 10 ^ 30
}.

(** What later transactions keep of a version that exists. *)
Definition kept (p p' : PriceDB) (id : uuid) (v v' : Version) : Prop :=
  v_ID v' = v_ID v /\ v_Scope v' = v_Scope v /\ v_VersionNo v' = v_VersionNo v
  /\ v_Currency v' = v_Currency v /\ v_EffectiveFrom v' = v_EffectiveFrom v
  /\ v_CreatedBy v' = v_CreatedBy v /\ v_CreatedAt v' = v_CreatedAt v /\ v_Prices v' = v_Prices v
  /\ (is_published (v_Status v) = true -> is_published (v_Status v') = true)
  /\ (v_Status v = StatusRetired -> v_Status v' = StatusRetired)
  /\ (forall t, v_EffectiveTo v = Some t -> v_EffectiveTo v' = Some t)
  /\ version_prices id p' ≡ₚ version_prices id p.
Definition keeps (p p' : PriceDB) : Prop := forall id v, versions p !! id = Some v ->
  exists v', versions p' !! id = Some v' /\ kept p p' id v v'.

Lemma keeps_refl p : keeps p p.
Proof. intros id v Hv. exists v. by unfold kept. Qed.
Lemma keeps_trans p q r : keeps p q -> keeps q r -> keeps p r.
Proof.
  intros H1 H2 id v Hv. destruct (H1 _ _ Hv) as (v1 & Hv1 & K1). destruct (H2 _ _ Hv1) as (v2 & Hv2 & K2).
  exists v2. split; [done|].   destruct K1 as (A1 & A2 & A3 & A4 & A5 & A6 & A7 & A8 & A9 & A10 & A11 & A12).
  destruct K2 as (B1 & B2 & B3 & B4 & B5 & B6 & B7 & B8 & B9 & B10 & B11 & B12).
  unfold kept. split_and!; try congruence; auto. by etrans.
Qed.

(** ** The rows of a version *)
Lemma added_lookup v rows m k r : fresh_rows v rows m ->
  added rows m !! k = Some r <-> m !! k = Some r \/ r ∈ rows /\ mp_ID r = k.
Proof.
  revert m. induction rows as [|x rows IH]; intros m Hf; simpl.
  { split; [auto|]. intros [?|[[]%elem_of_nil _]]; done. }
  destruct Hf as (_ & Hn & _ & _ & _ & Hf). rewrite (IH _ Hf), elem_of_cons.
  destruct (decide (mp_ID x = k)) as [<-|Hk].
  - rewrite lookup_insert_eq, Hn. split; [|].
    + intros [[= <-]|[? ?]]; auto.
    + intros [?|[[->|?] ?]]; auto; done.
  - rewrite lookup_insert_ne by done. split; [naive_solver|]. intros [?|[[->|?] ?]]; auto; done.
Qed.

Lemma fresh_rows_version v rows m r : fresh_rows v rows m -> r ∈ rows ->
  mp_VersionID r = v_ID v /\ mp_PricingScope r = v_Scope v /\ price_check r = true.
Proof.
  revert m. induction rows as [|x rows IH]; intros m Hf; [by intros ?%elem_of_nil|].
  destruct Hf as (Hc & _ & Hv & Hs & _ & Hf). intros [->|?]%elem_of_cons; [done|]. by eapply IH.
Qed.

Lemma elem_of_version_prices id p r :
  r ∈ version_prices id p <-> (exists k, prices p !! k = Some r) /\ mp_VersionID r = id.
Proof.
  unfold version_prices. rewrite merge_sort_Permutation, list_elem_of_In, filter_In, <- list_elem_of_In.
  rewrite uuid_eqb_eq, list_elem_of_fmap. split.
  - intros [([k x] & -> & ?%elem_of_map_to_list) ?]. split; [by exists k|done].
  - intros [[k Hk] ?]. split; [|done]. exists (k, r). split; [done|]. by apply elem_of_map_to_list.
Qed.

Lemma version_prices_NoDup id p : (forall k r, prices p !! k = Some r -> mp_ID r = k) ->
  NoDup (version_prices id p).
Proof.
  intros HK. unfold version_prices. rewrite merge_sort_Permutation.
  apply NoDup_ListNoDup, List.NoDup_filter, NoDup_ListNoDup. apply (NoDup_fmap_1 mp_ID). rewrite <- list_fmap_compose.
  rewrite (list_fmap_ext _ fst _); [apply NoDup_fst_map_to_list|].
  intros i [k r] Hi. simpl. apply HK. by apply elem_of_map_to_list, list_elem_of_lookup_2 with i.
Qed.

(** ** A transaction keeps the invariant *)
Lemma overlap_sym a b : ranges_overlap a b = ranges_overlap b a.
Proof. unfold ranges_overlap. apply andb_comm. Qed.

Lemma interval_ok_spec v p : keyed p -> interval_ok v p = true -> is_published (v_Status v) = true ->
  forall k o, versions p !! k = Some o -> v_Scope o = v_Scope v -> is_published (v_Status o) = true ->
  k <> v_ID v -> ranges_overlap o v = false.
Proof.
  intros HK Hi Hp k o Ho Hs Hpo Hne. unfold interval_ok in Hi. rewrite Hp in Hi. simpl in Hi.
  apply negb_true_iff in Hi. rewrite map_any_false in Hi. specialize (Hi _ _ Ho).
  rewrite Hs, String.eqb_refl, Hpo, (HK _ _ Ho), (proj2 (uuid_eqb_neq _ _) Hne) in Hi. done.
Qed.

Lemma added_keeps p v rows id : versions p !! v_ID v = None -> sound p ->
  fresh_rows v rows (prices p) -> is_Some (versions p !! id) ->
  forall p', prices p' = added rows (prices p) -> (forall k r, prices p' !! k = Some r -> mp_ID r = k) ->
  version_prices id p' ≡ₚ version_prices id p.
Proof.
  intros Hn S Hf [o Ho] p' Hp HK. apply NoDup_Permutation.
  - by apply version_prices_NoDup.
  - apply version_prices_NoDup, (s_row_key _ S).
  - intros r. rewrite !elem_of_version_prices, Hp. setoid_rewrite (added_lookup v); [|done].
    split; [|naive_solver]. intros [[k [?|[Hr _]]] Hid]; [eauto|].
    destruct (fresh_rows_version _ _ _ _ Hf Hr) as (Hv & _). congruence.
Qed.

Lemma added_keyed v rows p : sound p -> fresh_rows v rows (prices p) ->
  forall k r, added rows (prices p) !! k = Some r -> mp_ID r = k.
Proof. intros S Hf k r [?|[_ ?]]%(added_lookup v); [by eapply s_row_key|done..]. Qed.

Lemma same_price_key_sym a b : same_price_key a b = same_price_key b a.
Proof.
  unfold same_price_key. apply eq_iff_eq_true. rewrite !andb_true_iff, !String.eqb_eq, !opt_uuid_eqb_eq, !uuid_eqb_eq.
  naive_solver.
Qed.

(** One more row at a time. *)
Definition keyed_rows (m : gmap uuid PriceRow) : Prop := forall k k' r r',
  m !! k = Some r -> m !! k' = Some r' -> same_price_key r r' = true -> k = k'.
Lemma added_unique v rows m : keyed_rows m -> fresh_rows v rows m -> keyed_rows (added rows m).
Proof.
  revert m. induction rows as [|x rows IH]; intros m Hm; [done|].
  intros (_ & _ & _ & _ & Hu & Hf). apply IH; [|done].
  intros k k' r r' H1 H2 Hs. apply lookup_insert_Some in H1 as [[<- <-]|[? H1]], H2 as [[<- <-]|[? H2]]; try done.
  - by rewrite (Hu _ _ H2) in Hs.
  - by rewrite same_price_key_sym, (Hu _ _ H1) in Hs.
  - by eapply Hm.
Qed.

Lemma create_sound p p' v es rows :
  v_Status v = StatusDraft -> v_Prices v = [] -> version_check v = true -> versions p !! v_ID v = None ->
  (forall k o, versions p !! k = Some o -> v_Scope o = v_Scope v -> v_VersionNo o <> v_VersionNo v) ->
  stored (v_ID v) (v_Scope v) es rows -> fresh_rows v rows (prices p) ->
  versions p' = <[v_ID v := v]> (versions p) -> prices p' = added rows (prices p) ->
  sound p -> sound p' /\ keeps p p'.
Proof.
  intros Hd He Hc Hn Hu Hst Hf Hv' Hp' S. pose proof (added_keyed v rows p S Hf) as HK.
  assert (is_published (v_Status v) = false) as Hp by (by rewrite Hd).
  assert (forall k o, versions p' !! k = Some o -> k = v_ID v /\ o = v \/ k <> v_ID v /\ versions p !! k = Some o) as Hcase.
  { intros k o. rewrite Hv', lookup_insert_Some. naive_solver. }
  split.
  - constructor.
    + intros k o [[-> ->]|[_ ?]]%Hcase; [done|]. by eapply s_key.
    + by rewrite Hp'.
    + intros k o [[-> ->]|[_ ?]]%Hcase; [done|]. by eapply s_check.
    + intros k k' o o' [[-> ->]|[? Ho]]%Hcase [[-> ->]|[? Ho']]%Hcase Hs Hno; try done.
      * by destruct (Hu _ _ Ho').
      * by destruct (Hu _ _ Ho).
      * by eapply (s_number _ S).
    + intros k k' o o' [[-> ->]|[? Ho]]%Hcase [[-> ->]|[? Ho']]%Hcase Hne Hs P1 P2; try congruence.
      by eapply (s_disjoint _ S).
    + intros k r. rewrite Hp', (added_lookup v) by done. intros [Hr|[Hr _]].
      * destruct (s_row _ S _ _ Hr) as (? & o & Ho & ?). split; [done|]. exists o. split; [|done].
        rewrite Hv', lookup_insert_ne by congruence. done.
      * destruct (fresh_rows_version _ _ _ _ Hf Hr) as (Hid & Hs & ?). split; [done|]. exists v.
        rewrite Hid, Hv', lookup_insert_eq. done.
    + rewrite Hp'. apply (added_unique v); [|done]. exact (s_unique _ S).
    + intros k r. rewrite Hp', (added_lookup v) by done. intros [Hr|[Hr _]]; [by eapply s_amount|].
      by eapply stored_amount.
  - intros id o Ho. exists o. rewrite Hv', lookup_insert_ne by congruence. split; [done|].
    unfold kept. split_and!; auto.
    apply (added_keeps p v rows); [done|done|done|by exists o|done|by rewrite Hp'].
Qed.

Lemma update_sound p p' old status to : let new := with_status status to old in
  versions p !! v_ID old = Some old ->
  (v_Status old = StatusDraft /\ status = StatusActive /\ to = v_EffectiveTo old
   \/ v_Status old = StatusActive /\ status = StatusRetired /\ is_Some to) ->
  interval_ok new p = true -> identity_kept old new = true -> version_check new = true ->
  versions p' = <[v_ID old := new]> (versions p) -> prices p' = prices p ->
  sound p -> sound p' /\ keeps p p'.
Proof.
  intros new Ho Hst Hi Hk Hc Hv' Hp' S.
  assert (is_published status = true) as Hpn by (destruct Hst as [(_ & -> & _)|(_ & -> & _)]; done).
  pose proof (interval_ok_spec _ _ (s_key _ S) Hi Hpn) as Hov.
  assert (forall k o, versions p' !! k = Some o ->
    k = v_ID old /\ o = new \/ k <> v_ID old /\ versions p !! k = Some o) as Hcase.
  { intros k o. rewrite Hv', lookup_insert_Some. naive_solver. }
  assert (forall k, version_prices k p' = version_prices k p) as Hvp.
  { intros k. unfold version_prices. by rewrite Hp'. }
  split.
  - constructor.
    + intros k o [[-> ->]|[_ ?]]%Hcase; [done|]. by eapply s_key.
    + rewrite Hp'. apply S.
    + intros k o [[-> ->]|[_ ?]]%Hcase; [|by eapply s_check]. split; [done|]. by apply (s_check _ S _ _ Ho).
    + intros k k' o o' [[-> ->]|[? Q1]]%Hcase [[-> ->]|[? Q2]]%Hcase Hs Hno; try done.
      * by apply (s_number _ S _ _ _ _ Ho Q2).
      * by apply (s_number _ S _ _ _ _ Q1 Ho).
      * by eapply (s_number _ S).
    + intros k k' o o' [[-> ->]|[? Q1]]%Hcase [[-> ->]|[? Q2]]%Hcase Hne Hs P1 P2; try done.
      * rewrite overlap_sym. by eapply Hov.
      * by eapply Hov.
      * by eapply (s_disjoint _ S _ _ _ _ Q1 Q2).
    + rewrite Hp'. intros k r Hr. destruct (s_row _ S _ _ Hr) as (? & o & Hro & ?). split; [done|].
      rewrite Hv'. destruct (decide (mp_VersionID r = v_ID old)) as [Heq|Hne].
      * exists new. rewrite Heq, lookup_insert_eq. split; [done|]. rewrite Heq, Ho in Hro. by injection Hro as <-.
      * exists o. by rewrite lookup_insert_ne.
    + rewrite Hp'. apply S.
    + rewrite Hp'. apply S.
  - intros id o Hid. destruct (decide (id = v_ID old)) as [->|Hne]; [|].
    + rewrite Ho in Hid. injection Hid as <-. exists new. rewrite Hv', lookup_insert_eq. split; [done|].
      unfold kept. rewrite Hvp. split_and!; try done.
      * intros Hr. destruct Hst as [(Hd & _)|(Ha & Hs & _)]; [by rewrite Hr in Hd|exact Hs].
      * intros t Ht. destruct Hst as [(_ & _ & ->)|(Ha & -> & _)]; [done|].
        unfold identity_kept in Hk. rewrite Ha, Ht in Hk. simpl in Hk. rewrite !andb_true_iff in Hk.
        destruct Hk as [_ Hk]. unfold new. simpl. destruct to as [t'|]; [|done]. simpl in Hk. by apply Z.eqb_eq in Hk as ->.
    + exists o. rewrite Hv', lookup_insert_ne by done. split; [done|]. unfold kept. rewrite Hvp. by split_and!.
Qed.

Lemma change_sound p p' : change p p' -> sound p -> sound p' /\ keeps p p'.
Proof.
  intros [Hv Hp|v es rows|old status to new] S.
  - destruct p as [v r a], p' as [v' r' a']. simpl in *. subst. split; [by destruct S; constructor|].
    intros id o Ho. exists o. split; [done|]. unfold kept. by split_and!.
  - by eapply create_sound.
  - by eapply (update_sound p p' old status to).
Qed.

(** ** Reading after later transactions *)
Lemma scan_entries_perm rows rows' es : rows ≡ₚ rows' -> scan_entries rows = Ok es ->
  exists es', scan_entries rows' = Ok es' /\ es' ≡ₚ es.
Proof.
  intros HP. revert es. induction HP as [|r l l' _ IH|r r' l|l1 l2 l3 _ IH1 _ IH2]; intros es; cbn [scan_entries].
  - intros [= <-]. by exists [].
  - intros (e & He & (es1 & H1 & [= <-])%result_bind_ok)%result_bind_ok.
    destruct (IH _ H1) as (es2 & -> & HP2). rewrite He. exists (e :: es2). split; [done|]. by constructor.
  - intros (e & He & (es1 & (e' & He' & (es2 & H2 & [= <-])%result_bind_ok)%result_bind_ok & [= <-])%result_bind_ok)%result_bind_ok.
    rewrite He, He', H2. exists (e' :: e :: es2). split; [done|]. constructor.
  - intros (es2 & H2 & HP2)%IH1. destruct (IH2 _ H2) as (es3 & H3 & HP3). exists es3. split; [done|]. by etrans.
Qed.

Lemma getVersion_kept p p' id row row' full : keyed p -> versions p !! id = Some row ->
  versions p' !! id = Some row' -> kept p p' id row row' -> getVersion id p = Ok full ->
  exists full', getVersion id p' = Ok full' /\ v_Prices full' ≡ₚ v_Prices full
    /\ full' = with_entries row' (v_Prices full').
Proof.
  intros HK Hr Hr' (Hid & _ & _ & _ & _ & _ & _ & _ & _ & _ & _ & HP) Hg.
  apply getVersion_row in Hg as (row0 & Hrow0 & _ & _ & es & Hes & ->). rewrite Hr in Hrow0. injection Hrow0 as <-.
  rewrite (HK _ _ Hr) in Hes, Hid. symmetry in HP. destruct (scan_entries_perm _ _ _ HP Hes) as (es' & He' & HP').
  exists (with_entries row' es'). unfold getVersion, loadEntries. rewrite Hr', Hid, He'. done.
Qed.

Lemma publishable_perm v v' : v_Prices v' ≡ₚ v_Prices v -> publishable v = true -> publishable v' = true.
Proof.
  intros HP. rewrite !PricingProofs.publishable_iff_completely_priced.
  unfold PricingProofs.completely_priced. intros [Hn Hc]. split.
  - intros E. rewrite E in HP. symmetry in HP. by apply Permutation_nil_r in HP.
  - intros t. setoid_rewrite HP. apply Hc.
Qed.

(** Published bundles are complete. *)
Definition on_sale (p : PriceDB) : Prop := forall id v, versions p !! id = Some v -> is_published (v_Status v) = true ->
  exists full, getVersion id p = Ok full /\ publishable full = true.

Lemma on_sale_change p p' : change p p' -> sound p -> on_sale p -> on_sale p'.
Proof.
  intros C S HS id v' Hv' Hp. destruct (change_sound _ _ C S) as [S' K].
  assert (exists v, versions p !! id = Some v /\
    exists full, getVersion id p = Ok full /\ publishable full = true) as (v & Hv & full & Hg & Hpub).
  { destruct C as [Hvs _|v es rows Hd _ _ _ _ _ _ Hvs _|old status to new Ho Hst Hfull _ _ _ Hvs _];
      rewrite Hvs in Hv'.
    - exists v'. split; [done|]. by apply (HS _ v').
    - apply lookup_insert_Some in Hv' as [[<- <-]|[_ ?]]; [by rewrite Hd in Hp|]. exists v'. split; [done|].
      by apply (HS _ v').
    - apply lookup_insert_Some in Hv' as [[<- <-]|[_ ?]]; [|exists v'; split; [done|]; by apply (HS _ v')].
      exists old. split; [done|]. destruct Hst as [(Hd & _)|(Ha & _)]; [by apply Hfull|].
      apply (HS _ old); [done|]. by rewrite Ha. }
  destruct (K _ _ Hv) as (v1 & Hv1 & Hk). rewrite Hv' in Hv1. injection Hv1 as <-.
  destruct (getVersion_kept _ _ _ _ _ _ (s_key _ S) Hv Hv' Hk Hg) as (full' & Hg' & HP & _).
  exists full'. split; [done|]. by eapply publishable_perm.
Qed.
End effects.
End PricingHistory.
