(* ===== verification/PricingTheorems.v ===== *)
(** * Properties of the price tables

    Histories of administrator calls: published bundles are complete, never overlap and
    never change; a resolved snapshot holds the published prices; the amounts of a draft
    come back as they were entered. *)

From stdpp Require Import base gmap strings list sorting relations.
From Stdlib Require Import ZArith Lia Ascii String.
From S2P Require Import Prelude GoLib Pricing BillingModel Money MoneyProofs PricingRepo PricingHistory.

Module PricingTheorems.
Import Pricing PricingRepo PricingHistory.

Section histories.
Context `{UuidText, PriceGuards}.

(** ** Histories *)
(** [q] is the state a call of Activate checks, [q1] the one its transaction starts from. *)
Inductive history : PriceDB -> PriceDB -> Prop :=
| history_refl p : history p p
| history_create p q q' ids actor input requestID r :
    history p q -> Service_Create ids actor input requestID q = (q', r) -> history p q'
| history_activate p q q1 q' ids actor versionID requestID r :
    history p q -> history q q1 ->
    Service_Activate (fun _ => q1) ids actor versionID requestID q = (q', r) -> history p q'
| history_retire p q q' ids actor versionID retiredAt now requestID r :
    history p q -> Service_Retire ids actor versionID retiredAt now requestID q = (q', r) -> history p q'.

Lemma run_pricing_ok {A} ids (m : ptx A) p p' r : run_pricing ids m p = (p', r) ->
  p' = p \/ exists s a, m (ids, p) = Ok (s, a) /\ p' = s.2 /\ r = Ok a.
Proof.
  unfold run_pricing. destruct (m (ids, p)) as [[[rest q] a]|e]; intros [= <- <-]; [|by left].
  right. by exists (rest, q), a.
Qed.

Lemma Service_Create_ok ids actor input req p p' r : Service_Create ids actor input req p = (p', r) ->
  p' = p /\ is_ok r = false
  \/ exists vid ids' n s v, ids = vid :: ids' /\ validateCreate input = Ok n
       /\ create actor vid n req (ids', p) = Ok (s, v) /\ p' = s.2 /\ r = Ok v.
Proof.
  unfold Service_Create. destruct (uuid_eqb _ _); [intros [= <- <-]; by left|].
  destruct (validateCreate input) as [n|e]; [|intros [= <- <-]; by left].
  destruct ids as [|vid ids]; [intros [= <- <-]; by left|].
  unfold run_pricing. destruct (create _ _ _ _ _) as [[[rest q] a]|e] eqn:E; intros [= <- <-]; [|by left].
  right. by exists vid, ids, n, (rest, q), a.
Qed.

Lemma change_refl p : change p p.
Proof. by apply change_none. Qed.

Lemma publishable_kept p q id : keeps p q -> keyed p -> (exists full, getVersion id p = Ok full /\ publishable full = true) ->
  forall full, getVersion id q = Ok full -> publishable full = true.
Proof.
  intros K HK (full & Hg & Hp) full1 Hg1. pose proof Hg as Hrow.
  apply getVersion_row in Hrow as (row & Hr & _). destruct (K _ _ Hr) as (row' & Hr' & Hk).
  destruct (getVersion_kept _ _ _ _ _ _ HK Hr Hr' Hk Hg) as (full2 & Hg2 & HP & _).
  rewrite Hg1 in Hg2. injection Hg2 as <-. by eapply publishable_perm.
Qed.

Lemma Service_Create_change ids actor input req p p' r : sound p ->
  Service_Create ids actor input req p = (p', r) -> change p p'.
Proof.
  intros S [[-> _]|(vid & ids' & n & s & v & -> & _ & Hc & -> & _)]%Service_Create_ok; [apply change_refl|].
  by apply (create_ok _ _ _ _ _ _ _ _ (s_key _ S)) in Hc as [? _].
Qed.

Lemma Service_Retire_change ids actor vid at_ now req p p' r : sound p ->
  Service_Retire ids actor vid at_ now req p = (p', r) -> change p p'.
Proof.
  intros S. unfold Service_Retire. destruct (_ || _); [intros [= <- <-]; apply change_refl|].
  intros [->|(s & a & Hm & -> & _)]%run_pricing_ok; [apply change_refl|].
  by apply (retire_ok _ _ _ _ _ _ _ _ (s_key _ S)) in Hm as [? _].
Qed.

(** What is left of the state the check saw, or a change of the state the transaction found. *)
Lemma Service_Activate_change ids actor vid req p q p' r : sound p -> sound q -> keeps p q ->
  Service_Activate (fun _ => q) ids actor vid req p = (p', r) -> p' = p \/ change q p'.
Proof.
  intros S Sq K. unfold Service_Activate. destruct (_ || _); [intros [= <- <-]; by left|].
  destruct (getVersion vid p) as [version|e] eqn:Hg; [|intros [= <- <-]; by left].
  destruct (String.eqb _ _); [intros [= <- <-]; by left|].
  destruct (_ || negb (publishable version)) eqn:Hp; [intros [= <- <-]; by left|].
  apply orb_false_iff in Hp as [_ Hp%negb_false_iff].
  intros [->|(s & a & Hm & -> & _)]%run_pricing_ok; right; [apply change_refl|].
  apply activate_ok in Hm as [? _]; [done|apply Sq|].
  intros full Hf _. apply (publishable_kept p q vid K (s_key _ S)); [|done]. by exists version.
Qed.

Lemma history_sound p q : history p q -> sound p -> on_sale p -> sound q /\ on_sale q /\ keeps p q.
Proof.
  assert (forall p q q', (sound q /\ on_sale q /\ keeps p q) -> change q q' -> sound q' /\ on_sale q' /\ keeps p q') as Hstep.
  { intros p0 q0 q1 (S & O & K) C. destruct (change_sound _ _ C S) as [S' K'].
    split_and!; [done|by eapply on_sale_change|by eapply keeps_trans]. }
  induction 1 as [p|p q q' ids actor input req r _ IH Hc|p q q1 q' ids actor vid req r _ IH1 _ IH2 Hc
                 |p q q' ids actor vid at_ now req r _ IH Hc]; intros S O.
  - split_and!; [done|done|apply keeps_refl].
  - specialize (IH S O) as IH'. apply (Hstep p q); [done|]. by eapply Service_Create_change; [apply IH'|].
  - destruct (IH1 S O) as (S1 & O1 & K1). destruct (IH2 S1 O1) as (S2 & O2 & K2).
    destruct (Service_Activate_change _ _ _ _ _ _ _ _ S1 S2 K2 Hc) as [->|C]; [done|].
    apply (Hstep p q1); [|done]. split_and!; [done|done|by eapply keeps_trans].
  - specialize (IH S O) as IH'. apply (Hstep p q); [done|]. by eapply Service_Retire_change; [apply IH'|].
Qed.

(** An empty database. *)
Definition no_prices : PriceDB := mkPriceDB ∅ ∅ [].
Lemma no_prices_sound : sound no_prices /\ on_sale no_prices.
Proof. split; [constructor|]; repeat intro; simpl in *; by simplify_map_eq. Qed.

Lemma reachable_sound p : history no_prices p -> sound p /\ on_sale p.
Proof. intros Hh. destruct no_prices_sound. by destruct (history_sound _ _ Hh) as (? & ? & _). Qed.

(** ** What is published *)
Lemma covers_overlap a b at_ : covers at_ a = true -> covers at_ b = true -> ranges_overlap a b = true.
Proof.
  unfold covers, ranges_overlap, starts_before. rewrite !andb_true_iff, !Z.leb_le.
  intros [? Ha] [? Hb]. split; [destruct (v_EffectiveTo b)|destruct (v_EffectiveTo a)]; try done;
    rewrite ?Z.ltb_lt in *; lia.
Qed.

(** C21: after any sequence of administrator calls, whatever they interleave with, every
    published bundle is complete, and at any instant at most one published bundle of a
    scope is in force. *)
Theorem published_prices_never_overlap p : history no_prices p ->
  (forall id v, versions p !! id = Some v -> is_published (v_Status v) = true ->
     exists full, getVersion id p = Ok full /\ publishable full = true)
  /\ (forall id id' v v' at_, versions p !! id = Some v -> versions p !! id' = Some v' ->
       v_Scope v = v_Scope v' -> is_published (v_Status v) = true -> is_published (v_Status v') = true ->
       covers at_ v = true -> covers at_ v' = true -> id = id').
Proof.
  intros [S O]%reachable_sound. split; [exact O|].
  intros id id' v v' at_ Hv Hv' Hs Hp Hp' Hc Hc'. destruct (decide (id = id')) as [|Hne]; [done|].
  pose proof (s_disjoint _ S _ _ _ _ Hv Hv' Hne Hs Hp Hp') as Hd.
  by rewrite (covers_overlap _ _ _ Hc Hc') in Hd.
Qed.

(** whatever happens after a bundle is published, it keeps its scope, number, currency,
    start and prices, is never a draft again, and an end that was set does not move. *)
Theorem published_bundles_are_immutable p q id v : history no_prices p -> history p q ->
  getVersion id p = Ok v -> is_published (v_Status v) = true ->
  exists v', getVersion id q = Ok v' /\ is_published (v_Status v') = true
    /\ v_Scope v' = v_Scope v /\ v_VersionNo v' = v_VersionNo v /\ v_Currency v' = v_Currency v
    /\ v_EffectiveFrom v' = v_EffectiveFrom v /\ v_CreatedBy v' = v_CreatedBy v
    /\ (forall t, v_EffectiveTo v = Some t -> v_EffectiveTo v' = Some t)
    /\ (v_Status v = StatusRetired -> v_Status v' = StatusRetired)
    /\ v_Prices v' ≡ₚ v_Prices v.
Proof.
  intros [S O]%reachable_sound Hh Hg Hp. destruct (history_sound _ _ Hh S O) as (_ & _ & K).
  pose proof Hg as Hrow. apply getVersion_row in Hrow as (row & Hr & _ & _ & es & _ & ->).
  destruct (K _ _ Hr) as (row' & Hr' & Hk).
  destruct (getVersion_kept _ _ _ _ _ _ (s_key _ S) Hr Hr' Hk Hg) as (full & Hf & HP & Heq).
  exists full. split; [done|]. rewrite Heq. destruct Hk as (K1 & K2 & K3 & K4 & K5 & K6 & K7 & K8 & K9 & K10 & K11 & _).
  simpl in *. split_and!; auto.
Qed.

(** ** Resolution *)
Definition price_row_for (p : PriceDB) (scope : string) (model providerModel : uuid) (v : Version) (d : string)
    (amount : Z) : Prop :=
  exists k r, prices p !! k = Some r /\ mp_VersionID r = v_ID v /\ of_target scope model providerModel r = true
    /\ mp_Dimension r = d /\ mp_UnitPrice r = amount.

(** The snapshot of a version: each price is the amount of its row. *)
Definition snapshot_of (p : PriceDB) (scope : string) (model providerModel : uuid) (v : Version) (s : Snapshot) : Prop :=
  s_VersionID s = v_ID v /\ s_Scope s = scope /\ s_Currency s = v_Currency v
  /\ s_EffectiveFrom s = v_EffectiveFrom v /\ s_Free s = false /\ MoneyProofs.prices_ok (s_Prices s)
  /\ forall d amount, (exists text, s_Prices s !! d = Some text /\ Money.parseScaledPrice text = Ok amount)
       <-> price_row_for p scope model providerModel v d amount.

(** The scopes in their order: the first one with a bundle in force decides. *)
Inductive resolution (p : PriceDB) (required : list string) (model providerModel : uuid) (at_ : time)
  : list string -> result error Snapshot -> Prop :=
| resolution_none : resolution p required model providerModel at_ [] (Err ErrPriceMissing)
| resolution_skip scope scopes r :
    (forall id v, versions p !! id = Some v -> resolvable scope model providerModel at_ p v = false) ->
    resolution p required model providerModel at_ scopes r ->
    resolution p required model providerModel at_ (scope :: scopes) r
| resolution_priced scope scopes v s :
    versions p !! v_ID v = Some v -> resolvable scope model providerModel at_ p v = true ->
    snapshot_of p scope model providerModel v s ->
    (forall d, d ∈ required -> exists amount, price_row_for p scope model providerModel v d amount) ->
    resolution p required model providerModel at_ (scope :: scopes) (Ok s)
| resolution_incomplete scope scopes v d :
    versions p !! v_ID v = Some v -> resolvable scope model providerModel at_ p v = true ->
    d ∈ required -> (forall amount, ~ price_row_for p scope model providerModel v d amount) ->
    resolution p required model providerModel at_ (scope :: scopes) (Err ErrPriceMissing).

Lemma price_map_ok rows :
  (forall r, r ∈ rows -> 0 <= mp_UnitPrice r < 10 ^ 30) ->
  (forall r r', r ∈ rows -> r' ∈ rows -> mp_Dimension r = mp_Dimension r' -> r = r') ->
  exists m, price_map rows = Ok m /\ MoneyProofs.prices_ok m
    /\ forall d amount, (exists text, m !! d = Some text /\ Money.parseScaledPrice text = Ok amount)
         <-> exists r, r ∈ rows /\ mp_Dimension r = d /\ mp_UnitPrice r = amount.
Proof.
  induction rows as [|x rows IH]; intros Ha Hu; cbn [price_map].
  { exists ∅. split_and!; [done|by intros d t|]. intros d amount. split; [by intros (t & ? & _)|].
    by intros (r & ?%elem_of_nil & _). }
  destruct IH as (m & -> & Hok & Hm).
  { intros r Hr. apply Ha. by constructor. }
  { intros r r' Hr Hr'. apply Hu; by constructor. }
  destruct (PricingNumeric.numeric_text_ok (mp_UnitPrice x)) as (t & -> & Ht); [apply Ha; by constructor|].
  cbn. exists (<[mp_Dimension x := t]> m). split; [done|]. split.
  { intros d text [[<- <-]|[_ ?]]%lookup_insert_Some; [by rewrite Ht|by eapply Hok]. }
  intros d amount. destruct (decide (mp_Dimension x = d)) as [<-|Hd].
  - rewrite lookup_insert_eq. split.
    + intros (text & [= <-] & Hp). rewrite Ht in Hp. injection Hp as <-. exists x. split_and!; [by constructor|done|done].
    + intros (r & Hr & Hrd & <-). exists t. split; [done|].
      rewrite (Hu r x); [done|done|by constructor|done].
  - rewrite lookup_insert_ne by done. rewrite Hm. setoid_rewrite elem_of_cons. naive_solver.
Qed.

Lemma elem_of_values {A} (m : gmap uuid A) (f : A -> bool) a :
  a ∈ List.filter f (map_to_list m).*2 <-> exists k, m !! k = Some a /\ f a = true.
Proof.
  rewrite list_elem_of_In, filter_In, <- list_elem_of_In, list_elem_of_fmap. split.
  - intros [([k x] & -> & ?%elem_of_map_to_list) ?]. by exists k.
  - intros (k & Hk & ?). split; [|done]. exists (k, a). split; [done|]. by apply elem_of_map_to_list.
Qed.

Lemma elem_of_target_prices vid scope model pm p r : r ∈ target_prices vid scope model pm p <->
  exists k, prices p !! k = Some r /\ mp_VersionID r = vid /\ of_target scope model pm r = true.
Proof. unfold target_prices. rewrite elem_of_values. setoid_rewrite andb_true_iff. by setoid_rewrite uuid_eqb_eq. Qed.

(** Two rows of a target with one dimension are one row. *)
Lemma target_prices_functional p v scope model pm r r' : sound p -> v_Scope v = scope ->
  versions p !! v_ID v = Some v -> r ∈ target_prices (v_ID v) scope model pm p ->
  r' ∈ target_prices (v_ID v) scope model pm p -> mp_Dimension r = mp_Dimension r' -> r = r'.
Proof.
  intros S Hs Hv (k & Hk & Hid & Ht)%elem_of_target_prices (k' & Hk' & Hid' & Ht')%elem_of_target_prices Hd.
  destruct (s_row _ S _ _ Hk) as (_ & w & Hw & Hws). destruct (s_row _ S _ _ Hk') as (_ & w' & Hw' & Hws').
  rewrite Hid, Hv in Hw. rewrite Hid', Hv in Hw'. injection Hw as <-. injection Hw' as <-.
  assert (k = k') as <-; [|by rewrite Hk in Hk'; injection Hk'].
  apply (s_unique _ S _ _ _ _ Hk Hk'). unfold same_price_key.
  rewrite !andb_true_iff, !uuid_eqb_eq, !String.eqb_eq, !opt_uuid_eqb_eq.
  unfold of_target in Ht, Ht'. destruct (String.eqb scope ScopeGlobal); [|destruct (String.eqb scope ScopeModel)];
    rewrite ?andb_true_iff, ?opt_uuid_eqb_eq in Ht, Ht'; destruct_and!; split_and!; congruence.
Qed.

Lemma forallb_false_ex {A} (f : A -> bool) l : forallb f l = false -> exists x, x ∈ l /\ f x = false.
Proof.
  induction l as [|x l IH]; simpl; [done|]. rewrite andb_false_iff. intros [?|(y & ? & ?)%IH].
  - exists x. split; [by constructor|done].
  - exists y. split; [by constructor|done].
Qed.

Lemma resolved_version_spec scope model pm at_ p :
  match resolved_version scope model pm at_ p with
  | Some v => exists id, versions p !! id = Some v /\ resolvable scope model pm at_ p v = true
  | None => forall id v, versions p !! id = Some v -> resolvable scope model pm at_ p v = false
  end.
Proof.
  unfold resolved_version. set (l := List.filter _ _).
  pose proof (merge_sort_Permutation newer_version l) as HP.
  destruct (merge_sort newer_version l) as [|v vs]; simpl.
  - apply Permutation_nil_l in HP. intros id v Hv. apply not_true_iff_false. intros Hr.
    assert (v ∈ l) as Hin by (apply elem_of_values; by exists id). rewrite <- HP in Hin. by apply elem_of_nil in Hin.
  - apply (elem_of_values (versions p)). change (v ∈ l). rewrite <- HP. by constructor.
Qed.

Lemma resolve_spec scope model pm at_ p : sound p ->
  (resolve scope model pm at_ p = Ok None
   /\ forall id v, versions p !! id = Some v -> resolvable scope model pm (pg_time at_) p v = false)
  \/ exists v s, resolve scope model pm at_ p = Ok (Some s) /\ versions p !! v_ID v = Some v
       /\ resolvable scope model pm (pg_time at_) p v = true /\ snapshot_of p scope model pm v s.
Proof.
  intros S. unfold resolve. pose proof (resolved_version_spec scope model pm (pg_time at_) p) as Hr.
  destruct (resolved_version _ _ _ _ _) as [v|]; [|by left]. right. destruct Hr as (id & Hv & Hr).
  assert (versions p !! v_ID v = Some v) as Hv' by (by rewrite (s_key _ S _ _ Hv)).
  assert (v_Scope v = scope) as Hs.
  { unfold resolvable in Hr. rewrite !andb_true_iff, String.eqb_eq in Hr. by destruct_and!. }
  destruct (price_map_ok (target_prices (v_ID v) scope model pm p)) as (m & -> & Hok & Hm).
  { intros r (k & Hk & _)%elem_of_target_prices. by eapply s_amount. }
  { intros r r'. by apply target_prices_functional. }
  cbn. eexists v, _. split_and!; [reflexivity|done|done|]. unfold snapshot_of. simpl. split_and!; try done.
  intros d amount. rewrite Hm. unfold price_row_for. setoid_rewrite elem_of_target_prices. naive_solver.
Qed.

(** C22: an enabled, priced model is charged by the first scope (provider model, model,
    global) that has a published bundle in force for it: exactly the amounts of that
    bundle's rows, and an error when that bundle lacks a required dimension or no scope has
    a bundle. *)
Theorem resolution_follows_precedence p model providerModel at_ now class : history no_prices p ->
  model <> uuid_nil -> providerModel <> Some uuid_nil -> billing_class model = Some class ->
  class <> BillingDisabled -> class <> BillingFree ->
  resolution p (required_dimensions class) model (default uuid_nil providerModel)
    (pg_time (if IsZero at_ then now else at_)) (lookup_scopes providerModel)
    (ResolveSnapshot model providerModel at_ now p).
Proof.
  intros [S _]%reachable_sound Hm Hpm Hc Hd Hf. unfold ResolveSnapshot.
  apply uuid_eqb_neq in Hm as ->. apply String.eqb_neq in Hd, Hf. rewrite Hc, Hd, Hf.
  assert (match providerModel with Some u => uuid_eqb u uuid_nil | None => false end = false) as ->.
  { destruct providerModel as [u|]; [|done]. apply uuid_eqb_neq. congruence. }
  cbn [orb]. induction (lookup_scopes providerModel) as [|scope scopes IH]; [constructor|]. cbn [resolve_scopes].
  destruct (resolve_spec scope model (default uuid_nil providerModel) (if IsZero at_ then now else at_) p S)
    as [[-> Hn]|(v & s & -> & Hv & Hr & Hs)]; cbn; [by apply resolution_skip|].
  destruct (forallb _ _) eqn:Hreq.
  - apply (resolution_priced _ _ _ _ _ _ _ v); [done..|]. intros d Hin. rewrite forallb_forall in Hreq.
    apply list_elem_of_In, Hreq, bool_decide_eq_true in Hin as [text Ht]. destruct Hs as (_ & _ & _ & _ & _ & Hok & Hs).
    pose proof (Hok _ _ Ht) as Ha. destruct (Money.parseScaledPrice text) as [amount|] eqn:E; [|done].
    exists amount. apply Hs. by exists text.
  - apply forallb_false_ex in Hreq as (d & Hin & Hreq%bool_decide_eq_false).
    apply (resolution_incomplete _ _ _ _ _ _ _ v d); [done..|]. intros amount Hrow.
    destruct Hs as (_ & _ & _ & _ & _ & _ & Hs). apply Hs in Hrow as (text & Ht & _).
    apply Hreq. by eexists.
Qed.

(** ** A draft *)
(** [e] carries the target and the amount of the input [i]. *)
Definition entered (scope : string) (i : EntryInput) (e : Entry) : Prop :=
  e_PricingScope e = scope /\ e_ModelID e = ei_ModelID i /\ e_ProviderModelID e = ei_ProviderModelID i
  /\ e_Dimension e = ei_Dimension i
  /\ exists amount, Money.parseScaledPrice (ei_UnitPrice i) = Ok amount
       /\ Money.parseScaledPrice (e_UnitPrice e) = Ok amount.

Lemma scan_stored vid scope is_ rows : stored vid scope is_ rows ->
  exists es, scan_entries rows = Ok es /\ Forall2 (entered scope) is_ es.
Proof.
  induction 1 as [|id amount i is_ rows Ha Hs (es & He & IH)]; [by exists []|].
  unfold numeric_of in Ha. destruct (Money.parseScaledPrice (ei_UnitPrice i)) as [x|] eqn:E; [|done].
  injection Ha as ->. destruct (PricingNumeric.numeric_text_ok amount) as (t & Hn & Ht).
  { by eapply MoneyProofs.parseScaledPrice_range. }
  cbn [scan_entries]. unfold scan_entry. simpl mp_UnitPrice. rewrite Hn. cbn. rewrite He. cbn.
  eexists. split; [reflexivity|]. constructor; [|done]. unfold entered. simpl. split_and!; try done. by exists amount.
Qed.

Lemma fresh_rows_NoDup v rows m : fresh_rows v rows m ->
  NoDup rows /\ forall r, r ∈ rows -> m !! mp_ID r = None.
Proof.
  revert m. induction rows as [|x rows IH]; intros m Hf.
  { split; [constructor|]. by intros r ?%elem_of_nil. }
  destruct Hf as (_ & Hn & _ & _ & _ & Hf). destruct (IH _ Hf) as [Hd Hm]. split.
  - constructor; [|done]. intros Hx%Hm. by rewrite lookup_insert_eq in Hx.
  - intros r [->|Hr%Hm]%elem_of_cons; [done|]. by apply lookup_insert_None in Hr as [? _].
Qed.

Lemma created_rows p p' v rows : sound p -> versions p !! v_ID v = None -> fresh_rows v rows (prices p) ->
  prices p' = added rows (prices p) -> version_prices (v_ID v) p' ≡ₚ rows.
Proof.
  intros S Hn Hf Hp'. destruct (fresh_rows_NoDup _ _ _ Hf) as [Hd _]. apply NoDup_Permutation; [|done|].
  - apply version_prices_NoDup. rewrite Hp'. by apply (added_keyed v).
  - intros r. rewrite elem_of_version_prices, Hp'. setoid_rewrite (added_lookup v); [|done]. split.
    + intros [[k [Hk|[? _]]] Hid]; [|done]. destruct (s_row _ S _ _ Hk) as (_ & w & Hw & _). congruence.
    + intros Hr. destruct (fresh_rows_version _ _ _ _ Hf Hr) as (? & _). split; [|done]. exists (mp_ID r). by right.
Qed.

Lemma next_version_no_spec scope p k w : versions p !! k = Some w -> v_Scope w = scope ->
  v_VersionNo w < next_version_no scope p.
Proof.
  intros Hk Hs. unfold next_version_no. apply elem_of_map_to_list in Hk.
  induction (map_to_list (versions p)) as [|[k' o] l IH]; [by apply elem_of_nil in Hk|]. simpl.
  apply elem_of_cons in Hk as [[= <- <-]|Hk].
  - apply String.eqb_eq in Hs as ->. lia.
  - specialize (IH Hk). destruct (String.eqb _ _); lia.
Qed.

(** a successful Create stores the validated bundle as a draft with the next number of
    its scope, and reads every entry back with the target and the exact amount that was
    entered. *)
Theorem created_bundle_is_what_was_entered ids actor input requestID p p' v : history no_prices p ->
  Service_Create ids actor input requestID p = (p', Ok v) ->
  exists n es, validateCreate input = Ok n /\ v_Prices v ≡ₚ es /\ Forall2 (entered (ci_Scope n)) (ci_Prices n) es
    /\ v_Status v = StatusDraft /\ v_Scope v = ci_Scope n /\ v_Currency v = ci_Currency n
    /\ v_EffectiveFrom v = pg_time (ci_EffectiveFrom n) /\ v_EffectiveTo v = pg_time <$> ci_EffectiveTo n
    /\ v_CreatedBy v = actor /\ getVersion (v_ID v) p' = Ok v
    /\ (forall id w, versions p !! id = Some w -> v_Scope w = v_Scope v -> v_VersionNo w < v_VersionNo v).
Proof.
  intros [S _]%reachable_sound [[_ Hf]|(vid & ids' & n & s & v' & -> & Hn & Hc & -> & [= <-])]%Service_Create_ok; [done|].
  apply (create_ok _ _ _ _ _ _ _ _ (s_key _ S)) in Hc as (_ & row & rows & Hrow & Hst & Hvs & Hps & Hfr & Hnone & Hg).
  assert (v_ID row = vid) as Hid by (by rewrite Hrow).
  destruct (scan_stored _ _ _ _ Hst) as (es & Hes & HF). rewrite <- Hid in Hnone, Hvs.
  pose proof (created_rows _ _ _ _ S Hnone Hfr Hps) as HP. symmetry in HP.
  destruct (scan_entries_perm _ _ _ HP Hes) as (es' & Hes' & HP').
  pose proof Hg as Hg'. unfold getVersion, loadEntries in Hg. rewrite <- Hid, Hvs, lookup_insert_eq, Hes' in Hg.
  injection Hg as <-. exists n, es. rewrite Hrow in *. simpl in *. split_and!; try done.
  intros id w Hw Hs. by eapply next_version_no_spec.
Qed.
End histories.
End PricingTheorems.

Module PricingDemo.
Import Pricing PricingRepo PricingHistory PricingTheorems.

(** ** A run: a global token bundle is created, published and retired *)
#[local] Instance demo_text : UuidText := PricingProofs.draft_text.
#[local] Instance calm : PriceGuards :=
  {| guard_version := fun _ => None; guard_price := fun _ => None; guard_price_audit := fun _ => None;
     billing_class := fun _ => Some BillingToken; priced_at := 5000 |}.

Definition bundle : CreateInput :=
  {| ci_Scope := "global"; ci_Currency := "usd"; ci_EffectiveFrom := 1000000; ci_EffectiveTo := None;
     ci_Prices := [ {| ei_ModelID := None; ei_ProviderModelID := None;
                       ei_Dimension := DimensionInputToken; ei_UnitPrice := " 1.50 " |};
                    {| ei_ModelID := None; ei_ProviderModelID := None;
                       ei_Dimension := DimensionOutputToken; ei_UnitPrice := "0.000000000025" |} ] |}.

Definition Create_run := Service_Create [1; 2; 3; 4]%N 9%N bundle "r1" no_prices.
Definition drafted : PriceDB := Create_run.1.
Definition Activate_run := Service_Activate (fun _ => drafted) [5]%N 9%N 1%N "r2" drafted.
Definition priced : PriceDB := Activate_run.1.
Definition Retire_run := Service_Retire [6]%N 9%N 1%N 5000000 0 "r3" priced.
Definition retired : PriceDB := Retire_run.1.
Definition nothing : Version :=
  {| v_ID := 0%N; v_Scope := ""; v_VersionNo := 0; v_Currency := ""; v_EffectiveFrom := 0; v_EffectiveTo := None;
     v_Status := ""; v_CreatedBy := 0%N; v_CreatedAt := 0; v_Prices := [] |}.
Definition version_in (r : result error Version) : Version := match r with Ok v => v | Err _ => nothing end.

Lemma drafted_reachable : history no_prices drafted.
Proof. eapply history_create; [apply history_refl|apply surjective_pairing]. Qed.
Lemma priced_reachable : history no_prices priced.
Proof. eapply history_activate; [apply drafted_reachable|apply history_refl|apply surjective_pairing]. Qed.
Lemma retired_later : history priced retired.
Proof. eapply history_retire; [apply history_refl|apply surjective_pairing]. Qed.

Example priced_texts :
  e_UnitPrice <$> v_Prices (version_in (getVersion 1%N priced)) = ["1.5"; "0.000000000025"].
Proof. vm_compute. reflexivity. Qed.
(** A second bundle over the same time cannot be published. *)
Example overlapping_publication :
  let second := (Service_Create [11; 12; 13; 14]%N 9%N bundle "r4" priced).1 in
  (Service_Activate (fun _ => second) [15]%N 9%N 11%N "r5" second).2 = Err ErrConflict.
Proof. vm_compute. reflexivity. Qed.
Example retired_price :
  ResolveSnapshot 40%N None 6000000 0 retired = Err ErrPriceMissing
  /\ is_ok (ResolveSnapshot 40%N None 4000000 0 retired) = true.
Proof. vm_compute. done. Qed.

Lemma published_prices_never_overlap_witness :
  exists full, getVersion 1%N priced = Ok full /\ publishable full = true.
Proof.
  destruct (published_prices_never_overlap priced priced_reachable) as [Hpub _].
  destruct (versions priced !! 1%N) as [v|] eqn:E; [|vm_compute in E; discriminate E].
  apply (Hpub 1%N v); [exact E|]. vm_compute in E. injection E as <-. reflexivity.
Defined.

Lemma published_bundles_are_immutable_witness :
  exists v', getVersion 1%N retired = Ok v' /\ is_published (v_Status v') = true
    /\ v_Prices v' ≡ₚ v_Prices (version_in (getVersion 1%N priced)).
Proof.
  destruct (published_bundles_are_immutable priced retired 1%N (version_in (getVersion 1%N priced)))
    as (v' & H1 & H2 & _ & _ & _ & _ & _ & _ & _ & H3).
  - exact priced_reachable.
  - exact retired_later.
  - vm_compute. reflexivity.
  - vm_compute. reflexivity.
  - exists v'. split; [exact H1|]. split; [exact H2|exact H3].
Defined.

Lemma resolution_follows_precedence_witness :
  is_ok (ResolveSnapshot 40%N (Some 41%N) 3000000 0 priced) = true
  /\ resolution priced [DimensionInputToken; DimensionOutputToken] 40%N 41%N 3000000
       [ScopeProviderModel; ScopeModel; ScopeGlobal] (ResolveSnapshot 40%N (Some 41%N) 3000000 0 priced).
Proof.
  split; [vm_compute; reflexivity|].
  apply (resolution_follows_precedence priced 40%N (Some 41%N) 3000000 0 BillingToken priced_reachable);
    vm_compute; discriminate || reflexivity.
Defined.

Lemma created_bundle_is_what_was_entered_witness :
  exists es, v_Prices (version_in Create_run.2) ≡ₚ es /\ v_Status (version_in Create_run.2) = StatusDraft.
Proof.
  destruct (created_bundle_is_what_was_entered [1; 2; 3; 4]%N 9%N bundle "r1" no_prices drafted
    (version_in Create_run.2)) as (n & es & _ & H1 & _ & H2 & _).
  - exact (history_refl _).
  - vm_compute. reflexivity.
  - exists es. split; [exact H1|exact H2].
Defined.
End PricingDemo.
