(* ===== verification/NetIP.v ===== *)
(** * Package [net/netip]

    The part of Go's standard library that reads, prints and compares IP addresses and
    prefixes, as [apikey/service.go] and [auth/http.go] use it. *)

From stdpp Require Import base strings list sets pretty.
From Stdlib Require Import ZArith Lia Ascii String.
From S2P Require Import Prelude GoLib Json.

Module NetIP.
Import Json.

(** ** Addresses *)
(** [Addr]: 32 bits, or 128 bits with a zone, empty when there is none. *)
Inductive Addr := V4 (bits : Z) | V6 (bits : Z) (zone : string).
#[export] Instance Addr_eq_dec : EqDecision Addr.
Proof. solve_decision. Defined.

Definition two32 : Z := 2 ^ 32.
Definition Is4In6 (a : Addr) : bool :=
  match a with V4 _ => false | V6 b _ => Z.shiftr b 32 =? 65535 end.
Definition Unmap (a : Addr) : Addr :=
  match a with V6 b _ => if Is4In6 a then V4 (b mod two32) else a | V4 _ => a end.
Definition BitLen (a : Addr) : Z := match a with V4 _ => 32 | V6 _ _ => 128 end.
(** The number with the given digits of [w] bits, most significant first. *)
Definition of_fields (w : Z) (l : list Z) : Z := foldl (fun acc x => acc * 2 ^ w + x) 0 l.
(** The [n] fields of [w] bits of a number. *)
Fixpoint fields_of (w : Z) (n : nat) (b : Z) (rest : list Z) : list Z :=
  match n with O => rest | S n => fields_of w n (Z.shiftr b w) (b mod 2 ^ w :: rest) end.

(** *** Parsing *)
(** [parseIPv4Fields]: the value and the number of digits of the current field, the fields
    before it, last first; [dot_ok]: a dot may follow. *)
Fixpoint v4_fields (s : string) (dot_ok : bool) (value : Z) (digits : nat) (fields : list Z) : option (list Z) :=
  match s with
  | EmptyString => if (List.length fields =? 3)%nat then Some (rev (value :: fields)) else None
  | String c t =>
      if is_digit c then
        if (digits =? 1)%nat && (value =? 0) then None else
        let value := 10 * value + (code c - 48) in
        if 255 <? value then None else v4_fields t true value (S digits) fields
      else if Ascii.eqb c "." then
        if negb dot_ok || String.eqb t "" || (3 =? List.length fields)%nat then None
        else v4_fields t false 0 0 (value :: fields)
      else None
  end.
Definition parseIPv4 (s : string) : option Addr :=
  l ← v4_fields s false 0 0 []; Some (V4 (of_fields 8 l)).

Definition hex_value (c : ascii) : option Z :=
  if is_digit c then Some (code c - 48)
  else if (97 <=? code c) && (code c <=? 102) then Some (code c - 87)
  else if (65 <=? code c) && (code c <=? 70) then Some (code c - 55)
  else None.

(** The hexadecimal number at the start, its length and the rest; at most four digits. *)
Fixpoint hex_group (s : string) (off : nat) (acc : Z) : option (Z * nat * string) :=
  match s with
  | EmptyString => Some (acc, off, s)
  | String c t =>
      match hex_value c with
      | Some d => if (3 <? off)%nat then None else hex_group t (S off) (16 * acc + d)
      | None => Some (acc, off, s)
      end
  end.

(** The loop of [parseIPv6]: the 16-bit groups so far, where the ellipsis is, and the text
    that is left; [fuel] is the number of groups that fit. *)
Fixpoint v6_groups (fuel : nat) (s : string) (groups : list Z) (ellipsis : option nat)
  : option (list Z * option nat * string) :=
  match fuel with
  | O => Some (groups, ellipsis, s)
  | S fuel' =>
      '(acc, off, rest) ← hex_group s 0 0;
      if (off =? 0)%nat then None else
      match rest with
      | String "." _ =>
          if match ellipsis with None => negb (List.length groups =? 6)%nat | Some _ => false end then None else
          if (fuel <? 2)%nat then None else
          l ← v4_fields s false 0 0 [];
          match l with
          | [a; b; c; d] => Some ((groups ++ [a * 256 + b; c * 256 + d])%list, ellipsis, "")
          | _ => None
          end
      | EmptyString => Some ((groups ++ [acc])%list, ellipsis, "")
      | String ":" EmptyString => None
      | String ":" (String c t) =>
          let groups := (groups ++ [acc])%list in
          if Ascii.eqb c ":" then
            match ellipsis with
            | Some _ => None
            | None => if String.eqb t "" then Some (groups, Some (List.length groups), "")
                      else v6_groups fuel' t groups (Some (List.length groups))
            end
          else v6_groups fuel' (String c t) groups ellipsis
      | _ => None
      end
  end.

(** Zeros for the ellipsis. *)
Definition expand (groups : list Z) (ellipsis : option nat) : option (list Z) :=
  let n := List.length groups in
  if (n <? 8)%nat then
    match ellipsis with
    | None => None
    | Some e => Some (take e groups ++ replicate (8 - n) 0 ++ drop e groups)%list
    end
  else match ellipsis with Some _ => None | None => Some groups end.

Definition v6_text (s : string) : option Z :=
  let '(s, ellipsis) := match s with String ":" (String ":" t) => (t, Some 0%nat) | _ => (s, None) end in
  if String.eqb s "" && bool_decide (is_Some ellipsis) then Some 0 else
  '(groups, ellipsis, rest) ← v6_groups 8 s [] ellipsis;
  if negb (String.eqb rest "") then None else
  l ← expand groups ellipsis;
  Some (of_fields 16 l).

(** The text before the first [b], and after it when there is one. *)
Fixpoint cut (b : ascii) (s : string) : string * option string :=
  match s with
  | EmptyString => (EmptyString, None)
  | String c t => if Ascii.eqb c b then (EmptyString, Some t)
                  else let '(x, y) := cut b t in (String c x, y)
  end.

Definition parseIPv6 (s : string) : option Addr :=
  match cut "%" s with
  | (_, Some EmptyString) => None
  | (s, zone) => b ← v6_text s; Some (V6 b (default "" zone))
  end.

(** The first of a dot, a colon and a percent sign decides. *)
Fixpoint address_kind (s : string) : option ascii :=
  match s with
  | EmptyString => None
  | String c t => if Ascii.eqb c "." || Ascii.eqb c ":" || Ascii.eqb c "%" then Some c else address_kind t
  end.
Definition ParseAddr (s : string) : option Addr :=
  match address_kind s with
  | Some "."%char => parseIPv4 s
  | Some ":"%char => parseIPv6 s
  | _ => None
  end.

(** *** Printing *)
Definition hex_digit (d : Z) : ascii := ascii_of_N (Z.to_N (if d <? 10 then 48 + d else 87 + d)).
(** [appendHex] of a 16-bit value. *)
Definition appendHex (x : Z) : string :=
  let d k := String (hex_digit (Z.shiftr x k mod 16)) in
  if 4096 <=? x then d 12 (d 8 (d 4 (d 0 "")))
  else if 256 <=? x then d 8 (d 4 (d 0 ""))
  else if 16 <=? x then d 4 (d 0 "")
  else d 0 "".
Definition string4 (b : Z) : string := Join "." (Itoa <$> fields_of 8 4 b []).

(** The length of the run of zeros at the start. *)
Fixpoint zero_run (l : list Z) : nat :=
  match l with x :: l => if x =? 0 then S (zero_run l) else 0 | [] => 0 end.
(** The first of the longest runs of two zeros or more: start and length. *)
Fixpoint longest_run (i : nat) (l : list Z) (best : nat * nat) : nat * nat :=
  match l with
  | [] => best
  | _ :: l' =>
      let n := zero_run l in
      longest_run (S i) l' (if (2 <=? n)%nat && (best.2 <? n)%nat then (i, n) else best)
  end.
Definition string6 (b : Z) : string :=
  let l := fields_of 16 8 b [] in
  let '(start, n) := longest_run 0 l (0%nat, 0%nat) in
  if (n =? 0)%nat then Join ":" (appendHex <$> l)
  else Join ":" (appendHex <$> take start l) +:+ "::" +:+ Join ":" (appendHex <$> drop (start + n) l).

Definition Addr_String (a : Addr) : string :=
  match a with
  | V4 b => string4 b
  | V6 b zone =>
      (if Is4In6 a then "::ffff:" +:+ string4 (b mod two32) else string6 b)
      +:+ (if String.eqb zone "" then "" else "%" +:+ zone)
  end.

(** ** Prefixes *)
(** [Prefix]: an address without a zone and a number of bits, -1 when it is not valid. *)
Record Prefix := { p_Addr : Addr; p_Bits : Z }.
Definition without_zone (a : Addr) : Addr := match a with V6 b _ => V6 b "" | V4 b => V4 b end.
Definition PrefixFrom (a : Addr) (bits : Z) : Prefix :=
  {| p_Addr := without_zone a; p_Bits := if (0 <=? bits) && (bits <=? BitLen a) then bits else -1 |}.

Fixpoint last_slash (s : string) : option (string * string) :=
  match s with
  | EmptyString => None
  | String c t =>
      match last_slash t with
      | Some (a, b) => Some (String c a, b)
      | None => if Ascii.eqb c "/" then Some (EmptyString, t) else None
      end
  end.
Definition has_zone (a : Addr) : bool := match a with V6 _ z => negb (String.eqb z "") | V4 _ => false end.
Definition ParsePrefix (s : string) : option Prefix :=
  '(addr, bits) ← last_slash s;
  ip ← ParseAddr addr;
  if has_zone ip then None else
  if match bits with
     | String c (String _ _) => negb ((49 <=? code c) && (code c <=? 57))
     | _ => false
     end then None else
  n ← ParseInt64 bits;
  if (n <? 0) || (BitLen ip <? n) then None else Some (PrefixFrom ip n).

(** [w - n] low bits cleared. *)
Definition clear_low (w n b : Z) : Z := Z.shiftl (Z.shiftr b (w - n)) (w - n).
(** [Masked] of a valid prefix. *)
Definition Masked (p : Prefix) : Prefix :=
  match p_Addr p with
  | V4 b => {| p_Addr := V4 (clear_low 32 (p_Bits p) b); p_Bits := p_Bits p |}
  | V6 b z => {| p_Addr := V6 (clear_low 128 (p_Bits p) b) z; p_Bits := p_Bits p |}
  end.
Definition Prefix_String (p : Prefix) : string :=
  if p_Bits p <? 0 then "invalid Prefix" else Addr_String (p_Addr p) +:+ "/" +:+ Itoa (p_Bits p).
Definition PrefixContains (p : Prefix) (ip : Addr) : bool :=
  (0 <=? p_Bits p)
  && match p_Addr p, ip with
     | V4 a, V4 b => Z.shiftr (Z.lxor b a) (32 - p_Bits p) =? 0
     | V6 a _, V6 b "" => Z.shiftr (Z.lxor b a) (128 - p_Bits p) =? 0
     | _, _ => false
     end.

Example parse_v4 : ParseAddr "192.168.0.10" = Some (V4 3232235530). Proof. vm_compute. reflexivity. Qed.
Example parse_v6 : Addr_String <$> ParseAddr "2001:DB8:0:0:1::1" = Some "2001:db8::1:0:0:1".
Proof. vm_compute. reflexivity. Qed.
Example parse_mapped : Unmap <$> ParseAddr "::ffff:10.0.0.1" = Some (V4 167772161).
Proof. vm_compute. reflexivity. Qed.
Example parse_zone : Addr_String <$> ParseAddr "fe80::1%eth0" = Some "fe80::1%eth0".
Proof. vm_compute. reflexivity. Qed.
Example parse_any : Addr_String <$> ParseAddr "::" = Some "::". Proof. vm_compute. reflexivity. Qed.
Example parse_bad : ParseAddr <$> ["1.2.3"; "1.2.3.4."; "01.2.3.4"; "256.1.1.1"; "1::2::3"; "1:2:3:4:5:6:7:8:9"; "1:2:3:4:5:6:7::8"; "12345::"; ":1"; "1::%"]
  = [None; None; None; None; None; None; None; None; None; None].
Proof. vm_compute. reflexivity. Qed.
Example prefix_text : Prefix_String ∘ Masked <$> ParsePrefix "2001:db8:ffff::/33" = Some "2001:db8:8000::/33".
Proof. vm_compute. reflexivity. Qed.

(** ** What is printed is read back *)
Lemma of_fields_of w n b rest acc : 0 <= w ->
  foldl (fun acc x => acc * 2 ^ w + x) acc (fields_of w n b rest)
  = foldl (fun acc x => acc * 2 ^ w + x) (acc * 2 ^ (w * Z.of_nat n) + b mod 2 ^ (w * Z.of_nat n)) rest.
Proof.
  intros Hw. revert b rest acc. induction n as [|n IH]; intros b rest acc.
  { cbn [fields_of]. f_equal. change (Z.of_nat 0) with 0. rewrite Z.mul_0_r, Z.pow_0_r, Z.mod_1_r. lia. }
  cbn [fields_of]. rewrite IH. cbn [foldl]. f_equal. rewrite Z.shiftr_div_pow2 by done.
  replace (w * Z.of_nat (S n)) with (w + w * Z.of_nat n) by lia. rewrite Z.pow_add_r by lia.
  assert (0 < 2 ^ w) by (apply Z.pow_pos_nonneg; lia). assert (0 < 2 ^ (w * Z.of_nat n)) by (apply Z.pow_pos_nonneg; lia).
  rewrite Z.rem_mul_r by lia. lia.
Qed.
Lemma of_fields_of' w n b : 0 <= w -> 0 <= b < 2 ^ (w * Z.of_nat n) -> of_fields w (fields_of w n b []) = b.
Proof. intros Hw Hb. unfold of_fields. rewrite of_fields_of by done. simpl. apply Z.mod_small. lia. Qed.
Lemma fields_of_range w n b rest x : 0 <= w -> x ∈ fields_of w n b rest -> 0 <= x < 2 ^ w \/ x ∈ rest.
Proof.
  intros Hw. revert b rest. induction n as [|n IH]; intros b rest; cbn [fields_of]; [by right|].
  intros [?|[->|?]%elem_of_cons]%IH; [by left| |by right]. left. apply Z.mod_pos_bound, Z.pow_pos_nonneg; lia.
Qed.
Lemma fields_of_length w n b rest : List.length (fields_of w n b rest) = (n + List.length rest)%nat.
Proof. revert b rest. induction n as [|n IH]; intros b rest; [done|]. cbn [fields_of]. rewrite IH. simpl. lia. Qed.

(** Numbers up to a bound, checked one by one. *)
Lemma below_spec (f : Z -> bool) n x : forallb f (seqZ 0 n) = true -> 0 <= x < n -> f x = true.
Proof. intros Hf Hx. rewrite forallb_forall in Hf. apply Hf, list_elem_of_In, elem_of_seqZ. lia. Qed.

(** *** IPv4 *)
(** [v4_fields] over the digits of one field. *)
Fixpoint v4_run (s : string) (value : Z) (digits : nat) : option (Z * nat) :=
  match s with
  | EmptyString => Some (value, digits)
  | String c t =>
      if is_digit c then
        if (digits =? 1)%nat && (value =? 0) then None else
        let value := 10 * value + (code c - 48) in
        if 255 <? value then None else v4_run t value (S digits)
      else None
  end.
Lemma v4_fields_run s t ok v d fs v' d' : v4_run s v d = Some (v', d') ->
  v4_fields (s +:+ t) ok v d fs = v4_fields t (ok || negb (String.eqb s "")) v' d' fs.
Proof.
  revert ok v d. induction s as [|c s IH]; intros ok v d; cbn [v4_run].
  { intros [= <- <-]. by rewrite orb_false_r. }
  change (String c s +:+ t) with (String c (s +:+ t)). cbn [v4_fields].
  destruct (is_digit c); [|done]. destruct (_ && _); [done|]. destruct (255 <? _); [done|].
  intros Hr. rewrite (IH _ _ _ Hr). simpl. by rewrite orb_true_r.
Qed.
Definition v4_text_ok (n : Z) : bool :=
  bool_decide (fst <$> v4_run (Itoa n) 0 0 = Some n) && negb (String.eqb (Itoa n) "") && forall_bytes is_digit (Itoa n).
Lemma v4_texts : forallb v4_text_ok (seqZ 0 256) = true.
Proof. vm_compute. reflexivity. Qed.
Lemma v4_field_text n t fs : 0 <= n < 256 ->
  exists d, v4_fields (Itoa n +:+ t) false 0 0 fs = v4_fields t true n d fs.
Proof.
  intros Hn. pose proof (below_spec _ _ _ v4_texts Hn) as Hok. unfold v4_text_ok in Hok.
  rewrite !andb_true_iff, bool_decide_eq_true in Hok. destruct Hok as [[Hr He] _].
  apply fmap_Some in Hr as ([v d] & Hr & Hv). simpl in Hv. subst v. exists d.
  rewrite (v4_fields_run _ _ _ _ _ _ _ _ Hr). by rewrite He.
Qed.
Lemma v4_field_dot n t fs : 0 <= n < 256 -> t <> "" -> (List.length fs < 3)%nat ->
  v4_fields (Itoa n +:+ "." +:+ t) false 0 0 fs = v4_fields t false 0 0 (n :: fs).
Proof.
  intros Hn Ht Hl. destruct (v4_field_text n ("." +:+ t) fs Hn) as [d ->].
  change ("." +:+ t) with (String "." t). cbn [v4_fields]. change (is_digit ".") with false.
  apply String.eqb_neq in Ht as ->. rewrite (proj2 (Nat.eqb_neq _ _)) by lia. done.
Qed.
Lemma v4_field_end n fs : 0 <= n < 256 -> List.length fs = 3%nat ->
  v4_fields (Itoa n) false 0 0 fs = Some (rev (n :: fs)).
Proof.
  intros Hn Hl. destruct (v4_field_text n "" fs Hn) as [d Hd]. rewrite sapp_nil_r in Hd. rewrite Hd.
  cbn [v4_fields]. by rewrite Hl.
Qed.
Lemma Itoa_digits n : 0 <= n < 256 -> forall_bytes is_digit (Itoa n) = true /\ Itoa n <> "".
Proof.
  intros Hn. pose proof (below_spec _ _ _ v4_texts Hn) as Hok. unfold v4_text_ok in Hok.
  rewrite !andb_true_iff, negb_true_iff, String.eqb_neq in Hok. naive_solver.
Qed.
Lemma address_kind_skip s t :
  forall_bytes (fun c => negb (Ascii.eqb c "." || Ascii.eqb c ":" || Ascii.eqb c "%")) s = true ->
  address_kind (s +:+ t) = address_kind t.
Proof.
  induction s as [|c s IH]; [done|]. cbn [forall_bytes]. intros [Hc Hs]%andb_true_iff.
  change (String c s +:+ t) with (String c (s +:+ t)). cbn [address_kind].
  apply negb_true_iff in Hc as ->. by apply IH.
Qed.
Lemma digit_plain c : is_digit c = true -> negb (Ascii.eqb c "." || Ascii.eqb c ":" || Ascii.eqb c "%") = true.
Proof.
  intros Hc. apply negb_true_iff. rewrite !orb_false_iff, !Ascii.eqb_neq. split_and!; intros ->; vm_compute in Hc; discriminate.
Qed.

Lemma parse_string4 b : 0 <= b < 2 ^ 32 -> ParseAddr (string4 b) = Some (V4 b).
Proof.
  intros Hb. unfold string4.
  pose proof (fields_of_length 8 4 b []) as Hl. pose proof (of_fields_of' 8 4 b ltac:(lia) Hb) as Hval.
  assert (forall x, x ∈ fields_of 8 4 b [] -> 0 <= x < 256) as Hr.
  { intros x [?|?%elem_of_nil]%(fields_of_range 8); [done|done|lia]. }
  destruct (fields_of 8 4 b []) as [|f1 [|f2 [|f3 [|f4 [|]]]]]; try done.
  assert (0 <= f1 < 256 /\ 0 <= f2 < 256 /\ 0 <= f3 < 256 /\ 0 <= f4 < 256) as (H1 & H2 & H3 & H4)
    by (split_and!; apply Hr; set_solver).
  destruct (Itoa_digits f1 H1) as [D1 N1], (Itoa_digits f2 H2) as [D2 N2], (Itoa_digits f3 H3) as [D3 N3], (Itoa_digits f4 H4) as [D4 N4].
  cbn [fmap list_fmap Join]. unfold ParseAddr. rewrite address_kind_skip; [|by eapply forall_bytes_impl, D1; apply digit_plain].
  change (address_kind ("." +:+ _)) with (Some "."%char). cbn iota. unfold parseIPv4.
  assert (forall s t, s <> "" -> s +:+ t <> "") as Happ by (by intros [|? ?] t).
  rewrite v4_field_dot by (try done; try (by apply Happ); simpl; lia).
  rewrite v4_field_dot by (try done; try (by apply Happ); simpl; lia).
  rewrite v4_field_dot by (try done; simpl; lia).
  rewrite v4_field_end by done. cbn. cbn in Hval. by rewrite Hval.
Qed.

(** *** IPv6 *)
Fixpoint hex_run (s : string) (off : nat) (acc : Z) : option (Z * nat) :=
  match s with
  | EmptyString => Some (acc, off)
  | String c t =>
      match hex_value c with
      | Some d => if (3 <? off)%nat then None else hex_run t (S off) (16 * acc + d)
      | None => None
      end
  end.
Definition stops (t : string) : Prop := match t with String c _ => hex_value c = None | EmptyString => True end.
Lemma hex_group_run s t off acc v o : hex_run s off acc = Some (v, o) -> stops t ->
  hex_group (s +:+ t) off acc = Some (v, o, t).
Proof.
  revert off acc. induction s as [|c s IH]; intros off acc; cbn [hex_run].
  { intros [= <- <-] Ht. change ("" +:+ t) with t. destruct t as [|c t]; [done|]. simpl in *. by rewrite Ht. }
  change (String c s +:+ t) with (String c (s +:+ t)). cbn [hex_group].
  destruct (hex_value c); [|done]. destruct (3 <? off)%nat; [done|]. apply IH.
Qed.
Lemma hex_digit_value d : 0 <= d < 16 -> hex_value (hex_digit d) = Some d.
Proof.
  intros Hd. assert (forallb (fun d => bool_decide (hex_value (hex_digit d) = Some d)) (seqZ 0 16) = true) as Hall
    by (vm_compute; reflexivity).
  pose proof (below_spec _ _ _ Hall Hd) as Hok. by apply bool_decide_eq_true in Hok.
Qed.
Definition word (x : Z) : Prop := 0 <= x < 65536.
(** One to four digits, with the value of the number. *)
Lemma appendHex_run x : word x -> exists o, hex_run (appendHex x) 0 0 = Some (x, S o).
Proof.
  intros Hx. unfold word in Hx. unfold appendHex. rewrite !Z.shiftr_div_pow2, Z.pow_0_r, Z.div_1_r by lia.
  pose proof (fun y => hex_digit_value (y mod 16) (Z.mod_pos_bound y 16 ltac:(lia))) as Hd.
  destruct (4096 <=? x) eqn:E3; [|destruct (256 <=? x) eqn:E2; [|destruct (16 <=? x) eqn:E1]];
    cbn [hex_run]; rewrite !Hd; cbn [hex_run Nat.ltb Nat.leb]; eexists; repeat f_equal;
    rewrite ?Z.leb_le, ?Z.leb_gt in *; change (2 ^ 12) with 4096; change (2 ^ 8) with 256; change (2 ^ 4) with 16;
    Z.div_mod_to_equations; lia.
Qed.
Lemma hex_run_chars s off acc r : hex_run s off acc = Some r ->
  forall_bytes (fun c => match hex_value c with Some _ => true | None => false end) s = true.
Proof.
  revert off acc. induction s as [|c s IH]; intros off acc; cbn [hex_run forall_bytes]; [done|].
  destruct (hex_value c); [|done]. destruct (3 <? off)%nat; [done|]. apply IH.
Qed.

Lemma hex_text x t : word x -> stops t -> exists o, hex_group (appendHex x +:+ t) 0 0 = Some (x, S o, t).
Proof. intros Hx Ht. destruct (appendHex_run x Hx) as [o Ho]. exists o. by apply hex_group_run. Qed.
Lemma hex_text_chars x : word x ->
  forall_bytes (fun c => match hex_value c with Some _ => true | None => false end) (appendHex x) = true
  /\ appendHex x <> "".
Proof.
  intros Hx. destruct (appendHex_run x Hx) as [o Ho]. split; [by eapply hex_run_chars|]. intros E. by rewrite E in Ho.
Qed.
Lemma hex_head x t : word x -> exists c s, appendHex x +:+ t = String c s /\ Ascii.eqb c ":" = false.
Proof.
  intros Hx. destruct (hex_text_chars x Hx) as [Hc Hn]. destruct (appendHex x) as [|c s]; [done|].
  exists c, (s +:+ t). split; [done|]. cbn [forall_bytes] in Hc. apply andb_true_iff in Hc as [Hc _].
  apply Ascii.eqb_neq. intros ->. by vm_compute in Hc.
Qed.

Lemma join_words_cons sep x y l : Join sep (x :: y :: l) = x +:+ sep +:+ Join sep (y :: l).
Proof. done. Qed.
Lemma Join_head x l t : word x -> exists c s, Join ":" (appendHex <$> x :: l) +:+ t = String c s /\ Ascii.eqb c ":" = false.
Proof.
  intros Hx. destruct l as [|y l].
  - destruct (hex_head x t Hx) as (c & s & H & ?). by exists c, s.
  - cbn [fmap list_fmap]. rewrite join_words_cons, <- sapp_assoc. by apply hex_head.
Qed.

(** The groups up to the end of the text, or up to the ellipsis. *)
Lemma v6_groups_end xs fuel acc ell : Forall word xs -> xs <> [] -> (List.length xs <= fuel)%nat ->
  v6_groups fuel (Join ":" (appendHex <$> xs)) acc ell = Some ((acc ++ xs)%list, ell, "").
Proof.
  intros Hw. revert fuel acc. induction xs as [|x xs IH]; intros fuel acc Hne Hf; [done|].
  apply Forall_cons in Hw as [Hx Hw]. destruct fuel as [|fuel]; [simpl in Hf; lia|]. cbn [v6_groups].
  destruct xs as [|y xs].
  - cbn [fmap list_fmap Join]. destruct (hex_text x "" Hx I) as [o Ho]. rewrite sapp_nil_r in Ho.
    rewrite Ho. done.
  - apply Forall_cons in Hw as [Hy Hw']. specialize (IH ltac:(by constructor) fuel (acc ++ [x])%list ltac:(done) ltac:(simpl in *; lia)).
    rewrite !fmap_cons, join_words_cons, <- fmap_cons.
    destruct (Join_head y xs "" Hy) as (c & s & Hj & Hc). rewrite sapp_nil_r in Hj. rewrite Hj in IH |- *.
    destruct (hex_text x (":" +:+ String c s) Hx eq_refl) as [o Ho]. rewrite Ho.
    change (":" +:+ String c s) with (String ":" (String c s)). cbn. rewrite Hc, IH. by rewrite <- app_assoc.
Qed.

Lemma v6_groups_ellipsis xs t fuel acc : Forall word xs -> xs <> [] -> (List.length xs <= fuel)%nat ->
  v6_groups fuel (Join ":" (appendHex <$> xs) +:+ "::" +:+ t) acc None
  = let groups := (acc ++ xs)%list in
    if String.eqb t "" then Some (groups, Some (List.length groups), "")
    else v6_groups (fuel - List.length xs) t groups (Some (List.length groups)).
Proof.
  intros Hw. revert fuel acc. induction xs as [|x xs IH]; intros fuel acc Hne Hf; [done|].
  apply Forall_cons in Hw as [Hx Hw]. destruct fuel as [|fuel]; [simpl in Hf; lia|].
  change ("::" +:+ t) with (String ":" (String ":" t)) in *. cbn [v6_groups].
  destruct xs as [|y xs].
  - cbn [fmap list_fmap Join].
    destruct (hex_text x (String ":" (String ":" t)) Hx eq_refl) as [o Ho]. rewrite Ho. cbn.
    by rewrite Nat.sub_0_r.
  - apply Forall_cons in Hw as [Hy Hw']. specialize (IH ltac:(by constructor) fuel (acc ++ [x])%list ltac:(done) ltac:(simpl in *; lia)).
    rewrite !fmap_cons, join_words_cons, <- fmap_cons, <- !sapp_assoc.
    destruct (Join_head y xs (String ":" (String ":" t)) Hy) as (c & s & Hj & Hc). rewrite Hj in IH |- *.
    destruct (hex_text x (":" +:+ String c s) Hx eq_refl) as [o Ho]. rewrite Ho.
    change (":" +:+ String c s) with (String ":" (String c s)). cbn. rewrite Hc, IH. by rewrite <- app_assoc.
Qed.

Lemma zero_run_spec l : take (zero_run l) l = replicate (zero_run l) 0 /\ (zero_run l <= List.length l)%nat.
Proof.
  induction l as [|x l [IH1 IH2]]; [done|]. cbn [zero_run]. destruct (Z.eqb_spec x 0) as [->|]; [|split; [done|lia]].
  simpl. rewrite IH1. split; [done|lia].
Qed.
Definition run_of (l : list Z) (r : nat * nat) : Prop :=
  r.2 = 0%nat \/ (2 <= r.2 /\ r.1 + r.2 <= List.length l)%nat /\ take r.2 (drop r.1 l) = replicate r.2 0.
Lemma longest_run_spec l i best : run_of l best -> run_of l (longest_run i (drop i l) best).
Proof.
  remember (drop i l) as t eqn:Ht. revert i best Ht. induction t as [|x t IH]; intros i best Ht Hb; [done|].
  cbn [longest_run]. apply IH.
  - replace (drop (S i) l) with (drop 1 (drop i l)) by (rewrite drop_drop; f_equal; lia). by rewrite <- Ht.
  - destruct ((2 <=? zero_run (x :: t))%nat && (best.2 <? zero_run (x :: t))%nat) eqn:E; [|done].
    apply andb_true_iff in E as [E%Nat.leb_le _]. right. cbn [fst snd]. rewrite <- Ht.
    destruct (zero_run_spec (x :: t)) as [H1 H2]. split; [|done]. split; [done|].
    rewrite Ht, length_drop in H2. rewrite <- Ht in H2. lia.
Qed.

(** The three forms of the text of eight groups. *)
Lemma v6_text_full l : Forall word l -> List.length l = 8%nat ->
  v6_text (Join ":" (appendHex <$> l)) = Some (of_fields 16 l).
Proof.
  intros Hw Hl. pose proof (v6_groups_end l 8 [] None Hw ltac:(by destruct l) ltac:(lia)) as Hg.
  destruct l as [|x l]; [done|]. destruct (Join_head x l "" (Forall_inv Hw)) as (c & s & Hj & Hc).
  rewrite sapp_nil_r in Hj. unfold v6_text. rewrite Hj in Hg |- *.
  assert (match String c s with String ":" (String ":" t) => (t, Some 0%nat) | _ => (String c s, None) end = (String c s, None)) as ->.
  { apply Ascii.eqb_neq in Hc. destruct c as [[] [] [] [] [] [] [] []]; done || by destruct Hc. }
  cbn [String.eqb andb]. rewrite Hg. cbn. unfold expand. rewrite Hl. done.
Qed.
Lemma v6_text_ellipsis l start n : Forall word l -> List.length l = 8%nat -> run_of l (start, n) -> n <> 0%nat ->
  v6_text (Join ":" (appendHex <$> take start l) +:+ "::" +:+ Join ":" (appendHex <$> drop (start + n) l))
  = Some (of_fields 16 l).
Proof.
  intros Hw Hl [?|[[Hn Hle] Hz]] Hn0; [done|]. cbn [fst snd] in *.
  assert (expand (take start l ++ drop (start + n) l)%list (Some start) = Some l) as He.
  { unfold expand. rewrite length_app, length_take, length_drop, Hl.
    rewrite (proj2 (Nat.ltb_lt _ _)) by lia. f_equal.
    rewrite take_app_le, drop_app_ge by (rewrite length_take; lia). rewrite take_take, length_take.
    replace (start `min` start)%nat with start by lia. replace (start - start `min` List.length l)%nat with 0%nat by lia.
    rewrite drop_0. replace (8 - (start `min` 8 + (8 - (start + n))))%nat with n by lia.
    replace (drop (start + n) l) with (drop n (drop start l)) by (rewrite drop_drop; f_equal; lia).
    rewrite <- Hz. by rewrite take_drop, take_drop. }
  assert (Forall word (take start l) /\ Forall word (drop (start + n) l)) as [Hw1 Hw2]
    by (split; [by apply Forall_take|by apply Forall_drop]).
  set (after := drop (start + n) l) in *.
  assert (List.length after = 8 - (start + n))%nat as Hla by (unfold after; rewrite length_drop, Hl; lia).
  assert (forall x r, word x -> String.eqb (Join ":" (appendHex <$> x :: r)) "" = false) as Hjne.
  { intros x r Hx. destruct (Join_head x r "" Hx) as (c & s & Hj & _). rewrite sapp_nil_r in Hj. by rewrite Hj. }
  unfold v6_text. destruct (take start l) as [|x before] eqn:Hb.
  - assert (start = 0%nat) as ->. { apply (f_equal List.length) in Hb. rewrite length_take, Hl in Hb. simpl in Hb. lia. }
    change (Join ":" (appendHex <$> []) +:+ "::" +:+ ?t) with (String ":" (String ":" t)). cbn iota beta.
    destruct after as [|y after'] eqn:Ha.
    + vm_compute in He. injection He as <-. reflexivity.
    + rewrite (Hjne y after' (Forall_inv Hw2)). cbn [andb].
      rewrite (v6_groups_end (y :: after') 8 [] (Some 0%nat)) by (done || (rewrite Hla; lia)). cbn -[expand].
      cbn [app] in He. by rewrite He.
  - assert (List.length (x :: before) = start) as Hlb by (rewrite <- Hb, length_take; lia).
    pose proof (v6_groups_ellipsis (x :: before) (Join ":" (appendHex <$> after)) 8 [] Hw1 ltac:(done) ltac:(lia)) as Hg.
    destruct (Join_head x before ("::" +:+ Join ":" (appendHex <$> after)) (Forall_inv Hw1)) as (c & s & Hj & Hc).
    rewrite Hj in Hg |- *.
    assert (match String c s with String ":" (String ":" t) => (t, Some 0%nat) | _ => (String c s, None) end = (String c s, None)) as ->.
    { apply Ascii.eqb_neq in Hc. destruct c as [[] [] [] [] [] [] [] []]; done || by destruct Hc. }
    cbn [String.eqb andb]. rewrite Hg, app_nil_l, Hlb. destruct after as [|y after'] eqn:Ha.
    + rewrite app_nil_r, <- Hlb in He. cbn -[expand app]. cbn [List.length] in He. by rewrite He.
    + cbv zeta. rewrite (Hjne y after' (Forall_inv Hw2)).
      rewrite (v6_groups_end (y :: after')) by (done || (rewrite Hla; lia)). rewrite <- Hlb in He.
      cbn -[expand app]. cbn [List.length] in He. by rewrite He.
Qed.

Lemma parse_v6_text b : 0 <= b < 2 ^ 128 -> v6_text (string6 b) = Some b.
Proof.
  intros Hb. unfold string6. pose proof (fields_of_length 16 8 b []) as Hl.
  pose proof (of_fields_of' 16 8 b ltac:(lia) Hb) as Hval.
  assert (Forall word (fields_of 16 8 b [])) as Hw.
  { apply Forall_forall. intros x [?|?%elem_of_nil]%(fields_of_range 16); [done|done|lia]. }
  set (l := fields_of 16 8 b []) in *. cbv zeta.
  pose proof (longest_run_spec l 0 (0%nat, 0%nat) ltac:(by left)) as Hr. rewrite drop_0 in Hr.
  destruct (longest_run 0 l (0%nat, 0%nat)) as [start n]. destruct (Nat.eqb_spec n 0) as [->|Hn].
  - rewrite v6_text_full by done. by rewrite Hval.
  - rewrite v6_text_ellipsis by done. by rewrite Hval.
Qed.

Lemma hex_not_special c : match hex_value c with Some _ => true | None => false end = true ->
  negb (Ascii.eqb c "." || Ascii.eqb c ":" || Ascii.eqb c "%") = true.
Proof.
  intros Hc. apply negb_true_iff. rewrite !orb_false_iff, !Ascii.eqb_neq. split_and!; intros ->; vm_compute in Hc; discriminate.
Qed.
Lemma hex_no_percent c : match hex_value c with Some _ => true | None => false end = true -> negb (Ascii.eqb c "%") = true.
Proof. intros Hc%hex_not_special. destruct (Ascii.eqb c "%"); [|done]. by rewrite orb_true_r in Hc. Qed.

Lemma Join_kind l t : Forall word l -> address_kind (Join ":" (appendHex <$> l) +:+ String ":" t) = Some ":"%char.
Proof.
  assert (forall x u, word x -> address_kind (appendHex x +:+ String ":" u) = Some ":"%char) as Hx.
  { intros x u Hx. destruct (hex_text_chars x Hx) as [Hc _].
    rewrite address_kind_skip; [done|]. by eapply forall_bytes_impl, Hc; apply hex_not_special. }
  intros Hw. destruct l as [|x [|y l]]; [done|apply Hx, (Forall_inv Hw)|].
  rewrite !fmap_cons, join_words_cons, <- !sapp_assoc. apply Hx, (Forall_inv Hw).
Qed.
Lemma Join_no_percent l : Forall word l -> forall_bytes (fun c => negb (Ascii.eqb c "%")) (Join ":" (appendHex <$> l)) = true.
Proof.
  intros Hw. induction Hw as [|x l Hx Hw IH]; [done|].
  assert (forall_bytes (fun c => negb (Ascii.eqb c "%")) (appendHex x) = true) as Hc.
  { destruct (hex_text_chars x Hx) as [Hc _]. by eapply forall_bytes_impl, Hc; apply hex_no_percent. }
  destruct l as [|y l]; [done|]. rewrite !fmap_cons, join_words_cons, !forall_bytes_app, Hc. done.
Qed.
Lemma cut_absent b s : forall_bytes (fun c => negb (Ascii.eqb c b)) s = true -> cut b s = (s, None).
Proof.
  induction s as [|c s IH]; [done|]. cbn [forall_bytes cut]. intros [Hc%negb_true_iff Hs]%andb_true_iff.
  by rewrite Hc, IH.
Qed.

Lemma string6_shape b : 0 <= b < 2 ^ 128 ->
  address_kind (string6 b) = Some ":"%char /\ cut "%" (string6 b) = (string6 b, None).
Proof.
  intros Hb. unfold string6. pose proof (fields_of_length 16 8 b []) as Hl.
  assert (Forall word (fields_of 16 8 b [])) as Hw.
  { apply Forall_forall. intros x [?|?%elem_of_nil]%(fields_of_range 16); [done|done|lia]. }
  set (l := fields_of 16 8 b []) in *. cbv zeta. destruct (longest_run 0 l (0%nat, 0%nat)) as [start n].
  destruct (n =? 0)%nat.
  - split; [|by apply cut_absent, Join_no_percent].
    destruct l as [|x [|y l']]; try done. rewrite !fmap_cons, join_words_cons.
    apply (Join_kind [x]). constructor; [|constructor]. apply (Forall_inv Hw).
  - split; [by apply Join_kind, Forall_take|]. apply cut_absent. rewrite !forall_bytes_app.
    by rewrite !Join_no_percent by (by apply Forall_take || by apply Forall_drop).
Qed.

Lemma parse_string6 b : 0 <= b < 2 ^ 128 -> ParseAddr (string6 b) = Some (V6 b "").
Proof.
  intros Hb. destruct (string6_shape b Hb) as [Hk Hc]. unfold ParseAddr. rewrite Hk. unfold parseIPv6.
  rewrite Hc, parse_v6_text by done. done.
Qed.

(** *** Prefixes *)
(** The prefixes that print back: in range, without a zone, not an IPv4 address in IPv6. *)
Definition address_ok (a : Addr) : Prop :=
  match a with
  | V4 b => 0 <= b < 2 ^ 32
  | V6 b z => 0 <= b < 2 ^ 128 /\ z = "" /\ Is4In6 a = false
  end.
Definition prefix_ok (p : Prefix) : Prop := address_ok (p_Addr p) /\ 0 <= p_Bits p <= BitLen (p_Addr p).

Lemma parse_Addr_String a : address_ok a -> ParseAddr (Addr_String a) = Some a.
Proof.
  destruct a as [b|b z]; cbn [address_ok Addr_String]; [apply parse_string4|]. intros (Hb & -> & Hm). rewrite Hm.
  change (if String.eqb "" "" then "" else "%" +:+ "") with "". rewrite sapp_nil_r. by apply parse_string6.
Qed.

Lemma last_slash_app s t : forall_bytes (fun c => negb (Ascii.eqb c "/")) t = true ->
  last_slash (s +:+ String "/" t) = Some (s, t).
Proof.
  intros Ht. assert (last_slash t = None) as Hn.
  { induction t as [|c t IH]; [done|]. cbn [forall_bytes last_slash] in *. apply andb_true_iff in Ht as [Hc%negb_true_iff Ht].
    by rewrite IH, Hc. }
  induction s as [|c s IH].
  - change ("" +:+ ?x) with x. cbn [last_slash]. rewrite Hn. done.
  - change (String c s +:+ ?x) with (String c (s +:+ x)). cbn [last_slash]. by rewrite IH.
Qed.

Definition bits_text_ok (n : Z) : bool :=
  bool_decide (ParseInt64 (Itoa n) = Some n)
  && forall_bytes (fun c => negb (Ascii.eqb c "/")) (Itoa n)
  && negb (match Itoa n with String c (String _ _) => negb ((49 <=? code c) && (code c <=? 57)) | _ => false end).
Lemma bits_texts : forallb bits_text_ok (seqZ 0 129) = true.
Proof. vm_compute. reflexivity. Qed.

Lemma ParsePrefix_String p : prefix_ok p -> ParsePrefix (Prefix_String p) = Some p.
Proof.
  destruct p as [a n]. intros [Ha Hn]. cbn [p_Addr p_Bits] in *. unfold Prefix_String. cbn [p_Addr p_Bits].
  assert ((n <? 0) = false) as Hn0 by (apply Z.ltb_ge, Hn).
  assert ((0 <=? n) = true) as Hn1 by (apply Z.leb_le, Hn).
  assert ((BitLen a <? n) = false) as Hn2 by (apply Z.ltb_ge, Hn).
  assert ((n <=? BitLen a) = true) as Hn3 by (apply Z.leb_le, Hn). rewrite Hn0.
  assert (0 <= n < 129) as Hn' by (clear Ha; destruct a; cbn [BitLen] in Hn; lia).
  pose proof (below_spec _ _ _ bits_texts Hn') as Hok. unfold bits_text_ok in Hok.
  rewrite !andb_true_iff, bool_decide_eq_true, negb_true_iff in Hok. destruct Hok as [[Hp Hs] Hb].
  unfold ParsePrefix. change ("/" +:+ Itoa n) with (String "/" (Itoa n)). rewrite last_slash_app by done.
  cbn [mbind option_bind]. rewrite parse_Addr_String by done. cbn [mbind option_bind].
  assert (has_zone a = false) as -> by (destruct a; [done|]; destruct Ha as (_ & -> & _); done).
  rewrite Hb, Hp. cbn [mbind option_bind].
  rewrite Hn0, Hn2. cbn [orb]. unfold PrefixFrom.
  assert (without_zone a = a) as -> by (destruct a; [done|]; destruct Ha as (_ & -> & _); done).
  by rewrite Hn1, Hn3.
Qed.
End NetIP.
