(* ===== verification/ApiKey.v ===== *)
(** * Package [internal/apikey]: keys, secrets and their policy

    [model.go], [secret.go] and the validation of [service.go]; module [ApiKeyFacts]: what
    secrets and address rules mean. *)

From stdpp Require Import base gmap strings list sorting sets.
From Stdlib Require Import ZArith Lia Ascii String.
From S2P Require Import Prelude GoLib Json BillingModel Coordinator PaymentFunding PaymentQueries NetIP.

Module ApiKey.
Import PaymentFunding(RawURLEncode, base64_byte, base64_char).
Import Coordinator(Sha256Hex, sha256_hex).
Import NetIP.

(** ** [model.go] *)
(** [EWrapped] is any error the package only wraps and passes on. *)
Inductive error :=
| ErrInvalidInput | ErrNotFound | ErrConflict | ErrInvalidKey | ErrIPDenied | ErrModelDenied
| ErrRateLimited | ErrRateLimitUnavailable
| EWrapped (what : string).

Record Key := {
  k_ID : uuid; k_UserID : uuid; k_Name : string; k_Prefix : string; k_Status : string;
  k_ExpiresAt : option time; k_IPAllowlist : list string; k_RPMLimit : option Z; k_TPMLimit : option Z;
  k_DailyBudgetMinor : option Z; k_MonthlyBudgetMinor : option Z; k_AllowedModels : list string;
  k_LastUsedAt : option time; k_CreatedAt : time; k_UpdatedAt : time; k_RotatedAt : option time;
  k_SecretVersion : Z
}.

(** [Key.EffectiveStatus], from the two fields it reads. *)
Definition EffectiveStatus (status : string) (expiresAt : option time) (now : time) : string :=
  if String.eqb status "revoked" then "revoked" else
  match expiresAt with
  | Some t => if negb (After t now) then "expired" else status
  | None => status
  end.

Record Principal := {
  pr_UserID : uuid; pr_APIKeyID : uuid; pr_KeyPrefix : string; pr_SecretVersion : Z;
  pr_RPMLimit : option Z; pr_TPMLimit : option Z;
  pr_DailyBudgetMinor : option Z; pr_MonthlyBudgetMinor : option Z
}.

Record CreateInput := {
  ci_Name : string; ci_ExpiresAt : option time; ci_AllowedModels : list string;
  ci_IPAllowlist : list string; ci_RPMLimit : option Z; ci_TPMLimit : option Z;
  ci_DailyBudgetMinor : option Z; ci_MonthlyBudgetMinor : option Z
}.

(** [OptionalTime], [OptionalInt64] and the pointers of [UpdateInput]: [None] leaves the field,
    [Some None] clears it. *)
Record UpdateInput := {
  ui_Name : option string; ui_ExpiresAt : option (option time); ui_AllowedModels : option (list string);
  ui_IPAllowlist : option (list string); ui_RPMLimit : option (option Z); ui_TPMLimit : option (option Z);
  ui_DailyBudgetMinor : option (option Z); ui_MonthlyBudgetMinor : option (option Z)
}.

Record CreatedKey := { ck_Key : Key; ck_Secret : string }.

(** ** [secret.go] *)
Definition secretMarker : string := "bablo_sk_".
Definition secretEntropyBytes : nat := 32.
Definition secretEncodedBytes : Z := 43.
Definition displayPrefixBytes : nat := 8.

(** A digest is its hexadecimal text. *)
Record secretMaterial := { sm_Plaintext : string; sm_Prefix : string; sm_Hash : string }.
Record storedSecret := { ss_Prefix : string; ss_Hash : string }.
Definition stored (material : secretMaterial) : storedSecret :=
  {| ss_Prefix := sm_Prefix material; ss_Hash := sm_Hash material |}.
Definition zero_digest : string := RepeatByte "0" 64.

(** The sextet of a character of the URL alphabet. *)
Definition sextet_of (c : ascii) : option Z :=
  if is_upper c then Some (code c - 65)
  else if is_lower c then Some (code c - 71)
  else if is_digit c then Some (code c + 4)
  else if Ascii.eqb c "-" then Some 62
  else if Ascii.eqb c "_" then Some 63
  else None.
Fixpoint sextets_of (s : string) : option (list Z) :=
  match s with
  | EmptyString => Some []
  | String c t =>
      if Ascii.eqb c "010" || Ascii.eqb c "013" then sextets_of t else
      x ← sextet_of c; l ← sextets_of t; Some (x :: l)
  end.
(** Four sextets are three bytes; the unused bits of a short group are dropped. *)
Fixpoint bytes_of (l : list Z) : option (list Z) :=
  match l with
  | [] => Some []
  | [_] => None
  | [a; b] => Some [a * 4 + b / 16]
  | [a; b; c] => Some [a * 4 + b / 16; b mod 16 * 16 + c / 4]
  | a :: b :: c :: d :: l =>
      r ← bytes_of l; Some (a * 4 + b / 16 :: b mod 16 * 16 + c / 4 :: c mod 4 * 64 + d :: r)
  end.
(** [base64.RawURLEncoding.DecodeString]. *)
Definition RawURLDecode (s : string) : option (list Z) := l ← sextets_of s; bytes_of l.

Section secrets.
Context `{Sha256Hex}.

(** [entropy] is what [rand.Read] filled, [None] its error. *)
Definition generateSecret (entropy : option (list Z)) : result error secretMaterial :=
  match entropy with
  | None => Err (EWrapped "rand")
  | Some entropy =>
      let encoded := RawURLEncode entropy in
      let plaintext := secretMarker +:+ encoded in
      Ok {| sm_Plaintext := plaintext;
            sm_Prefix := secretMarker +:+ String.substring 0 displayPrefixBytes encoded;
            sm_Hash := sha256_hex plaintext |}
  end.

Definition hashSecret (secret : string) : result error string :=
  if negb (slen secret =? slen secretMarker + secretEncodedBytes) || negb (HasPrefix secret secretMarker)
  then Err ErrInvalidKey else
  let encoded := TrimPrefix secret secretMarker in
  match RawURLDecode encoded with
  | None => Err ErrInvalidKey
  | Some decoded =>
      if negb (List.length decoded =? secretEntropyBytes)%nat then Err ErrInvalidKey else
      if negb (String.eqb (RawURLEncode decoded) encoded) then Err ErrInvalidKey else
      Ok (sha256_hex secret)
  end.
End secrets.

Definition validateStoredSecret (material : storedSecret) : result error unit :=
  if String.eqb (ss_Prefix material) "" || String.eqb (ss_Hash material) zero_digest
  then Err (EWrapped "API key stored secret material is incomplete") else Ok tt.

(** ** Validation *)
Definition maximumKeyNameBytes : Z := 80.
Definition maximumModelsPerKey : Z := 200.
Definition maximumIPRulesPerKey : Z := 100.

(** [sort.Strings] of the keys of a set. *)
Definition string_le (a b : string) : Prop := String.leb a b = true.
#[export] Instance string_le_dec : RelDecision string_le.
Proof. intros a b. unfold string_le. apply _. Defined.
Definition sorted_set (l : list string) : list string := merge_sort string_le (remove_dups l).

Definition normalizeName (value : string) : result error string :=
  let value := TrimSpace value in
  if String.eqb value "" || (maximumKeyNameBytes <? slen value) then Err ErrInvalidInput else Ok value.

Definition normalizeModels (values : list string) : result error (list string) :=
  if maximumModelsPerKey <? Z.of_nat (List.length values) then Err ErrInvalidInput else
  let trimmed := TrimSpace <$> values in
  if existsb (fun value => String.eqb value "") trimmed then Err ErrInvalidInput
  else Ok (sorted_set trimmed).

(** One rule of the list: a prefix, or an address, in canonical form. *)
Definition normalize_rule (value : string) : option Prefix :=
  let value := TrimSpace value in
  match ParsePrefix value with
  | None =>
      address ← ParseAddr value;
      let address := Unmap address in
      Some (Masked (PrefixFrom address (BitLen address)))
  | Some prefix =>
      if Is4In6 (p_Addr prefix) then
        if p_Bits prefix <? 96 then None
        else Some (Masked (PrefixFrom (Unmap (p_Addr prefix)) (p_Bits prefix - 96)))
      else Some (Masked prefix)
  end.
Fixpoint normalize_rules (values : list string) : option (list string) :=
  match values with
  | [] => Some []
  | value :: values => p ← normalize_rule value; l ← normalize_rules values; Some (Prefix_String p :: l)
  end.
Definition normalizeIPAllowlist (values : list string) : result error (list string) :=
  if maximumIPRulesPerKey <? Z.of_nat (List.length values) then Err ErrInvalidInput else
  match normalize_rules values with
  | None => Err ErrInvalidInput
  | Some rules => Ok (sorted_set rules)
  end.

Definition allowsIP (allowlist : list string) (source : Addr) : bool :=
  (List.length allowlist =? 0)%nat
  || existsb (fun value => match ParsePrefix value with Some prefix => PrefixContains prefix source | None => false end)
       allowlist.

Definition validateLimits (rpm tpm daily monthly : option Z) : result error unit :=
  let bad (p : Z -> bool) (o : option Z) := match o with Some x => p x | None => false end in
  if bad (fun x => x <=? 0) rpm || bad (fun x => x <=? 0) tpm then Err ErrInvalidInput else
  if bad (fun x => x <? 0) daily || bad (fun x => x <? 0) monthly then Err ErrInvalidInput else Ok tt.

Definition expiry_ok (expiresAt : option time) (now : time) : bool :=
  match expiresAt with Some t => After t now | None => true end.

Definition validateCreate (input : CreateInput) (now : time) : result error CreateInput :=
  name ← normalizeName (ci_Name input);
  models ← normalizeModels (ci_AllowedModels input);
  allowlist ← normalizeIPAllowlist (ci_IPAllowlist input);
  if negb (expiry_ok (ci_ExpiresAt input) now) then Err ErrInvalidInput else
  _ ← validateLimits (ci_RPMLimit input) (ci_TPMLimit input) (ci_DailyBudgetMinor input) (ci_MonthlyBudgetMinor input);
  Ok {| ci_Name := name; ci_ExpiresAt := ci_ExpiresAt input; ci_AllowedModels := models;
        ci_IPAllowlist := allowlist; ci_RPMLimit := ci_RPMLimit input; ci_TPMLimit := ci_TPMLimit input;
        ci_DailyBudgetMinor := ci_DailyBudgetMinor input; ci_MonthlyBudgetMinor := ci_MonthlyBudgetMinor input |}.

(** A field that is given is normalised. *)
Definition given {A} (f : A -> result error A) (o : option A) : result error (option A) :=
  match o with None => Ok None | Some a => b ← f a; Ok (Some b) end.
Definition given_value (o : option (option Z)) : option Z := match o with Some v => v | None => None end.

Definition validateUpdate (input : UpdateInput) (now : time) : result error UpdateInput :=
  name ← given normalizeName (ui_Name input);
  if negb (match ui_ExpiresAt input with Some e => expiry_ok e now | None => true end) then Err ErrInvalidInput else
  models ← given normalizeModels (ui_AllowedModels input);
  allowlist ← given normalizeIPAllowlist (ui_IPAllowlist input);
  _ ← validateLimits (given_value (ui_RPMLimit input)) (given_value (ui_TPMLimit input))
        (given_value (ui_DailyBudgetMinor input)) (given_value (ui_MonthlyBudgetMinor input));
  Ok {| ui_Name := name; ui_ExpiresAt := ui_ExpiresAt input; ui_AllowedModels := models;
        ui_IPAllowlist := allowlist; ui_RPMLimit := ui_RPMLimit input; ui_TPMLimit := ui_TPMLimit input;
        ui_DailyBudgetMinor := ui_DailyBudgetMinor input; ui_MonthlyBudgetMinor := ui_MonthlyBudgetMinor input |}.
End ApiKey.

Module ApiKeyFacts.
Import ApiKey NetIP.
Import PaymentFunding(RawURLEncode, base64_byte, base64_char).
Import Coordinator(Sha256Hex, sha256_hex).
Import VoucherCodes.

#[local] Ltac Zify.zify_post_hook ::= Z.to_euclidean_division_equations.

(** ** Base64 *)
Definition sextet_text_ok (x : Z) : bool :=
  bool_decide (sextet_of (base64_char x) = Some x)
  && negb (Ascii.eqb (base64_char x) "010" || Ascii.eqb (base64_char x) "013").
Lemma sextets_cons x s : 0 <= x < 64 ->
  sextets_of (String (base64_char x) s) = l ← sextets_of s; Some (x :: l).
Proof.
  intros Hx. assert (sextet_text_ok x = true) as Hok by (by apply (below_all sextet_text_ok 64)).
  unfold sextet_text_ok in Hok. apply andb_true_iff in Hok as [Hs Hn%negb_true_iff]. apply bool_decide_eq_true in Hs.
  cbn [sextets_of]. by rewrite Hn, Hs.
Qed.
Lemma RawURLDecode_Encode l : Forall byte l -> RawURLDecode (RawURLEncode l) = Some l.
Proof.
  unfold RawURLDecode. induction l as [|a|a b|a b c l IH] using triples_ind; intros Hl; [done|..]; each_byte;
    cbn [RawURLEncode]; sextets; rewrite !sextets_cons by lia.
  - cbn. do 2 f_equal. lia.
  - cbn. do 2 f_equal; [lia|]. f_equal. lia.
  - specialize (IH ltac:(done)). destruct (sextets_of (RawURLEncode l)) as [r|]; [|done]. cbn in IH |- *.
    rewrite IH. cbn. do 2 f_equal; [lia|]. f_equal; [lia|]. f_equal. lia.
Qed.

Lemma sextet_range c x : sextet_of c = Some x -> 0 <= x < 64.
Proof.
  unfold sextet_of, is_upper, is_lower, is_digit. pose proof (code c).
  repeat case_match; intros [= <-]; bools; lia.
Qed.
Lemma sextets_range s l : sextets_of s = Some l -> Forall (fun x => 0 <= x < 64) l.
Proof.
  revert l. induction s as [|c s IH]; intros l; cbn [sextets_of]; [by intros [= <-]|].
  destruct (_ || _); [apply IH|]. destruct (sextet_of c) as [x|] eqn:E; [|done]. cbn.
  destruct (sextets_of s) as [r|]; [|done]. cbn. intros [= <-]. constructor; [by eapply sextet_range|by apply IH].
Qed.
(** Lists four at a time. *)
Lemma fours_ind {A} (P : list A -> Prop) :
  P [] -> (forall a, P [a]) -> (forall a b, P [a; b]) -> (forall a b c, P [a; b; c]) ->
  (forall a b c d l, P l -> P (a :: b :: c :: d :: l)) -> forall l, P l.
Proof.
  intros H0 H1 H2 H3 H4. fix IH 1. intros [|a [|b [|c [|d l]]]]; [exact H0|apply H1|apply H2|apply H3|apply H4, IH].
Qed.
Lemma bytes_range l r : Forall (fun x => 0 <= x < 64) l -> bytes_of l = Some r -> Forall byte r.
Proof.
  revert r. induction l as [|a|a b|a b c|a b c d l IH] using fours_ind; intros r Hl; cbn [bytes_of];
    [intros [= <-]; constructor|done|..]; rewrite !Forall_cons in Hl; destruct_and!.
  - intros [= <-]. repeat constructor; lia.
  - intros [= <-]. repeat constructor; lia.
  - destruct (bytes_of l) as [q|]; [|done]. cbn. intros [= <-].
    constructor; [unfold byte; lia|]. constructor; [unfold byte; lia|]. constructor; [unfold byte; lia|]. apply IH; done.
Qed.
Lemma RawURLDecode_bytes s l : RawURLDecode s = Some l -> Forall byte l.
Proof.
  unfold RawURLDecode. destruct (sextets_of s) as [r|] eqn:E; [|done]. cbn. apply bytes_range. by eapply sextets_range.
Qed.

(** The accepted texts are exactly the ones [generateSecret] makes. *)
Definition entropy_ok (entropy : list Z) : Prop := Forall byte entropy /\ List.length entropy = secretEntropyBytes.

Lemma hashSecret_spec `{Sha256Hex} secret h : hashSecret secret = Ok h <->
  exists entropy, entropy_ok entropy /\ secret = secretMarker +:+ RawURLEncode entropy /\ h = sha256_hex secret.
Proof.
  unfold hashSecret, entropy_ok. split.
  - destruct (negb (slen secret =? _) || _) eqn:E1; [done|]. apply orb_false_iff in E1 as [_ E1%negb_false_iff].
    unfold HasPrefix, TrimPrefix in *. destruct (CutPrefix secretMarker secret) as [encoded|] eqn:Ec; [|done]. cbn [from_option id].
    destruct (RawURLDecode encoded) as [decoded|] eqn:Ed; [|done].
    destruct (List.length decoded =? secretEntropyBytes)%nat eqn:El; [|done]. cbn [negb].
    destruct (String.eqb_spec (RawURLEncode decoded) encoded) as [He|]; [|done]. cbn [negb]. intros [= <-].
    exists decoded. apply Nat.eqb_eq in El. split_and!; [by eapply RawURLDecode_bytes|done| |done].
    rewrite He. by apply CutPrefix_Some.
  - intros (entropy & [Hb Hl] & -> & ->).
    assert (slen (secretMarker +:+ RawURLEncode entropy) = slen secretMarker + secretEncodedBytes) as Hlen.
    { rewrite slen_app, RawURLEncode_length, Hl. done. }
    rewrite Hlen, Z.eqb_refl. unfold HasPrefix, TrimPrefix. rewrite CutPrefix_app. cbn [negb orb from_option id].
    rewrite RawURLDecode_Encode, Hl by done. cbn [negb Nat.eqb]. rewrite Nat.eqb_refl. cbn [negb]. by rewrite String.eqb_refl.
Qed.

(** ** Addresses that were parsed are in range *)
Definition address_range (a : Addr) : Prop :=
  match a with V4 b => 0 <= b < 2 ^ 32 | V6 b _ => 0 <= b < 2 ^ 128 end.

Lemma of_fields_range w l acc : 0 <= w -> 0 <= acc -> Forall (fun x => 0 <= x < 2 ^ w) l ->
  0 <= foldl (fun acc x => acc * 2 ^ w + x) acc l < (acc + 1) * 2 ^ (w * Z.of_nat (List.length l)).
Proof.
  intros Hw. revert acc. induction l as [|x l IH]; intros acc Ha Hl; cbn [foldl List.length].
  - rewrite Nat2Z.inj_0, Z.mul_0_r, Z.pow_0_r. lia.
  - apply Forall_cons in Hl as [Hx Hl]. assert (0 < 2 ^ w) by (apply Z.pow_pos_nonneg; lia).
    specialize (IH (acc * 2 ^ w + x) ltac:(nia) Hl). split; [lia|].
    rewrite Nat2Z.inj_succ. replace (w * Z.succ (Z.of_nat (List.length l))) with (w + w * Z.of_nat (List.length l)) by lia.
    rewrite Z.pow_add_r by lia. set (q := 2 ^ (w * Z.of_nat (List.length l))) in *.
    assert (0 < q) by (apply Z.pow_pos_nonneg; lia).
    apply Z.lt_le_trans with ((acc * 2 ^ w + x + 1) * q); [lia|].
    rewrite Z.mul_assoc. apply Z.mul_le_mono_nonneg_r; [lia|]. nia.
Qed.

Lemma digit_range c : is_digit c = true -> 0 <= code c - 48 < 10.
Proof. unfold is_digit. rewrite andb_true_iff, !Z.leb_le. lia. Qed.
Lemma v4_fields_range s ok v d fs l : 0 <= v < 256 -> Forall byte fs -> v4_fields s ok v d fs = Some l ->
  Forall byte l /\ List.length l = 4%nat.
Proof.
  revert ok v d fs. induction s as [|c s IH]; intros ok v d fs Hv Hf; cbn [v4_fields].
  - destruct (_ =? 3)%nat eqn:E; [|done]. apply Nat.eqb_eq in E. intros [= <-].
    change (rev fs ++ [v])%list with (rev (v :: fs)). split.
    + apply Forall_rev. by constructor.
    + rewrite length_rev. simpl. by rewrite E.
  - destruct (is_digit c) eqn:Ed; [|].
    + destruct (_ && _); [done|]. destruct (255 <? _) eqn:E; [done|]. apply IH; [|done].
      pose proof (digit_range c Ed). apply Z.ltb_ge in E. lia.
    + destruct (Ascii.eqb c "."); [|done]. destruct (_ || _ || _); [done|]. apply IH; [lia|]. by constructor.
Qed.
Lemma parseIPv4_range s a : parseIPv4 s = Some a -> address_range a.
Proof.
  unfold parseIPv4. destruct (v4_fields s false 0 0 []) as [l|] eqn:E; [|done]. cbn. intros [= <-].
  apply v4_fields_range in E as [Hb Hl]; [|lia|constructor].
  pose proof (of_fields_range 8 l 0 ltac:(lia) ltac:(lia) Hb) as Hr. rewrite Hl in Hr. exact Hr.
Qed.

Lemma hex_value_range c d : hex_value c = Some d -> 0 <= d < 16.
Proof. unfold hex_value, is_digit. repeat case_match; intros [= <-]; bools; lia. Qed.
Lemma hex_group_range s off acc v o rest : (off <= 4)%nat -> 0 <= acc < 16 ^ Z.of_nat off ->
  hex_group s off acc = Some (v, o, rest) -> (o <= 4)%nat /\ 0 <= v < 16 ^ Z.of_nat o.
Proof.
  revert off acc. induction s as [|c s IH]; intros off acc Ho Ha; cbn [hex_group]; [by intros [= <- <- <-]|].
  destruct (hex_value c) as [d|] eqn:Ed; [|by intros [= <- <- <-]].
  destruct (3 <? off)%nat eqn:E; [done|]. apply Nat.ltb_ge in E. apply IH; [lia|].
  apply hex_value_range in Ed. rewrite Nat2Z.inj_succ, Z.pow_succ_r by lia. lia.
Qed.
Lemma hex_group_word s v o rest : hex_group s 0 0 = Some (v, o, rest) -> word v.
Proof.
  intros Hg. apply hex_group_range in Hg as [Ho Hv]; [|lia|simpl; lia]. unfold word.
  assert (16 ^ Z.of_nat o <= 16 ^ 4) by (apply Z.pow_le_mono_r; lia). lia.
Qed.

Lemma v6_groups_words fuel s acc ell groups ell' rest : Forall word acc ->
  v6_groups fuel s acc ell = Some (groups, ell', rest) ->
  Forall word groups /\ (List.length groups <= List.length acc + fuel)%nat.
Proof.
  revert s acc ell. induction fuel as [|fuel IH]; intros s acc ell Ha; cbn [v6_groups].
  { intros [= <- _ _]. split; [done|lia]. }
  destruct (hex_group s 0 0) as [[[v o] t]|] eqn:Eg; [|done]. cbn -[v4_fields Nat.ltb].
  pose proof (hex_group_word _ _ _ _ Eg) as Hv.
  assert (Forall word (acc ++ [v])%list) as Ha' by (apply Forall_app; split; [done|by constructor]).
  assert (List.length (acc ++ [v]) = S (List.length acc)) as Hla by (rewrite length_app; simpl; lia).
  assert (Forall word (acc ++ [v])%list /\ (List.length (acc ++ [v]) <= List.length acc + S fuel)%nat) as Hend
    by (split; [done|lia]).
  assert (forall t' e, v6_groups fuel t' (acc ++ [v])%list e = Some (groups, ell', rest) ->
    Forall word groups /\ (List.length groups <= List.length acc + S fuel)%nat) as Hrec.
  { intros t' e He. destruct (IH t' _ e Ha' He). split; [done|lia]. }
  destruct (o =? 0)%nat; [done|]. destruct t as [|c t]; [by intros [= <- _ _]|].
  destruct (Ascii.eqb_spec c ".") as [->|Hdot].
  - match goal with |- context [if ?b then None else _] => destruct b; [done|] end.
    destruct (S fuel <? 2)%nat eqn:Ef; [done|]. apply Nat.ltb_ge in Ef.
    destruct (v4_fields s false 0 0 []) as [l|] eqn:E4; [|done]. cbn.
    apply v4_fields_range in E4 as [Hb Hl]; [|lia|constructor].
    destruct l as [|a [|b [|c' [|d [|]]]]]; try done. each_byte. intros [= <- _ _]. unfold byte in *.
    split; [|rewrite length_app; simpl; lia]. apply Forall_app. split; [done|]. unfold word. repeat constructor; lia.
  - destruct (Ascii.eqb_spec c ":") as [->|Hcol].
    + destruct t as [|c' t]; [done|]. destruct (Ascii.eqb c' ":"); [|apply Hrec].
      destruct ell; [done|]. destruct (String.eqb t ""); [by intros [= <- _ _]|apply Hrec].
    + destruct c as [[] [] [] [] [] [] [] []]; done.
Qed.

Lemma v6_text_range s b : v6_text s = Some b -> 0 <= b < 2 ^ 128.
Proof.
  unfold v6_text. destruct (match s with String ":" (String ":" t) => (t, Some 0%nat) | _ => (s, None) end) as [t ell].
  destruct (String.eqb t "" && _); [intros [= <-]; done|].
  destruct (v6_groups 8 t [] ell) as [[[groups ell'] rest]|] eqn:Eg; [|done]. cbn -[expand].
  destruct (negb _); [done|]. apply v6_groups_words in Eg as [Hw Hl8]; [|constructor].
  destruct (expand groups ell') as [l|] eqn:Ee; [|done]. cbn -[of_fields]. intros [= <-].
  assert (Forall word l /\ (List.length l = 8)%nat) as [Hl1 Hl2].
  { unfold expand in Ee. destruct (List.length groups <? 8)%nat eqn:El.
    - apply Nat.ltb_lt in El. destruct ell' as [e|]; [|done]. injection Ee as <-. split.
      + apply Forall_app. split; [by apply Forall_take|]. apply Forall_app. split; [|by apply Forall_drop].
        apply Forall_replicate. unfold word. lia.
      + rewrite !length_app, length_take, length_replicate, length_drop. lia.
    - apply Nat.ltb_ge in El. destruct ell'; [done|]. injection Ee as <-. split; [done|]. simpl in Hl8. lia. }
  pose proof (of_fields_range 16 l 0 ltac:(lia) ltac:(lia) Hl1) as Hr. rewrite Hl2 in Hr. exact Hr.
Qed.

Lemma ParseAddr_range s a : ParseAddr s = Some a -> address_range a.
Proof.
  unfold ParseAddr. destruct (address_kind s) as [c|]; [|done].
  destruct c as [[] [] [] [] [] [] [] []]; try done; [apply parseIPv4_range|].
  unfold parseIPv6. destruct (cut "%" s) as [t zone]. destruct zone as [[|c z]|]; [done|..];
    (destruct (v6_text t) as [b|] eqn:E; [|done]); cbn [mbind option_bind]; intros [= <-]; by apply v6_text_range in E.
Qed.

(** ** Address rules *)
(** What a rule of the list means: the addresses that share the leading bits of its prefix,
    read as IPv4 when it is an IPv4 address in IPv6; or the one address it names. *)
Definition rule_admits (value : string) (source : Addr) : Prop :=
  let value := TrimSpace value in
  match ParsePrefix value with
  | Some p =>
      if Is4In6 (p_Addr p)
      then 96 <= p_Bits p /\ PrefixContains {| p_Addr := Unmap (p_Addr p); p_Bits := p_Bits p - 96 |} source = true
      else PrefixContains p source = true
  | None => match ParseAddr value with Some a => source = without_zone (Unmap a) | None => False end
  end.

Lemma ParsePrefix_ok s p : ParsePrefix s = Some p ->
  address_range (p_Addr p) /\ 0 <= p_Bits p <= BitLen (p_Addr p) /\ without_zone (p_Addr p) = p_Addr p.
Proof.
  unfold ParsePrefix. destruct (last_slash s) as [[addr bits]|]; [|done]. cbn [mbind option_bind].
  destruct (ParseAddr addr) as [ip|] eqn:Ea; [|done]. cbn [mbind option_bind].
  destruct (has_zone ip); [done|]. destruct (match bits with String _ (String _ _) => _ | _ => _ end); [done|].
  destruct (Json.ParseInt64 bits) as [n|]; [|done]. cbn [mbind option_bind].
  destruct ((n <? 0) || (BitLen ip <? n)) eqn:En; [done|]. apply orb_false_iff in En as [H1%Z.ltb_ge H2%Z.ltb_ge].
  intros [= <-]. apply ParseAddr_range in Ea. unfold PrefixFrom.
  rewrite (proj2 (Z.leb_le 0 n)), (proj2 (Z.leb_le n (BitLen ip))) by done. cbn [p_Addr p_Bits andb].
  destruct ip; done.
Qed.

Lemma clear_low_div w n b : clear_low w n b = b / 2 ^ (w - n) * 2 ^ (w - n) \/ w < n.
Proof.
  destruct (Z.ltb_spec w n); [by right|]. left. unfold clear_low.
  rewrite Z.shiftl_mul_pow2, Z.shiftr_div_pow2 by lia. done.
Qed.
Lemma clear_low_range w n b : 0 <= n <= w -> 0 <= b -> 0 <= clear_low w n b <= b.
Proof.
  intros Hn Hb. destruct (clear_low_div w n b) as [->|]; [|lia].
  assert (0 < 2 ^ (w - n)) by (apply Z.pow_pos_nonneg; lia).
  pose proof (Z.mul_div_le b (2 ^ (w - n)) ltac:(lia)). pose proof (Z.div_pos b (2 ^ (w - n)) Hb ltac:(lia)). nia.
Qed.
Lemma clear_low_shift w n b : n <= w -> Z.shiftr (clear_low w n b) (w - n) = Z.shiftr b (w - n).
Proof. intros Hn. unfold clear_low. rewrite Z.shiftr_shiftl_l, Z.sub_diag, Z.shiftl_0_r by lia. done. Qed.

(** Masking keeps an IPv6 address out of the IPv4 range. *)
Lemma clear_low_not_mapped n b : 0 <= n <= 128 -> 0 <= b ->
  (Z.shiftr b 32 =? 65535) = false -> (Z.shiftr (clear_low 128 n b) 32 =? 65535) = false.
Proof.
  intros Hn Hb Hm. apply Z.eqb_neq in Hm. apply Z.eqb_neq. intros Hc. apply Hm. clear Hm.
  destruct (Z.le_gt_cases (128 - n) 32) as [Hk|Hk].
  - rewrite <- Hc. unfold clear_low. set (k := 128 - n) in *.
    replace 32 with (k + (32 - k)) by lia. rewrite <- !Z.shiftr_shiftr by lia.
    rewrite Z.shiftr_shiftl_l, Z.sub_diag, Z.shiftl_0_r by lia. done.
  - exfalso. assert (Z.testbit (Z.shiftr (clear_low 128 n b) 32) 0 = false) as Hbit.
    { rewrite Z.shiftr_spec by lia. unfold clear_low. apply Z.shiftl_spec_low. lia. }
    by rewrite Hc in Hbit.
Qed.

Lemma Masked_ok p : address_range (p_Addr p) -> 0 <= p_Bits p <= BitLen (p_Addr p) ->
  without_zone (p_Addr p) = p_Addr p -> Is4In6 (p_Addr p) = false -> prefix_ok (Masked p).
Proof.
  destruct p as [[b|b z] n]; cbn -[Z.pow Z.shiftr clear_low]; intros Hr Hn Hz Hm; unfold Masked, prefix_ok; cbn -[Z.pow Z.shiftr clear_low].
  - pose proof (clear_low_range 32 n b Hn (proj1 Hr)). split; [lia|done].
  - pose proof (clear_low_range 128 n b Hn (proj1 Hr)). injection Hz as <-. split; [|done].
    split; [lia|]. split; [done|]. apply clear_low_not_mapped; [exact Hn|apply Hr|exact Hm].
Qed.
Lemma Masked_contains p source : p_Bits p <= BitLen (p_Addr p) ->
  PrefixContains (Masked p) source = PrefixContains p source.
Proof.
  destruct p as [[b|b z] n]; cbn [p_Bits p_Addr BitLen]; intros Hn; unfold Masked, PrefixContains; cbn [p_Bits p_Addr];
    destruct source as [c|c zone]; try done.
  - by rewrite !Z.shiftr_lxor, clear_low_shift.
  - destruct zone; [|done]. by rewrite !Z.shiftr_lxor, clear_low_shift.
Qed.
Lemma PrefixContains_all a source :
  PrefixContains {| p_Addr := a; p_Bits := BitLen a |} source = true <-> source = without_zone a.
Proof.
  unfold PrefixContains. destruct a as [b|b z]; cbn [p_Bits p_Addr BitLen];
    (destruct source as [c|c zone]; [|destruct zone]); cbn -[Z.shiftr]; try (split; congruence).
  - rewrite Z.shiftr_0_r, Z.eqb_eq, Z.lxor_eq_0_iff. split; congruence.
  - rewrite Z.shiftr_0_r, Z.eqb_eq, Z.lxor_eq_0_iff. split; congruence.
Qed.

Lemma Unmap_range a : address_range a -> address_range (Unmap a) /\ Is4In6 (Unmap a) = false.
Proof.
  destruct a as [b|b z]; [done|]. unfold Unmap. destruct (Is4In6 (V6 b z)) eqn:E; [|done]. intros _. split; [|done].
  apply Z.mod_pos_bound. done.
Qed.

Lemma normalize_rule_spec value p : normalize_rule value = Some p ->
  prefix_ok p /\ forall source, PrefixContains p source = true <-> rule_admits value source.
Proof.
  unfold normalize_rule, rule_admits. destruct (ParsePrefix (TrimSpace value)) as [q|] eqn:Eq.
  - apply ParsePrefix_ok in Eq as (Hr & Hn & Hz). destruct (Is4In6 (p_Addr q)) eqn:Em.
    + destruct (p_Bits q <? 96) eqn:E96; [done|]. apply Z.ltb_ge in E96. intros [= <-].
      destruct (Unmap_range _ Hr) as [Hr' Hm'].
      assert (PrefixFrom (Unmap (p_Addr q)) (p_Bits q - 96) = {| p_Addr := Unmap (p_Addr q); p_Bits := p_Bits q - 96 |} /\ 0 <= p_Bits q - 96 <= BitLen (Unmap (p_Addr q))
              /\ without_zone (Unmap (p_Addr q)) = Unmap (p_Addr q)) as (-> & Hn' & Hz').
      { destruct q as [[b|b z] n]; [done|]. cbn [p_Addr p_Bits BitLen] in *. unfold Unmap. rewrite Em. unfold PrefixFrom. cbn [BitLen without_zone].
        rewrite (proj2 (Z.leb_le 0 (n - 96))), (proj2 (Z.leb_le (n - 96) 32)) by lia. split_and!; [done|lia|lia|done]. }
      split; [by apply Masked_ok|]. intros source. rewrite Masked_contains by apply Hn'. naive_solver.
    + intros [= <-]. split; [by apply Masked_ok|]. intros source. by rewrite Masked_contains by apply Hn.
  - destruct (ParseAddr (TrimSpace value)) as [a|] eqn:Ea; [|done]. cbn [mbind option_bind]. intros [= <-].
    apply ParseAddr_range, Unmap_range in Ea as [Hr Hm]. set (u := Unmap a) in *.
    assert (PrefixFrom u (BitLen u) = {| p_Addr := without_zone u; p_Bits := BitLen (without_zone u) |}) as ->
      by (destruct u; done).
    assert (Is4In6 (without_zone u) = false) by (destruct u; done).
    split; [apply Masked_ok; destruct u; done|].
    intros source. rewrite Masked_contains by done. rewrite PrefixContains_all. by destruct u.
Qed.

Lemma elem_of_sorted_set x l : x ∈ sorted_set l <-> x ∈ l.
Proof. unfold sorted_set. by rewrite merge_sort_Permutation, elem_of_remove_dups. Qed.

Lemma normalize_rules_spec values rules : normalize_rules values = Some rules ->
  forall text, text ∈ rules <-> exists value p, value ∈ values /\ normalize_rule value = Some p /\ text = Prefix_String p.
Proof.
  revert rules. induction values as [|value values IH]; intros rules; cbn [normalize_rules].
  { intros [= <-] text. rewrite elem_of_nil. split; [done|]. by intros (v & p & ?%elem_of_nil & _). }
  destruct (normalize_rule value) as [p|] eqn:Ep; [|done]. cbn.
  destruct (normalize_rules values) as [l|]; [|done]. cbn. intros [= <-] text. rewrite elem_of_cons, IH by done.
  setoid_rewrite elem_of_cons. naive_solver.
Qed.
Lemma normalize_rules_all values rules value : normalize_rules values = Some rules -> value ∈ values ->
  is_Some (normalize_rule value).
Proof.
  revert rules. induction values as [|v values IH]; intros rules; cbn [normalize_rules]; [by intros _ ?%elem_of_nil|].
  destruct (normalize_rule v) as [p|] eqn:Ep; [|done]. cbn. destruct (normalize_rules values) as [l|]; [|done].
  intros _ [->|Hv]%elem_of_cons; [by eexists|]. by eapply IH.
Qed.
End ApiKeyFacts.
