(* ===== verification/ApiKeyRepo.v ===== *)
(** * Package [internal/apikey]: the repository and the service

    [repository.go] and the calls of [service.go] over the rows of [api_keys], [policies],
    [api_key_policies] and [policy_model_entitlements] (migrations 000001 and 000005). *)

From stdpp Require Import base gmap strings list sorting.
From Stdlib Require Import ZArith Lia Ascii String.
From S2P Require Import Prelude GoLib BillingModel Coordinator NetIP ApiKey.

Module ApiKeyRepo.
Import ApiKey NetIP.
Import Billing(one_of).
Import Coordinator(Sha256Hex, sha256_hex).

(** ** Rows *)
Record KeyRow := {
  kr_ID : uuid; kr_UserID : uuid; kr_Name : string; kr_Prefix : string; kr_Hash : string; kr_Status : string;
  kr_ExpiresAt : option time; kr_IPs : list string; kr_RPM : option Z; kr_TPM : option Z;
  kr_Daily : option Z; kr_Monthly : option Z; kr_LastUsedAt : option time; kr_CreatedAt : time;
  kr_RevokedAt : option time; kr_UpdatedAt : time; kr_RotatedAt : option time; kr_SecretVersion : Z
}.
(** [pol_Managed] is the key of [metadata], when the package made the policy. *)
Record PolicyRow := { pol_DefaultAction : string; pol_Managed : option uuid }.
Record ModelRow := { mo_PublicID : string; mo_Visibility : string; mo_Enabled : bool; mo_DeletedAt : option time }.
Record KeyAudit := { ka_ActorUserID : uuid; ka_Action : string; ka_TargetID : uuid; ka_RequestID : string }.

(** [active_users] are the users that are active and not deleted. *)
Record KeyDB := mkKeyDB {
  api_keys : gmap uuid KeyRow;
  policies : gmap uuid PolicyRow;
  assignments : list (uuid * uuid);
  entitlements : gmap (uuid * uuid) string;
  catalogue : gmap uuid ModelRow;
  active_users : gset uuid;
  key_audits : list KeyAudit
}.
Definition set_keys (f : gmap uuid KeyRow -> gmap uuid KeyRow) (p : KeyDB) : KeyDB :=
  mkKeyDB (f (api_keys p)) (policies p) (assignments p) (entitlements p) (catalogue p) (active_users p) (key_audits p).
Definition set_policies (f : gmap uuid PolicyRow -> gmap uuid PolicyRow) (p : KeyDB) : KeyDB :=
  mkKeyDB (api_keys p) (f (policies p)) (assignments p) (entitlements p) (catalogue p) (active_users p) (key_audits p).
Definition set_assignments (f : list (uuid * uuid) -> list (uuid * uuid)) (p : KeyDB) : KeyDB :=
  mkKeyDB (api_keys p) (policies p) (f (assignments p)) (entitlements p) (catalogue p) (active_users p) (key_audits p).
Definition set_entitlements (f : gmap (uuid * uuid) string -> gmap (uuid * uuid) string) (p : KeyDB) : KeyDB :=
  mkKeyDB (api_keys p) (policies p) (assignments p) (f (entitlements p)) (catalogue p) (active_users p) (key_audits p).
Definition add_audit (a : KeyAudit) (p : KeyDB) : KeyDB :=
  mkKeyDB (api_keys p) (policies p) (assignments p) (entitlements p) (catalogue p) (active_users p) (key_audits p ++ [a])%list.

(** Foreign keys, encodings, the unique names of policies and the audit table: [Some code] is the SQLSTATE the server raises. *)
Class KeyGuards := {
  guard_key : KeyRow -> option string;
  guard_policy : uuid -> PolicyRow -> option string;
  guard_key_audit : KeyAudit -> option string
}.

Definition ktx (A : Type) : Type := tx (list uuid * KeyDB) error A.

(** [mapRepositoryError]. *)
Definition mapRepositoryError (code : string) : error :=
  if String.eqb code "23505" then ErrConflict else EWrapped code.
(** A statement whose error is only wrapped. *)
Definition wrapped (code : string) : error := EWrapped code.

(** The CHECK constraints of [api_keys]. *)
Definition key_check (r : KeyRow) : bool :=
  let all (q : Z -> bool) (o : option Z) := match o with Some x => q x | None => true end in
  one_of (kr_Status r) ["active"; "revoked"; "expired"]
  && all (fun x => 0 <? x) (kr_RPM r) && all (fun x => 0 <? x) (kr_TPM r)
  && all (fun x => 0 <=? x) (kr_Daily r) && all (fun x => 0 <=? x) (kr_Monthly r)
  && (0 <? kr_SecretVersion r).
(** UNIQUE (secret_hash), apart from the row itself. *)
Definition hash_taken (id : uuid) (hash : string) (p : KeyDB) : bool :=
  map_any (fun r => String.eqb (kr_Hash r) hash && negb (uuid_eqb (kr_ID r) id)) (api_keys p).

Definition scanKey (r : KeyRow) : Key :=
  {| k_ID := kr_ID r; k_UserID := kr_UserID r; k_Name := kr_Name r; k_Prefix := kr_Prefix r;
     k_Status := kr_Status r; k_ExpiresAt := kr_ExpiresAt r; k_IPAllowlist := kr_IPs r;
     k_RPMLimit := kr_RPM r; k_TPMLimit := kr_TPM r; k_DailyBudgetMinor := kr_Daily r;
     k_MonthlyBudgetMinor := kr_Monthly r; k_AllowedModels := []; k_LastUsedAt := kr_LastUsedAt r;
     k_CreatedAt := kr_CreatedAt r; k_UpdatedAt := kr_UpdatedAt r; k_RotatedAt := kr_RotatedAt r;
     k_SecretVersion := kr_SecretVersion r |}.
Definition with_models (models : list string) (k : Key) : Key :=
  {| k_ID := k_ID k; k_UserID := k_UserID k; k_Name := k_Name k; k_Prefix := k_Prefix k;
     k_Status := k_Status k; k_ExpiresAt := k_ExpiresAt k; k_IPAllowlist := k_IPAllowlist k;
     k_RPMLimit := k_RPMLimit k; k_TPMLimit := k_TPMLimit k; k_DailyBudgetMinor := k_DailyBudgetMinor k;
     k_MonthlyBudgetMinor := k_MonthlyBudgetMinor k; k_AllowedModels := models; k_LastUsedAt := k_LastUsedAt k;
     k_CreatedAt := k_CreatedAt k; k_UpdatedAt := k_UpdatedAt k; k_RotatedAt := k_RotatedAt k;
     k_SecretVersion := k_SecretVersion k |}.
Definition with_key_status (status : string) (updatedAt : time) (k : Key) : Key :=
  {| k_ID := k_ID k; k_UserID := k_UserID k; k_Name := k_Name k; k_Prefix := k_Prefix k;
     k_Status := status; k_ExpiresAt := k_ExpiresAt k; k_IPAllowlist := k_IPAllowlist k;
     k_RPMLimit := k_RPMLimit k; k_TPMLimit := k_TPMLimit k; k_DailyBudgetMinor := k_DailyBudgetMinor k;
     k_MonthlyBudgetMinor := k_MonthlyBudgetMinor k; k_AllowedModels := k_AllowedModels k;
     k_LastUsedAt := k_LastUsedAt k; k_CreatedAt := k_CreatedAt k; k_UpdatedAt := updatedAt;
     k_RotatedAt := k_RotatedAt k; k_SecretVersion := k_SecretVersion k |}.

(** ** Policies *)
(** The policies assigned to a key. *)
Definition policies_of (key : uuid) (p : KeyDB) : list uuid :=
  snd <$> List.filter (fun a => uuid_eqb a.1 key) (assignments p).
Definition has_entitlement (effect : string) (key model : uuid) (p : KeyDB) : bool :=
  existsb (fun policy => match entitlements p !! (policy, model) with
                         | Some e => String.eqb e effect | None => false end) (policies_of key p).
Definition default_allows (key : uuid) (p : KeyDB) : bool :=
  existsb (fun policy => match policies p !! policy with
                         | Some r => String.eqb (pol_DefaultAction r) "allow" | None => false end)
    (policies_of key p).
Definition live (m : ModelRow) : bool := mo_Enabled m && match mo_DeletedAt m with None => true | Some _ => false end.
Definition public (m : ModelRow) : bool := live m && String.eqb (mo_Visibility m) "public".

(** The public identifiers of the models that satisfy [q], in order. *)
Definition model_listing (q : uuid -> ModelRow -> bool) (p : KeyDB) : list string :=
  merge_sort string_le
    ((fun kv => mo_PublicID kv.2) <$> List.filter (fun kv => q kv.1 kv.2) (map_to_list (catalogue p))).

Definition listAllowedModels (key : uuid) (p : KeyDB) : list string :=
  remove_dups (model_listing (fun id m => live m && has_entitlement "allow" key id p
                                          && negb (has_entitlement "deny" key id p)) p).

Definition requireModels (publicIDs : list string) (p : KeyDB) : result error (list uuid) :=
  if (List.length publicIDs =? 0)%nat then Ok [] else
  let found : gmap string uuid := list_to_map ((fun kv => (mo_PublicID kv.2, kv.1)) <$>
    List.filter (fun kv => public kv.2 && one_of (mo_PublicID kv.2) publicIDs) (map_to_list (catalogue p))) in
  if negb (size found =? List.length publicIDs)%nat then Err ErrInvalidInput
  else Ok ((fun id => default uuid_nil (found !! id)) <$> publicIDs).

(** A user, a key and a version that may be used at [now]. *)
Definition key_valid (keyID userID : uuid) (secretVersion : Z) (now : time) (p : KeyDB) : bool :=
  match api_keys p !! keyID with
  | Some r => uuid_eqb (kr_UserID r) userID && (kr_SecretVersion r =? secretVersion)
              && String.eqb (kr_Status r) "active" && expiry_ok (kr_ExpiresAt r) (pg_time now)
              && bool_decide (userID ∈ active_users p)
  | None => false
  end.

(** The models of the catalogue that are public under an identifier. *)
Definition target_models (publicModelID : string) (p : KeyDB) : list uuid :=
  fst <$> List.filter (fun kv => String.eqb (mo_PublicID kv.2) publicModelID && public kv.2) (map_to_list (catalogue p)).

Definition authorizeModel (keyID userID : uuid) (secretVersion : Z) (publicModelID : string) (now : time)
    (p : KeyDB) : result error bool :=
  let models := target_models publicModelID p in
  let entitled effect := existsb (fun m => has_entitlement effect keyID m p) models in
  if negb (key_valid keyID userID secretVersion now p) then Err ErrInvalidKey else
  if (List.length models =? 0)%nat || entitled "deny" then Ok false
  else Ok (entitled "allow" || default_allows keyID p).

(** A policy of the key allows by default, or allows the model. *)
Definition policy_allows (keyID model : uuid) (p : KeyDB) : bool :=
  existsb (fun policy =>
    match policies p !! policy with
    | Some r => String.eqb (pol_DefaultAction r) "allow"
                || match entitlements p !! (policy, model) with Some e => String.eqb e "allow" | None => false end
    | None => false
    end) (policies_of keyID p).

Definition listAuthorizedModels (keyID userID : uuid) (secretVersion : Z) (now : time) (p : KeyDB)
  : result error (list string) :=
  if negb (key_valid keyID userID secretVersion now p) then Err ErrInvalidKey else
  Ok (model_listing (fun id m => public m && policy_allows keyID id p && negb (has_entitlement "deny" keyID id p)) p).

Section repository.
Context `{KeyGuards}.

Definition guarded (g : option string) (e : string -> error) : ktx unit :=
  match g with Some code => tx_fail (e code) | None => mret tt end.
Definition insert_key_audit (a : KeyAudit) : ktx unit :=
  _ ← db_id (EWrapped "generate UUIDv7"); guarded (guard_key_audit a) wrapped;; db_write (add_audit a).
Definition audit_of (k : uuid) (user : uuid) (action requestID : string) : KeyAudit :=
  {| ka_ActorUserID := user; ka_Action := action; ka_TargetID := k; ka_RequestID := requestID |}.

(** ** Reading *)
Definition findByHash (hash : string) (p : KeyDB) : result error Key :=
  match map_find (fun r => String.eqb (kr_Hash r) hash && bool_decide (kr_UserID r ∈ active_users p)) (api_keys p) with
  | Some r => Ok (scanKey r)
  | None => Err ErrInvalidKey
  end.
Definition findOwnedKey (userID keyID : uuid) : ktx KeyRow :=
  o ← db_read (fun p => api_keys p !! keyID);
  r ← db_some o ErrNotFound;
  db_check (uuid_eqb (kr_UserID r) userID) ErrNotFound;;
  mret r.

Definition newer_key (a b : KeyRow) : Prop :=
  (if kr_CreatedAt a =? kr_CreatedAt b then (kr_ID b <=? kr_ID a)%N else kr_CreatedAt b <? kr_CreatedAt a) = true.
#[export] Instance newer_key_dec : RelDecision newer_key.
Proof. intros a b. unfold newer_key. apply _. Defined.
Definition list_keys (userID : uuid) (p : KeyDB) : list Key :=
  (fun r => with_models (listAllowedModels (kr_ID r) p) (scanKey r)) <$>
  merge_sort newer_key (List.filter (fun r => uuid_eqb (kr_UserID r) userID) (map_to_list (api_keys p)).*2).

(** ** [create] *)
Definition key_row (keyID userID : uuid) (material : storedSecret) (input : CreateInput) (now : time) : KeyRow :=
  {| kr_ID := keyID; kr_UserID := userID; kr_Name := ci_Name input; kr_Prefix := ss_Prefix material;
     kr_Hash := ss_Hash material; kr_Status := "active"; kr_ExpiresAt := pg_time <$> ci_ExpiresAt input;
     kr_IPs := ci_IPAllowlist input; kr_RPM := ci_RPMLimit input; kr_TPM := ci_TPMLimit input;
     kr_Daily := ci_DailyBudgetMinor input; kr_Monthly := ci_MonthlyBudgetMinor input; kr_LastUsedAt := None;
     kr_CreatedAt := now; kr_RevokedAt := None; kr_UpdatedAt := now; kr_RotatedAt := None; kr_SecretVersion := 1 |}.

Definition insert_key (r : KeyRow) : ktx unit :=
  db_check (key_check r) (mapRepositoryError "23514");;
  known ← db_read (fun p => bool_decide (is_Some (api_keys p !! kr_ID r)) || hash_taken (kr_ID r) (kr_Hash r) p);
  db_check (negb known) (mapRepositoryError "23505");;
  guarded (guard_key r) mapRepositoryError;;
  db_write (set_keys (<[kr_ID r := r]>)).

Fixpoint insert_entitlements (policyID : uuid) (models : list uuid) : ktx unit :=
  match models with
  | [] => mret tt
  | model :: models =>
      known ← db_read (fun p => bool_decide (is_Some (entitlements p !! (policyID, model))));
      db_check (negb known) (mapRepositoryError "23505");;
      db_write (set_entitlements (<[(policyID, model) := "allow"]>));;
      insert_entitlements policyID models
  end.

Definition insert_policy (policyID : uuid) (r : PolicyRow) : ktx unit :=
  known ← db_read (fun p => bool_decide (is_Some (policies p !! policyID)));
  db_check (negb known) (mapRepositoryError "23505");;
  guarded (guard_policy policyID r) mapRepositoryError;;
  db_write (set_policies (<[policyID := r]>)).

Definition create_tx (keyID policyID userID : uuid) (material : storedSecret) (input : CreateInput)
    (requestID : string) (now : time) : ktx Key :=
  found ← db_read (requireModels (ci_AllowedModels input));
  modelIDs ← tx_lift found;
  insert_key (key_row keyID userID material input now);;
  insert_policy policyID {| pol_DefaultAction := "deny"; pol_Managed := Some keyID |};;
  db_write (set_assignments (fun l => l ++ [(keyID, policyID)])%list);;
  insert_entitlements policyID modelIDs;;
  insert_key_audit (audit_of keyID userID "apikey.created" requestID);;
  mret {| k_ID := keyID; k_UserID := userID; k_Name := ci_Name input; k_Prefix := ss_Prefix material;
          k_Status := "active"; k_ExpiresAt := ci_ExpiresAt input; k_IPAllowlist := ci_IPAllowlist input;
          k_RPMLimit := ci_RPMLimit input; k_TPMLimit := ci_TPMLimit input;
          k_DailyBudgetMinor := ci_DailyBudgetMinor input; k_MonthlyBudgetMinor := ci_MonthlyBudgetMinor input;
          k_AllowedModels := ci_AllowedModels input; k_LastUsedAt := None; k_CreatedAt := now; k_UpdatedAt := now;
          k_RotatedAt := None; k_SecretVersion := 1 |}.

(** [now] is [NOW()] of the transaction. *)
Definition create (ids : list uuid) (userID : uuid) (material : storedSecret) (input : CreateInput)
    (requestID : string) (now : time) (p : KeyDB) : KeyDB * result error Key :=
  match validateStoredSecret material with
  | Err e => (p, Err e)
  | Ok _ =>
      match ids with
      | keyID :: policyID :: ids => db_run ids (create_tx keyID policyID userID material input requestID now) p
      | _ => (p, Err (EWrapped "generate UUIDv7"))
      end
  end.

(** ** [update] *)
(** [UPDATE api_keys ... WHERE id = $1]. *)
Definition update_key (keyID : uuid) (r : KeyRow) (e : string -> error) : ktx unit :=
  db_check (key_check r) (e "23514");;
  guarded (guard_key r) e;;
  db_write (set_keys (<[keyID := r]>)).

Definition patched {A} (o : option A) (old : A) : A := default old o.
Definition patched_row (r : KeyRow) (input : UpdateInput) (now : time) : KeyRow :=
  {| kr_ID := kr_ID r; kr_UserID := kr_UserID r; kr_Name := patched (ui_Name input) (kr_Name r);
     kr_Prefix := kr_Prefix r; kr_Hash := kr_Hash r; kr_Status := kr_Status r;
     kr_ExpiresAt := pg_time <$> patched (ui_ExpiresAt input) (kr_ExpiresAt r);
     kr_IPs := patched (ui_IPAllowlist input) (kr_IPs r); kr_RPM := patched (ui_RPMLimit input) (kr_RPM r);
     kr_TPM := patched (ui_TPMLimit input) (kr_TPM r); kr_Daily := patched (ui_DailyBudgetMinor input) (kr_Daily r);
     kr_Monthly := patched (ui_MonthlyBudgetMinor input) (kr_Monthly r); kr_LastUsedAt := kr_LastUsedAt r;
     kr_CreatedAt := kr_CreatedAt r; kr_RevokedAt := kr_RevokedAt r; kr_UpdatedAt := now;
     kr_RotatedAt := kr_RotatedAt r; kr_SecretVersion := kr_SecretVersion r |}.
(** The key keeps the expiry it was given, which the row holds in microseconds. *)
Definition patched_key (r : KeyRow) (input : UpdateInput) (now : time) : Key :=
  let k := scanKey (patched_row r input now) in
  {| k_ID := k_ID k; k_UserID := k_UserID k; k_Name := k_Name k; k_Prefix := k_Prefix k; k_Status := k_Status k;
     k_ExpiresAt := patched (ui_ExpiresAt input) (kr_ExpiresAt r); k_IPAllowlist := k_IPAllowlist k;
     k_RPMLimit := k_RPMLimit k; k_TPMLimit := k_TPMLimit k; k_DailyBudgetMinor := k_DailyBudgetMinor k;
     k_MonthlyBudgetMinor := k_MonthlyBudgetMinor k; k_AllowedModels := []; k_LastUsedAt := k_LastUsedAt k;
     k_CreatedAt := k_CreatedAt k; k_UpdatedAt := k_UpdatedAt k; k_RotatedAt := k_RotatedAt k;
     k_SecretVersion := k_SecretVersion k |}.

(** The policy the package manages for a key. *)
Definition managed_policy (keyID : uuid) (p : KeyDB) : option uuid :=
  head (List.filter (fun policy => match policies p !! policy with
                                   | Some r => opt_uuid_eqb (pol_Managed r) (Some keyID) | None => false end)
          (policies_of keyID p)).
Definition replace_models (keyID : uuid) (publicIDs : list string) : ktx unit :=
  found ← db_read (requireModels publicIDs);
  modelIDs ← tx_lift found;
  o ← db_read (managed_policy keyID);
  policyID ← db_some o (EWrapped "query managed API key policy");
  db_write (set_entitlements (filter (fun kv => kv.1.1 <> policyID)));;
  insert_entitlements policyID modelIDs.

Definition update_tx (userID keyID : uuid) (input : UpdateInput) (requestID : string) (now : time) : ktx Key :=
  r ← findOwnedKey userID keyID;
  db_check (String.eqb (kr_Status r) "active") ErrConflict;;
  update_key keyID (patched_row r input now) wrapped;;
  models ← match ui_AllowedModels input with
           | Some publicIDs => replace_models keyID publicIDs;; mret publicIDs
           | None => db_read (listAllowedModels keyID)
           end;
  insert_key_audit (audit_of keyID (kr_UserID r) "apikey.updated" requestID);;
  mret (with_models models (patched_key r input now)).

(** ** [rotate] and [revoke] *)
Definition rotated_row (r : KeyRow) (material : storedSecret) (observed : time) : KeyRow :=
  {| kr_ID := kr_ID r; kr_UserID := kr_UserID r; kr_Name := kr_Name r; kr_Prefix := ss_Prefix material;
     kr_Hash := ss_Hash material; kr_Status := kr_Status r; kr_ExpiresAt := kr_ExpiresAt r; kr_IPs := kr_IPs r;
     kr_RPM := kr_RPM r; kr_TPM := kr_TPM r; kr_Daily := kr_Daily r; kr_Monthly := kr_Monthly r;
     kr_LastUsedAt := kr_LastUsedAt r; kr_CreatedAt := kr_CreatedAt r; kr_RevokedAt := kr_RevokedAt r;
     kr_UpdatedAt := observed; kr_RotatedAt := Some observed; kr_SecretVersion := kr_SecretVersion r + 1 |}.

(** [observed] is [clock_timestamp()] after the row lock. *)
Definition rotate_tx (userID keyID : uuid) (material : storedSecret) (requestID : string) (observed : time) : ktx Key :=
  r ← findOwnedKey userID keyID;
  db_check (String.eqb (kr_Status r) "active" && expiry_ok (kr_ExpiresAt r) observed) ErrConflict;;
  db_check (kr_SecretVersion r <? max_int64) (mapRepositoryError "22003");;
  taken ← db_read (hash_taken keyID (ss_Hash material));
  db_check (negb taken) (mapRepositoryError "23505");;
  update_key keyID (rotated_row r material observed) mapRepositoryError;;
  models ← db_read (listAllowedModels keyID);
  insert_key_audit (audit_of keyID (kr_UserID r) "apikey.rotated" requestID);;
  mret (with_models models (scanKey (rotated_row r material observed))).
Definition rotate (ids : list uuid) (userID keyID : uuid) (material : storedSecret) (requestID : string)
    (observed : time) (p : KeyDB) : KeyDB * result error Key :=
  match validateStoredSecret material with
  | Err e => (p, Err e)
  | Ok _ => db_run ids (rotate_tx userID keyID material requestID observed) p
  end.

Definition revoked_row (r : KeyRow) (now : time) : KeyRow :=
  {| kr_ID := kr_ID r; kr_UserID := kr_UserID r; kr_Name := kr_Name r; kr_Prefix := kr_Prefix r;
     kr_Hash := kr_Hash r; kr_Status := "revoked"; kr_ExpiresAt := kr_ExpiresAt r; kr_IPs := kr_IPs r;
     kr_RPM := kr_RPM r; kr_TPM := kr_TPM r; kr_Daily := kr_Daily r; kr_Monthly := kr_Monthly r;
     kr_LastUsedAt := kr_LastUsedAt r; kr_CreatedAt := kr_CreatedAt r;
     kr_RevokedAt := Some (default (pg_time now) (kr_RevokedAt r));
     kr_UpdatedAt := pg_time now; kr_RotatedAt := kr_RotatedAt r; kr_SecretVersion := kr_SecretVersion r |}.
Definition revoke_tx (userID keyID : uuid) (now : time) (requestID : string) : ktx Key :=
  r ← findOwnedKey userID keyID;
  key ← (if String.eqb (kr_Status r) "revoked" then mret (scanKey r) else
         update_key keyID (revoked_row r now) wrapped;;
         insert_key_audit (audit_of keyID (kr_UserID r) "apikey.revoked" requestID);;
         mret (with_key_status "revoked" now (scanKey r)));
  models ← db_read (listAllowedModels keyID);
  mret (with_models models key).

(** [touchLastUsed]; [ok]: the statement did not fail, its error is ignored. *)
Definition touched_row (r : KeyRow) (now : time) : KeyRow :=
  {| kr_ID := kr_ID r; kr_UserID := kr_UserID r; kr_Name := kr_Name r; kr_Prefix := kr_Prefix r;
     kr_Hash := kr_Hash r; kr_Status := kr_Status r; kr_ExpiresAt := kr_ExpiresAt r; kr_IPs := kr_IPs r;
     kr_RPM := kr_RPM r; kr_TPM := kr_TPM r; kr_Daily := kr_Daily r; kr_Monthly := kr_Monthly r;
     kr_LastUsedAt := Some (pg_time now); kr_CreatedAt := kr_CreatedAt r; kr_RevokedAt := kr_RevokedAt r;
     kr_UpdatedAt := kr_UpdatedAt r; kr_RotatedAt := kr_RotatedAt r; kr_SecretVersion := kr_SecretVersion r |}.
Definition touchLastUsed (keyID : uuid) (now : time) (ok : bool) (p : KeyDB) : KeyDB :=
  match api_keys p !! keyID with
  | Some r =>
      if ok && match kr_LastUsedAt r with None => true | Some t => t <? pg_time now - 5 * Minute end
      then set_keys (<[keyID := touched_row r now]>) p else p
  | None => p
  end.

(** ** The service *)
Context `{Sha256Hex}.

Definition Service_List (userID : uuid) (now : time) (p : KeyDB) : result error (list Key) :=
  if uuid_eqb userID uuid_nil then Err ErrInvalidInput
  else Ok ((fun k => with_key_status (EffectiveStatus (k_Status k) (k_ExpiresAt k) now) (k_UpdatedAt k) k)
             <$> list_keys userID p).

(** [others] commit between the calls of a method. *)
Definition Service_Create (ids : list uuid) (entropy : option (list Z)) (userID : uuid) (input : CreateInput)
    (requestID : string) (now created : time) (p : KeyDB) : KeyDB * result error CreatedKey :=
  if uuid_eqb userID uuid_nil then (p, Err ErrInvalidInput) else
  match validateCreate input now with
  | Err e => (p, Err e)
  | Ok validated =>
      match generateSecret entropy with
      | Err e => (p, Err e)
      | Ok material =>
          match create ids userID (stored material) validated requestID created p with
          | (p', Err e) => (p', Err e)
          | (p', Ok key) => (p', Ok {| ck_Key := key; ck_Secret := sm_Plaintext material |})
          end
      end
  end.

Definition Service_Update (ids : list uuid) (userID keyID : uuid) (input : UpdateInput) (requestID : string)
    (now updated after : time) (p : KeyDB) : KeyDB * result error Key :=
  if uuid_eqb userID uuid_nil || uuid_eqb keyID uuid_nil then (p, Err ErrInvalidInput) else
  match validateUpdate input now with
  | Err e => (p, Err e)
  | Ok validated =>
      match db_run ids (update_tx userID keyID validated requestID updated) p with
      | (p', Err e) => (p', Err e)
      | (p', Ok k) => (p', Ok (with_key_status (EffectiveStatus (k_Status k) (k_ExpiresAt k) after) (k_UpdatedAt k) k))
      end
  end.

Definition Service_Rotate (ids : list uuid) (entropy : option (list Z)) (userID keyID : uuid) (requestID : string)
    (observed : time) (p : KeyDB) : KeyDB * result error CreatedKey :=
  if uuid_eqb userID uuid_nil || uuid_eqb keyID uuid_nil then (p, Err ErrInvalidInput) else
  match generateSecret entropy with
  | Err e => (p, Err e)
  | Ok material =>
      match rotate ids userID keyID (stored material) requestID observed p with
      | (p', Err e) => (p', Err e)
      | (p', Ok key) => (p', Ok {| ck_Key := key; ck_Secret := sm_Plaintext material |})
      end
  end.

Definition Service_Revoke (ids : list uuid) (userID keyID : uuid) (now : time) (requestID : string) (p : KeyDB)
  : KeyDB * result error Key :=
  if uuid_eqb userID uuid_nil || uuid_eqb keyID uuid_nil then (p, Err ErrInvalidInput)
  else db_run ids (revoke_tx userID keyID now requestID) p.

Definition principal_of (key : Key) : Principal :=
  {| pr_UserID := k_UserID key; pr_APIKeyID := k_ID key; pr_KeyPrefix := k_Prefix key;
     pr_SecretVersion := k_SecretVersion key; pr_RPMLimit := k_RPMLimit key; pr_TPMLimit := k_TPMLimit key;
     pr_DailyBudgetMinor := k_DailyBudgetMinor key; pr_MonthlyBudgetMinor := k_MonthlyBudgetMinor key |}.

(** [sourceIP] is [None] for the zero address; [others] commit before the last-used update. *)
Definition Authenticate (others : KeyDB -> KeyDB) (touch : bool) (secret : string) (sourceIP : option Addr)
    (now : time) (p : KeyDB) : KeyDB * result error Principal :=
  match hashSecret secret with
  | Err _ => (p, Err ErrInvalidKey)
  | Ok hash =>
      match findByHash hash p with
      | Err e => (p, Err e)
      | Ok key =>
          if negb (String.eqb (EffectiveStatus (k_Status key) (k_ExpiresAt key) now) "active")
          then (p, Err ErrInvalidKey) else
          match sourceIP with
          | None => (p, Err ErrIPDenied)
          | Some source =>
              if negb (allowsIP (k_IPAllowlist key) (Unmap source)) then (p, Err ErrIPDenied)
              else (touchLastUsed (k_ID key) now touch (others p), Ok (principal_of key))
          end
      end
  end.

(** [limit] is the limiter: [Allow] with its state. *)
Definition Authorize {L} (limit : uuid -> option Z -> option Z -> Z -> time -> L -> L * result error unit)
    (principal : Principal) (publicModelID : string) (tokens : Z) (now : time) (p : KeyDB) (l : L)
  : L * result error unit :=
  let publicModelID := TrimSpace publicModelID in
  if uuid_eqb (pr_UserID principal) uuid_nil || uuid_eqb (pr_APIKeyID principal) uuid_nil
     || (pr_SecretVersion principal <=? 0) || String.eqb publicModelID "" || (tokens <? 0)
  then (l, Err ErrInvalidInput) else
  match authorizeModel (pr_APIKeyID principal) (pr_UserID principal) (pr_SecretVersion principal) publicModelID now p with
  | Err e => (l, Err e)
  | Ok false => (l, Err ErrModelDenied)
  | Ok true => limit (pr_APIKeyID principal) (pr_RPMLimit principal) (pr_TPMLimit principal) tokens now l
  end.

Definition ListAuthorizedModels (principal : Principal) (now : time) (p : KeyDB) : result error (list string) :=
  if uuid_eqb (pr_UserID principal) uuid_nil || uuid_eqb (pr_APIKeyID principal) uuid_nil
     || (pr_SecretVersion principal <=? 0) then Err ErrInvalidInput
  else listAuthorizedModels (pr_APIKeyID principal) (pr_UserID principal) (pr_SecretVersion principal) now p.
End repository.
End ApiKeyRepo.
