(* ===== verification/ApiKeyTheorems.v ===== *)
(** * Properties of API keys

    Histories of the calls of the service (module [ApiKeyTheorems]), the policy of a key and
    its rules (module [ApiKeyPolicy]), and a run (module [ApiKeyDemo]). *)

From stdpp Require Import base gmap strings list sorting relations sets.
From Stdlib Require Import ZArith Lia Ascii String.
From S2P Require Import Prelude GoLib BillingModel Coordinator PaymentFunding PaymentQueries NetIP ApiKey ApiKeyRepo.

Module ApiKeyTheorems.
Import ApiKey ApiKeyFacts ApiKeyRepo NetIP.
Import Coordinator(Sha256Hex, sha256_hex).
Import PaymentFunding(RawURLEncode).

Section histories.
Context `{KeyGuards, Sha256Hex}.

(** ** What a call changes of the keys *)
(** A secret that was returned: key, version and plaintext. *)
Definition issue : Type := uuid * Z * string.
Definition issued (r : result error CreatedKey) : list issue :=
  match r with
  | Ok c => [(k_ID (ck_Key c), k_SecretVersion (ck_Key c), ck_Secret c)]
  | Err _ => []
  end.

Inductive change (log : list issue) (p : KeyDB) : list issue -> KeyDB -> Prop :=
| change_none p' : api_keys p' = api_keys p -> change log p log p'
| change_insert p' r secret :
    api_keys p !! kr_ID r = None -> kr_SecretVersion r = 1 -> kr_Hash r = sha256_hex secret ->
    hash_taken (kr_ID r) (kr_Hash r) p = false ->
    api_keys p' = <[kr_ID r := r]> (api_keys p) -> change log p (log ++ [(kr_ID r, 1, secret)])%list p'
| change_update p' k r r' :
    api_keys p !! k = Some r -> kr_ID r' = kr_ID r -> kr_UserID r' = kr_UserID r -> kr_Hash r' = kr_Hash r ->
    kr_SecretVersion r' = kr_SecretVersion r -> kr_Status r' = kr_Status r \/ kr_Status r' = "revoked" ->
    api_keys p' = <[k := r']> (api_keys p) -> change log p log p'
| change_rotate p' k r r' secret :
    api_keys p !! k = Some r -> kr_ID r' = kr_ID r -> kr_UserID r' = kr_UserID r -> kr_Hash r' = sha256_hex secret ->
    kr_SecretVersion r' = kr_SecretVersion r + 1 -> kr_Status r = "active" -> kr_Status r' = "active" ->
    hash_taken k (kr_Hash r') p = false ->
    api_keys p' = <[k := r']> (api_keys p) ->
    change log p (log ++ [(k, kr_SecretVersion r', secret)])%list p'.

(** *** Statements *)
Lemma guarded_ok g e s s' u : guarded g e s = Ok (s', u) -> s' = s.
Proof. unfold guarded. destruct g; [done|by intros [= <-]]. Qed.
Lemma insert_key_audit_ok a ids p s' u : insert_key_audit a (ids, p) = Ok (s', u) ->
  exists rest, s' = (rest, add_audit a p).
Proof.
  intros Hm. unfold insert_key_audit in Hm. db_inv.
  match goal with Hg : guarded _ _ _ = Ok _ |- _ => apply guarded_ok in Hg; subst end. db_inv. by eexists.
Qed.
Lemma insert_entitlements_ok policy models ids p s' u : insert_entitlements policy models (ids, p) = Ok (s', u) ->
  exists f, s' = (ids, set_entitlements f p)
    /\ forall q m, f (entitlements p) !! (q, m) = if decide (q = policy /\ m ∈ models) then Some "allow" else entitlements p !! (q, m).
Proof.
  revert p. induction models as [|x models IH]; intros p Hm; cbn [insert_entitlements] in Hm.
  - db_inv. exists (fun e => e). split; [by destruct p|]. intros q m. rewrite decide_False; [done|]. by intros [_ ?%elem_of_nil].
  - db_inv. match goal with Hr : insert_entitlements _ _ _ = Ok _ |- _ => apply IH in Hr as (f & -> & Hf) end.
    exists (fun e => f (<[(policy, x) := "allow"]> e)). split; [done|]. intros q m. cbn [entitlements set_entitlements] in Hf. rewrite Hf.
    destruct (decide (q = policy /\ m ∈ models)) as [[-> Hin]|Hn]; [rewrite decide_True; [done|by split; [|constructor]]|].
    destruct (decide (q = policy /\ m = x)) as [[-> ->]|Hx].
    + rewrite lookup_insert_eq, decide_True; [done|]. split; [done|constructor].
    + rewrite lookup_insert_ne by naive_solver. rewrite decide_False; [done|]. intros [-> [-> | ?]%elem_of_cons]; naive_solver.
Qed.
Lemma findOwnedKey_ok user k s s' r : findOwnedKey user k s = Ok (s', r) ->
  s' = s /\ api_keys s.2 !! k = Some r /\ kr_UserID r = user.
Proof.
  intros Hm. destruct s as [ids p]. unfold findOwnedKey in Hm. db_inv. split_and!; [done|done|]. by apply uuid_eqb_eq.
Qed.
Lemma update_key_ok k r e ids p s' u : update_key k r e (ids, p) = Ok (s', u) ->
  s' = (ids, set_keys (<[k := r]>) p) /\ key_check r = true.
Proof.
  intros Hm. unfold update_key in Hm. db_inv.
  match goal with Hg : guarded _ _ _ = Ok _ |- _ => apply guarded_ok in Hg; subst end. by db_inv.
Qed.
Lemma insert_key_ok r ids p s' u : insert_key r (ids, p) = Ok (s', u) ->
  s' = (ids, set_keys (<[kr_ID r := r]>) p) /\ api_keys p !! kr_ID r = None
  /\ hash_taken (kr_ID r) (kr_Hash r) p = false.
Proof.
  intros Hm. unfold insert_key in Hm. db_inv.
  match goal with Hg : guarded _ _ _ = Ok _ |- _ => apply guarded_ok in Hg; subst end. db_inv. bools.
  split_and!; [done| |done]. destruct (api_keys p !! kr_ID r) eqn:E; [|done].
  exfalso. match goal with Hn : ~ is_Some _ |- _ => apply Hn end. by eexists.
Qed.
End histories.

Ltac k_step :=
  match goal with
  | H : insert_key_audit _ (_, _) = Ok (_, _) |- _ =>
      let rest := fresh "ids" in apply insert_key_audit_ok in H as (rest & ?); subst
  | H : insert_entitlements _ _ (_, _) = Ok (_, _) |- _ =>
      let f := fresh "f" in apply insert_entitlements_ok in H as (f & ? & ?); subst
  | H : findOwnedKey _ _ _ = Ok (_, _) |- _ => apply findOwnedKey_ok in H as (? & ? & ?); subst
  | H : guarded _ _ _ = Ok (_, _) |- _ => apply guarded_ok in H; subst
  | H : update_key _ _ _ (_, _) = Ok (_, _) |- _ => apply update_key_ok in H as (? & ?); subst
  | H : insert_key _ (_, _) = Ok (_, _) |- _ => apply insert_key_ok in H as (? & ? & ?); subst
  | H : tx_lift _ _ = Ok (_, _) |- _ => apply tx_lift_ok in H as [? ?]; subst
  | H : (if ?b then _ else _) _ = Ok (_, _) |- _ => let E := fresh "E" in destruct b eqn:E
  | H : match ?b with Some _ => _ | None => _ end _ = Ok (_, _) |- _ => let E := fresh "E" in destruct b eqn:E
  | _ => db_step
  end.
Ltac k_inv := repeat (k_step; cbn [fst snd] in * ).

Section calls.
Context `{KeyGuards, Sha256Hex}.

Lemma create_tx_ok keyID policyID user material input req now ids p s' k :
  create_tx keyID policyID user material input req now (ids, p) = Ok (s', k) ->
  let r := key_row keyID user material input now in
  api_keys s'.2 = <[keyID := r]> (api_keys p) /\ api_keys p !! keyID = None
  /\ hash_taken keyID (ss_Hash material) p = false /\ k_ID k = keyID /\ k_SecretVersion k = 1.
Proof. intros Hm. unfold create_tx, insert_policy in Hm. k_inv. by split_and!. Qed.

Lemma update_tx_ok user keyID input req now ids p s' k :
  update_tx user keyID input req now (ids, p) = Ok (s', k) ->
  exists r, api_keys p !! keyID = Some r /\ kr_UserID r = user /\ kr_Status r = "active"
    /\ api_keys s'.2 = <[keyID := patched_row r input now]> (api_keys p).
Proof.
  intros Hm. unfold update_tx, replace_models in Hm. k_inv;
    (match goal with E : String.eqb _ _ = true |- _ => apply String.eqb_eq in E end); by eexists.
Qed.

Lemma rotate_tx_ok user keyID material req observed ids p s' k :
  rotate_tx user keyID material req observed (ids, p) = Ok (s', k) ->
  exists r, api_keys p !! keyID = Some r /\ kr_UserID r = user /\ kr_Status r = "active"
    /\ expiry_ok (kr_ExpiresAt r) observed = true /\ hash_taken keyID (ss_Hash material) p = false
    /\ api_keys s'.2 = <[keyID := rotated_row r material observed]> (api_keys p)
    /\ k_ID k = kr_ID r /\ k_SecretVersion k = kr_SecretVersion r + 1.
Proof.
  intros Hm. unfold rotate_tx in Hm. k_inv. bools. eexists. by split_and!.
Qed.

Lemma revoke_tx_ok user keyID now req ids p s' k :
  revoke_tx user keyID now req (ids, p) = Ok (s', k) ->
  exists r, api_keys p !! keyID = Some r /\ kr_UserID r = user
    /\ (kr_Status r = "revoked" /\ api_keys s'.2 = api_keys p
        \/ api_keys s'.2 = <[keyID := revoked_row r now]> (api_keys p)).
Proof.
  intros Hm. unfold revoke_tx in Hm. k_inv.
  - eexists. split_and!; [done|done|]. left. split; [|done]. by apply String.eqb_eq.
  - eexists. split_and!; [done|done|]. by right.
Qed.

(** *** Calls *)
Definition keyed (p : KeyDB) : Prop := forall k r, api_keys p !! k = Some r -> kr_ID r = k.

Lemma key_Create_change log ids entropy user input req now created p p' r :
  Service_Create ids entropy user input req now created p = (p', r) -> change log p (log ++ issued r) p'.
Proof.
  unfold Service_Create, create. intros Hc.
  assert (forall e, (p, Err e) = (p', r) -> change log p (log ++ issued r) p') as Herr.
  { intros e [= <- <-]. simpl. rewrite app_nil_r. by constructor. }
  destruct (uuid_eqb _ _); [by eapply Herr|]. destruct (validateCreate input now) as [n|e]; [|by eapply Herr].
  destruct (generateSecret entropy) as [m|e] eqn:Em; [|by eapply Herr].
  destruct (validateStoredSecret _) as [u|e]; [|by eapply Herr].
  destruct ids as [|keyID [|policyID ids]]; [by eapply Herr..|].
  destruct (db_run _ _ p) as [q res] eqn:Er. apply db_run_ok in Er as [(s & k & Hm & -> & ->)|(e & -> & ->)]; [|by eapply Herr].
  injection Hc as <- <-. apply create_tx_ok in Hm as (Hk & Hn & Ht & Hid & Hv). simpl. rewrite Hid, Hv.
  destruct entropy as [entropy|]; [|done]. injection Em as <-.
  match type of Hk with _ = <[_ := ?row]> _ => by apply (change_insert _ _ _ row) end.
Qed.

Lemma Service_Update_change log ids user k input req now updated after p p' r :
  Service_Update ids user k input req now updated after p = (p', r) -> change log p log p'.
Proof.
  unfold Service_Update. intros Hc.
  assert (forall e : error, (p, Err e) = (p', r) -> change log p log p') as Herr by (intros e [= <- _]; by constructor).
  destruct (_ || _); [by eapply Herr|]. destruct (validateUpdate input now) as [n|e]; [|by eapply Herr].
  destruct (db_run _ _ p) as [q res] eqn:Er. apply db_run_ok in Er as [(s & key & Hm & -> & ->)|(e & -> & ->)]; [|by eapply Herr].
  injection Hc as <- <-. apply update_tx_ok in Hm as (row & Hr & _ & _ & Hk).
  apply (change_update _ _ _ k row (patched_row row n updated)); try done. by left.
Qed.

Lemma Service_Rotate_ok ids entropy user k req observed p p' r : keyed p ->
  Service_Rotate ids entropy user k req observed p = (p', r) ->
  p' = p /\ (exists e, r = Err e)
  \/ exists row m c, api_keys p !! k = Some row /\ kr_UserID row = user /\ kr_Status row = "active"
       /\ expiry_ok (kr_ExpiresAt row) observed = true /\ hash_taken k (sm_Hash m) p = false
       /\ sm_Hash m = sha256_hex (sm_Plaintext m)
       /\ api_keys p' = <[k := rotated_row row (stored m) observed]> (api_keys p)
       /\ r = Ok c /\ issued r = [(k, kr_SecretVersion row + 1, sm_Plaintext m)].
Proof.
  intros HK. unfold Service_Rotate, rotate. intros Hc.
  assert (forall e : error, (p, Err e) = (p', r) -> p' = p /\ (exists e, r = Err e)) as Herr
    by (intros e [= <- <-]; split; [done|by eexists]).
  destruct (_ || _); [left; by eapply Herr|]. destruct (generateSecret entropy) as [m|e] eqn:Em; [|left; by eapply Herr].
  destruct (validateStoredSecret _) as [u|e]; [|left; by eapply Herr].
  destruct (db_run _ _ p) as [q res] eqn:Er.
  apply db_run_ok in Er as [(s & key & Hm & -> & ->)|(e & -> & ->)]; [|left; by eapply Herr].
  injection Hc as <- <-. right. apply rotate_tx_ok in Hm as (row & Hr & Hu & Hs & He & Ht & Hk & Hid & Hv).
  destruct entropy as [entropy|]; [|done]. injection Em as <-.
  eexists row, _, _. split_and!; [done|done|done|done|exact Ht|done|exact Hk|done|]. simpl. rewrite Hid, Hv.
  by rewrite (HK _ _ Hr).
Qed.
Lemma Service_Rotate_change log ids entropy user k req observed p p' r : keyed p ->
  Service_Rotate ids entropy user k req observed p = (p', r) -> change log p (log ++ issued r) p'.
Proof.
  intros HK [[-> (e & ->)]|(row & m & c & Hr & Hu & Hs & _ & Ht & Hh & Hk & _ & ->)]%Service_Rotate_ok; [|..|done].
  - simpl. rewrite app_nil_r. by constructor.
  - apply (change_rotate _ _ _ k row (rotated_row row (stored m) observed)); done.
Qed.

Lemma Service_Revoke_ok ids user k now req p p' r :
  Service_Revoke ids user k now req p = (p', r) ->
  p' = p /\ (exists e, r = Err e)
  \/ exists row key, api_keys p !! k = Some row /\ kr_UserID row = user /\ r = Ok key
       /\ (kr_Status row = "revoked" /\ api_keys p' = api_keys p
           \/ api_keys p' = <[k := revoked_row row now]> (api_keys p)).
Proof.
  unfold Service_Revoke. destruct (_ || _); [intros [= <- <-]; left; split; [done|by eexists]|].
  intros [(s & key & Hm & -> & ->)|(e & -> & ->)]%db_run_ok; [right|left; split; [done|by eexists]].
  apply revoke_tx_ok in Hm as (row & Hr & Hu & Hc). by exists row, key.
Qed.
Lemma Service_Revoke_change log ids user k now req p p' r :
  Service_Revoke ids user k now req p = (p', r) -> change log p log p'.
Proof.
  intros [[-> _]|(row & key & Hr & _ & _ & [[_ Hk]|Hk])]%Service_Revoke_ok; [by constructor..|].
  apply (change_update _ _ _ k row (revoked_row row now)); try done. by right.
Qed.
Lemma touch_change log k now ok p : change log p log (touchLastUsed k now ok p).
Proof.
  unfold touchLastUsed. destruct (api_keys p !! k) as [r|] eqn:Er; [|by constructor].
  destruct (ok && _); [|by constructor]. apply (change_update _ _ _ k r (touched_row r now)); try done. by left.
Qed.

(** ** Histories *)
(** A call, or a change that other packages make: they do not write [api_keys]. *)
Inductive step : list issue * KeyDB -> list issue * KeyDB -> Prop :=
| step_create log p p' r ids entropy user input req now created :
    Service_Create ids entropy user input req now created p = (p', r) -> step (log, p) ((log ++ issued r)%list, p')
| step_update log p p' r ids user k input req now updated after :
    Service_Update ids user k input req now updated after p = (p', r) -> step (log, p) (log, p')
| step_rotate log p p' r ids entropy user k req observed :
    Service_Rotate ids entropy user k req observed p = (p', r) -> step (log, p) ((log ++ issued r)%list, p')
| step_revoke log p p' r ids user k now req :
    Service_Revoke ids user k now req p = (p', r) -> step (log, p) (log, p')
| step_touch log p k now ok : step (log, p) (log, touchLastUsed k now ok p)
| step_others log p p' : api_keys p' = api_keys p -> step (log, p) (log, p').
Definition history := rtc step.

Record sound (s : list issue * KeyDB) : Prop := {
  s_key : keyed s.2;
  s_hash : forall k k' r r', api_keys s.2 !! k = Some r -> api_keys s.2 !! k' = Some r' -> kr_Hash r = kr_Hash r' -> k = k';
  s_latest : forall k r, api_keys s.2 !! k = Some r ->
    exists secret, (k, kr_SecretVersion r, secret) ∈ s.1 /\ kr_Hash r = sha256_hex secret;
  s_logged : forall k v secret, (k, v, secret) ∈ s.1 -> exists r, api_keys s.2 !! k = Some r /\ v <= kr_SecretVersion r;
  s_positive : forall k v secret, (k, v, secret) ∈ s.1 -> 1 <= v;
  s_one : forall k v secret secret', (k, v, secret) ∈ s.1 -> (k, v, secret') ∈ s.1 -> secret = secret'
}.

(** What stays of a key. *)
Definition later (p p' : KeyDB) : Prop := forall k r, api_keys p !! k = Some r ->
  exists r', api_keys p' !! k = Some r' /\ kr_UserID r' = kr_UserID r /\ kr_SecretVersion r <= kr_SecretVersion r'
    /\ (kr_Status r = "revoked" -> kr_Status r' = "revoked").
Lemma later_refl p : later p p.
Proof. intros k r Hr. by exists r. Qed.
Lemma later_trans p q r : later p q -> later q r -> later p r.
Proof.
  intros H1 H2 k a Ha. destruct (H1 _ _ Ha) as (b & Hb & ? & ? & ?). destruct (H2 _ _ Hb) as (c & Hc & ? & ? & ?).
  exists c. split_and!; [done|congruence|lia|auto].
Qed.

Lemma hash_taken_false id hash p : hash_taken id hash p = false -> keyed p ->
  forall k r, api_keys p !! k = Some r -> k <> id -> kr_Hash r <> hash.
Proof.
  unfold hash_taken. rewrite map_any_false. intros Ht HK k r Hr Hne Hh. specialize (Ht _ _ Hr).
  rewrite Hh, String.eqb_refl, (HK _ _ Hr), (proj2 (uuid_eqb_neq _ _) Hne) in Ht. done.
Qed.

(** A row is replaced. *)
Lemma replaced_keyed p p' k r' : keyed p -> kr_ID r' = k -> api_keys p' = <[k := r']> (api_keys p) -> keyed p'.
Proof. unfold keyed. intros HK Hid -> j r [[<- <-]|[_ ?]]%lookup_insert_Some; [done|by apply HK]. Qed.
Lemma replaced_hash p p' k r' : keyed p ->
  (forall j r, api_keys p !! j = Some r -> j <> k -> kr_Hash r <> kr_Hash r') ->
  (forall j j' a b, api_keys p !! j = Some a -> api_keys p !! j' = Some b -> kr_Hash a = kr_Hash b -> j = j') ->
  api_keys p' = <[k := r']> (api_keys p) ->
  forall j j' a b, api_keys p' !! j = Some a -> api_keys p' !! j' = Some b -> kr_Hash a = kr_Hash b -> j = j'.
Proof.
  intros HK Hn Hh -> j j' a b [[<- <-]|[H1 Ha]]%lookup_insert_Some [[<- <-]|[H2 Hb]]%lookup_insert_Some E; try done.
  - by destruct (Hn _ _ Hb).
  - by destruct (Hn _ _ Ha).
  - by eapply Hh.
Qed.
Lemma replaced_later p p' k r r' : api_keys p !! k = Some r -> api_keys p' = <[k := r']> (api_keys p) ->
  kr_UserID r' = kr_UserID r -> kr_SecretVersion r <= kr_SecretVersion r' ->
  (kr_Status r = "revoked" -> kr_Status r' = "revoked") -> later p p'.
Proof.
  unfold later. intros Hr -> Hu Hv Hs j a Ha. destruct (decide (j = k)) as [->|Hne].
  - rewrite Hr in Ha. injection Ha as <-. exists r'. by rewrite lookup_insert_eq.
  - exists a. by rewrite lookup_insert_ne.
Qed.

Lemma insert_sound log p p' r secret : sound (log, p) -> api_keys p !! kr_ID r = None -> kr_SecretVersion r = 1 ->
  kr_Hash r = sha256_hex secret -> hash_taken (kr_ID r) (kr_Hash r) p = false ->
  api_keys p' = <[kr_ID r := r]> (api_keys p) -> sound ((log ++ [(kr_ID r, 1, secret)])%list, p') /\ later p p'.
Proof.
  intros [HK Hh Hl Hg Hpos H1] Hn Hv Hs Ht Hp'. cbn [fst snd] in *.
  assert (forall v s', (kr_ID r, v, s') ∈ log -> False) as Hnew.
  { intros v s' Hin. destruct (Hg _ _ _ Hin) as (a & Ha & _). congruence. }
  split.
  - constructor; cbn [fst snd].
    + by eapply replaced_keyed.
    + eapply replaced_hash; [done| |done|done]. intros j a Ha Hne. by eapply hash_taken_false.
    + rewrite Hp'. intros k a [[<- <-]|[_ Ha]]%lookup_insert_Some.
      * exists secret. rewrite Hv. split; [set_solver|done].
      * destruct (Hl _ _ Ha) as (s' & ? & ?). exists s'. split; [set_solver|done].
    + rewrite Hp'. intros k v s' [Hin|Hin]%elem_of_app.
      * destruct (Hg _ _ _ Hin) as (a & Ha & ?). exists a. split; [|done].
        rewrite lookup_insert_ne; [done|]. intros <-. by eapply Hnew.
      * apply list_elem_of_singleton in Hin. injection Hin as -> -> ->. exists r. rewrite lookup_insert_eq. split; [done|lia].
    + intros k v s' [Hin|Hin]%elem_of_app; [by eapply Hpos|].
      apply list_elem_of_singleton in Hin. injection Hin as -> -> ->. lia.
    + intros k v s1 s2 [A|A]%elem_of_app [B|B]%elem_of_app; try apply list_elem_of_singleton in A; try apply list_elem_of_singleton in B.
      * by eapply H1.
      * injection B as -> -> ->. by destruct (Hnew _ _ A).
      * injection A as -> -> ->. by destruct (Hnew _ _ B).
      * congruence.
  - intros k a Ha. exists a. rewrite Hp', lookup_insert_ne by congruence. done.
Qed.

Lemma key_update_sound log p p' k r r' : sound (log, p) -> api_keys p !! k = Some r -> kr_ID r' = kr_ID r ->
  kr_UserID r' = kr_UserID r -> kr_Hash r' = kr_Hash r -> kr_SecretVersion r' = kr_SecretVersion r ->
  kr_Status r' = kr_Status r \/ kr_Status r' = "revoked" ->
  api_keys p' = <[k := r']> (api_keys p) -> sound (log, p') /\ later p p'.
Proof.
  intros [HK Hh Hl Hg Hpos H1] Hr Hi Hu Hha Hv Hs Hp'. cbn [fst snd] in *. split.
  - constructor; cbn [fst snd]; [..|done|done].
    + eapply replaced_keyed; [done| |done]. rewrite Hi. by apply HK.
    + eapply replaced_hash; [done| |done|done]. intros j a Ha Hne Heq. rewrite Hha in Heq. by destruct (Hne (Hh _ _ _ _ Ha Hr Heq)).
    + rewrite Hp'. intros j a [[<- <-]|[_ Ha]]%lookup_insert_Some; [|by apply Hl]. rewrite Hv, Hha. by apply Hl.
    + rewrite Hp'. intros j v s' Hin. destruct (Hg _ _ _ Hin) as (a & Ha & ?).
      destruct (decide (j = k)) as [->|Hne].
      * exists r'. rewrite lookup_insert_eq. rewrite Hr in Ha. injection Ha as <-. split; [done|lia].
      * exists a. by rewrite lookup_insert_ne.
  - eapply replaced_later; [done|done|done|lia|]. intros E. destruct Hs as [-> | ->]; done.
Qed.

Lemma rotate_sound log p p' k r r' secret : sound (log, p) -> api_keys p !! k = Some r -> kr_ID r' = kr_ID r ->
  kr_UserID r' = kr_UserID r -> kr_Hash r' = sha256_hex secret -> kr_SecretVersion r' = kr_SecretVersion r + 1 ->
  kr_Status r = "active" -> hash_taken k (kr_Hash r') p = false ->
  api_keys p' = <[k := r']> (api_keys p) -> sound ((log ++ [(k, kr_SecretVersion r', secret)])%list, p') /\ later p p'.
Proof.
  intros [HK Hh Hl Hg Hpos H1] Hr Hi Hu Hha Hv Hs Ht Hp'. cbn [fst snd] in *.
  assert (forall v s', (k, v, s') ∈ log -> v < kr_SecretVersion r') as Hnew.
  { intros v s' Hin. destruct (Hg _ _ _ Hin) as (a & Ha & ?). rewrite Hr in Ha. injection Ha as <-. lia. }
  assert (1 <= kr_SecretVersion r) as Hone by (destruct (Hl _ _ Hr) as (s' & Hin & _); by eapply Hpos).
  split.
  - constructor; cbn [fst snd].
    + eapply replaced_keyed; [done| |done]. rewrite Hi. by apply HK.
    + eapply replaced_hash; [done| |done|done]. intros j a Ha Hne. by eapply hash_taken_false.
    + rewrite Hp'. intros j a [[<- <-]|[_ Ha]]%lookup_insert_Some.
      * exists secret. split; [set_solver|done].
      * destruct (Hl _ _ Ha) as (s' & ? & ?). exists s'. split; [set_solver|done].
    + rewrite Hp'. intros j v s' [Hin|Hin]%elem_of_app.
      * destruct (Hg _ _ _ Hin) as (a & Ha & ?). destruct (decide (j = k)) as [->|Hne].
        -- exists r'. rewrite lookup_insert_eq. split; [done|]. apply Hnew in Hin. lia.
        -- exists a. by rewrite lookup_insert_ne.
      * apply list_elem_of_singleton in Hin. injection Hin as -> -> ->. exists r'. rewrite lookup_insert_eq. split; [done|lia].
    + intros j v s' [Hin|Hin]%elem_of_app; [by eapply Hpos|].
      apply list_elem_of_singleton in Hin. injection Hin as -> -> ->. lia.
    + intros j v s1 s2 [A|A]%elem_of_app [B|B]%elem_of_app; try apply list_elem_of_singleton in A; try apply list_elem_of_singleton in B.
      * by eapply H1.
      * injection B as -> -> ->. apply Hnew in A. lia.
      * injection A as -> -> ->. apply Hnew in B. lia.
      * congruence.
  - eapply replaced_later; [done|done|done|lia|]. rewrite Hs. done.
Qed.

Lemma key_change_sound log p log' p' : sound (log, p) -> change log p log' p' -> sound (log', p') /\ later p p'.
Proof.
  intros S [q Hq|q r secret|q k r r'|q k r r' secret].
  - split; [|intros k r Hr; exists r; by rewrite Hq].
    destruct S as [HK Hh Hl Hg Hpos H1]. cbn [fst snd] in *. constructor; cbn [fst snd]; rewrite ?Hq; try done. unfold keyed. by rewrite Hq.
  - by apply insert_sound.
  - by eapply key_update_sound.
  - by eapply rotate_sound.
Qed.
Lemma step_sound s s' : sound s -> step s s' -> sound s' /\ later s.2 s'.2.
Proof.
  intros S St. destruct St; cbn [snd]; (eapply key_change_sound; [exact S|]).
  - by eapply key_Create_change.
  - by eapply Service_Update_change.
  - eapply Service_Rotate_change; [apply S|done].
  - by eapply Service_Revoke_change.
  - apply touch_change.
  - by constructor.
Qed.
Lemma key_history_sound s s' : history s s' -> sound s -> sound s' /\ later s.2 s'.2.
Proof.
  induction 1 as [s|s s1 s' St _ IH]; intros S; [by split; [|apply later_refl]|].
  destruct (step_sound _ _ S St) as [S1 L1]. destruct (IH S1) as [S2 L2]. split; [done|by eapply later_trans].
Qed.

(** No key yet. *)
Definition no_keys (p : KeyDB) : Prop := api_keys p = ∅.
Lemma no_keys_sound p : no_keys p -> sound ([], p).
Proof.
  unfold no_keys. intros Hp. constructor; cbn [fst snd]; unfold keyed; rewrite ?Hp; repeat intro;
    try (by simplify_map_eq); by match goal with Hin : _ ∈ [] |- _ => apply elem_of_nil in Hin end.
Qed.

(** ** Authentication *)
Lemma findByHash_ok hash p key : keyed p -> findByHash hash p = Ok key ->
  exists r, api_keys p !! kr_ID r = Some r /\ key = scanKey r /\ kr_Hash r = hash /\ kr_UserID r ∈ active_users p.
Proof.
  intros HK. unfold findByHash. destruct (map_find _ (api_keys p)) as [r|] eqn:E; [|done]. intros [= <-].
  apply map_find_Some in E as (k & Hk & Hq). rewrite andb_true_iff, String.eqb_eq, bool_decide_eq_true in Hq.
  exists r. rewrite (HK _ _ Hk). naive_solver.
Qed.

Lemma EffectiveStatus_active status e now : EffectiveStatus status e now = "active" ->
  status = "active" /\ expiry_ok e now = true.
Proof.
  unfold EffectiveStatus, expiry_ok. destruct (String.eqb status "revoked"); [done|].
  destruct e as [t|]; [|done]. destruct (After t now); done.
Qed.

Lemma Authenticate_ok others touch secret source now p p' pr : keyed p ->
  Authenticate others touch secret source now p = (p', Ok pr) ->
  exists r src, api_keys p !! kr_ID r = Some r /\ pr = principal_of (scanKey r) /\ hashSecret secret = Ok (kr_Hash r)
    /\ kr_UserID r ∈ active_users p /\ kr_Status r = "active" /\ expiry_ok (kr_ExpiresAt r) now = true
    /\ source = Some src /\ allowsIP (kr_IPs r) (Unmap src) = true
    /\ p' = touchLastUsed (kr_ID r) now touch (others p).
Proof.
  intros HK. unfold Authenticate. destruct (hashSecret secret) as [hash|]; [|done].
  destruct (findByHash hash p) as [key|] eqn:Ef; [|done].
  apply findByHash_ok in Ef as (r & Hr & -> & <- & Hu); [|done].
  destruct (String.eqb_spec (EffectiveStatus (k_Status (scanKey r)) (k_ExpiresAt (scanKey r)) now) "active") as [Es|]; [|done].
  apply EffectiveStatus_active in Es as [Hs He]. cbn [negb]. destruct source as [src|]; [|done].
  destruct (allowsIP _ _) eqn:Ea; [|done]. cbn [negb]. intros [= <- <-].
  exists r, src. by split_and!.
Qed.

(** C26: a secret opens a key only when it is the last one issued for it (up to collisions of
    SHA-256): the principal is that of a key that is active, not expired and owned by an
    active user, carries the version of the last issue, and comes from an allowed address. *)
Theorem authenticate_admits_the_latest_secret p0 log p others touch secret source now p' pr :
  no_keys p0 -> history ([], p0) (log, p) -> Authenticate others touch secret source now p = (p', Ok pr) ->
  exists r src latest, api_keys p !! pr_APIKeyID pr = Some r /\ kr_UserID r = pr_UserID pr
    /\ kr_SecretVersion r = pr_SecretVersion pr /\ kr_Status r = "active" /\ expiry_ok (kr_ExpiresAt r) now = true
    /\ pr_UserID pr ∈ active_users p /\ source = Some src /\ allowsIP (kr_IPs r) (Unmap src) = true
    /\ (pr_APIKeyID pr, pr_SecretVersion pr, latest) ∈ log
    /\ (forall v s, (pr_APIKeyID pr, v, s) ∈ log -> v < pr_SecretVersion pr \/ s = latest)
    /\ sha256_hex secret = sha256_hex latest.
Proof.
  intros Hp0%no_keys_sound Hh. apply key_history_sound in Hh as [S _]; [|done].
  intros (r & src & Hr & -> & Hsec & Hu & Hs & He & Hsrc & Hip & _)%Authenticate_ok; [|apply S].
  destruct (s_latest _ S _ _ Hr) as (latest & Hin & Hl). apply hashSecret_spec in Hsec as (_ & _ & _ & Hsec).
  exists r, src, latest. simpl. split_and!; try done; [|by rewrite <- Hsec].
  intros v s Hv. destruct (s_logged _ S _ _ _ Hv) as (r' & Hr' & Hle). cbn [snd] in *.
  rewrite Hr in Hr'. injection Hr' as <-. destruct (decide (v = kr_SecretVersion r)) as [->|]; [|left; lia].
  right. by eapply (s_one _ S).
Qed.

Lemma key_valid_ok k u v now p : key_valid k u v now p = true ->
  exists r, api_keys p !! k = Some r /\ kr_UserID r = u /\ kr_SecretVersion r = v /\ kr_Status r = "active".
Proof.
  unfold key_valid. destruct (api_keys p !! k) as [r|]; [|done].
  rewrite !andb_true_iff, uuid_eqb_eq, Z.eqb_eq, String.eqb_eq. intros H'. exists r. by destruct_and!.
Qed.

(** A row that a version may no longer use. *)
Lemma invalid_refused {L} limit (l : L) pr model tokens now p :
  key_valid (pr_APIKeyID pr) (pr_UserID pr) (pr_SecretVersion pr) now p = false ->
  (exists e, Authorize limit pr model tokens now p l = (l, Err e))
  /\ exists e, ListAuthorizedModels pr now p = Err e.
Proof.
  intros Hv. unfold Authorize, ListAuthorizedModels, authorizeModel, listAuthorizedModels. rewrite Hv. simpl.
  split; (destruct (_ || _); by eexists).
Qed.

Lemma outdated pr p q now : later p q ->
  (forall r, api_keys p !! pr_APIKeyID pr = Some r -> pr_SecretVersion pr < kr_SecretVersion r \/ kr_Status r = "revoked") ->
  is_Some (api_keys p !! pr_APIKeyID pr) ->
  key_valid (pr_APIKeyID pr) (pr_UserID pr) (pr_SecretVersion pr) now q = false.
Proof.
  intros L Hout [r Hr]. destruct (key_valid _ _ _ _ q) eqn:Ev; [|done]. exfalso.
  apply key_valid_ok in Ev as (a & Ha & _ & Hv & Hs). destruct (L _ _ Hr) as (b & Hb & _ & Hle & Hrev).
  rewrite Ha in Hb. injection Hb as <-. destruct (Hout _ Hr) as [?|E]; [lia|]. by rewrite (Hrev E) in Hs.
Qed.

(** A rotation or a revocation that commits. *)
Inductive ends_access (k : uuid) : list issue * KeyDB -> list issue * KeyDB -> Prop :=
| ends_rotate log p p' ids entropy user req observed c :
    Service_Rotate ids entropy user k req observed p = (p', Ok c) ->
    ends_access k (log, p) ((log ++ issued (Ok c))%list, p')
| ends_revoke log p p' ids user now req key :
    Service_Revoke ids user k now req p = (p', Ok key) -> ends_access k (log, p) (log, p').
Lemma ends_access_step k s s' : ends_access k s s' -> step s s'.
Proof. intros [log p p' ids entropy user req observed c Hc|log p p' ids user now req key Hc]; [by eapply step_rotate|by eapply step_revoke]. Qed.
Lemma ends_access_row k s s' r : sound s -> ends_access k s s' -> api_keys s.2 !! k = Some r ->
  exists r', api_keys s'.2 !! k = Some r' /\ (kr_SecretVersion r < kr_SecretVersion r' \/ kr_Status r' = "revoked").
Proof.
  intros S E Hr. destruct E as [log p p' ids entropy user req observed c Hc|log p p' ids user now req key Hc]; cbn [snd] in *.
  - apply Service_Rotate_ok in Hc as [[_ [e [=]]]|(row & m & c' & Hrow & _ & _ & _ & _ & _ & Hk & _)]; [|apply S].
    rewrite Hr in Hrow. injection Hrow as <-. eexists. rewrite Hk, lookup_insert_eq. split; [done|]. left. simpl. lia.
  - apply Service_Revoke_ok in Hc as [[_ [e [=]]]|(row & key' & Hrow & _ & _ & [[Hrev Hk]|Hk])];
      rewrite Hr in Hrow; injection Hrow as <-; eexists; rewrite Hk, ?lookup_insert_eq; (split; [done|]); by right.
Qed.

(** C27: from the moment a rotation or a revocation of a key commits, a principal that was
    authenticated before is refused, whatever happened in between and happens after: no
    model is authorised, none is listed, and the limiter is not asked. *)
Theorem stale_principals_are_refused {L} p0 log p others touch secret source now p' pr s1 s2 log' q
    (limit : uuid -> option Z -> option Z -> Z -> time -> L -> L * result error unit) l model tokens t :
  no_keys p0 -> history ([], p0) (log, p) -> Authenticate others touch secret source now p = (p', Ok pr) ->
  history (log, p) s1 -> ends_access (pr_APIKeyID pr) s1 s2 -> history s2 (log', q) ->
  (exists e, Authorize limit pr model tokens t q l = (l, Err e)) /\ exists e, ListAuthorizedModels pr t q = Err e.
Proof.
  intros Hp0%no_keys_sound Hh Ha Hh1 Hc Hh2. apply key_history_sound in Hh as [S _]; [|done].
  apply Authenticate_ok in Ha as (r & src & Hr & -> & _); [|apply S].
  apply key_history_sound in Hh1 as [S1 L1]; [|done]. destruct (step_sound _ _ S1 (ends_access_step _ _ _ Hc)) as [S2 _].
  apply key_history_sound in Hh2 as [_ L2]; [|done]. cbn [snd] in *.
  destruct (L1 _ _ Hr) as (r1 & Hr1 & _ & Hle & _).
  destruct (ends_access_row _ _ _ _ S1 Hc Hr1) as (r2 & Hr2 & Hout). simpl in *.
  apply invalid_refused, (outdated _ s2.2); [done| |]; simpl.
  - intros a Ha'. rewrite Hr2 in Ha'. injection Ha' as <-. destruct Hout; [left; lia|by right].
  - by rewrite Hr2.
Qed.

Lemma revoked_row_later ids user k now req p p1 key q : Service_Revoke ids user k now req p = (p1, Ok key) ->
  later p1 q -> exists r, api_keys q !! k = Some r /\ kr_Status r = "revoked".
Proof.
  intros Hc L2. apply Service_Revoke_ok in Hc as [[_ [e [=]]]|(row & key' & Hrow & _ & _ & [[Hrev Hk]|Hk])].
  - rewrite <- Hk in Hrow. destruct (L2 _ _ Hrow) as (r & ? & _ & _ & Hs). exists r. auto.
  - destruct (L2 k (revoked_row row now)) as (r & ? & _ & _ & Hs); [by rewrite Hk, lookup_insert_eq|]. exists r. auto.
Qed.

Lemma Service_Update_ok ids user k input req now updated after p p' r :
  Service_Update ids user k input req now updated after p = (p', r) ->
  p' = p /\ (exists e, r = Err e)
  \/ exists row n, api_keys p !! k = Some row /\ kr_UserID row = user /\ kr_Status row = "active"
       /\ api_keys p' = <[k := patched_row row n updated]> (api_keys p).
Proof.
  unfold Service_Update. destruct (_ || _); [intros [= <- <-]; left; split; [done|by eexists]|].
  destruct (validateUpdate input now) as [v|e]; [|intros [= <- <-]; left; split; [done|by eexists]].
  destruct (db_run _ _ p) as [q res] eqn:E.
  apply db_run_ok in E as [(s & key1 & Hm & -> & ->)|(e & -> & ->)]; intros [= <- <-]; [right|left; split; [done|by eexists]].
  apply update_tx_ok in Hm as (row & ? & ? & ? & ?). by exists row, v.
Qed.

(** a revoked key never works again: it is not authenticated, rotated or updated. *)
Theorem revoked_keys_stay_revoked p0 log p ids user k now req p1 key log' q :
  no_keys p0 -> history ([], p0) (log, p) -> Service_Revoke ids user k now req p = (p1, Ok key) ->
  history (log, p1) (log', q) ->
  (forall others touch secret source t q' pr, Authenticate others touch secret source t q = (q', Ok pr) -> pr_APIKeyID pr <> k)
  /\ (forall ids entropy user req observed, exists e, Service_Rotate ids entropy user k req observed q = (q, Err e))
  /\ (forall ids user input req n u a, exists e, Service_Update ids user k input req n u a q = (q, Err e)).
Proof.
  intros Hp0%no_keys_sound Hh Hc Hh2. apply key_history_sound in Hh as [S _]; [|done].
  destruct (step_sound _ _ S (step_revoke log _ _ _ _ _ _ _ _ Hc)) as [S1 _].
  apply key_history_sound in Hh2 as [Sq L2]; [|done]. cbn [snd] in *.
  destruct (revoked_row_later _ _ _ _ _ _ _ _ _ Hc L2) as (r & Hr & Hrev). split_and!.
  - intros others touch secret source t q' pr Ha. apply Authenticate_ok in Ha as (a & src & Ha & -> & _ & _ & Hs & _); [|apply Sq].
    simpl. intros E. rewrite E, Hr in Ha. injection Ha as <-. by rewrite Hrev in Hs.
  - intros ids' entropy user' req' observed. destruct (Service_Rotate _ _ _ _ _ _ q) as [q' res] eqn:E.
    apply Service_Rotate_ok in E as [[-> [e ->]]|(row & m & c' & Hrow & _ & Hs & _)]; [by eexists| |apply Sq].
    rewrite Hr in Hrow. injection Hrow as <-. by rewrite Hrev in Hs.
  - intros ids' user' input req' n u a. destruct (Service_Update _ _ _ _ _ _ _ _ q) as [q' res] eqn:E.
    apply Service_Update_ok in E as [[-> [e ->]]|(row & m & Hrow & _ & Hs & _)]; [by eexists|].
    rewrite Hr in Hrow. injection Hrow as <-. by rewrite Hrev in Hs.
Qed.

(** ** Owners *)
(** The calls in the name of a user that may change a key. *)
Inductive user_call (user : uuid) (p p' : KeyDB) : Prop :=
| call_create ids entropy input req now created r :
    Service_Create ids entropy user input req now created p = (p', r) -> user_call user p p'
| call_update ids k input req now updated after r :
    Service_Update ids user k input req now updated after p = (p', r) -> user_call user p p'
| call_rotate ids entropy k req observed r :
    Service_Rotate ids entropy user k req observed p = (p', r) -> user_call user p p'
| call_revoke ids k now req r : Service_Revoke ids user k now req p = (p', r) -> user_call user p p'.

Lemma Service_Create_row ids entropy user input req now created p p' r :
  Service_Create ids entropy user input req now created p = (p', r) ->
  p' = p \/ exists row, api_keys p !! kr_ID row = None /\ api_keys p' = <[kr_ID row := row]> (api_keys p).
Proof.
  unfold Service_Create, create. intros Hc.
  destruct (uuid_eqb _ _); [injection Hc; by left|]. destruct (validateCreate input now) as [n|e]; [|injection Hc; by left].
  destruct (generateSecret entropy) as [m|e]; [|injection Hc; by left].
  destruct (validateStoredSecret _) as [u|e]; [|injection Hc; by left].
  destruct ids as [|keyID [|policyID ids]]; [injection Hc; by left..|].
  destruct (db_run _ _ p) as [q res] eqn:Er. apply db_run_ok in Er as [(s & k & Hm & -> & ->)|(e & -> & ->)]; injection Hc as <- _; [right|by left].
  apply create_tx_ok in Hm as (Hk & Hn & _). by exists (key_row keyID user (stored m) n created).
Qed.
Lemma user_call_row user p p' : keyed p -> user_call user p p' ->
  api_keys p' = api_keys p
  \/ exists k row, (forall r, api_keys p !! k = Some r -> kr_UserID r = user) /\ api_keys p' = <[k := row]> (api_keys p).
Proof.
  intros HK [ids entropy input req now created r Hc|ids k input req now updated after r Hc|ids entropy k req observed r Hc|ids k now req r Hc].
  - apply Service_Create_row in Hc as [->|(row & Hn & Hk)]; [by left|]. right. exists (kr_ID row), row. split; [|done]. congruence.
  - apply Service_Update_ok in Hc as [[-> _]|(row & n & Hr & Hu & _ & Hk)]; [by left|]. right.
    eexists k, _. split; [|done]. congruence.
  - apply Service_Rotate_ok in Hc as [[-> _]|(row & m & c & Hr & Hu & _ & _ & _ & _ & Hk & _)]; [by left| |done]. right.
    eexists k, _. split; [|done]. congruence.
  - apply Service_Revoke_ok in Hc as [[-> _]|(row & key & Hr & Hu & _ & [[_ Hk]|Hk])]; [by left|by left|]. right.
    eexists k, _. split; [|done]. congruence.
Qed.
Lemma list_keys_owner user p key : key ∈ list_keys user p -> k_UserID key = user.
Proof.
  unfold list_keys. intros (r & -> & Hr)%list_elem_of_fmap. rewrite merge_sort_Permutation in Hr.
  apply list_elem_of_In, filter_In in Hr as [_ Hu%uuid_eqb_eq]. done.
Qed.

(** a call in the name of a user changes that user's keys only, and lists them only. *)
Theorem keys_belong_to_their_owner p0 log p user p' :
  no_keys p0 -> history ([], p0) (log, p) -> user_call user p p' ->
  (forall k r, api_keys p !! k = Some r -> kr_UserID r <> user -> api_keys p' !! k = Some r)
  /\ (forall now keys key, Service_List user now p' = Ok keys -> key ∈ keys -> k_UserID key = user).
Proof.
  intros Hp0%no_keys_sound Hh Hc. apply key_history_sound in Hh as [S _]; [|done]. split.
  - intros k r Hr Hne. destruct (user_call_row _ _ _ (s_key _ S) Hc) as [->|(k' & row & Hu & ->)]; [done|].
    rewrite lookup_insert_ne; [done|]. intros <-. by apply Hne, Hu.
  - intros now keys key. unfold Service_List. destruct (uuid_eqb _ _); [done|]. intros [= <-].
    intros (k & -> & Hk)%list_elem_of_fmap. simpl. by apply list_keys_owner in Hk.
Qed.
End calls.
End ApiKeyTheorems.

Module ApiKeyPolicy.
Import ApiKey ApiKeyFacts ApiKeyRepo NetIP ApiKeyTheorems.
Import Coordinator(Sha256Hex, sha256_hex).
Import Billing(one_of).

(** ** Models *)
(** UNIQUE (public_model_id), and the foreign keys of the assignments and the entitlements. *)
Record policy_tables_ok (p : KeyDB) : Prop := {
  t_unique : forall k k' m m', catalogue p !! k = Some m -> catalogue p !! k' = Some m' ->
    mo_PublicID m = mo_PublicID m' -> k = k';
  t_assigned : forall key policy, (key, policy) ∈ assignments p ->
    is_Some (api_keys p !! key) /\ is_Some (policies p !! policy);
  t_entitled : forall policy m e, entitlements p !! (policy, m) = Some e -> is_Some (policies p !! policy)
}.

Lemma elem_of_policies_of key policy p : policy ∈ policies_of key p <-> (key, policy) ∈ assignments p.
Proof.
  unfold policies_of. rewrite list_elem_of_fmap. split.
  - intros ([k q] & -> & Hin). apply list_elem_of_In, filter_In in Hin as [Hin Hk]. apply uuid_eqb_eq in Hk. simpl in *. subst.
    by apply list_elem_of_In.
  - intros Hin. exists (key, policy). split; [done|]. apply list_elem_of_In, filter_In. split; [by apply list_elem_of_In|].
    by apply uuid_eqb_eq.
Qed.
Lemma has_entitlement_true effect key m p : has_entitlement effect key m p = true <->
  exists policy, (key, policy) ∈ assignments p /\ entitlements p !! (policy, m) = Some effect.
Proof.
  unfold has_entitlement. rewrite existsb_exists. split.
  - intros (policy & Hin & He). apply list_elem_of_In, elem_of_policies_of in Hin. exists policy. split; [done|].
    destruct (entitlements p !! (policy, m)) as [e|]; [|done]. by apply String.eqb_eq in He as ->.
  - intros (policy & Hin & He). exists policy. rewrite He, String.eqb_refl. split; [|done].
    by apply list_elem_of_In, elem_of_policies_of.
Qed.
Lemma default_allows_true key p : default_allows key p = true <->
  exists policy r, (key, policy) ∈ assignments p /\ policies p !! policy = Some r /\ pol_DefaultAction r = "allow".
Proof.
  unfold default_allows. rewrite existsb_exists. split.
  - intros (policy & Hin & He). apply list_elem_of_In, elem_of_policies_of in Hin.
    destruct (policies p !! policy) as [r|] eqn:E; [|done]. apply String.eqb_eq in He. by exists policy, r.
  - intros (policy & r & Hin & Hr & Hd). exists policy. rewrite Hr, Hd. split; [|done].
    by apply list_elem_of_In, elem_of_policies_of.
Qed.
Lemma policy_allows_true key m p : policy_tables_ok p ->
  policy_allows key m p = has_entitlement "allow" key m p || default_allows key p.
Proof.
  intros T. apply eq_iff_eq_true. rewrite orb_true_iff, has_entitlement_true, default_allows_true.
  unfold policy_allows. rewrite existsb_exists. split.
  - intros (policy & Hin & Hp). apply list_elem_of_In, elem_of_policies_of in Hin.
    destruct (policies p !! policy) as [r|] eqn:Er; [|done]. apply orb_true_iff in Hp as [Hd|He].
    + right. apply String.eqb_eq in Hd. by exists policy, r.
    + left. exists policy. split; [done|]. destruct (entitlements p !! (policy, m)) as [e|]; [|done].
      by apply String.eqb_eq in He as ->.
  - intros [(policy & Hin & He)|(policy & r & Hin & Hr & Hd)]; exists policy;
      (split; [by apply list_elem_of_In, elem_of_policies_of|]).
    + destruct (t_assigned _ T _ _ Hin) as [_ [r ->]]. by rewrite He, orb_true_r.
    + by rewrite Hr, Hd.
Qed.

Lemma elem_of_model_listing q p id : id ∈ model_listing q p <->
  exists k m, catalogue p !! k = Some m /\ mo_PublicID m = id /\ q k m = true.
Proof.
  unfold model_listing. rewrite merge_sort_Permutation, list_elem_of_fmap. split.
  - intros ([k m] & -> & Hin). apply list_elem_of_In, filter_In in Hin as [Hin Hq].
    apply list_elem_of_In, elem_of_map_to_list in Hin. by exists k, m.
  - intros (k & m & Hk & <- & Hq). exists (k, m). split; [done|]. apply list_elem_of_In, filter_In.
    split; [by apply list_elem_of_In, elem_of_map_to_list|done].
Qed.
Lemma target_models_unique id p k m : policy_tables_ok p -> catalogue p !! k = Some m -> mo_PublicID m = id ->
  target_models id p = if public m then [k] else [].
Proof.
  intros T Hk Hid. unfold target_models.
  assert (forall x, x ∈ map_to_list (catalogue p) -> (String.eqb (mo_PublicID x.2) id && public x.2) = true -> x = (k, m)) as Hone.
  { intros [k' m'] Hin%elem_of_map_to_list Hq. apply andb_true_iff in Hq as [Hq _]. apply String.eqb_eq in Hq. simpl in Hq.
    rewrite <- Hq in Hid. pose proof (t_unique _ T _ _ _ _ Hk Hin Hid) as <-. rewrite Hk in Hin. by injection Hin as <-. }
  pose proof (NoDup_map_to_list (catalogue p)) as Hnd.
  assert ((k, m) ∈ map_to_list (catalogue p)) as Hin by by apply elem_of_map_to_list.
  revert Hone Hnd Hin. generalize (map_to_list (catalogue p)). intros l. induction l as [|x l IH]; intros Hone Hnd Hin.
  { by apply elem_of_nil in Hin. }
  apply NoDup_cons in Hnd as [Hx Hnd]. apply elem_of_cons in Hin as [<-|Hin].
  - assert (List.filter (fun kv => String.eqb (mo_PublicID kv.2) id && public kv.2) l = []) as Hnil.
    { destruct (List.filter _ l) as [|y r] eqn:E; [done|]. exfalso.
      assert (In y (y :: r)) as Hy by by left. rewrite <- E in Hy. apply filter_In in Hy as [Hy Hq].
      apply list_elem_of_In in Hy. apply Hx. by rewrite <- (Hone y (list_elem_of_further _ _ _ Hy) Hq). }
    cbn [List.filter]. simpl. rewrite Hid, String.eqb_refl. cbn [andb]. rewrite Hnil. by destruct (public m).
  - cbn [List.filter]. destruct (String.eqb (mo_PublicID x.2) id && public x.2) eqn:E.
    + exfalso. apply Hx. by rewrite (Hone x (list_elem_of_here _ _) E).
    + apply IH; [|done|done]. intros y Hy. apply Hone. by constructor.
Qed.
Lemma target_models_none id p : (forall k m, catalogue p !! k = Some m -> mo_PublicID m = id -> public m = false) ->
  target_models id p = [].
Proof.
  intros Hn. unfold target_models. destruct (List.filter _ _) as [|[k m] r] eqn:E; [done|]. exfalso.
  assert (In (k, m) ((k, m) :: r)) as Hy by by left. rewrite <- E in Hy. apply filter_In in Hy as [Hy Hq].
  apply list_elem_of_In, elem_of_map_to_list in Hy. apply andb_true_iff in Hq as [Hq%String.eqb_eq Hp]. simpl in *.
  by rewrite (Hn _ _ Hy Hq) in Hp.
Qed.

(** The decision for a model that is public. *)
Definition may_use (key m : uuid) (p : KeyDB) : bool :=
  negb (has_entitlement "deny" key m p) && (has_entitlement "allow" key m p || default_allows key p).
Lemma authorizeModel_spec k u v id now p : policy_tables_ok p -> key_valid k u v now p = true ->
  authorizeModel k u v id now p = Ok true <->
  exists m row, catalogue p !! m = Some row /\ mo_PublicID row = id /\ public row = true /\ may_use k m p = true.
Proof.
  intros T Hv. unfold authorizeModel. rewrite Hv. cbn [negb]. split.
  - intros Ha. destruct (target_models id p) as [|m0 ms] eqn:Et; [done|].
    assert (m0 ∈ target_models id p) as Hin by (rewrite Et; constructor).
    unfold target_models in Hin. apply list_elem_of_fmap in Hin as ([m row] & -> & Hin).
    apply list_elem_of_In, filter_In in Hin as [Hin Hq]. apply list_elem_of_In, elem_of_map_to_list in Hin.
    apply andb_true_iff in Hq as [Hid%String.eqb_eq Hp]. simpl in *. exists m, row. split_and!; [done..|].
    rewrite (target_models_unique _ _ _ _ T Hin Hid), Hp in Et. injection Et as <-.
    simpl in Ha. rewrite !orb_false_r in Ha. unfold may_use. destruct (has_entitlement "deny" k m p); [done|]. simpl in *. by injection Ha.
  - intros (m & row & Hm & Hid & Hp & Hu). rewrite (target_models_unique _ _ _ _ T Hm Hid), Hp. simpl. rewrite !orb_false_r.
    unfold may_use in Hu. apply andb_true_iff in Hu as [Hd%negb_true_iff Ha]. by rewrite Hd, Ha.
Qed.

(** C28: the models that are listed for a key are exactly the ones it is authorised for. *)
Theorem listing_agrees_with_authorization pr id now p : policy_tables_ok p ->
  authorizeModel (pr_APIKeyID pr) (pr_UserID pr) (pr_SecretVersion pr) id now p = Ok true <->
  exists l, listAuthorizedModels (pr_APIKeyID pr) (pr_UserID pr) (pr_SecretVersion pr) now p = Ok l /\ id ∈ l.
Proof.
  intros T. destruct (key_valid (pr_APIKeyID pr) (pr_UserID pr) (pr_SecretVersion pr) now p) eqn:Hv.
  - rewrite authorizeModel_spec by done. unfold listAuthorizedModels. rewrite Hv. cbn [negb]. split.
    + intros (m & row & Hm & Hid & Hp & Hu). eexists. split; [done|]. apply elem_of_model_listing. exists m, row.
      split_and!; [done..|]. unfold may_use in Hu. rewrite policy_allows_true, Hp by done. by rewrite andb_comm.
    + intros (l & [= <-] & Hin). apply elem_of_model_listing in Hin as (m & row & Hm & Hid & Hq).
      exists m, row. rewrite policy_allows_true in Hq by done. rewrite !andb_true_iff in Hq. destruct Hq as [[Hp Ha] Hd].
      unfold may_use. by rewrite Hd, Ha.
  - unfold authorizeModel, listAuthorizedModels. rewrite Hv. simpl. split; [done|]. by intros (l & ? & _).
Qed.

(** ** The models of a new key *)
Lemma requireModels_ok ids p l : NoDup ids -> requireModels ids p = Ok l ->
  (forall id, id ∈ ids -> exists m row, m ∈ l /\ catalogue p !! m = Some row /\ mo_PublicID row = id /\ public row = true)
  /\ (forall m, m ∈ l -> exists row, catalogue p !! m = Some row /\ mo_PublicID row ∈ ids /\ public row = true).
Proof.
  intros Hnd. unfold requireModels. destruct (_ =? 0)%nat eqn:E0.
  { apply Nat.eqb_eq, nil_length_inv in E0 as ->. intros [= <-]. split; by intros ? ?%elem_of_nil. }
  set (found := list_to_map _ : gmap string uuid). destruct (size found =? _)%nat eqn:E; cbn [negb]; [|done]. apply Nat.eqb_eq in E.
  intros [= <-].
  assert (forall id m, found !! id = Some m ->
    exists row, catalogue p !! m = Some row /\ mo_PublicID row = id /\ public row = true /\ id ∈ ids) as Hf.
  { intros id m Hm. apply elem_of_list_to_map_2, list_elem_of_fmap in Hm as ([k row] & [= -> ->] & Hin).
    apply list_elem_of_In, filter_In in Hin as [Hin Hq]. apply list_elem_of_In, elem_of_map_to_list in Hin.
    apply andb_true_iff in Hq as [Hp Ho]. cbn [fst snd] in *. exists row. split_and!; [exact Hin|done|exact Hp|].
    unfold one_of in Ho. apply existsb_exists in Ho as (y & Hy & Heq). apply String.eqb_eq in Heq as ->. by apply list_elem_of_In. }
  assert (forall id, id ∈ ids -> is_Some (found !! id)) as Hall.
  { assert (dom found = list_to_set (C := gset string) ids) as Hd.
    { apply set_subseteq_size_eq.
      - intros id [m Hm]%elem_of_dom. apply elem_of_list_to_set. by destruct (Hf _ _ Hm) as (_ & _ & _ & _ & ?).
      - rewrite size_dom, E, size_list_to_set by done. done. }
    intros id Hid. apply elem_of_dom. rewrite Hd. by apply elem_of_list_to_set. }
  split.
  - intros id Hid. destruct (Hall _ Hid) as [m Hm]. destruct (Hf _ _ Hm) as (row & ? & ? & ? & _). exists m, row.
    split_and!; [|done..]. apply list_elem_of_fmap. exists id. by rewrite Hm.
  - intros m (id & -> & Hid)%list_elem_of_fmap. destruct (Hall _ Hid) as [m Hm]. rewrite Hm. simpl.
    destruct (Hf _ _ Hm) as (row & ? & <- & ? & ?). by exists row.
Qed.

Section new_keys.
Context `{KeyGuards, Sha256Hex}.

Lemma create_tx_tables keyID policyID user material input req now ids p s' k :
  create_tx keyID policyID user material input req now (ids, p) = Ok (s', k) ->
  exists models, requireModels (ci_AllowedModels input) p = Ok models
    /\ policies p !! policyID = None
    /\ policies s'.2 = <[policyID := {| pol_DefaultAction := "deny"; pol_Managed := Some keyID |}]> (policies p)
    /\ assignments s'.2 = (assignments p ++ [(keyID, policyID)])%list /\ catalogue s'.2 = catalogue p
    /\ (forall pol m, entitlements s'.2 !! (pol, m)
         = if decide (pol = policyID /\ m ∈ models) then Some "allow" else entitlements p !! (pol, m))
    /\ k_AllowedModels k = ci_AllowedModels input /\ k_ID k = keyID /\ api_keys p !! keyID = None.
Proof.
  intros Hm. unfold create_tx, insert_policy in Hm. k_inv. bools. cbn [entitlements] in *. eexists. split_and!; try done.
  destruct (policies p !! policyID) eqn:E; [|done]. exfalso.
  match goal with Hn : ~ is_Some _ |- _ => apply Hn end. by eexists.
Qed.

(** The foreign keys hold of the tables a creation leaves. *)
Lemma create_tx_tables_ok keyID policyID user material input req now ids p s' k : policy_tables_ok p ->
  create_tx keyID policyID user material input req now (ids, p) = Ok (s', k) -> policy_tables_ok s'.2.
Proof.
  intros T Hm. destruct (create_tx_ok _ _ _ _ _ _ _ _ _ _ _ Hm) as (Hkeys & _).
  apply create_tx_tables in Hm as (models & _ & _ & Hpol & Has & Hcat & Hent & _). constructor.
  - rewrite Hcat. apply T.
  - intros key policy. rewrite Has, elem_of_app, list_elem_of_singleton, Hkeys, Hpol.
    intros [Hin|[= -> ->]]; rewrite !lookup_insert_is_Some; [|by split; left].
    destruct (t_assigned _ T _ _ Hin) as [Hk Hp]. destruct (decide (keyID = key)), (decide (policyID = policy)); naive_solver.
  - intros pol x e. rewrite Hent, Hpol, lookup_insert_is_Some. intros He. destruct (decide (policyID = pol)); [by left|].
    rewrite decide_False in He by naive_solver. right. split; [done|]. by eapply (t_entitled _ T).
Qed.

(** What decides about a new key. *)
Lemma create_tx_may_use keyID policyID user material input req now ids p s' k : policy_tables_ok p ->
  create_tx keyID policyID user material input req now (ids, p) = Ok (s', k) ->
  exists models, requireModels (ci_AllowedModels input) p = Ok models
    /\ forall m, may_use keyID m s'.2 = true <-> m ∈ models.
Proof.
  intros T (models & Hreq & Hnp & Hpol & Has & Hcat & Hent & _ & _ & Hnk)%create_tx_tables.
  exists models. split; [done|].
  assert (forall pol, (keyID, pol) ∈ assignments s'.2 <-> pol = policyID) as Hass.
  { intros pol. rewrite Has, elem_of_app, list_elem_of_singleton. split; [|intros ->; by right].
    intros [Hin|[= ->]]; [|done]. destruct (t_assigned _ T _ _ Hin) as [[r Hr] _]. congruence. }
  assert (forall m e, has_entitlement e keyID m s'.2 = true <-> e = "allow" /\ m ∈ models) as Hhas.
  { intros x e. rewrite has_entitlement_true. setoid_rewrite Hass. split.
    - intros (pol & -> & He). rewrite Hent in He. case_decide as Hd; [injection He as <-; naive_solver|].
      destruct (t_entitled _ T _ _ _ He) as [r Hr]. congruence.
    - intros [-> Hx]. exists policyID. split; [done|]. rewrite Hent. by rewrite decide_True. }
  assert (default_allows keyID s'.2 = false) as Hda.
  { apply not_true_iff_false. rewrite default_allows_true. intros (pol & r & ->%Hass & Hr & Hd).
    rewrite Hpol, lookup_insert_eq in Hr. injection Hr as <-. done. }
  intros x. unfold may_use. rewrite Hda, orb_false_r, andb_true_iff, negb_true_iff, Hhas.
  rewrite <- not_true_iff_false, Hhas. naive_solver.
Qed.

Lemma sorted_set_NoDup l : NoDup (sorted_set l).
Proof. unfold sorted_set. rewrite merge_sort_Permutation. apply NoDup_remove_dups. Qed.
Lemma validateCreate_models input now n : validateCreate input now = Ok n -> NoDup (ci_AllowedModels n).
Proof.
  unfold validateCreate. intros En. apply result_bind_ok in En as (name & _ & En). apply result_bind_ok in En as (ms & Hms & En).
  apply result_bind_ok in En as (al & _ & En). destruct (negb _); [done|]. apply result_bind_ok in En as (lim & _ & [= <-]).
  simpl. unfold normalizeModels in Hms. destruct (_ <? _); [done|]. destruct (existsb _ _); [done|].
  injection Hms as <-. apply sorted_set_NoDup.
Qed.
Lemma Service_Create_tx ids entropy user input req now created p p' c :
  Service_Create ids entropy user input req now created p = (p', Ok c) ->
  exists keyID policyID rest material n s, validateCreate input now = Ok n /\ p' = s.2
    /\ create_tx keyID policyID user material n req created (rest, p) = Ok (s, ck_Key c).
Proof.
  unfold Service_Create, create. intros Hc.
  destruct (uuid_eqb _ _); [done|]. destruct (validateCreate input now) as [n|e] eqn:En; [|done].
  destruct (generateSecret entropy) as [m|e]; [|done]. destruct (validateStoredSecret _) as [u|e]; [|done].
  destruct ids as [|keyID [|policyID ids]]; [done..|].
  destruct (db_run _ _ p) as [q res] eqn:Er. apply db_run_ok in Er as [(s & k & Hm & -> & ->)|(e & -> & ->)]; [|done].
  injection Hc as <- <-. by exists keyID, policyID, ids, (stored m), n, s.
Qed.
Lemma Service_Create_tables_ok ids entropy user input req now created p p' c : policy_tables_ok p ->
  Service_Create ids entropy user input req now created p = (p', Ok c) -> policy_tables_ok p'.
Proof. intros T (? & ? & ? & ? & ? & s & _ & -> & Hm)%Service_Create_tx. by eapply create_tx_tables_ok. Qed.

(** a key that has just been created may use the models it was created for and no other
    one, whatever policies, assignments and entitlements the tables already hold. *)
Theorem new_keys_use_exactly_their_models ids entropy user input req now created p p' c id t : policy_tables_ok p ->
  Service_Create ids entropy user input req now created p = (p', Ok c) ->
  let key := ck_Key c in key_valid (k_ID key) user (k_SecretVersion key) t p' = true ->
  authorizeModel (k_ID key) user (k_SecretVersion key) id t p' = Ok true <-> id ∈ k_AllowedModels key.
Proof.
  intros T Hc key Hv. subst key. pose proof (Service_Create_tables_ok _ _ _ _ _ _ _ _ _ _ T Hc) as T'.
  apply Service_Create_tx in Hc as (keyID & policyID & rest & material & n & s & Hn%validateCreate_models & -> & Hm).
  destruct (create_tx_may_use _ _ _ _ _ _ _ _ _ _ _ T Hm) as (models & Hreq & Hmay).
  apply create_tx_tables in Hm as (_ & _ & _ & _ & _ & Hcat & _ & Hal & Hid & _).
  destruct (requireModels_ok _ _ _ Hn Hreq) as [Hr1 Hr2].
  rewrite authorizeModel_spec, Hid, Hal by done. setoid_rewrite Hmay. rewrite Hcat. split.
  - intros (x & row & Hx & <- & Hp & Hin). destruct (Hr2 _ Hin) as (row' & Hx' & Hin' & _). rewrite Hx in Hx'. by injection Hx' as <-.
  - intros Hin. destruct (Hr1 _ Hin) as (x & row & Hx & Hrow & Hpub & Hp). by exists x, row.
Qed.
End new_keys.

(** ** Addresses *)
(** the stored list admits exactly the addresses its rules were meant to admit: every
    rule is read, put in canonical form, printed, stored, read back and compared without
    loss; an empty list admits every address. *)
Theorem allowlist_means_its_rules values rules source : normalizeIPAllowlist values = Ok rules ->
  allowsIP rules source = true <-> values = [] \/ exists value, value ∈ values /\ rule_admits value source.
Proof.
  unfold normalizeIPAllowlist. destruct (_ <? _); [done|]. destruct (normalize_rules values) as [l|] eqn:El; [|done].
  intros [= <-]. pose proof (normalize_rules_spec _ _ El) as Hspec. unfold allowsIP. rewrite orb_true_iff, existsb_exists, Nat.eqb_eq.
  assert (values = [] <-> List.length (sorted_set l) = 0%nat) as Hnil.
  { split.
    - intros ->. injection El as <-. done.
    - intros Hlen. destruct values as [|v values]; [done|]. exfalso.
      destruct (normalize_rules_all _ _ v El (list_elem_of_here _ _)) as [p Hp].
      assert (Prefix_String p ∈ sorted_set l) as Hin.
      { apply elem_of_sorted_set, Hspec. exists v, p. split_and!; [constructor|done|done]. }
      destruct (sorted_set l); [by apply elem_of_nil in Hin|done]. }
  rewrite <- Hnil. f_equiv. split.
  - intros (text & Hin & Hc). apply list_elem_of_In, elem_of_sorted_set, Hspec in Hin as (v & p & Hv & Hp & ->).
    destruct (normalize_rule_spec _ _ Hp) as [Hok Hr]. rewrite ParsePrefix_String in Hc by done. exists v. split; [done|]. by apply Hr.
  - intros (v & Hv & Ha). destruct (normalize_rules_all _ _ v El Hv) as [p Hp].
    destruct (normalize_rule_spec _ _ Hp) as [Hok Hr]. exists (Prefix_String p). split.
    + apply list_elem_of_In, elem_of_sorted_set, Hspec. by exists v, p.
    + rewrite ParsePrefix_String by done. by apply Hr.
Qed.

(** ** Secrets *)
(** what Create and Rotate hand out is what Authenticate recognises: a text is accepted
    exactly when it is the marker and the canonical encoding of 32 bytes, which is what 32
    random bytes are made into, and the digest is the one that is stored. *)
Theorem secrets_are_recognised `{Sha256Hex} secret digest : hashSecret secret = Ok digest <->
  exists entropy m, entropy_ok entropy /\ generateSecret (Some entropy) = Ok m
    /\ sm_Plaintext m = secret /\ sm_Hash m = digest.
Proof.
  rewrite hashSecret_spec. split.
  - intros (entropy & He & -> & ->). eexists entropy, _. split_and!; [done|reflexivity|done|done].
  - intros (entropy & m & He & [= <-] & <- & <-). exists entropy. by split_and!.
Qed.
End ApiKeyPolicy.

(** A key is created, used, rotated and revoked; the properties are applied to what the
    calls return. *)
Module ApiKeyDemo.
Import ApiKey ApiKeyFacts ApiKeyRepo NetIP ApiKeyTheorems ApiKeyPolicy.
Import Coordinator(Sha256Hex).

#[local] Instance key_digest : Sha256Hex := fun s => s.
#[local] Instance quiet : KeyGuards := {| guard_key := fun _ => None; guard_policy := fun _ _ => None; guard_key_audit := fun _ => None |}.

Definition shown (name visibility : string) : ModelRow :=
  {| mo_PublicID := name; mo_Visibility := visibility; mo_Enabled := true; mo_DeletedAt := None |}.
Definition fresh_tables : KeyDB :=
  mkKeyDB ∅ ∅ [] ∅ (<[100%N := shown "gpt" "public"]> (<[101%N := shown "claude" "public"]>
    (<[102%N := shown "draft" "private"]> ∅))) {[7%N; 8%N]} [].

Definition key_request : CreateInput :=
  {| ci_Name := " laptop "; ci_ExpiresAt := Some (1000 * Minute); ci_AllowedModels := ["gpt"; " gpt"];
     ci_IPAllowlist := ["10.1.2.3/8"; "::ffff:192.0.2.0/120"; "2001:db8::1"]; ci_RPMLimit := Some 60; ci_TPMLimit := None;
     ci_DailyBudgetMinor := None; ci_MonthlyBudgetMinor := Some 0 |}.
Definition first_entropy : list Z := replicate 32 251.
Definition second_entropy : list Z := replicate 32 17.

Definition Create_run := Service_Create [1; 2; 3]%N (Some first_entropy) 7%N key_request "r1" Minute Minute fresh_tables.
Definition created_keys : KeyDB := Create_run.1.
Definition secret_in (r : result error CreatedKey) : string := match r with Ok c => ck_Secret c | Err _ => "" end.
Definition first_secret : string := secret_in Create_run.2.
Definition from_office : option Addr := ParseAddr "::ffff:10.200.0.9".
Definition Authenticate_run := Authenticate (fun p => p) true first_secret from_office (2 * Minute) created_keys.
Definition used_keys : KeyDB := Authenticate_run.1.
Definition no_principal : Principal :=
  {| pr_UserID := 0%N; pr_APIKeyID := 0%N; pr_KeyPrefix := ""; pr_SecretVersion := 0; pr_RPMLimit := None;
     pr_TPMLimit := None; pr_DailyBudgetMinor := None; pr_MonthlyBudgetMinor := None |}.
Definition office_principal : Principal := match Authenticate_run.2 with Ok pr => pr | Err _ => no_principal end.
Definition Rotate_run := Service_Rotate [4]%N (Some second_entropy) 7%N 1%N "r2" (3 * Minute) used_keys.
Definition rotated_keys : KeyDB := Rotate_run.1.
Definition Revoke_run := Service_Revoke [5]%N 7%N 1%N (4 * Minute) "r3" rotated_keys.
Definition revoked_keys : KeyDB := Revoke_run.1.

Example first_secret_text : first_secret = "bablo_sk_-_v7-_v7-_v7-_v7-_v7-_v7-_v7-_v7-_v7-_v7-_s".
Proof. vm_compute. reflexivity. Qed.
Example stored_rules : kr_IPs <$> api_keys created_keys !! 1%N = Some ["10.0.0.0/8"; "192.0.2.0/24"; "2001:db8::1/128"].
Proof. vm_compute. reflexivity. Qed.
Example other_addresses :
  (Authenticate (fun p => p) true first_secret (ParseAddr "11.0.0.1") (2 * Minute) created_keys).2 = Err ErrIPDenied
  /\ (Authenticate (fun p => p) true first_secret from_office (1000 * Minute) created_keys).2 = Err ErrInvalidKey.
Proof. vm_compute. done. Qed.
Example first_secret_is_dead :
  (Authenticate (fun p => p) true first_secret from_office (5 * Minute) rotated_keys).2 = Err ErrInvalidKey.
Proof. vm_compute. reflexivity. Qed.
Example listed_keys : (fun k => (k_ID k, k_Status k, k_AllowedModels k)) <$>
  match Service_List 7%N (6 * Minute) revoked_keys with Ok l => l | Err _ => [] end = [(1%N, "revoked", ["gpt"])].
Proof. vm_compute. reflexivity. Qed.

(** ** The run as a history *)
Definition log1 : list issue := issued Create_run.2.
Definition log2 : list issue := (log1 ++ issued Rotate_run.2)%list.
Lemma created_history : history ([], fresh_tables) (log1, created_keys).
Proof. apply rtc_once. apply (step_create [] _ _ Create_run.2 _ _ _ _ _ _ _ (surjective_pairing Create_run)). Qed.
Lemma used_history : history ([], fresh_tables) (log1, used_keys).
Proof.
  eapply rtc_r; [apply created_history|].
  replace used_keys with (touchLastUsed 1%N (2 * Minute) true created_keys) by (vm_compute; reflexivity). apply step_touch.
Qed.
Lemma rotation_ends_access : ends_access 1%N (log1, used_keys) (log2, rotated_keys).
Proof.
  destruct Rotate_run.2 as [c|e] eqn:E; [|vm_compute in E; discriminate E].
  unfold log2. rewrite E. apply (ends_rotate 1%N _ _ _ [4]%N (Some second_entropy) 7%N "r2" (3 * Minute)).
  rewrite <- E. apply (surjective_pairing Rotate_run).
Qed.
Lemma rotated_history : history ([], fresh_tables) (log2, rotated_keys).
Proof. eapply rtc_r; [apply used_history|]. apply (ends_access_step _ _ _ rotation_ends_access). Qed.

Lemma fresh_tables_ok : policy_tables_ok fresh_tables.
Proof.
  constructor; cbn [catalogue assignments entitlements policies api_keys fresh_tables].
  - intros k k' m m' Hk Hk' Hid.
    rewrite !lookup_insert_Some, lookup_empty in Hk. rewrite !lookup_insert_Some, lookup_empty in Hk'.
    naive_solver.
  - intros ? ? Hin. by apply elem_of_nil in Hin.
  - intros ? ? ? He. by rewrite lookup_empty in He.
Qed.
Lemma created_tables_ok : policy_tables_ok created_keys.
Proof.
  destruct Create_run.2 as [c|e] eqn:E; [|vm_compute in E; discriminate E].
  apply (Service_Create_tables_ok [1; 2; 3]%N (Some first_entropy) 7%N key_request "r1" Minute Minute fresh_tables created_keys c fresh_tables_ok).
  rewrite <- E. apply (surjective_pairing Create_run).
Qed.
Lemma office_run : Authenticate (fun p => p) true first_secret from_office (2 * Minute) created_keys = (used_keys, Ok office_principal).
Proof.
  vm_compute. reflexivity.
Qed.

(** ** The properties at the run *)
Lemma authenticate_admits_the_latest_secret_witness :
  pr_UserID office_principal = 7%N /\ exists latest, (1%N, 1, latest) ∈ log1 /\ first_secret = latest.
Proof.
  split; [vm_compute; reflexivity|].
  destruct (authenticate_admits_the_latest_secret fresh_tables log1 created_keys (fun p => p) true first_secret from_office
    (2 * Minute) used_keys office_principal eq_refl created_history office_run) as (r & src & latest & H).
  exists latest. assert (pr_APIKeyID office_principal = 1%N) as Ei by (vm_compute; reflexivity).
  assert (pr_SecretVersion office_principal = 1) as Ev by (vm_compute; reflexivity). rewrite Ei, Ev in H.
  split; apply H.
Defined.

Lemma stale_principals_are_refused_witness :
  exists e, ListAuthorizedModels office_principal (5 * Minute) rotated_keys = Err e.
Proof.
  apply (stale_principals_are_refused fresh_tables log1 created_keys (fun p => p) true first_secret from_office (2 * Minute)
    used_keys office_principal (log1, used_keys) (log2, rotated_keys) log2 rotated_keys
    (fun _ _ _ _ _ l => (S l, Ok tt)) 0%nat "gpt" 5 (5 * Minute) eq_refl created_history office_run).
  - apply rtc_once.
    replace used_keys with (touchLastUsed 1%N (2 * Minute) true created_keys) by (vm_compute; reflexivity). apply step_touch.
  - replace (pr_APIKeyID office_principal) with 1%N by (vm_compute; reflexivity). apply rotation_ends_access.
  - apply rtc_refl.
Defined.

Lemma revoked_keys_stay_revoked_witness :
  exists e, Service_Rotate [9]%N (Some first_entropy) 7%N 1%N "r4" (5 * Minute) revoked_keys = (revoked_keys, Err e).
Proof.
  destruct Revoke_run.2 as [key|e] eqn:E; [|vm_compute in E; discriminate E].
  destruct (revoked_keys_stay_revoked fresh_tables log2 rotated_keys [5]%N 7%N 1%N (4 * Minute) "r3" revoked_keys key log2 revoked_keys
    eq_refl rotated_history) as (_ & H & _); [|apply rtc_refl|apply H].
  rewrite <- E. apply (surjective_pairing Revoke_run).
Defined.

(** User 8 tries to revoke the key of user 7. *)
Definition Intruder_run := Service_Revoke [6]%N 8%N 1%N (4 * Minute) "r5" rotated_keys.
Lemma keys_belong_to_their_owner_witness :
  api_keys Intruder_run.1 !! 1%N = api_keys rotated_keys !! 1%N /\ Service_List 8%N (5 * Minute) Intruder_run.1 = Ok [].
Proof.
  destruct (keys_belong_to_their_owner fresh_tables log2 rotated_keys 8%N Intruder_run.1 eq_refl rotated_history
    (call_revoke 8%N _ _ _ _ _ _ _ (surjective_pairing Intruder_run))) as [H1 H2].
  split; [|vm_compute; reflexivity].
  destruct (api_keys rotated_keys !! 1%N) as [r|] eqn:E; [|vm_compute in E; discriminate E].
  apply H1; [exact E|]. vm_compute in E. injection E as <-. discriminate.
Defined.

Lemma listing_agrees_with_authorization_witness :
  exists l, listAuthorizedModels 1%N 7%N 1 (2 * Minute) created_keys = Ok l /\ "gpt" ∈ l.
Proof.
  assert (pr_APIKeyID office_principal = 1%N) as Ei by (vm_compute; reflexivity).
  assert (pr_UserID office_principal = 7%N) as Eu by (vm_compute; reflexivity).
  assert (pr_SecretVersion office_principal = 1) as Ev by (vm_compute; reflexivity).
  pose proof (listing_agrees_with_authorization office_principal "gpt" (2 * Minute) created_keys created_tables_ok) as H.
  rewrite Ei, Eu, Ev in H. apply H. vm_compute. reflexivity.
Defined.

Lemma new_keys_use_exactly_their_models_witness : authorizeModel 1%N 7%N 1 "claude" (2 * Minute) created_keys <> Ok true.
Proof.
  destruct Create_run.2 as [c|e] eqn:E; [|vm_compute in E; discriminate E].
  pose proof (new_keys_use_exactly_their_models [1; 2; 3]%N (Some first_entropy) 7%N key_request "r1" Minute Minute fresh_tables
    created_keys c "claude" (2 * Minute) fresh_tables_ok) as H.
  assert (k_ID (ck_Key c) = 1%N) as Ei by (vm_compute in E; injection E as <-; reflexivity).
  assert (k_SecretVersion (ck_Key c) = 1) as Ev by (vm_compute in E; injection E as <-; reflexivity).
  assert (k_AllowedModels (ck_Key c) = ["gpt"]) as Em by (vm_compute in E; injection E as <-; reflexivity).
  simpl in H. rewrite Ei, Ev, Em in H. intros Ha. apply H in Ha.
  - rewrite list_elem_of_singleton in Ha. discriminate Ha.
  - rewrite <- E. apply (surjective_pairing Create_run).
  - vm_compute. reflexivity.
Defined.

Lemma allowlist_means_its_rules_witness :
  exists source, ParseAddr "10.200.0.9" = Some source
    /\ (ci_IPAllowlist key_request = [] \/ exists value, value ∈ ci_IPAllowlist key_request /\ rule_admits value source).
Proof.
  destruct (ParseAddr "10.200.0.9") as [source|] eqn:E; [|vm_compute in E; discriminate E].
  exists source. split; [reflexivity|].
  apply (allowlist_means_its_rules (ci_IPAllowlist key_request) ["10.0.0.0/8"; "192.0.2.0/24"; "2001:db8::1/128"] source);
    [vm_compute; reflexivity|]. vm_compute in E. injection E as <-. vm_compute. reflexivity.
Defined.
End ApiKeyDemo.
