(* ===== verification/Limiters.v ===== *)
(** * The rate limits of API keys ([internal/apikey/limiter.go])

    Both implementations of [Limiter], the exact counting they owe, and the limits that
    follow from it. *)

From stdpp Require Import base gmap strings list relations pretty.
From Stdlib Require Import ZArith Lia Ascii String.
From S2P Require Import Prelude GoLib Coordinator CoordinatorImpl BillingDemo PaymentDemo ApiKey.

Module Limiters.
Import ApiKey.
Import Coordinator(Call, c_now, c_then, c_fault, c_sent, exec, resend, Milliseconds, fault).
Import CoordinatorImpl(Itoa_inj, app_inj_l).

(** ** The window of a call *)
Definition unixToInternal : Z := 62135596800.
(** [now.UTC().Truncate(time.Minute).Unix()]. *)
Definition minute_of (now : time) : Z := (now - now mod Minute) / Second - unixToInternal.
Definition windowID : Type := uuid * Z.
Record windowCount := { wc_requests : Z; wc_tokens : Z }.
Definition no_count : windowCount := {| wc_requests := 0; wc_tokens := 0 |}.

(** The answer to a count, by the limits that are set. *)
Definition within (rpm tpm : option Z) (c : windowCount) : result error unit :=
  let over (limit : option Z) (used : Z) := match limit with Some limit => limit <? used | None => false end in
  if over rpm (wc_requests c) then Err ErrRateLimited else
  if over tpm (wc_tokens c) then Err ErrRateLimited else Ok tt.
Definition unlimited (rpm tpm : option Z) : bool :=
  match rpm, tpm with None, None => true | _, _ => false end.

(** ** In memory *)
Definition maxMemoryWindows : Z := 100000.
Abbreviation Windows := (gmap windowID windowCount).

Definition memory_Allow (keyID : uuid) (rpm tpm : option Z) (tokens : Z) (now : time) (l : Windows)
  : Windows * result error unit :=
  if tokens <? 0 then (l, Err ErrInvalidInput) else
  if unlimited rpm tpm then (l, Ok tt) else
  let minute := minute_of now in
  let id := (keyID, minute) in
  let full (l : Windows) := maxMemoryWindows <=? Z.of_nat (size l) in
  let fresh := bool_decide (l !! id = None) in
  let l' := if fresh && full l then filter (fun kv => kv.1.2 = minute) l else l in
  if fresh && full l && full l' then (l', Err ErrRateLimitUnavailable) else
  let count := default no_count (l' !! id) in
  let count := {| wc_requests := i64_add (wc_requests count) 1; wc_tokens := i64_add (wc_tokens count) tokens |} in
  (<[id := count]> l', within rpm tpm count).

(** ** In Redis

    The server is a parameter: [hash_get] is what a field of a hash holds, [hincrby] is [HINCRBY]
    ([None] is the error it raises, which ends the script), [hash_pexpire] is [PEXPIRE], and
    [lua_integer] is what becomes of an integer on its way through the script. *)
Class HashServer (S : Type) := {
  hash_get : time -> string -> string -> S -> option Z;
  hincrby : time -> string -> string -> Z -> S -> option (S * Z);
  hash_pexpire : time -> string -> Z -> S -> S;
  lua_integer : Z -> Z
}.

Section redis.
Context {S : Type} `{HashServer S, UuidText}.

Definition rateLimitScript (now : time) (key : string) (tokens ms : Z) (s : S) : S * option (Z * Z) :=
  match hincrby now key "requests" 1 s with
  | None => (s, None)
  | Some (s, requests) =>
      match hincrby now key "tokens" tokens s with
      | None => (s, None)
      | Some (s, tokens) => (hash_pexpire now key ms s, Some (lua_integer requests, lua_integer tokens))
      end
  end.

Definition rate_key (id : windowID) : string := "bablo:apikey:rate:" +:+ uuid_string id.1 +:+ ":" +:+ Itoa id.2.
Definition rate_ttl (now : time) : Z :=
  let minute := now - now mod Minute in
  let ttl := minute + Minute - now + Second in
  if ttl <? Second then Second else ttl.

(** The server runs the script at the instants of the call. *)
Definition redis_Allow (call : Call) (keyID : uuid) (rpm tpm : option Z) (tokens : Z) (now : time) (s : S)
  : S * result error unit :=
  if tokens <? 0 then (s, Err ErrInvalidInput) else
  if unlimited rpm tpm then (s, Ok tt) else
  match exec call (fun now' => rateLimitScript now' (rate_key (keyID, minute_of now)) tokens (Milliseconds (rate_ttl now))) s with
  | (s, Some (Some (requests, usedTokens))) => (s, within rpm tpm {| wc_requests := requests; wc_tokens := usedTokens |})
  | (s, _) => (s, Err ErrRateLimitUnavailable)
  end.
End redis.

(** Documented: [HINCRBY] starts from zero and fails only on overflow, a hash lives until the
    expiry it was last given, and integers of up to 2^53 pass through Lua unchanged. *)
Class HashLaws (S : Type) `{HashServer S} : Prop := {
  law_hincrby now k f d s : let n := default 0 (hash_get now k f s) + d in
    if bool_decide (in_i64 n)
    then exists s', hincrby now k f d s = Some (s', n) /\ hash_get now k f s' = Some n
      /\ (forall f', f' <> f -> hash_get now k f' s' = hash_get now k f' s)
      /\ forall t k' f', now <= t -> k' <> k -> hash_get t k' f' s' = hash_get t k' f' s
    else hincrby now k f d s = None;
  law_hash_pexpire now k ms s t k' f : now <= t ->
    hash_get t k' f (hash_pexpire now k ms s)
    = if decide (k' = k) then (if t <? now + ms * Millisecond then hash_get now k f s else None) else hash_get t k' f s;
  law_lua_integer z : Z.abs z <= 2 ^ 53 -> lua_integer z = z
}.

(** ** The contract *)
(** A call of [Allow]: [rq_env] is what its execution meets. *)
Record request (E : Type) := mkRequest {
  rq_env : E; rq_key : uuid; rq_rpm : option Z; rq_tpm : option Z; rq_tokens : Z; rq_now : time
}.
Arguments mkRequest {E}.
Arguments rq_env {E}.
Arguments rq_key {E}.
Arguments rq_rpm {E}.
Arguments rq_tpm {E}.
Arguments rq_tokens {E}.
Arguments rq_now {E}.

(** The interface [Limiter]. *)
Class Limiter (L E : Type) := Allow : request E -> L -> L * result error unit.
#[export] Instance memory_limiter : Limiter Windows unit := fun q =>
  memory_Allow (rq_key q) (rq_rpm q) (rq_tpm q) (rq_tokens q) (rq_now q).
#[export] Instance redis_limiter {S : Type} `{HashServer S, UuidText} : Limiter S Call := fun q =>
  redis_Allow (rq_env q) (rq_key q) (rq_rpm q) (rq_tpm q) (rq_tokens q) (rq_now q).

Section contract.
Context {E : Type}.
Implicit Types (q : request E) (h : list (request E)) (w : windowID).

Definition window q : windowID := (rq_key q, minute_of (rq_now q)).
(** The calls a window counts. *)
Definition counted q : bool := negb (rq_tokens q <? 0) && negb (unlimited (rq_rpm q) (rq_tpm q)).
Definition counts_in w q : bool := counted q && bool_decide (window q = w).
Definition tokens_of h : Z := foldr (fun q n => rq_tokens q + n) 0 h.
(** The count of a window after the calls [h], [None] when it has none. *)
Definition count_of w h : option windowCount :=
  match List.filter (counts_in w) h with
  | [] => None
  | l => Some {| wc_requests := Z.of_nat (List.length l); wc_tokens := tokens_of l |}
  end.
(** What a call that follows [h] is owed. *)
Definition verdict h q : result error unit :=
  if rq_tokens q <? 0 then Err ErrInvalidInput else
  if unlimited (rq_rpm q) (rq_tpm q) then Ok tt else
  within (rq_rpm q) (rq_tpm q) (default no_count (count_of (window q) (h ++ [q])%list)).

(** Answers that count every call exactly; [refuses] says when a limiter may be unavailable,
    and then the call may have been counted or not. *)
Inductive exact (refuses : list (request E) -> request E -> Prop) :
    list (request E) -> list (request E * result error unit) -> Prop :=
| exact_nil h : exact refuses h []
| exact_answer h q l : exact refuses (h ++ [q])%list l -> exact refuses h ((q, verdict h q) :: l)
| exact_refused h q l : refuses h q -> exact refuses h l -> exact refuses h ((q, Err ErrRateLimitUnavailable) :: l)
| exact_lost h q l : refuses h q -> exact refuses (h ++ [q])%list l ->
    exact refuses h ((q, Err ErrRateLimitUnavailable) :: l).
End contract.

(** A run of calls and its answers. *)
Fixpoint run {L E} `{Limiter L E} (qs : list (request E)) (l : L) : list (request E * result error unit) :=
  match qs with
  | [] => []
  | q :: qs => let '(l, a) := Allow q l in (q, a) :: run qs l
  end.

(** What an implementation promises: the runs [ok] from the states [start] are exact. *)
Class ExactLimiter (L E : Type) `{Limiter L E} := {
  start : L -> Prop;
  ok : list (request E) -> Prop;
  refuses : list (request E) -> request E -> Prop;
  run_exact qs l : start l -> ok qs -> exact refuses [] (run qs l)
}.

(** ** Tallies *)
Section tallies.
Context {E : Type}.
Implicit Types (q : request E) (h : list (request E)) (w : windowID).

Definition bump (c : windowCount) q : windowCount :=
  {| wc_requests := wc_requests c + 1; wc_tokens := wc_tokens c + rq_tokens q |}.
Lemma filter_snoc {A} (f : A -> bool) l x : List.filter f (l ++ [x])%list = (List.filter f l ++ if f x then [x] else [])%list.
Proof. rewrite List.filter_app. simpl. by destruct (f x). Qed.
Lemma tokens_of_app h h' : tokens_of (h ++ h')%list = tokens_of h + tokens_of h'.
Proof. induction h as [|q h IH]; simpl; lia. Qed.
Lemma tally_count w h : default no_count (count_of w h)
  = {| wc_requests := Z.of_nat (List.length (List.filter (counts_in w) h)); wc_tokens := tokens_of (List.filter (counts_in w) h) |}.
Proof. unfold count_of. by destruct (List.filter _ h). Qed.
Lemma tally_snoc w h q : count_of w (h ++ [q])%list
  = if counts_in w q then Some (bump (default no_count (count_of w h)) q) else count_of w h.
Proof.
  rewrite tally_count. unfold count_of. rewrite filter_snoc. destruct (counts_in w q); [|by rewrite app_nil_r].
  destruct (List.filter (counts_in w) h ++ [q])%list as [|x l] eqn:El; [by destruct (List.filter _ h)|].
  rewrite <- El, length_app, tokens_of_app. unfold bump. simpl. do 2 f_equal; lia.
Qed.
Lemma counts_in_window q : counts_in (window q) q = counted q.
Proof. unfold counts_in. by rewrite bool_decide_true, andb_true_r. Qed.
Lemma counts_in_inv w q : counts_in w q = true -> counted q = true /\ w = window q.
Proof. unfold counts_in. rewrite andb_true_iff, bool_decide_eq_true. by intros [? ->]. Qed.
Lemma counted_inv q : counted q = true -> (rq_tokens q <? 0) = false /\ unlimited (rq_rpm q) (rq_tpm q) = false.
Proof. unfold counted. by rewrite andb_true_iff, !negb_true_iff. Qed.
Lemma verdict_counted h q : counted q = true ->
  verdict h q = within (rq_rpm q) (rq_tpm q) (bump (default no_count (count_of (window q) h)) q).
Proof.
  intros Hc. unfold verdict. destruct (counted_inv _ Hc) as [-> ->]. by rewrite tally_snoc, counts_in_window, Hc.
Qed.
Lemma uncounted_tally w h q : counted q = false -> count_of w (h ++ [q])%list = count_of w h.
Proof. intros Hc. rewrite tally_snoc. unfold counts_in. by rewrite Hc. Qed.

(** The requests and the tokens of some calls. *)
Definition weigh h : Z := foldr (fun q n => 1 + Z.max 0 (rq_tokens q) + n) 0 h.
Lemma weigh_snoc h q : weigh (h ++ [q])%list = weigh h + (1 + Z.max 0 (rq_tokens q)).
Proof. induction h as [|p h IH]; simpl; lia. Qed.
Lemma weigh_nonneg h : 0 <= weigh h.
Proof. induction h as [|p h IH]; simpl; lia. Qed.
Lemma tally_range w h : let c := default no_count (count_of w h) in
  0 <= wc_requests c /\ 0 <= wc_tokens c /\ wc_requests c + wc_tokens c <= weigh h.
Proof.
  rewrite tally_count. simpl. induction h as [|q h IH]; simpl; [lia|].
  destruct (counts_in w q) eqn:Ec; [|lia]. apply counts_in_inv in Ec as [[Ht _]%counted_inv _]. simpl. bools. lia.
Qed.
Lemma bump_range w h q B : counted q = true -> weigh (h ++ [q])%list <= B ->
  let c := bump (default no_count (count_of w h)) q in 0 <= wc_requests c <= B /\ 0 <= wc_tokens c <= B.
Proof.
  intros [Ht _]%counted_inv Hw. pose proof (tally_range w h) as Hr. rewrite weigh_snoc in Hw. simpl in *. bools. lia.
Qed.
End tallies.

(** ** What exact counting gives *)
Section limits.
Context {E : Type}.
Implicit Types (q : request E) (h : list (request E)) (w : windowID).

(** The calls of a window that were let through with a limit of at most [R]. *)
Definition served (limit : request E -> option Z) (R : Z) w (l : list (request E * result error unit)) : list (request E) :=
  fst <$> List.filter (fun qa => counts_in w qa.1 && is_ok qa.2
    && match limit qa.1 with Some r => r <=? R | None => false end) l.

Lemma within_ok rpm tpm c : within rpm tpm c = Ok tt ->
  (forall r, rpm = Some r -> wc_requests c <= r) /\ (forall r, tpm = Some r -> wc_tokens c <= r).
Proof.
  unfold within. destruct rpm as [r|], tpm as [t|]; simpl; repeat (case_match; [done|]); intros _;
    split; intros ? [=]; subst; bools; lia.
Qed.

Lemma sum_of_ones h : foldr (fun _ n => 1 + n) 0 h = Z.of_nat (List.length h).
Proof. induction h as [|q h IH]; simpl; lia. Qed.
(** [measure] is what a limit bounds: one for each call, or its tokens. *)
Lemma served_bound refuses (limit : request E -> option Z) (measure : request E -> Z) R w h l :
  (forall q, counted q = true -> 0 <= measure q) ->
  let total h := foldr (fun q n => measure q + n) 0 h in
  (forall h q r, counted q = true -> verdict h q = Ok tt -> limit q = Some r ->
     total (List.filter (counts_in (window q)) h) + measure q <= r) ->
  exact refuses h l ->
  served limit R w l = [] \/ total (List.filter (counts_in w) h) + total (served limit R w l) <= R.
Proof.
  intros Hpos total Hlim He.
  assert (forall h h', total (h ++ h')%list = total h + total h') as Happ
    by (intros h1 h2; subst total; simpl; induction h1 as [|x h1 IH]; simpl; lia).
  assert (forall h q, total (List.filter (counts_in w) h) <= total (List.filter (counts_in w) (h ++ [q])%list)) as Hmono.
  { intros h' q. rewrite filter_snoc, Happ. destruct (counts_in w q) eqn:Ec; simpl; [|lia].
    apply counts_in_inv in Ec as [Hc _]. specialize (Hpos _ Hc). lia. }
  induction He as [h|h q l He IH|h q l Hr He IH|h q l Hr He IH].
  - by left.
  - unfold served in *. cbn [List.filter fst snd].
    destruct (counts_in w q && is_ok (verdict h q) && _) eqn:Eb.
    + rewrite !andb_true_iff in Eb. destruct Eb as [[Hc Ho] Hl]. apply counts_in_inv in Hc as [Hc ->].
      destruct (limit q) as [r|] eqn:El; [|done]. right. cbn [fmap list_fmap fst].
      destruct (verdict h q) as [[]|] eqn:Ev; [|done]. pose proof (Hlim _ _ _ Hc Ev El) as Hb. bools.
      rewrite filter_snoc, counts_in_window, Hc, Happ in IH. simpl in *.
      destruct IH as [-> | IH]; simpl; lia.
    + destruct IH as [IH|IH]; [by left|right]. specialize (Hmono h q). lia.
  - unfold served in *. cbn [List.filter fst snd is_ok]. rewrite andb_false_r. simpl. exact IH.
  - unfold served in *. cbn [List.filter fst snd is_ok]. rewrite andb_false_r. simpl.
    destruct IH as [IH|IH]; [by left|right]. specialize (Hmono h q). lia.
Qed.
End limits.

(** in every window of a key, the calls that a limiter lets through under a limit of requests
    are no more than the limit, and the tokens of those it lets through under a limit of
    tokens are no more than that limit, however the limits change in the meantime. *)
Theorem rate_limits_hold {L E} `{Limiter L E} {X : ExactLimiter L E} qs (l : L) w R : start l -> ok qs -> 0 <= R ->
  Z.of_nat (List.length (served rq_rpm R w (run qs l))) <= R /\ tokens_of (served rq_tpm R w (run qs l)) <= R.
Proof.
  intros Hs Ho HR. pose proof (run_exact _ _ Hs Ho) as He.
  split.
  - destruct (served_bound refuses rq_rpm (fun _ => 1) R w [] (run qs l)) as [-> | Hb]; [lia| |done|done|].
    + intros h q r Hc Hv Hl. rewrite verdict_counted in Hv by done. apply within_ok in Hv as [Hv _].
      specialize (Hv _ Hl). rewrite tally_count in Hv. simpl in Hv.
      rewrite sum_of_ones. lia.
    + rewrite !sum_of_ones in Hb. simpl in Hb. lia.
  - destruct (served_bound refuses rq_tpm rq_tokens R w [] (run qs l)) as [-> | Hb]; [| |done|done|].
    + intros q [Ht _]%counted_inv. bools. lia.
    + intros h q r Hc Hv Hl. rewrite verdict_counted in Hv by done. apply within_ok in Hv as [_ Hv].
      specialize (Hv _ Hl). rewrite tally_count in Hv. simpl in Hv. exact Hv.
    + simpl in Hb. exact Hb.
Qed.

(** ** The limiter in memory *)
Section memory.
Implicit Types (q : request unit) (h : list (request unit)) (l : Windows).

(** The clock is read before the mutex: the runs are those where it does not go back a minute. *)
Definition in_order (qs : list (request unit)) : Prop :=
  Sorted.StronglySorted (fun p q => minute_of (rq_now p) <= minute_of (rq_now q)) qs.
(** The keys that have a window in the minute of a call. *)
Definition keys_of (minute : Z) h : gset uuid :=
  list_to_set (rq_key <$> List.filter (fun p => counted p && (minute_of (rq_now p) =? minute)) h).
Definition crowded h q : Prop :=
  counted q = true /\ ~ (rq_key q ∈ keys_of (minute_of (rq_now q)) h)
  /\ maxMemoryWindows <= Z.of_nat (size (keys_of (minute_of (rq_now q)) h)).

(** From minute [m] on, the windows are the tallies of the calls, which are not later. *)
Definition tallied (m : Z) h l : Prop :=
  (forall w, m <= w.2 -> l !! w = count_of w h) /\ Forall (fun p => minute_of (rq_now p) <= m) h.

Lemma tally_some w h c : count_of w h = Some c -> w.1 ∈ keys_of w.2 h.
Proof.
  unfold count_of, keys_of. destruct (List.filter (counts_in w) h) as [|q r] eqn:E; [done|]. intros _.
  assert (In q (List.filter (counts_in w) h)) as Hq by (rewrite E; by left). apply filter_In in Hq as [Hq Hc].
  apply counts_in_inv in Hc as [Hc ->]. apply elem_of_list_to_set, list_elem_of_fmap. exists q. split; [done|].
  apply list_elem_of_In, filter_In. by rewrite Hc, Z.eqb_refl.
Qed.
Lemma tally_none w h : count_of w h = None -> ~ (w.1 ∈ keys_of w.2 h).
Proof.
  unfold count_of, keys_of. destruct (List.filter (counts_in w) h) as [|q r] eqn:E; [|done]. intros _ Hin.
  apply elem_of_list_to_set, list_elem_of_fmap in Hin as (p & Hp & Hin). apply list_elem_of_In, filter_In in Hin as [Hin Hc].
  apply andb_true_iff in Hc as [Hc Hm]. apply Z.eqb_eq in Hm.
  assert (In p (List.filter (counts_in w) h)) as Hx; [|by rewrite E in Hx].
  apply filter_In. split; [done|]. unfold counts_in. rewrite Hc, bool_decide_true; [done|]. unfold window. destruct w. simpl in *. congruence.
Qed.
Lemma tally_later w m h : Forall (fun p => minute_of (rq_now p) <= m) h -> m < w.2 -> count_of w h = None.
Proof.
  intros Hh Hw. destruct (count_of w h) as [c|] eqn:Et; [|done]. exfalso. apply tally_some in Et.
  unfold keys_of in Et. apply elem_of_list_to_set, list_elem_of_fmap in Et as (p & _ & Hin).
  apply list_elem_of_In, filter_In in Hin as [Hin Hm]. apply andb_true_iff in Hm as [_ Hm]. apply Z.eqb_eq in Hm.
  rewrite Forall_forall in Hh. apply list_elem_of_In in Hin. specialize (Hh _ Hin). simpl in Hh. lia.
Qed.

(** What is deleted when the map is full. *)
Definition current (m : Z) l : Windows := filter (fun kv => kv.1.2 = m) l.
Lemma current_tallied m h l : tallied m h l -> tallied m h (current m l).
Proof.
  intros [Hl Hh]. split; [|done]. intros w Hw. unfold current. rewrite map_lookup_filter.
  destruct (decide (w.2 = m)) as [E|E].
  - rewrite <- Hl by done. destruct (l !! w); [|done]. simpl. by rewrite option_guard_True.
  - rewrite (tally_later w m h) by (done || lia). destruct (l !! w); [|done]. simpl. by rewrite option_guard_False.
Qed.
Lemma current_size m h l : tallied m h l -> (size (current m l) <= size (keys_of m h))%nat.
Proof.
  intros Ht. rewrite <- size_dom. change (size (dom (current m l))) with (List.length (elements (dom (current m l)))).
  change (size (keys_of m h)) with (List.length (elements (keys_of m h))). rewrite <- (length_fmap (fst : windowID -> uuid)).
  assert (forall w, w ∈ elements (dom (current m l)) -> w.2 = m /\ w.1 ∈ keys_of m h) as Hin.
  { intros w [c Hc]%elem_of_elements%elem_of_dom. pose proof Hc as Hc'.
    apply map_lookup_filter_Some in Hc' as [_ Hm]. simpl in Hm. destruct (current_tallied _ _ _ Ht) as [Hcur _].
    rewrite Hcur in Hc by lia. apply tally_some in Hc. by rewrite Hm in Hc. }
  apply submseteq_length, NoDup_submseteq.
  - apply NoDup_fmap_2_strong; [|apply NoDup_elements]. intros [k x] [k' y] Ha Hb E.
    destruct (Hin _ Ha) as [Ex _], (Hin _ Hb) as [Ey _]. simpl in *. congruence.
  - intros k (w & -> & [_ Hw]%Hin)%list_elem_of_fmap. by apply elem_of_elements.
Qed.

(** One counted call from tallied windows. *)
Lemma memory_count m h l q : tallied m h l -> m <= minute_of (rq_now q) -> counted q = true ->
  weigh (h ++ [q])%list <= max_int64 ->
  exists l' a, Allow q l = (l', a)
    /\ (a = verdict h q /\ tallied (minute_of (rq_now q)) (h ++ [q])%list l'
        \/ a = Err ErrRateLimitUnavailable /\ crowded h q /\ tallied (minute_of (rq_now q)) h l').
Proof.
  intros [Hl Hh] Hm Hc Hb. set (n := minute_of (rq_now q)) in *.
  assert (tallied n h l) as Ht.
  { split; [intros w Hw; apply Hl; lia|]. eapply Forall_impl; [exact Hh|]. simpl. intros. lia. }
  pose proof (counted_inv _ Hc) as [Htok Hun].
  cbv [Allow memory_limiter]. unfold memory_Allow. rewrite Htok, Hun. fold n. fold (current n l).
  set (fresh := bool_decide _). set (l1 := if fresh && _ then _ else l).
  assert (tallied n h l1) as H1 by (subst l1; destruct (fresh && _); [by apply current_tallied|done]).
  destruct (fresh && (maxMemoryWindows <=? Z.of_nat (size l)) && (maxMemoryWindows <=? Z.of_nat (size l1))) eqn:Ef.
  - eexists _, _. split; [reflexivity|]. right. split_and!; [done| |done]. rewrite !andb_true_iff in Ef. destruct Ef as [[Ef1 Ef2] Ef3].
    unfold crowded. fold n. split_and!; [done| |].
    + apply (tally_none (rq_key q, n)). rewrite <- (proj1 Ht) by (simpl; lia). by apply bool_decide_eq_true in Ef1.
    + subst l1. rewrite Ef1, Ef2 in Ef3. cbn [andb] in Ef3. apply Z.leb_le in Ef3. pose proof (current_size _ _ _ Ht). lia.
  - destruct H1 as [Hl1 _]. rewrite (Hl1 (rq_key q, n)) by (simpl; lia). change (rq_key q, n) with (window q).
    pose proof (bump_range (window q) h q max_int64 Hc Hb) as Hr. simpl in Hr.
    eexists _, _. split; [reflexivity|]. left.
    rewrite !i64_add_id by (unfold in_i64, min_int64; lia).
    fold (bump (default no_count (count_of (window q) h)) q). split; [by rewrite verdict_counted|]. split.
    + intros w Hw. rewrite tally_snoc. destruct (counts_in w q) eqn:Ew.
      * apply counts_in_inv in Ew as [_ ->]. by rewrite lookup_insert_eq.
      * rewrite lookup_insert_ne; [by apply Hl1|]. intros <-. by rewrite counts_in_window, Hc in Ew.
    + apply Forall_app. split; [apply Ht|]. apply Forall_singleton. subst n. lia.
Qed.

Lemma memory_skip m h l q : tallied m h l -> m <= minute_of (rq_now q) -> counted q = false ->
  Allow q l = (l, verdict h q) /\ tallied (minute_of (rq_now q)) (h ++ [q])%list l.
Proof.
  intros [Hl Hh] Hm Hc. split.
  - cbv [Allow memory_limiter]. unfold memory_Allow, verdict. unfold counted in Hc.
    destruct (rq_tokens q <? 0); [done|]. destruct (unlimited _ _); [done|]. done.
  - split; [intros w Hw; rewrite uncounted_tally by done; apply Hl; lia|]. apply Forall_app.
    split; [eapply Forall_impl; [exact Hh|]; simpl; intros; lia|]. apply Forall_singleton. lia.
Qed.

Lemma memory_run_exact m h l qs : tallied m h l -> in_order qs -> Forall (fun q => m <= minute_of (rq_now q)) qs ->
  weigh h + weigh qs <= max_int64 -> exact crowded h (run qs l).
Proof.
  revert m h l. induction qs as [|q qs IH]; intros m h l Ht Ho Hm Hw; [constructor|].
  apply Sorted.StronglySorted_inv in Ho as [Ho Hq]. apply Forall_cons in Hm as [Hm _]. cbn [run].
  assert (forall h' l', tallied (minute_of (rq_now q)) h' l' -> weigh h' + weigh qs <= max_int64 -> exact crowded h' (run qs l')) as Hnext.
  { intros h' l' Ht' Hw'. by eapply IH. }
  simpl in Hw. pose proof (weigh_nonneg qs).
  destruct (counted q) eqn:Hc.
  - destruct (memory_count _ _ _ _ Ht Hm Hc) as (l' & a & -> & [[-> Ht']|(-> & Hcr & Ht')]); [rewrite weigh_snoc; lia|..].
    + apply exact_answer, Hnext; [done|]. rewrite weigh_snoc. lia.
    + apply exact_refused, Hnext; [done|done|lia].
  - destruct (memory_skip _ _ _ _ Ht Hm Hc) as [-> Ht']. apply exact_answer, Hnext; [done|]. rewrite weigh_snoc. lia.
Qed.

#[export, refine] Instance memory_exact : ExactLimiter Windows unit := {|
  start := fun l => l = ∅;
  ok := fun qs => in_order qs /\ weigh qs <= max_int64;
  refuses := crowded
|}.
Proof.
  intros qs l -> [Ho Hw]. destruct qs as [|q qs]; [constructor|].
  apply (memory_run_exact (minute_of (rq_now q))); [|done| |simpl in *; lia].
  - split; [|constructor]. intros w _. by rewrite lookup_empty.
  - apply Sorted.StronglySorted_inv in Ho as [_ Hq]. by constructor.
Defined.
End memory.

(** ** The limiter in Redis *)
Section redis_exact.
Context {S : Type} `{HashLaws S} `{T : UuidText} {TL : UuidTextLaws T}.
Implicit Types (q : request Call) (h : list (request Call)) (s : S) (w : windowID).

Lemma no_colon_split (a b s t : string) :
  forall_bytes (fun c => negb (Ascii.eqb c ":")) a = true -> forall_bytes (fun c => negb (Ascii.eqb c ":")) b = true ->
  a +:+ String ":" s = b +:+ String ":" t -> a = b /\ s = t.
Proof.
  revert b. induction a as [|x a IH]; intros [|y b] Ha Hb E; cbn [forall_bytes] in *;
    unfold String.append in E; fold String.append in E.
  - by injection E as ->.
  - injection E as <- _. done.
  - injection E as -> _. done.
  - injection E as -> E. apply andb_true_iff in Ha as [_ Ha], Hb as [_ Hb]. by destruct (IH _ Ha Hb E) as [-> ->].
Qed.
Lemma uuid_no_colon u : forall_bytes (fun c => negb (Ascii.eqb c ":")) (uuid_string u) = true.
Proof.
  pose proof (uuid_string_plain u) as Hp. revert Hp. generalize (uuid_string u). intros s.
  induction s as [|c s IH]; cbn [forall_bytes]; [done|]. rewrite !andb_true_iff. intros [Hc Hs]. split; [|by apply IH].
  destruct (Ascii.eqb_spec c ":") as [-> | ]; [by vm_compute in Hc|done].
Qed.
Lemma rate_key_inj w w' : rate_key w = rate_key w' -> w = w'.
Proof.
  unfold rate_key. intros E. apply app_inj_l in E. apply no_colon_split in E as [E1 E2]; [|apply uuid_no_colon..].
  destruct w, w'. simpl in *. pose proof (uuid_string_inj (T := T)) as Hi. apply Hi in E1. apply Itoa_inj in E2. congruence.
Qed.

(** The instant up to which the counters of a window are read. *)
Definition read_until w : time := (w.2 + unixToInternal) * Second + Minute + 999 * Millisecond.
(** From [t0] on, the counters hold the tallies of the windows that can still be read. *)
Definition counted_in_redis (t0 : time) h s : Prop := forall t w, t0 <= t -> t < read_until w ->
  hash_get t (rate_key w) "requests" s = wc_requests <$> count_of w h
  /\ hash_get t (rate_key w) "tokens" s = wc_tokens <$> count_of w h.

(** The script runs less than a second after the call has read its clock. *)
Definition prompt q : Prop := rq_now q <= c_now (rq_env q) <= rq_now q + 999 * Millisecond /\ c_sent (rq_env q) = [].
Definition served_in_order (qs : list (request Call)) : Prop :=
  Sorted.StronglySorted (fun p q => c_now (rq_env p) <= c_now (rq_env q)) qs.
Definition faulty h q : Prop := c_fault (rq_env q) <> None.

Lemma window_start now : (minute_of now + unixToInternal) * Second = now - now mod Minute.
Proof.
  unfold minute_of. rewrite Z.sub_add. rewrite (Z.mul_comm _ Second), <- Z_div_exact_full_2; [done|done|].
  unfold Minute. rewrite (Z.mul_comm 60 Second).
  pose proof (Z.div_mod now (Second * 60) ltac:(done)) as Hd. replace (now - now mod (Second * 60)) with (now / (Second * 60) * 60 * Second) by lia.
  apply Z_mod_mult.
Qed.
Lemma prompt_readable q : prompt q -> c_now (rq_env q) < read_until (window q).
Proof.
  unfold prompt, read_until, window. intros [Hp _]. revert Hp. cbn [snd]. rewrite window_start.
  pose proof (Z.mod_pos_bound (rq_now q) Minute ltac:(done)). lia.
Qed.
Lemma prompt_expiry q : prompt q -> read_until (window q) <= c_now (rq_env q) + Milliseconds (rate_ttl (rq_now q)) * Millisecond.
Proof.
  unfold prompt, read_until, window, rate_ttl. intros [Hp _]. revert Hp. cbn [snd]. rewrite window_start.
  pose proof (Z.mod_pos_bound (rq_now q) Minute ltac:(done)). set (x := rq_now q mod Minute) in *.
  replace (rq_now q - x + Minute - rq_now q + Second) with (Minute + Second - x) by lia.
  replace (Minute + Second - x <? Second) with false by (symmetry; apply Z.ltb_ge; lia).
  unfold Milliseconds. rewrite Z.quot_div_nonneg by (unfold Second, Millisecond in *; lia).
  pose proof (Z.div_mod (Minute + Second - x) Millisecond ltac:(done)).
  pose proof (Z.mod_pos_bound (Minute + Second - x) Millisecond ltac:(done)). unfold Second, Millisecond in *. lia.
Qed.

Lemma counted_later t0 t1 h s : counted_in_redis t0 h s -> t0 <= t1 -> counted_in_redis t1 h s.
Proof. intros Hr Ht t w H1. apply Hr. lia. Qed.
Lemma default_requests o : default 0 (wc_requests <$> o) = wc_requests (default no_count o).
Proof. by destruct o. Qed.
Lemma default_tokens o : default 0 (wc_tokens <$> o) = wc_tokens (default no_count o).
Proof. by destruct o. Qed.

(** The script counts the call. *)
Lemma script_counts t0 h s q : counted_in_redis t0 h s -> t0 <= c_now (rq_env q) -> prompt q -> counted q = true ->
  weigh (h ++ [q])%list <= 2 ^ 53 ->
  exists s', rateLimitScript (c_now (rq_env q)) (rate_key (window q)) (rq_tokens q) (Milliseconds (rate_ttl (rq_now q))) s
      = (s', let c := bump (default no_count (count_of (window q) h)) q in Some (wc_requests c, wc_tokens c))
    /\ counted_in_redis (c_now (rq_env q)) (h ++ [q])%list s'.
Proof.
  intros Hr Ht Hp Hc Hb. set (now := c_now (rq_env q)) in *. set (k := rate_key (window q)).
  pose proof (prompt_readable _ Hp) as Hread. fold now in Hread. destruct (Hr now (window q) Ht Hread) as [Hreq Htok].
  pose proof (bump_range (window q) h q _ Hc Hb) as Hrange. cbv zeta in Hrange. destruct Hrange as [Hr1 Hr2].
  assert (2 ^ 53 <= max_int64) as Hsmall by done.
  assert (forall z, 0 <= z <= 2 ^ 53 -> in_i64 z) as Hin by (intros z Hz; unfold in_i64, min_int64; lia).
  unfold rateLimitScript. fold k in Hreq, Htok.
  pose proof (law_hincrby now k "requests" 1 s) as L1. cbv zeta in L1. rewrite Hreq, default_requests in L1.
  change (wc_requests (default no_count (count_of (window q) h)) + 1) with (wc_requests (bump (default no_count (count_of (window q) h)) q)) in L1.
  rewrite bool_decide_true in L1 by by apply Hin. destruct L1 as (s1 & -> & G1 & G2 & G3).
  pose proof (law_hincrby now k "tokens" (rq_tokens q) s1) as L2. cbv zeta in L2. rewrite G2, Htok, default_tokens in L2 by done.
  change (wc_tokens (default no_count (count_of (window q) h)) + rq_tokens q) with (wc_tokens (bump (default no_count (count_of (window q) h)) q)) in L2.
  rewrite bool_decide_true in L2 by by apply Hin. destruct L2 as (s2 & -> & F1 & F2 & F3).
  eexists. split; [rewrite !law_lua_integer by lia; reflexivity|].
  pose proof (prompt_expiry _ Hp) as Hexp. fold now in Hexp.
  intros t w Hnow Hw. rewrite !law_hash_pexpire by done. rewrite tally_snoc.
  destruct (counts_in w q) eqn:Ew.
  - apply counts_in_inv in Ew as [_ ->]. fold k. rewrite !decide_True by done.
    replace (t <? _) with true by (symmetry; apply Z.ltb_lt; lia). rewrite F2, G1, F1 by done. done.
  - assert (rate_key w <> k) as Hk.
    { intros ->%rate_key_inj. by rewrite counts_in_window, Hc in Ew. }
    rewrite !decide_False by done. rewrite !F3, !G3 by done. apply Hr; [lia|done].
Qed.

Lemma redis_count t0 h s q : counted_in_redis t0 h s -> t0 <= c_now (rq_env q) -> prompt q -> counted q = true ->
  weigh (h ++ [q])%list <= 2 ^ 53 ->
  exists s' a, Allow q s = (s', a)
    /\ (a = verdict h q /\ counted_in_redis (c_now (rq_env q)) (h ++ [q])%list s'
        \/ a = Err ErrRateLimitUnavailable /\ faulty h q
           /\ (counted_in_redis (c_now (rq_env q)) h s' \/ counted_in_redis (c_now (rq_env q)) (h ++ [q])%list s')).
Proof.
  intros Hr Ht Hp Hc Hb. pose proof (counted_inv _ Hc) as [Htok Hun].
  destruct (script_counts _ _ _ _ Hr Ht Hp Hc Hb) as (s' & Hs & Hr').
  pose proof (counted_later _ _ _ _ Hr Ht) as Hsame.
  cbv [Allow redis_limiter]. unfold redis_Allow. rewrite Htok, Hun. fold (window q). unfold exec, faulty.
  rewrite (proj2 Hp). cbn [resend].
  destruct (c_fault (rq_env q)) as [[]|] eqn:Ef.
  - exists s. eexists. split; [done|]. right. by split_and!; [|intros [=]|left].
  - exists s. eexists. split; [done|]. right. by split_and!; [|intros [=]|left].
  - rewrite Hs. exists s'. eexists. split; [done|]. right. by split_and!; [|intros [=]|right].
  - rewrite Hs. exists s'. eexists. split; [done|]. left. split; [|done].
    rewrite verdict_counted by done. by destruct (bump _ _).
Qed.
Lemma redis_skip h s q : counted q = false -> Allow q s = (s, verdict h q).
Proof.
  intros Hc. cbv [Allow redis_limiter]. unfold redis_Allow, verdict. unfold counted in Hc.
  destruct (rq_tokens q <? 0); [done|]. destruct (unlimited _ _); [done|]. done.
Qed.

Lemma redis_run_exact t0 h s qs : counted_in_redis t0 h s -> served_in_order qs ->
  Forall (fun q => t0 <= c_now (rq_env q)) qs -> Forall prompt qs -> weigh h + weigh qs <= 2 ^ 53 ->
  exact faulty h (run qs s).
Proof.
  revert t0 h s. induction qs as [|q qs IH]; intros t0 h s Hr Ho Ht Hp Hw; [constructor|].
  apply Sorted.StronglySorted_inv in Ho as [Ho Hq]. apply Forall_cons in Ht as [Ht _], Hp as [Hp Hps]. cbn [run].
  assert (forall h' s', counted_in_redis (c_now (rq_env q)) h' s' -> weigh h' + weigh qs <= 2 ^ 53 -> exact faulty h' (run qs s')) as Hnext.
  { intros h' s' Hr' Hw'. by eapply IH. }
  cbn [weigh foldr] in Hw. fold (weigh qs) in Hw. pose proof (weigh_nonneg qs). destruct (counted q) eqn:Hc.
  - destruct (redis_count _ _ _ _ Hr Ht Hp Hc) as (s' & a & -> & [[-> Hr']|(-> & Hf & [Hr'|Hr'])]); [rewrite weigh_snoc; lia|..].
    + apply exact_answer, Hnext; [done|]. rewrite weigh_snoc. lia.
    + apply exact_refused, Hnext; [done|done|lia].
    + apply exact_lost, Hnext; [done|done|]. rewrite weigh_snoc. lia.
  - rewrite (redis_skip h) by done. apply exact_answer, Hnext; [|rewrite weigh_snoc; lia].
    intros t w Ha Hb. rewrite uncounted_tally by done. apply Hr; [lia|done].
Qed.

(** No counter yet. *)
#[export, refine] Instance redis_exact : ExactLimiter S Call := {|
  start := fun s => forall t w f, hash_get t (rate_key w) f s = None;
  ok := fun qs => served_in_order qs /\ Forall prompt qs /\ weigh qs <= 2 ^ 53;
  refuses := faulty
|}.
Proof.
  intros qs s Hs (Ho & Hp & Hw). destruct qs as [|q qs]; [constructor|].
  apply (redis_run_exact (c_now (rq_env q))); [|done| |done|exact Hw].
  - intros t w _ _. by rewrite !Hs.
  - apply Sorted.StronglySorted_inv in Ho as [_ Hq]. by constructor.
Defined.
End redis_exact.

(** C29: both limiters answer a run as exact counting does, from no counter on, as long as the
    calls and the tokens of the whole run together ([weigh], one for each call plus its tokens)
    are at most 2^63 - 1 in memory, where the counters would wrap around, and 2^53 in Redis,
    beyond which Lua numbers round. The one in memory when the calls do not go back to an earlier
    minute, apart from calls it refuses because 100,000 other keys have a window in the minute; the
    one in Redis when each script is sent once and runs at most 999 milliseconds after its call has
    read the clock, in the order of the server's clock, apart from calls whose command failed, which
    may have been counted or not. *)
Theorem limiters_count_exactly {S : Type} `{HashLaws S} `{T : UuidText} {TL : UuidTextLaws T} :
  (forall qs, in_order qs -> weigh qs <= max_int64 -> exact crowded [] (run qs (∅ : Windows)))
  /\ forall qs (s : S), (forall t w f, hash_get t (rate_key w) f s = None) ->
       served_in_order qs -> Forall prompt qs -> weigh qs <= 2 ^ 53 -> exact faulty [] (run qs s).
Proof.
  split.
  - intros qs Ho Hw. by apply (run_exact (ExactLimiter := memory_exact)).
  - intros qs s Hs Ho Hp Hw. by apply (run_exact (ExactLimiter := redis_exact)).
Qed.
End Limiters.

(** ** A server, and runs of both limiters *)
Module LimiterDemo.
Import ApiKey Limiters.
#[local] Existing Instance BillingDemo.demo_text.
#[local] Existing Instance PaymentDemo.demo_text_laws.
Import Coordinator(Call, c_now, c_then, c_fault, c_sent, fault(..)).

(** A hash with its fields and its expiry. *)
Record demo_hash := { dh_fields : gmap string Z; dh_expires : option time }.
Definition lives (t : time) (h : demo_hash) : bool := match dh_expires h with Some e => t <? e | None => true end.
Definition fields_at (t : time) (k : string) (s : gmap string demo_hash) : option demo_hash :=
  match s !! k with Some h => if lives t h then Some h else None | None => None end.
Definition no_fields : demo_hash := {| dh_fields := ∅; dh_expires := None |}.
#[export] Instance demo_hash_server : HashServer (gmap string demo_hash) := {|
  hash_get t k f s := h ← fields_at t k s; dh_fields h !! f;
  hincrby t k f d s :=
    let h := default no_fields (fields_at t k s) in
    let n := default 0 (dh_fields h !! f) + d in
    if bool_decide (in_i64 n)
    then Some (<[k := {| dh_fields := <[f := n]> (dh_fields h); dh_expires := dh_expires h |}]> s, n) else None;
  hash_pexpire t k ms s :=
    match fields_at t k s with
    | Some h => <[k := {| dh_fields := dh_fields h; dh_expires := Some (t + ms * Millisecond) |}]> s
    | None => s
    end;
  lua_integer := fun z => z
|}.

Lemma fields_insert t k k' h s : fields_at t k' (<[k := h]> s)
  = if decide (k' = k) then (if lives t h then Some h else None) else fields_at t k' s.
Proof.
  unfold fields_at. destruct (decide (k' = k)) as [->|]; [by rewrite lookup_insert_eq|by rewrite lookup_insert_ne].
Qed.
Lemma fields_some t k s h : fields_at t k s = Some h -> lives t h = true.
Proof. unfold fields_at. destruct (s !! k) as [g|]; [|done]. destruct (lives t g) eqn:E; [|done]. by intros [= <-]. Qed.
Lemma fields_gone t t' k s : fields_at t k s = None -> t <= t' -> fields_at t' k s = None.
Proof.
  unfold fields_at. destruct (s !! k) as [g|]; [|done]. unfold lives. destruct (dh_expires g) as [e|]; [|done].
  destruct (Z.ltb_spec t e); [done|]. intros _ Ht. destruct (Z.ltb_spec t' e); [lia|done].
Qed.
#[export] Instance demo_hash_laws : HashLaws (gmap string demo_hash).
Proof.
  constructor.
  - intros now k f d s. cbn [hash_get hincrby demo_hash_server].
    assert (default 0 (dh_fields (default no_fields (fields_at now k s)) !! f)
            = default 0 (h ← fields_at now k s; dh_fields h !! f)) as -> by (by destruct (fields_at now k s)).
    cbv zeta. case_bool_decide; [|done]. eexists. split; [done|].
    assert (lives now {| dh_fields := <[f := default 0 (h ← fields_at now k s; dh_fields h !! f) + d]>
        (dh_fields (default no_fields (fields_at now k s))); dh_expires := dh_expires (default no_fields (fields_at now k s)) |} = true) as Hl.
    { destruct (fields_at now k s) as [h|] eqn:E; [|done]. apply (fields_some _ _ _ _ E). }
    split_and!.
    + rewrite fields_insert, decide_True, Hl by done. simpl. by rewrite lookup_insert_eq.
    + intros f' Hf. rewrite fields_insert, decide_True, Hl by done. simpl. rewrite lookup_insert_ne by done.
      by destruct (fields_at now k s).
    + intros t k' f' _ Hk. by rewrite fields_insert, decide_False.
  - intros now k ms s t k' f Ht. cbn [hash_get hash_pexpire demo_hash_server].
    destruct (fields_at now k s) as [h|] eqn:E.
    + rewrite fields_insert. destruct (decide (k' = k)) as [->|]; [|done]. unfold lives. simpl. by case_match.
    + destruct (decide (k' = k)) as [->|]; [|done]. rewrite (fields_gone _ _ _ _ E Ht). simpl. by case_match.
  - done.
Qed.

(** Calls of a key with two requests and a hundred tokens a minute, then in the next minute. *)
Definition call_at {E} (env : E) (tokens : Z) (now : time) : request E := mkRequest env 7%N (Some 2) (Some 100) tokens now.
Definition base : time := (unixToInternal + 1700000040) * Second.
Definition local_calls : list (request unit) :=
  [call_at tt 60 base; call_at tt (-1) base; call_at tt 60 (base + 20 * Second); call_at tt 0 (base + 30 * Second);
   call_at tt 100 (base + 61 * Second)].
Example local_answers : snd <$> run local_calls (∅ : Windows)
  = [Ok tt; Err ErrInvalidInput; Err ErrRateLimited; Err ErrRateLimited; Ok tt].
Proof. vm_compute. reflexivity. Qed.
(** The tokens are added with wrap-around: beyond the bound of the theorem the limit is lost. *)
Example tokens_wrap_around :
  snd <$> run [call_at tt max_int64 base; call_at tt max_int64 base] (∅ : Windows) = [Err ErrRateLimited; Ok tt].
Proof. vm_compute. reflexivity. Qed.

Definition reaches (delay : Z) (f : option fault) (now : time) : Call :=
  {| c_now := now + delay; c_then := now + delay; c_fault := f; c_sent := [] |}.
Definition prompt_calls : list (request Call) :=
  [call_at (reaches Millisecond None base) 60 base;
   call_at (reaches 5 (Some ReplyLost) (base + 59 * Second)) 30 (base + 59 * Second);
   call_at (reaches (999 * Millisecond) None (base + 60 * Second - 1)) 5 (base + 60 * Second - 1)].
Example remote_answers : snd <$> run prompt_calls (∅ : gmap string demo_hash)
  = [Ok tt; Err ErrRateLimitUnavailable; Err ErrRateLimited].
Proof. vm_compute. reflexivity. Qed.

(** A script sent again after its reply was lost counts its call twice. *)
Example counted_twice :
  let again := {| c_now := base + 2; c_then := base + 2; c_fault := None; c_sent := [base + 1] |} in
  (redis_Allow again 7%N (Some 1) None 0 base (∅ : gmap string demo_hash)).2 = Err ErrRateLimited.
Proof. vm_compute. reflexivity. Qed.

Lemma prompt_calls_ok : served_in_order prompt_calls /\ Forall prompt prompt_calls /\ weigh prompt_calls <= 2 ^ 53.
Proof.
  split_and!.
  - repeat (constructor; [|repeat (constructor; [vm_compute; discriminate|]); constructor]). constructor.
  - repeat (constructor; [split; [split; vm_compute; discriminate|reflexivity]|]). constructor.
  - vm_compute. discriminate.
Qed.
Lemma local_calls_ok : in_order local_calls /\ weigh local_calls <= max_int64.
Proof.
  split.
  - repeat (constructor; [|repeat (constructor; [vm_compute; discriminate|]); constructor]). constructor.
  - vm_compute. discriminate.
Qed.

Lemma limiters_count_exactly_witness : exact crowded [] (run local_calls (∅ : Windows))
  /\ exact faulty [] (run prompt_calls (∅ : gmap string demo_hash)).
Proof.
  destruct (limiters_count_exactly (S := gmap string demo_hash)) as [Hm Hr]. split.
  - apply Hm; apply local_calls_ok.
  - apply Hr; [|apply prompt_calls_ok..]. intros t w f. reflexivity.
Defined.

Lemma rate_limits_hold_witness :
  Z.of_nat (List.length (served rq_rpm 2 (7%N, minute_of base) (run local_calls (∅ : Windows)))) <= 2
  /\ tokens_of (served rq_tpm 100 (7%N, minute_of base) (run prompt_calls (∅ : gmap string demo_hash))) <= 100.
Proof.
  split.
  - apply (rate_limits_hold (X := memory_exact)); [reflexivity|apply local_calls_ok|discriminate].
  - apply (rate_limits_hold (X := redis_exact)); [intros t w f; reflexivity|apply prompt_calls_ok|discriminate].
Defined.
End LimiterDemo.
