(* ===== verification/RouteRepo.v ===== *)
(** * Package [internal/route]: route versions and their resolution

    [model.go], [repository.go] and [service.go], over the rows of [model_routes],
    [route_versions] and [route_targets] with the rules of migrations 000001, 000002 and
    000008. *)

From stdpp Require Import base gmap strings list sorting.
From Stdlib Require Import ZArith Lia Ascii String.
From S2P Require Import Prelude GoLib BillingModel SchedulerModel Coordinator ProxyErrors ApiKey.

Module RouteRepo.
Import Coordinator(Sha256Hex, sha256_hex).
Import Billing(one_of).
Import ProxyErrors(encode_byte, u_escape).
Import Sched.
Import ApiKey(string_le).
#[local] Existing Instance ApiKey.string_le_dec.

(** ** [model.go] *)
(** [EWrapped] is any error the package only wraps and passes on. *)
Inductive error :=
| ErrInvalidInput | ErrNotFound | ErrConflict | ErrNoRoute | ErrRouteDisabled | ErrTargetUnavailable
| EWrapped (what : string).

Definition MatchExact : string := "exact".
Definition CommercialInherit : string := "inherit".
Definition CommercialAllow : string := "allow".
Definition CommercialDeny : string := "deny".

Record Version := {
  v_ID : uuid; v_RouteID : uuid; v_VersionNo : Z; v_EffectiveFrom : time; v_EffectiveTo : option time;
  v_SnapshotHash : string; v_CreatedBy : option uuid; v_CreatedAt : time; v_Targets : list Target
}.
Record Route := {
  r_ID : uuid; r_ModelID : uuid; r_ModelPublicID : string; r_MatchType : string; r_MatchValue : string;
  r_Enabled : bool; r_Metadata : gmap string string; r_ActiveVersionID : option uuid;
  r_ActiveVersion : option Version; r_CreatedAt : time; r_UpdatedAt : time
}.
(** Metadata is a list in the order in which Go ranges over the map, or a map once normalised. *)
Abbreviation RawMetadata := (list (string * string)).
Abbreviation Metadata := (gmap string string).
Record TargetInput (M : Type) := {
  ti_ProviderModelID : uuid; ti_CredentialPoolID : uuid; ti_Priority : Z; ti_Weight : Z;
  ti_CommercialPolicy : string; ti_Enabled : bool; ti_Metadata : M
}.
Arguments ti_ProviderModelID {M}.
Arguments ti_CredentialPoolID {M}.
Arguments ti_Priority {M}.
Arguments ti_Weight {M}.
Arguments ti_CommercialPolicy {M}.
Arguments ti_Enabled {M}.
Arguments ti_Metadata {M}.
Record CreateInput (M : Type) := {
  ci_ModelID : uuid; ci_MatchType : string; ci_MatchValue : string; ci_Metadata : M; ci_Enabled : bool;
  ci_Targets : list (TargetInput M)
}.
Arguments ci_ModelID {M}.
Arguments ci_MatchType {M}.
Arguments ci_MatchValue {M}.
Arguments ci_Metadata {M}.
Arguments ci_Enabled {M}.
Arguments ci_Targets {M}.
(** [UpdateInput]: [None] leaves the field. *)
Record UpdateInput (M : Type) := { ui_Metadata : option M; ui_Enabled : option bool }.
Arguments ui_Metadata {M}.
Arguments ui_Enabled {M}.
Record Page := { pg_Routes : list Route; pg_NextCursor : string }.
Record Resolution := {
  rs_RequestedModel : string; rs_ModelID : uuid; rs_ModelPublicID : string; rs_Route : Route;
  rs_Version : Version; rs_Candidates : list Target
}.

(** [^[a-z0-9][a-z0-9._:/-]{0,127}$] and [^[a-z][a-z0-9._-]{0,63}$]. *)
Definition identifier_start (c : ascii) : bool := is_lower c || is_digit c.
Definition identifier_char (c : ascii) : bool :=
  identifier_start c || Ascii.eqb c "." || Ascii.eqb c "_" || Ascii.eqb c ":" || Ascii.eqb c "/" || Ascii.eqb c "-".
Definition matches (start char : ascii -> bool) (max : Z) (s : string) : bool :=
  match s with
  | EmptyString => false
  | String c t => start c && forall_bytes char t && (slen t <=? max)
  end.
Definition identifierPattern : string -> bool := matches identifier_start identifier_char 127.
Definition metadata_char (c : ascii) : bool :=
  identifier_start c || Ascii.eqb c "." || Ascii.eqb c "_" || Ascii.eqb c "-".
Definition metadataKeyPattern : string -> bool := matches is_lower metadata_char 63.

Definition normalizeIdentifier (value : string) : result error string :=
  let value := ToLower (TrimSpace value) in
  if identifierPattern value then Ok value else Err ErrInvalidInput.

Definition plain_item (item : string) : bool :=
  forall_bytes (fun c => negb (Ascii.eqb c "010" || Ascii.eqb c "013" || Ascii.eqb c "000")) item.
Fixpoint metadata_entries (entries : RawMetadata) (result_ : Metadata) : result error Metadata :=
  match entries with
  | [] => Ok result_
  | (key, item) :: entries =>
      let key := ToLower (TrimSpace key) in
      let item := TrimSpace item in
      if String.eqb key "" || (64 <? slen key) || negb (metadataKeyPattern key) || (256 <? slen item)
         || negb (plain_item item)
      then Err ErrInvalidInput else metadata_entries entries (<[key := item]> result_)
  end.
Definition normalizeMetadata (value : RawMetadata) : result error Metadata :=
  if 32 <? Z.of_nat (List.length value) then Err ErrInvalidInput else metadata_entries value ∅.

Definition with_weight {M} (weight : Z) (t : TargetInput M) : TargetInput M :=
  {| ti_ProviderModelID := ti_ProviderModelID t; ti_CredentialPoolID := ti_CredentialPoolID t;
     ti_Priority := ti_Priority t; ti_Weight := weight; ti_CommercialPolicy := ti_CommercialPolicy t;
     ti_Enabled := ti_Enabled t; ti_Metadata := ti_Metadata t |}.
Definition normalize_target (seen : list (uuid * uuid)) (target : TargetInput RawMetadata)
  : result error (TargetInput Metadata) :=
  let target := if ti_Weight target =? 0 then with_weight 1 target else target in
  if uuid_eqb (ti_ProviderModelID target) uuid_nil || uuid_eqb (ti_CredentialPoolID target) uuid_nil
     || (ti_Priority target <? 0) || (1000000 <? ti_Priority target)
     || (ti_Weight target <? 1) || (1000 <? ti_Weight target)
  then Err ErrInvalidInput else
  let policy := if String.eqb (ti_CommercialPolicy target) "" then CommercialInherit else ti_CommercialPolicy target in
  if negb (one_of policy [CommercialInherit; CommercialAllow; CommercialDeny]) then Err ErrInvalidInput else
  metadata ← normalizeMetadata (ti_Metadata target);
  if bool_decide ((ti_ProviderModelID target, ti_CredentialPoolID target) ∈ seen) then Err ErrConflict else
  Ok {| ti_ProviderModelID := ti_ProviderModelID target; ti_CredentialPoolID := ti_CredentialPoolID target;
        ti_Priority := ti_Priority target; ti_Weight := ti_Weight target; ti_CommercialPolicy := policy;
        ti_Enabled := ti_Enabled target; ti_Metadata := metadata |}.
Fixpoint normalize_targets (seen : list (uuid * uuid)) (targets : list (TargetInput RawMetadata))
  : result error (list (TargetInput Metadata)) :=
  match targets with
  | [] => Ok []
  | target :: targets =>
      t ← normalize_target seen target;
      l ← normalize_targets ((ti_ProviderModelID t, ti_CredentialPoolID t) :: seen) targets;
      Ok (t :: l)
  end.
Definition normalizeTargets (targets : list (TargetInput RawMetadata)) : result error (list (TargetInput Metadata)) :=
  let n := Z.of_nat (List.length targets) in
  if (n =? 0) || (100 <? n) then Err ErrInvalidInput else
  l ← normalize_targets [] targets;
  if existsb ti_Enabled l then Ok l else Err ErrInvalidInput.

Definition normalizeCreate (input : CreateInput RawMetadata) : result error (CreateInput Metadata) :=
  if uuid_eqb (ci_ModelID input) uuid_nil then Err ErrInvalidInput else
  let matchType := TrimSpace (ci_MatchType input) in
  let matchType := if String.eqb matchType "" then MatchExact else matchType in
  if negb (String.eqb matchType MatchExact) then Err ErrInvalidInput else
  matchValue ← normalizeIdentifier (ci_MatchValue input);
  metadata ← normalizeMetadata (ci_Metadata input);
  targets ← normalizeTargets (ci_Targets input);
  Ok {| ci_ModelID := ci_ModelID input; ci_MatchType := matchType; ci_MatchValue := matchValue;
        ci_Metadata := metadata; ci_Enabled := ci_Enabled input; ci_Targets := targets |}.
Definition normalizeUpdate (input : UpdateInput RawMetadata) : result error (UpdateInput Metadata) :=
  match ui_Metadata input, ui_Enabled input with
  | None, None => Err ErrInvalidInput
  | None, enabled => Ok {| ui_Metadata := None; ui_Enabled := enabled |}
  | Some metadata, enabled => m ← normalizeMetadata metadata; Ok {| ui_Metadata := Some m; ui_Enabled := enabled |}
  end.

(** ** Rows *)
Record RouteRow := {
  rr_ModelID : uuid; rr_MatchType : string; rr_MatchValue : string; rr_Enabled : bool; rr_Metadata : Metadata;
  rr_ActiveVersionID : option uuid; rr_CreatedAt : time; rr_UpdatedAt : time; rr_DeletedAt : option time
}.
Record VersionRow := {
  vr_RouteID : uuid; vr_VersionNo : Z; vr_EffectiveFrom : time; vr_EffectiveTo : option time;
  vr_SnapshotHash : string; vr_CreatedBy : option uuid; vr_CreatedAt : time
}.
Record TargetRow := {
  tr_ID : uuid; tr_RouteVersionID : uuid; tr_TargetNo : Z; tr_ProviderModelID : uuid; tr_CredentialPoolID : uuid;
  tr_Priority : Z; tr_Weight : Z; tr_CommercialPolicy : string; tr_Enabled : bool; tr_Metadata : Metadata
}.
Record CatalogModel := { cm_PublicID : string; cm_DeletedAt : option time }.
Record Alias := { al_ModelID : uuid; al_Alias : string; al_Enabled : bool }.
Record ProviderModelRow := {
  pm_ProviderID : uuid; pm_ModelID : option uuid; pm_UpstreamModelID : string; pm_Protocol : string;
  pm_Capabilities : Capabilities; pm_Enabled : bool; pm_ReviewStatus : string
}.
Record CatalogProvider := { pv_Slug : string; pv_ResourceType : string; pv_CommercialAllowed : bool }.
Record PoolRow := { cp_ProviderID : uuid; cp_Enabled : bool }.
Record RouteAudit := { ra_ActorUserID : uuid; ra_Action : string; ra_TargetType : string; ra_TargetID : uuid; ra_RequestID : string }.

(** The tables of the package, [route_targets] in the order of insertion, beside the
    catalogue it reads. *)
Record RouteDB := mkRouteDB {
  model_routes : gmap uuid RouteRow;
  route_versions : gmap uuid VersionRow;
  route_targets : list TargetRow;
  models : gmap uuid CatalogModel;
  aliases : list Alias;
  provider_models : gmap uuid ProviderModelRow;
  providers : gmap uuid CatalogProvider;
  pools : gmap uuid PoolRow;
  route_audits : list RouteAudit
}.
Definition set_routes (f : gmap uuid RouteRow -> gmap uuid RouteRow) (p : RouteDB) : RouteDB :=
  mkRouteDB (f (model_routes p)) (route_versions p) (route_targets p) (models p) (aliases p)
    (provider_models p) (providers p) (pools p) (route_audits p).
Definition set_route_versions (f : gmap uuid VersionRow -> gmap uuid VersionRow) (p : RouteDB) : RouteDB :=
  mkRouteDB (model_routes p) (f (route_versions p)) (route_targets p) (models p) (aliases p)
    (provider_models p) (providers p) (pools p) (route_audits p).
Definition add_target (t : TargetRow) (p : RouteDB) : RouteDB :=
  mkRouteDB (model_routes p) (route_versions p) (route_targets p ++ [t])%list (models p) (aliases p)
    (provider_models p) (providers p) (pools p) (route_audits p).
Definition add_route_audit (a : RouteAudit) (p : RouteDB) : RouteDB :=
  mkRouteDB (model_routes p) (route_versions p) (route_targets p) (models p) (aliases p)
    (provider_models p) (providers p) (pools p) (route_audits p ++ [a])%list.

(** Foreign keys, encodings and the audit table: [Some code] is the SQLSTATE the server raises. *)
Class RouteGuards := {
  guard_route : uuid -> RouteRow -> option string;
  guard_route_version : VersionRow -> option string;
  guard_target : TargetRow -> option string;
  guard_route_audit : RouteAudit -> option string
}.

Definition rtx (A : Type) : Type := tx (list uuid * RouteDB) error A.

(** [mapRepositoryError], of a SQLSTATE. *)
Definition mapRepositoryError (code : string) : error :=
  if String.eqb code "23505" then ErrConflict
  else if one_of code ["23503"; "23514"; "22P02"] then ErrInvalidInput
  else if String.eqb code "55000" then ErrConflict else EWrapped code.

(** ** Constraints *)
(** [value = btrim(value)]: no space at the ends. *)
Definition btrimmed (s : string) : bool := negb (HasPrefix s " ") && negb (HasSuffix s " ").
(** The CHECK constraints of the tables; match values are ASCII. *)
Definition route_check (r : RouteRow) : bool :=
  one_of (rr_MatchType r) ["exact"; "prefix"; "regex"]
  && btrimmed (rr_MatchValue r)
  && (1 <=? slen (rr_MatchValue r)) && (slen (rr_MatchValue r) <=? 128).
Definition route_version_check (v : VersionRow) : bool :=
  (0 <? vr_VersionNo v) && match vr_EffectiveTo v with Some t => vr_EffectiveFrom v <? t | None => true end.
Definition target_check (t : TargetRow) : bool :=
  (0 <=? tr_TargetNo t) && (0 <=? tr_Priority t) && (0 <? tr_Weight t)
  && one_of (tr_CommercialPolicy t) ["inherit"; "allow"; "deny"].
(** UNIQUE (match_type, match_value). *)
Definition match_taken (id : uuid) (r : RouteRow) (p : RouteDB) : bool :=
  existsb (fun kv => String.eqb (rr_MatchType kv.2) (rr_MatchType r) && String.eqb (rr_MatchValue kv.2) (rr_MatchValue r)
                     && negb (uuid_eqb kv.1 id)) (map_to_list (model_routes p)).
Definition is_open (v : VersionRow) : bool := match vr_EffectiveTo v with None => true | Some _ => false end.
(** UNIQUE (route_id, version_no), and one open version of a route. *)
Definition version_taken (id : uuid) (v : VersionRow) (p : RouteDB) : bool :=
  existsb (fun kv => uuid_eqb (vr_RouteID kv.2) (vr_RouteID v)
                     && ((vr_VersionNo kv.2 =? vr_VersionNo v) || (is_open kv.2 && is_open v))
                     && negb (uuid_eqb kv.1 id)) (map_to_list (route_versions p)).
(** UNIQUE (route_version_id, target_no) and (route_version_id, provider_model_id, credential_pool_id). *)
Definition target_taken (t : TargetRow) (p : RouteDB) : bool :=
  existsb (fun o => uuid_eqb (tr_ID o) (tr_ID t)
    || uuid_eqb (tr_RouteVersionID o) (tr_RouteVersionID t)
       && ((tr_TargetNo o =? tr_TargetNo t)
           || uuid_eqb (tr_ProviderModelID o) (tr_ProviderModelID t)
              && uuid_eqb (tr_CredentialPoolID o) (tr_CredentialPoolID t))) (route_targets p).
(** [bablo_validate_active_route_version]. *)
Definition active_version_ok (id : uuid) (active : option uuid) (p : RouteDB) : bool :=
  match active with
  | None => true
  | Some version => match route_versions p !! version with
                    | Some v => uuid_eqb (vr_RouteID v) id && is_open v
                    | None => false
                    end
  end.
(** [bablo_validate_route_target_provider]. *)
Definition target_provider_ok (t : TargetRow) (p : RouteDB) : bool :=
  match provider_models p !! tr_ProviderModelID t, pools p !! tr_CredentialPoolID t with
  | Some pm, Some cp => uuid_eqb (pm_ProviderID pm) (cp_ProviderID cp)
  | _, _ => false
  end.
(** [bablo_guard_route_version_history]. *)
Definition version_history_ok (old new : VersionRow) : bool :=
  uuid_eqb (vr_RouteID new) (vr_RouteID old) && (vr_VersionNo new =? vr_VersionNo old)
  && (vr_EffectiveFrom new =? vr_EffectiveFrom old) && String.eqb (vr_SnapshotHash new) (vr_SnapshotHash old)
  && opt_uuid_eqb (vr_CreatedBy new) (vr_CreatedBy old) && (vr_CreatedAt new =? vr_CreatedAt old)
  && is_open old && negb (is_open new)
  && match vr_EffectiveTo new with Some t => vr_EffectiveFrom old <=? t | None => true end.

(** ** Reading *)
Definition target_before (a b : TargetRow) : Prop := (tr_TargetNo a <=? tr_TargetNo b) = true.
#[export] Instance target_before_dec : RelDecision target_before.
Proof. intros a b. unfold target_before. apply _. Defined.
(** The targets of a version, in the order of [target_no]. *)
Definition version_targets (version : uuid) (p : RouteDB) : list TargetRow :=
  merge_sort target_before (List.filter (fun t => uuid_eqb (tr_RouteVersionID t) version) (route_targets p)).
Definition effectiveCommercialAllowed (policy : string) (allowed : bool) : bool :=
  if String.eqb policy "allow" then true else if String.eqb policy "deny" then false else allowed.
(** [scanTarget] of the joined row. *)
Definition scanTarget (t : TargetRow) (pm : ProviderModelRow) (pv : CatalogProvider) (cp : PoolRow) : Target :=
  {| t_ID := tr_ID t; t_RouteVersionID := tr_RouteVersionID t; t_TargetNo := tr_TargetNo t;
     t_ProviderModelID := tr_ProviderModelID t; t_CredentialPoolID := tr_CredentialPoolID t;
     t_ProviderID := pm_ProviderID pm; t_ProviderSlug := pv_Slug pv; t_ProviderResourceType := pv_ResourceType pv;
     t_ProviderCommercialAllowed := pv_CommercialAllowed pv; t_UpstreamModelID := pm_UpstreamModelID pm;
     t_Protocol := pm_Protocol pm; t_Capabilities := pm_Capabilities pm; t_ProviderModelEnabled := pm_Enabled pm;
     t_ReviewStatus := pm_ReviewStatus pm; t_PoolEnabled := cp_Enabled cp; t_Priority := tr_Priority t;
     t_Weight := tr_Weight t; t_CommercialPolicy := tr_CommercialPolicy t;
     t_EffectiveCommercialAllowed := effectiveCommercialAllowed (tr_CommercialPolicy t) (pv_CommercialAllowed pv);
     t_Enabled := tr_Enabled t; t_Metadata := tr_Metadata t |}.
Definition join_target (p : RouteDB) (t : TargetRow) : option Target :=
  pm ← provider_models p !! tr_ProviderModelID t;
  pv ← providers p !! pm_ProviderID pm;
  cp ← pools p !! tr_CredentialPoolID t;
  Some (scanTarget t pm pv cp).
Definition loadTargets (version : uuid) (p : RouteDB) : list Target := omap (join_target p) (version_targets version p).

Definition scanVersion (id : uuid) (v : VersionRow) (targets : list Target) : Version :=
  {| v_ID := id; v_RouteID := vr_RouteID v; v_VersionNo := vr_VersionNo v; v_EffectiveFrom := vr_EffectiveFrom v;
     v_EffectiveTo := vr_EffectiveTo v; v_SnapshotHash := vr_SnapshotHash v; v_CreatedBy := vr_CreatedBy v;
     v_CreatedAt := vr_CreatedAt v; v_Targets := targets |}.
Definition scanRoute (id : uuid) (r : RouteRow) (publicID : string) (version : option Version) : Route :=
  {| r_ID := id; r_ModelID := rr_ModelID r; r_ModelPublicID := publicID; r_MatchType := rr_MatchType r;
     r_MatchValue := rr_MatchValue r; r_Enabled := rr_Enabled r; r_Metadata := rr_Metadata r;
     r_ActiveVersionID := rr_ActiveVersionID r; r_ActiveVersion := version; r_CreatedAt := rr_CreatedAt r;
     r_UpdatedAt := rr_UpdatedAt r |}.
Definition undeleted (r : RouteRow) : bool := match rr_DeletedAt r with None => true | Some _ => false end.

(** A call outside a transaction sees the tables anew at each statement: [reads n] are the
    tables at its [n]-th statement from here on. *)
Abbreviation Reads := (nat -> RouteDB).
Definition later_reads (n : nat) (reads : Reads) : Reads := fun m => reads (n + m)%nat.

Definition getVersion (version : uuid) (includeTargets : bool) (reads : Reads) : result error Version :=
  match route_versions (reads 0%nat) !! version with
  | None => Err ErrNotFound
  | Some v => Ok (scanVersion version v (if includeTargets then loadTargets version (reads 1%nat) else []))
  end.
Definition getRoute (routeID : uuid) (includeVersion : bool) (reads : Reads) : result error Route :=
  match model_routes (reads 0%nat) !! routeID with
  | None => Err ErrNotFound
  | Some r =>
      match models (reads 0%nat) !! rr_ModelID r with
      | None => Err ErrNotFound
      | Some m =>
          if negb (undeleted r) then Err ErrNotFound else
          match (if includeVersion then rr_ActiveVersionID r else None) with
          | None => Ok (scanRoute routeID r (cm_PublicID m) None)
          | Some version =>
              v ← getVersion version true (later_reads 1 reads);
              Ok (scanRoute routeID r (cm_PublicID m) (Some v))
          end
      end
  end.
(** Inside a transaction that holds the row. *)
Definition same_tables (p : RouteDB) : Reads := fun _ => p.

(** A model that answers to an identifier. *)
Definition answers_to (model : uuid) (m : CatalogModel) (identifier : string) (p : RouteDB) : bool :=
  match cm_DeletedAt m with
  | Some _ => false
  | None => String.eqb (cm_PublicID m) identifier
            || existsb (fun a => uuid_eqb (al_ModelID a) model && String.eqb (al_Alias a) identifier && al_Enabled a) (aliases p)
  end.
Definition matches_route (identifier : string) (p : RouteDB) (r : RouteRow) : bool :=
  String.eqb (rr_MatchType r) "exact" && String.eqb (rr_MatchValue r) identifier && undeleted r
  && match models p !! rr_ModelID r with Some m => answers_to (rr_ModelID r) m identifier p | None => false end.
Definition find_route (identifier : string) (p : RouteDB) : option (uuid * RouteRow) :=
  List.find (fun kv => matches_route identifier p kv.2) (map_to_list (model_routes p)).

Definition resolve (identifier : string) (reads : Reads) : result error Resolution :=
  match find_route identifier (reads 0%nat) with
  | None => Err ErrNoRoute
  | Some (routeID, r) =>
      if negb (rr_Enabled r) then Err ErrRouteDisabled else
      value ← getRoute routeID true (later_reads 1 reads);
      match r_ActiveVersion value with
      | None => Err ErrNoRoute
      | Some version =>
          Ok {| rs_RequestedModel := identifier; rs_ModelID := rr_ModelID r;
                rs_ModelPublicID := match models (reads 0%nat) !! rr_ModelID r with Some m => cm_PublicID m | None => "" end;
                rs_Route := value; rs_Version := version; rs_Candidates := v_Targets version |}
      end
  end.

(** ** Writing *)
Definition Microsecond : Z := 1000.

(** [validateRouteMatch]. *)
Definition validateRouteMatch (modelID : uuid) (matchValue : string) (p : RouteDB) : bool :=
  match models p !! modelID with Some m => answers_to modelID m matchValue p | None => false end.
(** The row [validateTargets] reads for a target, and its checks. *)
Definition validate_target (modelID : uuid) (p : RouteDB) (target : TargetInput Metadata) : bool :=
  match provider_models p !! ti_ProviderModelID target with
  | None => false
  | Some pm =>
      match providers p !! pm_ProviderID pm, pools p !! ti_CredentialPoolID target with
      | Some pv, Some cp =>
          uuid_eqb (cp_ProviderID cp) (pm_ProviderID pm)
          && opt_uuid_eqb (pm_ModelID pm) (Some modelID)
          && negb (String.eqb (ti_CommercialPolicy target) CommercialAllow
                   && (negb (pv_CommercialAllowed pv) || String.eqb (pv_ResourceType pv) ResourceSubscription))
      | _, _ => false
      end
  end.
Definition validateTargets (modelID : uuid) (targets : list (TargetInput Metadata)) (p : RouteDB) : bool :=
  forallb (validate_target modelID p) targets.

(** [routeSnapshotHash]: the digest of the JSON text of the snapshot; map keys are sorted. *)
Fixpoint json_chars (s : string) : string :=
  match s with
  | EmptyString => ""
  | String a t =>
      match t with
      | String b (String c u) =>
          if (code a =? 226) && (code b =? 128) && ((code c =? 168) || (code c =? 169))
          then u_escape (8064 + code c) (json_chars u)
          else encode_byte a (json_chars t)
      | _ => encode_byte a (json_chars t)
      end
  end.
Definition json_text (s : string) : string := String "034" (json_chars s +:+ String "034" "").
Definition json_bool (b : bool) : string := if b then "true" else "false".
Definition json_field (name value : string) : string := json_text name +:+ ":" +:+ value.
Definition json_object (fields : list string) : string := "{" +:+ Join "," fields +:+ "}".
Definition json_array (values : list string) : string := "[" +:+ Join "," values +:+ "]".
Definition key_le (a b : string * string) : Prop := string_le a.1 b.1.
#[export] Instance key_le_dec : RelDecision key_le.
Proof. intros a b. unfold key_le. apply _. Defined.
Definition json_metadata (m : Metadata) : string :=
  json_object ((fun kv => json_field kv.1 (json_text kv.2)) <$> merge_sort key_le (map_to_list m)).

Section repository.
Context `{RouteGuards, Sha256Hex, UuidText}.

Definition snapshot_target (index : nat) (t : TargetInput Metadata) : string :=
  json_object [json_field "TargetNo" (Itoa (Z.of_nat index));
    json_field "ProviderModelID" (json_text (uuid_string (ti_ProviderModelID t)));
    json_field "CredentialPoolID" (json_text (uuid_string (ti_CredentialPoolID t)));
    json_field "Priority" (Itoa (ti_Priority t)); json_field "Weight" (Itoa (ti_Weight t));
    json_field "CommercialPolicy" (json_text (ti_CommercialPolicy t)); json_field "Enabled" (json_bool (ti_Enabled t));
    json_field "Metadata" (json_metadata (ti_Metadata t))].
Definition routeSnapshotHash (routeID modelID : uuid) (matchType matchValue : string)
    (targets : list (TargetInput Metadata)) : string :=
  sha256_hex (json_object [json_field "RouteID" (json_text (uuid_string routeID));
    json_field "ModelID" (json_text (uuid_string modelID)); json_field "MatchType" (json_text matchType);
    json_field "MatchValue" (json_text matchValue); json_field "Targets" (json_array (imap snapshot_target targets))]).

Definition raise (e : option string) : rtx unit :=
  match e with Some code => tx_fail (mapRepositoryError code) | None => mret tt end.
Definition insert_route_audit (actor : uuid) (action kind : string) (target : uuid) (requestID : string) : rtx unit :=
  _ ← db_id (EWrapped "generate UUIDv7");
  let a := {| ra_ActorUserID := actor; ra_Action := action; ra_TargetType := kind; ra_TargetID := target;
              ra_RequestID := requestID |} in
  match guard_route_audit a with Some code => tx_fail (EWrapped code) | None => db_write (add_route_audit a) end.

Definition insert_route (id : uuid) (r : RouteRow) : rtx unit :=
  known ← db_read (fun p => bool_decide (is_Some (model_routes p !! id)) || match_taken id r p);
  db_check (route_check r) (mapRepositoryError "23514");;
  db_check (negb known) (mapRepositoryError "23505");;
  raise (guard_route id r);;
  db_write (set_routes (<[id := r]>)).
Definition insert_route_version (id : uuid) (v : VersionRow) : rtx unit :=
  known ← db_read (fun p => bool_decide (is_Some (route_versions p !! id)) || version_taken id v p);
  db_check (route_version_check v) (mapRepositoryError "23514");;
  db_check (negb known) (mapRepositoryError "23505");;
  raise (guard_route_version v);;
  db_write (set_route_versions (<[id := v]>)).
Definition insert_target (t : TargetRow) : rtx unit :=
  related ← db_read (target_provider_ok t);
  db_check (related && target_check t) (mapRepositoryError "23514");;
  known ← db_read (target_taken t);
  db_check (negb known) (mapRepositoryError "23505");;
  raise (guard_target t);;
  db_write (add_target t).

Definition target_row (id version : uuid) (index : Z) (t : TargetInput Metadata) : TargetRow :=
  {| tr_ID := id; tr_RouteVersionID := version; tr_TargetNo := index; tr_ProviderModelID := ti_ProviderModelID t;
     tr_CredentialPoolID := ti_CredentialPoolID t; tr_Priority := ti_Priority t; tr_Weight := ti_Weight t;
     tr_CommercialPolicy := ti_CommercialPolicy t; tr_Enabled := ti_Enabled t; tr_Metadata := ti_Metadata t |}.
Fixpoint insertTargets (version : uuid) (index : Z) (targets : list (TargetInput Metadata)) : rtx unit :=
  match targets with
  | [] => mret tt
  | t :: targets =>
      id ← db_id (EWrapped "generate route target UUIDv7");
      insert_target (target_row id version index t);;
      insertTargets version (index + 1) targets
  end.

Definition with_active (active : option uuid) (updated : time) (r : RouteRow) : RouteRow :=
  {| rr_ModelID := rr_ModelID r; rr_MatchType := rr_MatchType r; rr_MatchValue := rr_MatchValue r;
     rr_Enabled := rr_Enabled r; rr_Metadata := rr_Metadata r; rr_ActiveVersionID := active;
     rr_CreatedAt := rr_CreatedAt r; rr_UpdatedAt := updated; rr_DeletedAt := rr_DeletedAt r |}.
(** [UPDATE model_routes SET active_version_id]; [touch] is the new update time, if it is set. *)
Definition activate_version (routeID version : uuid) (touch : option time) : rtx unit :=
  o ← db_read (fun p => model_routes p !! routeID);
  match o with
  | None => mret tt
  | Some r =>
      okay ← db_read (active_version_ok routeID (Some version));
      db_check okay (mapRepositoryError "23514");;
      let r' := with_active (Some version) (default (rr_UpdatedAt r) touch) r in
      db_check (route_check r') (mapRepositoryError "23514");;
      raise (guard_route routeID r');;
      db_write (set_routes (<[routeID := r']>))
  end.
Definition read_route (routeID : uuid) (includeVersion : bool) : rtx Route :=
  r ← db_read (fun p => getRoute routeID includeVersion (same_tables p));
  tx_lift r.

Definition route_row (input : CreateInput Metadata) (now : time) : RouteRow :=
  {| rr_ModelID := ci_ModelID input; rr_MatchType := ci_MatchType input; rr_MatchValue := ci_MatchValue input;
     rr_Enabled := ci_Enabled input; rr_Metadata := ci_Metadata input; rr_ActiveVersionID := None;
     rr_CreatedAt := now; rr_UpdatedAt := now; rr_DeletedAt := None |}.
Definition version_row (routeID : uuid) (no : Z) (from : time) (hash : string) (actor : uuid) (now : time) : VersionRow :=
  {| vr_RouteID := routeID; vr_VersionNo := no; vr_EffectiveFrom := from; vr_EffectiveTo := None;
     vr_SnapshotHash := hash; vr_CreatedBy := Some actor; vr_CreatedAt := now |}.

(** [now] is [NOW()] and [observed] is [clock_timestamp()]; both have microseconds. *)
Definition create_route (routeID versionID actor : uuid) (input : CreateInput Metadata) (requestID : string)
    (now observed : time) : rtx Route :=
  matched ← db_read (validateRouteMatch (ci_ModelID input) (ci_MatchValue input));
  db_check matched ErrInvalidInput;;
  valid ← db_read (validateTargets (ci_ModelID input) (ci_Targets input));
  db_check valid ErrInvalidInput;;
  let hash := routeSnapshotHash routeID (ci_ModelID input) (ci_MatchType input) (ci_MatchValue input) (ci_Targets input) in
  insert_route routeID (route_row input now);;
  insert_route_version versionID (version_row routeID 1 observed hash actor now);;
  insertTargets versionID 0 (ci_Targets input);;
  activate_version routeID versionID None;;
  insert_route_audit actor "route.created" "route" routeID requestID;;
  insert_route_audit actor "route.version_published" "route_version" versionID requestID;;
  read_route routeID true.

(** The row of [UPDATE model_routes SET metadata, enabled]. *)
Definition updated_row (metadata : Metadata) (enabled : bool) (now : time) (r : RouteRow) : RouteRow :=
  {| rr_ModelID := rr_ModelID r; rr_MatchType := rr_MatchType r; rr_MatchValue := rr_MatchValue r;
     rr_Enabled := enabled; rr_Metadata := metadata; rr_ActiveVersionID := rr_ActiveVersionID r;
     rr_CreatedAt := rr_CreatedAt r; rr_UpdatedAt := now; rr_DeletedAt := rr_DeletedAt r |}.
Definition update_rest (actor routeID : uuid) (metadata : Metadata) (enabled : bool) (requestID : string) (now : time)
  : rtx Route :=
  o ← db_read (fun p => model_routes p !! routeID);
  match o with
  | Some r =>
      if undeleted r then
        let r' := updated_row metadata enabled now r in
        db_check (route_check r') (mapRepositoryError "23514");;
        raise (guard_route routeID r');;
        db_write (set_routes (<[routeID := r']>))
      else mret tt
  | None => mret tt
  end;;
  insert_route_audit actor "route.updated" "route" routeID requestID;;
  read_route routeID true.
(** The route is read without a lock: [others] commit before the update. *)
Definition update (ids : list uuid) (actor routeID : uuid) (input : UpdateInput Metadata) (requestID : string) (now : time)
    (others : RouteDB -> RouteDB) (p : RouteDB) : RouteDB * result error Route :=
  match getRoute routeID false (same_tables p) with
  | Err e => (p, Err e)
  | Ok current =>
      db_run ids (update_rest actor routeID (default (r_Metadata current) (ui_Metadata input))
                    (default (r_Enabled current) (ui_Enabled input)) requestID now) (others p)
  end.

(** The open version of a route. *)
Definition open_version (routeID : uuid) (p : RouteDB) : option (uuid * VersionRow) :=
  List.find (fun kv => uuid_eqb (vr_RouteID kv.2) routeID && is_open kv.2) (map_to_list (route_versions p)).
Definition closed (to : time) (v : VersionRow) : VersionRow :=
  {| vr_RouteID := vr_RouteID v; vr_VersionNo := vr_VersionNo v; vr_EffectiveFrom := vr_EffectiveFrom v;
     vr_EffectiveTo := Some to; vr_SnapshotHash := vr_SnapshotHash v; vr_CreatedBy := vr_CreatedBy v;
     vr_CreatedAt := vr_CreatedAt v |}.
(** The start of the next version: the end the open one is given. *)
Definition close_open (routeID : uuid) (observed : time) : rtx time :=
  o ← db_read (open_version routeID);
  match o with
  | None => mret observed
  | Some (old, v) =>
      let to := Z.max observed (vr_EffectiveFrom v + Microsecond) in
      let v' := closed to v in
      db_check (version_history_ok v v') (mapRepositoryError "55000");;
      db_check (route_version_check v') (mapRepositoryError "23514");;
      raise (guard_route_version v');;
      db_write (set_route_versions (<[old := v']>));;
      mret to
  end.
Definition next_no (routeID : uuid) (p : RouteDB) : Z :=
  foldr (fun kv n => if uuid_eqb (vr_RouteID kv.2) routeID then Z.max (vr_VersionNo kv.2) n else n) 0
    (map_to_list (route_versions p)) + 1.
Definition publish_tx (versionID actor routeID : uuid) (targets : list (TargetInput Metadata)) (requestID : string)
    (now observed : time) : rtx Route :=
  current ← read_route routeID false;
  valid ← db_read (validateTargets (r_ModelID current) targets);
  db_check valid ErrInvalidInput;;
  from ← close_open routeID observed;
  no ← db_read (next_no routeID);
  db_check (no <=? max_int64) (EWrapped "22003");;
  let hash := routeSnapshotHash routeID (r_ModelID current) (r_MatchType current) (r_MatchValue current) targets in
  insert_route_version versionID (version_row routeID no from hash actor now);;
  insertTargets versionID 0 targets;;
  activate_version routeID versionID (Some now);;
  insert_route_audit actor "route.version_published" "route_version" versionID requestID;;
  read_route routeID true.

(** ** Listings *)
(** The order of texts in the database. *)
Context (text_before : string -> string -> bool).
Definition listed_before (a b : uuid * RouteRow) : Prop :=
  (if String.eqb (rr_MatchValue a.2) (rr_MatchValue b.2) then (a.1 <=? b.1)%N
   else text_before (rr_MatchValue a.2) (rr_MatchValue b.2)) = true.
#[local] Instance listed_before_dec : RelDecision listed_before.
Proof. intros a b. unfold listed_before. apply _. Defined.
Fixpoint load_versions (rows : list (uuid * RouteRow)) (catalogue : gmap uuid CatalogModel) (reads : Reads)
  : result error (list Route) :=
  match rows with
  | [] => Ok []
  | (id, r) :: rows =>
      let name := match catalogue !! rr_ModelID r with Some m => cm_PublicID m | None => "" end in
      match rr_ActiveVersionID r with
      | None => l ← load_versions rows catalogue reads; Ok (scanRoute id r name None :: l)
      | Some version =>
          v ← getVersion version true reads;
          l ← load_versions rows catalogue (later_reads 2 reads);
          Ok (scanRoute id r name (Some v) :: l)
      end
  end.
Definition route_listing (modelID : option uuid) (cursor : string) (limit : nat) (p : RouteDB) : list (uuid * RouteRow) :=
  take (limit + 1) (merge_sort listed_before (List.filter (fun kv =>
    undeleted kv.2 && text_before cursor (rr_MatchValue kv.2)
    && match modelID with Some m => uuid_eqb (rr_ModelID kv.2) m | None => true end) (map_to_list (model_routes p)))).
Definition list_routes (modelID : option uuid) (cursor : string) (limit : nat) (reads : Reads) : result error Page :=
  values ← load_versions (route_listing modelID cursor limit (reads 0%nat)) (models (reads 0%nat)) (later_reads 1 reads);
  Ok {| pg_Routes := take limit values;
        pg_NextCursor := if (limit <? List.length values)%nat
                         then match values !! (limit - 1)%nat with Some r => r_MatchValue r | None => "" end else "" |}.

Definition newer_version (a b : uuid * VersionRow) : Prop := (vr_VersionNo b.2 <=? vr_VersionNo a.2) = true.
#[local] Instance newer_version_dec : RelDecision newer_version.
Proof. intros a b. unfold newer_version. apply _. Defined.
Definition listVersions (routeID : uuid) (limit : nat) (reads : Reads) : result error (list Version) :=
  _ ← getRoute routeID false reads;
  let rows := take limit (merge_sort newer_version
    (List.filter (fun kv => uuid_eqb (vr_RouteID kv.2) routeID) (map_to_list (route_versions (reads 1%nat))))) in
  Ok (imap (fun n kv => scanVersion kv.1 kv.2 (loadTargets kv.1 (reads (2 + n)%nat))) rows).

(** ** The service *)
Definition maximumPageSize : Z := 100.
Definition Service_Create (ids : list uuid) (actorID : uuid) (input : CreateInput RawMetadata) (requestID : string)
    (now observed : time) (p : RouteDB) : RouteDB * result error Route :=
  if uuid_eqb actorID uuid_nil then (p, Err ErrInvalidInput) else
  match normalizeCreate input with
  | Err e => (p, Err e)
  | Ok validated =>
      match ids with
      | routeID :: versionID :: ids => db_run ids (create_route routeID versionID actorID validated requestID now observed) p
      | _ => (p, Err (EWrapped "generate UUIDv7"))
      end
  end.
Definition Service_Get (routeID : uuid) (reads : Reads) : result error Route :=
  if uuid_eqb routeID uuid_nil then Err ErrInvalidInput else getRoute routeID true reads.
Definition Service_List (modelID : option uuid) (cursor : string) (limit : Z) (reads : Reads) : result error Page :=
  if opt_uuid_eqb modelID (Some uuid_nil) then Err ErrInvalidInput else
  let cursor := TrimSpace cursor in
  _ ← (if String.eqb cursor "" then Ok "" else normalizeIdentifier cursor);
  let limit := if limit =? 0 then 50 else limit in
  if (limit <? 1) || (maximumPageSize <? limit) then Err ErrInvalidInput
  else list_routes modelID cursor (Z.to_nat limit) reads.
Definition Service_Update (ids : list uuid) (actorID routeID : uuid) (input : UpdateInput RawMetadata) (requestID : string)
    (now : time) (others : RouteDB -> RouteDB) (p : RouteDB) : RouteDB * result error Route :=
  if uuid_eqb actorID uuid_nil || uuid_eqb routeID uuid_nil then (p, Err ErrInvalidInput) else
  match normalizeUpdate input with
  | Err e => (p, Err e)
  | Ok validated => update ids actorID routeID validated requestID now others p
  end.
Definition PublishVersion (ids : list uuid) (actorID routeID : uuid) (targets : list (TargetInput RawMetadata))
    (requestID : string) (now observed : time) (p : RouteDB) : RouteDB * result error Route :=
  if uuid_eqb actorID uuid_nil || uuid_eqb routeID uuid_nil then (p, Err ErrInvalidInput) else
  match normalizeTargets targets with
  | Err e => (p, Err e)
  | Ok targets =>
      match ids with
      | versionID :: ids => db_run ids (publish_tx versionID actorID routeID targets requestID now observed) p
      | [] => (p, Err (EWrapped "generate UUIDv7"))
      end
  end.
Definition ListVersions (routeID : uuid) (reads : Reads) : result error (list Version) :=
  if uuid_eqb routeID uuid_nil then Err ErrInvalidInput else listVersions routeID (Z.to_nat maximumPageSize) reads.
Definition Resolve (identifier : string) (reads : Reads) : result error Resolution :=
  identifier ← normalizeIdentifier identifier;
  resolve identifier reads.
End repository.
End RouteRepo.
