(* ===== verification/RouteTheorems.v ===== *)
(** * Properties of route versions

    What the transactions of [internal/route] do to the versions of a route, histories of
    calls, and the properties of versions and of their resolution; module [RouteDemo]: a run. *)

From stdpp Require Import base gmap strings list sorting pretty.
From Stdlib Require Import ZArith Lia Ascii String.
From S2P Require Import Prelude GoLib BillingModel SchedulerModel Coordinator ApiKey RouteRepo.

Module RouteTheorems.
Import RouteRepo.
Import Coordinator(Sha256Hex, sha256_hex).
Import Sched(Target, t_ID, t_RouteVersionID, t_TargetNo, t_ProviderModelID, t_CredentialPoolID, t_Priority, t_Weight,
  t_CommercialPolicy, t_Enabled, t_Metadata).

(** ** Lists in order *)
Lemma sorted_by_perm {A} (f : A -> Z) l l' : Sorted.StronglySorted (fun a b => f a <= f b) l ->
  Sorted.StronglySorted (fun a b => f a <= f b) l' -> NoDup (f <$> l) -> l ≡ₚ l' -> l = l'.
Proof.
  revert l'. induction l as [|x l IH]; intros l' Hs Hs' Hnd Hp; [by apply Permutation_nil_l in Hp|].
  destruct l' as [|y l']; [by apply Permutation_nil_r in Hp|].
  apply Sorted.StronglySorted_inv in Hs as [Hs Hx], Hs' as [Hs' Hy]. rewrite fmap_cons in Hnd. apply NoDup_cons in Hnd as [Hnx Hnd].
  assert (x = y) as <-.
  { assert (x ∈ y :: l') as Hin by (rewrite <- Hp; constructor). assert (y ∈ x :: l) as Hin' by (rewrite Hp; constructor).
    apply elem_of_cons in Hin as [?|Hin]; [done|]. apply elem_of_cons in Hin' as [?|Hin']; [done|]. exfalso.
    rewrite Forall_forall in Hx, Hy.
    specialize (Hx _ Hin'). specialize (Hy _ Hin). simpl in Hx, Hy. apply Hnx. apply list_elem_of_fmap. exists y.
    split; [lia|done]. }
  f_equal. apply IH; [done..|]. by apply Permutation_cons_inv in Hp.
Qed.

Section transactions.
Context `{RouteGuards, Sha256Hex, UuidText}.

(** ** Targets of a version *)
(** [rows] are [targets], numbered from [index] on. *)
Fixpoint made (version : uuid) (index : Z) (targets : list (TargetInput Metadata)) (rows : list TargetRow) : Prop :=
  match targets, rows with
  | [], [] => True
  | t :: targets, r :: rows => r = target_row (tr_ID r) version index t /\ made version (index + 1) targets rows
  | _, _ => False
  end.
Definition with_rows (rows : list TargetRow) (p : RouteDB) : RouteDB :=
  mkRouteDB (model_routes p) (route_versions p) (route_targets p ++ rows)%list (models p) (aliases p)
    (provider_models p) (providers p) (pools p) (route_audits p).
Lemma raise_ok e s s' u : raise e s = Ok (s', u) -> s' = s.
Proof. unfold raise. destruct e; [done|by intros [= <-]]. Qed.
Lemma insert_target_ok t ids p s' u : insert_target t (ids, p) = Ok (s', u) ->
  s' = (ids, add_target t p) /\ target_provider_ok t p = true.
Proof.
  unfold insert_target. intros Hm. db_inv. match goal with Hr : raise _ _ = Ok _ |- _ => apply raise_ok in Hr; subst end.
  db_inv. bools. done.
Qed.
Lemma insertTargets_ok version index targets ids p s' u : insertTargets version index targets (ids, p) = Ok (s', u) ->
  exists rest rows, s' = (rest, with_rows rows p) /\ made version index targets rows
    /\ Forall (fun t => target_provider_ok t p = true) rows.
Proof.
  revert index ids p. induction targets as [|t targets IH]; intros index ids p Hm; cbn [insertTargets] in Hm.
  - db_inv. exists ids, []. split_and!; [|done|done]. unfold with_rows. rewrite app_nil_r. by destruct p.
  - db_inv. match goal with Hi : insert_target _ _ = Ok _ |- _ => apply insert_target_ok in Hi as [-> Hok] end.
    match goal with Hi : insertTargets _ _ _ _ = Ok _ |- _ => apply IH in Hi as (rest & rows & -> & Hmade & Hrows) end.
    match type of Hok with target_provider_ok ?r _ = _ => exists rest, (r :: rows) end.
    split_and!; [|split; [reflexivity|exact Hmade]|by constructor].
    unfold with_rows, add_target. simpl. by rewrite <- app_assoc.
Qed.

Lemma made_version version index targets rows t : made version index targets rows -> t ∈ rows -> tr_RouteVersionID t = version.
Proof.
  revert index rows. induction targets as [|x targets IH]; intros index [|r rows] Hm Ht; simpl in Hm; try done; [by apply elem_of_nil in Ht|].
  destruct Hm as [Hr Hm]. apply elem_of_cons in Ht as [->|Ht]; [by rewrite Hr|by eapply IH].
Qed.
Lemma made_numbers version index targets rows t : made version index targets rows -> t ∈ rows -> index <= tr_TargetNo t.
Proof.
  revert index rows. induction targets as [|x targets IH]; intros index [|r rows] Hm Ht; simpl in Hm; try done; [by apply elem_of_nil in Ht|].
  destruct Hm as [Hr Hm]. apply elem_of_cons in Ht as [->|Ht]; [rewrite Hr; simpl; lia|]. specialize (IH _ _ Hm Ht). lia.
Qed.
Lemma made_sorted version index targets rows : made version index targets rows ->
  Sorted.StronglySorted (fun a b => tr_TargetNo a <= tr_TargetNo b) rows /\ NoDup (tr_TargetNo <$> rows).
Proof.
  revert index rows. induction targets as [|x targets IH]; intros index [|r rows] Hm; simpl in Hm; try done; [split; constructor|].
  destruct Hm as [Hr Hm]. destruct (IH _ _ Hm) as [Hs Hn]. assert (tr_TargetNo r = index) as Hi by by rewrite Hr. split.
  - constructor; [done|]. apply Forall_forall. intros t Ht. pose proof (made_numbers _ _ _ _ _ Hm Ht). lia.
  - rewrite fmap_cons. apply NoDup_cons. split; [|done]. intros (t & Ht & Hin)%list_elem_of_fmap.
    pose proof (made_numbers _ _ _ _ _ Hm Hin). lia.
Qed.
Lemma list_filter_all {A} (f : A -> bool) l : (forall x, x ∈ l -> f x = true) -> List.filter f l = l.
Proof.
  induction l as [|x l IH]; intros Hf; [done|]. simpl. rewrite (Hf x) by constructor. f_equal. apply IH. intros y Hy. apply Hf. by constructor.
Qed.
Lemma list_filter_none {A} (f : A -> bool) l : (forall x, x ∈ l -> f x = false) -> List.filter f l = [].
Proof.
  induction l as [|x l IH]; intros Hf; [done|]. simpl. rewrite (Hf x) by constructor. apply IH. intros y Hy. apply Hf. by constructor.
Qed.
#[local] Instance target_before_total : Total target_before.
Proof. intros a b. unfold target_before. rewrite !Z.leb_le. lia. Qed.
#[local] Instance target_before_trans : Transitive target_before.
Proof. intros a b c. unfold target_before. rewrite !Z.leb_le. lia. Qed.
Lemma target_sort_made version index targets rows : made version index targets rows -> merge_sort target_before rows = rows.
Proof.
  intros Hm. destruct (made_sorted _ _ _ _ Hm) as [Hs Hn]. symmetry. apply (sorted_by_perm tr_TargetNo); [done| |done|].
  - pose proof (StronglySorted_merge_sort target_before rows) as Hms. revert Hms. generalize (merge_sort target_before rows).
    intros l. induction 1 as [|x l Hl IH Hx]; constructor; [done|]. eapply Forall_impl; [exact Hx|].
    intros y. simpl. unfold target_before. by rewrite Z.leb_le.
  - by rewrite merge_sort_Permutation.
Qed.
(** The targets of the new version, and of the others. *)
Lemma version_targets_new version targets rows p q : made version 0 targets rows ->
  (forall t, t ∈ route_targets p -> tr_RouteVersionID t <> version) -> route_targets q = (route_targets p ++ rows)%list ->
  version_targets version q = rows.
Proof.
  intros Hm Hp Hq. unfold version_targets. rewrite Hq, List.filter_app, list_filter_none, list_filter_all.
  - by eapply target_sort_made.
  - intros t Ht. apply uuid_eqb_eq. by eapply made_version.
  - intros t Ht. apply uuid_eqb_neq. by apply Hp.
Qed.
Lemma version_targets_old version other targets rows p q : made version 0 targets rows -> other <> version ->
  route_targets q = (route_targets p ++ rows)%list -> version_targets other q = version_targets other p.
Proof.
  intros Hm Hne Hq. unfold version_targets. rewrite Hq, List.filter_app, (list_filter_none _ rows), app_nil_r; [done|].
  intros t Ht. apply uuid_eqb_neq. rewrite (made_version _ _ _ _ _ Hm Ht). congruence.
Qed.

(** ** What a transaction changes *)
Definition same_catalogue (p q : RouteDB) : Prop :=
  models q = models p /\ aliases q = aliases p /\ provider_models q = provider_models p /\ providers q = providers p /\ pools q = pools p.
Lemma insert_route_audit_ok actor action kind target req ids p s' u :
  insert_route_audit actor action kind target req (ids, p) = Ok (s', u) -> exists rest a, s' = (rest, add_route_audit a p).
Proof.
  unfold insert_route_audit. intros Hm. db_inv. cbv zeta in *. destruct (guard_route_audit _); [done|]. db_inv. by eexists _, _.
Qed.
Lemma insert_route_ok id r ids p s' u : insert_route id r (ids, p) = Ok (s', u) ->
  s' = (ids, set_routes (<[id := r]>) p) /\ model_routes p !! id = None /\ match_taken id r p = false /\ route_check r = true.
Proof.
  unfold insert_route. intros Hm. db_inv. match goal with Hr : raise _ _ = Ok _ |- _ => apply raise_ok in Hr; subst end.
  db_inv. bools. split_and!; [done| |done|done]. apply eq_None_not_Some. done.
Qed.
Lemma insert_route_version_ok id v ids p s' u : insert_route_version id v (ids, p) = Ok (s', u) ->
  s' = (ids, set_route_versions (<[id := v]>) p) /\ route_versions p !! id = None /\ version_taken id v p = false
  /\ route_version_check v = true.
Proof.
  unfold insert_route_version. intros Hm. db_inv. match goal with Hr : raise _ _ = Ok _ |- _ => apply raise_ok in Hr; subst end.
  db_inv. bools. split_and!; [done| |done|done]. apply eq_None_not_Some. done.
Qed.
Lemma activate_version_ok route version touch ids p s' u r : activate_version route version touch (ids, p) = Ok (s', u) ->
  model_routes p !! route = Some r ->
  s' = (ids, set_routes (<[route := with_active (Some version) (default (rr_UpdatedAt r) touch) r]>) p)
  /\ active_version_ok route (Some version) p = true.
Proof.
  unfold activate_version. intros Hm Hr. db_inv. rewrite Hr in *. db_inv.
  match goal with Hr : raise _ _ = Ok _ |- _ => apply raise_ok in Hr; subst end. db_inv. done.
Qed.
Lemma read_route_ok id b ids p s' r : read_route id b (ids, p) = Ok (s', r) -> s' = (ids, p) /\ getRoute id b (same_tables p) = Ok r.
Proof.
  unfold read_route. intros Hm. by db_inv.
Qed.

Lemma create_route_ok routeID versionID actor input req now observed ids p s' route :
  create_route routeID versionID actor input req now observed (ids, p) = Ok (s', route) ->
  exists rows hash,
    model_routes p !! routeID = None /\ route_versions p !! versionID = None
    /\ validateTargets (ci_ModelID input) (ci_Targets input) p = true
    /\ made versionID 0 (ci_Targets input) rows
    /\ model_routes s'.2 = <[routeID := with_active (Some versionID) now (route_row input now)]> (model_routes p)
    /\ route_versions s'.2 = <[versionID := version_row routeID 1 observed hash actor now]> (route_versions p)
    /\ route_targets s'.2 = (route_targets p ++ rows)%list /\ same_catalogue p s'.2
    /\ getRoute routeID true (same_tables s'.2) = Ok route.
Proof.
  unfold create_route. cbv zeta. set (hash := routeSnapshotHash _ _ _ _ _). clearbody hash. intros Hm. db_inv.
  match goal with Hx : insert_route _ _ _ = Ok _ |- _ => apply insert_route_ok in Hx as (? & ? & _); subst end.
  match goal with Hx : insert_route_version _ _ _ = Ok _ |- _ => apply insert_route_version_ok in Hx as (? & ? & _); subst end.
  match goal with Hx : insertTargets _ _ _ _ = Ok _ |- _ => apply insertTargets_ok in Hx as (? & rows & ? & Hmade & _); subst end.
  match goal with Hx : activate_version _ _ _ _ = Ok _ |- _ =>
    eapply activate_version_ok in Hx as [? _]; [|simpl; apply lookup_insert_eq]; subst end.
  repeat match goal with Hx : insert_route_audit _ _ _ _ _ _ = Ok _ |- _ =>
    apply insert_route_audit_ok in Hx as (? & ? & ?); subst end.
  match goal with Hx : read_route _ _ _ = Ok _ |- _ => apply read_route_ok in Hx as [? ?]; subst end.
  bools. exists rows, hash. cbn [fst snd] in *. split_and!; try done. simpl. by rewrite insert_insert_eq.
Qed.

Lemma open_version_some route p k v : open_version route p = Some (k, v) ->
  route_versions p !! k = Some v /\ vr_RouteID v = route /\ vr_EffectiveTo v = None.
Proof.
  unfold open_version. intros [Hin Hq]%find_some. apply list_elem_of_In, elem_of_map_to_list in Hin.
  apply andb_true_iff in Hq as [Hr%uuid_eqb_eq Ho]. simpl in *. unfold is_open in Ho. by destruct (vr_EffectiveTo v).
Qed.
Lemma close_open_ok route observed ids p s' to k v : close_open route observed (ids, p) = Ok (s', to) ->
  open_version route p = Some (k, v) ->
  s' = (ids, set_route_versions (<[k := closed to v]>) p) /\ vr_EffectiveFrom v < to.
Proof.
  unfold close_open. intros Hm Ho. db_inv. rewrite Ho in *. db_inv.
  match goal with Hr : raise _ _ = Ok _ |- _ => apply raise_ok in Hr; subst end. db_inv. split; [done|]. unfold Microsecond. lia.
Qed.

Lemma publish_tx_ok versionID actor routeID targets req now observed ids p s' route k v :
  publish_tx versionID actor routeID targets req now observed (ids, p) = Ok (s', route) ->
  open_version routeID p = Some (k, v) ->
  exists r rows hash to, model_routes p !! routeID = Some r /\ vr_EffectiveFrom v < to
    /\ route_versions p !! versionID = None /\ versionID <> k
    /\ validateTargets (rr_ModelID r) targets p = true /\ made versionID 0 targets rows
    /\ model_routes s'.2 = <[routeID := with_active (Some versionID) now r]> (model_routes p)
    /\ route_versions s'.2 = <[versionID := version_row routeID (next_no routeID (set_route_versions (<[k := closed to v]>) p)) to hash actor now]>
                              (<[k := closed to v]> (route_versions p))
    /\ route_targets s'.2 = (route_targets p ++ rows)%list /\ same_catalogue p s'.2
    /\ getRoute routeID true (same_tables s'.2) = Ok route.
Proof.
  unfold publish_tx. intros Hm Ho. db_inv.
  match goal with Hx : read_route _ false _ = Ok _ |- _ => apply read_route_ok in Hx as [? Hcur]; subst end. db_inv.
  match goal with Hx : close_open _ _ _ = Ok _ |- _ => eapply close_open_ok in Hx as [? Hto]; [|exact Ho]; subst end. db_inv.
  cbv zeta in *. match goal with Hx : context [routeSnapshotHash ?a ?b ?c ?d ?e] |- _ => set (hash := routeSnapshotHash a b c d e) in *; clearbody hash end.
  db_inv.
  match goal with Hx : insert_route_version _ _ _ = Ok _ |- _ => apply insert_route_version_ok in Hx as (? & Hnv & _); subst end.
  match goal with Hx : insertTargets _ _ _ _ = Ok _ |- _ => apply insertTargets_ok in Hx as (? & rows & ? & Hmade & _); subst end.
  unfold getRoute, same_tables in Hcur. destruct (model_routes p !! routeID) as [r|] eqn:Er; [|done].
  match goal with Hx : activate_version _ _ _ _ = Ok _ |- _ =>
    eapply activate_version_ok in Hx as [? _]; [|simpl; exact Er]; subst end.
  match goal with Hx : insert_route_audit _ _ _ _ _ _ = Ok _ |- _ => apply insert_route_audit_ok in Hx as (? & ? & ?); subst end.
  match goal with Hx : read_route _ _ _ = Ok _ |- _ => apply read_route_ok in Hx as [? ?]; subst end.
  destruct (models p !! rr_ModelID r) as [m|]; [|done]. destruct (negb (undeleted r)); [done|]. injection Hcur as <-. bools.
  simpl in Hnv. rewrite lookup_insert_None in Hnv. destruct Hnv as [Hnv Hne].
  eexists r, rows, hash, _. cbn [fst snd r_ModelID scanRoute] in *. split_and!; try done.
Qed.
End transactions.

(** ** The versions of a route *)
Record sound (p : RouteDB) : Prop := {
  s_active : forall id r, model_routes p !! id = Some r -> exists a v, rr_ActiveVersionID r = Some a
    /\ route_versions p !! a = Some v /\ vr_RouteID v = id /\ vr_EffectiveTo v = None;
  s_first : forall id r, model_routes p !! id = Some r ->
    exists a v, route_versions p !! a = Some v /\ vr_RouteID v = id /\ vr_VersionNo v = 1;
  s_row : forall a v, route_versions p !! a = Some v -> is_Some (model_routes p !! vr_RouteID v) /\ 1 <= vr_VersionNo v
    /\ forall t, vr_EffectiveTo v = Some t -> vr_EffectiveFrom v < t;
  s_open : forall a b v w, route_versions p !! a = Some v -> route_versions p !! b = Some w -> vr_RouteID v = vr_RouteID w ->
    vr_EffectiveTo v = None -> vr_EffectiveTo w = None -> a = b;
  s_no : forall a b v w, route_versions p !! a = Some v -> route_versions p !! b = Some w -> vr_RouteID v = vr_RouteID w ->
    vr_VersionNo v = vr_VersionNo w -> a = b;
  s_next : forall a v t, route_versions p !! a = Some v -> vr_EffectiveTo v = Some t -> exists b w,
    route_versions p !! b = Some w /\ vr_RouteID w = vr_RouteID v /\ vr_VersionNo w = vr_VersionNo v + 1 /\ vr_EffectiveFrom w = t;
  s_prev : forall b w, route_versions p !! b = Some w -> 1 < vr_VersionNo w -> exists a v,
    route_versions p !! a = Some v /\ vr_RouteID v = vr_RouteID w /\ vr_VersionNo v = vr_VersionNo w - 1
    /\ vr_EffectiveTo v = Some (vr_EffectiveFrom w);
  s_target : forall t, t ∈ route_targets p -> is_Some (route_versions p !! tr_RouteVersionID t) /\ is_Some (join_target p t)
}.

(** What stays of routes and versions. *)
Record evolves (p q : RouteDB) : Prop := {
  e_route : forall id r, model_routes p !! id = Some r -> exists r', model_routes q !! id = Some r'
    /\ rr_ModelID r' = rr_ModelID r /\ rr_MatchType r' = rr_MatchType r /\ rr_MatchValue r' = rr_MatchValue r;
  e_version : forall a v, route_versions p !! a = Some v -> exists w, route_versions q !! a = Some w
    /\ (w = v \/ vr_EffectiveTo v = None /\ exists t, w = closed t v);
  e_targets : forall a, is_Some (route_versions p !! a) -> version_targets a q = version_targets a p
}.
Lemma evolves_refl p : evolves p p.
Proof. constructor; [intros id r Hr; by exists r|intros a v Hv; exists v; by split; [|left]|done]. Qed.
Lemma evolves_trans p q r : evolves p q -> evolves q r -> evolves p r.
Proof.
  intros H1 H2. constructor.
  - intros id x Hx. destruct (e_route _ _ H1 _ _ Hx) as (y & Hy & ? & ? & ?). destruct (e_route _ _ H2 _ _ Hy) as (z & Hz & ? & ? & ?).
    exists z. split_and!; congruence.
  - intros a v Hv. destruct (e_version _ _ H1 _ _ Hv) as (w & Hw & Hvw). destruct (e_version _ _ H2 _ _ Hw) as (x & Hx & Hwx).
    exists x. split; [done|]. destruct Hvw as [-> |(Ho & t & ->)]; [done|]. destruct Hwx as [-> |(Ho' & _)]; [|done]. right. split; [done|by exists t].
  - intros a [v Hv]. destruct (e_version _ _ H1 _ _ Hv) as (w & Hw & _). rewrite (e_targets _ _ H2); [|by eexists].
    apply (e_targets _ _ H1). by eexists.
Qed.

Section versions.
Context `{RouteGuards, Sha256Hex, UuidText}.

Lemma join_same p q t : same_catalogue p q -> join_target q t = join_target p t.
Proof. intros (_ & _ & E1 & E2 & E3). unfold join_target. by rewrite E1, E2, E3. Qed.
Lemma made_join model version index targets rows p t : validateTargets model targets p = true -> made version index targets rows ->
  t ∈ rows -> is_Some (join_target p t).
Proof.
  unfold validateTargets. revert index rows. induction targets as [|x targets IH]; intros index [|r rows] Hv Hm Ht; simpl in Hm; try done;
    [by apply elem_of_nil in Ht|]. destruct Hm as [Hr Hm]. simpl in Hv. apply andb_true_iff in Hv as [Hx Hv].
  apply elem_of_cons in Ht as [->|Ht]; [|by eapply IH]. rewrite Hr. unfold join_target, validate_target in *. simpl.
  destruct (provider_models p !! ti_ProviderModelID x) as [pm|]; [|done]. simpl.
  destruct (providers p !! pm_ProviderID pm); [|done]. destruct (pools p !! ti_CredentialPoolID x); [|done]. by eexists.
Qed.

(** *** A route is created *)
Lemma created_sound p q routeID versionID r w model targets rows : sound p ->
  model_routes p !! routeID = None -> route_versions p !! versionID = None ->
  validateTargets model targets p = true -> made versionID 0 targets rows ->
  model_routes q = <[routeID := r]> (model_routes p) -> route_versions q = <[versionID := w]> (route_versions p) ->
  route_targets q = (route_targets p ++ rows)%list -> same_catalogue p q ->
  rr_ActiveVersionID r = Some versionID -> vr_RouteID w = routeID -> vr_VersionNo w = 1 -> vr_EffectiveTo w = None ->
  sound q /\ evolves p q.
Proof.
  intros S Hr Hv Hval Hm Er Ev Et Hc Ha Hwr Hwn Hwt.
  assert (forall a v, route_versions p !! a = Some v -> vr_RouteID v <> routeID /\ a <> versionID) as Hold.
  { intros a v Hav. split; [|congruence]. intros E. destruct (s_row _ S _ _ Hav) as [[x Hx] _]. congruence. }
  assert (forall t, t ∈ route_targets p -> tr_RouteVersionID t <> versionID) as Hfresh.
  { intros t Ht E. destruct (s_target _ S _ Ht) as [[v Hx] _]. congruence. }
  split; constructor.
  - rewrite Er, Ev. intros id x [[<- <-]|[Hne Hx]]%lookup_insert_Some.
    + exists versionID, w. by rewrite lookup_insert_eq.
    + destruct (s_active _ S _ _ Hx) as (a & v & ? & Hav & ? & ?). exists a, v. destruct (Hold _ _ Hav). by rewrite lookup_insert_ne.
  - rewrite Er, Ev. intros id x [[<- <-]|[Hne Hx]]%lookup_insert_Some.
    + exists versionID, w. by rewrite lookup_insert_eq.
    + destruct (s_first _ S _ _ Hx) as (a & v & Hav & ? & ?). exists a, v. destruct (Hold _ _ Hav). by rewrite lookup_insert_ne.
  - rewrite Ev, Er. intros a v [[<- <-]|[Hne Hav]]%lookup_insert_Some.
    + rewrite Hwr, lookup_insert_eq. split_and!; [by eexists|lia|by rewrite Hwt].
    + destruct (Hold _ _ Hav) as [Hx _]. rewrite lookup_insert_ne by congruence. by eapply (s_row _ S).
  - rewrite Ev. intros a b v x [[<- <-]|[? Hav]]%lookup_insert_Some [[<- <-]|[? Hbx]]%lookup_insert_Some E Hv0 Hx0; try done.
    + destruct (Hold _ _ Hbx). congruence.
    + destruct (Hold _ _ Hav). congruence.
    + by eapply (s_open _ S).
  - rewrite Ev. intros a b v x [[<- <-]|[? Hav]]%lookup_insert_Some [[<- <-]|[? Hbx]]%lookup_insert_Some E Hn; try done.
    + destruct (Hold _ _ Hbx). congruence.
    + destruct (Hold _ _ Hav). congruence.
    + by eapply (s_no _ S).
  - rewrite Ev. intros a v t [[<- <-]|[? Hav]]%lookup_insert_Some Ht; [congruence|].
    destruct (s_next _ S _ _ _ Hav Ht) as (b & x & Hb & Hx). exists b, x. destruct (Hold _ _ Hb). by rewrite lookup_insert_ne.
  - rewrite Ev. intros b x [[<- <-]|[? Hb]]%lookup_insert_Some Hn; [lia|].
    destruct (s_prev _ S _ _ Hb Hn) as (a & v & Hav & Hx). exists a, v. destruct (Hold _ _ Hav). by rewrite lookup_insert_ne.
  - rewrite Et, Ev. intros t [Ht|Ht]%elem_of_app; rewrite (join_same p q) by done.
    + rewrite lookup_insert_ne by (intros E; by eapply Hfresh). by apply (s_target _ S).
    + rewrite (made_version _ _ _ _ _ Hm Ht), lookup_insert_eq. split; [by eexists|by eapply made_join].
  - rewrite Er. intros id x Hx. exists x. rewrite lookup_insert_ne by congruence. done.
  - rewrite Ev. intros a v Hav. exists v. destruct (Hold _ _ Hav). rewrite lookup_insert_ne by done. split; [done|by left].
  - intros a [v Hav]. destruct (Hold _ _ Hav). by eapply version_targets_old.
Qed.

(** *** A version is published *)
Lemma next_no_spec route p :
  (forall a v, route_versions p !! a = Some v -> vr_RouteID v = route -> vr_VersionNo v < next_no route p)
  /\ (next_no route p = 1 \/ exists a v, route_versions p !! a = Some v /\ vr_RouteID v = route /\ vr_VersionNo v = next_no route p - 1).
Proof.
  unfold next_no. destruct (map_max_spec (fun v => uuid_eqb (vr_RouteID v) route) vr_VersionNo (route_versions p)) as [M1 M2]. split.
  - intros a v Hav Hr. specialize (M1 _ _ Hav (proj2 (uuid_eqb_eq _ _) Hr)). lia.
  - destruct M2 as [-> |(a & v & Hav & Hr%uuid_eqb_eq & Hn)]; [by left|right]. exists a, v. split_and!; [done|done|]. lia.
Qed.
Lemma next_no_open route p k v to : sound p -> route_versions p !! k = Some v -> vr_RouteID v = route -> vr_EffectiveTo v = None ->
  next_no route (set_route_versions (<[k := closed to v]>) p) = vr_VersionNo v + 1.
Proof.
  intros S Hk Hr Ho. set (p' := set_route_versions _ p). destruct (next_no_spec route p') as [Hmax Hex].
  assert (route_versions p' !! k = Some (closed to v)) as Hk' by (simpl; apply lookup_insert_eq).
  pose proof (Hmax _ _ Hk' Hr) as Hlt. simpl in Hlt. destruct (s_row _ S _ _ Hk) as (_ & Hpos & _).
  destruct Hex as [E|(a & w & Ha & Hwr & Hwn)]; [lia|].
  destruct (decide (a = k)) as [->|Hne]; [rewrite Hk' in Ha; injection Ha as <-; simpl in Hwn; lia|].
  simpl in Ha. rewrite lookup_insert_ne in Ha by done. destruct (vr_EffectiveTo w) as [t|] eqn:Et.
  - destruct (s_next _ S _ _ _ Ha Et) as (b & x & Hb & Hxr & Hxn & _). exfalso.
    assert (exists y, route_versions p' !! b = Some y /\ vr_RouteID y = route /\ vr_VersionNo y = vr_VersionNo x) as (y & Hy & Hyr & Hyn).
    { simpl. destruct (decide (b = k)) as [->|]; [|exists x; rewrite lookup_insert_ne by done; split_and!; [done|congruence|done]].
      rewrite Hk in Hb. injection Hb as <-. exists (closed to v). by rewrite lookup_insert_eq. }
    specialize (Hmax _ _ Hy Hyr). lia.
  - exfalso. apply Hne. eapply (s_open _ S); [exact Ha|exact Hk|congruence|done|done].
Qed.

Section published.
Context (p q : RouteDB) (routeID versionID k : uuid) (r r' : RouteRow) (v w : VersionRow) (to : time) (model : uuid)
  (targets : list (TargetInput Metadata)) (rows : list TargetRow).
Context (S : sound p) (Hr : model_routes p !! routeID = Some r) (Hk : route_versions p !! k = Some v)
  (Hvr : vr_RouteID v = routeID) (Hvo : vr_EffectiveTo v = None) (Hlt : vr_EffectiveFrom v < to)
  (Hv : route_versions p !! versionID = None) (Hne : versionID <> k)
  (Hval : validateTargets model targets p = true) (Hm : made versionID 0 targets rows)
  (Er : model_routes q = <[routeID := r']> (model_routes p))
  (Ev : route_versions q = <[versionID := w]> (<[k := closed to v]> (route_versions p)))
  (Et : route_targets q = (route_targets p ++ rows)%list) (Hc : same_catalogue p q)
  (Ha : rr_ActiveVersionID r' = Some versionID) (Hmod : rr_ModelID r' = rr_ModelID r)
  (Hmt : rr_MatchType r' = rr_MatchType r) (Hmv : rr_MatchValue r' = rr_MatchValue r)
  (Hwr : vr_RouteID w = routeID) (Hwn : vr_VersionNo w = vr_VersionNo v + 1) (Hwf : vr_EffectiveFrom w = to)
  (Hwt : vr_EffectiveTo w = None).

(** A version of [q] is the new one, the one that was closed, or an old one. *)
Lemma published_case a x : route_versions q !! a = Some x ->
  a = versionID /\ x = w \/ a = k /\ x = closed to v \/ a <> k /\ a <> versionID /\ route_versions p !! a = Some x.
Proof. rewrite Ev. intros [[<- <-]|[Hn1 [[<- <-]|[Hn2 Hx]]%lookup_insert_Some]]%lookup_insert_Some; auto. Qed.
Lemma published_new : route_versions q !! versionID = Some w.
Proof. rewrite Ev. apply lookup_insert_eq. Qed.
Lemma published_closed : route_versions q !! k = Some (closed to v).
Proof. rewrite Ev, lookup_insert_ne by done. apply lookup_insert_eq. Qed.
Lemma published_kept a x : a <> k -> route_versions p !! a = Some x -> route_versions q !! a = Some x.
Proof. intros Hak Hx. rewrite Ev, !lookup_insert_ne by congruence. done. Qed.
Lemma published_max a x : route_versions p !! a = Some x -> vr_RouteID x = routeID -> vr_VersionNo x <= vr_VersionNo v.
Proof.
  intros Hx Hxr. pose proof (next_no_open routeID p k v to S Hk Hvr Hvo) as Hn.
  destruct (next_no_spec routeID (set_route_versions (<[k := closed to v]>) p)) as [Hs _]. rewrite Hn in Hs.
  destruct (decide (a = k)) as [->|Hak]; [assert (x = v) as -> by congruence; lia|].
  specialize (Hs a x). simpl in Hs. rewrite lookup_insert_ne in Hs by done. specialize (Hs Hx Hxr). lia.
Qed.
(** What an old version has but its end, the version of the same identifier still has. *)
Lemma published_still a x : route_versions p !! a = Some x -> exists y, route_versions q !! a = Some y
  /\ vr_RouteID y = vr_RouteID x /\ vr_VersionNo y = vr_VersionNo x /\ vr_EffectiveFrom y = vr_EffectiveFrom x.
Proof.
  intros Hx. destruct (decide (a = k)) as [->|Hak]; [|exists x; split_and!; [by apply published_kept|done..]].
  exists (closed to v). assert (x = v) as -> by congruence. split_and!; [apply published_closed|done..].
Qed.

Lemma published_active id x : model_routes q !! id = Some x -> exists a y, rr_ActiveVersionID x = Some a
  /\ route_versions q !! a = Some y /\ vr_RouteID y = id /\ vr_EffectiveTo y = None.
Proof.
  rewrite Er. intros [[<- <-]|[Hid Hx]]%lookup_insert_Some; [exists versionID, w; split_and!; [done|apply published_new|done..]|].
  destruct (s_active _ S _ _ Hx) as (a & y & ? & Hay & Hyr & ?). exists a, y. split_and!; [done| |done|done].
  apply published_kept; [|done]. intros ->. congruence.
Qed.
Lemma published_first id x : model_routes q !! id = Some x ->
  exists a y, route_versions q !! a = Some y /\ vr_RouteID y = id /\ vr_VersionNo y = 1.
Proof.
  intros Hx. assert (exists z, model_routes p !! id = Some z) as [z Hz].
  { rewrite Er in Hx. apply lookup_insert_Some in Hx as [[<- _]|[_ Hx]]; eauto. }
  destruct (s_first _ S _ _ Hz) as (a & y & Hay & ? & ?). destruct (published_still _ _ Hay) as (y' & Hy' & ? & ? & _).
  exists a, y'. split_and!; [done|congruence|congruence].
Qed.
Lemma published_row a x : route_versions q !! a = Some x -> is_Some (model_routes q !! vr_RouteID x) /\ 1 <= vr_VersionNo x
  /\ forall t, vr_EffectiveTo x = Some t -> vr_EffectiveFrom x < t.
Proof.
  intros Hx. rewrite Er. destruct (s_row _ S _ _ Hk) as (_ & Hpos & _).
  destruct (published_case _ _ Hx) as [[-> ->]|[[-> ->]|(Hak & _ & Hx')]]; simpl.
  - rewrite Hwr, lookup_insert_eq. split_and!; [by eexists|lia|by rewrite Hwt].
  - rewrite Hvr, lookup_insert_eq. split_and!; [by eexists|lia|by intros t [= <-]].
  - destruct (s_row _ S _ _ Hx') as (Hi & ? & ?). split_and!; [|done|done]. apply lookup_insert_is_Some'. by right.
Qed.
Lemma published_open a b x y : route_versions q !! a = Some x -> route_versions q !! b = Some y -> vr_RouteID x = vr_RouteID y ->
  vr_EffectiveTo x = None -> vr_EffectiveTo y = None -> a = b.
Proof.
  intros Hx Hy Exy Ox Oy.
  destruct (published_case _ _ Hx) as [[-> ->]|[[-> ->]|(Hak & _ & Hx')]],
    (published_case _ _ Hy) as [[-> ->]|[[-> ->]|(Hbk & _ & Hy')]]; try done.
  - exfalso. apply Hbk. eapply (s_open _ S); [exact Hy'|exact Hk|congruence|done|done].
  - exfalso. apply Hak. eapply (s_open _ S); [exact Hx'|exact Hk|congruence|done|done].
  - by eapply (s_open _ S).
Qed.
Lemma published_no a b x y : route_versions q !! a = Some x -> route_versions q !! b = Some y -> vr_RouteID x = vr_RouteID y ->
  vr_VersionNo x = vr_VersionNo y -> a = b.
Proof.
  intros Hx Hy Exy Nxy.
  destruct (published_case _ _ Hx) as [[-> ->]|[[-> ->]|(Hak & _ & Hx')]],
    (published_case _ _ Hy) as [[-> ->]|[[-> ->]|(Hbk & _ & Hy')]]; try done; simpl in *.
  - lia.
  - pose proof (published_max _ _ Hy' ltac:(congruence)). lia.
  - lia.
  - eapply (s_no _ S); [exact Hk|exact Hy'|congruence|congruence].
  - pose proof (published_max _ _ Hx' ltac:(congruence)). lia.
  - eapply (s_no _ S); [exact Hx'|exact Hk|congruence|congruence].
  - by eapply (s_no _ S).
Qed.
Lemma published_next a x t : route_versions q !! a = Some x -> vr_EffectiveTo x = Some t -> exists b y,
  route_versions q !! b = Some y /\ vr_RouteID y = vr_RouteID x /\ vr_VersionNo y = vr_VersionNo x + 1 /\ vr_EffectiveFrom y = t.
Proof.
  intros Hx Ht. destruct (published_case _ _ Hx) as [[-> ->]|[[-> ->]|(Hak & _ & Hx')]].
  - congruence.
  - injection Ht as <-. exists versionID, w. simpl. split_and!; [apply published_new|congruence|done|done].
  - destruct (s_next _ S _ _ _ Hx' Ht) as (b & y & Hb & ? & ? & ?). destruct (published_still _ _ Hb) as (y' & Hy' & ? & ? & ?).
    exists b, y'. split_and!; [done|congruence|congruence|congruence].
Qed.
Lemma published_prev b x : route_versions q !! b = Some x -> 1 < vr_VersionNo x -> exists a y,
  route_versions q !! a = Some y /\ vr_RouteID y = vr_RouteID x /\ vr_VersionNo y = vr_VersionNo x - 1
  /\ vr_EffectiveTo y = Some (vr_EffectiveFrom x).
Proof.
  assert (forall c z, route_versions p !! c = Some z -> 1 < vr_VersionNo z -> exists a y,
    route_versions q !! a = Some y /\ vr_RouteID y = vr_RouteID z /\ vr_VersionNo y = vr_VersionNo z - 1
    /\ vr_EffectiveTo y = Some (vr_EffectiveFrom z)) as Hold.
  { intros c z Hz Hn. destruct (s_prev _ S _ _ Hz Hn) as (a & y & Hay & ? & ? & ?). exists a, y. split_and!; [|done..].
    apply published_kept; [|done]. intros ->. congruence. }
  intros Hx Hn. destruct (published_case _ _ Hx) as [[-> ->]|[[-> ->]|(Hbk & _ & Hx')]].
  - exists k, (closed to v). simpl. split_and!; [apply published_closed|congruence|lia|congruence].
  - exact (Hold _ _ Hk Hn).
  - by eapply Hold.
Qed.
Lemma published_target t : t ∈ route_targets q -> is_Some (route_versions q !! tr_RouteVersionID t) /\ is_Some (join_target q t).
Proof.
  rewrite Et. intros [Ht|Ht]%elem_of_app; rewrite (join_same p q) by done.
  - destruct (s_target _ S _ Ht) as [[x Hx] Hj]. split; [|done]. destruct (published_still _ _ Hx) as (y & Hy & _). by eexists.
  - rewrite (made_version _ _ _ _ _ Hm Ht), published_new. split; [by eexists|by eapply made_join].
Qed.

Lemma published_evolves : evolves p q.
Proof.
  constructor.
  - rewrite Er. intros id x Hx. destruct (decide (routeID = id)) as [<-|Hid].
    + exists r'. rewrite lookup_insert_eq. assert (x = r) as -> by congruence. done.
    + exists x. by rewrite lookup_insert_ne.
  - intros a x Hx. destruct (decide (a = k)) as [->|Hak].
    + exists (closed to v). split; [apply published_closed|]. assert (x = v) as -> by congruence. right. split; [done|by exists to].
    + exists x. split; [by apply published_kept|by left].
  - intros a [x Hx]. eapply version_targets_old; [exact Hm| |done]. congruence.
Qed.
Lemma published_sound : sound q.
Proof.
  constructor; [exact published_active|exact published_first|exact published_row|exact published_open|exact published_no
    |exact published_next|exact published_prev|exact published_target].
Qed.
End published.

(** *** Metadata or the switch changes *)
Lemma updated_sound p q id r metadata enabled now : sound p -> model_routes p !! id = Some r ->
  model_routes q = <[id := updated_row metadata enabled now r]> (model_routes p) -> route_versions q = route_versions p ->
  route_targets q = route_targets p -> same_catalogue p q -> sound q /\ evolves p q.
Proof.
  intros S Hr Er Ev Et Hc.
  assert (forall j x, model_routes q !! j = Some x -> exists y, model_routes p !! j = Some y
            /\ rr_ActiveVersionID x = rr_ActiveVersionID y) as Hback.
  { rewrite Er. intros j x [[<- <-]|[_ Hx]]%lookup_insert_Some; [by exists r|by exists x]. }
  assert (forall j x, model_routes p !! j = Some x -> is_Some (model_routes q !! j)) as Hforth.
  { rewrite Er. intros j x Hx. apply lookup_insert_is_Some'. right. by eexists. }
  split; constructor; rewrite ?Ev, ?Et.
  - intros j x (y & Hy & ->)%Hback. by apply (s_active _ S).
  - intros j x (y & Hy & _)%Hback. by eapply (s_first _ S).
  - intros a v Hv. destruct (s_row _ S _ _ Hv) as ([y Hy] & ? & ?). split_and!; [by eapply Hforth|done|done].
  - apply S.
  - apply S.
  - apply S.
  - apply S.
  - intros t Ht. rewrite (join_same p q) by done. by apply (s_target _ S).
  - rewrite Er. intros j x Hx. destruct (decide (id = j)) as [<-|].
    + eexists. rewrite lookup_insert_eq. split; [done|]. by assert (x = r) as -> by congruence.
    + exists x. by rewrite lookup_insert_ne.
  - intros a v Hv. exists v. split; [done|by left].
  - intros a _. unfold version_targets. by rewrite Et.
Qed.
Lemma update_rest_ok actor id metadata enabled req now ids p s' route :
  update_rest actor id metadata enabled req now (ids, p) = Ok (s', route) ->
  exists r, model_routes p !! id = Some r
    /\ model_routes s'.2 = <[id := updated_row metadata enabled now r]> (model_routes p)
    /\ route_versions s'.2 = route_versions p /\ route_targets s'.2 = route_targets p /\ same_catalogue p s'.2.
Proof.
  unfold update_rest. intros Hm. db_inv. destruct (model_routes p !! id) as [r|] eqn:Er.
  - destruct (undeleted r) eqn:Eu.
    + cbv zeta in *. db_inv. match goal with Hr : raise _ _ = Ok _ |- _ => apply raise_ok in Hr; subst end. db_inv.
      match goal with Hx : insert_route_audit _ _ _ _ _ _ = Ok _ |- _ => apply insert_route_audit_ok in Hx as (? & ? & ?); subst end.
      match goal with Hx : read_route _ _ _ = Ok _ |- _ => apply read_route_ok in Hx as [? ?]; subst end.
      by exists r.
    + db_inv. match goal with Hx : insert_route_audit _ _ _ _ _ _ = Ok _ |- _ => apply insert_route_audit_ok in Hx as (? & ? & ?); subst end.
      match goal with Hx : read_route _ _ _ = Ok _ |- _ => apply read_route_ok in Hx as [? Hg]; subst end.
      unfold getRoute, same_tables in Hg. simpl in Hg. rewrite Er in Hg. destruct (models p !! rr_ModelID r); [|done]. by rewrite Eu in Hg.
  - db_inv. match goal with Hx : insert_route_audit _ _ _ _ _ _ = Ok _ |- _ => apply insert_route_audit_ok in Hx as (? & ? & ?); subst end.
    match goal with Hx : read_route _ _ _ = Ok _ |- _ => apply read_route_ok in Hx as [? Hg]; subst end.
    unfold getRoute, same_tables in Hg. simpl in Hg. by rewrite Er in Hg.
Qed.

(** *** Other packages write the catalogue only, and keep what is referenced *)
Record others_ok (p q : RouteDB) : Prop := {
  o_routes : model_routes q = model_routes p;
  o_versions : route_versions q = route_versions p;
  o_targets : route_targets q = route_targets p;
  o_models : forall k, is_Some (models p !! k) -> is_Some (models q !! k);
  o_provider_models : forall k, is_Some (provider_models p !! k) -> is_Some (provider_models q !! k);
  o_providers : forall k pm, provider_models q !! k = Some pm -> is_Some (providers q !! pm_ProviderID pm);
  o_pools : forall k, is_Some (pools p !! k) -> is_Some (pools q !! k)
}.
Lemma others_sound p q : sound p -> others_ok p q -> sound q /\ evolves p q.
Proof.
  intros S O. split; constructor; rewrite ?(o_routes _ _ O), ?(o_versions _ _ O), ?(o_targets _ _ O); try apply S.
  - intros t Ht. destruct (s_target _ S _ Ht) as [Hv [x Hj]]. split; [done|]. unfold join_target in *.
    destruct (provider_models p !! tr_ProviderModelID t) as [pm|] eqn:E1; [|done]. simpl in Hj.
    destruct (providers p !! pm_ProviderID pm) as [pv|]; [|done]. simpl in Hj.
    destruct (pools p !! tr_CredentialPoolID t) as [cp|] eqn:E3; [|done].
    destruct (o_provider_models _ _ O (tr_ProviderModelID t)) as [pm' Epm]; [by rewrite E1; eexists|]. rewrite Epm. simpl.
    destruct (o_providers _ _ O _ _ Epm) as [pv' ->]. simpl.
    destruct (o_pools _ _ O (tr_CredentialPoolID t)) as [cp' ->]; [by rewrite E3; eexists|]. by eexists.
  - intros id r Hr. by exists r.
  - intros a v Hv. exists v. split; [done|by left].
  - intros a _. unfold version_targets. by rewrite (o_targets _ _ O).
Qed.

(** ** Histories *)
(** Calls and what other packages commit; an update is preceded by a history of its own. *)
Inductive history : RouteDB -> RouteDB -> Prop :=
| history_refl p : history p p
| history_create p q q' ids actor input req now observed r :
    history p q -> Service_Create ids actor input req now observed q = (q', r) -> history p q'
| history_update p q q1 q' ids actor id input req now r :
    history p q -> history q q1 -> Service_Update ids actor id input req now (fun _ => q1) q = (q', r) -> history p q'
| history_publish p q q' ids actor id targets req now observed r :
    history p q -> PublishVersion ids actor id targets req now observed q = (q', r) -> history p q'
| history_others p q q' : history p q -> others_ok q q' -> history p q'.

Lemma Service_Create_sound ids actor input req now observed p p' r : sound p ->
  Service_Create ids actor input req now observed p = (p', r) -> sound p' /\ evolves p p'.
Proof.
  intros S. unfold Service_Create. intros Hc. assert (sound p /\ evolves p p) as Hsame by (split; [done|apply evolves_refl]).
  destruct (uuid_eqb _ _); [by injection Hc as <- _|]. destruct (normalizeCreate input) as [n|e]; [|by injection Hc as <- _].
  destruct ids as [|routeID [|versionID ids]]; [by injection Hc as <- _..|].
  apply db_run_ok in Hc as [(s & route & Hm & -> & _)|(e & _ & ->)]; [|done].
  apply create_route_ok in Hm as (rows & hash & Hr & Hv & Hval & Hmade & Er & Ev & Et & Hcat & _).
  by eapply created_sound.
Qed.
Lemma open_version_of p id r : sound p -> model_routes p !! id = Some r -> exists k v, open_version id p = Some (k, v).
Proof.
  intros S Hr. destruct (s_active _ S _ _ Hr) as (a & v & _ & Ha & Hvr & Ho). unfold open_version.
  destruct (List.find _ _) as [[k w]|] eqn:E; [by eexists _, _|]. exfalso.
  eapply find_none in E; [|apply list_elem_of_In, elem_of_map_to_list, Ha]. simpl in E. unfold is_open in E. rewrite Ho, andb_true_r in E.
  by apply uuid_eqb_neq in E.
Qed.
Lemma publish_tx_sound versionID actor routeID targets req now observed ids p s' route : sound p ->
  publish_tx versionID actor routeID targets req now observed (ids, p) = Ok (s', route) ->
  sound s'.2 /\ evolves p s'.2 /\ getRoute routeID true (same_tables s'.2) = Ok route
  /\ exists r rows, model_routes s'.2 !! routeID = Some r /\ rr_ActiveVersionID r = Some versionID
       /\ made versionID 0 targets rows /\ version_targets versionID s'.2 = rows.
Proof.
  intros S Hm. assert (exists r, model_routes p !! routeID = Some r) as [r0 Hr0].
  { unfold publish_tx in Hm. db_inv. match goal with Hx : read_route _ false _ = Ok _ |- _ => apply read_route_ok in Hx as [_ Hcur] end.
    unfold getRoute, same_tables in Hcur. destruct (model_routes p !! routeID) as [r|]; [by exists r|done]. }
  destruct (open_version_of _ _ _ S Hr0) as (k & v & Ho). pose proof (open_version_some _ _ _ _ Ho) as (Hk & Hvr & Hvo).
  eapply publish_tx_ok in Hm as (r & rows & hash & to & Hr & Hto & Hnv & Hne & Hval & Hmade & Er & Ev & Et & Hcat & Hget); [|exact Ho].
  rewrite (next_no_open routeID p k v to) in Ev by done.
  split_and!; [by eapply (published_sound p s'.2)|by eapply (published_evolves p s'.2)|done|]. eexists _, rows. rewrite Er, lookup_insert_eq. split_and!; [done|done|done|].
  eapply version_targets_new; [exact Hmade| |exact Et]. intros t Ht E'. destruct (s_target _ S _ Ht) as [[x Hx] _]. congruence.
Qed.
Lemma PublishVersion_ok ids actor id targets req now observed p p' r :
  PublishVersion ids actor id targets req now observed p = (p', r) ->
  p' = p /\ (exists e, r = Err e)
  \/ exists l versionID rest s route, normalizeTargets targets = Ok l /\ p' = s.2 /\ r = Ok route
       /\ publish_tx versionID actor id l req now observed (rest, p) = Ok (s, route).
Proof.
  unfold PublishVersion. intros Hc. destruct (_ || _); [injection Hc as <- <-; left; split; [done|by eexists]|].
  destruct (normalizeTargets targets) as [l|e]; [|injection Hc as <- <-; left; split; [done|by eexists]].
  destruct ids as [|versionID rest]; [injection Hc as <- <-; left; split; [done|by eexists]|].
  apply db_run_ok in Hc as [(s & route & Hm & -> & ->)|(e & -> & ->)]; [right|left; split; [done|by eexists]].
  by exists l, versionID, rest, s, route.
Qed.
Lemma Service_Update_sound ids actor id input req now q1 p p' r : sound p -> sound q1 -> evolves p q1 ->
  Service_Update ids actor id input req now (fun _ => q1) p = (p', r) -> sound p' /\ evolves p p'.
Proof.
  intros S S1 E1. unfold Service_Update, update. intros Hc.
  assert (sound p /\ evolves p p) as Hsame by (split; [done|apply evolves_refl]).
  destruct (_ || _); [by injection Hc as <- _|]. destruct (normalizeUpdate input) as [n|e]; [|by injection Hc as <- _].
  destruct (getRoute id false (same_tables p)) as [current|e]; [|by injection Hc as <- _].
  apply db_run_ok in Hc as [(s & route & Hm & -> & _)|(e & _ & ->)]; [|done].
  apply update_rest_ok in Hm as (x & Hx & Er & Ev & Et & Hcat).
  destruct (updated_sound _ _ _ _ _ _ _ S1 Hx Er Ev Et Hcat) as [S' E']. split; [done|by eapply evolves_trans].
Qed.
Lemma route_history_sound p q : history p q -> sound p -> sound q /\ evolves p q.
Proof.
  induction 1 as [p|p q q' ids actor input req now observed r _ IH Hc|p q q1 q' ids actor id input req now r _ IH _ IH1 Hc
                 |p q q' ids actor id targets req now observed r _ IH Hc|p q q' _ IH O]; intros S.
  - split; [done|apply evolves_refl].
  - destruct (IH S) as [Sq E]. destruct (Service_Create_sound _ _ _ _ _ _ _ _ _ Sq Hc). split; [done|by eapply evolves_trans].
  - destruct (IH S) as [Sq E]. destruct (IH1 Sq) as [Sq1 E1].
    destruct (Service_Update_sound _ _ _ _ _ _ _ _ _ _ Sq Sq1 E1 Hc). split; [done|by eapply evolves_trans].
  - destruct (IH S) as [Sq E]. apply PublishVersion_ok in Hc as [[-> _]|(l & versionID & rest & s & route & _ & -> & _ & Hm)]; [done|].
    destruct (publish_tx_sound _ _ _ _ _ _ _ _ _ _ _ Sq Hm) as (? & ? & _). split; [done|by eapply evolves_trans].
  - destruct (IH S) as [Sq E]. destruct (others_sound _ _ Sq O). split; [done|by eapply evolves_trans].
Qed.
(** No route yet. *)
Definition no_routes (p : RouteDB) : Prop := model_routes p = ∅ /\ route_versions p = ∅ /\ route_targets p = [].
Lemma no_routes_sound p : no_routes p -> sound p.
Proof.
  intros (E1 & E2 & E3). constructor; rewrite ?E1, ?E2, ?E3; repeat intro;
    try (by simplify_map_eq); by match goal with Hin : _ ∈ [] |- _ => apply elem_of_nil in Hin end.
Qed.

(** ** Versions in time *)
Definition in_effect (t : time) (v : VersionRow) : Prop :=
  vr_EffectiveFrom v <= t /\ match vr_EffectiveTo v with Some e => t < e | None => True end.
Lemma earlier_ends p a b v w : sound p -> route_versions p !! a = Some v -> route_versions p !! b = Some w ->
  vr_RouteID v = vr_RouteID w -> vr_VersionNo v < vr_VersionNo w -> exists t, vr_EffectiveTo v = Some t /\ t <= vr_EffectiveFrom w.
Proof.
  intros S Ha Hb E Hlt. remember (Z.to_nat (vr_VersionNo w - vr_VersionNo v)) as n eqn:Hn. revert b w Hb E Hlt Hn.
  induction n as [|n IH]; intros b w Hb E Hlt Hn; [lia|]. destruct (s_row _ S _ _ Ha) as (_ & Hpos & _).
  destruct (s_prev _ S _ _ Hb ltac:(lia)) as (c & x & Hc & Hxr & Hxn & Hxt).
  destruct (s_row _ S _ _ Hc) as (_ & _ & Hx). specialize (Hx _ Hxt).
  destruct (decide (vr_VersionNo x = vr_VersionNo v)) as [Ex|Ex].
  - assert (c = a) as -> by (eapply (s_no _ S); [exact Hc|exact Ha|congruence|done]). rewrite Ha in Hc. injection Hc as <-. by exists (vr_EffectiveFrom w).
  - destruct (IH c x Hc) as (t & Ht & Hle); [congruence|lia|lia|]. exists t. split; [done|lia].
Qed.
Lemma in_effect_once p t a b v w : sound p -> route_versions p !! a = Some v -> route_versions p !! b = Some w ->
  vr_RouteID v = vr_RouteID w -> in_effect t v -> in_effect t w -> a = b.
Proof.
  intros S Ha Hb E [Hv1 Hv2] [Hw1 Hw2]. destruct (Z.lt_trichotomy (vr_VersionNo v) (vr_VersionNo w)) as [Hlt|[Heq|Hlt]].
  - destruct (earlier_ends _ _ _ _ _ S Ha Hb E Hlt) as (e & He & Hle). rewrite He in Hv2. lia.
  - by eapply (s_no _ S).
  - destruct (earlier_ends _ _ _ _ _ S Hb Ha (eq_sym E) Hlt) as (e & He & Hle). rewrite He in Hw2. lia.
Qed.
Lemma effect_exists p t k last a v : sound p -> route_versions p !! k = Some last -> vr_EffectiveTo last = None ->
  route_versions p !! a = Some v -> vr_RouteID v = vr_RouteID last -> vr_EffectiveFrom v <= t ->
  exists b w, route_versions p !! b = Some w /\ vr_RouteID w = vr_RouteID last /\ in_effect t w.
Proof.
  intros S Hk Hlast. remember (Z.to_nat (vr_VersionNo last + 1 - vr_VersionNo v)) as n eqn:Hn. revert a v Hn.
  induction n as [|n IH]; intros a v Hn Ha E Hle.
  - destruct (earlier_ends p k a last v S Hk Ha (eq_sym E)) as (e & He & _); [lia|congruence].
  - destruct (vr_EffectiveTo v) as [e|] eqn:He.
    + destruct (decide (t < e)) as [Hte|Hte]; [exists a, v; split_and!; [done|done|split; [done|by rewrite He]]|].
      destruct (s_next _ S _ _ _ Ha He) as (b & w & Hb & Hwr & Hwn & Hwf). eapply (IH b w); [lia|done|congruence|lia].
    + exists a, v. split_and!; [done|done|split; [done|by rewrite He]].
Qed.

(** C23: in every reachable state the active version of a route is its last and only open one,
    and its versions follow each other without gap or overlap: at each instant from the first
    one on, exactly one version is in effect. *)
Theorem one_version_is_in_effect p0 p id r : no_routes p0 -> history p0 p -> model_routes p !! id = Some r ->
  exists a v start, rr_ActiveVersionID r = Some a /\ route_versions p !! a = Some v /\ vr_RouteID v = id
    /\ vr_EffectiveTo v = None
    /\ (forall b w, route_versions p !! b = Some w -> vr_RouteID w = id ->
          vr_VersionNo w <= vr_VersionNo v /\ (vr_EffectiveTo w = None -> b = a))
    /\ (forall t, start <= t <-> exists b w, route_versions p !! b = Some w /\ vr_RouteID w = id /\ in_effect t w)
    /\ (forall t b c w x, route_versions p !! b = Some w -> route_versions p !! c = Some x ->
          vr_RouteID w = id -> vr_RouteID x = id -> in_effect t w -> in_effect t x -> b = c).
Proof.
  intros Hp0%no_routes_sound Hh Hr. destruct (route_history_sound _ _ Hh Hp0) as [S _].
  destruct (s_active _ S _ _ Hr) as (a & v & Ha & Hv & Hvr & Hvo). destruct (s_first _ S _ _ Hr) as (f & first & Hf & Hfr & Hfn).
  exists a, v, (vr_EffectiveFrom first). split_and!; try done.
  - intros b w Hb Hwr. split; [|intros Hwo; by eapply (s_open _ S _ _ _ _ Hb Hv); [congruence|..]].
    destruct (Z.le_gt_cases (vr_VersionNo w) (vr_VersionNo v)) as [|Hlt]; [done|].
    destruct (earlier_ends _ _ _ _ _ S Hv Hb ltac:(congruence) ltac:(lia)) as (e & He & _). congruence.
  - intros t. split.
    + intros Ht. rewrite <- Hvr. eapply effect_exists; [done|exact Hv|done|exact Hf|congruence|done].
    + intros (b & w & Hb & Hwr & [Hw _]). destruct (s_row _ S _ _ Hb) as (_ & Hpos & _).
      destruct (decide (vr_VersionNo w = 1)) as [E|E].
      * assert (b = f) as -> by (eapply (s_no _ S); [exact Hb|exact Hf|congruence|congruence]). rewrite Hf in Hb. by injection Hb as <-.
      * destruct (earlier_ends p f b first w S Hf Hb) as (e & He & Hle); [congruence|lia|].
        destruct (s_row _ S _ _ Hf) as (_ & _ & Hx). specialize (Hx _ He). lia.
  - intros t b c w x Hb Hc Hwr Hxr. eapply in_effect_once; [done|done|done|congruence].
Qed.

(** ** Resolution *)
(** What a candidate has from its target, and what was entered of it. *)
Definition stored_target (t : Target) : TargetRow :=
  {| tr_ID := t_ID t; tr_RouteVersionID := t_RouteVersionID t; tr_TargetNo := t_TargetNo t;
     tr_ProviderModelID := t_ProviderModelID t; tr_CredentialPoolID := t_CredentialPoolID t; tr_Priority := t_Priority t;
     tr_Weight := t_Weight t; tr_CommercialPolicy := t_CommercialPolicy t; tr_Enabled := t_Enabled t; tr_Metadata := t_Metadata t |}.
Definition entered_target (t : TargetRow) : TargetInput Metadata :=
  {| ti_ProviderModelID := tr_ProviderModelID t; ti_CredentialPoolID := tr_CredentialPoolID t; ti_Priority := tr_Priority t;
     ti_Weight := tr_Weight t; ti_CommercialPolicy := tr_CommercialPolicy t; ti_Enabled := tr_Enabled t; ti_Metadata := tr_Metadata t |}.
Lemma made_entered version index targets rows : made version index targets rows -> entered_target <$> rows = targets.
Proof.
  revert index rows. induction targets as [|x targets IH]; intros index [|r rows] Hm; simpl in Hm; try done.
  destruct Hm as [Hr Hm]. rewrite fmap_cons, (IH _ _ Hm). f_equal. rewrite Hr. by destruct x.
Qed.
Lemma loadTargets_rows version p : sound p -> stored_target <$> loadTargets version p = version_targets version p.
Proof.
  intros S. unfold loadTargets. assert (forall t, t ∈ version_targets version p -> is_Some (join_target p t)) as Hj.
  { intros t. unfold version_targets. rewrite merge_sort_Permutation. intros Ht. apply list_elem_of_In, filter_In in Ht as [Ht _].
    apply list_elem_of_In in Ht. by apply (s_target _ S). }
  revert Hj. generalize (version_targets version p). intros l. induction l as [|t l IH]; intros Hj; [done|].
  destruct (Hj t (list_elem_of_here _ _)) as [x Hx]. change (omap (join_target p) (t :: l)) with
    (match join_target p t with Some y => y :: omap (join_target p) l | None => omap (join_target p) l end).
  rewrite Hx, fmap_cons, IH by (intros y Hy; apply Hj; by constructor). f_equal.
  unfold join_target in Hx. destruct (provider_models p !! tr_ProviderModelID t); [|done]. simpl in Hx.
  destruct (providers p !! _); [|done]. simpl in Hx. destruct (pools p !! _); [|done]. simpl in Hx. injection Hx as <-. by destruct t.
Qed.

(** Tables that evolve from statement to statement. *)
Definition evolving (reads : Reads) : Prop := forall n, history (reads n) (reads (S n)).
Lemma evolving_later reads n : evolving reads -> sound (reads 0%nat) -> sound (reads n) /\ evolves (reads 0%nat) (reads n).
Proof.
  intros Hr S. induction n as [|n [IH E]]; [split; [done|apply evolves_refl]|].
  destruct (route_history_sound _ _ (Hr n) IH). split; [done|by eapply evolves_trans].
Qed.

Lemma getVersion_ok version reads w : getVersion version true reads = Ok w ->
  exists row, route_versions (reads 0%nat) !! version = Some row /\ w = scanVersion version row (loadTargets version (reads 1%nat)).
Proof. unfold getVersion. destruct (route_versions _ !! version) as [row|]; [|done]. intros [= <-]. by exists row. Qed.
Lemma getRoute_ok id reads route version : getRoute id true reads = Ok route -> r_ActiveVersion route = Some version ->
  exists r, model_routes (reads 0%nat) !! id = Some r /\ rr_ActiveVersionID r = Some (v_ID version)
    /\ getVersion (v_ID version) true (later_reads 1 reads) = Ok version.
Proof.
  unfold getRoute. intros Hg Hv. destruct (model_routes _ !! id) as [r|] eqn:Er; [|done]. destruct (models _ !! _) as [m|]; [|done].
  destruct (negb _); [done|]. destruct (rr_ActiveVersionID r) as [a|] eqn:Ea; [|by injection Hg as <-].
  apply result_bind_ok in Hg as (w & Hw & [= <-]). simpl in Hv. injection Hv as ->. exists r.
  pose proof (getVersion_ok _ _ _ Hw) as (row & _ & ->). done.
Qed.
Lemma find_route_some name p id r : find_route name p = Some (id, r) ->
  model_routes p !! id = Some r /\ rr_MatchValue r = name /\ undeleted r = true
  /\ exists m, models p !! rr_ModelID r = Some m /\ answers_to (rr_ModelID r) m name p = true.
Proof.
  unfold find_route. intros [Hin Hq]%find_some. apply list_elem_of_In, elem_of_map_to_list in Hin. unfold matches_route in Hq.
  rewrite !andb_true_iff in Hq. destruct Hq as [[[_ Hv%String.eqb_eq] Hu] Hm]. simpl in *.
  destruct (models p !! rr_ModelID r) as [m|]; [|done]. split_and!; [done|done|done|]. by exists m.
Qed.

Lemma resolution_candidates reads identifier res : sound (reads 0%nat) -> evolving reads -> Resolve identifier reads = Ok res ->
  exists name id r r', normalizeIdentifier identifier = Ok name /\ find_route name (reads 0%nat) = Some (id, r) /\ rr_Enabled r = true
    /\ model_routes (reads 1%nat) !! id = Some r' /\ rr_ActiveVersionID r' = Some (v_ID (rs_Version res))
    /\ stored_target <$> rs_Candidates res = version_targets (v_ID (rs_Version res)) (reads 1%nat).
Proof.
  intros S0 Hev Hres. unfold Resolve in Hres. apply result_bind_ok in Hres as (name & Hname & Hres). unfold resolve in Hres.
  destruct (find_route name (reads 0%nat)) as [[id r]|] eqn:Ef; [|done].
  destruct (rr_Enabled r) eqn:Een; [|done]. simpl in Hres. apply result_bind_ok in Hres as (route & Hg & Hres).
  destruct (r_ActiveVersion route) as [version|] eqn:Eav; [|done]. injection Hres as <-. cbn [rs_Version rs_Candidates].
  destruct (getRoute_ok _ _ _ _ Hg Eav) as (r' & Hr' & Ha & Hgv). change (later_reads 1 reads 0%nat) with (reads 1%nat) in Hr'.
  destruct (evolving_later reads 1 Hev S0) as [S1 _].
  destruct (s_active _ S1 _ _ Hr') as (a & row & Ha' & Hrow & _). rewrite Ha in Ha'. injection Ha' as <-.
  assert (evolving (later_reads 1 reads)) as Hev1 by (intros n; apply Hev).
  destruct (evolving_later (later_reads 1 reads) 2 Hev1 S1) as [S3 E3].
  apply getVersion_ok in Hgv as (row2 & _ & ->). cbn [v_ID v_Targets scanVersion] in *.
  exists name, id, r, r'. split_and!; try done.
  change (later_reads 1 (later_reads 1 reads) 1%nat) with (later_reads 1 reads 2%nat). rewrite loadTargets_rows by done.
  apply (e_targets _ _ E3). by eexists.
Qed.

(** C24: whatever commits between the statements of a resolution, its candidates are exactly
    the targets, in order, of one published version: the one that was active when the route
    was read, of an enabled route of a model that answers to the identifier; no later history
    changes them. *)
Theorem resolution_is_one_snapshot p0 reads identifier res : no_routes p0 -> history p0 (reads 0%nat) -> evolving reads ->
  Resolve identifier reads = Ok res ->
  exists name id r r' row, normalizeIdentifier identifier = Ok name
    /\ model_routes (reads 0%nat) !! id = Some r /\ rr_MatchValue r = name /\ rr_Enabled r = true
    /\ (exists m, models (reads 0%nat) !! rr_ModelID r = Some m /\ answers_to (rr_ModelID r) m name (reads 0%nat) = true)
    /\ model_routes (reads 1%nat) !! id = Some r' /\ rr_MatchValue r' = name
    /\ rr_ActiveVersionID r' = Some (v_ID (rs_Version res))
    /\ route_versions (reads 1%nat) !! v_ID (rs_Version res) = Some row /\ vr_RouteID row = id
    /\ stored_target <$> rs_Candidates res = version_targets (v_ID (rs_Version res)) (reads 1%nat)
    /\ forall q, history (reads 1%nat) q -> version_targets (v_ID (rs_Version res)) q = version_targets (v_ID (rs_Version res)) (reads 1%nat).
Proof.
  intros Hp0%no_routes_sound Hh Hev Hres. destruct (route_history_sound _ _ Hh Hp0) as [S0 _].
  destruct (resolution_candidates _ _ _ S0 Hev Hres) as (name & id & r & r' & Hname & Hf & Hen & Hr' & Ha & Hcand).
  apply find_route_some in Hf as (Hr & Hv & _ & Hm). destruct (evolving_later reads 1 Hev S0) as [S1 E1].
  destruct (e_route _ _ E1 _ _ Hr) as (r1 & Hr1 & _ & _ & Hmv). rewrite Hr' in Hr1. injection Hr1 as <-.
  destruct (s_active _ S1 _ _ Hr') as (a & row & Ha' & Hrow & Hrid & _). rewrite Ha in Ha'. injection Ha' as <-.
  eexists name, id, r, r', row. split_and!; try done; [congruence|].
  intros q Hq. destruct (route_history_sound _ _ Hq S1) as [_ E]. apply (e_targets _ _ E). by eexists.
Qed.

(** C25: what is published is what is resolved: the version a publication returns has the
    targets that were entered, and every resolution that meets this version, at any later
    time, has them as its candidates, in the order in which they were entered. *)
Theorem published_targets_are_resolved p0 p ids actor id targets req now observed p' route : no_routes p0 -> history p0 p ->
  PublishVersion ids actor id targets req now observed p = (p', Ok route) ->
  exists l version, normalizeTargets targets = Ok l /\ r_ActiveVersion route = Some version
    /\ entered_target ∘ stored_target <$> v_Targets version = l
    /\ forall reads identifier res, history p' (reads 0%nat) -> evolving reads -> Resolve identifier reads = Ok res ->
         v_ID (rs_Version res) = v_ID version -> entered_target ∘ stored_target <$> rs_Candidates res = l.
Proof.
  intros Hp0 Hh Hc. pose proof (no_routes_sound _ Hp0) as S0. destruct (route_history_sound _ _ Hh S0) as [S _].
  assert (history p0 p') as Hh' by by eapply history_publish.
  apply PublishVersion_ok in Hc as [[_ [e [=]]]|(l & versionID & rest & s & route' & Hl & -> & [= <-] & Hm)].
  destruct (publish_tx_sound _ _ _ _ _ _ _ _ _ _ _ S Hm) as (S' & _ & Hg & r & rows & Hr & Ha & Hmade & Hrows).
  destruct (s_active _ S' _ _ Hr) as (a & v & Ha' & Hv & _). rewrite Ha in Ha'. injection Ha' as <-.
  assert (exists version, r_ActiveVersion route = Some version) as [version Hver].
  { unfold getRoute, same_tables in Hg. rewrite Hr, Ha in Hg. destruct (models s.2 !! _); [|done]. destruct (negb _); [done|].
    apply result_bind_ok in Hg as (w & _ & [= <-]). by exists w. }
  destruct (getRoute_ok _ _ _ _ Hg Hver) as (r1 & Hr1 & Ha1 & Hgv). unfold same_tables in Hr1. rewrite Hr in Hr1. injection Hr1 as <-.
  rewrite Ha in Ha1. injection Ha1 as Hid. pose proof (getVersion_ok _ _ _ Hgv) as (row & _ & Hw).
  exists l, version. split_and!; [done|done| |].
  - rewrite Hw. cbn [v_Targets scanVersion]. rewrite list_fmap_compose. unfold later_reads, same_tables. rewrite loadTargets_rows by done.
    rewrite <- Hid, Hrows. by eapply made_entered.
  - intros reads identifier res Hq Hev Hres Heq. assert (sound (reads 0%nat)) as Sq by by eapply route_history_sound.
    destruct (route_history_sound _ _ Hq S') as [_ Eq]. destruct (evolving_later reads 1 Hev Sq) as [_ E1].
    destruct (resolution_candidates reads identifier res Sq Hev Hres) as (_ & _ & _ & _ & _ & _ & _ & _ & _ & Hc).
    rewrite list_fmap_compose, Hc, Heq, <- Hid. rewrite (e_targets _ _ E1), (e_targets _ _ Eq), Hrows; [by eapply made_entered|by eexists|].
    destruct (e_version _ _ Eq _ _ Hv) as (w & Hw' & _). by eexists.
Qed.
End versions.
End RouteTheorems.

(** ** A run: a route is created, its targets are replaced, it is resolved *)
Module RouteDemo.
Import RouteRepo RouteTheorems.
Import Sched(Capabilities, Build_Capabilities).
Import Coordinator(Sha256Hex).

#[local] Instance plain_text : UuidText := fun u => pretty u.
#[local] Instance plain_digest : Sha256Hex := fun s => s.
#[local] Instance no_guards : RouteGuards :=
  {| guard_route := fun _ _ => None; guard_route_version := fun _ => None; guard_target := fun _ => None;
     guard_route_audit := fun _ => None |}.

Definition chat : Capabilities := Build_Capabilities true false false true false false false.
Definition served_by (provider : uuid) (upstream : string) : ProviderModelRow :=
  {| pm_ProviderID := provider; pm_ModelID := Some 100%N; pm_UpstreamModelID := upstream; pm_Protocol := "openai_chat";
     pm_Capabilities := chat; pm_Enabled := true; pm_ReviewStatus := "approved" |}.
Definition catalogue_only : RouteDB :=
  mkRouteDB ∅ ∅ [] (<[100%N := {| cm_PublicID := "gpt"; cm_DeletedAt := None |}]> ∅)
    [{| al_ModelID := 100%N; al_Alias := "gpt-latest"; al_Enabled := true |}]
    (<[200%N := served_by 300%N "gpt-1"]> (<[201%N := served_by 301%N "gpt-1-eu"]> ∅))
    (<[300%N := {| pv_Slug := "us"; pv_ResourceType := "official_api"; pv_CommercialAllowed := true |}]>
      (<[301%N := {| pv_Slug := "eu"; pv_ResourceType := "subscription"; pv_CommercialAllowed := true |}]> ∅))
    (<[400%N := {| cp_ProviderID := 300%N; cp_Enabled := true |}]> (<[401%N := {| cp_ProviderID := 301%N; cp_Enabled := true |}]> ∅)) [].

Definition to_us (weight : Z) : TargetInput RawMetadata :=
  {| ti_ProviderModelID := 200%N; ti_CredentialPoolID := 400%N; ti_Priority := 0; ti_Weight := weight;
     ti_CommercialPolicy := ""; ti_Enabled := true; ti_Metadata := [(" Tier ", "gold")] |}.
Definition to_eu (policy : string) : TargetInput RawMetadata :=
  {| ti_ProviderModelID := 201%N; ti_CredentialPoolID := 401%N; ti_Priority := 1; ti_Weight := 5;
     ti_CommercialPolicy := policy; ti_Enabled := true; ti_Metadata := [] |}.
Definition gpt_route : CreateInput RawMetadata :=
  {| ci_ModelID := 100%N; ci_MatchType := ""; ci_MatchValue := " GPT-latest"; ci_Metadata := []; ci_Enabled := true;
     ci_Targets := [to_us 0] |}.

Definition RouteCreate_run := Service_Create [1; 2; 3; 4; 5]%N 9%N gpt_route "r1" 1000 2000 catalogue_only.
Definition routed : RouteDB := RouteCreate_run.1.
Definition Publish_run := PublishVersion [6; 7; 8; 9]%N 9%N 1%N [to_eu "deny"; to_us 3] "r2" 5000 1000 routed.
Definition republished : RouteDB := Publish_run.1.
Definition unmoved (p : RouteDB) : Reads := fun _ => p.
(** The new version is published after the route was found. *)
Definition overtaken : Reads := fun n => match n with O => routed | S _ => republished end.

Example created_run : is_ok RouteCreate_run.2 = true. Proof. vm_compute. reflexivity. Qed.
(** The clock went back: the new version starts a microsecond after the start of the old one. *)
Example windows : (fun v => (vr_VersionNo v, vr_EffectiveFrom v, vr_EffectiveTo v)) <$>
  (omap (fun a => route_versions republished !! a) [2; 6]%N) = [(1, 2000, Some 3000); (2, 3000, None)].
Proof. vm_compute. reflexivity. Qed.
Example subscriptions_are_not_sold :
  (PublishVersion [6; 7; 8]%N 9%N 1%N [to_eu "allow"] "r3" 5000 6000 routed).2 = Err ErrInvalidInput.
Proof. vm_compute. reflexivity. Qed.
Example aliases_resolve : (fun r => (v_VersionNo (rs_Version r), List.length (rs_Candidates r))) <$>
  match Resolve "gpt-LATEST " (unmoved republished) with Ok r => [r] | Err _ => [] end = [(2, 2%nat)].
Proof. vm_compute. reflexivity. Qed.
Example other_names : Resolve "gpt" (unmoved republished) = Err ErrNoRoute.
Proof. vm_compute. reflexivity. Qed.

(** *** Two updates of one route *)
(** The route is read without a lock and both columns are written: when another request
    disables the route in between, an update of the metadata enables it again. *)
Definition disable : UpdateInput RawMetadata := {| ui_Metadata := None; ui_Enabled := Some false |}.
Definition rename : UpdateInput RawMetadata := {| ui_Metadata := Some [("owner", "ops")]; ui_Enabled := None |}.
Definition Disable_run := Service_Update [20]%N 9%N 1%N disable "r4" 6000 (fun p => p) routed.
Definition Rename_run := Service_Update [21]%N 9%N 1%N rename "r5" 6000 (fun _ => Disable_run.1) routed.
Theorem an_update_can_enable_a_disabled_route :
  rr_Enabled <$> model_routes Disable_run.1 !! 1%N = Some false
  /\ ui_Enabled rename = None /\ rr_Enabled <$> model_routes Rename_run.1 !! 1%N = Some true.
Proof. vm_compute. done. Qed.
(** Two keys that differ in case: the item depends on the order of Go's map. *)
Definition tier_of (r : result error Metadata) : option string := match r with Ok m => m !! "tier" | Err _ => None end.
Example metadata_depends_on_map_order :
  tier_of (normalizeMetadata [("Tier", "gold"); ("tier", "free")]) = Some "free"
  /\ tier_of (normalizeMetadata [("tier", "free"); ("Tier", "gold")]) = Some "gold".
Proof. vm_compute. done. Qed.

(** *** The properties at the run *)
Lemma catalogue_only_empty : no_routes catalogue_only. Proof. done. Qed.
Lemma routed_history : history catalogue_only routed.
Proof. eapply history_create; [apply history_refl|apply (surjective_pairing RouteCreate_run)]. Qed.
Lemma republished_history : history routed republished.
Proof. eapply history_publish; [apply history_refl|apply (surjective_pairing Publish_run)]. Qed.
Lemma overtaken_evolving : evolving overtaken.
Proof. intros [|n]; [apply republished_history|apply history_refl]. Qed.

Lemma one_version_is_in_effect_witness : exists a v, route_versions republished !! a = Some v /\ vr_EffectiveTo v = None
  /\ rr_ActiveVersionID <$> model_routes republished !! 1%N = Some (Some a).
Proof.
  destruct (model_routes republished !! 1%N) as [r|] eqn:E; [|vm_compute in E; discriminate E].
  assert (history catalogue_only republished) as Hh.
  { eapply history_publish; [apply routed_history|apply (surjective_pairing Publish_run)]. }
  destruct (one_version_is_in_effect catalogue_only republished 1%N r catalogue_only_empty Hh E) as (a & v & _ & Ha & Hv & _ & Ho & _).
  exists a, v. split; [exact Hv|]. split; [exact Ho|]. simpl. rewrite Ha. reflexivity.
Defined.

Lemma resolution_is_one_snapshot_witness :
  exists res, Resolve "gpt-latest" overtaken = Ok res /\ tr_TargetNo <$> version_targets (v_ID (rs_Version res)) republished = [0; 1].
Proof.
  destruct (Resolve "gpt-latest" overtaken) as [res|e] eqn:E; [|vm_compute in E; discriminate E].
  destruct (resolution_is_one_snapshot catalogue_only overtaken "gpt-latest" res catalogue_only_empty routed_history overtaken_evolving E)
    as (name & id & r & r' & row & _ & _ & _ & _ & _ & _ & _ & _ & _ & _ & Hc & _).
  exists res. split; [reflexivity|]. change (overtaken 1%nat) with republished in Hc. rewrite <- Hc.
  vm_compute in E. injection E as <-. reflexivity.
Defined.

Lemma published_targets_are_resolved_witness :
  exists l, normalizeTargets [to_eu "deny"; to_us 3] = Ok l /\ List.length l = 2%nat.
Proof.
  destruct Publish_run.2 as [route|e] eqn:E; [|vm_compute in E; discriminate E].
  destruct (published_targets_are_resolved catalogue_only routed [6; 7; 8; 9]%N 9%N 1%N [to_eu "deny"; to_us 3] "r2" 5000 1000 republished route
    catalogue_only_empty routed_history) as (l & version & Hl & Hv & He & _).
  - rewrite <- E. apply (surjective_pairing Publish_run).
  - exists l. split; [exact Hl|].
    assert (match normalizeTargets [to_eu "deny"; to_us 3] with Ok x => List.length x = 2%nat | Err _ => False end) as Hn
      by (vm_compute; reflexivity). rewrite Hl in Hn. exact Hn.
Defined.
End RouteDemo.
