(* ===== verification/CredentialRepo.v ===== *)
(** * Package [internal/credential]: credentials, their secrets, pools and health

    [model.go], [service.go] and [repository.go] over the rows of [credentials],
    [credential_secrets], [credential_pools], [pool_members] and [credential_health] with the
    rules of migrations 000001, 000002, 000007 and 000009. *)

From stdpp Require Import base gmap strings list sorting.
From Stdlib Require Import ZArith Lia Ascii String.
From S2P Require Import Prelude GoLib BillingModel SchedulerModel Coordinator Secret RouteRepo.

Module CredentialRepo.
Import Coordinator(UuidParse, uuid_parse).
Import Billing(one_of).
Import Secret(Sealed, Ciphertext, Nonce, KeyVersion, Keyring, current, keys, Aead, Seal, Open, alphanumeric, version_byte,
  keyVersionPattern, Overhead, NonceSize).
Import RouteRepo(matches, identifier_start, metadata_char, btrimmed).

(** ** [model.go] *)
Inductive error :=
| ErrInvalidInput | ErrNotFound | ErrConflict | ErrSecretUnavailable | ErrSecretVersion | ErrCredentialInactive
| ErrUnsupported | ESecret (e : Secret.error) | EWrapped (what : string).

Definition SourceOAuth : string := "oauth".
Definition SourceAPIKey : string := "api_key".
Definition SourceServiceAccount : string := "service_account".
Definition SourceCustom : string := "custom".
Definition StatusActive : string := "active".
Definition StatusDisabled : string := "disabled".
Definition StatusRevoked : string := "revoked".
Definition StatusError : string := "error".
Definition SecretOAuthAccess : string := "oauth_access".
Definition SecretOAuthRefresh : string := "oauth_refresh".
Definition SecretOAuthID : string := "oauth_id".
Definition SecretAPIKey : string := "api_key".
Definition SecretServiceAcct : string := "service_account".
Definition SecretCustom : string := "custom".

(** Metadata is a list in the order in which Go ranges over the map, or a map once normalised. *)
Abbreviation RawMetadata := (list (string * string)).
Abbreviation Metadata := (gmap string string).

Record SecretDescriptor := {
  sd_ID : uuid; sd_Kind : string; sd_VersionNo : Z; sd_KeyVersion : string; sd_CreatedAt : time; sd_RotatedAt : option time
}.
Record Health := {
  h_LastSuccessAt : option time; h_LastErrorAt : option time; h_LastErrorClass : string; h_CooldownUntil : option time;
  h_ObservedAt : time; h_Metadata : Metadata
}.
Record PoolMembership := {
  ms_PoolID : uuid; ms_PoolName : string; ms_Priority : Z; ms_Weight : Z; ms_Enabled : bool
}.
Record Credential := {
  cr_ID : uuid; cr_ProviderID : uuid; cr_ProviderSlug : string; cr_ResourceType : string; cr_CommercialAllowed : bool;
  cr_ExternalStableID : string; cr_SourceKind : string; cr_Status : string; cr_MaxConcurrency : Z; cr_Region : string;
  cr_ProxyRef : string; cr_Metadata : Metadata; cr_Secrets : list SecretDescriptor; cr_Pools : list PoolMembership;
  cr_Health : Health; cr_CreatedAt : time; cr_UpdatedAt : time
}.
Record Pool := {
  po_ID : uuid; po_ProviderID : uuid; po_Name : string; po_Enabled : bool; po_Metadata : Metadata;
  po_CreatedAt : time; po_UpdatedAt : time
}.
Record SecretInput := { si_Kind : string; si_Value : string }.
Record CreateInput (M : Type) := {
  ci_ProviderID : uuid; ci_ExternalStableID : string; ci_SourceKind : string; ci_Region : string; ci_ProxyRef : string;
  ci_MaxConcurrency : Z; ci_Metadata : M; ci_Secrets : list SecretInput; ci_Enabled : bool
}.
Arguments ci_ProviderID {M}.
Arguments ci_ExternalStableID {M}.
Arguments ci_SourceKind {M}.
Arguments ci_Region {M}.
Arguments ci_ProxyRef {M}.
Arguments ci_MaxConcurrency {M}.
Arguments ci_Metadata {M}.
Arguments ci_Secrets {M}.
Arguments ci_Enabled {M}.
(** [UpdateInput]: [None] leaves the field. *)
Record UpdateInput (M : Type) := {
  ui_Region : option string; ui_ProxyRef : option string; ui_Metadata : option M; ui_Status : option string;
  ui_MaxConcurrency : option Z
}.
Arguments ui_Region {M}.
Arguments ui_ProxyRef {M}.
Arguments ui_Metadata {M}.
Arguments ui_Status {M}.
Arguments ui_MaxConcurrency {M}.
Record PoolInput (M : Type) := { pi_ProviderID : uuid; pi_Name : string; pi_Metadata : M; pi_Enabled : bool }.
Arguments pi_ProviderID {M}.
Arguments pi_Name {M}.
Arguments pi_Metadata {M}.
Arguments pi_Enabled {M}.
Record MembershipInput := { mi_CredentialID : uuid; mi_Priority : Z; mi_Weight : Z; mi_Enabled : bool }.
Record HealthInput (M : Type) := {
  hi_Succeeded : bool; hi_ErrorClass : string; hi_CooldownUntil : option time; hi_ObservedAt : time; hi_Metadata : M
}.
Arguments hi_Succeeded {M}.
Arguments hi_ErrorClass {M}.
Arguments hi_CooldownUntil {M}.
Arguments hi_ObservedAt {M}.
Arguments hi_Metadata {M}.
Record RuntimeCredential := {
  rc_CredentialID : uuid; rc_ProviderID : uuid; rc_ProviderSlug : string; rc_ExternalStableID : string; rc_SourceKind : string;
  rc_Region : string; rc_ProxyRef : string; rc_Metadata : Metadata; rc_Secrets : gmap string string
}.
Record Page := { pg_Credentials : list Credential; pg_NextCursor : string }.
Record PoolPage := { pp_Pools : list Pool; pp_NextCursor : string }.

Definition validSourceKind (value : string) : bool :=
  one_of value [SourceOAuth; SourceAPIKey; SourceServiceAccount; SourceCustom].
Definition validStatus (value : string) : bool := one_of value [StatusActive; StatusDisabled; StatusRevoked; StatusError].
Definition validSecretKind (value : string) : bool :=
  one_of value [SecretOAuthAccess; SecretOAuthRefresh; SecretOAuthID; SecretAPIKey; SecretServiceAcct; SecretCustom].
Definition sourceAllowsSecret (source kind : string) : bool :=
  if String.eqb source SourceOAuth
  then String.eqb kind SecretOAuthAccess || String.eqb kind SecretOAuthRefresh || String.eqb kind SecretOAuthID
  else if String.eqb source SourceAPIKey then String.eqb kind SecretAPIKey
  else if String.eqb source SourceServiceAccount then String.eqb kind SecretServiceAcct
  else if String.eqb source SourceCustom then String.eqb kind SecretCustom else false.

Definition dotted (c : ascii) : bool := alphanumeric c || Ascii.eqb c "." || Ascii.eqb c "_" || Ascii.eqb c "-".
Definition stable_char (c : ascii) : bool :=
  dotted c || Ascii.eqb c ":" || Ascii.eqb c "@" || Ascii.eqb c "/" || Ascii.eqb c "+".
Definition stableIDPattern : string -> bool := matches alphanumeric stable_char 254.
Definition regionPattern : string -> bool := matches alphanumeric dotted 63.
Definition proxyRefPattern : string -> bool :=
  matches alphanumeric (fun c => dotted c || Ascii.eqb c ":" || Ascii.eqb c "/") 127.
Definition metadataKeyPattern : string -> bool := matches is_lower metadata_char 63.

Definition normalizeStableID (value : string) : result error string :=
  let value := TrimSpace value in
  if stableIDPattern value then Ok value else Err ErrInvalidInput.
Definition normalizeRegion (value : string) : result error string :=
  let value := TrimSpace value in
  if negb (String.eqb value "") && negb (regionPattern value) then Err ErrInvalidInput else Ok value.

(** [url.Parse], of a text of [proxyRefPattern]: it has no query, fragment, user, escape or
    bracket.  The scheme in lower case and the host; [None] is an error. *)
Fixpoint getScheme (first : bool) (s : string) : option (string * string) :=
  match s with
  | EmptyString => None
  | String c t =>
      let more := match getScheme false t with Some (scheme, rest) => Some (String c scheme, rest) | None => None end in
      if is_upper c || is_lower c then more
      else if is_digit c || Ascii.eqb c "+" || Ascii.eqb c "-" || Ascii.eqb c "." then (if first then None else more)
      else if Ascii.eqb c ":" then Some ("", t) else None
  end.
Definition before_slash (s : string) : string := default "" (head (SplitByte "/" s)).
(** One colon at most, before a port. *)
Definition parseHost (host : string) : bool :=
  match SplitByte ":" host with
  | [_] => true
  | [_; port] => forall_bytes is_digit port
  | _ => false
  end.
Definition url_Parse (value : string) : option (string * string) :=
  if HasPrefixByte ":" value then None else
  match getScheme true value with
  | Some (scheme, rest) =>
      if HasPrefix rest "//" then
        let authority := before_slash (TrimPrefix rest "//") in
        if parseHost authority then Some (ToLower scheme, authority) else None
      else Some (ToLower scheme, "")
  | None => if ContainsByte ":" (before_slash value) then None else Some ("", "")
  end.
Definition normalizeProxyRef (value : string) : result error string :=
  let value := TrimSpace value in
  if String.eqb value "" then Ok "" else
  if negb (proxyRefPattern value) then Err ErrInvalidInput else
  match url_Parse value with
  | Some (scheme, host) =>
      if negb (String.eqb scheme "")
         && ((negb (String.eqb scheme "http") && negb (String.eqb scheme "https")) || String.eqb host "")
      then Err ErrInvalidInput else Ok value
  | None => Ok value
  end.

(** No CR and no LF. *)
Definition one_line (s : string) : bool := forall_bytes (fun c => negb (Ascii.eqb c "013" || Ascii.eqb c "010")) s.
Definition forbidden_keys : list string := ["secret"; "token"; "password"; "api_key"; "private_key"].
Fixpoint metadata_output (input : RawMetadata) (output : Metadata) : result error Metadata :=
  match input with
  | [] => Ok output
  | (key, value) :: input =>
      let key := ToLower (TrimSpace key) in
      let value := TrimSpace value in
      if negb (metadataKeyPattern key) || (256 <? slen value) || negb (one_line value) then Err ErrInvalidInput else
      if existsb (Contains key) forbidden_keys then Err ErrInvalidInput else
      if bool_decide (is_Some (output !! key)) then Err ErrInvalidInput
      else metadata_output input (<[key := value]> output)
  end.
Definition normalizeMetadata (input : RawMetadata) : result error Metadata :=
  if 32 <? Z.of_nat (List.length input) then Err ErrInvalidInput else metadata_output input ∅.

Definition formatListCursor `{UuidText} (value : Credential) : string :=
  cr_ExternalStableID value +:+ String "000" (uuid_string (cr_ID value)).
Definition parseListCursor `{UuidParse} (value : string) : result error (string * uuid) :=
  match SplitByte "000" value with
  | [first; second] =>
      stableID ← normalizeStableID first;
      if negb (String.eqb stableID first) then Err ErrInvalidInput else
      match uuid_parse second with
      | Some credentialID => if uuid_eqb credentialID uuid_nil then Err ErrInvalidInput else Ok (stableID, credentialID)
      | None => Err ErrInvalidInput
      end
  | _ => Err ErrInvalidInput
  end.

(** ** Validation in [service.go] *)
Definition maximumPageSize : Z := 100.
Definition maximumSecretBytes : Z := 1048576.

Definition validateSecretInput (input : SecretInput) (source : string) : bool :=
  let kind := TrimSpace (si_Kind input) in
  validSecretKind kind && (String.eqb source "" || sourceAllowsSecret source kind)
  && negb (slen (si_Value input) =? 0) && (slen (si_Value input) <=? maximumSecretBytes)
  && negb (contains_control (si_Value input)).
Definition hasRequiredSecret (source : string) (kinds : list string) : bool :=
  if String.eqb source SourceOAuth then one_of SecretOAuthAccess kinds
  else if String.eqb source SourceAPIKey then one_of SecretAPIKey kinds
  else if String.eqb source SourceServiceAccount then one_of SecretServiceAcct kinds
  else if String.eqb source SourceCustom then one_of SecretCustom kinds else false.
Definition trimmed_secret (input : SecretInput) : SecretInput :=
  {| si_Kind := TrimSpace (si_Kind input); si_Value := si_Value input |}.
Fixpoint validate_secrets (source : string) (seen : list string) (inputs : list SecretInput) : result error (list SecretInput) :=
  match inputs with
  | [] => if hasRequiredSecret source seen then Ok [] else Err ErrInvalidInput
  | input :: inputs =>
      let input := trimmed_secret input in
      if negb (validateSecretInput input source) then Err ErrInvalidInput else
      if one_of (si_Kind input) seen then Err ErrInvalidInput else
      l ← validate_secrets source (si_Kind input :: seen) inputs; Ok (input :: l)
  end.
Definition validateCreate (input : CreateInput RawMetadata) : result error (CreateInput Metadata) :=
  let source := TrimSpace (ci_SourceKind input) in
  if uuid_eqb (ci_ProviderID input) uuid_nil || negb (validSourceKind source) then Err ErrInvalidInput else
  stableID ← normalizeStableID (ci_ExternalStableID input);
  region ← normalizeRegion (ci_Region input);
  proxyRef ← normalizeProxyRef (ci_ProxyRef input);
  metadata ← normalizeMetadata (ci_Metadata input);
  let concurrency := if ci_MaxConcurrency input =? 0 then 1 else ci_MaxConcurrency input in
  if (concurrency <? 1) || (10000 <? concurrency) then Err ErrInvalidInput else
  let n := Z.of_nat (List.length (ci_Secrets input)) in
  if (n =? 0) || (8 <? n) then Err ErrInvalidInput else
  secrets ← validate_secrets source [] (ci_Secrets input);
  Ok {| ci_ProviderID := ci_ProviderID input; ci_ExternalStableID := stableID; ci_SourceKind := source; ci_Region := region;
        ci_ProxyRef := proxyRef; ci_MaxConcurrency := concurrency; ci_Metadata := metadata; ci_Secrets := secrets;
        ci_Enabled := ci_Enabled input |}.
(** A pointer that is given is normalised. *)
Definition given_field {A B} (o : option A) (f : A -> result error B) : result error (option B) :=
  match o with None => Ok None | Some a => b ← f a; Ok (Some b) end.
Definition emptyUpdate {M} (input : UpdateInput M) : bool :=
  match ui_Region input, ui_ProxyRef input, ui_Metadata input, ui_Status input, ui_MaxConcurrency input with
  | None, None, None, None, None => true
  | _, _, _, _, _ => false
  end.
Definition validateUpdate (input : UpdateInput RawMetadata) : result error (UpdateInput Metadata) :=
  region ← given_field (ui_Region input) normalizeRegion;
  proxyRef ← given_field (ui_ProxyRef input) normalizeProxyRef;
  metadata ← given_field (ui_Metadata input) normalizeMetadata;
  concurrency ← given_field (ui_MaxConcurrency input) (fun n => if (n <? 1) || (10000 <? n) then Err ErrInvalidInput else Ok n);
  status ← given_field (ui_Status input)
    (fun s => let value := TrimSpace s in if validStatus value then Ok value else Err ErrInvalidInput);
  Ok {| ui_Region := region; ui_ProxyRef := proxyRef; ui_Metadata := metadata; ui_Status := status;
        ui_MaxConcurrency := concurrency |}.
Definition validatePoolInput (input : PoolInput RawMetadata) : result error (PoolInput Metadata) :=
  let name := TrimSpace (pi_Name input) in
  if uuid_eqb (pi_ProviderID input) uuid_nil || String.eqb name "" || (120 <? slen name) || negb (one_line name)
  then Err ErrInvalidInput else
  metadata ← normalizeMetadata (pi_Metadata input);
  Ok {| pi_ProviderID := pi_ProviderID input; pi_Name := name; pi_Metadata := metadata; pi_Enabled := pi_Enabled input |}.
(** The checks of [RecordHealth], with the readings of the clock. *)
Definition validate_health (input : HealthInput RawMetadata) (now later : time) : result error (HealthInput Metadata) :=
  let observed := if IsZero (hi_ObservedAt input) then now else hi_ObservedAt input in
  if After observed (later + 5 * Minute) || negb (String.eqb (TrimSpace (hi_ErrorClass input)) (hi_ErrorClass input))
     || (80 <? slen (hi_ErrorClass input)) then Err ErrInvalidInput else
  metadata ← normalizeMetadata (hi_Metadata input);
  if hi_Succeeded input
  then Ok {| hi_Succeeded := true; hi_ErrorClass := ""; hi_CooldownUntil := None; hi_ObservedAt := observed;
             hi_Metadata := metadata |}
  else if String.eqb (TrimSpace (hi_ErrorClass input)) "" then Err ErrInvalidInput else
  if match hi_CooldownUntil input with Some until => Before until observed | None => false end then Err ErrInvalidInput else
  Ok {| hi_Succeeded := false; hi_ErrorClass := TrimSpace (hi_ErrorClass input); hi_CooldownUntil := hi_CooldownUntil input;
        hi_ObservedAt := observed; hi_Metadata := metadata |}.

(** ** Rows *)
Record CredRow := {
  cw_ProviderID : uuid; cw_ExternalStableID : string; cw_SourceKind : string; cw_Status : string; cw_MaxConcurrency : Z;
  cw_Region : string; cw_ProxyRef : string; cw_Metadata : Metadata; cw_CreatedAt : time; cw_UpdatedAt : time;
  cw_DeletedAt : option time
}.
Record SecretRow := {
  sr_CredentialID : uuid; sr_Kind : string; sr_VersionNo : Z; sr_Ciphertext : string; sr_Nonce : string;
  sr_KeyVersion : string; sr_CreatedAt : time; sr_RotatedAt : option time
}.
Record CredPoolRow := {
  cp_ProviderID : uuid; cp_Name : string; cp_Enabled : bool; cp_Metadata : Metadata; cp_CreatedAt : time; cp_UpdatedAt : time
}.
Record MemberRow := { mb_Priority : Z; mb_Weight : Z; mb_Enabled : bool; mb_JoinedAt : time }.
Record HealthRow := {
  hr_LastSuccessAt : option time; hr_LastErrorAt : option time; hr_LastErrorClass : option string;
  hr_CooldownUntil : option time; hr_ObservedAt : time; hr_Metadata : Metadata
}.
Record ProviderInfo := { pv_Slug : string; pv_ResourceType : string; pv_CommercialAllowed : bool }.
Record CredAudit := {
  ca_ActorUserID : uuid; ca_Action : string; ca_TargetType : string; ca_TargetID : uuid; ca_RequestID : string
}.

(** The tables of the package; [members] by pool and credential. *)
Record CredDB := mkCredDB {
  credentials : gmap uuid CredRow;
  secrets : gmap uuid SecretRow;
  pools : gmap uuid CredPoolRow;
  members : gmap (uuid * uuid) MemberRow;
  health : gmap uuid HealthRow;
  providers : gmap uuid ProviderInfo;
  cred_audits : list CredAudit
}.
Definition set_credentials (f : gmap uuid CredRow -> gmap uuid CredRow) (p : CredDB) : CredDB :=
  mkCredDB (f (credentials p)) (secrets p) (pools p) (members p) (health p) (providers p) (cred_audits p).
Definition set_secrets (f : gmap uuid SecretRow -> gmap uuid SecretRow) (p : CredDB) : CredDB :=
  mkCredDB (credentials p) (f (secrets p)) (pools p) (members p) (health p) (providers p) (cred_audits p).
Definition set_pools (f : gmap uuid CredPoolRow -> gmap uuid CredPoolRow) (p : CredDB) : CredDB :=
  mkCredDB (credentials p) (secrets p) (f (pools p)) (members p) (health p) (providers p) (cred_audits p).
Definition set_members (f : gmap (uuid * uuid) MemberRow -> gmap (uuid * uuid) MemberRow) (p : CredDB) : CredDB :=
  mkCredDB (credentials p) (secrets p) (pools p) (f (members p)) (health p) (providers p) (cred_audits p).
Definition set_health (f : gmap uuid HealthRow -> gmap uuid HealthRow) (p : CredDB) : CredDB :=
  mkCredDB (credentials p) (secrets p) (pools p) (members p) (f (health p)) (providers p) (cred_audits p).
Definition add_cred_audit (a : CredAudit) (p : CredDB) : CredDB :=
  mkCredDB (credentials p) (secrets p) (pools p) (members p) (health p) (providers p) (cred_audits p ++ [a])%list.

(** Foreign keys to other tables, encodings, the index on [lower(name)] and the audit table:
    [Some code] is the SQLSTATE the server raises. *)
Class CredGuards := {
  guard_credential : CredRow -> option string;
  guard_secret : SecretRow -> option string;
  guard_pool : CredPoolRow -> option string;
  guard_health : HealthRow -> option string;
  guard_cred_audit : CredAudit -> option string
}.
(** The order of texts in the database. *)
Class TextOrder := text_before : string -> string -> bool.

Definition ctx (A : Type) : Type := tx (list uuid * CredDB) error A.

(** [mapRepositoryError], of a SQLSTATE. *)
Definition mapRepositoryError (code : string) : error :=
  if String.eqb code "23505" then ErrConflict
  else if one_of code ["23503"; "23514"; "22P02"] then ErrInvalidInput
  else if String.eqb code "55000" then ErrConflict else EWrapped code.

(** ** Constraints *)
(** The CHECK constraints of the tables; the texts they measure are ASCII. *)
Definition credential_check (r : CredRow) : bool :=
  one_of (cw_SourceKind r) ["oauth"; "api_key"; "service_account"; "custom"]
  && one_of (cw_Status r) ["active"; "disabled"; "revoked"; "error"]
  && btrimmed (cw_ExternalStableID r) && (1 <=? slen (cw_ExternalStableID r)) && (slen (cw_ExternalStableID r) <=? 255)
  && (String.eqb (cw_Region r) "" || regionPattern (cw_Region r))
  && (String.eqb (cw_ProxyRef r) "" || proxyRefPattern (cw_ProxyRef r))
  && (1 <=? cw_MaxConcurrency r) && (cw_MaxConcurrency r <=? 10000).
Definition secret_check (r : SecretRow) : bool :=
  one_of (sr_Kind r) ["oauth_access"; "oauth_refresh"; "oauth_id"; "api_key"; "service_account"; "custom"]
  && (0 <? sr_VersionNo r) && (16 <? slen (sr_Ciphertext r)) && (slen (sr_Nonce r) =? 12)
  && keyVersionPattern (sr_KeyVersion r)
  && match sr_RotatedAt r with Some t => sr_CreatedAt r <=? t | None => true end.
(** A name has at most as many characters as bytes. *)
Definition pool_check (r : CredPoolRow) : bool :=
  btrimmed (cp_Name r) && (1 <=? slen (cp_Name r)) && (slen (cp_Name r) <=? 120).
Definition member_check (r : MemberRow) : bool := (0 <=? mb_Priority r) && (0 <? mb_Weight r).
Definition not_after (o : option time) (t : time) : bool := match o with Some x => x <=? t | None => true end.
Definition health_check (r : HealthRow) : bool :=
  match hr_LastErrorClass r with Some c => btrimmed c && (1 <=? slen c) && (slen c <=? 80) | None => true end
  && not_after (hr_LastSuccessAt r) (hr_ObservedAt r) && not_after (hr_LastErrorAt r) (hr_ObservedAt r).
(** UNIQUE (provider_id, external_stable_id). *)
Definition identity_taken (id : uuid) (r : CredRow) (p : CredDB) : bool :=
  existsb (fun kv => uuid_eqb (cw_ProviderID kv.2) (cw_ProviderID r)
                     && String.eqb (cw_ExternalStableID kv.2) (cw_ExternalStableID r) && negb (uuid_eqb kv.1 id))
    (map_to_list (credentials p)).
Definition unrotated (r : SecretRow) : bool := match sr_RotatedAt r with None => true | Some _ => false end.
Definition same_slot (a b : SecretRow) : bool :=
  uuid_eqb (sr_CredentialID a) (sr_CredentialID b) && String.eqb (sr_Kind a) (sr_Kind b).
(** UNIQUE (credential_id, secret_kind, version_no), and one secret in use of each kind. *)
Definition secret_taken (id : uuid) (r : SecretRow) (p : CredDB) : bool :=
  existsb (fun kv => same_slot kv.2 r && ((sr_VersionNo kv.2 =? sr_VersionNo r) || (unrotated kv.2 && unrotated r))
                     && negb (uuid_eqb kv.1 id)) (map_to_list (secrets p)).
Definition pool_name_taken (id : uuid) (r : CredPoolRow) (p : CredDB) : bool :=
  existsb (fun kv => String.eqb (cp_Name kv.2) (cp_Name r) && negb (uuid_eqb kv.1 id)) (map_to_list (pools p)).
(** [bablo_guard_credential_identity]. *)
Definition credential_identity_ok (old new : CredRow) : bool :=
  uuid_eqb (cw_ProviderID new) (cw_ProviderID old) && String.eqb (cw_ExternalStableID new) (cw_ExternalStableID old)
  && String.eqb (cw_SourceKind new) (cw_SourceKind old)
  && negb (String.eqb (cw_Status old) "revoked" && negb (String.eqb (cw_Status new) "revoked")).
(** [bablo_validate_credential_secret_kind]. *)
Definition secret_kind_ok (r : SecretRow) (p : CredDB) : bool :=
  match credentials p !! sr_CredentialID r with
  | None => false
  | Some c =>
      let source := cw_SourceKind c in
      negb ((String.eqb source "api_key" && negb (String.eqb (sr_Kind r) "api_key"))
            || (String.eqb source "oauth" && negb (one_of (sr_Kind r) ["oauth_access"; "oauth_refresh"; "oauth_id"]))
            || (String.eqb source "service_account" && negb (String.eqb (sr_Kind r) "service_account"))
            || (String.eqb source "custom" && negb (String.eqb (sr_Kind r) "custom")))
  end.
(** [bablo_guard_credential_secret_history]. *)
Definition secret_history_ok (old new : SecretRow) : bool :=
  same_slot new old && (sr_VersionNo new =? sr_VersionNo old) && String.eqb (sr_Ciphertext new) (sr_Ciphertext old)
  && String.eqb (sr_Nonce new) (sr_Nonce old) && String.eqb (sr_KeyVersion new) (sr_KeyVersion old)
  && (sr_CreatedAt new =? sr_CreatedAt old) && unrotated old && negb (unrotated new).
(** [bablo_validate_pool_provider]. *)
Definition pool_provider_ok (pool credential : uuid) (p : CredDB) : bool :=
  match pools p !! pool, credentials p !! credential with
  | Some q, Some c => uuid_eqb (cp_ProviderID q) (cw_ProviderID c)
  | _, _ => false
  end.

(** ** Reading *)
Definition credential_live (r : CredRow) : bool := match cw_DeletedAt r with None => true | Some _ => false end.
Definition no_health : Health :=
  {| h_LastSuccessAt := None; h_LastErrorAt := None; h_LastErrorClass := ""; h_CooldownUntil := None; h_ObservedAt := 0;
     h_Metadata := ∅ |}.
Definition scanCredential (id : uuid) (r : CredRow) (v : ProviderInfo) : Credential :=
  {| cr_ID := id; cr_ProviderID := cw_ProviderID r; cr_ProviderSlug := pv_Slug v; cr_ResourceType := pv_ResourceType v;
     cr_CommercialAllowed := pv_CommercialAllowed v; cr_ExternalStableID := cw_ExternalStableID r;
     cr_SourceKind := cw_SourceKind r; cr_Status := cw_Status r; cr_MaxConcurrency := cw_MaxConcurrency r;
     cr_Region := cw_Region r; cr_ProxyRef := cw_ProxyRef r; cr_Metadata := cw_Metadata r; cr_Secrets := []; cr_Pools := [];
     cr_Health := no_health; cr_CreatedAt := cw_CreatedAt r; cr_UpdatedAt := cw_UpdatedAt r |}.
Definition with_details (secrets : list SecretDescriptor) (pools : list PoolMembership) (health : Health) (c : Credential) : Credential :=
  {| cr_ID := cr_ID c; cr_ProviderID := cr_ProviderID c; cr_ProviderSlug := cr_ProviderSlug c;
     cr_ResourceType := cr_ResourceType c; cr_CommercialAllowed := cr_CommercialAllowed c;
     cr_ExternalStableID := cr_ExternalStableID c; cr_SourceKind := cr_SourceKind c; cr_Status := cr_Status c;
     cr_MaxConcurrency := cr_MaxConcurrency c; cr_Region := cr_Region c; cr_ProxyRef := cr_ProxyRef c;
     cr_Metadata := cr_Metadata c; cr_Secrets := secrets; cr_Pools := pools; cr_Health := health;
     cr_CreatedAt := cr_CreatedAt c; cr_UpdatedAt := cr_UpdatedAt c |}.
Definition describe (id : uuid) (r : SecretRow) : SecretDescriptor :=
  {| sd_ID := id; sd_Kind := sr_Kind r; sd_VersionNo := sr_VersionNo r; sd_KeyVersion := sr_KeyVersion r;
     sd_CreatedAt := sr_CreatedAt r; sd_RotatedAt := sr_RotatedAt r |}.
Definition loadHealth (id : uuid) (p : CredDB) : Health :=
  match health p !! id with
  | None => no_health
  | Some r => {| h_LastSuccessAt := hr_LastSuccessAt r; h_LastErrorAt := hr_LastErrorAt r;
                 h_LastErrorClass := default "" (hr_LastErrorClass r); h_CooldownUntil := hr_CooldownUntil r;
                 h_ObservedAt := hr_ObservedAt r; h_Metadata := hr_Metadata r |}
  end.
(** A call outside a transaction sees the tables anew at each statement. *)
Abbreviation Reads := (nat -> CredDB).
Definition reads_after (n : nat) (reads : Reads) : Reads := fun m => reads (n + m)%nat.
(** Inside a transaction that holds the row. *)
Definition locked (p : CredDB) : Reads := fun _ => p.

Record sealedSecret := { ss_ID : uuid; ss_Kind : string; ss_Ciphertext : string; ss_Nonce : string; ss_KeyVersion : string }.

Section repository.
Context `{CredGuards, TextOrder, Aead, UuidText, UuidParse}.

Definition secret_before (a b : uuid * SecretRow) : Prop :=
  (if String.eqb (sr_Kind a.2) (sr_Kind b.2) then sr_VersionNo b.2 <=? sr_VersionNo a.2
   else text_before (sr_Kind a.2) (sr_Kind b.2)) = true.
#[local] Instance secret_before_dec : RelDecision secret_before.
Proof. intros a b. unfold secret_before. apply _. Defined.
Definition loadSecrets (id : uuid) (p : CredDB) : list SecretDescriptor :=
  (fun kv => describe kv.1 kv.2) <$>
  merge_sort secret_before (List.filter (fun kv => uuid_eqb (sr_CredentialID kv.2) id) (map_to_list (secrets p))).
Definition membership (p : CredDB) (kv : uuid * uuid * MemberRow) : option PoolMembership :=
  q ← pools p !! kv.1.1;
  Some {| ms_PoolID := kv.1.1; ms_PoolName := cp_Name q; ms_Priority := mb_Priority kv.2; ms_Weight := mb_Weight kv.2;
          ms_Enabled := mb_Enabled kv.2 |}.
Definition membership_before (a b : PoolMembership) : Prop :=
  (if ms_Priority a =? ms_Priority b then
     if String.eqb (ms_PoolName a) (ms_PoolName b) then (ms_PoolID a <=? ms_PoolID b)%N
     else text_before (ms_PoolName a) (ms_PoolName b)
   else ms_Priority a <=? ms_Priority b) = true.
#[local] Instance membership_before_dec : RelDecision membership_before.
Proof. intros a b. unfold membership_before. apply _. Defined.
Definition loadPools (id : uuid) (p : CredDB) : list PoolMembership :=
  merge_sort membership_before (omap (membership p) (List.filter (fun kv => uuid_eqb kv.1.2 id) (map_to_list (members p)))).
Definition loadDetails (reads : Reads) (c : Credential) : Credential :=
  with_details (loadSecrets (cr_ID c) (reads 0%nat)) (loadPools (cr_ID c) (reads 1%nat)) (loadHealth (cr_ID c) (reads 2%nat)) c.
Definition get (id : uuid) (reads : Reads) : result error Credential :=
  match credentials (reads 0%nat) !! id with
  | None => Err ErrNotFound
  | Some r =>
      match providers (reads 0%nat) !! cw_ProviderID r with
      | None => Err ErrNotFound
      | Some v => if credential_live r then Ok (loadDetails (reads_after 1 reads) (scanCredential id r v)) else Err ErrNotFound
      end
  end.

Definition credential_before (a b : uuid * CredRow) : Prop :=
  (if String.eqb (cw_ExternalStableID a.2) (cw_ExternalStableID b.2) then (a.1 <=? b.1)%N
   else text_before (cw_ExternalStableID a.2) (cw_ExternalStableID b.2)) = true.
#[local] Instance credential_before_dec : RelDecision credential_before.
Proof. intros a b. unfold credential_before. apply _. Defined.
Definition after_credential (stableID : string) (id : uuid) (kv : uuid * CredRow) : bool :=
  String.eqb stableID "" || text_before stableID (cw_ExternalStableID kv.2)
  || String.eqb (cw_ExternalStableID kv.2) stableID && (id <? kv.1)%N.
Definition credential_listing (stableID : string) (id : uuid) (limit : nat) (p : CredDB) : list Credential :=
  take (limit + 1) (omap (fun kv => v ← providers p !! cw_ProviderID kv.2; Some (scanCredential kv.1 kv.2 v))
    (merge_sort credential_before
      (List.filter (fun kv => credential_live kv.2 && after_credential stableID id kv) (map_to_list (credentials p))))).
Definition list_credentials (cursor : string) (limit : nat) (reads : Reads) : result error Page :=
  start ← (if String.eqb cursor "" then Ok ("", uuid_nil)
           else match parseListCursor cursor with Ok c => Ok c | Err _ => Err ErrInvalidInput end);
  let values := credential_listing start.1 start.2 limit (reads 0%nat) in
  Ok {| pg_Credentials := imap (fun n c => loadDetails (reads_after (1 + 3 * n) reads) c) (take limit values);
        pg_NextCursor := if (limit <? List.length values)%nat
                         then match values !! (limit - 1)%nat with Some c => formatListCursor c | None => "" end else "" |}.

(** ** Writing *)
Definition raise_mapped (e : option string) : ctx unit :=
  match e with Some code => tx_fail (mapRepositoryError code) | None => mret tt end.
Definition raise_wrapped (e : option string) : ctx unit :=
  match e with Some code => tx_fail (EWrapped code) | None => mret tt end.
Definition insert_cred_audit (actor : uuid) (action kind : string) (target : uuid) (requestID : string) : ctx unit :=
  _ ← db_id (EWrapped "generate UUIDv7");
  let a := {| ca_ActorUserID := actor; ca_Action := action; ca_TargetType := kind; ca_TargetID := target;
              ca_RequestID := requestID |} in
  raise_wrapped (guard_cred_audit a);;
  db_write (add_cred_audit a).
Definition get_locked (id : uuid) : ctx Credential :=
  r ← db_read (fun p => get id (locked p));
  tx_lift r.

Definition insert_credential (id : uuid) (r : CredRow) : ctx unit :=
  db_check (credential_check r) (mapRepositoryError "23514");;
  known ← db_read (fun p => bool_decide (is_Some (credentials p !! id)) || identity_taken id r p);
  db_check (negb known) (mapRepositoryError "23505");;
  owned ← db_read (fun p => bool_decide (is_Some (providers p !! cw_ProviderID r)));
  db_check owned (mapRepositoryError "23503");;
  raise_mapped (guard_credential r);;
  db_write (set_credentials (<[id := r]>)).
Definition insert_secret (id : uuid) (r : SecretRow) : ctx unit :=
  allowed ← db_read (secret_kind_ok r);
  db_check (allowed && secret_check r) (mapRepositoryError "23514");;
  known ← db_read (fun p => bool_decide (is_Some (secrets p !! id)) || secret_taken id r p);
  db_check (negb known) (mapRepositoryError "23505");;
  raise_mapped (guard_secret r);;
  db_write (set_secrets (<[id := r]>)).
Definition fresh_health (now : time) : HealthRow :=
  {| hr_LastSuccessAt := None; hr_LastErrorAt := None; hr_LastErrorClass := None; hr_CooldownUntil := None;
     hr_ObservedAt := now; hr_Metadata := ∅ |}.
(** [ON CONFLICT DO NOTHING]. *)
Definition init_health (id : uuid) (now : time) : ctx unit :=
  known ← db_read (fun p => bool_decide (is_Some (health p !! id)));
  if known : bool then mret tt else
  raise_wrapped (guard_health (fresh_health now));;
  db_write (set_health (<[id := fresh_health now]>)).
Definition retired (at_ : time) (r : SecretRow) : SecretRow :=
  {| sr_CredentialID := sr_CredentialID r; sr_Kind := sr_Kind r; sr_VersionNo := sr_VersionNo r;
     sr_Ciphertext := sr_Ciphertext r; sr_Nonce := sr_Nonce r; sr_KeyVersion := sr_KeyVersion r;
     sr_CreatedAt := sr_CreatedAt r; sr_RotatedAt := Some at_ |}.
Definition in_use (credentialID : uuid) (kind : string) (r : SecretRow) : bool :=
  uuid_eqb (sr_CredentialID r) credentialID && String.eqb (sr_Kind r) kind && unrotated r.
(** [UPDATE credential_secrets SET rotated_at] of the rows of [which] that are in use. *)
Definition retire_secrets (which : uuid -> SecretRow -> bool) (at_ : time) : ctx unit :=
  let hit := fun i r => which i r && unrotated r in
  kept ← db_read (fun p => forallb (fun kv => negb (hit kv.1 kv.2) || secret_history_ok kv.2 (retired at_ kv.2)) (map_to_list (secrets p)));
  db_check kept (EWrapped "55000");;
  valid ← db_read (fun p => forallb (fun kv => negb (hit kv.1 kv.2) || secret_check (retired at_ kv.2)) (map_to_list (secrets p)));
  db_check valid (EWrapped "23514");;
  db_write (set_secrets (map_imap (fun i r => Some (if hit i r then retired at_ r else r)))).
Definition with_fields (status : string) (concurrency : Z) (region proxyRef : string) (metadata : Metadata) (now : time)
    (r : CredRow) : CredRow :=
  {| cw_ProviderID := cw_ProviderID r; cw_ExternalStableID := cw_ExternalStableID r; cw_SourceKind := cw_SourceKind r;
     cw_Status := status; cw_MaxConcurrency := concurrency; cw_Region := region; cw_ProxyRef := proxyRef;
     cw_Metadata := metadata; cw_CreatedAt := cw_CreatedAt r; cw_UpdatedAt := now; cw_DeletedAt := cw_DeletedAt r |}.
(** [UPDATE credentials]; [fail] is the error of a rule that is broken. *)
Definition write_credential (fail : string -> error) (id : uuid) (old new : CredRow) : ctx unit :=
  db_check (credential_identity_ok old new) (fail "55000");;
  db_check (credential_check new) (fail "23514");;
  match guard_credential new with Some code => tx_fail (fail code) | None => mret tt end;;
  db_write (set_credentials (<[id := new]>)).
Definition touched (now : time) (r : CredRow) : CredRow :=
  with_fields (cw_Status r) (cw_MaxConcurrency r) (cw_Region r) (cw_ProxyRef r) (cw_Metadata r) now r.
Definition touch (id : uuid) (now : time) : ctx unit :=
  o ← db_read (fun p => credentials p !! id);
  match o with None => mret tt | Some r => write_credential EWrapped id r (touched now r) end.

(** ** Secrets *)
Definition aad (credentialID secretID : uuid) (kind keyVersion : string) : string :=
  "bablo:credential:" +:+ uuid_string credentialID +:+ ":" +:+ uuid_string secretID +:+ ":" +:+ kind +:+ ":" +:+ keyVersion.
(** [nonce] is what the random source gives. *)
Definition sealSecret (k : Keyring) (nonce : option string) (credentialID secretID : uuid) (kind plaintext : string)
  : result error sealedSecret :=
  match Seal k nonce plaintext (aad credentialID secretID kind (current k)) with
  | Err e => Err (ESecret e)
  | Ok s => Ok {| ss_ID := secretID; ss_Kind := kind; ss_Ciphertext := Ciphertext s; ss_Nonce := Nonce s;
                  ss_KeyVersion := KeyVersion s |}
  end.
(** The sealed secrets and the identifiers that are left; one nonce for each. *)
Fixpoint sealInputs (k : Keyring) (nonces : list (option string)) (credentialID : uuid) (inputs : list SecretInput)
    (ids : list uuid) : result error (list sealedSecret * list uuid) :=
  match inputs, ids with
  | [], _ => Ok ([], ids)
  | _ :: _, [] => Err (EWrapped "generate credential secret UUIDv7")
  | input :: inputs, secretID :: ids =>
      item ← sealSecret k (default None (head nonces)) credentialID secretID (si_Kind input) (si_Value input);
      rest ← sealInputs k (tail nonces) credentialID inputs ids;
      Ok (item :: rest.1, rest.2)
  end.
Definition secret_row (credentialID : uuid) (kind : string) (version : Z) (s : sealedSecret) (now : time) : SecretRow :=
  {| sr_CredentialID := credentialID; sr_Kind := kind; sr_VersionNo := version; sr_Ciphertext := ss_Ciphertext s;
     sr_Nonce := ss_Nonce s; sr_KeyVersion := ss_KeyVersion s; sr_CreatedAt := now; sr_RotatedAt := None |}.
Definition open_secret (k : Keyring) (id : uuid) (r : SecretRow) : result Secret.error string :=
  Open k {| Ciphertext := sr_Ciphertext r; Nonce := sr_Nonce r; KeyVersion := sr_KeyVersion r |}
    (aad (sr_CredentialID r) id (sr_Kind r) (sr_KeyVersion r)).

Definition statusForCreate (enabled : bool) : string := if enabled then StatusActive else StatusDisabled.
Definition credential_row (input : CreateInput Metadata) (now : time) : CredRow :=
  {| cw_ProviderID := ci_ProviderID input; cw_ExternalStableID := ci_ExternalStableID input;
     cw_SourceKind := ci_SourceKind input; cw_Status := statusForCreate (ci_Enabled input);
     cw_MaxConcurrency := ci_MaxConcurrency input; cw_Region := ci_Region input; cw_ProxyRef := ci_ProxyRef input;
     cw_Metadata := ci_Metadata input; cw_CreatedAt := now; cw_UpdatedAt := now; cw_DeletedAt := None |}.
Fixpoint insert_secrets (credentialID : uuid) (items : list sealedSecret) (now : time) : ctx unit :=
  match items with
  | [] => mret tt
  | item :: items =>
      insert_secret (ss_ID item) (secret_row credentialID (ss_Kind item) 1 item now);;
      insert_secrets credentialID items now
  end.
Definition create_credential (id actor : uuid) (input : CreateInput Metadata) (sealed : list sealedSecret) (requestID : string)
    (now : time) : ctx Credential :=
  insert_credential id (credential_row input now);;
  insert_secrets id sealed now;;
  init_health id now;;
  insert_cred_audit actor "credential.created" "credential" id requestID;;
  get_locked id.
Definition create (ids : list uuid) (nonces : list (option string)) (k : Keyring) (actor : uuid) (input : CreateInput Metadata)
    (requestID : string) (now : time) (p : CredDB) : CredDB * result error Credential :=
  match ids with
  | [] => (p, Err (EWrapped "generate credential UUIDv7"))
  | id :: ids =>
      match sealInputs k nonces id (ci_Secrets input) ids with
      | Err e => (p, Err e)
      | Ok (sealed, ids) => db_run ids (create_credential id actor input sealed requestID now) p
      end
  end.

Definition update_credential (actor id : uuid) (input : UpdateInput Metadata) (requestID : string) (now : time) : ctx Credential :=
  c ← get_locked id;
  o ← db_read (fun p => credentials p !! id);
  match o with
  | Some r =>
      if credential_live r then
        write_credential mapRepositoryError id r
          (with_fields (default (cr_Status c) (ui_Status input)) (default (cr_MaxConcurrency c) (ui_MaxConcurrency input))
             (default (cr_Region c) (ui_Region input)) (default (cr_ProxyRef c) (ui_ProxyRef input))
             (default (cr_Metadata c) (ui_Metadata input)) now r)
      else mret tt
  | None => mret tt
  end;;
  insert_cred_audit actor "credential.updated" "credential" id requestID;;
  get_locked id.

Definition next_secret_no (credentialID : uuid) (kind : string) (p : CredDB) : Z :=
  foldr (fun kv n => if uuid_eqb (sr_CredentialID kv.2) credentialID && String.eqb (sr_Kind kv.2) kind
                     then Z.max (sr_VersionNo kv.2) n else n) 0 (map_to_list (secrets p)) + 1.
(** [now] is [NOW()] and [observed] is [clock_timestamp()]. *)
Definition rotate_secret (actor id : uuid) (kind : string) (sealed : sealedSecret) (requestID : string) (now observed : time)
  : ctx Credential :=
  c ← get_locked id;
  db_check (negb (String.eqb (cr_Status c) StatusRevoked)) ErrCredentialInactive;;
  version ← db_read (next_secret_no id kind);
  db_check (version <=? max_int64) (EWrapped "22003");;
  retire_secrets (fun _ r => uuid_eqb (sr_CredentialID r) id && String.eqb (sr_Kind r) kind) observed;;
  insert_secret (ss_ID sealed) (secret_row id kind version sealed now);;
  touch id now;;
  insert_cred_audit actor "credential.secret_rotated" "credential" id requestID;;
  get_locked id.

Definition find_in_use (id : uuid) (kind : string) (p : CredDB) : option (uuid * SecretRow) :=
  List.find (fun kv => in_use id kind kv.2) (map_to_list (secrets p)).
(** The secret in use of a kind, in a transaction of its own. *)
Definition reveal (id : uuid) (kind : string) (requireActive : bool) (p : CredDB)
  : result error (uuid * SecretRow * Credential) :=
  owner ← get id (locked p);
  if requireActive && negb (String.eqb (cr_Status owner) StatusActive) then Err ErrCredentialInactive else
  match find_in_use id kind p with
  | None => Err ErrSecretUnavailable
  | Some s => Ok (s, owner)
  end.
Definition kind_before (a b : uuid * SecretRow) : Prop :=
  (String.eqb (sr_Kind a.2) (sr_Kind b.2) || text_before (sr_Kind a.2) (sr_Kind b.2)) = true.
#[export] Instance kind_before_dec : RelDecision kind_before.
Proof. intros a b. unfold kind_before. apply _. Defined.
Definition loadRuntime (id : uuid) (p : CredDB) : result error (list (uuid * SecretRow) * Credential) :=
  owner ← get id (locked p);
  if negb (String.eqb (cr_Status owner) StatusActive) then Err ErrCredentialInactive else
  let values := merge_sort kind_before
    (List.filter (fun kv => uuid_eqb (sr_CredentialID kv.2) id && unrotated kv.2) (map_to_list (secrets p))) in
  match values with [] => Err ErrSecretUnavailable | _ => Ok (values, owner) end.
Definition reencrypt_tx (actor id : uuid) (kind : string) (expected : Z) (sealed : sealedSecret) (requestID : string)
    (now observed : time) : ctx Credential :=
  _ ← get_locked id;
  o ← db_read (find_in_use id kind);
  active ← db_some o ErrNotFound;
  db_check (sr_VersionNo active.2 =? expected) ErrConflict;;
  retire_secrets (fun i _ => uuid_eqb i active.1) observed;;
  insert_secret (ss_ID sealed) (secret_row id kind (i64_add (sr_VersionNo active.2) 1) sealed now);;
  touch id now;;
  insert_cred_audit actor "credential.secret_reencrypted" "credential" id requestID;;
  get_locked id.
Definition by_id (a b : uuid * CredRow) : Prop := (a.1 <=? b.1)%N = true.
#[local] Instance by_id_dec : RelDecision by_id.
Proof. intros a b. unfold by_id. apply _. Defined.
Definition activeCredentialIDs (p : CredDB) : list uuid :=
  fst <$> merge_sort by_id (List.filter (fun kv => String.eqb (cw_Status kv.2) "active" && credential_live kv.2)
                              (map_to_list (credentials p))).

(** ** Health *)
Definition nullableString (value : string) : option string :=
  let value := TrimSpace value in if String.eqb value "" then None else Some value.
(** The row of the INSERT; PostgreSQL stores microseconds. *)
Definition observation (input : HealthInput Metadata) : HealthRow :=
  let at_ := pg_time (hi_ObservedAt input) in
  {| hr_LastSuccessAt := if hi_Succeeded input then Some at_ else None;
     hr_LastErrorAt := if hi_Succeeded input then None else Some at_;
     hr_LastErrorClass := nullableString (hi_ErrorClass input);
     hr_CooldownUntil := pg_time <$> hi_CooldownUntil input; hr_ObservedAt := at_; hr_Metadata := hi_Metadata input |}.
(** [DO UPDATE SET]. *)
Definition merged (old new : HealthRow) : HealthRow :=
  {| hr_LastSuccessAt := match hr_LastSuccessAt new with Some t => Some t | None => hr_LastSuccessAt old end;
     hr_LastErrorAt := match hr_LastErrorAt new with Some t => Some t | None => hr_LastErrorAt old end;
     hr_LastErrorClass := match hr_LastErrorAt new with Some _ => hr_LastErrorClass new | None => hr_LastErrorClass old end;
     hr_CooldownUntil := hr_CooldownUntil new; hr_ObservedAt := hr_ObservedAt new; hr_Metadata := hr_Metadata new |}.
(** The values of the statement are encoded first (a text or a metadata with a NUL is refused
    there, [guard_health]), then the proposed row is checked, then the one that is there. *)
Definition recordHealth (id : uuid) (input : HealthInput Metadata) (p : CredDB) : CredDB * result error unit :=
  let new := observation input in
  let write (r : HealthRow) :=
    if negb (health_check r) then (p, Err (EWrapped "23514")) else (set_health (<[id := r]>) p, Ok tt) in
  match guard_health new with
  | Some code => (p, Err (EWrapped code))
  | None =>
  if negb (health_check new) then (p, Err (EWrapped "23514")) else
  match health p !! id with
  | None => if bool_decide (is_Some (credentials p !! id)) then write new else (p, Err (EWrapped "23503"))
  | Some old => if hr_ObservedAt old <=? hr_ObservedAt new then write (merged old new) else (p, Ok tt)
  end
  end.

(** ** Pools *)
Definition pool_of (id : uuid) (r : CredPoolRow) : Pool :=
  {| po_ID := id; po_ProviderID := cp_ProviderID r; po_Name := cp_Name r; po_Enabled := cp_Enabled r;
     po_Metadata := cp_Metadata r; po_CreatedAt := cp_CreatedAt r; po_UpdatedAt := cp_UpdatedAt r |}.
Definition getPool (id : uuid) (p : CredDB) : result error Pool :=
  match pools p !! id with Some r => Ok (pool_of id r) | None => Err ErrNotFound end.
Definition pool_row (input : PoolInput Metadata) (now : time) : CredPoolRow :=
  {| cp_ProviderID := pi_ProviderID input; cp_Name := pi_Name input; cp_Enabled := pi_Enabled input;
     cp_Metadata := pi_Metadata input; cp_CreatedAt := now; cp_UpdatedAt := now |}.
Definition insert_pool (id : uuid) (r : CredPoolRow) : ctx unit :=
  db_check (pool_check r) (mapRepositoryError "23514");;
  known ← db_read (fun p => bool_decide (is_Some (pools p !! id)) || pool_name_taken id r p);
  db_check (negb known) (mapRepositoryError "23505");;
  owned ← db_read (fun p => bool_decide (is_Some (providers p !! cp_ProviderID r)));
  db_check owned (mapRepositoryError "23503");;
  raise_mapped (guard_pool r);;
  db_write (set_pools (<[id := r]>)).
Definition createPool_tx (id actor : uuid) (input : PoolInput Metadata) (requestID : string) (now : time) : ctx Pool :=
  insert_pool id (pool_row input now);;
  insert_cred_audit actor "credential_pool.created" "credential_pool" id requestID;;
  r ← db_read (getPool id);
  tx_lift r.
Definition pool_before (a b : uuid * CredPoolRow) : Prop :=
  (if String.eqb (cp_Name a.2) (cp_Name b.2) then (a.1 <=? b.1)%N else text_before (cp_Name a.2) (cp_Name b.2)) = true.
#[local] Instance pool_before_dec : RelDecision pool_before.
Proof. intros a b. unfold pool_before. apply _. Defined.
Definition listPools (providerID : uuid) (cursor : string) (limit : nat) (p : CredDB) : PoolPage :=
  let pools_ := take (limit + 1) ((fun kv => pool_of kv.1 kv.2) <$> merge_sort pool_before
    (List.filter (fun kv => uuid_eqb (cp_ProviderID kv.2) providerID && text_before cursor (cp_Name kv.2))
       (map_to_list (pools p)))) in
  {| pp_Pools := take limit pools_;
     pp_NextCursor := if (limit <? List.length pools_)%nat
                      then match pools_ !! (limit - 1)%nat with Some q => po_Name q | None => "" end else "" |}.
Definition member_row (input : MembershipInput) (joined : time) : MemberRow :=
  {| mb_Priority := mi_Priority input; mb_Weight := mi_Weight input; mb_Enabled := mi_Enabled input; mb_JoinedAt := joined |}.
(** [ON CONFLICT DO UPDATE] keeps the time of joining. *)
Definition addMember_tx (actor pool : uuid) (input : MembershipInput) (requestID : string) (now : time) : ctx unit :=
  db_check (mi_Priority input <=? 2147483647) (EWrapped "encode int4");;
  related ← db_read (pool_provider_ok pool (mi_CredentialID input));
  o ← db_read (fun p => members p !! (pool, mi_CredentialID input));
  let r := member_row input match o with Some m => mb_JoinedAt m | None => now end in
  db_check (related && member_check r) (mapRepositoryError "23514");;
  db_write (set_members (<[(pool, mi_CredentialID input) := r]>));;
  insert_cred_audit actor "credential_pool.member_upserted" "credential_pool" pool requestID.
Definition removeMember_tx (actor pool credentialID : uuid) (requestID : string) : ctx unit :=
  db_write (set_members (delete (pool, credentialID)));;
  insert_cred_audit actor "credential_pool.member_removed" "credential_pool" pool requestID.

(** ** The service *)
Definition Service_Create (ids : list uuid) (nonces : list (option string)) (k : Keyring) (actorID : uuid)
    (input : CreateInput RawMetadata) (requestID : string) (now : time) (p : CredDB) : CredDB * result error Credential :=
  if uuid_eqb actorID uuid_nil then (p, Err ErrInvalidInput) else
  match validateCreate input with
  | Err e => (p, Err e)
  | Ok validated => create ids nonces k actorID validated requestID now p
  end.
Definition Service_Get (credentialID : uuid) (reads : Reads) : result error Credential :=
  if uuid_eqb credentialID uuid_nil then Err ErrInvalidInput else get credentialID reads.
Definition page_limit (limit : Z) : result error nat :=
  let limit := if limit =? 0 then 50 else limit in
  if (limit <? 1) || (maximumPageSize <? limit) then Err ErrInvalidInput else Ok (Z.to_nat limit).
Definition Service_List (cursor : string) (limit : Z) (reads : Reads) : result error Page :=
  let cursor := TrimSpace cursor in
  _ ← (if String.eqb cursor "" then Ok tt else match parseListCursor cursor with Ok _ => Ok tt | Err _ => Err ErrInvalidInput end);
  n ← page_limit limit;
  list_credentials cursor n reads.
Definition Service_Update (ids : list uuid) (actorID credentialID : uuid) (input : UpdateInput RawMetadata) (requestID : string)
    (now : time) (p : CredDB) : CredDB * result error Credential :=
  if uuid_eqb actorID uuid_nil || uuid_eqb credentialID uuid_nil || emptyUpdate input then (p, Err ErrInvalidInput) else
  match validateUpdate input with
  | Err e => (p, Err e)
  | Ok validated => db_run ids (update_credential actorID credentialID validated requestID now) p
  end.
Definition Service_Rotate (ids : list uuid) (nonce : option string) (k : Keyring) (actorID credentialID : uuid)
    (input : SecretInput) (requestID : string) (now observed : time) (p : CredDB) : CredDB * result error Credential :=
  if uuid_eqb actorID uuid_nil || uuid_eqb credentialID uuid_nil then (p, Err ErrInvalidInput) else
  let input := trimmed_secret input in
  if negb (validateSecretInput input "") then (p, Err ErrInvalidInput) else
  match ids with
  | [] => (p, Err (EWrapped "generate credential secret UUIDv7"))
  | secretID :: ids =>
      match sealSecret k nonce credentialID secretID (si_Kind input) (si_Value input) with
      | Err e => (p, Err e)
      | Ok sealed => db_run ids (rotate_secret actorID credentialID (si_Kind input) sealed requestID now observed) p
      end
  end.
Definition runtime_of (owner : Credential) (values : gmap string string) : RuntimeCredential :=
  {| rc_CredentialID := cr_ID owner; rc_ProviderID := cr_ProviderID owner; rc_ProviderSlug := cr_ProviderSlug owner;
     rc_ExternalStableID := cr_ExternalStableID owner; rc_SourceKind := cr_SourceKind owner; rc_Region := cr_Region owner;
     rc_ProxyRef := cr_ProxyRef owner; rc_Metadata := cr_Metadata owner; rc_Secrets := values |}.
Definition Reveal (k : Keyring) (credentialID : uuid) (kind : string) (p : CredDB) : result error RuntimeCredential :=
  if uuid_eqb credentialID uuid_nil || negb (validSecretKind kind) then Err ErrInvalidInput else
  stored ← reveal credentialID kind true p;
  match open_secret k stored.1.1 stored.1.2 with
  | Ok plaintext => Ok (runtime_of stored.2 {[kind := plaintext]})
  | Err _ => Err ErrSecretUnavailable
  end.
Fixpoint open_all (k : Keyring) (stored : list (uuid * SecretRow)) (values : gmap string string)
  : result error (gmap string string) :=
  match stored with
  | [] => Ok values
  | (id, r) :: stored =>
      match open_secret k id r with
      | Ok plaintext => open_all k stored (<[sr_Kind r := plaintext]> values)
      | Err _ => Err ErrSecretUnavailable
      end
  end.
Definition RevealAll (k : Keyring) (credentialID : uuid) (p : CredDB) : result error RuntimeCredential :=
  if uuid_eqb credentialID uuid_nil then Err ErrInvalidInput else
  stored ← loadRuntime credentialID p;
  values ← open_all k stored.1 ∅;
  Ok (runtime_of stored.2 values).
(** What [sink] was given, and the result; [sink n] answers to its [n]-th call. *)
Fixpoint for_each (k : Keyring) (sink : nat -> RuntimeCredential -> option error) (n : nat) (ids : list uuid) (reads : Reads)
  : list RuntimeCredential * result error unit :=
  match ids with
  | [] => ([], Ok tt)
  | id :: ids =>
      match RevealAll k id (reads 0%nat) with
      | Err ErrCredentialInactive | Err ErrNotFound => for_each k sink n ids (reads_after 1 reads)
      | Err e => ([], Err e)
      | Ok value =>
          match sink n value with
          | Some e => ([value], Err e)
          | None => let rest := for_each k sink (S n) ids (reads_after 1 reads) in (value :: rest.1, rest.2)
          end
      end
  end.
Definition ForEachActive (k : Keyring) (sink : nat -> RuntimeCredential -> option error) (reads : Reads)
  : list RuntimeCredential * result error unit :=
  for_each k sink 0 (activeCredentialIDs (reads 0%nat)) (reads_after 1 reads).
(** [others] commit between the two transactions. *)
Definition Reencrypt (ids : list uuid) (nonce : option string) (k : Keyring) (actorID credentialID : uuid) (kind requestID : string)
    (now observed : time) (others : CredDB -> CredDB) (p : CredDB) : CredDB * result error Credential :=
  if uuid_eqb actorID uuid_nil || uuid_eqb credentialID uuid_nil || negb (validSecretKind kind) then (p, Err ErrInvalidInput) else
  match reveal credentialID kind false p with
  | Err e => (p, Err e)
  | Ok (storedID, stored, _) =>
      match open_secret k storedID stored, ids with
      | Err _, _ => (p, Err ErrSecretUnavailable)
      | Ok _, [] => (p, Err (EWrapped "generate re-encrypted credential secret UUIDv7"))
      | Ok plaintext, secretID :: ids =>
          match sealSecret k nonce credentialID secretID kind plaintext with
          | Err e => (p, Err e)
          | Ok sealed =>
              db_run ids (reencrypt_tx actorID credentialID kind (sr_VersionNo stored) sealed requestID now observed) (others p)
          end
      end
  end.
(** [now] and [later] are the readings of the clock of the service. *)
Definition RecordHealth (credentialID : uuid) (input : HealthInput RawMetadata) (now later : time) (p : CredDB)
  : CredDB * result error unit :=
  if uuid_eqb credentialID uuid_nil then (p, Err ErrInvalidInput) else
  match validate_health input now later with
  | Err e => (p, Err e)
  | Ok validated => recordHealth credentialID validated p
  end.
Definition CreatePool (ids : list uuid) (actorID : uuid) (input : PoolInput RawMetadata) (requestID : string) (now : time)
    (p : CredDB) : CredDB * result error Pool :=
  if uuid_eqb actorID uuid_nil || uuid_eqb (pi_ProviderID input) uuid_nil then (p, Err ErrInvalidInput) else
  match validatePoolInput input, ids with
  | Err e, _ => (p, Err e)
  | Ok _, [] => (p, Err (EWrapped "generate credential pool UUIDv7"))
  | Ok validated, id :: ids => db_run ids (createPool_tx id actorID validated requestID now) p
  end.
Definition ListPools (providerID : uuid) (cursor : string) (limit : Z) (p : CredDB) : result error PoolPage :=
  if uuid_eqb providerID uuid_nil || (120 <? slen cursor) then Err ErrInvalidInput else
  n ← page_limit limit;
  Ok (listPools providerID (TrimSpace cursor) n p).
Definition AddMember (ids : list uuid) (actorID poolID : uuid) (input : MembershipInput) (requestID : string) (now : time)
    (p : CredDB) : CredDB * result error unit :=
  if uuid_eqb actorID uuid_nil || uuid_eqb poolID uuid_nil || uuid_eqb (mi_CredentialID input) uuid_nil
     || (mi_Priority input <? 0) || (mi_Weight input <? 1) || (1000 <? mi_Weight input) then (p, Err ErrInvalidInput)
  else db_run ids (addMember_tx actorID poolID input requestID now) p.
Definition RemoveMember (ids : list uuid) (actorID poolID credentialID : uuid) (requestID : string) (p : CredDB)
  : CredDB * result error unit :=
  if uuid_eqb actorID uuid_nil || uuid_eqb poolID uuid_nil || uuid_eqb credentialID uuid_nil then (p, Err ErrInvalidInput)
  else db_run ids (removeMember_tx actorID poolID credentialID requestID) p.
End repository.
End CredentialRepo.
