(* ===== verification/CredentialTheorems.v ===== *)
(** * Properties of credentials and their secrets

    What the transactions of [internal/credential] do to the secrets of a credential,
    histories of calls, and the properties of secrets and health; module [CredentialDemo]: a run. *)

From stdpp Require Import base gmap strings list sorting pretty.
From Stdlib Require Import ZArith Lia Ascii String.
From S2P Require Import Prelude GoLib BillingModel SchedulerModel Coordinator Secret PaymentDemo RouteRepo CredentialRepo.

Module CredentialTheorems.
Import CredentialRepo.
Import Coordinator(UuidParse).
Import Billing(one_of).
Import Secret(Keyring, current, keys, Aead, AeadLaws, Seal, Open, aead_seal, NonceSize, KeyVersion, Ciphertext, Nonce, Open_Seal).

Lemma same_slot_iff a b : same_slot a b = true <-> sr_CredentialID a = sr_CredentialID b /\ sr_Kind a = sr_Kind b.
Proof. unfold same_slot. by rewrite andb_true_iff, uuid_eqb_eq, String.eqb_eq. Qed.
Lemma unrotated_iff r : unrotated r = true <-> sr_RotatedAt r = None.
Proof. unfold unrotated. by destruct (sr_RotatedAt r). Qed.
Definition slot_is (c : uuid) (kind : string) (r : SecretRow) : bool := uuid_eqb (sr_CredentialID r) c && String.eqb (sr_Kind r) kind.
Lemma slot_iff c kind r : slot_is c kind r = true <-> sr_CredentialID r = c /\ sr_Kind r = kind.
Proof. unfold slot_is. by rewrite andb_true_iff, uuid_eqb_eq, String.eqb_eq. Qed.

(** ** What statements do *)
Section statements.
Context `{CredGuards, TextOrder, Aead, UuidText, UuidParse}.

Lemma raise_mapped_ok e s s' u : raise_mapped e s = Ok (s', u) -> s' = s.
Proof. unfold raise_mapped. destruct e; [done|by intros [= <-]]. Qed.
Lemma raise_wrapped_ok e s s' u : raise_wrapped e s = Ok (s', u) -> s' = s.
Proof. unfold raise_wrapped. destruct e; [done|by intros [= <-]]. Qed.
Ltac raises := repeat match goal with
  | Hr : raise_mapped _ _ = Ok _ |- _ => apply raise_mapped_ok in Hr; subst
  | Hr : raise_wrapped _ _ = Ok _ |- _ => apply raise_wrapped_ok in Hr; subst end; db_inv.

Lemma insert_credential_ok id r ids p s' u : insert_credential id r (ids, p) = Ok (s', u) ->
  s' = (ids, set_credentials (<[id := r]>) p) /\ credentials p !! id = None /\ is_Some (providers p !! cw_ProviderID r).
Proof.
  unfold insert_credential. intros Hm. db_inv. raises. bools. split_and!; try done.
  apply eq_None_not_Some. done.
Qed.
Lemma insert_secret_ok id r ids p s' u : insert_secret id r (ids, p) = Ok (s', u) ->
  s' = (ids, set_secrets (<[id := r]>) p) /\ secrets p !! id = None /\ secret_taken id r p = false
  /\ secret_kind_ok r p = true /\ secret_check r = true.
Proof.
  unfold insert_secret. intros Hm. db_inv. raises. bools. split_and!; try done. apply eq_None_not_Some. done.
Qed.
(** Tables other than the two the properties are about. *)
Definition frame (p q : CredDB) : Prop := credentials q = credentials p /\ secrets q = secrets p /\ providers q = providers p.
Lemma init_health_ok id now ids p s' u : init_health id now (ids, p) = Ok (s', u) -> exists q, s' = (ids, q) /\ frame p q.
Proof.
  unfold init_health. intros Hm. db_inv. destruct (bool_decide _); db_inv; [by eexists|]. raises. by eexists.
Qed.
Lemma insert_cred_audit_ok actor action kind target req ids p s' u :
  insert_cred_audit actor action kind target req (ids, p) = Ok (s', u) -> exists rest q, s' = (rest, q) /\ frame p q.
Proof. unfold insert_cred_audit. intros Hm. db_inv. cbv zeta in *. raises. by eexists _, _. Qed.
Lemma get_locked_ok id ids p s' c : get_locked id (ids, p) = Ok (s', c) -> s' = (ids, p) /\ get id (locked p) = Ok c.
Proof. unfold get_locked. intros Hm. by db_inv. Qed.
Lemma retire_secrets_ok which at_ ids p s' u : retire_secrets which at_ (ids, p) = Ok (s', u) ->
  s' = (ids, set_secrets (map_imap (fun i r => Some (if which i r && unrotated r then retired at_ r else r))) p).
Proof. unfold retire_secrets. cbv zeta. intros Hm. by db_inv. Qed.
Lemma write_credential_ok fail id old new ids p s' u : write_credential fail id old new (ids, p) = Ok (s', u) ->
  s' = (ids, set_credentials (<[id := new]>) p) /\ credential_identity_ok old new = true.
Proof.
  unfold write_credential. intros Hm. db_inv. destruct (guard_credential new); [done|]. by db_inv.
Qed.
Lemma touch_ok id now ids p s' u : touch id now (ids, p) = Ok (s', u) ->
  exists q, s' = (ids, q) /\ secrets q = secrets p /\ providers q = providers p
    /\ (credentials q = credentials p \/ exists r, credentials p !! id = Some r /\ credentials q = <[id := touched now r]> (credentials p)).
Proof.
  unfold touch. intros Hm. db_inv. destruct (credentials p !! id) as [r|]; [|db_inv; eexists; split_and!; by try left].
  apply write_credential_ok in Hm as [-> _]. eexists. split_and!; [done..|]. right. by exists r.
Qed.
Lemma get_ok id p c : get id (locked p) = Ok c -> exists r v, credentials p !! id = Some r /\ providers p !! cw_ProviderID r = Some v
  /\ credential_live r = true /\ c = loadDetails (reads_after 1 (locked p)) (scanCredential id r v).
Proof.
  unfold get, locked. destruct (credentials p !! id) as [r|]; [|done]. destruct (providers p !! _) as [v|] eqn:Ev; [|done].
  destruct (credential_live r) eqn:El; [|done]. intros [= <-]. by exists r, v.
Qed.
Lemma get_Status id p c r : get id (locked p) = Ok c -> credentials p !! id = Some r -> cr_Status c = cw_Status r /\ cr_ID c = id.
Proof. intros (r' & v & Hr & _ & _ & ->)%get_ok Hr'. rewrite Hr in Hr'. by injection Hr' as <-. Qed.
End statements.

(** ** What the secrets of a credential are *)
(** What was entered, the last one first: the credential, the kind and the plaintext. *)
Abbreviation Log := (list (uuid * string * string)).
Fixpoint latest (log : Log) (c : uuid) (kind : string) : option string :=
  match log with
  | [] => None
  | (c', kind', plaintext) :: log => if uuid_eqb c' c && String.eqb kind' kind then Some plaintext else latest log c kind
  end.
Lemma latest_here log c kind t : latest ((c, kind, t) :: log) c kind = Some t.
Proof. simpl. by rewrite (proj2 (uuid_eqb_eq c c)), String.eqb_refl. Qed.
Lemma latest_other log c kind t c' kind' : (c', kind') <> (c, kind) -> latest ((c, kind, t) :: log) c' kind' = latest log c' kind'.
Proof.
  intros Hne. simpl. destruct (uuid_eqb c c' && String.eqb kind kind') eqn:E; [|done].
  apply andb_true_iff in E as [->%uuid_eqb_eq ->%String.eqb_eq]. done.
Qed.

Section vaults.
Context `{CredGuards, TextOrder, Aead, UuidText, UuidParse}.

(** [KM] has every key that was ever current; a row is [plaintext] sealed with one of them. *)
Definition sealed_as (KM : gmap string string) (i : uuid) (r : SecretRow) (plaintext : string) : Prop :=
  exists key, KM !! sr_KeyVersion r = Some key /\ slen (sr_Nonce r) = NonceSize /\ plaintext <> ""
    /\ sr_Ciphertext r = aead_seal key (sr_Nonce r) plaintext (aad (sr_CredentialID r) i (sr_Kind r) (sr_KeyVersion r)).
Record vault (KM : gmap string string) (log : Log) (p : CredDB) : Prop := {
  v_sealed : forall i r, secrets p !! i = Some r -> exists t, sealed_as KM i r t
    /\ (sr_RotatedAt r = None -> latest log (sr_CredentialID r) (sr_Kind r) = Some t);
  v_owner : forall i r, secrets p !! i = Some r -> is_Some (credentials p !! sr_CredentialID r);
  v_once : forall i j r s, secrets p !! i = Some r -> secrets p !! j = Some s -> same_slot r s = true ->
    sr_RotatedAt r = None -> sr_RotatedAt s = None -> i = j;
  v_pos : forall i r, secrets p !! i = Some r -> 1 <= sr_VersionNo r <= max_int64;
  v_no : forall i j r s, secrets p !! i = Some r -> secrets p !! j = Some s -> same_slot r s = true ->
    sr_VersionNo r = sr_VersionNo s -> i = j;
  v_dense : forall i r, secrets p !! i = Some r -> 1 < sr_VersionNo r -> exists j s, secrets p !! j = Some s
    /\ same_slot s r = true /\ sr_VersionNo s = sr_VersionNo r - 1;
  v_top : forall i r, secrets p !! i = Some r -> exists j s, secrets p !! j = Some s /\ same_slot s r = true
    /\ sr_RotatedAt s = None /\ sr_VersionNo r <= sr_VersionNo s;
  v_log : forall c kind t, latest log c kind = Some t -> exists i r, secrets p !! i = Some r /\ sr_CredentialID r = c
    /\ sr_Kind r = kind /\ sr_RotatedAt r = None
}.

Lemma open_sealed `{!AeadLaws _} KM k i r t : KM ⊆ keys k -> sealed_as KM i r t -> open_secret k i r = Ok t.
Proof.
  intros Hk (key & Hkey & Hn & Ht & Hc). unfold open_secret. rewrite Hc.
  rewrite (Open_Seal {| current := sr_KeyVersion r; keys := KM |} k (sr_Nonce r) t); [|done|done|unfold Seal; simpl; by rewrite Hkey].
  by apply String.eqb_neq in Ht as ->.
Qed.
Lemma sealSecret_sealed KM k nonce c i kind t s version now : keys k ⊆ KM -> (forall n, nonce = Some n -> slen n = NonceSize) -> t <> "" ->
  sealSecret k nonce c i kind t = Ok s -> ss_ID s = i /\ ss_Kind s = kind /\ sealed_as KM i (secret_row c kind version s now) t.
Proof.
  intros Hk Hn Ht. unfold sealSecret, Seal. destruct (keys k !! current k) as [key|] eqn:Ek; [|done].
  destruct nonce as [nonce|]; [|done]. intros [= <-]. split_and!; [done..|]. exists key. simpl.
  split_and!; [by eapply lookup_weaken|by apply Hn|done|done].
Qed.

Lemma next_secret_no_spec c kind p :
  (forall i r, secrets p !! i = Some r -> sr_CredentialID r = c -> sr_Kind r = kind -> sr_VersionNo r < next_secret_no c kind p)
  /\ (next_secret_no c kind p = 1 \/ exists i r, secrets p !! i = Some r /\ sr_CredentialID r = c /\ sr_Kind r = kind
        /\ sr_VersionNo r = next_secret_no c kind p - 1).
Proof.
  unfold next_secret_no. destruct (map_max_spec (slot_is c kind) sr_VersionNo (secrets p)) as [M1 M2]. unfold slot_is in *. split.
  - intros i r Hr Hc Hkind. specialize (M1 i r Hr). rewrite Hc, Hkind, String.eqb_refl, (proj2 (uuid_eqb_eq c c)) in M1 by done.
    specialize (M1 eq_refl). lia.
  - destruct M2 as [-> |(i & r & Hr & Hs & Hn)]; [by left|right]. apply slot_iff in Hs as [Hc Hkind]. exists i, r.
    split_and!; [done..|]. lia.
Qed.

(** *** A secret replaces the one in use of its kind *)
Definition retire_slot (c : uuid) (kind : string) (at_ : time) (m : gmap uuid SecretRow) : gmap uuid SecretRow :=
  map_imap (fun _ r => Some (if slot_is c kind r && unrotated r then retired at_ r else r)) m.
Section replaced.
Context (KM : gmap string string) (log : Log) (p q : CredDB) (c : uuid) (kind : string) (at_ : time) (i : uuid) (r : SecretRow) (t : string).
Context (V : vault KM log p) (Eq : secrets q = <[i := r]> (retire_slot c kind at_ (secrets p)))
  (Hown : forall j, is_Some (credentials p !! j) -> is_Some (credentials q !! j)) (Hc : is_Some (credentials q !! c))
  (Hi : secrets p !! i = None) (Hrc : sr_CredentialID r = c) (Hrk : sr_Kind r = kind) (Hro : sr_RotatedAt r = None)
  (Hrn : sr_VersionNo r = next_secret_no c kind p) (Hmax : sr_VersionNo r <= max_int64) (Hrs : sealed_as KM i r t).

Definition after_retire (x : SecretRow) : SecretRow := if slot_is c kind x && unrotated x then retired at_ x else x.
Lemma after_retire_slot x y : same_slot (after_retire x) y = same_slot x y.
Proof. unfold after_retire. by destruct (_ && _). Qed.
Lemma after_retire_no x : sr_VersionNo (after_retire x) = sr_VersionNo x.
Proof. unfold after_retire. by destruct (_ && _). Qed.
Lemma after_retire_owner x : sr_CredentialID (after_retire x) = sr_CredentialID x.
Proof. unfold after_retire. by destruct (_ && _). Qed.
Lemma after_retire_open x : sr_RotatedAt (after_retire x) = None -> after_retire x = x /\ slot_is c kind x = false.
Proof.
  unfold after_retire. destruct (slot_is c kind x) eqn:Es; simpl; [|done]. destruct (unrotated x) eqn:Eu; [done|].
  intros Hx. by apply unrotated_iff in Hx; rewrite Hx in Eu.
Qed.
Lemma replaced_case j x : secrets q !! j = Some x -> j = i /\ x = r \/ exists y, secrets p !! j = Some y /\ x = after_retire y.
Proof.
  rewrite Eq. intros [[<- <-]|[Hj Hx]]%lookup_insert_Some; [by left|right]. unfold retire_slot in Hx. rewrite map_lookup_imap in Hx.
  destruct (secrets p !! j) as [y|]; [|done]. injection Hx as <-. by exists y.
Qed.
Lemma replaced_old j y : secrets p !! j = Some y -> secrets q !! j = Some (after_retire y).
Proof.
  intros Hy. rewrite Eq, lookup_insert_ne by congruence. unfold retire_slot. by rewrite map_lookup_imap, Hy.
Qed.
Lemma replaced_new : secrets q !! i = Some r.
Proof. rewrite Eq. apply lookup_insert_eq. Qed.
Lemma replaced_slot j y : secrets p !! j = Some y -> same_slot y r = true -> sr_VersionNo y < sr_VersionNo r.
Proof.
  intros Hy [Hyc Hyk]%same_slot_iff. rewrite Hrn. eapply next_secret_no_spec; [done|congruence|congruence].
Qed.
Lemma slot_of_r y : same_slot y r = slot_is c kind y.
Proof. unfold same_slot, slot_is. by rewrite Hrc, Hrk. Qed.
Lemma same_slot_sym x y : same_slot x y = true -> same_slot y x = true.
Proof. rewrite !same_slot_iff. intros [-> ->]. done. Qed.
Lemma same_slot_trans x y z : same_slot x y = true -> same_slot y z = true -> same_slot x z = true.
Proof. rewrite !same_slot_iff. intros [-> ->] [-> ->]. done. Qed.

Lemma replaced_sealed j x : secrets q !! j = Some x -> exists u, sealed_as KM j x u
  /\ (sr_RotatedAt x = None -> latest ((c, kind, t) :: log) (sr_CredentialID x) (sr_Kind x) = Some u).
Proof.
  intros Hx. destruct (replaced_case _ _ Hx) as [[-> ->]|(y & Hy & ->)].
  - exists t. split; [done|]. intros _. rewrite Hrc, Hrk. apply latest_here.
  - destruct (v_sealed _ _ _ V _ _ Hy) as (u & Hu & Hl). exists u. split.
    + unfold after_retire. by destruct (_ && _).
    + intros Ho. destruct (after_retire_open _ Ho) as [E Hs]. rewrite E in *.
      rewrite latest_other; [by apply Hl|]. intros [= E1 E2]. apply not_true_iff_false in Hs. apply Hs. by apply slot_iff.
Qed.
Lemma replaced_once j l x y : secrets q !! j = Some x -> secrets q !! l = Some y -> same_slot x y = true ->
  sr_RotatedAt x = None -> sr_RotatedAt y = None -> j = l.
Proof.
  intros Hx Hy Hs Ox Oy. destruct (replaced_case _ _ Hx) as [[-> ->]|(x' & Hx' & ->)], (replaced_case _ _ Hy) as [[-> ->]|(y' & Hy' & ->)]; [done|..].
  - destruct (after_retire_open _ Oy) as [E Hn]. rewrite E in Hs. apply same_slot_sym in Hs. rewrite slot_of_r in Hs. congruence.
  - destruct (after_retire_open _ Ox) as [E Hn]. rewrite E in Hs. rewrite slot_of_r in Hs. congruence.
  - destruct (after_retire_open _ Ox) as [E _], (after_retire_open _ Oy) as [E' _]. rewrite E, E' in *. by eapply (v_once _ _ _ V).
Qed.
Lemma replaced_no j l x y : secrets q !! j = Some x -> secrets q !! l = Some y -> same_slot x y = true ->
  sr_VersionNo x = sr_VersionNo y -> j = l.
Proof.
  intros Hx Hy Hs Hn. destruct (replaced_case _ _ Hx) as [[-> ->]|(x' & Hx' & ->)], (replaced_case _ _ Hy) as [[-> ->]|(y' & Hy' & ->)]; [done|..];
    rewrite ?after_retire_no in Hn.
  - apply same_slot_sym in Hs. rewrite after_retire_slot in Hs. pose proof (replaced_slot _ _ Hy' Hs). lia.
  - rewrite after_retire_slot in Hs. pose proof (replaced_slot _ _ Hx' Hs). lia.
  - rewrite after_retire_slot in Hs. apply same_slot_sym in Hs. rewrite after_retire_slot in Hs. apply same_slot_sym in Hs.
    by eapply (v_no _ _ _ V).
Qed.
Lemma replaced_dense j x : secrets q !! j = Some x -> 1 < sr_VersionNo x -> exists l y, secrets q !! l = Some y
  /\ same_slot y x = true /\ sr_VersionNo y = sr_VersionNo x - 1.
Proof.
  assert (forall l y, secrets p !! l = Some y -> secrets q !! l = Some (after_retire y)) as Hk by apply replaced_old.
  intros Hx Hn. destruct (replaced_case _ _ Hx) as [[-> ->]|(x' & Hx' & ->)].
  - destruct (next_secret_no_spec c kind p) as [_ [E|(l & y & Hy & Hyc & Hyk & Hyn)]]; [lia|].
    exists l, (after_retire y). rewrite after_retire_slot, after_retire_no. split_and!; [by apply Hk|apply same_slot_iff; split; congruence|lia].
  - rewrite after_retire_no in *. destruct (v_dense _ _ _ V _ _ Hx' Hn) as (l & y & Hy & Hs & Hyn).
    exists l, (after_retire y). rewrite after_retire_slot, after_retire_no. split_and!; [by apply Hk| |done].
    apply same_slot_sym. rewrite after_retire_slot. by apply same_slot_sym.
Qed.
Lemma replaced_top j x : secrets q !! j = Some x -> exists l y, secrets q !! l = Some y /\ same_slot y x = true
  /\ sr_RotatedAt y = None /\ sr_VersionNo x <= sr_VersionNo y.
Proof.
  intros Hx. assert (same_slot x r = true \/ exists x', secrets p !! j = Some x' /\ x = x' /\ same_slot x' r = false) as [Hs|(x' & Hx' & -> & Hs)].
  { destruct (replaced_case _ _ Hx) as [[-> ->]|(x' & Hx' & ->)]; [left; by apply same_slot_iff|]. rewrite after_retire_slot.
    destruct (same_slot x' r) eqn:E; [by left|right]. exists x'. split_and!; [done| |done]. unfold after_retire. by rewrite <- slot_of_r, E. }
  - exists i, r. split_and!; [apply replaced_new|by apply same_slot_sym|done|].
    destruct (replaced_case _ _ Hx) as [[-> ->]|(x' & Hx' & ->)]; [lia|]. rewrite after_retire_slot in Hs. rewrite after_retire_no.
    pose proof (replaced_slot _ _ Hx' Hs). lia.
  - destruct (v_top _ _ _ V _ _ Hx') as (l & y & Hy & Hyx & Ho & Hle). exists l, y. split_and!; [|done..].
    rewrite (replaced_old _ _ Hy). unfold after_retire. destruct (slot_is c kind y) eqn:Ey; [|done]. rewrite <- slot_of_r in Ey.
    apply same_slot_sym in Hyx. rewrite (same_slot_trans _ _ _ Hyx Ey) in Hs. done.
Qed.
Lemma replaced_log c' kind' t' : latest ((c, kind, t) :: log) c' kind' = Some t' -> exists j x, secrets q !! j = Some x
  /\ sr_CredentialID x = c' /\ sr_Kind x = kind' /\ sr_RotatedAt x = None.
Proof.
  destruct (decide ((c', kind') = (c, kind))) as [[= -> ->]|Hne]; [intros _; exists i, r; split_and!; [apply replaced_new|done..]|].
  rewrite latest_other by done. intros (j & x & Hx & Hxc & Hxk & Ho)%(v_log _ _ _ V). exists j, x. split_and!; [|done..].
  rewrite (replaced_old _ _ Hx). unfold after_retire. destruct (slot_is c kind x) eqn:Ex; [|done]. apply slot_iff in Ex as [? ?]. congruence.
Qed.
Lemma vault_replaced : vault KM ((c, kind, t) :: log) q.
Proof.
  constructor; [exact replaced_sealed| |exact replaced_once| |exact replaced_no|exact replaced_dense|exact replaced_top|exact replaced_log].
  - intros j x Hx. destruct (replaced_case _ _ Hx) as [[-> ->]|(x' & Hx' & ->)]; [by rewrite Hrc|]. rewrite after_retire_owner.
    apply Hown. by eapply (v_owner _ _ _ V).
  - intros j x Hx. destruct (replaced_case _ _ Hx) as [[-> ->]|(x' & Hx' & ->)]; [|rewrite after_retire_no; by eapply (v_pos _ _ _ V)].
    split; [|done]. rewrite Hrn. destruct (next_secret_no_spec c kind p) as [_ [-> |(l & y & Hy & _ & _ & Hyn)]]; [lia|].
    pose proof (v_pos _ _ _ V _ _ Hy). lia.
Qed.
End replaced.

Lemma vault_same KM log log' p q : vault KM log p -> secrets q = secrets p ->
  (forall j, is_Some (credentials p !! j) -> is_Some (credentials q !! j)) ->
  (forall c kind, latest log' c kind = latest log c kind) -> vault KM log' q.
Proof.
  intros V Es Hown Hl. constructor; rewrite ?Es; try apply V.
  - intros i r Hr. destruct (v_sealed _ _ _ V _ _ Hr) as (t & Ht & Hlt). exists t. split; [done|]. by rewrite Hl.
  - intros i r Hr. apply Hown. by eapply (v_owner _ _ _ V).
  - intros c kind t. rewrite Hl. apply V.
Qed.
Lemma open_sealed_eq `{!AeadLaws _} KM k i r t u : keys k ⊆ KM -> sealed_as KM i r t -> open_secret k i r = Ok u -> u = t.
Proof.
  intros Hk (key & Hkey & Hn & Ht & Hc). unfold open_secret, Open. simpl. destruct (keys k !! sr_KeyVersion r) as [key'|] eqn:Ek; [|done].
  pose proof (lookup_weaken _ _ _ _ Ek Hk) as E. rewrite Hkey in E. injection E as <-. rewrite Hc, Secret.aead_opens.
  destruct (_ || _); [done|]. by intros [= <-].
Qed.

(** *** What stays of credentials and secrets *)
Record stays (p q : CredDB) : Prop := {
  k_credential : forall c r, credentials p !! c = Some r -> exists r', credentials q !! c = Some r'
    /\ cw_ProviderID r' = cw_ProviderID r /\ cw_ExternalStableID r' = cw_ExternalStableID r /\ cw_SourceKind r' = cw_SourceKind r
    /\ (cw_Status r = StatusRevoked -> cw_Status r' = StatusRevoked);
  k_secret : forall i r, secrets p !! i = Some r -> exists r', secrets q !! i = Some r'
    /\ (r' = r \/ sr_RotatedAt r = None /\ exists t, r' = retired t r)
}.
Lemma stays_refl p : stays p p.
Proof. constructor; [intros c r Hr; exists r; by split_and!|intros i r Hr; exists r; split; [done|by left]]. Qed.
Lemma stays_trans p q s : stays p q -> stays q s -> stays p s.
Proof.
  intros K1 K2. constructor.
  - intros c r Hr. destruct (k_credential _ _ K1 _ _ Hr) as (r1 & Hr1 & ? & ? & ? & Hrev).
    destruct (k_credential _ _ K2 _ _ Hr1) as (r2 & Hr2 & ? & ? & ? & Hrev'). exists r2. split_and!; try congruence. by intros E; apply Hrev', Hrev.
  - intros i r Hr. destruct (k_secret _ _ K1 _ _ Hr) as (r1 & Hr1 & D1). destruct (k_secret _ _ K2 _ _ Hr1) as (r2 & Hr2 & D2).
    exists r2. split; [done|]. destruct D1 as [-> |(Ho & t & ->)]; [done|]. destruct D2 as [-> |(Ho' & _)]; [|done]. right. split; [done|by exists t].
Qed.
Lemma stays_owner p q : stays p q -> forall j, is_Some (credentials p !! j) -> is_Some (credentials q !! j).
Proof. intros Hk j [r Hr]. destruct (k_credential _ _ Hk _ _ Hr) as (r' & Hr' & _). by eexists. Qed.
Lemma stays_frame p q : credentials q = credentials p -> secrets q = secrets p -> stays p q.
Proof. intros E1 E2. constructor; rewrite ?E1, ?E2; apply stays_refl. Qed.
Lemma stays_written p q id old new : credentials p !! id = Some old -> credential_identity_ok old new = true ->
  credentials q = <[id := new]> (credentials p) -> secrets q = secrets p -> stays p q.
Proof.
  intros Ho Hi Ec Es. unfold credential_identity_ok in Hi. bools. constructor; [|rewrite Es; apply stays_refl].
  rewrite Ec. intros c r Hr. destruct (decide (c = id)) as [->|Hne]; [|exists r; rewrite lookup_insert_ne by done; by split_and!].
  rewrite Ho in Hr. injection Hr as <-. exists new. rewrite lookup_insert_eq. split_and!; try done.
  intros E. match goal with Hs : _ && _ = false |- _ => rewrite E in Hs; simpl in Hs end. bools. done.
Qed.
Lemma stays_touched p q id now : secrets q = secrets p ->
  credentials q = credentials p \/ (exists r, credentials p !! id = Some r /\ credentials q = <[id := touched now r]> (credentials p)) -> stays p q.
Proof.
  intros Es [Ec|(r & Hr & Ec)]; [by apply stays_frame|]. eapply stays_written; [exact Hr| |exact Ec|done].
  unfold credential_identity_ok, touched. simpl. rewrite !String.eqb_refl, (proj2 (uuid_eqb_eq _ _)) by done. simpl. by destruct (String.eqb _ "revoked").
Qed.
Lemma stays_replaced p q i r c kind at_ : secrets p !! i = None -> secrets q = <[i := r]> (retire_slot c kind at_ (secrets p)) ->
  credentials q = credentials p -> stays p q.
Proof.
  intros Hi Es Ec. constructor; [rewrite Ec; apply stays_refl|]. intros j x Hx. rewrite Es, lookup_insert_ne by congruence.
  unfold retire_slot. rewrite map_lookup_imap, Hx. simpl. eexists. split; [done|]. destruct (_ && _) eqn:E; [|by left]. right.
  apply andb_true_iff in E as [_ E%unrotated_iff]. split; [done|by eexists].
Qed.
End vaults.

(** ** Transactions *)
Section transactions.
Context `{CredGuards, TextOrder, Aead, !AeadLaws _, UuidText, UuidParse}.

(** The random source gives nonces of the length it is asked for. *)
Definition random_ok (nonces : list (option string)) : Prop := forall n, Some n ∈ nonces -> slen n = NonceSize.
Definition sealed_from (KM : gmap string string) (c : uuid) (now : time) (input : SecretInput) (item : sealedSecret) : Prop :=
  ss_Kind item = si_Kind input /\ sealed_as KM (ss_ID item) (secret_row c (ss_Kind item) 1 item now) (si_Value input).
Lemma sealInputs_ok KM k nonces c inputs ids items rest now : keys k ⊆ KM -> random_ok nonces ->
  Forall (fun i => si_Value i <> "") inputs -> sealInputs k nonces c inputs ids = Ok (items, rest) ->
  Forall2 (sealed_from KM c now) inputs items.
Proof.
  intros Hk. revert nonces ids items rest. induction inputs as [|input inputs IH]; intros nonces ids items rest Hn Hv Hs.
  - simpl in Hs. injection Hs as <- <-. constructor.
  - destruct ids as [|id ids]; [done|]. cbn [sealInputs] in Hs. apply result_bind_ok in Hs as (item & Hitem & Hs).
    apply result_bind_ok in Hs as ([items' rest'] & Hrest & [= <- <-]). apply Forall_cons in Hv as [Hv Hvs]. constructor.
    + eapply sealSecret_sealed in Hitem as (<- & Hkind & Hsealed); [split; [exact Hkind|by rewrite Hkind; exact Hsealed]|done| |done].
      intros n Hn'. apply Hn. destruct nonces as [|o nonces]; [done|]. simpl in Hn'. rewrite Hn'. constructor.
    + eapply IH; [|done|exact Hrest]. intros n Hin. apply Hn. destruct nonces as [|o nonces]; [by apply elem_of_nil in Hin|]. by constructor.
Qed.
Lemma validate_secrets_ok source seen inputs l : validate_secrets source seen inputs = Ok l ->
  l = trimmed_secret <$> inputs /\ NoDup (si_Kind <$> l) /\ (forall kind, kind ∈ seen -> kind ∉ si_Kind <$> l)
  /\ Forall (fun i => si_Value i <> "") l.
Proof.
  revert seen l. induction inputs as [|input inputs IH]; intros seen l Hl; cbn [validate_secrets] in Hl.
  - destruct (hasRequiredSecret _ _); [|done]. injection Hl as <-. split_and!; [done|constructor|intros ? _ Hx; by apply elem_of_nil in Hx|constructor].
  - destruct (validateSecretInput _ _) eqn:Ev; [|done]. cbn [negb] in Hl. destruct (one_of _ _) eqn:Eo; [done|].
    apply result_bind_ok in Hl as (l' & Hl' & [= <-]). destruct (IH _ _ Hl') as (-> & Hnd & Hseen & Hv). rewrite !fmap_cons. split_and!; [done| | |].
    + constructor; [|done]. apply Hseen. constructor.
    + intros kind Hin [->|Hin']%elem_of_cons; [|by eapply Hseen; [constructor|]]. apply not_true_iff_false in Eo. apply Eo.
      unfold one_of. apply existsb_exists. exists (si_Kind (trimmed_secret input)). split; [by apply list_elem_of_In|apply String.eqb_refl].
    + constructor; [|done]. intros E. unfold validateSecretInput in Ev. rewrite E in Ev. simpl in Ev. bools. done.
Qed.
(** The log of the secrets of a call, the last one first. *)
Definition entries (c : uuid) (inputs : list SecretInput) : Log := reverse ((fun i => (c, si_Kind i, si_Value i)) <$> inputs).
Lemma insert_secrets_vault KM log c inputs items now ids p s' u : vault KM log p -> is_Some (credentials p !! c) ->
  Forall2 (sealed_from KM c now) inputs items -> NoDup (si_Kind <$> inputs) ->
  (forall i r, secrets p !! i = Some r -> sr_CredentialID r = c -> sr_Kind r ∉ si_Kind <$> inputs) ->
  insert_secrets c items now (ids, p) = Ok (s', u) ->
  exists q, s' = (ids, q) /\ credentials q = credentials p /\ providers q = providers p /\ stays p q /\ vault KM (entries c inputs ++ log) q.
Proof.
  intros V Hc Hf. revert log p V Hc. induction Hf as [|input item inputs items [Hkind Hsealed] Hf IH]; intros log p V Hc Hnd Hold Hm; cbn [insert_secrets] in Hm.
  { db_inv. exists p. split_and!; [done..|apply stays_refl|done]. }
  db_inv. match goal with Hi : insert_secret _ _ _ = Ok _ |- _ => apply insert_secret_ok in Hi as (? & Hi & _ & _ & _); subst end.
  rewrite fmap_cons in Hnd, Hold. apply NoDup_cons in Hnd as [Hni Hnd]. set (row := secret_row c (ss_Kind item) 1 item now) in *.
  assert (forall i r, secrets p !! i = Some r -> slot_is c (si_Kind input) r = false) as Hfree.
  { intros i r Hr. apply not_true_iff_false. intros [Hrc Hrk]%slot_iff. apply (Hold _ _ Hr Hrc). rewrite Hrk. constructor. }
  assert (retire_slot c (si_Kind input) 0 (secrets p) = secrets p) as Hret.
  { apply map_eq. intros i. unfold retire_slot. rewrite map_lookup_imap. destruct (secrets p !! i) as [r|] eqn:Er; [|done]. simpl. by rewrite (Hfree _ _ Er). }
  assert (secrets (set_secrets (<[ss_ID item := row]>) p) = <[ss_ID item := row]> (retire_slot c (si_Kind input) 0 (secrets p))) as Es by by rewrite Hret.
  assert (next_secret_no c (si_Kind input) p = 1) as Hno.
  { destruct (next_secret_no_spec c (si_Kind input) p) as [_ [E|(i & r & Hr & Hrc & Hrk & _)]]; [done|]. exfalso.
    apply (Hold _ _ Hr Hrc). rewrite Hrk. constructor. }
  match goal with Hi : insert_secrets _ _ _ _ = Ok _ |- _ => eapply IH in Hi as (q & -> & Ec & Ep & Hk & Vq) end.
  - exists q. split_and!; [done|done|done| |].
    + eapply stays_trans; [|exact Hk]. by eapply stays_replaced.
    + unfold entries in *. by rewrite fmap_cons, reverse_cons, <- app_assoc.
  - eapply vault_replaced; [exact V|exact Es|done|done|done|done|done|done|by rewrite Hno|done|done].
  - done.
  - done.
  - simpl. intros i r [[<- <-]|[_ Hr]]%lookup_insert_Some Hrc; [simpl; by rewrite Hkind|]. intros Hin. apply (Hold _ _ Hr Hrc). by constructor.
Qed.

Ltac audits := repeat match goal with
  | Hx : insert_cred_audit _ _ _ _ _ _ = Ok _ |- _ => apply insert_cred_audit_ok in Hx as (? & ? & ? & (? & ? & ?)); subst
  | Hx : get_locked _ _ = Ok _ |- _ => apply get_locked_ok in Hx as [? ?]; subst end.

Lemma create_credential_ok KM log c actor input items req now ids p s' r : vault KM log p ->
  Forall2 (sealed_from KM c now) (ci_Secrets input) items -> NoDup (si_Kind <$> ci_Secrets input) ->
  create_credential c actor input items req now (ids, p) = Ok (s', r) ->
  vault KM (entries c (ci_Secrets input) ++ log) s'.2 /\ stays p s'.2 /\ credentials p !! c = None /\ cr_ID r = c.
Proof.
  intros V Hf Hnd Hm. unfold create_credential in Hm. db_inv.
  match goal with Hx : insert_credential _ _ _ = Ok _ |- _ => apply insert_credential_ok in Hx as (? & Hnew & _); subst end.
  set (p1 := set_credentials _ p) in *.
  assert (vault KM log p1) as V1.
  { eapply vault_same; [exact V|done| |done]. intros j [x Hx]. simpl. apply lookup_insert_is_Some'. right. by eexists. }
  assert (stays p p1) as K1.
  { constructor; [|exact (k_secret _ _ (stays_refl p))]. intros j x Hx. exists x. simpl. rewrite lookup_insert_ne by congruence. by split_and!. }
  match goal with Hx : insert_secrets _ _ _ _ = Ok _ |- _ => eapply insert_secrets_vault in Hx as (q & -> & Ec & _ & Kq & Vq); [|exact V1| |exact Hf|done|] end.
  - match goal with Hx : init_health _ _ _ = Ok _ |- _ => apply init_health_ok in Hx as (q1 & -> & (E1 & E2 & _)) end.
    audits. match goal with Hx : get _ _ = Ok _ |- _ => apply get_ok in Hx as (? & ? & _ & _ & _ & ->) end. simpl.
    match goal with Ha : credentials ?z = credentials q1, Hb : secrets ?z = secrets q1 |- _ => rewrite E1 in Ha; rewrite E2 in Hb end.
    split_and!; [|eapply stays_trans; [exact K1|eapply stays_trans; [exact Kq|by apply stays_frame]]|done|done].
    eapply vault_same; [exact Vq|done| |done]. intros j Hj. congruence.
  - simpl. rewrite lookup_insert_eq. by eexists.
  - intros i x Hx Hxc. exfalso. destruct (v_owner _ _ _ V _ _ Hx) as [y Hy]. congruence.
Qed.

Lemma retire_as_slot KM log p a x at_ : vault KM log p -> secrets p !! a = Some x -> sr_RotatedAt x = None ->
  map_imap (fun i r => Some (if uuid_eqb i a && unrotated r then retired at_ r else r)) (secrets p)
  = retire_slot (sr_CredentialID x) (sr_Kind x) at_ (secrets p).
Proof.
  intros V Hx Ho. apply map_eq. intros j. unfold retire_slot. rewrite !map_lookup_imap. destruct (secrets p !! j) as [y|] eqn:Ey; [|done]. simpl.
  f_equal. destruct (unrotated y) eqn:Eu; [|by rewrite !andb_false_r]. rewrite !andb_true_r. apply unrotated_iff in Eu.
  assert (uuid_eqb j a = slot_is (sr_CredentialID x) (sr_Kind x) y) as ->; [|done]. apply eq_true_iff_eq. rewrite uuid_eqb_eq, slot_iff. split.
  - intros ->. assert (y = x) as -> by congruence. done.
  - intros [Hc Hk]. eapply (v_once _ _ _ V); [exact Ey|exact Hx|by apply same_slot_iff|done|done].
Qed.
Lemma rotate_secret_ok KM log actor c kind t sealed req now observed ids p s' r : vault KM log p ->
  sealed_as KM (ss_ID sealed) (secret_row c kind (next_secret_no c kind p) sealed now) t ->
  rotate_secret actor c kind sealed req now observed (ids, p) = Ok (s', r) ->
  vault KM ((c, kind, t) :: log) s'.2 /\ stays p s'.2 /\ (forall x, credentials p !! c = Some x -> cw_Status x <> StatusRevoked).
Proof.
  intros V Hsealed Hm. unfold rotate_secret in Hm. db_inv. audits. db_inv. bools.
  match goal with Hx : retire_secrets _ _ _ = Ok _ |- _ => apply retire_secrets_ok in Hx; subst end.
  match goal with Hx : insert_secret _ _ _ = Ok _ |- _ => apply insert_secret_ok in Hx as (? & Hi & _ & _ & _); subst end.
  match goal with Hx : touch _ _ _ = Ok _ |- _ => apply touch_ok in Hx as (q & -> & Es & _ & Ec) end. audits. cbn [fst snd] in *.
  match goal with Hx : get c (locked p) = Ok _ |- _ => pose proof Hx as Hg; apply get_ok in Hx as (cr & ? & Hcr & _ & _ & _) end.
  assert (secrets p !! ss_ID sealed = None) as Hi' by (simpl in Hi; rewrite map_lookup_imap in Hi; by destruct (secrets p !! ss_ID sealed)).
  set (row := secret_row c kind _ sealed now) in *.
  set (p1 := set_secrets (<[ss_ID sealed := row]>) _) in *.
  assert (secrets p1 = <[ss_ID sealed := row]> (retire_slot c kind observed (secrets p))) as E1 by done.
  assert (vault KM ((c, kind, t) :: log) p1) as V1.
  { eapply vault_replaced; [exact V|exact E1|done|simpl; by eexists|done..|simpl; lia|done]. }
  assert (stays p p1) as K1 by by eapply stays_replaced.
  assert (stays p1 q) as K2 by by eapply stays_touched.
  match goal with Ha : credentials ?z = credentials q, Hb : secrets ?z = secrets q |- _ => rename Ha into Ez, Hb into Ez' end.
  split_and!.
  - eapply vault_same; [exact V1|congruence| |done]. intros j Hj%(stays_owner _ _ K2). by rewrite Ez.
  - eapply stays_trans; [exact K1|]. eapply stays_trans; [exact K2|by apply stays_frame].
  - intros y Hy E. rewrite Hcr in Hy. injection Hy as <-. destruct (get_Status _ _ _ _ Hg Hcr) as [Hst _]. congruence.
Qed.

Lemma find_in_use_ok c kind p i r : find_in_use c kind p = Some (i, r) ->
  secrets p !! i = Some r /\ sr_CredentialID r = c /\ sr_Kind r = kind /\ sr_RotatedAt r = None.
Proof.
  unfold find_in_use. intros [Hin Hq]%find_some. apply list_elem_of_In, elem_of_map_to_list in Hin.
  unfold in_use in Hq. bools. split_and!; [done..|by apply unrotated_iff].
Qed.
Lemma find_in_use_some c kind p i r : secrets p !! i = Some r -> sr_CredentialID r = c -> sr_Kind r = kind -> sr_RotatedAt r = None ->
  exists j x, find_in_use c kind p = Some (j, x).
Proof.
  intros Hr Hc Hk Ho. unfold find_in_use. destruct (List.find _ _) as [[j x]|] eqn:E; [by exists j, x|]. exfalso.
  eapply find_none in E; [|apply list_elem_of_In, elem_of_map_to_list, Hr]. unfold in_use in E. simpl in E.
  by rewrite Hc, Hk, String.eqb_refl, (proj2 (uuid_eqb_eq c c)), (proj2 (unrotated_iff r)) in E.
Qed.
Lemma next_secret_no_top KM log p i r : vault KM log p -> secrets p !! i = Some r -> sr_RotatedAt r = None ->
  next_secret_no (sr_CredentialID r) (sr_Kind r) p = sr_VersionNo r + 1.
Proof.
  intros V Hr Ho. destruct (next_secret_no_spec (sr_CredentialID r) (sr_Kind r) p) as [Hmax Hex].
  specialize (Hmax _ _ Hr eq_refl eq_refl). destruct (v_pos _ _ _ V _ _ Hr). destruct Hex as [E|(j & x & Hx & Hc & Hk & Hn)]; [lia|].
  assert (same_slot x r = true) as Hs by by apply same_slot_iff. destruct (v_top _ _ _ V _ _ Hx) as (l & y & Hy & Hyx & Hyo & Hle).
  assert (l = i) as -> by (eapply (v_once _ _ _ V); [exact Hy|exact Hr|by eapply same_slot_trans|done|done]).
  assert (y = r) as -> by congruence. lia.
Qed.
(** [t] is the plaintext in use: sealing it again leaves what is entered. *)
Lemma reencrypt_tx_ok KM log actor c kind expected t sealed req now observed ids p s' r : vault KM log p ->
  (forall i x, secrets p !! i = Some x -> sr_CredentialID x = c -> sr_Kind x = kind -> sr_RotatedAt x = None ->
     sr_VersionNo x = expected -> latest log c kind = Some t) ->
  (forall version, sealed_as KM (ss_ID sealed) (secret_row c kind version sealed now) t) ->
  reencrypt_tx actor c kind expected sealed req now observed (ids, p) = Ok (s', r) -> vault KM log s'.2 /\ stays p s'.2.
Proof.
  intros V Hsame Hsealed Hm. unfold reencrypt_tx in Hm. db_inv. audits. db_inv. bools.
  match goal with Ho : find_in_use _ _ _ = Some ?found |- _ => destruct found as [act x]; apply find_in_use_ok in Ho as (Hx & Hxc & Hxk & Hxo) end.
  match goal with He : sr_VersionNo _ = expected |- _ => pose proof (Hsame _ _ Hx Hxc Hxk Hxo He) as Hl end. cbn [fst snd] in *.
  match goal with Hr : retire_secrets _ _ _ = Ok _ |- _ => apply retire_secrets_ok in Hr; subst end.
  match goal with Hr : insert_secret _ _ _ = Ok _ |- _ => apply insert_secret_ok in Hr as (? & Hi & _ & _ & Hcheck); subst end.
  match goal with Hr : touch _ _ _ = Ok _ |- _ => apply touch_ok in Hr as (q & -> & Es & _ & Ec) end. audits. cbn [fst snd] in *.
  assert (secrets p !! ss_ID sealed = None) as Hi' by (simpl in Hi; rewrite map_lookup_imap in Hi; by destruct (secrets p !! ss_ID sealed)).
  assert (i64_add (sr_VersionNo x) 1 = sr_VersionNo x + 1 /\ sr_VersionNo x + 1 <= max_int64) as [Hadd Hmax].
  { assert (0 < i64_add (sr_VersionNo x) 1) as Hpos by (unfold secret_check in Hcheck; bools; simpl in *; lia).
    destruct (v_pos _ _ _ V _ _ Hx). destruct (decide (sr_VersionNo x = max_int64)) as [E|E]; [rewrite E in Hpos; done|].
    split; [apply i64_add_id; unfold in_i64, max_int64, min_int64 in *; lia|lia]. }
  set (row := secret_row _ _ _ sealed now) in *. set (p1 := set_secrets (<[ss_ID sealed := row]>) _) in *.
  assert (secrets p1 = <[ss_ID sealed := row]> (retire_slot (sr_CredentialID x) (sr_Kind x) observed (secrets p))) as E1.
  { by rewrite <- (retire_as_slot KM log p act x). }
  assert (vault KM ((sr_CredentialID x, sr_Kind x, t) :: log) p1) as V1.
  { eapply vault_replaced; [exact V|exact E1|done|simpl; by eapply (v_owner _ _ _ V)|done..|simpl|simpl; lia|by apply Hsealed].
    rewrite Hadd. symmetry. by eapply next_secret_no_top. }
  assert (stays p p1) as K1 by by eapply stays_replaced. assert (stays p1 q) as K2 by by eapply stays_touched.
  match goal with Ha : credentials ?z = credentials q, Hb : secrets ?z = secrets q |- _ => rename Ha into Ez, Hb into Ez' end. split.
  - eapply vault_same; [exact V1|congruence| |].
    + intros j Hj%(stays_owner _ _ K2). by rewrite Ez.
    + intros c' kind'. destruct (decide ((c', kind') = (sr_CredentialID x, sr_Kind x))) as [[= -> ->]|Hne]; [by rewrite latest_here|by rewrite latest_other].
  - eapply stays_trans; [exact K1|]. eapply stays_trans; [exact K2|by apply stays_frame].
Qed.

(** Calls that leave the secrets alone. *)
Definition harmless (p q : CredDB) : Prop := secrets q = secrets p /\ stays p q.
Lemma harmless_refl p : harmless p p.
Proof. split; [done|apply stays_refl]. Qed.
Lemma harmless_frame p q : credentials q = credentials p -> secrets q = secrets p -> harmless p q.
Proof. intros Ec Es. split; [done|by apply stays_frame]. Qed.
Lemma update_credential_ok actor c input req now ids p s' r : update_credential actor c input req now (ids, p) = Ok (s', r) -> harmless p s'.2.
Proof.
  unfold update_credential. intros Hm. db_inv. audits. db_inv.
  match goal with Hg : get c (locked p) = Ok _ |- _ => apply get_ok in Hg as (x & ? & Hx & _ & Hlive & _) end. cbn [fst snd] in *.
  rewrite Hx, Hlive in *.
  match goal with Hw : write_credential _ _ _ _ _ = Ok _ |- _ => apply write_credential_ok in Hw as [-> Hi] end. audits. cbn [fst snd] in *.
  match goal with Ha : credentials ?z = credentials (set_credentials _ _), Hb : secrets ?z = _ |- _ => split; [exact Hb|]; eapply stays_written; [exact Hx|exact Hi|exact Ha|exact Hb] end.
Qed.
Lemma credential_updated ids actor c input req now p q r : Service_Update ids actor c input req now p = (q, r) -> harmless p q.
Proof.
  unfold Service_Update. intros Hc. pose proof (harmless_refl p). destruct (_ || _); [by injection Hc as <- _|].
  destruct (validateUpdate input) as [v|]; [|by injection Hc as <- _].
  apply db_run_ok in Hc as [(s & a & Hm & -> & _)|(e & _ & ->)]; [by eapply update_credential_ok|done].
Qed.
Lemma RecordHealth_ok c input now later p q r : RecordHealth c input now later p = (q, r) -> harmless p q.
Proof.
  unfold RecordHealth, recordHealth. cbv zeta. intros Hc. pose proof (harmless_refl p). repeat case_match; injection Hc as <- _; try done; by apply harmless_frame.
Qed.
Lemma CreatePool_ok ids actor input req now p q r : CreatePool ids actor input req now p = (q, r) -> harmless p q.
Proof.
  unfold CreatePool. intros Hc. pose proof (harmless_refl p). destruct (_ || _); [by injection Hc as <- _|].
  destruct (validatePoolInput input) as [v|]; [|by injection Hc as <- _]. destruct ids as [|id ids]; [by injection Hc as <- _|].
  apply db_run_ok in Hc as [(s & a & Hm & -> & _)|(e & _ & ->)]; [|done]. unfold createPool_tx, insert_pool in Hm. db_inv.
  repeat match goal with Hr : raise_mapped _ _ = Ok _ |- _ => apply raise_mapped_ok in Hr; subst end. db_inv. audits. db_inv. by apply harmless_frame.
Qed.
Lemma AddMember_ok ids actor pool input req now p q r : AddMember ids actor pool input req now p = (q, r) -> harmless p q.
Proof.
  unfold AddMember. intros Hc. pose proof (harmless_refl p). destruct (_ || _); [by injection Hc as <- _|].
  apply db_run_ok in Hc as [(s & a & Hm & -> & _)|(e & _ & ->)]; [|done]. unfold addMember_tx in Hm. db_inv. cbv zeta in *. db_inv. audits.
  by apply harmless_frame.
Qed.
Lemma RemoveMember_ok ids actor pool c req p q r : RemoveMember ids actor pool c req p = (q, r) -> harmless p q.
Proof.
  unfold RemoveMember. intros Hc. pose proof (harmless_refl p). destruct (_ || _); [by injection Hc as <- _|].
  apply db_run_ok in Hc as [(s & a & Hm & -> & _)|(e & _ & ->)]; [|done]. unfold removeMember_tx in Hm. db_inv. audits.
  by apply harmless_frame.
Qed.

(** ** Histories *)
(** Other packages write the providers only. *)
Definition others_ok (p q : CredDB) : Prop :=
  credentials q = credentials p /\ secrets q = secrets p /\ pools q = pools p /\ members q = members p /\ health q = health p.
(** The secrets an input has once its kinds are trimmed. *)
Definition entered_secrets (input : CreateInput RawMetadata) : list SecretInput := trimmed_secret <$> ci_Secrets input.
(** Calls with the log of the secrets they store.  A call that stores secrets and fails changes
    nothing; a re-encryption has a history between its two transactions. *)
Inductive history (KM : gmap string string) : CredDB -> Log -> CredDB -> Prop :=
| history_refl p : history KM p [] p
| history_create p log q q' ids nonces k actor input req now c :
    history KM p log q -> keys k ⊆ KM -> random_ok nonces ->
    Service_Create ids nonces k actor input req now q = (q', Ok c) ->
    history KM p (entries (cr_ID c) (entered_secrets input) ++ log) q'
| history_rotate p log q q' ids nonce k actor id input req now observed c :
    history KM p log q -> keys k ⊆ KM -> random_ok [nonce] ->
    Service_Rotate ids nonce k actor id input req now observed q = (q', Ok c) ->
    history KM p (entries id [trimmed_secret input] ++ log) q'
| history_reencrypt p log q log1 q1 q' ids nonce k actor id kind req now observed c :
    history KM p log q -> history KM q log1 q1 -> keys k ⊆ KM -> random_ok [nonce] ->
    Reencrypt ids nonce k actor id kind req now observed (fun _ => q1) q = (q', Ok c) ->
    history KM p (log1 ++ log) q'
| history_update p log q q' ids actor id input req now r :
    history KM p log q -> Service_Update ids actor id input req now q = (q', r) -> history KM p log q'
| history_health p log q q' id input now later r :
    history KM p log q -> RecordHealth id input now later q = (q', r) -> history KM p log q'
| history_pool p log q q' ids actor input req now r :
    history KM p log q -> CreatePool ids actor input req now q = (q', r) -> history KM p log q'
| history_add p log q q' ids actor pool input req now r :
    history KM p log q -> AddMember ids actor pool input req now q = (q', r) -> history KM p log q'
| history_remove p log q q' ids actor pool id req r :
    history KM p log q -> RemoveMember ids actor pool id req q = (q', r) -> history KM p log q'
| history_others p log q q' : history KM p log q -> others_ok q q' -> history KM p log q'.

(** What a history keeps: [log0] is what was stored before it. *)
Record carried (KM : gmap string string) (log0 : Log) (p : CredDB) (log : Log) (q : CredDB) : Prop := {
  c_vault : vault KM (log ++ log0) q;
  c_kept : stays p q;
  c_revoked : forall c r, credentials p !! c = Some r -> cw_Status r = StatusRevoked ->
    forall kind, latest (log ++ log0) c kind = latest log0 c kind
}.
Lemma carried_harmless KM log0 p log q q' : carried KM log0 p log q -> harmless q q' -> carried KM log0 p log q'.
Proof.
  intros [V K R] [Es Hk]. constructor; [eapply vault_same; [exact V|done|by apply stays_owner|done]|by eapply stays_trans|done].
Qed.
Lemma latest_app l log c kind : (forall e, e ∈ l -> e.1.1 <> c) -> latest (l ++ log) c kind = latest log c kind.
Proof.
  induction l as [|[[c' kind'] t] l IH]; intros Hl; [done|]. change (((c', kind', t) :: l) ++ log)%list with ((c', kind', t) :: (l ++ log))%list.
  rewrite latest_other; [apply IH; intros e He; apply Hl; by constructor|]. intros [= <- _]. by apply (Hl (c, kind', t)); [constructor|].
Qed.
Lemma entries_of c inputs e : e ∈ entries c inputs -> e.1.1 = c.
Proof. unfold entries. rewrite elem_of_reverse. by intros (i & -> & _)%list_elem_of_fmap. Qed.
(** Secrets of [c] are stored, which is not a revoked credential. *)
Lemma carried_entries KM log0 p log q q' c inputs : carried KM log0 p log q -> vault KM (entries c inputs ++ log ++ log0) q' -> stays q q' ->
  (forall r, credentials q !! c = Some r -> cw_Status r <> StatusRevoked) -> carried KM log0 p (entries c inputs ++ log) q'.
Proof.
  intros [V K R] V' K' Hc. constructor; [by rewrite <- app_assoc|by eapply stays_trans|]. intros d r Hd Hr kind.
  rewrite <- app_assoc, latest_app; [by eapply R|]. intros e ->%entries_of ->. destruct (k_credential _ _ K _ _ Hd) as (r' & Hr' & _ & _ & _ & Hrev).
  by apply (Hc _ Hr'), Hrev.
Qed.
Lemma credential_created KM log ids nonces k actor input req now p q c : vault KM log p -> keys k ⊆ KM -> random_ok nonces ->
  Service_Create ids nonces k actor input req now p = (q, Ok c) ->
  vault KM (entries (cr_ID c) (entered_secrets input) ++ log) q /\ stays p q /\ credentials p !! cr_ID c = None.
Proof.
  intros V Hk Hn. unfold Service_Create, create. intros Hc. destruct (uuid_eqb _ _); [done|].
  destruct (validateCreate input) as [v|] eqn:Ev; [|done]. destruct ids as [|id ids]; [done|].
  destruct (sealInputs _ _ _ _ _) as [[items rest]|] eqn:Es; [|done].
  apply db_run_ok in Hc as [(s & a & Hm & -> & [= ->])|(e & [=] & _)]. unfold validateCreate in Ev. cbv zeta in Ev.
  destruct (_ || _); [done|]. repeat (apply result_bind_ok in Ev as (? & ? & Ev)). destruct (_ || _); [done|]. destruct (_ || _); [done|].
  apply result_bind_ok in Ev as (l & Hl & [= <-]). apply validate_secrets_ok in Hl as (-> & Hnd & _ & Hv). cbn [ci_Secrets] in *.
  eapply create_credential_ok in Hm as (V' & K' & Hnew & ->); [by split_and!|exact V|by eapply sealInputs_ok|done].
Qed.
Lemma validateSecretInput_value input source : validateSecretInput input source = true -> si_Value input <> "".
Proof. unfold validateSecretInput. intros Hv E. rewrite E in Hv. simpl in Hv. bools. done. Qed.
Lemma secret_rotated KM log ids nonce k actor id input req now observed p q c : vault KM log p -> keys k ⊆ KM -> random_ok [nonce] ->
  Service_Rotate ids nonce k actor id input req now observed p = (q, Ok c) ->
  vault KM (entries id [trimmed_secret input] ++ log) q /\ stays p q
  /\ forall r, credentials p !! id = Some r -> cw_Status r <> StatusRevoked.
Proof.
  intros V Hk Hn. unfold Service_Rotate. cbv zeta. intros Hc. destruct (_ || _); [done|].
  destruct (validateSecretInput _ _) eqn:Ev; [|done]. cbn [negb] in Hc. apply validateSecretInput_value in Ev. destruct ids as [|sid ids]; [done|].
  destruct (sealSecret _ _ _ _ _ _) as [sealed|] eqn:Es; [|done]. apply db_run_ok in Hc as [(s & a & Hm & -> & [= ->])|(e & [=] & _)].
  eapply rotate_secret_ok in Hm; [exact Hm|exact V|]. eapply sealSecret_sealed in Es as (<- & _ & Hsealed); [exact Hsealed|done| |done].
  intros n ->. apply Hn. constructor.
Qed.
Lemma reveal_ok id kind active p sid stored owner : reveal id kind active p = Ok (sid, stored, owner) ->
  get id (locked p) = Ok owner /\ (active = true -> cr_Status owner = StatusActive)
  /\ secrets p !! sid = Some stored /\ sr_CredentialID stored = id /\ sr_Kind stored = kind /\ sr_RotatedAt stored = None.
Proof.
  unfold reveal. intros (c & Hc & Hr)%result_bind_ok. destruct (active && _) eqn:Ea; [done|].
  destruct (find_in_use id kind p) as [[i r]|] eqn:Ef; [|done]. injection Hr as <- <- <-. apply find_in_use_ok in Ef. split_and!; [done| |by apply Ef..].
  intros ->. simpl in Ea. bools. done.
Qed.
Lemma Reencrypt_ok KM log log1 ids nonce k actor id kind req now observed p p1 q c : vault KM log p -> vault KM log1 p1 -> stays p p1 ->
  keys k ⊆ KM -> random_ok [nonce] -> Reencrypt ids nonce k actor id kind req now observed (fun _ => p1) p = (q, Ok c) ->
  vault KM log1 q /\ stays p1 q.
Proof.
  intros V V1 K1 Hk Hn. unfold Reencrypt. intros Hc. destruct (_ || _); [done|]. destruct (reveal _ _ _ _) as [[[sid stored] owner]|] eqn:Er; [|done].
  destruct (open_secret k sid stored) as [t|] eqn:Eo; [|done]. destruct ids as [|nid ids]; [done|].
  destruct (sealSecret _ _ _ _ _ _) as [sealed|] eqn:Es; [|done]. apply db_run_ok in Hc as [(s & a & Hm & -> & _)|(e & [=] & _)].
  apply reveal_ok in Er as (_ & _ & Hs & Hsc & Hsk & Hso). destruct (v_sealed _ _ _ V _ _ Hs) as (t' & Ht' & _).
  pose proof (open_sealed_eq _ _ _ _ _ _ Hk Ht' Eo) as ->. assert (t' <> "") as Hne by by destruct Ht' as (? & _ & _ & ? & _).
  eapply reencrypt_tx_ok in Hm; [exact Hm|exact V1| |].
  - intros i x Hx Hxc Hxk Hxo Hxn. destruct (k_secret _ _ K1 _ _ Hs) as (y & Hy & Hd).
    assert (i = sid) as ->.
    { eapply (v_no _ _ _ V1); [exact Hx|exact Hy| |]; destruct Hd as [-> |(_ & ? & ->)]; simpl; try congruence; apply same_slot_iff; simpl; split; congruence. }
    assert (y = x) as -> by congruence. destruct Hd as [-> |(_ & ? & ->)]; [|done].
    destruct (v_sealed _ _ _ V1 _ _ Hx) as (u & Hu & Hl). rewrite (open_sealed_eq _ _ _ _ _ _ Hk Hu Eo). rewrite <- Hsc, <- Hsk. by apply Hl.
  - intros version. eapply sealSecret_sealed in Es as (<- & _ & Hsealed); [exact Hsealed|done| |done]. intros n ->. apply Hn. constructor.
Qed.
Lemma credential_history_carried KM p log q : history KM p log q -> forall log0, vault KM log0 p -> carried KM log0 p log q.
Proof.
  induction 1 as [p|p log q q' ids nonces k actor input req now c _ IH Hk Hn Hc|p log q q' ids nonce k actor id input req now observed c _ IH Hk Hn Hc
    |p log q log1 q1 q' ids nonce k actor id kind req now observed c _ IH _ IH1 Hk Hn Hc
    |p log q q' ids actor id input req now r _ IH Hc|p log q q' id input now later r _ IH Hc|p log q q' ids actor input req now r _ IH Hc
    |p log q q' ids actor pool input req now r _ IH Hc|p log q q' ids actor pool id req r _ IH Hc|p log q q' _ IH O]; intros log0 V.
  - constructor; [done|apply stays_refl|done].
  - destruct (credential_created _ _ _ _ _ _ _ _ _ _ _ _ (c_vault _ _ _ _ _ (IH _ V)) Hk Hn Hc) as (V' & K' & Hnew).
    eapply carried_entries; [by apply IH|exact V'|exact K'|]. intros r Hr. congruence.
  - destruct (secret_rotated _ _ _ _ _ _ _ _ _ _ _ _ _ _ (c_vault _ _ _ _ _ (IH _ V)) Hk Hn Hc) as (V' & K' & Hr).
    by eapply carried_entries; [by apply IH|..].
  - destruct (IH _ V) as [Vq Kq Rq]. destruct (IH1 _ Vq) as [V1 K1 R1].
    destruct (Reencrypt_ok _ _ _ _ _ _ _ _ _ _ _ _ _ _ _ _ Vq V1 K1 Hk Hn Hc) as [V' K'].
    constructor; [by rewrite <- app_assoc|eapply stays_trans; [exact Kq|by eapply stays_trans]|]. intros d r Hd Hr kd. rewrite <- app_assoc.
    destruct (k_credential _ _ Kq _ _ Hd) as (r' & Hr' & _ & _ & _ & Hrev). rewrite (R1 _ _ Hr' (Hrev Hr)). by eapply Rq.
  - eapply carried_harmless; [by apply IH|by eapply credential_updated].
  - eapply carried_harmless; [by apply IH|by eapply RecordHealth_ok].
  - eapply carried_harmless; [by apply IH|by eapply CreatePool_ok].
  - eapply carried_harmless; [by apply IH|by eapply AddMember_ok].
  - eapply carried_harmless; [by apply IH|by eapply RemoveMember_ok].
  - eapply carried_harmless; [by apply IH|]. destruct O as (Ec & Es & _). by apply harmless_frame.
Qed.
Definition no_credentials (p : CredDB) : Prop := credentials p = ∅ /\ secrets p = ∅ /\ pools p = ∅ /\ members p = ∅ /\ health p = ∅.
Lemma no_credentials_vault KM p : no_credentials p -> vault KM [] p.
Proof.
  intros (Ec & Es & _). constructor; rewrite ?Es, ?Ec; repeat intro; try (by simplify_map_eq).
Qed.

(** ** Secrets that are opened *)
Lemma open_all_ok k log c stored values :
  (forall i r, (i, r) ∈ stored -> exists t, open_secret k i r = Ok t /\ latest log c (sr_Kind r) = Some t) ->
  exists m, open_all k stored values = Ok m
    /\ forall kind, m !! kind = if bool_decide (kind ∈ (fun kv => sr_Kind kv.2) <$> stored) then latest log c kind else values !! kind.
Proof.
  revert values. induction stored as [|[i r] stored IH]; intros values Hs; cbn [open_all]; [by exists values|].
  destruct (Hs i r) as (t & Ht & Hl); [constructor|]. rewrite Ht. destruct (IH (<[sr_Kind r := t]> values)) as (m & Hm & Hk).
  { intros j x Hx. apply (Hs j x). by constructor. }
  exists m. split; [done|]. intros kind. rewrite Hk, fmap_cons. case_bool_decide as Hin; simpl.
  - rewrite bool_decide_eq_true_2; [done|]. by constructor.
  - destruct (decide (sr_Kind r = kind)) as [<-|Hne].
    + rewrite lookup_insert_eq, bool_decide_eq_true_2; [done|constructor].
    + rewrite lookup_insert_ne by done. rewrite bool_decide_eq_false_2; [done|]. by intros [->|?]%elem_of_cons.
Qed.
Lemma loadRuntime_rows c p i r : (i, r) ∈ merge_sort kind_before (List.filter (fun kv => uuid_eqb (sr_CredentialID kv.2) c && unrotated kv.2)
    (map_to_list (secrets p))) <-> secrets p !! i = Some r /\ sr_CredentialID r = c /\ sr_RotatedAt r = None.
Proof.
  rewrite merge_sort_Permutation, list_elem_of_In, filter_In, <- list_elem_of_In, elem_of_map_to_list. simpl.
  by rewrite andb_true_iff, uuid_eqb_eq, unrotated_iff.
Qed.
Lemma RevealAll_of KM log p k c : vault KM log p -> KM ⊆ keys k -> forall stored owner, loadRuntime c p = Ok (stored, owner) ->
  exists m, open_all k stored ∅ = Ok m /\ forall kind, m !! kind = latest log c kind.
Proof.
  intros V Hk stored owner. unfold loadRuntime. intros (o & Ho & Hl)%result_bind_ok. destruct (negb _); [done|]. cbv zeta in Hl.
  pose proof (loadRuntime_rows c p) as Hrows. destruct (merge_sort _ _) as [|kv l] eqn:El; [done|]. injection Hl as <- <-.
  destruct (open_all_ok k log c (kv :: l) ∅) as (m & Hm & Hkinds).
  - intros i r (Hr & <- & Hro)%Hrows. destruct (v_sealed _ _ _ V _ _ Hr) as (t & Ht & Hlt). exists t. split; [by eapply open_sealed|by apply Hlt].
  - exists m. split; [done|]. intros kind. rewrite Hkinds. case_bool_decide as Hin; [done|]. rewrite lookup_empty.
    destruct (latest log c kind) as [t|] eqn:Et; [|done]. exfalso. apply Hin.
    destruct (v_log _ _ _ V _ _ _ Et) as (i & r & Hr & Hc & <- & Hro). apply list_elem_of_fmap. exists (i, r). split; [done|]. by apply Hrows.
Qed.

(** C30: whatever was created, rotated, re-encrypted (under keys that changed, with other calls
    in between), updated or observed, an active credential opens to the secrets that were
    entered last, one of each kind, as long as the keyring has the keys that were ever current. *)
Theorem credentials_open_to_their_last_secret KM p0 log p k c : no_credentials p0 -> history KM p0 log p -> KM ⊆ keys k -> c <> uuid_nil ->
  (forall rt, RevealAll k c p = Ok rt -> rc_CredentialID rt = c /\ forall kind, rc_Secrets rt !! kind = latest log c kind)
  /\ (forall kind rt, Reveal k c kind p = Ok rt -> exists t, latest log c kind = Some t /\ rc_Secrets rt = {[kind := t]})
  /\ (forall owner kind t, get c (locked p) = Ok owner -> cr_Status owner = StatusActive -> latest log c kind = Some t ->
        is_ok (RevealAll k c p) = true /\ (validSecretKind kind = true -> is_ok (Reveal k c kind p) = true)).
Proof.
  intros Hp0 Hh Hk Hc. pose proof (c_vault _ _ _ _ _ (credential_history_carried _ _ _ _ Hh [] (no_credentials_vault KM _ Hp0))) as V.
  rewrite app_nil_r in V. apply uuid_eqb_neq in Hc. split_and!.
  - intros rt. unfold RevealAll. rewrite Hc. intros ([stored owner] & Hs & Hr)%result_bind_ok.
    destruct (RevealAll_of _ _ _ _ _ V Hk _ _ Hs) as (m & Hm & Hkinds). cbn [fst snd] in Hr. rewrite Hm in Hr. injection Hr as <-. split; [|done].
    unfold loadRuntime in Hs. apply result_bind_ok in Hs as (o & Ho & Hs). destruct (negb _); [done|]. cbv zeta in Hs. destruct (merge_sort _ _); [done|].
    injection Hs as _ <-. apply get_ok in Ho as (? & ? & _ & _ & _ & ->). done.
  - intros kind rt. unfold Reveal. destruct (_ || _); [done|]. intros ([[sid stored] owner] & (_ & _ & Hs & Hsc & Hsk & Hso)%reveal_ok & Hr)%result_bind_ok.
    cbn [fst snd] in Hr. destruct (v_sealed _ _ _ V _ _ Hs) as (t & Ht & Hl). rewrite (open_sealed _ _ _ _ _ Hk Ht) in Hr. injection Hr as <-.
    exists t. split; [|done]. rewrite <- Hsc, <- Hsk. by apply Hl.
  - intros owner kind t Ho Hst Hl. destruct (v_log _ _ _ V _ _ _ Hl) as (i & r & Hr & Hrc & Hrk & Hro). split.
    + unfold RevealAll. rewrite Hc. destruct (loadRuntime c p) as [[stored o]|e] eqn:El.
      * destruct (RevealAll_of _ _ _ _ _ V Hk _ _ El) as (m & Hm & _). simpl. by rewrite Hm.
      * exfalso. unfold loadRuntime in El. rewrite Ho in El. simpl in El. rewrite Hst in El.
        pose proof (proj2 (loadRuntime_rows c p i r) ltac:(done)) as Hin. simpl in El. destruct (merge_sort _ _); [by apply elem_of_nil in Hin|done].
    + intros Hv. unfold Reveal, reveal. rewrite Hc, Hv, Ho. simpl. rewrite Hst. simpl.
      destruct (find_in_use_some c kind p i r Hr Hrc Hrk Hro) as (j & x & Hf). rewrite Hf. simpl. apply find_in_use_ok in Hf as (Hx & _).
      destruct (v_sealed _ _ _ V _ _ Hx) as (u & Hu & _). by rewrite (open_sealed _ _ _ _ _ Hk Hu).
Qed.

(** C31: the secrets of a kind are numbered from one without gap, exactly the last one is in
    use, and a stored secret never changes but for the time of its rotation, which is set once. *)
Theorem secret_versions_are_append_only KM p0 log p log' q : no_credentials p0 -> history KM p0 log p -> history KM p log' q ->
  (forall i r, secrets p !! i = Some r -> exists r', secrets q !! i = Some r'
     /\ (r' = r \/ sr_RotatedAt r = None /\ exists t, r' = retired t r))
  /\ (forall i r, secrets p !! i = Some r -> exists j last, secrets p !! j = Some last /\ same_slot last r = true
     /\ (forall l x, secrets p !! l = Some x -> same_slot x r = true -> (sr_RotatedAt x = None <-> l = j))
     /\ (forall n, 1 <= n <= sr_VersionNo last <-> exists l x, secrets p !! l = Some x /\ same_slot x r = true /\ sr_VersionNo x = n)
     /\ (forall l m x y, secrets p !! l = Some x -> secrets p !! m = Some y -> same_slot x r = true -> same_slot y r = true ->
           sr_VersionNo x = sr_VersionNo y -> l = m)).
Proof.
  intros Hp0 Hh Hq. pose proof (c_vault _ _ _ _ _ (credential_history_carried _ _ _ _ Hh [] (no_credentials_vault KM _ Hp0))) as V.
  split; [by apply (k_secret _ _ (c_kept _ _ _ _ _ (credential_history_carried _ _ _ _ Hq _ V)))|].
  intros i r Hr. destruct (v_top _ _ _ V _ _ Hr) as (j & last & Hj & Hs & Ho & _). exists j, last. split_and!; [done|done| | |].
  - intros l x Hx Hxr. split; [|by intros ->; congruence]. intros Hxo. eapply (v_once _ _ _ V); [exact Hx|exact Hj| |done|done].
    eapply same_slot_trans; [exact Hxr|by apply same_slot_sym].
  - intros n. split.
    + intros Hn. assert (exists m : nat, n = sr_VersionNo last - Z.of_nat m) as [m ->] by (exists (Z.to_nat (sr_VersionNo last - n)); lia).
      induction m as [|m IH]; [exists j, last; split_and!; [done|done|lia]|]. destruct IH as (l & x & Hx & Hxr & Hxn); [lia|].
      destruct (v_dense _ _ _ V _ _ Hx) as (l' & y & Hy & Hyx & Hyn); [lia|]. exists l', y. split_and!; [done|by eapply same_slot_trans|lia].
    + intros (l & x & Hx & Hxr & <-). split; [by apply (v_pos _ _ _ V _ _ Hx)|]. destruct (v_top _ _ _ V _ _ Hx) as (m & y & Hm & Hyx & Hyo & Hle).
      assert (m = j) as ->; [|congruence]. eapply (v_once _ _ _ V); [exact Hm|exact Hj| |done|done].
      eapply same_slot_trans; [by eapply same_slot_trans|by apply same_slot_sym].
  - intros l m x y Hx Hy Hxr Hyr. eapply (v_no _ _ _ V); [done|done|]. eapply same_slot_trans; [done|by apply same_slot_sym].
Qed.

(** a revoked credential stays revoked: no later call opens it and no secret is stored for
    it any more. *)
Theorem revoked_credentials_stay_closed KM p0 log p c r log' q : no_credentials p0 -> history KM p0 log p ->
  credentials p !! c = Some r -> cw_Status r = StatusRevoked -> history KM p log' q ->
  (exists r', credentials q !! c = Some r' /\ cw_Status r' = StatusRevoked)
  /\ (forall k, is_ok (RevealAll k c q) = false) /\ (forall k kind, is_ok (Reveal k c kind q) = false)
  /\ (forall kind, latest (log' ++ log) c kind = latest log c kind).
Proof.
  intros Hp0 Hh Hr Hst Hq. pose proof (c_vault _ _ _ _ _ (credential_history_carried _ _ _ _ Hh [] (no_credentials_vault KM _ Hp0))) as V.
  rewrite app_nil_r in V. pose proof (credential_history_carried _ _ _ _ Hq _ V) as [_ Kq Rq].
  destruct (k_credential _ _ Kq _ _ Hr) as (r' & Hr' & _ & _ & _ & Hrev). specialize (Hrev Hst).
  assert (forall o, get c (locked q) = Ok o -> cr_Status o = StatusRevoked) as Hg.
  { intros o Ho. destruct (get_Status _ _ _ _ Ho Hr') as [-> _]. done. }
  split_and!; [by exists r'| | |by eapply Rq].
  - intros k. unfold RevealAll. destruct (uuid_eqb _ _); [done|]. unfold loadRuntime. destruct (get c (locked q)) as [o|] eqn:Eg; [|done]. simpl.
    by rewrite (Hg _ eq_refl).
  - intros k kind. unfold Reveal. destruct (_ || _); [done|]. unfold reveal. destruct (get c (locked q)) as [o|] eqn:Eg; [|done]. simpl.
    by rewrite (Hg _ eq_refl).
Qed.

(** ** Health *)
(** Calls of [RecordHealth] for one credential, each with the readings of its clock. *)
Abbreviation HealthCall := (HealthInput RawMetadata * time * time)%type.
Definition record_all (c : uuid) (calls : list HealthCall) (p : CredDB) : CredDB :=
  foldl (fun q call => (RecordHealth c call.1.1 call.1.2 call.2 q).1) p calls.
(** The row a call observes, when its input is valid and the server accepts its values. *)
Definition observed_by (call : HealthCall) : option HealthRow :=
  match validate_health call.1.1 call.1.2 call.2 with
  | Ok input =>
      let new := observation input in
      match guard_health new with Some _ => None | None => if health_check new then Some new else None end
  | Err _ => None
  end.
(** What the scheduler reads of a row, with the time of the observation. *)
Definition seen_of (r : HealthRow) : time * option time * gmap string string := (hr_ObservedAt r, hr_CooldownUntil r, hr_Metadata r).

Lemma observation_times input : not_after (hr_LastSuccessAt (observation input)) (hr_ObservedAt (observation input)) = true.
Proof. unfold observation. simpl. destruct (hi_Succeeded input); [apply Z.leb_refl|done]. Qed.
Lemma not_after_trans o t u : not_after o t = true -> t <= u -> not_after o u = true.
Proof. unfold not_after. destruct o; [|done]. rewrite !Z.leb_le. lia. Qed.
Lemma merged_check old new : health_check old = true -> health_check new = true -> hr_ObservedAt old <= hr_ObservedAt new ->
  health_check (merged old new) = true.
Proof.
  intros Ho Hn Hle. unfold health_check in *. rewrite !andb_true_iff in *. destruct Ho as [[Hc Hs] He], Hn as [[Hc' Hs'] He']. simpl. split_and!.
  - by destruct (hr_LastErrorAt new).
  - destruct (hr_LastSuccessAt new); [done|by eapply not_after_trans].
  - destruct (hr_LastErrorAt new); [done|by eapply not_after_trans].
Qed.
Lemma RecordHealth_row c call p old : c <> uuid_nil -> health p !! c = Some old -> health_check old = true ->
  exists r, health (RecordHealth c call.1.1 call.1.2 call.2 p).1 !! c = Some r /\ health_check r = true
    /\ seen_of r = match observed_by call with
                   | Some new => if hr_ObservedAt old <=? hr_ObservedAt new then seen_of new else seen_of old
                   | None => seen_of old
                   end.
Proof.
  intros Hc Ho Hck. unfold RecordHealth, observed_by. apply uuid_eqb_neq in Hc. rewrite Hc.
  destruct (validate_health _ _ _) as [input|e]; [|by exists old]. unfold recordHealth. cbv zeta.
  destruct (guard_health (observation input)) as [code|]; [by exists old|].
  destruct (health_check (observation input)) eqn:En; [|by exists old]. simpl. rewrite Ho. destruct (_ <=? _) eqn:Ele; [|by exists old].
  apply Z.leb_le in Ele. rewrite (merged_check _ _ Hck En Ele). simpl. exists (merged old (observation input)).
  rewrite lookup_insert_eq. split_and!; [done|by apply merged_check|done].
Qed.
Lemma record_all_row c calls p old : c <> uuid_nil -> health p !! c = Some old -> health_check old = true ->
  exists r x, health (record_all c calls p) !! c = Some r /\ x ∈ old :: omap observed_by calls /\ seen_of r = seen_of x
    /\ forall y, y ∈ old :: omap observed_by calls -> hr_ObservedAt y <= hr_ObservedAt x.
Proof.
  intros Hc. revert p old. induction calls as [|call calls IH]; intros p old Ho Hck; simpl.
  - exists old, old. split_and!; [done|constructor|done|]. intros y [->|Hy]%elem_of_cons; [lia|by apply elem_of_nil in Hy].
  - destruct (RecordHealth_row c call p old Hc Ho Hck) as (r0 & Hr0 & Hck0 & Hs0).
    destruct (IH _ r0 Hr0 Hck0) as (r & x & Hr & Hx & Hrx & Hmax). pose proof (Hmax _ (list_elem_of_here _ _)) as Hle0.
    change (omap observed_by (call :: calls)) with
      (match observed_by call with Some y => y :: omap observed_by calls | None => omap observed_by calls end).
    assert (forall a b, seen_of a = seen_of b -> hr_ObservedAt a = hr_ObservedAt b) as Ht by (intros a b [=]; done).
    destruct (observed_by call) as [new|]; [destruct (hr_ObservedAt old <=? hr_ObservedAt new) eqn:Ele|].
    + apply Z.leb_le in Ele. apply elem_of_cons in Hx as [->|Hx].
      * exists r, new. split_and!; [done|right; constructor|congruence|]. rewrite (Ht _ _ Hs0) in *.
        intros y [->|[->|Hy]%elem_of_cons]%elem_of_cons; [lia|lia|]. apply Hmax. by constructor.
      * exists r, x. split_and!; [done|by right; right|done|]. rewrite (Ht _ _ Hs0) in Hle0.
        intros y [->|[->|Hy]%elem_of_cons]%elem_of_cons; [lia|lia|]. apply Hmax. by constructor.
    + apply Z.leb_gt in Ele. rewrite (Ht _ _ Hs0) in Hle0. apply elem_of_cons in Hx as [->|Hx].
      * exists r, old. split_and!; [done|constructor|congruence|]. rewrite (Ht _ _ Hs0) in Hmax.
        intros y [->|[->|Hy]%elem_of_cons]%elem_of_cons; [lia|lia|]. apply Hmax. by constructor.
      * exists r, x. split_and!; [done|by right; right|done|]. intros y [->|[->|Hy]%elem_of_cons]%elem_of_cons; [lia|lia|]. apply Hmax. by constructor.
    + rewrite (Ht _ _ Hs0) in Hle0. apply elem_of_cons in Hx as [->|Hx].
      * exists r, old. split_and!; [done|constructor|congruence|]. rewrite (Ht _ _ Hs0) in Hmax. intros y [->|Hy]%elem_of_cons; [lia|]. apply Hmax. by constructor.
      * exists r, x. split_and!; [done|by right|done|]. intros y [->|Hy]%elem_of_cons; [lia|]. apply Hmax. by constructor.
Qed.

(** C32: from a stored row that satisfies the checks of its table, after any observations, in any
    order of arrival, the cooldown and the metadata of a
    credential are those of the newest one among the stored row and the accepted observations
    (those whose input is valid and whose row the database accepts: its checks and its encodings);
    when their times differ, the order in which they arrived does not matter. *)
Theorem health_is_the_newest_observation c calls calls' p old : c <> uuid_nil ->
  health p !! c = Some old -> health_check old = true ->
  (exists r x, health (record_all c calls p) !! c = Some r /\ x ∈ old :: omap observed_by calls /\ seen_of r = seen_of x
    /\ forall y, y ∈ old :: omap observed_by calls -> hr_ObservedAt y <= hr_ObservedAt x)
  /\ (NoDup (hr_ObservedAt <$> old :: omap observed_by calls) -> calls ≡ₚ calls' ->
      seen_of <$> health (record_all c calls' p) !! c = seen_of <$> health (record_all c calls p) !! c).
Proof.
  intros Hc Ho Hck. destruct (record_all_row c calls p old Hc Ho Hck) as (r & x & Hr & Hx & Hs & Hmax).
  split; [by exists r, x|]. intros Hnd Hp. destruct (record_all_row c calls' p old Hc Ho Hck) as (r' & x' & Hr' & Hx' & Hs' & Hmax').
  rewrite Hr, Hr'. simpl. f_equal. rewrite Hs, Hs'. f_equal.
  assert (omap observed_by calls ≡ₚ omap observed_by calls') as Hq by by rewrite Hp.
  rewrite <- Hq in Hx'. pose proof (Hmax _ Hx'). assert (hr_ObservedAt x <= hr_ObservedAt x') by (apply Hmax'; by rewrite <- Hq).
  apply list_elem_of_lookup in Hx as [i Hi], Hx' as [j Hj].
  assert (i = j) as ->; [|congruence]. eapply NoDup_lookup; [exact Hnd| |]; rewrite list_lookup_fmap.
  - by rewrite Hi.
  - rewrite Hj. simpl. f_equal. lia.
Qed.
End transactions.
End CredentialTheorems.

(** ** A run: a key is created, rotated and sealed again under a new key *)
Module CredentialDemo.
Import CredentialRepo CredentialTheorems.
Import Coordinator(UuidParse).
Import Secret(Keyring).
#[local] Existing Instance PaymentDemo.PaymentDemo.demo_aead.
#[local] Existing Instance PaymentDemo.PaymentDemo.demo_aead_laws.
#[local] Instance plain_text : UuidText := fun u => pretty u.
#[local] Instance no_parser : UuidParse := fun _ => None.
#[local] Instance byte_order : TextOrder := fun a b => String.ltb a b.
#[local] Instance no_guards : CredGuards :=
  {| guard_credential := fun _ => None; guard_secret := fun _ => None; guard_pool := fun _ => None; guard_health := fun _ => None;
     guard_cred_audit := fun _ => None |}.

Definition old_keys : gmap string string := {["k1" := "0123456789abcdef0123456789abcdef"]}.
Definition all_keys : gmap string string := <["k2" := "fedcba9876543210fedcba9876543210"]> old_keys.
Definition old_ring : Keyring := {| Secret.current := "k1"; Secret.keys := old_keys |}.
Definition new_ring : Keyring := {| Secret.current := "k2"; Secret.keys := all_keys |}.
Definition providers_only : CredDB :=
  mkCredDB ∅ ∅ ∅ ∅ ∅ {[300%N := {| pv_Slug := "us"; pv_ResourceType := "official_api"; pv_CommercialAllowed := true |}]} [].
Definition nonce_of : option string := Some "123456789012".
Definition first_input : CreateInput RawMetadata :=
  {| ci_ProviderID := 300%N; ci_ExternalStableID := " acct-1 "; ci_SourceKind := "api_key"; ci_Region := "eu-1";
     ci_ProxyRef := "https://proxy.example:8443"; ci_MaxConcurrency := 0; ci_Metadata := [(" Team ", "ops")];
     ci_Secrets := [{| si_Kind := " api_key"; si_Value := "sk-one" |}]; ci_Enabled := true |}.
Definition second_secret : SecretInput := {| si_Kind := "api_key"; si_Value := "sk-two" |}.

Definition Create_run := Service_Create [1; 2; 3]%N [nonce_of] old_ring 9%N first_input "r1" 1000 providers_only.
Definition with_credential : CredDB := Create_run.1.
Definition Rotate_run := Service_Rotate [4; 5]%N nonce_of old_ring 9%N 1%N second_secret "r2" 2000 2000 with_credential.
Definition rotated : CredDB := Rotate_run.1.
(** The secret is sealed again; a rotation that commits first wins. *)
Definition Reencrypt_run := Reencrypt [6; 7]%N nonce_of new_ring 9%N 1%N "api_key" "r3" 3000 3000 (fun p => p) rotated.
Definition resealed : CredDB := Reencrypt_run.1.
Definition Late_run := Reencrypt [6; 7]%N nonce_of new_ring 9%N 1%N "api_key" "r3" 3000 3000 (fun _ => rotated) with_credential.
Definition opened (k : Keyring) (p : CredDB) : option string :=
  match RevealAll k 1%N p with Ok rt => rc_Secrets rt !! "api_key" | Err _ => None end.

Example opened_in_turn : (opened old_ring with_credential, opened old_ring rotated, opened new_ring resealed)
  = (Some "sk-one", Some "sk-two", Some "sk-two").
Proof. vm_compute. reflexivity. Qed.
Example late_reencryption : Late_run.2 = Err ErrConflict.
Proof. vm_compute. reflexivity. Qed.
Example the_old_key_is_not_needed : opened {| Secret.current := "k2"; Secret.keys := delete "k1" all_keys |} resealed = Some "sk-two".
Proof. vm_compute. reflexivity. Qed.
Example numbers : (fun s => (sd_VersionNo s, sd_KeyVersion s, sd_RotatedAt s)) <$> loadSecrets 1%N resealed
  = [(3, "k2", None); (2, "k1", Some 3000); (1, "k1", Some 2000)].
Proof. vm_compute. reflexivity. Qed.
(** An address that [url.Parse] refuses is taken for a name. *)
Example malformed_proxies_are_accepted :
  (normalizeProxyRef "ftp://proxy", normalizeProxyRef "http://proxy:port", normalizeProxyRef "ftp://proxy:port")
  = (Err ErrInvalidInput, Ok "http://proxy:port", Ok "ftp://proxy:port").
Proof. vm_compute. reflexivity. Qed.
(** The order of a Go map does not matter to metadata. *)
Example keys_that_collide : normalizeMetadata [("Team", "a"); ("team", "b")] = Err ErrInvalidInput.
Proof. vm_compute. reflexivity. Qed.

Definition revoke : UpdateInput RawMetadata :=
  {| ui_Region := None; ui_ProxyRef := None; ui_Metadata := None; ui_Status := Some "revoked"; ui_MaxConcurrency := None |}.
Definition Revoke_run := Service_Update [20]%N 9%N 1%N revoke "r4" 4000 resealed.
Definition revoked : CredDB := Revoke_run.1.
Definition failed (at_ : time) (until : option time) : HealthInput RawMetadata * time * time :=
  ({| hi_Succeeded := false; hi_ErrorClass := "rate_limited"; hi_CooldownUntil := until; hi_ObservedAt := at_; hi_Metadata := [] |}, at_, at_).
Definition succeeded (at_ : time) : HealthInput RawMetadata * time * time :=
  ({| hi_Succeeded := true; hi_ErrorClass := ""; hi_CooldownUntil := None; hi_ObservedAt := at_; hi_Metadata := [] |}, at_, at_).
(** A request that was already running and succeeds ends the cooldown. *)
Example a_success_ends_a_cooldown :
  (fun calls => hr_CooldownUntil <$> health (record_all 1%N calls rotated) !! 1%N)
    <$> [[failed 10000 (Some 70000)]; [failed 10000 (Some 70000); succeeded 11000]; [succeeded 9000; failed 10000 (Some 70000)]]
  = [Some (Some 70000); Some None; Some (Some 70000)].
Proof. vm_compute. reflexivity. Qed.

(** *** The properties at the run *)
Lemma providers_only_empty : no_credentials providers_only. Proof. repeat split. Qed.
Lemma nonces_ok : random_ok [nonce_of].
Proof. intros n Hn. apply list_elem_of_singleton in Hn. unfold nonce_of in Hn. injection Hn as ->. reflexivity. Qed.
Lemma old_in_all : old_keys ⊆ all_keys.
Proof. apply insert_subseteq. by vm_compute. Qed.
Lemma run_created : exists log, history all_keys providers_only log with_credential /\ latest log 1%N "api_key" = Some "sk-one".
Proof.
  destruct Create_run.2 as [c|e] eqn:E; [|vm_compute in E; discriminate E]. eexists. split.
  - eapply history_create with (k := old_ring) (nonces := [nonce_of]); [apply history_refl|exact old_in_all|exact nonces_ok|]. rewrite <- E. apply (surjective_pairing Create_run).
  - assert (cr_ID c = 1%N) as ->; [|reflexivity].
    assert (match Create_run.2 with Ok c => cr_ID c | Err _ => 0%N end = 1%N) as Hn by (vm_compute; reflexivity). by rewrite E in Hn.
Qed.
Lemma run_rotated : exists log, history all_keys providers_only log rotated /\ latest log 1%N "api_key" = Some "sk-two".
Proof.
  destruct run_created as (log & Hh & _). destruct Rotate_run.2 as [c|e] eqn:E; [|vm_compute in E; discriminate E]. eexists. split.
  - eapply history_rotate with (k := old_ring) (nonce := nonce_of); [exact Hh|exact old_in_all|exact nonces_ok|]. rewrite <- E. apply (surjective_pairing Rotate_run).
  - reflexivity.
Qed.
Lemma run_resealed : exists log, history all_keys providers_only log resealed /\ latest log 1%N "api_key" = Some "sk-two".
Proof.
  destruct run_rotated as (log & Hh & Hl). destruct Reencrypt_run.2 as [c|e] eqn:E; [|vm_compute in E; discriminate E].
  exists ([] ++ log)%list. split; [|exact Hl].
  eapply history_reencrypt with (k := new_ring) (nonce := nonce_of); [exact Hh|apply history_refl|reflexivity|exact nonces_ok|]. rewrite <- E. apply (surjective_pairing Reencrypt_run).
Qed.

Lemma credentials_open_to_their_last_secret_witness : exists rt, RevealAll new_ring 1%N resealed = Ok rt /\ rc_Secrets rt !! "api_key" = Some "sk-two".
Proof.
  destruct run_resealed as (log & Hh & Hl).
  destruct (credentials_open_to_their_last_secret all_keys providers_only log resealed new_ring 1%N) as (H1 & _ & _);
    [exact providers_only_empty|exact Hh|reflexivity|discriminate|].
  destruct (RevealAll new_ring 1%N resealed) as [rt|e] eqn:E; [|vm_compute in E; discriminate E].
  exists rt. split; [reflexivity|]. rewrite <- Hl. apply (H1 rt eq_refl).
Defined.

Lemma secret_versions_are_append_only_witness : exists r', secrets resealed !! 2%N = Some r' /\ sr_VersionNo r' = 1.
Proof.
  destruct run_created as (log & Hh & _). destruct (secrets with_credential !! 2%N) as [r|] eqn:E; [|vm_compute in E; discriminate E].
  assert (exists log', history all_keys with_credential log' resealed) as [log' Hq].
  { destruct Rotate_run.2 as [c|e] eqn:E1; [|vm_compute in E1; discriminate E1]. destruct Reencrypt_run.2 as [d|e] eqn:E2; [|vm_compute in E2; discriminate E2].
    eexists. eapply history_reencrypt with (k := new_ring) (nonce := nonce_of); [eapply history_rotate with (k := old_ring) (nonce := nonce_of); [apply history_refl|exact old_in_all|exact nonces_ok|]|apply history_refl|reflexivity|exact nonces_ok|].
    - rewrite <- E1. apply (surjective_pairing Rotate_run).
    - rewrite <- E2. apply (surjective_pairing Reencrypt_run). }
  destruct (secret_versions_are_append_only all_keys providers_only log with_credential log' resealed) as [H1 _]; [exact providers_only_empty|exact Hh|exact Hq|].
  destruct (H1 2%N r E) as (r' & Hr' & Hd). exists r'. split; [exact Hr'|].
  assert (sr_VersionNo r = 1) as Hn.
  { assert (sr_VersionNo <$> secrets with_credential !! 2%N = Some 1) as Hs by (vm_compute; reflexivity). rewrite E in Hs. by injection Hs. }
  destruct Hd as [->|(_ & t & ->)]; exact Hn.
Defined.

Lemma revoked_credentials_stay_closed_witness : is_ok (RevealAll new_ring 1%N revoked) = false.
Proof.
  destruct run_resealed as (log & Hh & _). destruct (credentials revoked !! 1%N) as [r|] eqn:E; [|vm_compute in E; discriminate E].
  assert (cw_Status r = StatusRevoked) as Hst.
  { assert (cw_Status <$> credentials revoked !! 1%N = Some StatusRevoked) as Hs by (vm_compute; reflexivity). rewrite E in Hs. by injection Hs. }
  destruct (revoked_credentials_stay_closed all_keys providers_only log revoked 1%N r [] revoked) as (_ & Hf & _); [exact providers_only_empty| |exact E|exact Hst| |exact (Hf new_ring)].
  - eapply history_update; [exact Hh|apply (surjective_pairing Revoke_run)].
  - apply history_refl.
Defined.

Lemma health_is_the_newest_observation_witness :
  seen_of <$> health (record_all 1%N [failed 10000 (Some 70000); succeeded 9000] rotated) !! 1%N
  = seen_of <$> health (record_all 1%N [succeeded 9000; failed 10000 (Some 70000)] rotated) !! 1%N.
Proof.
  destruct (health rotated !! 1%N) as [old|] eqn:E; [|vm_compute in E; discriminate E].
  assert (health_check old = true /\ hr_ObservedAt old = 1000) as [Hck Hat].
  { assert (match health rotated !! 1%N with Some r => health_check r = true /\ hr_ObservedAt r = 1000 | None => False end) as Hs
      by (vm_compute; done). rewrite E in Hs. exact Hs. }
  refine (proj2 (health_is_the_newest_observation 1%N [succeeded 9000; failed 10000 (Some 70000)]
           [failed 10000 (Some 70000); succeeded 9000] rotated old _ E Hck) _ _); [discriminate| |apply perm_swap].
  assert (hr_ObservedAt <$> omap observed_by [succeeded 9000; failed 10000 (Some 70000)] = [9000; 10000]) as Ht by (vm_compute; reflexivity).
  rewrite fmap_cons, Ht, Hat. by apply (bool_decide_unpack _).
Defined.
End CredentialDemo.
